(* ===== verification/_CoqProject ===== *)
-Q . S2P
Prelude.v
GoStrings.v
Unicode.v
Json.v
Float.v
GoTime.v
Regex.v
Quota.v
Version.v
Idempotency.v
Bytes.v
IdemStore.v
IdemConc.v
Base64.v
NetUrl.v
UrlCanon.v
StrictJson.v
JsonTypes.v
Netip.v
Replay.v
SigTypes.v
SigInput.v
SigBase.v
SafeFetch.v
Origin.v
Psl.v
Verify.v
VerifyThm.v
VerifyErr.v
Sign.v
SigProps.v
Registry.v
Syncer.v
SyncSpec.v
SyncProps.v
Jcs.v
JcsText.v
JcsProps.v
Signals.v
Targeting.v
TargetProps.v
TrustJson.v
TrustWf.v
Trust.v
TrustConc.v
TrustProps.v
GrantEff.v
Grants.v
Bindings.v
GrantProps.v
GrantSpec.v
GrantThm.v
TmpTypes.v
TmpUrl.v
TmpValidate.v
Provider.v
Filter.v
Health.v
CtxCache.v
Merge.v
RouterReg.v
Router.v
RouterThm.v
TmpJcs.v
TmpSign.v
TmpJcsThm.v
TmpSignThm.v
TmpAuth.v
Tmpx.v
TmpxThm.v
TmpxSeal.v
IdentityConfig.v
Membership.v
VerifiedId.v
IdentityService.v
IdentityThm.v
IdentityHandler.v
Sfv.v
Wba.v
WbaThm.v
