(* ===== verification/Prelude.v ===== *)
(** * adcp-go: a verification library

    adcp-go is the Go SDK of the Ad Context Protocol: MCP sellers and buyers
    ([src/adcp/v3]), request signing ([src/adcp/v3/signing]), idempotent calls
    ([src/adcp/v3/idempotency]), a registry mirror ([src/registry]) and the
    targeting agents of the Trusted Match protocol ([src/targeting],
    [src/tmproto], [src/router]).  This library models the parts of it that
    decide: who signed a request and whether it is new, whether a call is a
    retry and what it is answered, which protocol version is spoken, what a
    mirror holds after any history of its feed, which packages a request is
    offered, which agents may act for a brand, and what the router of the Trusted
    Match protocol tells its providers and its publishers.

    ** Files and the code they model

    - [Prelude]: Go's [(T, error)] results, int64 wrap-around, [time.Time] and
      [time.Duration] as integers of nanoseconds, and the automation all files
      share.  [GoStrings], [Unicode], [Base64], [Json], [NetUrl], [Float]: what
      the sources use of [strings], [strconv], [utf8], [utf16], [base64],
      [encoding/json], [net/url], and [GoTime], [Regex], [JsonTypes], [Netip]: of
      [time], [regexp], typed decoding and [net/netip]; strings are byte strings.
      [Unicode] has, as the class [Runtime], the Unicode case tables and SHA-256 as
      parameters.
    - [Quota]: [adcp/v3/internal/quota], the bounded history table.
    - [Version]: [adcp/v3/version.go], negotiation of a protocol release.
    - [Idempotency] (keys, scopes, entries, the evaluation of an existing
      entry), [IdemStore] (the memory backend as a state, the middleware
      [Wrap] as a program over backend effects, the abstract specification it
      refines) and [IdemConc] (requests, sweeps and failing calls interleaved
      as a step relation): [adcp/v3/idempotency].
    - [Jcs], [JcsText], [JcsProps]: [adcp/v3/idempotency/canonical.go], the
      canonical form and the payload hash that tell a retry from a conflict.
    - [UrlCanon]: [urlcanon].  [StrictJson]: [adcp/v3/internal/strictjson].
    - [Replay], [SigTypes], [SigInput], [SigBase], [Verify], [VerifyThm],
      [VerifyErr], [Sign], [SigProps]: the RFC 9421 profile of
      [adcp/v3/signing]: replay cache and revocation list, the header grammars,
      digest and signature base, the verifier on its signed and unsigned paths,
      the signer, and a concrete key pair for the witnesses.
    - [Sfv]: [adcp/v3/signing/sfv.go], the parser and serializer of structured fields.
      [Wba], [WbaThm]: the Web Bot Auth profile ([wba.go], [wba_sign.go],
      [thumbprint.go]): its choice, verifier, refusals, signature base and signer, and a
      concrete signer for the witnesses.
    - [Registry] (indexes, entities, the memory store), [Syncer] (the feed loop
      with its cursor and store), [SyncSpec] (what a feed says and the world the
      loop runs in), [SyncProps]: [registry].
    - [Signals], [Targeting], [TargetProps]: [targeting/signalstore] and the
      context engine of [targeting].
    - [SafeFetch]: [adcp/v3/internal/safefetch].  [Psl]: [adcp/v3/internal/psl].
      [Origin]: [adcp/v3/signing/origin.go].
    - [TrustJson] (the reader of trust records), [TrustWf] (what it accepts), [Trust]
      (caches, critical sections and the refresh program of the evaluator, the
      authority history), [TrustConc] (callers, refreshes and fetches interleaved,
      and schedules to run), [TrustProps]; [GrantEff], [Grants] (grants and the gate),
      [Bindings], [GrantProps] (chains), [GrantSpec] (every outcome and its cause),
      [GrantThm]: [adcp/v3/identity].
    - [TmpTypes], [TmpUrl], [TmpValidate]: messages, URL checks, request validation
      and the removal of credentials of [tmproto].  [Provider] (registrations, the
      provider set, discovery, drains), [Filter] (who is asked and sees what),
      [Health] (the circuit breaker as programs over atomics), [CtxCache] (the
      response cache), [Merge] (the merged answers), [RouterReg] (the property
      registry), [Router] (the handlers and the fan-out as threads over the shared
      cache) and [RouterThm]: [router].  [TmpJcs], [TmpJcsThm]: [tmproto/jcs.go], the
      canonical JSON of signing inputs; [TmpSign], [TmpSignThm], [TmpAuth]:
      [tmproto/signing.go] and [router/signing.go], signing inputs, signer, verifier,
      signature cache, and both ends together.
    - [Bytes]: big-endian integers and hexadecimal text.  [Tmpx], [TmpxThm]: exposure
      tokens, their plaintext, HPKE and wire form ([tmproto/tmpx.go], [tmpx_open.go]);
      [TmpxSeal]: the decoders of [targeting/tmpxdecoders] and the sealer
      of [targeting/identityagent].
    - [IdentityConfig]: segment rules and the mirrored configuration
      ([targeting/identityconfig]).  [Membership]: frequency caps and audiences with
      their stores ([targeting/fcap], [targeting/audience], the union stores).
      [VerifiedId]: attestations and the gate they open ([targeting/verified_identity*.go]
      and the stage of the agent).  [IdentityService] (the plan of a request, the two
      concurrent stages as a step relation, the join), [IdentityThm],
      [IdentityHandler] (the endpoint and what it answers):
      [targeting/identity_engine.go], [identityagent/service.go] and [handler.go].

    State is explicit everywhere: a Go struct is a [Record] with its fields, a
    Go map a [gmap] or, where order or duplicates matter, an association list, a
    method a function from state to state.  Effects that can fail or interleave
    (backend calls, handlers, clocks, polls of a deadline) are arguments or the
    constructors of a program that a step relation runs or a list of answers plays.
    Interfaces are classes:
    [ReplayStore] with its laws [ReplayStoreSpec], [ReplayClaimer] with
    [ReplayClaimerSpec], [Profile] and [Cursors] for
    the registry, [StorageSpec] for the targeting storage, [AuthorityHistory] with
    [AuthorityHistorySpec] for what the evaluator remembers of an operator,
    [FcapStore] with [FcapStoreSpec] and [AudienceStore] with [AudienceStoreSpec] for the
    stores of the identity agent, whose mock and union stores are instances.

    ** What the theorems show

    - Signing: an accepted request was signed by the key it names over exactly
      what the handler sees, within its window, and is accepted once
      ([SigProps.verify_sound], [replay_rejected], [body_for_handler]); what the
      signer signs the verifier accepts ([sign_then_verify]); an unsigned pass
      implies what the policy promises ([unsigned_sound]); the signature base
      determines the request ([SigBase.signature_base_injective]); header texts
      round-trip ([SigInput.parse_format_roundtrip]).
    - Web Bot Auth: a request is accepted only with one signature, which a key of the named
      agent's directory made over the base of this very request and its body
      ([WbaThm.wba_accepts_only_authentic]), and a nonce once
      ([wba_nonce_accepted_once]); what the signer signs is accepted
      ([wba_signed_accepted]); a base binds every covered part ([wba_base_binds]); every
      refusal is answered for its cause, and asks for what the verifier requires
      ([wba_refusal_answers]).  Structured fields are
      read back from what is written ([Sfv.structured_field_roundtrip]).
    - Idempotency: in any interleaving at most one handler runs per key and none
      after a success or an unknown outcome ([IdemConc.handlers_exclusive],
      [no_second_effect]); each call of the middleware refines the abstract
      specification ([IdemStore.wrap_refines_spec]); payloads hash alike exactly
      when they mean the same outside the excluded paths
      ([JcsProps.canonical_meaning], [retry_meaning], [strip_exact]).
    - Registry: the mirror says what the feed says, in every state of crashes,
      failing stores and hydrations and expiring cursors, as long as no process goes
      down behind its own saved cursor, and recovers
      ([SyncProps.feed_synced], [sync_recovers], [saved_cursor_safe]); the
      indexes agree with their records ([Registry.auth_index_correct],
      [property_index_correct]).
    - Targeting: every offer is for a package that qualifies, whatever lookups
      fail, and every qualifying package is offered when none do
      ([TargetProps.offer_sound], [offer_complete]).
    - Identity: a claim is authorized for one of four reasons and refused only when
      none holds in what could be read ([GrantThm.Check_authorized_only],
      [Check_refusal_complete]); the records behind it were published by the operators
      they speak for, in any interleaving ([TrustProps.evaluate_speaks_for],
      [GrantThm.spend_grant_published]); an operator is not taken to publish none while the
      history remembers that it served a record ([TrustProps.no_downgrade]); the gates let pass only
      bound, unrevoked, listed agents ([SyncAccounts_authorized],
      [AuthorizeWBA_principal]) and bindings are permanent; the validator
      decides the schema of a trust record ([TrustWf.vrecord_schema]) and the reader
      accepts only records of the schema that keep the rules beyond it
      ([ValidateTrustRecord_wf]), the dialer only public
      addresses ([SafeFetch.dial_only_public]), and every table is bounded
      ([TrustConc.evaluator_bounded]).
    - Router: under every interleaving of the legs an offer comes from an active
      provider of the request, through a reply to the same property, placement, seller
      and country ([RouterThm.no_cross_tenant_offers]); providers are sent no more than
      their share of a request, under the header signed for it
      ([identity_minimum_necessary], [context_sent_only]); the
      breaker opens after its threshold and lets one probe through
      ([Health.opens_only_after_threshold], [one_probe_per_opening]); the cache, the
      matcher, the merges, the registry and discovery do what their specifications say
      ([CtxCache.cache_hit_sound], [Filter.matchGlob_decides], [Merge.context_merge_spec],
      [identity_merge_spec], [RouterReg.snapshot_lookups], [Provider.poll_sound]);
      a validated identity request is well-formed
      ([TmpValidate.identity_request_bounds]), and stripping keeps a request valid exactly
      when no asset has a signed URL ([stripped_request_valid]).
    - TMP signing: what a verifier accepts, the holder of the key signed for this provider
      on this day or the day before, with the content that is signed (of each token the
      first copy, of the packages their identifiers joined)
      ([TmpAuth.identity_acceptance_authentic], [context_acceptance_authentic]); what the
      router sends, with cached signatures or fresh ones, its providers accept
      ([router_identity_authenticated], [router_context_authenticated]), and the cache
      never answers with the signature of another input ([signature_cache_transparent]).
    - Identity agent: in every order of its stages and whatever fails, it names only
      packages that were asked for and registered, whose audience rule is met, of which no
      cap stands under the keys the service looks up, and whose verified-identity
      requirements are met
      ([IdentityHandler.identity_answer_sound]), and all of those where stores answer and
      no stage cancels the other ([IdentityThm.eligible_exact]); an identity is trusted
      exactly when the verifier vouched for it ([VerifiedId.stage_trusts_exactly_vouched]);
      a recorded cap is enforced up to the last millisecond before the expiry recorded
      last ([Membership.recorded_cap_enforced]), upserts are exact ([upsert_exact]), and
      the configuration is the source's at its watermark, whatever starts and refreshes
      fail ([IdentityConfig.config_mirror]).
    - Exposure tokens: what is sealed opens to the same plaintext
      ([TmpxThm.open_seals_back]); the slots of an answer hold, in their order, the token
      of the selected entries ([TmpxSeal.sealed_token_delivered]), which are the longest
      prefix by priority that fits ([selectEntries_spec]); a World ID nullifier is put
      on the wire only for an identity that was vouched for
      ([IdentityHandler.nullifiers_on_wire_vouched]).
    - Versions, quotas, URLs and strict JSON: functional correctness on every
      branch, limits and equivalence with a reference definition.

    Theorems about behaviour the documentation denies (collisions, panics,
    windows that wrap) are stated as the code behaves and are named in the
    findings of the manifest.

    ** Fuel and bounds

    A loop that consumes its input runs on fuel one above the input's length; the
    JSON decoder on twice the length plus one, which [Json.parse_value_enough]
    proves enough, below the nesting limit 10000 of Go; case-folding orbits on
    eight rounds, the longest orbit of Unicode being four; the search for the
    shortest digits of a number on seventeen, with the exact expansion as the
    proven fallback; the odometer of [Signals.ExpandKeys] on the cap of 4096 that
    its sets are checked against; the glob matcher on one step per pair of
    positions and fall back.  Where fuel appears a theorem says that it
    suffices.

    ** Parameters

    [Runtime] (Unicode tables, SHA-256), [PublicSuffixList] (the snapshot of
    [golang.org/x/net/publicsuffix]), [Crypto] and [SignCrypto] (the JOSE and
    elliptic-curve libraries), [Jose] (thumbprints and JWK encoding of go-jose), the
    key resolver and the revocation checker of Web Bot Auth, [Blake3], the handlers, hashes and scopes that a
    program passes to the middleware, the registry's profile decoder and cursor
    store, the order in which the router's cache walks its map, what circuit,
    signer and providers answer a leg, [Ed25519] and the order that sorting gives to
    credentials of one audience, [X25519] and [ChaCha20Poly1305], the verifier of
    attestations, the age policy, the sidecar clients of the decoders, the configuration
    source and the order of a walk over a map.  A hypothesis on one of them (a matching key pair verifies, a digest
    does not collide on two given texts, a batch read is aligned) appears in the
    statement that needs it, and its witness instantiates it.

    ** Not modelled

    The message types of [adcp/v3] and the frozen v2 packages; HTTP servers, clients and
    caches around the modelled cores (the router's requests enter decoded); SQL, Redis and Valkey calls behind modelled
    interfaces; commands, examples, benchmarks and generators; metrics, logs and
    timing.  Go's memory model appears only as the interleaving of whole backend
    calls in [IdemConc], of loop iterations in [SyncSpec] and of critical sections in
    [TrustConc], of atomic operations in [Health], of the steps of legs in [Router] and of
    the stages in [IdentityService];
    elsewhere a function's reads see one state.  Sizes of in-memory objects never overflow an
    int.

    ** Next

    The key directories and revocation lists of Web Bot Auth ([adcp/v3/signing]), the
    idempotent tool adapters ([adcp/v3]), the key stores that fetch over HTTP ([tmproto]). *)
From Stdlib Require Export ZArith Lia Ascii.
From stdpp Require Export base tactics option list list_numbers gmap strings sorting.
From stdpp Require Import options.

(** ** Fallible computations: Go's [(T, error)] results

    A Go function that returns [(T, error)] is modelled by [result E T]: the
    error is a value, and Go's [if err != nil { return ..., err }] is [mbind]. *)

Inductive result (E A : Type) : Type :=
  | Ok (a : A)
  | Err (e : E).
Arguments Ok {E A} a.
Arguments Err {E A} e.

#[export] Instance result_ret {E} : MRet (result E) := λ A a, Ok a.
#[export] Instance result_bind {E} : MBind (result E) := λ A B f m,
  match m with Ok a => f a | Err e => Err e end.
#[export] Instance result_fmap {E} : FMap (result E) := λ A B f m,
  match m with Ok a => Ok (f a) | Err e => Err e end.

#[export] Instance result_eq_dec {E A} `{EqDecision E, EqDecision A} :
  EqDecision (result E A).
Proof. solve_decision. Defined.

Definition is_ok {E A} (m : result E A) : bool :=
  match m with Ok _ => true | Err _ => false end.

(** [opt_err e o]: a missing value becomes the error [e]. *)
Definition opt_err {E A} (e : E) (o : option A) : result E A :=
  match o with Some a => Ok a | None => Err e end.

(** [guard_err b e]: continue when [b] holds, otherwise fail with [e]. *)
Definition guard_err {E} (b : bool) (e : E) : result E unit :=
  if b then Ok tt else Err e.

Section result_lemmas.
Context {E : Type}.

Lemma bind_Ok {A B} (m : result E A) (f : A → result E B) b :
  m ≫= f = Ok b ↔ ∃ a, m = Ok a ∧ f a = Ok b.
Proof.
  destruct m as [a|e]; cbn; split; [eauto| |discriminate|].
  - intros (a' & ? & ?). by simplify_eq.
  - by intros (? & ? & ?).
Qed.

Lemma bind_Err {A B} (m : result E A) (f : A → result E B) e :
  m ≫= f = Err e ↔ m = Err e ∨ ∃ a, m = Ok a ∧ f a = Err e.
Proof.
  destruct m as [a|e']; cbn; split.
  - eauto.
  - intros [?|(a' & ? & ?)]; by simplify_eq.
  - intros [= ->]. by left.
  - intros [?|(? & ? & ?)]; by simplify_eq.
Qed.

Lemma guard_err_Ok b (e : E) u : guard_err b e = Ok u ↔ b = true.
Proof. destruct b, u; cbn; naive_solver. Qed.

Lemma opt_err_Ok {A} (e : E) (o : option A) a : opt_err e o = Ok a ↔ o = Some a.
Proof. destruct o; cbn; naive_solver. Qed.
End result_lemmas.

(** [res_inv] opens the successful runs of [result] computations among the
    hypotheses. *)
Ltac res_inv_step :=
  match goal with
  | H : @mbind _ result_bind _ _ _ _ = Ok _ |- _ =>
      let a := fresh "a" in apply bind_Ok in H as (a & ? & ?)
  | H : guard_err _ _ = Ok _ |- _ => apply guard_err_Ok in H
  | H : opt_err _ _ = Ok _ |- _ => apply opt_err_Ok in H
  | H : mret _ = Ok _ |- _ => injection H as H
  | H : Ok _ = Ok _ |- _ => injection H as H
  | H : Err _ = Ok _ |- _ => discriminate H
  | H : Ok _ = Err _ |- _ => discriminate H
  end.
Ltac res_inv := repeat (res_inv_step; simplify_eq/=).

(** [split_if] cases on every boolean a hypothesis or the goal branches on. *)
Ltac split_if_step :=
  match goal with
  | H : context [if ?b then _ else _] |- _ =>
      match type of b with bool => let E := fresh "Eb" in destruct b eqn:E end
  | |- context [if ?b then _ else _] =>
      match type of b with bool => let E := fresh "Eb" in destruct b eqn:E end
  end.
Ltac split_if := repeat (split_if_step; simplify_eq/=; try done).

(** [bool_prop] turns boolean hypotheses into propositions. *)
Ltac bool_prop :=
  repeat match goal with
  | H : negb _ = true |- _ => apply negb_true_iff in H
  | H : negb _ = false |- _ => apply negb_false_iff in H
  | H : (_ && _)%bool = true |- _ => apply andb_true_iff in H as [? ?]
  | H : (_ || _)%bool = false |- _ => apply orb_false_iff in H as [? ?]
  | H : (_ && _)%bool = false |- _ => apply andb_false_iff in H
  | H : (_ || _)%bool = true |- _ => apply orb_true_iff in H
  | H : bool_decide _ = true |- _ => apply bool_decide_eq_true in H
  | H : bool_decide _ = false |- _ => apply bool_decide_eq_false in H
  | H : (_ <=? _)%Z = true |- _ => apply Z.leb_le in H
  | H : (_ <=? _)%Z = false |- _ => apply Z.leb_gt in H
  | H : (_ <? _)%Z = true |- _ => apply Z.ltb_lt in H
  | H : (_ <? _)%Z = false |- _ => apply Z.ltb_ge in H
  | H : (_ =? _)%Z = true |- _ => apply Z.eqb_eq in H
  | H : (_ =? _)%Z = false |- _ => apply Z.eqb_neq in H
  | H : (_ <=? _)%nat = true |- _ => apply Nat.leb_le in H
  | H : (_ <=? _)%nat = false |- _ => apply Nat.leb_gt in H
  | H : (_ <? _)%nat = true |- _ => apply Nat.ltb_lt in H
  | H : (_ <? _)%nat = false |- _ => apply Nat.ltb_ge in H
  | H : (_ =? _)%nat = true |- _ => apply Nat.eqb_eq in H
  | H : (_ =? _)%nat = false |- _ => apply Nat.eqb_neq in H
  end.

(** ** Machine integers *)

Definition int64_min : Z := - 2 ^ 63.
Definition int64_max : Z := 2 ^ 63 - 1.
Definition in_int64 (z : Z) : Prop := (int64_min ≤ z ≤ int64_max)%Z.
#[export] Instance in_int64_dec z : Decision (in_int64 z).
Proof. unfold in_int64. apply _. Defined.

(** Two's complement wrap-around of Go's [int64] arithmetic. *)
Definition wrap64 (z : Z) : Z := ((z + 2 ^ 63) mod 2 ^ 64 - 2 ^ 63)%Z.

Lemma wrap64_id z : in_int64 z → wrap64 z = z.
Proof.
  unfold in_int64, wrap64, int64_min, int64_max. intros H.
  rewrite Z.mod_small; lia.
Qed.

Lemma wrap64_range z : in_int64 (wrap64 z).
Proof.
  unfold in_int64, wrap64, int64_min, int64_max.
  pose proof (Z.mod_pos_bound (z + 2 ^ 63) (2 ^ 64) ltac:(lia)). lia.
Qed.

(** ** Time

    A [time.Time] is the number of nanoseconds since the zero [Time] (January
    1, year 1, UTC), unbounded; a [time.Duration] is a number of nanoseconds. *)

Abbreviation Time := Z (only parsing).
Abbreviation Duration := Z (only parsing).

Definition Nanosecond : Duration := 1%Z.
Definition Second : Duration := 1000000000%Z.
Definition Minute : Duration := (60 * Second)%Z.
Definition Hour : Duration := (60 * Minute)%Z.

(** [Time.IsZero], [Time.After], [Time.Add], [Time.Sub] (which saturates at
    the bounds of a [Duration]) and [Duration.Truncate] (towards zero). *)
Definition IsZero (t : Time) : bool := (t =? 0)%Z.
Definition After (t u : Time) : bool := (u <? t)%Z.
Definition Add (t : Time) (d : Duration) : Time := (t + d)%Z.
Definition Sub (t u : Time) : Duration :=
  Z.max int64_min (Z.min int64_max (t - u))%Z.
Definition Truncate (d m : Duration) : Duration :=
  if (m <=? 0)%Z then d else (d - Z.rem d m)%Z.

(** [Time.Unix]: seconds since January 1, 1970. *)
Definition unixToInternal : Z := 62135596800%Z.
Definition Unix (t : Time) : Z := (t / Second - unixToInternal)%Z.

(** ** Lists *)

Lemma NoDup_snoc {A} (l : list A) x : NoDup (l ++ [x]) ↔ NoDup l ∧ x ∉ l.
Proof.
  rewrite NoDup_app. split.
  - intros (Hl & H & _). split; [done|]. intros Hx. apply (H x Hx). set_solver.
  - intros (? & H). split; [done|]. split; [set_solver|apply NoDup_singleton].
Qed.

Lemma forallb_forall_Forall {A} (f : A → bool) l :
  forallb f l = true → Forall (λ x, f x = true) l.
Proof.
  induction l as [|x l IH]; cbn; [by constructor|].
  intros [? ?]%andb_true_iff. constructor; auto.
Qed.

Create HintDb go.
#[export] Hint Resolve wrap64_range : go.
