(* ===== verification/GoStrings.v ===== *)
(** * Go strings

    A Go [string] is a sequence of bytes; it is modelled by [string], whose
    characters are 8-bit [ascii] values.  This file defines the functions of
    Go's [strings] and [strconv] packages that the modelled sources call, and
    the lemmas about them that the components share. *)
From S2P Require Import Prelude.
From stdpp Require Import options.

(** ** Bytes *)

Definition code (c : ascii) : Z := Z.of_N (N_of_ascii c).

(** [byte n]: the byte of value [n]. *)
Definition byte (n : Z) : ascii := ascii_of_N (Z.to_N n).

Definition between (lo hi : Z) (c : ascii) : bool :=
  ((lo <=? code c) && (code c <=? hi))%Z.

Definition quote : ascii := byte 34.
Definition backslash : ascii := byte 92.

(** Decidable equality of bytes, as a boolean test that computes. *)
Definition beq (a b : ascii) : bool := Ascii.eqb a b.

Lemma beq_eq a b : beq a b = true ↔ a = b.
Proof. apply Ascii.eqb_eq. Qed.

Lemma beq_neq a b : beq a b = false ↔ a ≠ b.
Proof. apply Ascii.eqb_neq. Qed.

Lemma beq_refl a : beq a a = true.
Proof. by apply beq_eq. Qed.

Lemma code_range c : (0 ≤ code c < 256)%Z.
Proof. unfold code. pose proof (N_ascii_bounded c). lia. Qed.

Lemma code_byte n : (0 ≤ n < 256)%Z → code (byte n) = n.
Proof. intros. unfold code, byte. rewrite N_ascii_embedding; lia. Qed.

Lemma byte_code c : byte (code c) = c.
Proof. unfold code, byte. rewrite N2Z.id. apply ascii_N_embedding. Qed.

Lemma code_inj a b : code a = code b → a = b.
Proof. intros H. by rewrite <- (byte_code a), H, byte_code. Qed.

(** ** Conversions and lengths *)

Abbreviation explode := String.list_ascii_of_string.
Abbreviation implode := String.string_of_list_ascii.

Definition len (s : string) : nat := String.length s.
Arguments len : simpl never.

Lemma implode_explode s : implode (explode s) = s.
Proof. apply String.string_of_list_ascii_of_string. Qed.

Lemma explode_implode l : explode (implode l) = l.
Proof. apply String.list_ascii_of_string_of_list_ascii. Qed.

Lemma explode_inj s t : explode s = explode t → s = t.
Proof. intros H. by rewrite <- (implode_explode s), H, implode_explode. Qed.

Lemma explode_app s t : explode (s +:+ t) = explode s ++ explode t.
Proof.
  induction s as [|c s IH]; [done|].
  change (String c s +:+ t) with (String c (s +:+ t)). cbn. by f_equal.
Qed.

Lemma implode_app l k : implode (l ++ k) = implode l +:+ implode k.
Proof.
  induction l as [|c l IH]; [done|]. cbn. rewrite IH.
  by change (String c (implode l) +:+ implode k) with (String c (implode l +:+ implode k)).
Qed.

Lemma len_explode s : length (explode s) = len s.
Proof. unfold len. induction s as [|c s IH]; cbn; [done|]. by f_equal. Qed.

Lemma len_cons c s : len (String c s) = S (len s).
Proof. done. Qed.

Lemma sapp_nil_l s : "" +:+ s = s.
Proof. done. Qed.

Lemma sapp_cons c s t : String c s +:+ t = String c (s +:+ t).
Proof. done. Qed.

Lemma sapp_nil_r s : s +:+ "" = s.
Proof. apply explode_inj. rewrite explode_app. cbn. by rewrite app_nil_r. Qed.

Lemma sapp_assoc s t u : (s +:+ t) +:+ u = s +:+ (t +:+ u).
Proof. apply explode_inj. rewrite !explode_app. by rewrite (assoc_L (++)). Qed.

Lemma len_app s t : len (s +:+ t) = len s + len t.
Proof. rewrite <- !len_explode, explode_app. apply length_app. Qed.

Lemma sapp_inj_l s t u : s +:+ t = s +:+ u → t = u.
Proof.
  intros H%(f_equal explode). rewrite !explode_app in H.
  apply explode_inj. by apply app_inv_head in H.
Qed.

Lemma sapp_inj_len s1 s2 t1 t2 :
  len s1 = len s2 → s1 +:+ t1 = s2 +:+ t2 → s1 = s2 ∧ t1 = t2.
Proof.
  intros Hl H%(f_equal explode). rewrite !explode_app in H.
  apply app_inj_1 in H as [??]; [|by rewrite !len_explode].
  split; by apply explode_inj.
Qed.

Create Rewrite HintDb gostr.
#[export] Hint Rewrite sapp_nil_r sapp_assoc len_app sapp_nil_l sapp_cons : gostr.

(** ** All bytes of a string satisfy a test *)

Fixpoint all_bytes (P : ascii → bool) (s : string) : bool :=
  match s with
  | "" => true
  | String c s' => P c && all_bytes P s'
  end.

Lemma all_bytes_app P s t : all_bytes P (s +:+ t) = all_bytes P s && all_bytes P t.
Proof.
  induction s as [|c s IH]; [done|]. rewrite sapp_cons. cbn.
  rewrite IH. by rewrite andb_assoc.
Qed.

Lemma all_bytes_impl (P Q : ascii → bool) s :
  (∀ c, P c = true → Q c = true) → all_bytes P s = true → all_bytes Q s = true.
Proof.
  intros H. induction s as [|c s IH]; cbn; [done|].
  rewrite !andb_true_iff. intros [??]. auto.
Qed.

(** ** Prefixes *)

Definition HasPrefix (s p : string) : bool := String.prefix p s.

Fixpoint sdrop (n : nat) (s : string) : string :=
  match n, s with
  | 0, _ => s
  | S n', String _ s' => sdrop n' s'
  | S _, "" => ""
  end.

Fixpoint stake (n : nat) (s : string) : string :=
  match n, s with
  | 0, _ => ""
  | S n', String c s' => String c (stake n' s')
  | S _, "" => ""
  end.

Definition CutPrefix (s p : string) : option string :=
  if HasPrefix s p then Some (sdrop (len p) s) else None.

Definition TrimPrefix (s p : string) : string :=
  if HasPrefix s p then sdrop (len p) s else s.

Lemma sdrop_app s t : sdrop (len s) (s +:+ t) = t.
Proof. induction s; [by destruct t|done]. Qed.

Lemma stake_app s t : stake (len s) (s +:+ t) = s.
Proof.
  induction s as [|c s IH]; [by destruct t|]. rewrite sapp_cons.
  unfold len in *. cbn. by f_equal.
Qed.

Lemma stake_sdrop n s : stake n s +:+ sdrop n s = s.
Proof.
  revert s. induction n as [|n IH]; intros [|c s]; try done.
  cbn. rewrite sapp_cons. by f_equal.
Qed.

Lemma len_sdrop n s : len (sdrop n s) = len s - n.
Proof.
  revert s. induction n as [|n IH]; intros [|c s]; try done.
  cbn [sdrop]. rewrite IH, len_cons. lia.
Qed.

Lemma len_stake n s : len (stake n s) = Nat.min n (len s).
Proof.
  pose proof (f_equal len (stake_sdrop n s)) as H.
  rewrite len_app, len_sdrop in H. lia.
Qed.

Lemma HasPrefix_app p t : HasPrefix (p +:+ t) p = true.
Proof.
  unfold HasPrefix. induction p as [|c p IH]; [by destruct t|].
  rewrite sapp_cons. cbn. by destruct (ascii_dec c c).
Qed.

Lemma HasPrefix_true s p : HasPrefix s p = true → ∃ t, s = p +:+ t.
Proof.
  unfold HasPrefix. revert s. induction p as [|c p IH]; intros s H; [by exists s|].
  destruct s as [|d s]; [done|]. cbn in H.
  destruct (ascii_dec c d) as [->|]; [|done].
  destruct (IH s H) as [t ->]. by exists t.
Qed.

Lemma CutPrefix_Some s p t : CutPrefix s p = Some t ↔ s = p +:+ t.
Proof.
  unfold CutPrefix. split.
  - destruct (HasPrefix s p) eqn:H; [|done]. intros [= <-].
    destruct (HasPrefix_true _ _ H) as [t ->]. by rewrite sdrop_app.
  - intros ->. by rewrite HasPrefix_app, sdrop_app.
Qed.

Lemma TrimPrefix_app p t : TrimPrefix (p +:+ t) p = t.
Proof. unfold TrimPrefix. by rewrite HasPrefix_app, sdrop_app. Qed.

(** ** Searching for a byte *)

Definition contains_byte (s : string) (c : ascii) : bool :=
  negb (all_bytes (λ d, negb (beq d c)) s).

Fixpoint IndexByte (s : string) (c : ascii) : option nat :=
  match s with
  | "" => None
  | String d s' => if beq d c then Some 0 else S <$> IndexByte s' c
  end.

Fixpoint LastIndexByte (s : string) (c : ascii) : option nat :=
  match s with
  | "" => None
  | String d s' =>
      match LastIndexByte s' c with
      | Some i => Some (S i)
      | None => if beq d c then Some 0 else None
      end
  end.

(** [strings.Cut] at a one-byte separator. *)
Definition Cut (s : string) (c : ascii) : string * string * bool :=
  match IndexByte s c with
  | Some i => (stake i s, sdrop (S i) s, true)
  | None => (s, "", false)
  end.

(** [strings.Split] at a one-byte separator. *)
Fixpoint Split (s : string) (c : ascii) : list string :=
  match s with
  | "" => [""]
  | String d s' =>
      if beq d c then "" :: Split s' c
      else match Split s' c with
           | p :: ps => String d p :: ps
           | [] => [String d ""]
           end
  end.

Fixpoint Join (parts : list string) (sep : string) : string :=
  match parts with
  | [] => ""
  | [p] => p
  | p :: ps => p +:+ sep +:+ Join ps sep
  end.

Fixpoint Repeat (s : string) (n : nat) : string :=
  match n with 0 => "" | S n' => s +:+ Repeat s n' end.

Lemma contains_byte_cons d s c :
  contains_byte (String d s) c = beq d c || contains_byte s c.
Proof. unfold contains_byte. cbn. by rewrite negb_andb, negb_involutive. Qed.

Lemma contains_byte_app s t c :
  contains_byte (s +:+ t) c = contains_byte s c || contains_byte t c.
Proof. unfold contains_byte. by rewrite all_bytes_app, negb_andb. Qed.

Lemma all_bytes_no (P : ascii → bool) s c :
  P c = false → all_bytes P s = true → contains_byte s c = false.
Proof.
  intros Hc. induction s as [|d s IH]; [done|]. rewrite contains_byte_cons. cbn.
  rewrite andb_true_iff, orb_false_iff. intros [Hd ?]. split; [|auto].
  apply beq_neq. congruence.
Qed.

Lemma IndexByte_None s c : IndexByte s c = None ↔ contains_byte s c = false.
Proof.
  induction s as [|d s IH]; [done|]. rewrite contains_byte_cons. cbn.
  destruct (beq d c); [done|]. cbn. rewrite <- IH.
  by destruct (IndexByte s c).
Qed.

Lemma IndexByte_app s t c :
  contains_byte s c = false → IndexByte (s +:+ String c t) c = Some (len s).
Proof.
  induction s as [|d s IH]; intros H.
  - rewrite sapp_nil_l. cbn. by rewrite beq_refl.
  - rewrite contains_byte_cons in H. apply orb_false_iff in H as [Hd Hs].
    rewrite sapp_cons. cbn. rewrite Hd, (IH Hs). done.
Qed.

Lemma IndexByte_Some s c i :
  IndexByte s c = Some i →
  ∃ t, s = stake i s +:+ String c t ∧ len (stake i s) = i ∧
       contains_byte (stake i s) c = false ∧ t = sdrop (S i) s.
Proof.
  revert i. induction s as [|d s IH]; intros i; [done|]. cbn.
  destruct (beq d c) eqn:E.
  - intros [= <-]. apply beq_eq in E as ->. by exists s.
  - destruct (IndexByte s c) as [j|]; [|done]. intros [= <-].
    destruct (IH j eq_refl) as (t & Hs & Hl & Hc & Ht). exists t. cbn.
    rewrite sapp_cons, contains_byte_cons, E, Hc. unfold len in *. cbn.
    split_and!; [by f_equal|by f_equal|done|done].
Qed.

Lemma LastIndexByte_None s c : LastIndexByte s c = None ↔ contains_byte s c = false.
Proof.
  induction s as [|d s IH]; [done|]. rewrite contains_byte_cons. cbn.
  destruct (LastIndexByte s c) as [j|]; [|].
  - split; [done|]. rewrite orb_false_iff. intros [_ H]. by apply IH in H.
  - destruct IH as [IH _]. rewrite (IH eq_refl). by destruct (beq d c).
Qed.

Lemma LastIndexByte_app s t c :
  contains_byte t c = false → LastIndexByte (s +:+ String c t) c = Some (len s).
Proof.
  intros Ht. induction s as [|d s IH].
  - rewrite sapp_nil_l. cbn. apply LastIndexByte_None in Ht as ->. by rewrite beq_refl.
  - rewrite sapp_cons. cbn. by rewrite IH.
Qed.

Lemma Cut_app s t c : contains_byte s c = false → Cut (s +:+ String c t) c = (s, t, true).
Proof.
  intros H. unfold Cut. rewrite IndexByte_app by done. rewrite stake_app.
  f_equal. f_equal.
  replace (s +:+ String c t) with ((s +:+ String c "") +:+ t) by (by rewrite sapp_assoc).
  replace (S (len s)) with (len (s +:+ String c "")); [by rewrite sdrop_app|].
  rewrite len_app. unfold len. cbn. lia.
Qed.

Lemma Split_nonempty s c : Split s c ≠ [].
Proof. destruct s as [|d s]; cbn; [done|]. destruct (beq d c); [done|]. by case_match. Qed.

Lemma Split_app s t c :
  contains_byte s c = false → Split (s +:+ String c t) c = s :: Split t c.
Proof.
  induction s as [|d s IH]; intros H.
  - rewrite sapp_nil_l. cbn. by rewrite beq_refl.
  - rewrite contains_byte_cons in H. apply orb_false_iff in H as [Hd Hs].
    rewrite sapp_cons. cbn. by rewrite Hd, (IH Hs).
Qed.

Lemma Split_single s c : contains_byte s c = false → Split s c = [s].
Proof.
  induction s as [|d s IH]; intros H; [done|].
  rewrite contains_byte_cons in H. apply orb_false_iff in H as [Hd Hs].
  cbn. by rewrite Hd, (IH Hs).
Qed.

Lemma Split_Join l sep :
  l ≠ [] → Forall (λ s, contains_byte s sep = false) l → Split (Join l (String sep "")) sep = l.
Proof.
  intros Hne H. induction H as [|x l Hx Hl IH]; [done|]. destruct l as [|y l]; [by apply Split_single|].
  change (Join (x :: y :: l) (String sep "")) with (x +:+ String sep (Join (y :: l) (String sep ""))).
  rewrite Split_app by done. by rewrite IH.
Qed.

Lemma Join_inj l k sep :
  l ≠ [] → k ≠ [] → Forall (λ s, contains_byte s sep = false) l → Forall (λ s, contains_byte s sep = false) k →
  Join l (String sep "") = Join k (String sep "") → l = k.
Proof. intros Hl Hk Cl Ck E. rewrite <- (Split_Join l sep Hl Cl), E. by apply Split_Join. Qed.

Lemma Join_no_byte l d c : c ≠ d → Forall (λ s, contains_byte s c = false) l → contains_byte (Join l (String d "")) c = false.
Proof.
  intros Hc. induction 1 as [|x l Hx Hl IH]; [done|]. destruct l as [|y l]; [done|].
  change (Join (x :: y :: l) (String d "")) with (x +:+ String d (Join (y :: l) (String d ""))).
  rewrite contains_byte_app, contains_byte_cons, Hx, IH. cbn [orb]. rewrite orb_false_r. by apply beq_neq.
Qed.

Lemma split_first a b s t c : contains_byte a c = false → contains_byte b c = false →
  a +:+ String c s = b +:+ String c t → a = b ∧ s = t.
Proof.
  intros Ha Hb E. pose proof (Cut_app a s c Ha) as H1. rewrite E, (Cut_app b t c Hb) in H1. by simplify_eq.
Qed.

Lemma Split_all_bytes P s c :
  Forall (λ part, all_bytes P part = true) (Split s c) → P c = true →
  all_bytes P s = true.
Proof.
  intros H Hc. induction s as [|d s IH]; [done|]. cbn in *.
  destruct (beq d c) eqn:E.
  - apply beq_eq in E as ->. rewrite Hc. apply IH. by inversion H.
  - destruct (Split s c) as [|p ps].
    + apply Forall_cons in H as [H _]. cbn in H. apply andb_true_iff in H as [-> _].
      apply IH. by constructor.
    + apply Forall_cons in H as [H Hps]. cbn in H. apply andb_true_iff in H as [-> ?].
      apply IH. by constructor.
Qed.

(** ** Trimming

    [ltrim P] drops the leading bytes that satisfy [P]; [strings.TrimLeft],
    [TrimRight] and [Trim] with an ASCII cut set are instances. *)

Fixpoint ltrim (P : ascii → bool) (l : list ascii) : list ascii :=
  match l with
  | [] => []
  | c :: l' => if P c then ltrim P l' else l
  end.

Definition rtrim (P : ascii → bool) (l : list ascii) : list ascii :=
  reverse (ltrim P (reverse l)).

Definition TrimLeft (P : ascii → bool) (s : string) : string :=
  implode (ltrim P (explode s)).
Definition TrimRight (P : ascii → bool) (s : string) : string :=
  implode (rtrim P (explode s)).
Definition Trim (P : ascii → bool) (s : string) : string :=
  implode (rtrim P (ltrim P (explode s))).

Definition is_ows (c : ascii) : bool := (code c =? 32)%Z || (code c =? 9)%Z.
Definition is_sp (c : ascii) : bool := (code c =? 32)%Z.

(** [unicode.IsSpace] on one-, two- and three-byte UTF-8 sequences. *)
Definition space1 (c : ascii) : bool := between 9 13 c || is_sp c.
Definition space2 (a b : ascii) : bool :=
  ((code a =? 194) && ((code b =? 133) || (code b =? 160)))%Z.
Definition space3 (a b c : ascii) : bool :=
  let x := code a in let y := code b in let z := code c in
  (((x =? 225) && (y =? 154) && (z =? 128)) ||
   ((x =? 226) && (y =? 128) &&
      (((128 <=? z) && (z <=? 138)) || (z =? 168) || (z =? 169) || (z =? 175))) ||
   ((x =? 226) && (y =? 129) && (z =? 159)) ||
   ((x =? 227) && (y =? 128) && (z =? 128)))%Z.
Arguments space1 : simpl never.
Arguments space2 : simpl never.
Arguments space3 : simpl never.

(** [strings.TrimSpace]: white space runes of one, two or three bytes are
    dropped from both ends; each round drops at least one byte, so [length l]
    rounds reach the end. *)
Fixpoint ltrim_space (fuel : nat) (l : list ascii) : list ascii :=
  match fuel, l with
  | S n, a :: l1 =>
      if space1 a then ltrim_space n l1 else
      match l1 with
      | b :: l2 =>
          if space2 a b then ltrim_space n l2 else
          match l2 with
          | c :: l3 => if space3 a b c then ltrim_space n l3 else l
          | [] => l
          end
      | [] => l
      end
  | _, _ => l
  end.

(** The same from the end of the text, on the reversed bytes. *)
Fixpoint rtrim_space (fuel : nat) (l : list ascii) : list ascii :=
  match fuel, l with
  | S n, a :: l1 =>
      if space1 a then rtrim_space n l1 else
      match l1 with
      | b :: l2 =>
          if space2 b a then rtrim_space n l2 else
          match l2 with
          | c :: l3 => if space3 c b a then rtrim_space n l3 else l
          | [] => l
          end
      | [] => l
      end
  | _, _ => l
  end.

Definition TrimSpace (s : string) : string :=
  let l := ltrim_space (len s) (explode s) in
  implode (reverse (rtrim_space (length l) (reverse l))).

(** A printable ASCII byte other than the space neither is nor starts nor ends
    a white space rune. *)
Definition is_graph (c : ascii) : bool := between 33 126 c.

Lemma graph_not_space c : is_graph c = true →
  space1 c = false ∧ (∀ b, space2 c b = false ∧ space2 b c = false) ∧
  ∀ a b, space3 c a b = false ∧ space3 a b c = false.
Proof.
  unfold is_graph, between, space1, space2, space3, is_sp, between.
  intros [?%Z.leb_le ?%Z.leb_le]%andb_true_iff. split; [|split]; intros.
  - lia.
  - split; lia.
  - split; lia.
Qed.

Lemma ltrim_space_graph n c l : is_graph c = true → ltrim_space n (c :: l) = c :: l.
Proof.
  intros (H1 & H2 & H3)%graph_not_space. destruct n as [|n]; [done|]. cbn.
  rewrite H1. destruct l as [|b l]; [done|]. destruct (H2 b) as [-> _].
  destruct l as [|d l]; [done|]. by destruct (H3 b d) as [-> _].
Qed.

Lemma rtrim_space_graph n c l : is_graph c = true → rtrim_space n (c :: l) = c :: l.
Proof.
  intros (H1 & H2 & H3)%graph_not_space. destruct n as [|n]; [done|]. cbn.
  rewrite H1. destruct l as [|b l]; [done|]. destruct (H2 b) as [_ ->].
  destruct l as [|d l]; [done|]. by destruct (H3 d b) as [_ ->].
Qed.

(** A string whose first and last bytes are printable is not changed. *)
Lemma TrimSpace_ends c s : ∀ t d,
  is_graph c = true → is_graph d = true →
  s = String c t → (∃ u, s = u +:+ String d "") → TrimSpace s = s.
Proof.
  intros t d Hc Hd Hs [u Hu]. unfold TrimSpace.
  assert (explode s = c :: explode t) as He by (by subst).
  rewrite He, ltrim_space_graph by done. rewrite <- He.
  rewrite Hu, explode_app. cbn. rewrite reverse_app. cbn.
  rewrite rtrim_space_graph by done.
  rewrite reverse_cons, reverse_involutive, implode_app.
  by rewrite implode_explode.
Qed.

Lemma TrimSpace_graph s : all_bytes is_graph s = true → TrimSpace s = s.
Proof.
  intros H. destruct s as [|c t] eqn:E; [done|].
  destruct (exists_last (l:=explode s)) as (u & d & Hu); [by subst|].
  assert (s = implode u +:+ String d "") as Hs.
  { rewrite <- (implode_explode s), Hu, implode_app. done. }
  rewrite <- E in *. eapply TrimSpace_ends; [| |by subst|by exists (implode u)].
  - subst s. cbn in H. by apply andb_true_iff in H as [? _].
  - rewrite Hs, all_bytes_app in H. apply andb_true_iff in H as [_ H].
    cbn in H. by rewrite andb_true_r in H.
Qed.

(** ** Letter case

    [lower]/[upper] are the ASCII parts of [strings.ToLower]/[ToUpper]. *)
Definition lower_byte (c : ascii) : ascii :=
  if between 65 90 c then byte (code c + 32) else c.
Definition upper_byte (c : ascii) : ascii :=
  if between 97 122 c then byte (code c - 32) else c.

Fixpoint smap (f : ascii → ascii) (s : string) : string :=
  match s with "" => "" | String c s' => String (f c) (smap f s') end.

Definition lower : string → string := smap lower_byte.
Definition upper : string → string := smap upper_byte.

(** ** Decimal numbers: [strconv.Itoa], [FormatInt] and [ParseInt] (base 10) *)

Definition is_digit (c : ascii) : bool := between 48 57 c.

(** Digits of [n], least significant last, in front of [acc]. *)
Fixpoint udigits (fuel : nat) (n : Z) (acc : string) : string :=
  match fuel with
  | 0 => acc
  | S f =>
      let acc' := String (byte (48 + n mod 10)) acc in
      if (n <? 10)%Z then acc' else udigits f (n / 10) acc'
  end.

(** [log2 n + 1] rounds reach a one-digit number: each division by ten at
    least halves it. *)
Definition Utoa (n : Z) : string := udigits (S (Z.to_nat (Z.log2 n))) n "".
Definition Itoa (z : Z) : string :=
  if (z <? 0)%Z then "-" +:+ Utoa (- z) else Utoa z.

Fixpoint digits_val (acc : Z) (s : string) : option Z :=
  match s with
  | "" => Some acc
  | String c s' =>
      if is_digit c then digits_val (10 * acc + (code c - 48)) s' else None
  end.

Definition ParseUint (s : string) : option Z :=
  match s with "" => None | _ => digits_val 0%Z s end.

(** [strconv.ParseInt(s, 10, 64)] (and [Atoi]): an optional sign, at least one
    digit, and a value that fits in an [int64]. *)
Definition ParseInt (s : string) : option Z :=
  let '(neg, ds) :=
    match s with
    | String c s' =>
        if beq c "-" then (true, s') else if beq c "+" then (false, s') else (false, s)
    | "" => (false, s)
    end in
  n ← ParseUint ds;
  let z := if neg : bool then (- n)%Z else n in
  if bool_decide (in_int64 z) then Some z else None.

Lemma digit_byte n : (0 ≤ n < 10)%Z →
  is_digit (byte (48 + n)) = true ∧ code (byte (48 + n)) = (48 + n)%Z.
Proof. intros. unfold is_digit, between. rewrite code_byte by lia. split; lia. Qed.

Lemma digits_val_udigits fuel n acc :
  (0 ≤ n < 2 ^ Z.of_nat fuel)%Z → fuel ≠ 0 →
  digits_val 0%Z (udigits fuel n acc) = digits_val n acc.
Proof.
  revert n acc. induction fuel as [|f IH]; intros n acc Hn Hf; [done|].
  cbn [udigits]. destruct (Z.ltb_spec n 10).
  - cbn [digits_val]. destruct (digit_byte (n mod 10)) as [-> ->].
    { apply Z.mod_pos_bound. lia. }
    f_equal. rewrite Z.mod_small; lia.
  - rewrite IH.
    + cbn [digits_val]. destruct (digit_byte (n mod 10)) as [-> ->].
      { apply Z.mod_pos_bound. lia. }
      f_equal. pose proof (Z.div_mod n 10 ltac:(lia)). lia.
    + rewrite Nat2Z.inj_succ, Z.pow_succ_r in Hn by lia. split.
      * apply Z.div_pos; lia.
      * apply Z.div_lt_upper_bound; lia.
    + intros ->. cbn in Hn. lia.
Qed.

Lemma udigits_digits fuel n acc :
  all_bytes is_digit acc = true → (0 ≤ n)%Z →
  all_bytes is_digit (udigits fuel n acc) = true.
Proof.
  revert n acc. induction fuel as [|f IH]; intros n acc Ha Hn; [done|].
  cbn [udigits]. pose proof (Z.mod_pos_bound n 10 ltac:(lia)).
  assert (all_bytes is_digit (String (byte (48 + n mod 10)) acc) = true).
  { cbn [all_bytes]. destruct (digit_byte (n mod 10)) as [-> _]; [done|]. by rewrite Ha. }
  destruct (n <? 10)%Z; [done|]. apply IH; [done|]. apply Z.div_pos; lia.
Qed.

Lemma udigits_nonempty fuel n acc : fuel ≠ 0 → udigits fuel n acc ≠ "".
Proof.
  assert (∀ f n acc, acc ≠ "" → udigits f n acc ≠ "") as Haux.
  { induction f as [|f IH]; intros m a Ha; [done|]. cbn [udigits].
    destruct (m <? 10)%Z; [done|]. by apply IH. }
  destruct fuel as [|f]; intros; [done|]. cbn [udigits].
  destruct (n <? 10)%Z; [done|]. by apply Haux.
Qed.

Lemma Utoa_digits n : (0 ≤ n)%Z → all_bytes is_digit (Utoa n) = true.
Proof. intros. by apply udigits_digits. Qed.

Lemma ParseUint_Utoa n : (0 ≤ n)%Z → ParseUint (Utoa n) = Some n.
Proof.
  intros Hn. unfold ParseUint.
  assert (Utoa n ≠ "") as Hne by (by apply udigits_nonempty).
  assert (digits_val 0%Z (Utoa n) = Some n).
  { unfold Utoa. rewrite digits_val_udigits; [done| |done].
    rewrite Nat2Z.inj_succ, Z2Nat.id by apply Z.log2_nonneg.
    split; [done|]. destruct (Z.eq_dec n 0%Z) as [->|]; [cbn; lia|].
    apply Z.log2_spec. lia. }
  by destruct (Utoa n).
Qed.

Lemma digit_not_sign c : is_digit c = true → beq c "-" = false ∧ beq c "+" = false.
Proof.
  intros H. split; apply beq_neq; intros ->; vm_compute in H; discriminate.
Qed.

Lemma ParseInt_digits s :
  all_bytes is_digit s = true →
  ParseInt s = n ← ParseUint s; if bool_decide (in_int64 n) then Some n else None.
Proof.
  destruct s as [|c s]; [done|]. intros Hs. cbn in Hs.
  apply andb_true_iff in Hs as [Hc _]. unfold ParseInt.
  by destruct (digit_not_sign c Hc) as [-> ->].
Qed.

Lemma ParseInt_Itoa z : in_int64 z → ParseInt (Itoa z) = Some z.
Proof.
  intros Hz. unfold Itoa. destruct (Z.ltb_spec z 0).
  - unfold ParseInt. change ("-" +:+ Utoa (- z)) with (String "-" (Utoa (- z))).
    cbn -[Utoa ParseUint]. rewrite ParseUint_Utoa by lia. cbn.
    rewrite Z.opp_involutive. by rewrite bool_decide_eq_true_2.
  - rewrite ParseInt_digits by (by apply Utoa_digits).
    rewrite ParseUint_Utoa by done. cbn. by rewrite bool_decide_eq_true_2.
Qed.

Lemma ParseInt_range s z : ParseInt s = Some z → in_int64 z.
Proof.
  unfold ParseInt. destruct (match s with "" => _ | _ => _ end) as [neg ds].
  destruct (ParseUint ds) as [n|]; cbn; [|done].
  case_bool_decide; [|done]. by intros [= <-].
Qed.

(** [Itoa] of a length, as used for length prefixes. *)
Lemma Utoa_no_byte n c : (0 ≤ n)%Z → is_digit c = false → contains_byte (Utoa n) c = false.
Proof. intros Hn Hc. by eapply all_bytes_no, Utoa_digits. Qed.

Lemma Utoa_inj n m : (0 ≤ n)%Z → (0 ≤ m)%Z → Utoa n = Utoa m → n = m.
Proof.
  intros Hn Hm H. apply ParseUint_Utoa in Hn, Hm. congruence.
Qed.
