(* ===== verification/Unicode.v ===== *)
(** * Unicode: UTF-8, runes and UTF-16

    The parts of [unicode/utf8], [unicode/utf16] and Go's [range] over a string
    that the program uses; the Unicode tables and SHA-256 are parameters. *)
From S2P Require Import Prelude GoStrings.
From stdpp Require Import options.

(** ** UTF-8 *)

Definition cont (c : ascii) : bool := between 128 191 c.

(** The length of the valid UTF-8 sequence at the start of [l]; 0 if none. *)
Definition utf8_len (l : list ascii) : nat :=
  match l with
  | [] => 0
  | a :: l1 =>
      let x := code a in
      if (x <? 128)%Z then 1 else
      match l1 with
      | [] => 0
      | b :: l2 =>
          let y := code b in
          if ((194 <=? x) && (x <=? 223))%Z && cont b then 2 else
          match l2 with
          | [] => 0
          | c :: l3 =>
              let lo := (if x =? 224 then 160 else 128)%Z in
              let hi := (if x =? 237 then 159 else 191)%Z in
              if ((224 <=? x) && (x <=? 239) && (lo <=? y) && (y <=? hi))%Z && cont c then 3 else
              match l3 with
              | [] => 0
              | d :: _ =>
                  let lo := (if x =? 240 then 144 else 128)%Z in
                  let hi := (if x =? 244 then 143 else 191)%Z in
                  if ((240 <=? x) && (x <=? 244) && (lo <=? y) && (y <=? hi))%Z
                       && cont c && cont d
                  then 4 else 0
              end
          end
      end
  end.

(** The UTF-8 bytes of a code point. *)
Definition utf8_encode (r : Z) : string :=
  if (r <? 128)%Z then String (byte r) "" else
  if (r <? 2048)%Z then
    String (byte (192 + r / 64)) (String (byte (128 + r mod 64)) "") else
  if (r <? 65536)%Z then
    String (byte (224 + r / 4096)) (String (byte (128 + (r / 64) mod 64))
      (String (byte (128 + r mod 64)) ""))
  else
    String (byte (240 + r / 262144)) (String (byte (128 + (r / 4096) mod 64))
      (String (byte (128 + (r / 64) mod 64)) (String (byte (128 + r mod 64)) ""))).

Definition RuneError : Z := 65533%Z.

Definition is_surrogate (r : Z) : bool := ((55296 <=? r) && (r <? 57344))%Z.

(** [utf16.DecodeRune]: the code point of a surrogate pair, if it is one. *)
Definition decode_pair (r1 r2 : Z) : option Z :=
  if ((55296 <=? r1) && (r1 <? 56320) && (56320 <=? r2) && (r2 <? 57344))%Z
  then Some ((r1 - 55296) * 1024 + (r2 - 56320) + 65536)%Z else None.

(** ** Runes *)

(** The code point of a valid sequence of [n] bytes. *)
Definition rune_value (n : nat) (l : list ascii) : Z :=
  match n, l with
  | 1, a :: _ => code a
  | 2, a :: b :: _ => ((code a - 192) * 64 + (code b - 128))%Z
  | 3, a :: b :: c :: _ => ((code a - 224) * 4096 + (code b - 128) * 64 + (code c - 128))%Z
  | 4, a :: b :: c :: d :: _ =>
      ((code a - 240) * 262144 + (code b - 128) * 4096 + (code c - 128) * 64 + (code d - 128))%Z
  | _, _ => RuneError
  end.

(** [utf8.DecodeRune]: the rune at the start and its width; a byte that starts
    no valid sequence is U+FFFD of width one. *)
Definition decode_rune (l : list ascii) : Z * nat :=
  match utf8_len l with
  | 0 => (RuneError, 1)
  | n => (rune_value n l, n)
  end.

(** The runes a [range] loop sees; [skip] bytes belong to the rune before. *)
Fixpoint runes_from (skip : nat) (l : list ascii) : list Z :=
  match l with
  | [] => []
  | _ :: l' =>
      match skip with
      | S k => runes_from k l'
      | O => let '(r, n) := decode_rune l in r :: runes_from (n - 1) l'
      end
  end.

Definition runes (s : string) : list Z := runes_from 0 (explode s).

(** [Builder.WriteRune]: what is not a code point is written as U+FFFD. *)
Definition valid_rune (r : Z) : bool := ((0 <=? r) && (r <=? 1114111))%Z && negb (is_surrogate r).
Definition write_rune (r : Z) : string := utf8_encode (if valid_rune r then r else RuneError).

Fixpoint write_runes (l : list Z) : string :=
  match l with [] => "" | r :: l => write_rune r +:+ write_runes l end.

(** [utf8.ValidString]. *)
Fixpoint valid_from (skip : nat) (l : list ascii) : bool :=
  match l with
  | [] => true
  | _ :: l' =>
      match skip with
      | S k => valid_from k l'
      | O => match utf8_len l with O => false | S n => valid_from n l' end
      end
  end.
Definition ValidString (s : string) : bool := valid_from 0 (explode s).

(** [utf16.Encode]. *)
Definition utf16_units (r : Z) : list Z :=
  if ((0 <=? r) && (r <? 55296) || (57344 <=? r) && (r <? 65536))%Z then [r] else
  if ((65536 <=? r) && (r <=? 1114111))%Z
  then [55296 + (r - 65536) / 1024; 56320 + (r - 65536) mod 1024]%Z
  else [RuneError].
Definition utf16_encode (l : list Z) : list Z := concat (map utf16_units l).

(** ** Lemmas *)

#[local] Arguments code : simpl never.
#[local] Arguments byte : simpl never.
#[local] Arguments Z.add : simpl never.
#[local] Arguments Z.ltb : simpl never.
#[local] Arguments Z.leb : simpl never.

Lemma valid_rune_RuneError : valid_rune RuneError = true.
Proof. reflexivity. Qed.

(** The encoding of a code point decodes to it, whatever follows. *)
Lemma decode_encode r l :
  valid_rune r = true →
  decode_rune (explode (utf8_encode r) ++ l) = (r, len (utf8_encode r)) ∧ 1 ≤ len (utf8_encode r).
Proof.
  unfold valid_rune, is_surrogate. intros Hr. bool_prop.
  assert (57344 ≤ r ∨ r < 55296)%Z as Hs by (bool_prop; lia). clear H0.
  unfold utf8_encode.
  pose proof (Z.div_mod r 64 ltac:(done)) as D1. pose proof (Z.mod_pos_bound r 64 ltac:(done)) as M1.
  pose proof (Z.div_mod (r / 64) 64 ltac:(done)) as D2.
  pose proof (Z.mod_pos_bound (r / 64) 64 ltac:(done)) as M2.
  pose proof (Z.div_mod (r / 4096) 64 ltac:(done)) as D3.
  pose proof (Z.mod_pos_bound (r / 4096) 64 ltac:(done)) as M3.
  assert (r / 4096 = r / 64 / 64)%Z as E1 by (rewrite Z.div_div; done).
  assert (r / 262144 = r / 4096 / 64)%Z as E2 by (rewrite Z.div_div; done).
  destruct (Z.ltb_spec r 128).
  - cbn. unfold decode_rune, utf8_len, rune_value. cbn. rewrite code_byte by lia.
    rewrite (proj2 (Z.ltb_lt r 128)) by lia. cbn. done.
  - destruct (Z.ltb_spec r 2048).
    + cbn. unfold decode_rune, utf8_len, rune_value, cont, between. cbn. rewrite ?code_byte by lia.
      rewrite (proj2 (Z.ltb_ge (192 + r / 64) 128)) by lia.
      rewrite !(proj2 (Z.leb_le _ _)) by lia. cbn. rewrite ?code_byte by lia.
      split; [f_equal; lia|rewrite !len_cons; lia].
    + destruct (Z.ltb_spec r 65536).
      * unfold decode_rune, utf8_len, rune_value, cont, between. cbn. rewrite ?code_byte by lia.
        rewrite (proj2 (Z.ltb_ge (224 + r / 4096) 128)) by lia.
        rewrite (proj2 (Z.leb_gt (224 + r / 4096) 223)) by lia. rewrite andb_false_r. cbn.
        rewrite (proj2 (Z.leb_le 224 (224 + r / 4096))), (proj2 (Z.leb_le (224 + r / 4096) 239)) by lia.
        rewrite (proj2 (Z.leb_le _ (128 + (r / 64) mod 64))) by (case_match; bool_prop; lia).
        rewrite (proj2 (Z.leb_le (128 + (r / 64) mod 64) _)) by (case_match; bool_prop; lia).
        rewrite !(proj2 (Z.leb_le _ _)) by lia. cbn. rewrite ?code_byte by lia.
        split; [f_equal; lia|rewrite !len_cons; lia].
      * unfold decode_rune, utf8_len, rune_value, cont, between. cbn. rewrite ?code_byte by lia.
        rewrite (proj2 (Z.ltb_ge (240 + r / 262144) 128)) by lia.
        rewrite (proj2 (Z.leb_gt (240 + r / 262144) 223)) by lia. rewrite andb_false_r. cbn.
        rewrite (proj2 (Z.leb_gt (240 + r / 262144) 239)) by lia. rewrite andb_false_r. cbn.
        rewrite (proj2 (Z.leb_le 240 (240 + r / 262144))), (proj2 (Z.leb_le (240 + r / 262144) 244)) by lia.
        rewrite (proj2 (Z.leb_le _ (128 + (r / 4096) mod 64))) by (case_match; bool_prop; lia).
        rewrite (proj2 (Z.leb_le (128 + (r / 4096) mod 64) _)) by (case_match; bool_prop; lia).
        rewrite !(proj2 (Z.leb_le _ _)) by lia. cbn. rewrite ?code_byte by lia.
        split; [f_equal; lia|rewrite !len_cons; lia].
Qed.

Lemma runes_from_skip bs l : runes_from (length bs) (bs ++ l) = runes_from 0 l.
Proof. induction bs as [|b bs IH]; [done|]. exact IH. Qed.

Lemma runes_from_encode r l :
  valid_rune r = true → runes_from 0 (explode (utf8_encode r) ++ l) = r :: runes_from 0 l.
Proof.
  intros Hr. destruct (decode_encode r l Hr) as [Hd Hl].
  rewrite <- len_explode in Hd, Hl.
  destruct (explode (utf8_encode r)) as [|b bs] eqn:E; [cbn in Hl; lia|].
  cbn [app runes_from] in *. rewrite Hd. cbn [length]. replace (S (length bs) - 1) with (length bs) by lia.
  by rewrite runes_from_skip.
Qed.

(** What [WriteRune] wrote, [range] reads. *)
Lemma runes_write l : Forall (λ r, valid_rune r = true) l → runes (write_runes l) = l.
Proof.
  unfold runes. induction 1 as [|r l Hr Hl IH]; [done|]. cbn [write_runes].
  unfold write_rune. rewrite Hr, explode_app, runes_from_encode by done. by rewrite IH.
Qed.

Lemma write_runes_inj l1 l2 :
  Forall (λ r, valid_rune r = true) l1 → Forall (λ r, valid_rune r = true) l2 →
  write_runes l1 = write_runes l2 → l1 = l2.
Proof. intros H1 H2 H. rewrite <- (runes_write l1), <- (runes_write l2) by done. by rewrite H. Qed.

Lemma decode_rune_valid l : valid_rune (decode_rune l).1 = true.
Proof.
  unfold decode_rune. destruct l as [|a l]; [done|]. cbn [utf8_len].
  pose proof (code_range a) as Ra. destruct (Z.ltb_spec (code a) 128).
  { cbn. unfold valid_rune, is_surrogate. lia. }
  destruct l as [|b l]; [done|]. pose proof (code_range b) as Rb. unfold cont, between.
  destruct (_ && _) eqn:E.
  { cbn. unfold valid_rune, is_surrogate. lia. }
  destruct l as [|c l]; [done|]. pose proof (code_range c) as Rc. clear E. destruct (_ && _) eqn:E.
  { cbn. unfold valid_rune, is_surrogate.
    destruct (Z.eqb_spec (code a) 224), (Z.eqb_spec (code a) 237); lia. }
  destruct l as [|d l]; [done|]. pose proof (code_range d) as Rd. clear E. destruct (_ && _) eqn:E.
  { cbn. unfold valid_rune, is_surrogate.
    destruct (Z.eqb_spec (code a) 240), (Z.eqb_spec (code a) 244); lia. }
  done.
Qed.

Lemma runes_valid s : Forall (λ r, valid_rune r = true) (runes s).
Proof.
  unfold runes. generalize 0 as k. induction (explode s) as [|c l IH]; intros k; [constructor|].
  cbn [runes_from]. destruct k; [|apply IH]. pose proof (decode_rune_valid (c :: l)) as Hv.
  destruct (decode_rune (c :: l)) as [r n]. constructor; [done|apply IH].
Qed.

(** ** Tables and hashing of the standard library *)

(** [unicode.SimpleFold], [unicode.ToLower], [unicode.ToUpper] and
    [sha256.Sum256]. *)
Class Runtime := {
  SimpleFold : Z → Z;
  LowerRune : Z → Z;
  UpperRune : Z → Z;
  Sha256 : string → string;
}.

Definition is_ascii (s : string) : bool := all_bytes (λ c, (code c <? 128)%Z) s.

Section Case.
Context `{RT : Runtime}.

(** [strings.ToLower] and [strings.ToUpper]. *)
Definition ToLower (s : string) : string :=
  if is_ascii s then lower s else write_runes (map LowerRune (runes s)).
Definition ToUpper (s : string) : string :=
  if is_ascii s then upper s else write_runes (map UpperRune (runes s)).

Lemma ToLower_ascii s : is_ascii s = true → ToLower s = lower s.
Proof. unfold ToLower. by intros ->. Qed.

End Case.
