(* ===== verification/Json.v ===== *)
(** * JSON documents as Go's [encoding/json] reads them

    A decoder for RFC 8259 texts with the conventions of Go's decoder under
    [UseNumber]: numbers keep their text, a byte that is not part of a valid
    UTF-8 sequence and an unpaired surrogate escape become U+FFFD, and nesting
    deeper than 10000 is refused.  Objects keep their members in order with
    duplicates; [obj_get] reads a member the way a Go map does, where the last
    of two duplicates wins. *)
From S2P Require Import Prelude GoStrings Unicode.
From stdpp Require Import options.

Inductive json : Type :=
  | JNull
  | JBool (b : bool)
  | JNum (n : string)
  | JStr (s : string)
  | JArr (l : list json)
  | JObj (l : list (string * json)).

(** Induction that reaches the elements of arrays and objects. *)
Section json_ind.
Variable P : json → Prop.
Hypothesis HNull : P JNull.
Hypothesis HBool : ∀ b, P (JBool b).
Hypothesis HNum : ∀ n, P (JNum n).
Hypothesis HStr : ∀ s, P (JStr s).
Hypothesis HArr : ∀ l, Forall P l → P (JArr l).
Hypothesis HObj : ∀ l, Forall (λ kv, P kv.2) l → P (JObj l).

Fixpoint json_ind' (v : json) : P v :=
  match v with
  | JNull => HNull
  | JBool b => HBool b
  | JNum n => HNum n
  | JStr s => HStr s
  | JArr l => HArr l ((fix go l : Forall P l :=
      match l with
      | [] => Forall_nil_2 P
      | x :: l' => Forall_cons_2 P x l' (json_ind' x) (go l')
      end) l)
  | JObj l => HObj l ((fix go l : Forall (λ kv, P kv.2) l :=
      match l with
      | [] => Forall_nil_2 _
      | x :: l' => Forall_cons_2 _ x l' (json_ind' x.2) (go l')
      end) l)
  end.
End json_ind.

(** ** Lexical elements *)

Definition is_ws (c : ascii) : bool :=
  let x := code c in ((x =? 32) || (x =? 9) || (x =? 10) || (x =? 13))%Z.

Fixpoint skip_ws (s : string) : string :=
  match s with
  | String c s' => if is_ws c then skip_ws s' else s
  | "" => ""
  end.

Definition hex_val (c : ascii) : option Z :=
  if is_digit c then Some (code c - 48)%Z
  else if between 97 102 c then Some (code c - 87)%Z
  else if between 65 70 c then Some (code c - 55)%Z
  else None.

Definition hex4 (a b c d : ascii) : option Z :=
  x ← hex_val a; y ← hex_val b; z ← hex_val c; w ← hex_val d;
  Some (4096 * x + 256 * y + 16 * z + w)%Z.

Definition simple_escape (c : ascii) : option ascii :=
  if beq c quote then Some quote
  else if beq c backslash then Some backslash
  else if beq c "/" then Some "/"%char
  else if beq c "b" then Some (byte 8)
  else if beq c "f" then Some (byte 12)
  else if beq c "n" then Some (byte 10)
  else if beq c "r" then Some (byte 13)
  else if beq c "t" then Some (byte 9)
  else None.

Definition push (p : string) (r : option (string * string)) : option (string * string) :=
  match r with Some (t, rest) => Some (p +:+ t, rest) | None => None end.

(** The rest of a string literal after its opening quote: the decoded text and
    the input after the closing quote.  [skip] bytes have been consumed as
    continuation bytes of the sequence that starts before. *)
Fixpoint parse_str (skip : nat) (s : string) : option (string * string) :=
  match s with
  | "" => None
  | String c s1 =>
      match skip with
      | S n => push (String c "") (parse_str n s1)
      | 0 =>
          if beq c quote then Some ("", s1)
          else if beq c backslash then
            match s1 with
            | "" => None
            | String e s2 =>
                if beq e "u" then
                  match s2 with
                  | String h1 (String h2 (String h3 (String h4 s3))) =>
                      r ← hex4 h1 h2 h3 h4;
                      if is_surrogate r then
                        match s3 with
                        | String b (String u (String k1 (String k2 (String k3 (String k4 s4))))) =>
                            match (if beq b backslash && beq u "u"
                                   then r2 ← hex4 k1 k2 k3 k4; decode_pair r r2 else None) with
                            | Some rr => push (utf8_encode rr) (parse_str 0 s4)
                            | None => push (utf8_encode RuneError) (parse_str 0 s3)
                            end
                        | _ => push (utf8_encode RuneError) (parse_str 0 s3)
                        end
                      else push (utf8_encode r) (parse_str 0 s3)
                  | _ => None
                  end
                else
                  match simple_escape e with
                  | Some d => push (String d "") (parse_str 0 s2)
                  | None => None
                  end
            end
          else if (code c <? 32)%Z then None
          else
            match utf8_len (explode s) with
            | 0 => push (utf8_encode RuneError) (parse_str 0 s1)
            | S n => push (String c "") (parse_str n s1)
            end
      end
  end.

(** Digits at the start of the input, and the rest. *)
Fixpoint span_digits (s : string) : string * string :=
  match s with
  | String c s' =>
      if is_digit c then let '(ds, rest) := span_digits s' in (String c ds, rest)
      else ("", s)
  | "" => ("", "")
  end.

(** [-? (0 | [1-9][0-9]* ) (\.[0-9]+)? ([eE][+-]?[0-9]+)?] *)
Definition parse_frac (s : string) : option (string * string) :=
  match s with
  | String c s' =>
      if beq c "." then
        match span_digits s' with
        | ("", _) => None
        | (ds, rest) => Some (String "." ds, rest)
        end
      else Some ("", s)
  | "" => Some ("", "")
  end.

Definition parse_exp (s : string) : option (string * string) :=
  match s with
  | String c s' =>
      if beq c "e" || beq c "E" then
        let '(sign, s'') :=
          match s' with
          | String d t => if beq d "+" || beq d "-" then (String d "", t) else ("", s')
          | "" => ("", s')
          end in
        match span_digits s'' with
        | ("", _) => None
        | (ds, rest) => Some (String c (sign +:+ ds), rest)
        end
      else Some ("", s)
  | "" => Some ("", "")
  end.

Definition parse_num (s : string) : option (string * string) :=
  let '(sign, s1) :=
    match s with
    | String c t => if beq c "-" then ("-", t) else ("", s)
    | "" => ("", s)
    end in
  '(int, s2) ← (match s1 with
     | String c t =>
         if beq c "0" then Some ("0", t)
         else match span_digits s1 with ("", _) => None | p => Some p end
     | "" => None
     end);
  '(frac, s3) ← parse_frac s2;
  '(exp, s4) ← parse_exp s3;
  Some (sign +:+ int +:+ frac +:+ exp, s4).

(** ** Values *)

Definition maxNestingDepth : Z := 10000%Z.

(** [parse_value fuel depth s]: a value at the start of [s] after white space,
    and the input after it; [depth] containers are open.  Every recursive
    call is on less input, or on the same input one level down, so
    [2 * len s + 1] rounds of fuel are enough ([parse_value_enough]). *)
Fixpoint parse_value (fuel : nat) (depth : Z) (s : string) : option (json * string) :=
  match fuel with
  | 0 => None
  | S f =>
      match skip_ws s with
      | "" => None
      | String c s1 =>
          if beq c quote then
            '(t, rest) ← parse_str 0 s1; Some (JStr t, rest)
          else if beq c "{" then
            if (maxNestingDepth <=? depth)%Z then None else
            match skip_ws s1 with
            | String d s2 =>
                if beq d "}" then Some (JObj [], s2)
                else '(ms, rest) ← parse_members f (depth + 1)%Z s1; Some (JObj ms, rest)
            | "" => None
            end
          else if beq c "[" then
            if (maxNestingDepth <=? depth)%Z then None else
            match skip_ws s1 with
            | String d s2 =>
                if beq d "]" then Some (JArr [], s2)
                else '(vs, rest) ← parse_elements f (depth + 1)%Z s1; Some (JArr vs, rest)
            | "" => None
            end
          else if beq c "-" || is_digit c then
            '(t, rest) ← parse_num (String c s1); Some (JNum t, rest)
          else
            match CutPrefix (String c s1) "true" with
            | Some rest => Some (JBool true, rest)
            | None =>
                match CutPrefix (String c s1) "false" with
                | Some rest => Some (JBool false, rest)
                | None =>
                    match CutPrefix (String c s1) "null" with
                    | Some rest => Some (JNull, rest)
                    | None => None
                    end
                end
            end
      end
  end

with parse_elements (fuel : nat) (depth : Z) (s : string) : option (list json * string) :=
  match fuel with
  | 0 => None
  | S f =>
      '(v, s1) ← parse_value f depth s;
      match skip_ws s1 with
      | String c s2 =>
          if beq c "," then '(vs, rest) ← parse_elements f depth s2; Some (v :: vs, rest)
          else if beq c "]" then Some ([v], s2)
          else None
      | "" => None
      end
  end

with parse_members (fuel : nat) (depth : Z) (s : string) : option (list (string * json) * string) :=
  match fuel with
  | 0 => None
  | S f =>
      match skip_ws s with
      | String q s0 =>
          if negb (beq q quote) then None else
          '(k, s1) ← parse_str 0 s0;
          match skip_ws s1 with
          | String col s2 =>
              if negb (beq col ":") then None else
              '(v, s3) ← parse_value f depth s2;
              match skip_ws s3 with
              | String c s4 =>
                  if beq c "," then
                    '(ms, rest) ← parse_members f depth s4; Some ((k, v) :: ms, rest)
                  else if beq c "}" then Some ([(k, v)], s4)
                  else None
              | "" => None
              end
          | "" => None
          end
      | "" => None
      end
  end.

(** [Decoder.Decode]: the first value of the input and what follows it. *)
Definition json_decode_first (s : string) : option (json * string) :=
  parse_value (S (2 * len s)) 0 s.

(** [json.Unmarshal] into an interface: exactly one value. *)
Definition json_decode (s : string) : option json :=
  '(v, rest) ← json_decode_first s;
  if bool_decide (skip_ws rest = "") then Some v else None.

(** Member [k] as a Go map holds it: the last one of that name. *)
Fixpoint obj_get (k : string) (l : list (string * json)) : option json :=
  match l with
  | [] => None
  | (k', v) :: l' =>
      match obj_get k l' with
      | Some w => Some w
      | None => if bool_decide (k' = k) then Some v else None
      end
  end.

(** Whether every number of the value satisfies [ok]; decoding into an [any]
    without [UseNumber] fails on a number outside the range of a float. *)
Fixpoint nums_ok (ok : string → bool) (v : json) : bool :=
  match v with
  | JNum n => ok n
  | JArr l => forallb (nums_ok ok) l
  | JObj l => forallb (λ kv, nums_ok ok kv.2) l
  | _ => true
  end.

(** [json.Unmarshal] of a value into a [string] variable holding [""]: a string
    is stored, [null] leaves the variable alone, anything else is an error. *)
Definition unmarshal_string (v : json) : option string :=
  match v with JStr s => Some s | JNull => Some "" | _ => None end.

(** [json.Unmarshal] into a [map[string]json.RawMessage]: an object, or [null]
    which leaves the map nil. *)
Definition unmarshal_raw_map (s : string) : option (list (string * json)) :=
  match json_decode s with
  | Some (JObj l) => Some l
  | Some JNull => Some []
  | _ => None
  end.

(** ** The decoder consumes input, and its fuel is enough *)

Lemma skip_ws_len s : len (skip_ws s) ≤ len s.
Proof.
  induction s as [|c s IH]; [done|]. cbn [skip_ws].
  destruct (is_ws c); [|done]. rewrite len_cons. lia.
Qed.

Lemma push_Some p r t rest : push p r = Some (t, rest) → ∃ t', r = Some (t', rest).
Proof. destruct r as [[t' rest']|]; cbn; [|done]. intros [= _ <-]. eauto. Qed.

(** [push_inv]: follow the input that is left through the cases of
    [parse_str]. *)
Ltac push_inv H :=
  repeat (cbn [mbind option_bind] in H; match type of H with
  | None = Some _ => discriminate H
  | Some _ = Some _ => injection H as ? ?; subst
  | push _ _ = Some _ => apply push_Some in H as [? H]
  | _ ≫= _ = Some _ => apply bind_Some in H as (? & ? & H)
  | match ?x with _ => _ end = Some _ => destruct x
  end).

Lemma parse_str_len n : ∀ skip s t rest,
  len s ≤ n → parse_str skip s = Some (t, rest) → len rest < len s.
Proof.
  induction n as [|n IH]; intros skip [|c s] t rest Hn H; try done.
  - unfold len in *. cbn in Hn. lia.
  - cbn [parse_str] in H. rewrite len_cons in *.
    push_inv H; rewrite ?len_cons in *;
      first [apply IH in H; rewrite ?len_cons in *; lia | lia].
Qed.

Lemma span_digits_len s : len (span_digits s).2 ≤ len s.
Proof.
  induction s as [|c s IH]; [done|]. cbn [span_digits].
  destruct (is_digit c); [|done]. destruct (span_digits s) as [ds rest].
  rewrite len_cons. cbn in *. lia.
Qed.

Lemma parse_frac_len s t rest : parse_frac s = Some (t, rest) → len rest ≤ len s.
Proof.
  destruct s as [|c s]; cbn [parse_frac]; [by intros [= _ <-]|].
  destruct (beq c "."); [|by intros [= _ <-]].
  pose proof (span_digits_len s). destruct (span_digits s) as [[|d ds] r]; [done|].
  intros [= _ <-]. rewrite len_cons. cbn in *. lia.
Qed.

Lemma parse_exp_len s t rest : parse_exp s = Some (t, rest) → len rest ≤ len s.
Proof.
  destruct s as [|c s]; cbn [parse_exp]; [by intros [= _ <-]|].
  destruct (beq c "e" || beq c "E"); [|by intros [= _ <-]].
  assert (∃ sign s', (match s with
    | "" => ("", s)
    | String d t0 => if beq d "+" || beq d "-" then (String d "", t0) else ("", s)
    end) = (sign, s') ∧ len s' ≤ len s) as (sign & s' & -> & Hl).
  { destruct s as [|d s0]; [by do 2 eexists|].
    destruct (beq d "+" || beq d "-"); do 2 eexists; (split; [done|]); rewrite ?len_cons; lia. }
  pose proof (span_digits_len s'). destruct (span_digits s') as [[|d ds] r]; [done|].
  intros [= _ <-]. rewrite len_cons. cbn in *. lia.
Qed.

Lemma parse_num_len s t rest : parse_num s = Some (t, rest) → len rest < len s.
Proof.
  unfold parse_num.
  assert (∃ sign s1, (match s with
    | "" => ("", s)
    | String c t0 => if beq c "-" then ("-", t0) else ("", s)
    end) = (sign, s1) ∧ len s1 ≤ len s) as (sign & s1 & -> & Hl).
  { destruct s as [|d s0]; [by do 2 eexists|].
    destruct (beq d "-"); do 2 eexists; (split; [done|]); rewrite ?len_cons; lia. }
  intros ([int s2] & Hint & H)%bind_Some.
  assert (len s2 < len s1) as Hl2.
  { destruct s1 as [|c s1]; [done|]. rewrite len_cons.
    destruct (beq c "0"); [injection Hint as _ <-; lia|].
    cbn [span_digits] in Hint. pose proof (span_digits_len s1).
    destruct (is_digit c); [|done]. destruct (span_digits s1) as [ds r].
    injection Hint as _ <-. cbn in *. lia. }
  apply bind_Some in H as ([frac s3] & Hf%parse_frac_len & H).
  apply bind_Some in H as ([exp s4] & He%parse_exp_len & H).
  injection H as _ <-. lia.
Qed.

Lemma CutPrefix_len s p rest : CutPrefix s p = Some rest → len s = len p + len rest.
Proof. intros ->%CutPrefix_Some. apply len_app. Qed.

(** [dec_inv H]: follow a successful run of one round of the decoder. *)
Ltac dec_inv H :=
  repeat (cbn [mbind option_bind] in H; match type of H with
  | None = Some _ => discriminate H
  | Some _ = Some _ => injection H as ? ?; subst
  | _ ≫= _ = Some _ => let Hb := fresh "Hb" in apply bind_Some in H as ([? ?] & Hb & H)
  | match ?x with _ => _ end = Some _ => let E := fresh "E" in destruct x eqn:E
  end).

(** [skip_len]: the length bound of every [skip_ws] equation. *)
Ltac skip_len :=
  repeat match goal with
  | E : skip_ws ?s = _ |- _ =>
      let Hl := fresh "Hl" in
      pose proof (skip_ws_len s) as Hl; rewrite E in Hl; rewrite ?len_cons in Hl; clear E
  end.

Lemma parse_len n :
  (∀ d s v rest, parse_value n d s = Some (v, rest) → len rest < len s) ∧
  (∀ d s vs rest, parse_elements n d s = Some (vs, rest) → len rest < len s) ∧
  (∀ d s ms rest, parse_members n d s = Some (ms, rest) → len rest < len s).
Proof.
  induction n as [|n (IHv & IHe & IHm)]; [done|]. split_and!; intros d s v rest H.
  - cbn [parse_value] in H.
    destruct (skip_ws s) as [|c s1] eqn:Es; [done|].
    assert (len s1 < len s) by (skip_len; lia). clear Es.
    dec_inv H; skip_len;
      repeat match goal with
      | E : parse_str _ _ = _ |- _ => apply (parse_str_len _ _ _ _ _ (le_n _)) in E
      | E : parse_num _ = _ |- _ => apply parse_num_len in E; rewrite len_cons in E
      | E : CutPrefix _ _ = Some _ |- _ =>
          apply CutPrefix_len in E; rewrite !len_cons in E
      | E : parse_elements n _ _ = _ |- _ => apply IHe in E
      | E : parse_members n _ _ = _ |- _ => apply IHm in E
      end; lia.
  - cbn [parse_elements] in H. dec_inv H; skip_len;
      repeat match goal with
      | E : parse_value n _ _ = _ |- _ => apply IHv in E
      | E : parse_elements n _ _ = _ |- _ => apply IHe in E
      end; lia.
  - cbn [parse_members] in H. dec_inv H; skip_len;
      repeat match goal with
      | E : parse_str _ _ = _ |- _ => apply (parse_str_len _ _ _ _ _ (le_n _)) in E
      | E : parse_value n _ _ = _ |- _ => apply IHv in E
      | E : parse_members n _ _ = _ |- _ => apply IHm in E
      end; lia.
Qed.

(** With enough fuel for the length of the input, more fuel changes nothing:
    the decoder never fails for lack of fuel. *)
Lemma parse_value_enough n : ∀ m, n ≤ m →
  (∀ d s, 2 * len s + 1 ≤ n → parse_value n d s = parse_value m d s) ∧
  (∀ d s, 2 * len s + 2 ≤ n → parse_elements n d s = parse_elements m d s) ∧
  (∀ d s, 2 * len s + 2 ≤ n → parse_members n d s = parse_members m d s).
Proof.
  induction n as [|n IH]; intros m Hm; [split_and!; intros; lia|].
  destruct m as [|m]; [lia|]. destruct (IH m) as (IHv & IHe & IHm); [lia|].
  split_and!; intros d s Hs.
  - cbn [parse_value]. destruct (skip_ws s) as [|c s1] eqn:Es; [done|].
    assert (len s1 < len s) by (skip_len; lia).
    by rewrite (IHe _ s1), (IHm _ s1) by lia.
  - cbn [parse_elements]. rewrite (IHv d s) by lia.
    destruct (parse_value m d s) as [[v s1]|] eqn:Ev; [|done]. cbn [mbind option_bind].
    apply (proj1 (parse_len m)) in Ev.
    destruct (skip_ws s1) as [|c s2] eqn:Es; [done|].
    assert (len s2 < len s1) by (skip_len; lia). by rewrite (IHe _ s2) by lia.
  - cbn [parse_members]. destruct (skip_ws s) as [|q s0] eqn:Es; [done|].
    assert (len s0 < len s) by (skip_len; lia).
    destruct (negb _); [done|]. destruct (parse_str 0 s0) as [[k s1]|] eqn:Ek; [|done].
    apply (parse_str_len _ _ _ _ _ (le_n _)) in Ek. cbn [mbind option_bind].
    destruct (skip_ws s1) as [|col s2] eqn:Es1; [done|].
    assert (len s2 < len s1) by (skip_len; lia).
    destruct (negb _); [done|]. rewrite (IHv d s2) by lia.
    destruct (parse_value m d s2) as [[v s3]|] eqn:Ev; [|done]. cbn [mbind option_bind].
    apply (proj1 (parse_len m)) in Ev.
    destruct (skip_ws s3) as [|c s4] eqn:Es3; [done|].
    assert (len s4 < len s3) by (skip_len; lia). by rewrite (IHm _ s4) by lia.
Qed.

Lemma json_decode_first_fuel m s :
  S (2 * len s) ≤ m → parse_value m 0 s = json_decode_first s.
Proof.
  intros Hm. unfold json_decode_first. symmetry.
  apply (proj1 (parse_value_enough (S (2 * len s)) m Hm)). lia.
Qed.
