(* ===== verification/Float.v ===== *)
(** * Float: binary64 numbers and their decimal texts

    [strconv.ParseFloat] and [strconv.FormatFloat] with format [e] and the
    shortest precision, as exact arithmetic on integers: a decimal is rounded
    to the nearest binary64 number, ties to even, and a number is written with
    the least number of digits that read back as the number. *)
From S2P Require Import Prelude GoStrings Json.
From stdpp Require Import options.
#[local] Open Scope Z_scope.

(** ** Numbers *)

(** The finite number [± fman * 2 ^ fexp]: normal ones have 53 bits, subnormal
    ones the least exponent. *)
Record float := MkFloat { fneg : bool; fman : Z; fexp : Z }.

Definition fzero (f : float) : bool := fman f =? 0.

(** [x <= p / q] for [x = 2 ^ n]. *)
Definition pow2_le (n p q : Z) : bool :=
  if 0 <=? n then q * 2 ^ n <=? p else q <=? p * 2 ^ (- n).

(** The exponent of the 53-bit integers around [p / q]. *)
Definition binade (p q : Z) : Z :=
  let e := Z.log2 p - Z.log2 q - 53 in
  Z.max (if pow2_le (e + 53) p q then e + 1 else e) (-1074).

(** [p / q] as a fraction of multiples of [2 ^ e]. *)
Definition scale (e p q : Z) : Z * Z :=
  if 0 <=? e then (p, q * 2 ^ e) else (p * 2 ^ (- e), q).

(** [n / d] to the nearest integer, ties to even. *)
Definition round_half_even (n d : Z) : Z :=
  let m := n / d in
  let r := 2 * (n mod d) in
  if (d <? r) || ((d =? r) && Z.odd m) then m + 1 else m.

(** The binary64 number nearest to [p / q]; none beyond the largest one. *)
Definition round_binary (p q : Z) : option (Z * Z) :=
  let e := binade p q in
  let '(n, d) := scale e p q in
  let m := round_half_even n d in
  let '(m, e) := if m =? 2 ^ 53 then (2 ^ 52, e + 1) else (m, e) in
  if 971 <? e then None else Some (m, e).

(** ** Reading *)

(** [d * 10 ^ k] as a fraction. *)
Definition decimal (d k : Z) : Z * Z :=
  if 0 <=? k then (d * 10 ^ k, 1) else (d, 10 ^ (- k)).

Definition round_decimal (d k : Z) : option (Z * Z) :=
  if d =? 0 then Some (0, -1074) else let '(p, q) := decimal d k in round_binary p q.

(** The exponent of a literal stops growing at five digits. *)
Fixpoint exponent_val (acc : Z) (s : string) : Z :=
  match s with
  | "" => acc
  | String c s' => exponent_val (if acc <? 10000 then acc * 10 + (code c - 48) else acc) s'
  end.

(** The parts of a JSON number: sign, digits before and after the point, and
    exponent. *)
Definition split_number (s : string) : bool * string * string * Z :=
  let '(neg, s) := match s with String c t => if beq c "-" then (true, t) else (false, s) | "" => (false, s) end in
  let '(int, s) := span_digits s in
  let '(frac, s) := match s with
                    | String c t => if beq c "." then span_digits t else ("", s)
                    | "" => ("", s)
                    end in
  let e := match s with
           | String c t =>
               match t with
               | String d u =>
                   if beq d "-" then - exponent_val 0 u
                   else if beq d "+" then exponent_val 0 u else exponent_val 0 t
               | "" => 0
               end
           | "" => 0
           end in
  (neg, int, frac, e).

Definition digits_Z (s : string) : Z := default 0 (digits_val 0 s).

(** [strconv.ParseFloat] of a JSON number; none when it is out of range. *)
Definition ParseFloat (s : string) : option float :=
  let '(neg, int, frac, e) := split_number s in
  '(m, x) ← round_decimal (digits_Z (int +:+ frac)) (e - Z.of_nat (len frac));
  Some (MkFloat neg m x).

(** ** Writing *)

(** The number as a fraction. *)
Definition fraction (m e : Z) : Z * Z := if 0 <=? e then (m * 2 ^ e, 1) else (m, 2 ^ (- e)).

Definition reads_back (m e d k : Z) : bool := bool_decide (round_decimal d k = Some (m, e)).

(** The better of the two multiples of [10 ^ k] around the number, if one of
    them reads back as the number. *)
Definition candidate (m e k : Z) : option Z :=
  let '(p, q) := fraction m e in
  let '(p, q) := if 0 <=? k then (p, q * 10 ^ k) else (p * 10 ^ (- k), q) in
  let lo := p / q in
  let r := 2 * (p mod q) in
  let hi_closer := (q <? r) || ((q =? r) && Z.odd lo) in
  match reads_back m e lo k, reads_back m e (lo + 1) k with
  | true, true => Some (if hi_closer then lo + 1 else lo)
  | true, false => Some lo
  | false, true => Some (lo + 1)
  | false, false => None
  end.

(** Whether [10 ^ x] is at most the number. *)
Definition pow10_le (m e x : Z) : bool :=
  let '(p, q) := fraction m e in if 0 <=? x then q * 10 ^ x <=? p else q <=? p * 10 ^ (- x).

(** The position of the leading digit. *)
Fixpoint leading_from (fuel : nat) (m e x : Z) : Z :=
  match fuel with
  | O => x
  | S fuel => if pow10_le m e (x + 1) then leading_from fuel m e (x + 1) else x
  end.
Definition leading (m e : Z) : Z :=
  leading_from 5 m e ((Z.log2 m + e) * 30103 / 100000 - 2).

(** The shortest digits [d] and the exponent [k] with [d * 10 ^ k] reading back,
    among one to [17] digits; the exact value stands behind the search, which always
    succeeds before. *)
Fixpoint shortest_from (fuel : nat) (m e k : Z) : Z * Z :=
  match fuel with
  | O => if 0 <=? e then (m * 2 ^ e, 0) else (m * 5 ^ (- e), e)
  | S fuel =>
      match candidate m e k with
      | Some d => (d, k)
      | None => shortest_from fuel m e (k - 1)
      end
  end.
Definition shortest (m e : Z) : Z * Z := shortest_from 17 m e (leading m e).

(** At least two digits. *)
Definition two_digits (n : Z) : string := (if n <? 10 then "0" else "") +:+ Utoa n.

(** [strconv.FormatFloat (f, 'e', -1, 64)]. *)
Definition FormatFloat_e (f : float) : string :=
  let '(d, k) := shortest (fman f) (fexp f) in
  let digits := TrimRight (λ c, beq c "0") (Utoa d) in
  let x := k + Z.of_nat (len (Utoa d)) - 1 in
  (if fneg f then "-" else "") +:+
  (match digits with
   | "" => "0"
   | String c "" => String c ""
   | String c rest => String c ("." +:+ rest)
   end) +:+
  "e" +:+ (if x <? 0 then "-" else "+") +:+ two_digits (Z.abs x).

(** Samples. *)
Definition sample_format (s : string) : string :=
  match ParseFloat s with Some f => FormatFloat_e f | None => "range" end.
Example format_samples :
  map sample_format
    ["1"; "0.1"; "-1e21"; "333333333.33333329"; "4.50"; "2e-3"; "5e-324"; "1.7976931348623157e308";
     "2251799813685248.25"; "9007199254740993"; "1e23"; "1e400"; "0.000001"; "123456789012345680000"] =
    ["1e+00"; "1e-01"; "-1e+21"; "3.333333333333333e+08"; "4.5e+00"; "2e-03"; "5e-324"; "1.7976931348623157e+308";
     "2.251799813685248e+15"; "9.007199254740992e+15"; "1e+23"; "range"; "1e-06"; "1.2345678901234568e+20"].
Proof. vm_compute. reflexivity. Qed.

(** ** Rounding depends only on the value *)

Lemma pow2_pos n : 0 ≤ n → 0 < 2 ^ n.
Proof. intros. apply Z.pow_pos_nonneg; lia. Qed.

Lemma pow2_le_spec n p q j :
  0 ≤ j → 0 ≤ n + j → pow2_le n p q = true ↔ q * 2 ^ (n + j) ≤ p * 2 ^ j.
Proof.
  intros Hj Hnj. unfold pow2_le. destruct (Z.leb_spec 0 n).
  - rewrite Z.leb_le, Z.pow_add_r by lia. rewrite Z.mul_assoc.
    pose proof (pow2_pos j Hj). apply (Z.mul_le_mono_pos_r _ _ (2 ^ j)). lia.
  - rewrite Z.leb_le. replace j with (n + j + - n) at 2 by lia. rewrite (Z.pow_add_r 2 (n + j)) by lia.
    pose proof (pow2_pos (n + j) Hnj). rewrite (Z.mul_comm (2 ^ (n + j))), Z.mul_assoc.
    apply (Z.mul_le_mono_pos_r _ _ (2 ^ (n + j))). lia.
Qed.

Lemma pow2_le_anti n n' p q :
  0 < q → n ≤ n' → pow2_le n' p q = true → pow2_le n p q = true.
Proof.
  intros Hq Hn. set (j := Z.abs n + Z.abs n').
  rewrite (pow2_le_spec n p q j), (pow2_le_spec n' p q j) by lia.
  pose proof (Z.pow_le_mono_r 2 (n + j) (n' + j)). nia.
Qed.

Lemma pow2_le_ratio n p q p' q' :
  0 < q → 0 < q' → p * q' = p' * q → pow2_le n p q = pow2_le n p' q'.
Proof.
  intros Hq Hq' E. apply eq_true_iff_eq. set (j := Z.abs n).
  rewrite !(pow2_le_spec n _ _ j) by lia.
  rewrite (Z.mul_le_mono_pos_r (q * _) _ q') by lia. rewrite (Z.mul_le_mono_pos_r (q' * _) _ q) by lia.
  replace (p * 2 ^ j * q') with (p * q' * 2 ^ j) by ring. rewrite E.
  replace (p' * 2 ^ j * q) with (p' * q * 2 ^ j) by ring.
  replace (q * 2 ^ (n + j) * q') with (q' * 2 ^ (n + j) * q) by ring. done.
Qed.

(** The exponent before it is raised to the least one. *)
Definition is_binade (x p q : Z) : Prop := pow2_le (x + 52) p q = true ∧ pow2_le (x + 53) p q = false.

Lemma binade_spec p q : 0 < p → 0 < q → ∃ x, binade p q = Z.max x (-1074) ∧ is_binade x p q.
Proof.
  intros Hp Hq. unfold binade. set (e := Z.log2 p - Z.log2 q - 53).
  pose proof (Z.log2_spec p Hp) as [P1 P2]. pose proof (Z.log2_spec q Hq) as [Q1 Q2].
  pose proof (Z.log2_nonneg p). pose proof (Z.log2_nonneg q).
  assert (pow2_le (e + 52) p q = true) as H1.
  { apply (pow2_le_spec _ _ _ (Z.succ (Z.log2 q))); [lia|unfold e; lia|].
    replace (e + 52 + Z.succ (Z.log2 q)) with (Z.log2 p) by (unfold e; lia).
    pose proof (pow2_pos (Z.log2 p)). nia. }
  assert (pow2_le (e + 54) p q = false) as H2.
  { apply not_true_iff_false. rewrite (pow2_le_spec _ _ _ (Z.log2 q)) by (unfold e; lia).
    replace (e + 54 + Z.log2 q) with (Z.succ (Z.log2 p)) by (unfold e; lia).
    pose proof (pow2_pos (Z.succ (Z.log2 p))). pose proof (pow2_pos (Z.log2 q)). nia. }
  destruct (pow2_le (e + 53) p q) eqn:E.
  - exists (e + 1). split; [done|]. split; [by replace (e + 1 + 52) with (e + 53) by lia|].
    by replace (e + 1 + 53) with (e + 54) by lia.
  - exists e. done.
Qed.

Lemma is_binade_unique x x' p q : 0 < q → is_binade x p q → is_binade x' p q → x = x'.
Proof.
  intros Hq [H1 H2] [H1' H2']. destruct (Z.lt_trichotomy x x') as [H|[H|H]]; [|done|].
  - rewrite (pow2_le_anti (x + 53) (x' + 52)) in H2; [done|done|lia|done].
  - rewrite (pow2_le_anti (x' + 53) (x + 52)) in H2'; [done|done|lia|done].
Qed.

Lemma binade_ratio p q p' q' :
  0 < p → 0 < q → 0 < p' → 0 < q' → p * q' = p' * q → binade p q = binade p' q'.
Proof.
  intros Hp Hq Hp' Hq' E. destruct (binade_spec p q Hp Hq) as (x & -> & Hx).
  destruct (binade_spec p' q' Hp' Hq') as (x' & -> & Hx').
  assert (x = x') as ->; [|done]. apply (is_binade_unique x x' p q Hq Hx). unfold is_binade in *.
  by rewrite !(pow2_le_ratio _ p q p' q').
Qed.

Lemma round_scale n d c : 0 < d → 0 < c → round_half_even (n * c) (d * c) = round_half_even n d.
Proof.
  intros Hd Hc. unfold round_half_even. rewrite Z.div_mul_cancel_r by lia.
  rewrite Z.mul_mod_distr_r by lia.
  replace (2 * (n mod d * c)) with (2 * (n mod d) * c) by lia.
  replace (d * c <? 2 * (n mod d) * c) with (d <? 2 * (n mod d)); [|apply eq_true_iff_eq; rewrite !Z.ltb_lt; nia].
  replace (d * c =? 2 * (n mod d) * c) with (d =? 2 * (n mod d)); [done|].
  apply eq_true_iff_eq. rewrite !Z.eqb_eq. nia.
Qed.

Lemma round_half_even_ratio n d n' d' :
  0 < d → 0 < d' → n * d' = n' * d → round_half_even n d = round_half_even n' d'.
Proof.
  intros Hd Hd' E. rewrite <- (round_scale n d d'), <- (round_scale n' d' d) by done.
  by rewrite E, (Z.mul_comm d).
Qed.

Lemma scale_spec e p q :
  0 < p → 0 < q → let '(n, d) := scale e p q in 0 < n ∧ 0 < d ∧ n * q * 2 ^ Z.max 0 e = p * d * 2 ^ Z.max 0 (- e).
Proof.
  intros Hp Hq. unfold scale. destruct (Z.leb_spec 0 e).
  - rewrite Z.max_r, Z.max_l by lia. pose proof (pow2_pos e). split; [done|]. split; [nia|]. ring.
  - rewrite Z.max_l, Z.max_r by lia. pose proof (pow2_pos (- e)). split; [nia|]. split; [done|]. ring.
Qed.

Lemma scale_ratio e p q p' q' :
  0 < p → 0 < q → 0 < p' → 0 < q' → p * q' = p' * q →
  let '(n, d) := scale e p q in let '(n', d') := scale e p' q' in n * d' = n' * d.
Proof.
  intros Hp Hq Hp' Hq' E. unfold scale. destruct (Z.leb_spec 0 e); [nia|].
  pose proof (pow2_pos (- e)). nia.
Qed.

Lemma round_binary_ratio p q p' q' :
  0 < p → 0 < q → 0 < p' → 0 < q' → p * q' = p' * q → round_binary p q = round_binary p' q'.
Proof.
  intros Hp Hq Hp' Hq' E. unfold round_binary. rewrite (binade_ratio p q p' q') by done.
  pose proof (scale_ratio (binade p' q') p q p' q' Hp Hq Hp' Hq' E) as Hs.
  pose proof (scale_spec (binade p' q') p q Hp Hq) as H1.
  pose proof (scale_spec (binade p' q') p' q' Hp' Hq') as H2.
  destruct (scale _ p q) as [n d], (scale _ p' q') as [n' d']. destruct H1 as (_ & Hd & _), H2 as (_ & Hd' & _).
  by rewrite (round_half_even_ratio n d n' d').
Qed.

(** ** Representable numbers round to themselves *)

Definition representable (m e : Z) : Prop :=
  0 < m < 2 ^ 53 ∧ -1074 ≤ e ≤ 971 ∧ (2 ^ 52 ≤ m ∨ e = -1074).

Lemma fraction_pos m e : 0 < m → let '(p, q) := fraction m e in 0 < p ∧ 0 < q.
Proof.
  intros Hm. unfold fraction. destruct (Z.leb_spec 0 e).
  - pose proof (pow2_pos e). split; nia.
  - pose proof (pow2_pos (- e)). split; lia.
Qed.

Lemma round_exact m e :
  representable m e → let '(p, q) := fraction m e in round_binary p q = Some (m, e).
Proof.
  intros (Hm & He & Hn). pose proof (fraction_pos m e ltac:(lia)) as Hpos.
  destruct (fraction m e) as [p q] eqn:Ef. destruct Hpos as [Hp Hq].
  assert (∀ j, 0 ≤ j → 0 ≤ e + j → p * 2 ^ j = q * (m * 2 ^ (e + j))) as Hval.
  { intros j Hj Hej. unfold fraction in Ef. destruct (Z.leb_spec 0 e); injection Ef as <- <-.
    - rewrite Z.pow_add_r by lia. ring.
    - replace j with (- e + (e + j)) at 1 by lia. rewrite Z.pow_add_r by lia. ring. }
  assert (binade p q = e) as Eb.
  { destruct (binade_spec p q Hp Hq) as (x & -> & Hx1 & Hx2).
    assert (pow2_le (e + 53) p q = false) as H53.
    { apply not_true_iff_false. rewrite (pow2_le_spec _ _ _ 2000), Hval by lia.
      replace (e + 53 + 2000) with (53 + (e + 2000)) by lia. rewrite (Z.pow_add_r 2 53) by lia.
      pose proof (pow2_pos (e + 2000) ltac:(lia)). nia. }
    assert (x ≤ e) as Hxe.
    { destruct (Z.le_gt_cases x e); [done|].
      by rewrite (pow2_le_anti (e + 53) (x + 52)) in H53 by (lia || done). }
    destruct Hn as [Hn| ->]; [|lia].
    assert (pow2_le (e + 52) p q = true) as H52.
    { rewrite (pow2_le_spec _ _ _ 2000), Hval by lia.
      replace (e + 52 + 2000) with (52 + (e + 2000)) by lia. rewrite (Z.pow_add_r 2 52) by lia.
      pose proof (pow2_pos (e + 2000) ltac:(lia)). nia. }
    rewrite (is_binade_unique x e p q Hq (conj Hx1 Hx2) (conj H52 H53)). lia. }
  unfold round_binary. rewrite Eb.
  assert (let '(n, d) := scale e p q in 0 < d ∧ n = m * d) as Hs.
  { unfold scale. destruct (Z.leb_spec 0 e).
    - split; [pose proof (pow2_pos e ltac:(done)); nia|]. pose proof (Hval 0 ltac:(lia) ltac:(lia)) as H0.
      rewrite Z.add_0_r, Z.pow_0_r, Z.mul_1_r in H0. rewrite H0. ring.
    - split; [done|]. pose proof (Hval (- e) ltac:(lia) ltac:(lia)) as H0.
      rewrite Z.add_opp_diag_r in H0. rewrite H0. ring. }
  destruct (scale e p q) as [n d]. destruct Hs as [Hd ->].
  unfold round_half_even. rewrite Z.div_mul, Z.mod_mul by lia. cbv zeta. rewrite Z.mul_0_r.
  rewrite (proj2 (Z.ltb_ge d 0)) by lia. rewrite (proj2 (Z.eqb_neq d 0)) by lia. cbn [orb andb].
  rewrite (proj2 (Z.eqb_neq m (2 ^ 53))) by lia. by rewrite (proj2 (Z.ltb_ge 971 e)) by lia.
Qed.

Lemma pow2_le_scale e c p q :
  0 ≤ c → let '(n, d) := scale e p q in pow2_le (e + c) p q = true ↔ d * 2 ^ c ≤ n.
Proof.
  intros Hc. unfold scale. destruct (Z.leb_spec 0 e).
  - unfold pow2_le. rewrite (proj2 (Z.leb_le 0 (e + c))), Z.leb_le, Z.pow_add_r by lia.
    by rewrite Z.mul_assoc.
  - rewrite (pow2_le_spec _ _ _ (- e)) by lia. by replace (e + c + - e) with c by lia.
Qed.

Lemma round_half_even_bounds n d :
  0 < d → n / d ≤ round_half_even n d ≤ n / d + 1.
Proof. intros Hd. unfold round_half_even. destruct (_ || _); lia. Qed.

(** What rounding yields is representable, or zero. *)
Lemma round_binary_representable p q m e :
  0 < p → 0 < q → round_binary p q = Some (m, e) → representable m e ∨ m = 0 ∧ e = -1074.
Proof.
  intros Hp Hq. unfold round_binary. destruct (binade_spec p q Hp Hq) as (x & Eb & Hx1 & Hx2).
  rewrite Eb. set (b := Z.max x (-1074)) in *.
  pose proof (scale_spec b p q Hp Hq) as Hs. pose proof (pow2_le_scale b 52 p q ltac:(lia)) as S52.
  pose proof (pow2_le_scale b 53 p q ltac:(lia)) as S53.
  destruct (scale b p q) as [n d]. destruct Hs as (Hn & Hd & _).
  assert (n < d * 2 ^ 53) as Hup.
  { apply Z.nle_gt. rewrite <- S53. intros H. unfold b in H.
    destruct (Z.max_spec x (-1074)) as [[H1 H2]|[H1 H2]]; rewrite H2 in H; [|by rewrite H in Hx2].
    rewrite (pow2_le_anti (x + 53) (-1074 + 53)) in Hx2 by (lia || done). done. }
  assert (2 ^ 52 ≤ n / d ∨ b = -1074) as Hlow.
  { destruct (Z.max_spec x (-1074)) as [[H1 H2]|[H1 H2]]; [by right|]. left.
    apply Z.div_le_lower_bound; [done|]. apply S52. unfold b. by rewrite H2. }
  assert (n / d < 2 ^ 53) as Hup' by (by apply Z.div_lt_upper_bound).
  assert (0 ≤ n / d) as H0 by (apply Z.div_pos; lia).
  pose proof (round_half_even_bounds n d Hd) as Hr. set (m0 := round_half_even n d) in *.
  destruct (Z.eqb_spec m0 (2 ^ 53)) as [E|E].
  - destruct (Z.ltb_spec 971 (b + 1)); [done|]. intros [= <- <-]. left. unfold representable.
    split; [lia|]. split; [lia|]. by left.
  - destruct (Z.ltb_spec 971 b); [done|]. intros [= <- <-].
    destruct (decide (m0 = 0)) as [E0|E0]; [right; split; [done|]; destruct Hlow; lia|].
    left. unfold representable. split; [lia|]. split; [lia|]. destruct Hlow; [left|right]; lia.
Qed.

(** Decimals of the same value round to the same number. *)
Definition same_decimal (d k d' k' : Z) : Prop :=
  ∃ j, 0 ≤ k + j ∧ 0 ≤ k' + j ∧ d * 10 ^ (k + j) = d' * 10 ^ (k' + j).

Lemma pow10_pos n : 0 ≤ n → 0 < 10 ^ n.
Proof. intros. apply Z.pow_pos_nonneg; lia. Qed.

Lemma decimal_spec d k j :
  0 ≤ k + j → 0 ≤ j → let '(p, q) := decimal d k in 0 < q ∧ p * 10 ^ j = d * 10 ^ (k + j) * q ∧ (0 < d → 0 < p).
Proof.
  intros Hkj Hj. unfold decimal. destruct (Z.leb_spec 0 k).
  - split; [done|]. rewrite Z.pow_add_r by lia. split; [ring|]. pose proof (pow10_pos k). nia.
  - pose proof (pow10_pos (- k)). split; [lia|]. split; [|done].
    replace j with (k + j + - k) at 1 by lia. rewrite (Z.pow_add_r 10 (k + j)) by lia. ring.
Qed.

Lemma round_decimal_same d k d' k' :
  0 < d → 0 < d' → same_decimal d k d' k' → round_decimal d k = round_decimal d' k'.
Proof.
  intros Hd Hd' (j & Hj & Hj' & E). unfold round_decimal.
  rewrite (proj2 (Z.eqb_neq d 0)), (proj2 (Z.eqb_neq d' 0)) by lia.
  set (i := Z.abs k + Z.abs k' + Z.abs j).
  pose proof (decimal_spec d k i ltac:(lia) ltac:(lia)) as H1.
  pose proof (decimal_spec d' k' i ltac:(lia) ltac:(lia)) as H2.
  destruct (decimal d k) as [p q], (decimal d' k') as [p' q']. destruct H1 as (Hq & E1 & Hp), H2 as (Hq' & E2 & Hp').
  assert (d * 10 ^ (k + i) = d' * 10 ^ (k' + i)) as Ei.
  { replace (k + i) with (k + j + (i - j)) by lia. replace (k' + i) with (k' + j + (i - j)) by lia.
    rewrite !(Z.pow_add_r 10 (_ + j)) by lia. rewrite !Z.mul_assoc. by rewrite E. }
  apply round_binary_ratio; auto. apply (Z.mul_reg_r _ _ (10 ^ i)); [pose proof (pow10_pos i); lia|].
  replace (p * q' * 10 ^ i) with (p * 10 ^ i * q') by ring. rewrite E1, Ei.
  replace (p' * q * 10 ^ i) with (p' * 10 ^ i * q) by ring. rewrite E2. ring.
Qed.

(** ** The shortest digits read back *)

Lemma reads_back_pos m e d k : 0 < m → 0 ≤ d → reads_back m e d k = true → 0 < d ∧ round_decimal d k = Some (m, e).
Proof.
  intros Hm Hd H. apply bool_decide_eq_true in H. split; [|done].
  destruct (decide (d = 0)) as [->|]; [|lia]. cbn in H. injection H as <- _. done.
Qed.

Lemma candidate_reads m e k d :
  0 < m → candidate m e k = Some d → 0 < d ∧ round_decimal d k = Some (m, e).
Proof.
  intros Hm. unfold candidate. pose proof (fraction_pos m e Hm) as Hf. destruct (fraction m e) as [p q].
  destruct Hf as [Hp Hq]. destruct (if 0 <=? k then _ else _) as [p' q'] eqn:E.
  assert (0 ≤ p' ∧ 0 < q') as [Hp' Hq'].
  { destruct (Z.leb_spec 0 k); injection E as <- <-.
    - pose proof (pow10_pos k). split; nia.
    - pose proof (pow10_pos (- k)). split; nia. }
  pose proof (Z.div_pos p' q' Hp' Hq'). set (lo := p' / q') in *.
  destruct (reads_back m e lo k) eqn:E1, (reads_back m e (lo + 1) k) eqn:E2; try done.
  - intros [= <-]. destruct (_ || _); apply reads_back_pos; (done || lia).
  - intros [= <-]. by apply reads_back_pos.
  - intros [= <-]. apply reads_back_pos; (done || lia).
Qed.

Lemma exact_decimal m e :
  representable m e →
  let '(d, k) := if 0 <=? e then (m * 2 ^ e, 0) else (m * 5 ^ (- e), e) in
  0 < d ∧ round_decimal d k = Some (m, e).
Proof.
  intros Hr. pose proof (round_exact m e Hr) as Hx. destruct Hr as (Hm & _).
  pose proof (fraction_pos m e ltac:(lia)) as Hf. unfold fraction in Hx, Hf. destruct (Z.leb_spec 0 e) as [He|He].
  - destruct Hf as [Hp Hq]. split; [done|]. unfold round_decimal. rewrite (proj2 (Z.eqb_neq _ 0)) by lia.
    unfold decimal. cbn [Z.leb Z.compare]. rewrite Z.pow_0_r, Z.mul_1_r. exact Hx.
  - destruct Hf as [Hp Hq]. assert (0 < 5 ^ (- e)) as H5 by (apply Z.pow_pos_nonneg; lia).
    split; [nia|]. unfold round_decimal. rewrite (proj2 (Z.eqb_neq _ 0)) by nia.
    unfold decimal. rewrite (proj2 (Z.leb_gt 0 e)) by lia. pose proof (pow10_pos (- e)).
    rewrite <- Hx. apply round_binary_ratio; [nia|lia|lia|lia|].
    replace 10 with (5 * 2) by done. rewrite Z.pow_mul_l by lia. ring.
Qed.

(** The written digits read back as the number. *)
Lemma shortest_reads m e :
  representable m e → let '(d, k) := shortest m e in 0 < d ∧ round_decimal d k = Some (m, e).
Proof.
  intros Hr. unfold shortest. generalize (leading m e) as k. generalize 17%nat as n.
  induction n as [|n IH]; intros k; cbn [shortest_from]; [by apply exact_decimal|].
  destruct (candidate m e k) as [d|] eqn:E; [|apply IH].
  apply (candidate_reads m e); [destruct Hr; lia|done].
Qed.
