(* ===== verification/GoTime.v ===== *)
(** * GoTime: RFC 3339 timestamps

    [time.Parse(time.RFC3339Nano, s)].  The package first tries a strict reader
    and falls back to the layout-driven one, which accepts all that the strict
    reader accepts with the same value; the model is the layout-driven one. *)
From S2P Require Import Prelude GoStrings.
From stdpp Require Import options.

(** [getnum]: two digits, or a single one where the layout does not fix two. *)
Definition getnum (s : string) (fixed : bool) : option (Z * string) :=
  match s with
  | String a s1 =>
      if negb (is_digit a) then None else
      match s1 with
      | String b s2 =>
          if is_digit b then Some ((10 * (code a - 48) + (code b - 48))%Z, s2)
          else if fixed then None else Some ((code a - 48)%Z, s1)
      | "" => if fixed then None else Some ((code a - 48)%Z, s1)
      end
  | "" => None
  end.

Definition skip_byte (c : ascii) (s : string) : option string :=
  match s with String d s' => if beq d c then Some s' else None | "" => None end.

Fixpoint span_dec (s : string) : string * string :=
  match s with
  | String c s' => if is_digit c then let '(ds, r) := span_dec s' in (String c ds, r) else ("", s)
  | "" => ("", "")
  end.

(** The fractional second: nine digits count, more are dropped; a comma serves as
    the point. *)
Definition parse_fraction (s : string) : Z * string :=
  match s with
  | String p s' =>
      if beq p "." || beq p "," then
        match span_dec s' with
        | ("", _) => (0%Z, s)
        | (ds, rest) =>
            let ds := stake 9 ds in
            ((default 0%Z (ParseUint ds) * 10 ^ (9 - Z.of_nat (len ds)))%Z, rest)
        end
      else (0%Z, s)
  | "" => (0%Z, s)
  end.

(** The zone: [Z], or a signed offset in seconds. *)
Definition parse_zone (s : string) : option (Z * string) :=
  match s with
  | String c r =>
      if beq c "Z" then Some (0%Z, r) else
      if (len s <? 6)%nat then None else
      _ ← skip_byte ":" (sdrop 3 s);
      '(hr, _) ← getnum (stake 2 (sdrop 1 s)) true;
      '(mm, _) ← getnum (stake 2 (sdrop 4 s)) true;
      if ((24 <? hr) || (60 <? mm))%Z then None else
      let off := ((hr * 60 + mm) * 60)%Z in
      if beq c "+" then Some (off, sdrop 6 s) else if beq c "-" then Some ((- off)%Z, sdrop 6 s) else None
  | "" => None
  end.

Definition is_leap (y : Z) : bool := ((y mod 4 =? 0) && (negb (y mod 100 =? 0) || (y mod 400 =? 0)))%Z.

Definition daysIn (m y : Z) : Z :=
  if (m =? 2)%Z then (if is_leap y then 29 else 28)%Z
  else if existsb (Z.eqb m) [4; 6; 9; 11]%Z then 30%Z else 31%Z.

Fixpoint days_before (m : nat) (y : Z) : Z :=
  match m with 0 => 0%Z | S m' => (days_before m' y + daysIn (Z.of_nat (S m')) y)%Z end.

(** Days from January 1, year 1. *)
Definition day_number (y m d : Z) : Z :=
  (365 * (y - 1) + (y - 1) / 4 - (y - 1) / 100 + (y - 1) / 400 + days_before (Z.to_nat (m - 1)) y + (d - 1))%Z.

Definition four_digits (s : string) : option (Z * string) :=
  let y := stake 4 s in
  if negb (len y =? 4)%nat then None else n ← ParseUint y; Some (n, sdrop 4 s).

Definition in_range (lo hi n : Z) : option unit := if ((lo <=? n) && (n <=? hi))%Z then Some tt else None.

Definition ParseRFC3339Nano (s : string) : option Time :=
  '(year, s) ← four_digits s; s ← skip_byte "-" s;
  '(month, s) ← getnum s true; _ ← in_range 1 12 month; s ← skip_byte "-" s;
  '(day, s) ← getnum s true; s ← skip_byte "T" s;
  '(hour, s) ← getnum s false; _ ← in_range 0 23 hour; s ← skip_byte ":" s;
  '(min, s) ← getnum s true; _ ← in_range 0 59 min; s ← skip_byte ":" s;
  '(sec, s) ← getnum s true; _ ← in_range 0 59 sec;
  let '(nsec, s) := parse_fraction s in
  '(offset, s) ← parse_zone s;
  if negb (bool_decide (s = "")) then None else
  _ ← in_range 1 (daysIn month year) day;
  Some ((((day_number year month day * 24 + hour) * 60 + min) * 60 + sec - offset) * Second + nsec)%Z.
