(* ===== verification/Regex.v ===== *)
(** * Regex: anchored regular expressions

    The patterns of the sources are all of the form [^...$] over ASCII classes.
    A pattern is a syntax tree, [matches] its language, [MatchString] a matcher by
    derivatives, and [MatchString_matches] says that they agree. *)
From S2P Require Import Prelude GoStrings.
From stdpp Require Import options.

Inductive re : Type :=
  | RNone
  | REps
  | RClass (P : ascii → bool)
  | RSeq (a b : re)
  | RAlt (a b : re)
  | RStar (a : re).

(** The language of a pattern. *)
Inductive matches : re → string → Prop :=
  | MEps : matches REps ""
  | MClass P c : P c = true → matches (RClass P) (String c "")
  | MSeq a b s t : matches a s → matches b t → matches (RSeq a b) (s +:+ t)
  | MAltL a b s : matches a s → matches (RAlt a b) s
  | MAltR a b s : matches b s → matches (RAlt a b) s
  | MStarNil a : matches (RStar a) ""
  | MStarCons a s t : matches a s → matches (RStar a) t → matches (RStar a) (s +:+ t).

(** The forms of the patterns' syntax: [a+], [a?], [a{0,n}], a literal. *)
Definition RPlus (a : re) : re := RSeq a (RStar a).
Definition ROpt (a : re) : re := RAlt a REps.
Fixpoint RUpTo (n : nat) (a : re) : re := match n with 0 => REps | S n' => ROpt (RSeq a (RUpTo n' a)) end.
Fixpoint RTimes (n : nat) (a : re) : re := match n with 0 => REps | S n' => RSeq a (RTimes n' a) end.
Definition RChar (c : ascii) : re := RClass (beq c).

Fixpoint nullable (r : re) : bool :=
  match r with
  | RNone | RClass _ => false
  | REps | RStar _ => true
  | RSeq a b => nullable a && nullable b
  | RAlt a b => nullable a || nullable b
  end.

(** Sequence and alternative that drop branches that cannot match. *)
Definition seq (a b : re) : re := match a with RNone => RNone | REps => b | _ => RSeq a b end.
Definition alt (a b : re) : re := match a, b with RNone, _ => b | _, RNone => a | _, _ => RAlt a b end.

Fixpoint deriv (c : ascii) (r : re) : re :=
  match r with
  | RNone | REps => RNone
  | RClass P => if P c then REps else RNone
  | RSeq a b => if nullable a then alt (seq (deriv c a) b) (deriv c b) else seq (deriv c a) b
  | RAlt a b => alt (deriv c a) (deriv c b)
  | RStar a => seq (deriv c a) (RStar a)
  end.

Fixpoint MatchString (r : re) (s : string) : bool :=
  match s with "" => nullable r | String c s' => MatchString (deriv c r) s' end.

(** ** Correctness *)

Lemma sapp_empty s t : s +:+ t = "" → s = "" ∧ t = "".
Proof. destruct s; [by rewrite sapp_nil_l|done]. Qed.

Lemma nullable_matches r : nullable r = true ↔ matches r "".
Proof.
  induction r as [| |P|a IHa b IHb|a IHa b IHb|a IHa]; cbn [nullable].
  - split; [done|]. by inversion 1.
  - split; [constructor|done].
  - split; [done|]. by inversion 1.
  - rewrite andb_true_iff, IHa, IHb. split.
    + intros [??]. by apply (MSeq a b "" "").
    + inversion 1; subst. match goal with E : _ +:+ _ = "" |- _ => by apply sapp_empty in E as [-> ->] end.
  - rewrite orb_true_iff, IHa, IHb. split; [by intros [?|?]; constructor|]. inversion 1; auto.
  - split; [constructor|done].
Qed.

Lemma seq_matches a b s : matches (seq a b) s ↔ matches (RSeq a b) s.
Proof.
  destruct a; cbn [seq]; try done; split; intros H.
  - inversion H.
  - inversion H; subst. match goal with H : matches RNone _ |- _ => inversion H end.
  - by apply (MSeq REps b "" s); [constructor|].
  - inversion H; subst. match goal with H : matches REps _ |- _ => inversion H; subst end. by rewrite sapp_nil_l.
Qed.

Lemma alt_matches a b s : matches (alt a b) s ↔ matches a s ∨ matches b s.
Proof.
  assert (∀ s, ¬ matches RNone s) as Hn by (intros ?; inversion 1).
  assert (∀ a b, matches (RAlt a b) s ↔ matches a s ∨ matches b s) as Ha.
  { intros x y. split; [inversion 1; auto|intros [?|?]; by constructor]. }
  destruct a; cbn [alt]; [naive_solver|destruct b; first [by apply Ha|naive_solver]..].
Qed.

Lemma RSeq_cons a b c s :
  matches (RSeq a b) (String c s) ↔
  (∃ u v, s = u +:+ v ∧ matches a (String c u) ∧ matches b v) ∨ (matches a "" ∧ matches b (String c s)).
Proof.
  split.
  - intros H. inversion H as [| |a' b' u v Hu Hv Ha E| | | |]; subst a' b'. destruct u as [|d u].
    + rewrite sapp_nil_l in E. subst. auto.
    + rewrite sapp_cons in E. injection E as -> <-. left. eauto.
  - intros [(u & v & -> & Hu & Hv)|[Hu Hv]].
    + rewrite <- sapp_cons. by constructor.
    + apply (MSeq a b "" (String c s) Hu Hv).
Qed.

Lemma RStar_cons a c s :
  matches (RStar a) (String c s) ↔ ∃ u v, s = u +:+ v ∧ matches a (String c u) ∧ matches (RStar a) v.
Proof.
  split.
  - intros H. remember (RStar a) as r eqn:Er. remember (String c s) as w eqn:Ew. revert c s Er Ew.
    induction H as [| | | | |a'|a' u v Hu _ Hv IH]; intros x w Er Ew; try discriminate. simplify_eq.
    destruct u as [|d u]; [rewrite sapp_nil_l in Ew; eauto|].
    rewrite sapp_cons in Ew. injection Ew as -> <-. eauto.
  - intros (u & v & -> & Hu & Hv). rewrite <- sapp_cons. by constructor.
Qed.

Lemma deriv_matches c r s : matches (deriv c r) s ↔ matches r (String c s).
Proof.
  revert s. induction r as [| |P|a IHa b IHb|a IHa b IHb|a IHa]; intros s; cbn [deriv].
  - split; inversion 1.
  - split; inversion 1.
  - destruct (P c) eqn:E; split; inversion 1; subst; try congruence; by constructor.
  - assert (matches (RSeq (deriv c a) b) s ↔ ∃ u v, s = u +:+ v ∧ matches a (String c u) ∧ matches b v) as Hs.
    { split.
      - inversion 1; subst. setoid_rewrite <- IHa. eauto 10.
      - intros (u & v & -> & Hu & Hv). constructor; [by apply IHa|done]. }
    rewrite RSeq_cons. destruct (nullable a) eqn:E.
    + rewrite alt_matches, seq_matches, Hs, IHb, <- nullable_matches.
      split; [intros [?|?]|intros [?|[_ ?]]]; auto.
    + rewrite seq_matches, Hs, <- nullable_matches, E. split; [auto|by intros [?|[? _]]].
  - rewrite alt_matches, IHa, IHb. split; [intros [?|?]; by constructor|inversion 1; auto].
  - rewrite seq_matches, RStar_cons. split.
    + inversion 1; subst. setoid_rewrite <- IHa. eauto 10.
    + intros (u & v & -> & Hu & Hv). constructor; [by apply IHa|done].
Qed.

Lemma MatchString_matches r s : MatchString r s = true ↔ matches r s.
Proof.
  revert r. induction s as [|c s IH]; intros r; cbn [MatchString]; [apply nullable_matches|].
  rewrite IH. apply deriv_matches.
Qed.
