(* ===== verification/Quota.v ===== *)
(** * Bounded history table

    [src/adcp/v3/internal/quota/quota.go]: a table of security history with a
    limit per group and a global limit, which refuses a new entry rather than
    evict an old one.  [Table] is the Go struct; one definition per method. *)
From S2P Require Import Prelude.
From stdpp Require Import options.

Section quota.
Context {V : Type}.

Record entry := Entry { group : string; value : V }.

Record Table := MkTable {
  limit : Z;
  perGroup : Z;
  entries : gmap string entry;
  counts : gmap string Z;
}.

Definition New (limit perGroup : Z) : Table := MkTable limit perGroup ∅ ∅.

(** [t.counts[g]]: a missing key of a Go map reads as zero. *)
Definition count_of (t : Table) (g : string) : Z := default 0%Z (counts t !! g).

Definition Get (t : Table) (key : string) : option V := value <$> entries t !! key.

Definition Put (t : Table) (key g : string) (v : V) : Table * bool :=
  match entries t !! key with
  | Some e =>
      (MkTable (limit t) (perGroup t) (<[key := Entry (group e) v]> (entries t)) (counts t),
       true)
  | None =>
      if ((limit t <=? Z.of_nat (size (entries t))) || (perGroup t <=? count_of t g))%Z
      then (t, false)
      else (MkTable (limit t) (perGroup t)
              (<[key := Entry g v]> (entries t))
              (<[g := (count_of t g + 1)%Z]> (counts t)),
            true)
  end.

Definition Delete (t : Table) (key : string) : Table :=
  match entries t !! key with
  | Some e =>
      let n := (count_of t (group e) - 1)%Z in
      MkTable (limit t) (perGroup t) (delete key (entries t))
        (if (n <=? 0)%Z then delete (group e) (counts t)
         else <[group e := n]> (counts t))
  | None => t
  end.

Definition Len (t : Table) : nat := size (entries t).
Definition GroupLen (t : Table) (g : string) : Z := count_of t g.

(** ** Specification: what the counters count *)

Definition in_group (g : string) (m : gmap string entry) : gmap string entry :=
  filter (λ kv, group kv.2 = g) m.

Definition members (t : Table) (g : string) : Z := Z.of_nat (size (in_group g (entries t))).

(** The counters are exact, no zero counter is kept, and both limits hold. *)
Record wf (t : Table) : Prop := {
  wf_count : ∀ g, count_of t g = members t g;
  wf_nonzero : ∀ g n, counts t !! g = Some n → (0 < n)%Z;
  wf_group : ∀ g, (members t g ≤ Z.max 0 (perGroup t))%Z;
  wf_total : (Z.of_nat (Len t) ≤ Z.max 0 (limit t))%Z;
}.

Lemma in_group_insert_eq m k e :
  m !! k = None → size (in_group (group e) (<[k := e]> m)) = S (size (in_group (group e) m)).
Proof.
  intros Hk. unfold in_group. rewrite map_filter_insert_True by done.
  apply map_size_insert_None. apply map_lookup_filter_None. by left.
Qed.

Lemma in_group_insert_ne m k e g :
  m !! k = None → g ≠ group e → in_group g (<[k := e]> m) = in_group g m.
Proof.
  intros Hk Hg. unfold in_group. rewrite map_filter_insert_False by (cbn; congruence).
  by rewrite delete_id.
Qed.

(** An update in place keeps every group's size. *)
Lemma in_group_update m k e v g :
  m !! k = Some e →
  size (in_group g (<[k := Entry (group e) v]> m)) = size (in_group g m).
Proof.
  intros Hk. unfold in_group. destruct (decide (group e = g)) as [<-|Hg].
  - rewrite map_filter_insert_True by done.
    apply map_size_insert_Some. exists e. by apply map_lookup_filter_Some.
  - rewrite map_filter_insert_False by done.
    rewrite map_filter_delete, delete_id; [done|].
    apply map_lookup_filter_None. right. intros e' He. by simplify_eq.
Qed.

Lemma in_group_delete m k e g :
  m !! k = Some e →
  size (in_group g m)
  = size (in_group g (delete k m)) + (if decide (group e = g) then 1 else 0).
Proof.
  intros Hk. unfold in_group. rewrite map_filter_delete.
  destruct (decide (group e = g)) as [Hg|Hg].
  - rewrite map_size_delete_Some by (by exists e; apply map_lookup_filter_Some).
    assert (size (filter (λ kv, group kv.2 = g) m) ≠ 0); [|lia].
    apply map_size_non_empty_iff. intros Hm.
    assert (filter (λ kv, group kv.2 = g) m !! k = Some e) as Hk'
      by (by apply map_lookup_filter_Some).
    by rewrite Hm, lookup_empty in Hk'.
  - rewrite delete_id; [lia|]. apply map_lookup_filter_None. right. naive_solver.
Qed.

Lemma New_wf l p : wf (New l p).
Proof.
  assert (∀ g, members (New l p) g = 0%Z) as Hm.
  { intros g. unfold members, in_group. cbn. by rewrite map_filter_empty, map_size_empty. }
  split; cbn; intros; rewrite ?Hm; unfold Len; cbn; rewrite ?map_size_empty; try lia.
  - done.
  - by rewrite lookup_empty in *.
Qed.

Lemma Put_wf t k g v : wf t → wf (Put t k g v).1.
Proof.
  intros Hwf. unfold Put. destruct (entries t !! k) as [e|] eqn:Hk.
  - destruct Hwf as [Hc Hn Hg Ht]. cbn.
    assert (∀ g', members (MkTable (limit t) (perGroup t)
       (<[k:=Entry (group e) v]> (entries t)) (counts t)) g' = members t g') as Hm.
    { intros g'. unfold members. cbn. by rewrite (in_group_update _ _ e). }
    split; cbn; intros; rewrite ?Hm; try naive_solver.
    unfold Len in *. cbn. rewrite map_size_insert_Some; [done|by exists e].
  - destruct (orb _ _) eqn:Hb; [done|]. bool_prop.
    destruct Hwf as [Hc Hn Hg Ht]. cbn.
    assert (∀ g', members (MkTable (limit t) (perGroup t) (<[k:=Entry g v]> (entries t))
       (<[g:=(count_of t g + 1)%Z]> (counts t))) g'
       = if decide (g = g') then (members t g + 1)%Z else members t g') as Hm.
    { intros g'. unfold members. cbn. case_decide as Hgg.
      - subst g'. change g with (group (Entry g v)) at 1.
        rewrite in_group_insert_eq by done. cbn. lia.
      - by rewrite in_group_insert_ne by (cbn; done). }
    split; cbn; intros; rewrite ?Hm.
    + unfold count_of at 1. cbn. rewrite lookup_insert. case_decide; [|apply Hc].
      cbn. by rewrite Hc.
    + rewrite lookup_insert in H1. case_decide; simplify_eq; [|by eapply Hn].
      rewrite Hc. unfold members. lia.
    + case_decide; [|apply Hg]. rewrite Hc in *. subst. lia.
    + unfold Len in *. cbn. rewrite map_size_insert_None by done. lia.
Qed.

(** The counters a [Delete] of entry [e] leaves. *)
Lemma Delete_count t e g :
  wf t → (0 < members t (group e))%Z →
  default 0%Z ((if (count_of t (group e) - 1 <=? 0)%Z then delete (group e) (counts t)
     else <[group e:=(count_of t (group e) - 1)%Z]> (counts t)) !! g)
  = (members t g - (if decide (group e = g) then 1 else 0))%Z.
Proof.
  intros [Hc _ _ _] Hpos. case_decide as Hg.
  - subst g. destruct (Z.leb_spec (count_of t (group e) - 1) 0) as [Hle|Hlt].
    + rewrite lookup_delete_eq. cbn. rewrite Hc in *. lia.
    + rewrite lookup_insert_eq. cbn. by rewrite Hc.
  - transitivity (count_of t g); [|rewrite Hc; lia]. unfold count_of at 2.
    destruct (_ <=? _)%Z; [by rewrite lookup_delete_ne|by rewrite lookup_insert_ne].
Qed.

Lemma Delete_wf t k : wf t → wf (Delete t k).
Proof.
  intros Hwf. unfold Delete. destruct (entries t !! k) as [e|] eqn:Hk; [|done].
  assert (∀ g', members t g' = (Z.of_nat (size (in_group g' (delete k (entries t))))
     + (if decide (group e = g') then 1 else 0))%Z) as Hm.
  { intros g'. unfold members. rewrite (in_group_delete _ k e g') by done.
    case_decide; lia. }
  assert (0 < members t (group e))%Z by (rewrite Hm, decide_True by done; lia).
  split.
  - intros g. unfold count_of at 1, members at 1. cbn [counts entries].
    rewrite Delete_count by done. rewrite (Hm g). lia.
  - intros g n. cbn [counts]. destruct (Z.leb_spec (count_of t (group e) - 1) 0).
    + intros [? ?]%lookup_delete_Some. by eapply (wf_nonzero t).
    + rewrite lookup_insert. case_decide; [intros [= <-]; lia|by apply (wf_nonzero t)].
  - intros g. pose proof (wf_group t Hwf g) as Hg. unfold members at 1.
    cbn [perGroup entries]. rewrite Hm in Hg. case_decide; lia.
  - pose proof (wf_total t Hwf). unfold Len in *. cbn.
    rewrite map_size_delete_Some by (by exists e). lia.
Qed.

(** ** Histories of calls *)

Inductive op := OPut (key g : string) (v : V) | ODelete (key : string).

Definition apply_op (t : Table) (o : op) : Table :=
  match o with OPut k g v => (Put t k g v).1 | ODelete k => Delete t k end.

Definition apply_ops (t : Table) (ops : list op) : Table := foldl apply_op t ops.

Definition op_deletes (k : string) (o : op) : Prop :=
  match o with ODelete k' => k' = k | OPut _ _ _ => False end.

Lemma apply_ops_wf ops t : wf t → wf (apply_ops t ops).
Proof.
  revert t. induction ops as [|[k g v|k] ops IH]; intros t Ht; cbn; [done| |].
  - apply IH. by apply Put_wf.
  - apply IH. by apply Delete_wf.
Qed.

Lemma apply_ops_limits ops t :
  limit (apply_ops t ops) = limit t ∧ perGroup (apply_ops t ops) = perGroup t.
Proof.
  revert t. induction ops as [|o ops IH]; intros t; [done|].
  change (apply_ops t (o :: ops)) with (apply_ops (apply_op t o) ops).
  destruct (IH (apply_op t o)) as [-> ->]. destruct o as [k g v|k]; cbn.
  - unfold Put. destruct (entries t !! k); [done|]. by destruct (orb _ _).
  - unfold Delete. by destruct (entries t !! k).
Qed.

(** An entry survives every operation but a [Delete] of its own key, and
    keeps the group it was recorded under. *)
Lemma apply_op_keeps t o k e :
  ¬ op_deletes k o → entries t !! k = Some e →
  ∃ e', entries (apply_op t o) !! k = Some e' ∧ group e' = group e.
Proof.
  intros Ho Hk. destruct o as [k' g v|k']; cbn in *.
  - unfold Put. destruct (entries t !! k') as [e'|] eqn:Hk'; cbn.
    + destruct (decide (k' = k)) as [->|]; simplify_map_eq; eauto.
    + destruct (orb _ _); cbn; [by eauto|].
      destruct (decide (k' = k)) as [->|]; simplify_map_eq; eauto.
  - unfold Delete. destruct (entries t !! k'); cbn; [|by eauto].
    simplify_map_eq. eauto.
Qed.

Lemma apply_ops_keeps ops t k e :
  Forall (λ o, ¬ op_deletes k o) ops → entries t !! k = Some e →
  ∃ e', entries (apply_ops t ops) !! k = Some e' ∧ group e' = group e.
Proof.
  revert t e. induction ops as [|o ops IH]; intros t e Ho Hk; cbn; [by eauto|].
  apply Forall_cons in Ho as [Ho Hos].
  destruct (apply_op_keeps t o k e Ho Hk) as (e1 & Hk1 & Hg1).
  destruct (IH _ e1 Hos Hk1) as (e2 & Hk2 & Hg2). exists e2. by rewrite Hg2.
Qed.
End quota.
Arguments Table : clear implicits.
Arguments op : clear implicits.

(** ** Properties *)

(** after any history of calls the counters are exact and positive, no group
    holds more than [perGroup] entries and the table no more than [limit]. *)
Theorem quota_limits {V} (l p : Z) (ops : list (op V)) : wf (apply_ops (New l p) ops).
Proof. apply apply_ops_wf, New_wf. Qed.

(** no call evicts another key's entry: an entry is still there, under the
    group it was recorded with, after any calls that do not delete it by name. *)
Theorem quota_no_eviction {V} (l p : Z) (ops ops' : list (op V)) k e :
  entries (apply_ops (New l p) ops) !! k = Some e →
  Forall (λ o, ¬ op_deletes k o) ops' →
  ∃ e', entries (apply_ops (New l p) (ops ++ ops')) !! k = Some e' ∧ group e' = group e.
Proof.
  intros Hk Ho. unfold apply_ops in *. rewrite foldl_app. by apply apply_ops_keeps.
Qed.

Lemma quota_no_eviction_witness :
  ∃ e', entries (apply_ops (New 2 1)
          ([OPut "k1" "op.example" 7%nat] ++
           [OPut "k2" "op.example" 8%nat; ODelete "k2"; OPut "k3" "evil" 9%nat])) !! "k1"
        = Some e' ∧ group e' = "op.example".
Proof.
  apply (quota_no_eviction 2 1 [OPut "k1" "op.example" 7%nat]
           [OPut "k2" "op.example" 8%nat; ODelete "k2"; OPut "k3" "evil" 9%nat]
           "k1" (Entry "op.example" 7%nat)).
  - vm_compute. reflexivity.
  - repeat constructor; cbn; [intros []|discriminate|intros []].
Defined.

(** [Put] updates an existing key whatever the limits; it refuses a new key
    exactly when its group or the table is full, and a refusal changes nothing;
    in every case the other keys keep their values. *)
Theorem quota_Put_spec {V} (l p : Z) (ops : list (op V)) k g (v : V) :
  let t := apply_ops (New l p) ops in
  let '(t', ok) := Put t k g v in
  (ok = false ↔ Get t k = None ∧
     (l ≤ Z.of_nat (Len t) ∨ p ≤ members t g))%Z ∧
  (ok = false → t' = t) ∧
  (ok = true → Get t' k = Some v) ∧
  (∀ k', k' ≠ k → Get t' k' = Get t k').
Proof.
  intros t. assert (wf t) as [Hc _ _ _] by apply apply_ops_wf, New_wf.
  destruct (apply_ops_limits ops (New l p)) as [Hl Hp]. fold t in Hl, Hp. cbn in Hl, Hp.
  rewrite <- Hl, <- Hp.
  unfold Put, Get, Len. rewrite <- Hc.
  destruct (entries t !! k) as [e|] eqn:Hk; cbn.
  - split_and!; [naive_solver|done| |]; intros; by simplify_map_eq.
  - destruct (orb _ _) eqn:Hb; cbn.
    + split_and!; [|done|done|done]. split; [|done]. intros _. split; [done|].
      bool_prop. destruct Hb; bool_prop; auto.
    + bool_prop. split_and!; [|done| |].
      * split; [done|]. intros [_ [?|?]]; lia.
      * intros _. by simplify_map_eq.
      * intros k' Hk'. by simplify_map_eq.
Qed.
