(* ===== verification/Version.v ===== *)
(** * AdCP version negotiation

    [src/adcp/v3/version.go]: parsing release-precision versions, the order on
    releases and the choice of the version a server serves.  The Go functions
    keep their names. *)
From S2P Require Import Prelude GoStrings.
From stdpp Require Import options.

Definition ADCPProtocolVersion30 : string := "3.0".
Definition ADCPProtocolVersion31 : string := "3.1".
Definition ADCPProtocolVersion32RC1 : string := "3.2-rc.1".
Definition ADCPProtocolVersion32RC3 : string := "3.2-rc.3".
Definition ADCPProtocolVersion32 : string := "3.2".

Definition SupportedADCPVersions : list string :=
  [ADCPProtocolVersion30; ADCPProtocolVersion31; ADCPProtocolVersion32RC1;
   ADCPProtocolVersion32RC3; ADCPProtocolVersion32].

Definition DefaultADCPVersion : string := ADCPProtocolVersion32.

Record adcpRelease := MkRelease {
  major : Z;
  minor : Z;
  prerelease : string;
  version : string;
}.

#[export] Instance adcpRelease_eq_dec : EqDecision adcpRelease.
Proof. solve_decision. Defined.

Definition zeroRelease : adcpRelease := MkRelease 0 0 "" "".

(** ** Parsing *)

Definition parseNonNegativeInt (s : string) : option Z :=
  if bool_decide (s = "") then None
  else n ← ParseInt s; if (n <? 0)%Z then None else Some n.

Definition prerelease_char (c : ascii) : bool :=
  is_digit c || between 65 90 c || between 97 122 c || beq c "-".

Definition validPrerelease (s : string) : bool :=
  forallb (λ part, negb (bool_decide (part = "")) && all_bytes prerelease_char part)
    (Split s ".").

Definition parseADCPRelease (version : string) : option adcpRelease :=
  let version := TrimSpace version in
  if bool_decide (version = "") then None else
  let version :=
    match IndexByte version "+" with Some i => stake i version | None => version end in
  let '(core, pre, _) := Cut version "-" in
  let parts := Split core "." in
  match parts with
  | p0 :: p1 :: rest =>
      if Nat.ltb 1 (length rest) then None else
      major ← parseNonNegativeInt p0;
      minor ← parseNonNegativeInt p1;
      _ ← (match rest with p2 :: _ => parseNonNegativeInt p2 | [] => Some 0%Z end);
      if negb (bool_decide (pre = "")) && negb (validPrerelease pre) then None else
      let normalized := Itoa major +:+ "." +:+ Itoa minor in
      let normalized :=
        if bool_decide (pre = "") then normalized else normalized +:+ "-" +:+ pre in
      Some (MkRelease major minor pre normalized)
  | _ => None
  end.

Definition NormalizeADCPVersion (v : string) : option string :=
  version <$> parseADCPRelease v.

Definition MajorFromADCPVersion (v : string) : option Z :=
  major <$> parseADCPRelease v.

Record VersionEnvelope := MkEnvelope { AdcpVersion : string; AdcpMajorVersion : Z }.

Definition VersionEnvelopeFor (v : string) : option VersionEnvelope :=
  normalized ← NormalizeADCPVersion v;
  major ← MajorFromADCPVersion normalized;
  Some (MkEnvelope normalized major).

(** ** Order *)

Definition compareInt (a b : Z) : Z :=
  if (a <? b)%Z then -1 else if (b <? a)%Z then 1 else 0.

Fixpoint comparePrereleaseParts (aParts bParts : list string) : Z :=
  match aParts, bParts with
  | a :: aParts', b :: bParts' =>
      if bool_decide (a = b) then comparePrereleaseParts aParts' bParts' else
      match parseNonNegativeInt a, parseNonNegativeInt b with
      | Some aNum, Some bNum =>
          let c := compareInt aNum bNum in
          if (c =? 0)%Z then comparePrereleaseParts aParts' bParts' else c
      | Some _, None => -1
      | None, Some _ => 1
      | None, None => if String.ltb a b then -1 else 1
      end
  | _, _ => compareInt (Z.of_nat (length aParts)) (Z.of_nat (length bParts))
  end.

(** The loop ends at the shorter list and then compares the lengths; counting
    the lengths of the two remainders gives the same answer. *)
Definition comparePrerelease (a b : string) : Z :=
  comparePrereleaseParts (Split a ".") (Split b ".").

Definition compareADCPRelease (a b : adcpRelease) : Z :=
  if negb (major a =? major b)%Z then compareInt (major a) (major b) else
  if negb (minor a =? minor b)%Z then compareInt (minor a) (minor b) else
  match bool_decide (prerelease a = ""), bool_decide (prerelease b = "") with
  | true, false => 1
  | false, true => -1
  | true, true => 0
  | false, false => comparePrerelease (prerelease a) (prerelease b)
  end.

(** ** Selection *)

Fixpoint parseSupported (versions : list string) (seen : gset string) : list adcpRelease :=
  match versions with
  | [] => []
  | v :: vs =>
      match parseADCPRelease v with
      | Some r =>
          if bool_decide (version r ∈ seen) then parseSupported vs seen
          else r :: parseSupported vs ({[version r]} ∪ seen)
      | None => parseSupported vs seen
      end
  end.

Definition parseSupportedADCPReleases (versions : list string) : list adcpRelease :=
  parseSupported versions ∅.

(** The Go loops keep [(best, found)]; [None] is [found = false]. *)
Fixpoint bestOf (ok : adcpRelease → bool) (best : option adcpRelease)
    (supported : list adcpRelease) : option adcpRelease :=
  match supported with
  | [] => best
  | r :: rs =>
      if negb (ok r) then bestOf ok best rs else
      match best with
      | None => bestOf ok (Some r) rs
      | Some b => bestOf ok (if (0 <? compareADCPRelease r b)%Z then Some r else best) rs
      end
  end.

Definition in_scope (maj : Z) (r : adcpRelease) : bool :=
  ((maj =? 0) || (major r =? maj))%Z.

Definition stable_candidate (maj : Z) (max : option adcpRelease) (r : adcpRelease) : bool :=
  in_scope maj r && bool_decide (prerelease r = "") &&
  match max with Some m => (compareADCPRelease r m <=? 0)%Z | None => true end.

Definition highestSupportedADCPRelease (supported : list adcpRelease) (maj : Z)
    (max : option adcpRelease) (allowPrereleaseFallback : bool) : option string :=
  let best := bestOf (stable_candidate maj max) None supported in
  let best :=
    match best with
    | None => if allowPrereleaseFallback then bestOf (in_scope maj) None supported else None
    | Some _ => best
    end in
  version <$> best.

Fixpoint findSupportedADCPRelease (supported : list adcpRelease) (maj min : Z) (pre : string) :
    option adcpRelease :=
  match supported with
  | [] => None
  | r :: rs =>
      if ((major r =? maj) && (minor r =? min))%Z && bool_decide (prerelease r = pre)
      then Some r else findSupportedADCPRelease rs maj min pre
  end.

Record adcpVersionRequest := MkRequest {
  req_version : string;
  req_major : Z;
  majorProvided : bool;
}.

Definition supportedReleases (supported : list string) : list adcpRelease :=
  match parseSupportedADCPReleases supported with
  | [] => parseSupportedADCPReleases SupportedADCPVersions
  | rs => rs
  end.

Definition negotiateADCPVersion (request : adcpVersionRequest) (supported : list string) :
    option string :=
  let releases := supportedReleases supported in
  if negb (bool_decide (TrimSpace (req_version request) = "")) then
    requested ← parseADCPRelease (req_version request);
    match findSupportedADCPRelease releases (major requested) (minor requested)
            (prerelease requested) with
    | Some exact => Some (version exact)
    | None =>
        if negb (bool_decide (prerelease requested = "")) then None
        else highestSupportedADCPRelease releases (major requested) (Some requested) false
    end
  else if majorProvided request then
    if (req_major request <? 1)%Z then None
    else highestSupportedADCPRelease releases (req_major request) None true
  else highestSupportedADCPRelease releases 0 None true.

Definition NegotiateADCPVersion (requestedVersion : string) (requestedMajor : Z)
    (supported : list string) : option string :=
  negotiateADCPVersion
    (MkRequest requestedVersion requestedMajor (negb (requestedMajor =? 0)%Z)) supported.

Example negotiate_exact_rc : NegotiateADCPVersion "3.2.0-rc.1" 0 [] = Some "3.2-rc.1".
Proof. vm_compute. reflexivity. Qed.
Example negotiate_rc_absent : NegotiateADCPVersion "3.2-rc.2" 0 [] = None.
Proof. vm_compute. reflexivity. Qed.
Example negotiate_downshift : NegotiateADCPVersion "3.9" 0 [] = Some "3.2".
Proof. vm_compute. reflexivity. Qed.

(** ** The order on releases *)

(** A three-way comparison function that is a total preorder. *)
Record TotalPreorderCmp {A} (cmp : A → A → Z) : Prop := {
  cmp_sign : ∀ a b, cmp a b = (-1)%Z ∨ cmp a b = 0%Z ∨ cmp a b = 1%Z;
  cmp_antisym : ∀ a b, cmp b a = (- cmp a b)%Z;
  cmp_trans : ∀ a b c, (cmp a b ≤ 0 → cmp b c ≤ 0 → cmp a c ≤ 0)%Z;
}.

(** Comparison by [c1], ties broken by [c2]. *)
Definition then_cmp {A} (c1 c2 : A → A → Z) (a b : A) : Z :=
  if (c1 a b =? 0)%Z then c2 a b else c1 a b.

Section cmp.
Context {A : Type}.
Implicit Types cmp : A → A → Z.

Lemma cmp_refl cmp a : TotalPreorderCmp cmp → cmp a a = 0%Z.
Proof. intros H. pose proof (cmp_antisym _ H a a). lia. Qed.

(** Tied elements compare alike with everything else. *)
Lemma cmp_eq_l cmp a b c : TotalPreorderCmp cmp → cmp a b = 0%Z → cmp a c = cmp b c.
Proof.
  intros H Hab.
  pose proof (cmp_trans _ H a b c). pose proof (cmp_trans _ H b a c).
  pose proof (cmp_trans _ H c a b). pose proof (cmp_trans _ H c b a).
  pose proof (cmp_antisym _ H a b). pose proof (cmp_antisym _ H a c).
  pose proof (cmp_antisym _ H b c).
  pose proof (cmp_sign _ H a c). pose proof (cmp_sign _ H b c). lia.
Qed.

Lemma cmp_eq_r cmp a b c : TotalPreorderCmp cmp → cmp a b = 0%Z → cmp c a = cmp c b.
Proof.
  intros H Hab. rewrite (cmp_antisym _ H a c), (cmp_antisym _ H b c).
  by rewrite (cmp_eq_l cmp a b c).
Qed.

Lemma then_cmp_total (c1 c2 : A → A → Z) :
  TotalPreorderCmp c1 → TotalPreorderCmp c2 → TotalPreorderCmp (then_cmp c1 c2).
Proof.
  intros H1 H2. unfold then_cmp. split.
  - intros a b. destruct (_ =? _)%Z; [apply H2|apply H1].
  - intros a b. rewrite (cmp_antisym _ H1 a b), (cmp_antisym _ H2 a b).
    destruct (Z.eqb_spec (c1 a b) 0), (Z.eqb_spec (- c1 a b) 0); lia.
  - intros a b c. destruct (Z.eqb_spec (c1 a b) 0) as [E1|N1].
    + rewrite (cmp_eq_l c1 a b c) by done.
      destruct (Z.eqb_spec (c1 b c) 0); [apply (cmp_trans _ H2)|done].
    + destruct (Z.eqb_spec (c1 b c) 0) as [E2|N2].
      * rewrite <- (cmp_eq_r c1 b c a) by done.
        destruct (Z.eqb_spec (c1 a b) 0); done.
      * pose proof (cmp_trans _ H1 a b c). intros.
        destruct (Z.eqb_spec (c1 a c) 0) as [E3|]; [|lia].
        rewrite (cmp_eq_l c1 a c b) in * by done.
        pose proof (cmp_antisym _ H1 b c). lia.
Qed.

Lemma cmp_on {B} cmp (f : B → A) :
  TotalPreorderCmp cmp → TotalPreorderCmp (λ x y, cmp (f x) (f y)).
Proof.
  intros [Hs Ha Ht]. split; [intros; apply Hs|intros; apply Ha|intros x y z; apply Ht].
Qed.
End cmp.

Lemma compareInt_total : TotalPreorderCmp compareInt.
Proof.
  unfold compareInt. split; intros *;
    repeat match goal with |- context [(?x <? ?y)%Z] => destruct (Z.ltb_spec x y) end; lia.
Qed.

(** Lexicographic comparison of lists of parts, the shorter list first. *)
Fixpoint lexCmp {A} (cmp : A → A → Z) (l k : list A) : Z :=
  match l, k with
  | a :: l', b :: k' => if (cmp a b =? 0)%Z then lexCmp cmp l' k' else cmp a b
  | [], [] => 0
  | [], _ => -1
  | _, [] => 1
  end.

Lemma lexCmp_total {A} (cmp : A → A → Z) :
  TotalPreorderCmp cmp → TotalPreorderCmp (lexCmp cmp).
Proof.
  intros H. split.
  - induction a as [|x l IH]; intros [|y k]; cbn; auto.
    destruct (_ =? _)%Z; [apply IH|apply H].
  - induction a as [|x l IH]; intros [|y k]; cbn; auto.
    rewrite (cmp_antisym _ H x y). rewrite (IH k).
    destruct (Z.eqb_spec (cmp x y) 0), (Z.eqb_spec (- cmp x y) 0); lia.
  - induction a as [|x l IH]; intros [|y k] [|z m]; cbn; try done.
    destruct (Z.eqb_spec (cmp x y) 0) as [E1|N1].
    + rewrite (cmp_eq_l cmp x y z) by done.
      destruct (Z.eqb_spec (cmp y z) 0); [apply IH|done].
    + destruct (Z.eqb_spec (cmp y z) 0) as [E2|N2].
      * rewrite <- (cmp_eq_r cmp y z x) by done. destruct (Z.eqb_spec (cmp x y) 0); done.
      * pose proof (cmp_trans _ H x y z). intros.
        destruct (Z.eqb_spec (cmp x z) 0) as [E3|]; [|lia].
        rewrite (cmp_eq_l cmp x z y) in * by done.
        pose proof (cmp_antisym _ H y z). lia.
Qed.

(** The comparison of two dot-separated identifiers of a prerelease: numeric
    identifiers by value, before alphanumeric ones, which compare bytewise. *)
Definition str_cmp (a b : string) : Z :=
  if bool_decide (a = b) then 0 else if String.ltb a b then -1 else 1.

Definition part_class (s : string) : Z :=
  match parseNonNegativeInt s with Some _ => 0 | None => 1 end.
Definition part_num (s : string) : Z := default 0%Z (parseNonNegativeInt s).
Definition part_alpha (s : string) : string :=
  match parseNonNegativeInt s with Some _ => "" | None => s end.

Definition part_cmp : string → string → Z :=
  then_cmp (λ a b, compareInt (part_class a) (part_class b))
    (then_cmp (λ a b, compareInt (part_num a) (part_num b))
       (λ a b, str_cmp (part_alpha a) (part_alpha b))).

Lemma str_cmp_le a b : (str_cmp a b ≤ 0)%Z ↔ String.le a b.
Proof.
  unfold str_cmp, String.le, String.ltb, String.leb.
  case_bool_decide as H; [subst|].
  - destruct (String.compare b b) eqn:E; [done|done|].
    pose proof (String.compare_antisym b b). rewrite E in *. done.
  - destruct (String.compare a b) eqn:E; cbn.
    + by apply String.compare_eq_iff in E.
    + split; [done|lia].
    + split; [lia|intros []].
Qed.

Lemma str_cmp_total : TotalPreorderCmp str_cmp.
Proof.
  split.
  - intros a b. unfold str_cmp. case_bool_decide; [auto|]. destruct (String.ltb a b); auto.
  - intros a b. unfold str_cmp. rewrite (bool_decide_ext (b = a) (a = b)) by done.
    case_bool_decide; [done|]. unfold String.ltb. rewrite (String.compare_antisym b a).
    destruct (String.compare a b) eqn:E; cbn; [|done|done].
    by apply String.compare_eq_iff in E.
  - intros a b c. rewrite !str_cmp_le. intros. by transitivity b.
Qed.

Lemma part_cmp_total : TotalPreorderCmp part_cmp.
Proof.
  apply then_cmp_total; [|apply then_cmp_total].
  - apply cmp_on, compareInt_total.
  - apply cmp_on, compareInt_total.
  - apply cmp_on, str_cmp_total.
Qed.

Lemma comparePrereleaseParts_lex l k :
  comparePrereleaseParts l k = lexCmp part_cmp l k.
Proof.
  revert k. induction l as [|a l IH]; intros [|b k]; cbn [comparePrereleaseParts lexCmp].
  - done.
  - unfold compareInt. cbn [length]. destruct (Z.ltb_spec (Z.of_nat 0) (Z.of_nat (S (length k)))); lia.
  - unfold compareInt. cbn [length].
    destruct (Z.ltb_spec (Z.of_nat (S (length l))) (Z.of_nat 0)); [lia|].
    destruct (Z.ltb_spec (Z.of_nat 0) (Z.of_nat (S (length l)))); lia.
  - case_bool_decide as Hab.
    + subst b. by rewrite (cmp_refl part_cmp a part_cmp_total).
    + rewrite IH. generalize (lexCmp part_cmp l k). intros rest.
      unfold part_cmp, then_cmp, part_class, part_num, part_alpha, str_cmp.
      destruct (parseNonNegativeInt a) as [n|], (parseNonNegativeInt b) as [m|]; cbn; try done.
      * by destruct (compareInt n m =? 0)%Z eqn:E; rewrite ?E.
      * rewrite bool_decide_eq_false_2 by done. by destruct (String.ltb a b).
Qed.

(** Releases compare by major, then minor; a stable release comes after its
    prereleases, which compare among themselves. *)
Definition stability (r : adcpRelease) : Z := if bool_decide (prerelease r = "") then 1 else 0.
Definition pre_parts (r : adcpRelease) : list string :=
  if bool_decide (prerelease r = "") then [] else Split (prerelease r) ".".

Lemma compareADCPRelease_then a b :
  compareADCPRelease a b =
  then_cmp (λ a b, compareInt (major a) (major b))
   (then_cmp (λ a b, compareInt (minor a) (minor b))
    (then_cmp (λ a b, compareInt (stability a) (stability b))
      (λ a b, lexCmp part_cmp (pre_parts a) (pre_parts b)))) a b.
Proof.
  assert (∀ x y, (compareInt x y =? 0)%Z = (x =? y)%Z) as Hc.
  { intros x y. unfold compareInt.
    destruct (Z.ltb_spec x y), (Z.ltb_spec y x), (Z.eqb_spec x y); lia || done. }
  unfold compareADCPRelease, then_cmp. rewrite !Hc.
  destruct (major a =? major b)%Z; [cbn|done].
  destruct (minor a =? minor b)%Z; [cbn|done].
  unfold stability, pre_parts, comparePrerelease.
  do 2 case_bool_decide; cbn; try done. apply comparePrereleaseParts_lex.
Qed.

Lemma compareADCPRelease_preorder : TotalPreorderCmp compareADCPRelease.
Proof.
  pose proof (then_cmp_total _ _ (cmp_on _ major compareInt_total)
    (then_cmp_total _ _ (cmp_on _ minor compareInt_total)
      (then_cmp_total _ _ (cmp_on _ stability compareInt_total)
        (cmp_on _ pre_parts (lexCmp_total _ part_cmp_total))))) as [Hs Ha Ht].
  split; intros *; rewrite !compareADCPRelease_then; [apply Hs|apply Ha|apply Ht].
Qed.

(** ** Selection lemmas *)

Lemma bestOf_Some ok l best r :
  bestOf ok best l = Some r →
  ((r ∈ l ∧ ok r = true) ∨ best = Some r) ∧
  (∀ x, x ∈ l → ok x = true → compareADCPRelease x r ≤ 0)%Z ∧
  (∀ b, best = Some b → compareADCPRelease b r ≤ 0)%Z.
Proof.
  pose proof compareADCPRelease_preorder as Hcmp.
  revert best. induction l as [|x l IH]; intros best; cbn [bestOf].
  - intros ->. split_and!; [by right|by intros ? ?%not_elem_of_nil|].
    intros b [= ->]. by rewrite (cmp_refl _ b Hcmp).
  - destruct (ok x) eqn:Hx; cbn [negb].
    + set (b0 := match best with
                 | Some b => if (0 <? compareADCPRelease x b)%Z then x else b
                 | None => x end).
      intros H. assert (bestOf ok (Some b0) l = Some r) as H'.
      { subst b0. destruct best as [b|]; [|done]. by destruct (_ <? _)%Z. }
      apply IH in H' as (Hin & Hall & Hb). specialize (Hb b0 eq_refl).
      assert ((compareADCPRelease x b0 ≤ 0)%Z ∧
              ∀ b, best = Some b → (compareADCPRelease b b0 ≤ 0)%Z) as [Hxb Hbb].
      { pose proof (cmp_refl _ x Hcmp). subst b0.
        destruct best as [b|]; [|by split; [lia|]].
        pose proof (cmp_refl _ b Hcmp). pose proof (cmp_antisym _ Hcmp x b).
        destruct (Z.ltb_spec 0 (compareADCPRelease x b));
          (split; [lia|]); intros b' [= <-]; lia. }
      split_and!.
      * destruct Hin as [[? ?]|[= <-]]; [left; split; [by constructor|done]|].
        subst b0. destruct best as [b|]; [|left; split; [by constructor|done]].
        destruct (_ <? _)%Z; [left; split; [by constructor|done]|by right].
      * intros y [->|Hy]%elem_of_cons ?; [|by apply Hall].
        by apply (cmp_trans _ Hcmp _ b0).
      * intros b Hbest. apply (cmp_trans _ Hcmp _ b0); auto.
    + intros H. apply IH in H as (Hin & Hall & Hb). split_and!; [| |done].
      * destruct Hin as [[? ?]|]; [left; split; [by constructor|done]|by right].
      * intros y [->|Hy]%elem_of_cons ?; [congruence|by auto].
Qed.

Lemma bestOf_None ok l best :
  bestOf ok best l = None ↔ best = None ∧ ∀ x, x ∈ l → ok x = false.
Proof.
  revert best. induction l as [|x l IH]; intros best; cbn [bestOf].
  - split; [|by intros [? _]]. intros ->. split; [done|]. by intros ? ?%not_elem_of_nil.
  - destruct (ok x) eqn:Hx; cbn [negb].
    + assert (∀ o, bestOf ok o l = None → o = None) as Haux by (intros o [? _]%IH; done).
      split.
      * destruct best as [b|]; intros H%Haux; [by destruct (_ <? _)%Z|done].
      * intros [_ H]. specialize (H x (list_elem_of_here x l)). congruence.
    + rewrite IH. apply and_iff_compat_l. split.
      * intros H y [->|Hy]%elem_of_cons; auto.
      * intros H y Hy. apply H. by constructor.
Qed.

Lemma find_Some l maj min pre r :
  findSupportedADCPRelease l maj min pre = Some r →
  r ∈ l ∧ major r = maj ∧ minor r = min ∧ prerelease r = pre.
Proof.
  induction l as [|x l IH]; cbn; [done|].
  destruct (_ && _) eqn:E.
  - intros [= <-]. bool_prop. bool_prop. split_and!; [by constructor|done..].
  - intros (? & ? & ?)%IH. split; [by constructor|done].
Qed.

Lemma find_None l maj min pre :
  findSupportedADCPRelease l maj min pre = None ↔
  ∀ r, r ∈ l → ¬ (major r = maj ∧ minor r = min ∧ prerelease r = pre).
Proof.
  induction l as [|x l IH]; cbn.
  - split; [|done]. by intros _ ? ?%not_elem_of_nil.
  - destruct (_ && _) eqn:E.
    + split; [done|]. bool_prop. bool_prop. intros Hall.
      by destruct (Hall x (list_elem_of_here x l)).
    + rewrite IH. split.
      * intros H r [->|Hr]%elem_of_cons; [|by apply H].
        intros (<- & <- & <-). rewrite !Z.eqb_refl, bool_decide_eq_true_2 in E; done.
      * intros H r Hr. apply H. by constructor.
Qed.

Lemma parseSupported_elem vs seen r :
  r ∈ parseSupported vs seen → ∃ s, s ∈ vs ∧ parseADCPRelease s = Some r.
Proof.
  assert (∀ v vs, (∃ s, s ∈ vs ∧ parseADCPRelease s = Some r) →
                  ∃ s, s ∈ v :: vs ∧ parseADCPRelease s = Some r) as Hweak.
  { intros v l (s & ? & ?). exists s. split; [by constructor|done]. }
  revert seen. induction vs as [|v vs IH]; intros seen; cbn; [by intros ?%not_elem_of_nil|].
  destruct (parseADCPRelease v) as [r'|] eqn:E; [|by eauto].
  case_bool_decide; [by eauto|].
  intros [->|?]%elem_of_cons; [|by eauto]. exists v. split; [by constructor|done].
Qed.

Lemma parseNonNegativeInt_Some s n :
  parseNonNegativeInt s = Some n → (0 ≤ n)%Z ∧ in_int64 n.
Proof.
  unfold parseNonNegativeInt. case_bool_decide; [done|].
  destruct (ParseInt s) as [m|] eqn:E; cbn; [|done].
  destruct (Z.ltb_spec m 0); [done|]. intros [= <-].
  split; [done|by eapply ParseInt_range].
Qed.

(** What a parsed release satisfies. *)
Record release_wf (r : adcpRelease) : Prop := {
  wf_major : (0 ≤ major r)%Z ∧ in_int64 (major r);
  wf_minor : (0 ≤ minor r)%Z ∧ in_int64 (minor r);
  wf_pre : prerelease r = "" ∨ validPrerelease (prerelease r) = true;
  wf_version : version r =
    Itoa (major r) +:+ "." +:+ Itoa (minor r) +:+
      (if bool_decide (prerelease r = "") then "" else "-" +:+ prerelease r);
}.

Lemma parseADCPRelease_wf s r : parseADCPRelease s = Some r → release_wf r.
Proof.
  unfold parseADCPRelease. case_bool_decide; [done|].
  destruct (Cut _ _) as [[core pre] f]. destruct (Split core _) as [|p0 [|p1 rest]]; try done.
  destruct (Nat.ltb 1 _); [done|].
  destruct (parseNonNegativeInt p0) as [maj|] eqn:Emaj; cbn; [|done].
  destruct (parseNonNegativeInt p1) as [min|] eqn:Emin; cbn; [|done].
  destruct (match rest with [] => _ | _ => _ end) as [p|]; cbn; [|done].
  destruct (_ && _) eqn:Epre; [done|]. intros [= <-]. split; cbn.
  - by eapply parseNonNegativeInt_Some.
  - by eapply parseNonNegativeInt_Some.
  - bool_prop. destruct Epre; bool_prop; auto.
  - case_bool_decide; autorewrite with gostr; done.
Qed.

Lemma supported_wf supported r : r ∈ supportedReleases supported → release_wf r.
Proof.
  unfold supportedReleases, parseSupportedADCPReleases.
  destruct (parseSupported supported ∅) eqn:E; intros Hr;
    [|rewrite <- E in Hr]; apply parseSupported_elem in Hr as (s & _ & Hs);
    by eapply parseADCPRelease_wf.
Qed.

(** ** Normalisation is stable *)

Lemma Itoa_digits z : (0 ≤ z)%Z → Itoa z = Utoa z.
Proof. intros. unfold Itoa. by destruct (Z.ltb_spec z 0); [lia|]. Qed.

Definition version_char (c : ascii) : bool := prerelease_char c || beq c ".".

Lemma version_char_graph c : version_char c = true → is_graph c = true.
Proof.
  unfold version_char, prerelease_char, is_digit, is_graph, between.
  destruct (beq c "-") eqn:E1; [apply beq_eq in E1 as ->; done|].
  destruct (beq c ".") eqn:E2; [apply beq_eq in E2 as ->; done|]. lia.
Qed.

Lemma validPrerelease_chars s : validPrerelease s = true → all_bytes version_char s = true.
Proof.
  intros H. apply (Split_all_bytes _ s "."); [|done].
  apply forallb_forall_Forall in H. eapply Forall_impl; [exact H|].
  intros part Hp. cbn in Hp. bool_prop. eapply all_bytes_impl; [|done].
  intros c Hc. unfold version_char. by rewrite Hc.
Qed.

Lemma version_chars r : release_wf r → all_bytes version_char (version r) = true.
Proof.
  intros [[? ?] [? ?] Hpre ->]. rewrite !Itoa_digits by done.
  assert (∀ z, (0 ≤ z)%Z → all_bytes version_char (Utoa z) = true) as Hz.
  { intros z Hz. eapply all_bytes_impl, Utoa_digits; [|done].
    intros c Hc. unfold version_char, prerelease_char. by rewrite Hc. }
  rewrite !all_bytes_app, !Hz by done. cbn. case_bool_decide as Hp; [done|].
  destruct Hpre as [|Hpre]; [done|]. rewrite all_bytes_app. by apply validPrerelease_chars.
Qed.

Lemma parseNonNegativeInt_Itoa n :
  (0 ≤ n)%Z → in_int64 n → parseNonNegativeInt (Itoa n) = Some n.
Proof.
  intros Hn Hr. unfold parseNonNegativeInt.
  rewrite bool_decide_eq_false_2.
  - rewrite ParseInt_Itoa by done. cbn. by destruct (Z.ltb_spec n 0); [lia|].
  - rewrite Itoa_digits by done. by apply udigits_nonempty.
Qed.

(** The core ["major.minor"] of a version is cut and split where it was joined. *)
Lemma Cut_core maj min :
  (0 ≤ maj)%Z → (0 ≤ min)%Z →
  let core := Itoa maj +:+ "." +:+ Itoa min in
  contains_byte core "-" = false ∧ Split core "." = [Itoa maj; Itoa min].
Proof.
  intros Hmaj Hmin core. subst core. rewrite !Itoa_digits by done.
  rewrite !contains_byte_app, !Utoa_no_byte by done. split; [done|].
  change (Utoa maj +:+ "." +:+ Utoa min) with (Utoa maj +:+ String "." (Utoa min)).
  rewrite Split_app, Split_single; [done|by apply Utoa_no_byte..].
Qed.

Lemma parse_version r : release_wf r → parseADCPRelease (version r) = Some r.
Proof.
  intros Hwf. pose proof (version_chars r Hwf) as Hchars.
  assert (all_bytes is_graph (version r) = true) as Hgraph
    by (eapply all_bytes_impl; [exact version_char_graph|done]).
  assert (contains_byte (version r) "+" = false) as Hplus
    by (by eapply all_bytes_no; [|exact Hchars]).
  destruct Hwf as [[Hmaj ?] [Hmin ?] Hpre Hv].
  unfold parseADCPRelease. rewrite TrimSpace_graph by done.
  rewrite bool_decide_eq_false_2.
  2:{ rewrite Hv, Itoa_digits by done. intros Hnil%(f_equal len). 
      rewrite !len_app in Hnil. unfold len in Hnil. cbn in Hnil. lia. }
  apply IndexByte_None in Hplus. rewrite Hplus.
  destruct (Cut_core (major r) (minor r)) as [Hcore Hsplit]; [done..|].
  assert (Cut (version r) "-" = (Itoa (major r) +:+ "." +:+ Itoa (minor r), prerelease r,
            negb (bool_decide (prerelease r = "")))) as ->.
  { rewrite Hv. case_bool_decide as Hp; cbn.
    - rewrite sapp_nil_r. unfold Cut. apply IndexByte_None in Hcore.
      by rewrite Hcore, Hp.
    - rewrite <- (Cut_app (Itoa (major r) +:+ "." +:+ Itoa (minor r)) (prerelease r) "-" Hcore).
      by rewrite !sapp_assoc. }
  rewrite Hsplit. cbn -[Itoa]. rewrite !parseNonNegativeInt_Itoa by done. cbn -[Itoa].
  destruct r as [maj min pre v]; cbn -[Itoa] in *. subst v.
  case_bool_decide as Hp; cbn -[Itoa].
  - subst pre. by rewrite sapp_nil_r.
  - destruct Hpre as [|Hpre]; [done|]. rewrite Hpre. cbn -[Itoa].
    by rewrite !sapp_assoc.
Qed.

(** ** Properties *)

(** The releases a pin may be resolved to by a downshift. *)
Definition downshift_target (releases : list adcpRelease) (pin r : adcpRelease) : Prop :=
  r ∈ releases ∧ prerelease r = "" ∧ major r = major pin ∧
  (compareADCPRelease r pin ≤ 0)%Z.

Definition exact_match (releases : list adcpRelease) (pin r : adcpRelease) : Prop :=
  r ∈ releases ∧ major r = major pin ∧ minor r = minor pin ∧ prerelease r = prerelease pin.

Lemma compareADCPRelease_major a b :
  (compareADCPRelease a b ≤ 0)%Z → (major a ≤ major b)%Z.
Proof.
  unfold compareADCPRelease, compareInt.
  destruct (Z.eqb_spec (major a) (major b)); cbn; [lia|].
  destruct (Z.ltb_spec (major a) (major b)); [lia|].
  destruct (Z.ltb_spec (major b) (major a)); lia.
Qed.

Lemma stable_candidate_iff supported pin r :
  release_wf pin → r ∈ supportedReleases supported →
  stable_candidate (major pin) (Some pin) r = true ↔
  downshift_target (supportedReleases supported) pin r.
Proof.
  intros [[? _] _ _ _] Hr. pose proof (supported_wf _ _ Hr) as [[? _] _ _ _].
  unfold stable_candidate, in_scope, downshift_target.
  rewrite !andb_true_iff, orb_true_iff, bool_decide_eq_true, !Z.eqb_eq, Z.leb_le.
  split; [|naive_solver].
  intros [[[Hz|?] ?] Hc]; [|naive_solver]. pose proof (compareADCPRelease_major _ _ Hc).
  split_and!; [done..|lia|done].
Qed.

(** a request that pins a version is answered, when it is, with a supported
    release: the exact release of the pin whenever it is supported, and
    otherwise only for a stable pin: the highest supported stable release of
    the pin's major at or below it.  A pin is never resolved to a prerelease it
    does not name. *)
Theorem negotiate_pin_sound request supported v :
  TrimSpace (req_version request) ≠ "" →
  negotiateADCPVersion request supported = Some v →
  ∃ pin r, parseADCPRelease (req_version request) = Some pin ∧ version r = v ∧
    (exact_match (supportedReleases supported) pin r ∨
     (prerelease pin = "" ∧
      (∀ x, ¬ exact_match (supportedReleases supported) pin x) ∧
      downshift_target (supportedReleases supported) pin r ∧
      ∀ x, downshift_target (supportedReleases supported) pin x →
        (compareADCPRelease x r ≤ 0)%Z)).
Proof.
  intros Hv. unfold negotiateADCPVersion.
  rewrite (bool_decide_eq_false_2 _ Hv). cbn [negb].
  destruct (parseADCPRelease (req_version request)) as [pin|] eqn:Epin; cbn [mbind option_bind];
    [|done].
  pose proof (parseADCPRelease_wf _ _ Epin) as Hpin.
  destruct (findSupportedADCPRelease _ _ _ _) as [r|] eqn:Ef.
  - intros [= <-]. apply find_Some in Ef. exists pin, r. unfold exact_match. naive_solver.
  - case_bool_decide as Hp; cbn [negb]; [|done]. unfold highestSupportedADCPRelease.
    destruct (bestOf _ None _) as [r|] eqn:Eb; [|done]. intros [= <-].
    apply bestOf_Some in Eb as ([[Hr Hok]|] & Hmax & _); [|done].
    exists pin, r. split_and!; [done..|right]. split_and!; [done| | |].
    + intros x (Hx & Heq). by apply (proj1 (find_None _ _ _ _) Ef x Hx).
    + by apply (stable_candidate_iff supported pin r).
    + intros x Hx. apply Hmax; [apply Hx|].
      by apply (stable_candidate_iff supported pin x Hpin (proj1 Hx)).
Qed.

Definition pin_3_9 : adcpVersionRequest := MkRequest "3.9" 0 false.

Lemma negotiate_pin_sound_witness :
  TrimSpace (req_version pin_3_9) ≠ "" ∧ negotiateADCPVersion pin_3_9 [] = Some "3.2" ∧
  ∃ pin r, parseADCPRelease "3.9" = Some pin ∧ version r = "3.2" ∧
    (exact_match (supportedReleases []) pin r ∨
     (prerelease pin = "" ∧
      (∀ x, ¬ exact_match (supportedReleases []) pin x) ∧
      downshift_target (supportedReleases []) pin r ∧
      ∀ x, downshift_target (supportedReleases []) pin x →
        (compareADCPRelease x r ≤ 0)%Z)).
Proof.
  assert (TrimSpace (req_version pin_3_9) ≠ "") as H1 by (vm_compute; discriminate).
  assert (negotiateADCPVersion pin_3_9 [] = Some "3.2") as H2 by (vm_compute; reflexivity).
  split; [exact H1|]. split; [exact H2|]. exact (negotiate_pin_sound pin_3_9 [] "3.2" H1 H2).
Defined.

(** a pinned request is refused exactly when the pin does not parse, or no
    supported release equals it and it is a prerelease or no stable release of
    its major is at or below it. *)
Theorem negotiate_pin_refused request supported :
  TrimSpace (req_version request) ≠ "" →
  negotiateADCPVersion request supported = None ↔
  match parseADCPRelease (req_version request) with
  | None => True
  | Some pin =>
      (∀ x, ¬ exact_match (supportedReleases supported) pin x) ∧
      (prerelease pin ≠ "" ∨
       ∀ x, ¬ downshift_target (supportedReleases supported) pin x)
  end.
Proof.
  intros Hv. unfold negotiateADCPVersion.
  rewrite (bool_decide_eq_false_2 _ Hv). cbn [negb].
  destruct (parseADCPRelease (req_version request)) as [pin|] eqn:Epin; cbn [mbind option_bind];
    [|done].
  pose proof (parseADCPRelease_wf _ _ Epin) as Hpin.
  destruct (findSupportedADCPRelease _ _ _ _) as [r|] eqn:Ef.
  - split; [done|]. intros [Hno _]. apply find_Some in Ef. by destruct (Hno r).
  - assert (∀ x, ¬ exact_match (supportedReleases supported) pin x) as Hno.
    { intros x (Hx & Heq). by apply (proj1 (find_None _ _ _ _) Ef x Hx). }
    case_bool_decide as Hp; cbn [negb]; [|by split; [auto|]].
    unfold highestSupportedADCPRelease.
    destruct (bestOf _ None _) as [r|] eqn:Eb; cbn.
    + apply bestOf_Some in Eb as ([[Hr Hok]|] & _ & _); [|done].
      split; [done|]. intros [_ [|Hd]]; [done|]. destruct (Hd r).
      by apply (stable_candidate_iff supported pin r).
    + apply bestOf_None in Eb as [_ Hall]. split; [|done]. intros _. split; [done|right].
      intros x Hx. assert (x ∈ supportedReleases supported) as Hin by apply Hx.
      apply (stable_candidate_iff _ _ _ Hpin Hin) in Hx. specialize (Hall x Hin). congruence.
Qed.

Lemma negotiate_pin_refused_witness :
  negotiateADCPVersion (MkRequest "3.2-rc.2" 0 false) [] = None ∧
  match parseADCPRelease "3.2-rc.2" with
  | None => True
  | Some pin =>
      (∀ x, ¬ exact_match (supportedReleases []) pin x) ∧
      (prerelease pin ≠ "" ∨ ∀ x, ¬ downshift_target (supportedReleases []) pin x)
  end.
Proof.
  assert (negotiateADCPVersion (MkRequest "3.2-rc.2" 0 false) [] = None) as H
    by (vm_compute; reflexivity).
  split; [exact H|].
  assert (TrimSpace "3.2-rc.2" ≠ "") as Hne by (vm_compute; discriminate).
  exact (proj1 (negotiate_pin_refused (MkRequest "3.2-rc.2" 0 false) [] Hne) H).
Defined.

(** a request without a version gets a supported release in the scope of
    its major: a stable one whenever there is a stable one in scope, no release
    in scope (of that kind) being higher. *)
Theorem negotiate_default_best request supported v :
  TrimSpace (req_version request) = "" →
  negotiateADCPVersion request supported = Some v →
  let scope := if majorProvided request then req_major request else 0%Z in
  ∃ r, r ∈ supportedReleases supported ∧ version r = v ∧ in_scope scope r = true ∧
    ∀ x, x ∈ supportedReleases supported → in_scope scope x = true →
      (prerelease x = "" → prerelease r = "") ∧
      ((prerelease x = "" ∨ prerelease r ≠ "") → compareADCPRelease x r ≤ 0)%Z.
Proof.
  intros Hv H scope.
  assert (highestSupportedADCPRelease (supportedReleases supported) scope None true = Some v)
    as Hbest.
  { revert H. unfold negotiateADCPVersion, scope. rewrite (bool_decide_eq_true_2 _ Hv). cbn [negb].
    destruct (majorProvided request); [|done]. by destruct (_ <? _)%Z. }
  revert Hbest. unfold highestSupportedADCPRelease.
  destruct (bestOf (stable_candidate scope None) _ _) as [r|] eqn:E1.
  - intros [= <-]. apply bestOf_Some in E1 as ([[Hr Hok]|] & Hmax & _); [|done].
    unfold stable_candidate in Hok, Hmax. bool_prop. exists r. split_and!; [done..|].
    intros x Hx Hs. split; [done|]. intros [Hp|]; [|done].
    apply Hmax; [done|]. by rewrite Hs, Hp.
  - apply bestOf_None in E1 as [_ Hno].
    destruct (bestOf (in_scope scope) _ _) as [r|] eqn:E2; [|done].
    intros [= <-]. apply bestOf_Some in E2 as ([[Hr Hok]|] & Hmax & _); [|done].
    exists r. split_and!; [done..|]. intros x Hx Hs. split; [|by auto].
    intros Hp. specialize (Hno x Hx). unfold stable_candidate in Hno.
    by rewrite Hs, Hp in Hno.
Qed.

Lemma negotiate_default_best_witness :
  negotiateADCPVersion (MkRequest "" 3 true) [] = Some "3.2" ∧
  ∃ r, r ∈ supportedReleases [] ∧ version r = "3.2" ∧ in_scope 3 r = true ∧
    ∀ x, x ∈ supportedReleases [] → in_scope 3 x = true →
      (prerelease x = "" → prerelease r = "") ∧
      ((prerelease x = "" ∨ prerelease r ≠ "") → compareADCPRelease x r ≤ 0)%Z.
Proof.
  assert (negotiateADCPVersion (MkRequest "" 3 true) [] = Some "3.2") as H
    by (vm_compute; reflexivity).
  split; [exact H|].
  exact (negotiate_default_best (MkRequest "" 3 true) [] "3.2" eq_refl H).
Defined.

(** the order on releases is a total preorder (reflexive, antisymmetric up
    to ties, transitive), so that "the highest release" is well defined. *)
Theorem compareADCPRelease_total : TotalPreorderCmp compareADCPRelease.
Proof. apply compareADCPRelease_preorder. Qed.

(** a parsed release reads back from its normalised version, so
    normalisation is idempotent and the wire version determines the release. *)
Theorem parseADCPRelease_normal s r :
  parseADCPRelease s = Some r → parseADCPRelease (version r) = Some r.
Proof. intros H. by eapply parse_version, parseADCPRelease_wf. Qed.

Lemma parseADCPRelease_normal_witness :
  parseADCPRelease " 3.01.7-rc.3+build.5" = Some (MkRelease 3 1 "rc.3" "3.1-rc.3") ∧
  parseADCPRelease "3.1-rc.3" = Some (MkRelease 3 1 "rc.3" "3.1-rc.3").
Proof.
  assert (parseADCPRelease " 3.01.7-rc.3+build.5" = Some (MkRelease 3 1 "rc.3" "3.1-rc.3")) as H
    by (vm_compute; reflexivity).
  split; [exact H|]. exact (parseADCPRelease_normal _ _ H).
Defined.
