(* ===== verification/Idempotency.v ===== *)
(** * Idempotency: keys, scopes, entries and their evaluation

    [src/adcp/v3/idempotency]: the typed errors ([errors.go]), the key rules of
    the client ([client.go]), the stored entries ([backend.go]) and the pure
    parts of the store ([store.go]): claim and retry markers, scope encoding,
    the evaluation of an existing entry, and the configuration checks of
    [New].  [IdemWrap] adds the effects of [Store.Wrap]. *)
From S2P Require Import Prelude GoStrings Json.
From stdpp Require Import options.

(** ** Errors *)

(** The error values of the package.  [Wrapped es] is an error that wraps
    several others ([fmt.Errorf] with [%w], [errors.Join]). *)
Inductive err : Type :=
  | ConflictError (Key : string)
  | ExpiredError (Key : string)
  | MissingKeyError
  | InvalidKeyError (Reason : string)
  | MissingCapabilityError (AgentID : string)
  | InFlightError (Key : string) (RetryAfter : Duration)
  | ErrRecordFailed
  | ErrReleaseFailed
  | ErrClaimLost
  | ErrOutcomeUnknown
  | ErrorText (msg : string)
  | Wrapped (es : list err).

Definition CodeIdempotencyConflict : string := "IDEMPOTENCY_CONFLICT".
Definition CodeIdempotencyExpired : string := "IDEMPOTENCY_EXPIRED".
Definition CodeIdempotencyInFlight : string := "IDEMPOTENCY_IN_FLIGHT".
Definition CodeInvalidRequest : string := "INVALID_REQUEST".

(** The [Code] and [Field] methods; [None] for the errors that have none. *)
Definition Code (e : err) : option string :=
  match e with
  | ConflictError _ => Some CodeIdempotencyConflict
  | ExpiredError _ => Some CodeIdempotencyExpired
  | MissingKeyError | InvalidKeyError _ => Some CodeInvalidRequest
  | InFlightError _ _ => Some CodeIdempotencyInFlight
  | _ => None
  end.

Definition Field (e : err) : option string :=
  match e with
  | MissingKeyError | InvalidKeyError _ => Some "idempotency_key"
  | _ => None
  end.

(** [errors.Is(e, ErrOutcomeUnknown)]: the sentinel, anywhere in the tree. *)
Fixpoint is_outcome_unknown (e : err) : bool :=
  match e with
  | ErrOutcomeUnknown => true
  | Wrapped es => existsb is_outcome_unknown es
  | _ => false
  end.

(** ** Keys *)

Definition key_char (c : ascii) : bool :=
  between 65 90 c || between 97 122 c || is_digit c ||
  beq c "_" || beq c "." || beq c ":" || beq c "-".

(** [keyPattern]: [^[A-Za-z0-9_.:\-]{16,255}$]. *)
Definition keyPattern (key : string) : bool :=
  all_bytes key_char key && (16 <=? len key)%nat && (len key <=? 255)%nat.

Definition Validate (key : string) : option err :=
  if bool_decide (key = "") then Some (InvalidKeyError "empty")
  else if negb (keyPattern key)
  then Some (InvalidKeyError "must match ^[A-Za-z0-9_.:-]{16,255}$")
  else None.

Definition LogKey (key : string) : string :=
  if (len key <=? 8)%nat then "****" else stake 8 key +:+ "…".

Definition conflict_text (override existing : string) : err :=
  ErrorText ("idempotency: WithIdempotencyKey(" +:+ LogKey override +:+
    ") conflicts with idempotency_key already set on request (" +:+ LogKey existing +:+ ")").

(** [resolveKey]; [generated] is the value [Generate] returns if it is called. *)
Definition resolveKey (existing override generated : string) : result err string :=
  if negb (bool_decide (override = "")) && negb (bool_decide (existing = ""))
     && negb (bool_decide (override = existing))
  then Err (conflict_text override existing)
  else if negb (bool_decide (override = "")) then
    match Validate override with Some e => Err e | None => Ok override end
  else if negb (bool_decide (existing = "")) then
    match Validate existing with Some e => Err e | None => Ok existing end
  else Ok generated.

Definition hex_digit (n : Z) : ascii := if (n <? 10)%Z then byte (48 + n) else byte (87 + n).

(** [hex.EncodeToString]. *)
Fixpoint hex_encode (b : list Z) : string :=
  match b with
  | [] => ""
  | x :: b' => String (hex_digit (x / 16)) (String (hex_digit (x mod 16)) (hex_encode b'))
  end.

(** [Generate] from the 16 bytes that [rand.Read] delivers. *)
Definition Generate (b : list Z) : string :=
  let b := <[6 := Z.lor (Z.land (nth 6 b 0%Z) 15) 64]> b in
  let b := <[8 := Z.lor (Z.land (nth 8 b 0%Z) 63) 128]> b in
  let h := hex_encode b in
  stake 8 h +:+ "-" +:+ stake 4 (sdrop 8 h) +:+ "-" +:+ stake 4 (sdrop 12 h) +:+ "-"
    +:+ stake 4 (sdrop 16 h) +:+ "-" +:+ stake 12 (sdrop 20 h).

Record RequestEnvelope := MkReqEnvelope { EnvKey : string; EnvBytes : string }.

Definition FreezeBytes (jsonReq keyOverride : string) : result err RequestEnvelope :=
  match unmarshal_raw_map jsonReq with
  | None => Err (ErrorText "idempotency: decode request")
  | Some probe =>
      match obj_get "idempotency_key" probe with
      | None => Err (ErrorText "idempotency: FreezeBytes requires idempotency_key in the payload; use Freeze to generate one")
      | Some raw =>
          match unmarshal_string raw with
          | None => Err (InvalidKeyError "not a string")
          | Some existing =>
              match Validate existing with
              | Some e => Err e
              | None =>
                  if negb (bool_decide (keyOverride = ""))
                     && negb (bool_decide (keyOverride = existing))
                  then Err (conflict_text keyOverride existing)
                  else Ok (MkReqEnvelope existing jsonReq)
              end
          end
      end
  end.

(** [extractKey]: the top-level [idempotency_key]; [""] when absent or [null]. *)
Definition extractKey (req : string) : result err string :=
  match unmarshal_raw_map req with
  | None => Err (ErrorText "idempotency: decode request")
  | Some m =>
      match obj_get "idempotency_key" m with
      | None => Ok ""
      | Some raw => opt_err (InvalidKeyError "not a string") (unmarshal_string raw)
      end
  end.

(** The [Error] method of each error type. *)
Fixpoint Error (e : err) : string :=
  match e with
  | ConflictError k => "idempotency: key " +:+ LogKey k +:+ " reused with a different payload"
  | ExpiredError k => "idempotency: key " +:+ LogKey k +:+ " is past its replay window"
  | MissingKeyError => "idempotency: mutating request requires idempotency_key"
  | InvalidKeyError r =>
      if bool_decide (r = "") then "idempotency: invalid idempotency_key format"
      else "idempotency: invalid idempotency_key format: " +:+ r
  | MissingCapabilityError a =>
      if bool_decide (a = "")
      then "idempotency: seller capabilities missing adcp.idempotency.replay_ttl_seconds"
      else "idempotency: seller " +:+ a +:+ " capabilities missing adcp.idempotency.replay_ttl_seconds"
  | InFlightError k _ => "idempotency: key " +:+ LogKey k +:+ " is still being processed"
  | ErrRecordFailed => "idempotency: response could not be recorded"
  | ErrReleaseFailed => "idempotency: claim could not be released"
  | ErrClaimLost => "idempotency: claim lost before it could be finalized"
  | ErrOutcomeUnknown => "idempotency: request outcome is unknown"
  | ErrorText m => m
  | Wrapped es => Join (map Error es) ": "
  end.

(** The envelope's [replayed] flag: [Some b] when the first JSON value is an
    object (whose numbers all fit a float, [float_ok]) with a boolean member. *)
Definition ReadReplayed (float_ok : string → bool) (envelope : string) : option bool :=
  match json_decode_first envelope with
  | Some (JObj m, _) =>
      if nums_ok float_ok (JObj m) then
        match obj_get "replayed" m with Some (JBool b) => Some b | _ => None end
      else None
  | _ => None
  end.

(** [InjectReplayed], on the decoded object; [None] is the panic of a write to
    a nil map, which the envelope [null] reaches. *)
Definition InjectReplayed (float_ok : string → bool) (envelope : string) (replayed : bool) :
    option (result err (list (string * json))) :=
  match json_decode envelope with
  | Some JNull => None
  | Some (JObj m) =>
      if nums_ok float_ok (JObj m)
      then Some (Ok (filter (λ kv, kv.1 ≠ "replayed") m ++ [("replayed", JBool replayed)]))
      else Some (Err (ErrorText "idempotency: decode envelope"))
  | _ => Some (Err (ErrorText "idempotency: decode envelope"))
  end.

(** ** Scopes *)

(** The request context; only the principal attached to it matters here. *)
Record Context := MkContext { ctx_principal : option string }.

Definition WithPrincipal (ctx : Context) (principalID : string) : Context :=
  MkContext (Some principalID).

Definition PrincipalFromContext (ctx : Context) : string := default "" (ctx_principal ctx).

Fixpoint encode_parts (parts : list string) : string :=
  match parts with
  | [] => ""
  | p :: ps => ":" +:+ Itoa (Z.of_nat (len p)) +:+ ":" +:+ p +:+ encode_parts ps
  end.

(** [EncodeScope]; [None] is the panic on a namespace with a colon. *)
Definition EncodeScope (namespace : string) (parts : list string) : option string :=
  if contains_byte namespace ":" then None else Some (namespace +:+ encode_parts parts).

Definition ScopeFn := Context → string → result err string.

Definition encode_scope_err (namespace : string) (parts : list string) : result err string :=
  opt_err (ErrorText "panic: idempotency: EncodeScope namespace must not contain ':'")
    (EncodeScope namespace parts).

Definition PrincipalScope : ScopeFn := λ ctx _,
  let p := PrincipalFromContext ctx in
  if bool_decide (p = "")
  then Err (ErrorText "idempotency: principal missing from context; call WithPrincipal before invoking the wrapped handler")
  else encode_scope_err "principal" [p].

Definition SessionScope (sessionIDField : string) : ScopeFn := λ ctx payload,
  let principal := PrincipalFromContext ctx in
  if bool_decide (principal = "")
  then Err (ErrorText "idempotency: principal missing from context") else
  match unmarshal_raw_map payload with
  | None => Err (ErrorText "idempotency: decode request for session scope")
  | Some m =>
      match obj_get sessionIDField m with
      | None => Err (ErrorText ("idempotency: session id field " +:+ sessionIDField +:+ " missing"))
      | Some raw =>
          match unmarshal_string raw with
          | None => Err (ErrorText ("idempotency: session id field " +:+ sessionIDField +:+ " is not a string"))
          | Some sid =>
              if bool_decide (sid = "")
              then Err (ErrorText ("idempotency: session id field " +:+ sessionIDField +:+ " is empty"))
              else encode_scope_err "principal" [principal; "session"; sid]
          end
      end
  end.

Definition ContextIDScope : ScopeFn := λ ctx payload,
  let principal := PrincipalFromContext ctx in
  if bool_decide (principal = "")
  then Err (ErrorText "idempotency: principal missing from context") else
  match unmarshal_raw_map payload with
  | None => Err (ErrorText "idempotency: decode request for context_id scope")
  | Some m =>
      match obj_get "context_id" m with
      | None => encode_scope_err "principal" [principal]
      | Some raw =>
          match unmarshal_string raw with
          | None => Err (ErrorText "idempotency: context_id is not a string")
          | Some cid =>
              if bool_decide (cid = "") then encode_scope_err "principal" [principal]
              else encode_scope_err "principal" [principal; "ctx"; cid]
          end
      end
  end.

(** ** Entries and markers *)

Record Entry := MkEntry {
  Hash : string;
  Response : string;
  CreatedAt : Time;
  ExpiresAt : Time;
}.

Definition MinTTL : Duration := (1 * Hour)%Z.
Definition MaxTTL : Duration := (7 * 24 * Hour)%Z.
Definition DefaultClockSkew : Duration := (60 * Second)%Z.
Definition inFlightPrefix : string := "__adcp_in_flight__:".
Definition retryablePrefix : string := "__adcp_retryable__:".
Definition maxInFlightRetryAfter : Duration := (30 * Second)%Z.

(** [newClaimHash] from the 16 bytes that [rand.Read] delivers. *)
Definition newClaimHash (requestHash : string) (b : list Z) : string :=
  inFlightPrefix +:+ requestHash +:+ ":" +:+ hex_encode b.

Definition isClaimHash (h : string) : bool := HasPrefix h inFlightPrefix.

Definition markerRequestHash (h prefix : string) : option string :=
  rest ← CutPrefix h prefix;
  i ← LastIndexByte rest ":";
  Some (stake i rest).

Definition inFlightRetryAfter (expiresAt now : Time) : Duration :=
  Z.min maxInFlightRetryAfter (Z.max Second (Truncate (Sub expiresAt now) Second)).

(** ** Configuration *)

Definition HashFn := string → result err string.

(** What [New] can see of the backend: absent, the memory backend with its
    retention grace, another backend with claims, or one without. *)
Inductive BackendKind :=
  | BackendNil
  | BackendMemory (grace : Duration)
  | BackendClaim
  | BackendPlain.

Record Options := MkOptions {
  opt_Backend : BackendKind;
  opt_TTL : Duration;
  opt_ClockSkew : Duration;
  opt_KeyRequired : option bool;
  opt_Hash : option HashFn;
  opt_Scope : option ScopeFn;
}.

Record Store := MkStore {
  st_Backend : BackendKind;
  st_TTL : Duration;
  st_ClockSkew : Duration;
  st_Hash : HashFn;
  st_Scope : ScopeFn;
  keyRequired : bool;
}.

(** [New]; [None] is a panic.  [defaultHash] is [CanonicalJSONSHA256]. *)
Definition New (defaultHash : HashFn) (opts : Options) : option Store :=
  match opt_Backend opts with
  | BackendNil => None
  | bk =>
      if ((opt_TTL opts <? MinTTL) || (MaxTTL <? opt_TTL opts))%Z then None else
      let hash := default defaultHash (opt_Hash opts) in
      let scope := default PrincipalScope (opt_Scope opts) in
      if (opt_ClockSkew opts <? 0)%Z then None else
      let skew := if (opt_ClockSkew opts =? 0)%Z then DefaultClockSkew else opt_ClockSkew opts in
      if match bk with BackendMemory grace => (grace <? skew)%Z | _ => false end then None else
      Some (MkStore bk (opt_TTL opts) skew hash scope (default true (opt_KeyRequired opts)))
  end.

Definition KeyRequired (s : Store) : bool := keyRequired s.
Definition TTL (s : Store) : Duration := st_TTL s.

(** [Capability] and [MergeCapability] on a capabilities object. *)
Definition Capability (s : Store) : list (string * json) :=
  [("supported", JBool true); ("replay_ttl_seconds", JNum (Itoa (Z.quot (st_TTL s) Second)))].

Fixpoint obj_set (k : string) (v : json) (m : list (string * json)) : list (string * json) :=
  match m with
  | [] => [(k, v)]
  | (k', w) :: m' => if bool_decide (k' = k) then (k, v) :: m' else (k', w) :: obj_set k v m'
  end.

Definition MergeCapability (s : Store) (caps : list (string * json)) : list (string * json) :=
  let adcp := match obj_get "adcp" caps with Some (JObj m) => m | _ => [] end in
  obj_set "adcp" (JObj (obj_set "idempotency" (JObj (Capability s)) adcp)) caps.

(** ** Evaluating an existing entry *)

Record Result := MkResult { ResponseOf : string; Replayed : bool; Key : string }.

Definition expired (s : Store) (e : Entry) (now : Time) : bool :=
  negb (IsZero (ExpiresAt e)) && After now (Add (ExpiresAt e) (st_ClockSkew s)).

Definition reclaimable (s : Store) (e : Entry) (hash : string) (now : Time) : bool :=
  match markerRequestHash (Hash e) retryablePrefix with
  | Some marked => bool_decide (marked = hash) && negb (expired s e now)
  | None => false
  end.

Definition evaluateExisting (s : Store) (existing : Entry) (hash key : string) (now : Time) :
    result err Result :=
  match markerRequestHash (Hash existing) inFlightPrefix with
  | Some claimed =>
      if negb (bool_decide (claimed = hash)) then Err (ConflictError key)
      else Err (InFlightError key (inFlightRetryAfter (ExpiresAt existing) now))
  | None =>
      if expired s existing now then Err (ExpiredError key) else
      match markerRequestHash (Hash existing) retryablePrefix with
      | Some marked =>
          if negb (bool_decide (marked = hash)) then Err (ConflictError key)
          else Err (InFlightError key Second)
      | None =>
          if negb (bool_decide (Hash existing = hash)) then Err (ConflictError key)
          else Ok (MkResult (Response existing) true key)
      end
  end.

(** ** Lemmas *)

Definition hex_char (c : ascii) : bool := is_digit c || between 97 102 c.

Lemma hex_digit_char n : (0 ≤ n < 16)%Z → hex_char (hex_digit n) = true.
Proof.
  intros Hn. unfold hex_digit, hex_char, is_digit, between.
  destruct (Z.ltb_spec n 10); rewrite code_byte by lia; lia.
Qed.

Definition is_byte (z : Z) : Prop := (0 ≤ z < 256)%Z.

Lemma hex_encode_chars b : Forall is_byte b → all_bytes hex_char (hex_encode b) = true.
Proof.
  induction 1 as [|x b Hx Hb IH]; [done|]. unfold is_byte in Hx. cbn.
  rewrite !hex_digit_char, IH; [done| |].
  - by apply Z.mod_pos_bound.
  - split; [apply Z.div_pos; lia|apply Z.div_lt_upper_bound; lia].
Qed.

Lemma hex_encode_len b : len (hex_encode b) = 2 * length b.
Proof. induction b as [|x b IH]; [done|]. cbn. rewrite !len_cons, IH. lia. Qed.

Lemma hex_digit_inj x y : (0 ≤ x < 16)%Z → (0 ≤ y < 16)%Z → hex_digit x = hex_digit y → x = y.
Proof.
  intros Hx Hy H. unfold hex_digit in H. apply (f_equal code) in H.
  destruct (Z.ltb_spec x 10), (Z.ltb_spec y 10); rewrite !code_byte in H by lia; lia.
Qed.

Lemma hex_encode_inj b b' :
  Forall is_byte b → Forall is_byte b' → hex_encode b = hex_encode b' → b = b'.
Proof.
  intros Hb. revert b'. induction Hb as [|x b Hx Hb IH]; intros b' Hb' H; destruct Hb' as [|y b' Hy Hb'];
    try done. cbn in H. injection H as H1 H2 H3. unfold is_byte in *.
  pose proof (Z.div_mod x 16). pose proof (Z.div_mod y 16).
  pose proof (Z.mod_pos_bound x 16). pose proof (Z.mod_pos_bound y 16).
  apply hex_digit_inj in H1; [|split; [apply Z.div_pos|apply Z.div_lt_upper_bound]; lia..].
  apply hex_digit_inj in H2; [|lia..]. f_equal; [lia|]. by apply IH.
Qed.

Lemma hex_encode_no_colon b : Forall is_byte b → contains_byte (hex_encode b) ":" = false.
Proof. intros H. by eapply all_bytes_no, hex_encode_chars. Qed.

Lemma markerRequestHash_make p h t :
  contains_byte t ":" = false → markerRequestHash (p +:+ h +:+ ":" +:+ t) p = Some h.
Proof.
  intros Ht. unfold markerRequestHash.
  assert (CutPrefix (p +:+ h +:+ ":" +:+ t) p = Some (h +:+ ":" +:+ t)) as ->
    by (by apply CutPrefix_Some).
  cbn [mbind option_bind]. change (":" +:+ t) with (String ":" t).
  rewrite LastIndexByte_app by done. cbn [mbind option_bind]. by rewrite stake_app.
Qed.

Lemma markerRequestHash_Some x p h :
  markerRequestHash x p = Some h → HasPrefix x p = true.
Proof.
  unfold markerRequestHash, CutPrefix. destruct (HasPrefix x p); [done|]. done.
Qed.

(** The markers of a claim and of the retryable state it is released to. *)
Lemma claim_marker h b :
  Forall is_byte b → markerRequestHash (newClaimHash h b) inFlightPrefix = Some h.
Proof. intros Hb. by apply markerRequestHash_make, hex_encode_no_colon. Qed.

Definition retryMarker (claimHash : string) : string :=
  retryablePrefix +:+ TrimPrefix claimHash inFlightPrefix.

Lemma retry_marker h b :
  Forall is_byte b →
  markerRequestHash (retryMarker (newClaimHash h b)) retryablePrefix = Some h.
Proof.
  intros Hb. unfold retryMarker, newClaimHash. rewrite TrimPrefix_app.
  by apply markerRequestHash_make, hex_encode_no_colon.
Qed.

(** The two prefixes exclude each other. *)
Lemma prefix_disjoint x :
  HasPrefix x retryablePrefix = true → HasPrefix x inFlightPrefix = false.
Proof. intros [t ->]%HasPrefix_true. reflexivity. Qed.

Lemma retryMarker_not_claim c : isClaimHash (retryMarker c) = false.
Proof. apply prefix_disjoint. unfold retryMarker. apply HasPrefix_app. Qed.

(** A claim hash determines the request hash and the token. *)
Lemma newClaimHash_inj h1 h2 b1 b2 :
  Forall is_byte b1 → Forall is_byte b2 →
  newClaimHash h1 b1 = newClaimHash h2 b2 → h1 = h2 ∧ hex_encode b1 = hex_encode b2.
Proof.
  intros H1 H2 Heq. pose proof (claim_marker h1 b1 H1) as Hm1.
  rewrite Heq, claim_marker in Hm1 by done. injection Hm1 as ->. split; [done|].
  unfold newClaimHash in Heq. apply sapp_inj_l in Heq. apply sapp_inj_l in Heq.
  by apply (sapp_inj_l ":") in Heq.
Qed.

Lemma encode_parts_inj p q : encode_parts p = encode_parts q → p = q.
Proof.
  revert q. induction p as [|x p IH]; intros [|y q] H; try done. cbn in H.
  apply (sapp_inj_l ":") in H.
  assert (∀ z r, Cut (Itoa (Z.of_nat (len z)) +:+ ":" +:+ z +:+ r) ":"
            = (Itoa (Z.of_nat (len z)), z +:+ r, true)) as Hcut.
  { intros z r. apply Cut_app. unfold Itoa. destruct (Z.ltb_spec (Z.of_nat (len z)) 0); [lia|].
    apply Utoa_no_byte; [lia|done]. }
  apply (f_equal (λ s, Cut s ":")) in H. rewrite !Hcut in H. injection H as Hl H.
  assert (len x = len y) as Hlen.
  { unfold Itoa in Hl. destruct (Z.ltb_spec (Z.of_nat (len x)) 0); [lia|].
    destruct (Z.ltb_spec (Z.of_nat (len y)) 0); [lia|]. apply Utoa_inj in Hl; lia. }
  apply sapp_inj_len in H as [-> H]; [|done]. f_equal. by apply IH.
Qed.

Lemma Cut_no_colon_app n p :
  contains_byte n ":" = false → (Cut (n +:+ encode_parts p) ":").1.1 = n.
Proof.
  intros Hn. destruct p as [|x p]; cbn [encode_parts].
  - rewrite sapp_nil_r. unfold Cut. apply IndexByte_None in Hn. by rewrite Hn.
  - change (":" +:+ ?t) with (String ":" t). by rewrite Cut_app.
Qed.

(** [EncodeScope] is injective in the namespace and the parts, whatever bytes
    the parts hold. *)
Lemma EncodeScope_inj n1 p1 n2 p2 s :
  EncodeScope n1 p1 = Some s → EncodeScope n2 p2 = Some s → n1 = n2 ∧ p1 = p2.
Proof.
  unfold EncodeScope.
  destruct (contains_byte n1 ":") eqn:H1; [done|].
  destruct (contains_byte n2 ":") eqn:H2; [done|].
  intros [= <-] [= H]. pose proof (Cut_no_colon_app n1 p1 H1) as E.
  rewrite <- H, Cut_no_colon_app in E by done. subst n2. split; [done|].
  apply sapp_inj_l in H. by apply encode_parts_inj.
Qed.

(** The scope functions the package provides. *)
Inductive BuiltinScope := ScopePrincipal | ScopeSession (field : string) | ScopeContextID.

Definition builtin_scope (b : BuiltinScope) : ScopeFn :=
  match b with
  | ScopePrincipal => PrincipalScope
  | ScopeSession f => SessionScope f
  | ScopeContextID => ContextIDScope
  end.

(** Every built-in scope is the encoding of the principal and what narrows it. *)
Lemma builtin_scope_parts b ctx req s :
  builtin_scope b ctx req = Ok s →
  PrincipalFromContext ctx ≠ "" ∧
  ∃ turn, EncodeScope "principal" (PrincipalFromContext ctx :: turn) = Some s.
Proof.
  assert (∀ parts, encode_scope_err "principal" parts = Ok s →
            EncodeScope "principal" parts = Some s) as Henc
    by (intros parts H; by apply opt_err_Ok in H).
  destruct b as [|f|]; cbn [builtin_scope]; unfold PrincipalScope, SessionScope, ContextIDScope;
    case_bool_decide as Hp; try done.
  - intros H%Henc. split; [done|by exists []].
  - repeat (case_match; try done). intros Hs%Henc. split; [done|by eexists].
  - repeat (case_match; try done); intros Hs%Henc; (split; [done|by eexists]).
Qed.

(** ** The abstract reading of an entry *)

(** What an entry means to a request with the given payload hash. *)
Inductive EntryState := InFlight (h : string) | Retryable (h : string) | Recorded (h : string).

Definition entry_state (e : Entry) : EntryState :=
  match markerRequestHash (Hash e) inFlightPrefix with
  | Some h => InFlight h
  | None =>
      match markerRequestHash (Hash e) retryablePrefix with
      | Some h => Retryable h
      | None => Recorded (Hash e)
      end
  end.

Definition state_hash (st : EntryState) : string :=
  match st with InFlight h | Retryable h | Recorded h => h end.

Lemma inFlightRetryAfter_bounds expiresAt now :
  (Second ≤ inFlightRetryAfter expiresAt now ≤ maxInFlightRetryAfter)%Z.
Proof. unfold inFlightRetryAfter, maxInFlightRetryAfter, Second. lia. Qed.

(** The generated keys satisfy the schema pattern. *)
Lemma hex_char_key c : hex_char c = true → key_char c = true.
Proof.
  unfold hex_char, key_char, is_digit, between. rewrite !orb_true_iff, !andb_true_iff, !Z.leb_le.
  lia.
Qed.

Lemma all_bytes_stake P n s : all_bytes P s = true → all_bytes P (stake n s) = true.
Proof.
  intros H. rewrite <- (stake_sdrop n s), all_bytes_app in H. bool_prop. done.
Qed.

Lemma all_bytes_sdrop P n s : all_bytes P s = true → all_bytes P (sdrop n s) = true.
Proof.
  intros H. rewrite <- (stake_sdrop n s), all_bytes_app in H. bool_prop. done.
Qed.

Lemma is_byte_lor z m k :
  (0 ≤ m < 256)%Z → (0 ≤ k < 256)%Z → is_byte (Z.lor (Z.land z m) k).
Proof.
  intros Hm Hk. unfold is_byte.
  assert (0 ≤ Z.land z m)%Z by (apply Z.land_nonneg; lia).
  assert (Z.land z m < 256)%Z.
  { assert (Z.land z m = Z.land (Z.land z m) 255) as ->.
    { rewrite <- Z.land_assoc. f_equal. change 255%Z with (Z.ones 8).
      by rewrite Z.land_ones, Z.mod_small by lia. }
    change 255%Z with (Z.ones 8). rewrite Z.land_ones by lia. by apply Z.mod_pos_bound. }
  split; [apply Z.lor_nonneg; lia|].
  assert (Z.lor (Z.land z m) k = Z.lor (Z.land z m) k mod 2 ^ 8)%Z as ->.
  { rewrite <- Z.land_ones, Z.land_lor_distr_l, !Z.land_ones by lia.
    by rewrite !Z.mod_small by lia. }
  by apply Z.mod_pos_bound.
Qed.

Lemma Generate_valid b : length b = 16 → Forall is_byte b → Validate (Generate b) = None.
Proof.
  intros Hl Hb. unfold Generate.
  set (b' := <[6 := _]> b). set (b'' := <[8 := _]> b').
  assert (Forall is_byte b'') as Hb''.
  { subst b'' b'. repeat apply Forall_insert; [done|..]; apply is_byte_lor; lia. }
  assert (len (hex_encode b'') = 32) as Hh.
  { rewrite hex_encode_len. subst b'' b'. rewrite !length_insert. lia. }
  apply hex_encode_chars in Hb''. revert Hb'' Hh. generalize (hex_encode b'').
  intros h Hc Hh. apply (all_bytes_impl _ key_char) in Hc; [|apply hex_char_key].
  unfold Validate, keyPattern.
  rewrite !all_bytes_app, !all_bytes_stake by (try apply all_bytes_sdrop; done).
  rewrite !len_app, !len_stake, !len_sdrop, Hh. cbn [len String.length all_bytes].
  case_bool_decide as E; [exfalso|reflexivity].
  apply (f_equal len) in E. rewrite !len_app, !len_stake, !len_sdrop, Hh in E.
  change (len "") with 0 in E. lia.
Qed.

(** ** Properties *)

(** keys of different principals never share a scope: two requests that the
    built-in scope functions put in one scope come from the same principal. *)
Theorem scope_isolation b1 b2 ctx1 ctx2 req1 req2 s :
  builtin_scope b1 ctx1 req1 = Ok s → builtin_scope b2 ctx2 req2 = Ok s →
  PrincipalFromContext ctx1 = PrincipalFromContext ctx2.
Proof.
  intros [_ [t1 H1]]%builtin_scope_parts [_ [t2 H2]]%builtin_scope_parts.
  destruct (EncodeScope_inj _ _ _ _ _ H1 H2) as [_ [= ? _]]. done.
Qed.

Lemma scope_isolation_witness :
  let ctx := WithPrincipal (MkContext None) "https://a.example:8443" in
  builtin_scope ScopePrincipal ctx "{}" = Ok "principal:22:https://a.example:8443" ∧
  builtin_scope ScopeContextID ctx "{}" = Ok "principal:22:https://a.example:8443" ∧
  PrincipalFromContext ctx = PrincipalFromContext ctx.
Proof.
  intros ctx.
  assert (builtin_scope ScopePrincipal ctx "{}" = Ok "principal:22:https://a.example:8443")
    as H1 by (vm_compute; reflexivity).
  assert (builtin_scope ScopeContextID ctx "{}" = Ok "principal:22:https://a.example:8443")
    as H2 by (vm_compute; reflexivity).
  split; [exact H1|]. split; [exact H2|].
  exact (scope_isolation _ _ _ _ _ _ _ H1 H2).
Defined.

(** an existing entry is evaluated by its state.  A claim never expires: its
    own payload waits between one and thirty seconds, another payload
    conflicts.  Any other entry past its window (with the clock skew) is
    expired; a live one conflicts with every other payload, answers IN_FLIGHT
    to the payload of a retry marker, and replays its response to the payload
    it was recorded for, and only to that one. *)
Theorem evaluateExisting_spec s e hash key now :
  evaluateExisting s e hash key now =
  match entry_state e with
  | InFlight h =>
      if bool_decide (h = hash)
      then Err (InFlightError key (inFlightRetryAfter (ExpiresAt e) now))
      else Err (ConflictError key)
  | st =>
      if expired s e now then Err (ExpiredError key)
      else if negb (bool_decide (state_hash st = hash)) then Err (ConflictError key)
      else match st with
           | Retryable _ => Err (InFlightError key Second)
           | _ => Ok (MkResult (Response e) true key)
           end
  end ∧
  (Second ≤ inFlightRetryAfter (ExpiresAt e) now ≤ 30 * Second)%Z.
Proof.
  split; [|apply inFlightRetryAfter_bounds].
  unfold evaluateExisting, entry_state.
  destruct (markerRequestHash (Hash e) inFlightPrefix) as [h|].
  - by case_bool_decide.
  - destruct (markerRequestHash (Hash e) retryablePrefix); cbn [state_hash];
      destruct (expired s e now); done.
Qed.

(** frozen bytes are the caller's bytes, and the key they are bound to is
    the valid key that a server extracts from them. *)
Theorem FreezeBytes_bound jsonReq keyOverride env :
  FreezeBytes jsonReq keyOverride = Ok env →
  EnvBytes env = jsonReq ∧ extractKey (EnvBytes env) = Ok (EnvKey env) ∧
  Validate (EnvKey env) = None ∧ (keyOverride = "" ∨ keyOverride = EnvKey env).
Proof.
  unfold FreezeBytes, extractKey.
  destruct (unmarshal_raw_map jsonReq) as [probe|] eqn:Em; [|done].
  destruct (obj_get "idempotency_key" probe) as [raw|] eqn:Eg; [|done].
  destruct (unmarshal_string raw) as [existing|] eqn:Es; [|done].
  destruct (Validate existing) eqn:Ev; [done|].
  destruct (_ && _) eqn:Ec; [done|]. intros [= <-]. cbn. rewrite Em, Eg, Es.
  split_and!; [done|done|done|]. bool_prop. destruct Ec; bool_prop; auto.
Qed.

Definition dq : string := String quote "".

Definition sample_req : string :=
  "{" +:+ dq +:+ "idempotency_key" +:+ dq +:+ ":" +:+ dq +:+ "0123456789abcdef" +:+ dq +:+ "}".

Lemma FreezeBytes_bound_witness :
  FreezeBytes sample_req "" = Ok (MkReqEnvelope "0123456789abcdef" sample_req) ∧
  extractKey sample_req = Ok "0123456789abcdef".
Proof.
  assert (FreezeBytes sample_req "" = Ok (MkReqEnvelope "0123456789abcdef" sample_req)) as H
    by (vm_compute; reflexivity).
  split; [exact H|]. exact (proj1 (proj2 (FreezeBytes_bound _ _ _ H))).
Defined.

(** a key the client settles on always satisfies the schema pattern, is the
    override or the request's own key whenever there is one, and is a
    well-formed UUID v4 otherwise; an override that disagrees with the
    request's key is refused. *)
Theorem resolveKey_valid existing override b :
  length b = 16 → Forall is_byte b →
  match resolveKey existing override (Generate b) with
  | Ok k => Validate k = None ∧ (existing = "" ∨ k = existing) ∧ (override = "" ∨ k = override)
  | Err e => (override ≠ "" ∧ existing ≠ "" ∧ override ≠ existing) ∨
      Validate override = Some e ∨ Validate existing = Some e
  end.
Proof.
  intros Hl Hb. unfold resolveKey.
  repeat case_bool_decide; cbn [negb andb]; subst; try done.
  all: repeat match goal with
    | |- context [match Validate ?k with _ => _ end] =>
        let E := fresh in destruct (Validate k) eqn:E
    end; eauto 6.
  split; [by apply Generate_valid|auto].
Qed.

Lemma resolveKey_valid_witness :
  let b := [1; 2; 3; 4; 5; 6; 7; 8; 9; 10; 11; 12; 13; 14; 255; 0]%Z in
  resolveKey "" "" (Generate b) = Ok "01020304-0506-4708-890a-0b0c0d0eff00" ∧
  Validate "01020304-0506-4708-890a-0b0c0d0eff00" = None.
Proof.
  intros b.
  assert (length b = 16) as Hl by reflexivity.
  assert (Forall is_byte b) as Hb.
  { repeat constructor; unfold is_byte; lia. }
  pose proof (resolveKey_valid "" "" b Hl Hb) as H.
  assert (resolveKey "" "" (Generate b) = Ok "01020304-0506-4708-890a-0b0c0d0eff00") as E
    by (vm_compute; reflexivity).
  rewrite E in H. split; [exact E|exact (proj1 H)].
Defined.

(** The envelope [null] is not an object, and makes [InjectReplayed] panic
    where its comment promises an error. *)
Lemma InjectReplayed_null float_ok b : InjectReplayed float_ok "null" b = None.
Proof. reflexivity. Qed.

Lemma obj_get_snoc k l k0 v :
  obj_get k (l ++ [(k0, v)]) = if bool_decide (k0 = k) then Some v else obj_get k l.
Proof.
  induction l as [|[k' w] l IH]; cbn; [done|]. rewrite IH. by case_bool_decide.
Qed.

Lemma obj_get_filter k r (l : list (string * json)) :
  k ≠ r → obj_get k (filter (λ kv, kv.1 ≠ r) l) = obj_get k l.
Proof.
  intros Hk. induction l as [|[k' w] l IH]; [done|].
  rewrite filter_cons. case_decide as Hr; cbn in Hr |- *; rewrite IH; [done|].
  destruct (decide (k' = r)) as [->|]; [|by destruct Hr]. rewrite bool_decide_false by done.
  by destruct (obj_get k l).
Qed.

(** The object that [InjectReplayed] encodes has the flag and every other
    member of the envelope. *)
Lemma InjectReplayed_member float_ok env b m m' k :
  json_decode env = Some (JObj m) → InjectReplayed float_ok env b = Some (Ok m') →
  obj_get k m' = if bool_decide ("replayed" = k) then Some (JBool b) else obj_get k m.
Proof.
  unfold InjectReplayed. intros ->. destruct (nums_ok _ _); [|done]. intros [= <-].
  rewrite obj_get_snoc. case_bool_decide; [done|]. by apply obj_get_filter.
Qed.
