(* ===== verification/Bytes.v ===== *)
(** * Bytes: integers and hexadecimal text as bytes

    Big-endian integers ([encoding/binary]) and [encoding/hex], with their round trips. *)
From stdpp Require Import strings.
From S2P Require Import Prelude GoStrings Json Idempotency.
From stdpp Require Import options.

(** ** Big-endian integers *)

(** [big.Int.SetBytes]. *)
Fixpoint big_endian (acc : Z) (s : string) : Z :=
  match s with "" => acc | String c s' => big_endian (256 * acc + code c) s' end.

(** The [n] low bytes of [z], most significant first: [AppendUint16] and its like, the
    conversion to that width included. *)
Fixpoint be_bytes (n : nat) (z : Z) : string :=
  match n with
  | O => ""
  | S n => be_bytes n (z / 256) +:+ String (byte (z mod 256)) ""
  end.

Lemma len_be_bytes n z : len (be_bytes n z) = n.
Proof.
  revert z. induction n as [|n IH]; intros z; [done|]. cbn [be_bytes]. rewrite len_app, IH.
  rewrite len_cons. change (len "") with 0. lia.
Qed.

Lemma big_endian_app acc s c :
  big_endian acc (s +:+ String c "") = (256 * big_endian acc s + code c)%Z.
Proof.
  revert acc. induction s as [|d s IH]; intros acc; [done|]. rewrite sapp_cons. cbn [big_endian].
  apply IH.
Qed.

Lemma big_endian_be_bytes n z :
  (0 ≤ z < 256 ^ Z.of_nat n)%Z → big_endian 0 (be_bytes n z) = z.
Proof.
  revert z. induction n as [|n IH]; intros z Hz; [cbn in *; lia|].
  cbn [be_bytes]. rewrite big_endian_app, code_byte by (apply Z.mod_pos_bound; lia).
  rewrite IH; [pose proof (Z.div_mod z 256); lia|].
  rewrite Nat2Z.inj_succ, Z.pow_succ_r in Hz by lia.
  split; [apply Z.div_pos; lia|apply Z.div_lt_upper_bound; lia].
Qed.

(** ** Parts of a string *)

Lemma sdrop_S_app s c t : sdrop (S (len s)) (s +:+ String c t) = t.
Proof. induction s as [|d s IH]; [done|]. rewrite sapp_cons, len_cons. exact IH. Qed.

Lemma stake_app_len n s t : len s = n → stake n (s +:+ t) = s.
Proof. intros <-. apply stake_app. Qed.

Lemma sdrop_app_len n s t : len s = n → sdrop n (s +:+ t) = t.
Proof. intros <-. apply sdrop_app. Qed.

Lemma sdrop_add n m s : sdrop (n + m) s = sdrop m (sdrop n s).
Proof. revert s. induction n as [|n IH]; intros [|c s]; cbn; auto. by destruct m. Qed.

(** ** Concatenation *)

Fixpoint sconcat (l : list string) : string := match l with [] => "" | s :: l' => s +:+ sconcat l' end.

Lemma sconcat_app l k : sconcat (l ++ k) = sconcat l +:+ sconcat k.
Proof. induction l as [|s l IH]; [done|]. cbn [app sconcat]. by rewrite IH, sapp_assoc. Qed.

(** ** Hexadecimal *)

(** [hex.EncodeToString] and [hex.DecodeString]. *)
Definition hex_string (s : string) : string := hex_encode (map code (explode s)).

Fixpoint hex_decode (s : string) : option string :=
  match s with
  | "" => Some ""
  | String a (String b s') => x ← hex_val a; y ← hex_val b; r ← hex_decode s'; Some (String (byte (x * 16 + y)) r)
  | _ => None
  end.

Lemma code_bytes s : Forall is_byte (map code (explode s)).
Proof. apply Forall_map, Forall_true. intros c. apply code_range. Qed.

Lemma hex_string_inj s t : hex_string s = hex_string t → s = t.
Proof.
  intros H. apply hex_encode_inj in H; [|apply code_bytes..]. apply explode_inj.
  revert H. apply list_fmap_eq_inj. intros a b. apply code_inj.
Qed.

Lemma len_hex_string s : len (hex_string s) = 2 * len s.
Proof. unfold hex_string. by rewrite hex_encode_len, length_map, len_explode. Qed.

Lemma hex_digit_val n : (0 ≤ n < 16)%Z → hex_val (hex_digit n) = Some n.
Proof.
  intros H. assert (∀ k, k < 16 → hex_val (hex_digit (Z.of_nat k)) = Some (Z.of_nat k)) as A.
  { intros k Hk. do 16 (destruct k as [|k]; [reflexivity|]). lia. }
  specialize (A (Z.to_nat n) ltac:(lia)). by rewrite Z2Nat.id in A by lia.
Qed.

Lemma hex_decode_string s : hex_decode (hex_string s) = Some s.
Proof.
  induction s as [|c s IH]; [done|]. pose proof (code_range c) as Hc.
  change (hex_string (String c s)) with (String (hex_digit (code c / 16)) (String (hex_digit (code c mod 16)) (hex_string s))).
  cbn [hex_decode]. rewrite !hex_digit_val by (split; [try apply Z.div_pos; try apply Z.mod_pos_bound; lia|
    try apply Z.div_lt_upper_bound; try apply Z.mod_pos_bound; lia]).
  cbn. rewrite IH. cbn. rewrite Z.mul_comm, <- Z.div_mod, byte_code by done. done.
Qed.

Lemma hex_decode_len s b : hex_decode s = Some b → len s = 2 * len b.
Proof.
  revert s b. fix IH 1. intros [|a [|c s]] b; cbn [hex_decode]; [by intros [= <-]|done|].
  destruct (hex_val a), (hex_val c), (hex_decode s) as [r|] eqn:E; cbn; try done. intros [= <-].
  apply IH in E. rewrite !len_cons. lia.
Qed.
