(* ===== verification/IdemStore.v ===== *)
(** * IdemStore: the backends and [Store.Wrap]

    [src/adcp/v3/idempotency/memory.go], the [Backend]/[ClaimBackend]
    interfaces of [backend.go], and the middleware [Wrap] with [runClaimed] of
    [store.go].  The middleware is a resumption program [prog]: each call it
    makes to the clock, the random source, the backend or the handler is a
    constructor, so the same definition is run sequentially here ([run]) and
    interleaved with other requests in [IdemConc]. *)
From stdpp Require Import gmap stringmap.
From S2P Require Import Prelude GoStrings Json Idempotency.
From stdpp Require Import options.

(** ** The backend interface *)

(** The operations of [ClaimBackend] on a backend state [B]. *)
Class ClaimBackend (B : Type) := {
  Get : B → string → string → option Entry;
  PutIfAbsent : B → string → string → Entry → (option Entry * bool) * B;
  ReplaceIfHash : B → string → string → string → Entry → bool * B;
}.

(** What a claim backend promises: it is a map from (scope, key) to entries,
    whose writes are conditional, and each call touches its own key only. *)
Class ClaimBackendSpec (B : Type) `{ClaimBackend B} := {
  entry_at : B → string → string → option Entry;
  Get_entry b sc k : Get b sc k = entry_at b sc k;
  Put_absent b sc k e :
    entry_at b sc k = None → (PutIfAbsent b sc k e).1 = (None, true);
  Put_present b sc k e e0 :
    entry_at b sc k = Some e0 → PutIfAbsent b sc k e = ((Some e0, false), b);
  Put_stores b sc k e :
    entry_at b sc k = None → entry_at (PutIfAbsent b sc k e).2 sc k = Some e;
  Replace_yes b sc k old e e0 :
    entry_at b sc k = Some e0 → Hash e0 = old →
    (ReplaceIfHash b sc k old e).1 = true ∧
    entry_at (ReplaceIfHash b sc k old e).2 sc k = Some e;
  Replace_no b sc k old e :
    (∀ e0, entry_at b sc k = Some e0 → Hash e0 ≠ old) →
    ReplaceIfHash b sc k old e = (false, b);
  Put_other b sc k e sc' k' :
    Validate k = None → Validate k' = None → (sc, k) ≠ (sc', k') →
    entry_at (PutIfAbsent b sc k e).2 sc' k' = entry_at b sc' k';
  Replace_other b sc k old e sc' k' :
    Validate k = None → Validate k' = None → (sc, k) ≠ (sc', k') →
    entry_at (ReplaceIfHash b sc k old e).2 sc' k' = entry_at b sc' k';
}.

(** ** The memory backend *)

Module Memory.

Record MemoryBackend := MkMemory {
  entries : gmap string Entry;
  grace : Duration;
}.

Definition NewMemoryBackend : MemoryBackend := MkMemory ∅ DefaultClockSkew.

Definition scopeKey (scope key : string) : string :=
  scope +:+ String (byte 0) key.

Definition Get (b : MemoryBackend) (scope key : string) : option Entry :=
  entries b !! scopeKey scope key.

Definition PutIfAbsent (b : MemoryBackend) (scope key : string) (entry : Entry) :
    (option Entry * bool) * MemoryBackend :=
  let k := scopeKey scope key in
  match entries b !! k with
  | Some e => ((Some e, false), b)
  | None => ((None, true), MkMemory (<[k := entry]> (entries b)) (grace b))
  end.

Definition ReplaceIfHash (b : MemoryBackend) (scope key oldHash : string) (entry : Entry) :
    bool * MemoryBackend :=
  let k := scopeKey scope key in
  match entries b !! k with
  | Some e =>
      if bool_decide (Hash e = oldHash)
      then (true, MkMemory (<[k := entry]> (entries b)) (grace b))
      else (false, b)
  | None => (false, b)
  end.

(** Whether a sweep at [now] deletes the entry. *)
Definition sweepable (gr : Duration) (now : Time) (e : Entry) : bool :=
  negb (IsZero (ExpiresAt e)) && After now (Add (ExpiresAt e) gr) && negb (isClaimHash (Hash e)).

Definition sweep (now : Time) (b : MemoryBackend) : MemoryBackend :=
  MkMemory (filter (λ kv, sweepable (grace b) now kv.2 = false) (entries b)) (grace b).

End Memory.

#[export] Instance memory_backend : ClaimBackend Memory.MemoryBackend := {
  Get := Memory.Get;
  PutIfAbsent := Memory.PutIfAbsent;
  ReplaceIfHash := Memory.ReplaceIfHash;
}.

(** ** Programs *)

Inductive prog (A : Type) : Type :=
  | Ret (a : A)
  | ReadClock (k : Time → prog A)
  | RandRead (k : result err (list Z) → prog A)
  | BGet (scope key : string) (k : result err (option Entry) → prog A)
  | BPutIfAbsent (scope key : string) (e : Entry) (k : result err (option Entry * bool) → prog A)
  | BReplaceIfHash (scope key old : string) (e : Entry) (k : result err bool → prog A)
  | Call (req : string) (k : result err string → prog A).
Arguments Ret {A} _.
Arguments ReadClock {A} _.
Arguments RandRead {A} _.
Arguments BGet {A} _ _ _.
Arguments BPutIfAbsent {A} _ _ _ _.
Arguments BReplaceIfHash {A} _ _ _ _ _.
Arguments Call {A} _ _.

Fixpoint prog_bind {A B} (f : A → prog B) (p : prog A) : prog B :=
  match p with
  | Ret a => f a
  | ReadClock k => ReadClock (λ r, prog_bind f (k r))
  | RandRead k => RandRead (λ r, prog_bind f (k r))
  | BGet sc key k => BGet sc key (λ r, prog_bind f (k r))
  | BPutIfAbsent sc key e k => BPutIfAbsent sc key e (λ r, prog_bind f (k r))
  | BReplaceIfHash sc key old e k => BReplaceIfHash sc key old e (λ r, prog_bind f (k r))
  | Call req k => Call req (λ r, prog_bind f (k r))
  end.

#[export] Instance prog_mbind : MBind prog := λ A B f p, prog_bind f p.

(** [if err != nil { return nil, err }] *)
Definition check {A B} (r : result err A) (k : A → prog (result err B)) : prog (result err B) :=
  match r with Err e => Ret (Err e) | Ok a => k a end.

(** ** The middleware *)

Definition isClaimBackend (bk : BackendKind) : bool :=
  match bk with BackendMemory _ | BackendClaim => true | _ => false end.

(** The end of [runClaimed]: the handler has returned [resp]. *)
Definition finalize (s : Store) (scope key hash : string) (now : Time) (claimHash : string)
    (resp : result err string) : prog (result err Result) :=
  match resp with
  | Err e =>
      if is_outcome_unknown e then Ret (Err e) else
      t ← ReadClock Ret;
      let marker := MkEntry (retryMarker claimHash) "" now (Add t (st_TTL s)) in
      released ← BReplaceIfHash scope key claimHash marker Ret;
      match released with
      | Err relErr => Ret (Err (Wrapped [e; Wrapped [ErrReleaseFailed; relErr]]))
      | Ok false => Ret (Err (Wrapped [e; ErrClaimLost]))
      | Ok true => Ret (Err e)
      end
  | Ok response =>
      let final := MkEntry hash response now (Add now (st_TTL s)) in
      recorded ← BReplaceIfHash scope key claimHash final Ret;
      match recorded with
      | Err e => Ret (Err (Wrapped [ErrRecordFailed; e]))
      | Ok false => Ret (Err ErrClaimLost)
      | Ok true => Ret (Ok (MkResult response false key))
      end
  end.

Definition runClaimed (s : Store) (req scope key hash : string) (now : Time)
    (existing : option Entry) : prog (result err Result) :=
  token ← RandRead Ret; check token (λ b,
  let claimHash := newClaimHash hash b in
  let claim := MkEntry claimHash "" now (Add now (st_TTL s)) in
  let execute := (resp ← Call req Ret; finalize s scope key hash now claimHash resp) in
  let claimed existing :=
    match existing with
    | None => execute
    | Some e =>
        if negb (reclaimable s e hash now) then Ret (evaluateExisting s e hash key now) else
        ok ← BReplaceIfHash scope key (Hash e) claim Ret; check ok (λ ok,
        if negb ok then
          cur ← BGet scope key Ret; check cur (λ cur,
          match cur with
          | None => Ret (Err (InFlightError key Second))
          | Some c => Ret (evaluateExisting s c hash key now)
          end)
        else execute)
    end in
  match existing with
  | None =>
      put ← BPutIfAbsent scope key claim Ret; check put (λ '(winner, stored),
      match winner with
      | None => if negb stored then Ret (Err (InFlightError key Second)) else claimed None
      | Some w => claimed (Some w)
      end)
  | Some e => claimed (Some e)
  end).

(** The path of a backend without claims: [h] runs before the entry is stored. *)
Definition runPlain (s : Store) (req scope key hash : string) (now : Time)
    (existing : option Entry) : prog (result err Result) :=
  match existing with
  | Some e => Ret (evaluateExisting s e hash key now)
  | None =>
      resp ← Call req Ret; check resp (λ resp,
      put ← BPutIfAbsent scope key (MkEntry hash resp now (Add now (st_TTL s))) Ret;
      match put with
      | Err e => Ret (Err (Wrapped [ErrRecordFailed; e]))
      | Ok (_, true) => Ret (Ok (MkResult resp false key))
      | Ok (None, false) => Ret (Ok (MkResult resp false key))
      | Ok (Some winner, false) => Ret (evaluateExisting s winner hash key now)
      end)
  end.

Definition Wrap (s : Store) (ctx : Context) (req : string) : prog (result err Result) :=
  check (extractKey req) (λ key,
  if bool_decide (key = "") then
    if keyRequired s then Ret (Err MissingKeyError) else
    resp ← Call req Ret; check resp (λ resp, Ret (Ok (MkResult resp false "")))
  else
  match Validate key with Some e => Ret (Err e) | None =>
  check (st_Scope s ctx req) (λ scope,
  check (st_Hash s req) (λ hash,
  now ← ReadClock Ret;
  existing ← BGet scope key Ret; check existing (λ existing,
  if isClaimBackend (st_Backend s)
  then runClaimed s req scope key hash now existing
  else runPlain s req scope key hash now existing)))
  end).

(** ** Sequential execution *)

(** One request at a time against a backend that does not fail: the clock reads
    [now] throughout, the random source delivers [b], the handler is [h].  The
    last component lists the requests the handler was called with. *)
Fixpoint run {B A} `{ClaimBackend B} (now : Time) (b : list Z) (h : string → result err string)
    (p : prog A) (st : B) : A * B * list string :=
  match p with
  | Ret a => (a, st, [])
  | ReadClock k => run now b h (k now) st
  | RandRead k => run now b h (k (Ok b)) st
  | BGet sc key k => run now b h (k (Ok (Get st sc key))) st
  | BPutIfAbsent sc key e k =>
      let '(r, st') := PutIfAbsent st sc key e in run now b h (k (Ok r)) st'
  | BReplaceIfHash sc key old e k =>
      let '(r, st') := ReplaceIfHash st sc key old e in run now b h (k (Ok r)) st'
  | Call req k =>
      let '(a, st', calls) := run now b h (k (h req)) st in (a, st', req :: calls)
  end.

(** ** The abstract backend and what one call does to its key *)

(** The specification backend: a map on (scope, key) pairs. *)
Definition MapBackend : Type := gmap (string * string) Entry.

#[export] Instance map_backend : ClaimBackend MapBackend := {
  Get m sc k := m !! (sc, k);
  PutIfAbsent m sc k e :=
    match m !! (sc, k) with
    | Some e0 => ((Some e0, false), m)
    | None => ((None, true), <[(sc, k) := e]> m)
    end;
  ReplaceIfHash m sc k old e :=
    match m !! (sc, k) with
    | Some e0 => if bool_decide (Hash e0 = old) then (true, <[(sc, k) := e]> m) else (false, m)
    | None => (false, m)
    end;
}.

(** A call of the interface and its reply. *)
Inductive bcall :=
  | CGet (scope key : string)
  | CPut (scope key : string) (e : Entry)
  | CReplace (scope key old : string) (e : Entry).
Inductive breply := RGet (e : option Entry) | RPut (r : option Entry * bool) | RReplace (b : bool).

Definition call_key (c : bcall) : string :=
  match c with CGet _ k | CPut _ k _ | CReplace _ k _ _ => k end.

Definition exec {B} `{ClaimBackend B} (st : B) (c : bcall) : breply * B :=
  match c with
  | CGet sc k => (RGet (Get st sc k), st)
  | CPut sc k e => let '(r, st') := PutIfAbsent st sc k e in (RPut r, st')
  | CReplace sc k old e => let '(r, st') := ReplaceIfHash st sc k old e in (RReplace r, st')
  end.

Fixpoint exec_all {B} `{ClaimBackend B} (st : B) (cs : list bcall) : list breply :=
  match cs with
  | [] => []
  | c :: cs' => let '(r, st') := exec st c in r :: exec_all st' cs'
  end.

(** What the request's run of the handler leaves under its key, and its answer. *)
Definition spec_execute (s : Store) (hash key : string) (now : Time) (b : list Z)
    (resp : result err string) : result err Result * Entry :=
  match resp with
  | Ok r => (Ok (MkResult r false key), MkEntry hash r now (Add now (st_TTL s)))
  | Err e =>
      (Err e,
       if is_outcome_unknown e then MkEntry (newClaimHash hash b) "" now (Add now (st_TTL s))
       else MkEntry (retryMarker (newClaimHash hash b)) "" now (Add now (st_TTL s)))
  end.

(** One wrapped call as seen at its key: answer, entry afterwards, and whether
    the handler ran. *)
Definition spec_wrap (s : Store) (hash key : string) (now : Time) (b : list Z)
    (resp : result err string) (e : option Entry) : result err Result * option Entry * bool :=
  match e with
  | Some e0 =>
      if reclaimable s e0 hash now
      then let '(r, e1) := spec_execute s hash key now b resp in (r, Some e1, true)
      else (evaluateExisting s e0 hash key now, Some e0, false)
  | None => let '(r, e1) := spec_execute s hash key now b resp in (r, Some e1, true)
  end.

(** ** Lemmas *)

Lemma key_char_no_nul c : key_char c = true → beq c (byte 0) = false.
Proof.
  intros H. apply beq_neq. intros ->. vm_compute in H. discriminate.
Qed.

Lemma Validate_no_nul k : Validate k = None → contains_byte k (byte 0) = false.
Proof.
  unfold Validate, keyPattern. case_bool_decide; [done|].
  destruct (all_bytes key_char k) eqn:E; [|done]. intros _.
  by apply (all_bytes_no key_char).
Qed.

Lemma scopeKey_inj sc k sc' k' :
  Validate k = None → Validate k' = None →
  Memory.scopeKey sc k = Memory.scopeKey sc' k' → sc = sc' ∧ k = k'.
Proof.
  intros Hk%Validate_no_nul Hk'%Validate_no_nul H. unfold Memory.scopeKey in H.
  pose proof (f_equal (λ x, LastIndexByte x (byte 0)) H) as Hl. cbv beta in Hl.
  rewrite !LastIndexByte_app in Hl by done. injection Hl as Hl.
  apply sapp_inj_len in H as [-> H]; [|done]. by injection H.
Qed.

Lemma scopeKey_neq sc k sc' k' :
  Validate k = None → Validate k' = None → (sc, k) ≠ (sc', k') →
  Memory.scopeKey sc k ≠ Memory.scopeKey sc' k'.
Proof. intros Hk Hk' Hne [-> ->]%scopeKey_inj; done. Qed.

#[export] Program Instance memory_backend_spec : ClaimBackendSpec Memory.MemoryBackend := {
  entry_at b sc k := Memory.entries b !! Memory.scopeKey sc k;
}.
Next Obligation. done. Qed.
Next Obligation. intros b sc k e H. cbn. unfold Memory.PutIfAbsent. by rewrite H. Qed.
Next Obligation. intros b sc k e e0 H. cbn. unfold Memory.PutIfAbsent. by rewrite H. Qed.
Next Obligation.
  intros b sc k e H. cbn. unfold Memory.PutIfAbsent. rewrite H. apply lookup_insert_eq.
Qed.
Next Obligation.
  intros b sc k old e e0 H <-. cbn. unfold Memory.ReplaceIfHash. rewrite H.
  rewrite bool_decide_true by done. split; [done|apply lookup_insert_eq].
Qed.
Next Obligation.
  intros b sc k old e H. cbn. unfold Memory.ReplaceIfHash.
  destruct (_ !! _) as [e0|] eqn:E; [|done]. by rewrite bool_decide_false by auto.
Qed.
Next Obligation.
  intros b sc k e sc' k' Hk Hk' Hne. cbn. unfold Memory.PutIfAbsent.
  case_match; [done|]. apply lookup_insert_ne. by apply scopeKey_neq.
Qed.
Next Obligation.
  intros b sc k old e sc' k' Hk Hk' Hne. cbn. unfold Memory.ReplaceIfHash.
  repeat case_match; try done. apply lookup_insert_ne. by apply scopeKey_neq.
Qed.

(** The memory backend holds what the abstract map holds, at every valid key. *)
Definition holds_same (b : Memory.MemoryBackend) (m : MapBackend) : Prop :=
  ∀ sc k, Validate k = None → Memory.entries b !! Memory.scopeKey sc k = m !! (sc, k).

Lemma holds_same_insert b m sc k e g :
  Validate k = None → holds_same b m →
  holds_same (Memory.MkMemory (<[Memory.scopeKey sc k := e]> (Memory.entries b)) g)
    (<[(sc, k) := e]> m).
Proof.
  intros Hk H sc' k' Hk'. cbn.
  destruct (decide ((sc, k) = (sc', k'))) as [E|Hne].
  - injection E as <- <-. trans (Some e); [|symmetry]; apply lookup_insert_eq.
  - trans (Memory.entries b !! Memory.scopeKey sc' k').
    { apply lookup_insert_ne. by apply scopeKey_neq. }
    rewrite H by done. symmetry. by apply lookup_insert_ne.
Qed.

Lemma exec_same b m c :
  Validate (call_key c) = None → holds_same b m →
  (exec b c).1 = (exec m c).1 ∧ holds_same (exec b c).2 (exec m c).2.
Proof.
  intros Hk H. destruct c as [sc k|sc k e|sc k old e]; cbn in Hk |- *;
    unfold Memory.Get, Memory.PutIfAbsent, Memory.ReplaceIfHash; rewrite (H sc k Hk);
    repeat case_match; simplify_eq/=; try done;
    (split; [done|by apply holds_same_insert]).
Qed.

(** Running the program that [Wrap] builds. *)
Section RunWrap.
Context {B : Type} `{ClaimBackendSpec B}.
Variables (s : Store) (now : Time) (b : list Z) (h : string → result err string).
Variables (req scope key hash : string).
Hypothesis Hvalid : Validate key = None.
#[local] Set Default Proof Using "Type*".

(** A run leaves every other valid key alone. *)
Definition untouched (st st' : B) : Prop :=
  ∀ sc k, Validate k = None → (scope, key) ≠ (sc, k) → entry_at st' sc k = entry_at st sc k.

Lemma run_finalize st e0 :
  entry_at st scope key = Some e0 → Hash e0 = newClaimHash hash b →
  Response e0 = "" → CreatedAt e0 = now → ExpiresAt e0 = Add now (st_TTL s) →
  let '(r, e1) := spec_execute s hash key now b (h req) in
  let '(r', st', calls) :=
    run now b h (finalize s scope key hash now (newClaimHash hash b) (h req)) st in
  r' = r ∧ entry_at st' scope key = Some e1 ∧ calls = [] ∧ untouched st st'.
Proof.
  intros He Hh Hr Hc Hx. unfold spec_execute, finalize.
  assert (∀ e1, ∃ st', ReplaceIfHash st scope key (newClaimHash hash b) e1 = (true, st') ∧
            entry_at st' scope key = Some e1 ∧ untouched st st') as Hrep.
  { intros e1. destruct (Replace_yes st scope key _ e1 e0 He Hh) as [H1 H2].
    pose proof (Replace_other st scope key (newClaimHash hash b) e1) as H3.
    destruct (ReplaceIfHash _ _ _ _ _) as [x st']. cbn in *. subst x. exists st'.
    split_and!; [done|done|]. intros sc k Hk Hne. by apply H3. }
  destruct (h req) as [r|e]; [|destruct (is_outcome_unknown e)]; cbn.
  - destruct (Hrep (MkEntry hash r now (Add now (st_TTL s)))) as (st' & -> & ? & ?).
    cbn. done.
  - destruct e0; cbn in *. subst. split_and!; done.
  - edestruct Hrep as (st' & -> & ? & ?). cbn. done.
Qed.

Lemma run_execute st e0 :
  entry_at st scope key = Some e0 → Hash e0 = newClaimHash hash b →
  Response e0 = "" → CreatedAt e0 = now → ExpiresAt e0 = Add now (st_TTL s) →
  let '(r, e1) := spec_execute s hash key now b (h req) in
  let '(r', st', calls) :=
    run now b h (resp ← Call req Ret;
      finalize s scope key hash now (newClaimHash hash b) resp) st in
  r' = r ∧ entry_at st' scope key = Some e1 ∧ calls = [req] ∧ untouched st st'.
Proof.
  intros He Hh Hr Hc Hx. pose proof (run_finalize st e0 He Hh Hr Hc Hx) as HF.
  cbn. destruct (spec_execute _ _ _ _ _ _) as [r e1].
  destruct (run now b h (finalize _ _ _ _ _ _ _) st) as [[r' st'] calls].
  destruct HF as (?&?&->&?). done.
Qed.

Lemma run_runClaimed st :
  let '(r, e1, called) := spec_wrap s hash key now b (h req) (entry_at st scope key) in
  let '(r', st', calls) :=
    run now b h (runClaimed s req scope key hash now (entry_at st scope key)) st in
  r' = r ∧ entry_at st' scope key = e1 ∧ calls = (if called : bool then [req] else []) ∧
  untouched st st'.
Proof.
  unfold runClaimed, spec_wrap. cbn [mbind prog_mbind prog_bind run check].
  set (claim := MkEntry (newClaimHash hash b) "" now (Add now (st_TTL s))).
  destruct (entry_at st scope key) as [e0|] eqn:He.
  - destruct (reclaimable s e0 hash now); cbn [negb].
    + destruct (Replace_yes st scope key _ claim e0 He eq_refl) as [H1 H2].
      pose proof (Replace_other st scope key (Hash e0) claim) as H3.
      cbn [mbind prog_mbind prog_bind run check].
      destruct (ReplaceIfHash _ _ _ _ _) as [x st1]. cbn in H1, H2, H3. subst x.
      cbn [mbind prog_mbind prog_bind run check negb].
      pose proof (run_execute st1 claim H2 eq_refl eq_refl eq_refl eq_refl) as HE.
      cbn [mbind prog_mbind prog_bind run] in HE.
      destruct (spec_execute _ _ _ _ _ _) as [r e1].
      destruct (run now b h (finalize _ _ _ _ _ _ _) st1) as [[r' st'] calls].
      destruct HE as (-> & ? & ? & Hu). split_and!; try done.
      intros sc k Hk Hne. rewrite Hu, H3; done.
    + cbn. split_and!; try done.
  - pose proof (Put_absent st scope key claim He) as H1.
    pose proof (Put_stores st scope key claim He) as H2.
    pose proof (Put_other st scope key claim) as H3.
    cbn [mbind prog_mbind prog_bind run check].
    destruct (PutIfAbsent _ _ _ _) as [x st1]. cbn in H1, H2, H3. subst x.
    cbn [mbind prog_mbind prog_bind run check negb].
    pose proof (run_execute st1 claim H2 eq_refl eq_refl eq_refl eq_refl) as HE.
    cbn [mbind prog_mbind prog_bind run] in HE.
    destruct (spec_execute _ _ _ _ _ _) as [r e1].
    destruct (run now b h (finalize _ _ _ _ _ _ _) st1) as [[r' st'] calls].
    destruct HE as (-> & ? & ? & Hu). split_and!; try done.
    intros sc k Hk Hne. rewrite Hu, H3; done.
Qed.

End RunWrap.

(** What [Wrap] decides about a request before it reads the store. *)
Definition identify (s : Store) (ctx : Context) (req : string) :
    result err (option (string * string * string)) :=
  key ← extractKey req;
  if bool_decide (key = "")
  then if keyRequired s then Err MissingKeyError else Ok None
  else match Validate key with
       | Some e => Err e
       | None =>
           scope ← st_Scope s ctx req;
           hash ← st_Hash s req;
           Ok (Some (scope, key, hash))
       end.

Lemma identify_valid s ctx req scope key hash :
  identify s ctx req = Ok (Some (scope, key, hash)) → Validate key = None.
Proof.
  unfold identify. destruct (extractKey req) as [k|]; [|done]. cbn.
  case_bool_decide; [by destruct (keyRequired s)|].
  destruct (Validate k) eqn:E; [done|].
  destruct (st_Scope s ctx req); [|done]. destruct (st_Hash s req); [|done].
  cbn. by intros [= -> -> ->].
Qed.

Lemma Wrap_identified s ctx req scope key hash :
  identify s ctx req = Ok (Some (scope, key, hash)) → isClaimBackend (st_Backend s) = true →
  Wrap s ctx req =
    (now ← ReadClock Ret; existing ← BGet scope key Ret;
     check existing (runClaimed s req scope key hash now)).
Proof.
  unfold identify, Wrap. destruct (extractKey req) as [k|]; [|done]. cbn [mbind result_bind check].
  case_bool_decide; [by destruct (keyRequired s)|].
  destruct (Validate k) eqn:E; [done|].
  destruct (st_Scope s ctx req); [|done]. destruct (st_Hash s req); [|done].
  cbn [mbind result_bind check]. intros [= -> -> ->] ->. done.
Qed.

Lemma Wrap_rejected s ctx req e : identify s ctx req = Err e → Wrap s ctx req = Ret (Err e).
Proof.
  unfold identify, Wrap. destruct (extractKey req) as [k|]; [|by intros [= ->]].
  cbn [mbind result_bind check].
  case_bool_decide; [destruct (keyRequired s); by intros [= ->]|].
  destruct (Validate k) eqn:E; [by intros [= ->]|].
  destruct (st_Scope s ctx req); [|by intros [= ->]].
  destruct (st_Hash s req); [done|by intros [= ->]].
Qed.

(** Shared by the properties of [Wrap]: the run against any claim backend. *)
Lemma run_Wrap {B} `{ClaimBackendSpec B} s ctx req scope key hash now b h (st : B) :
  identify s ctx req = Ok (Some (scope, key, hash)) → isClaimBackend (st_Backend s) = true →
  let '(r, e1, called) := spec_wrap s hash key now b (h req) (entry_at st scope key) in
  let '(r', st', calls) := run now b h (Wrap s ctx req) st in
  r' = r ∧ entry_at st' scope key = e1 ∧ calls = (if called : bool then [req] else []) ∧
  untouched scope key st st'.
Proof.
  intros Hid Hb. rewrite (Wrap_identified _ _ _ _ _ _ Hid Hb).
  pose proof (run_runClaimed s now b h req scope key hash (identify_valid _ _ _ _ _ _ Hid) st)
    as HR.
  cbn [mbind prog_mbind prog_bind run check]. by rewrite Get_entry.
Qed.

(** Entries that are not markers, and what a live one answers. *)
Definition plain_hash (h : string) : Prop :=
  HasPrefix h inFlightPrefix = false ∧ HasPrefix h retryablePrefix = false.

Lemma markerRequestHash_None h p : HasPrefix h p = false → markerRequestHash h p = None.
Proof. intros H. unfold markerRequestHash, CutPrefix. by rewrite H. Qed.

Lemma spec_wrap_replay s hash key now b resp r c x :
  plain_hash hash → expired s (MkEntry hash r c x) now = false →
  spec_wrap s hash key now b resp (Some (MkEntry hash r c x)) =
    (Ok (MkResult r true key), Some (MkEntry hash r c x), false).
Proof.
  intros [H1 H2] Hx. unfold spec_wrap, reclaimable, evaluateExisting. cbn [Hash].
  rewrite !markerRequestHash_None, Hx by done. by rewrite bool_decide_true.
Qed.

Lemma spec_wrap_retry s hash key now b b' resp r c x :
  Forall is_byte b →
  expired s (MkEntry (retryMarker (newClaimHash hash b)) r c x) now = false →
  spec_wrap s hash key now b' resp (Some (MkEntry (retryMarker (newClaimHash hash b)) r c x)) =
    (let '(a, e1) := spec_execute s hash key now b' resp in (a, Some e1, true)).
Proof.
  intros Hb Hx. unfold spec_wrap, reclaimable. cbn [Hash].
  rewrite retry_marker, Hx by done. by rewrite bool_decide_true.
Qed.

Lemma spec_wrap_claimed s hash key now b b' resp r c x :
  Forall is_byte b →
  spec_wrap s hash key now b' resp (Some (MkEntry (newClaimHash hash b) r c x)) =
    (Err (InFlightError key (inFlightRetryAfter x now)),
     Some (MkEntry (newClaimHash hash b) r c x), false).
Proof.
  intros Hb. unfold spec_wrap, reclaimable, evaluateExisting. cbn [Hash ExpiresAt].
  rewrite claim_marker by done.
  rewrite (markerRequestHash_None _ retryablePrefix) by reflexivity.
  by rewrite bool_decide_true.
Qed.

(** ** Properties *)

(** C25: every call of [Wrap] against a claim backend does what [spec_wrap] says
    of its key: it runs the handler only when the key has no entry or holds a
    live retry marker of the same payload, leaves the recorded response, the
    kept claim or the retry marker behind, answers every other entry by
    [evaluateExisting] without calling the handler, and touches no other key. *)
Theorem wrap_refines_spec s ctx req scope key hash now b h (st : Memory.MemoryBackend) :
  identify s ctx req = Ok (Some (scope, key, hash)) → isClaimBackend (st_Backend s) = true →
  let '(r, e1, called) := spec_wrap s hash key now b (h req) (entry_at st scope key) in
  let '(r', st', calls) := run now b h (Wrap s ctx req) st in
  r' = r ∧ entry_at st' scope key = e1 ∧ calls = (if called : bool then [req] else []) ∧
  untouched scope key st st'.
Proof. intros. by apply run_Wrap. Qed.

(** the outcome of the first run decides what an exact retry does.  After a
    success, a retry within the window (and clock skew) replays the same
    response without running the handler; after an ordinary failure it runs
    the handler again; after an unknown outcome it never runs it, at any
    time. *)
Theorem wrap_retry {B} `{ClaimBackendSpec B} s ctx req scope key hash now now' b b' h h' (st : B) :
  identify s ctx req = Ok (Some (scope, key, hash)) → isClaimBackend (st_Backend s) = true →
  plain_hash hash → Forall is_byte b → entry_at st scope key = None →
  (now' ≤ now + st_TTL s + st_ClockSkew s)%Z →
  let '(r, st1, calls) := run now b h (Wrap s ctx req) st in
  let '(r', st2, calls') := run now' b' h' (Wrap s ctx req) st1 in
  calls = [req] ∧
  match h req with
  | Ok resp => r = Ok (MkResult resp false key) ∧ r' = Ok (MkResult resp true key) ∧ calls' = []
  | Err e =>
      r = Err e ∧
      if is_outcome_unknown e
      then r' = Err (InFlightError key (inFlightRetryAfter (Add now (st_TTL s)) now')) ∧ calls' = []
      else calls' = [req]
  end.
Proof.
  intros Hid Hb Hp Htok He Hnow.
  assert (∀ hs r c, expired s (MkEntry hs r c (Add now (st_TTL s))) now' = false) as Hx.
  { intros. unfold expired, After, Add. cbn. lia. }
  pose proof (run_Wrap s ctx req scope key hash now b h st Hid Hb) as H1.
  rewrite He in H1. unfold spec_wrap, spec_execute in H1.
  destruct (run now b h (Wrap s ctx req) st) as [[r st1] calls].
  pose proof (run_Wrap s ctx req scope key hash now' b' h' st1 Hid Hb) as H2.
  destruct (run now' b' h' (Wrap s ctx req) st1) as [[r' st2] calls'].
  destruct (h req) as [resp|e]; [|destruct (is_outcome_unknown e)];
    cbn in H1; destruct H1 as (-> & E1 & -> & _); rewrite E1 in H2.
  - rewrite spec_wrap_replay in H2 by done. by destruct H2 as (-> & _ & -> & _).
  - rewrite spec_wrap_claimed in H2 by done. by destruct H2 as (-> & _ & -> & _).
  - rewrite spec_wrap_retry in H2 by done.
    destruct (spec_execute s hash key now' b' (h' req)).
    by destruct H2 as (_ & _ & -> & _).
Qed.

(** A store over the memory backend, used by the witnesses. *)
Definition sample_store : Store :=
  MkStore (BackendMemory DefaultClockSkew) MinTTL DefaultClockSkew (λ _, Ok "c0ffee") PrincipalScope true.
Definition sample_ctx : Context := WithPrincipal (MkContext None) "buyer-1".
Definition sample_handler (req : string) : result err string := Ok "done".

Lemma wrap_refines_spec_witness :
  let '(r', st', calls) := run 5%Z [7%Z] sample_handler (Wrap sample_store sample_ctx sample_req)
                             Memory.NewMemoryBackend in
  r' = Ok (MkResult "done" false "0123456789abcdef") ∧ calls = [sample_req].
Proof.
  assert (identify sample_store sample_ctx sample_req
          = Ok (Some ("principal:7:buyer-1", "0123456789abcdef", "c0ffee"))) as H
    by (vm_compute; reflexivity).
  pose proof (wrap_refines_spec sample_store sample_ctx sample_req _ _ _ 5%Z [7%Z] sample_handler
    Memory.NewMemoryBackend H eq_refl) as HR.
  change (entry_at Memory.NewMemoryBackend "principal:7:buyer-1" "0123456789abcdef")
    with (@None Entry) in HR.
  cbn [spec_wrap spec_execute sample_handler] in HR.
  destruct (run _ _ _ _ _) as [[r' st'] calls]. destruct HR as (-> & _ & -> & _). done.
Defined.

Lemma wrap_retry_witness :
  let '(r, st1, calls) := run 5%Z [7%Z] sample_handler (Wrap sample_store sample_ctx sample_req)
                             Memory.NewMemoryBackend in
  let '(r', st2, calls') := run 9%Z [8%Z] sample_handler (Wrap sample_store sample_ctx sample_req)
                             st1 in
  calls = [sample_req] ∧ r = Ok (MkResult "done" false "0123456789abcdef") ∧
  r' = Ok (MkResult "done" true "0123456789abcdef") ∧ calls' = [].
Proof.
  assert (identify sample_store sample_ctx sample_req
          = Ok (Some ("principal:7:buyer-1", "0123456789abcdef", "c0ffee"))) as H
    by (vm_compute; reflexivity).
  assert (Forall is_byte [7%Z]) as Hb by (constructor; [unfold is_byte; lia|constructor]).
  assert ((9 ≤ 5 + st_TTL sample_store + st_ClockSkew sample_store)%Z) as Hn
    by (vm_compute; discriminate).
  pose proof (wrap_retry sample_store sample_ctx sample_req _ _ _ 5%Z 9%Z [7%Z] [8%Z] sample_handler
    sample_handler Memory.NewMemoryBackend H eq_refl (conj eq_refl eq_refl) Hb eq_refl Hn) as HR.
  destruct (run 5%Z _ _ _ _) as [[r st1] calls].
  destruct (run 9%Z _ _ _ _) as [[r' st2] calls']. exact HR.
Defined.

(** C32: a request the middleware cannot identify (unreadable body, missing or
    malformed key, failing scope or hash) gets that error with neither the
    handler nor the backend called. *)
Theorem wrap_rejects {B} `{ClaimBackend B} s ctx req e now b h (st : B) :
  identify s ctx req = Err e → run now b h (Wrap s ctx req) st = (Err e, st, []).
Proof. intros Hid. by rewrite (Wrap_rejected _ _ _ _ Hid). Qed.

Lemma wrap_rejects_witness :
  run 5%Z [] sample_handler (Wrap sample_store sample_ctx "{}") Memory.NewMemoryBackend
    = (Err MissingKeyError, Memory.NewMemoryBackend, []).
Proof. apply wrap_rejects. vm_compute. reflexivity. Defined.

(** the memory backend implements the (scope, key) map: any sequence of
    calls with valid keys gets the replies the map gives, so the flattened
    [scope NUL key] strings never confuse two keys. *)
Theorem memory_refines_map (cs : list bcall) (b : Memory.MemoryBackend) (m : MapBackend) :
  Forall (λ c, Validate (call_key c) = None) cs → holds_same b m → exec_all b cs = exec_all m cs.
Proof.
  intros Hcs. revert b m. induction Hcs as [|c cs Hc Hcs IH]; intros b m H; [done|].
  cbn [exec_all]. pose proof (exec_same b m c Hc H) as [H1 H2].
  destruct (exec b c) as [r b']. destruct (exec m c) as [r' m']. cbn in H1, H2.
  subst r'. f_equal. by apply IH.
Qed.

Lemma memory_refines_map_witness :
  let e := MkEntry "h" "r" 1%Z 2%Z in
  let cs := [CPut "a" "0123456789abcdef" e; CReplace "a" "0123456789abcdef" "x" e] in
  exec_all Memory.NewMemoryBackend cs = exec_all (∅ : MapBackend) cs.
Proof.
  intros e cs. apply memory_refines_map.
  - repeat constructor; vm_compute; reflexivity.
  - intros sc k _. reflexivity.
Defined.

(** a sweep deletes exactly the entries that are past their window plus the
    grace and are not claims, so it never deletes an unresolved claim, nor,
    for a store that [New] accepted over this backend, any entry that store
    would still serve. *)
Theorem sweep_safe dh opts s now b sk e :
  New dh opts = Some s → st_Backend s = BackendMemory (Memory.grace b) →
  Memory.entries b !! sk = Some e →
  (Memory.entries (Memory.sweep now b) !! sk = Some e ↔
     Memory.sweepable (Memory.grace b) now e = false) ∧
  (isClaimHash (Hash e) = true ∨ expired s e now = false →
   Memory.entries (Memory.sweep now b) !! sk = Some e).
Proof.
  intros HN Hb He.
  assert (Memory.entries (Memory.sweep now b) !! sk = Some e ↔
          Memory.sweepable (Memory.grace b) now e = false) as Hiff.
  { unfold Memory.sweep. cbn. rewrite map_lookup_filter_Some, He. cbn. naive_solver. }
  split; [exact Hiff|]. intros Hkeep. apply Hiff. unfold Memory.sweepable.
  destruct Hkeep as [-> | Hx]; [by rewrite andb_false_r|].
  assert (st_ClockSkew s ≤ Memory.grace b)%Z as Hg.
  { unfold New in HN. destruct (opt_Backend opts) as [|gr| |]; [done|..];
      repeat (case_match; [done|]); injection HN as <-; cbn in Hb |- *; try done.
    injection Hb as ->. bool_prop. lia. }
  unfold expired in Hx. unfold IsZero, After, Add in *.
  destruct (isClaimHash (Hash e)); [by rewrite andb_false_r|]. cbn [negb]. lia.
Qed.

Lemma sweep_safe_witness :
  let b := Memory.MkMemory {[ "k" := MkEntry "h" "r" 1%Z 2%Z ]} DefaultClockSkew in
  Memory.entries (Memory.sweep 3%Z b) !! "k" = Some (MkEntry "h" "r" 1%Z 2%Z).
Proof.
  intros b.
  apply (proj2 (sweep_safe (λ _, Ok "") (MkOptions (BackendMemory DefaultClockSkew) MinTTL 0%Z None None None)
    (MkStore (BackendMemory DefaultClockSkew) MinTTL DefaultClockSkew (λ _, Ok "") PrincipalScope true)
    3%Z b "k" (MkEntry "h" "r" 1%Z 2%Z) eq_refl eq_refl eq_refl)).
  right. vm_compute. reflexivity.
Defined.
