(* ===== verification/IdemConc.v ===== *)
(** * IdemConc: concurrent requests through [Store.Wrap]

    Any number of requests run the program of [IdemStore.Wrap] against one
    memory backend.  The backend's mutex makes each of its calls atomic; the
    interleaving of the calls, of the handler runs and of the sweeps is
    arbitrary, the clock may read anything, and a backend call may also fail,
    before or after it took effect.  The trace records when handlers start and
    end and what the sweeper deletes. *)
From stdpp Require Import gmap stringmap functions.
From S2P Require Import Prelude GoStrings Json Idempotency IdemStore.
From stdpp Require Import options.

Section Conc.
Variable s : Store.

(** ** States and steps *)

Inductive tstate :=
  | Running (p : prog (result err Result))
  | InHandler (req : string) (k : result err string → prog (result err Result))
  | Returned (r : result err Result).

Record thread := MkThread { t_ctx : Context; t_req : string; t_state : tstate }.

Definition set_state (t : thread) (ts : tstate) : thread := MkThread (t_ctx t) (t_req t) ts.

(** The map key a request works on. *)
Definition slot (ctx : Context) (req : string) : option string :=
  match identify s ctx req with
  | Ok (Some (scope, key, _)) => Some (Memory.scopeKey scope key)
  | _ => None
  end.

Definition slot_of (t : thread) : option string := slot (t_ctx t) (t_req t).

Inductive event :=
  | EvStart (tid : nat) (k : option string)
  | EvEnd (tid : nat) (k : option string) (r : result err string)
  | EvSweep (k : string).

Record state := MkState {
  mem : Memory.MemoryBackend;
  threads : gmap nat thread;
  used : list (list Z);
  trace : list event;
}.

Definition with_thread (st : state) (i : nat) (t : thread) : state :=
  MkState (mem st) (<[i := t]> (threads st)) (used st) (trace st).

(** A backend call of program [p]: the program after it and the memory it
    leaves; the reply may be an error, whether or not the call took effect. *)
Inductive backend_step : Memory.MemoryBackend → prog (result err Result) →
    Memory.MemoryBackend → prog (result err Result) → Prop :=
  | BS_get m sc k f : backend_step m (BGet sc k f) m (f (Ok (Memory.Get m sc k)))
  | BS_get_err m sc k f e : backend_step m (BGet sc k f) m (f (Err e))
  | BS_put m sc k en f :
      backend_step m (BPutIfAbsent sc k en f)
        (Memory.PutIfAbsent m sc k en).2 (f (Ok (Memory.PutIfAbsent m sc k en).1))
  | BS_put_err m sc k en f e m' :
      m' = m ∨ m' = (Memory.PutIfAbsent m sc k en).2 →
      backend_step m (BPutIfAbsent sc k en f) m' (f (Err e))
  | BS_replace m sc k old en f :
      backend_step m (BReplaceIfHash sc k old en f)
        (Memory.ReplaceIfHash m sc k old en).2 (f (Ok (Memory.ReplaceIfHash m sc k old en).1))
  | BS_replace_err m sc k old en f e m' :
      m' = m ∨ m' = (Memory.ReplaceIfHash m sc k old en).2 →
      backend_step m (BReplaceIfHash sc k old en f) m' (f (Err e)).

(** The keys a sweep deletes. *)
Definition swept (now : Time) (m : Memory.MemoryBackend) : list string :=
  elements (dom (Memory.entries m) ∖ dom (Memory.entries (Memory.sweep now m))).

Inductive step : state → state → Prop :=
  | step_spawn st i ctx req :
      threads st !! i = None →
      step st (with_thread st i (MkThread ctx req (Running (Wrap s ctx req))))
  | step_clock st i t f now :
      threads st !! i = Some t → t_state t = Running (ReadClock f) →
      step st (with_thread st i (set_state t (Running (f now))))
  | step_rand st i t f b :
      threads st !! i = Some t → t_state t = Running (RandRead f) →
      length b = 16 → Forall is_byte b → b ∉ used st →
      step st (MkState (mem st) (<[i := set_state t (Running (f (Ok b)))]> (threads st))
                 (b :: used st) (trace st))
  | step_rand_err st i t f e :
      threads st !! i = Some t → t_state t = Running (RandRead f) →
      step st (with_thread st i (set_state t (Running (f (Err e)))))
  | step_backend st i t p m' p' :
      threads st !! i = Some t → t_state t = Running p → backend_step (mem st) p m' p' →
      step st (MkState m' (<[i := set_state t (Running p')]> (threads st)) (used st) (trace st))
  | step_enter st i t req f :
      threads st !! i = Some t → t_state t = Running (Call req f) →
      step st (MkState (mem st) (<[i := set_state t (InHandler req f)]> (threads st))
                 (used st) (EvStart i (slot_of t) :: trace st))
  | step_exit st i t req f r :
      threads st !! i = Some t → t_state t = InHandler req f →
      step st (MkState (mem st) (<[i := set_state t (Running (f r))]> (threads st))
                 (used st) (EvEnd i (slot_of t) r :: trace st))
  | step_return st i t r :
      threads st !! i = Some t → t_state t = Running (Ret r) →
      step st (with_thread st i (set_state t (Returned r)))
  | step_sweep st now :
      step st (MkState (Memory.sweep now (mem st)) (threads st) (used st)
                 (map EvSweep (swept now (mem st)) ++ trace st)).

Definition initial : state := MkState Memory.NewMemoryBackend ∅ [] [].

Definition reachable (st : state) : Prop := rtc step initial st.

(** The run of the handler may have taken effect: it succeeded, or its outcome
    is unknown. *)
Definition effective (r : result err string) : bool :=
  match r with Ok _ => true | Err e => is_outcome_unknown e end.

(** Since the slot was last swept, some run of the handler for it may have
    taken effect (the trace has the latest event first). *)
Fixpoint settled (tr : list event) (k : string) : bool :=
  match tr with
  | [] => false
  | EvStart _ _ :: tr' => settled tr' k
  | EvEnd _ k' r :: tr' => (bool_decide (k' = Some k) && effective r) || settled tr' k
  | EvSweep k' :: tr' => if bool_decide (k' = k) then false else settled tr' k
  end.

(** ** What a request owns at each point of its program *)

Inductive ghost :=
  | Idle
  | Holding (ch : string)
  | Owning (ch : string)
  | Settling (ch : string)
  | Over
  | Unkeyed.

Definition claim_of (g : ghost) : option string :=
  match g with Holding ch | Owning ch | Settling ch => Some ch | _ => None end.

Definition owned (g : ghost) : option string :=
  match g with Owning ch | Settling ch => Some ch | _ => None end.

(** The program respects the protocol from the point [g]: it draws its token
    before it claims, publishes only its own claim, over nothing or over a
    retry marker, runs the handler only while it owns the claim, and replaces
    nothing but its claim afterwards. *)
Fixpoint ok (sc k : string) (g : ghost) (p : prog (result err Result)) : Prop :=
  match p with
  | Ret _ => True
  | ReadClock f => ∀ t, ok sc k g (f t)
  | RandRead f =>
      g = Idle ∧ (∀ e, ok sc k Over (f (Err e))) ∧
      ∀ b, Forall is_byte b → ∃ h, ok sc k (Holding (newClaimHash h b)) (f (Ok b))
  | BGet _ _ f => ∀ r, ok sc k g (f r)
  | BPutIfAbsent sc' k' e f =>
      sc' = sc ∧ k' = k ∧ (∀ er, ok sc k Over (f (Err er))) ∧
      match g with
      | Holding ch =>
          Hash e = ch ∧ ok sc k (Owning ch) (f (Ok (None, true))) ∧
          ∀ w, ok sc k (Holding ch) (f (Ok (Some w, false)))
      | _ => False
      end
  | BReplaceIfHash sc' k' old e f =>
      sc' = sc ∧ k' = k ∧ (∀ er, ok sc k Over (f (Err er))) ∧
      match g with
      | Holding ch =>
          HasPrefix old retryablePrefix = true ∧ Hash e = ch ∧
          ok sc k (Owning ch) (f (Ok true)) ∧ ok sc k (Holding ch) (f (Ok false))
      | Owning ch => old = ch ∧ isClaimHash (Hash e) = false ∧ ∀ r, ok sc k Over (f r)
      | Settling ch => old = ch ∧ plain_hash (Hash e) ∧ ∀ r, ok sc k Over (f r)
      | _ => False
      end
  | Call _ f =>
      match g with
      | Owning ch => ∀ r, ok sc k (if effective r then Settling ch else Owning ch) (f r)
      | Unkeyed => ∀ r, ok sc k Unkeyed (f r)
      | _ => False
      end
  end.

(** ** The invariant *)

Definition name_of (t : thread) : string * string :=
  match identify s (t_ctx t) (t_req t) with
  | Ok (Some (scope, key, _)) => (scope, key)
  | _ => ("", "")
  end.

Definition prog_ok (t : thread) (g : ghost) (p : prog (result err Result)) : Prop :=
  ok (name_of t).1 (name_of t).2 g p ∧
  match slot_of t with None => g = Unkeyed | Some _ => g ≠ Unkeyed end.

Definition thread_ok (t : thread) (g : ghost) : Prop :=
  match t_state t with
  | Running p => prog_ok t g p
  | InHandler req f => prog_ok t g (Call req f)
  | Returned _ => match slot_of t with None => g = Unkeyed | Some _ => g ≠ Unkeyed end
  end.

Definition unsettling (m : Memory.MemoryBackend) (tr : list event) : Prop :=
  ∀ k, settled tr k = true →
    ∃ e, Memory.entries m !! k = Some e ∧ HasPrefix (Hash e) retryablePrefix = false.

Record Inv (st : state) (G : nat → ghost) : Prop := {
  inv_ok i t : threads st !! i = Some t → thread_ok t (G i);
  inv_none i : threads st !! i = None → claim_of (G i) = None;
  inv_used i ch : claim_of (G i) = Some ch →
    ∃ h b, ch = newClaimHash h b ∧ Forall is_byte b ∧ b ∈ used st;
  inv_uniq i j ch : claim_of (G i) = Some ch → claim_of (G j) = Some ch → i = j;
  inv_owned i t ch k : threads st !! i = Some t → slot_of t = Some k → owned (G i) = Some ch →
    ∃ e, Memory.entries (mem st) !! k = Some e ∧ Hash e = ch;
  inv_owning i t ch k : threads st !! i = Some t → slot_of t = Some k → G i = Owning ch →
    settled (trace st) k = false;
  inv_settled : unsettling (mem st) (trace st);
}.

Lemma slot_name t k : slot_of t = Some k → k = Memory.scopeKey (name_of t).1 (name_of t).2.
Proof.
  unfold slot_of, slot, name_of.
  destruct (identify _ _ _) as [[[[sc key] h]|]|]; try done. by intros [= <-].
Qed.

Lemma owned_claim g ch : owned g = Some ch → claim_of g = Some ch.
Proof. by destruct g. Qed.

Lemma claim_hash_of h b : isClaimHash (newClaimHash h b) = true.
Proof. apply HasPrefix_app. Qed.

Lemma claim_not_retry h : isClaimHash h = true → HasPrefix h retryablePrefix = false.
Proof.
  intros H. destruct (HasPrefix h retryablePrefix) eqn:E; [|done].
  apply prefix_disjoint in E. unfold isClaimHash in H. by rewrite E in H.
Qed.

(** The effect of one step of request [i] on what the invariant says, when the
    step works within its own slot. *)
Lemma inv_update st G i t t' g' m' tr' :
  Inv st G → threads st !! i = Some t → slot_of t' = slot_of t → thread_ok t' g' →
  (claim_of g' = claim_of (G i) ∨ claim_of g' = None) →
  (∀ k, slot_of t ≠ Some k →
     Memory.entries m' !! k = Memory.entries (mem st) !! k ∧
     settled tr' k = settled (trace st) k) →
  (∀ k, slot_of t = Some k →
     (∀ ch, owned g' = Some ch → ∃ e, Memory.entries m' !! k = Some e ∧ Hash e = ch) ∧
     (∀ ch, g' = Owning ch → settled tr' k = false) ∧
     (settled tr' k = true →
        ∃ e, Memory.entries m' !! k = Some e ∧ HasPrefix (Hash e) retryablePrefix = false) ∧
     (∀ e, Memory.entries (mem st) !! k = Some e → isClaimHash (Hash e) = true →
        claim_of (G i) ≠ Some (Hash e) →
        Memory.entries m' !! k = Some e ∧ settled tr' k = settled (trace st) k)) →
  Inv (MkState m' (<[i := t']> (threads st)) (used st) tr') (<[i := g']> G).
Proof.
  intros HI Hi Hs Hok Hcl Hframe Hown.
  assert (Hclaim : ∀ j ch, claim_of (<[i := g']> G j) = Some ch → claim_of (G j) = Some ch).
  { intros j ch. destruct (decide (j = i)) as [->|Hji].
    - rewrite fn_lookup_insert. destruct Hcl as [-> | ->]; done.
    - by rewrite fn_lookup_insert_ne by done. }
  assert (Hother : ∀ j tj ch k, j ≠ i → threads st !! j = Some tj → slot_of tj = Some k →
    owned (G j) = Some ch →
    (∃ e, Memory.entries m' !! k = Some e ∧ Hash e = ch) ∧
    settled tr' k = settled (trace st) k).
  { intros j tj ch k Hji Hj Hk Ho.
    destruct (inv_owned _ _ HI j tj ch k Hj Hk Ho) as (e & He & Hh).
    destruct (decide (slot_of t = Some k)) as [Hsk|Hsk].
    - destruct (Hown k Hsk) as (_ & _ & _ & H4). destruct (H4 e He) as [H5 H6].
      + apply owned_claim in Ho. destruct (inv_used _ _ HI _ _ Ho) as (h & b & Heq & _ & _).
        rewrite Hh, Heq. apply claim_hash_of.
      + rewrite Hh. intros Hc. apply Hji. eapply (inv_uniq _ _ HI); [|exact Hc].
        by apply owned_claim.
      + split; [|done]. by exists e.
    - destruct (Hframe k Hsk) as [-> ->]. split; [|done]. by exists e. }
  constructor; cbn.
  - intros j tj. destruct (decide (j = i)) as [->|Hji].
    + rewrite lookup_insert_eq, fn_lookup_insert. by intros [= <-].
    + rewrite lookup_insert_ne, fn_lookup_insert_ne by done. apply (inv_ok _ _ HI).
  - intros j Hj. destruct (decide (j = i)) as [->|Hji]; [by rewrite lookup_insert_eq in Hj|].
    rewrite lookup_insert_ne in Hj by done. rewrite fn_lookup_insert_ne by done.
    by apply (inv_none _ _ HI).
  - intros j ch Hc. apply (inv_used _ _ HI j). by apply Hclaim.
  - intros j1 j2 ch H1 H2. eapply (inv_uniq _ _ HI); by apply Hclaim.
  - intros j tj ch k. destruct (decide (j = i)) as [->|Hji].
    + rewrite lookup_insert_eq, fn_lookup_insert. intros [= <-] Hk Ho.
      rewrite Hs in Hk. by apply (Hown k Hk).
    + rewrite lookup_insert_ne, fn_lookup_insert_ne by done. intros Hj Hk Ho.
      by eapply Hother.
  - intros j tj ch k. destruct (decide (j = i)) as [->|Hji].
    + rewrite lookup_insert_eq, fn_lookup_insert. intros [= <-] Hk Ho.
      rewrite Hs in Hk. by eapply (Hown k Hk).
    + rewrite lookup_insert_ne, fn_lookup_insert_ne by done. intros Hj Hk Ho.
      destruct (Hother j tj ch k Hji Hj Hk) as [_ ->]; [by rewrite Ho|].
      by eapply (inv_owning _ _ HI).
  - intros k Hk. destruct (decide (slot_of t = Some k)) as [Hsk|Hsk].
    + by apply (Hown k Hsk).
    + destruct (Hframe k Hsk) as [H1 H2]. rewrite H2 in Hk. rewrite H1.
      by apply (inv_settled _ _ HI).
Qed.

(** A step that leaves memory and trace alone. *)
Lemma inv_local st G i t ts g' :
  Inv st G → threads st !! i = Some t → thread_ok (set_state t ts) g' →
  g' = G i ∨ claim_of g' = None →
  Inv (with_thread st i (set_state t ts)) (<[i := g']> G).
Proof.
  intros HI Hi Hok Hg.
  apply (inv_update st G i t); try done.
  - destruct Hg as [-> | ->]; auto.
  - intros k Hk. split_and!; try done; try by apply (inv_settled _ _ HI).
    + intros ch Ho. destruct Hg as [-> | Hg].
      * by eapply (inv_owned _ _ HI).
      * apply owned_claim in Ho. by rewrite Hg in Ho.
    + intros ch ->. destruct Hg as [Hg|Hg]; [|done]. by eapply (inv_owning _ _ HI).
Qed.

(** ** The program of [Wrap] follows the protocol *)

Hypothesis Hclaims : isClaimBackend (st_Backend s) = true.
Hypothesis Hhash : ∀ req h, st_Hash s req = Ok h → plain_hash h.
#[local] Set Default Proof Using "Type*".

Lemma ok_finalize sc k hash now ch resp :
  plain_hash hash →
  ok sc k (if effective resp then Settling ch else Owning ch)
    (finalize s sc k hash now ch resp).
Proof.
  intros Hp. unfold finalize, effective. destruct resp as [r|e].
  - cbn. split_and!; try done. intros [[]|]; done.
  - destruct (is_outcome_unknown e); [done|]. cbn. intros t. split_and!; try done.
    intros [[]|]; done.
Qed.

Lemma ok_runClaimed req sc k hash now existing :
  plain_hash hash → ok sc k Idle (runClaimed s req sc k hash now existing).
Proof.
  intros Hp. unfold runClaimed. cbn. split_and!; [done|done|].
  intros b Hb. exists hash.
  assert (Hexec : ∀ resp, ok sc k (if effective resp then Settling (newClaimHash hash b)
            else Owning (newClaimHash hash b))
            (finalize s sc k hash now (newClaimHash hash b) resp))
    by (intros; by apply ok_finalize).
  assert (Hre : ∀ e, reclaimable s e hash now = true →
            HasPrefix (Hash e) retryablePrefix = true).
  { intros e He. unfold reclaimable in He.
    destruct (markerRequestHash (Hash e) retryablePrefix) eqn:E; [|done].
    by eapply markerRequestHash_Some. }
  destruct existing as [e|]; cbn.
  - destruct (reclaimable s e hash now) eqn:Hr; cbn; [|done]. split_and!; try done.
    + by apply Hre.
    + intros [[]|]; done.
  - split_and!; try done. intros w.
    destruct (reclaimable s w hash now) eqn:Hr; cbn; [|done]. split_and!; try done.
    + by apply Hre.
    + intros [[]|]; done.
Qed.

Lemma ok_Wrap t :
  thread_ok (set_state t (Running (Wrap s (t_ctx t) (t_req t))))
    (match slot_of t with Some _ => Idle | None => Unkeyed end).
Proof.
  unfold thread_ok, prog_ok, name_of, slot_of, slot. cbn.
  destruct (identify s (t_ctx t) (t_req t)) as [[[[sc k] h]|]|e] eqn:E.
  - rewrite (Wrap_identified _ _ _ _ _ _ E Hclaims). cbn. split; [|done].
    intros now [ex|e]; cbn; [|done]. apply ok_runClaimed.
    unfold identify in E. destruct (extractKey (t_req t)); [|done]. cbn in E.
    case_bool_decide; [by destruct (keyRequired s)|].
    destruct (Validate _); [done|]. destruct (st_Scope _ _ _); [|done]. cbn in E.
    destruct (st_Hash s (t_req t)) eqn:Eh; [|done]. cbn in E. simplify_eq. by eapply Hhash.
  - split; [|done]. unfold identify in E. unfold Wrap.
    destruct (extractKey (t_req t)); [|done]. cbn in E |- *.
    case_bool_decide.
    + destruct (keyRequired s); [done|]. cbn. intros [r|e]; done.
    + destruct (Validate _); [done|]. destruct (st_Scope _ _ _); [|done]. cbn in E.
      by destruct (st_Hash s (t_req t)).
  - by rewrite (Wrap_rejected _ _ _ _ E).
Qed.

(** ** Every step preserves the invariant *)

Lemma inv_initial : Inv initial (λ _, Over).
Proof. constructor; done. Qed.

Lemma inv_spawn st G i ctx req :
  Inv st G → threads st !! i = None →
  ∃ G', Inv (with_thread st i (MkThread ctx req (Running (Wrap s ctx req)))) G'.
Proof.
  intros HI Hi. set (t := MkThread ctx req (Running (Wrap s ctx req))).
  set (g := match slot_of t with Some _ => Idle | None => Unkeyed end).
  exists (<[i := g]> G).
  assert (Hg : claim_of g = None) by (unfold g; by destruct (slot_of t)).
  assert (Hclaim : ∀ j ch, claim_of (<[i := g]> G j) = Some ch → j ≠ i ∧ claim_of (G j) = Some ch).
  { intros j ch. destruct (decide (j = i)) as [->|Hji].
    - rewrite fn_lookup_insert. by rewrite Hg.
    - by rewrite fn_lookup_insert_ne by done. }
  constructor; cbn.
  - intros j tj. destruct (decide (j = i)) as [->|Hji].
    + rewrite lookup_insert_eq, fn_lookup_insert. intros [= <-]. apply (ok_Wrap t).
    + rewrite lookup_insert_ne, fn_lookup_insert_ne by done. apply (inv_ok _ _ HI).
  - intros j Hj. destruct (decide (j = i)) as [->|Hji]; [by rewrite lookup_insert_eq in Hj|].
    rewrite lookup_insert_ne in Hj by done. rewrite fn_lookup_insert_ne by done.
    by apply (inv_none _ _ HI).
  - intros j ch Hc. apply (inv_used _ _ HI j). by apply Hclaim.
  - intros j1 j2 ch H1 H2. eapply (inv_uniq _ _ HI); by apply Hclaim.
  - intros j tj ch k Hj Hk Ho. pose proof (Hclaim j ch (owned_claim _ _ Ho)) as [Hji _].
    rewrite lookup_insert_ne in Hj by done. rewrite fn_lookup_insert_ne in Ho by done.
    by eapply (inv_owned _ _ HI).
  - intros j tj ch k Hj Hk Ho.
    assert (j ≠ i) as Hji by (eapply (Hclaim j ch); by rewrite Ho).
    rewrite lookup_insert_ne in Hj by done. rewrite fn_lookup_insert_ne in Ho by done.
    by eapply (inv_owning _ _ HI).
  - apply (inv_settled _ _ HI).
Qed.

Lemma swept_settled now m tr k :
  settled (map EvSweep (swept now m) ++ tr) k = true →
  settled tr k = true ∧ k ∉ swept now m.
Proof.
  generalize (swept now m). induction l as [|k' l IH]; cbn; [by split; [|apply not_elem_of_nil]|].
  case_bool_decide; [done|]. intros [??]%IH. split; [done|]. by apply not_elem_of_cons.
Qed.

Lemma settled_swept_mono ks tr k :
  settled tr k = false → settled (map EvSweep ks ++ tr) k = false.
Proof.
  intros H. induction ks as [|k' ks IH]; cbn; [done|]. by case_bool_decide.
Qed.

Lemma sweep_lookup now m k e :
  Memory.entries (Memory.sweep now m) !! k = Some e ↔
  Memory.entries m !! k = Some e ∧ Memory.sweepable (Memory.grace m) now e = false.
Proof. unfold Memory.sweep. cbn. by rewrite map_lookup_filter_Some. Qed.

Lemma sweep_claim now m k e :
  Memory.entries m !! k = Some e → isClaimHash (Hash e) = true →
  Memory.entries (Memory.sweep now m) !! k = Some e.
Proof.
  intros He Hc. apply sweep_lookup. split; [done|]. unfold Memory.sweepable.
  by rewrite Hc, andb_false_r.
Qed.

Lemma inv_sweep st G now :
  Inv st G →
  Inv (MkState (Memory.sweep now (mem st)) (threads st) (used st)
         (map EvSweep (swept now (mem st)) ++ trace st)) G.
Proof.
  intros HI. constructor; cbn; try apply HI.
  - intros i t ch k Hi Hk Ho. destruct (inv_owned _ _ HI i t ch k Hi Hk Ho) as (e & He & Hh).
    exists e. split; [|done]. apply sweep_claim; [done|]. rewrite Hh.
    destruct (inv_used _ _ HI i ch (owned_claim _ _ Ho)) as (h & b & -> & _).
    apply claim_hash_of.
  - intros i t ch k Hi Hk Ho. apply settled_swept_mono. by eapply (inv_owning _ _ HI).
  - intros k [Hk Hn]%swept_settled. destruct (inv_settled _ _ HI k Hk) as (e & He & Hp).
    exists e. split; [|done].
    unfold swept in Hn. rewrite elem_of_elements, elem_of_difference in Hn.
    destruct (Memory.entries (Memory.sweep now (mem st)) !! k) as [e'|] eqn:E.
    + pose proof (proj1 (sweep_lookup _ _ _ _) E) as [He' _]. congruence.
    + exfalso. apply Hn. split; [by apply elem_of_dom_2 in He|by apply not_elem_of_dom].
Qed.

(** Writing one's own slot. *)
Lemma inv_write st G i t ts g' en gr sk :
  Inv st G → threads st !! i = Some t → slot_of t = Some sk → thread_ok (set_state t ts) g' →
  (claim_of g' = claim_of (G i) ∨ claim_of g' = None) →
  (∀ e, Memory.entries (mem st) !! sk = Some e → isClaimHash (Hash e) = true →
     claim_of (G i) = Some (Hash e)) →
  (∀ ch, owned g' = Some ch → Hash en = ch) →
  (∀ ch, g' = Owning ch → settled (trace st) sk = false) →
  (settled (trace st) sk = true → HasPrefix (Hash en) retryablePrefix = false) →
  Inv (MkState (Memory.MkMemory (<[sk := en]> (Memory.entries (mem st))) gr)
         (<[i := set_state t ts]> (threads st)) (used st) (trace st)) (<[i := g']> G).
Proof.
  intros HI Hi Hsk Hok Hcl HA HB HC HD.
  apply (inv_update st G i t); try done; cbn.
  - intros k Hk. split; [|done]. apply lookup_insert_ne. congruence.
  - intros k Hk. assert (k = sk) as -> by congruence. rewrite lookup_insert_eq. split_and!.
    + intros ch Ho. exists en. split; [done|by apply HB].
    + done.
    + intros Hst. exists en. split; [done|by apply HD].
    + intros e He Hc Hne. by destruct (Hne (HA e He Hc)).
Qed.

(** A retry marker or an empty slot is not settled. *)
Lemma inv_unsettled st G sk :
  Inv st G →
  (∀ e, Memory.entries (mem st) !! sk = Some e → HasPrefix (Hash e) retryablePrefix = true) →
  settled (trace st) sk = false.
Proof.
  intros HI H. destruct (settled (trace st) sk) eqn:E; [|done].
  destruct (inv_settled _ _ HI sk E) as (e & He & Hp). by rewrite (H e He) in Hp.
Qed.

Lemma put_cases m sc k en :
  let sk := Memory.scopeKey sc k in
  (Memory.entries m !! sk = None ∧
   Memory.PutIfAbsent m sc k en =
     ((None, true), Memory.MkMemory (<[sk := en]> (Memory.entries m)) (Memory.grace m))) ∨
  (∃ e, Memory.entries m !! sk = Some e ∧ Memory.PutIfAbsent m sc k en = ((Some e, false), m)).
Proof. cbn. unfold Memory.PutIfAbsent. destruct (_ !! _) as [e|]; [right; by exists e|by left]. Qed.

Lemma replace_cases m sc k old en :
  let sk := Memory.scopeKey sc k in
  (∃ e, Memory.entries m !! sk = Some e ∧ Hash e = old ∧
     Memory.ReplaceIfHash m sc k old en =
       (true, Memory.MkMemory (<[sk := en]> (Memory.entries m)) (Memory.grace m))) ∨
  Memory.ReplaceIfHash m sc k old en = (false, m).
Proof.
  cbn. unfold Memory.ReplaceIfHash. destruct (_ !! _) as [e|]; [|by right].
  case_bool_decide; [left; by exists e|by right].
Qed.

Lemma slot_keyed t g p :
  prog_ok t g p → g ≠ Unkeyed → slot_of t = Some (Memory.scopeKey (name_of t).1 (name_of t).2).
Proof.
  intros [_ Hs] Hg. destruct (slot_of t) as [k|] eqn:E; [|done].
  by rewrite (slot_name _ _ E).
Qed.

(** The memory a local step keeps can be written as the state's own. *)
Lemma inv_keep st G i t ts g' :
  Inv st G → threads st !! i = Some t → thread_ok (set_state t ts) g' →
  g' = G i ∨ claim_of g' = None →
  Inv (MkState (mem st) (<[i := set_state t ts]> (threads st)) (used st) (trace st)) (<[i := g']> G).
Proof. apply inv_local. Qed.

Lemma prog_ok_change t g g' p p' :
  prog_ok t g p → g ≠ Unkeyed → g' ≠ Unkeyed → ok (name_of t).1 (name_of t).2 g' p' →
  thread_ok (set_state t (Running p')) g'.
Proof.
  intros [_ Hs] Hg Hg' Hok. split; [exact Hok|].
  change (slot_of (set_state t (Running p'))) with (slot_of t).
  by destruct (slot_of t).
Qed.

Lemma inv_put st G i t sc k en f :
  Inv st G → threads st !! i = Some t → t_state t = Running (BPutIfAbsent sc k en f) →
  (∃ G', Inv (MkState (Memory.PutIfAbsent (mem st) sc k en).2
     (<[i := set_state t (Running (f (Ok (Memory.PutIfAbsent (mem st) sc k en).1)))]> (threads st))
     (used st) (trace st)) G') ∧
  (∀ e m', m' = mem st ∨ m' = (Memory.PutIfAbsent (mem st) sc k en).2 →
     ∃ G', Inv (MkState m' (<[i := set_state t (Running (f (Err e)))]> (threads st))
       (used st) (trace st)) G').
Proof.
  intros HI Hi Ht. pose proof (inv_ok _ _ HI i t Hi) as Hok. unfold thread_ok in Hok.
  rewrite Ht in Hok. pose proof Hok as [(-> & -> & Her & Hg) _].
  destruct (G i) as [|ch| | | |] eqn:EG; try done. destruct Hg as (Hen & Hput & Hlost).
  pose proof (slot_keyed _ _ _ Hok ltac:(done)) as Hsk.
  assert (∀ g', g' ≠ Unkeyed → ∀ p', ok (name_of t).1 (name_of t).2 g' p' →
    thread_ok (set_state t (Running p')) g') as Hch.
  { intros g' Hg' p' Hp'. by eapply prog_ok_change. }
  assert (Hover : ∀ e, Inv (MkState (mem st) (<[i := set_state t (Running (f (Err e)))]> (threads st))
       (used st) (trace st)) (<[i := Over]> G)).
  { intros e. apply inv_keep; auto. }
  destruct (put_cases (mem st) (name_of t).1 (name_of t).2 en) as [[Hn ->]|(e0 & He0 & ->)]; cbn.
  - assert (settled (trace st) (Memory.scopeKey (name_of t).1 (name_of t).2) = false) as Hst.
    { eapply inv_unsettled; [done|]. by rewrite Hn. }
    split.
    + exists (<[i := Owning ch]> G). eapply inv_write; [done|done|done|by apply Hch|rewrite ?EG; cbn; auto..].
      all: congruence.
    + intros e m' [-> | ->]; [by exists (<[i := Over]> G)|].
      exists (<[i := Over]> G). eapply inv_write; [done|done|done|by apply Hch|rewrite ?EG; cbn; auto..].
      all: congruence.
  - split.
    + exists (<[i := Holding ch]> G). apply inv_keep; auto.
    + intros e m' [-> | ->]; by exists (<[i := Over]> G).
Qed.

(** What replacing in one's own slot needs at each point of the protocol. *)
Lemma inv_replace st G i t sc k old en f :
  Inv st G → threads st !! i = Some t → t_state t = Running (BReplaceIfHash sc k old en f) →
  (∃ G', Inv (MkState (Memory.ReplaceIfHash (mem st) sc k old en).2
     (<[i := set_state t (Running (f (Ok (Memory.ReplaceIfHash (mem st) sc k old en).1)))]> (threads st))
     (used st) (trace st)) G') ∧
  (∀ e m', m' = mem st ∨ m' = (Memory.ReplaceIfHash (mem st) sc k old en).2 →
     ∃ G', Inv (MkState m' (<[i := set_state t (Running (f (Err e)))]> (threads st))
       (used st) (trace st)) G').
Proof.
  intros HI Hi Ht. pose proof (inv_ok _ _ HI i t Hi) as Hok. unfold thread_ok in Hok.
  rewrite Ht in Hok. pose proof Hok as [(-> & -> & Her & Hg) _].
  assert (G i ≠ Unkeyed) as Hgu by (by destruct (G i)).
  pose proof (slot_keyed _ _ _ Hok Hgu) as Hsk.
  assert (∀ g', g' ≠ Unkeyed → ∀ p', ok (name_of t).1 (name_of t).2 g' p' →
    thread_ok (set_state t (Running p')) g') as Hch.
  { intros g' Hg' p' Hp'. by eapply prog_ok_change. }
  assert (Hover : ∀ e, Inv (MkState (mem st) (<[i := set_state t (Running (f (Err e)))]> (threads st))
       (used st) (trace st)) (<[i := Over]> G)).
  { intros e. apply inv_keep; auto. }
  destruct (replace_cases (mem st) (name_of t).1 (name_of t).2 old en)
    as [(e0 & He0 & Hh & ->)| ->]; cbn.
  2:{ split; [|intros e m' [-> | ->]; by exists (<[i := Over]> G)].
      destruct (G i) as [|ch|ch|ch| |] eqn:EG; try done.
      - exists (<[i := Holding ch]> G). apply inv_keep; auto. by apply Hch, Hg.
      - exists (<[i := Over]> G). apply inv_keep; auto. by apply Hch, Hg.
      - exists (<[i := Over]> G). apply inv_keep; auto. by apply Hch, Hg. }
  assert (Hw : ∀ p' g', g' ≠ Unkeyed → ok (name_of t).1 (name_of t).2 g' p' →
     (claim_of g' = claim_of (G i) ∨ claim_of g' = None) →
     (∀ ch, owned g' = Some ch → Hash en = ch) →
     (∀ ch, g' = Owning ch → HasPrefix old retryablePrefix = true) →
     Inv (MkState (Memory.MkMemory (<[Memory.scopeKey (name_of t).1 (name_of t).2 := en]>
            (Memory.entries (mem st))) (Memory.grace (mem st)))
         (<[i := set_state t (Running p')]> (threads st)) (used st) (trace st)) (<[i := g']> G)).
  { intros p' g' Hu Hp' Hcl HB HC.
    assert (∀ (P : Prop), (HasPrefix old retryablePrefix = true → P) → (∀ ch, G i = Owning ch → P) →
              (∀ ch, G i = Settling ch → P) → P) as Hcase.
    { intros P H1 H2 H3. destruct (G i) as [|ch|ch|ch| |]; try done; [apply H1, Hg|eauto..]. }
    assert (HasPrefix old retryablePrefix = true →
      settled (trace st) (Memory.scopeKey (name_of t).1 (name_of t).2) = false) as Hret.
    { intros Ho. eapply inv_unsettled; [done|]. intros e He. congruence. }
    eapply inv_write; try done; auto.
    - intros e He Hc. assert (e = e0) as -> by congruence. apply Hcase.
      + intros Ho. rewrite <- Hh in Ho. apply prefix_disjoint in Ho.
        unfold isClaimHash in Hc. by rewrite Ho in Hc.
      + intros ch E. rewrite E in Hg |- *. cbn. destruct Hg as [-> _]. by rewrite Hh.
      + intros ch E. rewrite E in Hg |- *. cbn. destruct Hg as [-> _]. by rewrite Hh.
    - intros ch Hch'. apply Hret. by eapply HC.
    - intros Hst. apply Hcase.
      + intros Ho. by rewrite Hret in Hst.
      + intros ch E. by rewrite (inv_owning _ _ HI i t ch _ Hi Hsk E) in Hst.
      + intros ch E. rewrite E in Hg. apply Hg. }
  split.
  - destruct (G i) as [|ch|ch|ch| |] eqn:EG; try done.
    + destruct Hg as (H1 & H2 & H3 & H4). exists (<[i := Owning ch]> G).
      apply Hw; auto. cbn. congruence.
    + exists (<[i := Over]> G). apply Hw; auto; try done. apply Hg.
    + exists (<[i := Over]> G). apply Hw; auto; try done. apply Hg.
  - intros e m' [-> | ->]; [by exists (<[i := Over]> G)|]. exists (<[i := Over]> G).
    apply Hw; auto; done.
Qed.

(** A fresh token gives a claim no other request holds. *)
Lemma inv_rand st G i t f b :
  Inv st G → threads st !! i = Some t → t_state t = Running (RandRead f) →
  Forall is_byte b → b ∉ used st →
  ∃ G', Inv (MkState (mem st) (<[i := set_state t (Running (f (Ok b)))]> (threads st))
               (b :: used st) (trace st)) G'.
Proof.
  intros HI Hi Ht Hb Hf. pose proof (inv_ok _ _ HI i t Hi) as Hok. unfold thread_ok in Hok.
  rewrite Ht in Hok. pose proof Hok as [(EG & _ & Htok) _].
  destruct (Htok b Hb) as [h Hh]. set (ch := newClaimHash h b).
  assert (Hnew : ∀ j, claim_of (G j) ≠ Some ch).
  { intros j Hj. destruct (inv_used _ _ HI j ch Hj) as (h' & b' & Heq & Hb' & Hu).
    apply newClaimHash_inj in Heq as [_ Heq]; [|done..]. apply hex_encode_inj in Heq; [|done..].
    by subst b'. }
  exists (<[i := Holding ch]> G).
  assert (Hcase : ∀ j c, claim_of (<[i := Holding ch]> G j) = Some c →
     (j = i ∧ c = ch) ∨ (j ≠ i ∧ claim_of (G j) = Some c)).
  { intros j c. destruct (decide (j = i)) as [->|Hji].
    - rewrite fn_lookup_insert. intros [= <-]. by left.
    - rewrite fn_lookup_insert_ne by done. by right. }
  constructor; cbn.
  - intros j tj. destruct (decide (j = i)) as [->|Hji].
    + rewrite lookup_insert_eq, fn_lookup_insert. intros [= <-].
      rewrite EG in Hok. by eapply prog_ok_change.
    + rewrite lookup_insert_ne, fn_lookup_insert_ne by done. apply (inv_ok _ _ HI).
  - intros j Hj. destruct (decide (j = i)) as [->|Hji]; [by rewrite lookup_insert_eq in Hj|].
    rewrite lookup_insert_ne in Hj by done. rewrite fn_lookup_insert_ne by done.
    by apply (inv_none _ _ HI).
  - intros j c [[-> ->]|[_ Hc]]%Hcase.
    + exists h, b. split_and!; [done|done|by left].
    + destruct (inv_used _ _ HI j c Hc) as (h' & b' & ? & ? & ?). exists h', b'.
      split_and!; [done|done|by right].
  - intros j1 j2 c [[-> ->]|[_ H1]]%Hcase [[-> E]|[_ H2]]%Hcase; try done.
    + by destruct (Hnew j2).
    + subst c. by destruct (Hnew j1).
    + by eapply (inv_uniq _ _ HI).
  - intros j tj c k Hj Hk Ho. destruct (decide (j = i)) as [->|Hji].
    { by rewrite fn_lookup_insert in Ho. }
    rewrite fn_lookup_insert_ne in Ho by done. rewrite lookup_insert_ne in Hj by done.
    by eapply (inv_owned _ _ HI).
  - intros j tj c k Hj Hk Ho. destruct (decide (j = i)) as [->|Hji].
    { by rewrite fn_lookup_insert in Ho. }
    rewrite fn_lookup_insert_ne in Ho by done. rewrite lookup_insert_ne in Hj by done.
    by eapply (inv_owning _ _ HI).
  - apply (inv_settled _ _ HI).
Qed.

Lemma inv_enter st G i t req f :
  Inv st G → threads st !! i = Some t → t_state t = Running (Call req f) →
  Inv (MkState (mem st) (<[i := set_state t (InHandler req f)]> (threads st)) (used st)
         (EvStart i (slot_of t) :: trace st)) (<[i := G i]> G).
Proof.
  intros HI Hi Ht. pose proof (inv_ok _ _ HI i t Hi) as Hok. unfold thread_ok in Hok.
  rewrite Ht in Hok. apply (inv_update st G i t); try done; auto.
  intros k Hk. split_and!; try done; cbn.
  - intros ch Ho. by eapply (inv_owned _ _ HI).
  - intros ch Ho. by eapply (inv_owning _ _ HI).
  - apply (inv_settled _ _ HI).
Qed.

Lemma inv_exit st G i t req f r :
  Inv st G → threads st !! i = Some t → t_state t = InHandler req f →
  ∃ G', Inv (MkState (mem st) (<[i := set_state t (Running (f r))]> (threads st)) (used st)
               (EvEnd i (slot_of t) r :: trace st)) G'.
Proof.
  intros HI Hi Ht. pose proof (inv_ok _ _ HI i t Hi) as Hok. unfold thread_ok in Hok.
  rewrite Ht in Hok. pose proof Hok as [Hg Hs]. cbn in Hg.
  destruct (G i) as [|ch|ch|ch| |] eqn:EG; try done.
  - pose proof (slot_keyed _ _ _ Hok ltac:(done)) as Hsk.
    destruct (inv_owned _ _ HI i t ch _ Hi Hsk ltac:(by rewrite EG)) as (e & He & Hh).
    pose proof (inv_owning _ _ HI i t ch _ Hi Hsk EG) as Hst.
    destruct (inv_used _ _ HI i ch ltac:(by rewrite EG)) as (h & b & Hch & _).
    exists (<[i := if effective r then Settling ch else Owning ch]> G).
    apply (inv_update st G i t); try done.
    + eapply prog_ok_change; [exact Hok|done|by destruct (effective r)|done].
    + rewrite EG. left. by destruct (effective r).
    + intros k Hk. cbn. split; [done|]. by rewrite bool_decide_false.
    + intros k Hk. rewrite Hsk in Hk. injection Hk as <-. cbn.
      rewrite bool_decide_true, Hst by done. rewrite orb_false_r. cbn. split_and!.
      * intros c Hc. exists e. split; [done|]. destruct (effective r); cbn in Hc; congruence.
      * intros c Hc. by destruct (effective r).
      * intros _. exists e. split; [done|]. apply claim_not_retry. rewrite Hh, Hch.
        apply claim_hash_of.
      * intros e' He' _ Hne. rewrite EG in Hne. cbn in Hne. congruence.
  - destruct (slot_of t) eqn:Esl; [done|]. exists (<[i := Unkeyed]> G).
    apply (inv_update st G i t); try done; [|by rewrite EG; left|].
    + split; [apply Hg|]. change (slot_of (set_state t (Running (f r)))) with (slot_of t).
      by rewrite Esl.
    + intros k Hk. congruence.
Qed.

Lemma inv_backend st G i t p m' p' :
  Inv st G → threads st !! i = Some t → t_state t = Running p → backend_step (mem st) p m' p' →
  ∃ G', Inv (MkState m' (<[i := set_state t (Running p')]> (threads st)) (used st) (trace st)) G'.
Proof.
  intros HI Hi Ht Hb. remember (mem st) as m eqn:Em.
  destruct Hb as [m sc k f|m sc k f e|m sc k en f|m sc k en f e m' Hm|m sc k old en f|m sc k old en f e m' Hm];
    subst m.
  1, 2: pose proof (inv_ok _ _ HI i t Hi) as Hok; unfold thread_ok in Hok; rewrite Ht in Hok;
    destruct Hok as [Hok Hs]; exists (<[i := G i]> G); apply inv_keep; auto; (split; [apply Hok|exact Hs]).
  - by apply (inv_put st G i t).
  - by apply (inv_put st G i t sc k en).
  - by apply (inv_replace st G i t).
  - by apply (inv_replace st G i t sc k old en).
Qed.

Lemma inv_step st G st' : Inv st G → step st st' → ∃ G', Inv st' G'.
Proof.
  intros HI Hst.
  destruct Hst as [st i ctx req Hi|st i t f now Hi Ht|st i t f b Hi Ht Hl Hb Hf|st i t f e Hi Ht
    |st i t p m' p' Hi Ht Hb|st i t req f Hi Ht|st i t req f r Hi Ht|st i t r Hi Ht|st now].
  - by eapply inv_spawn.
  - pose proof (inv_ok _ _ HI i t Hi) as Hok. unfold thread_ok in Hok. rewrite Ht in Hok.
    destruct Hok as [Hok Hs]. exists (<[i := G i]> G). apply inv_local; auto.
    split; [apply Hok|exact Hs].
  - by eapply inv_rand.
  - pose proof (inv_ok _ _ HI i t Hi) as Hok. unfold thread_ok in Hok. rewrite Ht in Hok.
    pose proof Hok as [(EG & Her & _) _]. exists (<[i := Over]> G). apply inv_local; auto.
    eapply prog_ok_change; [exact Hok|by rewrite EG|done|apply Her].
  - by eapply inv_backend.
  - exists (<[i := G i]> G). by apply inv_enter.
  - by eapply inv_exit.
  - pose proof (inv_ok _ _ HI i t Hi) as Hok. unfold thread_ok in Hok. rewrite Ht in Hok.
    destruct Hok as [Hok Hs]. exists (<[i := G i]> G). apply inv_local; auto.
  - exists G. by apply inv_sweep.
Qed.

Lemma inv_reachable st : reachable st → ∃ G, Inv st G.
Proof.
  intros H. apply (rtc_ind_r (R := step) (λ st, ∃ G, Inv st G) initial); [|..|exact H].
  - exists (λ _, Over). apply inv_initial.
  - intros y z _ Hyz [G HG]. by eapply inv_step.
Qed.

(** A request inside its handler owns its slot's claim. *)
Lemma in_handler_owns st G i t req f k :
  Inv st G → threads st !! i = Some t → t_state t = InHandler req f → slot_of t = Some k →
  ∃ ch, G i = Owning ch.
Proof.
  intros HI Hi Ht Hk. pose proof (inv_ok _ _ HI i t Hi) as Hok. unfold thread_ok in Hok.
  rewrite Ht in Hok. destruct Hok as [Hg Hs]. rewrite Hk in Hs. cbn in Hg.
  destruct (G i) as [|ch|ch|ch| |]; try done. by exists ch.
Qed.

End Conc.

(** ** Properties *)

(** A reachable state with a request inside its handler. *)
Definition sample_slot : string := Memory.scopeKey "principal:7:buyer-1" "0123456789abcdef".

Lemma sample_identified :
  identify sample_store sample_ctx sample_req
    = Ok (Some ("principal:7:buyer-1", "0123456789abcdef", "c0ffee")).
Proof. vm_compute. reflexivity. Qed.

Lemma sample_plain req h : st_Hash sample_store req = Ok h → plain_hash h.
Proof. intros [= <-]. split; vm_compute; reflexivity. Qed.

Lemma sample_in_handler : ∃ st t f,
  reachable sample_store st ∧ threads st !! 0 = Some t ∧ t_state t = InHandler sample_req f ∧
  slot_of sample_store t = Some sample_slot.
Proof.
  set (b := [0; 1; 2; 3; 4; 5; 6; 7; 8; 9; 10; 11; 12; 13; 14; 15]%Z).
  assert (Forall is_byte b) as Hb by (repeat constructor; unfold is_byte; lia).
  pose proof (Wrap_identified _ _ _ _ _ _ sample_identified eq_refl) as HW.
  eexists _, (MkThread sample_ctx sample_req _), _. split; [|split; [|split]].
  - eapply rtc_l; [apply (step_spawn _ _ 0 sample_ctx sample_req); reflexivity|]. rewrite HW.
    eapply rtc_l; [eapply (step_clock _ _ 0 _ _ 5%Z); reflexivity|].
    eapply rtc_l; [eapply (step_backend _ _ 0); [reflexivity|reflexivity|apply BS_get]|].
    eapply rtc_l; [eapply (step_rand _ _ 0 _ _ b); [reflexivity|reflexivity|reflexivity|exact Hb|apply not_elem_of_nil]|].
    eapply rtc_l; [eapply (step_backend _ _ 0); [reflexivity|reflexivity|apply BS_put]|].
    eapply rtc_l; [eapply (step_enter _ _ 0); reflexivity|].
    apply rtc_refl.
  - reflexivity.
  - reflexivity.
  - unfold slot_of, slot. cbn. rewrite sample_identified. reflexivity.
Qed.

(** C24: at most one handler runs for a (scope, key) pair at a time: in every
    reachable interleaving of requests, clock readings, sweeps and failing
    backend calls, two requests that are inside the handler for the same slot
    are the same request. *)
Theorem handlers_exclusive s st i j ti tj reqi reqj fi fj k :
  isClaimBackend (st_Backend s) = true → (∀ req h, st_Hash s req = Ok h → plain_hash h) →
  reachable s st →
  threads st !! i = Some ti → threads st !! j = Some tj →
  t_state ti = InHandler reqi fi → t_state tj = InHandler reqj fj →
  slot_of s ti = Some k → slot_of s tj = Some k → i = j.
Proof.
  intros Hc Hh Hr Hi Hj Hti Htj Hki Hkj. destruct (inv_reachable s Hc Hh st Hr) as [G HI].
  destruct (in_handler_owns s Hc Hh st G i ti reqi fi k HI Hi Hti Hki) as [ci Ei].
  destruct (in_handler_owns s Hc Hh st G j tj reqj fj k HI Hj Htj Hkj) as [cj Ej].
  destruct (inv_owned _ _ _ HI i ti ci k Hi Hki ltac:(by rewrite Ei)) as (e & He & Hhe).
  destruct (inv_owned _ _ _ HI j tj cj k Hj Hkj ltac:(by rewrite Ej)) as (e' & He' & Hhe').
  assert (ci = cj) as -> by congruence.
  apply (inv_uniq _ _ _ HI i j cj); by rewrite ?Ei, ?Ej.
Qed.

Lemma handlers_exclusive_witness :
  ∃ st t f, reachable sample_store st ∧ t_state t = InHandler sample_req f ∧
    ∀ j tj reqj fj, threads st !! j = Some tj → t_state tj = InHandler reqj fj →
      slot_of sample_store tj = Some sample_slot → 0 = j.
Proof.
  destruct sample_in_handler as (st & t & f & Hr & Hi & Ht & Hk).
  exists st, t, f. split; [exact Hr|]. split; [exact Ht|].
  intros j tj reqj fj Hj Htj Hkj.
  exact (handlers_exclusive sample_store st 0 j t tj sample_req reqj f fj sample_slot
    eq_refl sample_plain Hr Hi Hj Ht Htj Hk Hkj).
Defined.

(** C23: no effect is applied twice: once a run of the handler for a (scope,
    key) pair has succeeded or ended with an unknown outcome, no handler is
    running for that pair in any reachable state, until the sweeper has deleted
    the pair's entry. *)
Theorem no_second_effect s st i t req f k :
  isClaimBackend (st_Backend s) = true → (∀ req h, st_Hash s req = Ok h → plain_hash h) →
  reachable s st →
  threads st !! i = Some t → t_state t = InHandler req f → slot_of s t = Some k →
  settled (trace st) k = false.
Proof.
  intros Hc Hh Hr Hi Ht Hk. destruct (inv_reachable s Hc Hh st Hr) as [G HI].
  destruct (in_handler_owns s Hc Hh st G i t req f k HI Hi Ht Hk) as [ch E].
  by eapply (inv_owning _ _ _ HI).
Qed.

Lemma no_second_effect_witness :
  ∃ st t f, reachable sample_store st ∧ threads st !! 0 = Some t ∧
    t_state t = InHandler sample_req f ∧ settled (trace st) sample_slot = false.
Proof.
  destruct sample_in_handler as (st & t & f & Hr & Hi & Ht & Hk).
  exists st, t, f. split; [exact Hr|]. split; [exact Hi|]. split; [exact Ht|].
  exact (no_second_effect sample_store st 0 t sample_req f sample_slot eq_refl sample_plain
    Hr Hi Ht Hk).
Defined.
