(* ===== verification/Base64.v ===== *)
(** * Base64: Go's [encoding/base64] as the signing code uses it

    Decoding is the non-strict mode of [DecodeString]: CR and LF are skipped and
    the unused bits of a final group are ignored.  [b64UrlDecode] and the choice
    of an encoding by a signing profile are those of
    [src/adcp/v3/signing/jwk.go] and [contentdigest.go]. *)
From S2P Require Import Prelude GoStrings.
From stdpp Require Import options.

(** The two alphabets differ in their last two digits. *)
Definition b64_digit (url : bool) (n : Z) : ascii :=
  (if n <? 26 then byte (65 + n)
   else if n <? 52 then byte (71 + n)
   else if n <? 62 then byte (n - 4)
   else if n =? 62 then (if url then "-"%char else "+"%char)
   else (if url then "_"%char else "/"%char))%Z.

Definition b64_val (url : bool) (c : ascii) : option Z :=
  (if between 65 90 c then Some (code c - 65)
   else if between 97 122 c then Some (code c - 71)
   else if is_digit c then Some (code c + 4)
   else if beq c (if url then "-"%char else "+"%char) then Some 62
   else if beq c (if url then "_"%char else "/"%char) then Some 63
   else None)%Z.

Section Codec.
Variables url pad : bool.

Definition b64_pad (n : nat) : list ascii := if pad then repeat "="%char n else [].

Fixpoint b64_enc (l : list ascii) : list ascii :=
  let d n := b64_digit url n in
  match l with
  | a :: b :: c :: l' =>
      let x := code a in let y := code b in let z := code c in
      (d (x / 4) :: d (x mod 4 * 16 + y / 16) :: d (y mod 16 * 4 + z / 64) :: d (z mod 64) ::
      b64_enc l')%Z
  | [a; b] =>
      let x := code a in let y := code b in
      ([d (x / 4); d (x mod 4 * 16 + y / 16); d (y mod 16 * 4)] ++ b64_pad 1)%Z
  | [a] => let x := code a in ([d (x / 4); d (x mod 4 * 16)] ++ b64_pad 2)%Z
  | [] => []
  end.

Definition is_pad (c : ascii) : bool := pad && beq c "=".

Fixpoint b64_dec (l : list ascii) : option (list ascii) :=
  match l with
  | [] => Some []
  | a :: b :: c :: d :: l' =>
      va ← b64_val url a; vb ← b64_val url b;
      let x := byte (va * 4 + vb / 16) in
      if is_pad c then (if is_pad d && bool_decide (l' = []) then Some [x] else None) else
      vc ← b64_val url c;
      let y := byte (vb mod 16 * 16 + vc / 4) in
      if is_pad d then (if bool_decide (l' = []) then Some [x; y] else None) else
      vd ← b64_val url d;
      rest ← b64_dec l';
      Some (x :: y :: byte (vc mod 4 * 64 + vd) :: rest)
  | [a; b; c] =>
      if pad then None else
      va ← b64_val url a; vb ← b64_val url b; vc ← b64_val url c;
      Some [byte (va * 4 + vb / 16); byte (vb mod 16 * 16 + vc / 4)]
  | [a; b] =>
      if pad then None else
      va ← b64_val url a; vb ← b64_val url b; Some [byte (va * 4 + vb / 16)]
  | [a] => None
  end%Z.

Definition EncodeToString (s : string) : string := implode (b64_enc (explode s)).

Definition is_newline (c : ascii) : bool := (code c =? 10)%Z || (code c =? 13)%Z.

Definition DecodeString (s : string) : option string :=
  implode <$> b64_dec (filter (λ c, is_newline c = false) (explode s)).

End Codec.

(** [base64.StdEncoding], [base64.RawURLEncoding] and [base64.URLEncoding]. *)
Definition StdEncode : string → string := EncodeToString false true.
Definition StdDecode : string → option string := DecodeString false true.
Definition RawURLEncode : string → string := EncodeToString true false.
Definition RawURLDecode : string → option string := DecodeString true false.
Definition URLDecode : string → option string := DecodeString true true.

(** [b64UrlDecode]: padded when the length is a multiple of four. *)
Definition b64UrlDecode (s : string) : option string :=
  if (len s mod 4 =? 0)%nat then URLDecode s else RawURLDecode s.

Inductive BinaryEncoding := BinaryEncodingUnset | BinaryEncodingBase64URL | BinaryEncodingRFC8941.

#[export] Instance BinaryEncoding_eq_dec : EqDecision BinaryEncoding.
Proof. solve_decision. Defined.

Definition encodeBinary (value : string) (encoding : BinaryEncoding) : string :=
  match encoding with BinaryEncodingRFC8941 => StdEncode value | _ => RawURLEncode value end.

Definition decodeBinary (value : string) (encoding : BinaryEncoding) : option string :=
  match encoding with BinaryEncodingRFC8941 => StdDecode value | _ => b64UrlDecode value end.

(** ** Lemmas *)

(** Facts about the 64 digits, by computation over all of them. *)
Lemma b64_all (P : Z → bool) :
  forallb (λ k, P (Z.of_nat k)) (seq 0 64) = true → ∀ n, (0 ≤ n < 64)%Z → P n = true.
Proof.
  intros H n Hn. rewrite forallb_forall in H. specialize (H (Z.to_nat n)).
  rewrite Z2Nat.id in H by lia. apply H. apply in_seq. lia.
Qed.

Lemma b64_val_digit url n : (0 ≤ n < 64)%Z → b64_val url (b64_digit url n) = Some n.
Proof.
  intros Hn. enough (bool_decide (b64_val url (b64_digit url n) = Some n) = true) as H
    by by apply bool_decide_eq_true in H.
  revert n Hn. apply (b64_all (λ n, bool_decide (b64_val url (b64_digit url n) = Some n))).
  destruct url; vm_compute; reflexivity.
Qed.

Definition b64_char (c : ascii) : bool :=
  between 65 90 c || between 97 122 c || is_digit c || beq c "+" || beq c "/" || beq c "-" || beq c "_".

Lemma b64_digit_char url n : (0 ≤ n < 64)%Z → b64_char (b64_digit url n) = true.
Proof.
  revert n. apply (b64_all (λ n, b64_char (b64_digit url n))). destruct url; vm_compute; reflexivity.
Qed.

Lemma b64_digit_pad url pad n : (0 ≤ n < 64)%Z → is_pad pad (b64_digit url n) = false.
Proof.
  intros Hn. apply b64_digit_char with (url := url) in Hn. unfold is_pad. destruct pad; [|done].
  destruct (beq _ "=") eqn:E; [|done]. apply beq_eq in E. rewrite E in Hn. vm_compute in Hn. done.
Qed.

(** Induction three bytes at a time. *)
Lemma list_ind3 {A} (P : list A → Prop) :
  P [] → (∀ a, P [a]) → (∀ a b, P [a; b]) → (∀ a b c l, P l → P (a :: b :: c :: l)) → ∀ l, P l.
Proof.
  intros H0 H1 H2 H3 l.
  assert (P l ∧ (∀ a, P (a :: l)) ∧ (∀ a b, P (a :: b :: l))) as [H _]; [|done].
  induction l as [|x l (IH0 & IH1 & IH2)]; [auto|]. split_and!; auto.
Qed.

Ltac b64_arith :=
  repeat match goal with |- context [code ?c] =>
    lazymatch goal with H : (0 ≤ code c < 256)%Z |- _ => fail | _ => pose proof (code_range c) end end;
  repeat match goal with H : (0 ≤ code ?c < 256)%Z |- _ => revert H; generalize (code c); intros end;
  Z.to_euclidean_division_equations; lia.

Lemma byte_is c n : n = code c → byte n = c.
Proof. intros ->. apply byte_code. Qed.

Lemma b64_dec_enc url pad l : b64_dec url pad (b64_enc url pad l) = Some l.
Proof.
  induction l as [|a|a b|a b c l IH] using list_ind3; cbn [b64_enc].
  - done.
  - destruct pad; cbn; rewrite !b64_val_digit by b64_arith; cbn; do 2 f_equal; apply byte_is;
      b64_arith.
  - destruct pad; unfold b64_pad; cbn [repeat app b64_dec];
      rewrite !b64_val_digit by b64_arith; cbn [mbind option_bind].
    + rewrite b64_digit_pad by b64_arith. cbn.
      f_equal. f_equal; [|f_equal]; apply byte_is; b64_arith.
    + f_equal. f_equal; [|f_equal]; apply byte_is; b64_arith.
  - cbn [b64_dec]. rewrite !b64_val_digit, !b64_digit_pad by b64_arith.
    cbn [mbind option_bind]. rewrite IH. cbn [mbind option_bind].
    f_equal. f_equal; [|f_equal; [|f_equal]]; apply byte_is; b64_arith.
Qed.

(** The characters of an encoded value. *)
Lemma b64_enc_chars url pad l :
  Forall (λ c, b64_char c || is_pad pad c = true) (b64_enc url pad l).
Proof.
  assert (∀ n, (0 ≤ n < 64)%Z → b64_char (b64_digit url n) || is_pad pad (b64_digit url n) = true) as Hd.
  { intros n Hn. by rewrite b64_digit_char by done. }
  assert (∀ n, Forall (λ c, b64_char c || is_pad pad c = true) (b64_pad pad n)) as Hp.
  { intros n. unfold b64_pad. destruct pad; [|done]. induction n; cbn; by constructor. }
  induction l as [|a|a b|a b c l IH] using list_ind3; cbn [b64_enc]; [done|..];
    repeat first [apply Forall_cons; split; [apply Hd; b64_arith|]
                 |apply Forall_app; split|apply Forall_nil_2]; auto.
Qed.

Lemma b64_char_newline pad c : b64_char c || is_pad pad c = true → is_newline c = false.
Proof.
  intros H. unfold is_newline. destruct (Z.eqb_spec (code c) 10) as [E|].
  { assert (c = byte 10) as -> by (apply code_inj; rewrite E; done). by destruct pad. }
  destruct (Z.eqb_spec (code c) 13) as [E|]; [|done].
  assert (c = byte 13) as -> by (apply code_inj; rewrite E; done). by destruct pad.
Qed.

Lemma DecodeString_Encode url pad s : DecodeString url pad (EncodeToString url pad s) = Some s.
Proof.
  unfold DecodeString, EncodeToString. rewrite explode_implode.
  assert (filter (λ c, is_newline c = false) (b64_enc url pad (explode s))
          = b64_enc url pad (explode s)) as ->.
  { pose proof (b64_enc_chars url pad (explode s)) as H.
    induction H as [|c l Hc Hl IH]; [done|].
    rewrite filter_cons_True by (by eapply b64_char_newline). by rewrite IH. }
  rewrite b64_dec_enc. cbn. by rewrite implode_explode.
Qed.

Lemma b64_enc_len_raw url l : length (b64_enc url false l) mod 4 = 0 →
  b64_enc url false l = b64_enc url true l.
Proof.
  induction l as [|a|a b|a b c l IH] using list_ind3; cbn [b64_enc length app]; try done.
  intros H. rewrite IH; [done|]. revert H. generalize (length (b64_enc url false l)).
  intros n H. change (S (S (S (S n)))) with (4 + n) in H.
  rewrite (Nat.add_comm 4), <- Nat.Div0.add_mod_idemp_r in H.
  change (4 mod 4) with 0 in H. by rewrite Nat.add_0_r in H.
Qed.

(** What one side encodes under an encoding, the other decodes under it. *)
Lemma decodeBinary_encode s e : decodeBinary (encodeBinary s e) e = Some s.
Proof.
  destruct e; cbn; try apply DecodeString_Encode; unfold b64UrlDecode;
    (destruct (Nat.eqb_spec (len (RawURLEncode s) mod 4) 0) as [E|_]; [|apply DecodeString_Encode]);
    unfold URLDecode, RawURLEncode, EncodeToString in *;
    rewrite <- len_explode, explode_implode in E; rewrite b64_enc_len_raw by done;
    apply (DecodeString_Encode true true).
Qed.
