(* ===== verification/NetUrl.v ===== *)
(** * NetUrl: the URLs of Go's [net/url]

    [url.Parse], [URL.String], [URL.Hostname] and [URL.Port], with the
    percent-encoding of each part of a URL.  [Path] is the decoded path;
    [RawPath] keeps the path as written only where it differs from the default
    encoding of [Path]. *)
From S2P Require Import Prelude GoStrings.
From stdpp Require Import options.

(** ** Percent-encoding *)

Inductive encoding := encodePath | encodeUserPassword | encodeHost | encodeZone | encodeFragment.

Definition is_alnum (c : ascii) : bool := between 97 122 c || between 65 90 c || is_digit c.

Definition host_mode (m : encoding) : bool :=
  match m with encodeHost | encodeZone => true | _ => false end.

Definition one_of (l : list ascii) (c : ascii) : bool := existsb (beq c) l.

Definition shouldEscape (c : ascii) (m : encoding) : bool :=
  if is_alnum c then false else
  if host_mode m && (one_of ["!"; "$"; "&"; "'"; "("; ")"; "*"; "+"; ","; ";"; "="; ":"; "["; "]"; "<"; ">"]%char c
                     || beq c quote) then false else
  if one_of ["-"; "_"; "."; "~"]%char c then false else
  if one_of ["$"; "&"; "+"; ","; "/"; ":"; ";"; "="; "?"; "@"]%char c then
    match m with
    | encodePath => beq c "?"
    | encodeUserPassword => one_of ["@"; "/"; "?"; ":"]%char c
    | encodeFragment => false
    | encodeHost | encodeZone => true
    end
  else if match m with encodeFragment => one_of ["!"; "("; ")"; "*"]%char c | _ => false end then false
  else true.

Definition unhex (c : ascii) : option Z :=
  if is_digit c then Some (code c - 48)%Z
  else if between 97 102 c then Some (code c - 87)%Z
  else if between 65 70 c then Some (code c - 55)%Z
  else None.

Definition hex_digit (n : Z) : ascii := if (n <? 10)%Z then byte (48 + n) else byte (55 + n).

(** [unescape], per mode. *)
Fixpoint unescape (m : encoding) (s : string) : option string :=
  match s with
  | "" => Some ""
  | String c s1 =>
      if beq c "%" then
        match s1 with
        | String a (String b s2) =>
            h ← unhex a; l ← unhex b;
            let v := byte (h * 16 + l) in
            let pct := ((h =? 2) && (l =? 5))%Z in
            let bad :=
              match m with
              | encodeHost => (h <? 8)%Z && negb pct
              | encodeZone => negb pct && negb (beq v " ") && shouldEscape v encodeHost
              | _ => false
              end in
            if bad then None else rest ← unescape m s2; Some (String v rest)
        | _ => None
        end
      else if host_mode m && (code c <? 128)%Z && shouldEscape c m then None
      else rest ← unescape m s1; Some (String c rest)
  end.

Fixpoint escape (m : encoding) (s : string) : string :=
  match s with
  | "" => ""
  | String c s' =>
      if shouldEscape c m
      then String "%" (String (hex_digit (code c / 16)) (String (hex_digit (code c mod 16)) (escape m s')))
      else String c (escape m s')
  end.

Definition validEncoded (m : encoding) (s : string) : bool :=
  all_bytes (λ c, one_of ["!"; "$"; "&"; "'"; "("; ")"; "*"; "+"; ","; ";"; "="; ":"; "@"; "["; "]"; "%"]%char c
                  || negb (shouldEscape c m)) s.

(** ** The URL *)

(** [Userinfo]: a user name and, if set, a password. *)
Record URL := MkURL {
  URLScheme : string;
  URLOpaque : string;
  URLUser : option (string * option string);
  URLHost : string;
  URLPath : string;
  RawPath : string;
  OmitHost : bool;
  ForceQuery : bool;
  RawQuery : string;
  Fragment : string;
  RawFragment : string;
}.

Definition validOptionalPort (port : string) : bool :=
  match port with
  | "" => true
  | String c ds => beq c ":" && all_bytes is_digit ds
  end.

(** [getScheme]: [None] is an error. *)
Fixpoint getScheme_from (first : bool) (acc s : string) : option (option (string * string)) :=
  match s with
  | "" => Some None
  | String c s' =>
      if between 97 122 c || between 65 90 c then getScheme_from false (acc +:+ String c "") s'
      else if is_digit c || one_of ["+"; "-"; "."]%char c then
        if first then Some None else getScheme_from false (acc +:+ String c "") s'
      else if beq c ":" then if first then None else Some (Some (acc, s'))
      else Some None
  end.

(** [Index] of a substring. *)
Fixpoint sindex (p s : string) : option nat :=
  if HasPrefix s p then Some 0 else
  match s with "" => None | String _ s' => i ← sindex p s'; Some (S i) end.

Definition validUserinfo (s : string) : bool :=
  all_bytes (λ c, is_alnum c || one_of ["-"; "."; "_"; ":"; "~"; "!"; "$"; "&"; "'"; "("; ")"; "*"; "+";
                                         ","; ";"; "="; "%"; "@"]%char c) s.

Definition parseHost (host : string) : option string :=
  if HasPrefix host "[" then
    i ← LastIndexByte host "]";
    if negb (validOptionalPort (sdrop (S i) host)) then None else
    match sindex "%25" (stake i host) with
    | Some z =>
        h1 ← unescape encodeHost (stake z host);
        h2 ← unescape encodeZone (stake (i - z) (sdrop z host));
        h3 ← unescape encodeHost (sdrop i host);
        Some (h1 +:+ h2 +:+ h3)
    | None => unescape encodeHost host
    end
  else
    match LastIndexByte host ":" with
    | Some i => if validOptionalPort (sdrop i host) then unescape encodeHost host else None
    | None => unescape encodeHost host
    end.

Definition parseAuthority (authority : string) : option (option (string * option string) * string) :=
  match LastIndexByte authority "@" with
  | None => h ← parseHost authority; Some (None, h)
  | Some i =>
      h ← parseHost (sdrop (S i) authority);
      let userinfo := stake i authority in
      if negb (validUserinfo userinfo) then None else
      match Cut userinfo ":" with
      | (u, _, false) => u ← unescape encodeUserPassword u; Some (Some (u, None), h)
      | (u, p, true) =>
          u ← unescape encodeUserPassword u; p ← unescape encodeUserPassword p;
          Some (Some (u, Some p), h)
      end
  end.

(** [setPath] and [setFragment]: the decoded text, and the raw text where the
    default encoding does not give it back. *)
Definition set_encoded (m : encoding) (p : string) : option (string * string) :=
  path ← unescape m p;
  Some (path, if bool_decide (p = escape m path) then "" else p).

(** [EscapedPath] and [EscapedFragment]. *)
Definition escaped (m : encoding) (dec raw : string) : string :=
  if negb (bool_decide (raw = "")) && validEncoded m raw && bool_decide (unescape m raw = Some dec)
  then raw
  else if match m with encodePath => bool_decide (dec = "*") | _ => false end then "*" else escape m dec.

(** [parse], of a URL without its fragment. *)
Definition parse (rawURL : string) : option URL :=
  if negb (all_bytes (λ c, (32 <=? code c)%Z && negb (code c =? 127)%Z) rawURL) then None else
  if bool_decide (rawURL = "*") then Some (MkURL "" "" None "" "*" "" false false "" "" "") else
  sch ← getScheme_from true "" rawURL;
  let '(scheme, rest) := match sch with Some (s, r) => (lower s, r) | None => ("", rawURL) end in
  let '(force, rest, query) :=
    match Cut rest "?" with
    | (r, "", true) => (true, r, "")
    | (r, q, _) => (false, r, q)
    end in
  if negb (HasPrefix rest "/") && negb (bool_decide (scheme = "")) then
    Some (MkURL scheme rest None "" "" "" false force query "" "")
  else if negb (HasPrefix rest "/") && contains_byte (Cut rest "/").1.1 ":" then None else
  '(user, host, omit, rest) ←
    (if (negb (bool_decide (scheme = "")) || negb (HasPrefix rest "///")) && HasPrefix rest "//" then
       let authority := sdrop 2 rest in
       let i := default (len authority) (IndexByte authority "/") in
       '(user, host) ← parseAuthority (stake i authority);
       Some (user, host, false, sdrop i authority)
     else Some (None, "", negb (bool_decide (scheme = "")) && HasPrefix rest "/", rest));
  '(path, raw) ← set_encoded encodePath rest;
  Some (MkURL scheme "" user host path raw omit force query "" "").

(** [url.Parse]. *)
Definition ParseURL (rawURL : string) : option URL :=
  let '(u, frag, _) := Cut rawURL "#" in
  url ← parse u;
  if bool_decide (frag = "") then Some url else
  '(f, raw) ← set_encoded encodeFragment frag;
  Some (MkURL (URLScheme url) (URLOpaque url) (URLUser url) (URLHost url) (URLPath url) (RawPath url)
          (OmitHost url) (ForceQuery url) (RawQuery url) f raw).

Definition user_string (u : string * option string) : string :=
  escape encodeUserPassword u.1 +:+
  match u.2 with Some p => ":" +:+ escape encodeUserPassword p | None => "" end.

(** [URL.String]. *)
Definition URLString (u : URL) : string :=
  let pre := if bool_decide (URLScheme u = "") then "" else URLScheme u +:+ ":" in
  let user := match URLUser u with Some _ => true | None => false end in
  let nohost := bool_decide (URLHost u = "") in
  let body :=
    if negb (bool_decide (URLOpaque u = "")) then URLOpaque u else
    let auth :=
      if (negb (bool_decide (URLScheme u = "")) || negb nohost || user) &&
         negb (OmitHost u && nohost && negb user)
      then (if negb nohost || negb (bool_decide (URLPath u = "")) || user then "//" else "") +:+
           match URLUser u with Some ui => user_string ui +:+ "@" | None => "" end +:+
           (if nohost then "" else escape encodeHost (URLHost u))
      else "" in
    let path := escaped encodePath (URLPath u) (RawPath u) in
    auth +:+
    (if negb (bool_decide (path = "")) && negb (HasPrefix path "/") && negb nohost then "/" else "") +:+
    (if bool_decide (pre +:+ auth = "") && (nohost || HasPrefix path "/" || bool_decide (path = "")) &&
        contains_byte (Cut path "/").1.1 ":" then "./" else "") +:+ path in
  pre +:+ body +:+
  (if ForceQuery u || negb (bool_decide (RawQuery u = "")) then "?" +:+ RawQuery u else "") +:+
  (if bool_decide (Fragment u = "") then ""
   else "#" +:+ escaped encodeFragment (Fragment u) (RawFragment u)).

(** [splitHostPort] of [net/url]. *)
Definition split_host_port (hostPort : string) : string * string :=
  let '(host, port) :=
    match LastIndexByte hostPort ":" with
    | Some i => if validOptionalPort (sdrop i hostPort) then (stake i hostPort, sdrop (S i) hostPort)
                else (hostPort, "")
    | None => (hostPort, "")
    end in
  (if HasPrefix host "[" && bool_decide (sdrop (len host - 1) host = "]")
   then stake (len host - 2) (sdrop 1 host) else host, port).

Definition Hostname (u : URL) : string := (split_host_port (URLHost u)).1.
Definition Port (u : URL) : string := (split_host_port (URLHost u)).2.
Definition IsAbs (u : URL) : bool := negb (bool_decide (URLScheme u = "")).

Definition WithHost (u : URL) (h : string) : URL :=
  MkURL (URLScheme u) (URLOpaque u) (URLUser u) h (URLPath u) (RawPath u) (OmitHost u) (ForceQuery u)
    (RawQuery u) (Fragment u) (RawFragment u).
Definition WithScheme (u : URL) (s : string) : URL :=
  MkURL s (URLOpaque u) (URLUser u) (URLHost u) (URLPath u) (RawPath u) (OmitHost u) (ForceQuery u)
    (RawQuery u) (Fragment u) (RawFragment u).
