(* ===== verification/UrlCanon.v ===== *)
(** * UrlCanon: canonical URL identifiers

    [src/urlcanon/urlcanon.go]: the normal form under which two URLs are
    compared, which is also the [@target-uri] of a signature. *)
From S2P Require Import Prelude GoStrings Unicode NetUrl.
From stdpp Require Import options.

Definition IsDefaultPort (scheme port : string) : bool :=
  (bool_decide (scheme = "https") && bool_decide (port = "443")) ||
  (bool_decide (scheme = "http") && bool_decide (port = "80")).

Definition BracketIfIPv6 (host : string) : string :=
  if contains_byte host ":" then "[" +:+ host +:+ "]" else host.

(** ** Dot segments *)

Definition truncateLastSegment (out : string) : string :=
  match LastIndexByte out "/" with Some i => stake i out | None => "" end.

(** One round of the loop: the output and the input left. *)
Definition dot_step (out rest : string) : string * string :=
  if HasPrefix rest "../" then (out, sdrop 3 rest) else
  if HasPrefix rest "./" then (out, sdrop 2 rest) else
  if HasPrefix rest "/./" then (out, "/" +:+ sdrop 3 rest) else
  if bool_decide (rest = "/.") then (out, "/") else
  if HasPrefix rest "/../" then (truncateLastSegment out, "/" +:+ sdrop 4 rest) else
  if bool_decide (rest = "/..") then (truncateLastSegment out, "/") else
  if bool_decide (rest = ".") || bool_decide (rest = "..") then (out, "") else
  let e := match IndexByte (sdrop 1 rest) "/" with Some i => S i | None => len rest end in
  (out +:+ stake e rest, sdrop e rest).

Fixpoint dot_loop (fuel : nat) (out rest : string) : string :=
  match fuel with
  | O => out
  | S fuel =>
      if bool_decide (rest = "") then out else
      let '(out, rest) := dot_step out rest in dot_loop fuel out rest
  end.

(** Each round shortens the input, so [len input] rounds are enough. *)
Definition removeDotSegments (input : string) : string := dot_loop (len input) "" input.

(** ** Percent-encoding *)

Definition isHex (c : ascii) : bool := is_digit c || between 97 102 c || between 65 70 c.

Definition hexValue (c : ascii) : Z :=
  if is_digit c then (code c - 48)%Z
  else if between 97 102 c then (code c - 97 + 10)%Z
  else if between 65 70 c then (code c - 65 + 10)%Z
  else 0%Z.

Definition upperHex (c : ascii) : ascii :=
  if between 97 102 c then byte (code c - 97 + 65) else c.

Definition isUnreserved (c : ascii) : bool :=
  between 65 90 c || between 97 122 c || is_digit c ||
  beq c "-" || beq c "." || beq c "_" || beq c "~".

Fixpoint normalizePercentEncoding (s : string) : string :=
  match s with
  | "" => ""
  | String c s1 =>
      match s1 with
      | String a (String b s2) =>
          if beq c "%" && isHex a && isHex b then
            let octet := byte (Z.lor (Z.shiftl (hexValue a) 4) (hexValue b)) in
            if isUnreserved octet then String octet (normalizePercentEncoding s2)
            else String "%" (String (upperHex a) (String (upperHex b) (normalizePercentEncoding s2)))
          else String c (normalizePercentEncoding s1)
      | _ => String c (normalizePercentEncoding s1)
      end
  end.

(** ** The canonical form *)

Inductive canon_error := ParseFailed | SchemeNotSupported (scheme : string) | NonASCIIHost (host : string).

Definition validateASCIIHost (host : string) : result canon_error unit :=
  guard_err (all_bytes (λ c, (code c <? 128)%Z) host) (NonASCIIHost host).

(** The path part: [RawPath] if it is set, otherwise [Path]. *)
Definition canonical_path (u : URL) : string :=
  let pathRaw := if bool_decide (RawPath u = "") then URLPath u else RawPath u in
  let p := normalizePercentEncoding (removeDotSegments pathRaw) in
  if bool_decide (p = "") then "/" else p.

Section Canon.
Context `{RT : Runtime}.

Definition Canonicalize (rawURL : string) : result canon_error string :=
  u ← opt_err ParseFailed (ParseURL rawURL);
  let scheme := ToLower (URLScheme u) in
  if negb (bool_decide (scheme = "http")) && negb (bool_decide (scheme = "https"))
  then Err (SchemeNotSupported (URLScheme u)) else
  let host := Hostname u in
  _ ← validateASCIIHost host;
  let host := ToLower host in
  let port := Port u in
  let authority := BracketIfIPv6 host in
  let authority := if negb (bool_decide (port = "")) && negb (IsDefaultPort scheme port)
                   then authority +:+ ":" +:+ port else authority in
  let canonical := scheme +:+ "://" +:+ authority +:+ canonical_path u in
  Ok (if negb (bool_decide (RawQuery u = "")) then canonical +:+ "?" +:+ RawQuery u else canonical).

End Canon.

(** ** Dot segments: the reference *)

(** RFC 3986, 5.2.4 on a list of segments: [stack] holds the segments kept so
    far, the last first. *)
Fixpoint resolve (stack segs : list string) : list string :=
  match segs with
  | [] => reverse stack
  | s :: ss =>
      if bool_decide (s = ".") then
        match ss with [] => reverse ("" :: stack) | _ => resolve stack ss end
      else if bool_decide (s = "..") then
        match ss with [] => reverse ("" :: tail stack) | _ => resolve (tail stack) ss end
      else resolve (s :: stack) ss
  end.

(** The absolute path of the segments. *)
Fixpoint join_abs (segs : list string) : string :=
  match segs with [] => "" | s :: ss => String "/" (s +:+ join_abs ss) end.

Definition segment (s : string) : Prop := contains_byte s "/" = false.

Lemma join_abs_app l k : join_abs (l ++ k) = join_abs l +:+ join_abs k.
Proof. induction l as [|s l IH]; [done|]. cbn. by rewrite IH, sapp_cons, sapp_assoc. Qed.

(** [truncateLastSegment] pops the stack. *)
Lemma truncate_pop stack :
  Forall segment stack → truncateLastSegment (join_abs (reverse stack)) = join_abs (reverse (tail stack)).
Proof.
  intros Hs. unfold truncateLastSegment. destruct stack as [|s stack]; [done|].
  apply Forall_cons in Hs as [Hs _]. rewrite reverse_cons, join_abs_app. cbn [join_abs tail].
  rewrite sapp_nil_r, LastIndexByte_app by done. by rewrite stake_app.
Qed.

(** What follows a segment in a path. *)
Definition path_tail (t : string) : Prop := t = "" ∨ ∃ u, t = String "/" u.

Lemma join_abs_tail ss : path_tail (join_abs ss).
Proof. destruct ss; [by left|right; eexists; reflexivity]. Qed.

Lemma segment_index s t :
  segment s → path_tail t → IndexByte (s +:+ t) "/" = if bool_decide (t = "") then None else Some (len s).
Proof.
  intros Hs [->|[u ->]].
  - rewrite sapp_nil_r. by apply IndexByte_None.
  - by rewrite IndexByte_app.
Qed.

Lemma segment_prefix s t p :
  segment s → segment p → path_tail t → HasPrefix (s +:+ t) (p +:+ "/") = true → s = p.
Proof.
  intros Hs Hp Ht (z & Hz)%HasPrefix_true. rewrite sapp_assoc in Hz. change ("/" +:+ z) with (String "/" z) in Hz.
  pose proof (segment_index s t Hs Ht) as Hi. rewrite Hz, IndexByte_app in Hi by done.
  destruct (bool_decide _); [done|]. injection Hi as Hi. by apply sapp_inj_len in Hz as [-> _].
Qed.

Lemma segment_eq s t p : segment s → segment p → path_tail t → s +:+ t = p → s = p.
Proof.
  intros Hs Hp [->|[u ->]] H; [by rewrite sapp_nil_r in H|].
  pose proof (IndexByte_app s u "/" Hs) as Hi. rewrite H in Hi.
  apply (proj2 (IndexByte_None p "/")) in Hp. congruence.
Qed.

(** A segment that is not a dot segment is moved to the output. *)
Lemma dot_step_other out s ss :
  segment s → s ≠ "." → s ≠ ".." →
  dot_step out (join_abs (s :: ss)) = (out +:+ String "/" s, join_abs ss).
Proof.
  intros Hs H1 H2. cbn [join_abs]. pose proof (join_abs_tail ss) as Ht. set (t := join_abs ss) in *.
  assert (∀ p, HasPrefix (String "/" (s +:+ t)) (String "/" p) = HasPrefix (s +:+ t) p) as Hsl by done.
  unfold dot_step.
  change (HasPrefix (String "/" (s +:+ t)) "../") with false.
  change (HasPrefix (String "/" (s +:+ t)) "./") with false.
  rewrite !Hsl. cbv iota.
  destruct (HasPrefix (s +:+ t) "./") eqn:P1; [by apply (segment_prefix s t ".") in P1|].
  rewrite (bool_decide_false (String "/" (s +:+ t) = "/."))
    by (intros [= E]; by apply (segment_eq s t ".") in E).
  destruct (HasPrefix (s +:+ t) "../") eqn:P2; [by apply (segment_prefix s t "..") in P2|].
  rewrite (bool_decide_false (String "/" (s +:+ t) = "/.."))
    by (intros [= E]; by apply (segment_eq s t "..") in E).
  rewrite !bool_decide_false by done. cbn [orb]. cbv iota.
  change (sdrop 1 (String "/" (s +:+ t))) with (s +:+ t). rewrite segment_index by done.
  case_bool_decide as Et; cbv zeta iota.
  - rewrite Et, sapp_nil_r. change (String "/" s) with (String "/" s) at 2.
    pose proof (stake_app (String "/" s) "") as E1. pose proof (sdrop_app (String "/" s) "") as E2.
    rewrite sapp_nil_r in E1, E2. by rewrite E1, E2.
  - cbn [stake sdrop]. by rewrite stake_app, sdrop_app.
Qed.

Lemma dot_step_dot out ss : dot_step out (join_abs ("." :: ss)) =
  (out, match ss with [] => "/" | _ => join_abs ss end).
Proof.
  destruct ss as [|s ss]; [done|].
  change (join_abs ("." :: s :: ss)) with ("/./" +:+ (s +:+ join_abs ss)). unfold dot_step.
  change (HasPrefix ("/./" +:+ (s +:+ join_abs ss)) "../") with false.
  change (HasPrefix ("/./" +:+ (s +:+ join_abs ss)) "./") with false. by rewrite HasPrefix_app.
Qed.

Lemma dot_step_dotdot out ss : dot_step out (join_abs (".." :: ss)) =
  (truncateLastSegment out, match ss with [] => "/" | _ => join_abs ss end).
Proof.
  destruct ss as [|s ss]; [done|].
  change (join_abs (".." :: s :: ss)) with ("/../" +:+ (s +:+ join_abs ss)). unfold dot_step.
  set (t := s +:+ join_abs ss).
  change (HasPrefix ("/../" +:+ t) "../") with false.
  change (HasPrefix ("/../" +:+ t) "./") with false.
  change (HasPrefix ("/../" +:+ t) "/./") with false.
  rewrite bool_decide_false by done. by rewrite HasPrefix_app.
Qed.

Lemma dot_loop_done fuel out : dot_loop fuel out "" = out.
Proof. by destruct fuel. Qed.

(** The loop is the reference. *)
Lemma dot_loop_resolve fuel stack segs :
  Forall segment stack → Forall segment segs → len (join_abs segs) ≤ fuel →
  dot_loop fuel (join_abs (reverse stack)) (join_abs segs) = join_abs (resolve stack segs).
Proof.
  revert fuel stack. induction segs as [|s ss IH]; intros fuel stack Hst Hss Hf.
  { apply dot_loop_done. }
  apply Forall_cons in Hss as [Hs Hss].
  cbn [join_abs] in Hf. rewrite len_cons, len_app in Hf. destruct fuel as [|fuel]; [lia|].
  cbn [dot_loop]. rewrite bool_decide_false by done. cbn [resolve].
  assert (∀ out f, 1 ≤ f → dot_loop f out "/" = out +:+ "/") as Hslash.
  { intros out [|f] Hf1; [lia|]. cbn [dot_loop]. rewrite bool_decide_false by done.
    change (dot_step out "/") with (out +:+ "/", ""). apply dot_loop_done. }
  case_bool_decide as H1; [|case_bool_decide as H2].
  - subst s. rewrite dot_step_dot. change (len ".") with 1 in Hf. destruct ss as [|s2 ss].
    + rewrite Hslash by lia. by rewrite reverse_cons, join_abs_app.
    + apply IH; [done..|lia].
  - subst s. rewrite dot_step_dotdot, truncate_pop by done. change (len "..") with 2 in Hf.
    assert (Forall segment (tail stack)) by (destruct stack; [done|by inversion Hst]).
    destruct ss as [|s2 ss].
    + rewrite Hslash by lia. by rewrite reverse_cons, join_abs_app.
    + apply IH; [done..|lia].
  - rewrite dot_step_other by done.
    assert (join_abs (reverse stack) +:+ String "/" s = join_abs (reverse (s :: stack))) as ->.
    { rewrite reverse_cons, join_abs_app. cbn. by rewrite sapp_nil_r. }
    apply IH; [by constructor|done|lia].
Qed.

Definition plain (s : string) : Prop := s ≠ "." ∧ s ≠ "..".

(** What is kept is a segment other than a dot segment. *)
Lemma resolve_plain stack segs :
  Forall plain stack → Forall plain (resolve stack segs).
Proof.
  revert stack. induction segs as [|s ss IH]; intros stack Hst; cbn [resolve].
  { by apply Forall_reverse. }
  assert (Forall plain (tail stack)) by (destruct stack; [done|by inversion Hst]).
  case_bool_decide as H1; [|case_bool_decide as H2].
  - destruct ss; [|by apply IH]. apply Forall_reverse. by constructor.
  - destruct ss; [|by apply IH]. apply Forall_reverse. by constructor.
  - apply IH. by constructor.
Qed.

Lemma resolve_plain_id stack segs :
  Forall plain segs → resolve stack segs = reverse stack ++ segs.
Proof.
  intros Hs. revert stack. induction Hs as [|s ss [H1 H2] Hss IH]; intros stack; cbn [resolve].
  - by rewrite app_nil_r.
  - rewrite !bool_decide_false by done. rewrite IH, reverse_cons. by rewrite <- app_assoc.
Qed.

Lemma resolve_segments stack segs :
  Forall segment stack → Forall segment segs → Forall segment (resolve stack segs).
Proof.
  intros Hst Hss. revert stack Hst. induction Hss as [|s ss Hs Hss IH]; intros stack Hst; cbn [resolve].
  { by apply Forall_reverse. }
  assert (Forall segment (tail stack)) by (destruct stack; [done|by inversion Hst]).
  case_bool_decide; [|case_bool_decide].
  - destruct ss; [|by apply IH]. apply Forall_reverse. by constructor.
  - destruct ss; [|by apply IH]. apply Forall_reverse. by constructor.
  - apply IH. by constructor.
Qed.

Lemma Split_segments p : Forall segment (Split p "/") ∧ String "/" p = join_abs (Split p "/").
Proof.
  induction p as [|c p [IH1 IH2]]; [by repeat constructor|]. cbn [Split].
  destruct (beq c "/") eqn:E.
  - apply beq_eq in E as ->. split; [by constructor|]. cbn [join_abs]. by rewrite <- IH2.
  - destruct (Split p "/") as [|s ss] eqn:Es; [done|]. apply Forall_cons in IH1 as [Hs Hss]. split.
    + constructor; [|done]. unfold segment in *. rewrite contains_byte_cons, E. done.
    + cbn [join_abs] in IH2 |- *. injection IH2 as ->. by rewrite sapp_cons.
Qed.

Lemma removeDotSegments_join segs :
  Forall segment segs → removeDotSegments (join_abs segs) = join_abs (resolve [] segs).
Proof. intros Hs. apply (dot_loop_resolve _ [] segs); [done|done|lia]. Qed.

Lemma removeDotSegments_abs p :
  removeDotSegments (String "/" p) = join_abs (resolve [] (Split p "/")).
Proof. destruct (Split_segments p) as [Hs ->]. by apply removeDotSegments_join. Qed.

(** ** Percent-encoding: lemmas *)

Lemma unhex_isHex c v : unhex c = Some v → isHex c = true ∧ hexValue c = v ∧ (0 ≤ v < 16)%Z.
Proof.
  unfold unhex, isHex, hexValue. destruct (is_digit c) eqn:E1.
  { intros [= <-]. unfold is_digit, between in E1. bool_prop. split; [done|]. lia. }
  destruct (between 97 102 c) eqn:E2.
  { intros [= <-]. unfold between in E2. bool_prop. split; [done|]. lia. }
  destruct (between 65 70 c) eqn:E3; [|done].
  intros [= <-]. unfold between in E3. bool_prop. split; [done|]. lia.
Qed.

Lemma upperHex_hex c : isHex c = true →
  isHex (upperHex c) = true ∧ unhex (upperHex c) = unhex c ∧ upperHex (upperHex c) = upperHex c ∧
  hexValue (upperHex c) = hexValue c.
Proof.
  destruct (between 97 102 c) eqn:E; [|unfold upperHex; rewrite E; by rewrite E].
  assert (∀ x, (97 ≤ x ≤ 102)%Z → c = byte x →
    isHex (upperHex c) = true ∧ unhex (upperHex c) = unhex c ∧ upperHex (upperHex c) = upperHex c ∧
    hexValue (upperHex c) = hexValue c) as H.
  { intros x Hx ->. assert (x = 97 ∨ x = 98 ∨ x = 99 ∨ x = 100 ∨ x = 101 ∨ x = 102)%Z as Hc by lia.
    destruct Hc as [->|[->|[->|[->|[->| ->]]]]]; vm_compute; done. }
  intros _. unfold between in E. bool_prop. apply (H (code c)); [lia|by rewrite byte_code].
Qed.

Lemma octet_value h l : (0 ≤ h < 16)%Z → (0 ≤ l < 16)%Z → Z.lor (Z.shiftl h 4) l = (h * 16 + l)%Z.
Proof.
  intros Hh Hl. rewrite Z.shiftl_mul_pow2 by lia. change (2 ^ 4)%Z with 16%Z.
  pose proof (Z.add_lor_land (h * 16) l) as Hadd.
  assert (Z.land (h * 16) l = 0)%Z as Hz; [|lia]. clear Hadd. apply Z.bits_inj'. intros n Hn.
  rewrite Z.land_spec, Z.bits_0. change 16%Z with (2 ^ 4)%Z.
  destruct (Z.lt_ge_cases n 4).
  - by rewrite Z.mul_pow2_bits_low by lia.
  - rewrite andb_comm. rewrite Z.bits_above_log2; [done|lia|].
    destruct (decide (l = 0)%Z) as [->|]; [cbn; lia|].
    apply Z.log2_lt_pow2; [lia|]. apply Z.lt_le_trans with (2 ^ 4)%Z; [lia|]. apply Z.pow_le_mono_r; lia.
Qed.

Lemma normalize_plain c s :
  c ≠ "%"%char → normalizePercentEncoding (String c s) = String c (normalizePercentEncoding s).
Proof.
  intros Hc. apply beq_neq in Hc. cbn [normalizePercentEncoding]. rewrite Hc.
  destruct s as [|a [|b s]]; done.
Qed.

Lemma normalize_hex a b s :
  isHex a = true → isHex b = true →
  normalizePercentEncoding (String "%" (String a (String b s))) =
    let octet := byte (Z.lor (Z.shiftl (hexValue a) 4) (hexValue b)) in
    if isUnreserved octet then String octet (normalizePercentEncoding s)
    else String "%" (String (upperHex a) (String (upperHex b) (normalizePercentEncoding s))).
Proof. intros Ha Hb. cbn [normalizePercentEncoding]. by rewrite beq_refl, Ha, Hb. Qed.

Lemma unescape_plain c s :
  c ≠ "%"%char → unescape encodePath (String c s) = String c <$> unescape encodePath s.
Proof.
  intros Hc. apply beq_neq in Hc. cbn [unescape host_mode andb]. rewrite Hc.
  by destruct (unescape encodePath s).
Qed.

Lemma unescape_hex a b s h l :
  unhex a = Some h → unhex b = Some l →
  unescape encodePath (String "%" (String a (String b s))) =
    String (byte (h * 16 + l)) <$> unescape encodePath s.
Proof.
  intros Ha Hb. cbn [unescape]. rewrite beq_refl, Ha, Hb. cbn. by destruct (unescape encodePath s).
Qed.

(** Normalisation keeps the decoded path, and is idempotent, on paths that
    decode. *)
Lemma normalize_ok n s d :
  len s ≤ n → unescape encodePath s = Some d →
  unescape encodePath (normalizePercentEncoding s) = Some d ∧
  normalizePercentEncoding (normalizePercentEncoding s) = normalizePercentEncoding s.
Proof.
  revert s d. induction n as [|n IH]; intros [|c s] d Hn Hd; rewrite ?len_cons in Hn; try done; try lia.
  destruct (decide (c = "%"%char)) as [->|Hc].
  - destruct s as [|a [|b s]]; [done..|]. rewrite !len_cons in Hn.
    destruct (unhex a) as [h|] eqn:Ea; [|cbn in Hd; by rewrite Ea in Hd].
    destruct (unhex b) as [l|] eqn:Eb; [|cbn in Hd; by rewrite Ea, Eb in Hd].
    rewrite (unescape_hex a b s h l) in Hd by done.
    destruct (unescape encodePath s) as [d'|] eqn:Es; [|done]. injection Hd as <-.
    destruct (IH s d' ltac:(lia) Es) as [IH1 IH2].
    destruct (unhex_isHex a h Ea) as (Ha1 & Ha2 & Ha3), (unhex_isHex b l Eb) as (Hb1 & Hb2 & Hb3).
    rewrite normalize_hex by done. cbv zeta. rewrite Ha2, Hb2, octet_value by done.
    destruct (isUnreserved (byte (h * 16 + l))) eqn:Eu.
    + assert (byte (h * 16 + l) ≠ "%"%char) as Hne by (intros E; by rewrite E in Eu).
      rewrite unescape_plain, IH1, normalize_plain, IH2 by done. done.
    + destruct (upperHex_hex a Ha1) as (A1 & A2 & A3 & A4), (upperHex_hex b Hb1) as (B1 & B2 & B3 & B4).
      rewrite (unescape_hex _ _ _ h l) by congruence. rewrite IH1. split; [done|].
      rewrite normalize_hex by done. cbv zeta. rewrite A3, B3, A4, B4, Ha2, Hb2, octet_value by done.
      by rewrite Eu, IH2.
  - rewrite unescape_plain in Hd by done. destruct (unescape encodePath s) as [d'|] eqn:Es; [|done].
    injection Hd as <-. destruct (IH s d' ltac:(lia) Es) as [IH1 IH2].
    rewrite normalize_plain, unescape_plain, IH1, normalize_plain, IH2 by done. done.
Qed.

(** ** Properties *)

(** on an absolute path, the loop of [removeDotSegments] computes the
    segment-by-segment resolution of RFC 3986: the result is an absolute path
    without dot segments, and resolving it again changes nothing. *)
Theorem removeDotSegments_resolves p :
  removeDotSegments (String "/" p) = join_abs (resolve [] (Split p "/")) ∧
  Forall plain (resolve [] (Split p "/")) ∧ Forall segment (resolve [] (Split p "/")) ∧
  removeDotSegments (removeDotSegments (String "/" p)) = removeDotSegments (String "/" p).
Proof.
  destruct (Split_segments p) as [Hs _].
  pose proof (resolve_plain [] (Split p "/") ltac:(done)) as Hp.
  pose proof (resolve_segments [] (Split p "/") ltac:(done) Hs) as Hr.
  rewrite removeDotSegments_abs. split_and!; [done..|].
  rewrite removeDotSegments_join by done. by rewrite (resolve_plain_id [] (resolve _ _)).
Qed.

(** percent-normalisation of a path that decodes keeps what it decodes to
    and is idempotent. *)
Theorem normalizePercentEncoding_sound s d :
  unescape encodePath s = Some d →
  unescape encodePath (normalizePercentEncoding s) = Some d ∧
  normalizePercentEncoding (normalizePercentEncoding s) = normalizePercentEncoding s.
Proof. by apply (normalize_ok (len s)). Qed.

Lemma normalizePercentEncoding_sound_witness :
  unescape encodePath (normalizePercentEncoding "/%7eb%2fc%e2%98%83") = unescape encodePath "/%7eb%2fc%e2%98%83".
Proof.
  destruct (unescape encodePath "/%7eb%2fc%e2%98%83") as [d|] eqn:E; [|vm_compute in E; discriminate E].
  exact (proj1 (normalizePercentEncoding_sound _ d E)).
Defined.

(** canonical forms collide and are not stable.  [net/url] keeps no
    [RawPath] for [/a%257E], whose decoded path [/a%7E] is then decoded a second
    time: it gets the canonical form of [/a~].  And dot segments spelled
    [%2e%2e] are decoded after dot segments were removed, so that the canonical
    form of [/%2e%2e/a] is not its own canonical form. *)
Theorem Canonicalize_collides `{RT : Runtime} :
  Canonicalize "https://h/a%257E" = Canonicalize "https://h/a~" ∧
  URLPath <$> ParseURL "https://h/a%257E" = Some "/a%7E" ∧ URLPath <$> ParseURL "https://h/a~" = Some "/a~" ∧
  Canonicalize "https://h/%2e%2e/a" = Ok "https://h/../a" ∧
  Canonicalize "https://h/../a" = Ok "https://h/a".
Proof. split_and!; vm_compute; reflexivity. Qed.
