(* ===== verification/StrictJson.v ===== *)
(** * StrictJson: JSON documents that mean one thing

    [src/adcp/v3/internal/strictjson/strictjson.go].  Keys are compared
    under Unicode simple folding. *)
From S2P Require Import Prelude GoStrings Unicode Json.
From stdpp Require Import options.

Definition DefaultMaxDepth : Z := 32%Z.

(** What [ErrInvalid] is wrapped with. *)
Inductive invalid := NotValidJSON | KeyNotString | DuplicateKey | TooDeep (limit : Z).

#[export] Instance invalid_eq_dec : EqDecision invalid.
Proof. solve_decision. Defined.

(** A token of [json.Decoder.Token]. *)
Inductive token := TDelim (c : ascii) | TString (s : string) | TScalar.

(** The tokens of a valid document. *)
Fixpoint tokens (v : json) : list token :=
  match v with
  | JStr s => [TString s]
  | JArr l => TDelim "[" :: concat (map tokens l) ++ [TDelim "]"]
  | JObj l => TDelim "{" :: concat (map (λ kv, TString kv.1 :: tokens kv.2) l) ++ [TDelim "}"]
  | _ => [TScalar]
  end.

Record frame := MkFrame { object : bool; keys : list string; wantKey : bool }.

Section Strict.
Context `{RT : Runtime}.

(** The rest of the orbit of [r] from [f] on, with the smallest rune [m] so
    far.  The orbits of the Unicode tables have at most four runes. *)
Fixpoint orbit_min (fuel : nat) (r f m : Z) : Z :=
  match fuel with
  | O => m
  | S fuel => if (f =? r)%Z then m else orbit_min fuel r (SimpleFold f) (if (f <? m)%Z then f else m)
  end.

Definition orbit_fuel : nat := 8.

Definition fold_rune (r : Z) : Z := orbit_min orbit_fuel r (SimpleFold r) r.

Definition Fold (s : string) : string := write_runes (map fold_rune (runes s)).

(** A value begins in the top frame: an object expects a key after it. *)
Definition mark (stack : list frame) : list frame :=
  match stack with
  | f :: st => if object f then MkFrame (object f) (keys f) true :: st else stack
  | [] => []
  end.

(** A token that is not a key, in the frames it leaves marked. *)
Definition value_token (maxDepth : Z) (t : token) (stack : list frame) : result invalid (list frame) :=
  match t with
  | TDelim c =>
      if beq c "{" || beq c "[" then
        if (maxDepth <=? Z.of_nat (length stack))%Z then Err (TooDeep maxDepth)
        else Ok (MkFrame (beq c "{") [] (beq c "{") :: stack)
      else Ok (tail stack)
  | _ => Ok stack
  end.

(** One round of the token loop. *)
Definition step_token (maxDepth : Z) (t : token) (stack : list frame) : result invalid (list frame) :=
  match stack with
  | f :: st =>
      if object f && wantKey f then
        match t with
        | TDelim c => if beq c "}" then Ok st else Err KeyNotString
        | TString key =>
            let folded := Fold key in
            if bool_decide (folded ∈ keys f) then Err DuplicateKey
            else Ok (MkFrame (object f) (folded :: keys f) false :: st)
        | TScalar => Err KeyNotString
        end
      else value_token maxDepth t (mark stack)
  | [] => value_token maxDepth t []
  end.

Fixpoint token_loop (maxDepth : Z) (ts : list token) (stack : list frame) : result invalid unit :=
  match ts with
  | [] => Ok ()
  | t :: ts' => st ← step_token maxDepth t stack; token_loop maxDepth ts' st
  end.

Definition Validate (data : string) (maxDepth : Z) : result invalid unit :=
  let maxDepth := if (maxDepth <=? 0)%Z then DefaultMaxDepth else maxDepth in
  match json_decode data with
  | None => Err NotValidJSON
  | Some v => token_loop maxDepth (tokens v) []
  end.

(** [Unmarshal]: validate, then decode. *)
Definition Unmarshal (data : string) (maxDepth : Z) : result invalid json :=
  _ ← Validate data maxDepth; opt_err NotValidJSON (json_decode data).

(** ** The specification *)

(** No object of the value has two keys with the same fold, and no composite
    lies deeper than the limit; [d] composites enclose the value. *)
Fixpoint strict (maxDepth d : Z) (v : json) : bool :=
  match v with
  | JArr l => (d <? maxDepth)%Z && forallb (strict maxDepth (d + 1)) l
  | JObj l =>
      (d <? maxDepth)%Z && bool_decide (NoDup (map (λ kv, Fold kv.1) l)) &&
      forallb (λ kv, strict maxDepth (d + 1) kv.2) l
  | _ => true
  end.

(** ** The loop decides it *)

(** The next token is not taken as a key. *)
Definition at_value (stack : list frame) : Prop :=
  match stack with f :: _ => object f && wantKey f = false | [] => True end.

(** The loop over [ts] accepts when [b] holds, in the frames [st'], and fails
    otherwise. *)
Definition loops (maxDepth : Z) (ts : list token) (st : list frame) (b : bool) (st' : list frame) : Prop :=
  ∀ rest,
    if b then token_loop maxDepth (ts ++ rest) st = token_loop maxDepth rest st'
    else ∃ e, token_loop maxDepth (ts ++ rest) st = Err e.

(** The members of an object, read with the keys [ks] behind them. *)
Fixpoint members_ok (md d : Z) (ks : list string) (l : list (string * json)) : bool :=
  match l with
  | [] => true
  | (k, v) :: l' =>
      bool_decide (Fold k ∉ ks) && strict md d v && members_ok md d (Fold k :: ks) l'
  end.

Lemma members_ok_spec md d ks l :
  members_ok md d ks l =
    bool_decide (NoDup (map (λ kv, Fold kv.1) l) ∧ Forall (λ kv, Fold kv.1 ∉ ks) l) &&
    forallb (λ kv, strict md d kv.2) l.
Proof.
  revert ks. induction l as [|[k v] l IH]; intros ks; cbn [members_ok map forallb fst snd].
  { by rewrite bool_decide_true by (split; constructor). }
  rewrite IH. destruct (strict md d v); [|by rewrite !andb_false_r].
  rewrite andb_true_r, andb_true_l, andb_assoc. f_equal.
  apply eq_true_iff_eq. rewrite andb_true_iff, !bool_decide_eq_true.
  rewrite NoDup_cons, Forall_cons. cbn [fst].
  assert (Forall (λ kv, Fold kv.1 ∉ Fold k :: ks) l ↔
          (Fold k ∉ map (λ kv, Fold kv.1) l) ∧ Forall (λ kv, Fold kv.1 ∉ ks) l) as ->; [|tauto].
  clear IH. induction l as [|[k' v'] l IH]; cbn [map].
  - split; [|constructor]. intros _. split; [apply not_elem_of_nil|constructor].
  - rewrite !Forall_cons, !not_elem_of_cons, IH. cbn [fst]. split; intuition congruence.
Qed.

Lemma loops_app md ts1 ts2 st b1 b2 st1 st2 :
  loops md ts1 st b1 st1 → (b1 = true → loops md ts2 st1 b2 st2) → loops md (ts1 ++ ts2) st (b1 && b2) st2.
Proof.
  intros H1 H2 rest. rewrite <- app_assoc. specialize (H1 (ts2 ++ rest)).
  destruct b1; cbn; [|exact H1]. rewrite H1. apply H2. done.
Qed.

Lemma loops_one md t st st' : step_token md t st = Ok st' → loops md [t] st true st'.
Proof. intros H rest. cbn. by rewrite H. Qed.

Lemma value_step md t st : at_value st → step_token md t st = value_token md t (mark st).
Proof. destruct st as [|f st]; [done|]. cbn. by intros ->. Qed.

Lemma length_mark st : length (mark st) = length st.
Proof. destruct st as [|f st]; [done|]. cbn. by destruct (object f). Qed.

Lemma loops_array md st l :
  Forall (λ v, ∀ st, at_value st → loops md (tokens v) st (strict md (Z.of_nat (length st)) v) (mark st)) l →
  loops md (concat (map tokens l)) (MkFrame false [] false :: st)
    (forallb (strict md (Z.of_nat (length st) + 1)) l) (MkFrame false [] false :: st).
Proof.
  induction 1 as [|v l Hv Hl IH]; [intros r; done|]. cbn [map concat forallb].
  apply (loops_app _ _ _ _ _ _ (MkFrame false [] false :: st)); [|intros _; exact IH].
  specialize (Hv (MkFrame false [] false :: st) eq_refl). cbn [length] in Hv.
  rewrite Nat2Z.inj_succ in Hv. exact Hv.
Qed.

Lemma loops_members md st l ks :
  Forall (λ kv, ∀ st, at_value st →
    loops md (tokens kv.2) st (strict md (Z.of_nat (length st)) kv.2) (mark st)) l →
  loops md (concat (map (λ kv, TString kv.1 :: tokens kv.2) l)) (MkFrame true ks true :: st)
    (members_ok md (Z.of_nat (length st) + 1) ks l)
    (MkFrame true (foldl (λ ks kv, Fold kv.1 :: ks) ks l) true :: st).
Proof.
  intros Hl. revert ks. induction Hl as [|[k v] l Hv Hl IH]; intros ks; [intros r; done|].
  cbn [map concat members_ok foldl fst snd].
  change (TString k :: tokens v) with ([TString k] ++ tokens v).
  rewrite <- andb_assoc, <- app_assoc.
  apply (loops_app _ _ _ _ _ _ (MkFrame true (Fold k :: ks) false :: st)).
  - intros r. cbn. destruct (decide (Fold k ∈ ks)) as [Hk|Hk].
    + rewrite (bool_decide_true (Fold k ∈ ks)), (bool_decide_false (Fold k ∉ ks)) by auto.
      by eexists.
    + rewrite (bool_decide_false (Fold k ∈ ks)), (bool_decide_true (Fold k ∉ ks)) by auto. done.
  - intros _. apply (loops_app _ _ _ _ _ _ (MkFrame true (Fold k :: ks) true :: st)); [|intros _; apply IH].
    specialize (Hv (MkFrame true (Fold k :: ks) false :: st) eq_refl). cbn [length] in Hv.
    rewrite Nat2Z.inj_succ in Hv. exact Hv.
Qed.

(** Opening a composite below the limit. *)
Lemma loops_open md c st ts b st' d :
  at_value st → beq c "{" || beq c "[" = true → d = Z.of_nat (length st) →
  loops md ts (MkFrame (beq c "{") [] (beq c "{") :: mark st) b st' →
  loops md (TDelim c :: ts) st ((d <? md)%Z && b) st'.
Proof.
  intros Hst Hc -> H rest. cbn [token_loop app]. rewrite value_step by done.
  unfold value_token. rewrite Hc, length_mark.
  destruct (Z.leb_spec md (Z.of_nat (length st))) as [Hd|Hd];
    destruct (Z.ltb_spec (Z.of_nat (length st)) md) as [Hd'|Hd']; try lia; [by eexists|].
  apply H.
Qed.

Lemma loops_value md v st :
  at_value st → loops md (tokens v) st (strict md (Z.of_nat (length st)) v) (mark st).
Proof.
  revert st. induction v as [|b|n|s|l IH|l IH] using json_ind'; intros st Hst;
    try (apply loops_one; rewrite value_step by done; reflexivity).
  - apply loops_open; [done..|]. rewrite <- (andb_true_r (forallb _ _)).
    eapply loops_app; [rewrite <- (length_mark st); by apply loops_array|].
    intros _. by apply loops_one.
  - cbn [strict tokens]. rewrite <- andb_assoc. apply loops_open; [done..|].
    assert (bool_decide (NoDup (map (λ kv, Fold kv.1) l)) && forallb (λ kv, strict md (Z.of_nat (length st) + 1) kv.2) l
      = members_ok md (Z.of_nat (length st) + 1) [] l && true) as ->.
    { rewrite members_ok_spec, andb_true_r. f_equal. apply bool_decide_ext. split; [|tauto].
      intros H. split; [done|]. apply Forall_forall. intros kv _. apply not_elem_of_nil. }
    eapply loops_app; [rewrite <- (length_mark st); by apply loops_members|].
    intros _. by apply loops_one.
Qed.

Lemma Validate_strict data maxDepth :
  is_ok (Validate data maxDepth) = true ↔
  ∃ v, json_decode data = Some v ∧
       strict (if (maxDepth <=? 0)%Z then DefaultMaxDepth else maxDepth) 0 v = true.
Proof.
  unfold Validate. destruct (json_decode data) as [v|]; [|naive_solver].
  set (md := if (maxDepth <=? 0)%Z then DefaultMaxDepth else maxDepth).
  pose proof (loops_value md v [] I []) as H. rewrite app_nil_r in H. cbn [length] in H.
  change (Z.of_nat 0) with 0%Z in H.
  destruct (strict md 0 v) eqn:E.
  - cbv iota in H. rewrite H. split; [|done]. intros _. by exists v.
  - destruct H as [e ->]. split; [done|]. intros (v' & [= <-] & Hv). congruence.
Qed.

(** ** Folding *)

(** Two runes are in one orbit. *)
Definition same_orbit (r s : Z) : Prop := ∃ k, Nat.iter k SimpleFold r = s.

(** [SimpleFold] walks around an orbit of code points, each short enough for
    [orbit_fuel]. *)
Record folding : Prop := {
  fo_period : ∀ r, ∃ n, 1 ≤ n ≤ orbit_fuel ∧ Nat.iter n SimpleFold r = r;
  fo_valid : ∀ r, valid_rune r = true → valid_rune (SimpleFold r) = true;
}.

Lemma iter_add n m r : Nat.iter (n + m) SimpleFold r = Nat.iter n SimpleFold (Nat.iter m SimpleFold r).
Proof.
  induction n as [|n IH]; [done|].
  change (SimpleFold (Nat.iter (n + m) SimpleFold r) =
    SimpleFold (Nat.iter n SimpleFold (Nat.iter m SimpleFold r))). by rewrite IH.
Qed.

Lemma iter_period p r k : Nat.iter p SimpleFold r = r → Nat.iter (k * p) SimpleFold r = r.
Proof.
  intros H. induction k as [|k IH]; [done|].
  change (S k * p) with (p + k * p). by rewrite iter_add, IH.
Qed.

Lemma iter_mod p r k :
  p ≠ 0 → Nat.iter p SimpleFold r = r → Nat.iter k SimpleFold r = Nat.iter (k mod p) SimpleFold r.
Proof.
  intros Hp H. assert (k = k mod p + k / p * p) as E by (pose proof (Nat.div_mod k p Hp); lia).
  transitivity (Nat.iter (k mod p + k / p * p) SimpleFold r); [by rewrite <- E|].
  by rewrite iter_add, iter_period.
Qed.

Lemma same_orbit_sym (Hf : folding) r s : same_orbit r s → same_orbit s r.
Proof.
  intros [k <-]. destruct (fo_period Hf r) as (n & Hn & Hr). exists (k * n - k).
  rewrite <- iter_add. replace (k * n - k + k) with (k * n) by nia. by apply iter_period.
Qed.

Lemma same_orbit_trans r s t : same_orbit r s → same_orbit s t → same_orbit r t.
Proof. intros [k <-] [j <-]. exists (j + k). apply iter_add. Qed.

(** The walk finds the least rune of the orbit. *)
Lemma orbit_min_least r n fuel i m :
  1 ≤ n → Nat.iter n SimpleFold r = r → 1 ≤ i → n < i + fuel →
  (∀ j, 0 < j < i → Nat.iter j SimpleFold r ≠ r) →
  (∀ j, j < i → (m ≤ Nat.iter j SimpleFold r)%Z) → same_orbit r m →
  let x := orbit_min fuel r (Nat.iter i SimpleFold r) m in
  same_orbit r x ∧ ∀ s, same_orbit r s → (x ≤ s)%Z.
Proof.
  intros Hn Hr. revert i m. induction fuel as [|fuel IH]; intros i m Hi Hf Hne Hle Hm; cbn [orbit_min].
  - exfalso. apply (Hne n); [lia|done].
  - destruct (Z.eqb_spec (Nat.iter i SimpleFold r) r) as [E|E].
    + split; [done|]. intros s [k <-]. rewrite (iter_mod i r k) by (lia || done).
      apply Hle. apply Nat.mod_upper_bound. lia.
    + change (SimpleFold (Nat.iter i SimpleFold r)) with (Nat.iter (S i) SimpleFold r). apply IH.
      * lia.
      * lia.
      * intros j Hj. destruct (decide (j = i)) as [->|]; [done|]. apply Hne. lia.
      * intros j Hj. destruct (decide (j = i)) as [->|].
        -- destruct (Z.ltb_spec (Nat.iter i SimpleFold r) m); lia.
        -- specialize (Hle j ltac:(lia)). destruct (Z.ltb_spec (Nat.iter i SimpleFold r) m); lia.
      * destruct (_ <? m)%Z; [by exists i|done].
Qed.

Lemma fold_rune_least (Hf : folding) r :
  same_orbit r (fold_rune r) ∧ ∀ s, same_orbit r s → (fold_rune r ≤ s)%Z.
Proof.
  destruct (fo_period Hf r) as (n & Hn & Hr).
  apply (orbit_min_least r n orbit_fuel 1 r); try lia; try done.
  - intros j Hj. assert (j = 0) as -> by lia. cbn. lia.
  - by exists 0.
Qed.

Lemma fold_rune_orbit (Hf : folding) r s : fold_rune r = fold_rune s ↔ same_orbit r s.
Proof.
  destruct (fold_rune_least Hf r) as [H1 H2], (fold_rune_least Hf s) as [H3 H4]. split; intros H.
  - rewrite H in H1. eapply same_orbit_trans; [exact H1|]. by apply same_orbit_sym.
  - apply Z.le_antisymm.
    + apply H2. by eapply same_orbit_trans.
    + apply H4. eapply same_orbit_trans; [by apply same_orbit_sym|done].
Qed.

Lemma fold_rune_valid (Hf : folding) r : valid_rune r = true → valid_rune (fold_rune r) = true.
Proof.
  intros Hr. destruct (fold_rune_least Hf r) as [[k <-] _].
  induction k as [|k IH]; [done|]. cbn. by apply fo_valid.
Qed.

Lemma Fold_orbits (Hf : folding) a b : Fold a = Fold b ↔ Forall2 same_orbit (runes a) (runes b).
Proof.
  assert (∀ s, Forall (λ r, valid_rune r = true) (map fold_rune (runes s))) as Hv.
  { intros s. apply Forall_fmap. eapply Forall_impl; [apply runes_valid|].
    intros r. apply fold_rune_valid, Hf. }
  unfold Fold. split; intros H.
  - apply write_runes_inj in H; [|done..]. revert H. generalize (runes b).
    induction (runes a) as [|r l IH]; intros [|s l'] H; try done. injection H as Hr Hl.
    constructor; [by apply (fold_rune_orbit Hf)|]. by apply IH.
  - f_equal. induction H as [|r s l l' Hr Hl IH]; [done|]. cbn.
    rewrite IH. f_equal. by apply (fold_rune_orbit Hf).
Qed.

End Strict.

(** ** Properties *)

(** the token loop accepts exactly the documents that are one JSON value
    in which no object has two keys with the same case fold and nothing is
    nested deeper than the limit. *)
Theorem Validate_decides `{RT : Runtime} data maxDepth :
  is_ok (Validate data maxDepth) = true ↔
  ∃ v, json_decode data = Some v ∧
       strict (if (maxDepth <=? 0)%Z then DefaultMaxDepth else maxDepth) 0 v = true.
Proof. apply Validate_strict. Qed.

(** two keys have the same fold exactly when they are equal under Unicode
    case folding, rune by rune, which is what [strings.EqualFold] tests. *)
Theorem Fold_EqualFold `{RT : Runtime} a b :
  folding → Fold a = Fold b ↔ Forall2 same_orbit (runes a) (runes b).
Proof. intros Hf. by apply Fold_orbits. Qed.

(** ASCII case as a folding. *)
Definition ascii_fold (r : Z) : Z :=
  if ((65 <=? r) && (r <=? 90))%Z then (r + 32)%Z
  else if ((97 <=? r) && (r <=? 122))%Z then (r - 32)%Z else r.

Definition ascii_runtime : Runtime :=
  {| SimpleFold := ascii_fold; LowerRune := λ r, r; UpperRune := λ r, r; Sha256 := λ s, s |}.

(** JSON text with single quotes for double ones. *)
Definition dq (s : string) : string := smap (λ c, if beq c "'" then quote else c) s.

Lemma ascii_folding : folding (RT := ascii_runtime).
Proof.
  split.
  - intros r. exists 2. split; [unfold orbit_fuel; lia|]. cbn. unfold ascii_fold.
    destruct (Z.leb_spec 65 r), (Z.leb_spec r 90), (Z.leb_spec 97 r), (Z.leb_spec r 122);
      cbn; repeat case_match; bool_prop; lia.
  - intros r. cbn. unfold ascii_fold, valid_rune, is_surrogate. intros H.
    destruct (Z.leb_spec 65 r), (Z.leb_spec r 90), (Z.leb_spec 97 r), (Z.leb_spec r 122); cbn; lia.
Qed.

Lemma Fold_EqualFold_witness : Fold (RT := ascii_runtime) "Key_1" = Fold (RT := ascii_runtime) "kEY_1".
Proof.
  apply (Fold_EqualFold (RT := ascii_runtime) "Key_1" "kEY_1" ascii_folding).
  repeat (constructor; [first [exists 0; reflexivity|exists 1; reflexivity]|]). constructor.
Defined.
