(* ===== verification/JsonTypes.v ===== *)
(** * JsonTypes: decoding JSON into Go types

    When [json.Unmarshal] into a typed variable succeeds.  A Go type is a value of
    [gtype]; [fits v t] says that decoding [v] into a fresh variable of type [t]
    returns no error.  Decoded fields are then read off the document: a member goes
    to the field of its name, else to the field of that name up to case. *)
From S2P Require Import Prelude GoStrings Unicode Json Float StrictJson.
From stdpp Require Import options.

Inductive gtype : Type :=
  | TString
  | TBool
  | TInt
  | TFloat
  | TAny
  | TRaw
  | TSlice (t : gtype)
  | TMap (t : gtype)
  | TStruct (fields : list (string * gtype))
  | TProfiles (t : gtype).

(** A number that decodes into an [any]: it is read as a [float64]. *)
Definition float_ok (n : string) : bool := match ParseFloat n with Some _ => true | None => false end.

(** An [int] reads an integer literal that fits in 64 bits. *)
Definition int_value (n : string) : option Z :=
  if all_bytes (λ c, is_digit c || beq c "-") n then ParseInt n else None.

Section JsonTypes.
Context `{RT : Runtime}.

(** The position of the field a member goes to. *)
Definition find_field (k : string) (names : list string) : option nat :=
  match list_find (λ n, n = k) names with
  | Some (i, _) => Some i
  | None => fst <$> list_find (λ n, Fold n = Fold k) names
  end.

(** A pointer decodes as what it points to, and [null] makes it nil: it has no type
    of its own.  A [Profiles[T]] decodes itself ([UnmarshalJSON]): its [adcp] member into a
    [T], every other member as raw text. *)
Fixpoint fits (v : json) (t : gtype) {struct v} : bool :=
  match v with
  | JNull => true
  | _ =>
      match t with
      | TRaw => true
      | TAny => nums_ok float_ok v
      | TString => match v with JStr _ => true | _ => false end
      | TBool => match v with JBool _ => true | _ => false end
      | TInt => match v with JNum n => bool_decide (is_Some (int_value n)) | _ => false end
      | TFloat => match v with JNum n => float_ok n | _ => false end
      | TSlice u => match v with JArr l => forallb (λ x, fits x u) l | _ => false end
      | TMap u => match v with JObj l => forallb (λ kv, fits kv.2 u) l | _ => false end
      | TStruct fs =>
          match v with
          | JObj l =>
              forallb (λ kv, match i ← find_field kv.1 (map fst fs); fs !! i with
                             | Some (_, u) => fits kv.2 u
                             | None => true
                             end) l
          | _ => false
          end
      | TProfiles u =>
          match v with
          | JObj l =>
              (fix go l := match l with
                           | [] => true
                           | kv :: l' => if bool_decide (kv.1 = "adcp") && negb (bool_decide ("adcp" ∈ l'.*1))
                                         then fits kv.2 u else go l'
                           end) l
          | _ => false
          end
      end
  end.

(** The member a struct's field is decoded from. *)
Fixpoint field (name : string) (names : list string) (l : list (string * json)) : json :=
  match l with
  | [] => JNull
  | (k, v) :: l' =>
      match field name names l' with
      | JNull => if bool_decide ((i ← find_field k names; names !! i) = Some name) then v else JNull
      | w => w
      end
  end.

End JsonTypes.

(** Values of decoded fields: [null] or a missing member leaves the zero value. *)
Definition get_string (v : json) : string := match v with JStr s => s | _ => "" end.
Definition get_bool (v : json) : option bool := match v with JBool b => Some b | _ => None end.
Definition get_list (v : json) : option (list json) := match v with JArr l => Some l | _ => None end.
Definition get_members (v : json) : list (string * json) := match v with JObj l => l | _ => [] end.
Definition get_int (v : json) : Z := match v with JNum n => default 0%Z (int_value n) | _ => 0%Z end.
Definition get_float (v : json) : option float := match v with JNum n => ParseFloat n | _ => None end.
