(* ===== verification/Netip.v ===== *)
(** * IP addresses as [net/netip] reads them

    What the sources use of Go's [net/netip] and [net]: parsing an address
    literal, [Unmap], prefixes and their containment test, [net.ParseIP].  An
    address is a number of 32 or 128 bits. *)
From S2P Require Import Prelude GoStrings Json NetUrl.
From stdpp Require Import options.

Inductive Addr := V4 (a : Z) | V6 (a : Z) (zone : string).

#[export] Instance Addr_eq_dec : EqDecision Addr.
Proof. solve_decision. Defined.

(** Big-endian value of a list of bytes. *)
Definition bytes_val (l : list Z) : Z := foldl (λ acc b, (256 * acc + b)%Z) 0%Z l.

(** ** Parsing *)

(** [parseIPv4Fields]: [fields] holds the octets written so far, [val] and
    [digLen] the one being read.  At a dot [digLen] is zero exactly at the start
    of the text or after another dot. *)
Fixpoint parseIPv4Fields (s : string) (fields : list Z) (val digLen : Z) : option (list Z) :=
  match s with
  | "" => if (length fields <? 3)%nat then None else Some (fields ++ [val])
  | String c s' =>
      if is_digit c then
        if ((digLen =? 1) && (val =? 0))%Z then None else
        let val := (val * 10 + (code c - 48))%Z in
        if (255 <? val)%Z then None else parseIPv4Fields s' fields val (digLen + 1)
      else if beq c "." then
        if ((digLen =? 0)%Z || bool_decide (s' = "")) then None else
        if (length fields =? 3)%nat then None else parseIPv4Fields s' (fields ++ [val]) 0 0
      else None
  end.

Definition parseIPv4 (s : string) : option Addr :=
  f ← parseIPv4Fields s [] 0 0; Some (V4 (bytes_val f)).

(** The hexadecimal digits at the start of the text, and the rest. *)
Fixpoint span_hex (s : string) : list Z * string :=
  match s with
  | String c s' =>
      match hex_val c with
      | Some d => let '(ds, rest) := span_hex s' in (d :: ds, rest)
      | None => ([], s)
      end
  | "" => ([], "")
  end.

(** The loop of [parseIPv6]: [ip] holds the bytes written so far, [ellipsis] the
    position of the double colon.  A round writes at least two bytes, so that
    eight rounds reach the sixteenth. *)
Fixpoint parseIPv6_loop (fuel : nat) (s : string) (ip : list Z) (ellipsis : option nat) :
    option (list Z * option nat * string) :=
  match fuel with
  | 0 => Some (ip, ellipsis, s)
  | S f =>
      if (16 <=? length ip)%nat then Some (ip, ellipsis, s) else
      let '(ds, rest) := span_hex s in
      if (length ds =? 0)%nat || (4 <? length ds)%nat then None else
      if HasPrefix rest "." then
        if bool_decide (ellipsis = None) && negb (length ip =? 12)%nat then None else
        if (16 <? length ip + 4)%nat then None else
        v4 ← parseIPv4Fields s [] 0 0;
        Some (ip ++ v4, ellipsis, "")
      else
        let acc := foldl (λ a d, (16 * a + d)%Z) 0%Z ds in
        let ip := ip ++ [(acc / 256)%Z; (acc mod 256)%Z] in
        match rest with
        | "" => Some (ip, ellipsis, "")
        | String c s' =>
            if negb (beq c ":") || bool_decide (s' = "") then None else
            match s' with
            | String d s'' =>
                if beq d ":" then
                  if negb (bool_decide (ellipsis = None)) then None else
                  if bool_decide (s'' = "") then Some (ip, Some (length ip), "")
                  else parseIPv6_loop f s'' ip (Some (length ip))
                else parseIPv6_loop f s' ip ellipsis
            | "" => None
            end
        end
  end.

Definition expand_ellipsis (ip : list Z) (ellipsis : option nat) : option (list Z) :=
  if (length ip <? 16)%nat then
    e ← ellipsis;
    Some (take e ip ++ replicate (16 - length ip) 0%Z ++ drop e ip)
  else if bool_decide (ellipsis = None) then Some ip else None.

Definition parseIPv6 (input : string) : option Addr :=
  '(s, zone) ← (match IndexByte input "%" with
                | Some i => let zone := sdrop (S i) input in
                            if bool_decide (zone = "") then None else Some (stake i input, zone)
                | None => Some (input, "")
                end);
  let '(s, ellipsis) := match CutPrefix s "::" with Some t => (t, Some 0) | None => (s, None) end in
  if bool_decide (ellipsis = Some 0) && bool_decide (s = "") then Some (V6 0 zone) else
  '(ip, ellipsis, rest) ← parseIPv6_loop 8 s [] ellipsis;
  if negb (bool_decide (rest = "")) then None else
  ip ← expand_ellipsis ip ellipsis;
  Some (V6 (bytes_val ip) zone).

(** [netip.ParseAddr]: the first dot, colon or percent sign decides. *)
Fixpoint addr_kind (s : string) : option ascii :=
  match s with
  | "" => None
  | String c s' => if one_of ["."; ":"; "%"]%char c then Some c else addr_kind s'
  end.

Definition ParseAddr (s : string) : option Addr :=
  c ← addr_kind s;
  if beq c "." then parseIPv4 s else if beq c ":" then parseIPv6 s else None.

(** [net.ParseIP(s) != nil]: an address without a zone. *)
Definition ParseIP_ok (s : string) : bool :=
  match ParseAddr s with Some (V4 _) => true | Some (V6 _ z) => bool_decide (z = "") | None => false end.

(** ** Addresses and prefixes *)

(** [Addr.Unmap]: an IPv4-mapped IPv6 address as its IPv4 address, whatever its
    zone. *)
Definition Unmap (a : Addr) : Addr :=
  match a with
  | V6 x _ => if (Z.shiftr x 32 =? 65535)%Z then V4 (x mod 2 ^ 32) else a
  | V4 _ => a
  end.

Definition Zone (a : Addr) : string := match a with V6 _ z => z | V4 _ => "" end.

Record Prefix := MkPrefix { PrefixAddr : Addr; PrefixBits : Z }.

(** [netip.ParsePrefix]: no zone, a length in decimal without sign or leading
    zero, at most the length of an address. *)
Definition ParsePrefix (s : string) : option Prefix :=
  i ← LastIndexByte s "/";
  ip ← ParseAddr (stake i s);
  if negb (bool_decide (Zone ip = "")) then None else
  let bits := sdrop (S i) s in
  n ← ParseUint bits;
  if (1 <? len bits)%nat && HasPrefix bits "0" then None else
  if (match ip with V4 _ => 32 | V6 _ _ => 128 end <? n)%Z then None else Some (MkPrefix ip n).

(** [mask6]: a 128-bit mask of [n] leading ones. *)
Definition mask6 (n : Z) : Z := Z.shiftl (Z.ones n) (128 - n).

(** [Prefix.Contains], for an address without a zone. *)
Definition Contains (p : Prefix) (ip : Addr) : bool :=
  match PrefixAddr p, ip with
  | V4 b, V4 a => (Z.shiftr (Z.lxor a b) (32 - PrefixBits p) =? 0)%Z
  | V6 b _, V6 a z => bool_decide (z = "") && (Z.land (Z.lxor a b) (mask6 (PrefixBits p)) =? 0)%Z
  | _, _ => false
  end.

(** ** Lemmas *)

Lemma shiftr_lxor_zero a b n : (Z.shiftr (Z.lxor a b) n =? 0)%Z = true ↔ Z.shiftr a n = Z.shiftr b n.
Proof. rewrite Z.eqb_eq, Z.shiftr_lxor. apply Z.lxor_eq_0_iff. Qed.

(** Masking a 128-bit number with [n] leading ones leaves nothing exactly when
    its [n] leading bits are zero. *)
Lemma land_mask6_zero x n :
  (0 ≤ x < 2 ^ 128)%Z → (0 ≤ n ≤ 128)%Z → Z.land x (mask6 n) = 0%Z ↔ Z.shiftr x (128 - n) = 0%Z.
Proof.
  intros Hx Hn. unfold mask6.
  assert (∀ i, (128 ≤ i)%Z → Z.testbit x i = false) as Hhigh.
  { intros i Hi. destruct (Z.eq_dec x 0%Z) as [->|]; [by rewrite Z.testbit_0_l|].
    apply Z.bits_above_log2; [lia|]. apply Z.log2_lt_pow2; [lia|].
    pose proof (Z.pow_le_mono_r 2 128 i ltac:(lia) Hi). lia. }
  split; intros H; apply Z.bits_inj'; intros i Hi; rewrite Z.bits_0.
  - rewrite Z.shiftr_spec by lia. destruct (Z.leb_spec 128 (i + (128 - n))); [by apply Hhigh|].
    pose proof (f_equal (λ z, Z.testbit z (i + (128 - n))) H) as Hb. cbv beta in Hb.
    rewrite Z.land_spec, Z.shiftl_spec, Z.bits_0, Z.testbit_ones_nonneg in Hb by lia.
    apply andb_false_iff in Hb as [?|Hb]; [done|]. apply Z.ltb_ge in Hb. lia.
  - rewrite Z.land_spec, Z.shiftl_spec by lia.
    destruct (Z.ltb_spec i (128 - n)).
    + rewrite (Z.testbit_neg_r (Z.ones n)) by lia. by rewrite andb_false_r.
    + pose proof (f_equal (λ z, Z.testbit z (i - (128 - n))) H) as Hb. cbv beta in Hb.
      rewrite Z.shiftr_spec, Z.bits_0 in Hb by lia.
      replace (i - (128 - n) + (128 - n))%Z with i in Hb by lia. by rewrite Hb.
Qed.

(** A prefix contains an address exactly when they agree on its leading bits. *)
Lemma Contains_V4 b n a :
  Contains (MkPrefix (V4 b) n) (V4 a) = true ↔ Z.shiftr a (32 - n) = Z.shiftr b (32 - n).
Proof. apply shiftr_lxor_zero. Qed.

Lemma lxor_range a b n : (0 ≤ n)%Z → (0 ≤ a < 2 ^ n)%Z → (0 ≤ b < 2 ^ n)%Z → (0 ≤ Z.lxor a b < 2 ^ n)%Z.
Proof.
  intros Hn Ha Hb. assert (0 ≤ Z.lxor a b)%Z as H0 by (apply Z.lxor_nonneg; lia).
  split; [done|]. destruct (Z.eq_dec (Z.lxor a b) 0%Z) as [->|]; [lia|].
  apply Z.log2_lt_pow2; [lia|].
  assert (∀ x, (0 ≤ x < 2 ^ n)%Z → x ≠ 0%Z → (Z.log2 x < n)%Z) as Hl.
  { intros x Hx Hnz. apply Z.log2_lt_pow2; lia. }
  destruct (Z.eq_dec a 0%Z) as [->|Ha0]; [rewrite Z.lxor_0_l in *; apply Hl; lia|].
  destruct (Z.eq_dec b 0%Z) as [->|Hb0]; [rewrite Z.lxor_0_r in *; apply Hl; lia|].
  pose proof (Z.log2_lxor a b ltac:(lia) ltac:(lia)). pose proof (Hl a Ha Ha0). pose proof (Hl b Hb Hb0). lia.
Qed.

Lemma Contains_V6 b z n a :
  (0 ≤ a < 2 ^ 128)%Z → (0 ≤ b < 2 ^ 128)%Z → (0 ≤ n ≤ 128)%Z →
  Contains (MkPrefix (V6 b z) n) (V6 a "") = true ↔ Z.shiftr a (128 - n) = Z.shiftr b (128 - n).
Proof.
  intros Ha Hb Hn. unfold Contains. cbn [PrefixAddr PrefixBits].
  rewrite (bool_decide_eq_true_2 (_ = _)) by done. rewrite andb_true_l, Z.eqb_eq.
  rewrite land_mask6_zero; [|by apply lxor_range|done].
  rewrite <- Z.eqb_eq. apply shiftr_lxor_zero.
Qed.

Lemma bytes_val_app l b : bytes_val (l ++ [b]) = (256 * bytes_val l + b)%Z.
Proof. unfold bytes_val. by rewrite foldl_app. Qed.
