(* ===== verification/Replay.v ===== *)
(** * Replay: the replay cache and the revocation list of the signature verifier

    [src/adcp/v3/signing/replay.go], [replay_claim.go] and [revocation.go].
    The store's clock is an argument of the operations that read it. *)
From stdpp Require Import gmap stringmap.
From S2P Require Import Prelude GoStrings.
From stdpp Require Import options.

(** ** The interface the verifier uses *)

(** [ReplayStore]: the state changes of an operation are its second result. *)
Class ReplayStore (S : Type) := {
  HitCap : S → string → bool;
  Seen : S → Time → string → string → bool * S;
  Insert : S → Time → string → string → Duration → bool * S;
}.

(** What the verifier relies on: a pair that [Insert] accepted is seen until
    its lifetime is over, and [Seen] forgets nothing alive. *)
Class ReplayStoreSpec (S : Type) `{ReplayStore S} := {
  live_until : S → string → string → option Time;
  Seen_reports s now k n :
    (Seen s now k n).1 = match live_until s k n with Some x => (now <=? x)%Z | None => false end;
  Seen_keeps s now k n k' n' x :
    live_until s k' n' = Some x → (now ≤ x)%Z → live_until (Seen s now k n).2 k' n' = Some x;
  Insert_records s now k n ttl :
    (Insert s now k n ttl).1 = true → live_until (Insert s now k n ttl).2 k n = Some (Add now ttl);
  Insert_keeps s now k n ttl k' n' x :
    live_until s k' n' = Some x → (now ≤ x)%Z → (k, n) ≠ (k', n') →
    live_until (Insert s now k n ttl).2 k' n' = Some x;
}.

(** ** The memory store *)

Definition defaultKeyIDCap : Z := 1000000%Z.

Record MemoryReplayStore := MkReplay {
  entries : gmap (string * string) Time;
  perKey : gmap string Z;
  capPerK : Z;
  capHits : gset string;
}.

Definition NewMemoryReplayStore (perKeyidCap : Z) : MemoryReplayStore :=
  MkReplay ∅ ∅ (if (perKeyidCap <=? 0)%Z then defaultKeyIDCap else perKeyidCap) ∅.

(** A Go map of ints reads 0 at an absent key. *)
Definition count_of (m : gmap string Z) (k : string) : Z := default 0%Z (m !! k).

Definition memory_HitCap (m : MemoryReplayStore) (keyid : string) : bool :=
  bool_decide (keyid ∈ capHits m) || (capPerK m <=? count_of (perKey m) keyid)%Z.

(** The body of the loop of [sweepLocked], for an expired entry [k]. *)
Definition sweep_entry (k : string * string) (m : MemoryReplayStore) : MemoryReplayStore :=
  let pk := perKey m in
  let pk := if (0 <? count_of pk k.1)%Z then <[k.1 := (count_of pk k.1 - 1)%Z]> pk else pk in
  let pk := if (count_of pk k.1 =? 0)%Z then delete k.1 pk else pk in
  MkReplay (delete k (entries m)) pk (capPerK m) (capHits m).

Definition expired_keys (now : Time) (m : MemoryReplayStore) : list (string * string) :=
  (map_to_list (filter (λ kv, After now kv.2 = true) (entries m))).*1.

Definition sweepLocked (now : Time) (m : MemoryReplayStore) : MemoryReplayStore :=
  foldl (λ m k, sweep_entry k m) m (expired_keys now m).

Definition record_entry (now : Time) (k : string * string) (ttl : Duration) (m : MemoryReplayStore) :
    MemoryReplayStore :=
  MkReplay (<[k := Add now ttl]> (entries m))
    (<[k.1 := (count_of (perKey m) k.1 + 1)%Z]> (perKey m)) (capPerK m) (capHits m).

Definition memory_Seen (m : MemoryReplayStore) (now : Time) (keyid nonce : string) :
    bool * MemoryReplayStore :=
  let m := sweepLocked now m in
  (bool_decide (is_Some (entries m !! (keyid, nonce))), m).

Definition memory_Insert (m : MemoryReplayStore) (now : Time) (keyid nonce : string)
    (ttl : Duration) : bool * MemoryReplayStore :=
  let m := sweepLocked now m in
  if memory_HitCap m keyid then (false, m) else (true, record_entry now (keyid, nonce) ttl m).

Definition Preload (m : MemoryReplayStore) (now : Time) (keyid nonce : string) (ttl : Duration) :
    MemoryReplayStore := record_entry now (keyid, nonce) ttl m.

Definition MarkKeyIDAtCap (m : MemoryReplayStore) (keyid : string) : MemoryReplayStore :=
  MkReplay (entries m) (perKey m) (capPerK m) ({[ keyid ]} ∪ capHits m).

Inductive ReplayClaim := ReplayClaimed | ReplayReplayed | ReplayCapacity.

Definition Claim (m : MemoryReplayStore) (now : Time) (keyid nonce : string) (ttl : Duration) :
    ReplayClaim * MemoryReplayStore :=
  let m := sweepLocked now m in
  match entries m !! (keyid, nonce) with
  | Some _ => (ReplayReplayed, m)
  | None =>
      if memory_HitCap m keyid then (ReplayCapacity, m)
      else (ReplayClaimed, record_entry now (keyid, nonce) ttl m)
  end.

#[export] Instance memory_replay : ReplayStore MemoryReplayStore := {
  HitCap := memory_HitCap; Seen := memory_Seen; Insert := memory_Insert;
}.

(** ** The revocation list *)

Record StaticRevocationList := MkRevocation { revoked : gset string; stale : bool }.

Definition NewStaticRevocationList (kids : list string) : StaticRevocationList :=
  MkRevocation (list_to_set kids) false.
Definition Revoked (s : StaticRevocationList) (keyid : string) : bool :=
  bool_decide (keyid ∈ revoked s).
Definition Stale (s : StaticRevocationList) : bool := stale s.
Definition SetStale (s : StaticRevocationList) (b : bool) : StaticRevocationList :=
  MkRevocation (revoked s) b.
Definition SetRevoked (s : StaticRevocationList) (kids : list string) : StaticRevocationList :=
  MkRevocation (list_to_set kids) (stale s).

(** ** Lemmas *)

(** How many entries of the cache a keyid has. *)
Definition live (m : MemoryReplayStore) (k : string) : Z :=
  Z.of_nat (size (filter (λ kv : (string * string) * Time, kv.1.1 = k) (entries m))).

(** The counters are at least the numbers of entries, never negative, and
    absent when zero. *)
Definition counted (m : MemoryReplayStore) : Prop :=
  ∀ k, (live m k ≤ count_of (perKey m) k)%Z.

(** The counters are the numbers of entries. *)
Definition exact (m : MemoryReplayStore) : Prop :=
  ∀ k, count_of (perKey m) k = live m k.

Lemma count_of_insert m k k' v :
  count_of (<[k := v]> m) k' = if bool_decide (k = k') then v else count_of m k'.
Proof.
  unfold count_of. case_bool_decide as E.
  - subst. by rewrite lookup_insert_eq.
  - by rewrite lookup_insert_ne.
Qed.

Lemma count_of_delete m k k' :
  count_of (delete k m) k' = if bool_decide (k = k') then 0%Z else count_of m k'.
Proof.
  unfold count_of. case_bool_decide as E.
  - subst. by rewrite lookup_delete_eq.
  - by rewrite lookup_delete_ne.
Qed.

Lemma live_delete m k k' x pk c h :
  entries m !! k = Some x →
  live (MkReplay (delete k (entries m)) pk c h) k' =
    (live m k' - if bool_decide (k.1 = k') then 1 else 0)%Z.
Proof.
  intros Hk. unfold live. cbn. rewrite map_filter_delete. case_bool_decide as E.
  - rewrite map_size_delete_Some by (exists x; by apply map_lookup_filter_Some).
    assert (filter (λ kv : (string * string) * Time, kv.1.1 = k') (entries m) !! k = Some x) as Hf
      by (by apply map_lookup_filter_Some).
    assert (size (filter (λ kv : (string * string) * Time, kv.1.1 = k') (entries m)) ≠ 0) as Hne.
    { apply map_size_non_empty_iff. intros He. by rewrite He, lookup_empty in Hf. }
    lia.
  - rewrite map_size_delete_None; [lia|]. apply map_lookup_filter_None. right.
    intros y Hy. cbn. congruence.
Qed.

Lemma live_insert m k k' x pk c h :
  live (MkReplay (<[k := x]> (entries m)) pk c h) k' =
    (live m k' + if bool_decide (k.1 = k' ∧ entries m !! k = None) then 1 else 0)%Z.
Proof.
  unfold live. cbn. destruct (decide (k.1 = k')) as [E|E].
  - rewrite map_filter_insert_True by done. rewrite map_size_insert.
    destruct (entries m !! k) as [y|] eqn:Hk.
    + match goal with |- context [match ?d with Some _ => id | None => S end] =>
        destruct d eqn:Ef end; [|apply map_lookup_filter_None in Ef as [?|Ef]; [congruence|by destruct (Ef y)]].
      rewrite bool_decide_false by naive_solver. cbn. lia.
    + match goal with |- context [match ?d with Some _ => id | None => S end] =>
        destruct d eqn:Ef end; [apply map_lookup_filter_Some in Ef as [??]; congruence|].
      rewrite bool_decide_true by done. cbn. lia.
  - rewrite map_filter_insert_False by done. rewrite map_filter_delete.
    rewrite bool_decide_false by naive_solver. rewrite map_size_delete_None; [lia|].
    apply map_lookup_filter_None. right. intros y Hy. done.
Qed.

Lemma live_nonneg m k : (0 ≤ live m k)%Z.
Proof. unfold live. lia. Qed.

Lemma live_pos m k x : entries m !! k = Some x → (1 ≤ live m k.1)%Z.
Proof.
  intros Hk. pose proof (live_delete m k k.1 x ∅ 0%Z ∅ Hk) as H.
  rewrite bool_decide_true in H by done. pose proof (live_nonneg (MkReplay (delete k (entries m)) ∅ 0%Z ∅) k.1).
  lia.
Qed.

(** What one round of the sweep does to the counters. *)
Lemma sweep_entry_count m k k' x :
  counted m → entries m !! k = Some x →
  count_of (perKey (sweep_entry k m)) k' =
    (count_of (perKey m) k' - if bool_decide (k.1 = k') then 1 else 0)%Z.
Proof.
  intros Hc Hk. pose proof (Hc k.1). pose proof (live_pos m k x Hk). unfold sweep_entry. cbn.
  destruct (Z.ltb_spec 0 (count_of (perKey m) k.1)); [|lia].
  rewrite count_of_insert, bool_decide_true by done.
  destruct (Z.eqb_spec (count_of (perKey m) k.1 - 1) 0) as [E|E];
    rewrite ?count_of_delete, count_of_insert; case_bool_decide; subst; lia.
Qed.

Lemma sweep_entry_inv m k x :
  entries m !! k = Some x →
  (counted m → counted (sweep_entry k m)) ∧ (exact m → exact (sweep_entry k m)).
Proof.
  intros Hk.
  assert (exact m → counted m) as Hec by (intros H k'; rewrite H; lia).
  split; intros H k';
    (rewrite (sweep_entry_count m k k' x) by auto);
    unfold sweep_entry; rewrite (live_delete m k k' x) by done; specialize (H k'); lia.
Qed.

(** A property that each round preserves is preserved by the sweep. *)
Lemma sweepLocked_ind (P : MemoryReplayStore → Prop) now m :
  (∀ m k x, entries m !! k = Some x → After now x = true → P m → P (sweep_entry k m)) →
  P m → P (sweepLocked now m).
Proof.
  intros Hstep HP. unfold sweepLocked.
  assert (Hks : Forall (λ k, ∃ x, entries m !! k = Some x ∧ After now x = true) (expired_keys now m)).
  { apply Forall_forall. intros k Hk. unfold expired_keys in Hk.
    apply list_elem_of_fmap in Hk as ([k0 x] & -> & Hk). apply elem_of_map_to_list in Hk.
    apply map_lookup_filter_Some in Hk as [? ?]. by exists x. }
  assert (Hnd : NoDup (expired_keys now m)) by apply NoDup_fst_map_to_list.
  revert HP Hks Hnd. generalize (expired_keys now m). intros ks. revert m.
  induction ks as [|k ks IH]; intros m HP Hks Hnd; [done|]. cbn.
  apply NoDup_cons in Hnd as [Hni Hnd]. apply Forall_cons in Hks as [(x & Hx & Ha) Hks].
  apply IH; [by eapply Hstep| |done].
  rewrite Forall_forall in Hks |- *. intros k' Hk'. destruct (Hks k' Hk') as (y & Hy & Hb).
  exists y. split; [|done]. cbn. rewrite lookup_delete_ne; [done|]. by intros ->.
Qed.

Lemma sweepLocked_inv now m :
  (counted m → counted (sweepLocked now m)) ∧ (exact m → exact (sweepLocked now m)).
Proof.
  split; intros H.
  - apply (sweepLocked_ind counted); [|done]. intros m' k x Hk _ Hm. by eapply sweep_entry_inv.
  - apply (sweepLocked_ind exact); [|done]. intros m' k x Hk _ Hm. by eapply sweep_entry_inv.
Qed.

Lemma sweepLocked_cap now m : capPerK (sweepLocked now m) = capPerK m.
Proof. by apply (sweepLocked_ind (λ m', capPerK m' = capPerK m)). Qed.

Lemma foldl_sweep_lookup ks m k :
  entries (foldl (λ m k, sweep_entry k m) m ks) !! k =
    if bool_decide (k ∈ ks) then None else entries m !! k.
Proof.
  revert m. induction ks as [|k0 ks IH]; intros m; cbn.
  - by rewrite bool_decide_false by (by apply not_elem_of_nil).
  - rewrite IH. cbn. repeat case_bool_decide; try done.
    + exfalso. set_solver.
    + assert (k = k0) as -> by set_solver. by rewrite lookup_delete_eq.
    + rewrite lookup_delete_ne; [done|]. set_solver.
Qed.

(** A sweep deletes exactly the entries whose lifetime is over. *)
Lemma sweepLocked_lookup now m k :
  entries (sweepLocked now m) !! k =
    match entries m !! k with Some x => if After now x then None else Some x | None => None end.
Proof.
  unfold sweepLocked. rewrite foldl_sweep_lookup.
  assert (k ∈ expired_keys now m ↔ ∃ x, entries m !! k = Some x ∧ After now x = true) as Hiff.
  { unfold expired_keys. rewrite list_elem_of_fmap. split.
    - intros ([k0 x] & -> & Hk). apply elem_of_map_to_list in Hk.
      apply map_lookup_filter_Some in Hk as [? ?]. by exists x.
    - intros (x & Hx & Ha). exists (k, x). split; [done|]. apply elem_of_map_to_list.
      by apply map_lookup_filter_Some. }
  case_bool_decide as Hk.
  - apply Hiff in Hk as (x & -> & ->). done.
  - destruct (entries m !! k) as [x|] eqn:E; [|done].
    destruct (After now x) eqn:Ea; [|done]. destruct Hk. apply Hiff. by exists x.
Qed.

(** The excess of a keyid's counter over its entries. *)
Definition gap (m : MemoryReplayStore) (k : string) : Z := (count_of (perKey m) k - live m k)%Z.

Lemma counted_gap m : counted m ↔ ∀ k, (0 ≤ gap m k)%Z.
Proof. unfold counted, gap. split; intros H k; specialize (H k); lia. Qed.

Lemma sweepLocked_gap now m k : counted m → gap (sweepLocked now m) k = gap m k.
Proof.
  intros Hc. eapply (sweepLocked_ind (λ m', counted m' ∧ gap m' k = gap m k)); [|done].
  intros m' k' x Hk _ [Hc' Hg]. split; [by eapply sweep_entry_inv|].
  unfold gap in *. rewrite (sweep_entry_count m' k' k x) by done.
  unfold sweep_entry. rewrite (live_delete m' k' k x) by done. lia.
Qed.

Lemma record_entry_gap now p ttl m k :
  gap (record_entry now p ttl m) k =
    (gap m k + if bool_decide (p.1 = k ∧ is_Some (entries m !! p)) then 1 else 0)%Z.
Proof.
  unfold gap, record_entry. cbn. rewrite count_of_insert, live_insert.
  destruct (decide (p.1 = k)) as [<-|Hk].
  - rewrite (bool_decide_true (p.1 = p.1)) by done.
    destruct (entries m !! p) as [x|].
    + rewrite bool_decide_false by naive_solver. rewrite bool_decide_true by eauto. lia.
    + rewrite bool_decide_true by done. rewrite bool_decide_false by (intros [_ [? ?]]; done). lia.
  - rewrite !bool_decide_false by naive_solver. lia.
Qed.

(** ** Histories of operations *)

Inductive rop :=
  | RSeen (now : Time) (keyid nonce : string)
  | RInsert (now : Time) (keyid nonce : string) (ttl : Duration)
  | RClaim (now : Time) (keyid nonce : string) (ttl : Duration)
  | RMark (keyid : string).

Definition run_rop (m : MemoryReplayStore) (o : rop) : MemoryReplayStore :=
  match o with
  | RSeen now k n => (memory_Seen m now k n).2
  | RInsert now k n ttl => (memory_Insert m now k n ttl).2
  | RClaim now k n ttl => (Claim m now k n ttl).2
  | RMark k => MarkKeyIDAtCap m k
  end.

(** The operation counts a pair that is already there. *)
Definition recounts (m : MemoryReplayStore) (o : rop) (k : string) : Prop :=
  match o with
  | RInsert now k' n ttl =>
      k' = k ∧ memory_HitCap (sweepLocked now m) k' = false ∧
      is_Some (entries (sweepLocked now m) !! (k', n))
  | _ => False
  end.

#[export] Instance recounts_dec m o k : Decision (recounts m o k).
Proof. destruct o; cbn; apply _. Defined.

Lemma run_rop_gap m o k :
  counted m → gap (run_rop m o) k = (gap m k + if bool_decide (recounts m o k) then 1 else 0)%Z.
Proof.
  intros Hc. case_bool_decide as Hr; destruct o as [now k' n|now k' n ttl|now k' n ttl|k'];
    cbn [run_rop recounts] in *; try done.
  - destruct Hr as (<- & Hh & Hs). unfold memory_Insert. rewrite Hh. cbn [snd].
    rewrite record_entry_gap, sweepLocked_gap by done. by rewrite bool_decide_true.
  - unfold memory_Seen. cbn [snd]. rewrite sweepLocked_gap by done. lia.
  - unfold memory_Insert. destruct (memory_HitCap (sweepLocked now m) k') eqn:Hh; cbn [snd].
    + rewrite sweepLocked_gap by done. lia.
    + rewrite record_entry_gap, sweepLocked_gap by done. cbn [fst].
      rewrite bool_decide_false by naive_solver. lia.
  - unfold Claim.
    destruct (entries _ !! _) eqn:E; cbn [snd]; [rewrite sweepLocked_gap by done; lia|].
    destruct (memory_HitCap _ _); cbn [snd]; [rewrite sweepLocked_gap by done; lia|].
    rewrite record_entry_gap, sweepLocked_gap by done. rewrite E.
    rewrite bool_decide_false by (intros [_ [? ?]]; done). lia.
  - unfold gap, live. cbn. lia.
Qed.

Lemma run_rop_counted m o : counted m → counted (run_rop m o).
Proof.
  intros Hc. apply counted_gap. intros k. rewrite run_rop_gap by done.
  apply counted_gap with (k := k) in Hc. case_bool_decide; lia.
Qed.

(** Counters never exceed the cap. *)
Definition capped (m : MemoryReplayStore) : Prop :=
  (0 < capPerK m)%Z ∧ ∀ k, (count_of (perKey m) k ≤ capPerK m)%Z.

Lemma sweepLocked_count_le now m k :
  counted m → (count_of (perKey (sweepLocked now m)) k ≤ count_of (perKey m) k)%Z.
Proof.
  intros Hc.
  assert (counted (sweepLocked now m) ∧
          (count_of (perKey (sweepLocked now m)) k ≤ count_of (perKey m) k)%Z) as [_ H]; [|done].
  apply (sweepLocked_ind (λ m', counted m' ∧ (count_of (perKey m') k ≤ count_of (perKey m) k)%Z));
    [|by split].
  intros m' k' x Hk _ [Hc' Hg]. split; [by eapply sweep_entry_inv|].
  rewrite (sweep_entry_count m' k' k x) by done. case_bool_decide; lia.
Qed.

Lemma sweepLocked_capped now m : counted m → capped m → capped (sweepLocked now m).
Proof.
  intros Hc [H0 H1]. split; rewrite sweepLocked_cap; [done|]. intros k.
  pose proof (sweepLocked_count_le now m k Hc). specialize (H1 k). lia.
Qed.

Lemma record_entry_capped now p ttl m :
  memory_HitCap m p.1 = false → capped m → capped (record_entry now p ttl m).
Proof.
  intros Hh [H0 H1]. split; [done|]. intros k. cbn. rewrite count_of_insert.
  unfold memory_HitCap in Hh. bool_prop. case_bool_decide; [subst; lia|apply H1].
Qed.

Lemma run_rop_capped m o : counted m → capped m → capped (run_rop m o).
Proof.
  intros Hc Hm. destruct o as [now k n|now k n ttl|now k n ttl|k]; cbn [run_rop].
  - by apply sweepLocked_capped.
  - unfold memory_Insert. destruct (memory_HitCap _ k) eqn:E; cbn [snd];
      [|apply record_entry_capped; [done|]]; by apply sweepLocked_capped.
  - unfold Claim. destruct (_ !! _); [by apply sweepLocked_capped|].
    destruct (memory_HitCap _ k) eqn:E; cbn [snd];
      [|apply record_entry_capped; [done|]]; by apply sweepLocked_capped.
  - exact Hm.
Qed.

(** An operation that may change the lifetime of the pair, or runs after it. *)
Definition leaves (o : rop) (k n : string) (x : Time) : Prop :=
  match o with
  | RSeen now _ _ | RClaim now _ _ _ => (now ≤ x)%Z
  | RInsert now k' n' _ => (now ≤ x)%Z ∧ (k', n') ≠ (k, n)
  | RMark _ => True
  end.

Lemma sweepLocked_alive now m k x :
  entries m !! k = Some x → (now ≤ x)%Z → entries (sweepLocked now m) !! k = Some x.
Proof.
  intros Hk Hx. rewrite sweepLocked_lookup, Hk. unfold After.
  by rewrite (proj2 (Z.ltb_ge x now)).
Qed.

Lemma run_rop_alive m o k n x :
  entries m !! (k, n) = Some x → leaves o k n x → entries (run_rop m o) !! (k, n) = Some x.
Proof.
  intros Hk Hl. destruct o as [now k' n'|now k' n' ttl|now k' n' ttl|k']; cbn [run_rop leaves] in *.
  - by apply sweepLocked_alive.
  - destruct Hl as [Hl Hne]. unfold memory_Insert. destruct (memory_HitCap _ k'); cbn [snd].
    + by apply sweepLocked_alive.
    + cbn. rewrite lookup_insert_ne by done. by apply sweepLocked_alive.
  - unfold Claim. pose proof (sweepLocked_alive now m _ _ Hk Hl) as Ha.
    destruct (entries (sweepLocked now m) !! (k', n')) eqn:E; [done|].
    destruct (memory_HitCap _ k'); cbn [snd]; [done|]. cbn.
    rewrite lookup_insert_ne; [done|]. congruence.
  - done.
Qed.

#[export] Program Instance memory_replay_spec : ReplayStoreSpec MemoryReplayStore := {
  live_until m k n := entries m !! (k, n);
}.
Next Obligation.
  intros m now k n. cbn. rewrite sweepLocked_lookup. unfold After.
  destruct (entries m !! (k, n)) as [x|]; [|done].
  destruct (Z.ltb_spec x now), (Z.leb_spec now x); try lia; done.
Qed.
Next Obligation. intros m now k n k' n' x Hk Hx. cbn. by apply sweepLocked_alive. Qed.
Next Obligation.
  intros m now k n ttl. cbn. unfold memory_Insert. destruct (memory_HitCap _ k); [done|].
  intros _. cbn. apply lookup_insert_eq.
Qed.
Next Obligation.
  intros m now k n ttl k' n' x Hk Hx Hne. cbn.
  apply (run_rop_alive m (RInsert now k n ttl)); [done|]. split; [done|congruence].
Qed.

(** ** Properties *)

(** the replay cache accounts for its entries in every history of Seen,
    Insert, Claim and MarkKeyIDAtCap: each keyid's counter is never below its
    entries and never above the cap, so a keyid never holds more live nonces
    than the cap. *)
Theorem replay_bounded (cap : Z) (ops : list rop) (k : string) :
  let m := foldl run_rop (NewMemoryReplayStore cap) ops in
  (0 ≤ live m k ≤ count_of (perKey m) k)%Z ∧ (count_of (perKey m) k ≤ capPerK m)%Z ∧
  capPerK m = (if (cap <=? 0)%Z then defaultKeyIDCap else cap).
Proof.
  cbn zeta. set (m0 := NewMemoryReplayStore cap).
  assert (counted m0 ∧ capped m0 ∧ capPerK m0 = (if (cap <=? 0)%Z then defaultKeyIDCap else cap)) as H0.
  { split; [|split; [split|done]].
    - intros k'. unfold live. cbn. rewrite map_filter_empty. by rewrite map_size_empty.
    - cbn. unfold defaultKeyIDCap. destruct (Z.leb_spec cap 0); lia.
    - intros k'. change (count_of (perKey m0) k') with 0%Z. cbn. unfold defaultKeyIDCap.
      destruct (Z.leb_spec cap 0); lia. }
  assert (∀ m, (counted m ∧ capped m ∧ capPerK m = (if (cap <=? 0)%Z then defaultKeyIDCap else cap)) →
    let m' := foldl run_rop m ops in
    counted m' ∧ capped m' ∧ capPerK m' = (if (cap <=? 0)%Z then defaultKeyIDCap else cap)) as Hall.
  { induction ops as [|o ops IH]; intros m (Hc & Hp & Hk); [done|]. cbn. apply IH.
    split_and!; [by apply run_rop_counted|by apply run_rop_capped|].
    rewrite <- Hk. destruct o; cbn; unfold memory_Insert, Claim; repeat case_match; cbn;
      by rewrite ?sweepLocked_cap. }
  destruct (Hall m0 H0) as (Hc & [_ Hp] & Hk). split_and!; [apply live_nonneg|apply Hc|apply Hp|done].
Qed.

(** [Claim] claims a pair once: after it has claimed (keyid, nonce) for a
    lifetime, every later claim of the pair within that lifetime reports a
    replay, whatever other operations come between. *)
Theorem claim_once m now k n ttl m' ops now' ttl' :
  Claim m now k n ttl = (ReplayClaimed, m') →
  Forall (λ o, leaves o k n (Add now ttl)) ops → (now' ≤ Add now ttl)%Z →
  (Claim (foldl run_rop m' ops) now' k n ttl').1 = ReplayReplayed.
Proof.
  intros Hcl Hops Hnow.
  assert (entries m' !! (k, n) = Some (Add now ttl)) as Hk.
  { unfold Claim in Hcl. destruct (entries (sweepLocked now m) !! (k, n)); [done|].
    destruct (memory_HitCap _ k); [done|]. injection Hcl as <-. apply lookup_insert_eq. }
  assert (entries (foldl run_rop m' ops) !! (k, n) = Some (Add now ttl)) as Hk'.
  { clear Hcl. revert m' Hk. induction Hops as [|o ops Ho Hops IH]; intros m' Hk; [done|].
    cbn. apply IH. by apply run_rop_alive. }
  unfold Claim. by rewrite (sweepLocked_alive _ _ _ _ Hk' Hnow).
Qed.

Lemma claim_once_witness :
  (Claim (foldl run_rop (Claim (NewMemoryReplayStore 2) 10 "k" "n" 5).2
      [RSeen 12 "k" "n"; RClaim 13 "k" "m" 1])%Z 15 "k" "n" 9).1 = ReplayReplayed.
Proof.
  apply (claim_once (NewMemoryReplayStore 2) 10 "k" "n" 5).
  - reflexivity.
  - repeat constructor; cbn; unfold Add; lia.
  - unfold Add; lia.
Defined.

(** the gap between a keyid's counter and its entries never closes: an
    operation raises it by one exactly when [Insert] records a pair that is
    already live, and nothing lowers it, expiry included.  So each concurrent
    copy of a request that passes [Seen] before the other's [Insert] costs its
    keyid one slot of the cap for good. *)
Theorem replay_gap_permanent m o k :
  counted m →
  gap (run_rop m o) k = (gap m k + if bool_decide (recounts m o k) then 1 else 0)%Z ∧
  counted (run_rop m o).
Proof. intros Hc. split; [by apply run_rop_gap|by apply run_rop_counted]. Qed.

Lemma replay_gap_permanent_witness :
  let m := foldl run_rop (NewMemoryReplayStore 2) [RInsert 10 "k" "n" 5]%Z in
  gap (run_rop m (RInsert 10 "k" "n" 5)%Z) "k" = 1%Z.
Proof.
  intros m.
  assert (counted m) as Hc.
  { apply run_rop_counted. intros k. vm_compute. discriminate. }
  pose proof (proj1 (replay_gap_permanent m (RInsert 10 "k" "n" 5)%Z "k" Hc)) as H.
  rewrite H. vm_compute. reflexivity.
Defined.
