(* ===== verification/SigTypes.v ===== *)
(** * SigTypes: error codes, profiles and constants of the signing package

    [src/adcp/v3/signing/errors.go], [types.go] and the result type of
    [verifyrequest.go]. *)
From S2P Require Import Prelude GoStrings Base64.
From stdpp Require Import options.

(** ** Error codes *)

Inductive ErrorCode :=
  | CodeRequired | CodeHeaderMalformed | CodeTargetURIMalformed | CodeParamsIncomplete
  | CodeTagInvalid | CodeAlgNotAllowed | CodeWindowInvalid | CodeComponentsIncomplete
  | CodeComponentsUnexpected | CodeKeyUnknown | CodeKeyPurposeInvalid | CodeKeyRevoked
  | CodeRevocationStale | CodeInvalid | CodeDigestMismatch | CodeReplayed | CodeRateAbuse
  | CodeJWKSUnavailable | CodeJWKSUntrusted.

#[export] Instance ErrorCode_eq_dec : EqDecision ErrorCode.
Proof. solve_decision. Defined.

Definition legacy : string := "request_signature_".

(** The Go string of a code. *)
Definition code_string (c : ErrorCode) : string :=
  match c with
  | CodeRequired => "request_signature_required"
  | CodeHeaderMalformed => "request_signature_header_malformed"
  | CodeTargetURIMalformed => "request_target_uri_malformed"
  | CodeParamsIncomplete => "request_signature_params_incomplete"
  | CodeTagInvalid => "request_signature_tag_invalid"
  | CodeAlgNotAllowed => "request_signature_alg_not_allowed"
  | CodeWindowInvalid => "request_signature_window_invalid"
  | CodeComponentsIncomplete => "request_signature_components_incomplete"
  | CodeComponentsUnexpected => "request_signature_components_unexpected"
  | CodeKeyUnknown => "request_signature_key_unknown"
  | CodeKeyPurposeInvalid => "request_signature_key_purpose_invalid"
  | CodeKeyRevoked => "request_signature_key_revoked"
  | CodeRevocationStale => "request_signature_revocation_stale"
  | CodeInvalid => "request_signature_invalid"
  | CodeDigestMismatch => "request_signature_digest_mismatch"
  | CodeReplayed => "request_signature_replayed"
  | CodeRateAbuse => "request_signature_rate_abuse"
  | CodeJWKSUnavailable => "request_signature_jwks_unavailable"
  | CodeJWKSUntrusted => "request_signature_jwks_untrusted"
  end.

(** An [error] of the package: the typed [*Error], or any other error value. *)
Inductive error :=
  | Error (Code : ErrorCode) (Detail : string) (Wrapped : option error)
  | OtherError (text : string).

Definition newError (code : ErrorCode) (detail : string) : error := Error code detail None.
Definition wrapError (code : ErrorCode) (detail : string) (cause : error) : error :=
  Error code detail (Some cause).

(** [AsError]: the [*Error] in the tree, if there is one ([OtherError] wraps
    nothing). *)
Definition AsError (e : error) : option error :=
  match e with Error _ _ _ => Some e | OtherError _ => None end.

Definition error_code (e : error) : option ErrorCode :=
  match e with Error c _ _ => Some c | OtherError _ => None end.

Definition ErrorText (e : error) : string :=
  match e with
  | Error c d _ => if negb (bool_decide (d = "")) then code_string c +:+ ": " +:+ d else code_string c
  | OtherError t => t
  end.

(** ** Algorithms, policies, profiles *)

Definition AlgEd25519 : string := "ed25519".
Definition AlgES256 : string := "ecdsa-p256-sha256".
Definition jwkAlgEdDSA : string := "EdDSA".
Definition jwkAlgES256 : string := "ES256".

Definition Allowed (a : string) : bool :=
  bool_decide (a = AlgEd25519) || bool_decide (a = AlgES256).

Inductive DigestPolicy := DigestUnset | DigestRequired | DigestForbidden | DigestEither.

Record Profile := MkProfile {
  Tag : string;
  AdcpUse : string;
  ErrorPrefix : string;
  SigEncoding : BinaryEncoding;
  DigestEncoding : BinaryEncoding;
}.

Definition contentDigestEncoding (p : Profile) : BinaryEncoding :=
  match DigestEncoding p with BinaryEncodingUnset => SigEncoding p | e => e end.

Definition ProfileRequestSigning : Profile :=
  MkProfile "adcp/request-signing/v1" "request-signing" "request_signature_"
    BinaryEncodingBase64URL BinaryEncodingBase64URL.
Definition ProfileRequestSigningLegacy : Profile := ProfileRequestSigning.
Definition ProfileRequestSigningRC : Profile :=
  MkProfile "adcp/request-signing/v1" "request-signing" "request_signature_"
    BinaryEncodingRFC8941 BinaryEncodingRFC8941.
Definition ProfileWebhookSigning : Profile :=
  MkProfile "adcp/webhook-signing/v1" "webhook-signing" "webhook_signature_"
    BinaryEncodingBase64URL BinaryEncodingRFC8941.

(** [Error.WireCode]. *)
Definition WireCode (c : ErrorCode) (p : Profile) : string :=
  let code := code_string c in
  if bool_decide (ErrorPrefix p = "") || bool_decide (ErrorPrefix p = ErrorPrefix ProfileRequestSigning)
  then code
  else if HasPrefix code legacy then ErrorPrefix p +:+ sdrop (len legacy) code
  else code.

(** ** Constants *)

Definition componentMethod : string := "@method".
Definition componentTargetURI : string := "@target-uri".
Definition componentAuthority : string := "@authority".
Definition componentContentType : string := "content-type".
Definition componentContentDigst : string := "content-digest".
Definition sigParamsComponent : string := "@signature-params".
Definition signatureInputHeader : string := "Signature-Input".
Definition signatureHeader : string := "Signature".
Definition contentDigestHeader : string := "Content-Digest".
Definition contentTypeHeader : string := "Content-Type".
Definition maxWindowSeconds : Z := 300%Z.
Definition skewSeconds : Z := 60%Z.
Definition minNonceBytes : nat := 16.
Definition defaultMaxBodyBytes : Z := 33554432%Z.
Definition maxSignatureInputLen : Z := 8192%Z.
Definition maxSignatureLen : Z := 8192%Z.
Definition maxNonceLen : nat := 256.
Definition maxKeyIDLen : nat := 256.
Definition maxCoveredComponents : nat := 32.

(** The length of a Go string as the [int] it is compared with. *)
Definition zlen (s : string) : Z := Z.of_nat (len s).

Record VerifiedSigner := MkSigner {
  KeyID : string;
  AgentURL : string;
  VerifiedAt : Z;
  SignerAlgorithm : string;
  Label : string;
  CoveredComponents : list string;
  SignerProfile : string;
}.

(** ** The tri-state result *)

Inductive VerifyStatus := StatusUnknown | StatusVerified | StatusUnsigned | StatusRejected.

Definition status_string (s : VerifyStatus) : string :=
  match s with
  | StatusVerified => "verified"
  | StatusUnsigned => "unsigned"
  | StatusRejected => "rejected"
  | StatusUnknown => "unknown"
  end.

Record VerifyResult := MkVerifyResult {
  Status : VerifyStatus;
  Signer : option VerifiedSigner;
  ResultError : option error;
}.

(** ** Properties *)

(** The wire codes of the two profiles never collide: a code under the
    webhook profile equals one under the request profile only if it is the
    target-URI code, which has no profile prefix; and within a profile distinct
    codes have distinct wire codes. *)
Theorem WireCode_distinct c1 c2 :
  (WireCode c1 ProfileWebhookSigning = WireCode c2 ProfileRequestSigning →
     c1 = CodeTargetURIMalformed ∧ c2 = CodeTargetURIMalformed) ∧
  (WireCode c1 ProfileWebhookSigning = WireCode c2 ProfileWebhookSigning → c1 = c2) ∧
  (WireCode c1 ProfileRequestSigning = WireCode c2 ProfileRequestSigning → c1 = c2).
Proof.
  set (codes := [CodeRequired; CodeHeaderMalformed; CodeTargetURIMalformed; CodeParamsIncomplete;
    CodeTagInvalid; CodeAlgNotAllowed; CodeWindowInvalid; CodeComponentsIncomplete;
    CodeComponentsUnexpected; CodeKeyUnknown; CodeKeyPurposeInvalid; CodeKeyRevoked;
    CodeRevocationStale; CodeInvalid; CodeDigestMismatch; CodeReplayed; CodeRateAbuse;
    CodeJWKSUnavailable; CodeJWKSUntrusted]).
  assert (∀ c, c ∈ codes) as Hin by (intros []; unfold codes; set_solver).
  set (chk := λ c1 c2,
    implb (bool_decide (WireCode c1 ProfileWebhookSigning = WireCode c2 ProfileRequestSigning))
      (bool_decide (c1 = CodeTargetURIMalformed) && bool_decide (c2 = CodeTargetURIMalformed)) &&
    implb (bool_decide (WireCode c1 ProfileWebhookSigning = WireCode c2 ProfileWebhookSigning))
      (bool_decide (c1 = c2)) &&
    implb (bool_decide (WireCode c1 ProfileRequestSigning = WireCode c2 ProfileRequestSigning))
      (bool_decide (c1 = c2))).
  assert (forallb (λ c, forallb (chk c) codes) codes = true) as H by (vm_compute; reflexivity).
  apply forallb_forall_Forall in H. rewrite Forall_forall in H. specialize (H c1 (Hin c1)).
  apply forallb_forall_Forall in H. rewrite Forall_forall in H. specialize (H c2 (Hin c2)).
  unfold chk in H. apply andb_true_iff in H as [[H1 H2]%andb_true_iff H3].
  split_and!; intros E.
  - rewrite bool_decide_true in H1 by done. cbn in H1. apply andb_true_iff in H1 as [??].
    split; by eapply bool_decide_eq_true.
  - rewrite bool_decide_true in H2 by done. by eapply bool_decide_eq_true.
  - rewrite bool_decide_true in H3 by done. by eapply bool_decide_eq_true.
Qed.
