(* ===== verification/SigInput.v ===== *)
(** * SigInput: the Signature-Input and Signature headers

    [src/adcp/v3/signing/signatureinput.go], and the serialisation
    [formatSigParams] of [sign.go].  The Go code walks an index through the
    header; here a parser returns what is left of it.  Details that quote input
    with [%q] are given without it. *)
From S2P Require Import Prelude GoStrings Bytes Base64 SigTypes.
From stdpp Require Import options.

Definition malformed (detail : string) : error := newError CodeHeaderMalformed detail.

(** ** Scanning outside quoted strings *)

(** The index of the first byte satisfying [stop] outside a double-quoted
    string; a backslash inside a quoted string hides the byte after it. *)
Fixpoint scan_top (stop : ascii → bool) (inQuote : bool) (s : string) : option nat :=
  match s with
  | "" => None
  | String c s' =>
      if inQuote && beq c backslash then
        match s' with
        | "" => None
        | String _ s'' => S <$> (S <$> scan_top stop inQuote s'')
        end
      else if beq c quote then S <$> scan_top stop (negb inQuote) s'
      else if negb inQuote && stop c then Some 0
      else S <$> scan_top stop inQuote s'
  end.

(** The index of the [)] that closes the [(] at the start. *)
Definition findMatchingClose (s : string) : option nat :=
  match s with
  | String c s' => if beq c "(" then S <$> scan_top (beq ")") false s' else None
  | "" => None
  end.

Definition findParamsEnd (s : string) : nat := default (len s) (scan_top (beq ",") false s).

(** The index of the [=] of a parameter, [None] when a [;] comes first. *)
Definition indexParamSeparator (s : string) : option nat :=
  i ← scan_top (λ c, beq c "=" || beq c ";") false s;
  match sdrop i s with
  | String c _ => if beq c "=" then Some i else None
  | "" => None
  end.

Definition is_sep (c : ascii) : bool := beq c " " || beq c (byte 9) || beq c ",".

Fixpoint skip_sep (s : string) : string :=
  match s with String c s' => if is_sep c then skip_sep s' else s | "" => "" end.

Fixpoint skip_ows (s : string) : string :=
  match s with String c s' => if is_ows c then skip_ows s' else s | "" => "" end.

(** After an opening quote: the bytes up to the closing one, escapes left as
    they are, and the rest. *)
Fixpoint take_quoted (s : string) : option (string * string) :=
  match s with
  | "" => None
  | String c s' =>
      if beq c quote then Some ("", s')
      else if beq c backslash then
        match s' with
        | "" => None
        | String d s'' =>
            '(v, rest) ← take_quoted s''; Some (String c (String d v), rest)
        end
      else '(v, rest) ← take_quoted s'; Some (String c v, rest)
  end.

(** ** Covered components *)

Fixpoint parse_components (fuel : nat) (comps : list string) (s : string) :
    result error (list string) :=
  match fuel with
  | O => Err (OtherError "out of fuel")
  | S fuel =>
      if bool_decide (s = "") then Ok comps
      else if (maxCoveredComponents <=? length comps)%nat
      then Err (malformed "too many covered components")
      else
        match skip_ows s with
        | "" => Ok comps
        | String c s' =>
            if negb (beq c quote) then Err (malformed "component not quoted") else
            match take_quoted s' with
            | None => Err (malformed "unterminated component string")
            | Some (v, rest) => parse_components fuel (comps ++ [v]) rest
            end
        end
  end.

Definition parseComponentList (inside : string) : result error (list string) :=
  parse_components (S (len inside)) [] inside.

(** ** Parameters *)

Inductive paramValue := PString (s : string) | PInt (n : Z) | PToken (s : string).

(** An unquoted value: up to a [;] or [,]. *)
Fixpoint span_value (s : string) : string * string :=
  match s with
  | "" => ("", "")
  | String c s' =>
      if beq c ";" || beq c "," then ("", s)
      else let '(v, rest) := span_value s' in (String c v, rest)
  end.

(** The value at the start of [s] and what follows it. *)
Definition readParamValue (s : string) : result error (paramValue * string) :=
  match s with
  | "" => Err (malformed "empty param value")
  | String c s' =>
      if beq c quote then
        match take_quoted s' with
        | None => Err (malformed "unterminated param string")
        | Some (v, rest) => Ok (PString v, rest)
        end
      else
        let '(v, rest) := span_value s in
        let tok := TrimSpace v in
        if bool_decide (tok = "") then Err (malformed "empty unquoted param value") else
        match ParseInt tok with
        | Some n => Ok (PInt n, rest)
        | None => Ok (PToken tok, rest)
        end
  end.

(** [sigInput]; an unset optional is the [xSet] flag being false. *)
Record sigInput := MkSigInput {
  label : string;
  components : list string;
  paramsText : string;
  created : option Z;
  expires : option Z;
  nonce : option string;
  keyID : option string;
  alg : option string;
  tag : option string;
  seenParams : list string;
}.

Definition set_seen (si : sigInput) (l : list string) : sigInput :=
  MkSigInput (label si) (components si) (paramsText si) (created si) (expires si) (nonce si)
    (keyID si) (alg si) (tag si) l.

Definition setParam (si : sigInput) (name : string) (v : paramValue) : result error sigInput :=
  if bool_decide (name ∈ seenParams si) then Err (malformed ("duplicate param " +:+ name)) else
  let si := set_seen si (name :: seenParams si) in
  let '(MkSigInput l cs t cr ex no ki al ta seen) := si in
  if bool_decide (name = "created") then
    match v with
    | PInt n => Ok (MkSigInput l cs t (Some n) ex no ki al ta seen)
    | _ => Err (malformed "created must be integer")
    end
  else if bool_decide (name = "expires") then
    match v with
    | PInt n => Ok (MkSigInput l cs t cr (Some n) no ki al ta seen)
    | _ => Err (malformed "expires must be integer")
    end
  else if bool_decide (name = "nonce") then
    match v with
    | PString s =>
        if (maxNonceLen <? len s)%nat then Err (malformed "nonce too long")
        else Ok (MkSigInput l cs t cr ex (Some s) ki al ta seen)
    | _ => Err (malformed "nonce must be a quoted string")
    end
  else if bool_decide (name = "keyid") then
    match v with
    | PString s =>
        if (maxKeyIDLen <? len s)%nat then Err (malformed "keyid too long")
        else Ok (MkSigInput l cs t cr ex no (Some s) al ta seen)
    | _ => Err (malformed "keyid must be a quoted string")
    end
  else if bool_decide (name = "alg") then
    match v with
    | PString s => Ok (MkSigInput l cs t cr ex no ki (Some s) ta seen)
    | _ => Err (malformed "alg must be a quoted string")
    end
  else if bool_decide (name = "tag") then
    match v with
    | PString s => Ok (MkSigInput l cs t cr ex no ki al (Some s) seen)
    | _ => Err (malformed "tag must be a quoted string")
    end
  else Ok si.

(** The loop of [parseParams]. *)
Fixpoint parse_params (fuel : nat) (si : sigInput) (rest : string) : result error sigInput :=
  match fuel with
  | O => Err (OtherError "out of fuel")
  | S fuel =>
      match rest with
      | "" => Ok si
      | String c rest =>
          if negb (beq c ";") then Err (malformed "expected ; between params") else
          match indexParamSeparator rest with
          | None => Err (malformed "param missing =")
          | Some eq =>
              let name := TrimSpace (stake eq rest) in
              '(v, rest) ← readParamValue (sdrop (S eq) rest);
              si ← setParam si name v;
              parse_params fuel si rest
          end
      end
  end.

Definition parseParams (si : sigInput) (raw : string) : result error sigInput :=
  match raw with
  | "" => Ok si
  | String c _ =>
      if negb (beq c ";") then Err (malformed "params must start with ;")
      else parse_params (S (len raw)) si raw
  end.

(** ** Labels *)

Definition label_char (c : ascii) : bool :=
  between 97 122 c || is_digit c || beq c "_" || beq c "-" || beq c "." || beq c "*".

Definition isValidLabel (l : string) : bool :=
  match l with
  | "" => false
  | String c l' => (between 97 122 c || beq c "*") && all_bytes label_char l'
  end.

(** [dictLabels]: [None] when an entry has not the inner-list shape. *)
Fixpoint dict_labels (fuel : nat) (out : list string) (s : string) : option (list string) :=
  match fuel with
  | O => None
  | S fuel =>
      let rest := skip_sep s in
      if bool_decide (rest = "") then Some out else
      eq ← IndexByte rest "=";
      if (eq <=? 0)%nat then None else
      let lbl := TrimSpace (stake eq rest) in
      let rest := skip_ows (sdrop (S eq) rest) in
      close ← findMatchingClose rest;
      let rest := sdrop (S close) rest in
      dict_labels fuel (out ++ [lbl]) (sdrop (findParamsEnd rest) rest)
  end.

Definition dictLabels (s : string) : option (list string) := dict_labels (S (len s)) [] s.

(** ** Signature-Input *)

Definition parseSignatureInput (header : string) : result error sigInput :=
  let header := TrimSpace header in
  if bool_decide (header = "") then Err (malformed "empty Signature-Input header") else
  if (maxSignatureInputLen <? zlen header)%Z
  then Err (malformed "Signature-Input header too long") else
  match IndexByte header "=" with
  | None | Some O => Err (malformed "missing = in Signature-Input")
  | Some eq =>
      let lbl := TrimSpace (stake eq header) in
      if negb (isValidLabel lbl) then Err (malformed "invalid label in Signature-Input") else
      let rest := skip_ows (sdrop (S eq) header) in
      if negb (HasPrefix rest "(") then Err (malformed "expected '(' after label") else
      match findMatchingClose rest with
      | None => Err (malformed "unterminated covered components")
      | Some close =>
          let inside := stake (close - 1) (sdrop 1 rest) in
          comps ← parseComponentList inside;
          let afterClose := sdrop (S close) rest in
          let paramsEnd := findParamsEnd afterClose in
          let paramsRaw := stake paramsEnd afterClose in
          let si := MkSigInput lbl comps (stake (S close) rest +:+ paramsRaw)
                      None None None None None None [] in
          si ← parseParams si paramsRaw;
          let remaining := sdrop paramsEnd afterClose in
          if bool_decide (remaining = "") then Ok si else
          match dictLabels remaining with
          | None => Err (malformed "malformed Signature-Input dictionary")
          | Some labels =>
              if bool_decide (NoDup (lbl :: labels)) then Ok si
              else Err (malformed "duplicate label in Signature-Input")
          end
      end
  end.

(** ** Signature *)

(** The loop of [parseSignature] over the entries of the header. *)
Fixpoint parse_signature (fuel : nat) (lbl0 : string) (seen : list string) (value : option string)
    (s : string) : result error string :=
  match fuel with
  | O => Err (OtherError "out of fuel")
  | S fuel =>
      let rest := skip_sep s in
      if bool_decide (rest = "") then
        opt_err (malformed "label not found in Signature header") value
      else
        match IndexByte rest "=" with
        | None | Some O => Err (malformed "Signature missing =")
        | Some eq =>
            let lbl := TrimSpace (stake eq rest) in
            match skip_ows (sdrop (S eq) rest) with
            | "" => Err (malformed "Signature value missing :")
            | String c rest =>
                if negb (beq c ":") then Err (malformed "Signature value missing :") else
                match IndexByte rest ":" with
                | None => Err (malformed "Signature value unterminated")
                | Some e =>
                    if bool_decide (lbl ∈ seen)
                    then Err (malformed "duplicate label in Signature header") else
                    let value := if bool_decide (lbl = lbl0) then Some (stake e rest) else value in
                    parse_signature fuel lbl0 (lbl :: seen) value (sdrop (S e) rest)
                end
            end
        end
  end.

Definition parseSignature (header lbl : string) : result error string :=
  let header := TrimSpace header in
  if bool_decide (header = "") then Err (malformed "empty Signature header") else
  if (maxSignatureLen <? zlen header)%Z then Err (malformed "Signature header too long") else
  parse_signature (S (len header)) lbl [] None header.

(** ** What the signer writes *)

Definition quoted (s : string) : string := String quote (s +:+ String quote "").

Definition formatSigParams (covered : list string) (created expires : Z)
    (nonce keyid alg tag : string) : string :=
  "(" +:+ Join (map quoted covered) " " +:+ ")" +:+
  ";created=" +:+ Itoa created +:+ ";expires=" +:+ Itoa expires +:+
  ";nonce=" +:+ quoted nonce +:+ ";keyid=" +:+ quoted keyid +:+
  ";alg=" +:+ quoted alg +:+ ";tag=" +:+ quoted tag.

(** ** Lengths, and the fuel of the loops *)

Lemma quote_not_backslash : beq quote backslash = false.
Proof. reflexivity. Qed.

#[local] Opaque quote backslash.
#[local] Arguments beq : simpl never.
#[local] Arguments is_sep : simpl never.
#[local] Arguments is_ows : simpl never.

Lemma skip_sep_len s : len (skip_sep s) ≤ len s.
Proof. induction s as [|c s IH]; cbn [skip_sep]; [done|]. destruct (is_sep c); rewrite ?len_cons; lia. Qed.

Lemma skip_ows_len s : len (skip_ows s) ≤ len s.
Proof. induction s as [|c s IH]; cbn [skip_ows]; [done|]. destruct (is_ows c); rewrite ?len_cons; lia. Qed.

Lemma take_quoted_len n : ∀ s v rest, len s ≤ n → take_quoted s = Some (v, rest) → len rest < len s.
Proof.
  induction n as [|n IH]; intros [|c s] v rest Hn; rewrite ?len_cons in Hn |- *; try done; [lia|].
  cbn [take_quoted]. destruct (beq c quote); [intros [= _ <-]; lia|].
  destruct (beq c backslash).
  - destruct s as [|d s]; [done|]. intros H. rewrite len_cons in *.
    destruct (take_quoted s) as [[v' rest']|] eqn:E; [|done]. cbn in H. injection H as _ <-.
    apply IH in E; lia.
  - intros H. destruct (take_quoted s) as [[v' rest']|] eqn:E; [|done]. cbn in H.
    injection H as _ <-. apply IH in E; lia.
Qed.

Lemma span_value_len s v rest : span_value s = (v, rest) → len rest ≤ len s.
Proof.
  revert v rest. induction s as [|c s IH]; intros v rest; cbn; [by intros [= _ <-]|].
  destruct (beq c ";" || beq c ","); [intros [= _ <-]; done|].
  destruct (span_value s) as [v' rest'] eqn:E. intros [= _ <-]. rewrite len_cons.
  specialize (IH _ _ eq_refl). lia.
Qed.

Lemma readParamValue_len s v rest : readParamValue s = Ok (v, rest) → len rest ≤ len s.
Proof.
  unfold readParamValue. destruct s as [|c s]; [done|]. destruct (beq c quote).
  - destruct (take_quoted s) as [[v' rest']|] eqn:E; [|done]. intros [= _ <-].
    apply (take_quoted_len (len s)) in E; [|done]. rewrite len_cons. lia.
  - destruct (span_value (String c s)) as [v' rest'] eqn:E. apply span_value_len in E.
    case_bool_decide; [done|]. destruct (ParseInt _); by intros [= _ <-].
Qed.

(** A malformed header is the only error of the loops: their fuel is enough. *)
Definition only_malformed {A} (r : result error A) : Prop :=
  match r with Ok _ => True | Err e => error_code e = Some CodeHeaderMalformed end.

Lemma parse_components_total fuel comps s :
  len s < fuel → only_malformed (parse_components fuel comps s).
Proof.
  revert comps s. induction fuel as [|fuel IH]; intros comps s Hf; [lia|].
  cbn [parse_components]. case_bool_decide; [done|].
  destruct (maxCoveredComponents <=? length comps)%nat; [done|].
  pose proof (skip_ows_len s) as Hs. destruct (skip_ows s) as [|c s']; [done|].
  destruct (beq c quote); [|done]. cbn [negb].
  destruct (take_quoted s') as [[v rest]|] eqn:E; [|done]. apply IH.
  apply (take_quoted_len (len s')) in E; [|done]. rewrite len_cons in Hs. lia.
Qed.

Lemma setParam_total si name v : only_malformed (setParam si name v).
Proof.
  unfold setParam. case_bool_decide; [done|]. destruct (set_seen _ _).
  repeat (case_bool_decide; [destruct v; repeat case_match; done|]). done.
Qed.

Lemma parse_params_total fuel si rest :
  len rest < fuel → only_malformed (parse_params fuel si rest).
Proof.
  revert si rest. induction fuel as [|fuel IH]; intros si rest Hf; [lia|].
  cbn [parse_params].
  destruct rest as [|c rest]; [done|]. rewrite len_cons in Hf.
  destruct (beq c ";"); [|done]. cbn [negb].
  destruct (indexParamSeparator rest) as [eq|]; [|done].
  assert (len (sdrop (S eq) rest) ≤ len rest) as Hd.
  { pose proof (f_equal len (stake_sdrop (S eq) rest)) as E. rewrite len_app in E. lia. }
  destruct (readParamValue (sdrop (S eq) rest)) as [[v rest']|e] eqn:E; cbn.
  - apply readParamValue_len in E.
    pose proof (setParam_total si (TrimSpace (stake eq rest)) v) as Hp.
    destruct (setParam _ _ _) as [si'|]; [|done]. cbn. apply IH. lia.
  - unfold readParamValue in E. repeat case_match; simplify_eq; done.
Qed.

Lemma parseComponentList_total s : only_malformed (parseComponentList s).
Proof. apply parse_components_total. lia. Qed.

Lemma parseParams_total si raw : only_malformed (parseParams si raw).
Proof.
  unfold parseParams. destruct raw as [|c raw]; [done|]. destruct (beq c ";"); [|done].
  apply parse_params_total. lia.
Qed.

Lemma parse_signature_total fuel lbl0 seen value s :
  len s < fuel → only_malformed (parse_signature fuel lbl0 seen value s).
Proof.
  revert seen value s. induction fuel as [|fuel IH]; intros seen value s Hf; [lia|].
  cbn [parse_signature].
  pose proof (skip_sep_len s) as Hs. case_bool_decide as Hr; [by destruct value|].
  destruct (IndexByte (skip_sep s) "=") as [[|eq]|] eqn:E; try done.
  apply IndexByte_Some in E as (t & Heq & _ & _ & ->).
  apply (f_equal len) in Heq. rewrite len_app, len_cons in Heq.
  pose proof (skip_ows_len (sdrop (S (S eq)) (skip_sep s))) as Ho.
  destruct (skip_ows _) as [|c rest]; [done|]. rewrite len_cons in Ho.
  destruct (beq c ":"); [|done]. cbn [negb].
  destruct (IndexByte rest ":") as [e|] eqn:Ee; [|done].
  apply IndexByte_Some in Ee as (u & Hu & _ & _ & ->).
  apply (f_equal len) in Hu. rewrite len_app, len_cons in Hu.
  case_bool_decide; [done|]. apply IH. lia.
Qed.

Lemma parseSignatureInput_total header : only_malformed (parseSignatureInput header).
Proof.
  unfold parseSignatureInput. case_bool_decide; [done|]. destruct (_ <? _)%Z; [done|].
  destruct (IndexByte _ _) as [[|eq]|]; [done| |done].
  destruct (isValidLabel _); [|done]. destruct (HasPrefix _ _); [|done]. cbn [negb].
  destruct (findMatchingClose _) as [close|]; [|done].
  match goal with |- context [parseComponentList ?x] =>
    pose proof (parseComponentList_total x) as Hc; destruct (parseComponentList x) end;
    [|exact Hc].
  cbn [mbind result_bind].
  match goal with |- context [parseParams ?si ?x] =>
    pose proof (parseParams_total si x) as Hp; destruct (parseParams si x) end; [|exact Hp].
  cbn [mbind result_bind]. by repeat case_match.
Qed.

Lemma parseSignature_total header lbl : only_malformed (parseSignature header lbl).
Proof.
  unfold parseSignature. case_bool_decide; [done|]. destruct (_ <? _)%Z; [done|].
  apply parse_signature_total. lia.
Qed.

Lemma dict_labels_fuel n m out s :
  len s < n → len s < m → dict_labels n out s = dict_labels m out s.
Proof.
  revert m out s. induction n as [|n IH]; intros [|m] out s Hn Hm; try lia.
  cbn [dict_labels].
  pose proof (skip_sep_len s) as Hs. case_bool_decide as Hr; [done|].
  destruct (IndexByte (skip_sep s) "=") as [eq|] eqn:E; [|done]. cbn [mbind option_bind].
  apply IndexByte_Some in E as (t & Heq & _ & _ & ->).
  apply (f_equal len) in Heq. rewrite len_app, len_cons in Heq.
  destruct (eq <=? 0)%nat; [done|].
  pose proof (skip_ows_len (sdrop (S eq) (skip_sep s))) as Ho.
  destruct (findMatchingClose _) as [close|]; [|done]. cbn [mbind option_bind].
  set (r := skip_ows (sdrop (S eq) (skip_sep s))) in *.
  assert (∀ k (u : string), len (sdrop k u) ≤ len u) as Hd.
  { intros k u. pose proof (f_equal len (stake_sdrop k u)) as Ek. rewrite len_app in Ek. lia. }
  pose proof (Hd (S close) r). pose proof (Hd (findParamsEnd (sdrop (S close) r)) (sdrop (S close) r)).
  apply IH; lia.
Qed.

(** ** Passing over what the signer writes *)

(** Bytes that need no escape inside a quoted string. *)
Definition quotable (s : string) : bool :=
  negb (contains_byte s quote) && negb (contains_byte s backslash).

Lemma quotable_cons c s :
  quotable (String c s) = true → beq c quote = false ∧ beq c backslash = false ∧ quotable s = true.
Proof.
  unfold quotable. rewrite !contains_byte_cons, !negb_orb, !andb_true_iff, !negb_true_iff. tauto.
Qed.

Lemma take_quoted_quotable s t :
  quotable s = true → take_quoted (s +:+ String quote t) = Some (s, t).
Proof.
  induction s as [|c s IH]; [by cbn|]. intros (H1 & H2 & H3)%quotable_cons.
  rewrite sapp_cons. cbn [take_quoted]. rewrite H1, H2, IH by done. done.
Qed.

Lemma quoted_app s t : quoted s +:+ t = String quote (s +:+ String quote t).
Proof. unfold quoted. by autorewrite with gostr. Qed.

Lemma len_quoted s : len (quoted s) = len s + 2.
Proof. unfold quoted. rewrite len_cons, len_app, len_cons. change (len "") with 0. lia. Qed.

(** [scan_top] runs over [s] without stopping. *)
Definition passes (stop : ascii → bool) (s : string) : Prop :=
  ∀ t, scan_top stop false (s +:+ t) = (λ i, len s + i) <$> scan_top stop false t.

Lemma passes_nil stop : passes stop "".
Proof. intros t. rewrite sapp_nil_l. by destruct (scan_top stop false t). Qed.

Lemma passes_app stop s t : passes stop s → passes stop t → passes stop (s +:+ t).
Proof.
  intros Hs Ht u. rewrite sapp_assoc, Hs, Ht. destruct (scan_top stop false u); [|done].
  cbn. f_equal. rewrite len_app. lia.
Qed.

Lemma passes_bytes stop s :
  all_bytes (λ c, negb (stop c) && negb (beq c quote)) s = true → passes stop s.
Proof.
  induction s as [|c s IH]; cbn [all_bytes]; intros H; [apply passes_nil|].
  apply andb_true_iff in H as [[Hc Hq]%andb_true_iff Hs].
  apply negb_true_iff in Hc, Hq. intros t. rewrite sapp_cons. cbn [scan_top]. rewrite Hq, Hc. cbn [negb andb].
  rewrite (IH Hs t). by destruct (scan_top stop false t).
Qed.

Lemma passes_quoted stop s : quotable s = true → passes stop (quoted s).
Proof.
  intros Hs t. rewrite quoted_app. cbn -[len].
  assert (scan_top stop true (s +:+ String quote t) = (λ i, S (len s + i)) <$> scan_top stop false t) as ->.
  { induction s as [|c s IH].
    - rewrite sapp_nil_l. cbn [scan_top negb andb]. rewrite beq_refl.
      rewrite quote_not_backslash. cbn [negb]. by destruct (scan_top stop false t).
    - apply quotable_cons in Hs as (H1 & H2 & H3). rewrite sapp_cons. cbn [scan_top negb andb].
      rewrite H1, H2, (IH H3). destruct (scan_top stop false t); done. }
  destruct (scan_top stop false t); [|done]. cbn -[len]. f_equal. rewrite len_quoted. lia.
Qed.

Lemma passes_end stop s : passes stop s → scan_top stop false s = None.
Proof. intros H. specialize (H ""). by rewrite sapp_nil_r in H. Qed.

Lemma passes_stop stop s c t :
  passes stop s → stop c = true → beq c quote = false →
  scan_top stop false (s +:+ String c t) = Some (len s).
Proof.
  intros H Hc Hq. rewrite H. cbn [scan_top negb andb]. rewrite Hq, Hc. cbn. by rewrite Nat.add_0_r.
Qed.

Lemma passes_Join stop l sep :
  Forall (passes stop) l → passes stop sep → passes stop (Join l sep).
Proof.
  intros Hl Hsep. induction Hl as [|s l Hs Hl IH]; cbn; [apply passes_nil|].
  destruct l; [done|]. by repeat apply passes_app.
Qed.

(** ** Reading back what the signer writes *)

Definition join_tail (l : list string) : string := foldr (λ s t, String " " (quoted s +:+ t)) "" l.

Lemma Join_quoted x l : Join (map quoted (x :: l)) " " = quoted x +:+ join_tail l.
Proof.
  revert x. induction l as [|y l IH]; intros x; [cbn; by rewrite sapp_nil_r|].
  change (Join (map quoted (x :: y :: l)) " ") with (quoted x +:+ " " +:+ Join (map quoted (y :: l)) " ").
  by rewrite IH.
Qed.

Lemma skip_ows_quote t : skip_ows (String quote t) = String quote t.
Proof. reflexivity. Qed.

Lemma parse_components_tail fuel comps l :
  length l < fuel → length comps + length l ≤ maxCoveredComponents →
  Forall (λ s, quotable s = true) l →
  parse_components fuel comps (join_tail l) = Ok (comps ++ l).
Proof.
  revert fuel comps. induction l as [|x l IH]; intros [|fuel] comps Hf Hm Hq; cbn in Hf; try lia.
  - cbn. by rewrite app_nil_r.
  - apply Forall_cons in Hq as [Hx Hq]. cbn [join_tail foldr parse_components].
    rewrite bool_decide_false by done.
    assert ((maxCoveredComponents <=? length comps)%nat = false) as ->
      by (apply Nat.leb_gt; cbn [length] in Hm; lia).
    change (skip_ows (String " " ?t)) with (skip_ows t).
    rewrite quoted_app, skip_ows_quote, beq_refl. cbn [negb].
    rewrite take_quoted_quotable by done. fold (join_tail l).
    rewrite IH; [|lia|rewrite length_app; cbn [length] in *; lia|done].
    by rewrite <- app_assoc.
Qed.

Lemma len_join_tail l : length l ≤ len (join_tail l).
Proof.
  induction l as [|x l IH]; cbn [join_tail foldr length]; [lia|].
  rewrite len_cons, len_app. fold (join_tail l). lia.
Qed.

Lemma parseComponentList_quoted l :
  length l ≤ maxCoveredComponents → Forall (λ s, quotable s = true) l →
  parseComponentList (Join (map quoted l) " ") = Ok l.
Proof.
  intros Hm Hq. destruct l as [|x l]; [done|]. unfold parseComponentList.
  apply Forall_cons in Hq as [Hx Hq]. rewrite Join_quoted. cbn [parse_components].
  rewrite quoted_app. rewrite bool_decide_false by done.
  change (maxCoveredComponents <=? length []) with false. rewrite skip_ows_quote, beq_refl.
  cbn [negb]. rewrite take_quoted_quotable by done.
  rewrite parse_components_tail; [done| | |done].
  - rewrite len_cons, len_app, len_cons. pose proof (len_join_tail l). lia.
  - cbn [length app] in *. lia.
Qed.

(** A parameter name as the signer writes it. *)
Definition name_char (c : ascii) : bool := is_graph c && negb (beq c "=") && negb (beq c ";") && negb (beq c quote).

Lemma parse_params_step fuel si name v val rest :
  all_bytes name_char name = true → readParamValue (v +:+ rest) = Ok (val, rest) →
  parse_params (S fuel) si (";" +:+ name +:+ "=" +:+ v +:+ rest) =
    (si ← setParam si name val; parse_params fuel si rest).
Proof.
  intros Hn Hv. change (";" +:+ ?t) with (String ";" t). cbn [parse_params].
  rewrite beq_refl. cbn [negb].
  change ("=" +:+ v +:+ rest) with (String "=" (v +:+ rest)).
  assert (indexParamSeparator (name +:+ String "=" (v +:+ rest)) = Some (len name)) as ->.
  { unfold indexParamSeparator.
    assert (all_bytes (λ c, negb (beq c "=" || beq c ";") && negb (beq c quote)) name = true) as Hp.
    { eapply all_bytes_impl; [|exact Hn]. intros c Hc. unfold name_char in Hc.
      rewrite !andb_true_iff in Hc. destruct Hc as [[[_ H1] H2] H3].
      by rewrite negb_orb, H1, H2, H3. }
    rewrite (passes_stop _ name "=" (v +:+ rest)); [|by apply passes_bytes|done|done].
    cbn [mbind option_bind]. by rewrite sdrop_app. }
  rewrite stake_app.
  assert (sdrop (S (len name)) (name +:+ String "=" (v +:+ rest)) = v +:+ rest) as ->.
  { clear. induction name; [done|]. rewrite sapp_cons, len_cons. exact IHname. }
  rewrite TrimSpace_graph.
  - by rewrite Hv.
  - eapply all_bytes_impl; [|exact Hn]. intros c Hc. unfold name_char in Hc.
    rewrite !andb_true_iff in Hc. tauto.
Qed.

Lemma readParamValue_quoted s rest :
  quotable s = true → readParamValue (quoted s +:+ rest) = Ok (PString s, rest).
Proof.
  intros Hs. rewrite quoted_app. cbn [readParamValue]. rewrite beq_refl.
  by rewrite take_quoted_quotable.
Qed.

Definition int_char (c : ascii) : bool := is_digit c || beq c "-".

Lemma Itoa_chars z : all_bytes int_char (Itoa z) = true.
Proof.
  assert (∀ n, (0 ≤ n)%Z → all_bytes int_char (Utoa n) = true) as H.
  { intros n Hn. eapply all_bytes_impl; [|by apply Utoa_digits]. intros c Hc.
    unfold int_char. by rewrite Hc. }
  unfold Itoa. destruct (Z.ltb_spec z 0); [|by apply H].
  change ("-" +:+ ?t) with (String "-" t). cbn [all_bytes]. rewrite H by lia. done.
Qed.

Lemma int_char_facts c : int_char c = true →
  is_graph c = true ∧ beq c quote = false ∧ beq c ";" = false ∧ beq c "," = false.
Proof.
  unfold int_char, is_digit, between. intros H. apply orb_true_iff in H as [H|H].
  - split_and!; [unfold is_graph, between; lia|..]; apply beq_neq; intros ->; vm_compute in H; done.
  - apply beq_eq in H as ->. split_and!; reflexivity.
Qed.

Lemma span_value_int s t :
  all_bytes int_char s = true → span_value (s +:+ String ";" t) = (s, String ";" t).
Proof.
  induction s as [|c s IH]; [done|]. cbn [all_bytes]. intros [Hc Hs]%andb_true_iff.
  rewrite sapp_cons. cbn [span_value]. apply int_char_facts in Hc as (_ & _ & -> & ->).
  cbn [orb]. by rewrite IH.
Qed.

Lemma readParamValue_int z t :
  in_int64 z → readParamValue (Itoa z +:+ (";" +:+ t)) = Ok (PInt z, ";" +:+ t).
Proof.
  intros Hz. change (";" +:+ t) with (String ";" t). pose proof (Itoa_chars z) as Hc. pose proof (ParseInt_Itoa z Hz) as Hp.
  destruct (Itoa z) as [|c s] eqn:E; [done|].
  unfold readParamValue. rewrite sapp_cons.
  assert (beq c quote = false) as ->.
  { cbn [all_bytes] in Hc. apply andb_true_iff in Hc as [Hc _]. apply int_char_facts in Hc. tauto. }
  rewrite <- sapp_cons, span_value_int by done.
  rewrite TrimSpace_graph.
  - rewrite bool_decide_false by done. by rewrite Hp.
  - eapply all_bytes_impl; [|exact Hc]. intros d Hd. apply int_char_facts in Hd. tauto.
Qed.

Lemma passes_lit stop s :
  all_bytes (λ c, negb (stop c) && negb (beq c quote)) s = true → passes stop s.
Proof. apply passes_bytes. Qed.

(** What the signer may put into a signature. *)
Record signable (lbl : string) (covered : list string) (cr ex : Z) (no ki al ta : string) : Prop := {
  sg_label : isValidLabel lbl = true;
  sg_count : length covered ≤ maxCoveredComponents;
  sg_covered : Forall (λ s, quotable s = true) covered;
  sg_created : in_int64 cr;
  sg_expires : in_int64 ex;
  sg_nonce : quotable no = true ∧ len no ≤ maxNonceLen;
  sg_keyid : quotable ki = true ∧ len ki ≤ maxKeyIDLen;
  sg_alg : quotable al = true;
  sg_tag : quotable ta = true;
  sg_len : (zlen (lbl +:+ "=" +:+ formatSigParams covered cr ex no ki al ta) ≤ maxSignatureInputLen)%Z;
}.

(** The parameters after the component list. *)
Definition params_text (cr ex : Z) (no ki al ta : string) : string :=
  ";" +:+ "created" +:+ "=" +:+ Itoa cr +:+ ";" +:+ "expires" +:+ "=" +:+ Itoa ex +:+
  ";" +:+ "nonce" +:+ "=" +:+ quoted no +:+ ";" +:+ "keyid" +:+ "=" +:+ quoted ki +:+
  ";" +:+ "alg" +:+ "=" +:+ quoted al +:+ ";" +:+ "tag" +:+ "=" +:+ quoted ta +:+ "".

Lemma formatSigParams_split covered cr ex no ki al ta :
  formatSigParams covered cr ex no ki al ta =
    String "(" (Join (map quoted covered) " " +:+ String ")" (params_text cr ex no ki al ta)).
Proof.
  unfold formatSigParams, params_text. rewrite sapp_nil_r. reflexivity.
Qed.

Lemma parse_params_text l cs t cr ex no ki al ta fuel :
  6 < fuel → in_int64 cr → in_int64 ex → quotable no = true → len no ≤ maxNonceLen →
  quotable ki = true → len ki ≤ maxKeyIDLen → quotable al = true → quotable ta = true →
  parse_params fuel (MkSigInput l cs t None None None None None None []) (params_text cr ex no ki al ta) =
    Ok (MkSigInput l cs t (Some cr) (Some ex) (Some no) (Some ki) (Some al) (Some ta)
          ["tag"; "alg"; "keyid"; "nonce"; "expires"; "created"]).
Proof.
  intros Hf Hcr Hex Hno Hnl Hki Hkl Hal Hta. unfold params_text.
  do 7 (destruct fuel as [|fuel]; [lia|]).
  assert (setParam (MkSigInput l cs t (Some cr) (Some ex) None None None None ["expires"; "created"])
            "nonce" (PString no) =
          Ok (MkSigInput l cs t (Some cr) (Some ex) (Some no) None None None
                ["nonce"; "expires"; "created"])) as HN.
  { trans (if (maxNonceLen <? len no)%nat then Err (malformed "nonce too long") else
      Ok (MkSigInput l cs t (Some cr) (Some ex) (Some no) None None None
            ["nonce"; "expires"; "created"])); [reflexivity|].
    by rewrite (proj2 (Nat.ltb_ge maxNonceLen (len no)) Hnl). }
  assert (setParam (MkSigInput l cs t (Some cr) (Some ex) (Some no) None None None
              ["nonce"; "expires"; "created"]) "keyid" (PString ki) =
          Ok (MkSigInput l cs t (Some cr) (Some ex) (Some no) (Some ki) None None
                ["keyid"; "nonce"; "expires"; "created"])) as HK.
  { trans (if (maxKeyIDLen <? len ki)%nat then Err (malformed "keyid too long") else
      Ok (MkSigInput l cs t (Some cr) (Some ex) (Some no) (Some ki) None None
            ["keyid"; "nonce"; "expires"; "created"])); [reflexivity|].
    by rewrite (proj2 (Nat.ltb_ge maxKeyIDLen (len ki)) Hkl). }
  rewrite (parse_params_step _ _ "created" _ (PInt cr)); [|done|by apply readParamValue_int].
  change (setParam _ "created" _) with
    (@Ok error _ (MkSigInput l cs t (Some cr) None None None None None ["created"])).
  cbn [mbind result_bind].
  rewrite (parse_params_step _ _ "expires" _ (PInt ex)); [|done|by apply readParamValue_int].
  change (setParam _ "expires" _) with
    (@Ok error _ (MkSigInput l cs t (Some cr) (Some ex) None None None None ["expires"; "created"])).
  cbn [mbind result_bind].
  rewrite (parse_params_step _ _ "nonce" _ (PString no)); [|done|by apply readParamValue_quoted].
  rewrite HN. cbn [mbind result_bind].
  rewrite (parse_params_step _ _ "keyid" _ (PString ki)); [|done|by apply readParamValue_quoted].
  rewrite HK. cbn [mbind result_bind].
  rewrite (parse_params_step _ _ "alg" _ (PString al)); [|done|by apply readParamValue_quoted].
  change (setParam _ "alg" _) with
    (@Ok error _ (MkSigInput l cs t (Some cr) (Some ex) (Some no) (Some ki) (Some al) None
      ["alg"; "keyid"; "nonce"; "expires"; "created"])).
  cbn [mbind result_bind].
  rewrite (parse_params_step _ _ "tag" _ (PString ta)); [|done|by apply readParamValue_quoted].
  reflexivity.
Qed.

Lemma label_char_graph c : label_char c = true → is_graph c = true ∧ beq c "=" = false.
Proof.
  unfold label_char, is_graph, is_digit, between. rewrite !orb_true_iff, !andb_true_iff, !Z.leb_le.
  intros H. destruct H as [[[[[H|H]|H]|H]|H]|H].
  1, 2: split; [rewrite ?Z.leb_le; lia|apply beq_neq; intros ->; vm_compute in H; destruct H as [H1 H2]; by (destruct H1 || destruct H2)].
  all: apply beq_eq in H as ->; split; reflexivity || (split; vm_compute; congruence).
Qed.

Lemma isValidLabel_chars l : isValidLabel l = true → l ≠ "" ∧ all_bytes label_char l = true.
Proof.
  destruct l as [|c l]; [done|]. cbn [isValidLabel all_bytes]. intros [Hc Hl]%andb_true_iff.
  split; [done|]. rewrite Hl, andb_true_r. unfold label_char.
  apply orb_true_iff in Hc as [-> | ->]; [done|]. by rewrite !orb_true_r.
Qed.

(** A header the signer writes for a label starts and ends with graphic
    characters, so trimming leaves it alone. *)
Lemma TrimSpace_labelled lbl mid d :
  isValidLabel lbl = true → is_graph d = true →
  TrimSpace (lbl +:+ mid +:+ String d "") = lbl +:+ mid +:+ String d "".
Proof.
  intros [Hne Hc]%isValidLabel_chars Hd. destruct lbl as [|c l]; [done|].
  eapply (TrimSpace_ends c _ (l +:+ mid +:+ String d "") d); try done.
  - cbn [all_bytes] in Hc. apply andb_true_iff in Hc as [Hc _]. apply label_char_graph in Hc. tauto.
  - exists (String c l +:+ mid). by rewrite sapp_assoc.
Qed.

Lemma label_index lbl t :
  isValidLabel lbl = true →
  IndexByte (lbl +:+ String "=" t) "=" = Some (len lbl) ∧ len lbl ≠ 0 ∧ TrimSpace lbl = lbl.
Proof.
  intros [Hne Hc]%isValidLabel_chars. split_and!.
  - apply IndexByte_app. apply (all_bytes_no label_char); [reflexivity|done].
  - by destruct lbl.
  - apply TrimSpace_graph. eapply all_bytes_impl; [|exact Hc].
    intros c H. apply label_char_graph in H. tauto.
Qed.

Lemma stake_S_app s c t : stake (S (len s)) (s +:+ String c t) = s +:+ String c "".
Proof.
  induction s as [|d s IH]; [done|]. rewrite !sapp_cons, len_cons.
  change (stake (S (S (len s))) (String d ?u)) with (String d (stake (S (len s)) u)).
  by rewrite IH.
Qed.

(** The parser reads back exactly what the signer formatted. *)
Lemma parse_format lbl covered cr ex no ki al ta :
  signable lbl covered cr ex no ki al ta →
  parseSignatureInput (lbl +:+ "=" +:+ formatSigParams covered cr ex no ki al ta) =
    Ok (MkSigInput lbl covered (formatSigParams covered cr ex no ki al ta)
          (Some cr) (Some ex) (Some no) (Some ki) (Some al) (Some ta)
          ["tag"; "alg"; "keyid"; "nonce"; "expires"; "created"]).
Proof.
  intros [Hl Hc Hq Hcr Hex [Hno Hnl] [Hki Hkl] Hal Hta Hlen].
  set (text := formatSigParams covered cr ex no ki al ta) in *.
  assert (TrimSpace (lbl +:+ "=" +:+ text) = lbl +:+ "=" +:+ text) as Htrim.
  { assert (∃ mid, "=" +:+ text = mid +:+ String quote "") as [mid ->].
    { exists ("=" +:+ "(" +:+ Join (map quoted covered) " " +:+ ")" +:+
        ";created=" +:+ Itoa cr +:+ ";expires=" +:+ Itoa ex +:+ ";nonce=" +:+ quoted no +:+
        ";keyid=" +:+ quoted ki +:+ ";alg=" +:+ quoted al +:+ ";tag=" +:+ String quote ta).
      unfold text, formatSigParams. unfold quoted at 5. by rewrite !sapp_assoc, sapp_cons. }
    apply TrimSpace_labelled; [done|reflexivity]. }
  unfold parseSignatureInput. rewrite Htrim.
  change ("=" +:+ text) with (String "=" text) in *.
  destruct (label_index lbl text Hl) as (Hi & Hn0 & Ht).
  rewrite bool_decide_false by (by destruct lbl).
  rewrite (proj2 (Z.ltb_ge _ _) Hlen), Hi.
  destruct (len lbl) as [|n] eqn:En; [done|]. rewrite <- En in *.
  rewrite stake_app, Ht, Hl, sdrop_S_app. cbn [negb].
  unfold text. rewrite formatSigParams_split.
  set (J := Join (map quoted covered) " "). set (P := params_text cr ex no ki al ta).
  change (skip_ows (String "(" (J +:+ String ")" P))) with (String "(" (J +:+ String ")" P)).
  assert (HasPrefix (String "(" (J +:+ String ")" P)) "(" = true) as ->
    by apply (HasPrefix_app "(").
  cbn [negb].
  assert (∀ stop, stop " "%char = false → passes stop J) as HJ.
  { intros stop Hs. apply passes_Join.
    - rewrite Forall_map. eapply Forall_impl; [exact Hq|]. intros s Hs'. by apply passes_quoted.
    - apply passes_bytes. cbn [all_bytes]. by rewrite Hs. }
  assert (findMatchingClose (String "(" (J +:+ String ")" P)) = Some (S (len J))) as ->.
  { cbn [findMatchingClose]. rewrite beq_refl.
    by rewrite (passes_stop _ J ")" P (HJ _ eq_refl) eq_refl eq_refl). }
  change (sdrop 1 (String "(" (J +:+ String ")" P))) with (J +:+ String ")" P).
  change (sdrop (S (S (len J))) (String "(" (J +:+ String ")" P)))
    with (sdrop (S (len J)) (J +:+ String ")" P)).
  replace (S (len J) - 1) with (len J) by lia. rewrite stake_app.
  unfold J. rewrite parseComponentList_quoted by done. fold J. cbn [mbind result_bind].
  rewrite sdrop_S_app.
  assert (passes (beq ",") P) as HP.
  { assert (∀ z, passes (beq ",") (Itoa z)) as Hint.
    { intros z. apply passes_bytes. eapply all_bytes_impl; [|apply Itoa_chars].
      intros c Hch. apply int_char_facts in Hch as (_ & H1 & _ & H2).
      assert (beq "," c = false) as -> by (apply beq_neq; apply beq_neq in H2; congruence).
      by rewrite H1. }
    unfold P, params_text.
    repeat first [apply passes_app; [first [apply Hint|by apply passes_quoted|by apply passes_bytes]|]
                 |apply passes_nil]. }
  assert (findParamsEnd P = len P) as -> by (unfold findParamsEnd; by rewrite passes_end).
  assert (stake (len P) P = P) as ->.
  { pose proof (stake_app P "") as E. by rewrite sapp_nil_r in E. }
  assert (sdrop (len P) P = "") as ->.
  { pose proof (sdrop_app P "") as E. by rewrite sapp_nil_r in E. }
  change (stake (S (S (len J))) (String "(" (J +:+ String ")" P)))
    with (String "(" (stake (S (len J)) (J +:+ String ")" P))).
  rewrite stake_S_app, sapp_cons, sapp_assoc, sapp_cons, sapp_nil_l.
  unfold parseParams. change P with (String ";" (sdrop 1 P)) at 1. cbv iota beta.
  rewrite beq_refl. cbn [negb]. unfold P. rewrite parse_params_text; try done.
  unfold params_text. rewrite !len_app. change (len "created") with 7. lia.
Qed.

(** ** What a parsed header satisfies *)

Lemma parse_components_bound fuel comps s l :
  length comps ≤ maxCoveredComponents → parse_components fuel comps s = Ok l →
  length l ≤ maxCoveredComponents.
Proof.
  revert comps s. induction fuel as [|fuel IH]; intros comps s Hc; [done|].
  cbn [parse_components]. case_bool_decide; [by intros [= <-]|].
  destruct (Nat.leb_spec maxCoveredComponents (length comps)); [done|].
  destruct (skip_ows s) as [|c s']; [by intros [= <-]|].
  destruct (beq c quote); [|done]. cbn [negb].
  destruct (take_quoted s') as [[v rest]|]; [|done]. apply IH.
  rewrite length_app. cbn. lia.
Qed.

(** The fields of a parsed entry that [setParam] checks. *)
Definition params_ok (si : sigInput) : Prop :=
  NoDup (seenParams si) ∧
  (∀ s, nonce si = Some s → len s ≤ maxNonceLen) ∧ (∀ s, keyID si = Some s → len s ≤ maxKeyIDLen).

Lemma setParam_ok si name v si' :
  setParam si name v = Ok si' → params_ok si →
  params_ok si' ∧ label si' = label si ∧ components si' = components si ∧
  paramsText si' = paramsText si ∧ seenParams si' = name :: seenParams si.
Proof.
  unfold setParam, params_ok. case_bool_decide as Hin; [done|]. destruct si as [l cs t cr ex no ki al ta seen].
  cbn [set_seen label components paramsText created expires nonce keyID alg tag seenParams] in *.
  assert (NoDup seen → NoDup (name :: seen)) as Hnd by (intros H; by constructor).
  destruct (set_seen _ _) as [l' cs' t' cr' ex' no' ki' al' ta' seen'] eqn:Es.
  cbn in Es. injection Es as <- <- <- <- <- <- <- <- <- <-.
  assert (∀ x y : sigInput, Ok x = @Ok error _ y → x = y) as Hinj by (by intros x y [= ->]).
  repeat (case_bool_decide;
    [destruct v; try done; try (destruct (Nat.ltb_spec maxNonceLen (len s)); [done|]);
     try (destruct (Nat.ltb_spec maxKeyIDLen (len s)); [done|]);
     intros <-%Hinj (K1 & K2 & K3); cbn; split_and!; auto; intros ? [= <-]; done|]).
  intros <-%Hinj (K1 & K2 & K3). cbn. split_and!; auto.
Qed.

Lemma parse_params_ok fuel si rest si' :
  parse_params fuel si rest = Ok si' → params_ok si →
  params_ok si' ∧ label si' = label si ∧ components si' = components si ∧
  paramsText si' = paramsText si.
Proof.
  revert si rest. induction fuel as [|fuel IH]; intros si rest; [done|]. cbn [parse_params].
  destruct rest as [|c rest]; [by intros [= <-]|]. destruct (beq c ";"); [|done]. cbn [negb].
  destruct (indexParamSeparator rest) as [eq|]; [|done].
  destruct (readParamValue _) as [[v rest']|]; [|done]. cbn [mbind result_bind].
  destruct (setParam _ _ _) as [si1|] eqn:E; [|done]. cbn [mbind result_bind].
  intros Hp Hok.
  apply setParam_ok in E as (Hok1 & H1 & H2 & H3 & _); [|done].
  destruct (IH _ _ Hp Hok1) as (? & E1 & E2 & E3). split_and!; [done|congruence..].
Qed.

Lemma parseParams_ok si raw si' :
  parseParams si raw = Ok si' → params_ok si →
  params_ok si' ∧ label si' = label si ∧ components si' = components si ∧
  paramsText si' = paramsText si.
Proof.
  unfold parseParams. destruct raw as [|c raw]; [by intros [= <-]|].
  destruct (beq c ";"); [|done]. cbn [negb]. apply parse_params_ok.
Qed.

(** What the verifier relies on of a parsed Signature-Input. *)
Lemma parseSignatureInput_ok header si :
  parseSignatureInput header = Ok si →
  isValidLabel (label si) = true ∧ length (components si) ≤ maxCoveredComponents ∧
  params_ok si ∧ (zlen (TrimSpace header) ≤ maxSignatureInputLen)%Z ∧
  ∃ pre post, TrimSpace header = pre +:+ paramsText si +:+ post.
Proof.
  unfold parseSignatureInput. set (h := TrimSpace header).
  case_bool_decide; [done|]. destruct (Z.ltb_spec maxSignatureInputLen (zlen h)); [done|].
  destruct (IndexByte h "=") as [[|eq]|]; [done| |done].
  set (lbl := TrimSpace (stake (S eq) h)).
  destruct (isValidLabel lbl) eqn:Hl; [|done]. cbn [negb].
  set (rest := skip_ows (sdrop (S (S eq)) h)). destruct (HasPrefix rest "("); [|done]. cbn [negb].
  destruct (findMatchingClose rest) as [close|]; [|done].
  destruct (parseComponentList _) as [comps|] eqn:Ec; [|done]. cbn [mbind result_bind].
  set (after := sdrop (S close) rest). set (n := findParamsEnd after).
  destruct (parseParams _ _) as [si'|] eqn:Ep; [|done]. cbn [mbind result_bind]. intros Hsi.
  assert (si = si') as ->.
  { repeat case_match; by simplify_eq. }
  apply parseParams_ok in Ep as (Hok & E1 & E2 & E3).
  2:{ split_and!; [constructor|done|done]. }
  cbn [label components paramsText] in E1, E2, E3. rewrite E1, E2, E3. split_and!; [done| |done|done|].
  - eapply parse_components_bound; [|exact Ec]. cbn. lia.
  - assert (∃ ows, sdrop (S (S eq)) h = ows +:+ rest) as [ows Hows].
    { unfold rest. generalize (sdrop (S (S eq)) h). intros u.
      induction u as [|c u [o IH]]; [by exists ""|]. cbn [skip_ows].
      destruct (is_ows c); [|by exists ""]. exists (String c o). by rewrite sapp_cons, <- IH. }
    exists (stake (S (S eq)) h +:+ ows), (sdrop n after).
    rewrite !sapp_assoc, (stake_sdrop n after). unfold after. rewrite stake_sdrop, <- Hows.
    by rewrite stake_sdrop.
Qed.

(** ** Properties *)

(** the verifier's parser reads back exactly what the signer formats: the
    same label, covered components in order, parameters, and the signed
    parameter text byte for byte. *)
Theorem parse_format_roundtrip lbl covered cr ex no ki al ta :
  signable lbl covered cr ex no ki al ta →
  parseSignatureInput (lbl +:+ "=" +:+ formatSigParams covered cr ex no ki al ta) =
    Ok (MkSigInput lbl covered (formatSigParams covered cr ex no ki al ta)
          (Some cr) (Some ex) (Some no) (Some ki) (Some al) (Some ta)
          ["tag"; "alg"; "keyid"; "nonce"; "expires"; "created"]).
Proof. apply parse_format. Qed.

#[local] Transparent quote backslash.

Lemma parse_format_roundtrip_witness :
  is_ok (parseSignatureInput ("sig1" +:+ "=" +:+ formatSigParams ["@method"; "@authority"]
    1700000000 1700000300 "AAAAAAAAAAAAAAAAAAAAAA" "key-1" AlgEd25519 "adcp/request-signing/v1")) = true.
Proof.
  rewrite parse_format_roundtrip; [reflexivity|].
  split.
  - reflexivity.
  - apply Nat.leb_le. reflexivity.
  - repeat constructor.
  - split; vm_compute; congruence.
  - split; vm_compute; congruence.
  - split; [reflexivity|apply Nat.leb_le; reflexivity].
  - split; [reflexivity|apply Nat.leb_le; reflexivity].
  - reflexivity.
  - reflexivity.
  - vm_compute. congruence.
Defined.

(** a Signature-Input that parses is bounded and unambiguous: the header is
    at most 8 KiB, the label is valid, at most 32 components are covered, nonce
    and keyid have at most 256 bytes, no parameter of the entry was repeated,
    and the text that goes into the signature base is a verbatim piece of the
    header. *)
Theorem parseSignatureInput_sound header si :
  parseSignatureInput header = Ok si →
  isValidLabel (label si) = true ∧ length (components si) ≤ maxCoveredComponents ∧
  params_ok si ∧ (zlen (TrimSpace header) ≤ maxSignatureInputLen)%Z ∧
  ∃ pre post, TrimSpace header = pre +:+ paramsText si +:+ post.
Proof. apply parseSignatureInput_ok. Qed.

Lemma parseSignatureInput_sound_witness :
  ∃ si, parseSignatureInput "sig1=();created=5" = Ok si ∧ length (components si) ≤ maxCoveredComponents.
Proof.
  eexists. assert (parseSignatureInput "sig1=();created=5" = Ok (MkSigInput "sig1" []
    "();created=5" (Some 5%Z) None None None None None ["created"])) as H by (vm_compute; reflexivity).
  split; [exact H|]. exact (proj1 (proj2 (parseSignatureInput_sound _ _ H))).
Defined.

(** parsing either header always ends with a value or a typed
    header-malformed error: the loops never outlast the input they consume. *)
Theorem parse_headers_total header lbl :
  only_malformed (parseSignatureInput header) ∧ only_malformed (parseSignature header lbl) ∧
  ∀ n m out s, len s < n → len s < m → dict_labels n out s = dict_labels m out s.
Proof.
  split_and!; [apply parseSignatureInput_total|apply parseSignature_total|].
  intros. by apply dict_labels_fuel.
Qed.
