(* ===== verification/SigBase.v ===== *)
(** * SigBase: Content-Digest, canonical components and the signature base

    [src/adcp/v3/signing/contentdigest.go] and [canonical.go], with what they
    use of [net/http] headers and [net]. *)
From stdpp Require Import gmap stringmap.
From S2P Require Import Prelude GoStrings Unicode NetUrl UrlCanon Base64 SigTypes SigInput.
From stdpp Require Import options.

Section Base.
Context `{RT : Runtime}.

(** ** Content-Digest *)

Definition computeSHA256DigestHeaderForEncoding (body : string) (e : BinaryEncoding) : string :=
  "sha-256=:" +:+ encodeBinary (Sha256 body) e +:+ ":".

Definition computeSHA256DigestHeader (body : string) : string :=
  computeSHA256DigestHeaderForEncoding body BinaryEncodingRFC8941.

(** [";name=value"] suffixes up to the next top-level comma. *)
Definition skipDigestParams (s : string) : string :=
  match scan_top (beq ",") false s with Some i => sdrop i s | None => "" end.

(** One entry of the dictionary: its algorithm, its value, and the rest. *)
Definition digest_entry (rest : string) : result error (string * string * string) :=
  match IndexByte rest "=" with
  | None | Some O => Err (malformed "Content-Digest missing =")
  | Some eq =>
      let alg := ToLower (TrimSpace (stake eq rest)) in
      match skip_ows (sdrop (S eq) rest) with
      | "" => Err (malformed "Content-Digest value missing :")
      | String c rest =>
          if negb (beq c ":") then Err (malformed "Content-Digest value missing :") else
          match IndexByte rest ":" with
          | None => Err (malformed "Content-Digest value unterminated")
          | Some e => Ok (alg, stake e rest, sdrop (S e) rest)
          end
      end
  end.

Fixpoint extract_sha256 (fuel : nat) (e : BinaryEncoding) (s : string) : result error (option string) :=
  match fuel with
  | O => Err (OtherError "out of fuel")
  | S fuel =>
      let rest := skip_sep s in
      if bool_decide (rest = "") then Ok None else
      '(alg, val, rest) ← digest_entry rest;
      if bool_decide (alg = "sha-256") then
        raw ← opt_err (malformed "Content-Digest base64 invalid") (decodeBinary val e);
        Ok (Some raw)
      else extract_sha256 fuel e (skipDigestParams rest)
  end.

(** The raw digest, or [None] when there is no sha-256 member. *)
Definition extractSHA256FromDigestHeaderForEncoding (header : string) (e : BinaryEncoding) :
    result error (option string) :=
  let rest := TrimSpace header in extract_sha256 (S (len rest)) e rest.

(** The loop of [rejectDigestDuplicates]; the Go code tests for a duplicate
    before it looks at the value. *)
Fixpoint reject_duplicates (fuel : nat) (seen : list string) (s : string) : result error unit :=
  match fuel with
  | O => Err (OtherError "out of fuel")
  | S fuel =>
      let rest := skip_sep s in
      if bool_decide (rest = "") then Ok () else
      match IndexByte rest "=" with
      | None | Some O => Err (malformed "Content-Digest missing =")
      | Some eq =>
          let alg := ToLower (TrimSpace (stake eq rest)) in
          if bool_decide (alg ∈ seen)
          then Err (malformed "Content-Digest has duplicate algorithm") else
          '(_, _, rest) ← digest_entry rest;
          reject_duplicates fuel (alg :: seen) (skipDigestParams rest)
      end
  end.

Definition rejectDigestDuplicates (header : string) : result error unit :=
  let rest := TrimSpace header in reject_duplicates (S (len rest)) [] rest.

(** ** Headers *)

(** [validHeaderFieldByte] and [CanonicalMIMEHeaderKey] of [net/textproto]. *)
Definition token_char (c : ascii) : bool :=
  between 97 122 c || between 65 90 c || is_digit c ||
  existsb (beq c) ["!"; "#"; "$"; "%"; "&"; "'"; "*"; "+"; "-"; "."; "^"; "_"; "`"; "|"; "~"]%char.

Fixpoint canonical_case (up : bool) (s : string) : string :=
  match s with
  | "" => ""
  | String c s' => String ((if up then upper_byte else lower_byte) c) (canonical_case (beq c "-") s')
  end.

Definition CanonicalHeaderKey (s : string) : string :=
  if all_bytes token_char s then canonical_case true s else s.

(** [http.Header]: canonical names with their field lines in order. *)
Definition Header : Type := list (string * list string).

Fixpoint header_lines (h : Header) (k : string) : list string :=
  match h with
  | [] => []
  | (k', vs) :: h' => if bool_decide (k' = k) then vs else header_lines h' k
  end.

Definition HeaderValues (h : Header) (name : string) : list string :=
  header_lines h (CanonicalHeaderKey name).
Definition HeaderGet (h : Header) (name : string) : string := default "" (head (HeaderValues h name)).

Fixpoint header_put (h : Header) (k : string) (vs : list string) : Header :=
  match h with
  | [] => [(k, vs)]
  | (k', ws) :: h' => if bool_decide (k' = k) then (k, vs) :: h' else (k', ws) :: header_put h' k vs
  end.

Definition HeaderSet (h : Header) (name value : string) : Header :=
  header_put h (CanonicalHeaderKey name) [value].

(** ** Target URI and authority *)

(** [net.SplitHostPort]. *)
Definition SplitHostPort (hostport : string) : option (string * string) :=
  i ← LastIndexByte hostport ":";
  '(host, j, k) ←
    (if HasPrefix hostport "[" then
       e ← IndexByte hostport "]";
       if bool_decide (S e = i) then Some (stake (e - 1) (sdrop 1 hostport), 1, S e) else None
     else
       let host := stake i hostport in
       if contains_byte host ":" then None else Some (host, 0, 0));
  if contains_byte (sdrop j hostport) "[" || contains_byte (sdrop k hostport) "]" then None
  else Some (host, sdrop (S i) hostport).

(** [net.JoinHostPort]. *)
Definition JoinHostPort (host port : string) : string :=
  if contains_byte host ":" then "[" +:+ host +:+ "]:" +:+ port else host +:+ ":" +:+ port.

(** [strings.Contains(s, "..")] and [strings.HasSuffix(s, ".")]. *)
Fixpoint has_dotdot (s : string) : bool :=
  match s with
  | String c s' => HasPrefix s ".." || has_dotdot s'
  | "" => false
  end.
Definition ends_dot (s : string) : bool :=
  match s with "" => false | _ => bool_decide (sdrop (len s - 1) s = ".") end.

Definition canonicalTargetURI (rawURL : string) : result error string :=
  u ← opt_err (OtherError "parse url") (ParseURL rawURL);
  let host := Hostname u in
  if bool_decide (host = "") then Err (OtherError "host is required") else
  if has_dotdot host then Err (OtherError "host contains an empty DNS label") else
  let rawURL :=
    if ends_dot host then
      let host := stake (len host - 1) host in
      if negb (bool_decide (Port u = ""))
      then URLString (WithHost u (JoinHostPort host (Port u)))
      else URLString (WithHost u host)
    else rawURL in
  match Canonicalize rawURL with Ok c => Ok c | Err _ => Err (OtherError "canonicalize") end.

Definition canonicalAuthority (hostHeader scheme : string) : string :=
  if bool_decide (hostHeader = "") then "" else
  let s := ToLower scheme in
  match SplitHostPort hostHeader with
  | None => ToLower hostHeader
  | Some (host, port) =>
      let host := ToLower host in
      if IsDefaultPort s port then BracketIfIPv6 host
      else BracketIfIPv6 host +:+ ":" +:+ port
  end.

(** ** The signature base *)

Definition newline : string := String (byte 10) "".

Definition base_line (name v : string) : string := quoted name +:+ ": " +:+ v +:+ newline.

Fixpoint base_lines (covered : list string) (values : gmap string string) : option string :=
  match covered with
  | [] => Some ""
  | name :: cs =>
      v ← values !! name;
      rest ← base_lines cs values;
      Some (base_line name v +:+ rest)
  end.

Definition buildSignatureBase (covered : list string) (values : gmap string string)
    (sigParamsValue : string) : result error string :=
  lines ← opt_err (OtherError "component missing value") (base_lines covered values);
  Ok (lines +:+ quoted sigParamsComponent +:+ ": " +:+ sigParamsValue).

(** ** Covered components *)

Definition profileComponents : list string :=
  [componentMethod; componentTargetURI; componentAuthority; componentContentType;
   componentContentDigst].

Definition rejectDuplicateComponents (components : list string) (p : Profile) : result error unit :=
  if bool_decide (NoDup components) then Ok ()
  else Err (newError (if bool_decide (Tag p = Tag ProfileWebhookSigning)
                      then CodeHeaderMalformed else CodeComponentsUnexpected)
              "covered component listed more than once").

Definition field_char (c : ascii) : bool :=
  between 97 122 c || is_digit c ||
  existsb (beq c) ["!"; "#"; "$"; "%"; "&"; "'"; "*"; "+"; "-"; "."; "^"; "_"; "`"; "|"; "~"]%char.

Definition isLowercaseFieldName (s : string) : bool :=
  negb (bool_decide (s = "")) && all_bytes field_char s.

(** CR, LF or NUL. *)
Definition forging (c : ascii) : bool :=
  beq c (byte 13) || beq c (byte 10) || beq c (byte 0).

Definition coveredFieldValue (h : Header) (name : string) : result error string :=
  let lines := HeaderValues h name in
  match lines with
  | [] => Err (malformed "covered header field absent from request")
  | _ =>
      if forallb (all_bytes (λ c, negb (forging c))) lines
      then Ok (Join (map (Trim is_ows) lines) ", ")
      else Err (malformed "covered header field value contains a control character")
  end.

Fixpoint additionalComponentValues (h : Header) (components : list string) :
    result error (gmap string string) :=
  match components with
  | [] => Ok ∅
  | name :: cs =>
      if bool_decide (name ∈ profileComponents) then additionalComponentValues h cs else
      if HasPrefix name "@" then Err (malformed "unsupported derived component") else
      if negb (isLowercaseFieldName name)
      then Err (malformed "covered component is not a lowercase HTTP field name") else
      v ← coveredFieldValue h name;
      rest ← additionalComponentValues h cs;
      Ok (<[name := v]> rest)
  end.

End Base.

(** ** Lemmas *)

(** A base line can be taken apart again. *)
Lemma base_line_inj n1 v1 r1 n2 v2 r2 :
  contains_byte n1 quote = false → contains_byte n2 quote = false →
  contains_byte v1 (byte 10) = false → contains_byte v2 (byte 10) = false →
  base_line n1 v1 +:+ r1 = base_line n2 v2 +:+ r2 → n1 = n2 ∧ v1 = v2 ∧ r1 = r2.
Proof.
  intros Hn1 Hn2 Hv1 Hv2 H. unfold base_line in H. rewrite !sapp_assoc, !quoted_app in H.
  injection H as H.
  pose proof (f_equal (λ x, IndexByte x quote) H) as Hi. cbv beta in Hi.
  rewrite !IndexByte_app in Hi by done. injection Hi as Hi.
  apply sapp_inj_len in H as [-> H]; [|done]. injection H as H.
  unfold newline in H. rewrite !sapp_cons, !sapp_nil_l in H.
  pose proof (f_equal (λ x, IndexByte x (byte 10)) H) as Hi'. cbv beta in Hi'.
  rewrite !IndexByte_app in Hi' by done. injection Hi' as Hi'.
  apply sapp_inj_len in H as [-> H]; [|done]. by injection H.
Qed.

(** Names and values that cannot forge a line. *)
Definition line_safe (covered : list string) (values : gmap string string) : Prop :=
  ∀ n, n ∈ covered → contains_byte n quote = false ∧ n ≠ sigParamsComponent ∧
    ∀ v, values !! n = Some v → contains_byte v (byte 10) = false.

Lemma line_safe_cons n cs values :
  line_safe (n :: cs) values →
  (contains_byte n quote = false ∧ n ≠ sigParamsComponent ∧
   ∀ v, values !! n = Some v → contains_byte v (byte 10) = false) ∧ line_safe cs values.
Proof. intros H. split; [apply H; by left|]. intros m Hm. apply H. by right. Qed.

Lemma base_inj c1 c2 m1 m2 p1 p2 l1 l2 :
  line_safe c1 m1 → line_safe c2 m2 →
  base_lines c1 m1 = Some l1 → base_lines c2 m2 = Some l2 →
  l1 +:+ quoted sigParamsComponent +:+ ": " +:+ p1 = l2 +:+ quoted sigParamsComponent +:+ ": " +:+ p2 →
  c1 = c2 ∧ p1 = p2 ∧ ∀ n, n ∈ c1 → m1 !! n = m2 !! n.
Proof.
  assert (∀ n v r p, contains_byte n quote = false → n ≠ sigParamsComponent →
    quoted sigParamsComponent +:+ ": " +:+ p = base_line n v +:+ r → False) as Hend.
  { intros n v r p Hn Hne H. unfold base_line in H. rewrite !sapp_assoc, !quoted_app in H.
    injection H as H. pose proof (f_equal (λ x, IndexByte x quote) H) as Hi. cbv beta in Hi.
    rewrite !IndexByte_app in Hi by (done || reflexivity). injection Hi as Hi.
    apply sapp_inj_len in H as [H _]; [|done]. by apply Hne. }
  revert c2 l1 l2. induction c1 as [|n1 c1 IH]; intros [|n2 c2] l1 l2 Hs1 Hs2 H1 H2 H;
    cbn [base_lines] in H1, H2.
  - injection H1 as <-. injection H2 as <-. rewrite !sapp_nil_l in H. apply sapp_inj_l in H.
    apply (sapp_inj_l ": ") in H.
    split_and!; [done|done|]. intros n Hn. by apply not_elem_of_nil in Hn.
  - injection H1 as <-. apply line_safe_cons in Hs2 as [(Hq & Hne & _) _]. rewrite sapp_nil_l in H.
    destruct (m2 !! n2); [|done]. destruct (base_lines c2 m2); [|done]. cbn in H2.
    injection H2 as <-. rewrite sapp_assoc in H. by apply Hend in H.
  - injection H2 as <-. apply line_safe_cons in Hs1 as [(Hq & Hne & _) _]. rewrite sapp_nil_l in H.
    destruct (m1 !! n1); [|done]. destruct (base_lines c1 m1); [|done]. cbn in H1.
    injection H1 as <-. rewrite sapp_assoc in H. symmetry in H. by apply Hend in H.
  - apply line_safe_cons in Hs1 as [(Hq1 & _ & Hv1) Hs1].
    apply line_safe_cons in Hs2 as [(Hq2 & _ & Hv2) Hs2].
    destruct (m1 !! n1) as [v1|] eqn:E1; [|done]. destruct (base_lines c1 m1) as [r1|]; [|done].
    destruct (m2 !! n2) as [v2|] eqn:E2; [|done]. destruct (base_lines c2 m2) as [r2|] eqn:Er2; [|done].
    cbn in H1, H2. injection H1 as <-. injection H2 as <-. rewrite !sapp_assoc in H.
    apply base_line_inj in H as (-> & -> & H); [|by auto..].
    destruct (IH c2 r1 r2 Hs1 Hs2 eq_refl Er2 H) as (-> & -> & Hm). split_and!; [done|done|].
    intros n [->|Hn]%elem_of_cons; [congruence|by apply Hm].
Qed.

(** A digest header reads back as the digest it was made for. *)
Lemma digest_roundtrip `{RT : Runtime} body e :
  TrimSpace (computeSHA256DigestHeaderForEncoding body e) = computeSHA256DigestHeaderForEncoding body e →
  contains_byte (encodeBinary (Sha256 body) e) ":" = false →
  extractSHA256FromDigestHeaderForEncoding (computeSHA256DigestHeaderForEncoding body e) e
    = Ok (Some (Sha256 body)).
Proof.
  intros Ht Hc. unfold extractSHA256FromDigestHeaderForEncoding. rewrite Ht.
  unfold computeSHA256DigestHeaderForEncoding. set (v := encodeBinary (Sha256 body) e) in *.
  change ("sha-256=:" +:+ v +:+ ":") with ("sha-256" +:+ String "=" (String ":" (v +:+ ":"))).
  cbn [extract_sha256].
  change (skip_sep ("sha-256" +:+ String "=" (String ":" (v +:+ ":"))))
    with ("sha-256" +:+ String "=" (String ":" (v +:+ ":"))).
  rewrite bool_decide_false by done.
  unfold digest_entry. rewrite IndexByte_app by reflexivity.
  change (len "sha-256") with 7.
  change (stake 7 ("sha-256" +:+ String "=" (String ":" (v +:+ ":")))) with "sha-256".
  change (skip_ows (sdrop 8 ("sha-256" +:+ String "=" (String ":" (v +:+ ":")))))
    with (String ":" (v +:+ ":")).
  change (ToLower (TrimSpace "sha-256")) with "sha-256". cbv iota beta zeta. change (beq ":" ":") with true. cbn [negb].
  change (v +:+ ":") with (v +:+ String ":" ""). rewrite IndexByte_app by done.
  cbn [mbind result_bind]. rewrite bool_decide_true by done. rewrite stake_app.
  unfold v. rewrite decodeBinary_encode. done.
Qed.

(** ** Properties *)

(** the signature base determines what was signed: two requests with the
    same base cover the same components in the same order, with the same values,
    under the same parameters, when no name holds a quote and no value a line
    feed. *)
Theorem signature_base_injective c1 c2 m1 m2 p1 p2 b :
  line_safe c1 m1 → line_safe c2 m2 →
  buildSignatureBase c1 m1 p1 = Ok b → buildSignatureBase c2 m2 p2 = Ok b →
  c1 = c2 ∧ p1 = p2 ∧ ∀ n, n ∈ c1 → m1 !! n = m2 !! n.
Proof.
  intros Hs1 Hs2. unfold buildSignatureBase.
  destruct (base_lines c1 m1) as [l1|] eqn:E1; [|done].
  destruct (base_lines c2 m2) as [l2|] eqn:E2; [|done]. cbn [opt_err mbind result_bind].
  intros [= H1] [= H2]. eapply base_inj; [exact Hs1|exact Hs2|exact E1|exact E2|congruence].
Qed.

Lemma signature_base_injective_witness :
  let m : gmap string string := {["@method" := "POST"]} in
  buildSignatureBase ["@method"] m "();created=1" =
    Ok (quoted "@method" +:+ ": POST" +:+ newline +:+ quoted "@signature-params" +:+ ": ();created=1") ∧
  ["@method"] = ["@method"] ∧ "();created=1" = "();created=1".
Proof.
  intros m.
  assert (buildSignatureBase ["@method"] m "();created=1" =
    Ok (quoted "@method" +:+ ": POST" +:+ newline +:+ quoted "@signature-params" +:+ ": ();created=1"))
    as H by (vm_compute; reflexivity).
  assert (line_safe ["@method"] m) as Hs.
  { intros n Hn. apply list_elem_of_singleton in Hn as ->. split; [reflexivity|].
    split; [discriminate|]. intros v Hv. vm_compute in Hv. injection Hv as <-. reflexivity. }
  destruct (signature_base_injective _ _ _ _ _ _ _ Hs Hs H H) as (H1 & H2 & _).
  split; [exact H|]. split; [exact H1|exact H2].
Defined.
