(* ===== verification/SafeFetch.v ===== *)
(** * SafeFetch: fetches that cannot be turned against the host

    [src/adcp/v3/internal/safefetch/safefetch.go]: the static rules for a
    target URL, the blocked address ranges, the dialer that checks every resolved
    address and dials a checked one, and the capped GET.  The resolver and the
    transport are arguments. *)
From S2P Require Import Prelude GoStrings Unicode Json NetUrl Netip StrictJson SigBase.
From stdpp Require Import options.

Inductive fetch_error :=
  | ErrBlocked (why : string)
  | ErrTooLarge
  | MaxBytesRequired
  | Underlying (e : string).

(** ** Blocked addresses *)

Definition blockedPrefixes : list Prefix :=
  omap ParsePrefix
    ["0.0.0.0/8"; "10.0.0.0/8"; "100.64.0.0/10"; "127.0.0.0/8"; "169.254.0.0/16"; "172.16.0.0/12";
     "192.0.0.0/24"; "192.0.2.0/24"; "192.88.99.0/24"; "192.168.0.0/16"; "198.18.0.0/15";
     "198.51.100.0/24"; "203.0.113.0/24"; "224.0.0.0/4"; "240.0.0.0/4";
     "::/128"; "::1/128"; "64:ff9b::/96"; "64:ff9b:1::/48"; "100::/64"; "2001::/23"; "2001:db8::/32";
     "2002::/16"; "fc00::/7"; "fe80::/10"; "fec0::/10"; "ff00::/8"].

(** Every [Addr] of the model is valid. *)
Definition Blocked (addr : Addr) : bool :=
  let addr := Unmap addr in
  if negb (bool_decide (Zone addr = "")) then true else
  existsb (λ p, Contains p addr) blockedPrefixes.

Section SafeFetch.
Context `{RT : Runtime}.

(** [strings.EqualFold]; see [StrictJson.Fold_EqualFold]. *)
Definition EqualFold (s t : string) : bool := bool_decide (Fold s = Fold t).

Definition HasSuffix (s p : string) : bool :=
  (len p <=? len s)%nat && bool_decide (sdrop (len s - len p) s = p).

Definition clean_byte (c : ascii) : bool := negb ((code c <=? 32)%Z || (code c =? 127)%Z).

Definition ValidateTarget (rawURL : string) : result fetch_error unit :=
  _ ← guard_err (all_bytes clean_byte rawURL) (ErrBlocked "URL contains whitespace or a control character");
  u ← opt_err (ErrBlocked "parse") (ParseURL rawURL);
  if negb (bool_decide (URLScheme u = "https")) || bool_decide (URLHost u = "") ||
     negb (bool_decide (URLOpaque u = ""))
  then Err (ErrBlocked "an absolute https URL is required") else
  if negb (bool_decide (URLUser u = None)) then Err (ErrBlocked "userinfo is not allowed") else
  if negb (bool_decide (Fragment u = "")) || contains_byte rawURL "#"
  then Err (ErrBlocked "fragment is not allowed") else
  let host := Hostname u in
  if bool_decide (host = "") then Err (ErrBlocked "host is required") else
  if match ParseAddr host with Some addr => Blocked addr | None => false end
  then Err (ErrBlocked "address literal in a blocked range") else
  if EqualFold host "localhost" || HasSuffix (ToLower host) ".localhost"
  then Err (ErrBlocked "localhost is not allowed") else Ok tt.

(** The client's [DialContext]: the address that is dialed and its port. *)
Definition DialContext (lookup : string → result string (list Addr)) (address : string) :
    result fetch_error (Addr * string) :=
  '(host, port) ← opt_err (Underlying "split host and port") (SplitHostPort address);
  addrs ← match lookup host with Ok l => Ok l | Err e => Err (Underlying e) end;
  match addrs with
  | [] => Err (ErrBlocked "")
  | a :: _ => if existsb Blocked addrs then Err (ErrBlocked "") else Ok (Unmap a, port)
  end.

(** ** The capped GET *)

Record Options := MkOptions { Accept : string; MaxBytes : Z; RequestHeader : Header }.
Record Response := MkResponse { Status : Z; ResponseHeader : Header; Body : string }.

Definition HeaderAdd (h : Header) (name value : string) : Header :=
  header_put h (CanonicalHeaderKey name) (HeaderValues h name ++ [value]).

Definition add_all (h : Header) (extra : Header) : Header :=
  foldl (λ h kv, foldl (λ h v, HeaderAdd h kv.1 v) h kv.2) h extra.

(** [client] answers a GET of a URL with given headers: status, headers and the
    whole body the server would send. *)
Definition Get (client : string → Header → result string (Z * Header * string)) (rawURL : string)
    (opts : Options) : result fetch_error Response :=
  if (MaxBytes opts <=? 0)%Z then Err MaxBytesRequired else
  _ ← ValidateTarget rawURL;
  let h := add_all [] (RequestHeader opts) in
  let h := if bool_decide (Accept opts = "") then h else HeaderSet h "Accept" (Accept opts) in
  let h := HeaderSet h "Accept-Encoding" "identity" in
  '(status, hdr, full) ← match client rawURL h with Ok r => Ok r | Err e => Err (Underlying e) end;
  let body := stake (Z.to_nat (MaxBytes opts + 1)) full in
  if (MaxBytes opts <? Z.of_nat (len body))%Z then Err ErrTooLarge else Ok (MkResponse status hdr body).

End SafeFetch.

(** ** Which addresses are not public *)

(** The number of an IPv4 address and of an IPv6 address from its first four
    groups and the other 64 bits. *)
Definition octets (a b c d : Z) : Z := (((a * 256 + b) * 256 + c) * 256 + d)%Z.
Definition groups (g0 g1 g2 g3 low : Z) : Z := ((((g0 * 65536 + g1) * 65536 + g2) * 65536 + g3) * 2 ^ 64 + low)%Z.

Definition octet (x : Z) : Prop := (0 ≤ x < 256)%Z.
Definition hextet (x : Z) : Prop := (0 ≤ x < 65536)%Z.

(** The special-purpose IPv4 ranges, by octets. *)
Definition special4 (a b c : Z) : Prop :=
  (a = 0 ∨ a = 10 ∨ (a = 100 ∧ 64 ≤ b < 128) ∨ a = 127 ∨ (a = 169 ∧ b = 254) ∨ (a = 172 ∧ 16 ≤ b < 32) ∨
   (a = 192 ∧ b = 0 ∧ c = 0) ∨ (a = 192 ∧ b = 0 ∧ c = 2) ∨ (a = 192 ∧ b = 88 ∧ c = 99) ∨ (a = 192 ∧ b = 168) ∨
   (a = 198 ∧ 18 ≤ b < 20) ∨ (a = 198 ∧ b = 51 ∧ c = 100) ∨ (a = 203 ∧ b = 0 ∧ c = 113) ∨
   224 ≤ a < 240 ∨ 240 ≤ a)%Z.

(** The special-purpose IPv6 ranges, by groups: unspecified and loopback,
    translation, discard, IETF assignments, documentation, 6to4, unique local,
    link-local, site-local, multicast. *)
Definition special6 (g0 g1 g2 g3 low : Z) : Prop :=
  ((g0 = 0 ∧ g1 = 0 ∧ g2 = 0 ∧ g3 = 0 ∧ low = 0) ∨ (g0 = 0 ∧ g1 = 0 ∧ g2 = 0 ∧ g3 = 0 ∧ low = 1) ∨
   (g0 = 100 ∧ g1 = 65435 ∧ g2 = 0 ∧ g3 = 0 ∧ low < 2 ^ 32) ∨ (g0 = 100 ∧ g1 = 65435 ∧ g2 = 1) ∨
   (g0 = 256 ∧ g1 = 0 ∧ g2 = 0 ∧ g3 = 0) ∨ (g0 = 8193 ∧ g1 < 512) ∨ (g0 = 8193 ∧ g1 = 3512) ∨ g0 = 8194 ∨
   64512 ≤ g0 < 65024 ∨ 65152 ≤ g0 < 65216 ∨ 65216 ≤ g0 < 65280 ∨ 65280 ≤ g0)%Z.

(** The address is in no special-purpose range; an IPv4-mapped address counts as
    its IPv4 address, an address with a zone is never public. *)
Definition public (addr : Addr) : Prop :=
  match Unmap addr with
  | V4 x => ¬ special4 (x / 2 ^ 24) (x / 2 ^ 16 mod 256) (x / 2 ^ 8 mod 256)
  | V6 x z => z = "" ∧ ¬ special6 (x / 2 ^ 112) (x / 2 ^ 96 mod 65536) (x / 2 ^ 80 mod 65536)
                          (x / 2 ^ 64 mod 65536) (x mod 2 ^ 64)
  end.

(** A number of the right width. *)
Definition addr_ok (addr : Addr) : Prop :=
  match addr with V4 x => (0 ≤ x < 2 ^ 32)%Z | V6 x _ => (0 ≤ x < 2 ^ 128)%Z end.

(** ** Lemmas *)

(** Two numbers agree above bit [k] exactly when one is in the block of [2 ^ k]
    numbers that the other starts. *)
Lemma shiftr_block x b k q :
  (0 ≤ k)%Z → b = (q * 2 ^ k)%Z → Z.shiftr x k = Z.shiftr b k ↔ (b ≤ x < b + 2 ^ k)%Z.
Proof.
  intros Hk ->. rewrite !Z.shiftr_div_pow2 by done.
  pose proof (Z.pow_pos_nonneg 2 k ltac:(lia) Hk) as Hp. rewrite Z.div_mul by lia. split.
  - intros <-. pose proof (Z.div_mod x (2 ^ k) ltac:(lia)). pose proof (Z.mod_pos_bound x (2 ^ k) Hp). lia.
  - intros H. symmetry. apply (Z.div_unique x (2 ^ k) q (x - q * 2 ^ k)); lia.
Qed.

Lemma existsb_iff {A} (f : A → bool) (P : A → Prop) l :
  (∀ x, x ∈ l → f x = true ↔ P x) → existsb f l = true ↔ Exists P l.
Proof.
  induction l as [|x l IH]; intros H; cbn; [rewrite Exists_nil; done|].
  rewrite orb_true_iff, Exists_cons, (H x) by set_solver. rewrite IH; [done|]. intros y Hy. apply H. set_solver.
Qed.

(** Containment in a prefix as an interval of addresses. *)
Definition in_block (addr : Addr) (p : Prefix) : Prop :=
  match PrefixAddr p, addr with
  | V4 b, V4 x => (b ≤ x < b + 2 ^ (32 - PrefixBits p))%Z
  | V6 b _, V6 x _ => (b ≤ x < b + 2 ^ (128 - PrefixBits p))%Z
  | _, _ => False
  end.

(** The prefix's address has no bits after its length. *)
Definition aligned (p : Prefix) : bool :=
  match PrefixAddr p with
  | V4 b => (0 <=? PrefixBits p)%Z && (PrefixBits p <=? 32)%Z && (b mod 2 ^ (32 - PrefixBits p) =? 0)%Z
  | V6 b _ => (0 <=? PrefixBits p)%Z && (PrefixBits p <=? 128)%Z && (b mod 2 ^ (128 - PrefixBits p) =? 0)%Z &&
              (0 <=? b)%Z && (b <? 2 ^ 128)%Z
  end.

Lemma Contains_block p addr :
  aligned p = true → addr_ok addr → Zone addr = "" → Contains p addr = true ↔ in_block addr p.
Proof.
  destruct p as [[b|b z'] n]; unfold aligned, in_block; cbn [PrefixAddr PrefixBits]; intros Ha Hok Hz;
    bool_prop; destruct addr as [x|x z]; try done.
  - rewrite Contains_V4, (shiftr_block _ _ _ (b / 2 ^ (32 - n))); [done|lia|].
    pose proof (Z.div_mod b (2 ^ (32 - n)) ltac:(lia)). lia.
  - cbn in Hz. subst z. rewrite Contains_V6 by (done || lia).
    rewrite (shiftr_block _ _ _ (b / 2 ^ (128 - n))); [done|lia|].
    pose proof (Z.div_mod b (2 ^ (128 - n)) ltac:(lia)). lia.
Qed.

Lemma blockedPrefixes_aligned : Forall (λ p, aligned p = true) blockedPrefixes.
Proof. apply forallb_forall_Forall. by vm_compute. Qed.

(** No literal of the list fails to parse: [MustParsePrefix] does not panic. *)
Lemma blockedPrefixes_all : length blockedPrefixes = 27.
Proof. by vm_compute. Qed.

Lemma Blocked_blocks addr :
  addr_ok addr → Unmap addr = addr → Zone addr = "" →
  Blocked addr = true ↔ Exists (in_block addr) blockedPrefixes.
Proof.
  intros Hok Hu Hz. unfold Blocked. rewrite Hu, Hz.
  rewrite (bool_decide_eq_true_2 ("" = "")) by done. cbn [negb].
  apply existsb_iff. intros p Hp. apply Contains_block; [|done|done].
  pose proof blockedPrefixes_aligned as H. rewrite Forall_forall in H. by apply H.
Qed.

(** Opens the list of blocked prefixes into one interval per prefix of the
    address's family. *)
Ltac open_blocks :=
  let l := eval vm_compute in blockedPrefixes in replace blockedPrefixes with l by (by vm_compute);
  repeat rewrite Exists_cons; rewrite Exists_nil; unfold in_block; cbn [PrefixAddr PrefixBits];
  repeat match goal with
  | |- context [(2 ^ ?e)%Z] => let v := eval vm_compute in (2 ^ e)%Z in change (2 ^ e)%Z with v
  end.

(** Proves a disjunction of intervals by finding the one that holds. *)
Ltac pick := lazymatch goal with |- _ ∨ _ => first [left; lia | right; pick] | |- _ => lia end.

Lemma Blocked_octets a b c d :
  octet a → octet b → octet c → octet d → Blocked (V4 (octets a b c d)) = true ↔ special4 a b c.
Proof.
  unfold octet. intros Ha Hb Hc Hd. rewrite Blocked_blocks; [|unfold addr_ok, octets; lia|done|done].
  open_blocks. unfold octets, special4. split; intros H; destruct_or? H; try done; pick.
Qed.

Lemma Blocked_groups g0 g1 g2 g3 low :
  hextet g0 → hextet g1 → hextet g2 → hextet g3 → (0 ≤ low < 2 ^ 64)%Z →
  Unmap (V6 (groups g0 g1 g2 g3 low) "") = V6 (groups g0 g1 g2 g3 low) "" →
  Blocked (V6 (groups g0 g1 g2 g3 low) "") = true ↔ special6 g0 g1 g2 g3 low.
Proof.
  unfold hextet. intros H0 H1 H2 H3 Hl Hu.
  rewrite Blocked_blocks; [|unfold addr_ok, groups; lia|done|done]. clear Hu.
  open_blocks. unfold groups, special6. change (2 ^ 64)%Z with 18446744073709551616%Z in *.
  split; intros H; destruct_or? H; try done; pick.
Qed.

Lemma div_step x n k m d :
  (0 ≤ n)%Z → (0 ≤ k)%Z → m = (n + k)%Z → d = (2 ^ k)%Z →
  (x / 2 ^ n = d * (x / 2 ^ m) + x / 2 ^ n mod d)%Z.
Proof.
  intros Hn Hk -> ->. pose proof (Z.pow_pos_nonneg 2 n ltac:(lia) Hn). pose proof (Z.pow_pos_nonneg 2 k ltac:(lia) Hk).
  rewrite Z.pow_add_r, <- Z.div_div by lia. apply Z.div_mod. lia.
Qed.

Lemma octets_split x :
  x = octets (x / 2 ^ 24) (x / 2 ^ 16 mod 256) (x / 2 ^ 8 mod 256) (x mod 256).
Proof.
  unfold octets. pose proof (Z.div_mod x 256 ltac:(lia)) as H0. change 256%Z with (2 ^ 8)%Z in H0 at 2.
  pose proof (div_step x 8 8 16 256 ltac:(lia) ltac:(lia) eq_refl eq_refl).
  pose proof (div_step x 16 8 24 256 ltac:(lia) ltac:(lia) eq_refl eq_refl). lia.
Qed.

Lemma groups_split x :
  x = groups (x / 2 ^ 112) (x / 2 ^ 96 mod 65536) (x / 2 ^ 80 mod 65536) (x / 2 ^ 64 mod 65536) (x mod 2 ^ 64).
Proof.
  unfold groups. pose proof (Z.div_mod x (2 ^ 64) ltac:(lia)).
  pose proof (div_step x 64 16 80 65536 ltac:(lia) ltac:(lia) eq_refl eq_refl).
  pose proof (div_step x 80 16 96 65536 ltac:(lia) ltac:(lia) eq_refl eq_refl).
  pose proof (div_step x 96 16 112 65536 ltac:(lia) ltac:(lia) eq_refl eq_refl). lia.
Qed.

Lemma Unmap_idem a : Unmap (Unmap a) = Unmap a.
Proof. destruct a as [x|x z]; [done|]. cbn [Unmap]. destruct (_ =? _)%Z eqn:E; cbn [Unmap]; [done|]. by rewrite E. Qed.

Lemma Unmap_ok a : addr_ok a → addr_ok (Unmap a).
Proof.
  destruct a as [x|x z]; [done|]. cbn [Unmap]. destruct (_ =? _)%Z; [|done]. intros _. cbn [addr_ok].
  by apply Z.mod_pos_bound.
Qed.

Lemma Blocked_Unmap a : Blocked (Unmap a) = Blocked a.
Proof. unfold Blocked. by rewrite Unmap_idem. Qed.

(** [Blocked] is the complement of the public addresses. *)
Lemma Blocked_public a : addr_ok a → Blocked a = false ↔ public a.
Proof.
  intros Ha%Unmap_ok. rewrite <- Blocked_Unmap. unfold public.
  destruct (Unmap a) as [x|x z] eqn:E.
  - cbn [addr_ok] in Ha. rewrite <- not_true_iff_false. rewrite (octets_split x) at 1.
    rewrite Blocked_octets; [done|unfold octet..]; try (apply Z.mod_pos_bound; lia).
    split; [apply Z.div_pos; lia|apply Z.div_lt_upper_bound; lia].
  - destruct (decide (z = "")) as [->|Hz].
    + cbn [addr_ok] in Ha. rewrite <- not_true_iff_false. rewrite (groups_split x) at 1.
      rewrite Blocked_groups; [naive_solver|unfold hextet..|]; try (apply Z.mod_pos_bound; lia).
      * split; [apply Z.div_pos; lia|apply Z.div_lt_upper_bound; lia].
      * rewrite <- groups_split, <- E. apply Unmap_idem.
    + split; [|naive_solver]. unfold Blocked. rewrite <- E, Unmap_idem, E. cbn [Zone].
      rewrite bool_decide_eq_false_2 by done. done.
Qed.

Section Props.
Context `{RT : Runtime}.

(** the dialer connects exactly when the host resolves and every address
    it resolves to is public, and then to the first of them at the requested port:
    one private, loopback, link-local or IPv4-mapped private address among the
    answers refuses the connection. *)
Theorem dial_only_public lookup address a port :
  (∀ host l, lookup host = Ok l → Forall addr_ok l) →
  DialContext lookup address = Ok (a, port) ↔
  ∃ host x l, SplitHostPort address = Some (host, port) ∧ lookup host = Ok (x :: l) ∧
    a = Unmap x ∧ Forall public (x :: l).
Proof.
  intros Hok. unfold DialContext.
  assert (∀ x l, Forall addr_ok (x :: l) → existsb Blocked (x :: l) = false ↔ Forall public (x :: l)) as Hb.
  { intros x l. generalize (x :: l). intros L HL. induction HL as [|y L Hy HL IH]; cbn; [by rewrite Forall_nil|].
    by rewrite orb_false_iff, Forall_cons, IH, (Blocked_public y Hy). }
  split.
  - intros H. destruct (SplitHostPort address) as [[host p]|]; [|done]. cbn in H.
    destruct (lookup host) as [[|x l]|] eqn:El; try done. cbn [mbind result_bind] in H.
    destruct (existsb Blocked (x :: l)) eqn:Eb; [done|]. simplify_eq.
    exists host, x, l. split_and!; try done. apply Hb; [by eapply Hok|done].
  - intros (host & x & l & -> & Hl & -> & Hp). cbn [opt_err mbind result_bind]. rewrite Hl.
    cbn [mbind result_bind]. by rewrite (proj2 (Hb x l (Hok _ _ Hl)) Hp).
Qed.

Lemma dial_only_public_witness :
  DialContext (λ _, Ok [V6 281470816487432 ""; V4 134744072]) "seller.example:443" = Ok (V4 134744072, "443") ∧
  DialContext (λ _, Ok [V4 134744072; V6 281472812449793 ""]) "seller.example:443" ≠ Ok (V4 134744072, "443").
Proof.
  split.
  - apply (dial_only_public (λ _, Ok [V6 281470816487432 ""; V4 134744072])).
    { intros host l [= <-]. repeat constructor; cbn; lia. }
    exists "seller.example", (V6 281470816487432 ""), [V4 134744072].
    split_and!; [by vm_compute|done|by vm_compute|].
    repeat constructor; apply Blocked_public; first [by vm_compute|cbn; lia].
  - by vm_compute.
Defined.

End Props.
