(* ===== verification/Origin.v ===== *)
(** * Origin: the identity of an agent

    [src/adcp/v3/signing/origin.go]: the canonical origin of a URL, and the rules
    for an origin that names a Web Bot Auth identity. *)
From S2P Require Import Prelude GoStrings Unicode Json NetUrl UrlCanon StrictJson SigTypes SigBase SafeFetch.
From stdpp Require Import options.

Section Origin.
Context `{RT : Runtime}.

Definition CanonicalOrigin (rawURL : string) : option string :=
  match canonicalTargetURI rawURL with
  | Err _ => None
  | Ok canonical =>
      u ← ParseURL canonical;
      if bool_decide (URLHost u = "") then None else Some (URLScheme u +:+ "://" +:+ URLHost u)
  end.

Definition canonicalPort (port : string) : bool :=
  if bool_decide (port = "") then true else
  match ParseInt port with
  | Some n => (1 <=? n)%Z && (n <=? 65535)%Z && bool_decide (Itoa n = port)
  | None => false
  end.

Definition webBotAuthOrigin (rawURL : string) : option string :=
  if negb (all_bytes (λ c, negb ((code c <? 33)%Z || (code c =? 127)%Z)) rawURL) then None else
  u ← ParseURL rawURL;
  if negb (bool_decide (URLUser u = None)) then None else
  origin ← CanonicalOrigin rawURL;
  if negb (HasPrefix origin "https://") then None else
  o ← ParseURL origin;
  if negb (canonicalPort (Port o)) then None else
  match ValidateTarget (origin +:+ "/") with Ok _ => Some origin | Err _ => None end.

Definition signatureAgentOrigin (value : string) : option string :=
  origin ← webBotAuthOrigin value;
  if bool_decide (value = origin) then Some origin else None.

End Origin.

(** Two accepted spellings of one identity are the same text. *)
Lemma signatureAgentOrigin_spelling `{RT : Runtime} v w o :
  signatureAgentOrigin v = Some o → signatureAgentOrigin w = Some o → v = w.
Proof.
  unfold signatureAgentOrigin. intros Hv Hw.
  destruct (webBotAuthOrigin v) as [o1|]; [|done]. destruct (webBotAuthOrigin w) as [o2|]; [|done].
  cbn in *. case_bool_decide; [|done]. case_bool_decide; [|done]. by simplify_eq.
Qed.
