(* ===== verification/Psl.v ===== *)
(** * Psl: registrable domains

    [src/adcp/v3/internal/psl/psl.go].  The Public Suffix List itself is the
    class [PublicSuffixList] ([golang.org/x/net/publicsuffix]). *)
From S2P Require Import Prelude GoStrings Unicode NetUrl Netip StrictJson SigBase.
From stdpp Require Import options.

(** [publicsuffix.PublicSuffix] (the suffix, and whether an ICANN rule matched)
    and [publicsuffix.EffectiveTLDPlusOne]. *)
Class PublicSuffixList := {
  PublicSuffix : string → string * bool;
  EffectiveTLDPlusOne : string → option string;
}.

Definition label_char (c : ascii) : bool := between 97 122 c || is_digit c || beq c "-".

Definition valid_label (l : string) : bool :=
  negb (bool_decide (l = "") || (63 <? len l)%nat || HasPrefix l "-" || bool_decide (sdrop (len l - 1) l = "-")) &&
  all_bytes label_char l.

Definition validHost (host : string) : bool :=
  if (253 <? len host)%nat then false else
  let labels := Split host "." in
  if (length labels <? 2)%nat then false else forallb valid_label labels.

(** [strings.TrimSuffix(s, ".")]. *)
Definition trim_root_dot (s : string) : string := if ends_dot s then stake (len s - 1) s else s.

(** [strings.Contains(s, "://")]. *)
Definition has_scheme (s : string) : bool := match sindex "://" s with Some _ => true | None => false end.

Section Psl.
Context `{RT : Runtime} `{PSL : PublicSuffixList}.

Definition RegistrableDomain (hostOrURL : string) : option string :=
  host ← (if has_scheme hostOrURL then u ← ParseURL hostOrURL; Some (Hostname u) else Some hostOrURL);
  let host := ToLower (trim_root_dot host) in
  if bool_decide (host = "") || ParseIP_ok host || negb (validHost host) then None else
  let '(suffix, icann) := PublicSuffix host in
  if negb icann && negb (contains_byte suffix ".") then None else EffectiveTLDPlusOne host.

Definition QuotaKey (hostOrURL : string) : option string :=
  domain ← RegistrableDomain hostOrURL;
  let '(suffix, icann) := PublicSuffix domain in
  if negb icann && contains_byte suffix "." then Some suffix else Some domain.

End Psl.

(** What is relied on: a public suffix and one more label of a host name are a
    host name. *)
Class PublicSuffixSpec `{PSL : PublicSuffixList} : Prop :=
  eTLD_host h d : EffectiveTLDPlusOne h = Some d → validHost h = true → validHost d = true.

Lemma RegistrableDomain_host `{RT : Runtime} `{PSL : PublicSuffixList} `{!PublicSuffixSpec} s d :
  RegistrableDomain s = Some d → validHost d = true.
Proof.
  unfold RegistrableDomain. intros E. destruct (if has_scheme s then _ else _) as [host|]; [|done].
  cbn [mbind option_bind] in E. destruct (_ || _ || _)%bool eqn:Eb; [done|]. bool_prop.
  destruct (PublicSuffix _) as [suffix icann]. destruct (negb icann && _)%bool; [done|]. by eapply eTLD_host.
Qed.

(** ** Hosts inside URLs *)

Definition host_char (c : ascii) : bool := label_char c || beq c ".".

Lemma host_char_url c :
  host_char c = true → beq c "%" = false ∧ shouldEscape c encodeHost = false ∧ (code c <? 128)%Z = true ∧
  ((32 <=? code c) && negb (code c =? 127))%Z = true.
Proof. destruct c as [[] [] [] [] [] [] [] []]; vm_compute; try discriminate; done. Qed.

Lemma validHost_chars h : validHost h = true → all_bytes host_char h = true.
Proof.
  unfold validHost. destruct (253 <? len h)%nat; [done|]. destruct (length (Split h ".") <? 2)%nat; [done|].
  intros H. apply (Split_all_bytes _ _ "."); [|done].
  apply (Forall_impl _ _ _ (forallb_forall_Forall _ _ H)). unfold valid_label. intros l ?. bool_prop.
  eapply all_bytes_impl; [|done]. intros c. unfold host_char. by intros ->.
Qed.

Lemma validHost_nonempty h : validHost h = true → h ≠ "".
Proof. by intros H ->. Qed.

Lemma unescape_host h : all_bytes host_char h = true → unescape encodeHost h = Some h.
Proof.
  induction h as [|c h IH]; [done|]. cbn [all_bytes]. intros [Hc Hh]%andb_true_iff.
  destruct (host_char_url c Hc) as (E1 & E2 & _). cbn [unescape]. rewrite E1, E2, (IH Hh).
  by rewrite andb_false_r.
Qed.

Lemma Cut_none s c : contains_byte s c = false → Cut s c = (s, "", false).
Proof. intros H. unfold Cut. by rewrite (proj2 (IndexByte_None s c) H). Qed.

Lemma getScheme_https x : getScheme_from true "" ("https://" +:+ x) = Some (Some ("https", "//" +:+ x)).
Proof. reflexivity. Qed.

(** A URL made of [https://], a host and a path reads back as that host. *)
Lemma parse_https_host h path :
  validHost h = true → HasPrefix path "/" = true →
  all_bytes (λ c, (32 <=? code c)%Z && negb (code c =? 127)%Z) path = true →
  contains_byte path "?" = false → contains_byte path "#" = false → is_Some (set_encoded encodePath path) →
  ∃ u, ParseURL ("https://" +:+ h +:+ path) = Some u ∧ Hostname u = h.
Proof.
  intros Hv Hp Hbytes Hq Hhash [[p raw] Hset]. pose proof (validHost_chars h Hv) as Hc.
  assert (∀ c, host_char c = false → contains_byte h c = false) as Hno by (intros; by eapply all_bytes_no).
  assert (HasPrefix h "[" = false) as Hb.
  { destruct (HasPrefix h "[") eqn:E; [|done]. apply HasPrefix_true in E as [t ->].
    specialize (Hno "["%char eq_refl). by rewrite contains_byte_app in Hno. }
  apply HasPrefix_true in Hp as [path' ->].
  assert (∀ c, contains_byte h c = false → contains_byte ("/" +:+ path') c = false →
               contains_byte "https://" c = false → contains_byte ("https://" +:+ h +:+ "/" +:+ path') c = false) as Hall.
  { intros c H1 H2 H3. by rewrite !contains_byte_app, <- contains_byte_app, H1, H2, H3. }
  unfold ParseURL. rewrite Cut_none by (apply Hall; [by apply Hno|done|done]).
  assert (parse ("https://" +:+ h +:+ "/" +:+ path') = Some (MkURL "https" "" None h p raw false false "" "" "")) as ->.
  { unfold parse. rewrite !all_bytes_app, <- all_bytes_app, Hbytes.
    rewrite (all_bytes_impl host_char _ h) by (first [done|intros c0 Hc0; by apply host_char_url]).
    cbn [andb negb]. change (all_bytes _ "https://") with true. cbn [andb negb].
    rewrite bool_decide_eq_false_2 by done. rewrite getScheme_https. cbn [mbind option_bind].
    rewrite (Cut_none _ "?") by by rewrite (contains_byte_app "//"), (contains_byte_app h), Hq, (Hno "?"%char eq_refl).
    change (lower "https") with "https". rewrite (bool_decide_eq_false_2 ("https" = "")) by done.
    assert (∀ x, HasPrefix ("//" +:+ x) "//" = true ∧ HasPrefix ("//" +:+ x) "/" = true) as Hs.
    { intros x. split; [apply HasPrefix_app|]. change ("//" +:+ x) with ("/" +:+ ("/" +:+ x)). apply HasPrefix_app. }
    rewrite !(proj1 (Hs _)), !(proj2 (Hs _)). cbn [negb andb orb].
    change (sdrop 2 ("//" +:+ h +:+ "/" +:+ path')) with (h +:+ String "/" path').
    rewrite (IndexByte_app h path' "/") by by apply Hno.
    change (default (len (h +:+ String "/" path')) (Some (len h))) with (len h).
    rewrite stake_app, sdrop_app. unfold parseAuthority.
    rewrite (proj2 (LastIndexByte_None h "@")) by by apply Hno. unfold parseHost.
    rewrite Hb, (proj2 (LastIndexByte_None h ":")) by by apply Hno.
    rewrite unescape_host by done. cbn [mbind option_bind].
    change (String "/" path') with ("/" +:+ path'). by rewrite Hset. }
  cbn [mbind option_bind]. rewrite bool_decide_eq_true_2 by done. eexists. split; [done|].
  unfold Hostname, split_host_port. cbn [URLHost]. rewrite (proj2 (LastIndexByte_None h ":")) by by apply Hno.
  by rewrite Hb.
Qed.

(** A list with one-label ICANN suffixes and the private suffix [github.io], for
    the examples of the library. *)
Definition last_labels (n : nat) (host : string) : string :=
  let labels := Split host "." in Join (drop (length labels - n) labels) ".".

Definition valid_or_none (d : string) : option string := if validHost d then Some d else None.

Definition toy_psl : PublicSuffixList := {|
  PublicSuffix host :=
    if bool_decide (last_labels 2 host = "github.io") then ("github.io", false)
    else (last_labels 1 host, bool_decide (last_labels 1 host ∈ ["com"; "org"; "io"]));
  EffectiveTLDPlusOne host :=
    let n := length (Split host ".") in
    if bool_decide (last_labels 2 host = "github.io") then if (n <? 3)%nat then None else valid_or_none (last_labels 3 host)
    else if (n <? 2)%nat then None else valid_or_none (last_labels 2 host);
|}.

Lemma toy_psl_spec : PublicSuffixSpec (PSL := toy_psl).
Proof.
  intros h d H _. cbn in H. unfold valid_or_none in H. by split_if.
Qed.

Example RegistrableDomain_examples :
  map (RegistrableDomain (RT := ascii_runtime) (PSL := toy_psl))
    ["https://Buyer.Example.COM.:443/x"; "attacker.github.io"; "github.io"; "192.0.2.1"; "localhost"; "a..example.com"] =
    [Some "example.com"; Some "attacker.github.io"; None; None; None; None].
Proof. by vm_compute. Qed.

Example QuotaKey_examples :
  map (QuotaKey (RT := ascii_runtime) (PSL := toy_psl)) ["https://a.tenant1.github.io"; "agent.brand.example.com"] =
    [Some "github.io"; Some "example.com"].
Proof. by vm_compute. Qed.
