(* ===== verification/Verify.v ===== *)
(** * Verify: the request-signature verifier

    [src/adcp/v3/signing/verify.go] and [verifyrequest.go], and the parts of
    [jwk.go] they use.  The 13 steps of the checklist are definitions of their
    own, run in order by [VerifyRequestSignature].  Integers are Go's [int64]
    with their wrap-around.  Key decoding ([go-jose]), the signature primitives
    and the range of floats are parameters. *)
From stdpp Require Import gmap stringmap.
From S2P Require Import Prelude GoStrings Json Base64 SigTypes SigInput SigBase Replay StrictJson.
From S2P Require Import Bytes Unicode NetUrl.
From stdpp Require Import options.

(** ** Keys *)

Record JWK := MkJWK {
  Kid : string; Kty : string; Crv : string; Alg : string; Use : string;
  KeyOps : option (list string); JwkAdcpUse : string; KeyX : string; KeyY : string; KeyN : string; KeyE : string;
  PrivateD : string; TestOnlyPrivateD : string;
}.

(** [JWK.Public]. *)
Definition Public (k : JWK) : JWK :=
  MkJWK (Kid k) (Kty k) (Crv k) (Alg k) (Use k) (KeyOps k) (JwkAdcpUse k) (KeyX k) (KeyY k) (KeyN k) (KeyE k) "" "".

(** [JWKS.Find]. *)
Definition Find (keys : list JWK) (kid : string) : option JWK :=
  List.find (λ k, bool_decide (Kid k = kid)) keys.

(** A key value of Go: [ed25519.PublicKey], [*ecdsa.PublicKey] or one of their
    private counterparts. *)
Inductive PubKey := EdKey (k : string) | EcKey (k : string) | EdPrivate (k : string) | EcPrivate (k : string).

(** [JSONWebKey.UnmarshalJSON] of go-jose on the members of a JWK, the signature
    checks of [crypto/ed25519] and [crypto/ecdsa], and whether a JSON number is
    in the range of [float64]. *)
Class Crypto := {
  JoseUnmarshal : gmap string string → option PubKey;
  Ed25519Verify : string → string → string → bool;
  EcdsaVerify : string → string → Z → Z → bool;
  float_ok : string → bool;
}.

(** One optional member of a key, re-encoded without padding. *)
Definition key_member (m : gmap string string) (name value : string) : option (gmap string string) :=
  if bool_decide (value = "") then Some m else
  raw ← b64UrlDecode value; Some (<[name := RawURLEncode raw]> m).

(** [joseKey] with the private member [d]. *)
Definition joseKey `{CR : Crypto} (k : JWK) (d : string) : option PubKey :=
  let m : gmap string string := {["kty" := Kty k]} in
  let m := if negb (bool_decide (Crv k = "")) then <["crv" := Crv k]> m else m in
  m ← key_member m "x" (KeyX k);
  m ← key_member m "y" (KeyY k);
  m ← key_member m "n" (KeyN k);
  m ← key_member m "e" (KeyE k);
  m ← key_member m "d" d;
  JoseUnmarshal m.

Definition checkProfileCurve (k : JWK) : bool :=
  if bool_decide (Kty k = "OKP") then bool_decide (Crv k = "Ed25519")
  else if bool_decide (Kty k = "EC") then bool_decide (Crv k = "P-256")
  else false.

Definition SigParamAlg (k : JWK) : option string :=
  if bool_decide (Kty k = "OKP") && bool_decide (Crv k = "Ed25519") then Some AlgEd25519
  else if bool_decide (Kty k = "EC") && bool_decide (Crv k = "P-256") then Some AlgES256
  else None.

(** ** Requests and options *)

(** [Request.Body]: nil, [http.NoBody], or a reader that delivers [data] and
    then fails or ends. *)
Inductive body := BodyNil | BodyNone | BodyData (data : string) (failure : option string).

Record VerifyOptions := MkOptions {
  OperationName : string;
  RequiredFor : list string;
  ProtocolMethodsRequiredFor : list string;
  OptProfile : Profile;
  ContentDigestPolicy : DigestPolicy;
  Scheme : string;
  Resolver : option (string → result error (JWK * string));
  Revocation : option (string → bool) * bool;
  MaxBodyBytes : Z;
}.

Section Verify.
Context `{RT : Runtime, CR : Crypto}.

Record Request := MkRequest {
  Method : string;
  ReqURL : URL;
  Host : string;
  ReqHeader : Header;
  ContentLength : Z;
  Body : body;
}.

(** [JWK.PublicKey]. *)
Definition PublicKey (k : JWK) : option PubKey :=
  if checkProfileCurve k then joseKey k "" else None.

(** [JWK.PrivateKey]. *)
Definition PrivateKey (k : JWK) : option PubKey :=
  let d := if bool_decide (PrivateD k = "") then TestOnlyPrivateD k else PrivateD k in
  if bool_decide (d = "") then None else
  if checkProfileCurve k then joseKey k d else None.

(** [readAndReplaceBody]: the bytes read, and the body that replaces the one of
    the request; [limit+1] is an [int64]. *)
Definition readAndReplaceBody (b : body) (limit : Z) : result error (string * body) :=
  match b with
  | BodyNil => Ok ("", BodyNil)
  | BodyNone => Ok ("", BodyData "" None)
  | BodyData data failure =>
      let n := wrap64 (limit + 1) in
      let '(got, err) :=
        if (n <=? 0)%Z then ("", None)
        else if (zlen data <? n)%Z then (data, failure)
        else (stake (Z.to_nat n) data, None) in
      match err with
      | Some e => Err (OtherError e)
      | None =>
          if (limit <? zlen got)%Z
          then Err (newError CodeDigestMismatch "request body exceeds MaxBodyBytes")
          else Ok (got, BodyData got None)
      end
  end.

Definition body_limit (opts : VerifyOptions) : Z :=
  if (MaxBodyBytes opts <=? 0)%Z then defaultMaxBodyBytes else MaxBodyBytes opts.

(** ** Reading the body of an unsigned request *)

Definition containsTopLevelComma (s : string) : bool :=
  match scan_top (beq ",") false s with Some _ => true | None => false end.

(** [ambiguousBody]. *)
Definition ambiguousBody (b : string) : bool :=
  negb (bool_decide (TrimSpace b = "")) && negb (is_ok (Validate b 0)).

Definition protocolMethodFromJSONRPC (b : string) : string :=
  match unmarshal_raw_map b with
  | None => ""
  | Some m =>
      match obj_get "jsonrpc" m ≫= unmarshal_string with
      | None => ""
      | Some version =>
          if negb (bool_decide (version = "2.0")) then "" else
          default "" (obj_get "method" m ≫= unmarshal_string)
      end
  end.

Definition folds_to (k name : string) : bool := bool_decide (Fold k = Fold name).

(** A member of a Go map is the last of its name. *)
Definition overridden (k : string) (later : list (string * json)) : bool :=
  existsb (λ kv, bool_decide (kv.1 = k)) later.

Definition carries_authentication (v : json) : bool :=
  match v with JObj m => existsb (λ kv, folds_to kv.1 "authentication") m | _ => false end.

Fixpoint hasPushNotificationAuth (v : json) : bool :=
  match v with
  | JObj l =>
      (fix go l := match l with
       | [] => false
       | kv :: l' =>
           (negb (overridden kv.1 l') &&
             ((folds_to kv.1 "push_notification_config" && carries_authentication kv.2) ||
              hasPushNotificationAuth kv.2)) || go l'
       end) l
  | JArr l => existsb hasPushNotificationAuth l
  | _ => false
  end.

Definition bodyCarriesPushNotificationAuth (b : string) : bool :=
  if bool_decide (b = "") then false else
  match json_decode b with
  | Some v => nums_ok float_ok v && hasPushNotificationAuth v
  | None => false
  end.

(** ** Signatures *)

Definition verifySignature (alg : string) (pub : PubKey) (base sig : string) : bool :=
  if bool_decide (alg = AlgEd25519) then
    match pub with
    | EdKey k => (len sig =? 64)%nat && Ed25519Verify k base sig
    | _ => false
    end
  else if bool_decide (alg = AlgES256) then
    match pub with
    | EcKey k =>
        let r := big_endian 0 (stake 32 sig) in
        let s := big_endian 0 (sdrop 32 sig) in
        (len sig =? 64)%nat && (0 <? r)%Z && (0 <? s)%Z && EcdsaVerify k (Sha256 base) r s
    | _ => false
    end
  else false.

Definition profileAllowsKeyUse (p : Profile) (keyUse : string) : bool :=
  if bool_decide (Tag p = Tag ProfileWebhookSigning)
  then bool_decide (keyUse = "request-signing") || bool_decide (keyUse = "webhook-signing")
  else bool_decide (keyUse = AdcpUse p).

Definition reconstructRequestURL (r : Request) (scheme : string) : string :=
  if IsAbs (ReqURL r) then URLString (ReqURL r)
  else URLString (WithHost (WithScheme (ReqURL r) scheme) (Host r)).

Definition authorityOf (r : Request) : string :=
  if negb (bool_decide (Host r = "")) then Host r else URLHost (ReqURL r).

(** ** The checklist *)

Definition check (ok : bool) (code : ErrorCode) (detail : string) : result error unit :=
  guard_err ok (newError code detail).

Definition effective_profile (opts : VerifyOptions) : Profile :=
  if bool_decide (Tag (OptProfile opts) = "") then ProfileRequestSigning else OptProfile opts.
Definition effective_scheme (opts : VerifyOptions) : string :=
  if bool_decide (Scheme opts = "") then "https" else Scheme opts.

(** Single-valued Content-Type and Content-Digest. *)
Definition check_single_valued (r : Request) : result error unit :=
  let h := ReqHeader r in
  _ ← check (length (HeaderValues h contentTypeHeader) <=? 1)%nat
        CodeHeaderMalformed "multiple Content-Type values";
  _ ← check (negb (containsTopLevelComma (HeaderGet h contentTypeHeader)))
        CodeHeaderMalformed "Content-Type must be single-valued";
  _ ← check (length (HeaderValues h contentDigestHeader) <=? 1)%nat
        CodeHeaderMalformed "multiple Content-Digest values";
  let cd := HeaderGet h contentDigestHeader in
  if bool_decide (cd = "") then Ok () else rejectDigestDuplicates cd.

(** Pre-check 0 for a request without signature headers; the body the request
    is left with. *)
Definition check_unsigned (opts : VerifyOptions) (r : Request) : result error body :=
  _ ← check (negb (bool_decide (OperationName opts ∈ RequiredFor opts)))
        CodeRequired "operation requires signature";
  '(b, kept) ← readAndReplaceBody (Body r) (body_limit opts);
  _ ← check (negb (ambiguousBody b)) CodeRequired "unsigned body is not strict JSON";
  _ ← check (negb (bool_decide (protocolMethodFromJSONRPC b ∈ ProtocolMethodsRequiredFor opts)))
        CodeRequired "protocol method requires signature";
  _ ← check (negb (bodyCarriesPushNotificationAuth b))
        CodeRequired "push_notification_config.authentication requires signed request";
  Ok kept.

(** Step 2: the required parameters. *)
Definition required_params (si : sigInput) :
    result error (Z * Z * string * string * string * string) :=
  match created si, expires si, nonce si, keyID si, alg si, tag si with
  | Some cr, Some ex, Some no, Some ki, Some al, Some ta => Ok (cr, ex, no, ki, al, ta)
  | _, _, _, _, _, _ => Err (newError CodeParamsIncomplete "required sig-param absent")
  end.

(** Step 5: the validity window, in [int64] arithmetic. *)
Definition check_window (created expires nowT : Z) : result error unit :=
  _ ← check (negb (expires <=? created)%Z) CodeWindowInvalid "expires <= created";
  _ ← check (negb (wrap64 (nowT + skewSeconds) <? created)%Z)
        CodeWindowInvalid "created too far in future";
  _ ← check (negb (expires <? wrap64 (nowT - skewSeconds))%Z) CodeWindowInvalid "signature expired";
  check (negb (maxWindowSeconds <? wrap64 (expires - created))%Z)
    CodeWindowInvalid "validity window exceeds 300s".

(** The decoded nonce, at least 128 bits. *)
Definition check_nonce (nonce : string) : result error string :=
  _ ← check (negb (contains_byte nonce "=")) CodeParamsIncomplete "nonce contains padding";
  let short := newError CodeParamsIncomplete "nonce too short or invalid base64url" in
  n ← opt_err short (b64UrlDecode nonce);
  _ ← guard_err (minNonceBytes <=? len n)%nat short;
  Ok n.

Definition covers (cs : list string) (c : string) : bool := bool_decide (c ∈ cs).

Definition hasBody (r : Request) : bool :=
  (0 <? ContentLength r)%Z || match Body r with BodyData _ _ => true | _ => false end.

(** Step 6: the covered components, and the values of the additional ones. *)
Definition check_components (opts : VerifyOptions) (p : Profile) (r : Request) (cs : list string) :
    result error (gmap string string) :=
  _ ← rejectDuplicateComponents cs p;
  _ ← check (covers cs componentMethod && covers cs componentTargetURI && covers cs componentAuthority)
        CodeComponentsIncomplete "missing required covered component";
  _ ← check (negb ((hasBody r || negb (bool_decide (HeaderGet (ReqHeader r) contentTypeHeader = "")))
                   && negb (covers cs componentContentType)))
        CodeComponentsIncomplete "content-type not covered";
  _ ← match ContentDigestPolicy opts with
      | DigestRequired => check (covers cs componentContentDigst)
          CodeComponentsIncomplete "policy requires content-digest coverage"
      | DigestForbidden => check (negb (covers cs componentContentDigst))
          CodeComponentsUnexpected "policy forbids content-digest coverage"
      | _ => Ok ()
      end;
  additionalComponentValues (ReqHeader r) cs.

(** Step 7: key resolution. *)
Definition resolve_key (resolve : string → result error (JWK * string)) (keyid : string) :
    result error (JWK * string) :=
  match resolve keyid with
  | Ok k => Ok k
  | Err e => Err (default (wrapError CodeKeyUnknown "resolver error" e) (AsError e))
  end.

(** Step 8: key purpose and algorithm. *)
Definition check_key (p : Profile) (k : JWK) (alg : string) : result error unit :=
  _ ← check (bool_decide (Use k = "sig") && bool_decide ("verify" ∈ default [] (KeyOps k)) &&
             profileAllowsKeyUse p (JwkAdcpUse k))
        CodeKeyPurposeInvalid ("key not scoped for " +:+ AdcpUse p);
  _ ← check (bool_decide (SigParamAlg k = Some alg))
        CodeKeyPurposeInvalid "JWK curve does not match sig-param alg";
  let want := if bool_decide (alg = AlgEd25519) then jwkAlgEdDSA
              else if bool_decide (alg = AlgES256) then jwkAlgES256 else "" in
  check (bool_decide (Alg k = "") || bool_decide (Alg k = want))
    CodeKeyPurposeInvalid "JWK alg member does not match sig-param alg".

(** Step 9: revocation. *)
Definition check_revocation (rv : option (string → bool) * bool) (keyid : string) : result error unit :=
  match rv with
  | (None, _) => Ok ()
  | (Some revoked, stale) =>
      _ ← check (negb stale) CodeRevocationStale "revocation list stale";
      check (negb (revoked keyid)) CodeKeyRevoked "keyid revoked"
  end.

(** The values the profile's own components are signed with. *)
Definition profile_values (r : Request) (scheme uri : string) (digest : bool) : gmap string string :=
  let m : gmap string string :=
    <[componentMethod := ToUpper (Method r)]> (<[componentTargetURI := uri]>
    (<[componentAuthority := canonicalAuthority (authorityOf r) scheme]>
    (<[componentContentType := HeaderGet (ReqHeader r) contentTypeHeader]> ∅))) in
  if digest then <[componentContentDigst := HeaderGet (ReqHeader r) contentDigestHeader]> m else m.

(** The signature base of the request under the parsed parameters. *)
Definition request_base (p : Profile) (r : Request) (scheme : string) (cs : list string)
    (paramsText : string) (additional : gmap string string) : result error string :=
  uri ← match canonicalTargetURI (reconstructRequestURL r scheme) with
        | Ok u => Ok u
        | Err e => Err (wrapError (if bool_decide (SigEncoding p = BinaryEncodingRFC8941)
                                   then CodeTargetURIMalformed else CodeHeaderMalformed)
                          "canonicalize url" e)
        end;
  match buildSignatureBase cs
          (additional ∪ profile_values r scheme uri (covers cs componentContentDigst)) paramsText with
  | Ok b => Ok b
  | Err e => Err (wrapError CodeHeaderMalformed "build signature base" e)
  end.

(** Step 10: the cryptographic check. *)
Definition check_signature (p : Profile) (k : JWK) (alg base sigHeader label : string) :
    result error unit :=
  pub ← opt_err (wrapError CodeKeyPurposeInvalid "jwk public key invalid" (OtherError "jwk"))
          (PublicKey k);
  sigValue ← parseSignature sigHeader label;
  sigBytes ← opt_err (newError CodeHeaderMalformed "Signature value has invalid binary encoding")
               (decodeBinary sigValue (SigEncoding p));
  check (verifySignature alg pub base sigBytes) CodeInvalid "cryptographic verification failed".

(** Step 11: the content digest; the body the request is left with. *)
Definition check_digest (opts : VerifyOptions) (p : Profile) (r : Request) (cs : list string) :
    result error body :=
  if covers cs componentContentDigst then
    '(b, kept) ← match readAndReplaceBody (Body r) (body_limit opts) with
        | Ok b => Ok b
        | Err e => Err (wrapError CodeDigestMismatch "read body for digest" e)
        end;
    raw ← extractSHA256FromDigestHeaderForEncoding (HeaderGet (ReqHeader r) contentDigestHeader)
            (contentDigestEncoding p);
    d ← opt_err (newError CodeDigestMismatch "sha-256 not in Content-Digest header") raw;
    _ ← check (bool_decide (d = Sha256 b)) CodeDigestMismatch "content-digest != recomputed body hash";
    Ok kept
  else Ok (Body r).

(** The lifetime of the nonce's replay entry. *)
Definition replay_ttl (expires nowT : Z) : Duration :=
  let ttl := wrap64 (wrap64 (wrap64 (expires - nowT) + skewSeconds) * Second) in
  if (ttl <=? 0)%Z then wrap64 (skewSeconds * Second) else ttl.

(** What steps 1 to 11 establish. *)
Record Checked := MkChecked {
  c_input : sigInput; c_keyid : string; c_nonce : string; c_expires : Z; c_alg : string;
  c_agent : string; c_body : body;
}.

Section Store.
Context {St : Type} `{ReplayStore St}.

(** Steps 1 to 11 of a request with both headers; [st] is only read (9a). *)
Definition check_signed (opts : VerifyOptions) (resolve : string → result error (JWK * string))
    (st : St) (nowT : Z) (r : Request) (inputHeader sigHeader : string) : result error Checked :=
  let p := effective_profile opts in
  si ← parseSignatureInput inputHeader;
  '(cr, ex, no, ki, al, ta) ← required_params si;
  _ ← check (bool_decide (ta = Tag p)) CodeTagInvalid ("tag not " +:+ Tag p);
  _ ← check (Allowed al) CodeAlgNotAllowed "alg not in AdCP allowlist";
  _ ← check_window cr ex nowT;
  n ← check_nonce no;
  additional ← check_components opts p r (components si);
  '(jwk, agentURL) ← resolve_key resolve ki;
  _ ← check_key p jwk al;
  _ ← check_revocation (Revocation opts) ki;
  _ ← check (negb (HitCap st ki)) CodeRateAbuse "per-keyid replay cache cap exceeded";
  _ ← opt_err (wrapError CodeKeyPurposeInvalid "jwk public key invalid" (OtherError "jwk"))
        (PublicKey jwk);
  base ← request_base p r (effective_scheme opts) (components si) (paramsText si) additional;
  _ ← check_signature p jwk al base sigHeader (label si);
  kept ← check_digest opts p r (components si);
  Ok (MkChecked si ki n ex al agentURL kept).

(** Steps 12 and 13: replay, at the store's clock reading [snow]. *)
Definition record_nonce (st : St) (snow nowT : Z) (p : Profile) (c : Checked) :
    result error (option VerifiedSigner * body) * St :=
  let '(seen, st) := Seen st snow (c_keyid c) (c_nonce c) in
  if seen then (Err (newError CodeReplayed "nonce already seen within window"), st) else
  let '(ok, st) := Insert st snow (c_keyid c) (c_nonce c) (replay_ttl (c_expires c) nowT) in
  if negb ok then (Err (newError CodeRateAbuse "replay cache insert rejected (cap hit)"), st) else
  (Ok (Some (MkSigner (c_keyid c) (c_agent c) nowT (c_alg c) (label (c_input c))
               (components (c_input c)) (Tag p)), c_body c), st).

(** A signer, or none when the request is unsigned and need not be signed, with
    the body the request is left with for the handler. *)
Definition VerifyRequestSignature (opts : VerifyOptions) (replay : option St) (now snow : Time)
    (r : Request) : result error (option VerifiedSigner * body) * option St :=
  match Resolver opts with
  | None => (Err (newError CodeJWKSUnavailable "resolver not configured"), replay)
  | Some resolve =>
      match replay with
      | None => (Err (newError CodeReplayed "replay store not configured"), None)
      | Some st =>
          let inputHeader := HeaderGet (ReqHeader r) signatureInputHeader in
          let sigHeader := HeaderGet (ReqHeader r) signatureHeader in
          match check_single_valued r with
          | Err e => (Err e, replay)
          | Ok _ =>
              if bool_decide (inputHeader = "") && bool_decide (sigHeader = "") then
                match check_unsigned opts r with
                | Err e => (Err e, replay)
                | Ok kept => (Ok (None, kept), replay)
                end
              else if bool_decide (inputHeader = "") || bool_decide (sigHeader = "") then
                (Err (malformed "Signature and Signature-Input are a bound pair"), replay)
              else
                match check_signed opts resolve st (Unix now) r inputHeader sigHeader with
                | Err e => (Err e, replay)
                | Ok c =>
                    let '(res, st') := record_nonce st snow (Unix now) (effective_profile opts) c in
                    (res, Some st')
                end
          end
      end
  end.

(** [VerifyRequest]; [None] is its panic. *)
Definition VerifyRequest (opts : VerifyOptions) (replay : option St) (now snow : Time) (r : Request) :
    option VerifyResult :=
  match (VerifyRequestSignature opts replay now snow r).1 with
  | Err err =>
      match AsError err with
      | None => None
      | Some e => Some (MkVerifyResult StatusRejected None (Some e))
      end
  | Ok (Some signer, _) => Some (MkVerifyResult StatusVerified (Some signer) None)
  | Ok (None, _) => Some (MkVerifyResult StatusUnsigned None None)
  end.

End Store.
End Verify.
