(* ===== verification/VerifyThm.v ===== *)
(** * VerifyThm: lemmas about the signature verifier

    What each successful check of [Verify] establishes, the validity window with
    its [int64] arithmetic, and the inversion of an accepted request.  The
    properties are stated in [SigProps]. *)
From stdpp Require Import gmap stringmap.
From S2P Require Import Prelude GoStrings Unicode NetUrl UrlCanon Json Base64 SigTypes SigInput.
From S2P Require Import SigBase Replay StrictJson Verify.
From stdpp Require Import options.

(** ** Lemmas on the checks *)

Lemma check_Ok b c d u : check b c d = Ok u ↔ b = true.
Proof. apply guard_err_Ok. Qed.

Lemma required_params_Ok si cr ex no ki al ta :
  required_params si = Ok (cr, ex, no, ki, al, ta) ↔
  created si = Some cr ∧ expires si = Some ex ∧ nonce si = Some no ∧ keyID si = Some ki ∧
  alg si = Some al ∧ tag si = Some ta.
Proof. unfold required_params. repeat case_match; naive_solver. Qed.

Lemma check_window_spec cr ex nowT :
  in_int64 cr → in_int64 ex → in_int64 (nowT - skewSeconds) → in_int64 (nowT + skewSeconds) →
  check_window cr ex nowT = Ok () ↔
  (cr < ex ∧ cr ≤ nowT + skewSeconds ∧ nowT - skewSeconds ≤ ex ∧
   (ex - cr ≤ maxWindowSeconds ∨ int64_max < ex - cr))%Z.
Proof.
  intros Hcr Hex Hn1 Hn2. unfold check_window.
  rewrite (wrap64_id (nowT + skewSeconds)), (wrap64_id (nowT - skewSeconds)) by done.
  assert (∀ b c d (k : result error unit), (_ ← check b c d; k) = Ok () ↔ b = true ∧ k = Ok ()) as Hb.
  { intros b c d k. unfold check, guard_err. destruct b; cbn; naive_solver. }
  rewrite !Hb, check_Ok, !negb_true_iff, Z.leb_gt, !Z.ltb_ge.
  unfold in_int64, int64_min, int64_max in *. unfold maxWindowSeconds.
  destruct (Z_le_gt_dec (ex - cr) (2 ^ 63 - 1)) as [Hle|Hgt].
  - destruct (Z_lt_le_dec cr ex).
    + rewrite wrap64_id by (unfold in_int64, int64_min, int64_max; lia). lia.
    + lia.
  - assert (wrap64 (ex - cr) = ex - cr - 2 ^ 64)%Z as ->; [|lia].
    unfold wrap64. assert (2 ^ 64 = 2 * 2 ^ 63)%Z as E by reflexivity. rewrite E in *.
    assert (ex - cr + 2 ^ 63 = (ex - cr - 2 ^ 63) + 1 * (2 * 2 ^ 63))%Z as -> by lia.
    rewrite Z.mod_add by lia. rewrite Z.mod_small; lia.
Qed.

Lemma check_nonce_Ok no n :
  check_nonce no = Ok n → b64UrlDecode no = Some n ∧ minNonceBytes ≤ len n ∧
  contains_byte no "=" = false.
Proof.
  unfold check_nonce. intros H. apply bind_Ok in H as (u & Hp%check_Ok & H).
  apply negb_true_iff in Hp. apply bind_Ok in H as (n' & Hn%opt_err_Ok & H).
  apply bind_Ok in H as (u' & Hl%guard_err_Ok & H). injection H as ->.
  by apply Nat.leb_le in Hl.
Qed.

Section Sound.
Context `{RT : Runtime, CR : Crypto}.
Context {St : Type} `{ReplayStore St}.

(** The signature of [r] holds under key [k]: the base is that of the request
    itself, and a digest that is covered is the digest of the body. *)
Record authentic (opts : VerifyOptions) (p : Profile) (r : Request) (si : sigInput) (k : JWK)
    (alg : string) (kept : body) : Prop := {
  au_fields : ∃ additional base pub sigValue sig,
    additionalComponentValues (ReqHeader r) (components si) = Ok additional ∧
    request_base p r (effective_scheme opts) (components si) (paramsText si) additional = Ok base ∧
    PublicKey k = Some pub ∧
    parseSignature (HeaderGet (ReqHeader r) signatureHeader) (label si) = Ok sigValue ∧
    decodeBinary sigValue (SigEncoding p) = Some sig ∧
    verifySignature alg pub base sig = true;
  au_digest : componentContentDigst ∈ components si → ∃ b,
    readAndReplaceBody (Body r) (body_limit opts) = Ok (b, kept) ∧
    extractSHA256FromDigestHeaderForEncoding (HeaderGet (ReqHeader r) contentDigestHeader)
      (contentDigestEncoding p) = Ok (Some (Sha256 b));
}.

(** What steps 1 to 11 establish of the request. *)
Record established (opts : VerifyOptions) (resolve : string → result error (JWK * string)) (st : St)
    (nowT : Z) (r : Request) (c : Checked) : Prop := {
  es_input : parseSignatureInput (HeaderGet (ReqHeader r) signatureInputHeader) = Ok (c_input c);
  es_tag : tag (c_input c) = Some (Tag (effective_profile opts));
  es_alg : alg (c_input c) = Some (c_alg c) ∧ Allowed (c_alg c) = true;
  es_window : ∃ cr, created (c_input c) = Some cr ∧ expires (c_input c) = Some (c_expires c) ∧
    check_window cr (c_expires c) nowT = Ok ();
  es_nonce : ∃ no, nonce (c_input c) = Some no ∧ b64UrlDecode no = Some (c_nonce c) ∧
    minNonceBytes ≤ len (c_nonce c);
  es_components : NoDup (components (c_input c)) ∧
    componentMethod ∈ components (c_input c) ∧ componentTargetURI ∈ components (c_input c) ∧
    componentAuthority ∈ components (c_input c) ∧
    (hasBody r = true → componentContentType ∈ components (c_input c)) ∧
    (ContentDigestPolicy opts = DigestRequired → componentContentDigst ∈ components (c_input c));
  es_key : ∃ k, resolve (c_keyid c) = Ok (k, c_agent c) ∧ keyID (c_input c) = Some (c_keyid c) ∧
    Use k = "sig" ∧ "verify" ∈ default [] (KeyOps k) ∧
    profileAllowsKeyUse (effective_profile opts) (JwkAdcpUse k) = true ∧
    SigParamAlg k = Some (c_alg c) ∧
    authentic opts (effective_profile opts) r (c_input c) k (c_alg c) (c_body c);
  es_revocation : ∀ revoked, (Revocation opts).1 = Some revoked →
    (Revocation opts).2 = false ∧ revoked (c_keyid c) = false;
  es_cap : HitCap st (c_keyid c) = false;
  es_body : componentContentDigst ∉ components (c_input c) → c_body c = Body r;
}.

Lemma check_components_Ok opts p r cs additional :
  check_components opts p r cs = Ok additional →
  NoDup cs ∧ componentMethod ∈ cs ∧ componentTargetURI ∈ cs ∧ componentAuthority ∈ cs ∧
  (hasBody r = true → componentContentType ∈ cs) ∧
  (ContentDigestPolicy opts = DigestRequired → componentContentDigst ∈ cs) ∧
  (ContentDigestPolicy opts = DigestForbidden → componentContentDigst ∉ cs) ∧
  additionalComponentValues (ReqHeader r) cs = Ok additional.
Proof.
  unfold check_components, rejectDuplicateComponents, covers. intros Hc.
  apply bind_Ok in Hc as (u1 & Hnd & Hc).
  destruct (bool_decide (NoDup cs)) eqn:Hd; [|done]. apply bool_decide_eq_true in Hd.
  apply bind_Ok in Hc as (u2 & Hreq%check_Ok & Hc).
  apply andb_true_iff in Hreq as [[H1 H2]%andb_true_iff H3].
  apply bool_decide_eq_true in H1, H2, H3.
  apply bind_Ok in Hc as (u3 & Hct%check_Ok & Hc). apply negb_true_iff in Hct.
  apply bind_Ok in Hc as (u4 & Hpol & Hc). split_and!; try done.
  - intros Hb. rewrite Hb in Hct. cbn in Hct. apply negb_false_iff in Hct.
    by apply bool_decide_eq_true in Hct.
  - intros Hp. rewrite Hp in Hpol. apply check_Ok in Hpol. by apply bool_decide_eq_true in Hpol.
  - intros Hp. rewrite Hp in Hpol. apply check_Ok, negb_true_iff in Hpol.
    by apply bool_decide_eq_false in Hpol.
Qed.

Lemma check_signed_Ok opts resolve st nowT r c :
  check_signed opts resolve st nowT r (HeaderGet (ReqHeader r) signatureInputHeader)
    (HeaderGet (ReqHeader r) signatureHeader) = Ok c →
  established opts resolve st nowT r c.
Proof.
  unfold check_signed. intros Hc.
  apply bind_Ok in Hc as (si & Hsi & Hc).
  apply bind_Ok in Hc as ([[[[[cr ex] no] ki] al] ta] & Hrp & Hc).
  apply required_params_Ok in Hrp as (H1 & H2 & H3 & H4 & H5 & H6).
  apply bind_Ok in Hc as (u1 & Htag%check_Ok & Hc). apply bool_decide_eq_true in Htag as ->.
  apply bind_Ok in Hc as (u2 & Halg%check_Ok & Hc).
  apply bind_Ok in Hc as ([] & Hw & Hc).
  apply bind_Ok in Hc as (n & Hn & Hc). apply check_nonce_Ok in Hn as (Hn1 & Hn2 & _).
  apply bind_Ok in Hc as (additional & Hadd & Hc).
  apply check_components_Ok in Hadd as (Hnd & Hm & Ht & Ha & Hct & Hdr & _ & Hadd).
  apply bind_Ok in Hc as ([jwk agent] & Hres & Hc).
  apply bind_Ok in Hc as (u3 & Hkey & Hc).
  apply bind_Ok in Hc as (u4 & Hrev & Hc).
  apply bind_Ok in Hc as (u5 & Hcap%check_Ok & Hc).
  apply bind_Ok in Hc as (pub & Hpub%opt_err_Ok & Hc).
  apply bind_Ok in Hc as (base & Hbase & Hc).
  apply bind_Ok in Hc as (u6 & Hsig & Hc).
  apply bind_Ok in Hc as (kept & Hdig & Hc). injection Hc as <-.
  unfold check_key in Hkey. apply bind_Ok in Hkey as (u8 & Hk1%check_Ok & Hkey).
  apply bind_Ok in Hkey as (u9 & Hk2%check_Ok & _). apply bool_decide_eq_true in Hk2.
  apply andb_true_iff in Hk1 as [[Hu1 Hu2]%andb_true_iff Hu3]. apply bool_decide_eq_true in Hu1, Hu2.
  unfold check_signature in Hsig. apply bind_Ok in Hsig as (pub' & Hpub'%opt_err_Ok & Hsig).
  apply bind_Ok in Hsig as (sv & Hsv & Hsig).
  apply bind_Ok in Hsig as (sb & Hsb%opt_err_Ok & Hsig%check_Ok).
  constructor; cbn; try done.
  - by exists cr.
  - by exists no.
  - exists jwk. split_and!; try done.
    + unfold resolve_key in Hres. destruct (resolve ki); congruence.
    + constructor; [by exists additional, base, pub', sv, sb|].
      intros Hcd. unfold check_digest, covers in Hdig. rewrite bool_decide_true in Hdig by done.
      apply bind_Ok in Hdig as ([b kept'] & Hb & Hdig). exists b.
      destruct (readAndReplaceBody _ _) as [[b' l']|]; [|done]. injection Hb as -> ->.
      apply bind_Ok in Hdig as (raw & Hraw & Hdig).
      apply bind_Ok in Hdig as (d & ->%opt_err_Ok & Hdig).
      apply bind_Ok in Hdig as (u & Hd%check_Ok & Hdig). injection Hdig as ->.
      apply bool_decide_eq_true in Hd as ->. done.
  - intros revoked Hrv. unfold check_revocation in Hrev. destruct (Revocation opts) as [[rv|] stl]; [|done].
    cbn in Hrv. injection Hrv as ->. apply bind_Ok in Hrev as (u & Hst%check_Ok & Hrv%check_Ok).
    by apply negb_true_iff in Hst, Hrv.
  - by apply negb_true_iff in Hcap.
  - intros Hcd. unfold check_digest, covers in Hdig. rewrite bool_decide_false in Hdig by done.
    by injection Hdig as <-.
Qed.

(** An accepted request, step by step. *)
Lemma accepted_inv opts replay now snow r signer kept replay' :
  VerifyRequestSignature opts replay now snow r = (Ok (Some signer, kept), replay') →
  ∃ resolve st c, Resolver opts = Some resolve ∧ replay = Some st ∧
    established opts resolve st (Unix now) r c ∧
    (Seen st snow (c_keyid c) (c_nonce c)).1 = false ∧
    (Insert (Seen st snow (c_keyid c) (c_nonce c)).2 snow (c_keyid c) (c_nonce c)
       (replay_ttl (c_expires c) (Unix now))).1 = true ∧
    replay' = Some (Insert (Seen st snow (c_keyid c) (c_nonce c)).2 snow (c_keyid c) (c_nonce c)
       (replay_ttl (c_expires c) (Unix now))).2 ∧
    kept = c_body c ∧
    signer = MkSigner (c_keyid c) (c_agent c) (Unix now) (c_alg c) (label (c_input c))
               (components (c_input c)) (Tag (effective_profile opts)).
Proof.
  unfold VerifyRequestSignature. destruct (Resolver opts) as [resolve|]; [|done].
  destruct replay as [st|]; [|done]. cbv zeta.
  destruct (check_single_valued r); [|done].
  destruct (_ && _); [by destruct (check_unsigned opts r)|].
  destruct (_ || _); [done|].
  destruct (check_signed _ _ _ _ _ _ _) as [c|] eqn:Hc; [|done].
  apply check_signed_Ok in Hc. intros Hr. exists resolve, st, c.
  unfold record_nonce in Hr. destruct (Seen st snow (c_keyid c) (c_nonce c)) as [[] st1] eqn:Es; [done|].
  destruct (Insert st1 snow _ _ _) as [[] st2] eqn:Ei; [|done]. cbn in Hr |- *. rewrite Ei.
  injection Hr as <- <- <-. done.
Qed.

End Sound.
