(* ===== verification/VerifyErr.v ===== *)
(** * VerifyErr: the error paths of the signature verifier

    Every error of the checks is a typed [*Error], with enough fuel for the loops
    over Content-Digest; the one exception is the body of an unsigned request
    that cannot be read.  What a rejected request leaves in the replay store. *)
From stdpp Require Import gmap stringmap.
From S2P Require Import Prelude GoStrings Unicode NetUrl UrlCanon Json Base64 SigTypes SigInput.
From S2P Require Import SigBase Replay StrictJson Verify VerifyThm.
From stdpp Require Import options.

(** ** Typed errors *)

(** An error of [r] is an [*Error]. *)
Definition typed {A} (r : result error A) : Prop :=
  match r with Ok _ => True | Err e => AsError e = Some e end.

Lemma typed_bind {A B} (m : result error A) (f : A → result error B) :
  typed m → (∀ a, m = Ok a → typed (f a)) → typed (m ≫= f).
Proof. destruct m as [a|e]; cbn; intros H1 H2; [by apply H2|done]. Qed.

Lemma typed_check b c d : typed (check b c d).
Proof. by destruct b. Qed.

Lemma typed_guard b c d : typed (guard_err b (newError c d)).
Proof. by destruct b. Qed.

Lemma typed_opt_err {A} e (o : option A) : AsError e = Some e → typed (opt_err e o).
Proof. by destruct o. Qed.

Lemma typed_malformed {A} (r : result error A) : only_malformed r → typed r.
Proof. destruct r as [|[]]; done. Qed.

Create HintDb typed.
#[export] Hint Resolve typed_check typed_guard typed_malformed : typed.
#[export] Hint Resolve parseSignatureInput_total parseSignature_total : typed.
#[export] Hint Extern 1 (typed (opt_err _ _)) => by apply typed_opt_err : typed.
#[export] Hint Extern 1 (typed (Ok _)) => exact I : typed.
#[export] Hint Extern 1 (typed (Err (newError _ _))) => reflexivity : typed.
#[export] Hint Extern 1 (typed (Err (wrapError _ _ _))) => reflexivity : typed.
#[export] Hint Extern 1 (typed (Err (malformed _))) => reflexivity : typed.

Ltac typed_step :=
  match goal with
  | |- typed (_ ≫= _) => apply typed_bind; [|intros ? ?]
  | |- typed (if ?b then _ else _) => destruct b
  | |- typed (match ?x with _ => _ end) => destruct x
  | |- typed _ => solve [eauto with typed]
  end.
Ltac typed_tac := cbv zeta; repeat typed_step; eauto with typed.

Section Typed.
Context `{RT : Runtime, CR : Crypto}.

Lemma digest_entry_typed s : typed (digest_entry s).
Proof. unfold digest_entry. typed_tac. Qed.

(** An entry consumes input. *)
Lemma digest_entry_len s alg val rest : digest_entry s = Ok (alg, val, rest) → len rest < len s.
Proof.
  unfold digest_entry. destruct (IndexByte s "=") as [[|eq]|] eqn:E; [done| |done].
  apply IndexByte_Some in E as (t & Heq & _ & _ & ->).
  apply (f_equal len) in Heq. rewrite len_app, len_cons in Heq.
  pose proof (skip_ows_len (sdrop (S (S eq)) s)) as Ho.
  destruct (skip_ows _) as [|c rest']; [done|]. rewrite len_cons in Ho.
  destruct (beq c ":"); [|done]. cbn [negb].
  destruct (IndexByte rest' ":") as [e|] eqn:Ee; [|done].
  apply IndexByte_Some in Ee as (u & Hu & _ & _ & ->).
  apply (f_equal len) in Hu. rewrite len_app, len_cons in Hu. intros [= _ _ <-]. change (len (sdrop (S e) rest') < len s). lia.
Qed.

Lemma skipDigestParams_len s : len (skipDigestParams s) ≤ len s.
Proof.
  unfold skipDigestParams. destruct (scan_top _ _ _); [rewrite len_sdrop; lia|].
  change (len "") with 0. lia.
Qed.

Lemma extract_sha256_typed fuel e s : len s < fuel → typed (extract_sha256 fuel e s).
Proof.
  revert s. induction fuel as [|fuel IH]; intros s Hf; [lia|]. cbn [extract_sha256]. cbv zeta.
  pose proof (skip_sep_len s) as Hs. destruct (bool_decide _); [done|].
  apply typed_bind; [apply digest_entry_typed|]. intros [[alg val] rest] He%digest_entry_len.
  destruct (bool_decide _); [typed_tac|]. apply IH. pose proof (skipDigestParams_len rest). lia.
Qed.

Lemma reject_duplicates_typed fuel seen s : len s < fuel → typed (reject_duplicates fuel seen s).
Proof.
  revert seen s. induction fuel as [|fuel IH]; intros seen s Hf; [lia|].
  cbn [reject_duplicates]. cbv zeta.
  pose proof (skip_sep_len s) as Hs. destruct (bool_decide _); [done|].
  destruct (IndexByte _ _) as [[|eq]|]; try done. destruct (bool_decide _); [done|].
  apply typed_bind; [apply digest_entry_typed|]. intros [[alg val] rest] He%digest_entry_len.
  apply IH. pose proof (skipDigestParams_len rest). lia.
Qed.

Lemma extractSHA256_typed h e : typed (extractSHA256FromDigestHeaderForEncoding h e).
Proof. apply extract_sha256_typed. lia. Qed.

Lemma rejectDigestDuplicates_typed h : typed (rejectDigestDuplicates h).
Proof. apply reject_duplicates_typed. lia. Qed.

#[local] Hint Resolve extractSHA256_typed rejectDigestDuplicates_typed : typed.

Lemma check_single_valued_typed r : typed (check_single_valued r).
Proof. unfold check_single_valued. typed_tac. Qed.

Lemma required_params_typed si : typed (required_params si).
Proof. unfold required_params. typed_tac. Qed.

Lemma check_window_typed cr ex t : typed (check_window cr ex t).
Proof. unfold check_window. typed_tac. Qed.

Lemma check_nonce_typed no : typed (check_nonce no).
Proof. unfold check_nonce. typed_tac. Qed.

Lemma coveredFieldValue_typed h n : typed (coveredFieldValue h n).
Proof. unfold coveredFieldValue. typed_tac. Qed.

Lemma additional_typed h cs : typed (additionalComponentValues h cs).
Proof.
  induction cs as [|c cs IH]; cbn [additionalComponentValues]; [done|].
  pose proof (coveredFieldValue_typed h c). typed_tac.
Qed.

Lemma check_components_typed opts p r cs : typed (check_components opts p r cs).
Proof.
  pose proof (additional_typed (ReqHeader r) cs).
  unfold check_components, rejectDuplicateComponents. typed_tac.
Qed.

Lemma resolve_key_typed res ki : typed (resolve_key res ki).
Proof. unfold resolve_key. destruct (res ki) as [|[]]; done. Qed.

Lemma check_key_typed p k a : typed (check_key p k a).
Proof. unfold check_key. typed_tac. Qed.

Lemma check_revocation_typed rv k : typed (check_revocation rv k).
Proof. unfold check_revocation. typed_tac. Qed.

Lemma request_base_typed p r sch cs pt ad : typed (request_base p r sch cs pt ad).
Proof. unfold request_base. typed_tac. Qed.

Lemma check_signature_typed p k a b sh l : typed (check_signature p k a b sh l).
Proof. unfold check_signature. typed_tac. Qed.

Lemma check_digest_typed opts p r cs : typed (check_digest opts p r cs).
Proof. unfold check_digest. typed_tac. Qed.

#[local] Hint Resolve required_params_typed check_window_typed check_nonce_typed
  check_components_typed resolve_key_typed check_key_typed check_revocation_typed request_base_typed
  check_signature_typed check_digest_typed : typed.

Context {St : Type} `{ReplayStore St}.

Lemma check_signed_typed opts resolve st t r ih sh :
  typed (check_signed (St := St) opts resolve st t r ih sh).
Proof. unfold check_signed. typed_tac. Qed.

(** The body read stops on a failure of the reader. *)
Definition body_fails (b : body) (limit : Z) : Prop :=
  ∃ data f, b = BodyData data (Some f) ∧ (0 < wrap64 (limit + 1))%Z ∧
    (zlen data < wrap64 (limit + 1))%Z.

Lemma readAndReplaceBody_typed b limit :
  (body_fails b limit ∧ ∃ f, readAndReplaceBody b limit = Err (OtherError f)) ∨
  (¬ body_fails b limit ∧ typed (readAndReplaceBody b limit)).
Proof.
  unfold readAndReplaceBody. destruct b as [| |data failure].
  - right. split; [|done]. by intros (? & ? & ? & _).
  - right. split; [|done]. by intros (? & ? & ? & _).
  - destruct (Z.leb_spec (wrap64 (limit + 1)) 0);
      [|destruct (Z.ltb_spec (zlen data) (wrap64 (limit + 1)))].
    + right. split; [|by destruct (limit <? zlen "")%Z]. intros (? & ? & [= -> ->] & ? & ?). lia.
    + destruct failure as [f|].
      * left. split; [|by exists f]. by exists data, f.
      * right. split; [|by destruct (limit <? zlen data)%Z]. by intros (? & ? & ? & _).
    + right. split; [|by destruct (limit <? zlen _)%Z]. intros (? & ? & [= -> ->] & ? & ?). lia.
Qed.

Lemma check_unsigned_typed opts r :
  (OperationName opts ∉ RequiredFor opts ∧ body_fails (Body r) (body_limit opts) ∧
   ∃ f, check_unsigned opts r = Err (OtherError f)) ∨
  (¬ (OperationName opts ∉ RequiredFor opts ∧ body_fails (Body r) (body_limit opts)) ∧
   typed (check_unsigned opts r)).
Proof.
  unfold check_unsigned. case_bool_decide as Hop; cbn [check guard_err negb mbind result_bind].
  { right. split; [|done]. by intros [? _]. }
  destruct (readAndReplaceBody_typed (Body r) (body_limit opts)) as [[Hf [f ->]]|[Hf Ht]].
  - left. eauto.
  - right. split; [by intros [_ ?]|]. apply typed_bind; [done|]. intros [b kept] _. typed_tac.
Qed.

(** The errors of the whole verifier. *)
Lemma verifier_typed opts replay now snow r :
  let e := (VerifyRequestSignature (St := St) opts replay now snow r).1 in
  let unsigned_failure := Resolver opts ≠ None ∧ replay ≠ None ∧ check_single_valued r = Ok () ∧
    HeaderGet (ReqHeader r) signatureInputHeader = "" ∧ HeaderGet (ReqHeader r) signatureHeader = "" ∧
    OperationName opts ∉ RequiredFor opts ∧ body_fails (Body r) (body_limit opts) in
  (unsigned_failure ∧ ∃ f, e = Err (OtherError f)) ∨ (¬ unsigned_failure ∧ typed e).
Proof.
  cbv zeta. unfold VerifyRequestSignature.
  destruct (Resolver opts) as [resolve|]; [|right; split; [|done]; naive_solver].
  destruct replay as [st|]; [|right; split; [|done]; naive_solver]. cbv zeta.
  pose proof (check_single_valued_typed r) as Hsv.
  destruct (check_single_valued r) as [[]|e]; [|right; split; [naive_solver|done]].
  destruct (bool_decide (HeaderGet _ signatureInputHeader = "")) eqn:E1,
    (bool_decide (HeaderGet _ signatureHeader = "")) eqn:E2; cbn [andb orb]; bool_prop;
    [|right; split; [naive_solver|done]..|].
  - destruct (check_unsigned_typed opts r) as [(Hop & Hf & f & ->)|[Hn Ht]].
    + left. split; [done|]. by exists f.
    + right. split; [tauto|]. destruct (check_unsigned opts r); done.
  - right. split; [naive_solver|].
    pose proof (check_signed_typed opts resolve st (Unix now) r
      (HeaderGet (ReqHeader r) signatureInputHeader) (HeaderGet (ReqHeader r) signatureHeader)) as Ht.
    destruct (check_signed _ _ _ _ _ _ _) as [c|]; [|done].
    unfold record_nonce. destruct (Seen _ _ _ _) as [[] ?]; [done|].
    by destruct (Insert _ _ _ _ _) as [[] ?].
Qed.

End Typed.

(** ** The store after a rejection *)

(** A refused insertion adds nothing. *)
Lemma memory_Insert_refused m now k n ttl kn x :
  (memory_Insert m now k n ttl).1 = false →
  entries (memory_Insert m now k n ttl).2 !! kn = Some x → entries m !! kn = Some x.
Proof.
  unfold memory_Insert. destruct (memory_HitCap _ k); [|done]. cbn. intros _.
  rewrite sweepLocked_lookup. destruct (entries m !! kn) as [y|]; [|done].
  by destruct (After now y).
Qed.

Lemma memory_Seen_subset m now k n kn x :
  entries (memory_Seen m now k n).2 !! kn = Some x → entries m !! kn = Some x.
Proof.
  cbn. rewrite sweepLocked_lookup. destruct (entries m !! kn) as [y|]; [|done].
  by destruct (After now y).
Qed.

Lemma rejected_store `{RT : Runtime, CR : Crypto} opts m now snow r e m' kn x :
  VerifyRequestSignature opts (Some m) now snow r = (Err e, Some m') →
  entries m' !! kn = Some x → entries m !! kn = Some x.
Proof.
  unfold VerifyRequestSignature. destruct (Resolver opts); [|naive_solver]. cbv zeta.
  destruct (check_single_valued r); [|naive_solver].
  destruct (_ && _); [destruct (check_unsigned opts r); naive_solver|].
  destruct (_ || _); [naive_solver|].
  destruct (check_signed _ _ _ _ _ _ _) as [c|]; [|naive_solver].
  unfold record_nonce. change (Seen m snow (c_keyid c) (c_nonce c))
    with (memory_Seen m snow (c_keyid c) (c_nonce c)).
  pose proof (memory_Seen_subset m snow (c_keyid c) (c_nonce c) kn x) as Hs.
  destruct (memory_Seen _ _ _ _) as [[] m1]; [naive_solver|]. cbn [snd] in Hs.
  set (t := replay_ttl _ _).
  change (Insert m1 snow (c_keyid c) (c_nonce c) t)
    with (memory_Insert m1 snow (c_keyid c) (c_nonce c) t).
  pose proof (memory_Insert_refused m1 snow (c_keyid c) (c_nonce c) t kn x) as Hi.
  destruct (memory_Insert m1 _ _ _ _) as [[] m2]; [done|]. cbn [fst snd] in Hi.
  intros [= <- <-] Hx. auto.
Qed.
