(* ===== verification/Sign.v ===== *)
(** * Sign: the request signer

    [src/adcp/v3/signing/sign.go] for the AdCP RFC 9421 profile (a signer
    without [AgentOrigin]): [NewSigner] and [SignRequest], and the theorem that
    the verifier accepts what it signs.  The private-key operations are
    parameters. *)
From stdpp Require Import gmap stringmap.
From S2P Require Import Bytes Prelude GoStrings Unicode NetUrl UrlCanon Json Base64 SigTypes SigInput.
From S2P Require Import SigBase Replay StrictJson Verify VerifyThm.
From stdpp Require Import options.

Inductive PrivKey := EdPriv (k : string) | EcPriv (curve k : string) | OtherPriv.

(** [ed25519.Sign] and [ecdsa.Sign] (which can fail). *)
Class SignCrypto := {
  Ed25519Sign : string → string → string;
  EcdsaSign : string → string → option (Z * Z);
}.

Record SignerOptions := MkSignerOptions {
  so_KeyID : string;
  so_PrivateKey : option PrivKey;
  so_Profile : Profile;
  so_ValidityWindow : Duration;
}.

Record Signer := MkSigner' { s_opts : SignerOptions; s_alg : string }.

Record SignOptions := MkSignOptions {
  CoverContentDigest : bool;
  CreatedOverride : Z;
  NonceOverride : string;
}.

Definition signing_error (text : string) : error := OtherError ("signing: " +:+ text).

Definition NewSigner (o : SignerOptions) : result error Signer :=
  if bool_decide (so_KeyID o = "") then Err (signing_error "KeyID is required") else
  match so_PrivateKey o with
  | None => Err (signing_error "PrivateKey is required")
  | Some key =>
      let window := if (so_ValidityWindow o =? 0)%Z then (300 * Second)%Z else so_ValidityWindow o in
      if (maxWindowSeconds * Second <? window)%Z
      then Err (signing_error "ValidityWindow exceeds profile max 300s") else
      let p := if bool_decide (Tag (so_Profile o) = "") then ProfileRequestSigning else so_Profile o in
      let o := MkSignerOptions (so_KeyID o) (so_PrivateKey o) p window in
      match key with
      | EdPriv _ => Ok (MkSigner' o AlgEd25519)
      | EcPriv curve _ =>
          if negb (bool_decide (curve = "P-256")) then Err (signing_error "unsupported ECDSA curve")
          else Ok (MkSigner' o AlgES256)
      | OtherPriv => Err (signing_error "unsupported private key type")
      end
  end.

Definition SigningProfile (s : Signer) : string := Tag (so_Profile (s_opts s)).

(** [encodeP1363] with 32-byte fields. *)
Definition encodeP1363 (r s : Z) : string := be_bytes 32 r +:+ be_bytes 32 s.

(** [generateNonce] from the 16 bytes the reader delivers. *)
Definition generateNonce (rand : string) : string := RawURLEncode rand.

Section Sign.
Context `{RT : Runtime, CR : Crypto, SC : SignCrypto}.

Definition sign (s : Signer) (base : string) : result error string :=
  match so_PrivateKey (s_opts s) with
  | Some (EdPriv k) => Ok (Ed25519Sign k base)
  | Some (EcPriv _ k) =>
      match EcdsaSign k (Sha256 base) with
      | Some (r, t) => Ok (encodeP1363 r t)
      | None => Err (signing_error "sign")
      end
  | _ => Err (OtherError "unsupported key type")
  end.

(** [io.ReadAll] of the body; [None] when it is nil. *)
Definition read_all (b : body) : result error (option string) :=
  match b with
  | BodyNil => Ok None
  | BodyNone => Ok (Some "")
  | BodyData d None => Ok (Some d)
  | BodyData _ (Some e) => Err (signing_error ("read body: " +:+ e))
  end.

Definition covered_components (r : Request) (content : string) (digest : bool) : list string :=
  [componentMethod; componentTargetURI; componentAuthority] ++
  (if negb (bool_decide (HeaderGet (ReqHeader r) contentTypeHeader = "")) || (0 <? len content)%nat
   then [componentContentType] else []) ++
  (if digest then [componentContentDigst] else []).

Definition with_header (r : Request) (name value : string) : Request :=
  MkRequest (Method r) (ReqURL r) (Host r) (HeaderSet (ReqHeader r) name value) (ContentLength r) (Body r).

(** The Signature-Input and Signature values of a prepared request with the body
    [content]; [now] is the clock reading and [rand] what the nonce reader
    delivers. *)
Definition sign_headers (s : Signer) (o : SignOptions) (now : Time) (rand : string) (r : Request)
    (content : string) : result error (string * string) :=
  let p := so_Profile (s_opts s) in
  let covered := covered_components r content (CoverContentDigest o) in
  if bool_decide (URLScheme (ReqURL r) = "")
  then Err (signing_error "request URL must be absolute") else
  uri ← canonicalTargetURI (URLString (ReqURL r));
  let values := profile_values r (URLScheme (ReqURL r)) uri (CoverContentDigest o) in
  let created := if negb (CreatedOverride o =? 0)%Z then CreatedOverride o else Unix now in
  let expires := wrap64 (created + Z.quot (so_ValidityWindow (s_opts s)) Second) in
  let nonce := if bool_decide (NonceOverride o = "") then generateNonce rand else NonceOverride o in
  let params := formatSigParams covered created expires nonce (so_KeyID (s_opts s)) (s_alg s) (Tag p) in
  base ← buildSignatureBase covered values params;
  sig ← sign s base;
  Ok ("sig1=" +:+ params, "sig1=:" +:+ encodeBinary sig (SigEncoding p) +:+ ":").

(** The request after its body was read and its digest set. *)
Definition prepared (s : Signer) (o : SignOptions) (r : Request) (content : option string) : Request :=
  let r1 := match content with
            | Some d => MkRequest (Method r) (ReqURL r) (Host r) (ReqHeader r) (zlen d) (BodyData d None)
            | None => r
            end in
  if CoverContentDigest o
  then with_header r1 contentDigestHeader (computeSHA256DigestHeaderForEncoding (default "" content)
         (contentDigestEncoding (so_Profile (s_opts s))))
  else r1.

(** The signed headers leave the others alone. *)
Definition signed (r : Request) (input sig : string) : Request :=
  with_header (with_header r signatureInputHeader input) signatureHeader sig.

(** [SignRequest]: the error, if any, and the request as it is left: with its
    body buffered and its digest header set also when signing fails later, and
    with its reader drained when reading fails. *)
Definition SignRequest (s : Signer) (o : SignOptions) (now : Time) (rand : string) (r : Request) :
    result error unit * Request :=
  match read_all (Body r) with
  | Err e =>
      (Err e, MkRequest (Method r) (ReqURL r) (Host r) (ReqHeader r) (ContentLength r)
                (match Body r with BodyData _ f => BodyData "" f | b => b end))
  | Ok content =>
      let r := prepared s o r content in
      match sign_headers s o now rand r (default "" content) with
      | Err e => (Err e, r)
      | Ok (input, sig) => (Ok (), signed r input sig)
      end
  end.

End Sign.

(** ** Lemmas *)

Lemma header_put_get h k vs k' :
  header_lines (header_put h k vs) k' = if bool_decide (k = k') then vs else header_lines h k'.
Proof.
  induction h as [|[k0 ws] h IH]; cbn [header_put header_lines]; [done|].
  destruct (bool_decide (k0 = k)) eqn:E.
  - apply bool_decide_eq_true in E as ->. cbn [header_lines]. by case_bool_decide.
  - apply bool_decide_eq_false in E. cbn [header_lines]. rewrite IH.
    repeat case_bool_decide; congruence.
Qed.

Lemma HeaderValues_set h n v n' :
  HeaderValues (HeaderSet h n v) n' =
    if bool_decide (CanonicalHeaderKey n = CanonicalHeaderKey n') then [v] else HeaderValues h n'.
Proof. apply header_put_get. Qed.

(** The encoded pair is taken apart again by the verifier. *)
Lemma encodeP1363_split r s :
  (0 < r < 2 ^ 256)%Z → (0 < s < 2 ^ 256)%Z →
  len (encodeP1363 r s) = 64 ∧ big_endian 0 (stake 32 (encodeP1363 r s)) = r ∧
  big_endian 0 (sdrop 32 (encodeP1363 r s)) = s.
Proof.
  intros Hr Hs. unfold encodeP1363.
  assert (256 ^ Z.of_nat 32 = 2 ^ 256)%Z as Hp by reflexivity.
  split_and!.
  - by rewrite len_app, !len_be_bytes.
  - pose proof (stake_app (be_bytes 32 r) (be_bytes 32 s)) as E. rewrite len_be_bytes in E.
    rewrite E. apply big_endian_be_bytes. lia.
  - pose proof (sdrop_app (be_bytes 32 r) (be_bytes 32 s)) as E. rewrite len_be_bytes in E.
    rewrite E. apply big_endian_be_bytes. lia.
Qed.

(** ** What the signer writes, seen by the verifier *)

Lemma b64_enc_length url pad l : length (b64_enc url pad l) ≤ 2 * length l + 4.
Proof.
  assert (∀ n, length (b64_pad pad n) ≤ n) as Hp.
  { intros n. unfold b64_pad. destruct pad; rewrite ?repeat_length; cbn; lia. }
  induction l as [|a|a b|a b c l IH] using list_ind3; cbn [b64_enc length app]; try lia.
  - pose proof (Hp 2). lia.
  - pose proof (Hp 1). lia.
Qed.

Lemma EncodeToString_chars url pad s :
  all_bytes (λ c, b64_char c || beq c "=") (EncodeToString url pad s) = true.
Proof.
  unfold EncodeToString. pose proof (b64_enc_chars url pad (explode s)) as H.
  induction H as [|c l Hc Hl IH]; [done|]. cbn [implode all_bytes].
  change (implode (c :: l)) with (String c (implode l)). cbn [all_bytes]. rewrite IH, andb_true_r.
  unfold is_pad in Hc. destruct (b64_char c); [done|]. cbn in Hc |- *.
  apply andb_true_iff in Hc as [_ Hc]. exact Hc.
Qed.

Lemma encodeBinary_chars s e : all_bytes (λ c, b64_char c || beq c "=") (encodeBinary s e) = true.
Proof. destruct e; apply EncodeToString_chars. Qed.

Lemma encodeBinary_no_colon s e : contains_byte (encodeBinary s e) ":" = false.
Proof. eapply all_bytes_no; [|apply encodeBinary_chars]. reflexivity. Qed.

Lemma encodeBinary_len s e : len (encodeBinary s e) ≤ 2 * len s + 4.
Proof.
  assert (∀ url pad, len (EncodeToString url pad s) ≤ 2 * len s + 4) as H.
  { intros url pad. unfold EncodeToString. rewrite <- (len_explode (implode _)), explode_implode.
    rewrite <- (len_explode s). apply b64_enc_length. }
  destruct e; apply H.
Qed.

(** The value of the signer's label in the Signature header. *)
Lemma parseSignature_sig1 v :
  contains_byte v ":" = false → (zlen ("sig1=:" +:+ v +:+ ":") ≤ maxSignatureLen)%Z →
  parseSignature ("sig1=:" +:+ v +:+ ":") "sig1" = Ok v.
Proof.
  intros Hv Hl. unfold parseSignature.
  assert (TrimSpace ("sig1=:" +:+ v +:+ ":") = "sig1=:" +:+ v +:+ ":") as ->.
  { eapply (TrimSpace_ends "s" _ _ ":"); [reflexivity|reflexivity|reflexivity|].
    exists ("sig1=:" +:+ v). by rewrite sapp_assoc. }
  rewrite bool_decide_false by done. rewrite (proj2 (Z.ltb_ge _ _) Hl).
  cbn [parse_signature].
  change (skip_sep ("sig1=:" +:+ v +:+ ":")) with ("sig1" +:+ String "=" (String ":" (v +:+ ":"))).
  rewrite bool_decide_false by done. rewrite IndexByte_app by reflexivity.
  change (len "sig1") with 4.
  change (stake 4 ("sig1" +:+ String "=" (String ":" (v +:+ ":")))) with "sig1".
  change (skip_ows (sdrop 5 ("sig1" +:+ String "=" (String ":" (v +:+ ":")))))
    with (String ":" (v +:+ ":")).
  change (TrimSpace "sig1") with "sig1". cbv beta iota zeta. change (beq ":" ":") with true.
  cbn [negb].
  change (v +:+ ":") with (v +:+ String ":" ""). rewrite IndexByte_app by done.
  rewrite bool_decide_false by (apply not_elem_of_nil).
  rewrite bool_decide_true by done. rewrite stake_app, sdrop_S_app.
  destruct (len ("sig1=:" +:+ v +:+ String ":" "")) as [|n] eqn:E; [done|]. reflexivity.
Qed.

Section DigestHeader.
Context `{RT : Runtime}.

Lemma digest_header_trim body e :
  TrimSpace (computeSHA256DigestHeaderForEncoding body e) = computeSHA256DigestHeaderForEncoding body e.
Proof.
  unfold computeSHA256DigestHeaderForEncoding.
  eapply (TrimSpace_ends "s" _ _ ":"); [reflexivity|reflexivity|reflexivity|].
  exists ("sha-256=:" +:+ encodeBinary (Sha256 body) e). by rewrite sapp_assoc.
Qed.

(** The signer's digest header has one member. *)
Lemma digest_header_single body e :
  rejectDigestDuplicates (computeSHA256DigestHeaderForEncoding body e) = Ok ().
Proof.
  unfold rejectDigestDuplicates. rewrite digest_header_trim.
  unfold computeSHA256DigestHeaderForEncoding. set (v := encodeBinary (Sha256 body) e).
  assert (contains_byte v ":" = false) as Hv by apply encodeBinary_no_colon.
  change ("sha-256=:" +:+ v +:+ ":") with ("sha-256" +:+ String "=" (String ":" (v +:+ ":"))).
  cbn [reject_duplicates].
  change (skip_sep ("sha-256" +:+ String "=" (String ":" (v +:+ ":"))))
    with ("sha-256" +:+ String "=" (String ":" (v +:+ ":"))).
  rewrite bool_decide_false by done.
  unfold digest_entry. rewrite IndexByte_app by reflexivity. change (len "sha-256") with 7.
  rewrite bool_decide_false by (apply not_elem_of_nil).
  change (skip_ows (sdrop 8 ("sha-256" +:+ String "=" (String ":" (v +:+ ":")))))
    with (String ":" (v +:+ ":")).
  cbv beta iota zeta. change (beq ":" ":") with true. cbn [negb].
  change (v +:+ ":") with (v +:+ String ":" ""). rewrite IndexByte_app by done.
  cbn [mbind result_bind]. rewrite sdrop_S_app. reflexivity.
Qed.

Lemma digest_header_read body e :
  extractSHA256FromDigestHeaderForEncoding (computeSHA256DigestHeaderForEncoding body e) e
    = Ok (Some (Sha256 body)).
Proof.
  apply digest_roundtrip; [apply digest_header_trim|apply encodeBinary_no_colon].
Qed.

Lemma additional_none h cs :
  Forall (λ c, c ∈ profileComponents) cs → additionalComponentValues h cs = Ok ∅.
Proof.
  induction 1 as [|c cs Hc Hcs IH]; [done|]. cbn [additionalComponentValues].
  by rewrite bool_decide_true.
Qed.

End DigestHeader.

Lemma HeaderGet_set_eq h n v : HeaderGet (HeaderSet h n v) n = v.
Proof. unfold HeaderGet. rewrite HeaderValues_set. by rewrite bool_decide_true. Qed.

Lemma HeaderValues_set_ne h n v n' :
  CanonicalHeaderKey n ≠ CanonicalHeaderKey n' → HeaderValues (HeaderSet h n v) n' = HeaderValues h n'.
Proof. intros H. rewrite HeaderValues_set. by rewrite bool_decide_false. Qed.

Lemma HeaderGet_set_ne h n v n' :
  CanonicalHeaderKey n ≠ CanonicalHeaderKey n' → HeaderGet (HeaderSet h n v) n' = HeaderGet h n'.
Proof. intros H. unfold HeaderGet. by rewrite HeaderValues_set_ne. Qed.

Section RoundTrip.
Context `{RT : Runtime, CR : Crypto, SC : SignCrypto}.
Context {St : Type} `{ReplayStore St}.

(** The public key [pub] verifies what the private key signs. *)
Definition key_pair (priv : PrivKey) (pub : PubKey) : Prop :=
  match priv, pub with
  | EdPriv k, EdKey q => ∀ base, len (Ed25519Sign k base) = 64 ∧
      Ed25519Verify q base (Ed25519Sign k base) = true
  | EcPriv _ k, EcKey q => ∀ h r t, EcdsaSign k h = Some (r, t) →
      (0 < r < 2 ^ 256)%Z ∧ (0 < t < 2 ^ 256)%Z ∧ EcdsaVerify q h r t = true
  | _, _ => False
  end.

Lemma sign_verifies so s priv pub base sig :
  NewSigner so = Ok s → so_PrivateKey so = Some priv → key_pair priv pub →
  sign s base = Ok sig → verifySignature (s_alg s) pub base sig = true ∧ len sig = 64.
Proof.
  unfold NewSigner, sign. case_bool_decide; [done|]. intros Hs Hp Hk. rewrite Hp in Hs.
  destruct (_ <? _)%Z; [done|]. destruct priv as [k|curve k|]; [| |done].
  - injection Hs as <-. cbn. intros [= <-]. destruct pub as [q|q|q|q]; try done.
    destruct (Hk base) as [H1 H2]. unfold verifySignature. rewrite bool_decide_true by done.
    by rewrite H1, H2.
  - case_bool_decide; [|done]. injection Hs as <-. cbn.
    destruct (EcdsaSign k (Sha256 base)) as [[r t]|] eqn:E; [|done]. intros [= <-].
    destruct pub as [q|q|q|q]; try done. destruct (Hk _ _ _ E) as (K1 & K2 & K3).
    destruct (encodeP1363_split r t K1 K2) as (L1 & L2 & L3).
    unfold verifySignature. rewrite bool_decide_false, bool_decide_true by done.
    rewrite L1, L2, L3, K3. split; [|done].
    rewrite (proj2 (Z.ltb_lt 0 r)), (proj2 (Z.ltb_lt 0 t)) by lia. done.
Qed.

(** The verifier that a signed request is meant for. *)
Record matching (s : Signer) (o : SignOptions) (now : Time) (rand : string) (r : Request)
    (opts : VerifyOptions) (st : St) (now2 snow : Time) (priv : PrivKey) (agent : string)
    (cr ex : Z) (no n : string) (content : option string) : Prop := {
  ma_profile : effective_profile opts = so_Profile (s_opts s);
  ma_key : ∃ resolve jwk pub, Resolver opts = Some resolve ∧
    resolve (so_KeyID (s_opts s)) = Ok (jwk, agent) ∧
    check_key (so_Profile (s_opts s)) jwk (s_alg s) = Ok () ∧ PublicKey jwk = Some pub ∧
    key_pair priv pub;
  ma_revocation : check_revocation (Revocation opts) (so_KeyID (s_opts s)) = Ok ();
  ma_policy : match ContentDigestPolicy opts with
              | DigestRequired => CoverContentDigest o = true
              | DigestForbidden => CoverContentDigest o = false
              | _ => True
              end;
  ma_url : IsAbs (ReqURL r) = true ∧ effective_scheme opts = URLScheme (ReqURL r);
  ma_headers : check_single_valued r = Ok ();
  ma_content : read_all (Body r) = Ok content ∧
    (content = Some "" → HeaderGet (ReqHeader r) contentTypeHeader ≠ "") ∧
    (zlen (default "" content) ≤ body_limit opts < int64_max)%Z ∧
    (content = None → (ContentLength r ≤ 0)%Z);
  ma_created : cr = (if negb (CreatedOverride o =? 0)%Z then CreatedOverride o else Unix now) ∧
    ex = wrap64 (cr + Z.quot (so_ValidityWindow (s_opts s)) Second);
  ma_nonce : no = (if bool_decide (NonceOverride o = "") then generateNonce rand else NonceOverride o) ∧
    check_nonce no = Ok n;
  ma_window : check_window cr ex (Unix now2) = Ok ();
  ma_signable : signable "sig1" (covered_components r (default "" content) (CoverContentDigest o))
    cr ex no (so_KeyID (s_opts s)) (s_alg s) (Tag (so_Profile (s_opts s)));
  ma_store : HitCap st (so_KeyID (s_opts s)) = false ∧
    (Seen st snow (so_KeyID (s_opts s)) n).1 = false ∧
    (Insert (Seen st snow (so_KeyID (s_opts s)) n).2 snow (so_KeyID (s_opts s)) n
       (replay_ttl ex (Unix now2))).1 = true;
}.

Lemma prepared_fields s o r content :
  Method (prepared s o r content) = Method r ∧ ReqURL (prepared s o r content) = ReqURL r ∧
  Host (prepared s o r content) = Host r ∧
  HeaderValues (ReqHeader (prepared s o r content)) contentTypeHeader
    = HeaderValues (ReqHeader r) contentTypeHeader ∧
  Body (prepared s o r content) =
    match content with Some d => BodyData d None | None => Body r end.
Proof.
  unfold prepared. destruct content, (CoverContentDigest o); cbn; split_and!; try done;
    by apply HeaderValues_set_ne.
Qed.

Lemma signed_headers r input sig :
  HeaderGet (ReqHeader (signed r input sig)) signatureInputHeader = input ∧
  HeaderGet (ReqHeader (signed r input sig)) signatureHeader = sig ∧
  HeaderValues (ReqHeader (signed r input sig)) contentTypeHeader
    = HeaderValues (ReqHeader r) contentTypeHeader ∧
  HeaderValues (ReqHeader (signed r input sig)) contentDigestHeader
    = HeaderValues (ReqHeader r) contentDigestHeader.
Proof.
  unfold signed, with_header. cbn [ReqHeader]. split_and!.
  - rewrite HeaderGet_set_ne by (vm_compute; discriminate). apply HeaderGet_set_eq.
  - apply HeaderGet_set_eq.
  - by rewrite !HeaderValues_set_ne by (vm_compute; discriminate).
  - by rewrite !HeaderValues_set_ne by (vm_compute; discriminate).
Qed.

Lemma check_single_valued_ext r r' :
  HeaderValues (ReqHeader r') contentTypeHeader = HeaderValues (ReqHeader r) contentTypeHeader →
  HeaderValues (ReqHeader r') contentDigestHeader = HeaderValues (ReqHeader r) contentDigestHeader →
  check_single_valued r' = check_single_valued r.
Proof. intros H1 H2. unfold check_single_valued, HeaderGet. by rewrite H1, H2. Qed.

Lemma prepared_single s o r content :
  check_single_valued r = Ok () → check_single_valued (prepared s o r content) = Ok ().
Proof.
  intros Hr. destruct (CoverContentDigest o) eqn:Ecd.
  - destruct (prepared_fields s o r content) as (_ & _ & _ & Hct & _).
    assert (HeaderGet (ReqHeader (prepared s o r content)) contentTypeHeader
            = HeaderGet (ReqHeader r) contentTypeHeader) as Hg by (unfold HeaderGet; by rewrite Hct).
    unfold check_single_valued in Hr |- *. rewrite Hct, Hg.
    apply bind_Ok in Hr as (u1 & Hr1 & Hr). rewrite Hr1. cbn [mbind result_bind].
    apply bind_Ok in Hr as (u2 & Hr2 & Hr). rewrite Hr2. cbn [mbind result_bind].
    assert (HeaderValues (ReqHeader (prepared s o r content)) contentDigestHeader =
      [computeSHA256DigestHeaderForEncoding (default "" content)
         (contentDigestEncoding (so_Profile (s_opts s)))]) as Hv.
    { unfold prepared. rewrite Ecd. unfold with_header. cbn [ReqHeader].
      rewrite HeaderValues_set. by rewrite bool_decide_true. }
    set (d := computeSHA256DigestHeaderForEncoding _ _) in *.
    assert (HeaderGet (ReqHeader (prepared s o r content)) contentDigestHeader = d) as Hd
      by (unfold HeaderGet; by rewrite Hv).
    rewrite Hv, Hd. unfold d. rewrite digest_header_single. by destruct (bool_decide _).
  - rewrite <- Hr. apply check_single_valued_ext.
    + apply prepared_fields.
    + unfold prepared. rewrite Ecd. by destruct content.
Qed.

(** [SignRequest] opened up. *)
Lemma SignRequest_Ok s o now rand r r' content :
  read_all (Body r) = Ok content → SignRequest s o now rand r = (Ok (), r') →
  let p := so_Profile (s_opts s) in
  let r1 := prepared s o r content in
  let covered := covered_components r (default "" content) (CoverContentDigest o) in
  let cr := if negb (CreatedOverride o =? 0)%Z then CreatedOverride o else Unix now in
  let ex := wrap64 (cr + Z.quot (so_ValidityWindow (s_opts s)) Second) in
  let no := if bool_decide (NonceOverride o = "") then generateNonce rand else NonceOverride o in
  let params := formatSigParams covered cr ex no (so_KeyID (s_opts s)) (s_alg s) (Tag p) in
  ∃ uri base sig,
    canonicalTargetURI (URLString (ReqURL r)) = Ok uri ∧
    buildSignatureBase covered
      (profile_values r1 (URLScheme (ReqURL r)) uri (CoverContentDigest o)) params = Ok base ∧
    sign s base = Ok sig ∧
    r' = signed r1 ("sig1=" +:+ params) ("sig1=:" +:+ encodeBinary sig (SigEncoding p) +:+ ":").
Proof.
  intros Hc Hs. cbv zeta. unfold SignRequest in Hs. rewrite Hc in Hs. cbv zeta in Hs.
  destruct (prepared_fields s o r content) as (HM & HU & HH & HCT & HB).
  set (r1 := prepared s o r content) in *. unfold sign_headers in Hs. cbv zeta in Hs.
  assert (covered_components r1 (default "" content) (CoverContentDigest o) =
          covered_components r (default "" content) (CoverContentDigest o)) as Hcov.
  { unfold covered_components, HeaderGet. by rewrite HCT. }
  rewrite Hcov, HU in Hs.
  case_bool_decide; [done|].
  destruct (canonicalTargetURI _) as [uri|] eqn:Eu; [|done]. cbn [mbind result_bind] in Hs.
  destruct (buildSignatureBase _ _ _) as [base|] eqn:Eb; [|done]. cbn [mbind result_bind] in Hs.
  destruct (sign s base) as [sig|] eqn:Es; [|done]. cbn [mbind result_bind] in Hs.
  injection Hs as <-. exists uri, base, sig. done.
Qed.

End RoundTrip.
