(* ===== verification/SigProps.v ===== *)
(** * SigProps: the properties of request signing

    Soundness of acceptance, the validity window, replay and its limits, the
    unsigned path, the panic of [VerifyRequest], and the round trip from signer
    to verifier.  The witnesses run the verifier on a request signed by the
    signer model under toy instances of the parameters. *)
From stdpp Require Import gmap stringmap.
From S2P Require Import Prelude GoStrings Unicode NetUrl UrlCanon Json Base64 SigTypes SigInput.
From S2P Require Import SigBase Replay StrictJson Verify VerifyThm VerifyErr Sign.
From stdpp Require Import options.

(** ** A concrete instance of the parameters

    Case is that of ASCII, a hash is the identity, a signature is a prefix of key and
    base: with them a signer, a verifier and a request that fit together. *)

Module Toy.

#[export] Instance rt : Runtime := {
  SimpleFold := ascii_fold; LowerRune := λ r, r; UpperRune := λ r, r; Sha256 := λ s, s;
}.

Fixpoint xs (n : nat) : string := match n with O => "" | S n => String "x" (xs n) end.
Definition toy_sign (k b : string) : string := stake 64 (k +:+ b +:+ xs 64).

#[export] Instance cr : Crypto := {
  JoseUnmarshal := λ m,
    x ← m !! "x"; if bool_decide (m !! "kty" = Some "OKP") then EdKey <$> b64UrlDecode x else None;
  Ed25519Verify := λ k b s, bool_decide (s = toy_sign k b);
  EcdsaVerify := λ _ _ _ _, false;
  float_ok := λ s, negb (bool_decide (s = "1e999"));
}.

#[export] Instance sc : SignCrypto := {
  Ed25519Sign := toy_sign; EcdsaSign := λ _ _, None;
}.

Definition jwk : JWK :=
  MkJWK "key-1" "OKP" "Ed25519" "EdDSA" "sig" (Some ["verify"]) "request-signing" "cGs" "" "" "" "" "".

Definition sec (s : Z) : Time := ((s + unixToInternal) * Second)%Z.

Definition options : VerifyOptions :=
  MkOptions "create_media_buy" ["create_media_buy"] [] ProfileRequestSigning DigestRequired "https"
    (Some (λ kid, if bool_decide (kid = "key-1") then Ok (jwk, "https://agent.example")
                  else Err (newError CodeKeyUnknown "no key")))
    (None, false) 0.

Definition toy_url : URL :=
  default (MkURL "" "" None "" "" "" false false "" "" "") (ParseURL "https://seller.example/mcp").

Definition req : Request :=
  MkRequest "post" toy_url "seller.example"
    [("Content-Type", ["application/json"])] 2 (BodyData "{}" None).

Definition signer_options : SignerOptions :=
  MkSignerOptions "key-1" (Some (EdPriv "pk")) ProfileRequestSigning 0.
Definition signer : Signer :=
  MkSigner' (MkSignerOptions "key-1" (Some (EdPriv "pk")) ProfileRequestSigning (300 * Second)%Z) AlgEd25519.
Definition sign_options : SignOptions := MkSignOptions true 0 "".
Definition rand : string := "0123456789abcdef".

Definition signed_req : Request :=
  (SignRequest signer sign_options (sec 1000) rand req).2.

Definition store : MemoryReplayStore := NewMemoryReplayStore 10.

(** An unsigned request that carries credentials and a number no float holds. *)
Definition push_body : string :=
  dq "{'push_notification_config':{'authentication':{'credentials':'c'}},'n':1e999}".
Definition push_req : Request :=
  MkRequest "post" toy_url "seller.example" [] 78
    (BodyData push_body None).
Definition open_options : VerifyOptions :=
  MkOptions "update_media_buy" ["create_media_buy"] ["tools/call"] ProfileRequestSigning DigestEither
    "https" (Resolver options) (None, false) 0.

End Toy.

(** ** The round trip, assembled *)

Section Accept.
Context `{RT : Runtime, CR : Crypto, SC : SignCrypto}.
Context {St : Type} `{ReplayStore St}.

Lemma covered_ok (r : Request) content d cs :
  cs = covered_components r content d →
  NoDup cs ∧ componentMethod ∈ cs ∧ componentTargetURI ∈ cs ∧ componentAuthority ∈ cs ∧
  bool_decide (componentContentType ∈ cs) =
    (negb (bool_decide (HeaderGet (ReqHeader r) contentTypeHeader = "")) || (0 <? len content)%nat) ∧
  bool_decide (componentContentDigst ∈ cs) = d ∧ Forall (λ c, c ∈ profileComponents) cs.
Proof.
  intros ->. unfold covered_components.
  destruct (negb _ || _), d; vm_compute; split_and!; try reflexivity;
    repeat first [apply NoDup_cons; split; [set_solver|]|apply NoDup_nil_2]; try set_solver;
    repeat (apply Forall_cons; split; [set_solver|]); apply Forall_nil_2.
Qed.

Lemma read_back d limit :
  (zlen d ≤ limit < int64_max)%Z → readAndReplaceBody (BodyData d None) limit = Ok (d, BodyData d None).
Proof.
  intros [H1 H2]. unfold readAndReplaceBody.
  assert (0 ≤ zlen d)%Z by (unfold zlen; lia).
  rewrite wrap64_id by (unfold in_int64, int64_min, int64_max in *; lia).
  rewrite (proj2 (Z.leb_gt (limit + 1) 0)), (proj2 (Z.ltb_lt (zlen d) (limit + 1))) by lia.
  cbv iota beta zeta. by rewrite (proj2 (Z.ltb_ge limit (zlen d))) by lia.
Qed.

(** The signed request, as the verifier looks at it. *)
Lemma signed_view s o r content cs params sh :
  let r1 := prepared s o r content in
  let r2 := signed r1 ("sig1=" +:+ params) sh in
  Method r2 = Method r ∧ ReqURL r2 = ReqURL r ∧ Host r2 = Host r ∧
  HeaderGet (ReqHeader r2) contentTypeHeader = HeaderGet (ReqHeader r) contentTypeHeader ∧
  (CoverContentDigest o = true → HeaderGet (ReqHeader r2) contentDigestHeader =
     computeSHA256DigestHeaderForEncoding (default "" content)
       (contentDigestEncoding (so_Profile (s_opts s)))) ∧
  Body r2 = match content with Some d => BodyData d None | None => Body r end ∧
  (cs = covered_components r (default "" content) (CoverContentDigest o) →
   (content = None → Body r = BodyNil ∧ (ContentLength r ≤ 0)%Z) →
   (content = Some "" → HeaderGet (ReqHeader r) contentTypeHeader ≠ "") →
   (hasBody r2 || negb (bool_decide (HeaderGet (ReqHeader r2) contentTypeHeader = ""))) &&
     negb (covers cs componentContentType) = false).
Proof.
  intros r1 r2.
  destruct (prepared_fields s o r content) as (HM & HU & HH & HCT1 & HB).
  destruct (signed_headers r1 ("sig1=" +:+ params) sh) as (HI & HSg & HCT & HCD).
  assert (HeaderGet (ReqHeader r2) contentTypeHeader = HeaderGet (ReqHeader r) contentTypeHeader) as Hg.
  { unfold HeaderGet, r2. rewrite HCT. unfold r1. by rewrite HCT1. }
  split_and!; try done.
  - intros Hd. unfold HeaderGet. unfold r2. rewrite HCD. unfold r1, prepared. rewrite Hd.
    unfold with_header. cbn [ReqHeader]. rewrite HeaderValues_set, bool_decide_true by done. done.
  - intros Hcs Hnone Hempty. destruct (covered_ok r _ _ cs Hcs) as (_ & _ & _ & _ & Hct & _).
    unfold covers. rewrite Hct, Hg. apply andb_false_iff.
    destruct (bool_decide (HeaderGet (ReqHeader r) contentTypeHeader = "")) eqn:E; [|by right].
    apply bool_decide_eq_true in E. destruct content as [d|].
    + right. cbn [default negb orb]. destruct d; [by destruct Hempty|]. reflexivity.
    + left. destruct (Hnone eq_refl) as [Hb Hl]. unfold hasBody. change (Body r2) with (Body r1).
      fold r1 in HB. rewrite HB, Hb. rewrite !orb_false_r. apply Z.ltb_ge.
      unfold r2, r1, prepared, signed, with_header. by destruct (CoverContentDigest o).
Qed.

Lemma signed_values r1 input sh scheme uri d :
  profile_values (signed r1 input sh) scheme uri d = profile_values r1 scheme uri d.
Proof.
  destruct (signed_headers r1 input sh) as (_ & _ & HCT & HCD).
  unfold profile_values, HeaderGet. by rewrite HCT, HCD.
Qed.

Lemma check_components_signed opts p r cs content d :
  cs = covered_components r content d →
  match ContentDigestPolicy opts with
  | DigestRequired => d = true | DigestForbidden => d = false | _ => True end →
  ∀ r2, (hasBody r2 || negb (bool_decide (HeaderGet (ReqHeader r2) contentTypeHeader = ""))) &&
     negb (covers cs componentContentType) = false →
  check_components opts p r2 cs = Ok ∅.
Proof.
  intros Hcs Hpol r2 Hb. destruct (covered_ok r content d cs Hcs) as (Hnd & Hm & Ht & Ha & Hct & Hcd & Hall).
  unfold check_components, rejectDuplicateComponents. rewrite (bool_decide_true (NoDup cs)) by done.
  cbn [mbind result_bind]. rewrite Hb. unfold covers. rewrite Hcd.
  rewrite (bool_decide_true (_ ∈ cs) Hm), (bool_decide_true (_ ∈ cs) Ht), (bool_decide_true (_ ∈ cs) Ha).
  cbn.
  rewrite additional_none by done. by destruct (ContentDigestPolicy opts); cbn; rewrite ?Hpol.
Qed.

Lemma request_base_signed p r r2 scheme uri base cs d params e :
  cs = covered_components r e d →
  Method r2 = Method r → ReqURL r2 = ReqURL r → Host r2 = Host r →
  IsAbs (ReqURL r) = true → canonicalTargetURI (URLString (ReqURL r)) = Ok uri →
  buildSignatureBase cs (profile_values r2 scheme uri d) params = Ok base →
  request_base p r2 scheme cs params ∅ = Ok base.
Proof.
  intros Hcs HM HU HH Habs Huri Hbase.
  destruct (covered_ok r e d cs Hcs) as (_ & _ & _ & _ & _ & Hcd & _).
  unfold request_base, reconstructRequestURL, covers. rewrite HU, Habs, Huri, Hcd.
  cbn [mbind result_bind]. by rewrite (left_id_L ∅ (∪)), Hbase.
Qed.

Lemma check_signature_signed so s priv pub jwk base sig r p :
  NewSigner so = Ok s → so_PrivateKey so = Some priv → key_pair priv pub →
  PublicKey jwk = Some pub → sign s base = Ok sig →
  check_signature p jwk (s_alg s) base ("sig1=:" +:+ encodeBinary sig (SigEncoding r) +:+ ":") "sig1" =
    (sigBytes ← opt_err (newError CodeHeaderMalformed "Signature value has invalid binary encoding")
       (decodeBinary (encodeBinary sig (SigEncoding r)) (SigEncoding p));
     check (verifySignature (s_alg s) pub base sigBytes) CodeInvalid "cryptographic verification failed").
Proof.
  intros Hnew Hpriv Hpair Hpk Hsig.
  destruct (sign_verifies so s priv pub base sig Hnew Hpriv Hpair Hsig) as [Hver Hlen].
  unfold check_signature. rewrite Hpk. cbn [opt_err mbind result_bind].
  rewrite parseSignature_sig1; [done|apply encodeBinary_no_colon|].
  unfold zlen. rewrite !len_app. pose proof (encodeBinary_len sig (SigEncoding r)) as He.
  unfold maxSignatureLen. change (len "sig1=:") with 6. change (len ":") with 1. lia.
Qed.

Lemma NewSigner_allowed so s : NewSigner so = Ok s → Allowed (s_alg s) = true.
Proof.
  unfold NewSigner. case_bool_decide; [done|]. destruct (so_PrivateKey so) as [[]|]; [| | |done];
    destruct (_ <? _)%Z; try done.
  - by intros [= <-].
  - destruct (negb _); [done|]. by intros [= <-].
Qed.

(** The body of a signed request. *)
Definition signed_body (content : option string) : body :=
  match content with Some d => BodyData d None | None => BodyNil end.

(** Steps 1 to 11 on the signer's output. *)
Lemma check_signed_ok so s priv o now rand r opts st now2 snow agent cr ex no n content resolve uri base sig :
  NewSigner so = Ok s → so_PrivateKey so = Some priv →
  matching s o now rand r opts st now2 snow priv agent cr ex no n content →
  Resolver opts = Some resolve →
  let p := so_Profile (s_opts s) in
  let cs := covered_components r (default "" content) (CoverContentDigest o) in
  let params := formatSigParams cs cr ex no (so_KeyID (s_opts s)) (s_alg s) (Tag p) in
  let r1 := prepared s o r content in
  let sh := "sig1=:" +:+ encodeBinary sig (SigEncoding p) +:+ ":" in
  canonicalTargetURI (URLString (ReqURL r)) = Ok uri →
  buildSignatureBase cs (profile_values r1 (URLScheme (ReqURL r)) uri (CoverContentDigest o)) params
    = Ok base →
  sign s base = Ok sig →
  check_signed opts resolve st (Unix now2) (signed r1 ("sig1=" +:+ params) sh) ("sig1=" +:+ params) sh =
    Ok (MkChecked (MkSigInput "sig1" cs params (Some cr) (Some ex) (Some no) (Some (so_KeyID (s_opts s)))
         (Some (s_alg s)) (Some (Tag p)) ["tag"; "alg"; "keyid"; "nonce"; "expires"; "created"])
         (so_KeyID (s_opts s)) n ex (s_alg s) agent (signed_body content)).
Proof.
  intros Hnew Hpriv [Hprof (res & jwk & pub & HR & Hres & Hck & Hpk & Hpair) Hrev Hpol
    [Habs Hsch] Hsv (Hcont & Hempty & Hlim & Hnil) [Hcr Hex] [Hno Hnon] Hwin Hsg (Hcap & Hseen & Hins)] HR'.
  rewrite HR in HR'. injection HR' as ->. intros p cs params r1 sh Huri Hbase Hsig.
  destruct (signed_view s o r content cs params sh) as (VM & VU & VH & VT & VD & VB & VC).
  fold r1 in VM, VU, VH, VT, VD, VB, VC. set (r2 := signed r1 ("sig1=" +:+ params) sh) in *.
  pose proof (parse_format _ _ _ _ _ _ _ _ Hsg) as Hparse. fold cs p params in Hparse.
  change ("sig1" +:+ "=" +:+ params) with ("sig1=" +:+ params) in Hparse.
  fold p in Hprof, Hck. unfold check_signed. rewrite Hprof, Hparse.
  cbn [mbind result_bind required_params created expires nonce keyID alg tag components paramsText label].
  rewrite bool_decide_true, (NewSigner_allowed _ _ Hnew), Hwin, Hnon by done.
  cbn [mbind result_bind check guard_err].
  rewrite (check_components_signed _ _ r cs _ _ eq_refl Hpol).
  2:{ apply VC; [done| |done]. intros ->. split; [|by apply Hnil].
      by destruct (Body r) as [| |? []]. }
  cbn [mbind result_bind]. unfold resolve_key. rewrite Hres. cbn [mbind result_bind].
  rewrite Hck, Hrev, Hcap, Hpk. cbn [mbind result_bind check guard_err negb opt_err].
  rewrite (request_base_signed p r r2 _ uri base cs (CoverContentDigest o) params (default "" content));
    [|done..|by unfold r2; rewrite Hsch, signed_values].
  cbn [mbind result_bind]. unfold sh. rewrite (check_signature_signed so s priv pub) by done.
  rewrite decodeBinary_encode. cbn [opt_err mbind result_bind].
  destruct (sign_verifies so s priv pub base sig Hnew Hpriv Hpair Hsig) as [-> _].
  cbn [mbind result_bind check guard_err]. unfold check_digest, covers.
  destruct (covered_ok r (default "" content) (CoverContentDigest o) cs eq_refl)
    as (_ & _ & _ & _ & _ & -> & _).
  assert (Body r2 = signed_body content) as Hbody.
  { rewrite VB. destruct content; [done|]. by destruct (Body r) as [| |? []]. }
  destruct (CoverContentDigest o) eqn:Hcov; [|by rewrite Hbody]. rewrite Hbody, VD by done.
  assert (readAndReplaceBody (signed_body content) (body_limit opts) =
    Ok (default "" content, signed_body content)) as ->.
  { destruct content as [d|]; [by apply read_back|done]. }
  cbn [mbind result_bind]. rewrite digest_header_read. cbn [mbind result_bind opt_err].
  by rewrite bool_decide_true.
Qed.

Lemma sign_then_verify_ok so s priv o now rand r r' opts st now2 snow agent cr ex no n content :
  NewSigner so = Ok s → so_PrivateKey so = Some priv →
  SignRequest s o now rand r = (Ok (), r') →
  matching s o now rand r opts st now2 snow priv agent cr ex no n content →
  (VerifyRequestSignature opts (Some st) now2 snow r').1 =
    Ok (Some (MkSigner (so_KeyID (s_opts s)) agent (Unix now2) (s_alg s) "sig1"
                (covered_components r (default "" content) (CoverContentDigest o))
                (Tag (so_Profile (s_opts s)))), signed_body content).
Proof.
  intros Hnew Hpriv Hsign Hma. pose proof Hma as [Hprof (resolve & _ & _ & HR & _) _ _ _ Hsv
    (Hcont & _) [Hcr Hex] [Hno _] _ _ (_ & Hseen & Hins)].
  pose proof (SignRequest_Ok s o now rand r r' content Hcont Hsign) as HS. cbv zeta in HS.
  rewrite <- Hcr in HS. rewrite <- Hex, <- Hno in HS.
  destruct HS as (uri & base & sig & Huri & Hbase & Hsig & ->).
  pose proof (check_signed_ok so s priv o now rand r opts st now2 snow agent cr ex no n content resolve
    uri base sig Hnew Hpriv Hma HR) as Hok. cbv zeta in Hok. specialize (Hok Huri Hbase Hsig).
  set (params := formatSigParams _ _ _ _ _ _ _) in *. set (sh := "sig1=:" +:+ _) in *.
  set (r1 := prepared s o r content) in *.
  destruct (signed_headers r1 ("sig1=" +:+ params) sh) as (HI & HSg & HCT & HCD).
  unfold VerifyRequestSignature. rewrite HR. cbv zeta. rewrite HI, HSg.
  rewrite (check_single_valued_ext r1 _ HCT HCD). unfold r1 at 1. rewrite prepared_single by done.
  rewrite (bool_decide_false ("sig1=" +:+ params = "")) by done.
  rewrite (bool_decide_false (sh = "")) by done. cbn [andb orb]. rewrite Hok.
  unfold record_nonce. cbn [c_keyid c_nonce c_expires c_agent c_alg c_input c_body label components].
  destruct (Seen st snow _ n) as [[] st1] eqn:E1; [done|]. cbn in Hins.
  destruct (Insert st1 snow _ n _) as [[] st2] eqn:E2; [|done]. cbn. by rewrite Hprof.
Qed.
(** What a successful read leaves. *)
Lemma read_Ok data limit b kept :
  (0 < limit < int64_max)%Z → readAndReplaceBody (BodyData data None) limit = Ok (b, kept) →
  b = data ∧ kept = BodyData data None.
Proof.
  intros Hl. unfold readAndReplaceBody.
  rewrite wrap64_id by (unfold in_int64, int64_min, int64_max in *; lia).
  rewrite (proj2 (Z.leb_gt (limit + 1) 0)) by lia.
  destruct (Z.ltb_spec (zlen data) (limit + 1)); cbv iota beta.
  - rewrite (proj2 (Z.ltb_ge limit (zlen data))) by lia. by intros [= <- <-].
  - destruct (Z.ltb_spec limit (zlen (stake (Z.to_nat (limit + 1)) data))) as [Hlt|Hge]; [done|].
    exfalso. unfold zlen in *. rewrite len_stake in Hge. lia.
Qed.

Lemma body_limit_pos opts : (0 < body_limit opts)%Z.
Proof. unfold body_limit, defaultMaxBodyBytes. destruct (Z.leb_spec (MaxBodyBytes opts) 0); lia. Qed.

Lemma handler_body opts (replay replay' : option St) now snow r res kept data :
  VerifyRequestSignature opts replay now snow r = (Ok (res, kept), replay') →
  Body r = BodyData data None → (body_limit opts < int64_max)%Z →
  kept = BodyData data None ∧
  ∀ signer, res = Some signer → componentContentDigst ∈ CoveredComponents signer →
    extractSHA256FromDigestHeaderForEncoding (HeaderGet (ReqHeader r) contentDigestHeader)
      (contentDigestEncoding (effective_profile opts)) = Ok (Some (Sha256 data)).
Proof.
  intros Hv Hb Hl. pose proof (body_limit_pos opts) as Hp. destruct res as [signer|].
  - destruct (accepted_inv _ _ _ _ _ _ _ _ Hv) as (resolve & st & c & _ & _ & Hes & _ & _ & _ & -> & ->).
    destruct (es_key _ _ _ _ _ _ Hes) as (k & _ & _ & _ & _ & _ & _ & Hau).
    destruct (decide (componentContentDigst ∈ components (c_input c))) as [Hin|Hout].
    + destruct (au_digest _ _ _ _ _ _ _ Hau Hin) as (b & Hr & Hd). rewrite Hb in Hr.
      apply read_Ok in Hr as [-> Hk]; [|lia]. split; [done|]. by intros ? _ _.
    + split; [|by intros signer [= <-] ?]. rewrite <- Hb. apply (es_body _ _ _ _ _ _ Hes Hout).
  - split; [|done]. unfold VerifyRequestSignature in Hv. destruct (Resolver opts); [|done].
    destruct replay as [st|]; [|done]. cbv zeta in Hv. destruct (check_single_valued r); [|done].
    destruct (_ && _).
    + destruct (check_unsigned opts r) as [k|] eqn:E; [|done]. injection Hv as -> _.
      unfold check_unsigned in E. apply bind_Ok in E as (u1 & _ & E).
      apply bind_Ok in E as ([b kept'] & Hr & E). rewrite Hb in Hr. apply read_Ok in Hr as [-> ->]; [|lia].
      apply bind_Ok in E as (u2 & _ & E). apply bind_Ok in E as (u3 & _ & E).
      apply bind_Ok in E as (u4 & _ & E). by injection E as <-.
    + destruct (_ || _); [done|]. destruct (check_signed _ _ _ _ _ _ _) as [c|]; [|done].
      unfold record_nonce in Hv. destruct (Seen _ _ _ _) as [[] ?]; [done|].
      by destruct (Insert _ _ _ _ _) as [[] ?].
Qed.

End Accept.

(** ** Properties *)

(** C1: an accepted request is authentic.  The signature names a key that the
    resolver maps to the reported agent, whose purpose, operations and
    algorithm fit the profile and which is not revoked; that key verifies the
    signature over the base built from this very request; method, target URI,
    authority, and content type of a body are covered, each component once; a
    covered digest is the digest of the body; tag, allowed algorithm, window
    and a nonce of at least 128 bits were checked; and the nonce was not in the
    replay store and now is. *)
Theorem verify_sound `{RT : Runtime, CR : Crypto} {St} `{ReplayStore St} opts replay now snow r
    signer kept replay' :
  VerifyRequestSignature opts replay now snow r = (Ok (Some signer, kept), replay') →
  ∃ resolve st c, Resolver opts = Some resolve ∧ replay = Some st ∧
    established opts resolve st (Unix now) r c ∧
    (Seen st snow (c_keyid c) (c_nonce c)).1 = false ∧
    (Insert (Seen st snow (c_keyid c) (c_nonce c)).2 snow (c_keyid c) (c_nonce c)
       (replay_ttl (c_expires c) (Unix now))).1 = true ∧
    replay' = Some (Insert (Seen st snow (c_keyid c) (c_nonce c)).2 snow (c_keyid c) (c_nonce c)
       (replay_ttl (c_expires c) (Unix now))).2 ∧
    kept = c_body c ∧
    signer = MkSigner (c_keyid c) (c_agent c) (Unix now) (c_alg c) (label (c_input c))
               (components (c_input c)) (Tag (effective_profile opts)).
Proof. apply accepted_inv. Qed.

(** the window check, exactly: created lies before expires and at most 60
    seconds in the future, the signature has expired at most 60 seconds ago, and
    the window is at most 300 seconds long, or so long that the [int64]
    subtraction wraps around. *)
Theorem check_window_exact cr ex nowT :
  in_int64 cr → in_int64 ex → in_int64 (nowT - skewSeconds) → in_int64 (nowT + skewSeconds) →
  check_window cr ex nowT = Ok () ↔
  (cr < ex ∧ cr ≤ nowT + 60 ∧ nowT - 60 ≤ ex ∧ (ex - cr ≤ 300 ∨ int64_max < ex - cr))%Z.
Proof. apply check_window_spec. Qed.

Lemma check_window_exact_witness :
  check_window int64_min 1000000000000 1700000000 = Ok ().
Proof.
  apply check_window_exact; try (split; vm_compute; congruence).
  unfold int64_min, int64_max. lia.
Defined.

(** a nonce is accepted once: after a request was accepted, no request
    with the same Signature-Input header is accepted while the nonce's replay
    entry lives, whatever the rest of the request, the options and the clock
    readings are. *)
Theorem replay_rejected `{RT : Runtime, CR : Crypto} {St} `{ReplayStoreSpec St}
    opts opts2 st now snow r signer kept st' now2 snow2 r2 c :
  VerifyRequestSignature opts (Some st) now snow r = (Ok (Some signer, kept), Some st') →
  HeaderGet (ReqHeader r2) signatureInputHeader = HeaderGet (ReqHeader r) signatureInputHeader →
  parseSignatureInput (HeaderGet (ReqHeader r) signatureInputHeader) = Ok c →
  (∀ ex, expires c = Some ex → snow2 ≤ snow + replay_ttl ex (Unix now))%Z →
  ∀ signer2 kept2 st2,
    VerifyRequestSignature opts2 (Some st') now2 snow2 r2 ≠ (Ok (Some signer2, kept2), st2).
Proof.
  intros H1 Hh Hp Hlive signer2 kept2 st2 H2.
  apply accepted_inv in H1 as (res1 & s1 & c1 & _ & E1 & Hes1 & Hs1 & Hi1 & Hst' & _).
  apply accepted_inv in H2 as (res2 & s2 & c2 & _ & E2 & Hes2 & Hs2 & _).
  injection E1 as ->. injection E2 as ->. injection Hst' as ->.
  pose proof (es_input _ _ _ _ _ _ Hes1) as P1. pose proof (es_input _ _ _ _ _ _ Hes2) as P2.
  rewrite Hh in P2. assert (c_input c2 = c_input c1) as Heq by congruence.
  assert (c = c_input c1) as -> by congruence.
  destruct (es_key _ _ _ _ _ _ Hes1) as (k1 & _ & K1 & _).
  destruct (es_key _ _ _ _ _ _ Hes2) as (k2 & _ & K2 & _). rewrite Heq in K2.
  destruct (es_nonce _ _ _ _ _ _ Hes1) as (n1 & N1 & D1 & _).
  destruct (es_nonce _ _ _ _ _ _ Hes2) as (n2 & N2 & D2 & _). rewrite Heq in N2.
  destruct (es_window _ _ _ _ _ _ Hes1) as (cr & _ & X1 & _).
  assert (c_keyid c2 = c_keyid c1) as Ek by congruence.
  assert (c_nonce c2 = c_nonce c1) as En by congruence. rewrite Ek, En in Hs2.
  apply Insert_records in Hi1. rewrite Seen_reports, Hi1 in Hs2.
  specialize (Hlive _ X1). unfold Add in Hs2. lia.
Qed.

(** C2: what the signer signs, the verifier accepts: with a key pair that
    fits, a clock inside the window, and a request that meets the conditions of
    [matching], [VerifyRequestSignature] accepts the output of [SignRequest]
    reports its key, algorithm and covered components, and leaves the body that
    was signed. *)
Theorem sign_then_verify `{RT : Runtime, CR : Crypto, SC : SignCrypto} {St} `{ReplayStore St}
    so s priv o now rand r r' opts st now2 snow agent cr ex no n content :
  NewSigner so = Ok s → so_PrivateKey so = Some priv →
  SignRequest s o now rand r = (Ok (), r') →
  matching s o now rand r opts st now2 snow priv agent cr ex no n content →
  (VerifyRequestSignature opts (Some st) now2 snow r').1 =
    Ok (Some (MkSigner (so_KeyID (s_opts s)) agent (Unix now2) (s_alg s) "sig1"
                (covered_components r (default "" content) (CoverContentDigest o))
                (Tag (so_Profile (s_opts s)))), signed_body content).
Proof. apply sign_then_verify_ok. Qed.

(** a request without signature headers passes unsigned only when the
    operation does not require a signature, its body can be read within the
    limit and is blank or strict JSON, no JSON-RPC method in it requires a
    signature, and it carries no push-notification credentials -- as far as
    all its numbers fit a float; the replay store is untouched. *)
Theorem unsigned_sound `{RT : Runtime, CR : Crypto} {St} `{ReplayStore St} opts
    (replay replay' : option St) now snow r kept :
  VerifyRequestSignature opts replay now snow r = (Ok (None, kept), replay') →
  HeaderGet (ReqHeader r) signatureInputHeader = "" ∧ HeaderGet (ReqHeader r) signatureHeader = "" ∧
  OperationName opts ∉ RequiredFor opts ∧ replay' = replay ∧
  ∃ b, readAndReplaceBody (Body r) (body_limit opts) = Ok (b, kept) ∧
    (TrimSpace b = "" ∨ Validate b 0 = Ok ()) ∧
    protocolMethodFromJSONRPC b ∉ ProtocolMethodsRequiredFor opts ∧
    ∀ v, json_decode b = Some v → nums_ok float_ok v = true → b ≠ "" →
      hasPushNotificationAuth v = false.
Proof.
  unfold VerifyRequestSignature. destruct (Resolver opts); [|done].
  destruct replay as [st|]; [|done]. cbv zeta. destruct (check_single_valued r); [|done].
  case_bool_decide as E1; case_bool_decide as E2; cbn [andb orb].
  2-4: try done.
  2:{ destruct (check_signed _ _ _ _ _ _ _) as [c|]; [|done]. unfold record_nonce.
      destruct (Seen _ _ _ _) as [[] ?]; [done|]. by destruct (Insert _ _ _ _ _) as [[] ?]. }
  unfold check_unsigned. destruct (_ ≫= _) as [u|] eqn:E; [|done]. intros [= -> <-].
  apply bind_Ok in E as (u1 & Hop%check_Ok & E). apply bind_Ok in E as ([b kept'] & Hb & E).
  apply bind_Ok in E as (u2 & Ha%check_Ok & E). apply bind_Ok in E as (u3 & Hm%check_Ok & E).
  apply bind_Ok in E as (u4 & Hpush%check_Ok & E). injection E as ->.
  rewrite !negb_true_iff in Hop, Ha, Hm, Hpush.
  apply bool_decide_eq_false in Hop, Hm. split_and!; try done. exists b. split_and!; try done.
  - unfold ambiguousBody in Ha. apply andb_false_iff in Ha as [Ha|Ha]; apply negb_false_iff in Ha.
    + left. by apply bool_decide_eq_true in Ha.
    + right. by destruct (Validate b 0) as [[]|].
  - intros v Hv Hn Hne. unfold bodyCarriesPushNotificationAuth in Hpush.
    rewrite bool_decide_false in Hpush by done. rewrite Hv, Hn in Hpush. done.
Qed.

(** the handler reads the body that was checked: after an acceptance whose
    signature covers content-digest, and after an unsigned pass, the body of the
    request delivers exactly the bytes the check read, which are the whole body
    the client sent when the limit is below [MaxInt64]. *)
Theorem body_for_handler `{RT : Runtime, CR : Crypto} {St} `{ReplayStore St} opts
    (replay replay' : option St) now snow r res kept data :
  VerifyRequestSignature opts replay now snow r = (Ok (res, kept), replay') →
  Body r = BodyData data None → (body_limit opts < int64_max)%Z →
  kept = BodyData data None ∧
  ∀ signer, res = Some signer → componentContentDigst ∈ CoveredComponents signer →
    extractSHA256FromDigestHeaderForEncoding (HeaderGet (ReqHeader r) contentDigestHeader)
      (contentDigestEncoding (effective_profile opts)) = Ok (Some (Sha256 data)).
Proof. apply handler_body. Qed.

(** [VerifyRequest] panics exactly when a request without signature
    headers, for an operation that does not require one, has a body whose reader
    fails before the limit; in every other case it returns one of the three
    statuses, a rejection with a typed error. *)
Theorem VerifyRequest_panics `{RT : Runtime, CR : Crypto} {St} `{ReplayStore St} opts
    (replay : option St) now snow r :
  (VerifyRequest opts replay now snow r = None ↔
   Resolver opts ≠ None ∧ replay ≠ None ∧ check_single_valued r = Ok () ∧
   HeaderGet (ReqHeader r) signatureInputHeader = "" ∧ HeaderGet (ReqHeader r) signatureHeader = "" ∧
   OperationName opts ∉ RequiredFor opts ∧ body_fails (Body r) (body_limit opts)) ∧
  ∀ v, VerifyRequest opts replay now snow r = Some v →
    (Status v = StatusRejected ∧ SigTypes.Signer v = None ∧ ∃ c d w, ResultError v = Some (Error c d w)) ∨
    (Status v = StatusVerified ∧ ResultError v = None ∧ is_Some (SigTypes.Signer v)) ∨
    (Status v = StatusUnsigned ∧ SigTypes.Signer v = None ∧ ResultError v = None).
Proof.
  pose proof (verifier_typed opts replay now snow r) as Ht. cbv zeta in Ht. unfold VerifyRequest.
  destruct Ht as [[Hu [f ->]]|[Hu Ht]].
  { cbn. split; [tauto|done]. }
  destruct ((VerifyRequestSignature opts replay now snow r).1) as [[[signer|] kept]|e]; cbn in Ht.
  - split; [split; [done|by intros ?%Hu]|]. intros v [= <-]. right. left. cbn. eauto.
  - split; [split; [done|by intros ?%Hu]|]. intros v [= <-]. right. by right.
  - rewrite Ht. split; [split; [done|by intros ?%Hu]|]. intros v [= <-]. left. cbn.
    destruct e; [eauto 10|done].
Qed.

(** a rejected request records nothing: whatever is in the memory store
    after a rejection was there before. *)
Theorem rejected_records_nothing `{RT : Runtime, CR : Crypto} opts m now snow r e m' kn x :
  VerifyRequestSignature opts (Some m) now snow r = (Err e, Some m') →
  entries m' !! kn = Some x → entries m !! kn = Some x.
Proof. apply rejected_store. Qed.

(** the lifetime of a nonce's entry, without overflow: 60 seconds past the
    expiry of the signature, counted from the whole second of the verification.
    So the entry of a request that is verified a fraction [f] of a second into
    its second is dropped [Second - f] before the request stops being accepted. *)
Theorem replay_ttl_window expires now :
  (0 ≤ expires)%Z → (0 ≤ Unix now ≤ expires + skewSeconds)%Z → (expires ≤ 2 ^ 32)%Z →
  (replay_ttl expires (Unix now) =
     (if Unix now =? expires + skewSeconds then skewSeconds
      else expires + skewSeconds - Unix now) * Second)%Z ∧
  ((Unix now < expires + skewSeconds)%Z →
    Add now (replay_ttl expires (Unix now)) =
      ((expires + skewSeconds + unixToInternal) * Second + now mod Second)%Z ∧
    ∀ t, (Unix t - skewSeconds ≤ expires)%Z ↔
      (t < (expires + skewSeconds + unixToInternal) * Second + Second)%Z).
Proof.
  intros He Hn Hb. unfold replay_ttl, skewSeconds, Second in *.
  assert (forall z, (- 2 ^ 62 <= z <= 2 ^ 62)%Z -> wrap64 z = z) as Hw.
  { intros z Hz. apply wrap64_id. unfold in_int64, int64_min, int64_max. lia. }
  rewrite (Hw (expires - Unix now)%Z) by lia. rewrite (Hw (expires - Unix now + 60)%Z) by lia.
  rewrite (Hw ((expires - Unix now + 60) * 1000000000)%Z), (Hw (60 * 1000000000)%Z) by lia.
  destruct (Z.eqb_spec (Unix now) (expires + 60)) as [E|E].
  { rewrite E, (proj2 (Z.leb_le _ 0)) by lia. split; [done|lia]. }
  rewrite (proj2 (Z.leb_gt _ 0)) by lia. split; [lia|]. intros _. unfold Add. split.
  - unfold Unix, Second in *. pose proof (Z.div_mod now 1000000000). lia.
  - intros t. unfold Unix, Second.
    pose proof (Z.div_mod t 1000000000). pose proof (Z.mod_pos_bound t 1000000000). lia.
Qed.

Lemma replay_ttl_window_witness :
  replay_ttl 1300 (Unix (unixToInternal * Second + 1000 * Second + 100000000)) = (360 * Second)%Z.
Proof.
  refine (proj1 (replay_ttl_window 1300 (unixToInternal * Second + 1000 * Second + 100000000) _ _ _));
    vm_compute; (discriminate || (split; discriminate)).
Defined.

(** ** Witnesses *)

Section Witnesses.
Import Toy.

Lemma verify_sound_witness :
  ∃ c, tag (c_input c) = Some "adcp/request-signing/v1" ∧ c_nonce c = rand ∧
    ∃ signer kept st', VerifyRequestSignature options (Some store) (sec 1010) (sec 1010)
      signed_req = (Ok (Some signer, kept), st').
Proof.
  destruct (VerifyRequestSignature options (Some store) (sec 1010) (sec 1010)
    signed_req) as [[[[signer|] kept]|] st'] eqn:E; [|vm_compute in E; discriminate E..].
  destruct (verify_sound _ _ _ _ _ _ _ _ E) as (resolve & st & c & _ & Hst & Hc & _).
  exists c. split; [exact (es_tag _ _ _ _ _ _ Hc)|]. split; [|by exists signer, kept, st'].
  destruct (es_nonce _ _ _ _ _ _ Hc) as (no & Hno & Hd & _).
  pose proof (es_input _ _ _ _ _ _ Hc) as Hi. vm_compute in Hi.
  destruct c as [si ki n ex al ag]. cbn in *. injection Hi as Hi. subst si. cbn in Hno.
  injection Hno as <-. vm_compute in Hd. by injection Hd as <-.
Defined.

Lemma replay_rejected_witness :
  ∃ signer kept st', VerifyRequestSignature options (Some store) (sec 1010) (sec 1010)
      signed_req = (Ok (Some signer, kept), Some st') ∧
    ∀ signer2 kept2 st2, VerifyRequestSignature options (Some st') (sec 1340) (sec 1340)
      signed_req ≠ (Ok (Some signer2, kept2), st2).
Proof.
  destruct (VerifyRequestSignature options (Some store) (sec 1010) (sec 1010)
    signed_req) as [[[[signer|] kept]|] [st'|]] eqn:E; try (vm_compute in E; discriminate E).
  exists signer, kept, st'. split; [done|].
  destruct (parseSignatureInput (HeaderGet (ReqHeader signed_req) signatureInputHeader)) as [c|] eqn:Ec;
    [|vm_compute in Ec; discriminate Ec].
  refine (replay_rejected options options store _ _ signed_req signer kept st' _ _
    signed_req c E eq_refl Ec _).
  intros ex Hex. vm_compute in Ec. injection Ec as <-. injection Hex as <-.
  vm_compute. discriminate.
Defined.

Lemma toy_matching :
  matching signer sign_options (sec 1000) rand req options store
    (sec 1010) (sec 1010) (EdPriv "pk") "https://agent.example" 1000 1300
    (generateNonce rand) rand (Some "{}").
Proof.
  split.
  - vm_compute. reflexivity.
  - eexists _, jwk, (EdKey "pk"). split; [reflexivity|]. split; [reflexivity|].
    split; [reflexivity|]. split; [reflexivity|]. intros base.
    change (len (toy_sign "pk" base) = 64 ∧
      bool_decide (toy_sign "pk" base = toy_sign "pk" base) = true).
    split; [|by apply bool_decide_eq_true]. unfold toy_sign. rewrite len_stake, !len_app.
    change (len (xs 64)) with 64. lia.
  - vm_compute. reflexivity.
  - vm_compute. reflexivity.
  - split; vm_compute; reflexivity.
  - vm_compute. reflexivity.
  - split_and!; [reflexivity|intros _; vm_compute; discriminate|vm_compute; discriminate|
      vm_compute; reflexivity|discriminate].
  - split; vm_compute; reflexivity.
  - split; vm_compute; reflexivity.
  - vm_compute. reflexivity.
  - split; try (vm_compute; reflexivity).
    + apply Nat.leb_le. reflexivity.
    + repeat constructor.
    + split; vm_compute; congruence.
    + split; vm_compute; congruence.
    + split; [reflexivity|apply Nat.leb_le; reflexivity].
    + split; [reflexivity|apply Nat.leb_le; reflexivity].
    + vm_compute. congruence.
  - split_and!; vm_compute; reflexivity.
Qed.

Lemma sign_then_verify_witness :
  (VerifyRequestSignature options (Some store) (sec 1010) (sec 1010) signed_req).1 =
    Ok (Some (MkSigner "key-1" "https://agent.example" 1010 "ed25519" "sig1"
      ["@method"; "@target-uri"; "@authority"; "content-type"; "content-digest"]
      "adcp/request-signing/v1"), BodyData "{}" None).
Proof.
  refine (sign_then_verify signer_options signer (EdPriv "pk") sign_options (sec 1000)
    rand req _ options store (sec 1010) (sec 1010) _ _ _ _ _ _
    eq_refl eq_refl _ toy_matching).
  vm_compute. reflexivity.
Defined.

Lemma unsigned_sound_witness :
  VerifyRequestSignature open_options (Some store) (sec 1010) (sec 1010) push_req = (Ok (None, Body push_req), Some store) ∧
  OperationName open_options ∉ RequiredFor open_options ∧
  ∃ v, json_decode push_body = Some v ∧ hasPushNotificationAuth v = true.
Proof.
  assert (VerifyRequestSignature open_options (Some store) (sec 1010) (sec 1010) push_req
    = (Ok (None, Body push_req), Some store)) as H by (vm_compute; reflexivity).
  split; [exact H|]. split; [exact (proj1 (proj2 (proj2 (unsigned_sound _ _ _ _ _ _ _ H))))|].
  destruct (json_decode push_body) as [v|] eqn:E; [|vm_compute in E; discriminate E].
  exists v. split; [done|]. vm_compute in E. injection E as <-. vm_compute. reflexivity.
Defined.

Lemma body_for_handler_witness :
  ∃ signer kept st', VerifyRequestSignature options (Some store) (sec 1010) (sec 1010) signed_req
    = (Ok (Some signer, kept), st') ∧ kept = BodyData "{}" None.
Proof.
  destruct (VerifyRequestSignature options (Some store) (sec 1010) (sec 1010) signed_req)
    as [[[[signer|] kept]|] st'] eqn:E; [|vm_compute in E; discriminate E..].
  exists signer, kept, st'. split; [done|].
  refine (proj1 (body_for_handler options _ _ _ _ signed_req _ kept "{}" E _ _)).
  - vm_compute. reflexivity.
  - vm_compute. reflexivity.
Defined.

Lemma rejected_records_nothing_witness :
  ∃ e m', VerifyRequestSignature options (Some store) (sec 9000) (sec 9000) signed_req = (Err e, Some m') ∧
    ∀ kn x, entries m' !! kn = Some x → entries store !! kn = Some x.
Proof.
  destruct (VerifyRequestSignature options (Some store) (sec 9000) (sec 9000) signed_req)
    as [[|e] [m'|]] eqn:E; try (vm_compute in E; discriminate E).
  exists e, m'. split; [done|]. intros kn x.
  exact (rejected_records_nothing options store _ _ signed_req e m' kn x E).
Defined.

(** The gap of [replay_ttl_window], on a request: signed to expire at 1300,
    accepted at 1010.1, its entry is dropped after 1360.1, and it is accepted
    again at 1360.5. *)
Example replayed_in_the_gap :
  match VerifyRequestSignature options (Some store) (sec 1010 + 100000000) (sec 1010 + 100000000)
          signed_req with
  | (Ok (Some _, _), st) =>
      is_ok (VerifyRequestSignature options st (sec 1360 + 500000000) (sec 1360 + 500000000)
        signed_req).1
  | _ => false
  end = true.
Proof. vm_compute. reflexivity. Qed.

End Witnesses.
