(* ===== verification/Registry.v ===== *)
(** * Registry: the registry indexes and their persistence

    [src/registry]: [property_index.go], [auth_index.go], [agent_index.go],
    [memstore.go] and [persist.go].  The deep copies of [clone.go] make values
    out of pointers, so an entry is a value here.  A write to the persistent
    store may fail before or after it took effect. *)
From stdpp Require Import gmap stringmap.
From S2P Require Import Prelude GoStrings.
From stdpp Require Import options.

(** ** Data *)

Record Property := MkProperty {
  PropertyID : string;
  PropertyRID : string;
  PropertyType : string;
  Domain : string;
  Placements : list string;
}.

Record AuthorizationEntry := MkAuth {
  AuthAgent : string;
  PublisherDomain : string;
  AuthorizationType : string;
  AuthorizedFor : string;
  PropertyIDs : list string;
  PlacementIDs : list string;
  Countries : list string;
  DelegationType : string;
  Exclusive : bool;
}.

(** An agent profile; the indexes look only at its URL, and only the decoder of
    the JSON library makes one. *)
Class Profile := {
  AgentProfile : Type;
  AgentURL : AgentProfile → string;
  UnmarshalAgentProfile : string → option AgentProfile;
}.

Inductive store_error := InvalidDomainError (domain reason : string) | StoreFailure.

(** [ValidatePublisherDomain] of [d]: the loop over the bytes, from [s] on. *)
Fixpoint validate_bytes (d s : string) : result store_error unit :=
  match s with
  | "" => Ok ()
  | String c s' =>
      if beq c "|" then Err (InvalidDomainError d "contains '|'") else
      if (code c <=? 32)%Z || (code c =? 127)%Z
      then Err (InvalidDomainError d "contains control or whitespace byte") else validate_bytes d s'
  end.

Definition ValidatePublisherDomain (d : string) : result store_error unit :=
  if bool_decide (d = "") then Err (InvalidDomainError d "empty") else validate_bytes d d.

(** ** The property index *)

Record PropertyIndex := MkProperties {
  byID : gmap string Property;
  byRID : gmap string Property;
  byDomain : gmap string string;
}.

Definition NewPropertyIndex : PropertyIndex := MkProperties ∅ ∅ ∅.

Definition delete_if (k : string) {A} (m : gmap string A) : gmap string A :=
  if bool_decide (k = "") then m else delete k m.

(** The side indexes without the entries of [p]. *)
Definition unlink (idx : PropertyIndex) (id : string) : PropertyIndex :=
  match byID idx !! id with
  | Some old => MkProperties (byID idx) (delete (PropertyRID old) (byRID idx))
                  (delete_if (Domain old) (byDomain idx))
  | None => idx
  end.

Definition put_property (p : Property) (idx : PropertyIndex) : PropertyIndex :=
  let idx := unlink idx (PropertyID p) in
  MkProperties (<[PropertyID p := p]> (byID idx))
    (if bool_decide (PropertyRID p = "") then byRID idx else <[PropertyRID p := p]> (byRID idx))
    (if bool_decide (Domain p = "") then byDomain idx else <[Domain p := PropertyID p]> (byDomain idx)).

Definition remove_property (id : string) (idx : PropertyIndex) : PropertyIndex :=
  match byID idx !! id with
  | Some old => MkProperties (delete (PropertyID old) (byID idx)) (byRID (unlink idx id)) (byDomain (unlink idx id))
  | None => idx
  end.

Definition LookupByID (idx : PropertyIndex) (id : string) : option Property := byID idx !! id.
Definition LookupByRID (idx : PropertyIndex) (rid : string) : option Property := byRID idx !! rid.
Definition LookupByDomain (idx : PropertyIndex) (d : string) : option string := byDomain idx !! d.
Definition PropertyRIDOf (idx : PropertyIndex) (id : string) : string :=
  match byID idx !! id with Some p => PropertyRID p | None => "" end.
Definition property_count (idx : PropertyIndex) : nat := size (byID idx).

(** ** The authorization index *)

Record AuthIndex := MkAuthIndex {
  primary : gmap string (gmap string (list AuthorizationEntry));
  reverse_index : gmap string (gset string);
}.

Definition NewAuthIndex : AuthIndex := MkAuthIndex ∅ ∅.

(** The entry of the same type is replaced in place, or the new one appended. *)
Fixpoint replace_type (e : AuthorizationEntry) (l : list AuthorizationEntry) : list AuthorizationEntry :=
  match l with
  | [] => [e]
  | x :: l' =>
      if bool_decide (AuthorizationType x = AuthorizationType e) then e :: l' else x :: replace_type e l'
  end.

Definition entries_of (idx : AuthIndex) (a d : string) : list AuthorizationEntry :=
  default [] (primary idx !! a ≫= λ m, m !! d).

Definition add_auth (e : AuthorizationEntry) (idx : AuthIndex) : AuthIndex :=
  let m := default ∅ (primary idx !! AuthAgent e) in
  let l := default [] (m !! PublisherDomain e) in
  MkAuthIndex (<[AuthAgent e := <[PublisherDomain e := replace_type e l]> m]> (primary idx))
    (<[PublisherDomain e := {[AuthAgent e]} ∪ default ∅ (reverse_index idx !! PublisherDomain e)]>
       (reverse_index idx)).

(** A set of agents without [a], and the domain without an empty set. *)
Definition drop_reverse (a d : string) (r : gmap string (gset string)) : gmap string (gset string) :=
  match r !! d with
  | Some agents =>
      let agents := agents ∖ {[a]} in
      if bool_decide (agents = ∅) then delete d r else <[d := agents]> r
  | None => r
  end.

Definition remove_entry (a d : string) (idx : AuthIndex) : AuthIndex :=
  MkAuthIndex
    (match primary idx !! a with
     | Some m => let m := delete d m in
                 if bool_decide (m = ∅) then delete a (primary idx) else <[a := m]> (primary idx)
     | None => primary idx
     end)
    (drop_reverse a d (reverse_index idx)).

Definition remove_auth_agent (a : string) (idx : AuthIndex) : AuthIndex :=
  match primary idx !! a with
  | Some m =>
      MkAuthIndex (delete a (primary idx))
        (foldr (drop_reverse a) (reverse_index idx) (map_to_list m).*1)
  | None => idx
  end.

Definition Check (idx : AuthIndex) (a d : string) : bool :=
  match primary idx !! a with
  | Some m => match m !! d with Some l => negb (bool_decide (l = [])) | None => false end
  | None => false
  end.
Definition GetEntries (idx : AuthIndex) (a d : string) : list AuthorizationEntry := entries_of idx a d.
Definition auth_count (idx : AuthIndex) : nat :=
  sum_list_with (λ m : gmap string (list AuthorizationEntry),
    sum_list_with length (map_to_list m).*2) (map_to_list (primary idx)).*2.
Definition GetAuthorizedAgents (idx : AuthIndex) (d : string) : gset string :=
  default ∅ (reverse_index idx !! d).

(** ** The reference store *)

Section Store.
Context `{PF : Profile}.

Record MemoryStore := MkStore {
  s_cursor : string;
  s_properties : gmap string Property;
  s_agents : gmap string AgentProfile;
  s_auth : gmap string (gmap string AuthorizationEntry);
}.

Definition NewMemoryStore : MemoryStore := MkStore "" ∅ ∅ ∅.

Definition authFieldKey (d t : string) : string := d +:+ "|" +:+ t.

Definition Load (s : MemoryStore) : string := s_cursor s.
Definition Save (c : string) (s : MemoryStore) : MemoryStore :=
  MkStore c (s_properties s) (s_agents s) (s_auth s).

Definition PutProperty (p : Property) (s : MemoryStore) : result store_error MemoryStore :=
  Ok (MkStore (s_cursor s) (<[PropertyID p := p]> (s_properties s)) (s_agents s) (s_auth s)).
Definition RemoveProperty (id : string) (s : MemoryStore) : result store_error MemoryStore :=
  Ok (MkStore (s_cursor s) (delete id (s_properties s)) (s_agents s) (s_auth s)).
Definition ClearProperties (s : MemoryStore) : result store_error MemoryStore :=
  Ok (MkStore (s_cursor s) ∅ (s_agents s) (s_auth s)).
Definition PutAgent (p : AgentProfile) (s : MemoryStore) : result store_error MemoryStore :=
  Ok (MkStore (s_cursor s) (s_properties s) (<[AgentURL p := p]> (s_agents s)) (s_auth s)).
Definition RemoveAgent (u : string) (s : MemoryStore) : result store_error MemoryStore :=
  Ok (MkStore (s_cursor s) (s_properties s) (delete u (s_agents s)) (s_auth s)).
Definition ClearAgents (s : MemoryStore) : result store_error MemoryStore :=
  Ok (MkStore (s_cursor s) (s_properties s) ∅ (s_auth s)).

Definition PutAuth (e : AuthorizationEntry) (s : MemoryStore) : result store_error MemoryStore :=
  _ ← ValidatePublisherDomain (PublisherDomain e);
  let m := default ∅ (s_auth s !! AuthAgent e) in
  let k := authFieldKey (PublisherDomain e) (AuthorizationType e) in
  Ok (MkStore (s_cursor s) (s_properties s) (s_agents s) (<[AuthAgent e := <[k := e]> m]> (s_auth s))).

Definition RemoveAuthEntry (a d : string) (s : MemoryStore) : result store_error MemoryStore :=
  _ ← ValidatePublisherDomain d;
  match s_auth s !! a with
  | None => Ok s
  | Some m =>
      let m := filter (λ kv, HasPrefix kv.1 (d +:+ "|") = false) m in
      Ok (MkStore (s_cursor s) (s_properties s) (s_agents s)
            (if bool_decide (m = ∅) then delete a (s_auth s) else <[a := m]> (s_auth s)))
  end.

Definition RemoveAuthAgent (a : string) (s : MemoryStore) : result store_error MemoryStore :=
  Ok (MkStore (s_cursor s) (s_properties s) (s_agents s) (delete a (s_auth s))).
Definition ClearAuth (s : MemoryStore) : result store_error MemoryStore :=
  Ok (MkStore (s_cursor s) (s_properties s) (s_agents s) ∅).

(** [LoadProperties], [LoadAgents] and [LoadAuth], up to order. *)
Definition LoadProperties (s : MemoryStore) : list Property := (map_to_list (s_properties s)).*2.
Definition LoadAgents (s : MemoryStore) : list AgentProfile := (map_to_list (s_agents s)).*2.
Definition LoadAuth (s : MemoryStore) : list AuthorizationEntry :=
  concat ((λ m : gmap string AuthorizationEntry, (map_to_list m).*2) <$> (map_to_list (s_auth s)).*2).

(** ** The indexes with their store *)

Record registry := MkRegistry {
  properties : PropertyIndex;
  auth : AuthIndex;
  agents : gmap string AgentProfile;
  properties_hydrated : bool;
  auth_hydrated : bool;
  agents_hydrated : bool;
  store : option MemoryStore;
}.

(** Fresh indexes, attached to [s]. *)
Definition WithStore (s : option MemoryStore) : registry :=
  MkRegistry NewPropertyIndex NewAuthIndex ∅ false false false s.

(** What becomes of a call to the store: it succeeds, it fails without effect,
    or it takes effect and its answer is lost. *)
Inductive io := IoOk | IoLost | IoUnacked.

Definition with_store (w : registry) (s : MemoryStore) : registry :=
  MkRegistry (properties w) (auth w) (agents w) (properties_hydrated w) (auth_hydrated w)
    (agents_hydrated w) (Some s).

(** The write-through after the memory was updated; the store validates before
    it touches the wire. *)
Definition persist (i : io) (f : MemoryStore → result store_error MemoryStore) (w : registry) :
    result store_error unit * registry :=
  match store w with
  | None => (Ok (), w)
  | Some s =>
      match f s with
      | Err e => (Err e, w)
      | Ok s' =>
          match i with
          | IoOk => (Ok (), with_store w s')
          | IoLost => (Err StoreFailure, w)
          | IoUnacked => (Err StoreFailure, with_store w s')
          end
      end
  end.

Definition on_properties (f : PropertyIndex → PropertyIndex) (w : registry) : registry :=
  MkRegistry (f (properties w)) (auth w) (agents w) (properties_hydrated w) (auth_hydrated w)
    (agents_hydrated w) (store w).
Definition on_auth (f : AuthIndex → AuthIndex) (w : registry) : registry :=
  MkRegistry (properties w) (f (auth w)) (agents w) (properties_hydrated w) (auth_hydrated w)
    (agents_hydrated w) (store w).
Definition on_agents (f : gmap string AgentProfile → gmap string AgentProfile) (w : registry) : registry :=
  MkRegistry (properties w) (auth w) (f (agents w)) (properties_hydrated w) (auth_hydrated w)
    (agents_hydrated w) (store w).

(** [PropertyIndex.Put], [Remove] and [Clear]. *)
Definition Properties_Put (i : io) (p : Property) (w : registry) :=
  persist i (PutProperty p) (on_properties (put_property p) w).
Definition Properties_Remove (i : io) (id : string) (w : registry) :=
  persist i (RemoveProperty id) (on_properties (remove_property id) w).
Definition Properties_Clear (i : io) (w : registry) :=
  persist i ClearProperties (on_properties (λ _, NewPropertyIndex) w).

(** [AuthIndex.Add], [RemoveEntry], [RemoveAgent] and [Clear]. *)
Definition Auth_Add (i : io) (e : AuthorizationEntry) (w : registry) :=
  persist i (PutAuth e) (on_auth (add_auth e) w).
Definition Auth_RemoveEntry (i : io) (a d : string) (w : registry) :=
  persist i (RemoveAuthEntry a d) (on_auth (remove_entry a d) w).
Definition Auth_RemoveAgent (i : io) (a : string) (w : registry) :=
  persist i (RemoveAuthAgent a) (on_auth (remove_auth_agent a) w).
Definition Auth_Clear (i : io) (w : registry) :=
  persist i ClearAuth (on_auth (λ _, NewAuthIndex) w).

(** [AgentIndex.Put], [Remove] and [Clear]. *)
Definition put_agent (p : AgentProfile) (m : gmap string AgentProfile) := <[AgentURL p := p]> m.
Definition Agents_Put (i : io) (p : AgentProfile) (w : registry) :=
  persist i (PutAgent p) (on_agents (put_agent p) w).
Definition Agents_Remove (i : io) (u : string) (w : registry) :=
  persist i (RemoveAgent u) (on_agents (delete u) w).
Definition Agents_Clear (i : io) (w : registry) :=
  persist i ClearAgents (on_agents (λ _, ∅) w).

(** [Hydrate] of the three indexes, from what the store's [Load] returned:
    records in some order, or [None] for an error. *)
Definition Properties_Hydrate (loaded : option (list Property)) (w : registry) :
    result store_error unit * registry :=
  let go f h := MkRegistry (f (properties w)) (auth w) (agents w) h (auth_hydrated w)
                  (agents_hydrated w) (store w) in
  match store w with
  | None => (Ok (), go id true)
  | Some _ =>
      if properties_hydrated w then (Ok (), w) else
      match loaded with
      | None => (Err StoreFailure, go id false)
      | Some l => (Ok (), go (λ idx, foldl (λ i p, put_property p i) idx l) true)
      end
  end.

Definition Auth_Hydrate (loaded : option (list AuthorizationEntry)) (w : registry) :
    result store_error unit * registry :=
  let go f h := MkRegistry (properties w) (f (auth w)) (agents w) (properties_hydrated w) h
                  (agents_hydrated w) (store w) in
  match store w with
  | None => (Ok (), go id true)
  | Some _ =>
      if auth_hydrated w then (Ok (), w) else
      match loaded with
      | None => (Err StoreFailure, go id false)
      | Some l => (Ok (), go (λ idx, foldl (λ i e, add_auth e i) idx l) true)
      end
  end.

Definition Agents_Hydrate (loaded : option (list AgentProfile)) (w : registry) :
    result store_error unit * registry :=
  let go f h := MkRegistry (properties w) (auth w) (f (agents w)) (properties_hydrated w)
                  (auth_hydrated w) h (store w) in
  match store w with
  | None => (Ok (), go id true)
  | Some _ =>
      if agents_hydrated w then (Ok (), w) else
      match loaded with
      | None => (Err StoreFailure, go id false)
      | Some l => (Ok (), go (λ m, foldl (λ i p, put_agent p i) m l) true)
      end
  end.

End Store.

(** ** The authorization index: lemmas *)

Lemma entries_add e idx a d :
  entries_of (add_auth e idx) a d =
    if bool_decide (AuthAgent e = a ∧ PublisherDomain e = d)
    then replace_type e (entries_of idx a d) else entries_of idx a d.
Proof.
  unfold entries_of, add_auth. cbn [primary]. case_bool_decide as H.
  - destruct H as [<- <-]. rewrite lookup_insert_eq. cbn. rewrite lookup_insert_eq. cbn.
    by destruct (primary idx !! AuthAgent e).
  - destruct (decide (AuthAgent e = a)) as [<-|Ha].
    + rewrite lookup_insert_eq. cbn. rewrite lookup_insert_ne by naive_solver.
      by destruct (primary idx !! AuthAgent e).
    + by rewrite lookup_insert_ne.
Qed.

Lemma entries_remove a d idx a' d' :
  entries_of (remove_entry a d idx) a' d' =
    if bool_decide (a = a' ∧ d = d') then [] else entries_of idx a' d'.
Proof.
  unfold entries_of, remove_entry. cbn [primary]. destruct (primary idx !! a) as [m|] eqn:Em.
  - case_bool_decide as He.
    + case_bool_decide as H; [destruct H as [<- <-]; by rewrite lookup_delete_eq|].
      destruct (decide (a = a')) as [<-|Ha].
      * rewrite lookup_delete_eq, Em. cbn. assert (d ≠ d') as Hd by naive_solver.
        rewrite <- (lookup_delete_ne m d d') by done. by rewrite He.
      * by rewrite lookup_delete_ne.
    + case_bool_decide as H.
      * destruct H as [<- <-]. rewrite lookup_insert_eq. cbn. by rewrite lookup_delete_eq.
      * destruct (decide (a = a')) as [<-|Ha].
        -- rewrite lookup_insert_eq, Em. cbn. rewrite lookup_delete_ne; [done|naive_solver].
        -- by rewrite lookup_insert_ne.
  - case_bool_decide as H; [|done]. destruct H as [<- <-]. by rewrite Em.
Qed.

Lemma entries_remove_agent a idx a' d' :
  entries_of (remove_auth_agent a idx) a' d' = if bool_decide (a = a') then [] else entries_of idx a' d'.
Proof.
  unfold entries_of, remove_auth_agent. destruct (primary idx !! a) as [m|] eqn:Em; cbn [primary].
  - case_bool_decide; [subst; by rewrite lookup_delete_eq|by rewrite lookup_delete_ne].
  - case_bool_decide; [subst; by rewrite Em|done].
Qed.

Lemma drop_reverse_lookup a d r d' :
  default ∅ (drop_reverse a d r !! d') =
    if bool_decide (d = d') then default ∅ (r !! d') ∖ {[a]} else default ∅ (r !! d').
Proof.
  unfold drop_reverse. destruct (r !! d) as [s|] eqn:E.
  - case_bool_decide as He; case_bool_decide as Hd.
    + subst d'. rewrite lookup_delete_eq, E. cbn. by rewrite He.
    + by rewrite lookup_delete_ne.
    + subst d'. by rewrite lookup_insert_eq, E.
    + by rewrite lookup_insert_ne.
  - case_bool_decide; [|done]. subst d'. rewrite E. cbn. set_solver.
Qed.

Lemma drop_reverse_all a ds r d' :
  default ∅ (foldr (drop_reverse a) r ds !! d') =
    if bool_decide (d' ∈ ds) then default ∅ (r !! d') ∖ {[a]} else default ∅ (r !! d').
Proof.
  induction ds as [|d ds IH]; cbn; [by destruct (bool_decide_reflect (d' ∈ ([] : list string))) as [?%elem_of_nil|]|].
  rewrite drop_reverse_lookup, IH.
  destruct (decide (d = d')) as [->|Hd].
  - rewrite (bool_decide_true (d' = d')), (bool_decide_true (d' ∈ d' :: ds)) by set_solver.
    case_bool_decide; [|done]. apply set_eq. clear. set_solver.
  - rewrite (bool_decide_false (d = d')) by done.
    repeat case_bool_decide; try done; exfalso; set_solver.
Qed.

(** An agent is listed for a domain exactly when it has entries there, entries
    are those of their agent and domain, one of each type. *)
Record auth_wf (idx : AuthIndex) : Prop := {
  aw_reverse : ∀ a d, a ∈ GetAuthorizedAgents idx d ↔ entries_of idx a d ≠ [];
  aw_own : ∀ a d, Forall (λ e, AuthAgent e = a ∧ PublisherDomain e = d) (entries_of idx a d);
  aw_types : ∀ a d, NoDup (AuthorizationType <$> entries_of idx a d);
}.

Lemma replace_type_in e l x : x ∈ replace_type e l → x = e ∨ x ∈ l.
Proof.
  induction l as [|y l IH]; cbn; [set_solver|]. case_bool_decide; set_solver.
Qed.

Lemma replace_type_types e l :
  NoDup (AuthorizationType <$> l) → NoDup (AuthorizationType <$> replace_type e l).
Proof.
  induction l as [|y l IH]; cbn; [intros _; apply NoDup_singleton|].
  intros [Hy Hl]%NoDup_cons. case_bool_decide as E; cbn; [rewrite <- E; by constructor|].
  constructor; [|by apply IH]. intros (x & Hx & Hin)%list_elem_of_fmap.
  apply replace_type_in in Hin as [->|Hin]; [congruence|]. apply Hy.
  rewrite Hx. by apply list_elem_of_fmap_2.
Qed.

Lemma replace_type_nonempty e l : replace_type e l ≠ [].
Proof. destruct l; cbn; [done|]. by case_bool_decide. Qed.

Lemma NewAuthIndex_wf : auth_wf NewAuthIndex.
Proof.
  split; intros; unfold entries_of, GetAuthorizedAgents; cbn; rewrite !lookup_empty; cbn.
  - set_solver.
  - constructor.
  - constructor.
Qed.

Lemma add_auth_wf e idx : auth_wf idx → auth_wf (add_auth e idx).
Proof.
  intros [Hr Ho Ht]. split; intros a d; rewrite ?entries_add.
  - unfold GetAuthorizedAgents, add_auth. cbn [reverse_index].
    destruct (decide (PublisherDomain e = d)) as [<-|Hd].
    + rewrite lookup_insert_eq. cbn. specialize (Hr a (PublisherDomain e)).
      unfold GetAuthorizedAgents in Hr. case_bool_decide as H.
      * destruct H as [<- _]. split; [intros _; apply replace_type_nonempty|set_solver].
      * set_solver.
    + rewrite lookup_insert_ne by done. rewrite bool_decide_false by naive_solver. apply Hr.
  - case_bool_decide as H; [|apply Ho]. apply Forall_forall. intros x Hx.
    apply replace_type_in in Hx as [->|Hx]; [done|]. specialize (Ho a d).
    rewrite Forall_forall in Ho. by apply Ho.
  - case_bool_decide; [|apply Ht]. by apply replace_type_types.
Qed.

Lemma remove_entry_wf a0 d0 idx : auth_wf idx → auth_wf (remove_entry a0 d0 idx).
Proof.
  intros [Hr Ho Ht]. split; intros a d; rewrite ?entries_remove.
  - unfold GetAuthorizedAgents, remove_entry. cbn [reverse_index]. rewrite drop_reverse_lookup.
    specialize (Hr a d). unfold GetAuthorizedAgents in Hr.
    destruct (decide (d0 = d)) as [<-|Hd].
    + rewrite bool_decide_true by done. case_bool_decide as H; [destruct H; set_solver|].
      assert (a ≠ a0) by naive_solver. set_solver.
    + rewrite !bool_decide_false by naive_solver. done.
  - case_bool_decide; [constructor|apply Ho].
  - case_bool_decide; [constructor|apply Ht].
Qed.

Lemma remove_auth_agent_wf a0 idx : auth_wf idx → auth_wf (remove_auth_agent a0 idx).
Proof.
  intros [Hr Ho Ht]. split; intros a d; rewrite ?entries_remove_agent.
  - specialize (Hr a d). unfold GetAuthorizedAgents, remove_auth_agent in *.
    destruct (primary idx !! a0) as [m|] eqn:Em; cbn [reverse_index].
    + rewrite drop_reverse_all. destruct (decide (a0 = a)) as [<-|Ha].
      * rewrite (bool_decide_true (a0 = a0)) by done. case_bool_decide as Hd; [set_solver|].
        rewrite Hr. split; [|done]. intros Hne. exfalso. apply Hne. unfold entries_of. rewrite Em. cbn.
        destruct (m !! d) as [l|] eqn:El; [|done]. exfalso. apply Hd.
        apply list_elem_of_fmap. exists (d, l). split; [done|]. by apply elem_of_map_to_list.
      * rewrite (bool_decide_false (a0 = a)) by done. case_bool_decide; set_solver.
    + case_bool_decide as Ha; [|done]. subst a0. rewrite Hr. unfold entries_of. by rewrite Em.
  - case_bool_decide; [constructor|apply Ho].
  - case_bool_decide; [constructor|apply Ht].
Qed.

Lemma Check_entries idx a d : Check idx a d = true ↔ entries_of idx a d ≠ [].
Proof.
  unfold Check, entries_of. destruct (primary idx !! a) as [m|]; cbn; [|naive_solver].
  destruct (m !! d) as [l|]; cbn; [|naive_solver]. rewrite negb_true_iff, bool_decide_eq_false. done.
Qed.

(** ** The property index: lemmas *)

(** The side indexes point only at current records. *)
Record property_wf (idx : PropertyIndex) : Prop := {
  pw_id : ∀ id p, byID idx !! id = Some p → PropertyID p = id;
  pw_rid : ∀ rid p, byRID idx !! rid = Some p → byID idx !! PropertyID p = Some p ∧ PropertyRID p = rid;
  pw_domain : ∀ d id, byDomain idx !! d = Some id → ∃ p, byID idx !! id = Some p ∧ Domain p = d;
}.

Lemma NewPropertyIndex_wf : property_wf NewPropertyIndex.
Proof. split; intros ? ?; cbn; by rewrite lookup_empty. Qed.

Lemma unlink_byID idx id : byID (unlink idx id) = byID idx.
Proof. unfold unlink. by destruct (byID idx !! id). Qed.

Lemma delete_if_Some k {A} (m : gmap string A) k' v :
  delete_if k m !! k' = Some v → m !! k' = Some v ∧ (k = k' → k = "").
Proof.
  unfold delete_if. case_bool_decide; [done|]. intros [? ?]%lookup_delete_Some. naive_solver.
Qed.

(** Nothing points at an unlinked record. *)
Lemma unlink_wf idx id :
  property_wf idx → (∀ d i, byDomain idx !! d = Some i → d ≠ "") →
  property_wf (unlink idx id) ∧
  (∀ rid p, byRID (unlink idx id) !! rid = Some p → PropertyID p ≠ id) ∧
  (∀ d i, byDomain (unlink idx id) !! d = Some i → i ≠ id ∧ byDomain idx !! d = Some i).
Proof.
  intros [Hi Hr Hd] Hne. unfold unlink. destruct (byID idx !! id) as [old|] eqn:E.
  - split; [split; cbn|split; cbn].
    + done.
    + intros rid p [_ Hp]%lookup_delete_Some. by apply Hr.
    + intros d i [Hp _]%delete_if_Some. by apply Hd.
    + intros rid p [Hrid Hp]%lookup_delete_Some Hid. apply Hr in Hp as [Hp Hq]. rewrite Hid, E in Hp.
      congruence.
    + intros d i [Hp Hdd]%delete_if_Some. split; [|done]. intros ->.
      destruct (Hd _ _ Hp) as (p & Hp1 & Hp2). rewrite E in Hp1. injection Hp1 as ->.
      apply (Hne d id Hp). rewrite <- Hp2. by apply Hdd.
  - split; [by split|split].
    + intros rid p Hp Hid. apply Hr in Hp as [Hp _]. congruence.
    + intros d i Hp. split; [|done]. intros ->. destruct (Hd _ _ Hp) as (p & Hp1 & _). congruence.
Qed.

Definition domain_keys (idx : PropertyIndex) : Prop := ∀ d i, byDomain idx !! d = Some i → d ≠ "".

Lemma put_property_wf p idx :
  property_wf idx → domain_keys idx → property_wf (put_property p idx) ∧ domain_keys (put_property p idx).
Proof.
  intros Hw Hne. destruct (unlink_wf idx (PropertyID p) Hw Hne) as ([Hi Hr Hd] & Hu1 & Hu2).
  unfold put_property. split; [split; cbn|].
  - intros id q [[<- <-]|[_ Hq]]%lookup_insert_Some; [done|by apply Hi].
  - assert (∀ rid q, byRID (unlink idx (PropertyID p)) !! rid = Some q →
      <[PropertyID p:=p]> (byID (unlink idx (PropertyID p))) !! PropertyID q = Some q ∧ PropertyRID q = rid) as Hold.
    { intros rid q Hq. rewrite lookup_insert_ne by (by apply not_eq_sym, (Hu1 rid)). by apply Hr. }
    case_bool_decide; [done|]. intros rid q [[<- <-]|[_ Hq]]%lookup_insert_Some; [|by apply Hold].
    by rewrite lookup_insert_eq.
  - assert (∀ d i, byDomain (unlink idx (PropertyID p)) !! d = Some i →
      ∃ q, <[PropertyID p:=p]> (byID (unlink idx (PropertyID p))) !! i = Some q ∧ Domain q = d) as Hold.
    { intros d i Hq. destruct (Hu2 _ _ Hq) as [Hni _]. rewrite lookup_insert_ne by congruence. by apply Hd. }
    case_bool_decide; [done|]. intros d i [[<- <-]|[_ Hq]]%lookup_insert_Some; [|by apply Hold].
    exists p. by rewrite lookup_insert_eq.
  - intros d i Hdi. cbn in Hdi. case_bool_decide as E.
    + apply Hu2 in Hdi as [_ Hdi]. by apply (Hne d i).
    + apply lookup_insert_Some in Hdi as [[<- _]|[_ Hdi]]; [done|].
      apply Hu2 in Hdi as [_ Hdi]. by apply (Hne d i).
Qed.

Lemma remove_property_byID id idx :
  property_wf idx → byID (remove_property id idx) = delete id (byID idx).
Proof.
  intros Hw. unfold remove_property. destruct (byID idx !! id) as [old|] eqn:E; cbn.
  - by rewrite (pw_id idx Hw id old E).
  - by rewrite delete_id.
Qed.

Lemma remove_property_wf id idx :
  property_wf idx → domain_keys idx →
  property_wf (remove_property id idx) ∧ domain_keys (remove_property id idx).
Proof.
  intros Hw Hne. pose proof (remove_property_byID id idx Hw) as Hb. revert Hb. unfold remove_property.
  destruct (byID idx !! id) as [old|] eqn:E; [|done]. cbn. intros Hb.
  destruct (unlink_wf idx id Hw Hne) as ([Hi Hr Hd] & Hu1 & Hu2). split; [split; cbn; rewrite Hb|].
  - intros i q [_ Hq]%lookup_delete_Some. by apply (pw_id idx).
  - intros rid q Hq. rewrite lookup_delete_ne by (by apply not_eq_sym, (Hu1 rid)).
    rewrite <- (unlink_byID idx id). by apply Hr.
  - intros d i Hq. destruct (Hu2 _ _ Hq) as [Hni _]. rewrite lookup_delete_ne by congruence.
    rewrite <- (unlink_byID idx id). by apply Hd.
  - intros d i Hdi. apply Hu2 in Hdi as [_ Hdi]. by apply (Hne d i).
Qed.

Lemma put_property_byID p idx : byID (put_property p idx) = <[PropertyID p := p]> (byID idx).
Proof. unfold put_property. cbn. by rewrite unlink_byID. Qed.

(** Every record with a registry id is found by it. *)
Definition rid_complete (idx : PropertyIndex) : Prop :=
  ∀ id p, byID idx !! id = Some p → PropertyRID p ≠ "" → byRID idx !! PropertyRID p = Some p.

Lemma unlink_complete idx id i p :
  rid_complete idx →
  (∀ old, byID idx !! id = Some old → PropertyRID old = PropertyRID p → i = id) →
  i ≠ id → byID idx !! i = Some p → PropertyRID p ≠ "" →
  byRID (unlink idx id) !! PropertyRID p = Some p.
Proof.
  intros Hc Hu Hi Hp Hr. unfold unlink. destruct (byID idx !! id) as [old|] eqn:E; [|by eapply Hc].
  cbn. rewrite lookup_delete_ne; [by eapply Hc|]. intros Heq. apply Hi. by eapply Hu.
Qed.

(** Histories of a property index, and the records they leave. *)
Inductive property_change := CPut (p : Property) | CRemove (id : string) | CClear.

Definition change_property (idx : PropertyIndex) (c : property_change) : PropertyIndex :=
  match c with
  | CPut p => put_property p idx
  | CRemove id => remove_property id idx
  | CClear => NewPropertyIndex
  end.
Definition property_index_after (l : list property_change) : PropertyIndex :=
  foldl change_property NewPropertyIndex l.

Definition records_after (l : list property_change) : gmap string Property :=
  foldl (λ m c, match c with
                | CPut p => <[PropertyID p := p]> m
                | CRemove id => delete id m
                | CClear => ∅
                end) ∅ l.

Definition unique_rids (l : list property_change) : Prop :=
  ∀ p q, CPut p ∈ l → CPut q ∈ l → PropertyRID p = PropertyRID q → PropertyRID p ≠ "" →
    PropertyID p = PropertyID q.

Lemma records_after_put l id p : records_after l !! id = Some p → CPut p ∈ l ∧ PropertyID p = id.
Proof.
  unfold records_after. induction l as [|c l IH] using rev_ind; cbn; [by rewrite lookup_empty|].
  rewrite foldl_snoc. intros H. assert (∀ q i, (foldl (λ m c, match c with
                | CPut p => <[PropertyID p := p]> m
                | CRemove id => delete id m
                | CClear => ∅
                end) ∅ l : gmap string Property) !! i = Some q → q = p → i = id →
     CPut p ∈ l ++ [c] ∧ PropertyID p = id) as Hold.
  { intros q i Hq -> ->. destruct (IH Hq). split; [set_solver|done]. }
  destruct c as [q|i|]; cbn in H.
  - apply lookup_insert_Some in H as [[<- <-]|[_ H]]; [split; [set_solver|done]|by eapply Hold].
  - apply lookup_delete_Some in H as [_ H]. by eapply Hold.
  - by rewrite lookup_empty in H.
Qed.

Lemma property_index_after_wf l :
  property_wf (property_index_after l) ∧ domain_keys (property_index_after l) ∧
  byID (property_index_after l) = records_after l.
Proof.
  unfold property_index_after, records_after.
  induction l as [|c l (Hw & Hd & Hb)] using rev_ind; cbn.
  - split; [apply NewPropertyIndex_wf|]. split; [|done]. intros d i. cbn. by rewrite lookup_empty.
  - rewrite !foldl_snoc. destruct c as [p|id|]; cbn [change_property].
    + destruct (put_property_wf p _ Hw Hd). by rewrite put_property_byID, Hb.
    + destruct (remove_property_wf id _ Hw Hd). by rewrite remove_property_byID, Hb.
    + split; [apply NewPropertyIndex_wf|]. split; [|done]. intros d i. cbn. by rewrite lookup_empty.
Qed.

Lemma property_index_after_complete l : unique_rids l → rid_complete (property_index_after l).
Proof.
  induction l as [|c l IH] using rev_ind; intros Hu; [intros id p; cbn; by rewrite lookup_empty|].
  assert (rid_complete (property_index_after l)) as Hc.
  { apply IH. intros p q Hp Hq. apply Hu; set_solver. }
  destruct (property_index_after_wf l) as (Hw & _ & Hb).
  assert (∀ id p, byID (property_index_after l) !! id = Some p → CPut p ∈ l ++ [c] ∧ PropertyID p = id) as Hin.
  { intros id p Hp. rewrite Hb in Hp. apply records_after_put in Hp as [? ?]. split; [set_solver|done]. }
  unfold property_index_after in *. rewrite foldl_snoc.
  set (idx := foldl change_property NewPropertyIndex l) in *.
  assert (∀ id p i, i ≠ id → byID idx !! i = Some p → PropertyRID p ≠ "" →
    byRID (unlink idx id) !! PropertyRID p = Some p) as Hun.
  { intros id p i Hne Hp Hr. apply (unlink_complete idx id i p); try done.
    intros old Ho Heq. destruct (Hin _ _ Ho) as [Ho1 Ho2], (Hin _ _ Hp) as [Hp1 Hp2].
    rewrite <- Ho2, <- Hp2. symmetry. apply Hu; try done. by rewrite Heq. }
  destruct c as [q|id|]; cbn [change_property]; intros i p.
  - rewrite put_property_byID. unfold put_property. cbn.
    intros [[<- <-]|[Hne Hp]]%lookup_insert_Some Hr.
    + rewrite bool_decide_false by done. by rewrite lookup_insert_eq.
    + specialize (Hun _ _ _ (not_eq_sym Hne) Hp Hr). case_bool_decide; [done|].
      rewrite lookup_insert_ne; [done|]. intros Heq. apply Hne. destruct (Hin _ _ Hp) as [Hip <-].
      apply Hu; [set_solver|done|done|congruence].
  - rewrite (remove_property_byID id idx Hw). unfold remove_property.
    intros [Hne Hp]%lookup_delete_Some Hr. destruct (byID idx !! id) as [old|] eqn:E; [|by eapply Hc].
    cbn. eapply Hun; eauto.
  - cbn. by rewrite lookup_empty.
Qed.

(** Histories of an authorization index, and the grant they leave for an agent,
    a domain and a type. *)
Inductive auth_change :=
  CAdd (e : AuthorizationEntry) | CRemoveEntry (a d : string) | CRemoveAgent (a : string) | CClearAuth.

Definition change_auth (idx : AuthIndex) (c : auth_change) : AuthIndex :=
  match c with
  | CAdd e => add_auth e idx
  | CRemoveEntry a d => remove_entry a d idx
  | CRemoveAgent a => remove_auth_agent a idx
  | CClearAuth => NewAuthIndex
  end.
Definition auth_index_after (l : list auth_change) : AuthIndex := foldl change_auth NewAuthIndex l.

Definition grant_after (a d t : string) (l : list auth_change) : option AuthorizationEntry :=
  foldl (λ g c, match c with
    | CAdd e => if bool_decide (AuthAgent e = a ∧ PublisherDomain e = d ∧ AuthorizationType e = t) then Some e else g
    | CRemoveEntry a' d' => if bool_decide (a' = a ∧ d' = d) then None else g
    | CRemoveAgent a' => if bool_decide (a' = a) then None else g
    | CClearAuth => None
    end) None l.

Definition find_type (t : string) (l : list AuthorizationEntry) : option AuthorizationEntry :=
  List.find (λ e, bool_decide (AuthorizationType e = t)) l.

Lemma find_type_replace t e l :
  find_type t (replace_type e l) = if bool_decide (AuthorizationType e = t) then Some e else find_type t l.
Proof.
  unfold find_type. induction l as [|x l IH]; cbn.
  - by case_bool_decide.
  - destruct (decide (AuthorizationType x = AuthorizationType e)) as [E|E].
    + rewrite (bool_decide_true _ E). cbn. rewrite E. by case_bool_decide.
    + rewrite (bool_decide_false _ E). cbn. rewrite IH. repeat case_bool_decide; congruence.
Qed.

Lemma find_type_in e l :
  NoDup (AuthorizationType <$> l) → e ∈ l ↔ find_type (AuthorizationType e) l = Some e.
Proof.
  unfold find_type. induction l as [|x l IH]; cbn; [set_solver|].
  intros [Hx Hl]%NoDup_cons. specialize (IH Hl). case_bool_decide as E.
  - split; [|intros [= ->]; set_solver]. intros [->|He]%elem_of_cons; [done|].
    exfalso. apply Hx. rewrite E. by apply list_elem_of_fmap_2.
  - rewrite <- IH. rewrite elem_of_cons. naive_solver.
Qed.

Lemma auth_index_after_wf l :
  auth_wf (auth_index_after l) ∧
  ∀ a d t, find_type t (entries_of (auth_index_after l) a d) = grant_after a d t l.
Proof.
  unfold auth_index_after, grant_after.
  induction l as [|c l [Hw Hf]] using rev_ind; cbn.
  - split; [apply NewAuthIndex_wf|]. intros. unfold entries_of. cbn. by rewrite lookup_empty.
  - rewrite foldl_snoc. setoid_rewrite foldl_snoc. destruct c as [e|a d|a|]; cbn [change_auth].
    + split; [by apply add_auth_wf|]. intros a d t. rewrite entries_add, <- Hf. case_bool_decide as E.
      * rewrite find_type_replace. destruct E. repeat case_bool_decide; naive_solver.
      * rewrite bool_decide_false by naive_solver. done.
    + split; [by apply remove_entry_wf|]. intros a' d' t. rewrite entries_remove, <- Hf.
      by case_bool_decide.
    + split; [by apply remove_auth_agent_wf|]. intros a' d' t. rewrite entries_remove_agent, <- Hf.
      by case_bool_decide.
    + split; [apply NewAuthIndex_wf|]. intros. unfold entries_of. cbn. by rewrite lookup_empty.
Qed.

(** ** Properties *)

(** After any history of a property index the identifier finds the record put
    last, a hit by registry id or by domain is a current record with that id or
    domain, and where registry ids are unique every current record is found by
    its registry id. *)
Theorem property_index_correct l :
  (∀ id, LookupByID (property_index_after l) id = records_after l !! id) ∧
  (∀ rid p, LookupByRID (property_index_after l) rid = Some p →
     records_after l !! PropertyID p = Some p ∧ PropertyRID p = rid) ∧
  (∀ d id, LookupByDomain (property_index_after l) d = Some id →
     ∃ p, records_after l !! id = Some p ∧ Domain p = d) ∧
  (unique_rids l → ∀ id p, records_after l !! id = Some p → PropertyRID p ≠ "" →
     LookupByRID (property_index_after l) (PropertyRID p) = Some p).
Proof.
  destruct (property_index_after_wf l) as ([Hi Hr Hd] & _ & Hb). rewrite <- Hb. split; [done|].
  split; [done|]. split; [done|]. intros Hu. apply (property_index_after_complete l Hu).
Qed.

(** C38: After any history of an authorization index, the entries of an agent and a
    domain are the grants added last and not removed since, one of each type;
    [Check] and the reverse index agree with them. *)
Theorem auth_index_correct l a d :
  (∀ e, e ∈ GetEntries (auth_index_after l) a d ↔ grant_after a d (AuthorizationType e) l = Some e) ∧
  NoDup (AuthorizationType <$> GetEntries (auth_index_after l) a d) ∧
  (Check (auth_index_after l) a d = true ↔ ∃ t e, grant_after a d t l = Some e) ∧
  (a ∈ GetAuthorizedAgents (auth_index_after l) d ↔ Check (auth_index_after l) a d = true).
Proof.
  destruct (auth_index_after_wf l) as [[Hr Ho Ht] Hf]. setoid_rewrite <- Hf.
  assert (∀ e, e ∈ GetEntries (auth_index_after l) a d ↔
    find_type (AuthorizationType e) (entries_of (auth_index_after l) a d) = Some e) as Hin.
  { intros e. apply find_type_in, Ht. }
  split; [done|]. split; [apply Ht|]. rewrite Hr, Check_entries. split; [|done]. split.
  - destruct (entries_of (auth_index_after l) a d) as [|e k] eqn:E; [done|]. intros _.
    exists (AuthorizationType e), e. apply Hin. unfold GetEntries. rewrite E. set_solver.
  - intros (t & e & He) Hn. by rewrite Hn in He.
Qed.

(** Removing one of two properties that share a domain leaves the domain
    unresolvable although the other property is still indexed under it. *)
Theorem remove_drops_shared_domain idx p q :
  PropertyID p ≠ PropertyID q → Domain p = Domain q → Domain p ≠ "" →
  let idx' := remove_property (PropertyID p) (put_property q (put_property p idx)) in
  LookupByDomain idx' (Domain q) = None ∧ LookupByID idx' (PropertyID q) = Some q.
Proof.
  intros Hne Hd Hd0. unfold remove_property.
  set (i2 := put_property q (put_property p idx)).
  assert (byID i2 = <[PropertyID q := q]> (<[PropertyID p := p]> (byID idx))) as Hb
    by (unfold i2; by rewrite !put_property_byID).
  assert (byID i2 !! PropertyID p = Some p) as Hp.
  { rewrite Hb, lookup_insert_ne by congruence. apply lookup_insert_eq. }
  unfold LookupByDomain, LookupByID. rewrite Hp. cbn [byDomain byID].
  unfold unlink. rewrite Hp. cbn [byDomain byID]. split.
  - unfold delete_if. rewrite bool_decide_false by done. rewrite Hd. apply lookup_delete_eq.
  - rewrite lookup_delete_ne by done. rewrite Hb. apply lookup_insert_eq.
Qed.

Definition shared_a : Property := MkProperty "a" "rid-a" "website" "pub.example" [].
Definition shared_b : Property := MkProperty "b" "rid-b" "website" "pub.example" [].

Lemma remove_drops_shared_domain_witness :
  LookupByDomain (remove_property "a" (put_property shared_b (put_property shared_a NewPropertyIndex)))
    "pub.example" = None.
Proof. apply (remove_drops_shared_domain NewPropertyIndex shared_a shared_b); cbn; congruence. Defined.

Lemma property_index_correct_witness :
  LookupByRID (property_index_after [CPut shared_a; CPut shared_b]) "rid-a" = Some shared_a.
Proof.
  destruct (property_index_correct [CPut shared_a; CPut shared_b]) as (_ & _ & _ & H).
  apply (H ltac:(intros p q Hp Hq; set_unfold in Hp; set_unfold in Hq; naive_solver) "a" shared_a); [|done].
  vm_compute. reflexivity.
Defined.
