(* ===== verification/Syncer.v ===== *)
(** * Syncer: the registry feed loop

    [src/registry/syncer.go]: decoding and applying feed events, and the polling
    loop with its cursor, its backoff and the retries.  The feed server and the
    cursor store answer each call as an input of the model says. *)
From stdpp Require Import gmap stringmap.
From S2P Require Import Prelude GoStrings Unicode Json StrictJson JsonTypes Registry.
From stdpp Require Import options.

(** ** Decoding a payload

    [json.Unmarshal] into a struct of strings, booleans and string slices: a
    member goes to the field of its name, else to the field of that name up to
    case; [null] leaves a string or a boolean alone and makes a slice nil; a value of
    another type is an error, reported after the rest was decoded.  An array is
    decoded over the elements the slice's memory holds, where a [null] element
    keeps the old one. *)

Inductive field := FString (s : string) | FBool (b : bool) | FStrings (memory : list string) (n : nat).

Fixpoint decode_elements (l : list json) (memory : list string) : list string * bool :=
  match l with
  | [] => (memory, true)
  | v :: l' =>
      let '(rest, ok) := decode_elements l' (tail memory) in
      match v with
      | JStr s => (s :: rest, ok)
      | JNull => (default "" (head memory) :: rest, ok)
      | _ => (default "" (head memory) :: rest, false)
      end
  end.

Definition decode_field (v : json) (f : field) : field * bool :=
  match v, f with
  | JNull, FStrings _ _ => (FStrings [] 0, true)
  | JNull, _ => (f, true)
  | JStr s, FString _ => (FString s, true)
  | JBool b, FBool _ => (FBool b, true)
  | JArr [], FStrings _ _ => (FStrings [] 0, true)
  | JArr l, FStrings memory _ =>
      let '(memory, ok) := decode_elements l memory in (FStrings memory (length l), ok)
  | _, _ => (f, false)
  end.

Section Decode.
Context `{RT : Runtime}.

Definition decode_member (names : list string) (kv : string * json) (st : list field * bool) :
    list field * bool :=
  let '(fs, ok) := st in
  match find_field kv.1 names with
  | None => st
  | Some i =>
      match fs !! i with
      | None => st
      | Some f => let '(f, ok') := decode_field kv.2 f in (<[i := f]> fs, ok && ok')
      end
  end.

Definition unmarshal_struct (names : list string) (zero : list field) (data : string) : option (list field) :=
  match json_decode data with
  | Some JNull => Some zero
  | Some (JObj l) =>
      let '(fs, ok) := foldl (λ st kv, decode_member names kv st) (zero, true) l in
      if ok then Some fs else None
  | _ => None
  end.

Definition no_strings : field := FStrings [] 0.

Definition UnmarshalProperty (data : string) : option Property :=
  match unmarshal_struct ["property_id"; "property_rid"; "property_type"; "domain"; "placements"]
          [FString ""; FString ""; FString ""; FString ""; no_strings] data with
  | Some [FString id; FString rid; FString ty; FString d; FStrings m n] =>
      Some (MkProperty id rid ty d (take n m))
  | _ => None
  end.

Definition UnmarshalAuth (data : string) : option AuthorizationEntry :=
  match unmarshal_struct
          ["agent_url"; "publisher_domain"; "authorization_type"; "authorized_for"; "property_ids";
           "placement_ids"; "countries"; "delegation_type"; "exclusive"]
          [FString ""; FString ""; FString ""; FString ""; no_strings; no_strings; no_strings;
           FString ""; FBool false] data with
  | Some [FString a; FString d; FString t; FString f; FStrings m1 n1; FStrings m2 n2; FStrings m3 n3;
          FString del; FBool ex] =>
      Some (MkAuth a d t f (take n1 m1) (take n2 m2) (take n3 m3) del ex)
  | _ => None
  end.

Definition UnmarshalRevoke (data : string) : option (string * string) :=
  match unmarshal_struct ["agent_url"; "publisher_domain"] [FString ""; FString ""] data with
  | Some [FString a; FString d] => Some (a, d)
  | _ => None
  end.

End Decode.

(** ** Events *)

Record FeedEvent := MkEvent {
  EventID : string;
  EventType : string;
  EntityType : string;
  EntityID : string;
  Payload : string;
  Actor : string;
  CreatedAt : Time;
}.

Record FeedResponse := MkFeed {
  Events : list FeedEvent;
  Cursor : option string;
  HasMore : bool;
}.

(** What [FetchFeed] returns: a page, the error of an expired cursor, or another
    error. *)
Inductive fetch := Fetched (r : FeedResponse) | CursorExpired | FetchFailed.

Record SyncerConfig := MkConfig {
  PollInterval : Duration;
  MaxBackoff : Duration;
  FeedLimit : Z;
  BootstrapLimit : Z;
}.

Definition or_default (n d : Z) : Z := if (n =? 0)%Z then d else n.

(** [SyncerConfig.defaults]. *)
Definition defaults (c : SyncerConfig) : SyncerConfig :=
  MkConfig (or_default (PollInterval c) (30 * Second)) (or_default (MaxBackoff c) (60 * Second))
    (or_default (FeedLimit c) 1000) (or_default (BootstrapLimit c) 10000).

Section Syncer.
Context `{RT : Runtime} `{PF : Profile}.

(** [applyEvent], where [i1] and [i2] are the outcomes of its calls to the
    store. *)
Definition applyEvent (i1 i2 : io) (event : FeedEvent) (w : registry) : result store_error unit * registry :=
  let t := EventType event in
  if bool_decide (t = "property.created") || bool_decide (t = "property.updated") then
    match UnmarshalProperty (Payload event) with
    | None => (Ok (), w)
    | Some p =>
        if bool_decide (PropertyID p = "") || bool_decide (PropertyRID p = "") then (Ok (), w)
        else Properties_Put i1 p w
    end
  else if bool_decide (t = "property.removed") then Properties_Remove i1 (EntityID event) w
  else if bool_decide (t = "property.merged") then Properties_Remove i1 (EntityID event) w
  else if bool_decide (t = "authorization.granted") then
    match UnmarshalAuth (Payload event) with
    | None => (Ok (), w)
    | Some e =>
        if bool_decide (AuthAgent e = "") || bool_decide (PublisherDomain e = "") then (Ok (), w) else
        match ValidatePublisherDomain (PublisherDomain e) with
        | Err _ => (Ok (), w)
        | Ok _ => Auth_Add i1 e w
        end
    end
  else if bool_decide (t = "authorization.revoked") then
    match UnmarshalRevoke (Payload event) with
    | None => (Ok (), w)
    | Some (a, d) =>
        if bool_decide (a = "") || bool_decide (d = "") then (Ok (), w) else
        match ValidatePublisherDomain d with
        | Err _ => (Ok (), w)
        | Ok _ => Auth_RemoveEntry i1 a d w
        end
    end
  else if bool_decide (t = "agent.discovered") || bool_decide (t = "agent.updated") then
    match UnmarshalAgentProfile (Payload event) with
    | None => (Ok (), w)
    | Some p => if bool_decide (AgentURL p = "") then (Ok (), w) else Agents_Put i1 p w
    end
  else if bool_decide (t = "agent.removed") then
    match Agents_Remove i1 (EntityID event) w with
    | (Err e, w) => (Err e, w)
    | (Ok _, w) => Auth_RemoveAgent i2 (EntityID event) w
    end
  else (Ok (), w).

(** ** The loop *)

(** The variables of [Run], the cursor the cursor store holds, and the event
    counts the [OnSuccessfulPoll] hook was called with. *)
Record run_state := MkRun {
  indexes : registry;
  saved : string;
  cursorVal : string;
  backoff : Duration;
  bootstrapping : bool;
  saveFailures : nat;
  beacons : list nat;
}.

(** [clearAllForRebootstrap]: whether the persistent side cleared too. *)
Definition clearAllForRebootstrap (i1 i2 i3 : io) (w : registry) : bool * registry :=
  let '(e1, w) := Properties_Clear i1 w in
  let '(e2, w) := Auth_Clear i2 w in
  let '(e3, w) := Agents_Clear i3 w in
  (is_ok e1 && is_ok e2 && is_ok e3, w).

(** The events of a page in order; [n] is the number of events before.  The
    result says whether an event could not be persisted. *)
Fixpoint apply_page (ios : nat → io) (n : nat) (events : list FeedEvent) (w : registry) : bool * registry :=
  match events with
  | [] => (false, w)
  | e :: events' =>
      let '(r, w) := applyEvent (ios (2 * n)) (ios (2 * n + 1)) e w in
      let failed := match r with
                    | Ok _ => false
                    | Err (InvalidDomainError _ _) => false
                    | Err StoreFailure => true
                    end in
      let '(failed', w) := apply_page ios (S n) events' w in
      (failed || failed', w)
  end.

(** [cursor.Save]: whether it returned an error, and what the store holds. *)
Definition save_cursor (i : io) (c old : string) : bool * string :=
  match i with IoOk => (true, c) | IoLost => (false, old) | IoUnacked => (false, c) end.

(** How an iteration of the loop ends: it goes on after a pause, or [Run]
    returns the error of a cursor that cannot be saved. *)
Inductive outcome := Again (pause : Duration) | SaveError.

Definition double (cfg : SyncerConfig) (b : Duration) : Duration := Z.min (wrap64 (b * 2)) (MaxBackoff cfg).

Definition limit (cfg : SyncerConfig) (st : run_state) : Z :=
  if bootstrapping st then BootstrapLimit cfg else FeedLimit cfg.

(** One iteration of [Run], given the answer to [FetchFeed], the outcomes of the
    calls to the store and the outcome of saving the cursor. *)
Definition iteration (cfg : SyncerConfig) (answer : fetch) (ios : nat → io) (save : io) (st : run_state) :
    outcome * run_state :=
  let again_later w st :=
    (Again (backoff st),
     MkRun w (saved st) (cursorVal st) (double cfg (backoff st)) (bootstrapping st) (saveFailures st)
       (beacons st)) in
  match answer with
  | FetchFailed => again_later (indexes st) st
  | CursorExpired =>
      let '(ok, w) := clearAllForRebootstrap (ios 0) (ios 1) (ios 2) (indexes st) in
      if ok then
        (Again 0, MkRun w (save_cursor save "" (saved st)).2 "" (backoff st) true (saveFailures st) (beacons st))
      else again_later w st
  | Fetched r =>
      let '(persistFailed, w) := apply_page ios 0 (Events r) (indexes st) in
      if persistFailed then again_later w st else
      let '(cursor, stored, failures) :=
        match Cursor r with
        | None => (cursorVal st, saved st, saveFailures st)
        | Some c =>
            let '(ok, stored) := save_cursor save c (saved st) in
            (c, stored, if ok then 0 else S (saveFailures st))
        end in
      let st' b := MkRun w stored cursor Second b failures
                     (if (failures =? 0)%nat then beacons st ++ [length (Events r)] else beacons st) in
      match Cursor r with
      | Some c =>
          if negb (save_cursor save c (saved st)).1 && (3 <=? failures)%nat
          then (SaveError, MkRun w stored cursor (backoff st) (bootstrapping st) failures (beacons st))
          else if HasMore r then (Again 0, st' (bootstrapping st)) else (Again (PollInterval cfg), st' false)
      | None => if HasMore r then (Again 0, st' (bootstrapping st)) else (Again (PollInterval cfg), st' false)
      end
  end.

(** [Run] up to the loop: the indexes are hydrated with what the store's loads
    return, and the cursor that was loaded is used unless a hydration failed. *)
Definition run_start (props : option (list Property)) (entries : option (list AuthorizationEntry))
    (profiles : option (list AgentProfile)) (loaded : string) (w : registry) : bool * run_state :=
  let '(e1, w) := Properties_Hydrate props w in
  let '(e2, w) := Auth_Hydrate entries w in
  let '(e3, w) := Agents_Hydrate profiles w in
  let hydrateFailed := negb (is_ok e1 && is_ok e2 && is_ok e3) in
  let cursor := if hydrateFailed && negb (bool_decide (loaded = "")) then "" else loaded in
  (hydrateFailed, MkRun w loaded cursor Second (bool_decide (cursor = "")) 0 []).

End Syncer.
