(* ===== verification/SyncSpec.v ===== *)
(** * SyncSpec: what the feed means, and that the registry implements it

    The abstract registry is a finite function from keys to values; a feed event
    is a list of puts and deletions.  The file shows that each operation of
    [Registry] and [Syncer] implements its abstract operation on the memory
    indexes, and on the store when the call to the store succeeds. *)
From stdpp Require Import gmap stringmap.
From S2P Require Import Prelude GoStrings Unicode Json StrictJson Registry Syncer.
From stdpp Require Import options.

(** ** The abstract registry *)

Inductive key := KProperty (id : string) | KAgent (url : string) | KAuth (a d t : string).

#[export] Instance key_eq_dec : EqDecision key.
Proof. solve_decision. Defined.

Section Spec.
Context `{RT : Runtime} `{PF : Profile}.

Inductive value := VProperty (p : Property) | VAgent (p : AgentProfile) | VAuth (e : AuthorizationEntry).

Definition key_of (v : value) : key :=
  match v with
  | VProperty p => KProperty (PropertyID p)
  | VAgent p => KAgent (AgentURL p)
  | VAuth e => KAuth (AuthAgent e) (PublisherDomain e) (AuthorizationType e)
  end.

Inductive op :=
  | OPut (v : value)
  | ODelProperty (id : string)
  | ODelAgent (url : string)
  | ODelGrant (a d : string)
  | ODelGrants (a : string)
  | OClearProperties | OClearAuth | OClearAgents.

(** The value [o] gives to [k], when it touches [k]. *)
Definition effect (o : op) (k : key) : option (option value) :=
  match o, k with
  | OPut v, _ => if bool_decide (key_of v = k) then Some (Some v) else None
  | ODelProperty id, KProperty id' => if bool_decide (id = id') then Some None else None
  | ODelAgent u, KAgent u' => if bool_decide (u = u') then Some None else None
  | ODelGrant a d, KAuth a' d' _ => if bool_decide (a = a' ∧ d = d') then Some None else None
  | ODelGrants a, KAuth a' _ _ => if bool_decide (a = a') then Some None else None
  | OClearProperties, KProperty _ => Some None
  | OClearAuth, KAuth _ _ _ => Some None
  | OClearAgents, KAgent _ => Some None
  | _, _ => None
  end.

Definition apply_op (k : key) (v : option value) (o : op) : option value := default v (effect o k).
Definition run_ops (k : key) (ops : list op) (v : option value) : option value := foldl (apply_op k) v ops.
Definition touched (k : key) (ops : list op) : bool := existsb (λ o, match effect o k with Some _ => true | None => false end) ops.

Lemma run_cons k o ops v : run_ops k (o :: ops) v = run_ops k ops (apply_op k v o).
Proof. done. Qed.

Lemma run_untouched k ops v : touched k ops = false → run_ops k ops v = v.
Proof.
  revert v. induction ops as [|o ops IH]; intros v; [done|]. rewrite run_cons. unfold apply_op. cbn.
  destruct (effect o k); [done|]. apply IH.
Qed.

Lemma run_touched k ops v v' : touched k ops = true → run_ops k ops v = run_ops k ops v'.
Proof.
  revert v v'. induction ops as [|o ops IH]; intros v v'; [done|]. rewrite !run_cons. unfold apply_op.
  cbn. destruct (effect o k); [done|]. apply IH.
Qed.

Lemma run_app k o1 o2 v : run_ops k (o1 ++ o2) v = run_ops k o2 (run_ops k o1 v).
Proof. apply foldl_app. Qed.

Lemma touched_app k o1 o2 : touched k (o1 ++ o2) = touched k o1 || touched k o2.
Proof. apply existsb_app. Qed.

(** What an event asks for; an event that cannot be decoded or lacks a required
    field asks for nothing. *)
Definition event_ops (e : FeedEvent) : list op :=
  let t := EventType e in
  if bool_decide (t ∈ ["property.created"; "property.updated"]) then
    match UnmarshalProperty (Payload e) with
    | Some p => if bool_decide (PropertyID p ≠ "" ∧ PropertyRID p ≠ "") then [OPut (VProperty p)] else []
    | None => []
    end
  else if bool_decide (t ∈ ["property.removed"; "property.merged"]) then [ODelProperty (EntityID e)]
  else if bool_decide (t = "authorization.granted") then
    match UnmarshalAuth (Payload e) with
    | Some g => if bool_decide (AuthAgent g ≠ "") && is_ok (ValidatePublisherDomain (PublisherDomain g))
                then [OPut (VAuth g)] else []
    | None => []
    end
  else if bool_decide (t = "authorization.revoked") then
    match UnmarshalRevoke (Payload e) with
    | Some (a, d) => if bool_decide (a ≠ "") && is_ok (ValidatePublisherDomain d) then [ODelGrant a d] else []
    | None => []
    end
  else if bool_decide (t ∈ ["agent.discovered"; "agent.updated"]) then
    match UnmarshalAgentProfile (Payload e) with
    | Some p => if bool_decide (AgentURL p ≠ "") then [OPut (VAgent p)] else []
    | None => []
    end
  else if bool_decide (t = "agent.removed") then [ODelAgent (EntityID e); ODelGrants (EntityID e)]
  else [].

Definition ops_of (feed : list FeedEvent) : list op := feed ≫= event_ops.

(** The registry a feed describes. *)
Definition truth (feed : list FeedEvent) (k : key) : option value := run_ops k (ops_of feed) None.

(** ** The views of the memory and of the store *)

Definition view_memory (w : registry) (k : key) : option value :=
  match k with
  | KProperty id => VProperty <$> LookupByID (properties w) id
  | KAgent u => VAgent <$> agents w !! u
  | KAuth a d t => VAuth <$> find_type t (GetEntries (auth w) a d)
  end.

Definition stored_grant (s : MemoryStore) (a d t : string) : option AuthorizationEntry :=
  e ← s_auth s !! a ≫= (.!! authFieldKey d t);
  if bool_decide (PublisherDomain e = d ∧ AuthorizationType e = t) then Some e else None.

Definition view_store (s : MemoryStore) (k : key) : option value :=
  match k with
  | KProperty id => VProperty <$> s_properties s !! id
  | KAgent u => VAgent <$> s_agents s !! u
  | KAuth a d t => VAuth <$> stored_grant s a d t
  end.

(** Records are stored under their own keys, with valid domains. *)
Record store_wf (s : MemoryStore) : Prop := {
  sw_properties : ∀ id p, s_properties s !! id = Some p → PropertyID p = id;
  sw_agents : ∀ u p, s_agents s !! u = Some p → AgentURL p = u;
  sw_auth : ∀ a m f e, s_auth s !! a = Some m → m !! f = Some e →
    AuthAgent e = a ∧ f = authFieldKey (PublisherDomain e) (AuthorizationType e) ∧
    ValidatePublisherDomain (PublisherDomain e) = Ok ();
}.

Definition memory_wf (w : registry) : Prop :=
  property_wf (properties w) ∧ domain_keys (properties w).

(** ** The memory implements the operations *)

(** [implements o f]: the memory update [f] has the effect of [o]. *)
Definition implements (o : op) (f : registry → registry) : Prop :=
  ∀ w, memory_wf w → memory_wf (f w) ∧ store (f w) = store w ∧
    ∀ k, view_memory (f w) k = apply_op k (view_memory w k) o.

Lemma put_property_implements p : implements (OPut (VProperty p)) (on_properties (put_property p)).
Proof.
  intros w [Hw Hd]. destruct (put_property_wf p _ Hw Hd). split; [by split|]. split; [done|].
  intros [id|u|a d t]; unfold apply_op; cbn; try done. unfold LookupByID.
  rewrite put_property_byID. case_bool_decide as E.
  - injection E as ->. by rewrite lookup_insert_eq.
  - by rewrite lookup_insert_ne by congruence.
Qed.

Lemma remove_property_implements id : implements (ODelProperty id) (on_properties (remove_property id)).
Proof.
  intros w [Hw Hd]. destruct (remove_property_wf id _ Hw Hd). split; [by split|]. split; [done|].
  intros [i|u|a d t]; unfold apply_op; cbn; try done. unfold LookupByID.
  rewrite remove_property_byID by done. case_bool_decide as E.
  - subst i. by rewrite lookup_delete_eq.
  - by rewrite lookup_delete_ne.
Qed.

Lemma add_auth_implements e : implements (OPut (VAuth e)) (on_auth (add_auth e)).
Proof.
  intros w Hw. split; [done|]. split; [done|].
  intros [i|u|a d t]; unfold apply_op; cbn; try done. unfold GetEntries. rewrite entries_add.
  case_bool_decide as E.
  - destruct E as [-> ->]. rewrite find_type_replace. repeat case_bool_decide; naive_solver.
  - rewrite bool_decide_false by naive_solver. done.
Qed.

Lemma remove_entry_implements a d : implements (ODelGrant a d) (on_auth (remove_entry a d)).
Proof.
  intros w Hw. split; [done|]. split; [done|].
  intros [i|u|a' d' t]; unfold apply_op; cbn; try done. unfold GetEntries. rewrite entries_remove.
  by case_bool_decide.
Qed.

Lemma remove_auth_agent_implements a : implements (ODelGrants a) (on_auth (remove_auth_agent a)).
Proof.
  intros w Hw. split; [done|]. split; [done|].
  intros [i|u|a' d' t]; unfold apply_op; cbn; try done. unfold GetEntries.
  rewrite entries_remove_agent. by case_bool_decide.
Qed.

Lemma put_agent_implements p : implements (OPut (VAgent p)) (on_agents (put_agent p)).
Proof.
  intros w Hw. split; [done|]. split; [done|].
  intros [i|u|a' d' t]; unfold apply_op; cbn; try done. unfold put_agent. case_bool_decide as E.
  - injection E as ->. by rewrite lookup_insert_eq.
  - by rewrite lookup_insert_ne by congruence.
Qed.

Lemma remove_agent_implements u : implements (ODelAgent u) (on_agents (delete u)).
Proof.
  intros w Hw. split; [done|]. split; [done|].
  intros [i|u'|a' d' t]; unfold apply_op; cbn; try done. case_bool_decide as E.
  - subst. by rewrite lookup_delete_eq.
  - by rewrite lookup_delete_ne.
Qed.

Lemma clear_implements :
  implements OClearProperties (on_properties (λ _, NewPropertyIndex)) ∧
  implements OClearAuth (on_auth (λ _, NewAuthIndex)) ∧
  implements OClearAgents (on_agents (λ _, ∅)).
Proof.
  split; [|split]; intros w Hw.
  - split; [split; [apply NewPropertyIndex_wf|]; intros d i; cbn; by rewrite lookup_empty|].
    split; [done|]. intros [i|u|a d t]; unfold apply_op; cbn; by try rewrite lookup_empty.
  - split; [done|]. split; [done|]. intros [i|u|a d t]; unfold apply_op; cbn; by try rewrite lookup_empty.
  - split; [done|]. split; [done|]. intros [i|u|a d t]; unfold apply_op; cbn; try done.
Qed.

(** ** The store implements the operations *)

Definition stores (o : op) (f : MemoryStore → result store_error MemoryStore) : Prop :=
  ∀ s, store_wf s → ∃ s', f s = Ok s' ∧ store_wf s' ∧ ∀ k, view_store s' k = apply_op k (view_store s k) o.

Lemma ValidatePublisherDomain_bar d : ValidatePublisherDomain d = Ok () → contains_byte d "|" = false.
Proof.
  unfold ValidatePublisherDomain. case_bool_decide; [done|]. clear. generalize d at 1 as d0. intros d0.
  induction d as [|c d IH]; [done|]. rewrite contains_byte_cons. cbn.
  destruct (beq c "|"); [done|]. destruct (_ || _)%bool; [done|]. apply IH.
Qed.

Lemma authFieldKey_inj d t d' t' :
  ValidatePublisherDomain d = Ok () → ValidatePublisherDomain d' = Ok () →
  authFieldKey d t = authFieldKey d' t' → d = d' ∧ t = t'.
Proof.
  intros H%ValidatePublisherDomain_bar H'%ValidatePublisherDomain_bar E.
  unfold authFieldKey in E. rewrite !sapp_cons, !sapp_nil_l in E.
  pose proof (Cut_app d t "|" H) as C. rewrite E, (Cut_app d' t' "|" H') in C. by injection C as -> ->.
Qed.

Lemma authFieldKey_prefix d t d' :
  ValidatePublisherDomain d = Ok () → ValidatePublisherDomain d' = Ok () →
  HasPrefix (authFieldKey d t) (d' +:+ "|") = bool_decide (d' = d).
Proof.
  intros H H'. case_bool_decide as E.
  - subst. unfold authFieldKey. rewrite <- sapp_assoc. apply HasPrefix_app.
  - destruct (HasPrefix _ _) eqn:P; [|done]. apply HasPrefix_true in P as [r Hr].
    rewrite sapp_assoc in Hr. by destruct (authFieldKey_inj d t d' r H H' Hr).
Qed.

(** The grant at a key is found exactly when some entry has that key. *)
Lemma stored_grant_Some s a d t e :
  store_wf s →
  stored_grant s a d t = Some e ↔
    PublisherDomain e = d ∧ AuthorizationType e = t ∧ ∃ m f, s_auth s !! a = Some m ∧ m !! f = Some e.
Proof.
  intros Hs. unfold stored_grant. split.
  - destruct (s_auth s !! a) as [m|] eqn:Em; [|done]. cbn.
    destruct (m !! authFieldKey d t) as [x|] eqn:Ex; [|done]. cbn. case_bool_decide as H; [|done].
    intros [= <-]. destruct H. eauto 7.
  - intros (<- & <- & m & f & Hm & Hf). destruct (sw_auth s Hs a m f e Hm Hf) as (_ & -> & _).
    rewrite Hm. cbn. rewrite Hf. cbn. by rewrite bool_decide_true.
Qed.

Lemma put_property_stores p : stores (OPut (VProperty p)) (PutProperty p).
Proof.
  intros s [Hp Hg Ha]. eexists. split; [done|]. split; [split; cbn; [|done|done]|].
  - intros id q [[<- <-]|[_ H]]%lookup_insert_Some; [done|by apply Hp].
  - intros [id|u|a d t]; unfold apply_op; cbn; try done. case_bool_decide as E.
    + injection E as ->. by rewrite lookup_insert_eq.
    + by rewrite lookup_insert_ne by congruence.
Qed.

Lemma remove_property_stores id : stores (ODelProperty id) (RemoveProperty id).
Proof.
  intros s [Hp Hg Ha]. eexists. split; [done|]. split; [split; cbn; [|done|done]|].
  - intros i q [_ H]%lookup_delete_Some. by apply Hp.
  - intros [i|u|a d t]; unfold apply_op; cbn; try done. case_bool_decide as E.
    + subst. by rewrite lookup_delete_eq.
    + by rewrite lookup_delete_ne.
Qed.

Lemma put_agent_stores p : stores (OPut (VAgent p)) (PutAgent p).
Proof.
  intros s [Hp Hg Ha]. eexists. split; [done|]. split; [split; cbn; [done| |done]|].
  - intros u q [[<- <-]|[_ H]]%lookup_insert_Some; [done|by apply Hg].
  - intros [id|u|a d t]; unfold apply_op; cbn; try done. case_bool_decide as E.
    + injection E as ->. by rewrite lookup_insert_eq.
    + by rewrite lookup_insert_ne by congruence.
Qed.

Lemma remove_agent_stores u : stores (ODelAgent u) (RemoveAgent u).
Proof.
  intros s [Hp Hg Ha]. eexists. split; [done|]. split; [split; cbn; [done| |done]|].
  - intros i q [_ H]%lookup_delete_Some. by apply Hg.
  - intros [id|u'|a d t]; unfold apply_op; cbn; try done. case_bool_decide as E.
    + subst. by rewrite lookup_delete_eq.
    + by rewrite lookup_delete_ne.
Qed.

Lemma clear_stores :
  stores OClearProperties ClearProperties ∧ stores OClearAuth ClearAuth ∧ stores OClearAgents ClearAgents.
Proof.
  split; [|split]; intros s [Hp Hg Ha]; (eexists; split; [done|]; split; [split; cbn; try done|]).
  all: try (intros [id|u|a d t]; unfold apply_op; by cbn).
  all: intros; by rewrite lookup_empty in *.
Qed.

(** Removing an agent's grants, or those of a domain. *)
Lemma remove_auth_agent_stores a : stores (ODelGrants a) (RemoveAuthAgent a).
Proof.
  intros s Hs. destruct Hs as [Hp Hg Ha] eqn:E. clear E. eexists. split; [done|].
  split; [split; cbn; [done|done|]|].
  - intros a' m f e [_ H]%lookup_delete_Some. by apply Ha.
  - intros [id|u|a' d t]; unfold apply_op; cbn; try done. unfold stored_grant. cbn.
    case_bool_decide as E.
    + subst. by rewrite lookup_delete_eq.
    + by rewrite lookup_delete_ne.
Qed.

Lemma put_auth_stores e :
  ValidatePublisherDomain (PublisherDomain e) = Ok () → stores (OPut (VAuth e)) (PutAuth e).
Proof.
  intros He s Hs. unfold PutAuth. rewrite He. cbn. eexists. split; [done|].
  match goal with |- store_wf ?s' ∧ _ => set (s1 := s') end.
  set (k0 := authFieldKey (PublisherDomain e) (AuthorizationType e)) in *.
  assert (∀ a m f x, s_auth s1 !! a = Some m → m !! f = Some x →
    a = AuthAgent e ∧ f = k0 ∧ x = e ∨
    (a = AuthAgent e → f ≠ k0) ∧ ∃ m', s_auth s !! a = Some m' ∧ m' !! f = Some x) as Hin.
  { intros a m f x. unfold s1. cbn. intros [[<- <-]|[Hne Hm]]%lookup_insert_Some Hf.
    - apply lookup_insert_Some in Hf as [[<- <-]|[Hne Hf]]; [by left|]. right. split; [congruence|].
      destruct (s_auth s !! AuthAgent e) as [m|]; cbn in Hf; [eauto|]. by rewrite lookup_empty in Hf.
    - right. split; [congruence|]. eauto. }
  assert (store_wf s1) as Hs1.
  { destruct Hs as [Hp Hg Ha]. split; [done|done|]. intros a m f x Hm Hf.
    destruct (Hin _ _ _ _ Hm Hf) as [(-> & -> & ->)|(_ & m' & Hm' & Hf')]; [done|]. by eapply Ha. }
  split; [done|]. intros [id|u|a d t]; unfold apply_op; cbn [view_store effect key_of];
    [by rewrite bool_decide_false by done..|].
  case_bool_decide as E; cbn.
  - injection E as <- <- <-. cut (stored_grant s1 (AuthAgent e) (PublisherDomain e) (AuthorizationType e) = Some e);
      [by intros ->|].
    apply stored_grant_Some; [done|]. split; [done|]. split; [done|]. eexists _, k0. unfold s1. cbn. rewrite lookup_insert_eq. split; [done|]. apply lookup_insert_eq.
  - f_equal. apply option_eq. intros x. rewrite !stored_grant_Some by done.
    split; intros (Hd & Ht & m & f & Hm & Hf); (split; [done|]; split; [done|]).
    + destruct (Hin _ _ _ _ Hm Hf) as [(-> & -> & ->)|(_ & m' & Hm' & Hf')]; [congruence|eauto].
    + destruct (sw_auth s Hs _ _ _ _ Hm Hf) as (Hxa & Hxf & _). unfold s1. cbn.
      destruct (decide (AuthAgent e = a)) as [<-|Hne]; [|rewrite lookup_insert_ne by done; eauto].
      eexists _, f. rewrite lookup_insert_eq, Hm. split; [done|]. cbn. rewrite lookup_insert_ne; [done|].
      intros Heq. apply E. rewrite <- Hd, <- Ht. destruct (sw_auth s Hs _ _ _ _ Hm Hf) as (_ & _ & Hxv).
      rewrite Hxf in Heq. by destruct (authFieldKey_inj _ _ _ _ He Hxv Heq) as [-> ->].
Qed.

Lemma remove_entry_stores a d :
  ValidatePublisherDomain d = Ok () → stores (ODelGrant a d) (RemoveAuthEntry a d).
Proof.
  intros Hd s Hs. unfold RemoveAuthEntry. rewrite Hd. cbn.
  destruct (s_auth s !! a) as [m|] eqn:Em.
  2: { exists s. split; [done|]. split; [done|]. intros [id|u|a' d' t]; unfold apply_op; cbn; try done.
       case_bool_decide as E; [|done]. destruct E as [<- <-]. cbn. unfold stored_grant. by rewrite Em. }
  eexists. split; [done|].
  match goal with |- store_wf ?s' ∧ _ => set (s1 := s') end.
  set (m1 := filter _ m) in *.
  assert (∀ f x, m1 !! f = Some x ↔ m !! f = Some x ∧ d ≠ PublisherDomain x) as Hm1.
  { intros f x. unfold m1. rewrite map_lookup_filter_Some. cbn [fst].
    assert (m !! f = Some x → HasPrefix f (d +:+ "|") = bool_decide (d = PublisherDomain x)) as Hp.
    { intros Hf. destruct (sw_auth s Hs _ _ _ _ Em Hf) as (_ & -> & Hv). by apply authFieldKey_prefix. }
    split; intros [Hf Hx]; (split; [done|]); specialize (Hp Hf).
    - rewrite Hp in Hx. by apply bool_decide_eq_false in Hx.
    - rewrite Hp. by apply bool_decide_eq_false. }
  assert (∀ a' f x, (∃ m', s_auth s1 !! a' = Some m' ∧ m' !! f = Some x) ↔
    (a' = a → d ≠ PublisherDomain x) ∧ ∃ m', s_auth s !! a' = Some m' ∧ m' !! f = Some x) as Hin.
  { intros a' f x. unfold s1. cbn. destruct (decide (a = a')) as [<-|Hne].
    - rewrite Em. case_bool_decide as E.
      + rewrite lookup_delete_eq. split; [naive_solver|]. intros [Hx (m' & [= <-] & Hf)].
        assert (m1 !! f = Some x) as H1 by (apply Hm1; auto). by rewrite E, lookup_empty in H1.
      + rewrite lookup_insert_eq. naive_solver.
    - case_bool_decide; [rewrite lookup_delete_ne by done|rewrite lookup_insert_ne by done]; naive_solver. }
  assert (store_wf s1) as Hs1.
  { destruct Hs as [Hp Hg Ha]. split; [done|done|]. intros a' m' f x Hm Hf.
    destruct (proj1 (Hin a' f x)) as (_ & m2 & Hm2 & Hf2); [eauto|]. by eapply Ha. }
  split; [done|]. intros [id|u|a' d' t]; unfold apply_op; cbn; try done.
  case_bool_decide as E; cbn.
  - destruct E as [<- <-]. destruct (stored_grant s1 a d t) as [x|] eqn:Ex; [|done]. exfalso.
    apply stored_grant_Some in Ex as (Hx & _ & m' & f & Hm & Hf); [|done].
    destruct (proj1 (Hin a f x)) as (Hne & _); [eauto|]. by apply Hne.
  - f_equal. apply option_eq. intros x. rewrite !stored_grant_Some by done.
    split; intros (Hx & Ht & m' & f & Hm & Hf); (split; [done|]; split; [done|]).
    + destruct (proj1 (Hin a' f x)) as (_ & m2 & Hm2 & Hf2); eauto.
    + destruct (proj2 (Hin a' f x)) as (m2 & Hm2 & Hf2); [|eauto]. split; [|eauto].
      intros -> ->. apply E. by subst.
Qed.

(** ** Operations performed on the registry *)

(** A view after [ops]: all of them took effect when [ok], and otherwise at least
    the keys none of them touches kept their values. *)
Definition follows (ops : list op) (ok : bool) (V V' : key → option value) : Prop :=
  (ok = true → ∀ k, V' k = run_ops k ops (V k)) ∧ ∀ k, touched k ops = false → V' k = V k.

Definition view_disk (w : registry) (k : key) : option value :=
  match store w with Some s => view_store s k | None => None end.

Definition registry_wf (w : registry) : Prop :=
  memory_wf w ∧ ∃ s, store w = Some s ∧ store_wf s.

Record performed (ops : list op) (ok : bool) (w w' : registry) : Prop := {
  pf_wf : registry_wf w';
  pf_memory : follows ops ok (view_memory w) (view_memory w');
  pf_disk : follows ops ok (view_disk w) (view_disk w');
}.

Lemma follows_run ops (V V' : key → option value) : (∀ k, V' k = run_ops k ops (V k)) → ∀ b, follows ops b V V'.
Proof. intros H b. split; [done|]. intros k Hk. by rewrite H, run_untouched. Qed.

Lemma follows_app o1 o2 b1 b2 V V1 V2 :
  follows o1 b1 V V1 → follows o2 b2 V1 V2 → follows (o1 ++ o2) (b1 && b2) V V2.
Proof.
  intros [H1 U1] [H2 U2]. split.
  - intros [Hb1 Hb2]%andb_true_iff k. by rewrite run_app, H2, H1.
  - intros k. rewrite touched_app. intros [Hk1 Hk2]%orb_false_iff. by rewrite U2, U1.
Qed.

Lemma follows_stop o1 o2 V V1 : follows o1 false V V1 → follows (o1 ++ o2) false V V1.
Proof.
  intros [_ U]. split; [done|]. intros k. rewrite touched_app. intros [Hk _]%orb_false_iff. by apply U.
Qed.

Lemma performed_app o1 o2 b1 b2 w w1 w2 :
  performed o1 b1 w w1 → performed o2 b2 w1 w2 → performed (o1 ++ o2) (b1 && b2) w w2.
Proof. intros [H1 M1 D1] [H2 M2 D2]. split; [done|..]; by eapply follows_app. Qed.

Lemma performed_stop o1 o2 w w1 : performed o1 false w w1 → performed (o1 ++ o2) false w w1.
Proof. intros [H1 M1 D1]. split; [done|..]; by apply follows_stop. Qed.

Lemma performed_nil b w : registry_wf w → performed [] b w w.
Proof. intros Hw. split; [done|..]; by apply follows_run. Qed.

(** A mutator: the memory operation, then the call to the store. *)
Lemma persist_performed i o f g w :
  registry_wf w → implements o g → stores o f →
  let '(r, w') := persist i f (g w) in
  performed [o] (is_ok r) w w' ∧ (r = Ok () ∨ r = Err StoreFailure) ∧ (i = IoOk → r = Ok ()).
Proof.
  intros [Hw (s & Es & Hs)] Hg Hf. destruct (Hg w Hw) as (Hw' & Est & Hv).
  destruct (Hf s Hs) as (s' & Ef & Hs' & Hsv). unfold persist. rewrite Est, Es, Ef.
  assert (∀ b s1, store_wf s1 → follows [o] b (view_disk w) (view_store s1) →
    performed [o] b w (with_store (g w) s1)) as Hp.
  { intros b s1 Hs1 H1. split; [split; [done|]; by exists s1|..]; [|done].
    apply follows_run. intros k. apply Hv. }
  assert (∀ b, follows [o] b (view_disk w) (view_store s')) as Hfull.
  { apply follows_run. intros k. unfold view_disk. rewrite Es. apply Hsv. }
  destruct i; cbn [is_ok].
  - split; [by apply Hp|]. auto.
  - split; [|naive_solver]. split; [split; [done|]; exists s; rewrite Est; auto|apply follows_run, Hv|].
    split; [done|]. intros k _. unfold view_disk. by rewrite Est.
  - split; [by apply Hp|]. naive_solver.
Qed.

Lemma ValidatePublisherDomain_ok d : is_ok (ValidatePublisherDomain d) = true → ValidatePublisherDomain d = Ok ().
Proof. by destruct (ValidatePublisherDomain d) as [[]|]. Qed.

Lemma in_two (t a b : string) : bool_decide (t ∈ [a; b]) = bool_decide (t = a) || bool_decide (t = b).
Proof. repeat case_bool_decide; set_solver. Qed.

Lemma two_nonempty (a b : string) :
  bool_decide (a ≠ "" ∧ b ≠ "") = negb (bool_decide (a = "") || bool_decide (b = "")).
Proof. repeat case_bool_decide; naive_solver. Qed.

Lemma valid_nonempty (a d : string) :
  bool_decide (a ≠ "") && is_ok (ValidatePublisherDomain d) =
    negb (bool_decide (a = "") || bool_decide (d = "")) && is_ok (ValidatePublisherDomain d).
Proof.
  rewrite bool_decide_not. unfold ValidatePublisherDomain.
  destruct (bool_decide (a = "")), (bool_decide (d = "")); done.
Qed.

(** A removed agent loses its profile, then its grants. *)
Lemma remove_agent_performed i1 i2 u w :
  registry_wf w →
  let '(r, w') := match Agents_Remove i1 u w with
                  | (Err e, w) => (Err e, w)
                  | (Ok _, w) => Auth_RemoveAgent i2 u w
                  end in
  performed [ODelAgent u; ODelGrants u] (is_ok r) w w' ∧ (r = Ok () ∨ r = Err StoreFailure) ∧
  (i1 = IoOk → i2 = IoOk → r = Ok ()).
Proof.
  intros Hw. unfold Agents_Remove, Auth_RemoveAgent.
  pose proof (persist_performed i1 _ _ _ w Hw (remove_agent_implements u) (remove_agent_stores u)) as H1.
  destruct (persist i1 _ _) as [[[]|e1] w1]; destruct H1 as (H1 & Hr1 & O1).
  2: { split; [by apply (performed_stop [_] [_])|]. naive_solver. }
  pose proof (persist_performed i2 _ _ _ w1 (pf_wf _ _ _ _ H1) (remove_auth_agent_implements u)
    (remove_auth_agent_stores u)) as H2.
  destruct (persist i2 _ _) as [r2 w2]; destruct H2 as (H2 & Hr2 & O2).
  split; [|naive_solver]. apply (performed_app [_] [_] true _ w w1); done.
Qed.

(** An event is applied: all it asks for in memory, and in the store when no
    error is returned. *)
Lemma applyEvent_performed i1 i2 e w :
  registry_wf w →
  let '(r, w') := applyEvent i1 i2 e w in
  performed (event_ops e) (is_ok r) w w' ∧ (r = Ok () ∨ r = Err StoreFailure) ∧
  (i1 = IoOk → i2 = IoOk → r = Ok ()).
Proof.
  intros Hw. assert (let '(r, w') := (Ok (), w) in
    performed [] (is_ok r) w w' ∧ (r = Ok () ∨ r = Err StoreFailure) ∧
    (i1 = IoOk → i2 = IoOk → r = Ok ())) as Hnop.
  { split; [by apply performed_nil|auto]. }
  assert (∀ o f g, implements o g → stores o f →
    let '(r, w') := persist i1 f (g w) in performed [o] (is_ok r) w w' ∧ (r = Ok () ∨ r = Err StoreFailure) ∧
    (i1 = IoOk → i2 = IoOk → r = Ok ())) as Hone.
  { intros o f g Hg Hf. pose proof (persist_performed i1 o f g w Hw Hg Hf) as H.
    destruct (persist i1 f (g w)). naive_solver. }
  unfold applyEvent, event_ops. rewrite !in_two.
  destruct (_ || bool_decide (EventType e = "property.updated")).
  { destruct (UnmarshalProperty (Payload e)) as [p|]; [|done]. rewrite two_nonempty.
    destruct (_ || _)%bool; cbn [negb]; [done|].
    apply Hone; [apply put_property_implements|apply put_property_stores]. }
  destruct (bool_decide (EventType e = "property.removed")); cbn [orb].
  { apply Hone; [apply remove_property_implements|apply remove_property_stores]. }
  destruct (bool_decide (EventType e = "property.merged")).
  { apply Hone; [apply remove_property_implements|apply remove_property_stores]. }
  destruct (bool_decide (EventType e = "authorization.granted")).
  { destruct (UnmarshalAuth (Payload e)) as [g|]; [|done]. rewrite valid_nonempty.
    destruct (_ || _)%bool; cbn [negb andb]; [done|].
    destruct (ValidatePublisherDomain (PublisherDomain g)) as [[]|] eqn:Ev; cbn [is_ok]; [|done].
    apply Hone; [apply add_auth_implements|by apply put_auth_stores]. }
  destruct (bool_decide (EventType e = "authorization.revoked")).
  { destruct (UnmarshalRevoke (Payload e)) as [[a d]|]; [|done]. rewrite valid_nonempty.
    destruct (_ || _)%bool; cbn [negb andb]; [done|].
    destruct (ValidatePublisherDomain d) as [[]|] eqn:Ev; cbn [is_ok]; [|done].
    apply Hone; [apply remove_entry_implements|by apply remove_entry_stores]. }
  destruct (_ || bool_decide (EventType e = "agent.updated")).
  { destruct (UnmarshalAgentProfile (Payload e)) as [p|]; [|done]. rewrite bool_decide_not.
    destruct (bool_decide (AgentURL p = "")); cbn [negb]; [done|].
    apply Hone; [apply put_agent_implements|apply put_agent_stores]. }
  destruct (bool_decide (EventType e = "agent.removed")); [|done].
  by apply remove_agent_performed.
Qed.

(** The events of a page. *)
Lemma apply_page_performed ios n events w :
  registry_wf w →
  let '(failed, w') := apply_page ios n events w in
  performed (ops_of events) (negb failed) w w' ∧ ((∀ i, ios i = IoOk) → failed = false).
Proof.
  revert n w. induction events as [|e events IH]; intros n w Hw; [split; [by apply performed_nil|done]|].
  cbn [apply_page]. pose proof (applyEvent_performed (ios (2 * n)) (ios (2 * n + 1)) e w Hw) as He.
  destruct (applyEvent _ _ e w) as [r w1]. destruct He as (He & Hr & Hok).
  specialize (IH (S n) w1 (pf_wf _ _ _ _ He)). destruct (apply_page ios (S n) events w1) as [failed w2].
  destruct IH as [IH Hok2]. split.
  - rewrite negb_orb. change (ops_of (e :: events)) with (event_ops e ++ ops_of events).
    eapply performed_app; [|exact IH]. by destruct Hr as [-> | ->].
  - intros Hall. rewrite Hok, Hok2 by done. done.
Qed.

Lemma persist_memory i f w k : view_memory (persist i f w).2 k = view_memory w k.
Proof. unfold persist. by destruct (store w) as [s|]; [destruct (f s), i|]. Qed.

(** A call to the store takes effect on a key or not. *)
Lemma persist_disk i o f g w k :
  registry_wf w → implements o g → stores o f →
  view_disk (persist i f (g w)).2 k = view_disk w k ∨
  view_disk (persist i f (g w)).2 k = apply_op k (view_disk w k) o.
Proof.
  intros [Hw (s & Es & Hs)] Hg Hf. destruct (Hg w Hw) as (_ & Est & _).
  destruct (Hf s Hs) as (s' & Ef & _ & Hv). unfold persist, view_disk. rewrite Est, Es, Ef.
  destruct i; cbn; rewrite ?Est, ?Es, ?Hv; auto.
Qed.

(** Clearing empties the memory in any case, and no key of the store gets
    another value. *)
Lemma clearAll_performed i1 i2 i3 w :
  registry_wf w →
  let '(ok, w') := clearAllForRebootstrap i1 i2 i3 w in
  performed [OClearProperties; OClearAuth; OClearAgents] ok w w' ∧
  (∀ k, view_memory w' k = None) ∧ (∀ k, view_disk w' k = view_disk w k ∨ view_disk w' k = None) ∧
  (i1 = IoOk → i2 = IoOk → i3 = IoOk → ok = true).
Proof.
  intros Hw. unfold clearAllForRebootstrap, Properties_Clear, Auth_Clear, Agents_Clear.
  destruct clear_implements as (M1 & M2 & M3), clear_stores as (S1 & S2 & S3).
  pose proof (persist_performed i1 _ _ _ w Hw M1 S1) as H1. pose proof (persist_memory i1 ClearProperties
    (on_properties (λ _, NewPropertyIndex) w)) as V1. pose proof (λ k, persist_disk i1 _ _ _ w k Hw M1 S1) as D1.
  destruct (persist i1 _ _) as [r1 w1]. destruct H1 as (H1 & _ & O1).
  pose proof (persist_performed i2 _ _ _ w1 (pf_wf _ _ _ _ H1) M2 S2) as H2.
  pose proof (persist_memory i2 ClearAuth (on_auth (λ _, NewAuthIndex) w1)) as V2.
  pose proof (λ k, persist_disk i2 _ _ _ w1 k (pf_wf _ _ _ _ H1) M2 S2) as D2.
  destruct (persist i2 _ _) as [r2 w2]. destruct H2 as (H2 & _ & O2).
  pose proof (persist_performed i3 _ _ _ w2 (pf_wf _ _ _ _ H2) M3 S3) as H3.
  pose proof (persist_memory i3 ClearAgents (on_agents (λ _, ∅) w2)) as V3.
  pose proof (λ k, persist_disk i3 _ _ _ w2 k (pf_wf _ _ _ _ H2) M3 S3) as D3.
  destruct (persist i3 _ _) as [r3 w3]. destruct H3 as (H3 & _ & O3). cbn [snd] in *.
  split; [|split; [|split]].
  - apply (performed_app [_; _] [_] (is_ok r1 && is_ok r2) _ w w2); [|done].
    by apply (performed_app [_] [_] _ _ w w1).
  - intros k. rewrite V3. destruct (M3 w2 (proj1 (pf_wf _ _ _ _ H2))) as (_ & _ & ->). rewrite V2.
    destruct (M2 w1 (proj1 (pf_wf _ _ _ _ H1))) as (_ & _ & ->). rewrite V1.
    destruct (M1 w (proj1 Hw)) as (_ & _ & ->). by destruct k.
  - intros k. specialize (D1 k). specialize (D2 k). specialize (D3 k). unfold apply_op in *.
    destruct k; cbn in *; intuition congruence.
  - intros H1' H2' H3'. by rewrite (O1 H1'), (O2 H2'), (O3 H3').
Qed.

(** ** Hydration *)

(** The loads deliver exactly the stored records, in some order. *)
Definition loads {A} (loaded : option (list A)) (stored : list A) : Prop :=
  match loaded with Some l => ∀ x, x ∈ l ↔ x ∈ stored | None => True end.

(** Puts of values with distinct keys leave exactly those values. *)
Lemma run_puts k (vs : list value) :
  (∀ v v', v ∈ vs → v' ∈ vs → key_of v = key_of v' → v = v') →
  ∀ v, run_ops k (OPut <$> vs) None = Some v ↔ v ∈ vs ∧ key_of v = k.
Proof.
  induction vs as [|x vs IH] using rev_ind; intros Hu v; [cbn; set_solver|].
  rewrite fmap_app, run_app. cbn [fmap list_fmap]. set (r := run_ops k (OPut <$> vs) None) in *.
  change (run_ops k [OPut x] r) with (apply_op k r (OPut x)). unfold apply_op. cbn [effect].
  case_bool_decide as E; cbn [default from_option id].
  - split; [intros [= <-]; set_solver|]. intros [Hv Hk]. f_equal. apply Hu; set_solver.
  - rewrite IH by set_solver. set_solver.
Qed.

Lemma fold_implements {A} (val : A → value) (upd : A → registry → registry) l w :
  (∀ x, implements (OPut (val x)) (upd x)) → memory_wf w →
  let w' := foldl (λ w x, upd x w) w l in
  memory_wf w' ∧ store w' = store w ∧ ∀ k, view_memory w' k = run_ops k (OPut <$> (val <$> l)) (view_memory w k).
Proof.
  intros Hi Hw. induction l as [|x l IH] using rev_ind; cbn; [done|].
  rewrite foldl_snoc, !fmap_app. destruct IH as (H1 & H2 & H3). destruct (Hi x _ H1) as (G1 & G2 & G3).
  split; [done|]. split; [congruence|]. intros k. rewrite G3, H3, run_app. done.
Qed.

Definition put_value (v : value) : registry → registry :=
  match v with
  | VProperty p => on_properties (put_property p)
  | VAgent p => on_agents (put_agent p)
  | VAuth e => on_auth (add_auth e)
  end.

Lemma put_value_implements v : implements (OPut (id v)) (put_value v).
Proof.
  destruct v; [apply put_property_implements|apply put_agent_implements|apply add_auth_implements].
Qed.

Lemma fold_properties l w :
  foldl (λ w v, put_value v w) w (VProperty <$> l) =
    on_properties (λ idx, foldl (λ i p, put_property p i) idx l) w.
Proof. revert w. induction l as [|p l IH]; intros []; cbn; [done|]. by rewrite IH. Qed.

Lemma fold_agents l w :
  foldl (λ w v, put_value v w) w (VAgent <$> l) = on_agents (λ m, foldl (λ i p, put_agent p i) m l) w.
Proof. revert w. induction l as [|p l IH]; intros []; cbn; [done|]. by rewrite IH. Qed.

Lemma fold_auth l w :
  foldl (λ w v, put_value v w) w (VAuth <$> l) = on_auth (λ idx, foldl (λ i e, add_auth e i) idx l) w.
Proof. revert w. induction l as [|p l IH]; intros []; cbn; [done|]. by rewrite IH. Qed.

Definition stored_values (s : MemoryStore) : list value :=
  (VProperty <$> LoadProperties s) ++ (VAuth <$> LoadAuth s) ++ (VAgent <$> LoadAgents s).

Lemma view_store_Some s k v :
  store_wf s → view_store s k = Some v ↔ v ∈ stored_values s ∧ key_of v = k.
Proof.
  intros Hs. unfold stored_values. rewrite !elem_of_app, !list_elem_of_fmap.
  assert (∀ p, p ∈ LoadProperties s ↔ s_properties s !! PropertyID p = Some p) as Hp.
  { intros p. unfold LoadProperties. rewrite list_elem_of_fmap. setoid_rewrite elem_of_map_to_list'.
    split; [intros ([id q] & -> & H); cbn in *; by rewrite (sw_properties s Hs id q H)|].
    intros H. by exists (PropertyID p, p). }
  assert (∀ p, p ∈ LoadAgents s ↔ s_agents s !! AgentURL p = Some p) as Hg.
  { intros p. unfold LoadAgents. rewrite list_elem_of_fmap. setoid_rewrite elem_of_map_to_list'.
    split; [intros ([u q] & -> & H); cbn in *; by rewrite (sw_agents s Hs u q H)|].
    intros H. by exists (AgentURL p, p). }
  assert (∀ e, e ∈ LoadAuth s ↔ ∃ m f, s_auth s !! AuthAgent e = Some m ∧ m !! f = Some e) as Ha.
  { intros e. unfold LoadAuth. rewrite list_elem_of_In, in_concat. split.
    - intros (l & Hl & He). apply list_elem_of_In in Hl, He. apply list_elem_of_fmap in Hl as (m & -> & Hm).
      apply list_elem_of_fmap in Hm as ([a m'] & -> & Hm). apply list_elem_of_fmap in He as ([f e'] & -> & He).
      apply elem_of_map_to_list in Hm, He. cbn in *. destruct (sw_auth s Hs a m' f e' Hm He) as [-> _]. eauto.
    - intros (m & f & Hm & Hf). exists (map_to_list m).*2. rewrite <- !list_elem_of_In. split.
      + apply list_elem_of_fmap. exists m. split; [done|]. apply list_elem_of_fmap.
        exists (AuthAgent e, m). split; [done|]. by apply elem_of_map_to_list.
      + apply list_elem_of_fmap. exists (f, e). split; [done|]. by apply elem_of_map_to_list. }
  destruct k as [id|u|a d t]; cbn; rewrite fmap_Some.
  - split.
    + intros (p & H & ->). cbn. pose proof (sw_properties s Hs id p H) as <-. split; [|done].
      left. exists p. by rewrite Hp.
    + intros [[(p & -> & H)|[(e & -> & _)|(g & -> & _)]] Hk]; try discriminate Hk.
      injection Hk as <-. exists p. by rewrite <- Hp.
  - split.
    + intros (p & H & ->). cbn. pose proof (sw_agents s Hs u p H) as <-. split; [|done].
      right; right. exists p. by rewrite Hg.
    + intros [[(p & -> & _)|[(e & -> & _)|(g & -> & H)]] Hk]; try discriminate Hk.
      injection Hk as <-. exists g. by rewrite <- Hg.
  - split.
    + intros (e & H & ->). apply stored_grant_Some in H as (<- & <- & m & f & Hm & Hf); [|done].
      destruct (sw_auth s Hs a m f e Hm Hf) as (<- & _). split; [|done]. right; left. exists e.
      split; [done|]. rewrite Ha. eauto.
    + intros [[(p & -> & _)|[(e & -> & H)|(g & -> & _)]] Hk]; try discriminate Hk.
      injection Hk as <- <- <-. exists e. split; [|done]. apply stored_grant_Some; [done|].
      split; [done|]. split; [done|]. by apply Ha.
Qed.

(** Fresh indexes attached to the store [s] hold what it holds, as far as its
    loads succeed. *)
Lemma run_start_spec props entries profiles loaded s :
  store_wf s → loads props (LoadProperties s) → loads entries (LoadAuth s) → loads profiles (LoadAgents s) →
  let '(failed, st) := run_start props entries profiles loaded (WithStore (Some s)) in
  registry_wf (indexes st) ∧ store (indexes st) = Some s ∧ saved st = loaded ∧
  cursorVal st = (if failed then "" else loaded) ∧
  (∀ k v, view_memory (indexes st) k = Some v → view_store s k = Some v) ∧
  (failed = false → ∀ k, view_memory (indexes st) k = view_store s k) ∧
  (props ≠ None → entries ≠ None → profiles ≠ None → failed = false).
Proof.
  intros Hs Hp He Hg.
  set (lp := default [] props). set (le := default [] entries). set (lg := default [] profiles).
  set (vs := (VProperty <$> lp) ++ (VAuth <$> le) ++ (VAgent <$> lg)).
  assert (memory_wf (WithStore (Some s))) as Hw0.
  { split; [apply NewPropertyIndex_wf|]. intros d i. cbn. by rewrite lookup_empty. }
  destruct (fold_implements id put_value vs (WithStore (Some s)) put_value_implements Hw0) as (Hwf & Hst & Hv).
  set (w1 := foldl _ _ vs) in *.
  assert (∃ b1 b2 b3, run_start props entries profiles loaded (WithStore (Some s)) =
    (bool_decide (props = None ∨ entries = None ∨ profiles = None),
     MkRun (MkRegistry (properties w1) (auth w1) (agents w1) b1 b2 b3 (Some s)) loaded
       (if bool_decide (props = None ∨ entries = None ∨ profiles = None) then "" else loaded) Second
       (bool_decide ((if bool_decide (props = None ∨ entries = None ∨ profiles = None) then "" else loaded) = ""))
       0 [])) as (b1 & b2 & b3 & ->).
  { assert (w1 = MkRegistry (foldl (λ i p, put_property p i) NewPropertyIndex lp)
      (foldl (λ i e, add_auth e i) NewAuthIndex le) (foldl (λ i p, put_agent p i) ∅ lg)
      false false false (Some s)) as ->.
    { unfold w1, vs. by rewrite !foldl_app, fold_properties, fold_auth, fold_agents. }
    unfold run_start, lp, le, lg.
    destruct props, entries, profiles; cbn; (case_bool_decide; try naive_solver); do 3 eexists;
      destruct (decide (loaded = "")) as [->|Hl]; rewrite ?(bool_decide_false (loaded = "")) by done;
      reflexivity. }
  set (failed := bool_decide _) in *. cbn [indexes saved cursorVal].
  assert (∀ v, v ∈ vs → v ∈ stored_values s) as Hsub.
  { intros v. unfold vs, stored_values. rewrite !elem_of_app, !list_elem_of_fmap. unfold lp, le, lg.
    destruct props, entries, profiles; cbn in *; set_unfold; naive_solver. }
  assert (∀ k v, view_memory w1 k = Some v ↔ v ∈ vs ∧ key_of v = k) as Hview.
  { intros k v. rewrite Hv, list_fmap_id.
    assert (view_memory (WithStore (Some s)) k = None) as ->.
    { destruct k; cbn; unfold LookupByID, GetEntries, entries_of; cbn; by rewrite ?lookup_empty. }
    apply run_puts. intros x y Hx%Hsub Hy%Hsub Hk. apply (inj Some).
    transitivity (view_store s (key_of x)); [symmetry|]; by apply view_store_Some. }
  assert (∀ k v, view_memory w1 k = Some v → view_store s k = Some v) as Hincl.
  { intros k v [Hin <-]%Hview. apply view_store_Some; [done|]. split; [by apply Hsub|done]. }
  split; [split; [done|by exists s]|]. do 3 (split; [done|]).
  assert (∀ k, view_memory (MkRegistry (properties w1) (auth w1) (agents w1) b1 b2 b3 (Some s)) k =
    view_memory w1 k) as Heq by (by intros []).
  split; [intros k v; rewrite Heq; apply Hincl|]. split.
  - intros Hf. apply bool_decide_eq_false in Hf. intros k.
    rewrite Heq. apply option_eq. intros v. split; [apply Hincl|].
    intros [Hin <-]%view_store_Some; [|done]. apply Hview. split; [|done].
    revert Hin. unfold vs, stored_values. rewrite !elem_of_app, !list_elem_of_fmap. unfold lp, le, lg.
    destruct props, entries, profiles; cbn in *; naive_solver.
  - intros. unfold failed. apply bool_decide_eq_false. naive_solver.
Qed.

End Spec.
