(* ===== verification/SyncProps.v ===== *)
(** * SyncProps: the feed loop under crashes, failures and expiry

    The system is a feed that grows and expires its oldest cursors, and a process
    that polls it, fails, crashes and restarts from its store and its saved
    cursor.  As long as no process goes down behind its own saved cursor, which only a
    bootstrap forced by a failed hydration makes possible, a key that no pending event
    touches has its true value, in memory and in the store. *)
From stdpp Require Import gmap stringmap relations.
From S2P Require Import Prelude GoStrings Unicode Json StrictJson Registry Syncer SyncSpec.
From stdpp Require Import options.

(** What the registry promises about cursors: a cursor stands for a position in
    the feed, the empty one for its start. *)
Class Cursors := {
  position : string → nat;
  position_start : position "" = 0;
}.

Section System.
Context `{RT : Runtime} `{PF : Profile} `{CU : Cursors}.
Variable cfg : SyncerConfig.

Inductive process :=
  | Down (disk : MemoryStore) (cursor : string)
  | Up (st : run_state).

(** The feed, the position below which cursors have expired, and the process. *)
Record system := MkSystem { feed : list FeedEvent; floor : nat; proc : process }.

Definition expired (s : system) (c : string) : Prop := c ≠ "" ∧ position c < floor s.

(** The answers the server may give for a cursor: a page that starts at the
    cursor's position, with the cursor of its end; an error of expiry exactly
    when the cursor has expired; any other failure at any time. *)
Definition answers (s : system) (c : string) (a : fetch) : Prop :=
  match a with
  | Fetched r =>
      ¬ expired s c ∧ ∃ n, n ≤ length (feed s) - position c ∧
        Events r = take n (drop (position c) (feed s)) ∧
        ∀ c', Cursor r = Some c' → position c' = position c + n
  | CursorExpired => expired s c
  | FetchFailed => True
  end.

(** A crash or the end of [Run] leaves the store and the saved cursor. *)
Definition down (st : run_state) : process :=
  match store (indexes st) with Some d => Down d (saved st) | None => Up st end.

(** A live saved cursor is ahead of the cursor the loop polls with.  This is so after a failed
    hydration made [Run] start over at the empty cursor, and until the loop has caught up. *)
Definition behind (s : system) (st : run_state) : Prop :=
  saved st ≠ "" ∧ ¬ expired s (saved st) ∧ position (cursorVal st) < position (saved st).

(** A start is on fresh indexes, and its hydration may fail.  With [reckless] the process may go
    down at any moment, without it only when it is not behind its saved cursor. *)
Inductive step (reckless : bool) : system → system → Prop :=
  | step_publish f fl p evs : step reckless (MkSystem f fl p) (MkSystem (f ++ evs) fl p)
  | step_expire f fl fl' p : fl ≤ fl' → step reckless (MkSystem f fl p) (MkSystem f fl' p)
  | step_poll f fl st answer ios save o st' :
      answers (MkSystem f fl (Up st)) (cursorVal st) answer →
      iteration cfg answer ios save st = (o, st') →
      (reckless = false → o = SaveError → ¬ behind (MkSystem f fl (Up st')) st') →
      step reckless (MkSystem f fl (Up st))
        (MkSystem f fl (match o with Again _ => Up st' | SaveError => down st' end))
  | step_crash f fl st :
      (reckless = false → ¬ behind (MkSystem f fl (Up st)) st) →
      step reckless (MkSystem f fl (Up st)) (MkSystem f fl (down st))
  | step_start f fl disk c props entries profiles failed st :
      loads props (LoadProperties disk) → loads entries (LoadAuth disk) → loads profiles (LoadAgents disk) →
      run_start props entries profiles c (WithStore (Some disk)) = (failed, st) →
      step reckless (MkSystem f fl (Down disk c)) (MkSystem f fl (Up st)).

Definition initial : system := MkSystem [] 0 (Down NewMemoryStore "").

Definition reachable (reckless : bool) (s : system) : Prop := rtc (step reckless) initial s.

(** ** The invariant *)

(** [V] is right about every key that the events from position [n] on leave
    alone. *)
Definition good (f : list FeedEvent) (n : nat) (V : key → option value) : Prop :=
  ∀ k, touched k (ops_of (drop n f)) = false → V k = truth f k.

(** A view that is right about the keys the feed never touched is good from the
    start; then it is good at a cursor that has not expired. *)
Definition good_at (s : system) (c : string) (V : key → option value) : Prop :=
  good (feed s) 0 V ∧ (expired s c ∨ good (feed s) (position c) V).

Definition in_feed (s : system) (c : string) : Prop := position c ≤ length (feed s).

Definition inv_run (s : system) (st : run_state) : Prop :=
  registry_wf (indexes st) ∧ in_feed s (cursorVal st) ∧ in_feed s (saved st) ∧
  good_at s (cursorVal st) (view_memory (indexes st)) ∧
  good_at s (cursorVal st) (view_disk (indexes st)).

Definition inv (s : system) : Prop :=
  match proc s with
  | Down d c => store_wf d ∧ in_feed s c ∧ good_at s c (view_store d)
  | Up st => inv_run s st
  end.

Lemma ops_of_app f g : ops_of (f ++ g) = ops_of f ++ ops_of g.
Proof. apply bind_app. Qed.

Lemma truth_split f n k : truth f k = run_ops k (ops_of (drop n f)) (truth (take n f) k).
Proof. unfold truth. by rewrite <- run_app, <- ops_of_app, take_drop. Qed.

Lemma good_publish f evs n V : n ≤ length f → good f n V → good (f ++ evs) n V.
Proof.
  intros Hn H k. rewrite drop_app_le by done. rewrite ops_of_app, touched_app.
  intros [H1 H2]%orb_false_iff. rewrite H by done. unfold truth.
  by rewrite ops_of_app, run_app, (run_untouched k (ops_of evs)).
Qed.

Lemma good_later f n m V : n ≤ m → good f m V → good f n V.
Proof.
  intros Hn H k Hk. apply H. revert Hk. replace m with (n + (m - n)) by lia. rewrite <- drop_drop.
  set (d := drop n f). rewrite <- (take_drop (m - n) d) at 1. rewrite ops_of_app, touched_app.
  by intros [_ ?]%orb_false_iff.
Qed.

(** Operations on keys the pending events touch do no harm. *)
Lemma good_follows f n0 n m ok V V' :
  n0 ≤ n → follows (ops_of (take m (drop n f))) ok V V' → good f n0 V → good f n0 V'.
Proof.
  intros Hn [_ HU] H k Hk. rewrite HU; [by apply H|]. revert Hk.
  replace n with (n0 + (n - n0)) by lia. rewrite <- drop_drop. set (d := drop n0 f).
  rewrite <- (take_drop (n - n0) d) at 1. rewrite <- (take_drop m (drop (n - n0) d)) at 1.
  rewrite !ops_of_app, !touched_app. by intros [_ [? _]%orb_false_iff]%orb_false_iff.
Qed.

(** After all of a page the view is good at its end. *)
Lemma good_page f n m V V' :
  follows (ops_of (take m (drop n f))) true V V' → good f n V → good f (n + m) V'.
Proof.
  intros [HR _] H k Hk. rewrite (HR eq_refl). rewrite <- drop_drop in Hk.
  destruct (touched k (ops_of (take m (drop n f)))) eqn:Et.
  - rewrite (truth_split f n k). rewrite <- (take_drop m (drop n f)) at 2.
    rewrite ops_of_app, run_app, (run_untouched k (ops_of (drop m (drop n f)))) by done.
    by apply run_touched.
  - rewrite run_untouched by done. apply H. rewrite <- (take_drop m (drop n f)).
    by rewrite ops_of_app, touched_app, Et, Hk.
Qed.

Lemma truth_untouched f k : touched k (ops_of f) = false → truth f k = None.
Proof. intros H. by apply run_untouched. Qed.

Lemma good_at_start s V : good (feed s) 0 V → good_at s "" V.
Proof. intros H. split; [done|]. right. by rewrite position_start. Qed.

Lemma expired_start s : ¬ expired s "".
Proof. by intros [? _]. Qed.

(** Where the loop is not behind, the store is good for the saved cursor too. *)
Lemma good_saved s st : inv_run s st → ¬ behind s st → good_at s (saved st) (view_disk (indexes st)).
Proof.
  intros (_ & _ & _ & _ & G0 & G) Hb. split; [done|].
  destruct (decide (saved st = "")) as [->|Hs]; [right; by rewrite position_start|].
  destruct (decide (position (saved st) < floor s)) as [Hf|Hf]; [by left|].
  assert (position (saved st) ≤ position (cursorVal st)) as Hle.
  { apply Nat.nlt_ge. intros Hlt. apply Hb. split; [done|]. split; [intros [_ ?]; lia|done]. }
  destruct G as [[_ ?]|G]; [lia|]. right. by eapply good_later.
Qed.

Lemma inv_down s f fl st :
  inv_run s st → ¬ behind s st → feed s = f → floor s = fl → inv (MkSystem f fl (down st)).
Proof.
  intros H Hb <- <-. pose proof (good_saved s st H Hb) as Gs.
  destruct H as (([Hm Hd] & (d & Ed & Hwf)) & Hc & Hs & Gm & Gd). unfold inv, down. cbn.
  rewrite Ed. split; [done|]. split; [done|]. unfold good_at, view_disk in *. by rewrite Ed in Gs.
Qed.

(** The answer that a cursor has expired. *)
Lemma inv_expired s st ios save o st' :
  inv_run s st → expired s (cursorVal st) → iteration cfg CursorExpired ios save st = (o, st') → inv_run s st'.
Proof.
  intros (Hw & Hc & Hs & Gm & Gd) He. unfold iteration.
  pose proof (clearAll_performed (ios 0) (ios 1) (ios 2) (indexes st) Hw) as H.
  destruct (clearAllForRebootstrap _ _ _ _) as [ok w]. destruct H as (H & Vm & Vd & _).
  assert (good (feed s) 0 (view_memory w)) as G0m.
  { intros k Hk. rewrite Vm. symmetry. by apply truth_untouched. }
  assert (good (feed s) 0 (view_disk w)) as G0d.
  { intros k Hk. destruct (Vd k) as [-> | ->]; [by apply (proj1 Gd)|]. symmetry. by apply truth_untouched. }
  destruct ok; intros [= _ <-]; unfold inv_run; cbn [indexes saved cursorVal]; (split; [by apply (pf_wf _ _ _ _ H)|]).
  - assert ((save_cursor save "" (saved st)).2 = "" ∨ (save_cursor save "" (saved st)).2 = saved st) as Hsv
      by (destruct save; auto).
    split; [unfold in_feed; rewrite position_start; lia|].
    split; [destruct Hsv as [-> | ->]; [unfold in_feed; rewrite position_start; lia|done]|].
    by split; apply good_at_start.
  - split; [done|]. split; [done|]. by split; split; auto.
Qed.

(** A page: whatever happened in the stores, nothing the loop has passed is
    lost. *)
Lemma inv_fetched s st r ios save o st' :
  inv_run s st → answers s (cursorVal st) (Fetched r) →
  iteration cfg (Fetched r) ios save st = (o, st') → inv_run s st'.
Proof.
  intros (Hw & Hc & Hs & [G0m Gm] & [G0d Gd]) (Hne & n & Hn & He & Hcur). unfold iteration.
  pose proof (apply_page_performed ios 0 (Events r) (indexes st) Hw) as H.
  destruct (apply_page _ _ _ _) as [failed w]. destruct H as ([Hw' Fm Fd] & _). rewrite He in Fm, Fd.
  set (p := position (cursorVal st)) in *. set (ok := negb failed) in *.
  assert (∀ n0 V V', n0 ≤ p → follows (ops_of (take n (drop p (feed s)))) ok V V' →
    good (feed s) n0 V → good (feed s) n0 V') as Hfol by (intros; by eapply good_follows).
  destruct Gm as [?|Gm]; [done|]. destruct Gd as [?|Gd]; [done|].
  assert (good (feed s) 0 (view_memory w) ∧ good (feed s) 0 (view_disk w)) as [G0m' G0d'].
  { split; eapply Hfol; eauto; lia. }
  assert (good_at s (cursorVal st) (view_memory w) ∧ good_at s (cursorVal st) (view_disk w)) as [Gm' Gd'].
  { split; (split; [done|]); right; eapply Hfol; eauto. }
  destruct failed.
  { intros [= _ <-]. by split_and!. }
  assert (good (feed s) (p + n) (view_memory w) ∧ good (feed s) (p + n) (view_disk w)) as [Pm Pd].
  { split; by eapply good_page. }
  destruct (Cursor r) as [c|] eqn:Ec.
  2: { intros H. assert (cursorVal st' = cursorVal st ∧ saved st' = saved st ∧ indexes st' = w) as (E1 & E2 & E3).
       { destruct (HasMore r); by injection H as _ <-. }
       unfold inv_run, in_feed. rewrite E1, E2, E3. by split_and!. }
  specialize (Hcur c eq_refl). assert (in_feed s c) as Hcf by (unfold in_feed in *; rewrite Hcur; lia).
  assert (good_at s c (view_memory w) ∧ good_at s c (view_disk w)) as [Gcm Gcd].
  { split; (split; [done|]); right; by rewrite Hcur. }
  destruct (save_cursor save c (saved st)) as [okc stored] eqn:Esv. intros H.
  assert (cursorVal st' = c ∧ saved st' = stored ∧ indexes st' = w) as (E1 & E2 & E3).
  { cbn [fst] in H. destruct (negb okc && _)%bool; [by injection H as _ <-|].
    destruct (HasMore r); by injection H as _ <-. }
  unfold inv_run. rewrite E1, E2, E3.
  assert (stored = c ∨ stored = saved st) as [-> | ->] by (destruct save; injection Esv; auto).
  - by split_and!.
  - by split_and!.
Qed.

Lemma feed_inv_step s s' : step false s s' → inv s → inv s'.
Proof.
  intros H. destruct H as [f fl p evs|f fl fl' p Hfl|f fl st a ios save o st' Ha Hi Hb|f fl st Hb|
    f fl disk c props entries profiles failed st H1 H2 H3 Hr]; intros Hinv.
  - assert (∀ n V, n ≤ length f → good f n V → good (f ++ evs) n V) as Hg by apply good_publish.
    assert (∀ c V, in_feed (MkSystem f fl p) c → good_at (MkSystem f fl p) c V →
      good_at (MkSystem (f ++ evs) fl p) c V) as Hga.
    { intros c V Hc [G0 G]. split; [apply Hg; [lia|done]|]. destruct G; [by left|]. right. by apply Hg. }
    assert (∀ c, in_feed (MkSystem f fl p) c → in_feed (MkSystem (f ++ evs) fl p) c) as Hif.
    { intros c. unfold in_feed. cbn. rewrite length_app. lia. }
    destruct p as [d c|st].
    + destruct Hinv as (Hw & Hc & G). split; [done|]. split; [by apply Hif|by apply Hga].
    + destruct Hinv as (Hw & Hc & Hs & Gm & Gd). split; [done|].
      split; [by apply Hif|]. split; [by apply Hif|]. by split; apply Hga.
  - assert (∀ c V, good_at (MkSystem f fl p) c V → good_at (MkSystem f fl' p) c V) as Hga.
    { intros c V [G0 G]. split; [done|]. destruct G as [[? ?]|]; [left; split; [done|cbn in *; lia]|by right]. }
    destruct p as [d c|st].
    + destruct Hinv as (Hw & Hc & G). split; [done|]. split; [done|by apply Hga].
    + destruct Hinv as (Hw & Hc & Hs & Gm & Gd). split; [done|]. split; [done|]. split; [done|].
      by split; apply Hga.
  - assert (inv_run (MkSystem f fl (Up st)) st') as Hr.
    { destruct a as [r| |].
      - exact (inv_fetched _ st r ios save o st' Hinv Ha Hi).
      - exact (inv_expired _ st ios save o st' Hinv Ha Hi).
      - cbn in Hi. by injection Hi as _ <-. }
    destruct o; [exact Hr|]. exact (inv_down _ f fl st' Hr (Hb eq_refl eq_refl) eq_refl eq_refl).
  - exact (inv_down (MkSystem f fl (Up st)) f fl st Hinv (Hb eq_refl) eq_refl eq_refl).
  - destruct Hinv as (Hw & Hc & G0 & G).
    pose proof (run_start_spec props entries profiles c disk Hw H1 H2 H3) as Hs. rewrite Hr in Hs.
    destruct Hs as (Hwf & Est & Esv & Ecu & Hincl & Heq & _).
    assert (∀ k, view_disk (indexes st) k = view_store disk k) as Hd.
    { intros k. unfold view_disk. by rewrite Est. }
    assert (∀ n, good f n (view_store disk) → good f n (view_disk (indexes st))) as Hgd.
    { intros n Hg k Hk. rewrite Hd. by apply Hg. }
    assert (good f 0 (view_memory (indexes st))) as G0m.
    { intros k Hk. destruct (view_memory (indexes st) k) as [v|] eqn:Ev.
      - apply Hincl in Ev. rewrite <- Ev. by apply G0.
      - symmetry. by apply truth_untouched. }
    unfold inv. cbn [proc]. unfold inv_run. rewrite Esv, Ecu. split; [done|]. destruct failed.
    + split; [unfold in_feed; rewrite position_start; lia|]. split; [done|].
      split; apply good_at_start; [done|by apply Hgd].
    + split; [done|]. split; [done|]. split.
      * split; [done|]. destruct G as [|G]; [by left|]. right. intros k Hk. rewrite Heq by done. by apply G.
      * split; [by apply Hgd|]. destruct G; [by left|]. right. by apply Hgd.
Qed.

Lemma reachable_inv s : reachable false s → inv s.
Proof.
  unfold reachable. revert s. apply rtc_ind_r; [|by intros; eapply feed_inv_step].
  unfold inv. cbn. split; [split; cbn; intros *; by rewrite lookup_empty|].
  split; [unfold in_feed; cbn; by rewrite position_start|].
  apply good_at_start. intros k _. cbn. unfold truth. cbn.
  destruct k; cbn; unfold stored_grant; cbn; by rewrite lookup_empty.
Qed.

(** A page with everything that is pending, and stores that answer. *)
Lemma clean_poll s st c save :
  inv_run s st → ¬ expired s (cursorVal st) → position c = length (feed s) →
  let r := MkFeed (drop (position (cursorVal st)) (feed s)) (Some c) false in
  answers s (cursorVal st) (Fetched r) ∧
  ∃ o st', iteration cfg (Fetched r) (λ _, IoOk) save st = (o, st') ∧ cursorVal st' = c ∧
    (save = IoOk → o = Again (PollInterval cfg) ∧ saved st' = c).
Proof.
  intros (Hw & Hc & _) Hne Hpos r. split.
  - split; [done|]. exists (length (feed s) - position (cursorVal st)). split; [lia|]. split.
    + unfold r. cbn. rewrite take_ge; [done|]. rewrite length_drop. lia.
    + intros c' [= <-]. unfold in_feed in Hc. lia.
  - unfold iteration. pose proof (apply_page_performed (λ _, IoOk) 0 (Events r) (indexes st) Hw) as H.
    destruct (apply_page _ _ _ _) as [failed w]. destruct H as [_ ->]; [|done]. cbn [Cursor HasMore r].
    destruct (save_cursor save c (saved st)) as [okc stored] eqn:E. cbn [fst].
    destruct (negb okc && _)%bool eqn:Eb; do 2 eexists; (split; [done|]); (split; [done|]).
    + intros ->. injection E as <- <-. done.
    + intros ->. by injection E as <- <-.
Qed.

(** One clean answer of expiry brings the loop back to the start. *)
Lemma clean_expired s st :
  inv_run s st →
  ∃ st', iteration cfg CursorExpired (λ _, IoOk) IoOk st = (Again 0, st') ∧ cursorVal st' = "".
Proof.
  intros (Hw & _). unfold iteration.
  pose proof (clearAll_performed IoOk IoOk IoOk (indexes st) Hw) as H.
  destruct (clearAllForRebootstrap _ _ _ _) as [ok w]. destruct H as (_ & _ & _ & ->); [|done..]. eauto.
Qed.

Lemma synced_views s st k :
  inv_run s st → ¬ expired s (cursorVal st) →
  touched k (ops_of (drop (position (cursorVal st)) (feed s))) = false →
  view_memory (indexes st) k = truth (feed s) k ∧ view_disk (indexes st) k = truth (feed s) k.
Proof.
  intros (_ & _ & _ & [_ Gm] & [_ Gd]) Hne Hk.
  destruct Gm as [|Gm]; [done|]. destruct Gd as [|Gd]; [done|]. auto.
Qed.

Lemma down_disk st : registry_wf (indexes st) → ∃ d, down st = Down d (saved st) ∧ store (indexes st) = Some d.
Proof. intros [_ (d & E & _)]. exists d. unfold down. by rewrite E. Qed.

(** The process can come up, and leave an expired cursor. *)
Lemma can_start s :
  inv s → ∃ s' st, rtc (step false) s s' ∧ feed s' = feed s ∧ floor s' = floor s ∧ proc s' = Up st ∧ inv_run s' st.
Proof.
  intros H. destruct s as [f fl [d c|st]]; [|by exists (MkSystem f fl (Up st)), st].
  destruct (run_start (Some (LoadProperties d)) (Some (LoadAuth d)) (Some (LoadAgents d)) c
    (WithStore (Some d))) as [failed st] eqn:Er.
  assert (step false (MkSystem f fl (Down d c)) (MkSystem f fl (Up st))) as Hs.
  { by eapply step_start; [..|exact Er]. }
  exists (MkSystem f fl (Up st)), st. split; [by apply rtc_once|]. repeat (split; [done|]).
  exact (feed_inv_step _ _ Hs H).
Qed.

Lemma can_rewind s st :
  inv_run s st → proc s = Up st →
  ∃ s' st', rtc (step false) s s' ∧ feed s' = feed s ∧ floor s' = floor s ∧ proc s' = Up st' ∧
    inv_run s' st' ∧ ¬ expired s' (cursorVal st').
Proof.
  intros H Hp. destruct s as [f fl p]. cbn in Hp. subst p.
  destruct (decide (cursorVal st ≠ "" ∧ position (cursorVal st) < fl)) as [He|Hne].
  2: { exists (MkSystem f fl (Up st)), st. repeat (split; [done|]). done. }
  destruct (clean_expired _ st H) as (st' & Hi & Hc).
  assert (step false (MkSystem f fl (Up st)) (MkSystem f fl (Up st'))) as Hs
    by (eapply (step_poll false f fl st CursorExpired _ _ (Again 0) st' He Hi); done).
  exists (MkSystem f fl (Up st')), st'. split; [by apply rtc_once|]. repeat (split; [done|]).
  rewrite Hc. split; [|apply expired_start]. exact (feed_inv_step _ _ Hs H).
Qed.

(** *** Who is behind *)

(** A poll leaves the cursor that it saved, or moves on from it, or rewinds from one that expired. *)
Lemma poll_not_behind s st answer ios save o st' :
  inv_run s st → answers s (cursorVal st) answer → iteration cfg answer ios save st = (o, st') →
  ¬ behind s st → ¬ behind s st'.
Proof.
  intros (Hw & Hc & _) Ha Hi Hb. destruct answer as [r| |]; cbn [answers] in Ha.
  - destruct Ha as (Hne & n & Hn & He & Hcur). unfold iteration in Hi.
    destruct (apply_page _ _ _ _) as [failed w]. destruct failed; [by injection Hi as _ <-|].
    destruct (Cursor r) as [c|] eqn:Ec.
    2: { assert (cursorVal st' = cursorVal st ∧ saved st' = saved st) as [E1 E2] by (destruct (HasMore r); by injection Hi as _ <-).
         unfold behind in *. by rewrite E1, E2. }
    specialize (Hcur c eq_refl). destruct (save_cursor save c (saved st)) as [okc stored] eqn:Esv.
    assert (cursorVal st' = c ∧ saved st' = stored) as [E1 E2].
    { cbn [fst] in Hi. destruct (negb okc && _)%bool; [by injection Hi as _ <-|]. destruct (HasMore r); by injection Hi as _ <-. }
    unfold behind in *. rewrite E1, E2.
    assert (stored = c ∨ stored = saved st) as [-> | ->] by (destruct save; injection Esv; auto); [lia|].
    intros (? & ? & ?). apply Hb. split_and!; [done|done|lia].
  - unfold iteration in Hi. destruct (clearAllForRebootstrap _ _ _ _) as [ok w].
    destruct ok; injection Hi as _ <-; unfold behind in *; cbn [saved cursorVal]; [|done].
    assert ((save_cursor save "" (saved st)).2 = "" ∨ (save_cursor save "" (saved st)).2 = saved st) as [-> | ->]
      by (destruct save; auto); [by intros []|].
    intros (Hs & He & _). apply Hb. split_and!; [done..|]. destruct Ha as [_ Ha]. unfold expired in He.
    apply Nat.nle_gt. intros Hle. apply He. split; [done|lia].
  - cbn in Hi. by injection Hi as _ <-.
Qed.

#[local] Instance behind_dec s st : Decision (behind s st).
Proof. unfold behind, expired. apply _. Defined.

(** The loop falls behind its saved cursor only by a start with a saved cursor whose hydration fails. *)
Theorem behind_only_forced s s' st' :
  step false s s' → inv s → proc s' = Up st' → behind s' st' →
  (∃ st, proc s = Up st ∧ behind s st) ∨
  ∃ disk c props entries profiles, proc s = Down disk c ∧ c ≠ "" ∧ loads props (LoadProperties disk) ∧
    loads entries (LoadAuth disk) ∧ loads profiles (LoadAgents disk) ∧
    run_start props entries profiles c (WithStore (Some disk)) = (true, st').
Proof.
  intros H Hinv. destruct H as [f fl p evs|f fl fl' p Hfl|f fl st a ios save o st2 Ha Hi _|f fl st _|
    f fl disk c props entries profiles failed st H1 H2 H3 Hr]; cbn [proc]; intros Hp Hb.
  - subst p. left. by exists st'.
  - subst p. left. exists st'. split; [done|]. destruct Hb as (? & Hx & ?). split_and!; [done| |done].
    intros [? ?]. apply Hx. split; [done|]. cbn in *. lia.
  - left. exists st. split; [done|]. destruct (decide (behind (MkSystem f fl (Up st)) st)) as [|Hn]; [done|].
    destruct o; [|unfold down in Hp; destruct (store _); [done|]]; injection Hp as ->;
      by destruct (poll_not_behind _ _ _ _ _ _ _ Hinv Ha Hi Hn).
  - left. exists st. split; [done|]. unfold down in Hp. destruct (store _); [done|]. by injection Hp as ->.
  - right. injection Hp as ->. destruct Hinv as (Hw & _).
    pose proof (run_start_spec props entries profiles c disk Hw H1 H2 H3) as Hs. rewrite Hr in Hs.
    destruct Hs as (_ & _ & Esv & Ecu & _). destruct Hb as (Hne & _ & Hlt). rewrite Esv, Ecu in *.
    destruct failed; [|lia]. by exists disk, c, props, entries, profiles.
Qed.

End System.

(** ** Properties *)

(** C21: In every state of feed, loop, failing stores and hydrations, expiring cursors and crashes,
    as long as no process goes down behind its own saved cursor, a key that no pending event
    touches has the value the feed gives it, in memory and in the store.  A process is behind only
    after its hydration failed with a cursor saved, until it has caught up ([behind_only_forced]);
    one that dies then breaks the property ([forced_bootstrap_unsafe]). *)
Theorem feed_synced `{RT : Runtime} `{PF : Profile} `{CU : Cursors} cfg s st k :
  reachable cfg false s → proc s = Up st → ¬ expired s (cursorVal st) →
  touched k (ops_of (drop (position (cursorVal st)) (feed s))) = false →
  view_memory (indexes st) k = truth (feed s) k ∧ view_disk (indexes st) k = truth (feed s) k.
Proof.
  intros H%reachable_inv Hp. unfold inv in H. rewrite Hp in H. by apply synced_views.
Qed.

(** The saved cursor never runs ahead of the store: after a crash at any moment
    the store holds the value the feed gives to each key that no event after the
    saved cursor touches. *)
Theorem saved_cursor_safe `{RT : Runtime} `{PF : Profile} `{CU : Cursors} cfg s disk c k :
  reachable cfg false s →
  (proc s = Down disk c ∨ ∃ st, proc s = Up st ∧ ¬ behind s st ∧ down st = Down disk c) → ¬ expired s c →
  touched k (ops_of (drop (position c) (feed s))) = false → view_store disk k = truth (feed s) k.
Proof.
  intros H%reachable_inv Hd Hne Hk. unfold inv in H.
  assert (good_at s c (view_store disk)) as [_ [|G]]; [|done|by apply G].
  destruct Hd as [Hp|(st & Hp & Hb & Hd)]; rewrite Hp in H; [by destruct H as (_ & _ & ?)|].
  pose proof (good_saved s st H Hb) as G. destruct H as (Hw & _). destruct (down_disk st Hw) as (d & E & Est).
  rewrite Hd in E. injection E as -> ->. unfold good_at, view_disk in *. by rewrite Est in G.
Qed.

(** C22: From every state reached without a process going down behind its own saved cursor, a start
    if the process is down, a clean answer of expiry if the cursor has expired and one clean page
    bring the memory and the store to what the whole feed says, with the cursor saved at its end. *)
Theorem sync_recovers `{RT : Runtime} `{PF : Profile} `{CU : Cursors} cfg s c :
  reachable cfg false s → position c = length (feed s) → ¬ expired s c →
  ∃ s' st, rtc (step cfg false) s s' ∧ feed s' = feed s ∧ proc s' = Up st ∧ saved st = c ∧
    ∀ k, view_memory (indexes st) k = truth (feed s) k ∧ view_disk (indexes st) k = truth (feed s) k.
Proof.
  intros H%reachable_inv Hpos Hnc.
  destruct (can_start cfg s H) as (s1 & st1 & R1 & F1 & L1 & P1 & I1).
  destruct (can_rewind cfg s1 st1 I1 P1) as (s2 & st2 & R2 & F2 & L2 & P2 & I2 & N2).
  destruct s2 as [f fl p]. cbn in *. subst p. rewrite F1 in F2. rewrite L1 in L2. subst f fl.
  destruct (clean_poll cfg _ st2 c IoOk I2 N2 Hpos) as (Ha & o & st3 & Hi & Hc & Ho).
  destruct (Ho eq_refl) as [-> Hs].
  pose proof (step_poll cfg false _ _ st2 _ _ _ _ st3 Ha Hi ltac:(done)) as S3.
  pose proof (feed_inv_step cfg _ _ S3 I2) as I3.
  exists (MkSystem (feed s) (floor s) (Up st3)), st3.
  split; [etransitivity; [exact R1|]; etransitivity; [exact R2|]; by apply rtc_once|].
  do 3 (split; [done|]). intros k. apply (synced_views (MkSystem (feed s) (floor s) (Up st3)) st3 k I3); rewrite Hc.
  - done.
  - cbn. rewrite Hpos, drop_ge by done. done.
Qed.

(** ** A run with a crash *)

Module Toy.

Definition profile : Profile :=
  {| AgentProfile := string; AgentURL := λ s, s; UnmarshalAgentProfile := Some |}.
Definition cursors : Cursors := {| position := len; position_start := eq_refl |}.
#[local] Existing Instances ascii_runtime profile cursors.

Definition cfg : SyncerConfig := defaults (MkConfig 0 0 0 0).

Definition property_event (t domain : string) : FeedEvent :=
  let q := String quote "" in
  MkEvent "" t "property" "a"
    ("{" +:+ q +:+ "property_id" +:+ q +:+ ":" +:+ q +:+ "a" +:+ q +:+ "," +:+
     q +:+ "Property_RID" +:+ q +:+ ":" +:+ q +:+ "r" +:+ q +:+ "," +:+
     q +:+ "domain" +:+ q +:+ ":" +:+ q +:+ domain +:+ q +:+ "}") "" 0%Z.

Definition e1 : FeedEvent := property_event "property.created" "old.example".
Definition e2 : FeedEvent := property_event "property.updated" "new.example".
Definition log : list FeedEvent := [e1; e2].

Definition start (d : MemoryStore) (c : string) : run_state :=
  (run_start (Some (LoadProperties d)) (Some (LoadAuth d)) (Some (LoadAgents d)) c (WithStore (Some d))).2.
Definition poll (r : FeedResponse) (save : io) (st : run_state) : run_state :=
  (iteration cfg (Fetched r) (λ _, IoOk) save st).2.
Definition disk (st : run_state) : MemoryStore := default NewMemoryStore (store (indexes st)).

(** The first process reads both events. *)
Definition up1 : run_state := start NewMemoryStore "".
Definition page_all : FeedResponse := MkFeed log (Some "xx") false.
Definition up2 : run_state := poll page_all IoOk up1.

Lemma reach_up1 reckless : reachable cfg reckless (MkSystem log 0 (Up up1)).
Proof.
  eapply rtc_l; [apply (step_publish cfg reckless [] 0 _ log)|]. apply rtc_once.
  eapply (step_start cfg reckless log 0 NewMemoryStore ""); [..|apply surjective_pairing]; intros ?; reflexivity.
Qed.

Lemma reach_up2 reckless : reachable cfg reckless (MkSystem log 0 (Up up2)).
Proof.
  eapply rtc_r; [apply reach_up1|].
  apply (step_poll cfg reckless log 0 up1 (Fetched page_all) (λ _, IoOk) IoOk (Again (30 * Second)) up2); [..|done].
  - split; [intros [_ ?]; cbn in *; lia|]. exists 2. split; [vm_compute; lia|]. split; [reflexivity|].
    by intros ? [= <-].
  - vm_compute. reflexivity.
Qed.

(** It crashes; the next one cannot load its store, starts over and crashes after
    it applied the first event again, before it saved a cursor; the third one
    loads what is left. *)
Definition up3 : run_state := (run_start None None None "xx" (WithStore (Some (disk up2)))).2.
Definition page_one : FeedResponse := MkFeed [e1] (Some "x") true.
Definition up4 : run_state := poll page_one IoLost up3.
Definition up5 : run_state := start (disk up4) "xx".

Lemma reach_up5 : reachable cfg true (MkSystem log 0 (Up up5)).
Proof.
  eapply rtc_r; [eapply rtc_r; [eapply rtc_r; [eapply rtc_r; [eapply rtc_r; [apply (reach_up2 true)|]|]|]|]|].
  - by apply step_crash.
  - apply (step_start cfg true log 0 (disk up2) "xx" None None None true up3); try done.
  - apply (step_poll cfg true log 0 up3 (Fetched page_one) (λ _, IoOk) IoLost (Again 0) up4); [..|done].
    + split; [intros [_ ?]; cbn in *; lia|]. exists 1. split; [vm_compute; lia|]. split; [reflexivity|].
      by intros ? [= <-].
    + vm_compute. reflexivity.
  - by apply step_crash.
  - apply (step_start cfg true log 0 (disk up4) "xx" (Some (LoadProperties (disk up4)))
      (Some (LoadAuth (disk up4))) (Some (LoadAgents (disk up4))) false up5); try (intros ?; reflexivity); done.
Qed.

(** The third process, had it lived to apply both events: behind at first, then synced again. *)
Definition up6 : run_state := poll page_all IoOk up3.

Lemma reach_up6 : behind (MkSystem log 0 (Up up3)) up3 ∧ reachable cfg false (MkSystem log 0 (Up up6)).
Proof.
  split; [split_and!; [vm_compute; discriminate|intros [_ H]; vm_compute in H; lia|vm_compute; lia]|].
  eapply rtc_r; [eapply rtc_r; [eapply rtc_r; [apply (reach_up2 false)|]|]|].
  - apply step_crash. intros _ (_ & _ & H). vm_compute in H. lia.
  - apply (step_start cfg false log 0 (disk up2) "xx" None None None true up3); done.
  - apply (step_poll cfg false log 0 up3 (Fetched page_all) (λ _, IoOk) IoOk (Again (30 * Second)) up6); [..|done].
    + split; [intros [_ ?]; cbn in *; lia|]. exists 2. split; [vm_compute; lia|]. split; [reflexivity|].
      by intros ? [= <-].
    + vm_compute. reflexivity.
Qed.

Lemma feed_synced_witness :
  view_memory (indexes up6) (KProperty "a") = truth log (KProperty "a") ∧
  view_disk (indexes up6) (KProperty "a") = truth log (KProperty "a").
Proof.
  apply (feed_synced cfg (MkSystem log 0 (Up up6)) up6).
  - apply reach_up6.
  - reflexivity.
  - intros [_ ?]. cbn in *. lia.
  - vm_compute. reflexivity.
Defined.

Lemma saved_cursor_safe_witness :
  view_store (disk up2) (KProperty "a") = truth log (KProperty "a").
Proof.
  apply (saved_cursor_safe cfg (MkSystem log 0 (Up up2)) (disk up2) "xx").
  - apply reach_up2.
  - right. exists up2. split; [reflexivity|]. split; [intros (_ & _ & H); vm_compute in H; lia|]. vm_compute; reflexivity.
  - intros [_ ?]. cbn in *. lia.
  - vm_compute. reflexivity.
Defined.

Lemma sync_recovers_witness :
  ∃ s' st, rtc (step cfg false) (MkSystem log 0 (Up up1)) s' ∧ feed s' = log ∧ proc s' = Up st ∧
    saved st = "yy" ∧
    ∀ k, view_memory (indexes st) k = truth log k ∧ view_disk (indexes st) k = truth log k.
Proof.
  apply (sync_recovers cfg (MkSystem log 0 (Up up1)) "yy").
  - apply reach_up1.
  - reflexivity.
  - intros [_ ?]. cbn in *. lia.
Defined.

End Toy.

(** A bootstrap forced by a failed hydration is not safe: if the process dies
    after it applied a first page and before it saved the cursor of that page,
    the saved cursor is ahead of the store, and the next process serves a
    value that the feed replaced, with nothing pending. *)
Theorem forced_bootstrap_unsafe :
  ∃ (RT : Runtime) (PF : Profile) (CU : Cursors) cfg s st k,
    reachable cfg true s ∧ proc s = Up st ∧ ¬ expired s (cursorVal st) ∧
    position (cursorVal st) = length (feed s) ∧ view_memory (indexes st) k ≠ truth (feed s) k.
Proof.
  exists ascii_runtime, Toy.profile, Toy.cursors, Toy.cfg, (MkSystem Toy.log 0 (Up Toy.up5)), Toy.up5,
    (KProperty "a").
  split; [apply Toy.reach_up5|]. split; [done|]. split; [intros [_ ?]; cbn in *; lia|].
  split; [vm_compute; reflexivity|]. vm_compute. discriminate.
Qed.
