(* ===== verification/Jcs.v ===== *)
(** * Jcs: canonical JSON and payload hashes

    [src/adcp/v3/idempotency/canonical.go]: RFC 8785 canonicalization of a
    decoded payload, the exclusion of paths, and the payload hash by which the
    idempotency middleware tells a retry from a conflict; and the second
    canonicalizer of the repository, [src/tmproto/jcs.go]. *)
From S2P Require Import Prelude GoStrings Unicode Json Float Idempotency.
From stdpp Require Import options.

(** ** Decoded values

    A decoded object is a Go map: of members of the same name the last one
    stays. *)
Fixpoint last_members {A} (l : list (string * A)) : list (string * A) :=
  match l with
  | [] => []
  | kv :: l' => if bool_decide (kv.1 ∈ l'.*1) then last_members l' else kv :: last_members l'
  end.

Fixpoint decoded (v : json) : json :=
  match v with
  | JArr l => JArr (map decoded l)
  | JObj l => JObj (last_members (map (λ kv, (kv.1, decoded kv.2)) l))
  | _ => v
  end.

(** ** Numbers *)

Definition no_zeros (s : string) : string := TrimRight (λ c, beq c "0") s.

Definition fixedDecimal (digits : string) (decExp : Z) : string :=
  if (decExp <? 0)%Z then "0." +:+ Repeat "0" (Z.to_nat (- decExp - 1)) +:+ digits else
  if (Z.of_nat (len digits) <=? decExp + 1)%Z
  then digits +:+ Repeat "0" (Z.to_nat (decExp + 1 - Z.of_nat (len digits)))
  else stake (Z.to_nat (decExp + 1)) digits +:+ "." +:+ sdrop (Z.to_nat (decExp + 1)) digits.

(** [formatES6] of what [FormatFloat] wrote. *)
Definition formatES6_text (s : string) : string :=
  let '(mantissa, expPart, ok) := Cut s "e" in
  if negb ok then s else
  match ParseInt expPart with
  | None => s
  | Some exp =>
      let '(sign, mantissa) :=
        match CutPrefix mantissa "-" with Some m => ("-", m) | None => ("", mantissa) end in
      let '(intPart, fracPart, _) := Cut mantissa "." in
      let digits := no_zeros (intPart +:+ fracPart) in
      let digits := if bool_decide (digits = "") then "0" else digits in
      let decExp := (exp - Z.of_nat (len fracPart) + Z.of_nat (len digits) - 1)%Z in
      if (-6 <=? decExp)%Z && (decExp <? 21)%Z then sign +:+ fixedDecimal digits decExp else
      sign +:+ stake 1 digits +:+ (if (1 <? len digits)%nat then "." +:+ sdrop 1 digits else "") +:+
      "e" +:+ (if (0 <=? decExp)%Z then "+" else "") +:+ Itoa decExp
  end.

Definition formatES6 (f : float) : string := formatES6_text (FormatFloat_e f).

Inductive canon_error := DecodeError | MultipleValues | InvalidNumber (n : string) | NotUTF8.

Definition writeCanonicalNumber (numStr : string) : result canon_error string :=
  match ParseFloat numStr with
  | None => Err (InvalidNumber numStr)
  | Some f => Ok (if fzero f then "0" else formatES6 f)
  end.

(** ** Strings *)

Definition q1 : string := String quote "".

Definition escape (c : ascii) : string := String backslash (String c "").

Definition rune_text (r : Z) : string :=
  if (r =? 34)%Z then escape quote else
  if (r =? 92)%Z then escape backslash else
  if (r =? 8)%Z then escape "b" else
  if (r =? 12)%Z then escape "f" else
  if (r =? 10)%Z then escape "n" else
  if (r =? 13)%Z then escape "r" else
  if (r =? 9)%Z then escape "t" else
  if (r <? 32)%Z then escape "u" +:+ "00" +:+ hex_encode [r] else write_rune r.

Definition string_text (l : list Z) : string := foldr (λ r s, rune_text r +:+ s) "" l.

Definition writeJSONString (s : string) : result canon_error string :=
  if ValidString s then Ok (q1 +:+ string_text (runes s) +:+ q1) else Err NotUTF8.

(** ** Keys *)

Fixpoint units_lt (a b : list Z) : bool :=
  match a, b with
  | x :: a', y :: b' => if (x =? y)%Z then units_lt a' b' else (x <? y)%Z
  | [], _ :: _ => true
  | _, [] => false
  end.

Definition key_lt (a b : string) : bool := units_lt (utf16_encode (runes a)) (utf16_encode (runes b)).

(** [sort.Slice] by [key_lt]; the keys of a map are distinct, so every sorting
    algorithm gives this order. *)
Fixpoint insert_member {A} (kv : string * A) (l : list (string * A)) : list (string * A) :=
  match l with
  | [] => [kv]
  | x :: l' => if key_lt kv.1 x.1 then kv :: l else x :: insert_member kv l'
  end.
Definition sort_members {A} (l : list (string * A)) : list (string * A) := foldr insert_member [] l.

(** ** Values *)

(** The members in order, separated by commas. *)
Fixpoint sep_by (l : list string) : string :=
  match l with [] => "" | [s] => s | s :: l' => s +:+ "," +:+ sep_by l' end.

Fixpoint all_ok {E A} (l : list (result E A)) : result E (list A) :=
  match l with
  | [] => Ok []
  | r :: l' => x ← r; xs ← all_ok l'; Ok (x :: xs)
  end.

(** A member whose value was written. *)
Definition member_text (kv : string * result canon_error string) : result canon_error string :=
  k ← writeJSONString kv.1; v ← kv.2; Ok (k +:+ ":" +:+ v).

(** [writeCanonical]: the members of an object are written in the order of their
    keys, after every key was validated. *)
Fixpoint writeCanonical (v : json) : result canon_error string :=
  match v with
  | JNull => Ok "null"
  | JBool b => Ok (if b then "true" else "false")
  | JStr s => writeJSONString s
  | JNum n => writeCanonicalNumber n
  | JArr l => items ← all_ok (map writeCanonical l); Ok ("[" +:+ sep_by items +:+ "]")
  | JObj l =>
      if negb (forallb (λ kv, ValidString kv.1) l) then Err NotUTF8 else
      items ← all_ok (map member_text (sort_members (map (λ kv, (kv.1, writeCanonical kv.2)) l)));
      Ok ("{" +:+ sep_by items +:+ "}")
  end.

(** [Canonicalize]: exactly one value. *)
Definition Canonicalize (payload : string) : result canon_error string :=
  match json_decode_first payload with
  | None => Err DecodeError
  | Some (v, rest) =>
      if bool_decide (skip_ws rest = "") then writeCanonical (decoded v) else
      match json_decode_first rest with
      | Some _ => Err MultipleValues
      | None => Err DecodeError
      end
  end.

(** ** Excluded paths *)

Inductive excludeNode := Node (leaf : bool) (children : list (string * excludeNode)).

Definition node_leaf (n : excludeNode) : bool := let '(Node b _) := n in b.
Definition node_children (n : excludeNode) : list (string * excludeNode) := let '(Node _ l) := n in l.
Definition node_child (k : string) (n : excludeNode) : option excludeNode :=
  snd <$> List.find (λ kv, bool_decide (kv.1 = k)) (node_children n).

(** The node at [parts] below [n] becomes a leaf. *)
Fixpoint add_path (parts : list string) (n : excludeNode) : excludeNode :=
  match parts with
  | [] => Node true (node_children n)
  | p :: parts' =>
      let child := add_path parts' (default (Node false []) (node_child p n)) in
      Node (node_leaf n) ((p, child) :: List.filter (λ kv, negb (bool_decide (kv.1 = p))) (node_children n))
  end.

Definition compileExcludePaths (paths : list string) : excludeNode :=
  foldl (λ n p, add_path (Split p ".") n) (Node false []) paths.

Fixpoint stripPaths (v : json) (node : excludeNode) : json :=
  match v with
  | JObj l =>
      JObj (flat_map (λ kv,
        match node_child kv.1 node with
        | Some n =>
            if node_leaf n then [] else
            if bool_decide (node_children n = []) then [kv] else [(kv.1, stripPaths kv.2 n)]
        | None => [kv]
        end) l)
  | _ => v
  end.

Definition DefaultExcludePaths : list string :=
  ["idempotency_key"; "context"; "governance_context"; "push_notification_config.authentication.credentials"].

Section Hash.
Context `{RT : Runtime}.

(** [NewCanonicalJSONSHA256]: what follows the first value is not read. *)
Definition NewCanonicalJSONSHA256 (excludePaths : list string) (payload : string) : result canon_error string :=
  match json_decode_first payload with
  | None => Err DecodeError
  | Some (v, _) =>
      canon ← writeCanonical (stripPaths (decoded v) (compileExcludePaths excludePaths));
      Ok (hex_encode (map code (explode (Sha256 canon))))
  end.

Definition CanonicalJSONSHA256 : string → result canon_error string :=
  NewCanonicalJSONSHA256 DefaultExcludePaths.

End Hash.
