(* ===== verification/JcsText.v ===== *)
(** * JcsText: the texts of canonical strings and numbers are read back

    The JSON decoder reads a canonical string literal as the string and a
    canonical number as the number. *)
From S2P Require Import Prelude GoStrings Unicode Json Float Idempotency Jcs.
From stdpp Require Import options.

(** ** Valid strings and their runes *)

#[local] Arguments code : simpl never.
#[local] Arguments byte : simpl never.
#[local] Arguments Z.add : simpl never.
#[local] Arguments Z.sub : simpl never.
#[local] Arguments Z.mul : simpl never.
#[local] Arguments Z.ltb : simpl never.
#[local] Arguments Z.leb : simpl never.
#[local] Arguments Z.eqb : simpl never.

Lemma byte_is_code (n : Z) c : n = code c → byte n = c.
Proof. intros ->. apply byte_code. Qed.

Lemma div_mod_64 (q r : Z) : (0 ≤ r < 64)%Z → ((q * 64 + r) / 64 = q ∧ (q * 64 + r) mod 64 = r)%Z.
Proof.
  intros Hr. split.
  - rewrite Z.div_add_l by lia. rewrite Z.div_small; lia.
  - rewrite Z.add_comm, Z.mod_add by lia. apply Z.mod_small. lia.
Qed.

(** A valid sequence is the encoding of its rune. *)
Lemma utf8_sequence l n :
  utf8_len l = S n → valid_rune (rune_value (S n) l) = true ∧
  ∃ bs, l = bs ++ drop (S n) l ∧ length bs = S n ∧ utf8_encode (rune_value (S n) l) = implode bs.
Proof.
  intros H. pose proof (decode_rune_valid l) as Hv. unfold decode_rune in Hv. rewrite H in Hv.
  split; [exact Hv|]. clear Hv. revert H. unfold utf8_len.
  destruct l as [|a l]; [done|]. pose proof (code_range a) as Ra. destruct (Z.ltb_spec (code a) 128).
  { intros [= <-]. exists [a]. split; [done|]. split; [done|]. unfold rune_value, utf8_encode.
    rewrite (proj2 (Z.ltb_lt _ _)) by done. cbn. by rewrite byte_code. }
  destruct l as [|b l]; [done|]. pose proof (code_range b) as Rb. unfold cont, between.
  destruct (_ && _) eqn:E.
  { intros [= <-]. bool_prop. exists [a; b]. split; [done|]. split; [done|]. unfold rune_value, utf8_encode.
    destruct (div_mod_64 (code a - 192) (code b - 128)) as [-> ->]; [lia|].
    rewrite (proj2 (Z.ltb_ge _ _)), (proj2 (Z.ltb_lt _ _)) by lia. cbn.
    by rewrite (byte_is_code _ a), (byte_is_code _ b) by lia. }
  destruct l as [|c l]; [done|]. pose proof (code_range c) as Rc. clear E. destruct (_ && _) eqn:E.
  { intros [= <-]. bool_prop. assert (128 ≤ code b ≤ 191)%Z as Hb.
    { destruct (Z.eqb_spec (code a) 224), (Z.eqb_spec (code a) 237); lia. }
    exists [a; b; c]. split; [done|]. split; [done|]. unfold rune_value, utf8_encode.
    replace ((code a - 224) * 4096 + (code b - 128) * 64 + (code c - 128))%Z
      with (((code a - 224) * 64 + (code b - 128)) * 64 + (code c - 128))%Z by ring.
    set (r := (((code a - 224) * 64 + (code b - 128)) * 64 + (code c - 128))%Z).
    assert (r / 64 = (code a - 224) * 64 + (code b - 128))%Z as E0 by (apply div_mod_64; lia).
    assert (r / 4096 = code a - 224)%Z as E1.
    { replace 4096%Z with (64 * 64)%Z by done. rewrite <- Z.div_div by lia. rewrite E0. apply div_mod_64. lia. }
    assert ((r / 64) mod 64 = code b - 128)%Z as E2 by (rewrite E0; apply div_mod_64; lia).
    assert (r mod 64 = code c - 128)%Z as E3 by (apply div_mod_64; lia).
    assert (2048 ≤ r < 65536)%Z.
    { unfold r. destruct (Z.eqb_spec (code a) 224), (Z.eqb_spec (code a) 237); lia. }
    rewrite !(proj2 (Z.ltb_ge _ _)), (proj2 (Z.ltb_lt _ _)) by lia. rewrite E1, E2, E3. cbn.
    by rewrite (byte_is_code _ a), (byte_is_code _ b), (byte_is_code _ c) by lia. }
  destruct l as [|d l]; [done|]. pose proof (code_range d) as Rd. clear E. destruct (_ && _) eqn:E; [|done].
  intros [= <-]. bool_prop. assert (128 ≤ code b ≤ 191)%Z as Hb.
  { destruct (Z.eqb_spec (code a) 240), (Z.eqb_spec (code a) 244); lia. }
  exists [a; b; c; d]. split; [done|]. split; [done|].
  unfold rune_value, utf8_encode.
  replace ((code a - 240) * 262144 + (code b - 128) * 4096 + (code c - 128) * 64 + (code d - 128))%Z
    with ((((code a - 240) * 64 + (code b - 128)) * 64 + (code c - 128)) * 64 + (code d - 128))%Z by ring.
  set (r := ((((code a - 240) * 64 + (code b - 128)) * 64 + (code c - 128)) * 64 + (code d - 128))%Z).
  assert (r / 64 = ((code a - 240) * 64 + (code b - 128)) * 64 + (code c - 128))%Z as D1
    by (apply div_mod_64; lia).
  assert (r / 4096 = (code a - 240) * 64 + (code b - 128))%Z as D2.
  { replace 4096%Z with (64 * 64)%Z by done. rewrite <- Z.div_div by lia. rewrite D1. apply div_mod_64. lia. }
  assert (r / 262144 = code a - 240)%Z as D3.
  { replace 262144%Z with (4096 * 64)%Z by done. rewrite <- Z.div_div by lia. rewrite D2. apply div_mod_64. lia. }
  assert (65536 ≤ r)%Z.
  { unfold r. destruct (Z.eqb_spec (code a) 240), (Z.eqb_spec (code a) 244); lia. }
  rewrite !(proj2 (Z.ltb_ge _ _)) by lia. rewrite D3, D2, D1.
  rewrite (proj2 (div_mod_64 (code a - 240) (code b - 128) ltac:(lia))).
  rewrite (proj2 (div_mod_64 ((code a - 240) * 64 + (code b - 128)) (code c - 128) ltac:(lia))).
  replace (r mod 64)%Z with (code d - 128)%Z by (symmetry; apply div_mod_64; lia). cbn.
  by rewrite (byte_is_code _ a), (byte_is_code _ b), (byte_is_code _ c), (byte_is_code _ d) by lia.
Qed.

Lemma valid_from_skip bs l : valid_from (length bs) (bs ++ l) = valid_from 0 l.
Proof. induction bs as [|b bs IH]; [done|]. exact IH. Qed.

(** A valid string is the text of its runes. *)
Lemma write_runes_bytes n : ∀ l,
  length l = n → valid_from 0 l = true → write_runes (runes_from 0 l) = implode l.
Proof.
  induction (lt_wf n) as [n _ IH]. intros l Hn Hv.
  destruct l as [|a l]; [done|]. cbn [valid_from runes_from] in *.
  destruct (utf8_len (a :: l)) as [|m] eqn:E; [done|].
  destruct (utf8_sequence _ _ E) as (Hr & bs & Hl & Hb & He). unfold decode_rune. rewrite E.
  destruct bs as [|a' bs]; [done|]. injection Hb as Hb. cbn [app drop] in Hl. injection Hl as <- Hl.
  replace (S m - 1) with m by lia. cbn [write_runes]. unfold write_rune. rewrite Hr, He.
  set (l' := drop m l) in *. assert (length l' < n) as Hlt.
  { unfold l'. rewrite length_drop. cbn in Hn. lia. }
  clearbody l'. subst l m. rewrite valid_from_skip in Hv. rewrite runes_from_skip.
  rewrite (IH (length l') Hlt l' eq_refl Hv). by rewrite app_comm_cons, implode_app.
Qed.

Lemma write_runes_valid s : ValidString s = true → write_runes (runes s) = s.
Proof. intros H. rewrite <- (implode_explode s) at 2. by eapply write_runes_bytes. Qed.

(** ** Reading back strings *)

Lemma push_push a b r : push a (push b r) = push (a +:+ b) r.
Proof. destruct r as [[t rest]|]; [|done]. cbn. by rewrite sapp_assoc. Qed.

Lemma parse_str_skip bs s :
  parse_str (length bs) (implode bs +:+ s) = push (implode bs) (parse_str 0 s).
Proof.
  induction bs as [|b bs IH].
  - change (implode []) with "". rewrite sapp_nil_l. cbn [length].
    destruct (parse_str 0 s) as [[t rest]|]; [|done]. cbn [push]. by rewrite sapp_nil_l.
  - change (implode (b :: bs)) with (String b (implode bs)). rewrite sapp_cons. cbn [length parse_str].
    rewrite IH, push_push. done.
Qed.

(** A rune that needs no escape is read as its bytes. *)
Lemma read_plain r s :
  valid_rune r = true → (32 ≤ r)%Z → r ≠ 34%Z → r ≠ 92%Z →
  parse_str 0 (write_rune r +:+ s) = push (write_rune r) (parse_str 0 s).
Proof.
  intros Hr H32 H34 H92. unfold write_rune. rewrite Hr.
  pose proof (decode_encode r (explode s) Hr) as [Hd Hl].
  assert (utf8_len (explode (utf8_encode r) ++ explode s) = len (utf8_encode r)) as Hlen.
  { unfold decode_rune in Hd. destruct (utf8_len _) as [|n]; [|by injection Hd].
    injection Hd as <- Hd. by vm_compute in Hd. }
  assert (∃ c, ∃ bs, explode (utf8_encode r) = c :: bs ∧ (code c = r ∨ 192 ≤ code c)%Z) as (c & bs & E & Hc).
  { unfold valid_rune in Hr. bool_prop. unfold utf8_encode.
    destruct (Z.ltb_spec r 128); [do 2 eexists; split; [done|left; by rewrite code_byte by lia]|].
    pose proof (Z.div_pos r 64). pose proof (Z.div_pos r 4096). pose proof (Z.div_pos r 262144).
    assert (r / 262144 < 5)%Z by (apply Z.div_lt_upper_bound; lia).
    destruct (Z.ltb_spec r 2048); [do 2 eexists; split; [done|right; rewrite code_byte; [lia|]]|].
    { assert (r / 64 < 32)%Z by (apply Z.div_lt_upper_bound; lia). lia. }
    destruct (Z.ltb_spec r 65536); [do 2 eexists; split; [done|right; rewrite code_byte; [lia|]]|].
    { assert (r / 4096 < 16)%Z by (apply Z.div_lt_upper_bound; lia). lia. }
    do 2 eexists. split; [done|right; rewrite code_byte; lia]. }
  rewrite <- (implode_explode (utf8_encode r)). rewrite <- len_explode, E in Hlen. rewrite E.
  cbn [app length] in Hlen. change (implode (c :: bs)) with (String c (implode bs)).
  rewrite sapp_cons. cbn [parse_str].
  rewrite (proj2 (beq_neq c quote)).
  2: { intros ->. vm_compute in Hc. destruct Hc as [<-|Hc]; [done|by apply Hc]. }
  rewrite (proj2 (beq_neq c backslash)).
  2: { intros ->. vm_compute in Hc. destruct Hc as [<-|Hc]; [done|by apply Hc]. }
  rewrite (proj2 (Z.ltb_ge (code c) 32)) by lia.
  change (explode (String c (implode bs +:+ s))) with (c :: explode (implode bs +:+ s)).
  rewrite explode_app, explode_implode, Hlen. by rewrite parse_str_skip, push_push.
Qed.

Lemma read_rune r s :
  valid_rune r = true → parse_str 0 (rune_text r +:+ s) = push (write_rune r) (parse_str 0 s).
Proof.
  intros Hr. unfold rune_text.
  destruct (Z.eqb_spec r 34) as [->|?]; [reflexivity|]. destruct (Z.eqb_spec r 92) as [->|?]; [reflexivity|].
  destruct (Z.eqb_spec r 8) as [->|?]; [reflexivity|]. destruct (Z.eqb_spec r 12) as [->|?]; [reflexivity|].
  destruct (Z.eqb_spec r 10) as [->|?]; [reflexivity|]. destruct (Z.eqb_spec r 13) as [->|?]; [reflexivity|].
  destruct (Z.eqb_spec r 9) as [->|?]; [reflexivity|].
  destruct (Z.ltb_spec r 32); [|by apply read_plain].
  assert (0 ≤ r)%Z by (unfold valid_rune in Hr; bool_prop; lia). rewrite <- (Z2Nat.id r) by done.
  assert (Z.to_nat r < 32) as Hlt by lia. clear -Hlt. generalize dependent (Z.to_nat r). intros m Hm.
  do 32 (destruct m as [|m]; [reflexivity|]). lia.
Qed.

Lemma read_string l rest :
  Forall (λ r, valid_rune r = true) l →
  parse_str 0 (string_text l +:+ String quote rest) = Some (write_runes l, rest).
Proof.
  induction 1 as [|r l Hr Hl IH]; [reflexivity|].
  change (string_text (r :: l)) with (rune_text r +:+ string_text l). cbn [write_runes].
  rewrite sapp_assoc, read_rune by done. by rewrite IH.
Qed.

(** What [writeJSONString] writes is read back. *)
Lemma read_quoted s t rest :
  writeJSONString s = Ok t → ∃ body, t = String quote body ∧ parse_str 0 (body +:+ rest) = Some (s, rest).
Proof.
  unfold writeJSONString. destruct (ValidString s) eqn:Hv; [|done]. intros [= <-].
  exists (string_text (runes s) +:+ q1). split; [done|]. rewrite sapp_assoc. unfold q1. rewrite sapp_cons, sapp_nil_l.
  rewrite read_string by apply runes_valid. by rewrite write_runes_valid.
Qed.

(** ** Digits *)

Lemma beq_true c : beq c c = true.
Proof. by apply beq_eq. Qed.

(** A text the number before it cannot absorb. *)
Definition num_stop (c : ascii) : bool := negb (is_digit c || beq c "." || beq c "e" || beq c "E").
Definition num_end (s : string) : Prop := match s with "" => True | String c _ => num_stop c = true end.
Definition no_digit (s : string) : Prop := match s with "" => True | String c _ => is_digit c = false end.

Lemma num_end_no_digit s : num_end s → no_digit s.
Proof.
  destruct s as [|c s]; [done|]. unfold num_end, num_stop, no_digit. rewrite negb_true_iff, !orb_false_iff. tauto.
Qed.

Lemma span_digits_app ds rest :
  all_bytes is_digit ds = true → no_digit rest → span_digits (ds +:+ rest) = (ds, rest).
Proof.
  induction ds as [|c ds IH]; intros Hd Hr.
  - rewrite sapp_nil_l. destruct rest as [|c rest]; [done|]. cbn [span_digits]. cbn in Hr. by rewrite Hr.
  - cbn in Hd. apply andb_true_iff in Hd as [Hc Hd]. rewrite sapp_cons. cbn [span_digits].
    rewrite Hc. by rewrite IH.
Qed.

(** The value of a digit string. *)
Lemma digits_val_app acc s t :
  all_bytes is_digit s = true → ∀ n, digits_val acc s = Some n → digits_val acc (s +:+ t) = digits_val n t.
Proof.
  revert acc. induction s as [|c s IH]; intros acc Hs n; [by intros [= <-]|].
  cbn in Hs. apply andb_true_iff in Hs as [Hc Hs]. rewrite sapp_cons. cbn [digits_val]. rewrite Hc. by apply IH.
Qed.

Lemma digits_val_total s : all_bytes is_digit s = true → ∀ acc, ∃ n,
  digits_val acc s = Some n ∧ (n = acc * 10 ^ Z.of_nat (len s) + digits_Z s)%Z ∧ (0 ≤ digits_Z s)%Z.
Proof.
  unfold digits_Z. induction s as [|c s IH]; intros Hs acc.
  - exists acc. change (len "") with 0. cbn [digits_val default from_option id]. split; [done|]. lia.
  - cbn in Hs. apply andb_true_iff in Hs as [Hc Hs]. cbn [digits_val]. rewrite Hc.
    destruct (IH Hs (10 * acc + (code c - 48))%Z) as (n & Hn & E & Hp).
    destruct (IH Hs (10 * 0 + (code c - 48))%Z) as (n0 & Hn0 & E0 & _).
    exists n. split; [done|]. rewrite Hn0. cbn [default from_option id].
    assert (0 ≤ code c - 48)%Z. { unfold is_digit, between in Hc. bool_prop. lia. }
    rewrite len_cons, Nat2Z.inj_succ, Z.pow_succ_r by lia.
    assert (0 < 10 ^ Z.of_nat (len s))%Z by (apply Z.pow_pos_nonneg; lia).
    split; [rewrite E, E0; ring|rewrite E0; nia].
Qed.

Lemma digits_Z_app s t :
  all_bytes is_digit s = true → all_bytes is_digit t = true →
  digits_Z (s +:+ t) = (digits_Z s * 10 ^ Z.of_nat (len t) + digits_Z t)%Z.
Proof.
  intros Hs Ht. destruct (digits_val_total s Hs 0%Z) as (n & Hn & E & _).
  destruct (digits_val_total t Ht n) as (n' & Hn' & E' & _).
  unfold digits_Z at 1. rewrite (digits_val_app 0 s t Hs n Hn), Hn'. cbn [default from_option id]. lia.
Qed.

Lemma zeros_digits n : all_bytes is_digit (Repeat "0" n) = true ∧ digits_Z (Repeat "0" n) = 0%Z ∧ len (Repeat "0" n) = n.
Proof.
  induction n as [|n (H1 & H2 & H3)]; [done|]. cbn [Repeat]. rewrite sapp_cons, sapp_nil_l, len_cons.
  split; [done|]. split; [|lia]. unfold digits_Z in *. cbn [digits_val]. exact H2.
Qed.

Lemma exponent_val_digits s : ∀ acc n,
  all_bytes is_digit s = true → (0 ≤ acc)%Z → digits_val acc s = Some n → (n < 100000)%Z → exponent_val acc s = n.
Proof.
  induction s as [|c s IH]; intros acc n Hs Ha; [by intros [= <-]|].
  cbn in Hs. apply andb_true_iff in Hs as [Hc Hs]. cbn [digits_val exponent_val]. rewrite Hc. intros Hn Hlt.
  assert (0 ≤ code c - 48)%Z. { unfold is_digit, between in Hc. bool_prop. lia. }
  destruct (Z.ltb_spec acc 10000).
  - replace (acc * 10 + (code c - 48))%Z with (10 * acc + (code c - 48))%Z by lia. apply IH; (done || lia).
  - destruct (digits_val_total s Hs (10 * acc + (code c - 48))%Z) as (n' & Hn' & E & Hp).
    rewrite Hn in Hn'. injection Hn' as <-.
    assert (1 ≤ 10 ^ Z.of_nat (len s))%Z by (pose proof (Z.pow_pos_nonneg 10 (Z.of_nat (len s))); lia). nia.
Qed.

Lemma exponent_val_Utoa n : (0 ≤ n < 100000)%Z → exponent_val 0 (Utoa n) = n.
Proof.
  intros Hn. apply exponent_val_digits; [by apply Utoa_digits; lia|done| |lia].
  pose proof (ParseUint_Utoa n ltac:(lia)) as H. unfold ParseUint in H. by destruct (Utoa n).
Qed.

Lemma digits_Z_Utoa n : (0 ≤ n)%Z → digits_Z (Utoa n) = n.
Proof.
  intros Hn. pose proof (ParseUint_Utoa n Hn) as H. unfold ParseUint in H. unfold digits_Z.
  destruct (Utoa n); [done|]. by rewrite H.
Qed.

Lemma udigits_S f n acc :
  udigits (S f) n acc =
    if (n <? 10)%Z then String (byte (48 + n mod 10)) acc else udigits f (n / 10) (String (byte (48 + n mod 10)) acc).
Proof. done. Qed.

Lemma udigits_head f : ∀ n acc,
  (0 < n < 2 ^ Z.of_nat f)%Z → f ≠ 0 →
  ∃ c s, udigits f n acc = String c s ∧ (49 ≤ code c ≤ 57)%Z ∧ len s + 1 ≤ f + len acc.
Proof.
  induction f as [|f IH]; intros n acc Hn Hf; [done|]. rewrite udigits_S. destruct (Z.ltb_spec n 10).
  - do 2 eexists. split; [done|]. rewrite Z.mod_small, code_byte by lia. split; lia.
  - assert (n / 10 < 2 ^ Z.of_nat f)%Z as Hlt.
    { rewrite Nat2Z.inj_succ, Z.pow_succ_r in Hn by lia. apply Z.div_lt_upper_bound; lia. }
    assert (0 < n / 10)%Z as Hpos by (apply Z.div_str_pos; lia).
    destruct (IH (n / 10)%Z (String (byte (48 + n mod 10)) acc)) as (c & s & E & Hc & Hl); [lia| |].
    { intros ->. cbn in Hlt. lia. }
    rewrite len_cons in Hl. exists c, s. split; [done|]. split; [done|]. lia.
Qed.

(** The first digit of a positive number is not zero. *)
Lemma Utoa_head n : (0 < n)%Z → ∃ c s, Utoa n = String c s ∧ (49 ≤ code c ≤ 57)%Z ∧ (Z.of_nat (len s) ≤ Z.log2 n)%Z.
Proof.
  intros Hn. unfold Utoa. pose proof (Z.log2_nonneg n). pose proof (Z.log2_spec n Hn) as [_ H2].
  destruct (udigits_head (S (Z.to_nat (Z.log2 n))) n "") as (c & s & E & Hc & Hl); [|done|].
  - rewrite Nat2Z.inj_succ, Z2Nat.id by done. lia.
  - exists c, s. split; [done|]. split; [done|]. change (len "") with 0 in Hl. lia.
Qed.

(** ** Trailing zeros *)

Definition is_zero (c : ascii) : bool := beq c "0".

Lemma ltrim_spec P (l : list ascii) :
  ∃ k, l = k ++ ltrim P l ∧ Forall (λ c, P c = true) k ∧
    match ltrim P l with [] => True | c :: _ => P c = false end.
Proof.
  induction l as [|c l (k & E & Hk & Ht)]; [by exists []|]. cbn [ltrim]. destruct (P c) eqn:Ec.
  - exists (c :: k). rewrite E at 1. split; [done|]. split; [by constructor|done].
  - exists []. done.
Qed.

Lemma zeros_implode k : Forall (λ c, is_zero c = true) k → implode k = Repeat "0" (length k).
Proof.
  induction 1 as [|c k Hc Hk IH]; [done|]. apply beq_eq in Hc as ->. cbn [length Repeat].
  rewrite sapp_cons, sapp_nil_l, <- IH. done.
Qed.

(** Without its trailing zeros a text does not end in one. *)
Lemma no_zeros_spec s :
  ∃ n, s = no_zeros s +:+ Repeat "0" n ∧ (no_zeros s = "" ∨ ∃ t c, no_zeros s = t +:+ String c "" ∧ is_zero c = false).
Proof.
  unfold no_zeros, TrimRight, rtrim. destruct (ltrim_spec is_zero (reverse (explode s))) as (k & E & Hk & Ht).
  change (λ c, beq c "0") with is_zero. set (l := ltrim is_zero (reverse (explode s))) in *.
  exists (length k). split.
  - rewrite <- (implode_explode s) at 1. rewrite <- (reverse_involutive (explode s)), E, reverse_app, implode_app.
    f_equal. rewrite zeros_implode; [by rewrite length_reverse|]. by apply Forall_reverse.
  - destruct l as [|c l]; [by left|]. right. exists (implode (reverse l)), c. split; [|done].
    by rewrite reverse_cons, implode_app.
Qed.

Lemma no_zeros_ends t c : is_zero c = false → no_zeros (t +:+ String c "") = t +:+ String c "".
Proof.
  intros Hc. unfold no_zeros, TrimRight, rtrim. change (λ c, beq c "0") with is_zero.
  rewrite explode_app, reverse_app. cbn [explode reverse rev_append app]. change (reverse [c]) with [c].
  cbn [app ltrim]. rewrite Hc. rewrite reverse_cons, reverse_involutive, implode_app, implode_explode. done.
Qed.

(** ** Number texts *)

Definition dotted (frac : string) : string := match frac with "" => "" | _ => "." +:+ frac end.
Definition exponent (x : option Z) : string :=
  match x with None => "" | Some x => "e" +:+ (if (0 <=? x)%Z then "+" else "") +:+ Itoa x end.
Definition sign_text (neg : bool) : string := if neg then "-" else "".

Definition number_text (neg : bool) (int frac : string) (x : option Z) : string :=
  sign_text neg +:+ int +:+ dotted frac +:+ exponent x.

Definition leading_digit (int : string) : Prop :=
  int = "0" ∨ ∃ c s, int = String c s ∧ (49 ≤ code c ≤ 57)%Z.

Lemma exponent_no_digit x rest : num_end rest → no_digit (exponent x +:+ rest).
Proof. destruct x; [done|]. apply num_end_no_digit. Qed.

Lemma dotted_no_digit frac x rest : num_end rest → no_digit (dotted frac +:+ exponent x +:+ rest).
Proof. destruct frac; [apply exponent_no_digit|done]. Qed.

Lemma parse_frac_dotted frac x rest :
  all_bytes is_digit frac = true → num_end rest →
  parse_frac (dotted frac +:+ exponent x +:+ rest) = Some (dotted frac, exponent x +:+ rest).
Proof.
  intros Hf Hr. destruct frac as [|c frac].
  - cbn [dotted]. rewrite sapp_nil_l. destruct x as [x|]; [done|]. cbn [exponent]. rewrite sapp_nil_l.
    destruct rest as [|c rest]; [done|]. cbn [parse_frac]. cbn in Hr. unfold num_stop in Hr.
    bool_prop. by rewrite (proj2 (beq_neq c ".")) by (by apply beq_neq).
  - cbn [dotted]. rewrite sapp_cons. change ("." +:+ String c frac) with (String "." (String c frac)).
    rewrite sapp_cons. cbn [parse_frac]. rewrite beq_true.
    change (String c (frac +:+ ?r)) with (String c frac +:+ r).
    rewrite span_digits_app by (done || by apply exponent_no_digit). done.
Qed.

Lemma parse_exp_exponent x rest :
  num_end rest → parse_exp (exponent x +:+ rest) = Some (exponent x, rest).
Proof.
  intros Hr. destruct x as [x|]; cbn [exponent].
  - change ("e" +:+ ?s) with (String "e" s). rewrite sapp_cons. cbn [parse_exp]. rewrite beq_true. cbn [orb].
    unfold Itoa. destruct (Z.leb_spec 0 x) as [Hx|Hx].
    + rewrite (proj2 (Z.ltb_ge x 0)) by lia. change ("+" +:+ ?s) with (String "+" s). rewrite sapp_cons.
      rewrite beq_true. cbn [orb].
      rewrite span_digits_app by (by apply Utoa_digits || by apply num_end_no_digit).
      assert (Utoa x ≠ "") by (by apply udigits_nonempty). destruct (Utoa x); done.
    + rewrite (proj2 (Z.ltb_lt x 0)) by lia. rewrite sapp_nil_l.
      change ("-" +:+ ?s) with (String "-" s). rewrite sapp_cons. rewrite (beq_true "-"), orb_true_r.
      rewrite span_digits_app by ((apply Utoa_digits; lia) || by apply num_end_no_digit).
      assert (Utoa (- x) ≠ "") by (by apply udigits_nonempty). destruct (Utoa (- x)); done.
  - rewrite sapp_nil_l. destruct rest as [|c rest]; [done|]. cbn [parse_exp]. cbn in Hr. unfold num_stop in Hr.
    bool_prop. rewrite (proj2 (beq_neq c "e")), (proj2 (beq_neq c "E")) by (by apply beq_neq). done.
Qed.

Lemma digit_code c : (49 ≤ code c ≤ 57)%Z → is_digit c = true ∧ beq c "0" = false ∧ beq c "-" = false.
Proof.
  intros Hc. split; [unfold is_digit, between; lia|].
  split; apply beq_neq; intros ->; vm_compute in Hc; destruct Hc as [Hc1 Hc2]; first [by apply Hc1|by apply Hc2].
Qed.

Lemma leading_no_sign int : leading_digit int → ∃ c s, int = String c s ∧ is_digit c = true ∧ beq c "-" = false.
Proof.
  intros [->|(c & s & -> & Hc)]; [by exists "0"%char, ""|]. exists c, s. split; [done|].
  by destruct (digit_code c Hc) as (? & _ & ?).
Qed.

(** A number text is read as a number token. *)
Lemma parse_num_text neg int frac x rest :
  leading_digit int → all_bytes is_digit int = true → all_bytes is_digit frac = true → num_end rest →
  parse_num (number_text neg int frac x +:+ rest) = Some (number_text neg int frac x, rest).
Proof.
  intros Hl Hi Hf Hr. unfold number_text. rewrite !sapp_assoc. unfold parse_num.
  set (tl := dotted frac +:+ exponent x +:+ rest).
  assert ((match sign_text neg +:+ int +:+ tl with
           | String c t => if beq c "-" then ("-", t) else ("", sign_text neg +:+ int +:+ tl)
           | "" => ("", sign_text neg +:+ int +:+ tl)
           end) = (sign_text neg, int +:+ tl)) as ->.
  { destruct neg; cbn [sign_text]; [done|]. rewrite sapp_nil_l.
    destruct (leading_no_sign int Hl) as (c & s & -> & _ & Hc). rewrite sapp_cons. by rewrite Hc. }
  assert ((match int +:+ tl with
           | String c t => if beq c "0" then Some ("0", t)
                           else match span_digits (int +:+ tl) with ("", _) => None | p => Some p end
           | "" => None
           end) = Some (int, tl)) as ->.
  { destruct Hl as [->|(c & s & -> & Hc)]; [done|]. rewrite span_digits_app by (done || by apply dotted_no_digit).
    rewrite sapp_cons. by destruct (digit_code c Hc) as (_ & -> & _). }
  cbn [mbind option_bind]. unfold tl. rewrite parse_frac_dotted by done. cbn [mbind option_bind].
  rewrite parse_exp_exponent by done. done.
Qed.

(** The parts of a number text. *)
Lemma split_number_text neg int frac x :
  leading_digit int → all_bytes is_digit int = true → all_bytes is_digit frac = true →
  match x with Some x => -100000 < x < 100000 | None => True end%Z →
  split_number (number_text neg int frac x) = (neg, int, frac, default 0%Z x).
Proof.
  intros Hl Hi Hf Hx. unfold number_text, split_number.
  set (tl := dotted frac +:+ exponent x).
  assert ((match sign_text neg +:+ int +:+ tl with
           | String c t => if beq c "-" then (true, t) else (false, sign_text neg +:+ int +:+ tl)
           | "" => (false, sign_text neg +:+ int +:+ tl)
           end) = (neg, int +:+ tl)) as ->.
  { destruct neg; cbn [sign_text]; [done|]. rewrite sapp_nil_l.
    destruct (leading_no_sign int Hl) as (c & s & -> & _ & Hc). rewrite sapp_cons. by rewrite Hc. }
  assert (no_digit tl) as Htl.
  { unfold tl. rewrite <- (sapp_nil_r (exponent x)). by apply dotted_no_digit. }
  rewrite span_digits_app by done.
  assert ((match tl with
           | String c t => if beq c "." then span_digits t else ("", tl)
           | "" => ("", tl)
           end) = (frac, exponent x)) as ->.
  { unfold tl. destruct frac as [|c frac]; cbn [dotted].
    - rewrite sapp_nil_l. by destruct x.
    - rewrite sapp_assoc. change ("." +:+ ?s) with (String "." s). cbv beta iota. rewrite beq_true.
      rewrite <- (sapp_nil_r (exponent x)) at 1. rewrite span_digits_app; [|done|by apply exponent_no_digit].
      by rewrite sapp_nil_r. }
  f_equal. destruct x as [x|]; [|done]. cbn [exponent default from_option id].
  change ("e" +:+ ?s) with (String "e" s). unfold Itoa. destruct (Z.leb_spec 0 x) as [H0|H0].
  - rewrite (proj2 (Z.ltb_ge x 0)) by lia. change ("+" +:+ ?s) with (String "+" s).
    cbv beta iota. rewrite beq_true. cbn. apply exponent_val_Utoa. lia.
  - rewrite (proj2 (Z.ltb_lt x 0)) by lia. rewrite sapp_nil_l. change ("-" +:+ ?s) with (String "-" s).
    cbv beta iota. rewrite beq_true. rewrite exponent_val_Utoa by lia. lia.
Qed.

(** Texts of the same value are read as the same number. *)
Lemma ParseFloat_text neg int frac x m e :
  leading_digit int → all_bytes is_digit int = true → all_bytes is_digit frac = true →
  match x with Some x => -100000 < x < 100000 | None => True end%Z →
  round_decimal (digits_Z (int +:+ frac)) (default 0 x - Z.of_nat (len frac))%Z = Some (m, e) →
  ParseFloat (number_text neg int frac x) = Some (MkFloat neg m e).
Proof.
  intros Hl Hi Hf Hx Hr. unfold ParseFloat. rewrite split_number_text by done. by rewrite Hr.
Qed.

(** ** The shortest digits are bounded *)

Lemma round_binary_bound p q m e :
  (0 < p)%Z → (0 < q)%Z → round_binary p q = Some (m, e) → (p < q * 2 ^ 1024)%Z.
Proof.
  intros Hp Hq. unfold round_binary. destruct (binade_spec p q Hp Hq) as (x & Eb & Hx1 & Hx2). rewrite Eb.
  destruct (scale _ p q) as [n d]. intros H.
  assert (Z.max x (-1074) ≤ 971)%Z as Hb.
  { destruct (_ =? _)%Z; destruct (Z.ltb_spec 971 (Z.max x (-1074))), (Z.ltb_spec 971 (Z.max x (-1074) + 1));
      try done; lia. }
  assert (pow2_le 1024 p q = false) as Hf.
  { destruct (pow2_le 1024 p q) eqn:E; [|done]. by rewrite (pow2_le_anti (x + 53) 1024) in Hx2 by (lia || done). }
  apply not_true_iff_false in Hf. rewrite (pow2_le_spec _ _ _ 0) in Hf by lia.
  rewrite Z.add_0_r, Z.pow_0_r, Z.mul_1_r in Hf. lia.
Qed.

Lemma leading_from_bounds n m e : ∀ x, (x ≤ leading_from n m e x ≤ x + Z.of_nat n)%Z.
Proof.
  induction n as [|n IH]; intros x; cbn [leading_from]; [lia|].
  destruct (pow10_le m e (x + 1)); [|lia]. pose proof (IH (x + 1)%Z). lia.
Qed.

Lemma shortest_from_bounds n m e : ∀ k,
  let k' := (shortest_from n m e k).2 in (k - Z.of_nat n ≤ k' ≤ k)%Z ∨ k' = Z.min e 0.
Proof.
  induction n as [|n IH]; intros k; cbn [shortest_from].
  - right. destruct (Z.leb_spec 0 e); cbn [snd]; lia.
  - destruct (candidate m e k) as [d|]; [left; cbn [snd]; lia|]. destruct (IH (k - 1)%Z); [left; lia|by right].
Qed.

Lemma shortest_bounds m e :
  representable m e → let '(d, k) := shortest m e in (-1100 ≤ k ≤ 400)%Z ∧ (Z.log2 d < 8000)%Z.
Proof.
  intros Hr. pose proof (shortest_reads m e Hr) as Hs.
  pose proof (shortest_from_bounds 17 m e (leading m e)) as Hk. unfold shortest in *.
  destruct (shortest_from 17 m e (leading m e)) as [d k]. cbn [snd] in Hk. destruct Hs as [Hd Hrd].
  assert (-1100 ≤ k ≤ 400)%Z as Hkb.
  { destruct Hr as (Hm & He & _).
    assert (0 ≤ Z.log2 m < 53)%Z as Hlog.
    { split; [apply Z.log2_nonneg|]. apply Z.log2_lt_pow2; lia. }
    assert (-326 ≤ leading m e ≤ 320)%Z.
    { unfold leading.
      pose proof (leading_from_bounds 5 m e ((Z.log2 m + e) * 30103 / 100000 - 2)).
      assert (-324 ≤ (Z.log2 m + e) * 30103 / 100000)%Z by (apply Z.div_le_lower_bound; lia).
      assert ((Z.log2 m + e) * 30103 / 100000 < 310)%Z by (apply Z.div_lt_upper_bound; lia). lia. }
    destruct Hk; lia. }
  split; [done|]. unfold round_decimal in Hrd. rewrite (proj2 (Z.eqb_neq d 0)) in Hrd by lia.
  unfold decimal in Hrd. apply Z.log2_lt_pow2; [done|]. destruct (Z.leb_spec 0 k).
  - pose proof (pow10_pos k ltac:(done)). apply round_binary_bound in Hrd; [|nia|done].
    apply Z.le_lt_trans with (d * 10 ^ k)%Z; [nia|]. eapply Z.lt_trans; [exact Hrd|]. vm_compute. done.
  - pose proof (pow10_pos (- k) ltac:(lia)). apply round_binary_bound in Hrd; [|done|done].
    eapply Z.lt_le_trans; [exact Hrd|].
    apply Z.le_trans with (10 ^ 1100 * 2 ^ 1024)%Z; [|vm_compute; discriminate].
    apply Z.mul_le_mono_nonneg_r; [lia|]. apply Z.pow_le_mono_r; lia.
Qed.

(** ** [formatES6] writes a number text of the same value *)

Lemma ParseInt_signed x :
  (-100000 < x < 100000)%Z →
  ParseInt ((if (x <? 0)%Z then "-" else "+") +:+ two_digits (Z.abs x)) = Some x.
Proof.
  intros Hx. assert (ParseUint (two_digits (Z.abs x)) = Some (Z.abs x)) as Hu.
  { unfold two_digits. pose proof (ParseUint_Utoa (Z.abs x) ltac:(lia)) as H.
    destruct (_ <? 10)%Z; [|by rewrite sapp_nil_l].
    change ("0" +:+ ?s) with (String "0" s). unfold ParseUint in *. cbn [digits_val].
    change (is_digit "0") with true. cbv iota. by destruct (Utoa (Z.abs x)). }
  destruct (Z.ltb_spec x 0).
  - change ("-" +:+ ?s) with (String "-" s). unfold ParseInt. rewrite beq_true, Hu. cbn [mbind option_bind].
    replace (- Z.abs x)%Z with x by lia. rewrite bool_decide_true; [done|]. unfold in_int64, int64_min, int64_max. lia.
  - change ("+" +:+ ?s) with (String "+" s). unfold ParseInt. rewrite beq_true. cbv beta iota.
    change (beq "+" "-") with false. cbv beta iota. rewrite Hu. cbn [mbind option_bind].
    replace (Z.abs x) with x by lia. rewrite bool_decide_true; [done|]. unfold in_int64, int64_min, int64_max. lia.
Qed.

(** Significant digits: the first and the last one are not zero. *)
Definition significant (T : string) : Prop :=
  all_bytes is_digit T = true ∧ no_zeros T = T ∧ ∃ c s, T = String c s ∧ (49 ≤ code c ≤ 57)%Z.

Lemma significant_digits d :
  (0 < d)%Z → let T := no_zeros (Utoa d) in
  significant T ∧ ∃ z, Utoa d = T +:+ Repeat "0" z ∧ d = (digits_Z T * 10 ^ Z.of_nat z)%Z ∧ len (Utoa d) = len T + z.
Proof.
  intros Hd T. pose proof (Utoa_digits d ltac:(lia)) as Hdig. destruct (Utoa_head d Hd) as (c & s & E & Hc & _).
  destruct (no_zeros_spec (Utoa d)) as (z & Ez & Hz). fold T in Ez, Hz.
  assert (all_bytes is_digit T = true) as HT.
  { rewrite Ez, all_bytes_app in Hdig. by apply andb_true_iff in Hdig as [? _]. }
  destruct (zeros_digits z) as (Hz1 & Hz2 & Hz3).
  assert (∃ s', T = String c s') as [s' ET].
  { destruct T as [|c' s']; [|exists s'; rewrite E, sapp_cons in Ez; by injection Ez as ->].
    rewrite E, sapp_nil_l in Ez. destruct z as [|z]; [done|]. cbn [Repeat] in Ez. rewrite sapp_cons in Ez.
    injection Ez as -> _. vm_compute in Hc. destruct Hc as [Hc _]. by destruct Hc. }
  split.
  - split; [done|]. split; [|exists c, s'; done]. destruct Hz as [Hz|(t & c' & Hz & Hc')].
    + by rewrite ET in Hz.
    + rewrite Hz. by apply no_zeros_ends.
  - exists z. split; [done|]. split; [|by rewrite Ez, len_app, Hz3].
    pose proof (digits_Z_Utoa d ltac:(lia)) as Hv. rewrite Ez, digits_Z_app, Hz2, Hz3 in Hv by done. lia.
Qed.

Definition scientific (T : string) : string :=
  match T with "" => "0" | String c "" => String c "" | String c rest => String c ("." +:+ rest) end.

Definition exponential (T : string) (x : Z) : string :=
  stake 1 T +:+ (if (1 <? len T)%nat then "." +:+ sdrop 1 T else "") +:+
  "e" +:+ (if (0 <=? x)%Z then "+" else "") +:+ Itoa x.

Lemma digits_no_byte c s : all_bytes is_digit s = true → is_digit c = false → contains_byte s c = false.
Proof. intros. by eapply all_bytes_no. Qed.

Lemma formatES6_text_parts neg T x :
  significant T → (-100000 < x < 100000)%Z →
  formatES6_text (sign_text neg +:+ scientific T +:+ "e" +:+ (if (x <? 0)%Z then "-" else "+") +:+ two_digits (Z.abs x)) =
    sign_text neg +:+ (if (-6 <=? x)%Z && (x <? 21)%Z then fixedDecimal T x else exponential T x).
Proof.
  intros (HT & Hz & c & rest & E & Hc) Hx. unfold formatES6_text.
  set (X := (if (x <? 0)%Z then "-" else "+") +:+ two_digits (Z.abs x)).
  assert (all_bytes is_digit rest = true) as Hrest by (rewrite E in HT; cbn in HT; by apply andb_true_iff in HT as [_ ?]).
  destruct (digit_code c Hc) as (Hcd & _ & Hcs).
  assert (scientific T = String c (dotted rest)) as Esci by (rewrite E; by destruct rest).
  assert (Cut (sign_text neg +:+ scientific T +:+ "e" +:+ X) "e" = (sign_text neg +:+ scientific T, X, true)) as ->.
  { change ("e" +:+ X) with (String "e" X). rewrite <- sapp_assoc. apply Cut_app.
    rewrite contains_byte_app, Esci, contains_byte_cons. unfold dotted.
    rewrite (proj2 (beq_neq c "e")) by (intros ->; vm_compute in Hc; destruct Hc as [_ Hc]; by apply Hc).
    assert (contains_byte (match rest with "" => "" | _ => "." +:+ rest end) "e" = false) as ->.
    { destruct rest as [|c' r]; [done|]. change ("." +:+ ?s) with (String "." s). rewrite contains_byte_cons.
      cbn [orb]. by rewrite (digits_no_byte "e" (String c' r)). }
    by destruct neg. }
  cbv beta iota. unfold X. rewrite ParseInt_signed by done. cbn [negb].
  assert (match CutPrefix (sign_text neg +:+ scientific T) "-" with
          | Some m => ("-", m) | None => ("", sign_text neg +:+ scientific T) end = (sign_text neg, scientific T)) as ->.
  { destruct neg; cbn [sign_text].
    - by rewrite (proj2 (CutPrefix_Some ("-" +:+ scientific T) "-" (scientific T)) eq_refl).
    - rewrite sapp_nil_l. destruct (CutPrefix (scientific T) "-") as [m|] eqn:Em; [|done].
      apply CutPrefix_Some in Em. rewrite Esci in Em. change ("-" +:+ m) with (String "-" m) in Em.
      injection Em as -> _. by rewrite beq_true in Hcs. }
  assert (∃ b, Cut (scientific T) "." = (String c "", rest, b)) as [b ->].
  { rewrite Esci. destruct rest as [|c' r]; cbn [dotted].
    - exists false. unfold Cut. assert (IndexByte (String c "") "." = None) as ->; [|done].
      apply IndexByte_None. rewrite contains_byte_cons. rewrite (proj2 (beq_neq c ".")); [done|].
      intros ->. vm_compute in Hc. destruct Hc as [Hc _]. by destruct Hc.
    - exists true. change (String c ("." +:+ String c' r)) with (String c "" +:+ String "." (String c' r)).
      apply Cut_app. rewrite contains_byte_cons. rewrite (proj2 (beq_neq c ".")); [done|].
      intros ->. vm_compute in Hc. destruct Hc as [Hc _]. by destruct Hc. }
  change (String c "" +:+ rest) with (String c rest). rewrite <- E, Hz.
  rewrite bool_decide_false by (by rewrite E).
  replace (x - Z.of_nat (len rest) + Z.of_nat (len T) - 1)%Z with x by (rewrite E, len_cons; lia).
  by destruct (_ && _)%bool.
Qed.

Lemma stake_sdrop_digits n T :
  all_bytes is_digit T = true → all_bytes is_digit (stake n T) = true ∧ all_bytes is_digit (sdrop n T) = true.
Proof.
  intros H. rewrite <- (stake_sdrop n T), all_bytes_app in H. by apply andb_true_iff in H.
Qed.

Lemma dotted_cons s : s ≠ "" → dotted s = "." +:+ s.
Proof. by destruct s. Qed.

(** The chosen notation is a number text whose value is the digits at the given
    position. *)
Lemma notation_number T x :
  significant T → (-100000 < x < 100000)%Z →
  ∃ int frac ex,
    (if (-6 <=? x)%Z && (x <? 21)%Z then fixedDecimal T x else exponential T x) = int +:+ dotted frac +:+ exponent ex ∧
    leading_digit int ∧ all_bytes is_digit int = true ∧ all_bytes is_digit frac = true ∧
    match ex with Some y => -100000 < y < 100000 | None => True end%Z ∧
    (0 < digits_Z (int +:+ frac))%Z ∧
    same_decimal (digits_Z (int +:+ frac)) (default 0%Z ex - Z.of_nat (len frac))%Z
      (digits_Z T) (x - (Z.of_nat (len T) - 1))%Z ∧ (0 < digits_Z T)%Z.
Proof.
  intros (HT & _ & c & rest & E & Hc) Hx.
  assert (0 < digits_Z T)%Z as Hpos.
  { rewrite E in HT |- *. change (String c rest) with (String c "" +:+ rest) in *. rewrite all_bytes_app in HT.
    apply andb_true_iff in HT as [H1 H2]. rewrite digits_Z_app by done.
    destruct (digits_val_total rest H2 0%Z) as (_ & _ & _ & ?).
    assert (digits_Z (String c "") = code c - 48)%Z as ->.
    { unfold digits_Z. cbn [digits_val]. destruct (digit_code c Hc) as (-> & _). cbn. lia. }
    pose proof (Z.pow_pos_nonneg 10 (Z.of_nat (len rest))). nia. }
  assert (len T = S (len rest)) as HlT by (by rewrite E, len_cons).
  destruct (_ && _)%bool eqn:Eb.
  - apply andb_true_iff in Eb as [Eb1%Z.leb_le Eb2%Z.ltb_lt]. unfold fixedDecimal.
    destruct (Z.ltb_spec x 0) as [H0|H0]; [|destruct (Z.leb_spec (Z.of_nat (len T)) (x + 1)) as [H1|H1]].
    + set (z := Z.to_nat (- x - 1)). destruct (zeros_digits z) as (Z1 & Z2 & Z3).
      exists "0", (Repeat "0" z +:+ T), None. cbn [exponent default from_option]. rewrite sapp_nil_r.
      assert (all_bytes is_digit (Repeat "0" z +:+ T) = true) as Hf by (by rewrite all_bytes_app, Z1, HT).
      assert (digits_Z ("0" +:+ Repeat "0" z +:+ T) = digits_Z T) as Hv.
      { rewrite digits_Z_app by done. rewrite digits_Z_app by done. rewrite Z2.
        change (digits_Z "0") with 0%Z. lia. }
      split; [rewrite dotted_cons; [done|]; intros Hn; apply (f_equal len) in Hn; rewrite len_app, HlT in Hn; change (len "") with 0 in Hn; lia|].
      split; [by left|]. split; [done|]. split; [done|]. split; [done|]. rewrite Hv. split; [done|].
      split; [|done]. exists (Z.of_nat (len T) - 1 - x)%Z. rewrite len_app, Z3. unfold z. split; [lia|]. split; [lia|]. f_equal.
      f_equal. lia.
    + set (z := Z.to_nat (x + 1 - Z.of_nat (len T))). destruct (zeros_digits z) as (Z1 & Z2 & Z3).
      exists (T +:+ Repeat "0" z), "", None. cbn [exponent default from_option dotted]. rewrite !sapp_nil_r.
      split; [done|]. split; [right; exists c, (rest +:+ Repeat "0" z); by rewrite E|].
      split; [by rewrite all_bytes_app, HT, Z1|]. split; [done|]. split; [done|].
      rewrite digits_Z_app, Z2, Z3 by done. pose proof (Z.pow_pos_nonneg 10 (Z.of_nat z)). split; [nia|].
      split; [|done]. exists 0%Z. change (len "") with 0. split; [lia|]. split; [unfold z; lia|].
      replace (x - (Z.of_nat (len T) - 1) + 0)%Z with (Z.of_nat z) by (unfold z; lia).
      replace (0 - Z.of_nat 0 + 0)%Z with 0%Z by lia. rewrite Z.pow_0_r. lia.
    + set (i := Z.to_nat (x + 1)). destruct (stake_sdrop_digits i T HT) as [Hs Hd].
      exists (stake i T), (sdrop i T), None. cbn [exponent default from_option]. rewrite sapp_nil_r.
      assert (len (sdrop i T) = len T - i) as Hls by apply len_sdrop.
      split; [rewrite dotted_cons; [done|]; intros Hn; rewrite Hn in Hls; change (len "") with 0 in Hls; unfold i in Hls; lia|].
      split; [right; rewrite E; unfold i; replace (Z.to_nat (x + 1)) with (S (Z.to_nat x)) by lia; cbn [stake]; eauto|].
      split; [done|]. split; [done|]. split; [done|]. rewrite stake_sdrop. split; [done|].
      split; [|done]. exists (Z.of_nat (len T))%Z. rewrite Hls. unfold i. split; [lia|]. split; [lia|]. f_equal. f_equal. lia.
  - unfold exponential. exists (stake 1 T), (sdrop 1 T), (Some x). cbn [exponent default from_option id].
    destruct (stake_sdrop_digits 1 T HT) as [Hs Hd]. assert (len (sdrop 1 T) = len T - 1) as Hls by apply len_sdrop.
    split.
    { f_equal. f_equal. destruct (Nat.ltb_spec 1 (len T)).
      - rewrite dotted_cons; [done|]. intros Hn. rewrite Hn in Hls. change (len "") with 0 in Hls. lia.
      - destruct (sdrop 1 T) as [|c' r]; [done|]. rewrite len_cons in Hls. lia. }
    split; [right; rewrite E; cbn [stake]; eauto|]. split; [done|]. split; [done|]. split; [done|].
    rewrite stake_sdrop. split; [done|]. split; [|done]. exists (Z.of_nat (len T) + Z.abs x)%Z. rewrite Hls.
    split; [lia|]. split; [lia|]. f_equal. f_equal. lia.
Qed.

(** [formatES6] of a number is read as a number token, and as the number. *)
Lemma formatES6_reads neg m e :
  representable m e →
  ParseFloat (formatES6 (MkFloat neg m e)) = Some (MkFloat neg m e) ∧
  (∀ rest, num_end rest →
     parse_num (formatES6 (MkFloat neg m e) +:+ rest) = Some (formatES6 (MkFloat neg m e), rest)) ∧
  ∃ c s, formatES6 (MkFloat neg m e) = String c s ∧ (is_digit c = true ∨ beq c "-" = true).
Proof.
  intros Hr. pose proof (shortest_reads m e Hr) as Hs. pose proof (shortest_bounds m e Hr) as Hb.
  unfold formatES6, FormatFloat_e. cbn [fman fexp fneg]. destruct (shortest m e) as [d k].
  destruct Hs as [Hd Hrd], Hb as [Hk Hlog].
  destruct (significant_digits d Hd) as (Hsig & z & Hz & Hdz & Hlz).
  destruct (Utoa_head d Hd) as (c0 & s0 & E0 & _ & Hlen0).
  set (T := no_zeros (Utoa d)) in *. change (TrimRight (λ c, beq c "0") (Utoa d)) with T.
  set (x := (k + Z.of_nat (len (Utoa d)) - 1)%Z).
  assert (-100000 < x < 100000)%Z as Hx by (unfold x; rewrite E0, len_cons; lia).
  change (match T with "" => "0" | String c "" => String c "" | String c rest => String c ("." +:+ rest) end)
    with (scientific T).
  change (if neg then "-" else "") with (sign_text neg). rewrite formatES6_text_parts by done.
  destruct (notation_number T x Hsig Hx) as (int & frac & ex & -> & Hl & Hi & Hf & Hex & Hpos & Hsame & HTpos).
  change (sign_text neg +:+ int +:+ dotted frac +:+ exponent ex) with (number_text neg int frac ex).
  split; [|split].
  - apply ParseFloat_text; [done..|]. rewrite <- Hrd.
    transitivity (round_decimal (digits_Z T) (x - (Z.of_nat (len T) - 1))); apply round_decimal_same; try done.
    exists (Z.of_nat z + Z.abs k)%Z. unfold x. rewrite Hlz. split; [lia|]. split; [lia|].
    replace (k + Z.of_nat (len T + z) - 1 - (Z.of_nat (len T) - 1) + (Z.of_nat z + Z.abs k))%Z
      with (Z.of_nat z + (k + (Z.of_nat z + Z.abs k)))%Z by lia.
    rewrite Z.pow_add_r by lia. rewrite Hdz. ring.
  - intros rest Hrest. by apply parse_num_text.
  - unfold number_text. destruct neg; cbn [sign_text].
    + exists "-"%char. eexists. split; [reflexivity|]. right. apply beq_true.
    + destruct (leading_no_sign int Hl) as (c & s & -> & Hc & _). exists c. eexists. split; [reflexivity|]. by left.
Qed.
