(* ===== verification/JcsProps.v ===== *)
(** * JcsProps: what the canonical form of a JSON payload means

    A payload has one canonical form per meaning: two payloads canonicalize to
    the same text exactly when their values are the same up to the order of
    members and the spelling of numbers and strings; and the canonical form is
    itself a JSON text, of that meaning, that canonicalizes to itself. *)
From stdpp Require Import sorting.
From S2P Require Import Prelude GoStrings Unicode Json Float Idempotency Jcs JcsText.
From stdpp Require Import options.

#[local] Arguments code : simpl never.
#[local] Arguments byte : simpl never.

(** ** The order of keys *)

Lemma units_lt_irrefl a : units_lt a a = false.
Proof. induction a as [|x a IH]; [done|]. cbn [units_lt]. by rewrite Z.eqb_refl. Qed.

Lemma units_lt_trans a : ∀ b c, units_lt a b = true → units_lt b c = true → units_lt a c = true.
Proof.
  induction a as [|x a IH]; intros [|y b] [|z c]; cbn [units_lt]; try done.
  intros H1 H2.
  destruct (Z.eqb_spec x y), (Z.eqb_spec y z), (Z.eqb_spec x z); try lia; eauto.
Qed.

Lemma units_lt_total a : ∀ b, units_lt a b = false → units_lt b a = false → a = b.
Proof.
  induction a as [|x a IH]; intros [|y b]; cbn [units_lt]; try done.
  destruct (Z.eqb_spec x y) as [->|Hn].
  - rewrite Z.eqb_refl. intros. f_equal. eauto.
  - destruct (Z.eqb_spec y x); [lia|]. lia.
Qed.

Lemma valid_rune_cases r : valid_rune r = true → (0 ≤ r < 55296 ∨ 57344 ≤ r ≤ 1114111)%Z.
Proof. unfold valid_rune, is_surrogate. lia. Qed.

(** The code units of a rune are its first ones, or a surrogate pair. *)
Lemma utf16_units_valid r :
  valid_rune r = true →
  (utf16_units r = [r] ∧ (r < 55296 ∨ 57344 ≤ r)%Z) ∨
  ∃ h l, utf16_units r = [55296 + h; 56320 + l]%Z ∧ (0 ≤ h < 1024 ∧ r = 65536 + h * 1024 + l)%Z.
Proof.
  intros H%valid_rune_cases. unfold utf16_units.
  destruct ((0 <=? r) && (r <? 55296) || (57344 <=? r) && (r <? 65536))%Z eqn:E1; [left; split; [done|lia]|].
  destruct ((65536 <=? r) && (r <=? 1114111))%Z eqn:E2; [|lia]. right.
  exists ((r - 65536) / 1024)%Z, ((r - 65536) mod 1024)%Z. split; [done|].
  pose proof (Z.div_mod (r - 65536) 1024 ltac:(lia)). split; [|lia].
  split; [apply Z.div_pos; lia|apply Z.div_lt_upper_bound; lia].
Qed.

Lemma utf16_encode_inj a : ∀ b,
  Forall (λ r, valid_rune r = true) a → Forall (λ r, valid_rune r = true) b →
  utf16_encode a = utf16_encode b → a = b.
Proof.
  unfold utf16_encode.
  induction a as [|x a IH]; intros [|y b] Ha Hb He; [done| | |].
  - apply Forall_cons in Hb as [[[Hu _]|(? & ? & Hu & _)]%utf16_units_valid _]; cbn [map concat] in He; by rewrite Hu in He.
  - apply Forall_cons in Ha as [[[Hu _]|(? & ? & Hu & _)]%utf16_units_valid _]; cbn [map concat] in He; by rewrite Hu in He.
  - apply Forall_cons in Ha as [Hx Ha], Hb as [Hy Hb]. cbn [map concat] in He.
    apply utf16_units_valid in Hx as [[Hx ?]|(h & l & Hx & ?)], Hy as [[Hy ?]|(h' & l' & Hy & ?)];
      rewrite Hx, Hy in He; cbn in He; injection He; intros; subst; try lia.
    + f_equal. by apply IH.
    + assert (x = y) as <- by lia. f_equal. by apply IH.
Qed.

Lemma runes_inj a b : ValidString a = true → ValidString b = true → runes a = runes b → a = b.
Proof. intros Ha Hb E. by rewrite <- (write_runes_valid a), <- (write_runes_valid b), E. Qed.

(** On valid strings the order of keys is total. *)
Lemma key_lt_irrefl a : key_lt a a = false.
Proof. apply units_lt_irrefl. Qed.
Lemma key_lt_trans a b c : key_lt a b = true → key_lt b c = true → key_lt a c = true.
Proof. apply units_lt_trans. Qed.
Lemma key_lt_total a b :
  ValidString a = true → ValidString b = true → key_lt a b = false → key_lt b a = false → a = b.
Proof.
  intros Ha Hb H1 H2. apply runes_inj; [done..|]. apply utf16_encode_inj; [apply runes_valid..|].
  by apply units_lt_total.
Qed.

(** ** Sorting *)

Section sort.
Context {A : Type}.
Implicit Types (l : list (string * A)).

Definition keys_valid l : Prop := Forall (λ kv, ValidString kv.1 = true) l.

(** The keys ascend strictly. *)
Definition ascending l : Prop := StronglySorted (λ x y : string * A, key_lt x.1 y.1 = true) l.

Lemma insert_member_perm kv l : insert_member kv l ≡ₚ kv :: l.
Proof.
  induction l as [|x l IH]; [done|]. cbn [insert_member].
  destruct (key_lt _ _); [done|]. rewrite IH. apply Permutation_swap.
Qed.

Lemma sort_members_perm l : sort_members l ≡ₚ l.
Proof. induction l as [|x l IH]; [done|]. cbn. by rewrite insert_member_perm, IH. Qed.

Lemma insert_member_ascending kv l :
  ValidString kv.1 = true → keys_valid l → kv.1 ∉ l.*1 → ascending l → ascending (insert_member kv l).
Proof.
  intros Hk Hv Hn Hs. induction l as [|x l IH]; [by constructor; constructor|].
  cbn [insert_member]. apply Forall_cons in Hv as [Hx Hv]. apply StronglySorted_inv in Hs as [Hs Hl].
  apply not_elem_of_cons in Hn as [Hne Hn].
  destruct (key_lt kv.1 x.1) eqn:E.
  - constructor; [by constructor|]. constructor; [done|].
    eapply Forall_impl; [apply Hl|]. intros y Hy. by eapply key_lt_trans.
  - constructor; [by apply IH|]. rewrite insert_member_perm. constructor; [|done].
    destruct (key_lt x.1 kv.1) eqn:E'; [done|]. destruct Hne. by apply key_lt_total.
Qed.

Lemma sort_members_ascending l : keys_valid l → NoDup l.*1 → ascending (sort_members l).
Proof.
  induction l as [|x l IH]; intros Hv Hn; [constructor|].
  apply Forall_cons in Hv as [Hx Hv]. apply NoDup_cons in Hn as [Hn Hd].
  apply insert_member_ascending; [done| | |auto]; fold (sort_members l).
  - unfold keys_valid. by rewrite sort_members_perm.
  - by rewrite (sort_members_perm l).
Qed.

Lemma sort_members_sorted l : ascending l → sort_members l = l.
Proof.
  induction 1 as [|x l Hs IH Hl]; [done|]. change (sort_members (x :: l)) with (insert_member x (sort_members l)).
  rewrite IH. destruct l as [|y l]; [done|]. cbn [insert_member]. apply Forall_cons in Hl as [-> _]. done.
Qed.

(** Strictly ascending lists with the same members are the same list. *)
Lemma ascending_unique l : ∀ k, ascending l → ascending k → l ≡ₚ k → l = k.
Proof.
  induction l as [|x l IH]; intros k Hl Hk Hp; [by apply Permutation_nil in Hp|].
  destruct k as [|y k]; [by apply Permutation_nil_r in Hp|].
  apply StronglySorted_inv in Hl as [Hl Hx], Hk as [Hk Hy]. rewrite Forall_forall in Hx, Hy.
  assert (x = y) as ->.
  { assert (x ∈ y :: k) as Hin by (rewrite <- Hp; left).
    assert (y ∈ x :: l) as Hin' by (rewrite Hp; left).
    apply elem_of_cons in Hin as [->|Hin]; [done|]. apply elem_of_cons in Hin' as [->|Hin']; [done|].
    specialize (Hx _ Hin'). specialize (Hy _ Hin).
    pose proof (key_lt_trans _ _ _ Hx Hy) as Hc. by rewrite key_lt_irrefl in Hc. }
  f_equal. apply IH; [done..|]. by apply Permutation_cons_inv in Hp.
Qed.

Lemma sort_members_unique l k :
  keys_valid l → NoDup l.*1 → l ≡ₚ k → sort_members l = sort_members k.
Proof.
  intros Hv Hn Hp. apply ascending_unique.
  - by apply sort_members_ascending.
  - apply sort_members_ascending; [unfold keys_valid|]; by rewrite <- Hp.
  - by rewrite !sort_members_perm.
Qed.
End sort.

Lemma insert_member_map {A B} (f : A → B) kv l :
  insert_member (kv.1, f kv.2) (map (λ kv, (kv.1, f kv.2)) l) = map (λ kv, (kv.1, f kv.2)) (insert_member kv l).
Proof. induction l as [|x l IH]; [done|]. cbn [insert_member map fst snd].
  destruct (key_lt _ _); [done|]. cbn [map]. by rewrite IH. Qed.

Lemma sort_members_map {A B} (f : A → B) l :
  sort_members (map (λ kv, (kv.1, f kv.2)) l) = map (λ kv, (kv.1, f kv.2)) (sort_members l).
Proof. induction l as [|x l IH]; [done|]. cbn [map sort_members foldr] in *. unfold sort_members in IH. by rewrite IH, <- insert_member_map. Qed.

(** ** Canonical values

    [norm v] is [v] with its members in order and its numbers spelled the
    canonical way; [print] writes a value as it stands. *)

Definition num_norm (n : string) : string :=
  match ParseFloat n with
  | Some f => if fzero f then "0" else formatES6 f
  | None => n
  end.

Fixpoint norm (v : json) : json :=
  match v with
  | JNum n => JNum (num_norm n)
  | JArr l => JArr (map norm l)
  | JObj l => JObj (sort_members (map (λ kv, (kv.1, norm kv.2)) l))
  | _ => v
  end.

Definition quoted (s : string) : string := q1 +:+ string_text (runes s) +:+ q1.

Fixpoint print (v : json) : string :=
  match v with
  | JNull => "null"
  | JBool b => if b then "true" else "false"
  | JNum n => n
  | JStr s => quoted s
  | JArr l => "[" +:+ sep_by (map print l) +:+ "]"
  | JObj l => "{" +:+ sep_by (map (λ kv, quoted kv.1 +:+ ":" +:+ print kv.2) l) +:+ "}"
  end.

(** Every number is in range and every string is valid. *)
Fixpoint writable (v : json) : bool :=
  match v with
  | JNum n => bool_decide (is_Some (ParseFloat n))
  | JStr s => ValidString s
  | JArr l => forallb writable l
  | JObj l => forallb (λ kv, ValidString kv.1 && writable kv.2) l
  | _ => true
  end.

(** No object has two members of one name. *)
Fixpoint distinct (v : json) : bool :=
  match v with
  | JArr l => forallb distinct l
  | JObj l => bool_decide (NoDup l.*1) && forallb (λ kv, distinct kv.2) l
  | _ => true
  end.

(** The containers a value opens inside each other. *)
Fixpoint height (v : json) : Z :=
  match v with
  | JArr l => 1 + foldr (λ x, Z.max (height x)) 0 l
  | JObj l => 1 + foldr (λ kv, Z.max (height kv.2)) 0 l
  | _ => 0
  end%Z.

Lemma all_ok_map {A B E} (f : A → result E B) (ok : A → bool) (g : A → B) l :
  Forall (λ x, ∀ y, f x = Ok y ↔ ok x = true ∧ y = g x) l →
  ∀ ys, all_ok (map f l) = Ok ys ↔ forallb ok l = true ∧ ys = map g l.
Proof.
  induction 1 as [|x l Hx Hl IH]; intros ys; cbn [map all_ok forallb].
  - split; [by intros [= <-]|by intros [_ ->]].
  - rewrite bind_Ok, andb_true_iff. setoid_rewrite bind_Ok. split.
    + intros (y & [-> ->]%Hx & ys' & [-> ->]%IH & [= <-]). done.
    + intros [[H1 H2] ->]. exists (g x). split; [by apply Hx|]. exists (map g l). split; [by apply IH|done].
Qed.

Lemma all_ok_perm {A} (f : A → bool) l k : l ≡ₚ k → forallb f l = forallb f k.
Proof. induction 1; cbn; [done|by f_equal| |congruence]. by rewrite !andb_assoc, (andb_comm (f y)). Qed.

Lemma forallb_ext {A} (f g : A → bool) l : Forall (λ x, f x = g x) l → forallb f l = forallb g l.
Proof. induction 1; cbn; congruence. Qed.

Lemma forallb_comp {A B} (f : B → bool) (g : A → B) l : forallb f (map g l) = forallb (λ x, f (g x)) l.
Proof. induction l; cbn; congruence. Qed.

Lemma forallb_and {A} (f g : A → bool) l : forallb (λ x, f x && g x) l = forallb f l && forallb g l.
Proof. induction l as [|x l IH]; [done|]. cbn. rewrite IH. destruct (f x), (g x), (forallb f l); done. Qed.

Lemma writeCanonicalNumber_ok n s :
  writeCanonicalNumber n = Ok s ↔ bool_decide (is_Some (ParseFloat n)) = true ∧ s = num_norm n.
Proof.
  unfold writeCanonicalNumber, num_norm. rewrite bool_decide_eq_true.
  destruct (ParseFloat n) as [f|]; split; [intros [= <-]|intros [_ ->]|done|by intros [[??] _]]; eauto.
Qed.

Lemma writeJSONString_ok s t : writeJSONString s = Ok t ↔ ValidString s = true ∧ t = quoted s.
Proof. unfold writeJSONString, quoted. destruct (ValidString s); naive_solver. Qed.

Lemma member_text_ok k v (ok : bool) t :
  (∀ s, writeCanonical v = Ok s ↔ ok = true ∧ s = t) →
  ∀ y, member_text (k, writeCanonical v) = Ok y ↔ ValidString k && ok = true ∧ y = quoted k +:+ ":" +:+ t.
Proof.
  intros Hv y. unfold member_text. cbn [fst snd]. rewrite bind_Ok, andb_true_iff. setoid_rewrite bind_Ok.
  setoid_rewrite writeJSONString_ok. setoid_rewrite Hv. naive_solver.
Qed.

(** The canonical writer prints the canonical value, whenever it succeeds. *)
Lemma writeCanonical_ok v : ∀ s, writeCanonical v = Ok s ↔ writable v = true ∧ s = print (norm v).
Proof.
  induction v as [|b|n|t|l IH|l IH] using json_ind'; intros s.
  - cbn; naive_solver.
  - destruct b; cbn; naive_solver.
  - apply writeCanonicalNumber_ok.
  - apply writeJSONString_ok.
  - cbn [writeCanonical writable norm print]. rewrite bind_Ok. setoid_rewrite (all_ok_map _ _ _ _ IH).
    rewrite map_map. naive_solver.
  - cbn [writeCanonical writable norm print]. rewrite !sort_members_map, !map_map, forallb_and.
    destruct (forallb (λ kv, ValidString kv.1) l) eqn:Hk; cbn [negb andb]; [|naive_solver].
    rewrite bind_Ok.
    assert (Forall (λ kv : string * json, ∀ y, member_text (kv.1, writeCanonical kv.2) = Ok y ↔
      ValidString kv.1 && writable kv.2 = true ∧ y = quoted kv.1 +:+ ":" +:+ print (norm kv.2)) (sort_members l)) as Hm.
    { rewrite sort_members_perm. eapply Forall_impl; [apply IH|]. intros [k v] Hv. by apply member_text_ok. }
    setoid_rewrite (all_ok_map (λ kv, member_text (kv.1, writeCanonical kv.2)) _ _ _ Hm).
    rewrite (all_ok_perm _ _ _ (sort_members_perm l)), forallb_and, Hk. cbn [andb fst snd]. naive_solver.
Qed.

Lemma forallb_iff {A} (f : A → bool) l : forallb f l = true ↔ Forall (λ x, f x = true) l.
Proof. induction l as [|x l IH]; cbn; [done|]. by rewrite andb_true_iff, Forall_cons, IH. Qed.

Lemma forallb_impl_Forall {A} (f : A → bool) (P : A → Prop) l :
  Forall (λ x, f x = true → P x) l → forallb f l = true → Forall P l.
Proof. induction 1; cbn; [constructor|]. intros [? ?]%andb_true_iff. constructor; auto. Qed.

Lemma digits_val_nonneg s : ∀ acc n, (0 ≤ acc)%Z → digits_val acc s = Some n → (0 ≤ n)%Z.
Proof.
  induction s as [|c s IH]; intros acc n Ha; cbn [digits_val]; [by intros [= <-]|].
  destruct (is_digit c) eqn:Hc; [|done]. apply IH. unfold is_digit, between in Hc. pose proof (code_range c). lia.
Qed.

(** A number in range reads as zero or as a binary64 number. *)
Lemma ParseFloat_cases n f : ParseFloat n = Some f → fzero f = true ∨ fzero f = false ∧ representable (fman f) (fexp f).
Proof.
  unfold ParseFloat. destruct (split_number n) as [[[neg int] frac] e].
  intros ([m x] & Hr & [= <-])%bind_Some. unfold fzero. cbn [fman fexp].
  destruct (Z.eqb_spec m 0) as [|Hm]; [by left|]. right. split; [done|].
  unfold round_decimal in Hr. destruct (Z.eqb_spec (digits_Z (int +:+ frac)) 0) as [|Hd]; [simplify_eq|].
  assert (0 < digits_Z (int +:+ frac))%Z as Hpos.
  { assert (0 ≤ digits_Z (int +:+ frac))%Z; [|lia]. unfold digits_Z.
    destruct (digits_val 0 (int +:+ frac)) eqn:E; cbn; [|done]. by eapply digits_val_nonneg in E. }
  set (k := (e - Z.of_nat (len frac))%Z) in *.
  pose proof (decimal_spec (digits_Z (int +:+ frac)) k (Z.abs k) ltac:(lia) ltac:(lia)) as Hs.
  destruct (decimal _ _) as [p q]. destruct Hs as (Hq & _ & Hp).
  apply round_binary_representable in Hr as [?|[? _]]; auto; done.
Qed.

(** Canonical spelling is a normal form that the decoder reads back. *)
Lemma num_norm_spec n f :
  ParseFloat n = Some f →
  (∀ rest, num_end rest → parse_num (num_norm n +:+ rest) = Some (num_norm n, rest)) ∧
  num_norm (num_norm n) = num_norm n ∧ is_Some (ParseFloat (num_norm n)) ∧
  ∃ c s, num_norm n = String c s ∧ (is_digit c = true ∨ beq c "-" = true).
Proof.
  intros Hf. destruct (ParseFloat_cases n f Hf) as [Hz|[Hz Hr]]; unfold num_norm at 1 2 4 5 6 7; rewrite Hf, Hz.
  - split_and!; [|done|by vm_compute; eauto|exists "0"%char, ""; split; [done|by left]].
    intros rest Hrest. by apply (parse_num_text false "0" "" None); [left|..].
  - destruct f as [neg m e]. destruct (formatES6_reads neg m e Hr) as (Hread & Hnum & Hhead).
    split_and!; [done| |by rewrite Hread|done].
    unfold num_norm. by rewrite Hread, Hz.
Qed.

Lemma norm_keys l : (map (λ kv : string * json, (kv.1, norm kv.2)) l).*1 = l.*1.
Proof. induction l as [|x l IH]; [done|]. cbn [map fmap list_fmap fst] in *. by f_equal. Qed.

Lemma writable_members l :
  forallb (λ kv : string * json, ValidString kv.1 && writable kv.2) l = true →
  keys_valid l ∧ Forall (λ kv, writable kv.2 = true) l.
Proof.
  rewrite forallb_and, andb_true_iff. intros [H1 H2]. by split; apply forallb_iff.
Qed.

Lemma map_id_Forall {A} (f : A → A) l : Forall (λ x, f x = x) l → map f l = l.
Proof. induction 1; cbn; congruence. Qed.

(** [norm] keeps what makes a value writable, and is a normal form. *)
Lemma norm_writable v : writable v = true → writable (norm v) = true.
Proof.
  induction v as [|b|n|t|l IH|l IH] using json_ind'; cbn [writable norm]; try done.
  - intros [f Hf]%bool_decide_eq_true. apply bool_decide_eq_true. by eapply num_norm_spec.
  - intros Hw. rewrite forallb_comp. apply forallb_iff. by eapply forallb_impl_Forall in Hw.
  - rewrite sort_members_map, forallb_comp, (all_ok_perm _ _ _ (sort_members_perm l)). cbn [fst snd].
    intros [Hk Hw]%writable_members. rewrite forallb_and, andb_true_iff. split; apply forallb_iff; [done|].
    rewrite Forall_forall in *. auto.
Qed.

Lemma norm_distinct v : distinct v = true → distinct (norm v) = true.
Proof.
  induction v as [|b|n|t|l IH|l IH] using json_ind'; cbn [distinct norm]; try done.
  - intros Hd. rewrite forallb_comp. apply forallb_iff. by eapply forallb_impl_Forall in Hd.
  - rewrite !andb_true_iff, !bool_decide_eq_true. intros [Hn Hd]. split.
    + by rewrite sort_members_perm, norm_keys.
    + rewrite (all_ok_perm _ _ _ (sort_members_perm _)), forallb_comp. cbn [snd].
      apply forallb_iff. by eapply forallb_impl_Forall in Hd.
Qed.

Lemma norm_norm v : writable v = true → distinct v = true → norm (norm v) = norm v.
Proof.
  induction v as [|b|n|t|l IH|l IH] using json_ind'; cbn [writable distinct norm]; try done.
  - intros [f Hf]%bool_decide_eq_true _. f_equal. by eapply num_norm_spec.
  - rewrite !forallb_iff, !Forall_forall in *. intros Hw Hd. f_equal.
    apply map_id_Forall, Forall_map, Forall_forall. auto.
  - intros [Hk Hw]%writable_members [Hn Hd]%andb_true_iff. apply bool_decide_eq_true in Hn.
    f_equal. rewrite <- sort_members_map, map_map. cbn [fst snd].
    rewrite (map_ext_in _ (λ kv, (kv.1, norm kv.2))).
    + apply sort_members_sorted, sort_members_ascending; [|by rewrite norm_keys].
      unfold keys_valid in *. by rewrite Forall_map.
    + intros kv Hin%list_elem_of_In. rewrite forallb_iff, Forall_forall in *. f_equal. auto.
Qed.

(** ** Decoding *)

Lemma last_members_keys {A} k (l : list (string * A)) : k ∈ (last_members l).*1 ↔ k ∈ l.*1.
Proof.
  induction l as [|x l IH]; [done|]. cbn [last_members]. rewrite fmap_cons, elem_of_cons.
  case_bool_decide; [|rewrite fmap_cons, elem_of_cons, IH; done]. rewrite IH. naive_solver.
Qed.

Lemma last_members_NoDup {A} (l : list (string * A)) : NoDup (last_members l).*1.
Proof.
  induction l as [|x l IH]; [constructor|]. cbn [last_members]. case_bool_decide; [done|].
  rewrite fmap_cons. constructor; [|done]. by rewrite last_members_keys.
Qed.

Lemma last_members_id {A} (l : list (string * A)) : NoDup l.*1 → last_members l = l.
Proof.
  induction l as [|x l IH]; [done|]. rewrite fmap_cons, NoDup_cons. intros [Hx Hn]. cbn [last_members].
  rewrite bool_decide_eq_false_2 by done. f_equal. auto.
Qed.

Lemma last_members_sub {A} (P : string * A → Prop) l : Forall P l → Forall P (last_members l).
Proof. induction 1; [constructor|]. cbn [last_members]. case_bool_decide; [done|]. by constructor. Qed.

Lemma decoded_distinct v : distinct (decoded v) = true.
Proof.
  induction v as [|b|n|t|l IH|l IH] using json_ind'; cbn [distinct decoded]; try done.
  - rewrite forallb_comp. by apply forallb_iff.
  - rewrite andb_true_iff, bool_decide_eq_true. split; [apply last_members_NoDup|].
    apply forallb_iff, last_members_sub, Forall_map. done.
Qed.

Lemma decoded_id v : distinct v = true → decoded v = v.
Proof.
  induction v as [|b|n|t|l IH|l IH] using json_ind'; cbn [distinct decoded]; try done.
  - intros Hd. f_equal. apply map_id_Forall. by eapply forallb_impl_Forall in Hd.
  - intros [Hn Hd]%andb_true_iff. apply bool_decide_eq_true in Hn. f_equal.
    rewrite map_id_Forall; [by apply last_members_id|].
    rewrite forallb_iff, Forall_forall in *. intros [k w] Hin. cbn. f_equal. apply (IH _ Hin), (Hd _ Hin).
Qed.

(** ** Depth *)

Lemma height_nonneg v : (0 ≤ height v)%Z.
Proof.
  assert (∀ {A} (f : A → Z) l, 0 ≤ foldr (λ x, Z.max (f x)) 0 l)%Z as Hf.
  { intros A f l. induction l; cbn; lia. }
  destruct v as [| | | |l|l]; cbn [height]; try done.
  - pose proof (Hf _ height l). lia.
  - pose proof (Hf _ (λ kv : string * json, height kv.2) l). cbn beta in *. lia.
Qed.

Lemma max_le {A} (f : A → Z) l n : (0 ≤ n)%Z → (foldr (λ x, Z.max (f x)) 0 l ≤ n)%Z ↔ Forall (λ x, (f x ≤ n)%Z) l.
Proof.
  intros Hn. induction l as [|x l IH]; cbn [foldr]; [by split|]. rewrite Forall_cons, <- IH. lia.
Qed.

Lemma height_arr l n : (height (JArr l) ≤ n)%Z ↔ (1 ≤ n)%Z ∧ Forall (λ x, (height x ≤ n - 1)%Z) l.
Proof.
  cbn [height]. assert (0 ≤ foldr (λ x, Z.max (height x)) 0 l)%Z by (induction l; cbn [foldr]; lia).
  split; [intros; split; [lia|]; apply max_le; lia|]. intros [? Hl%max_le]; lia.
Qed.

Lemma height_obj l n : (height (JObj l) ≤ n)%Z ↔ (1 ≤ n)%Z ∧ Forall (λ kv, (height kv.2 ≤ n - 1)%Z) l.
Proof.
  cbn [height]. assert (0 ≤ foldr (λ kv : string * json, Z.max (height kv.2)) 0 l)%Z by (induction l; cbn [foldr]; lia).
  split; [intros; split; [lia|]; apply (max_le (λ kv : string * json, height kv.2)); lia|].
  intros [? Hl%(max_le (λ kv : string * json, height kv.2))]; lia.
Qed.

Lemma decoded_height v : ∀ n, (height v ≤ n)%Z → (height (decoded v) ≤ n)%Z.
Proof.
  induction v as [|b|m|t|l IH|l IH] using json_ind'; intros n; cbn [decoded]; try done.
  - rewrite !height_arr, Forall_map, !Forall_forall in *. naive_solver.
  - rewrite !height_obj. intros [? Hl]. split; [done|]. apply last_members_sub, Forall_map.
    rewrite !Forall_forall in *. naive_solver.
Qed.

Lemma norm_height v : ∀ n, (height v ≤ n)%Z → (height (norm v) ≤ n)%Z.
Proof.
  induction v as [|b|m|t|l IH|l IH] using json_ind'; intros n; cbn [norm]; try done.
  - rewrite !height_arr, Forall_map, !Forall_forall in *. naive_solver.
  - rewrite !height_obj, sort_members_perm, Forall_map, !Forall_forall in *. naive_solver.
Qed.

(** The decoder refuses what is deeper than [maxNestingDepth]. *)
Lemma parse_height f :
  (∀ d s v rest, (0 ≤ d ≤ maxNestingDepth)%Z → parse_value f d s = Some (v, rest) → (height v ≤ maxNestingDepth - d)%Z) ∧
  (∀ d s vs rest, (0 ≤ d ≤ maxNestingDepth)%Z → parse_elements f d s = Some (vs, rest) →
     Forall (λ x, (height x ≤ maxNestingDepth - d)%Z) vs) ∧
  (∀ d s ms rest, (0 ≤ d ≤ maxNestingDepth)%Z → parse_members f d s = Some (ms, rest) →
     Forall (λ kv, (height kv.2 ≤ maxNestingDepth - d)%Z) ms).
Proof.
  induction f as [|f (IHv & IHe & IHm)]; [done|]. split_and!; intros d s v rest Hd H.
  - cbn [parse_value] in H. dec_inv H; try (cbn [height]; lia);
      rewrite ?height_obj, ?height_arr; (split; [lia|]); try constructor;
      [eapply Forall_impl; [eapply IHm; [|done]; lia|]|eapply Forall_impl; [eapply IHe; [|done]; lia|]]; cbn; lia.
  - cbn [parse_elements] in H. dec_inv H; repeat constructor; eauto.
  - cbn [parse_members] in H. dec_inv H; repeat constructor; cbn [snd]; eauto.
Qed.

(** ** Reading a canonical text *)

(** Every number is spelled the canonical way and every string is valid. *)
Fixpoint plain (v : json) : bool :=
  match v with
  | JNum n => bool_decide (is_Some (ParseFloat n)) && bool_decide (num_norm n = n)
  | JStr s => ValidString s
  | JArr l => forallb plain l
  | JObj l => forallb (λ kv, ValidString kv.1 && plain kv.2) l
  | _ => true
  end.

Lemma plain_norm v : writable v = true → plain (norm v) = true.
Proof.
  induction v as [|b|n|t|l IH|l IH] using json_ind'; cbn [writable norm plain]; try done.
  - intros [f Hf]%bool_decide_eq_true. destruct (num_norm_spec n f Hf) as (_ & ? & ? & _).
    by rewrite !bool_decide_eq_true_2.
  - intros Hw. rewrite forallb_comp. apply forallb_iff. by eapply forallb_impl_Forall in Hw.
  - rewrite sort_members_map, forallb_comp, (all_ok_perm _ _ _ (sort_members_perm l)). cbn [fst snd].
    intros [Hk Hw]%writable_members. rewrite forallb_and, andb_true_iff. split; apply forallb_iff; [done|].
    rewrite Forall_forall in *. auto.
Qed.

(** A number token, as the reader of numbers takes it. *)
Definition literal (n : string) : Prop :=
  (∃ c s, n = String c s ∧ (is_digit c = true ∨ beq c "-" = true)) ∧
  ∀ rest, num_end rest → parse_num (n +:+ rest) = Some (n, rest).

(** Every number is a token and every string is valid. *)
Inductive spelled : json → Prop :=
  | spelled_null : spelled JNull
  | spelled_bool b : spelled (JBool b)
  | spelled_num n : literal n → spelled (JNum n)
  | spelled_str s : ValidString s = true → spelled (JStr s)
  | spelled_arr l : Forall spelled l → spelled (JArr l)
  | spelled_obj l : Forall (λ kv, ValidString kv.1 = true ∧ spelled kv.2) l → spelled (JObj l).

Lemma plain_spelled w : plain w = true → spelled w.
Proof.
  induction w as [|b|n|t|l IH|l IH] using json_ind'; cbn [plain]; intros H; try by constructor.
  - apply andb_true_iff in H as [[f Hf]%bool_decide_eq_true Hn%bool_decide_eq_true]. constructor.
    destruct (num_norm_spec n f Hf) as (Hp & _ & _ & c & s & Hc & Hd). rewrite Hn in Hp, Hc. split; [|done]. by exists c, s.
  - constructor. by eapply forallb_impl_Forall in H.
  - constructor. rewrite forallb_and, andb_true_iff in H. destruct H as [Hk Hv]. apply forallb_iff in Hk.
    apply (forallb_impl_Forall _ (λ kv, spelled kv.2)) in Hv; [|done]. rewrite Forall_forall in *. auto.
Qed.

Definition reads (w : json) : Prop := ∀ f d rest,
  num_end rest → (0 ≤ d)%Z → (height w + d ≤ maxNestingDepth)%Z → 2 * len (print w +:+ rest) + 1 ≤ f →
  parse_value f d (print w +:+ rest) = Some (w, rest).

(** The first character of a printed value. *)
Lemma print_head w :
  spelled w → ∃ c s, print w = String c s ∧ is_ws c = false ∧ beq c "]" = false.
Proof.
  intros H. destruct H as [|[|]|n [(c & s & -> & Hd) _]|t|l|l]; cbn [print];
    try (by do 2 eexists; split; [reflexivity|]).
  exists c, s. split; [done|]. destruct Hd as [Hd|Hd%beq_eq]; [|by subst].
  unfold is_digit, between in Hd. unfold is_ws. split; [lia|]. apply beq_neq. intros ->. by vm_compute in Hd.
Qed.

Lemma skip_ws_head c s : is_ws c = false → skip_ws (String c s) = String c s.
Proof. intros H. cbn [skip_ws]. by rewrite H. Qed.

Lemma sep_by_cons s l : sep_by (s :: l) = s +:+ match l with [] => "" | _ => "," +:+ sep_by l end.
Proof. destruct l; [by rewrite sapp_nil_r|done]. Qed.

Lemma read_null f d rest : parse_value (S f) d ("null" +:+ rest) = Some (JNull, rest).
Proof.
  pose proof (proj2 (CutPrefix_Some ("null" +:+ rest) "null" rest) eq_refl) as H.
  change (parse_value (S f) d ("null" +:+ rest)) with
    (match CutPrefix ("null" +:+ rest) "null" with Some r => Some (JNull, r) | None => @None (json * string) end). by rewrite H.
Qed.

Lemma read_bool b f d rest : parse_value (S f) d (print (JBool b) +:+ rest) = Some (JBool b, rest).
Proof.
  pose proof (proj2 (CutPrefix_Some ("true" +:+ rest) "true" rest) eq_refl) as Ht.
  pose proof (proj2 (CutPrefix_Some ("false" +:+ rest) "false" rest) eq_refl) as Hf.
  destruct b; cbn [print].
  - change (parse_value (S f) d ("true" +:+ rest)) with
      (match CutPrefix ("true" +:+ rest) "true" with Some r => Some (JBool true, r) | None => @None (json * string) end).
    by rewrite Ht.
  - change (parse_value (S f) d ("false" +:+ rest)) with
      (match CutPrefix ("false" +:+ rest) "false" with Some r => Some (JBool false, r) | None => @None (json * string) end). by rewrite Hf.
Qed.

Lemma read_num n f d rest :
  literal n → num_end rest → parse_value (S f) d (n +:+ rest) = Some (JNum n, rest).
Proof.
  intros [(c & s & Hc & Hd) Hp] Hrest. specialize (Hp rest Hrest). rewrite Hc in Hp |- *. rewrite sapp_cons in *.
  assert (is_ws c = false ∧ beq c quote = false ∧ beq c "{" = false ∧ beq c "[" = false ∧ beq c "-" || is_digit c = true)
    as (H1 & H2 & H3 & H4 & H5).
  { destruct Hd as [Hd|Hd%beq_eq]; [|by subst]. rewrite Hd, orb_true_r. unfold is_digit, between in Hd.
    split_and!; [unfold is_ws; lia| | | |done]; apply beq_neq; intros ->; by vm_compute in Hd. }
  cbn [parse_value]. rewrite skip_ws_head by done. by rewrite H2, H3, H4, H5, Hp.
Qed.

Lemma read_str t f d rest : ValidString t = true → parse_value (S f) d (quoted t +:+ rest) = Some (JStr t, rest).
Proof.
  intros Hv. destruct (read_quoted t (quoted t) rest) as (body & -> & Hp); [by apply writeJSONString_ok|].
  rewrite sapp_cons. cbn [parse_value]. rewrite skip_ws_head by done. by rewrite beq_refl, Hp.
Qed.

Lemma read_elements l : ∀ f d rest,
  l ≠ [] → Forall reads l → Forall (λ x, (height x + d ≤ maxNestingDepth)%Z) l → (0 ≤ d)%Z →
  2 * len (sep_by (map print l) +:+ "]" +:+ rest) + 2 ≤ f →
  parse_elements f d (sep_by (map print l) +:+ "]" +:+ rest) = Some (l, rest).
Proof.
  induction l as [|x l IH]; intros [|f] d rest Hl Hr Hh Hd Hf; [done|done|lia|].
  apply Forall_cons in Hr as [Hx Hr], Hh as [Hhx Hh]. cbn [parse_elements map].
  cbn [map] in Hf. rewrite sep_by_cons, sapp_assoc in Hf |- *.
  destruct l as [|y l]; cbn [map] in Hf |- *.
  - rewrite sapp_nil_l in Hf |- *. rewrite (Hx f d ("]" +:+ rest)); [|done..|lia]. done.
  - change (print y :: map print l) with (map print (y :: l)) in Hf |- *. rewrite !sapp_assoc in Hf |- *.
    change ("," +:+ ?s) with (String "," s) in Hf |- *.
    rewrite (Hx f d); [|done..|lia]. cbn [mbind option_bind]. rewrite skip_ws_head by done.
    rewrite beq_refl. rewrite (IH f d rest); [done..|].
    rewrite len_app, len_cons in Hf. lia.
Qed.

Lemma read_members l : ∀ f d rest,
  l ≠ [] → Forall (λ kv, ValidString kv.1 = true ∧ reads kv.2) l →
  Forall (λ kv, (height kv.2 + d ≤ maxNestingDepth)%Z) l → (0 ≤ d)%Z →
  2 * len (sep_by (map (λ kv, quoted kv.1 +:+ ":" +:+ print kv.2) l) +:+ "}" +:+ rest) + 2 ≤ f →
  parse_members f d (sep_by (map (λ kv, quoted kv.1 +:+ ":" +:+ print kv.2) l) +:+ "}" +:+ rest) = Some (l, rest).
Proof.
  set (g := λ kv : string * json, quoted kv.1 +:+ ":" +:+ print kv.2).
  induction l as [|[k x] l IH]; intros [|f] d rest Hl Hr Hh Hd Hf; [done|done|lia|].
  apply Forall_cons in Hr as [[Hk Hx] Hr], Hh as [Hhx Hh]. cbn [parse_members map].
  cbn [map] in Hf. rewrite sep_by_cons in Hf |- *. unfold g in Hf at 1 |- * at 1.
  cbn [fst snd] in *. rewrite !sapp_assoc in Hf |- *.
  set (tail := match map g l with [] => "" | _ => "," +:+ sep_by (map g l) end +:+ "}" +:+ rest) in *.
  destruct (read_quoted k (quoted k) (":" +:+ print x +:+ tail)) as (body & Hq & Hp); [by apply writeJSONString_ok|].
  rewrite Hq, !sapp_cons, !sapp_nil_l in *. rewrite skip_ws_head by done. rewrite beq_refl. cbn [negb]. rewrite Hp. cbn [mbind option_bind].
  rewrite skip_ws_head by done. rewrite beq_refl. cbn [negb].
  rewrite len_cons, len_app, len_cons in Hf.
  rewrite (Hx f d tail); [|by destruct l|done..|lia]. cbn [mbind option_bind].
  destruct l as [|y l]; [done|]. unfold tail. cbn [map]. change (g y :: map g l) with (map g (y :: l)).
  rewrite sapp_assoc. change ("," +:+ ?s) with (String "," s). rewrite skip_ws_head by done.
  rewrite beq_refl. rewrite (IH f d rest); [done..|].
  unfold tail in Hf. cbn [map] in Hf |- *. rewrite !len_app in Hf |- *. change (len ("," +:+ ?s)) with (S (len s)) in Hf.
  change (len ("}" +:+ ?s)) with (S (len s)) in Hf. change (len "}") with 1. lia.
Qed.

Lemma depth_guard w d n :
  (height w + d ≤ maxNestingDepth)%Z → (height w = 1 + n)%Z → (0 ≤ n)%Z → (maxNestingDepth <=? d)%Z = false.
Proof. lia. Qed.

(** A canonical text is read back as the value it was printed from. *)
Lemma spelled_reads w : spelled w → reads w.
Proof.
  induction w as [|b|n|t|l IH|l IH] using json_ind'; intros Hp [|f] d rest Hrest Hd Hh Hf; try lia; inversion Hp; subst.
  - apply read_null.
  - apply read_bool.
  - by apply read_num.
  - by apply read_str.
  - pose proof (proj1 (height_arr l _) ltac:(reflexivity)) as [Hn Hl].
    cbn [print] in *. rewrite !sapp_assoc in *. change ("[" +:+ ?s) with (String "[" s) in *.
    cbn [parse_value]. rewrite skip_ws_head by done.
    replace (maxNestingDepth <=? d)%Z with false by lia.
    rewrite len_cons in Hf. destruct l as [|x l]; [done|].
    destruct (print_head x) as (c & s & Hx & Hw & Hc); [by eapply Forall_inv|].
    rewrite (read_elements (x :: l) f (d + 1) rest); [|done| |eapply Forall_impl; [apply Hl|cbv beta; lia]|lia|lia].
    + cbn [map]. rewrite sep_by_cons, Hx, !sapp_cons. rewrite skip_ws_head by done. by rewrite Hc.
    + rewrite Forall_forall in *. auto.
  - pose proof (proj1 (height_obj l _) ltac:(reflexivity)) as [Hn Hl].
    cbn [print] in *. rewrite !sapp_assoc in *. change ("{" +:+ ?s) with (String "{" s) in *.
    cbn [parse_value]. rewrite skip_ws_head by done.
    replace (maxNestingDepth <=? d)%Z with false by lia.
    rewrite len_cons in Hf. destruct l as [|x l]; [done|].
    rewrite (read_members (x :: l) f (d + 1) rest); [|done| |eapply Forall_impl; [apply Hl|cbv beta; lia]|lia|lia].
    + assert (∃ s, sep_by (map (λ kv, quoted kv.1 +:+ ":" +:+ print kv.2) (x :: l)) = String quote s) as (s & ->).
      { cbn [map]. rewrite sep_by_cons. unfold quoted at 1, q1 at 1. rewrite !sapp_cons. by eexists. }
      rewrite sapp_cons. by rewrite skip_ws_head by done.
    + rewrite Forall_forall in *. naive_solver.
Qed.

Lemma read_print w : spelled w → (height w ≤ maxNestingDepth)%Z → json_decode_first (print w) = Some (w, "").
Proof.
  intros Hp Hh. unfold json_decode_first. pose proof (spelled_reads w Hp) as Hr.
  specialize (Hr (S (2 * len (print w))) 0%Z "" I). rewrite sapp_nil_r in Hr. apply Hr; lia.
Qed.

Lemma print_inj w w' :
  spelled w → spelled w' → (height w ≤ maxNestingDepth)%Z → (height w' ≤ maxNestingDepth)%Z →
  print w = print w' → w = w'.
Proof.
  intros Hp Hp' Hh Hh' E. pose proof (read_print w Hp Hh) as H. rewrite E, read_print in H by done. congruence.
Qed.

(** ** Values of the same meaning *)

Definition num_same (n n' : string) : Prop :=
  ∃ f f', ParseFloat n = Some f ∧ ParseFloat n' = Some f' ∧ (f = f' ∨ fzero f = true ∧ fzero f' = true).

(** Numbers that read as the same float, arrays element by element, objects up
    to the order of their members. *)
Inductive json_same : json → json → Prop :=
  | same_null : json_same JNull JNull
  | same_bool b : json_same (JBool b) (JBool b)
  | same_num n n' : num_same n n' → json_same (JNum n) (JNum n')
  | same_str s : json_same (JStr s) (JStr s)
  | same_arr l l' : Forall2 json_same l l' → json_same (JArr l) (JArr l')
  | same_obj l k l' :
      Forall2 (λ x y, x.1 = y.1 ∧ json_same x.2 y.2) l k → k ≡ₚ l' → json_same (JObj l) (JObj l').

Lemma num_same_norm n n' :
  is_Some (ParseFloat n) → is_Some (ParseFloat n') → num_same n n' ↔ num_norm n = num_norm n'.
Proof.
  intros [f Hf] [f' Hf']. unfold num_same, num_norm. rewrite Hf, Hf'.
  assert (∀ g, fzero g = false → (∃ n, ParseFloat n = Some g) → ParseFloat (formatES6 g) = Some g) as Hread.
  { intros [neg m e] Hz [x Hx]. destruct (ParseFloat_cases x _ Hx) as [?|[_ Hr]]; [congruence|]. by apply formatES6_reads. }
  assert (∃ z, ParseFloat "0" = Some z ∧ fzero z = true) as (z & Hz & Hzz) by (vm_compute; eauto).
  split.
  - intros (g & g' & [= <-] & [= <-] & [->|[-> ->]]); done.
  - intros E. exists f, f'. split; [done|]. split; [done|].
    destruct (fzero f) eqn:E1, (fzero f') eqn:E2; [by right|left..].
    + pose proof (Hread f' E2 ltac:(eauto)) as H. rewrite <- E in H. congruence.
    + pose proof (Hread f E1 ltac:(eauto)) as H. rewrite E in H. congruence.
    + pose proof (Hread f E1 ltac:(eauto)) as H. rewrite E, (Hread f' E2) in H by eauto. congruence.
Qed.

Lemma Forall2_map_eq {A} (f : A → A) (R : A → A → Prop) l k :
  Forall (λ x, ∀ y, y ∈ k → R x y ↔ f x = f y) l → Forall2 R l k ↔ map f l = map f k.
Proof.
  revert k. induction l as [|x l IH]; intros [|y k] Hl; cbn [map].
  - by split.
  - split; [by inversion 1|done].
  - split; [by inversion 1|done].
  - apply Forall_cons in Hl as [Hx Hl]. rewrite Forall2_cons, IH, (Hx y).
    + split; [intros [-> ->]; done|by intros [= -> ->]].
    + left.
    + eapply Forall_impl; [apply Hl|]. intros z Hz w Hw. apply Hz. by right.
Qed.

Definition norm_member (kv : string * json) : string * json := (kv.1, norm kv.2).

(** Two values mean the same exactly when they have one normal form. *)
Lemma json_same_norm v : ∀ w,
  writable v = true → writable w = true → distinct v = true → distinct w = true →
  json_same v w ↔ norm v = norm w.
Proof.
  induction v as [|b|n|t|l IH|l IH] using json_ind'; intros w Wv Ww Dv Dw.
  1-4: destruct w; cbn [norm] in *; (split; [inversion 1; subst|intros [=]; subst]); try done; try by constructor.
  - f_equal. cbn [writable] in *. apply num_same_norm; [by eapply bool_decide_eq_true_1..|done].
  - constructor. cbn [writable] in *. apply num_same_norm; [by eapply bool_decide_eq_true_1..|done].
  - destruct w as [| | | |k|]; cbn [norm writable distinct] in *; try by (split; [inversion 1|]).
    rewrite forallb_iff, Forall_forall in *.
    assert (Forall2 json_same l k ↔ map norm l = map norm k) as Hlk.
    { apply Forall2_map_eq. rewrite Forall_forall. auto. }
    split; [inversion 1; subst; f_equal; by apply Hlk|]. intros [= H]. constructor. by apply Hlk.
  - destruct w as [| | | | |k]; cbn [norm writable distinct] in *; try by (split; [inversion 1|]).
    change (λ kv : string * json, (kv.1, norm kv.2)) with norm_member.
    apply writable_members in Wv as [Kv Wv], Ww as [Kw Ww].
    apply andb_true_iff in Dv as [Nv%bool_decide_eq_true Dv%forallb_iff].
    apply andb_true_iff in Dw as [Nw%bool_decide_eq_true Dw%forallb_iff].
    set (R := λ x y : string * json, x.1 = y.1 ∧ json_same x.2 y.2).
    assert (∀ a b, a ≡ₚ l → b ≡ₚ k → Forall2 R a b ↔ map norm_member a = map norm_member b) as Hab.
    { intros a b Ha Hb. apply Forall2_map_eq. rewrite Ha, Forall_forall. intros [kx x] Hx [ky y] Hy.
      rewrite Hb in Hy. unfold R, norm_member. cbn [fst snd]. rewrite Forall_forall in *.
      rewrite (IH _ Hx y (Wv _ Hx) (Ww _ Hy) (Dv _ Hx) (Dw _ Hy)). cbn [snd]. split; [by intros [-> ->]|by intros [= -> ->]]. }
    split.
    + inversion 1 as [| | | | |? k' ? HR Hp]; subst. f_equal.
      rewrite (proj1 (Hab l k' (Permutation_refl _) Hp) HR). symmetry.
      apply sort_members_unique; [unfold keys_valid; by rewrite Forall_map|by rewrite norm_keys|by rewrite Hp].
    + intros [= H]. unfold norm_member in H. rewrite !sort_members_map in H.
      pose proof (proj2 (Hab _ _ (sort_members_perm l) (sort_members_perm k)) H) as HR.
      destruct (Permutation_Forall2 (sort_members_perm l) HR) as (k' & Hk' & HR').
      apply (same_obj l k' k); [done|]. by rewrite <- Hk', sort_members_perm.
Qed.

(** ** Canonicalization *)

(** A value as the decoder hands it on. *)
Definition decodable (v : json) : Prop := distinct v = true ∧ (height v ≤ maxNestingDepth)%Z.

Lemma decoded_decodable s v rest : json_decode_first s = Some (v, rest) → decodable (decoded v).
Proof.
  intros H. split; [apply decoded_distinct|]. apply decoded_height.
  apply (proj1 (parse_height _)) in H; [lia|]. by split.
Qed.

Lemma canonical_same v w s t :
  decodable v → decodable w → writeCanonical v = Ok s → writeCanonical w = Ok t → s = t ↔ json_same v w.
Proof.
  intros [Dv Hv] [Dw Hw] [Wv ->]%writeCanonical_ok [Ww ->]%writeCanonical_ok.
  rewrite json_same_norm by done. split; [|by intros ->].
  apply print_inj; [by apply plain_spelled, plain_norm..|by apply norm_height|by apply norm_height].
Qed.

Lemma Canonicalize_Ok p c :
  Canonicalize p = Ok c ↔ ∃ v, json_decode p = Some v ∧ writeCanonical (decoded v) = Ok c.
Proof.
  unfold Canonicalize, json_decode. destruct (json_decode_first p) as [[v rest]|]; cbn [mbind option_bind].
  - case_bool_decide; [naive_solver|]. destruct (json_decode_first rest); naive_solver.
  - naive_solver.
Qed.

Lemma json_decode_decodable p v : json_decode p = Some v → decodable (decoded v).
Proof.
  unfold json_decode. intros ([w rest] & H & E)%bind_Some. case_bool_decide; simplify_eq. by eapply decoded_decodable.
Qed.

(** C35: two payloads have the same canonical form exactly when their values
    mean the same: the same literals and strings, numbers that read as the same
    binary64 number, arrays equal element by element, and objects with the same
    members in any order, where of two members of one name the last counts. *)
Theorem canonical_meaning p p' v v' c c' :
  json_decode p = Some v → json_decode p' = Some v' →
  Canonicalize p = Ok c → Canonicalize p' = Ok c' →
  c = c' ↔ json_same (decoded v) (decoded v').
Proof.
  intros Hv Hv' (w & Hw & Hc)%Canonicalize_Ok (w' & Hw' & Hc')%Canonicalize_Ok.
  rewrite Hv in Hw. rewrite Hv' in Hw'. injection Hw as <-. injection Hw' as <-.
  apply canonical_same; eauto using json_decode_decodable.
Qed.

(** the canonical form is a JSON text that means what the payload meant,
    and is its own canonical form. *)
Theorem canonical_fixed p c :
  Canonicalize p = Ok c →
  Canonicalize c = Ok c ∧
  ∃ v w, json_decode p = Some v ∧ json_decode c = Some w ∧ json_same (decoded v) w.
Proof.
  intros (v & Hv & [Wv ->]%writeCanonical_ok)%Canonicalize_Ok.
  pose proof (json_decode_decodable p v Hv) as [Dv Hh]. set (a := decoded v) in *.
  assert (json_decode (print (norm a)) = Some (norm a)) as Hread.
  { unfold json_decode. rewrite read_print; [done|by apply plain_spelled, plain_norm|by apply norm_height]. }
  split.
  - apply Canonicalize_Ok. exists (norm a). split; [done|].
    rewrite decoded_id by (by apply norm_distinct). apply writeCanonical_ok.
    rewrite norm_norm by done. split; [by apply norm_writable|done].
  - exists v, (norm a). split; [done|]. split; [done|].
    apply json_same_norm; [done|by apply norm_writable|done|by apply norm_distinct|by rewrite norm_norm].
Qed.

(** ** The decoder's strings are valid *)

Lemma valid_encode r t : valid_rune r = true → ValidString (utf8_encode r +:+ t) = ValidString t.
Proof.
  intros Hr. unfold ValidString. rewrite explode_app. destruct (decode_encode r (explode t) Hr) as [Hd Hl].
  rewrite <- len_explode in Hd, Hl. unfold decode_rune in Hd.
  destruct (utf8_len (explode (utf8_encode r) ++ explode t)) as [|n] eqn:En.
  - injection Hd as <- Hlen. by vm_compute in Hlen.
  - injection Hd as _ Hlen. destruct (explode (utf8_encode r)) as [|b bs]; [cbn in Hl; lia|].
    cbn [app valid_from] in En |- *. rewrite En. injection Hlen as ->. apply valid_from_skip.
Qed.

Lemma valid_ascii d t : (code d < 128)%Z → ValidString (String d t) = ValidString t.
Proof.
  intros Hd. pose proof (code_range d). rewrite <- (valid_encode (code d) t) by (unfold valid_rune, is_surrogate; lia).
  unfold utf8_encode. replace (code d <? 128)%Z with true by lia. by rewrite byte_code.
Qed.

Lemma hex4_range a b c d r : hex4 a b c d = Some r → (0 ≤ r < 65536)%Z.
Proof.
  assert (∀ c x, hex_val c = Some x → 0 ≤ x < 16)%Z as Hv.
  { intros e x. unfold hex_val, is_digit, between. intros H. repeat case_match; simplify_eq; lia. }
  unfold hex4. intros (x & ?%Hv & (y & ?%Hv & (z & ?%Hv & (w & ?%Hv & [= <-])%bind_Some)%bind_Some)%bind_Some)%bind_Some.
  lia.
Qed.

Lemma simple_escape_ascii e d : simple_escape e = Some d → (code d < 128)%Z.
Proof. unfold simple_escape. intros H. repeat case_match; try discriminate; injection H as <-; reflexivity. Qed.

Lemma push_valid p r t rest :
  (∀ t, ValidString (p +:+ t) = ValidString t) → push p r = Some (t, rest) →
  (∀ t' rest', r = Some (t', rest') → ValidString t' = true) → ValidString t = true.
Proof. intros Hp H Hr. destruct r as [[t' rest']|]; [|done]. injection H as <- _. rewrite Hp. by eapply Hr. Qed.

Lemma parse_str_valid n : ∀ s t rest, len s ≤ n → parse_str 0 s = Some (t, rest) → ValidString t = true.
Proof.
  induction n as [|n IH]; intros [|c s] t rest Hn H; try done; [rewrite len_cons in Hn; lia|].
  rewrite len_cons in Hn.
  assert (∀ p s', (∀ t, ValidString (p +:+ t) = ValidString t) → len s' ≤ n →
    push p (parse_str 0 s') = Some (t, rest) → ValidString t = true) as Hpush.
  { intros p s' Hp Hs' H'. eapply push_valid; [done|done|]. intros t' rest'. by apply IH. }
  cbn [parse_str] in H. destruct (beq c quote); [by injection H as <- _|].
  destruct (beq c backslash).
  - destruct s as [|e s2]; [done|]. rewrite len_cons in Hn. destruct (beq e "u").
    + destruct s2 as [|h1 [|h2 [|h3 [|h4 s3]]]]; try done. rewrite !len_cons in Hn.
      apply bind_Some in H as (r & Hr%hex4_range & H).
      assert (∀ q, valid_rune q = true → push (utf8_encode q) (parse_str 0 s3) = Some (t, rest) → ValidString t = true) as Hq.
      { intros q Hq. apply Hpush; [intros; by apply valid_encode|lia]. }
      destruct (is_surrogate r) eqn:Es; [|eapply Hq; [|done]; unfold valid_rune; rewrite Es; lia].
      destruct s3 as [|b [|u [|k1 [|k2 [|k3 [|k4 s4]]]]]]; try by apply (Hq RuneError).
      destruct (if beq b backslash && beq u "u" then r2 ← hex4 k1 k2 k3 k4; decode_pair r r2 else None) as [rr|] eqn:Ep;
        [|by apply (Hq RuneError)].
      eapply (Hpush (utf8_encode rr) s4); [|rewrite !len_cons in Hn; lia|done]. intros t'. apply valid_encode.
      destruct (beq b backslash && beq u "u"); [|done]. apply bind_Some in Ep as (r2 & _ & Ep).
      unfold decode_pair in Ep. case_match; [|done]. injection Ep as <-. unfold valid_rune, is_surrogate. lia.
    + destruct (simple_escape e) as [d|] eqn:Ee; [|done]. eapply (Hpush _ s2); [|lia|exact H].
      intros t'. apply valid_ascii. by eapply simple_escape_ascii.
  - destruct (code c <? 32)%Z; [done|]. destruct (utf8_len (explode (String c s))) as [|m] eqn:El.
    + eapply (Hpush _ s); [intros; by apply (valid_encode RuneError)|lia|exact H].
    + destruct (utf8_sequence _ _ El) as (Hv & [|b bs] & Hbs & Hlen & Henc); [done|].
      injection Hlen as <-. cbn [app] in Hbs. change (explode (String c s)) with (c :: explode s) in Hbs.
      injection Hbs as -> Hbs. cbn [drop] in Hbs.
      set (s' := implode (drop (length bs) (explode s))) in *.
      assert (s = implode bs +:+ s') as Es.
      { apply explode_inj. unfold s'. by rewrite explode_app, !explode_implode. }
      rewrite Es, parse_str_skip, push_push in H.
      eapply (Hpush _ s'); [|rewrite Es, len_app in Hn; lia|exact H].
      intros t'. change (String b "" +:+ implode bs) with (implode (b :: bs)). rewrite <- Henc. by apply valid_encode.
Qed.

(** Every string and key of the value is valid. *)
Fixpoint texts_valid (v : json) : bool :=
  match v with
  | JStr s => ValidString s
  | JArr l => forallb texts_valid l
  | JObj l => forallb (λ kv, ValidString kv.1 && texts_valid kv.2) l
  | _ => true
  end.

Lemma parse_texts_valid f :
  (∀ d s v rest, parse_value f d s = Some (v, rest) → texts_valid v = true) ∧
  (∀ d s vs rest, parse_elements f d s = Some (vs, rest) → forallb texts_valid vs = true) ∧
  (∀ d s ms rest, parse_members f d s = Some (ms, rest) →
     forallb (λ kv, ValidString kv.1 && texts_valid kv.2) ms = true).
Proof.
  induction f as [|f (IHv & IHe & IHm)]; [done|]. split_and!; intros d s v rest H.
  - cbn [parse_value] in H. dec_inv H; cbn [texts_valid forallb]; eauto using parse_str_valid.
  - cbn [parse_elements] in H. dec_inv H; cbn [forallb]; rewrite ?andb_true_iff; eauto.
  - cbn [parse_members] in H. dec_inv H; cbn [forallb fst snd]; rewrite ?andb_true_iff; split_and!; eauto using parse_str_valid.
Qed.

Lemma decoded_texts_valid v : texts_valid v = true → texts_valid (decoded v) = true.
Proof.
  induction v as [|b|n|t|l IH|l IH] using json_ind'; cbn [texts_valid decoded]; try done.
  - intros H. rewrite forallb_comp. apply forallb_iff. by eapply forallb_impl_Forall in H.
  - rewrite forallb_and, andb_true_iff. intros [Hk%forallb_iff Hv].
    eapply forallb_impl_Forall in Hv; [|exact IH]. apply forallb_iff, last_members_sub, Forall_map.
    rewrite Forall_forall in *. intros kv Hin. cbn [fst snd]. by rewrite (Hk _ Hin), (Hv _ Hin).
Qed.

Lemma all_ok_Err {A E} (l : list (result E A)) e : all_ok l = Err e → Err e ∈ l.
Proof.
  induction l as [|r l IH]; [done|]. cbn [all_ok]. intros [->|(a & -> & H)]%bind_Err; [left|right].
  apply IH. by apply bind_Err in H as [?|(? & _ & ?)].
Qed.

Lemma writeCanonical_Err v e :
  texts_valid v = true → writeCanonical v = Err e → ∃ n, e = InvalidNumber n ∧ ParseFloat n = None.
Proof.
  induction v as [|b|n|t|l IH|l IH] using json_ind'; cbn [texts_valid writeCanonical]; intros Ht He; try done.
  - unfold writeCanonicalNumber in He. destruct (ParseFloat n) eqn:E; [done|]. injection He as <-. eauto.
  - unfold writeJSONString in He. by rewrite Ht in He.
  - apply bind_Err in He as [He%all_ok_Err|(? & _ & ?)]; [|done].
    apply list_elem_of_In, in_map_iff in He as (x & Hx & Hin%list_elem_of_In).
    rewrite forallb_iff, Forall_forall in *. eauto.
  - rewrite forallb_and, andb_true_iff in Ht. destruct Ht as [Hk Hv]. rewrite Hk in He. cbn [negb] in He.
    apply bind_Err in He as [He%all_ok_Err|(? & _ & ?)]; [|done].
    rewrite sort_members_map, map_map in He. apply list_elem_of_In, in_map_iff in He as (x & Hx & Hin%list_elem_of_In).
    rewrite (sort_members_perm l) in Hin. rewrite !forallb_iff, !Forall_forall in *.
    unfold member_text in Hx. cbn [fst snd] in Hx.
    apply bind_Err in Hx as [Hx|(? & _ & [Hx|(? & _ & ?)]%bind_Err)]; [| |done].
    + unfold writeJSONString in Hx. by rewrite (Hk _ Hin) in Hx.
    + eauto.
Qed.

(** when canonicalization fails.  A payload that is one JSON value fails
    only on a number outside the range of binary64; the refusal of strings that
    are not UTF-8 is never reached, as the decoder has replaced their bytes. *)
Theorem canonicalize_outcome p :
  match Canonicalize p with
  | Ok _ => ∃ v, json_decode p = Some v ∧ writable (decoded v) = true
  | Err DecodeError => json_decode p = None
  | Err MultipleValues => json_decode p = None ∧ ∃ v w rest rest',
      json_decode_first p = Some (v, rest) ∧ json_decode_first rest = Some (w, rest')
  | Err (InvalidNumber n) => is_Some (json_decode p) ∧ ParseFloat n = None
  | Err NotUTF8 => False
  end.
Proof.
  destruct (Canonicalize p) as [c|e] eqn:E.
  - apply Canonicalize_Ok in E as (v & Hv & [? _]%writeCanonical_ok). eauto.
  - unfold Canonicalize in E. unfold json_decode.
    destruct (json_decode_first p) as [[v rest]|] eqn:Ev; cbn [mbind option_bind]; [|by injection E as <-].
    pose proof (proj1 (parse_texts_valid _) _ _ _ _ Ev) as Hv%decoded_texts_valid.
    case_bool_decide.
    + apply writeCanonical_Err in E as (n & -> & Hn); [|done]. split; [by eexists|done].
    + destruct (json_decode_first rest) as [[w rest']|] eqn:Ew; injection E as <-; eauto 10.
Qed.

(** ** Excluded paths *)

Fixpoint at_path (q : list string) (v : json) : option json :=
  match q with
  | [] => Some v
  | k :: q' => match v with JObj l => w ← obj_get k l; at_path q' w | _ => None end
  end.

(** A leaf lies on the way from [n] along [q]. *)
Fixpoint excluded (n : excludeNode) (q : list string) : bool :=
  match q with
  | [] => false
  | k :: q' => match node_child k n with Some c => node_leaf c || excluded c q' | None => false end
  end.

Fixpoint subnode (n : excludeNode) (q : list string) : option excludeNode :=
  match q with
  | [] => Some n
  | k :: q' => match node_child k n with Some c => subnode c q' | None => None end
  end.

Lemma strip_leafless v b : stripPaths v (Node b []) = v.
Proof.
  destruct v as [| | | | |l]; try done. cbn [stripPaths]. f_equal.
  induction l as [|x l IH]; [done|]. cbn [flat_map]. by rewrite IH.
Qed.

Definition strip_member (n : excludeNode) (k : string) : option (json → json) :=
  match node_child k n with
  | Some c => if node_leaf c then None else Some (λ w, stripPaths w c)
  | None => Some id
  end.

Lemma obj_get_strip n k l :
  obj_get k (match stripPaths (JObj l) n with JObj l' => l' | _ => [] end) = (f ← strip_member n k; f <$> obj_get k l).
Proof.
  cbn [stripPaths]. induction l as [|[k' v] l IH]; cbn [flat_map obj_get fst snd]; [by destruct (strip_member n k)|].
  destruct (node_child k' n) as [c|] eqn:Ec.
  - destruct (node_leaf c) eqn:Ell.
    + cbn [app]. rewrite IH. unfold strip_member. destruct (decide (k' = k)) as [->|Hn].
      * by rewrite Ec, Ell.
      * rewrite (bool_decide_eq_false_2 (k' = k)) by done. by destruct (obj_get k l).
    + assert (∀ v', v' = stripPaths v c → obj_get k ([(k', v')] ++ flat_map (λ kv,
        match node_child kv.1 n with
        | Some n => if node_leaf n then [] else if bool_decide (node_children n = []) then [kv] else [(kv.1, stripPaths kv.2 n)]
        | None => [kv]
        end) l) = f ← strip_member n k;
          f <$> match obj_get k l with Some w => Some w | None => if bool_decide (k' = k) then Some v else None end) as Hv.
      { intros v' ->. cbn [app obj_get]. rewrite IH. unfold strip_member. destruct (decide (k' = k)) as [->|Hn].
        - rewrite Ec, Ell. cbn [mbind option_bind]. destruct (obj_get k l); [done|]. by rewrite !bool_decide_eq_true_2.
        - rewrite !(bool_decide_eq_false_2 (k' = k)) by done.
          destruct (node_child k n) as [c'|]; [destruct (node_leaf c')|]; cbn [mbind option_bind]; by destruct (obj_get k l). }
      destruct (decide (node_children c = [])) as [Hc|Hc];
        [rewrite (bool_decide_eq_true_2 _ Hc)|rewrite (bool_decide_eq_false_2 _ Hc)]; apply Hv; [|done].
      destruct c as [b cs]. cbn [node_children] in Hc. subst. by rewrite strip_leafless.
  - cbn [app obj_get]. rewrite IH. unfold strip_member. destruct (decide (k' = k)) as [->|Hn].
    + rewrite Ec. cbn [mbind option_bind]. destruct (obj_get k l); [done|]. by rewrite !bool_decide_eq_true_2.
    + rewrite !(bool_decide_eq_false_2 (k' = k)) by done.
      destruct (node_child k n) as [c'|]; [destruct (node_leaf c')|]; cbn [mbind option_bind]; by destruct (obj_get k l).
Qed.

Lemma strip_at q : ∀ n v,
  at_path q (stripPaths v n) =
    if excluded n q then None else (λ w, default w (stripPaths w <$> subnode n q)) <$> at_path q v.
Proof.
  induction q as [|k q IH]; intros n v; [done|].
  destruct v as [| | | | |l]; try by (cbn [at_path stripPaths]; destruct (excluded _ _)).
  change (at_path (k :: q) (stripPaths (JObj l) n)) with
    (w ← obj_get k (match stripPaths (JObj l) n with JObj l' => l' | _ => [] end); at_path q w).
  rewrite obj_get_strip. unfold strip_member. cbn [excluded subnode at_path].
  destruct (node_child k n) as [c|]; [destruct (node_leaf c)|]; cbn [mbind option_bind orb]; [done| |].
  - destruct (obj_get k l) as [w|]; cbn [mbind option_bind fmap option_fmap option_map]; [apply IH|by destruct (excluded c q)].
  - destruct (obj_get k l) as [w|]; cbn [mbind option_bind fmap option_fmap option_map id]; [|done]. by destruct (at_path q w).
Qed.

Lemma node_child_add p parts n k :
  node_child k (add_path (p :: parts) n) =
    if bool_decide (p = k) then Some (add_path parts (default (Node false []) (node_child p n))) else node_child k n.
Proof.
  cbn [add_path]. unfold node_child at 1. cbn [node_children List.find fst].
  case_bool_decide as Hp; [done|]. unfold node_child. f_equal.
  induction (node_children n) as [|x l IH]; [done|]. cbn [List.filter List.find].
  destruct (decide (x.1 = p)) as [->|Hx].
  - rewrite (bool_decide_eq_true_2 (p = p)), (bool_decide_eq_false_2 (p = k)) by done. exact IH.
  - rewrite (bool_decide_eq_false_2 (x.1 = p)) by done. cbn [negb List.find]. by rewrite IH.
Qed.

Lemma node_child_leaf k n : node_child k (Node true (node_children n)) = node_child k n.
Proof. done. Qed.

Lemma excluded_add parts : ∀ n q,
  parts ≠ [] → excluded (add_path parts n) q = excluded n q || bool_decide (parts `prefix_of` q).
Proof.
  induction parts as [|p parts IH]; intros n q Hp; [done|].
  destruct q as [|k q]; [cbn [excluded]; rewrite bool_decide_eq_false_2; [done|intros H; by apply prefix_nil_inv in H]|].
  cbn [excluded]. rewrite node_child_add.
  destruct (decide (p = k)) as [->|Hn].
  - rewrite (bool_decide_eq_true_2 (k = k)) by done.
    rewrite (bool_decide_ext (k :: parts `prefix_of` k :: q) (parts `prefix_of` q))
      by (split; [apply prefix_cons_inv_2|apply prefix_cons]).
    destruct parts as [|p' parts].
    + cbn [add_path node_leaf orb]. rewrite bool_decide_eq_true_2 by apply prefix_nil. by rewrite orb_true_r.
    + rewrite IH by done. destruct (node_child k n) as [c|]; cbn [default]; [by rewrite orb_assoc|].
      by destruct q.
  - rewrite (bool_decide_eq_false_2 (p = k)) by done.
    rewrite bool_decide_eq_false_2 by (intros H; apply Hn; by eapply prefix_cons_inv_1). by rewrite orb_false_r.
Qed.

Lemma subnode_add parts : ∀ n q,
  is_Some (subnode (add_path parts n) q) ↔ is_Some (subnode n q) ∨ q `prefix_of` parts.
Proof.
  induction parts as [|p parts IH]; intros n q.
  - destruct q as [|k q]; cbn [subnode add_path]; [split; eauto using prefix_nil|].
    rewrite node_child_leaf. split; [by left|]. intros [?|H]; [done|by apply prefix_nil_inv in H].
  - destruct q as [|k q]; cbn [subnode]; [split; eauto using prefix_nil|]. rewrite node_child_add.
    destruct (decide (p = k)) as [->|Hn].
    + rewrite (bool_decide_eq_true_2 (k = k)) by done. rewrite IH.
      assert (k :: q `prefix_of` k :: parts ↔ q `prefix_of` parts) as -> by (split; [apply prefix_cons_inv_2|apply prefix_cons]).
      destruct (node_child k n) as [c|]; cbn [default]; [done|]. destruct q as [|k' q]; cbn; [|done].
      split; [by right; apply prefix_nil|eauto].
    + rewrite (bool_decide_eq_false_2 (p = k)) by done. split; [by left|].
      intros [?|H]; [done|]. apply prefix_cons_inv_1 in H. congruence.
Qed.

(** A member path that some excluded path leads to or passes through. *)
Definition path_excluded (paths : list string) (q : list string) : Prop := ∃ p, p ∈ paths ∧ Split p "." `prefix_of` q.
Definition path_touched (paths : list string) (q : list string) : Prop := ∃ p, p ∈ paths ∧ q `prefix_of` Split p ".".

Lemma compile_excluded paths q : excluded (compileExcludePaths paths) q = true ↔ path_excluded paths q.
Proof.
  unfold compileExcludePaths, path_excluded.
  assert (∀ n, excluded (foldl (λ n p, add_path (Split p ".") n) n paths) q = true ↔
    excluded n q = true ∨ ∃ p, p ∈ paths ∧ Split p "." `prefix_of` q) as H.
  { induction paths as [|p paths IH]; intros n; cbn [foldl].
    - split; [by left|]. intros [?|(? & []%not_elem_of_nil & _)]; done.
    - rewrite IH, excluded_add by apply Split_nonempty. rewrite orb_true_iff, bool_decide_eq_true.
      setoid_rewrite elem_of_cons. naive_solver. }
  rewrite H. destruct q; cbn; naive_solver.
Qed.

Lemma compile_touched paths q :
  q ≠ [] → is_Some (subnode (compileExcludePaths paths) q) ↔ path_touched paths q.
Proof.
  intros Hq. unfold compileExcludePaths, path_touched.
  assert (∀ n, is_Some (subnode (foldl (λ n p, add_path (Split p ".") n) n paths) q) ↔
    is_Some (subnode n q) ∨ ∃ p, p ∈ paths ∧ q `prefix_of` Split p ".") as H.
  { induction paths as [|p paths IH]; intros n; cbn [foldl].
    - split; [by left|]. intros [?|(? & []%not_elem_of_nil & _)]; done.
    - rewrite IH, subnode_add. setoid_rewrite elem_of_cons. naive_solver. }
  rewrite H. destruct q; [done|]. cbn. split; [|by right]. intros [[? ?]|?]; done.
Qed.

(** exclusion removes exactly the excluded paths: below an excluded path
    nothing is left, every other member stays, and a value that no excluded
    path leads into is unchanged. *)
Theorem strip_exact paths v q :
  q ≠ [] →
  (path_excluded paths q → at_path q (stripPaths v (compileExcludePaths paths)) = None) ∧
  (¬ path_excluded paths q →
     (is_Some (at_path q (stripPaths v (compileExcludePaths paths))) ↔ is_Some (at_path q v)) ∧
     (¬ path_touched paths q → at_path q (stripPaths v (compileExcludePaths paths)) = at_path q v)).
Proof.
  intros Hq. rewrite strip_at, <- compile_excluded. split; [by intros ->|].
  intros ->%not_true_is_false. split; [by rewrite fmap_is_Some|].
  intros Ht. rewrite <- compile_touched in Ht by done.
  destruct (subnode _ q); [by destruct Ht; eauto|]. by destruct (at_path q v).
Qed.

Theorem strip_exact_witness :
  let v := JObj [("a", JObj [("b", JNum "1"); ("c", JNum "2")]); ("d", JNull)] in
  at_path ["a"; "b"] (stripPaths v (compileExcludePaths ["a.b"; "d"])) = None ∧
  at_path ["a"; "c"] (stripPaths v (compileExcludePaths ["a.b"; "d"])) = Some (JNum "2").
Proof.
  intros v. pose proof (strip_exact ["a.b"; "d"] v ["a"; "b"] ltac:(done)) as [Hb _].
  pose proof (strip_exact ["a.b"; "d"] v ["a"; "c"] ltac:(done)) as [_ Hc]. split.
  - apply Hb, compile_excluded. reflexivity.
  - destruct Hc as [_ Hc]; [rewrite <- compile_excluded; by vm_compute|].
    rewrite Hc; [reflexivity|]. rewrite <- compile_touched by done. vm_compute. by intros [? ?].
Defined.

(** ** The payload hash *)

(** What of a payload is hashed. *)
Definition hashed_value (excludePaths : list string) (p : string) : option json :=
  '(v, _) ← json_decode_first p; Some (stripPaths (decoded v) (compileExcludePaths excludePaths)).

Lemma strip_members_sub n l (P : string * json → Prop) :
  Forall (λ kv, P kv ∧ ∀ c, P (kv.1, stripPaths kv.2 c)) l →
  Forall P (match stripPaths (JObj l) n with JObj l' => l' | _ => [] end).
Proof.
  cbn [stripPaths]. induction 1 as [|[k v] l [Hx Hc] Hl IH]; [constructor|]. cbn [flat_map fst snd].
  destruct (node_child k n) as [c|]; [destruct (node_leaf c); [|case_bool_decide]|]; cbn [app]; try done;
    by constructor.
Qed.

Lemma strip_keys n l k :
  k ∈ (match stripPaths (JObj l) n with JObj l' => l' | _ => [] end).*1 → k ∈ l.*1.
Proof.
  cbn [stripPaths]. induction l as [|[k' v] l IH]; [done|]. cbn [flat_map fst snd]. rewrite fmap_app, fmap_cons.
  rewrite elem_of_app, elem_of_cons. intros [H|H]; [left|right; auto].
  destruct (node_child k' n) as [c|]; [destruct (node_leaf c); [|case_bool_decide]|]; cbn in H; set_solver.
Qed.

Lemma strip_NoDup n l : NoDup l.*1 → NoDup (match stripPaths (JObj l) n with JObj l' => l' | _ => [] end).*1.
Proof.
  induction l as [|[k v] l IH]; [done|]. rewrite fmap_cons, NoDup_cons. intros [Hk Hn].
  specialize (IH Hn). pose proof (strip_keys n l k) as Hsub. cbn [stripPaths flat_map fst snd] in *.
  destruct (node_child k n) as [c|]; [destruct (node_leaf c); [done|case_bool_decide]|];
    cbn [app]; rewrite fmap_cons; constructor; auto.
Qed.

Lemma strip_decodable v : ∀ n m,
  (distinct v = true → distinct (stripPaths v n) = true) ∧ ((height v ≤ m)%Z → (height (stripPaths v n) ≤ m)%Z).
Proof.
  induction v as [|b|x|t|l _|l IH] using json_ind'; intros n m; try done.
  assert (stripPaths (JObj l) n = JObj (match stripPaths (JObj l) n with JObj l' => l' | _ => [] end)) as -> by done.
  split.
  - cbn [distinct]. rewrite !andb_true_iff, !bool_decide_eq_true, !forallb_iff. intros [Hn Hd].
    split; [by apply strip_NoDup|].
    apply (strip_members_sub n l (λ kv, distinct kv.2 = true)). rewrite Forall_forall in *.
    intros kv Hin. split; [auto|]. intros c. by apply (IH kv Hin c 0%Z), Hd.
  - rewrite !height_obj. intros [Hm Hl]. split; [done|].
    apply (strip_members_sub n l (λ kv, (height kv.2 ≤ m - 1)%Z)). rewrite Forall_forall in *.
    intros kv Hin. split; [auto|]. intros c. by apply (IH kv Hin c), Hl.
Qed.

Lemma hashed_decodable ex p v : hashed_value ex p = Some v → decodable v.
Proof.
  unfold hashed_value. intros ([w rest] & Hw & [= <-])%bind_Some. apply decoded_decodable in Hw as [Hd Hh].
  split; [by apply (strip_decodable _ _ 0%Z)|by apply strip_decodable].
Qed.

Section Hash.
Context `{RT : Runtime}.

Lemma hash_spec ex p h :
  NewCanonicalJSONSHA256 ex p = Ok h ↔
  ∃ v c, hashed_value ex p = Some v ∧ writeCanonical v = Ok c ∧ h = hex_encode (map code (explode (Sha256 c))).
Proof.
  unfold NewCanonicalJSONSHA256, hashed_value. destruct (json_decode_first p) as [[v rest]|]; cbn [mbind option_bind].
  - rewrite bind_Ok. naive_solver.
  - naive_solver.
Qed.

Lemma hex_text_inj s t : hex_encode (map code (explode s)) = hex_encode (map code (explode t)) → s = t.
Proof.
  assert (∀ s, Forall is_byte (map code (explode s))) as Hb.
  { intros u. apply Forall_map, Forall_forall. intros c _. apply code_range. }
  intros H%hex_encode_inj; [|apply Hb..]. apply explode_inj. revert H. generalize (explode s), (explode t).
  induction l as [|c l IH]; intros [|d k]; try done. cbn [map]. intros [= H1%code_inj H2]. f_equal; auto.
Qed.

(** No two canonical texts of the two values have one digest. *)
Definition no_collision (v w : json) : Prop :=
  ∀ c d, writeCanonical v = Ok c → writeCanonical w = Ok d → Sha256 c = Sha256 d → c = d.

Lemma hash_same ex p p' h h' v v' :
  NewCanonicalJSONSHA256 ex p = Ok h → NewCanonicalJSONSHA256 ex p' = Ok h' →
  hashed_value ex p = Some v → hashed_value ex p' = Some v' → no_collision v v' →
  h = h' ↔ json_same v v'.
Proof.
  intros (w & c & Hw & Hc & ->)%hash_spec (w' & c' & Hw' & Hc' & ->)%hash_spec Hv Hv' Hn.
  rewrite Hw in Hv. rewrite Hw' in Hv'. injection Hv as ->. injection Hv' as ->.
  rewrite <- (canonical_same v v' c c'); eauto using hashed_decodable.
  split; [intros H%hex_text_inj; eauto|by intros ->].
Qed.

(** A payload hash is no marker. *)
Lemma hash_no_marker ex p h q :
  NewCanonicalJSONSHA256 ex p = Ok h → q = inFlightPrefix ∨ q = retryablePrefix → markerRequestHash h q = None.
Proof.
  intros (v & c & _ & _ & ->)%hash_spec Hq.
  destruct (markerRequestHash _ q) eqn:E; [|done]. apply markerRequestHash_Some, HasPrefix_true in E as [t E].
  assert (all_bytes hex_char (q +:+ t) = true) as Hh.
  { rewrite <- E. apply hex_encode_chars, Forall_map, Forall_forall. intros x _. apply code_range. }
  rewrite all_bytes_app in Hh. apply andb_true_iff in Hh as [Hh _]. destruct Hq; subst; by vm_compute in Hh.
Qed.

End Hash.

(** under the default hash a recorded response is replayed to exactly the
    payloads that mean what the recorded one meant outside the excluded paths,
    and a claim makes exactly those wait; every other payload conflicts.  This
    needs that SHA-256 does not collide on the two canonical texts. *)
Theorem retry_meaning `{RT : Runtime} s e key now p p' h h' v v' :
  CanonicalJSONSHA256 p = Ok h → CanonicalJSONSHA256 p' = Ok h' →
  hashed_value DefaultExcludePaths p = Some v → hashed_value DefaultExcludePaths p' = Some v' →
  no_collision v v' →
  (Hash e = h → expired s e now = false →
     (json_same v v' → evaluateExisting s e h' key now = Ok (MkResult (Response e) true key)) ∧
     (¬ json_same v v' → evaluateExisting s e h' key now = Err (ConflictError key))) ∧
  (∀ b, Forall is_byte b → Hash e = newClaimHash h b →
     (json_same v v' →
        evaluateExisting s e h' key now = Err (InFlightError key (inFlightRetryAfter (ExpiresAt e) now))) ∧
     (¬ json_same v v' → evaluateExisting s e h' key now = Err (ConflictError key))).
Proof.
  intros Hp Hp' Hv Hv' Hn. pose proof (hash_same _ _ _ _ _ _ _ Hp Hp' Hv Hv' Hn) as Hs.
  split.
  - intros He Hx. unfold evaluateExisting. rewrite He, Hx.
    rewrite !(hash_no_marker _ _ _ _ Hp) by auto. rewrite <- Hs.
    split; intros Hh; [by rewrite bool_decide_eq_true_2|by rewrite bool_decide_eq_false_2].
  - intros b Hb He. unfold evaluateExisting. rewrite He, claim_marker by done. rewrite <- Hs.
    split; intros Hh; [by rewrite bool_decide_eq_true_2|by rewrite bool_decide_eq_false_2].
Qed.

(** ** Concrete payloads *)

Definition spaced : string :=
  "{ " +:+ quoted "b" +:+ " : 10e-1, " +:+ quoted "a" +:+ " : [1E2, -0] , " +:+ quoted "b" +:+ ":1.0 }".
Definition compact : string := "{" +:+ quoted "a" +:+ ":[100,0]," +:+ quoted "b" +:+ ":1}".

Lemma canonical_meaning_witness :
  ∃ v v', json_decode spaced = Some v ∧ json_decode compact = Some v' ∧ json_same (decoded v) (decoded v').
Proof.
  destruct (json_decode spaced) as [v|] eqn:Ev; [|by vm_compute in Ev].
  destruct (json_decode compact) as [v'|] eqn:Ev'; [|by vm_compute in Ev'].
  exists v, v'. split; [done|]. split; [done|].
  apply (canonical_meaning spaced compact v v' compact compact Ev Ev'); [by vm_compute..|done].
Defined.

Lemma canonical_fixed_witness : Canonicalize compact = Ok compact.
Proof. apply (canonical_fixed spaced compact). by vm_compute. Defined.

Definition plain_runtime : Runtime :=
  {| SimpleFold := λ r, r; LowerRune := λ r, r; UpperRune := λ r, r; Sha256 := λ s, s |}.

Definition keyed (key payload : string) : string :=
  "{" +:+ quoted "idempotency_key" +:+ ":" +:+ quoted key +:+ "," +:+ quoted "budget" +:+ ":" +:+ payload +:+ "}".

Lemma retry_meaning_witness :
  let s := MkStore BackendClaim (2 * Hour)%Z DefaultClockSkew (λ _, Ok "") (λ _ _, Ok "") true in
  ∃ h h', CanonicalJSONSHA256 (RT := plain_runtime) (keyed "0123456789abcdef" "1e2") = Ok h ∧
    CanonicalJSONSHA256 (RT := plain_runtime) (keyed "0123456789abcdef" "1e3") = Ok h' ∧
    evaluateExisting s (MkEntry h "{}" 1%Z (100 * Hour)%Z) h "k" 5%Z = Ok (MkResult "{}" true "k") ∧
    evaluateExisting s (MkEntry h "{}" 1%Z (100 * Hour)%Z) h' "k" 5%Z = Err (ConflictError "k").
Proof.
  intros s.
  destruct (CanonicalJSONSHA256 (RT := plain_runtime) (keyed "0123456789abcdef" "1e2")) as [h|] eqn:Eh; [|by vm_compute in Eh].
  destruct (CanonicalJSONSHA256 (RT := plain_runtime) (keyed "0123456789abcdef" "1e3")) as [h'|] eqn:Eh'; [|by vm_compute in Eh'].
  destruct (hashed_value DefaultExcludePaths (keyed "0123456789abcdef" "1e2")) as [v|] eqn:Ev; [|by vm_compute in Ev].
  destruct (hashed_value DefaultExcludePaths (keyed "0123456789abcdef" "1e3")) as [v'|] eqn:Ev'; [|by vm_compute in Ev'].
  exists h, h'. split; [done|]. split; [done|].
  assert (∀ a b, no_collision (RT := plain_runtime) a b) as Hn by (intros a b c d _ _ E; exact E).
  pose proof (hash_same (RT := plain_runtime) _ _ _ _ _ _ _ Eh Eh Ev Ev (Hn _ _)) as Hsame.
  pose proof (hash_same (RT := plain_runtime) _ _ _ _ _ _ _ Eh Eh' Ev Ev' (Hn _ _)) as Hdiff.
  split.
  - apply (retry_meaning (RT := plain_runtime) s (MkEntry h "{}" 1%Z (100 * Hour)%Z) "k" 5%Z
      _ _ h h v v Eh Eh Ev Ev (Hn _ _)); [done|reflexivity|by apply Hsame].
  - apply (retry_meaning (RT := plain_runtime) s (MkEntry h "{}" 1%Z (100 * Hour)%Z) "k" 5%Z
      _ _ h h' v v' Eh Eh' Ev Ev' (Hn _ _)); [done|reflexivity|].
    rewrite <- Hdiff. intros ->. vm_compute in Eh, Eh'. congruence.
Defined.

(** Payloads of different bytes with one canonical form: the decoder replaces a
    byte that is not UTF-8. *)
Lemma replaced_bytes_collide :
  let p b := String quote (String (byte b) q1) in
  p 255%Z ≠ p 254%Z ∧ ∃ c, Canonicalize (p 255%Z) = Ok c ∧ Canonicalize (p 254%Z) = Ok c.
Proof. split; [by vm_compute|]. eexists. split; by vm_compute. Qed.

(** The hash does not read what follows the first value. *)
Lemma hash_ignores_trailing `{RT : Runtime} :
  Canonicalize "{} ]" = Err DecodeError ∧ CanonicalJSONSHA256 "{} ]" = CanonicalJSONSHA256 "{}".
Proof. by split; vm_compute. Qed.
