(* ===== verification/Signals.v ===== *)
(** * Signals: context-side signal targeting

    [src/targeting/signalstore/signalstore.go]: a package may demand that one
    of some signals holds for the request and that none of some others does.  A
    signal holds when the store lists its id under a key built from attributes
    of the request; the keys of all candidate packages are planned first and
    fetched in one call. *)
From S2P Require Import Prelude GoStrings.
From stdpp Require Import options.

(** ** Key types *)

Definition KeyType := string.
Definition KeyTypeURLHash : KeyType := "url_hash".
Definition KeyTypeCountry : KeyType := "country".
Definition KeyTypeRegion : KeyType := "region".
Definition KeyTypeMetro : KeyType := "metro".
Definition KeyTypeTopic : KeyType := "topic".
Definition KeyTypeEIDR : KeyType := "eidr".
Definition KeyTypeGracenote : KeyType := "gracenote".
Definition KeyTypeISRC : KeyType := "isrc".
Definition KeyTypeGTIN : KeyType := "gtin".
Definition KeyTypeRSSGUID : KeyType := "rss_guid".
Definition KeyTypeISBN : KeyType := "isbn".
Definition KeyTypeCustom : KeyType := "custom".

Definition allowedKeyTypes : list KeyType :=
  [KeyTypeURLHash; KeyTypeCountry; KeyTypeRegion; KeyTypeMetro; KeyTypeTopic; KeyTypeEIDR;
   KeyTypeGracenote; KeyTypeISRC; KeyTypeGTIN; KeyTypeRSSGUID; KeyTypeISBN; KeyTypeCustom].

Definition IsAllowed (kt : KeyType) : bool := bool_decide (kt ∈ allowedKeyTypes).

Definition keyPrefix : string := "signal:".

(** ** Configuration *)

Record Cfg := MkCfg { SignalOwnerID : string; KeyTypes : list KeyType; SignalID : string }.

Inductive signal_error :=
  | OwnerRequired | SignalRequired | KeyTypesEmpty | KeyTypeNotAllowed (kt : KeyType)
  | ProfileTooLarge | CfgUnsafe | Misaligned | StoreFailed.

Definition Validate_cfg (c : Cfg) : option signal_error :=
  if bool_decide (SignalOwnerID c = "") then Some OwnerRequired else
  if bool_decide (SignalID c = "") then Some SignalRequired else
  if bool_decide (KeyTypes c = []) then Some KeyTypesEmpty else
  KeyTypeNotAllowed <$> List.find (λ kt, negb (IsAllowed kt)) (KeyTypes c).

Record Profile := MkProfile { AnyOf : list Cfg; NoneOf : list Cfg }.

Definition maxCfgsPerProfile : nat := 256.

Fixpoint first_error (l : list Cfg) : option signal_error :=
  match l with
  | [] => None
  | c :: l' => match Validate_cfg c with Some e => Some e | None => first_error l' end
  end.

Definition Validate_profile (p : option Profile) : option signal_error :=
  match p with
  | None => None
  | Some p =>
      if (maxCfgsPerProfile <? length (AnyOf p) + length (NoneOf p))%nat then Some ProfileTooLarge else
      match first_error (AnyOf p) with Some e => Some e | None => first_error (NoneOf p) end
  end.

Definition IsEmpty (p : option Profile) : bool :=
  match p with None => true | Some p => bool_decide (AnyOf p = []) && bool_decide (NoneOf p = []) end.

(** The attributes of one request. *)
Abbreviation LookupData := (gmap KeyType (list string)).

Definition values (data : LookupData) (kt : KeyType) : list string := default [] (data !! kt).

(** ** Keys *)

Definition Key (ownerID : string) (keyTypes : list KeyType) (vals : list string) : string :=
  if bool_decide (ownerID = "") || bool_decide (keyTypes = []) || negb (length keyTypes =? length vals)%nat then "" else
  keyPrefix +:+ ownerID +:+ ":" +:+ Join keyTypes "," +:+ ":" +:+ Join vals ",".

Definition maxKeysPerCfg : Z := 4096%Z.

(** The value sets of the key types, while their product stays below the cap;
    [Ok None] when a key type has no value. *)
Fixpoint collect (data : LookupData) (kts : list KeyType) (total : Z) : result signal_error (option (list (list string))) :=
  match kts with
  | [] => Ok (Some [])
  | kt :: kts' =>
      let vals := values data kt in
      if bool_decide (vals = []) then Ok None else
      let total := (total * Z.of_nat (length vals))%Z in
      if (maxKeysPerCfg <? total)%Z then Err CfgUnsafe else
      rest ← collect data kts' total;
      Ok (match rest with Some r => Some (vals :: r) | None => None end)
  end.

(** The inner loop of [ExpandKeys], on sets and indices from the last position:
    the first index that can be raised is, those before it return to zero. *)
Fixpoint bump (sets : list (list string)) (indices : list nat) : option (list nat) :=
  match sets, indices with
  | s :: sets', i :: indices' =>
      if (S i <? length s)%nat then Some (S i :: indices') else cons 0%nat <$> bump sets' indices'
  | _, _ => None
  end.

Definition next (sets : list (list string)) (indices : list nat) : option (list nat) :=
  @rev nat <$> bump (rev sets) (rev indices).

Definition combo (sets : list (list string)) (indices : list nat) : list string :=
  zip_with (λ s i, nth i s "") sets indices.

(** The outer loop; [fuel] bounds the rounds. *)
Fixpoint odometer (fuel : nat) (sets : list (list string)) (indices : list nat) : option (list (list string)) :=
  match fuel with
  | 0 => None
  | S f =>
      match next sets indices with
      | Some indices' => cons (combo sets indices) <$> odometer f sets indices'
      | None => Some [combo sets indices]
      end
  end.

(** The sets multiply to at most [maxKeysPerCfg], which bounds the rounds. *)
Definition ExpandKeys (c : Cfg) (data : LookupData) : result signal_error (list string) :=
  match Validate_cfg c with
  | Some _ => Err CfgUnsafe
  | None =>
      sets ← collect data (KeyTypes c) 1;
      match sets with
      | None => Ok []
      | Some sets =>
          combos ← opt_err CfgUnsafe (odometer (Z.to_nat maxKeysPerCfg) sets (map (λ _, 0%nat) sets));
          Ok (map (Key (SignalOwnerID c) (KeyTypes c)) combos)
      end
  end.

(** ** Matching *)

(** What a request fetched: the signal ids listed under each key. *)
Abbreviation Fetched := (gmap string (list string)).

Definition Matches (c : Cfg) (data : LookupData) (fetched : Fetched) : result signal_error bool :=
  keys ← ExpandKeys c data;
  Ok (existsb (λ k, match fetched !! k with Some ids => bool_decide (SignalID c ∈ ids) | None => false end) keys).

(** Whether some configuration of the list matches; the loop ends at the first
    match or error. *)
Fixpoint match_any (l : list Cfg) (data : LookupData) (fetched : Fetched) : result signal_error bool :=
  match l with
  | [] => Ok false
  | c :: l' => matched ← Matches c data fetched; if matched : bool then Ok true else match_any l' data fetched
  end.

Definition MatchProfile (p : option Profile) (data : LookupData) (fetched : Fetched) : result signal_error bool :=
  if IsEmpty p then Ok true else
  match p with
  | None => Ok true
  | Some p =>
      blocked ← match_any (NoneOf p) data fetched;
      if blocked : bool then Ok false else
      if bool_decide (AnyOf p = []) then Ok true else match_any (AnyOf p) data fetched
  end.

(** ** The plan of a request *)

Definition maxKeysPerPlan : Z := 65536%Z.

(** The keys of one configuration appended to the plan [out], which is also the
    set of those seen. *)
Fixpoint plan_keys (keys : list string) (out : list string) : result signal_error (list string) :=
  match keys with
  | [] => Ok out
  | k :: keys' =>
      if bool_decide (k ∈ out) then plan_keys keys' out else
      let out := out ++ [k] in
      if (maxKeysPerPlan <? Z.of_nat (length out))%Z then Err CfgUnsafe else plan_keys keys' out
  end.

Fixpoint plan_cfgs (cfgs : list Cfg) (data : LookupData) (out : list string) : result signal_error (list string) :=
  match cfgs with
  | [] => Ok out
  | c :: cfgs' =>
      match ExpandKeys c data with
      | Err _ => plan_cfgs cfgs' data out
      | Ok keys => out ← plan_keys keys out; plan_cfgs cfgs' data out
      end
  end.

Fixpoint plan_profiles (profiles : list Profile) (data : LookupData) (out : list string) : result signal_error (list string) :=
  match profiles with
  | [] => Ok out
  | p :: profiles' =>
      if IsEmpty (Some p) then plan_profiles profiles' data out else
      out ← plan_cfgs (AnyOf p) data out;
      out ← plan_cfgs (NoneOf p) data out;
      plan_profiles profiles' data out
  end.

Definition PlanLookup (profiles : list Profile) (data : LookupData) : result signal_error (list string) :=
  if bool_decide (profiles = []) || bool_decide (data = ∅) then Ok [] else plan_profiles profiles data [].

(** The scan of [splitCSV]: [cur] holds the bytes since the last comma. *)
Fixpoint split_csv (cur : string) (s : string) : list string :=
  match s with
  | "" => if bool_decide (cur = "") then [] else [cur]
  | String c s' =>
      if beq c "," then (if bool_decide (cur = "") then [] else [cur]) ++ split_csv "" s'
      else split_csv (cur +:+ String c "") s'
  end.
Definition splitCSV (s : string) : list string := split_csv "" s.

Definition DecodeValues (keys vals : list string) : option Fetched :=
  if negb (length keys =? length vals)%nat then None else
  Some (foldl (λ (out : Fetched) (kv : string * string),
    let decoded := splitCSV kv.2 in
    if bool_decide (kv.2 = "") || bool_decide (decoded = []) then out else <[kv.1 := decoded]> out) ∅ (zip keys vals)).

(** ** The odometer enumerates the cartesian product *)

Fixpoint cartesian (sets : list (list string)) : list (list string) :=
  match sets with
  | [] => [[]]
  | s :: sets' => flat_map (λ v, map (cons v) (cartesian sets')) s
  end.

Lemma bump_snoc sets s : ∀ indices i,
  length sets = length indices →
  bump (sets ++ [s]) (indices ++ [i]) =
    match bump sets indices with
    | Some indices' => Some (indices' ++ [i])
    | None => if (S i <? length s)%nat then Some (map (λ _, 0%nat) indices ++ [S i]) else None
    end.
Proof.
  induction sets as [|s' sets IH]; intros [|j indices] i Hl; try done; cbn [bump app map].
  destruct (S j <? length s')%nat; [done|]. injection Hl as Hl. rewrite IH by done.
  destruct (bump sets indices); [done|]. by destruct (S i <? length s)%nat.
Qed.

Lemma next_cons s sets i indices :
  length sets = length indices →
  next (s :: sets) (i :: indices) =
    match next sets indices with
    | Some indices' => Some (i :: indices')
    | None => if (S i <? length s)%nat then Some (S i :: map (λ _, 0%nat) indices) else None
    end.
Proof.
  intros Hl. unfold next. cbn [rev]. rewrite bump_snoc by (by rewrite !length_rev).
  destruct (bump (rev sets) (rev indices)) as [r|]; cbn [fmap option_fmap option_map]; [by rewrite rev_app_distr|].
  destruct (S i <? length s)%nat; [|done]. cbn [fmap option_fmap option_map]. f_equal.
  by rewrite rev_app_distr, <- map_rev, rev_involutive.
Qed.

(** The combinations from the given indices on. *)
Fixpoint remaining (sets : list (list string)) (indices : list nat) : list (list string) :=
  match sets, indices with
  | s :: sets', i :: indices' =>
      map (cons (nth i s "")) (remaining sets' indices') ++
      flat_map (λ v, map (cons v) (cartesian sets')) (drop (S i) s)
  | _, _ => [[]]
  end.

Definition nonempty_sets (sets : list (list string)) : Prop := Forall (λ s : list string, s ≠ []) sets.

Lemma remaining_zeros sets : nonempty_sets sets → remaining sets (map (λ _, 0%nat) sets) = cartesian sets.
Proof.
  induction 1 as [|s sets Hs Hn IH]; [done|]. destruct s as [|v s]; [done|]. cbn [map remaining cartesian nth flat_map drop].
  by rewrite IH.
Qed.

Definition in_range (sets : list (list string)) (indices : list nat) : Prop :=
  Forall2 (λ (s : list string) i, (i < length s)%nat) sets indices.

Lemma zeros_in_range sets : nonempty_sets sets → in_range sets (map (λ _, 0%nat) sets).
Proof. induction 1 as [|s sets Hs Hn IH]; constructor; [|done]. destruct s; [done|cbn; lia]. Qed.

(** A round takes the first of them and leaves the others. *)
Lemma remaining_step sets : ∀ indices,
  in_range sets indices → nonempty_sets sets →
  remaining sets indices =
    combo sets indices :: match next sets indices with Some indices' => remaining sets indices' | None => [] end ∧
  match next sets indices with Some indices' => in_range sets indices' | None => True end.
Proof.
  induction sets as [|s sets IH]; intros indices Hr Hn; inversion Hr as [|? i ? js Hi Hr']; subst; [done|].
  apply Forall_cons in Hn as [Hs Hn]. destruct (IH js Hr' Hn) as [He Hv].
  rewrite next_cons by (by eapply Forall2_length). unfold combo. cbn [remaining zip_with]. fold (combo sets js).
  rewrite He. destruct (next sets js) as [is'|]; cbn [map app].
  - split; [done|by constructor].
  - destruct (Nat.ltb_spec (S i) (length s)) as [Hlt|Hge].
    + split; [|constructor; [done|]].
      * f_equal. cbn [remaining]. destruct (lookup_lt_is_Some_2 s (S i) Hlt) as [v Hvi].
        rewrite (drop_S s v (S i)) by done. cbn [flat_map]. f_equal.
        rewrite (nth_lookup_Some _ _ _ v) by done.
        assert (length sets = length js) as Hl by (by eapply Forall2_length).
        rewrite <- (remaining_zeros sets Hn). do 2 f_equal.
        clear -Hl. revert js Hl. induction sets as [|s sets IH]; intros [|j js] Hl; try done. cbn. f_equal. auto.
      * clear -Hr' Hn. induction Hr'; constructor; [lia|]. apply IHHr'. by apply Forall_cons in Hn as [_ Hn].
    + split; [|done]. by rewrite drop_ge by lia.
Qed.

Lemma odometer_remaining fuel : ∀ sets indices,
  in_range sets indices → nonempty_sets sets → length (remaining sets indices) ≤ fuel →
  odometer fuel sets indices = Some (remaining sets indices).
Proof.
  induction fuel as [|fuel IH]; intros sets indices Hr Hn Hl;
    destruct (remaining_step sets indices Hr Hn) as [He Hv]; rewrite He in Hl |- *; [cbn in Hl; lia|].
  cbn [odometer length] in *. destruct (next sets indices) as [indices'|]; [|done]. by rewrite IH by (done || lia).
Qed.

Definition product (sets : list (list string)) : Z := foldr (λ s n, (Z.of_nat (length s) * n)%Z) 1%Z sets.

Lemma cartesian_length sets : Z.of_nat (length (cartesian sets)) = product sets.
Proof.
  induction sets as [|s sets IH]; [done|]. cbn [cartesian product foldr]. fold (product sets). rewrite <- IH.
  induction s as [|v s IHs]; [done|]. cbn [flat_map length]. rewrite length_app, length_map. lia.
Qed.

Lemma cartesian_empty sets : [] ∈ sets → cartesian sets = [].
Proof.
  induction sets as [|s sets IH]; [by intros ?%elem_of_nil|]. intros [<-|H]%elem_of_cons; [done|].
  cbn [cartesian]. rewrite IH by done. by induction s.
Qed.

(** Each value set and the product so far stays within the cap. *)
Fixpoint within (data : LookupData) (kts : list KeyType) (total : Z) : bool :=
  match kts with
  | [] => true
  | kt :: kts' =>
      let n := (total * Z.of_nat (length (values data kt)))%Z in
      bool_decide (values data kt = []) || ((n <=? maxKeysPerCfg)%Z && within data kts' n)
  end.

Lemma collect_spec data kts : ∀ total,
  (1 ≤ total ≤ maxKeysPerCfg)%Z →
  match collect data kts total with
  | Ok (Some sets) => within data kts total = true ∧ sets = map (values data) kts ∧ nonempty_sets sets ∧
      (total * product sets ≤ maxKeysPerCfg)%Z
  | Ok None => within data kts total = true ∧ [] ∈ map (values data) kts
  | Err e => within data kts total = false ∧ e = CfgUnsafe
  end.
Proof.
  induction kts as [|kt kts IH]; intros total Ht; cbn [collect within map].
  - split; [done|]. split; [done|]. split; [constructor|]. cbn. lia.
  - case_bool_decide as He; cbn [orb]; [split; [done|]; apply elem_of_cons; by left|].
    assert (1 ≤ Z.of_nat (length (values data kt)))%Z by (destruct (values data kt); [done|cbn; lia]).
    destruct (Z.ltb_spec maxKeysPerCfg (total * Z.of_nat (length (values data kt)))) as [Hc|Hc].
    { split; [|done]. by rewrite (proj2 (Z.leb_gt _ _)) by lia. }
    rewrite (proj2 (Z.leb_le _ _)) by lia. cbn [andb]. specialize (IH (total * Z.of_nat (length (values data kt)))%Z ltac:(nia)).
    destruct (collect data kts _) as [[sets|]|e]; cbn [mbind result_bind]; [| |done].
    + destruct IH as (Hw & -> & Hn & Hp). split; [done|]. split; [done|]. split; [by constructor|].
      cbn [product foldr]. fold (product (map (values data) kts)). lia.
    + destruct IH as [Hw Hin]. split; [done|]. by right.
Qed.

(** The value tuples a configuration asks about. *)
Definition tuples (c : Cfg) (data : LookupData) : list (list string) := cartesian (map (values data) (KeyTypes c)).

Definition evaluable (c : Cfg) (data : LookupData) : bool :=
  bool_decide (Validate_cfg c = None) && within data (KeyTypes c) 1.

Lemma ExpandKeys_spec c data :
  ExpandKeys c data =
    if evaluable c data then Ok (map (Key (SignalOwnerID c) (KeyTypes c)) (tuples c data)) else Err CfgUnsafe.
Proof.
  unfold ExpandKeys, evaluable, tuples. destruct (Validate_cfg c); [by rewrite bool_decide_eq_false_2|].
  rewrite bool_decide_eq_true_2 by done. cbn [andb].
  pose proof (collect_spec data (KeyTypes c) 1 ltac:(done)) as Hc.
  destruct (collect data (KeyTypes c) 1) as [[sets|]|e]; cbn [mbind result_bind].
  - destruct Hc as (-> & -> & Hn & Hp). set (sets := map (values data) (KeyTypes c)) in *.
    rewrite odometer_remaining; rewrite ?remaining_zeros by done; [done|by apply zeros_in_range|done|].
    pose proof (cartesian_length sets). unfold maxKeysPerCfg in *. lia.
  - destruct Hc as (-> & Hin). by rewrite cartesian_empty.
  - by destruct Hc as [-> ->].
Qed.

(** ** Plan and decoding *)

Lemma plan_keys_spec keys : ∀ out out',
  NoDup out → plan_keys keys out = Ok out' →
  NoDup out' ∧ (∀ k, k ∈ out' ↔ k ∈ out ∨ k ∈ keys) ∧
  ((Z.of_nat (length out) ≤ maxKeysPerPlan)%Z → (Z.of_nat (length out') ≤ maxKeysPerPlan)%Z).
Proof.
  induction keys as [|k keys IH]; intros out out' Hn; cbn [plan_keys].
  - intros [= <-]. split; [done|]. split; [|done]. intros k. by rewrite elem_of_nil; tauto.
  - case_bool_decide as Hk.
    + intros H. destruct (IH _ _ Hn H) as (H1 & H2 & H3). split; [done|]. split; [|done].
      intros k'. rewrite H2, elem_of_cons. naive_solver.
    + destruct (Z.ltb_spec maxKeysPerPlan (Z.of_nat (length (out ++ [k])))); [done|]. intros H'.
      destruct (IH (out ++ [k]) out') as (H1 & H2 & H3); [by apply NoDup_snoc|done|]. split; [done|]. split.
      * intros k'. rewrite H2, elem_of_app, !elem_of_cons, elem_of_nil. tauto.
      * intros _. by apply H3.
Qed.

(** What a plan [out'] made from [out] contributes for one configuration. *)
Definition planned (data : LookupData) (out : list string) (c : Cfg) : Prop :=
  ∀ keys, ExpandKeys c data = Ok keys → ∀ k, k ∈ keys → k ∈ out.

Definition extends (data : LookupData) (cfgs : list Cfg) (out out' : list string) : Prop :=
  NoDup out' ∧ (∀ k, k ∈ out → k ∈ out') ∧ (∀ c, c ∈ cfgs → planned data out' c) ∧
  ((Z.of_nat (length out) ≤ maxKeysPerPlan)%Z → (Z.of_nat (length out') ≤ maxKeysPerPlan)%Z).

Lemma extends_trans data cfgs cfgs' out out' out'' :
  extends data cfgs out out' → extends data cfgs' out' out'' → extends data (cfgs ++ cfgs') out out''.
Proof.
  intros (Hn & Hs & Hc & Hb) (Hn' & Hs' & Hc' & Hb'). split; [done|]. split; [auto|]. split; [|auto].
  intros c [H|H]%elem_of_app; [|auto]. intros keys Hk k Hin. apply Hs'. by eapply Hc.
Qed.

Lemma plan_cfgs_extends cfgs data : ∀ out out',
  NoDup out → plan_cfgs cfgs data out = Ok out' → extends data cfgs out out'.
Proof.
  induction cfgs as [|c cfgs IH]; intros out out' Hn; cbn [plan_cfgs].
  - intros [= <-]. repeat split; try done. by intros c ?%elem_of_nil.
  - destruct (ExpandKeys c data) as [keys|e] eqn:Ec.
    + intros (o & Ho & H)%bind_Ok. destruct (plan_keys_spec _ _ _ Hn Ho) as (Hn' & Hk & Hb).
      apply (extends_trans data [c] cfgs out o out'); [|by apply IH].
      split; [done|]. split; [intros k; rewrite Hk; by left|]. split; [|done].
      intros c' ->%list_elem_of_singleton keys' Ek k Hin. rewrite Ec in Ek. injection Ek as ->. apply Hk. by right.
    + intros H. apply (extends_trans data [c] cfgs out out out'); [|by apply IH].
      split; [done|]. split; [done|]. split; [|done]. intros c' ->%list_elem_of_singleton keys' Ek. congruence.
Qed.

Lemma plan_profiles_extends profiles data : ∀ out out',
  NoDup out → plan_profiles profiles data out = Ok out' →
  extends data (flat_map (λ p, AnyOf p ++ NoneOf p) profiles) out out'.
Proof.
  induction profiles as [|p profiles IH]; intros out out' Hn; cbn [plan_profiles flat_map].
  - intros [= <-]. repeat split; try done. by intros c ?%elem_of_nil.
  - destruct (IsEmpty (Some p)) eqn:Ee.
    + intros H. cbn [IsEmpty] in Ee. apply andb_true_iff in Ee as [Ea%bool_decide_eq_true En%bool_decide_eq_true].
      rewrite Ea, En. by apply IH.
    + intros (o & Ho & (o' & Ho' & H)%bind_Ok)%bind_Ok.
      apply plan_cfgs_extends in Ho; [|done]. apply plan_cfgs_extends in Ho'; [|apply Ho].
      apply IH in H; [|apply Ho']. eapply extends_trans; [by eapply extends_trans|done].
Qed.

(** The plan has every key the profiles ask about, once, within its cap. *)
Lemma PlanLookup_spec profiles data out :
  PlanLookup profiles data = Ok out →
  NoDup out ∧ (Z.of_nat (length out) ≤ maxKeysPerPlan)%Z ∧
  ∀ p c, p ∈ profiles → c ∈ AnyOf p ++ NoneOf p → planned data out c.
Proof.
  unfold PlanLookup. case_bool_decide as Hp; cbn [orb].
  { intros [= <-]. split; [constructor|]. split; [done|]. subst. by intros p c ?%elem_of_nil. }
  case_bool_decide as Hd.
  { intros [= <-]. split; [constructor|]. split; [done|]. subst. intros p c _ _ keys Hk k Hin.
    rewrite ExpandKeys_spec in Hk. destruct (evaluable c ∅) eqn:He; [|done]. injection Hk as <-.
    unfold evaluable in He. apply andb_true_iff in He as [Hv%bool_decide_eq_true _].
    unfold Validate_cfg in Hv. unfold tuples in Hin. destruct (KeyTypes c) as [|kt kts]; [by repeat case_bool_decide|].
    rewrite cartesian_empty in Hin by (cbn [map]; left). by apply elem_of_nil in Hin. }
  intros (Hn & _ & Hc & Hb)%plan_profiles_extends; [|constructor]. split; [done|]. split; [apply Hb; done|].
  intros p c Hp' Hc'. apply Hc. apply list_elem_of_In, in_flat_map. exists p. rewrite <- !list_elem_of_In. done.
Qed.

(** The ids a store lists under a key. *)
Definition listed (store : string → string) (k : string) : list string := splitCSV (store k).

Lemma DecodeValues_lookup keys (store : string → string) :
  ∃ m, DecodeValues keys (map store keys) = Some m ∧
    ∀ k, k ∈ keys → default [] (m !! k) = listed store k.
Proof.
  unfold DecodeValues. rewrite length_map, Nat.eqb_refl. cbn [negb]. eexists. split; [done|].
  assert (∀ (m0 : Fetched), (∀ k, default [] (m0 !! k) = [] ∨ default [] (m0 !! k) = listed store k) →
    let m := foldl (λ (out : Fetched) (kv : string * string),
      let decoded := splitCSV kv.2 in
      if bool_decide (kv.2 = "") || bool_decide (decoded = []) then out else <[kv.1 := decoded]> out) m0 (zip keys (map store keys)) in
    ∀ k, (default [] (m !! k) = [] ∨ default [] (m !! k) = listed store k) ∧
      (k ∈ keys ∨ default [] (m0 !! k) = listed store k → default [] (m !! k) = listed store k)) as Hfold.
  { induction keys as [|x keys IH]; intros m0 Hm0; cbn [map zip zip_with foldl].
    - intros k. split; [apply Hm0|]. by intros [?%elem_of_nil|?].
    - cbn [fst snd]. set (m1 := if bool_decide (store x = "") || bool_decide (splitCSV (store x) = []) then m0
        else <[x := splitCSV (store x)]> m0).
      assert (∀ k, (k = x → default [] (m1 !! k) = listed store k) ∧
        (k ≠ x → m1 !! k = m0 !! k) ∧ (default [] (m1 !! k) = [] ∨ default [] (m1 !! k) = listed store k)) as Hm1.
      { intros k. unfold m1. destruct (decide (k = x)) as [->|Hk].
        - destruct (bool_decide (store x = "") || bool_decide (splitCSV (store x) = [])) eqn:Eb.
          + assert (listed store x = []) as El.
            { unfold listed. apply orb_true_iff in Eb as [Hs%bool_decide_eq_true|Hs%bool_decide_eq_true]; [by rewrite Hs|done]. }
            rewrite El in *. destruct (Hm0 x) as [H|H]; rewrite H, ?El; by split_and!; auto.
          + rewrite lookup_insert_eq. cbn. by split_and!; auto.
        - split; [done|]. split; [|]; (case_match; [|rewrite lookup_insert_ne by done]); auto. }
      specialize (IH m1 (λ k, proj2 (proj2 (Hm1 k)))). intros k. destruct (IH k) as [IH1 IH2]. split; [done|].
      intros Hk. apply IH2. destruct (Hm1 k) as (Hx & Hne & _). destruct (decide (k = x)) as [->|Hkx]; [by right; apply Hx|].
      rewrite Hne by done. destruct Hk as [[?|?]%elem_of_cons|?]; [done|by left|by right]. }
  intros k Hk. apply (Hfold ∅); [|by left]. intros k'. left. by rewrite lookup_empty.
Qed.

(** ** Matching against the store itself *)

(** A configuration holds for a request: some tuple of its values maps to its
    signal. *)
Definition holds (store : string → string) (data : LookupData) (c : Cfg) : Prop :=
  ∃ vals, vals ∈ tuples c data ∧ SignalID c ∈ listed store (Key (SignalOwnerID c) (KeyTypes c) vals).

#[export] Instance holds_dec store data c : Decision (holds store data c).
Proof.
  refine (cast_if (decide (Exists (λ vals, SignalID c ∈ listed store (Key (SignalOwnerID c) (KeyTypes c) vals)) (tuples c data))));
    unfold holds; rewrite <- Exists_exists; done.
Defined.

Definition fetched_from (store : string → string) (data : LookupData) (m : Fetched) (c : Cfg) : Prop :=
  ∀ keys, ExpandKeys c data = Ok keys → ∀ k, k ∈ keys → default [] (m !! k) = listed store k.

Lemma Matches_holds store data m c :
  fetched_from store data m c →
  Matches c data m = if evaluable c data then Ok (bool_decide (holds store data c)) else Err CfgUnsafe.
Proof.
  unfold fetched_from, Matches. rewrite ExpandKeys_spec. destruct (evaluable c data); [|done]. intros Hf.
  specialize (Hf _ eq_refl). cbn [mbind result_bind]. f_equal. apply eq_iff_eq_true.
  rewrite existsb_exists, bool_decide_eq_true. unfold holds.
  assert (∀ k, k ∈ map (Key (SignalOwnerID c) (KeyTypes c)) (tuples c data) →
    (match m !! k with Some ids => bool_decide (SignalID c ∈ ids) | None => false end = true ↔ SignalID c ∈ listed store k)) as Hk.
  { intros k Hin. rewrite <- (Hf k Hin). destruct (m !! k); cbn; [by rewrite bool_decide_eq_true|].
    split; [done|]. by intros ?%elem_of_nil. }
  split.
  - intros (k & Hin%list_elem_of_In & Hm). apply Hk in Hm; [|done].
    apply list_elem_of_In, in_map_iff in Hin as (vals & <- & Hv%list_elem_of_In). by exists vals.
  - intros (vals & Hv & Hs). exists (Key (SignalOwnerID c) (KeyTypes c) vals).
    assert (Key (SignalOwnerID c) (KeyTypes c) vals ∈ map (Key (SignalOwnerID c) (KeyTypes c)) (tuples c data)) as Hin.
    { apply list_elem_of_In, in_map, list_elem_of_In. done. }
    split; [by apply list_elem_of_In|]. by apply Hk.
Qed.

Lemma match_any_holds store data m l :
  (∀ c, c ∈ l → fetched_from store data m c) →
  (match_any l data m = Ok true ↔
     ∃ l1 c l2, l = l1 ++ c :: l2 ∧ Forall (λ c, evaluable c data = true) (l1 ++ [c]) ∧ holds store data c) ∧
  (match_any l data m = Ok false ↔ Forall (λ c, evaluable c data = true ∧ ¬ holds store data c) l).
Proof.
  induction l as [|c l IH]; intros Hf; cbn [match_any].
  - split; [split; [done|]|by split]. intros ([|] & ? & ? & ? & _); done.
  - rewrite (Matches_holds store data m c) by (apply Hf; left). destruct (IH (λ c' Hc', Hf c' (list_elem_of_further _ _ _ Hc'))) as [IH1 IH2].
    rewrite Forall_cons. destruct (evaluable c data) eqn:Ee; cbn [mbind result_bind].
    + case_bool_decide as Hh.
      * split; [split; [|done]|split; [done|naive_solver]]. intros _. exists [], c, l. split; [done|]. split; [by constructor|done].
      * rewrite IH1, IH2. split; [|naive_solver]. split.
        -- intros (l1 & c' & l2 & -> & Hl & Hc). exists (c :: l1), c', l2. split; [done|]. split; [by constructor|done].
        -- intros ([|c1 l1] & c' & l2 & [= <- ->] & Hl & Hc); [done|]. apply Forall_cons in Hl as [_ Hl]. eauto 10.
    + split; (split; [done|]); [|naive_solver]. intros ([|c1 l1] & c' & l2 & [= <- ->] & Hl & Hc);
        apply Forall_cons in Hl as [Hl _]; congruence.
Qed.

(** What a profile demands, looked up in the store itself: no configuration of
    the blocklist is unevaluable or holds, and if there is an allowlist one of
    it holds, those before it being evaluable. *)
Definition profile_allows (store : string → string) (data : LookupData) (p : option Profile) : Prop :=
  match p with
  | None => True
  | Some p =>
      Forall (λ c, evaluable c data = true ∧ ¬ holds store data c) (NoneOf p) ∧
      (AnyOf p = [] ∨ ∃ l1 c l2, AnyOf p = l1 ++ c :: l2 ∧ Forall (λ c, evaluable c data = true) (l1 ++ [c]) ∧ holds store data c)
  end.

Lemma MatchProfile_allows store data m p :
  (∀ c, c ∈ AnyOf p ++ NoneOf p → fetched_from store data m c) →
  MatchProfile (Some p) data m = Ok true ↔ profile_allows store data (Some p).
Proof.
  intros Hf. unfold MatchProfile, profile_allows.
  destruct (IsEmpty (Some p)) eqn:Ee.
  { cbn [IsEmpty] in Ee. apply andb_true_iff in Ee as [Ea%bool_decide_eq_true En%bool_decide_eq_true].
    rewrite Ea, En. split; [|done]. intros _. split; [constructor|by left]. }
  destruct (match_any_holds store data m (NoneOf p)) as [Hn1 Hn2]; [intros c Hc; apply Hf, elem_of_app; by right|].
  destruct (match_any_holds store data m (AnyOf p)) as [Ha1 Ha2]; [intros c Hc; apply Hf, elem_of_app; by left|].
  rewrite <- Hn2, <- Ha1. destruct (match_any (NoneOf p) data m) as [[|]|e]; cbn [mbind result_bind]; [naive_solver| |naive_solver].
  case_bool_decide as Hany; [rewrite Hany; naive_solver|]. split; [intros H; split; [done|by right]|naive_solver].
Qed.

(** ** The shape of keys *)

Lemma allowed_no_delimiter kt : IsAllowed kt = true → contains_byte kt ":" = false ∧ contains_byte kt "," = false ∧ kt ≠ "".
Proof.
  unfold IsAllowed. rewrite bool_decide_eq_true. unfold allowedKeyTypes.
  repeat (intros [->|H]%elem_of_cons; [by vm_compute|revert H]). by intros ?%elem_of_nil.
Qed.

(** with an owner that holds no colon and values that hold no comma, a key
    determines owner, key types and values, so what one configuration reads was
    written for exactly that tuple.  (An owner that is a URL breaks this:
    [Key_ambiguous].) *)
Theorem Key_injective o kts vals o' kts' vals' :
  contains_byte o ":" = false → contains_byte o' ":" = false →
  o ≠ "" → o' ≠ "" → kts ≠ [] → kts' ≠ [] → length kts = length vals → length kts' = length vals' →
  Forall (λ kt, IsAllowed kt = true) kts → Forall (λ kt, IsAllowed kt = true) kts' →
  Forall (λ v, contains_byte v "," = false) vals → Forall (λ v, contains_byte v "," = false) vals' →
  Key o kts vals = Key o' kts' vals' → o = o' ∧ kts = kts' ∧ vals = vals'.
Proof.
  intros Ho Ho' Hne Hne' Hk Hk' Hl Hl' Hkt Hkt' Hv Hv' E. unfold Key in E.
  rewrite (bool_decide_eq_false_2 (o = "")), (bool_decide_eq_false_2 (o' = "")) in E by done.
  rewrite (bool_decide_eq_false_2 (kts = [])), (bool_decide_eq_false_2 (kts' = [])) in E by done.
  rewrite Hl, Hl', !Nat.eqb_refl in E. cbn [orb negb] in E. apply sapp_inj_l in E.
  assert (∀ l, Forall (λ kt, IsAllowed kt = true) l → Forall (λ s, contains_byte s ":" = false) l ∧ Forall (λ s, contains_byte s "," = false) l) as Hd.
  { intros l Hall. split; (eapply Forall_impl; [exact Hall|]); intros kt Hkt0; by apply allowed_no_delimiter. }
  destruct (Hd kts Hkt) as [Hc Hm], (Hd kts' Hkt') as [Hc' Hm'].
  assert (∀ a b, Cut (a +:+ ":" +:+ b) ":" = (a, b, true) ∨ contains_byte a ":" = true) as Hcut.
  { intros a b. destruct (contains_byte a ":") eqn:Ea; [by right|left]. by apply Cut_app. }
  pose proof (f_equal (λ s, Cut s ":") E) as E1. cbv beta in E1.
  destruct (Hcut o (Join kts "," +:+ ":" +:+ Join vals ",")) as [Hx|?]; [|congruence].
  destruct (Hcut o' (Join kts' "," +:+ ":" +:+ Join vals' ",")) as [Hy|?]; [|congruence].
  rewrite Hx, Hy in E1. injection E1 as -> E1.
  pose proof (f_equal (λ s, Cut s ":") E1) as E2. cbv beta in E2.
  destruct (Hcut (Join kts ",") (Join vals ",")) as [Hx1|Hx1]; [|by rewrite Join_no_byte in Hx1].
  destruct (Hcut (Join kts' ",") (Join vals' ",")) as [Hy1|Hy1]; [|by rewrite Join_no_byte in Hy1].
  rewrite Hx1, Hy1 in E2. injection E2 as E2 E3. split; [done|].
  assert (vals ≠ [] ∧ vals' ≠ []) as [Hnv Hnv'] by (split; intros ->; by destruct kts, kts').
  split; [rewrite <- (Split_Join kts ","), <- (Split_Join kts' ","), E2 by done|
    rewrite <- (Split_Join vals ","), <- (Split_Join vals' ","), E3 by done]; done.
Qed.

Lemma Key_injective_witness :
  Key "42" [KeyTypeCountry; KeyTypeMetro] ["US"; "nielsen_dma:501"] =
    "signal:42:country,metro:US,nielsen_dma:501" ∧
  ∀ vals, length vals = 2 → Forall (λ v, contains_byte v "," = false) vals →
    Key "42" [KeyTypeCountry; KeyTypeMetro] vals = Key "42" [KeyTypeCountry; KeyTypeMetro] ["US"; "nielsen_dma:501"] →
    vals = ["US"; "nielsen_dma:501"].
Proof.
  split; [reflexivity|]. intros vals Hl Hv E.
  refine (proj2 (proj2 (Key_injective "42" [KeyTypeCountry; KeyTypeMetro] vals "42" [KeyTypeCountry; KeyTypeMetro]
    ["US"; "nielsen_dma:501"] eq_refl eq_refl _ _ _ _ _ eq_refl _ _ Hv _ E))); try done; by repeat constructor.
Defined.

Lemma Key_ambiguous : Key "a" [KeyTypeCountry] ["region:x"] = Key "a:country" [KeyTypeRegion] ["x"].
Proof. reflexivity. Qed.

(** C40: the odometer loop ends on every input.  It returns an error exactly for
    a malformed configuration or when the values multiply past the cap before a
    key type without values is met; otherwise the keys of the cartesian product
    of the request's values, in order, at most 4096 of them. *)
Theorem expand_cartesian c data :
  ExpandKeys c data =
    (if evaluable c data then Ok (map (Key (SignalOwnerID c) (KeyTypes c)) (tuples c data)) else Err CfgUnsafe) ∧
  (evaluable c data = true → (Z.of_nat (length (tuples c data)) ≤ maxKeysPerCfg)%Z).
Proof.
  split; [apply ExpandKeys_spec|]. intros [_ Hw]%andb_true_iff.
  pose proof (collect_spec data (KeyTypes c) 1 ltac:(done)) as Hc. unfold tuples. rewrite cartesian_length.
  destruct (collect data (KeyTypes c) 1) as [[sets|]|e]; [| |destruct Hc; congruence].
  - destruct Hc as (_ & -> & _ & Hp). lia.
  - destruct Hc as [_ Hin]. rewrite <- cartesian_length, cartesian_empty by done. done.
Qed.
