(* ===== verification/Targeting.v ===== *)
(** * Targeting: the context and identity engines

    [src/targeting/engine.go], [engine_signals.go], [entity.go],
    [primitives.go], [identity_engine.go], [identity_config.go]: which packages
    are offered to a request and which are eligible for a user.  Storage is an
    argument whose answers are fixed for the request; the request context is a
    function from the number of polls made to its error; metrics and logs are
    not modelled. *)
From S2P Require Import Prelude GoStrings Unicode Json Float Base64 NetUrl UrlCanon Signals.
From stdpp Require Import options.

(** ** Property lists ([primitives.go]) *)

Definition Bitmap := list string.
Definition Contains (b : Bitmap) (v : string) : bool := bool_decide (v ∈ b).

Record PropertyList := MkPropertyList { Global : option Bitmap; ByPackage : option (gmap string Bitmap) }.

Definition ContainsGlobal (p : PropertyList) (rid : string) : bool :=
  match Global p with None => true | Some b => Contains b rid end.

Definition ContainsPackage (p : PropertyList) (packageID rid : string) : bool :=
  match ByPackage p with
  | None => true
  | Some m => match m !! packageID with None => true | Some b => Contains b rid end
  end.

(** ** Packages ([entity.go]) *)

Record OfferPrice := MkPrice { Amount : float; Currency : string; Model : string }.

Record OfferConfigJSON := MkOfferConfig {
  oc_Brand : string;
  oc_Price : OfferPrice;
  oc_Summary : string;
  oc_CreativeData : option (gmap string string);
}.

Record PackageContextConfig := MkPackage {
  PackageID : string;
  TopicTargets : bool;
  PropertyRIDs : list string;
  EmitSegments : list string;
  ContextSignals : option Profile;
  Offers : list OfferConfigJSON;
  Brand : string;
  Price : OfferPrice;
  Summary : string;
  CreativeManifest : string;
  CreativeData : option (gmap string string);
  propertyRIDBitmap : option Bitmap;
}.

Definition MaterializePropertyBitmap (c : PackageContextConfig) : PackageContextConfig :=
  {| PackageID := PackageID c; TopicTargets := TopicTargets c; PropertyRIDs := PropertyRIDs c;
     EmitSegments := EmitSegments c; ContextSignals := ContextSignals c; Offers := Offers c; Brand := Brand c;
     Price := Price c; Summary := Summary c; CreativeManifest := CreativeManifest c; CreativeData := CreativeData c;
     propertyRIDBitmap := if bool_decide (PropertyRIDs c = []) then None else Some (PropertyRIDs c) |}.

Definition ContainsPropertyRID (c : PackageContextConfig) (rid : string) : bool :=
  if bool_decide (PropertyRIDs c = []) then true else
  match propertyRIDBitmap c with Some b => Contains b rid | None => bool_decide (rid ∈ PropertyRIDs c) end.

(** ** Requests *)

Definition ArtifactRefTypeURL : string := "url".
Definition ArtifactRefTypeURLHash : string := "url_hash".

Record ArtifactRef := MkRef { RefType : string; RefValue : string }.

Record ContentSignals := MkSignals { Topics : list string; TaxonomySource : string; TaxonomyID : Z }.

Record ContextMatchRequest := MkRequest {
  RequestID : string;
  PropertyRID : string;
  PropertyID : string;
  PlacementID : string;
  SellerAgentURL : string;
  ArtifactRefs : list ArtifactRef;
  Geo : list (string * json);
  ReqSignals : option ContentSignals;
  PackageIDs : list string;
}.

(** ** Taxonomies ([topicstore.go]) *)

Record Taxonomy := MkTaxonomy { Source : string; TaxID : Z }.
#[export] Instance taxonomy_eq_dec : EqDecision Taxonomy.
Proof. solve_decision. Defined.

Definition Taxonomy_String (t : Taxonomy) : string := Source t +:+ ":" +:+ Itoa (TaxID t).

(** ** Storage ([context_storage.go]): an answer, or a failed lookup *)

Record ContextStorage := MkStorage {
  IsPropertySuppressed : string → string → option bool;
  IsGeoSuppressed : string → string → option bool;
  ActivePackages : string → string → string → string → Z → option (list string);
  ContextConfig : string → option (option PackageContextConfig);
  (** the optional batch method: absent, or its answer *)
  ContextConfigs : option (list string → option (list (option PackageContextConfig)));
  ArtifactTopics : Taxonomy → string → option (list string);
  PackageTopics : Taxonomy → string → option (list string);
  SignalMGet : list string → option (list string);
}.

Record ContextEngine := MkEngine {
  providerID : string;
  properties : PropertyList;
  storage : ContextStorage;
  now : Z;
  acceptedTaxonomies : list Taxonomy;
}.

Definition acceptsTaxonomy (e : ContextEngine) (tax : Taxonomy) : bool := bool_decide (tax ∈ acceptedTaxonomies e).

(** ** Offers *)

Record Offer := MkOffer {
  offer_PackageID : string;
  offer_Brand : string;
  offer_Price : option OfferPrice;
  offer_Summary : string;
  offer_Manifest : option string;
  offer_CreativeData : option (gmap string string);
}.

Definition offerPricePtr (p : OfferPrice) : option OfferPrice :=
  if fzero (Amount p) && bool_decide (Currency p = "") && bool_decide (Model p = "") then None else Some p.

Definition rawMessagePtr (m : string) : option string := if bool_decide (m = "") then None else Some m.

Definition buildOffersFromContextConfig (pkgID : string) (cfg : PackageContextConfig) : list Offer :=
  if bool_decide (0 < length (Offers cfg)) then
    map (λ o, MkOffer pkgID (oc_Brand o) (offerPricePtr (oc_Price o)) (oc_Summary o) None (oc_CreativeData o)) (Offers cfg)
  else
    [MkOffer pkgID (Brand cfg) (offerPricePtr (Price cfg)) (Summary cfg) (rawMessagePtr (CreativeManifest cfg)) (CreativeData cfg)].

(** ** Candidates and topics *)

Definition candidateSet (activeIDs requested : list string) : list string :=
  if bool_decide (requested = []) then activeIDs else List.filter (λ id, bool_decide (id ∈ activeIDs)) requested.

Definition hasOverlap (a b : list string) : bool := existsb (λ x, bool_decide (x ∈ b)) a.

Definition extractArtifactKeys (req : ContextMatchRequest) : list string :=
  map RefValue (List.filter (λ r, bool_decide (RefType r = ArtifactRefTypeURL ∨ RefType r = ArtifactRefTypeURLHash)) (ArtifactRefs req)).

Definition request_taxonomy (cs : ContentSignals) : Taxonomy := MkTaxonomy (TaxonomySource cs) (TaxonomyID cs).

(** At most one entry, since a request names one taxonomy. *)
Definition publisherTopicsByTaxonomy (e : ContextEngine) (req : ContextMatchRequest) : list (Taxonomy * list string) :=
  match ReqSignals req with
  | None => []
  | Some cs =>
      if bool_decide (Topics cs = []) then [] else
      if negb (acceptsTaxonomy e (request_taxonomy cs)) then [] else [(request_taxonomy cs, Topics cs)]
  end.

Fixpoint publisher_match (e : ContextEngine) (pkgID : string) (l : list (Taxonomy * list string)) : option bool :=
  match l with
  | [] => Some false
  | (tax, pubTopics) :: l' =>
      pkgTopics ← PackageTopics (storage e) tax pkgID;
      if bool_decide (pkgTopics = []) then publisher_match e pkgID l' else
      if hasOverlap pkgTopics pubTopics then Some true else publisher_match e pkgID l'
  end.

Fixpoint artifact_match (e : ContextEngine) (pkgID : string) (l : list (string * Taxonomy)) : option bool :=
  match l with
  | [] => Some false
  | (artifact, tax) :: l' =>
      artTopics ← ArtifactTopics (storage e) tax artifact;
      if bool_decide (artTopics = []) then artifact_match e pkgID l' else
      pkgTopics ← PackageTopics (storage e) tax pkgID;
      if bool_decide (pkgTopics = []) then artifact_match e pkgID l' else
      if hasOverlap pkgTopics artTopics then Some true else artifact_match e pkgID l'
  end.

(** The nested loops over artifacts and taxonomies, as one loop over the pairs. *)
Definition checkTopicMatch (e : ContextEngine) (pkgID : string) (artifacts : list string)
    (pub : list (Taxonomy * list string)) : option bool :=
  b ← publisher_match e pkgID pub;
  if b : bool then Some true else
  artifact_match e pkgID (flat_map (λ a, map (pair a) (acceptedTaxonomies e)) artifacts).

Definition matchesPropertyBitmap (e : ContextEngine) (cfg : PackageContextConfig) (rid pkgID : string) : bool :=
  ContainsPropertyRID cfg rid && ContainsPackage (properties e) pkgID rid.

(** ** Signals of a request *)

(** [blake3.Sum256], of a third-party package. *)
Class Blake3 := { blake3 : string → string }.

Fixpoint index_sub (fuel : nat) (s sub : string) : option nat :=
  match fuel with
  | 0 => None
  | S f => if HasPrefix s sub then Some 0 else match s with "" => None | String _ s' => S <$> index_sub f s' sub end
  end.
Definition Index (s sub : string) : option nat := index_sub (S (len s)) s sub.

Section Engine.
Context `{RT : Runtime, B3 : Blake3}.

(** [tmproto.CanonicalizeURL]: the form under which content is deduplicated. *)
Definition CanonicalizeURL (raw : string) : string :=
  let s := TrimSpace raw in
  if bool_decide (s = "") then "" else
  let s := match Index s "://" with Some i => sdrop (i + 3) s | None => s end in
  let s := match IndexByte s "#" with Some i => stake i s | None => s end in
  let s := match IndexByte s "?" with Some i => stake i s | None => s end in
  let s := ToLower s in
  let '(host, path) := match IndexByte s "/" with Some i => (stake i s, sdrop i s) | None => (s, "") end in
  let host :=
    match CutPrefix host "www." with
    | Some h => h
    | None => match CutPrefix host "m." with Some h => h | None => TrimPrefix host "amp." end
    end in
  host +:+ TrimRight (λ c, beq c "/") path.

Definition HashURL (raw : string) : string := StdEncode (blake3 (CanonicalizeURL raw)).

Definition appendUnique (data : LookupData) (kt : KeyType) (v : string) : LookupData :=
  if contains_byte v "," then data else
  if bool_decide (v ∈ values data kt) then data else <[kt := values data kt ++ [v]]> data.

Definition artifactRefKeyType (t : string) : option KeyType :=
  if bool_decide (t ∈ [KeyTypeURLHash; KeyTypeEIDR; KeyTypeGracenote; KeyTypeISRC; KeyTypeGTIN; KeyTypeRSSGUID;
                       KeyTypeISBN; KeyTypeCustom]) then Some t else None.

Definition geo_string (geo : list (string * json)) (k : string) : string :=
  match obj_get k geo with Some (JStr s) => s | _ => "" end.

Definition metroFromGeo (geo : list (string * json)) : string :=
  match obj_get "metro" geo with
  | Some (JObj m) =>
      let system := geo_string m "system" in
      let value := geo_string m "value" in
      if bool_decide (system = "") || bool_decide (value = "") then "" else system +:+ ":" +:+ value
  | _ => ""
  end.

Definition add_ref (data : LookupData) (ref : ArtifactRef) : LookupData :=
  if bool_decide (RefValue ref = "") then data else
  if bool_decide (RefType ref = ArtifactRefTypeURL) then appendUnique data KeyTypeURLHash (HashURL (RefValue ref)) else
  match artifactRefKeyType (RefType ref) with
  | None => data
  | Some kt => appendUnique data kt (RefValue ref)
  end.

Definition add_nonempty (data : LookupData) (kt : KeyType) (v : string) : LookupData :=
  if bool_decide (v = "") then data else appendUnique data kt v.

Definition extractSignalLookupData (e : ContextEngine) (req : ContextMatchRequest) (country : string) : LookupData :=
  let data := foldl add_ref ∅ (ArtifactRefs req) in
  let data := add_nonempty data KeyTypeCountry country in
  let data := add_nonempty data KeyTypeRegion (geo_string (Geo req) "region") in
  let data := add_nonempty data KeyTypeMetro (metroFromGeo (Geo req)) in
  match ReqSignals req with
  | Some cs =>
      if bool_decide (Topics cs = []) then data else
      if negb (acceptsTaxonomy e (request_taxonomy cs)) then data else
      foldl (λ data t, if bool_decide (t = "") then data
                       else appendUnique data KeyTypeTopic (Taxonomy_String (request_taxonomy cs) +:+ ":" +:+ t)) data (Topics cs)
  | None => data
  end.

(** ** Evaluation ([engine.go], [engine_signals.go]) *)

Inductive eval_error := DeadlineExceeded | IndexOutOfRange.

(** [ctx.Err()] at the [n]-th poll of the request. *)
Definition Polls := nat → bool.

Definition hasAnySignalProfile (configs : list (option PackageContextConfig)) : bool :=
  existsb (λ c, match c with Some cfg => negb (IsEmpty (ContextSignals cfg)) | None => false end) configs.

(** The per-package fallback of [preloadContextConfigs] polls before each
    lookup and leaves the rest empty once the context is done. *)
Fixpoint fetch_configs (e : ContextEngine) (ctx : Polls) (n : nat) (ids : list string) :
    nat * list (option PackageContextConfig) :=
  match ids with
  | [] => (n, [])
  | id :: ids' =>
      if ctx n then (S n, map (λ _, None) ids) else
      let cfg := match ContextConfig (storage e) id with Some (Some cfg) => Some cfg | _ => None end in
      let '(n', rest) := fetch_configs e ctx (S n) ids' in
      (n', cfg :: rest)
  end.

Definition preloadContextConfigs (e : ContextEngine) (ctx : Polls) (n : nat) (ids : list string) :
    nat * list (option PackageContextConfig) :=
  match ids with
  | [] => (n, [])
  | _ =>
      match ContextConfigs (storage e) with
      | Some batch => (n, match batch ids with Some configs => configs | None => map (λ _, None) ids end)
      | None => fetch_configs e ctx n ids
      end
  end.

Definition signal_profiles (configs : list (option PackageContextConfig)) : list Profile :=
  omap (λ c, cfg ← c; if IsEmpty (ContextSignals cfg) then None else ContextSignals cfg) configs.

(** [Ok None] is the nil map. *)
Definition fetchSignalsForCandidates (e : ContextEngine) (configs : list (option PackageContextConfig)) (data : LookupData) :
    result signal_error (option Fetched) :=
  if bool_decide (configs = []) || bool_decide (data = ∅) then Ok None else
  match signal_profiles configs with
  | [] => Ok None
  | profiles =>
      keys ← PlanLookup profiles data;
      if bool_decide (keys = []) then Ok (Some ∅) else
      vals ← opt_err StoreFailed (SignalMGet (storage e) keys);
      fetched ← opt_err Misaligned (DecodeValues keys vals);
      Ok (Some fetched)
  end.

Definition signalsPass (cfg : PackageContextConfig) (data : LookupData) (fetched : result signal_error (option Fetched)) : bool :=
  if IsEmpty (ContextSignals cfg) then true else
  match fetched with
  | Err _ => false
  | Ok m => match MatchProfile (ContextSignals cfg) data (default ∅ m) with Ok pass => pass | Err _ => false end
  end.

Definition topicsPass (e : ContextEngine) (pkgID : string) (cfg : PackageContextConfig) (artifacts : list string)
    (pub : list (Taxonomy * list string)) (haveTopicSource : bool) : bool :=
  if negb (TopicTargets cfg) then true else
  if bool_decide (acceptedTaxonomies e = []) then false else
  if haveTopicSource then match checkTopicMatch e pkgID artifacts pub with Some matched => matched | None => false end
  else true.

(** One round of the loop over candidates. *)
Definition offers_of (e : ContextEngine) (rid pkgID : string) (cfg : option PackageContextConfig) (data : LookupData)
    (fetched : result signal_error (option Fetched)) (artifacts : list string) (pub : list (Taxonomy * list string))
    (haveTopicSource : bool) : list Offer * list string :=
  match cfg with
  | None => ([], [])
  | Some cfg =>
      if negb (matchesPropertyBitmap e cfg rid pkgID) then ([], []) else
      if negb (signalsPass cfg data fetched) then ([], []) else
      if negb (topicsPass e pkgID cfg artifacts pub haveTopicSource) then ([], []) else
      (buildOffersFromContextConfig pkgID cfg, EmitSegments cfg)
  end.

(** The loop over the candidates: [configs] is indexed by their position. *)
Fixpoint eval_loop (ctx : Polls) (n : nat) (ids : list string) (configs : list (option PackageContextConfig))
    (round : string → option PackageContextConfig → list Offer * list string) :
    result eval_error (list Offer * list string) :=
  match ids with
  | [] => Ok ([], [])
  | id :: ids' =>
      if ctx n then Err DeadlineExceeded else
      match configs with
      | [] => Err IndexOutOfRange
      | cfg :: configs' =>
          let '(offers, segments) := round id cfg in
          rest ← eval_loop ctx (S n) ids' configs' round;
          Ok (offers ++ rest.1, segments ++ rest.2)
      end
  end.

Record ContextResult := MkContextResult {
  result_RequestID : string;
  result_Offers : list Offer;
  result_segments : list string;
}.

Definition no_offers (req : ContextMatchRequest) : ContextResult := MkContextResult (RequestID req) [] [].

(** The candidates of a request, given the active packages. *)
Definition evaluate_candidates (e : ContextEngine) (ctx : Polls) (req : ContextMatchRequest) (country : string)
    (active : list string) : result eval_error ContextResult :=
  match candidateSet active (PackageIDs req) with
  | [] => Ok (no_offers req)
  | candidates =>
      let artifacts := extractArtifactKeys req in
      let pub := publisherTopicsByTaxonomy e req in
      let haveTopicSource := bool_decide (artifacts ≠ []) ||
        match ReqSignals req with Some cs => bool_decide (Topics cs ≠ []) | None => false end in
      let '(n, configs) := preloadContextConfigs e ctx 1 candidates in
      let data := if hasAnySignalProfile configs then extractSignalLookupData e req country else ∅ in
      let fetched := if hasAnySignalProfile configs then fetchSignalsForCandidates e configs data else Ok None in
      out ← eval_loop ctx n candidates configs
        (λ id cfg, offers_of e (PropertyRID req) id cfg data fetched artifacts pub haveTopicSource);
      Ok (MkContextResult (RequestID req) out.1 out.2)
  end.

Definition Evaluate (e : ContextEngine) (ctx : Polls) (req : ContextMatchRequest) : result eval_error ContextResult :=
  if ctx 0 then Err DeadlineExceeded else
  let rid := PropertyRID req in
  if negb (ContainsGlobal (properties e) rid) then Ok (no_offers req) else
  if bool_decide (IsPropertySuppressed (storage e) (providerID e) rid = Some true) then Ok (no_offers req) else
  let country := geo_string (Geo req) "country" in
  if negb (bool_decide (country = "")) && bool_decide (IsGeoSuppressed (storage e) (providerID e) country = Some true)
  then Ok (no_offers req) else
  match (if bool_decide (SellerAgentURL req = "") then Ok "" else UrlCanon.Canonicalize (SellerAgentURL req)) with
  | Err _ => Ok (no_offers req)
  | Ok seller =>
      match ActivePackages (storage e) seller (PropertyID req) country (PlacementID req) (now e) with
      | None => if ctx 1 then Err DeadlineExceeded else Ok (no_offers req)
      | Some active => evaluate_candidates e ctx req country active
      end
  end.

End Engine.
