(* ===== verification/TargetProps.v ===== *)
(** * TargetProps: which packages are offered and to whom

    A declarative reading of the context engine, package by package, that the
    pipeline with its planned reads, loops and early returns refines. *)
From S2P Require Import Prelude GoStrings Unicode Json Float Base64 NetUrl UrlCanon Signals Targeting.
From stdpp Require Import options.

(** ** What the engine expects of storage *)

(** A batch answers position by position, and a fetch of signals returns what
    the store holds under each key. *)
Class StorageSpec (s : ContextStorage) (store : string → string) := {
  batch_aligned batch ids configs :
    ContextConfigs s = Some batch → batch ids = Some configs →
    Forall2 (λ id c, c = None ∨ ContextConfig s id = Some c) ids configs;
  mget_aligned keys vals : SignalMGet s keys = Some vals → vals = map store keys;
}.

(** No lookup fails, and a batch has every stored config. *)
Class StorageTotal (s : ContextStorage) := {
  active_total seller prop country placement t : is_Some (ActivePackages s seller prop country placement t);
  config_total id : is_Some (ContextConfig s id);
  batch_total batch ids : ContextConfigs s = Some batch →
    ∃ configs, batch ids = Some configs ∧ Forall2 (λ id c, ContextConfig s id = Some c) ids configs;
  artifact_total tax ref : is_Some (ArtifactTopics s tax ref);
  package_total tax pkg : is_Some (PackageTopics s tax pkg);
  mget_total keys : is_Some (SignalMGet s keys);
}.

(** ** The declarative reading *)

Section Spec.
Context `{RT : Runtime, B3 : Blake3}.

Definition request_country (req : ContextMatchRequest) : string := geo_string (Geo req) "country".

(** The request may be served at all. *)
Definition admitted (e : ContextEngine) (req : ContextMatchRequest) : Prop :=
  ContainsGlobal (properties e) (PropertyRID req) = true ∧
  IsPropertySuppressed (storage e) (providerID e) (PropertyRID req) ≠ Some true ∧
  (request_country req = "" ∨ IsGeoSuppressed (storage e) (providerID e) (request_country req) ≠ Some true).

(** The seller's packages on offer now. *)
Definition on_offer (e : ContextEngine) (req : ContextMatchRequest) (active : list string) : Prop :=
  ∃ seller, (if bool_decide (SellerAgentURL req = "") then Ok "" else UrlCanon.Canonicalize (SellerAgentURL req)) = Ok seller ∧
    ActivePackages (storage e) seller (PropertyID req) (request_country req) (PlacementID req) (now e) = Some active.

Definition requested (req : ContextMatchRequest) (pkg : string) : Prop := PackageIDs req = [] ∨ pkg ∈ PackageIDs req.

Definition discloses_topics (req : ContextMatchRequest) : Prop :=
  (∃ ref, ref ∈ ArtifactRefs req ∧ (RefType ref = ArtifactRefTypeURL ∨ RefType ref = ArtifactRefTypeURLHash)) ∨
  ∃ cs, ReqSignals req = Some cs ∧ Topics cs ≠ [].

(** Publisher or artifact and package have a topic in common, in one accepted
    taxonomy. *)
Definition topic_shared (e : ContextEngine) (req : ContextMatchRequest) (pkg : string) : Prop :=
  ∃ tax t pkgTopics, tax ∈ acceptedTaxonomies e ∧ PackageTopics (storage e) tax pkg = Some pkgTopics ∧ t ∈ pkgTopics ∧
    ((∃ cs, ReqSignals req = Some cs ∧ request_taxonomy cs = tax ∧ t ∈ Topics cs) ∨
     ∃ ref artTopics, ref ∈ ArtifactRefs req ∧ (RefType ref = ArtifactRefTypeURL ∨ RefType ref = ArtifactRefTypeURLHash) ∧
       ArtifactTopics (storage e) tax (RefValue ref) = Some artTopics ∧ t ∈ artTopics).

Definition topics_allow (e : ContextEngine) (req : ContextMatchRequest) (pkg : string) (cfg : PackageContextConfig) : Prop :=
  TopicTargets cfg = true → acceptedTaxonomies e ≠ [] ∧ (discloses_topics req → topic_shared e req pkg).

Definition signals_allow (e : ContextEngine) (store : string → string) (req : ContextMatchRequest) (cfg : PackageContextConfig) : Prop :=
  profile_allows store (extractSignalLookupData e req (request_country req)) (ContextSignals cfg).

(** A package qualifies, given its configuration. *)
Definition qualifies (e : ContextEngine) (store : string → string) (req : ContextMatchRequest) (pkg : string) (cfg : PackageContextConfig) : Prop :=
  ContainsPropertyRID cfg (PropertyRID req) = true ∧ ContainsPackage (properties e) pkg (PropertyRID req) = true ∧
  signals_allow e store req cfg ∧ topics_allow e req pkg cfg.

(** ** Topics *)

Lemma hasOverlap_spec a b : hasOverlap a b = true ↔ ∃ t, t ∈ a ∧ t ∈ b.
Proof.
  unfold hasOverlap. rewrite existsb_exists. split; intros (t & Ha & Hb); exists t;
    rewrite ?bool_decide_eq_true, ?list_elem_of_In in *; done.
Qed.

Lemma publisher_match_spec e pkg l :
  (publisher_match e pkg l = Some true →
    ∃ tax pub pkgTopics t, (tax, pub) ∈ l ∧ PackageTopics (storage e) tax pkg = Some pkgTopics ∧ t ∈ pkgTopics ∧ t ∈ pub) ∧
  (StorageTotal (storage e) → ∃ b, publisher_match e pkg l = Some b ∧
    (b = false → ∀ tax pub pkgTopics t, (tax, pub) ∈ l → PackageTopics (storage e) tax pkg = Some pkgTopics → t ∈ pkgTopics → t ∉ pub)).
Proof.
  induction l as [|[tax pub] l [IH1 IH2]]; cbn [publisher_match].
  - split; [done|]. intros _. exists false. split; [done|]. by intros _ tax pub pt t ?%elem_of_nil.
  - split.
    + intros (pt & Hpt & H)%bind_Some.
      assert (publisher_match e pkg l = Some true → ∃ tax' pub' pkgTopics t, (tax', pub') ∈ (tax, pub) :: l ∧
        PackageTopics (storage e) tax' pkg = Some pkgTopics ∧ t ∈ pkgTopics ∧ t ∈ pub') as Hrec.
      { intros (tx & pb & pt' & t & Hin & ?)%IH1. exists tx, pb, pt', t. split; [by right|done]. }
      case_bool_decide; [auto|]. destruct (hasOverlap pt pub) eqn:Ho; [|auto].
      apply hasOverlap_spec in Ho as (t & ? & ?). exists tax, pub, pt, t. split; [left|done].
    + intros HT. destruct (package_total tax pkg) as [pt Hpt]. rewrite Hpt. cbn [mbind option_bind].
      destruct (IH2 HT) as (b & Hb & Hno).
      assert (∀ b', (hasOverlap pt pub = false ∨ b' = true) → (b' = false → b = false) →
        (b' = false → ∀ tax' pub' pkgTopics t, (tax', pub') ∈ (tax, pub) :: l →
          PackageTopics (storage e) tax' pkg = Some pkgTopics → t ∈ pkgTopics → t ∉ pub')) as Hcons.
      { intros b' Ho Hbb Hf tx pb pt' t [[= -> ->]|Hin]%elem_of_cons Ht Hti Hc; [|by eapply Hno; eauto].
        rewrite Hpt in Ht. injection Ht as <-. destruct Ho as [Ho|?]; [|congruence].
        assert (hasOverlap pt pub = true); [|congruence]. apply hasOverlap_spec. by exists t. }
      case_bool_decide as Hpe; [subst; exists b; split; [done|apply Hcons; [by left|done]]|].
      destruct (hasOverlap pt pub) eqn:Ho; [exists true; split; [done|done]|].
      exists b. split; [done|]. apply Hcons; [by left|done].
Qed.

Lemma artifact_match_spec e pkg l :
  (artifact_match e pkg l = Some true →
    ∃ ref tax artTopics pkgTopics t, (ref, tax) ∈ l ∧ ArtifactTopics (storage e) tax ref = Some artTopics ∧
      PackageTopics (storage e) tax pkg = Some pkgTopics ∧ t ∈ pkgTopics ∧ t ∈ artTopics) ∧
  (StorageTotal (storage e) → ∃ b, artifact_match e pkg l = Some b ∧
    (b = false → ∀ ref tax artTopics pkgTopics t, (ref, tax) ∈ l → ArtifactTopics (storage e) tax ref = Some artTopics →
       PackageTopics (storage e) tax pkg = Some pkgTopics → t ∈ pkgTopics → t ∉ artTopics)).
Proof.
  induction l as [|[ref tax] l [IH1 IH2]]; cbn [artifact_match].
  - split; [done|]. intros _. exists false. split; [done|]. by intros _ ref tax at' pt t ?%elem_of_nil.
  - split.
    + intros (at' & Hat & H)%bind_Some.
      assert (artifact_match e pkg l = Some true → ∃ ref' tax' artTopics pkgTopics t, (ref', tax') ∈ (ref, tax) :: l ∧
        ArtifactTopics (storage e) tax' ref' = Some artTopics ∧
        PackageTopics (storage e) tax' pkg = Some pkgTopics ∧ t ∈ pkgTopics ∧ t ∈ artTopics) as Hrec.
      { intros (rf & tx & a' & pt' & t & Hin & ?)%IH1. exists rf, tx, a', pt', t. split; [by right|done]. }
      case_bool_decide; [auto|]. apply bind_Some in H as (pt & Hpt & H).
      case_bool_decide; [auto|]. destruct (hasOverlap pt at') eqn:Ho; [|auto].
      apply hasOverlap_spec in Ho as (t & ? & ?). exists ref, tax, at', pt, t. split; [left|done].
    + intros HT. destruct (artifact_total tax ref) as [at' Hat], (package_total tax pkg) as [pt Hpt].
      rewrite Hat, Hpt. cbn [mbind option_bind]. destruct (IH2 HT) as (b & Hb & Hno).
      assert (hasOverlap pt at' = false → b = false → ∀ ref' tax' artTopics pkgTopics t, (ref', tax') ∈ (ref, tax) :: l →
          ArtifactTopics (storage e) tax' ref' = Some artTopics →
          PackageTopics (storage e) tax' pkg = Some pkgTopics → t ∈ pkgTopics → t ∉ artTopics) as Hcons.
      { intros Ho Hf rf tx a' pt' t [[= -> ->]|Hin]%elem_of_cons Ha Ht Hti Hc; [|by eapply Hno; eauto].
        rewrite Hpt in Ht. rewrite Hat in Ha. injection Ht as <-. injection Ha as <-.
        assert (hasOverlap pt at' = true); [|congruence]. apply hasOverlap_spec. by exists t. }
      assert (pt = [] ∨ at' = [] → hasOverlap pt at' = false) as Hemp.
      { intros He. apply not_true_is_false. intros (t & Hp & Ha)%hasOverlap_spec.
        destruct He as [-> | ->]; by apply elem_of_nil in Hp || apply elem_of_nil in Ha. }
      case_bool_decide as Hae; [exists b; split; [done|apply Hcons; apply Hemp; by right]|].
      case_bool_decide as Hpe; [exists b; split; [done|apply Hcons; apply Hemp; by left]|].
      destruct (hasOverlap pt at') eqn:Ho; [exists true; done|]. exists b. split; [done|]. by apply Hcons.
Qed.

Lemma artifact_refs_spec req v :
  v ∈ extractArtifactKeys req ↔
  ∃ ref, ref ∈ ArtifactRefs req ∧ (RefType ref = ArtifactRefTypeURL ∨ RefType ref = ArtifactRefTypeURLHash) ∧ RefValue ref = v.
Proof.
  unfold extractArtifactKeys. rewrite list_elem_of_In, in_map_iff. setoid_rewrite filter_In.
  setoid_rewrite bool_decide_eq_true. setoid_rewrite <- list_elem_of_In. naive_solver.
Qed.

Lemma publisher_topics_spec e req tax pub :
  (tax, pub) ∈ publisherTopicsByTaxonomy e req ↔
  ∃ cs, ReqSignals req = Some cs ∧ Topics cs ≠ [] ∧ tax ∈ acceptedTaxonomies e ∧ request_taxonomy cs = tax ∧ pub = Topics cs.
Proof.
  unfold publisherTopicsByTaxonomy, acceptsTaxonomy. destruct (ReqSignals req) as [cs|].
  - case_bool_decide as Ht; [split; [by intros ?%elem_of_nil|naive_solver]|].
    case_bool_decide as Ha; cbn [negb].
    + rewrite list_elem_of_singleton. naive_solver.
    + split; [by intros ?%elem_of_nil|]. intros (? & [= <-] & _ & ? & <- & _). done.
  - split; [by intros ?%elem_of_nil|naive_solver].
Qed.

Lemma checkTopicMatch_spec e req pkg :
  let r := checkTopicMatch e pkg (extractArtifactKeys req) (publisherTopicsByTaxonomy e req) in
  (r = Some true → topic_shared e req pkg) ∧
  (StorageTotal (storage e) → topic_shared e req pkg → r = Some true).
Proof.
  intros r. unfold r, checkTopicMatch. set (arts := flat_map _ _). set (pub := publisherTopicsByTaxonomy e req).
  destruct (publisher_match_spec e pkg pub) as [Hp Hpt], (artifact_match_spec e pkg arts) as [Ha Hat].
  assert (∀ ref tax, (ref, tax) ∈ arts ↔ ref ∈ extractArtifactKeys req ∧ tax ∈ acceptedTaxonomies e) as Harts.
  { intros ref tax. unfold arts. rewrite list_elem_of_In, in_flat_map. split.
    - intros (v & Hv & (x & [= -> ->] & Hx)%in_map_iff). rewrite !list_elem_of_In. done.
    - rewrite !list_elem_of_In. intros [Hr Ht]. exists ref. split; [done|]. apply in_map_iff. by exists tax. }
  split.
  - intros (b & Hb & H)%bind_Some. destruct b.
    + destruct (Hp Hb) as (tax & pb & pt & t & (cs & Hcs & _ & Hacc & Htax & ->)%publisher_topics_spec & Hpt' & ? & ?).
      exists tax, t, pt. do 3 (split; [done|]). left. eauto.
    + destruct (Ha H) as (ref & tax & at' & pt & t & [(rf & ? & ? & <-)%artifact_refs_spec ?]%Harts & ? & ? & ? & ?).
      exists tax, t, pt. do 3 (split; [done|]). right. eauto 10.
  - intros HT (tax & t & pt & Hacc & Hpk & Ht & Hsrc). destruct (Hpt HT) as (b & -> & Hno). cbn [mbind option_bind].
    destruct b; [done|]. destruct (Hat HT) as (b & Hb & Hno'). rewrite Hb. destruct b; [done|]. exfalso.
    destruct Hsrc as [(cs & Hcs & <- & Hin)|(ref & at' & Href & Hty & Hart & Hin)].
    + eapply (Hno eq_refl (request_taxonomy cs) (Topics cs)); [|done..]. apply publisher_topics_spec. exists cs.
      split; [done|]. split; [|done]. intros E. rewrite E in Hin. by apply elem_of_nil in Hin.
    + eapply (Hno' eq_refl (RefValue ref) tax); [|done..]. apply Harts. split; [|done]. apply artifact_refs_spec. eauto.
Qed.

Lemma have_source req :
  bool_decide (extractArtifactKeys req ≠ []) ||
    match ReqSignals req with Some cs => bool_decide (Topics cs ≠ []) | None => false end = true ↔ discloses_topics req.
Proof.
  unfold discloses_topics. rewrite orb_true_iff, bool_decide_eq_true. apply Morphisms_Prop.or_iff_morphism.
  - split.
    + destruct (extractArtifactKeys req) as [|v l] eqn:E; [done|]. intros _.
      assert (v ∈ extractArtifactKeys req) as (ref & ? & ? & _)%artifact_refs_spec by (rewrite E; left). eauto.
    + intros (ref & Hin & Hty) E. assert (RefValue ref ∈ extractArtifactKeys req) as Hv by (apply artifact_refs_spec; eauto).
      rewrite E in Hv. by apply elem_of_nil in Hv.
  - destruct (ReqSignals req) as [cs|]; [rewrite bool_decide_eq_true|]; naive_solver.
Qed.

Lemma topicsPass_spec e req pkg cfg src :
  (src = true ↔ discloses_topics req) →
  let r := topicsPass e pkg cfg (extractArtifactKeys req) (publisherTopicsByTaxonomy e req) src in
  (r = true → topics_allow e req pkg cfg) ∧ (StorageTotal (storage e) → topics_allow e req pkg cfg → r = true).
Proof.
  intros Hsrc r. unfold r, topicsPass, topics_allow. destruct (TopicTargets cfg); cbn [negb]; [|by split].
  case_bool_decide as Hacc; [split; [done|]; intros _ H; by destruct (H eq_refl)|].
  destruct (checkTopicMatch_spec e req pkg) as [H1 H2]. cbv zeta in H1, H2.
  destruct src.
  - assert (discloses_topics req) as Hd by by apply Hsrc.
    destruct (checkTopicMatch e pkg _ _) as [b|] eqn:E.
    + split; [intros ->; eauto|]. intros HT H. destruct (H eq_refl) as [_ Hs]. specialize (H2 HT (Hs Hd)). congruence.
    + split; [done|]. intros HT H. destruct (H eq_refl) as [_ Hs]. specialize (H2 HT (Hs Hd)). congruence.
  - split; [|done]. intros _ _. split; [done|]. by intros Hd%Hsrc.
Qed.

(** ** Signals: the planned fetch is as good as asking the store *)

Lemma signal_profiles_spec configs cfg p :
  Some cfg ∈ configs → ContextSignals cfg = Some p → IsEmpty (Some p) = false → p ∈ signal_profiles configs.
Proof.
  intros Hin Hp He. unfold signal_profiles. apply list_elem_of_omap. exists (Some cfg). split; [done|].
  cbn [mbind option_bind]. by rewrite Hp, He.
Qed.

Lemma fetch_faithful e store configs data m cfg p c :
  StorageSpec (storage e) store →
  fetchSignalsForCandidates e configs data = Ok m →
  Some cfg ∈ configs → ContextSignals cfg = Some p → IsEmpty (Some p) = false → c ∈ AnyOf p ++ NoneOf p →
  fetched_from store data (default ∅ m) c.
Proof.
  intros HS H Hin Hp He Hc. pose proof (signal_profiles_spec _ _ _ Hin Hp He) as Hprof. unfold fetchSignalsForCandidates in H.
  destruct configs as [|c0 configs]; [by apply elem_of_nil in Hin|]. rewrite (bool_decide_eq_false_2 (_ :: _ = [])) in H by done.
  cbn [orb] in H. destruct (signal_profiles (c0 :: configs)) as [|p0 ps] eqn:Eps; [by apply elem_of_nil in Hprof|].
  assert (∀ out, PlanLookup (p0 :: ps) data = Ok out → planned data out c) as Hplan.
  { intros out (_ & _ & Hall)%PlanLookup_spec. by eapply Hall. }
  case_bool_decide as Hd.
  { intros keys Hk k Hkin. specialize (Hplan [] ltac:(unfold PlanLookup; rewrite (bool_decide_eq_true_2 (data = ∅)) by done; by rewrite orb_true_r) keys Hk k Hkin).
    by apply elem_of_nil in Hplan. }
  apply bind_Ok in H as (keys & Hkeys & H). specialize (Hplan keys Hkeys).
  case_bool_decide as Hke.
  { subst keys. intros ks Hk k Hkin. specialize (Hplan ks Hk k Hkin). by apply elem_of_nil in Hplan. }
  apply bind_Ok in H as (vals & Hvals%opt_err_Ok & H). apply bind_Ok in H as (fetched & Hfet%opt_err_Ok & [= <-]).
  apply mget_aligned in Hvals. subst vals. destruct (DecodeValues_lookup keys store) as (m' & Hm' & Hl).
  rewrite Hm' in Hfet. injection Hfet as ->. intros ks Hk k Hkin. cbn [default]. apply Hl. by eapply Hplan.
Qed.

Lemma fetch_total e configs data :
  StorageTotal (storage e) → is_ok (PlanLookup (signal_profiles configs) data) = true →
  (∃ store, StorageSpec (storage e) store) → is_ok (fetchSignalsForCandidates e configs data) = true.
Proof.
  intros HT Hp [store HS]. unfold fetchSignalsForCandidates. destruct (_ || _); [done|].
  destruct (signal_profiles configs) as [|p0 ps] eqn:E; [done|]. destruct (PlanLookup (p0 :: ps) data) as [keys|]; [|done].
  cbn [mbind result_bind]. case_bool_decide; [done|]. destruct (mget_total keys) as [vals Hv]. rewrite Hv. cbn [opt_err mbind result_bind].
  apply mget_aligned in Hv. subst vals. destruct (DecodeValues_lookup keys store) as (m' & -> & _). done.
Qed.

Lemma signalsPass_spec e store configs data fetched cfg :
  StorageSpec (storage e) store → Some cfg ∈ configs →
  fetched = (if hasAnySignalProfile configs then fetchSignalsForCandidates e configs data else Ok None) →
  (signalsPass cfg data fetched = true → profile_allows store data (ContextSignals cfg)) ∧
  (is_ok fetched = true → profile_allows store data (ContextSignals cfg) → signalsPass cfg data fetched = true).
Proof.
  intros HS Hin Hf. unfold signalsPass. destruct (IsEmpty (ContextSignals cfg)) eqn:He.
  - split; [|done]. intros _. destruct (ContextSignals cfg) as [p|]; [|done]. cbn [IsEmpty] in He.
    apply andb_true_iff in He as [Ea%bool_decide_eq_true En%bool_decide_eq_true]. cbn [profile_allows].
    rewrite Ea, En. split; [constructor|by left].
  - destruct (ContextSignals cfg) as [p|] eqn:Ep; [|done].
    assert (hasAnySignalProfile configs = true) as Hany.
    { unfold hasAnySignalProfile. apply existsb_exists. exists (Some cfg). split; [by apply list_elem_of_In|]. by rewrite Ep, He. }
    rewrite Hany in Hf. destruct fetched as [m|]; [|done]. cbn [is_ok].
    assert (MatchProfile (Some p) data (default ∅ m) = Ok true ↔ profile_allows store data (Some p)) as <-.
    { apply MatchProfile_allows. intros c Hc. by eapply fetch_faithful. }
    destruct (MatchProfile (Some p) data (default ∅ m)) as [[|]|]; naive_solver.
Qed.
(** ** The loop over candidates *)

Lemma candidateSet_spec active req pkg :
  pkg ∈ candidateSet active (PackageIDs req) ↔ pkg ∈ active ∧ requested req pkg.
Proof.
  unfold candidateSet, requested. case_bool_decide as Hr; [rewrite Hr; naive_solver|].
  rewrite list_elem_of_In, filter_In, bool_decide_eq_true, <- !list_elem_of_In. naive_solver.
Qed.

Lemma none_aligned e ids :
  Forall2 (λ id c, c = None ∨ ContextConfig (storage e) id = Some c) ids (map (λ _, None) ids).
Proof. induction ids; constructor; auto. Qed.

Lemma fetch_configs_spec e ctx ids : ∀ n,
  Forall2 (λ id c, c = None ∨ ContextConfig (storage e) id = Some c) ids (fetch_configs e ctx n ids).2 ∧
  ((∀ n, ctx n = false) → StorageTotal (storage e) →
     Forall2 (λ id c, ContextConfig (storage e) id = Some c) ids (fetch_configs e ctx n ids).2).
Proof.
  induction ids as [|id ids IH]; intros n; cbn [fetch_configs]; [by split; constructor|].
  destruct (ctx n) eqn:Ec.
  - split; [|intros Hc; congruence]. apply none_aligned.
  - destruct (IH (S n)) as [IH1 IH2]. destruct (fetch_configs e ctx (S n) ids) as [n' rest]. cbn [snd] in *. split.
    + constructor; [|done]. destruct (ContextConfig (storage e) id) as [[cfg|]|]; auto.
    + intros Hc HT. constructor; [|auto]. destruct (config_total id) as [c ->]. by destruct c.
Qed.

Lemma preload_spec e ctx n ids store :
  StorageSpec (storage e) store → 
  Forall2 (λ id c, c = None ∨ ContextConfig (storage e) id = Some c) ids (preloadContextConfigs e ctx n ids).2 ∧
  ((∀ n, ctx n = false) → StorageTotal (storage e) →
     Forall2 (λ id c, ContextConfig (storage e) id = Some c) ids (preloadContextConfigs e ctx n ids).2).
Proof.
  intros HS. unfold preloadContextConfigs. destruct ids as [|id ids]; [by split; constructor|].
  destruct (ContextConfigs (storage e)) as [batch|] eqn:Eb; [|apply fetch_configs_spec]. cbn [snd].
  destruct (batch (id :: ids)) as [configs|] eqn:Ec.
  - split; [by eapply batch_aligned|]. intros _ HT. destruct (batch_total batch (id :: ids) Eb) as (cs & Hcs & ?).
    rewrite Ec in Hcs. by injection Hcs as ->.
  - split.
    + apply none_aligned.
    + intros _ HT. destruct (batch_total batch (id :: ids) Eb) as (cs & Hcs & ?). congruence.
Qed.

Lemma eval_loop_spec ctx round ids : ∀ n configs,
  length ids = length configs →
  eval_loop ctx n ids configs round ≠ Err IndexOutOfRange ∧
  ((∀ n, ctx n = false) → is_ok (eval_loop ctx n ids configs round) = true) ∧
  ∀ out, eval_loop ctx n ids configs round = Ok out →
    ∀ o, o ∈ out.1 ↔ ∃ i id c, ids !! i = Some id ∧ configs !! i = Some c ∧ o ∈ (round id c).1.
Proof.
  induction ids as [|id ids IH]; intros n [|c configs] Hl; try done; cbn [eval_loop].
  - split_and!; [done|done|]. intros out [= <-] o. split; [by intros ?%elem_of_nil|]. by intros (? & ? & ? & ? & _).
  - injection Hl as Hl. destruct (IH (S n) configs Hl) as (H1 & H2 & H3). destruct (round id c) as [offers segs] eqn:Er.
    destruct (ctx n) eqn:Ec; [split_and!; [done|congruence|done]|].
    destruct (eval_loop ctx (S n) ids configs round) as [rest|err]; cbn [mbind result_bind is_ok] in *.
    + split_and!; [done|done|]. intros out [= <-] o. cbn [fst]. rewrite elem_of_app, (H3 rest eq_refl). split.
      * intros [Ho|(i & id' & c' & ? & ? & ?)]; [exists 0, id, c; by rewrite Er|exists (S i), id', c'; done].
      * intros ([|i] & id' & c' & Hi & Hc & Ho); [|right; eauto 10]. left. cbn in Hi, Hc. simplify_eq. by rewrite Er in Ho.
    + split_and!; [congruence|done|done].
Qed.

Lemma offers_of_spec e req pkg c data fetched store configs src :
  StorageSpec (storage e) store → c ∈ configs →
  data = (if hasAnySignalProfile configs then extractSignalLookupData e req (request_country req) else ∅) →
  fetched = (if hasAnySignalProfile configs then fetchSignalsForCandidates e configs data else Ok None) →
  (src = true ↔ discloses_topics req) →
  ∀ o, (o ∈ (offers_of e (PropertyRID req) pkg c data fetched (extractArtifactKeys req) (publisherTopicsByTaxonomy e req) src).1 →
     ∃ cfg, c = Some cfg ∧ qualifies e store req pkg cfg ∧ o ∈ buildOffersFromContextConfig pkg cfg) ∧
  (StorageTotal (storage e) → is_ok fetched = true →
     ∀ cfg, c = Some cfg → qualifies e store req pkg cfg → o ∈ buildOffersFromContextConfig pkg cfg →
     o ∈ (offers_of e (PropertyRID req) pkg c data fetched (extractArtifactKeys req) (publisherTopicsByTaxonomy e req) src).1).
Proof.
  intros HS Hin Hd Hf Hsrc o. unfold offers_of, qualifies, matchesPropertyBitmap.
  destruct c as [cfg|]; [|split; [by intros ?%elem_of_nil|done]].
  destruct (signalsPass_spec e store configs data fetched cfg HS Hin Hf) as [Hs1 Hs2].
  assert (profile_allows store data (ContextSignals cfg) ↔ signals_allow e store req cfg) as Hsig.
  { unfold signals_allow. destruct (hasAnySignalProfile configs) eqn:Hany; [by rewrite Hd|].
    destruct (ContextSignals cfg) as [p|] eqn:Ep; [|done]. destruct (IsEmpty (Some p)) eqn:He.
    - cbn [IsEmpty] in He. apply andb_true_iff in He as [Ea%bool_decide_eq_true En%bool_decide_eq_true].
      cbn [profile_allows]. rewrite Ea, En. split; (intros _; split; [constructor|by left]).
    - exfalso. apply not_true_iff_false in Hany. apply Hany, existsb_exists. exists (Some cfg).
      split; [by apply list_elem_of_In|]. by rewrite Ep, He. }
  destruct (topicsPass_spec e req pkg cfg src Hsrc) as [Ht1 Ht2]. cbv zeta in Ht1, Ht2. split.
  - destruct (ContainsPropertyRID cfg (PropertyRID req)) eqn:Hc1; cbn [andb negb fst]; [|by intros ?%elem_of_nil].
    destruct (ContainsPackage (properties e) pkg (PropertyRID req)) eqn:Hc2; cbn [negb fst]; [|by intros ?%elem_of_nil].
    destruct (signalsPass cfg data fetched); cbn [negb fst]; [|by intros ?%elem_of_nil].
    destruct (topicsPass e pkg cfg _ _ src); cbn [negb fst]; [|by intros ?%elem_of_nil].
    intros Ho. exists cfg. split; [done|]. split; [|done]. split; [done|]. split; [done|]. split; [by apply Hsig, Hs1|by apply Ht1].
  - intros HT Hok ? [= <-] (-> & -> & Hq & Htop) Ho. cbn [andb negb].
    by rewrite Hs2, Ht2 by (done || by apply Hsig).
Qed.

(** ** The engine *)

Lemma Evaluate_cases e ctx req :
  ((Evaluate e ctx req = Err DeadlineExceeded ∨ Evaluate e ctx req = Ok (no_offers req)) ∨
   admitted e req ∧ ∃ active, on_offer e req active ∧
     Evaluate e ctx req = evaluate_candidates e ctx req (request_country req) active) ∧
  (ctx 0 = false → admitted e req → ∀ active, on_offer e req active →
     Evaluate e ctx req = evaluate_candidates e ctx req (request_country req) active).
Proof.
  unfold Evaluate, admitted, on_offer. fold (request_country req). set (country := request_country req).
  destruct (ctx 0); [by split; [left; left|]|].
  destruct (ContainsGlobal (properties e) (PropertyRID req)); cbn [negb]; [|split; [by left; right|naive_solver]].
  case_bool_decide as Hp; [split; [by left; right|naive_solver]|].
  destruct (negb (bool_decide (country = "")) && bool_decide (IsGeoSuppressed (storage e) (providerID e) country = Some true)) eqn:Hg.
  { apply andb_true_iff in Hg as [Hc%negb_true_iff%bool_decide_eq_false Hs%bool_decide_eq_true].
    split; [by left; right|naive_solver]. }
  assert (country = "" ∨ IsGeoSuppressed (storage e) (providerID e) country ≠ Some true) as Hgeo.
  { apply andb_false_iff in Hg as [Hc%negb_false_iff%bool_decide_eq_true|Hs%bool_decide_eq_false]; auto. }
  destruct (if bool_decide (SellerAgentURL req = "") then Ok "" else UrlCanon.Canonicalize (SellerAgentURL req)) as [seller|err];
    [|split; [by left; right|naive_solver]].
  destruct (ActivePackages _ _ _ _ _ _) as [active|] eqn:Ea.
  - split; [right; split; [done|]; exists active; split; [by exists seller|done]|].
    intros _ _ act (s & [= <-] & Hact). rewrite Ea in Hact. by injection Hact as <-.
  - split; [left; destruct (ctx 1); auto|]. intros _ _ act (s & [= <-] & Hact). congruence.
Qed.

Lemma evaluate_candidates_spec e ctx req store active :
  StorageSpec (storage e) store →
  let r := evaluate_candidates e ctx req (request_country req) active in
  r ≠ Err IndexOutOfRange ∧
  (∀ out o, r = Ok out → o ∈ result_Offers out →
     ∃ pkg cfg, pkg ∈ active ∧ requested req pkg ∧ ContextConfig (storage e) pkg = Some (Some cfg) ∧
       qualifies e store req pkg cfg ∧ o ∈ buildOffersFromContextConfig pkg cfg) ∧
  ((∀ n, ctx n = false) → StorageTotal (storage e) →
   (∀ configs, Forall2 (λ id c, ContextConfig (storage e) id = Some c) (candidateSet active (PackageIDs req)) configs →
      is_ok (PlanLookup (signal_profiles configs) (extractSignalLookupData e req (request_country req))) = true) →
   ∃ out, r = Ok out ∧ ∀ pkg cfg o, pkg ∈ active → requested req pkg → ContextConfig (storage e) pkg = Some (Some cfg) →
     qualifies e store req pkg cfg → o ∈ buildOffersFromContextConfig pkg cfg → o ∈ result_Offers out).
Proof.
  intros HS r. unfold r, evaluate_candidates. pose proof (candidateSet_spec active req) as Hcand.
  destruct (candidateSet active (PackageIDs req)) as [|id0 ids0] eqn:Ecs.
  { split; [done|]. split; [by intros out o [= <-] ?%elem_of_nil|]. intros _ _ _. exists (no_offers req). split; [done|].
    intros pkg cfg o Ha Hr. exfalso. by eapply not_elem_of_nil, Hcand. }
  set (ids := id0 :: ids0) in *. destruct (preload_spec e ctx 1 ids store HS) as [Hpre Hpret].
  destruct (preloadContextConfigs e ctx 1 ids) as [n configs]. cbn [snd] in *.
  set (data := if hasAnySignalProfile configs then _ else ∅).
  set (fetched := if hasAnySignalProfile configs then _ else Ok None).
  set (src := bool_decide _ || _).
  set (round := λ id cfg, offers_of e (PropertyRID req) id cfg data fetched _ _ src).
  destruct (eval_loop_spec ctx round ids n configs (Forall2_length _ _ _ Hpre)) as (Hidx & Hok & Hin).
  assert (∀ id c, c ∈ configs → ∀ o, _) as Hround
    by (intros id c Hc; exact (offers_of_spec e req id c data fetched store configs src HS Hc eq_refl eq_refl (have_source req))).
  split; [destruct (eval_loop ctx n ids configs round); cbn; congruence|]. split.
  - intros out o (res & Hres & [= <-])%bind_Ok Ho. cbn [result_Offers] in Ho.
    apply (Hin res Hres) in Ho as (i & id & c & Hi & Hc & Ho).
    destruct (Hround id c ltac:(by eapply list_elem_of_lookup_2) o) as [Hsound _]. destruct (Hsound Ho) as (cfg & -> & Hq & Hb).
    exists id, cfg. assert (id ∈ active ∧ requested req id) as [? ?] by (apply Hcand; by eapply list_elem_of_lookup_2).
    split; [done|]. split; [done|]. split; [|done].
    rewrite Forall2_lookup in Hpre. specialize (Hpre i). rewrite Hi, Hc in Hpre. inversion Hpre as [? ? [?|?]|]; subst; done.
  - intros Hctx HT Hplan. specialize (Hok Hctx). specialize (Hpret Hctx HT).
    destruct (eval_loop ctx n ids configs round) as [res|] eqn:Eloop; [|done]. cbn [mbind result_bind].
    eexists. split; [done|]. intros pkg cfg o Ha Hr Hcfg Hq Hb. cbn [result_Offers]. apply (Hin res eq_refl).
    assert (pkg ∈ ids) as (i & Hi)%list_elem_of_lookup_1 by (by apply Hcand).
    rewrite Forall2_lookup in Hpret. pose proof (Hpret i) as Hpi. rewrite Hi in Hpi. inversion Hpi as [? c Hc|]; subst.
    rewrite Hcfg in Hc. injection Hc as <-. exists i, pkg, (Some cfg). split; [done|]. split; [done|].
    destruct (Hround pkg (Some cfg) ltac:(by eapply list_elem_of_lookup_2) o) as [_ Hcomp]. eapply Hcomp; eauto.
    unfold fetched, data. destruct (hasAnySignalProfile configs); [|done].
    apply fetch_total; [done| |by exists store]. apply Hplan. by apply Forall2_lookup.
Qed.

(** C36: whatever lookups fail and whenever the deadline falls, the engine never
    indexes past its configurations, and every offer of its answer is for a
    package that the provider has active for the canonical seller, that was
    requested if the request names packages, that has a stored configuration,
    and that this request qualifies for on every dimension: properties,
    suppression, signals as the store has them, and topics. *)
Theorem offer_sound e ctx req store :
  StorageSpec (storage e) store →
  Evaluate e ctx req ≠ Err IndexOutOfRange ∧
  ∀ r o, Evaluate e ctx req = Ok r → o ∈ result_Offers r →
    admitted e req ∧
    ∃ active pkg cfg, on_offer e req active ∧ pkg ∈ active ∧ requested req pkg ∧
      ContextConfig (storage e) pkg = Some (Some cfg) ∧ qualifies e store req pkg cfg ∧
      o ∈ buildOffersFromContextConfig pkg cfg.
Proof.
  intros HS. destruct (Evaluate_cases e ctx req) as [[[-> | ->]|(Hadm & active & Hact & ->)] _].
  - done.
  - split; [done|]. by intros r o [= <-] ?%elem_of_nil.
  - destruct (evaluate_candidates_spec e ctx req store active HS) as (Hidx & Hs & _). split; [done|].
    intros r o Hr Ho. destruct (Hs r o Hr Ho) as (pkg & cfg & ?). split; [done|]. by exists active, pkg, cfg.
Qed.

(** when no lookup fails, the deadline does not fall and the plan of signal
    keys fits its cap, every offer of every qualifying package is in the
    answer. *)
Theorem offer_complete e ctx req store active :
  StorageSpec (storage e) store → StorageTotal (storage e) → (∀ n, ctx n = false) →
  admitted e req → on_offer e req active →
  (∀ configs, Forall2 (λ id c, ContextConfig (storage e) id = Some c) (candidateSet active (PackageIDs req)) configs →
     is_ok (PlanLookup (signal_profiles configs) (extractSignalLookupData e req (request_country req))) = true) →
  ∃ r, Evaluate e ctx req = Ok r ∧
    ∀ pkg cfg o, pkg ∈ active → requested req pkg → ContextConfig (storage e) pkg = Some (Some cfg) →
      qualifies e store req pkg cfg → o ∈ buildOffersFromContextConfig pkg cfg → o ∈ result_Offers r.
Proof.
  intros HS HT Hctx Hadm Hact Hplan. destruct (Evaluate_cases e ctx req) as [_ He].
  rewrite (He (Hctx 0) Hadm active Hact). destruct (evaluate_candidates_spec e ctx req store active HS) as (_ & _ & Hc).
  by apply Hc.
Qed.
End Spec.

(** ** A concrete engine *)

Module Toy.
Definition runtime : Runtime := {| SimpleFold := λ r, r; LowerRune := λ r, r; UpperRune := λ r, r; Sha256 := λ s, s |}.
Definition digest : Blake3 := {| blake3 := λ s, s |}.
#[local] Existing Instances runtime digest.

Definition store (k : string) : string := if bool_decide (k = "signal:42:country:US") then "7,9" else "".
Definition iab : Taxonomy := MkTaxonomy "iab" 7.
Definition no_price : OfferPrice := MkPrice (MkFloat false 0 (-1074)) "" "".
Definition us_only : Cfg := MkCfg "42" [KeyTypeCountry] "9".

Definition sports : PackageContextConfig :=
  MkPackage "p1" true ["site"] ["seg"] (Some (MkProfile [us_only] [])) [] "" no_price "sports" "" None None.

Definition backend : ContextStorage := {|
  IsPropertySuppressed := λ _ _, Some false;
  IsGeoSuppressed := λ _ _, Some false;
  ActivePackages := λ seller _ _ _ _, Some (if bool_decide (seller = "https://seller.example/agent") then ["p1"; "p2"] else []);
  ContextConfig := λ id, Some (if bool_decide (id = "p1") then Some sports else None);
  ContextConfigs := None;
  ArtifactTopics := λ _ _, Some [];
  PackageTopics := λ _ id, Some (if bool_decide (id = "p1") then ["483"] else []);
  SignalMGet := λ keys, Some (map store keys);
|}.

Definition engine : ContextEngine := MkEngine "prov" (MkPropertyList None None) backend 0 [iab].

Definition request : ContextMatchRequest :=
  MkRequest "r1" "site" "" "slot" "HTTPS://Seller.example:443/agent" [MkRef "url" "https://www.site.example/a?x=1"]
    [("country", JStr "US")] (Some (MkSignals ["483"] "iab" 7)) ["p1"; "p3"].

Lemma backend_spec : StorageSpec backend store.
Proof. split; [done|]. by intros keys vals [= <-]. Qed.

Lemma backend_total : StorageTotal backend.
Proof. split; intros; cbn; try done; eauto. Qed.

Definition answer : ContextResult :=
  MkContextResult "r1" [MkOffer "p1" "" None "sports" None None] ["seg"].

Example evaluated : Evaluate engine (λ _, false) request = Ok answer.
Proof. by vm_compute. Qed.

Lemma offer_sound_witness :
  Evaluate engine (λ _, false) request = Ok answer ∧
  topic_shared engine request "p1" ∧ signals_allow engine store request sports.
Proof.
  split; [by vm_compute|].
  destruct (proj2 (offer_sound engine (λ _, false) request store backend_spec) answer (MkOffer "p1" "" None "sports" None None))
    as (_ & active & pkg & cfg & _ & _ & _ & Hcfg & (_ & _ & Hs & Ht) & Ho); [by vm_compute|left|].
  assert (pkg = "p1") as ->.
  { revert Ho. unfold buildOffersFromContextConfig. case_bool_decide.
    - intros (o & Ho & _)%list_elem_of_In%in_map_iff. by injection Ho.
    - intros [= <-]%list_elem_of_singleton. done. }
  cbn in Hcfg. injection Hcfg as <-. split; [|done]. apply Ht; [done|]. right. eexists. split; [done|]. done.
Defined.

Lemma offer_complete_witness :
  ∃ r, Evaluate engine (λ _, false) request = Ok r ∧ MkOffer "p1" "" None "sports" None None ∈ result_Offers r.
Proof.
  destruct (offer_complete engine (λ _, false) request store ["p1"; "p2"] backend_spec backend_total) as (r & Hr & Hc).
  - done.
  - split; [done|]. split; [done|]. by right.
  - eexists. split; [vm_compute; reflexivity|]. reflexivity.
  - intros configs Hc. vm_compute in Hc. inversion Hc as [|? c ? cs Hc1 Hc2]; subst. injection Hc1 as <-.
    inversion Hc2; subst. by vm_compute.
  - exists r. split; [exact Hr|]. apply (Hc "p1" sports).
    + left.
    + right. left.
    + reflexivity.
    + split; [reflexivity|]. split; [reflexivity|]. split.
      * split; [constructor|]. right. exists [], us_only, []. split; [done|]. split; [by repeat constructor|].
        apply (bool_decide_unpack _). by vm_compute.
      * intros _. split; [done|]. intros _. exists iab, "483", ["483"]. split; [left|]. split; [done|]. split; [left|].
        left. eexists. split; [done|]. split; [done|]. left.
    + left.
Defined.
End Toy.
