(* ===== verification/TrustJson.v ===== *)
(** * TrustJson: trust records

    [src/adcp/v3/identity/types.go] and [trustjson.go]: the trust record of an
    organization, its schema, the rules a schema cannot express, and the reader
    [ValidateTrustRecord]. *)
From S2P Require Import Prelude GoStrings Unicode Json Float GoTime Regex NetUrl StrictJson JsonTypes SigTypes SigBase Origin Psl.
From stdpp Require Import options.

(** ** Types *)

(** [Profiles[T]]: the [adcp] namespace is typed, every other one is kept as it is. *)
Record Profiles (T : Type) := MkProfiles { Adcp : option T; Other : list (string * json) }.
Arguments MkProfiles {T}. Arguments Adcp {T}. Arguments Other {T}.

(** Slices are nil or a list; a map ([Ext]) is the object decoded, [JNull] when there is none. *)
Record AgentOnboardingRequirement := MkRequirement {
  RequirementKind : string;
  RequirementRole : string;
  VerificationModes : option (list string);
  VerifiedSpecialisms : option (list string);
  AdcpVersion : string;
  RequirementID : string;
  RequirementExt : json;
}.

Record BuyerOnboardingPosture := MkPosture {
  PostureMode : string;
  Requirements : option (list AgentOnboardingRequirement);
  PostureURL : string;
  PostureMessage : string;
  PostureExt : json;
}.

Record TrustAgentAdcpProfile := MkAgentProfile {
  AvailableUses : option (list string);
  RightTypes : option (list string);
  AgentOnboarding : option BuyerOnboardingPosture;
}.

Record TrustAgent := MkAgent {
  AgentURL : string;
  Roles : list string;
  Protocols : option (list string);
  AgentID : string;
  AgentDescription : string;
  AgentCountries : option (list string);
  AgentProfiles : option (Profiles TrustAgentAdcpProfile);
  AgentLastUpdated : string;
}.

Record TrustGrantAdcpProfile := MkGrantProfile { ProfileBrands : option (list string) }.

Record TrustGrant := MkGrant {
  Grantee : string;
  GrantAgents : option (list string);
  Scopes : list string;
  Countries : option (list string);
  ValidFrom : string;
  ValidUntil : string;
  GrantProfiles : option (Profiles TrustGrantAdcpProfile);
  GrantLastUpdated : string;
}.

(** [g.Profiles.Adcp.Brands], where each is there. *)
Definition Brands (g : TrustGrant) : option (list string) :=
  p ← GrantProfiles g; a ← Adcp p; ProfileBrands a.

Record TrustAcknowledgementAdcpProfile := MkAckProfile { DelegationType : string }.

Record TrustAcknowledgement := MkAck {
  Grantor : string;
  AckAgentURL : string;
  Via : string;
  AckProfiles : option (Profiles TrustAcknowledgementAdcpProfile);
  AckLastUpdated : string;
}.

Record DataSubjectContestation := MkContestation { ContestationURL : string; ContestationEmail : string; Languages : option (list string) }.
Record BrandReference := MkBrandReference {
  BrandDomain : string;
  BrandID : string;
  Industries : option (list string);
  Contestation : option DataSubjectContestation;
}.
Record IdentityRelyingParty := MkRelyingParty {
  RelyingIssuer : BrandReference;
  RelyingScheme : string;
  RelyingPartyID : string;
  RelyingScope : string;
}.

Record TrustRecordAdcpProfile := MkRecordProfile {
  IdentityRelyingParties : option (list IdentityRelyingParty);
  RecordOnboarding : option BuyerOnboardingPosture;
}.

Record TrustRecord := MkRecord {
  RecordSchema : string;
  AuthoritativeLocation : string;
  RecordVersion : string;
  RecordLastUpdated : string;
  Agents : list TrustAgent;
  Grants : list TrustGrant;
  ExclusiveGrants : option bool;
  Acknowledgements : list TrustAcknowledgement;
  AcknowledgementsURL : string;
  RecordProfiles : option (Profiles TrustRecordAdcpProfile);
  RecordExt : json;
}.

Inductive ValidationMode := Authoring | Reading.

Definition TrustRecordMaxBytes : Z := 2097152%Z.

Definition RoleBuying : string := "adcp:buying".
Definition ScopeAny : string := "*".
Definition ScopeAll : string := "adcp:all".
Definition ScopeMediaBuying : string := "adcp:media_buying".

Definition containsStr (l : list string) (s : string) : bool := bool_decide (s ∈ l).

(** ** Patterns *)

Definition lower_digit : re := RClass (λ c, between 97 122 c || is_digit c).
Definition lower_digit_dash : re := RClass (λ c, between 97 122 c || is_digit c || beq c "-").

(** "^(?:[a-z0-9](?:[a-z0-9-]{0,61}[a-z0-9])?\.)+[a-z]{2,63}$" *)
Definition domainPattern : re :=
  RSeq (RPlus (RSeq lower_digit (RSeq (ROpt (RSeq (RUpTo 61 lower_digit_dash) lower_digit)) (RChar "."))))
    (let az := RClass (between 97 122) in RSeq (RTimes 2 az) (RUpTo 61 az)).
(** "^[a-z0-9-]+:[a-z0-9_.-]+$" *)
Definition namespacedTokenPattern : re :=
  RSeq (RPlus lower_digit_dash)
    (RSeq (RChar ":")
       (RPlus (RClass (λ c, between 97 122 c || is_digit c || one_of ["_"; "."; "-"]%char c)))).
(** "^[A-Z]{2}$" *)
Definition countryPattern : re := RTimes 2 (RClass (between 65 90)).
(** "^[a-z0-9-]+$" *)
Definition profileKeyPattern : re := RPlus lower_digit_dash.
(** one or more of [a-z0-9_], or a star *)
Definition brandIDPattern : re :=
  RAlt (RPlus (RClass (λ c, between 97 122 c || is_digit c || beq c "_"))) (RChar "*").
(** labels of [a-z0-9-] that start and end in [a-z0-9], joined by dots *)
Definition brandRefDomainPattern : re :=
  let label := RSeq lower_digit (ROpt (RSeq (RStar lower_digit_dash) lower_digit)) in
  RSeq label (RStar (RSeq (RChar ".") label)).

Definition adcpRoles : list string :=
  ["adcp:brand"; "adcp:rights"; "adcp:measurement"; "adcp:governance"; "adcp:creative"; "adcp:sales"; RoleBuying;
   "adcp:signals"].
Definition adcpScopes : list string :=
  [ScopeAll; ScopeMediaBuying; "adcp:creative_generation"; "adcp:rights_clearance"; "adcp:governance";
   "adcp:measurement"; "adcp:agent_operations"; "adcp:brand_identity"].
Definition adcpGrantSources : list string := ["adcp:adagents"; "adcp:trust"].

Definition KnownRequirementKind (k : string) : bool :=
  containsStr ["grant"; "billing_entity"; "contract"; "credit_application"; "aao_verified"; "storyboard"; "sandbox";
               "experimental_feature"] k.
Definition IsKnownRightUse (s : string) : bool :=
  containsStr ["likeness"; "voice"; "name"; "endorsement"; "motion_capture"; "signature"; "catchphrase"; "sync";
               "background_music"; "editorial"; "commercial"; "ai_generated_image"] s.
Definition IsKnownRightType (s : string) : bool :=
  containsStr ["talent"; "character"; "brand_ip"; "music"; "stock_media"] s.

(** ** The schema

    Each function of the validator is a test: whether it leaves [v.err] unset.  A
    failure is never undone, so the conjunction of the tests is the verdict, in
    whatever order Go visits the members of a map. *)

Definition vobject (x : json) (allowed : option (list string)) (required : list string)
    (body : list (string * json) → bool) : bool :=
  match x with
  | JObj m =>
      match allowed with Some a => forallb (λ kv, containsStr a kv.1) m | None => true end &&
      forallb (λ k, match obj_get k m with Some _ => true | None => false end) required && body m
  | _ => false
  end.

Definition vstr (x : json) (body : string → bool) : bool := match x with JStr s => body s | _ => false end.
Definition any_string (s : string) : bool := true.

(** A member that may be missing. *)
Definition vopt (m : list (string * json)) (key : string) (body : json → bool) : bool :=
  match obj_get key m with Some x => body x | None => true end.
(** A required member: a missing one reads as nil. *)
Definition vreq (m : list (string * json)) (key : string) (body : json → bool) : bool :=
  body (default JNull (obj_get key m)).

Definition optStr (m : list (string * json)) (key : string) : bool := vopt m key (λ x, vstr x any_string).

Definition dateTime (m : list (string * json)) (key : string) : bool :=
  vopt m key (λ x, vstr x (λ s, match ParseRFC3339Nano s with Some _ => true | None => false end)).

Definition vuri (x : json) : bool :=
  vstr x (λ s, match ParseURL s with Some u => negb (bool_decide (URLScheme u = "")) | None => false end).

Definition httpsURL (x : json) : bool :=
  vstr x (λ s, HasPrefix s "https://" &&
               match ParseURL s with Some u => negb (bool_decide (URLHost u = "")) | None => false end).

Definition varray (x : json) (minItems : nat) (body : list json → bool) : bool :=
  match x with JArr a => (minItems <=? length a)%nat && body a | _ => false end.

(** Items that are not strings fail on their own, so uniqueness is one of
    strings. *)
Definition stringArray (m : list (string * json)) (key : string) (minItems : nat) (unique : bool)
    (check : string → bool) : bool :=
  vopt m key (λ x, varray x minItems (λ a,
    (if unique then bool_decide (NoDup (omap (λ e, match e with JStr s => Some s | _ => None end) a)) else true) &&
    forallb (λ e, vstr e check) a)).

Definition maxLength (n : nat) (s : string) : bool := (length (runes s) <=? n)%nat.
Definition boundedStr (m : list (string * json)) (key : string) (n : nat) : bool :=
  vopt m key (λ x, vstr x (maxLength n)).
Definition maxItems (m : list (string * json)) (key : string) (n : nat) : bool :=
  vopt m key (λ x, match x with JArr a => (length a <=? n)%nat | _ => true end).

Definition namespaced (adcpValues : list string) (allowStar : bool) (s : string) : bool :=
  (allowStar && bool_decide (s = "*")) || containsStr adcpValues s ||
  (MatchString namespacedTokenPattern s && negb (HasPrefix s "adcp:")).

Definition is_object (x : json) : bool := match x with JObj _ => true | _ => false end.

Definition requirement (mode : ValidationMode) (x : json) : bool :=
  vobject x None ["kind"] (λ m, vreq m "kind" (λ k, vstr k (λ kind,
    if negb (KnownRequirementKind kind) then match mode with Authoring => false | Reading => true end else
    let needs key := match obj_get key m with Some _ => true | None => false end in
    (if bool_decide (kind = "aao_verified") then needs "role" else true) &&
    (if containsStr ["storyboard"; "experimental_feature"] kind then needs "id" else true) &&
    boundedStr m "role" 128 &&
    stringArray m "verification_modes" 1 false (maxLength 128) && maxItems m "verification_modes" 32 &&
    stringArray m "verified_specialisms" 1 false (maxLength 128) && maxItems m "verified_specialisms" 32 &&
    boundedStr m "adcp_version" 32 && boundedStr m "id" 128 && vopt m "ext" is_object))).

Definition buyerPosture (mode : ValidationMode) (x : json) : bool :=
  vobject x None ["mode"] (λ m,
    vreq m "mode" (λ k, vstr k (containsStr ["open"; "application"; "invite_only"])) &&
    vopt m "requirements" (λ r, varray r 0 (forallb (requirement mode))) &&
    vopt m "url" vuri && optStr m "message" && vopt m "ext" is_object).

Definition relyingParty (x : json) : bool :=
  vobject x (Some ["issuer"; "scheme"; "relying_party_id"; "scope"]) ["issuer"; "relying_party_id"] (λ m,
    vreq m "issuer" (λ i, vobject i None ["domain"] (λ im,
      vreq im "domain" (λ d, vstr d (MatchString brandRefDomainPattern)))) &&
    optStr m "scheme" && vreq m "relying_party_id" (λ x, vstr x any_string) &&
    vopt m "scope" (λ s, vstr s (containsStr ["entity"; "property"]))).

(** [profiles]: an open object of namespaces; [body] tests its [adcp] member. *)
Definition vprofiles (x : json) (body : json → bool) : bool :=
  vobject x None [] (λ m,
    forallb (λ kv, MatchString profileKeyPattern kv.1 && is_object kv.2) m && vopt m "adcp" body).

Definition vagent (mode : ValidationMode) (x : json) : bool :=
  vobject x (Some ["url"; "roles"; "protocols"; "id"; "description"; "countries"; "profiles"; "last_updated"])
    ["url"; "roles"] (λ m,
    vreq m "url" httpsURL && stringArray m "roles" 1 true (namespaced adcpRoles false) &&
    stringArray m "protocols" 0 true (containsStr ["mcp"; "a2a"]) && optStr m "id" && optStr m "description" &&
    stringArray m "countries" 0 false (MatchString countryPattern) && dateTime m "last_updated" &&
    vopt m "profiles" (λ x, vprofiles x (λ a,
      vobject a (Some ["available_uses"; "right_types"; "onboarding"]) [] (λ p,
        stringArray p "available_uses" 1 false IsKnownRightUse &&
        stringArray p "right_types" 1 false IsKnownRightType && vopt p "onboarding" (buyerPosture mode))))).

Definition dns_name (s : string) : bool := (len s <=? 253)%nat && MatchString domainPattern s.

Definition vgrant (x : json) : bool :=
  vobject x (Some ["grantee"; "agents"; "scopes"; "countries"; "valid_from"; "valid_until"; "profiles"; "last_updated"])
    ["grantee"; "scopes"] (λ m,
    vreq m "grantee" (λ g, vstr g dns_name) &&
    vopt m "agents" (λ a, varray a 1 (forallb (λ e, vobject e (Some ["url"]) ["url"] (λ em, vreq em "url" httpsURL)))) &&
    stringArray m "scopes" 1 true (namespaced adcpScopes true) &&
    stringArray m "countries" 0 false (MatchString countryPattern) &&
    dateTime m "valid_from" && dateTime m "valid_until" && dateTime m "last_updated" &&
    vopt m "profiles" (λ x, vprofiles x (λ a,
      vobject a (Some ["brands"]) [] (λ p, stringArray p "brands" 1 false (MatchString brandIDPattern))))).

Definition vacknowledgement (x : json) : bool :=
  vobject x (Some ["grantor"; "agent_url"; "via"; "profiles"; "last_updated"]) ["grantor"; "agent_url"; "via"] (λ m,
    vreq m "grantor" (λ g, vstr g dns_name) && vreq m "agent_url" httpsURL &&
    vreq m "via" (λ s, vstr s (namespaced adcpGrantSources false)) && dateTime m "last_updated" &&
    vopt m "profiles" (λ x, vprofiles x (λ a,
      vobject a (Some ["delegation_type"]) [] (λ p,
        vopt p "delegation_type" (λ d, vstr d (containsStr ["direct"; "delegated"; "ad_network"])))))).

Definition present (m : list (string * json)) (key : string) : bool :=
  match obj_get key m with Some _ => true | None => false end.

(** The members of a pointer to a record elsewhere; what a record must and may
    say, and its members. *)
Definition pointer_members (m : list (string * json)) : bool :=
  optStr m "$schema" && vreq m "authoritative_location" httpsURL && dateTime m "last_updated".

Definition says (m : list (string * json)) : bool :=
  existsb (present m) ["agents"; "grants"; "acknowledgements"; "acknowledgements_url"; "profiles"] &&
  negb (present m "acknowledgements" && present m "acknowledgements_url").

Definition record_members (mode : ValidationMode) (m : list (string * json)) : bool :=
  optStr m "$schema" && optStr m "version" && dateTime m "last_updated" &&
  vopt m "agents" (λ x, varray x 0 (forallb (vagent mode))) &&
  vopt m "grants" (λ x, varray x 0 (forallb vgrant)) &&
  vopt m "exclusive_grants" (λ x, match x with JBool _ => true | _ => false end) &&
  vopt m "acknowledgements" (λ x, varray x 0 (forallb vacknowledgement)) &&
  vopt m "acknowledgements_url" httpsURL &&
  vopt m "profiles" (λ x, vprofiles x (λ a,
    vobject a (Some ["identity_relying_parties"; "onboarding"]) [] (λ p,
      vopt p "identity_relying_parties" (λ r, varray r 0 (forallb relyingParty)) &&
      vopt p "onboarding" (buyerPosture mode)))) &&
  vopt m "ext" (λ x, vobject x None [] (λ e, forallb (λ kv, is_object kv.2) e)).

Definition vrecord (mode : ValidationMode) (x : json) : bool :=
  match x with
  | JObj m =>
      if present m "authoritative_location" then
        vobject x (Some ["$schema"; "authoritative_location"; "last_updated"]) ["authoritative_location"] pointer_members
      else
        vobject x (Some ["$schema"; "version"; "last_updated"; "agents"; "grants"; "exclusive_grants";
                         "acknowledgements"; "acknowledgements_url"; "profiles"; "ext"]) []
          (λ m, says m && record_members mode m)
  | _ => false
  end.

(** What the validator leaves of the document: of a requirement of an unknown
    kind only the kind. *)
Definition update (key : string) (f : json → json) (x : json) : json :=
  match x with JObj m => JObj (map (λ kv, if bool_decide (kv.1 = key) then (key, f kv.2) else kv) m) | _ => x end.
Definition each (f : json → json) (x : json) : json := match x with JArr a => JArr (map f a) | _ => x end.

Definition trim_requirement (x : json) : json :=
  match x with
  | JObj m =>
      match obj_get "kind" m with
      | Some (JStr k) => if KnownRequirementKind k then x
                         else JObj (List.filter (λ kv, bool_decide (kv.1 = "kind")) m)
      | _ => x
      end
  | _ => x
  end.
Definition trim_profiles : json → json :=
  update "profiles" (update "adcp" (update "onboarding" (update "requirements" (each trim_requirement)))).
Definition trim (x : json) : json := trim_profiles (update "agents" (each trim_profiles) x).

(** A reader unmarshals what is left. *)
Definition kept (mode : ValidationMode) (tree : json) : json := match mode with Reading => trim tree | Authoring => tree end.

(** ** The Go types *)

Definition StringSlice : gtype := TSlice TString.

Definition RequirementType : gtype :=
  TStruct [("kind", TString); ("role", TString); ("verification_modes", StringSlice);
           ("verified_specialisms", StringSlice); ("adcp_version", TString); ("id", TString); ("ext", TMap TAny)].
Definition PostureType : gtype :=
  TStruct [("mode", TString); ("requirements", TSlice RequirementType); ("url", TString); ("message", TString);
           ("ext", TMap TAny)].
Definition AgentType : gtype :=
  TStruct [("url", TString); ("roles", StringSlice); ("protocols", StringSlice); ("id", TString);
           ("description", TString); ("countries", StringSlice);
           ("profiles", TProfiles (TStruct [("available_uses", StringSlice); ("right_types", StringSlice);
                                            ("onboarding", PostureType)]));
           ("last_updated", TString)].
Definition GrantType : gtype :=
  TStruct [("grantee", TString); ("agents", TSlice (TStruct [("url", TString)])); ("scopes", StringSlice);
           ("countries", StringSlice); ("valid_from", TString); ("valid_until", TString);
           ("profiles", TProfiles (TStruct [("brands", StringSlice)])); ("last_updated", TString)].
Definition AckType : gtype :=
  TStruct [("grantor", TString); ("agent_url", TString); ("via", TString);
           ("profiles", TProfiles (TStruct [("delegation_type", TString)])); ("last_updated", TString)].
Definition BrandReferenceType : gtype :=
  TStruct [("domain", TString); ("brand_id", TString); ("industries", StringSlice);
           ("data_subject_contestation",
              TStruct [("url", TString); ("email", TString); ("languages", StringSlice)])].
Definition RelyingPartyType : gtype :=
  TStruct [("issuer", BrandReferenceType); ("scheme", TString); ("relying_party_id", TString); ("scope", TString)].
Definition RecordType : gtype :=
  TStruct [("$schema", TString); ("authoritative_location", TString); ("version", TString); ("last_updated", TString);
           ("agents", TSlice AgentType); ("grants", TSlice GrantType); ("exclusive_grants", TBool);
           ("acknowledgements", TSlice AckType); ("acknowledgements_url", TString);
           ("profiles", TProfiles (TStruct [("identity_relying_parties", TSlice RelyingPartyType);
                                            ("onboarding", PostureType)]));
           ("ext", TMap (TMap TAny))].

Section TrustJson.
Context `{RT : Runtime} `{PSL : PublicSuffixList}.

(** ** Decoding *)

Definition fields_of (t : gtype) : list string := match t with TStruct fs => map fst fs | _ => [] end.

(** Field [name] of a struct of type [t]. *)
Definition member (t : gtype) (name : string) (x : json) : json := field name (fields_of t) (get_members x).

Definition get_strings (x : json) : option (list string) := map get_string <$> get_list x.

(** A pointer to a struct. *)
Definition decode_opt {A} (dec : json → A) (x : json) : option A := match x with JNull => None | _ => Some (dec x) end.

Definition decode_profiles {T} (dec : json → T) (x : json) : option (Profiles T) :=
  decode_opt (λ x, MkProfiles (dec <$> obj_get "adcp" (get_members x))
                     (List.filter (λ kv, negb (bool_decide (kv.1 = "adcp"))) (get_members x))) x.

Definition decode_requirement (x : json) : AgentOnboardingRequirement :=
  let f name := member RequirementType name x in
  MkRequirement (get_string (f "kind")) (get_string (f "role")) (get_strings (f "verification_modes"))
    (get_strings (f "verified_specialisms")) (get_string (f "adcp_version")) (get_string (f "id")) (f "ext").

Definition decode_posture (x : json) : BuyerOnboardingPosture :=
  let f name := member PostureType name x in
  MkPosture (get_string (f "mode")) (map decode_requirement <$> get_list (f "requirements")) (get_string (f "url"))
    (get_string (f "message")) (f "ext").

Definition AgentProfileType : gtype :=
  TStruct [("available_uses", StringSlice); ("right_types", StringSlice); ("onboarding", PostureType)].
Definition GrantProfileType : gtype := TStruct [("brands", StringSlice)].
Definition AckProfileType : gtype := TStruct [("delegation_type", TString)].
Definition RecordProfileType : gtype :=
  TStruct [("identity_relying_parties", TSlice RelyingPartyType); ("onboarding", PostureType)].
Definition ContestationType : gtype := TStruct [("url", TString); ("email", TString); ("languages", StringSlice)].

Definition decode_agent (x : json) : TrustAgent :=
  let f name := member AgentType name x in
  MkAgent (get_string (f "url")) (default [] (get_strings (f "roles"))) (get_strings (f "protocols")) (get_string (f "id"))
    (get_string (f "description")) (get_strings (f "countries"))
    (decode_profiles (λ a, let g name := member AgentProfileType name a in
       MkAgentProfile (get_strings (g "available_uses")) (get_strings (g "right_types")) (decode_opt decode_posture (g "onboarding")))
       (f "profiles"))
    (get_string (f "last_updated")).

Definition decode_grant (x : json) : TrustGrant :=
  let f name := member GrantType name x in
  MkGrant (get_string (f "grantee"))
    (map (λ a, get_string (member (TStruct [("url", TString)]) "url" a)) <$> get_list (f "agents"))
    (default [] (get_strings (f "scopes"))) (get_strings (f "countries"))
    (get_string (f "valid_from")) (get_string (f "valid_until"))
    (decode_profiles (λ a, MkGrantProfile (get_strings (member GrantProfileType "brands" a))) (f "profiles"))
    (get_string (f "last_updated")).

Definition decode_ack (x : json) : TrustAcknowledgement :=
  let f name := member AckType name x in
  MkAck (get_string (f "grantor")) (get_string (f "agent_url")) (get_string (f "via"))
    (decode_profiles (λ a, MkAckProfile (get_string (member AckProfileType "delegation_type" a))) (f "profiles"))
    (get_string (f "last_updated")).

Definition decode_contestation (x : json) : DataSubjectContestation :=
  let f name := member ContestationType name x in
  MkContestation (get_string (f "url")) (get_string (f "email")) (get_strings (f "languages")).

Definition decode_brand (x : json) : BrandReference :=
  let f name := member BrandReferenceType name x in
  MkBrandReference (get_string (f "domain")) (get_string (f "brand_id")) (get_strings (f "industries"))
    (decode_opt decode_contestation (f "data_subject_contestation")).

Definition decode_relying_party (x : json) : IdentityRelyingParty :=
  let f name := member RelyingPartyType name x in
  MkRelyingParty (decode_brand (f "issuer")) (get_string (f "scheme")) (get_string (f "relying_party_id")) (get_string (f "scope")).

Definition decode_record (x : json) : TrustRecord :=
  let f name := member RecordType name x in
  MkRecord (get_string (f "$schema")) (get_string (f "authoritative_location")) (get_string (f "version"))
    (get_string (f "last_updated"))
    (map decode_agent (default [] (get_list (f "agents"))))
    (map decode_grant (default [] (get_list (f "grants"))))
    (get_bool (f "exclusive_grants"))
    (map decode_ack (default [] (get_list (f "acknowledgements"))))
    (get_string (f "acknowledgements_url"))
    (decode_profiles (λ a, let g name := member RecordProfileType name a in
       MkRecordProfile (map decode_relying_party <$> get_list (g "identity_relying_parties")) (decode_opt decode_posture (g "onboarding")))
       (f "profiles"))
    (f "ext").

(** ** The rules beyond the schema *)

Definition isRegistrableDomain (name : string) : bool := bool_decide (RegistrableDomain name = Some name).

Inductive rule_error :=
  | OwnerHasNoDomain
  | AgentUserinfo (i : nat)
  | AgentNoOrigin (i : nat)
  | AgentDuplicateOrigin (i : nat)
  | AgentForeignOrigin (i : nat)
  | AckUnknownAgent (i : nat)
  | GranteeNotRegistrable (i : nat)
  | GrantAgentNoOrigin (i j : nat).

(** The agents loop: [origins] holds those seen, [operator] is empty without an
    owner. *)
Fixpoint check_agents (operator : string) (i : nat) (agents : list TrustAgent) (origins : list string) :
    result rule_error (list string) :=
  match agents with
  | [] => Ok origins
  | a :: agents' =>
      match ParseURL (AgentURL a) with
      | Some u => if negb (bool_decide (URLUser u = None)) then Err (AgentUserinfo i) else
          match CanonicalOrigin (AgentURL a) with
          | None => Err (AgentNoOrigin i)
          | Some origin =>
              if containsStr origins origin then Err (AgentDuplicateOrigin i) else
              if negb (bool_decide (operator = "")) &&
                 (negb (bool_decide (RegistrableDomain origin = Some operator)) || negb (HasPrefix origin "https://"))
              then Err (AgentForeignOrigin i)
              else check_agents operator (S i) agents' (origin :: origins)
          end
      | None => Err (AgentUserinfo i)
      end
  end.

(** The first item a test refuses. *)
Fixpoint check_each {A} (test : nat → A → result rule_error unit) (i : nat) (l : list A) : result rule_error unit :=
  match l with
  | [] => Ok tt
  | x :: l' => _ ← test i x; check_each test (S i) l'
  end.

Definition check_ack (origins : list string) (i : nat) (a : TrustAcknowledgement) : result rule_error unit :=
  match CanonicalOrigin (AckAgentURL a) with
  | Some o => guard_err (containsStr origins o) (AckUnknownAgent i)
  | None => Err (AckUnknownAgent i)
  end.

Definition check_grant (operator : string) (mode : ValidationMode) (i : nat) (g : TrustGrant) : result rule_error unit :=
  _ ← guard_err (negb (negb (bool_decide (operator = "")) &&
                       match mode with Authoring => negb (isRegistrableDomain (Grantee g)) | Reading => false end))
        (GranteeNotRegistrable i);
  check_each (λ j u, guard_err (match CanonicalOrigin u with Some _ => true | None => false end) (GrantAgentNoOrigin i j))
    0 (default [] (GrantAgents g)).

Definition checkRules (r : TrustRecord) (owner : string) (mode : ValidationMode) : result rule_error unit :=
  if negb (bool_decide (AuthoritativeLocation r = "")) then Ok tt else
  operator ← (if bool_decide (owner = "") then Ok "" else opt_err OwnerHasNoDomain (RegistrableDomain owner));
  origins ← check_agents operator 0 (Agents r) [];
  _ ← check_each (check_ack origins) 0 (Acknowledgements r);
  check_each (check_grant operator mode) 0 (Grants r).

(** ** The reader *)

Inductive ErrInvalidTrustRecord :=
  | RecordTooLarge
  | NotStrictJSON (e : invalid)
  | SchemaViolation
  | UnmarshalFailed
  | RuleViolation (e : rule_error).

Definition ValidateTrustRecord (data : string) (mode : ValidationMode) (owner : string) :
    result ErrInvalidTrustRecord TrustRecord :=
  if (TrustRecordMaxBytes <? zlen data)%Z then Err RecordTooLarge else
  match Validate data 0 with
  | Err e => Err (NotStrictJSON e)
  | Ok _ =>
      tree ← opt_err (NotStrictJSON NotValidJSON) (json_decode data);
      _ ← guard_err (vrecord mode tree) SchemaViolation;
      let tree := kept mode tree in
      _ ← guard_err (fits tree RecordType) UnmarshalFailed;
      let rec := decode_record tree in
      match checkRules rec owner mode with Ok _ => Ok rec | Err e => Err (RuleViolation e) end
  end.

(** [TrustRecord.Agent]: the one entry of the origin, if it carries the role. *)
Definition Agent (r : TrustRecord) (origin role : string) : option TrustAgent :=
  want ← CanonicalOrigin origin;
  match List.filter (λ a, bool_decide (CanonicalOrigin (AgentURL a) = Some want)) (Agents r) with
  | [a] => if containsStr (Roles a) role then Some a else None
  | _ => None
  end.

End TrustJson.
