(* ===== verification/TrustWf.v ===== *)
(** * TrustWf: what a readable trust record satisfies

    The schema of a trust record, written out from [trust/v1/trust.json] and the
    schemas it refers to, which the validator decides ([vrecord_schema]); the
    well-formedness that [ValidateTrustRecord] establishes, and the lookup of an
    agent in such a record. *)
From S2P Require Import Prelude GoStrings Unicode Json Float GoTime Regex NetUrl StrictJson JsonTypes SigTypes SigBase Origin Psl TrustJson.
From stdpp Require Import options.

(** ** Fields of validated objects *)

Section Fields.
Context `{RT : Runtime}.

Lemma find_field_exact k names : k ∈ names → (i ← find_field k names; names !! i) = Some k.
Proof.
  intros Hk. unfold find_field.
  destruct (list_find (λ n, n = k) names) as [[i n]|] eqn:E.
  - apply list_find_Some in E as (Hi & -> & _). done.
  - apply list_find_None in E. rewrite Forall_forall in E. by destruct (E k Hk).
Qed.

(** In an object whose keys are names of fields, a field is the member of its
    name. *)
Lemma field_obj_get name names m :
  forallb (λ kv, containsStr names kv.1) m = true →
  (∀ v, obj_get name m = Some v → v ≠ JNull) →
  field name names m = default JNull (obj_get name m).
Proof.
  induction m as [|[k v] m IH]; intros Hk Hn; [done|].
  cbn [forallb fst] in Hk. apply andb_true_iff in Hk as [Hk Hm].
  unfold containsStr in Hk. apply bool_decide_eq_true in Hk.
  cbn [field obj_get] in *. rewrite find_field_exact by done.
  destruct (obj_get name m) as [w|] eqn:E.
  - assert (w ≠ JNull) as Hw by (by apply Hn). rewrite IH; [|done|by intros ? [= <-]].
    cbn. by destruct w.
  - rewrite IH by done. cbn. destruct (decide (k = name)) as [->|Hne].
    + by rewrite !bool_decide_eq_true_2.
    + rewrite !bool_decide_eq_false_2; [done|done|congruence].
Qed.

End Fields.

Lemma vobject_inv x allowed required body :
  vobject x allowed required body = true →
  ∃ m, x = JObj m ∧ body m = true ∧
    (∀ a, allowed = Some a → forallb (λ kv, containsStr a kv.1) m = true) ∧
    (∀ k, k ∈ required → is_Some (obj_get k m)).
Proof.
  destruct x; try done. cbn. intros H. bool_prop. eexists. split_and!; [done|done| |].
  - intros a ->. done.
  - intros k Hk. match goal with H : forallb _ required = true |- _ => apply forallb_forall_Forall in H; rewrite Forall_forall in H; specialize (H k Hk) end.
    destruct (obj_get k l); [by eexists|done].
Qed.

Lemma vstr_inv x body : vstr x body = true → ∃ s, x = JStr s ∧ body s = true.
Proof. destruct x; try done. eauto. Qed.

Lemma varray_inv x n body : varray x n body = true → ∃ l, x = JArr l ∧ n ≤ length l ∧ body l = true.
Proof. destruct x; try done. cbn. intros H. bool_prop. eauto. Qed.

(** An array of strings as it is decoded. *)
Lemma stringArray_inv m key n unique check :
  stringArray m key n unique check = true →
  match obj_get key m with
  | None => True
  | Some x => ∃ l, x = JArr (map JStr l) ∧ n ≤ length l ∧ (unique = true → NoDup l) ∧ Forall (λ s, check s = true) l
  end.
Proof.
  unfold stringArray, vopt. destruct (obj_get key m) as [x|]; [|done].
  intros (l & -> & Hn & Hl)%varray_inv. bool_prop.
  assert (∃ ss, l = map JStr ss ∧ Forall (λ s, check s = true) ss) as (ss & -> & Hss).
  { match goal with H : forallb _ l = true |- _ => revert H end. clear.
    induction l as [|x l IH]; cbn; [by exists []|]. intros [(s & -> & Hs)%vstr_inv H]%andb_true_iff.
    destruct (IH H) as (ss & -> & Hss). exists (s :: ss). by split; [|constructor]. }
  exists ss. split_and!; [done|by rewrite length_map in Hn| |done].
  intros ->. match goal with H : bool_decide _ = true |- _ => apply bool_decide_eq_true in H; revert H end.
  assert (∀ l, omap (λ e, match e with JStr s => Some s | _ => None end) (map JStr l) = l) as Ho.
  { clear. induction l as [|s l IH]; cbn; [done|]. by f_equal. }
  by rewrite Ho.
Qed.

Lemma get_strings_JStr l : get_strings (JArr (map JStr l)) = Some l.
Proof. unfold get_strings. cbn. f_equal. induction l; cbn; [done|]. by f_equal. Qed.

(** ** Well-formed records *)

Definition https_url (s : string) : bool :=
  HasPrefix s "https://" && match ParseURL s with Some u => negb (bool_decide (URLHost u = "")) | None => false end.

Definition timestamp (s : string) : Prop := s = "" ∨ is_Some (ParseRFC3339Nano s).

Definition nonempty_tokens (values : list string) (star : bool) (l : list string) : Prop :=
  l ≠ [] ∧ NoDup l ∧ Forall (λ s, namespaced values star s = true) l.

(** An agent entry: an https URL and distinct role tokens. *)
Definition wf_agent (a : TrustAgent) : Prop :=
  https_url (AgentURL a) = true ∧ nonempty_tokens adcpRoles false (Roles a).

(** A grant: a DNS name as grantee, distinct scope tokens, https agents,
    country codes, brand ids and timestamps. *)
Definition wf_grant (g : TrustGrant) : Prop :=
  dns_name (Grantee g) = true ∧ nonempty_tokens adcpScopes true (Scopes g) ∧
  (∀ l, GrantAgents g = Some l → l ≠ [] ∧ Forall (λ u, https_url u = true) l) ∧
  (∀ l, Countries g = Some l → Forall (λ c, MatchString countryPattern c = true) l) ∧
  timestamp (ValidFrom g) ∧ timestamp (ValidUntil g) ∧
  (∀ l, Brands g = Some l → l ≠ [] ∧ Forall (λ b, MatchString brandIDPattern b = true) l).

Definition wf_ack (a : TrustAcknowledgement) : Prop :=
  dns_name (Grantor a) = true ∧ https_url (AckAgentURL a) = true ∧ namespaced adcpGrantSources false (Via a) = true.

Section Wf.
Context `{RT : Runtime}.

(** Reading a required or an optional member of a validated struct. *)
Lemma member_get t name m :
  forallb (λ kv, containsStr (fields_of t) kv.1) m = true →
  (∀ v, obj_get name m = Some v → v ≠ JNull) →
  member t name (JObj m) = default JNull (obj_get name m).
Proof. apply field_obj_get. Qed.

Lemma vreq_https m key : vreq m key httpsURL = true → ∃ s, obj_get key m = Some (JStr s) ∧ https_url s = true.
Proof.
  unfold vreq. destruct (obj_get key m) as [x|]; [|done]. intros H.
  change (httpsURL x = true) in H. apply vstr_inv in H as (s & -> & H). eauto.
Qed.

Lemma dateTime_inv m key :
  dateTime m key = true →
  match obj_get key m with None => True | Some x => ∃ s, x = JStr s ∧ is_Some (ParseRFC3339Nano s) end.
Proof.
  unfold dateTime, vopt. destruct (obj_get key m) as [x|]; [|done].
  intros (s & -> & H)%vstr_inv. exists s. split; [done|]. by destruct (ParseRFC3339Nano s).
Qed.

(** A member that is present is not [null], in the three forms it is known. *)
Lemma not_null_strs (o : option json) (P : list string → Prop) :
  match o with None => True | Some x => ∃ l, x = JArr (map JStr l) ∧ P l end → ∀ v, o = Some v → v ≠ JNull.
Proof. intros H v ->. by destruct H as (l & -> & _). Qed.

Lemma not_null_str (o : option json) (P : string → Prop) :
  match o with None => True | Some x => ∃ s, x = JStr s ∧ P s end → ∀ v, o = Some v → v ≠ JNull.
Proof. intros H v ->. by destruct H as (l & -> & _). Qed.

Lemma not_null_some (w : json) : w ≠ JNull → ∀ v, Some w = Some v → v ≠ JNull.
Proof. by intros ? ? [= <-]. Qed.

Definition agent_names : list string :=
  ["url"; "roles"; "protocols"; "id"; "description"; "countries"; "profiles"; "last_updated"].

Lemma vagent_wf mode x : vagent mode x = true → wf_agent (decode_agent x).
Proof.
  intros (m & -> & Hb & Hk & Hreq)%vobject_inv. specialize (Hk _ eq_refl). bool_prop.
  match goal with H : vreq m "url" _ = true |- _ => apply vreq_https in H as (u & Hu & Hhttps) end.
  match goal with H : stringArray m "roles" _ _ _ = true |- _ => apply stringArray_inv in H; rename H into Hr end.
  unfold wf_agent, decode_agent. cbv zeta. cbn [AgentURL Roles]. rewrite (member_get AgentType "url"), (member_get AgentType "roles") by
    first [exact Hk | rewrite Hu; by apply not_null_some | eapply not_null_strs, Hr].
  rewrite Hu. destruct (Hreq "roles" ltac:(set_solver)) as [r Er]. rewrite Er in *.
  destruct Hr as (l & -> & Hn & Hd & Hf). unfold default, id. rewrite get_strings_JStr.
  split; [done|]. split_and!; [by destruct l; [cbn in Hn; lia|]|by apply Hd|done].
Qed.

Lemma vprofiles_inv m key body :
  vopt m key (λ x, vprofiles x body) = true →
  match obj_get key m with
  | None => True
  | Some x => ∃ pm, x = JObj pm ∧ match obj_get "adcp" pm with None => True | Some a => body a = true end
  end.
Proof.
  unfold vopt. destruct (obj_get key m) as [x|]; [|done].
  intros (pm & -> & Hb & _)%vobject_inv. exists pm. split; [done|]. bool_prop. unfold vopt in *.
  by destruct (obj_get "adcp" pm).
Qed.

Lemma granted_agents m :
  vopt m "agents" (λ a, varray a 1 (forallb (λ e, vobject e (Some ["url"]) ["url"] (λ em, vreq em "url" httpsURL))))
  = true →
  match obj_get "agents" m with
  | None => True
  | Some x => ∃ l, x = JArr l ∧ l ≠ [] ∧
      Forall (λ u, https_url u = true) (map (λ a, get_string (member (TStruct [("url", TString)]) "url" a)) l)
  end.
Proof.
  unfold vopt. destruct (obj_get "agents" m) as [x|]; [|done].
  intros (l & -> & Hn & Hl)%varray_inv. exists l. split_and!; [done|by destruct l; [cbn in Hn; lia|]|].
  apply Forall_fmap, (Forall_impl _ _ _ (forallb_forall_Forall _ _ Hl)).
  intros e (em & -> & Hu & Hk & _)%vobject_inv. apply vreq_https in Hu as (s & Hs & Hhttps). unfold compose.
  rewrite member_get by (first [exact (Hk _ eq_refl)|rewrite Hs; by apply not_null_some]). by rewrite Hs.
Qed.

(** What the decoder makes of a member that is known. *)
Lemma decoded_strings (o : option json) (P : list string → Prop) :
  match o with None => True | Some x => ∃ l, x = JArr (map JStr l) ∧ P l end →
  ∀ l, get_strings (default JNull o) = Some l → P l.
Proof.
  destruct o as [x|]; [|done]. intros (l & -> & H) l' Hl. unfold default, id in Hl.
  rewrite get_strings_JStr in Hl. by simplify_eq.
Qed.

Lemma decoded_timestamp (o : option json) :
  match o with None => True | Some x => ∃ s, x = JStr s ∧ is_Some (ParseRFC3339Nano s) end →
  timestamp (get_string (default JNull o)).
Proof. destruct o as [x|]; [|by left]. intros (s & -> & H). by right. Qed.

Lemma decoded_brands (o : option json) l :
  match o with
  | None => True
  | Some x => ∃ pm, x = JObj pm ∧ match obj_get "adcp" pm with
      | None => True
      | Some a => vobject a (Some ["brands"]) [] (λ p, stringArray p "brands" 1 false (MatchString brandIDPattern)) = true
      end
  end →
  (p ← decode_profiles (λ a, MkGrantProfile (get_strings (member GrantProfileType "brands" a))) (default JNull o);
   a ← Adcp p; ProfileBrands a) = Some l →
  l ≠ [] ∧ Forall (λ b, MatchString brandIDPattern b = true) l.
Proof.
  destruct o as [x|]; [|done]. intros (pm & -> & H). unfold decode_profiles, decode_opt, default, id. cbn [get_members mbind option_bind Adcp].
  destruct (obj_get "adcp" pm) as [a|]; [|done]. cbn [fmap option_fmap option_map mbind option_bind ProfileBrands].
  apply vobject_inv in H as (bm & -> & Hb & Hk & _). apply stringArray_inv in Hb.
  rewrite member_get by first [exact (Hk _ eq_refl)|eapply not_null_strs, Hb].
  intros Hl. eapply decoded_strings in Hl; [|exact Hb]. destruct Hl as (Hn & _ & Hf).
  split; [by destruct l; [cbn in Hn; lia|]|done].
Qed.

Lemma required_tokens m key n values star :
  is_Some (obj_get key m) →
  match obj_get key m with
  | None => True
  | Some x => ∃ l, x = JArr (map JStr l) ∧ S n ≤ length l ∧ (true = true → NoDup l) ∧
                   Forall (λ s, namespaced values star s = true) l
  end →
  nonempty_tokens values star (default [] (get_strings (default JNull (obj_get key m)))).
Proof.
  intros [x E] H. rewrite E in *. destruct H as (l & -> & Hn & Hd & Hf). unfold default, id.
  rewrite get_strings_JStr. split_and!; [by destruct l; [cbn in Hn; lia|]|by apply Hd|done].
Qed.

Lemma vgrant_wf x : vgrant x = true → wf_grant (decode_grant x).
Proof.
  intros (m & -> & Hb & Hk & Hreq)%vobject_inv. specialize (Hk _ eq_refl). bool_prop.
  repeat match goal with
  | H : stringArray m _ _ _ _ = true |- _ => apply stringArray_inv in H
  | H : dateTime m _ = true |- _ => apply dateTime_inv in H
  | H : vopt m "agents" _ = true |- _ => apply granted_agents in H
  | H : vopt m "profiles" _ = true |- _ => apply vprofiles_inv in H
  | H : vreq m "grantee" _ = true |- _ => unfold vreq in H; apply vstr_inv in H as (gr & Hgr & Hdns)
  end.
  assert (obj_get "grantee" m = Some (JStr gr)) as Eg by (by destruct (obj_get "grantee" m) as [?|]; cbn in Hgr; simplify_eq).
  unfold decode_grant. cbv zeta.
  rewrite (member_get GrantType "grantee"), (member_get GrantType "agents"), (member_get GrantType "scopes"),
    (member_get GrantType "countries"), (member_get GrantType "valid_from"), (member_get GrantType "valid_until"),
    (member_get GrantType "profiles") by
    first [exact Hk | rewrite Eg; by apply not_null_some | by eapply not_null_strs | by eapply not_null_str
          | intros ? E; rewrite E in *; naive_solver].
  unfold wf_grant, Brands. cbn [Grantee Scopes GrantAgents Countries ValidFrom ValidUntil GrantProfiles].
  rewrite Eg. split_and!; try (by apply decoded_timestamp).
  - done.
  - eapply required_tokens; [apply Hreq; set_solver|done].
  - destruct (obj_get "agents" m) as [x|]; [|done]. intros l Hl.
    match goal with H : ∃ _, _ ∧ _ ≠ [] ∧ _ |- _ => destruct H as (l0 & -> & Hne & Hf) end.
    cbn in Hl. simplify_eq. split; [by destruct l0|done].
  - match goal with H : context [countryPattern] |- _ => intros l Hl; apply (decoded_strings _ _ H) in Hl end. tauto.
  - intros l. by apply decoded_brands.
Qed.

Lemma vack_wf x : vacknowledgement x = true → wf_ack (decode_ack x).
Proof.
  intros (m & -> & Hb & Hk & Hreq)%vobject_inv. specialize (Hk _ eq_refl). bool_prop.
  match goal with H : vreq m "agent_url" _ = true |- _ => apply vreq_https in H as (u & Eu & Hu) end.
  repeat match goal with H : vreq m ?k _ = true |- _ =>
    unfold vreq in H; apply vstr_inv in H as (? & ? & ?) end.
  unfold decode_ack. cbv zeta.
  rewrite (member_get AckType "grantor"), (member_get AckType "agent_url"), (member_get AckType "via");
    try exact Hk; try (rewrite Eu; by apply not_null_some);
    try (intros v E; rewrite E in *; cbn in *; congruence).
  rewrite Eu. unfold wf_ack. cbn [Grantor AckAgentURL Via].
  repeat match goal with H : default JNull _ = JStr _ |- _ => rewrite H; clear H end. done.
Qed.

(** ** Trimming leaves what is decoded *)

Lemma obj_get_update k key (f : json → json) m :
  obj_get k (map (λ kv, if bool_decide (kv.1 = key) then (key, f kv.2) else kv) m) =
  if bool_decide (k = key) then f <$> obj_get k m else obj_get k m.
Proof.
  induction m as [|[k' v] m IH]; cbn; [by case_bool_decide|].
  destruct (decide (k' = key)) as [->|Hk'].
  - rewrite (bool_decide_eq_true_2 (key = key)) by done. cbn. rewrite IH.
    destruct (decide (k = key)) as [->|Hk].
    + rewrite !(bool_decide_eq_true_2 (key = key)) by done. by destruct (obj_get key m).
    + rewrite !(bool_decide_eq_false_2 (k = key)) by done. destruct (obj_get k m); [done|].
      by rewrite !bool_decide_eq_false_2.
  - rewrite (bool_decide_eq_false_2 (k' = key)) by done. rewrite IH.
    destruct (decide (k = key)) as [->|Hk].
    + rewrite !(bool_decide_eq_true_2 (key = key)) by done. destruct (obj_get key m); cbn; [done|].
      by rewrite bool_decide_eq_false_2.
    + by rewrite !(bool_decide_eq_false_2 (k = key)) by done.
Qed.

Lemma update_keys a key (f : json → json) m :
  forallb (λ kv, containsStr a kv.1) m = true →
  forallb (λ kv, containsStr a kv.1) (map (λ kv, if bool_decide (kv.1 = key) then (key, f kv.2) else kv) m) = true.
Proof.
  induction m as [|[k v] m IH]; [done|]. cbn. intros [Hk Hm]%andb_true_iff.
  rewrite (IH Hm), andb_true_r. case_bool_decide; [by subst|done].
Qed.

(** An array member of a record. *)
Lemma varray_member m key f :
  vopt m key (λ x, varray x 0 (forallb f)) = true →
  match obj_get key m with None => True | Some x => ∃ l, x = JArr l ∧ Forall (λ e, f e = true) l end.
Proof.
  unfold vopt. destruct (obj_get key m) as [x|]; [|done]. intros (l & -> & _ & Hl)%varray_inv.
  exists l. split; [done|]. by apply forallb_forall_Forall.
Qed.

Lemma not_null_arr (o : option json) (P : list json → Prop) :
  match o with None => True | Some x => ∃ s, x = JArr s ∧ P s end → ∀ v, o = Some v → v ≠ JNull.
Proof. intros H v ->. by destruct H as (l & -> & _). Qed.

Lemma decoded_list {A} (o : option json) (P : json → Prop) (Q : A → Prop) (f : json → A) :
  match o with None => True | Some x => ∃ l, x = JArr l ∧ Forall P l end →
  (∀ x, P x → Q (f x)) → Forall Q (map f (default [] (get_list (default JNull o)))).
Proof.
  intros H HPQ. destruct o as [x|]; [|constructor]. destruct H as (l & -> & Hl).
  apply Forall_fmap. by apply (Forall_impl _ _ _ Hl).
Qed.

(** The fields of a record; a record that points elsewhere says nothing else. *)
Definition wf_fields (r : TrustRecord) : Prop :=
  (AuthoritativeLocation r = "" ∨
   https_url (AuthoritativeLocation r) = true ∧ Agents r = [] ∧ Grants r = [] ∧ ExclusiveGrants r = None ∧
   Acknowledgements r = [] ∧ AcknowledgementsURL r = "" ∧ RecordProfiles r = None) ∧
  Forall wf_agent (Agents r) ∧ Forall wf_grant (Grants r) ∧ Forall wf_ack (Acknowledgements r).

Lemma decoded_record_wf m :
  forallb (λ kv, containsStr (fields_of RecordType) kv.1) m = true →
  match obj_get "authoritative_location" m with None => True | Some x => ∃ s, x = JStr s ∧ https_url s = true end →
  match obj_get "agents" m with
  | None => True | Some x => ∃ l, x = JArr l ∧ Forall (λ e, ∃ mode, vagent mode e = true) l end →
  match obj_get "grants" m with None => True | Some x => ∃ l, x = JArr l ∧ Forall (λ e, vgrant e = true) l end →
  match obj_get "acknowledgements" m with
  | None => True | Some x => ∃ l, x = JArr l ∧ Forall (λ e, vacknowledgement e = true) l end →
  (is_Some (obj_get "authoritative_location" m) →
   Forall (λ k, obj_get k m = None) ["agents"; "grants"; "acknowledgements"; "exclusive_grants"; "acknowledgements_url"; "profiles"]) →
  wf_fields (decode_record (JObj m)).
Proof.
  intros Hk Hloc Hag Hgr Hack Hptr. unfold decode_record. cbv zeta.
  rewrite (member_get RecordType "authoritative_location"), (member_get RecordType "agents"),
    (member_get RecordType "grants"), (member_get RecordType "acknowledgements") by
    first [exact Hk | eapply not_null_str, Hloc | by eapply not_null_arr].
  unfold wf_fields. cbn [AuthoritativeLocation Agents Grants Acknowledgements ExclusiveGrants AcknowledgementsURL RecordProfiles]. split_and!.
  - destruct (obj_get "authoritative_location" m) as [x|]; [|by left]. destruct Hloc as (s & -> & Hs). right.
    specialize (Hptr ltac:(eauto)). rewrite !Forall_cons in Hptr. destruct Hptr as (-> & -> & -> & He & Hu & Hp & _).
    rewrite (member_get RecordType "exclusive_grants"), (member_get RecordType "acknowledgements_url"), (member_get RecordType "profiles") by
      first [exact Hk|by rewrite He|by rewrite Hu|by rewrite Hp]. by rewrite He, Hu, Hp.
  - eapply decoded_list; [exact Hag|]. intros x [mode Hx]. by eapply vagent_wf.
  - eapply decoded_list; [exact Hgr|]. apply vgrant_wf.
  - eapply decoded_list; [exact Hack|]. apply vack_wf.
Qed.

Lemma keys_weaken a b m :
  forallb (λ kv : string * json, containsStr a kv.1) m = true → (∀ k, k ∈ a → k ∈ b) →
  forallb (λ kv, containsStr b kv.1) m = true.
Proof.
  intros H Hab. induction m as [|[k v] m IH]; [done|]. cbn in *. apply andb_true_iff in H as [Hk Hm].
  rewrite (IH Hm), andb_true_r. unfold containsStr in *. rewrite bool_decide_eq_true in *. by apply Hab.
Qed.

Lemma obj_get_absent a k m :
  forallb (λ kv : string * json, containsStr a kv.1) m = true → k ∉ a → obj_get k m = None.
Proof.
  intros H Hk. induction m as [|[k' v] m IH]; [done|]. cbn in *. apply andb_true_iff in H as [Hk' Hm].
  rewrite (IH Hm), bool_decide_eq_false_2; [done|]. intros ->. unfold containsStr in Hk'.
  by apply bool_decide_eq_true in Hk'.
Qed.

(** What the schema says of the members that are decoded, in both forms of a
    record. *)
Lemma vrecord_inv mode x :
  vrecord mode x = true →
  ∃ m, x = JObj m ∧ forallb (λ kv, containsStr (fields_of RecordType) kv.1) m = true ∧
  match obj_get "authoritative_location" m with None => True | Some x => ∃ s, x = JStr s ∧ https_url s = true end ∧
  match obj_get "agents" m with
  | None => True | Some x => ∃ l, x = JArr l ∧ Forall (λ e, vagent mode e = true) l end ∧
  match obj_get "grants" m with None => True | Some x => ∃ l, x = JArr l ∧ Forall (λ e, vgrant e = true) l end ∧
  match obj_get "acknowledgements" m with
  | None => True | Some x => ∃ l, x = JArr l ∧ Forall (λ e, vacknowledgement e = true) l end ∧
  (is_Some (obj_get "authoritative_location" m) →
   Forall (λ k, obj_get k m = None) ["agents"; "grants"; "acknowledgements"; "exclusive_grants"; "acknowledgements_url"; "profiles"]).
Proof.
  destruct x as [| | | | |m]; try done. cbn [vrecord]. unfold present at 1. intros H. exists m. split; [done|].
  destruct (obj_get "authoritative_location" m) as [loc|] eqn:El.
  - apply vobject_inv in H as (m' & [= <-] & Hb & Hk & _). specialize (Hk _ eq_refl). unfold pointer_members in Hb. bool_prop.
    match goal with H : vreq m _ _ = true |- _ => apply vreq_https in H as (u & Eu & Hu) end.
    rewrite !(obj_get_absent _ _ _ Hk) by set_solver. split_and!; try done.
    + eapply keys_weaken; [exact Hk|]. cbn. set_solver.
    + rewrite Eu in El. simplify_eq. eauto.
    + intros _. repeat constructor; apply (obj_get_absent _ _ _ Hk); set_solver.
  - apply vobject_inv in H as (m' & [= <-] & Hb & Hk & _). specialize (Hk _ eq_refl).
    unfold record_members in Hb. bool_prop.
    split_and!; [|done|by apply varray_member..|by intros [? ?]].
    eapply keys_weaken; [exact Hk|]. cbn. set_solver.
Qed.

(** What is left of a valid document is valid. *)
Definition upd (key : string) (f : json → json) (m : list (string * json)) : list (string * json) :=
  map (λ kv, if bool_decide (kv.1 = key) then (key, f kv.2) else kv) m.

Lemma obj_get_upd_eq key f m : obj_get key (upd key f m) = f <$> obj_get key m.
Proof. unfold upd. by rewrite obj_get_update, bool_decide_eq_true_2. Qed.
Lemma obj_get_upd_ne k key f m : k ≠ key → obj_get k (upd key f m) = obj_get k m.
Proof. intros. unfold upd. by rewrite obj_get_update, bool_decide_eq_false_2. Qed.

Lemma present_upd k key f m : present (upd key f m) k = present m k.
Proof.
  unfold present. destruct (decide (k = key)) as [->|]; [|by rewrite obj_get_upd_ne].
  rewrite obj_get_upd_eq. by destruct (obj_get key m).
Qed.

Ltac upd_members :=
  unfold vreq, stringArray, optStr, dateTime, boundedStr, maxItems, vopt in *;
  repeat match goal with
  | |- context [obj_get ?k (upd ?key ?f ?m)] => first [rewrite (obj_get_upd_ne k key f m) by done | rewrite (obj_get_upd_eq key f m)]
  end.

Lemma vobject_upd x key f allowed required body :
  vobject x allowed required body = true → (∀ m, body m = true → body (upd key f m) = true) →
  vobject (update key f x) allowed required body = true.
Proof.
  intros (m & -> & Hb & Hk & Hr)%vobject_inv Hu. cbn [update vobject]. fold (upd key f m).
  rewrite (Hu m Hb), andb_true_r. apply andb_true_iff. split.
  - destruct allowed as [a|]; [|done]. by apply update_keys, Hk.
  - apply forallb_forall. intros k Hin. apply list_elem_of_In, Hr in Hin as [v Hv].
    destruct (decide (k = key)) as [->|Hne]; [by rewrite obj_get_upd_eq, Hv|by rewrite obj_get_upd_ne, Hv].
Qed.

Lemma varray_each x n f t : varray x n (forallb t) = true → (∀ e, t e = true → t (f e) = true) →
  varray (each f x) n (forallb t) = true.
Proof.
  intros (l & -> & Hn & Hl)%varray_inv Hf. cbn. rewrite length_map. apply andb_true_iff. split; [by apply Nat.leb_le|].
  rewrite forallb_forall in *. intros e He. apply in_map_iff in He as (e' & <- & He). by apply Hf, Hl.
Qed.

Lemma obj_get_kept k m : obj_get k (List.filter (λ kv, bool_decide (kv.1 = k)) m) = obj_get k m.
Proof.
  induction m as [|[k' v] m IH]; [done|]. cbn [obj_get List.filter fst]. destruct (decide (k' = k)) as [->|Hne].
  - rewrite !bool_decide_eq_true_2 by done. cbn [obj_get]. rewrite ?bool_decide_eq_true_2 by done. by rewrite IH.
  - rewrite !bool_decide_eq_false_2 by done. rewrite IH. by destruct (obj_get k m).
Qed.

Lemma requirement_trim x : requirement Reading x = true → requirement Reading (trim_requirement x) = true.
Proof.
  intros H. pose proof H as (m & -> & Hb & _)%vobject_inv. unfold vreq in Hb. apply vstr_inv in Hb as (kind & Hk & Hb).
  assert (obj_get "kind" m = Some (JStr kind)) as Ek by (by destruct (obj_get "kind" m) as [?|]; cbn in Hk; simplify_eq).
  unfold trim_requirement. rewrite Ek. destruct (KnownRequirementKind kind) eqn:En; [done|].
  assert (obj_get "kind" (List.filter (λ kv, bool_decide (kv.1 = "kind")) m) = Some (JStr kind)) as E.
  { by rewrite obj_get_kept. }
  unfold requirement, vobject, vreq. cbn [forallb]. rewrite E. cbn. by rewrite En.
Qed.
Lemma posture_trim x : buyerPosture Reading x = true →
  buyerPosture Reading (update "requirements" (each trim_requirement) x) = true.
Proof.
  intros H. apply vobject_upd; [exact H|]. clear. intros m H. upd_members. bool_prop. repeat (apply andb_true_iff; split); try done.
  destruct (obj_get "requirements" m) as [r|]; [|done]. cbn. by apply varray_each; [|apply requirement_trim].
Qed.

Lemma is_object_update key f x : is_object (update key f x) = is_object x.
Proof. by destruct x. Qed.

(** Of a profile only the [adcp] namespace is touched, whose tests are kept. *)
Lemma vprofiles_upd body key f x : (∀ a, body a = true → body (update key f a) = true) →
  vprofiles x body = true → vprofiles (update "adcp" (update key f) x) body = true.
Proof.
  intros Hb H. apply vobject_upd; [exact H|]. clear x H. intros m H. bool_prop. apply andb_true_iff. split.
  - match goal with H : forallb _ m = true |- _ => revert H end. clear. induction m as [|[k v] m IH]; [done|].
    cbn [upd map forallb fst snd]. intros [Hk Hm]%andb_true_iff. apply andb_true_iff. split; [|by apply IH].
    destruct (decide (k = "adcp")) as [->|Hne]; [rewrite bool_decide_eq_true_2 by done|by rewrite bool_decide_eq_false_2].
    cbn [fst snd]. by rewrite is_object_update.
  - upd_members. destruct (obj_get "adcp" m); [|done]. by apply Hb.
Qed.

(** Both places of a posture. *)
Lemma profile_trim allowed others a :
  (∀ m, others (upd "onboarding" (update "requirements" (each trim_requirement)) m) = others m) →
  vobject a allowed [] (λ p, others p && vopt p "onboarding" (buyerPosture Reading)) = true →
  vobject (update "onboarding" (update "requirements" (each trim_requirement)) a) allowed []
    (λ p, others p && vopt p "onboarding" (buyerPosture Reading)) = true.
Proof.
  intros Ho H. apply vobject_upd; [exact H|]. intros m Hm. bool_prop. rewrite Ho. apply andb_true_iff. split; [done|].
  upd_members. destruct (obj_get "onboarding" m); [|done]. by apply posture_trim.
Qed.

Lemma agent_trim x : vagent Reading x = true → vagent Reading (trim_profiles x) = true.
Proof.
  intros H. apply vobject_upd; [exact H|]. clear x H. intros m H. upd_members. bool_prop. repeat (apply andb_true_iff; split); try done.
  destruct (obj_get "profiles" m) as [x|]; [|done]. apply vprofiles_upd; [|done]. intros a. apply profile_trim. intros m'. by upd_members.
Qed.

Lemma record_trim x : vrecord Reading x = true → vrecord Reading (trim x) = true.
Proof.
  destruct x as [| | | | |m]; try done. unfold trim. unfold trim_profiles at 1. set (F := update "adcp" _). set (G := each trim_profiles).
  cbn [update vrecord]. fold (upd "agents" G m). fold (upd "profiles" F (upd "agents" G m)). intros H.
  assert (∀ k, present (upd "profiles" F (upd "agents" G m)) k = present m k) as Hp by (intros k; by rewrite !present_upd).
  rewrite Hp. destruct (present m "authoritative_location").
  - apply (vobject_upd (JObj (upd "agents" G m))); [apply (vobject_upd (JObj m)); [exact H|]|]; clear; intros m H;
      unfold pointer_members in *; upd_members; exact H.
  - apply (vobject_upd (JObj (upd "agents" G m))); [apply (vobject_upd (JObj m)); [exact H|]|]; clear; intros m H;
      unfold says, record_members in *; cbn [existsb] in *; rewrite !present_upd; upd_members; rewrite !andb_true_iff in *; destruct_and!; split_and!; try done.
    + destruct (obj_get "agents" m) as [x|]; [|done]. by apply varray_each; [|apply agent_trim].
    + destruct (obj_get "profiles" m) as [x|]; [|done]. apply vprofiles_upd; [|done]. intros a. apply profile_trim. intros m'. by upd_members.
Qed.

Lemma vrecord_wf mode x : vrecord mode x = true → wf_fields (decode_record x).
Proof.
  intros (m & -> & Hk & Hloc & Hag & Hgr & Hack & Hptr)%vrecord_inv. apply decoded_record_wf; try done.
  destruct (obj_get "agents" m) as [x|]; [|done]. destruct Hag as (l & -> & Hl). exists l. split; [done|].
  apply (Forall_impl _ _ _ Hl). eauto.
Qed.

End Wf.

(** ** The schema *)

(** What a JSON schema says of a document: [trust/v1/trust.json] and the schemas
    it refers to, in the words of JSON Schema. *)
Definition schema : Type := json → Prop.

(** A string, an array, an object. *)
Definition text (P : string → Prop) : schema := λ x, ∃ s, x = JStr s ∧ P s.
Definition items (minItems : nat) (S : schema) : schema := λ x, ∃ l, x = JArr l ∧ minItems ≤ length l ∧ Forall S l.
Definition distinct : schema := λ x, ∀ l, x = JArr l → NoDup l.
Definition at_most (maxItems : nat) : schema := λ x, ∀ l, x = JArr l → length l ≤ maxItems.
Definition both (S T : schema) : schema := λ x, S x ∧ T x.
Definition members (props : list (string * schema)) (m : list (string * json)) : Prop :=
  Forall (λ p, ∀ v, obj_get p.1 m = Some v → p.2 v) props.
Definition has (m : list (string * json)) (k : string) : Prop := is_Some (obj_get k m).
(** [additionalProperties]: false in a closed object. *)
Definition closed_object (required : list string) (props : list (string * schema)) : schema := λ x,
  ∃ m, x = JObj m ∧ Forall (λ kv, kv.1 ∈ map fst props) m ∧ Forall (has m) required ∧ members props m.
Definition open_object (required : list string) (props : list (string * schema)) : schema := λ x,
  ∃ m, x = JObj m ∧ Forall (has m) required ∧ members props m.
Definition any_object : schema := λ x, ∃ m, x = JObj m.
(** Every member: [propertyNames] and [additionalProperties]. *)
Definition map_of (K : string → Prop) (S : schema) : schema := λ x, ∃ m, x = JObj m ∧ Forall (λ kv, K kv.1 ∧ S kv.2) m.

(** Formats. *)
Definition anything (s : string) : Prop := True.
Definition one_of_texts (l : list string) (s : string) : Prop := s ∈ l.
Definition of_pattern (r : re) (s : string) : Prop := MatchString r s = true.
Definition at_most_chars (n : nat) (s : string) : Prop := length (runes s) ≤ n.

Definition AdcpRoles : list string :=
  ["adcp:brand"; "adcp:rights"; "adcp:measurement"; "adcp:governance"; "adcp:creative"; "adcp:sales"; "adcp:buying";
   "adcp:signals"].
Definition AdcpScopes : list string :=
  ["adcp:all"; "adcp:media_buying"; "adcp:creative_generation"; "adcp:rights_clearance"; "adcp:governance";
   "adcp:measurement"; "adcp:agent_operations"; "adcp:brand_identity"].
Definition RequirementKinds : list string :=
  ["grant"; "billing_entity"; "contract"; "credit_application"; "aao_verified"; "storyboard"; "sandbox";
   "experimental_feature"].
Definition RightUses : list string :=
  ["likeness"; "voice"; "name"; "endorsement"; "motion_capture"; "signature"; "catchphrase"; "sync";
   "background_music"; "editorial"; "commercial"; "ai_generated_image"].
Definition RightTypes : list string := ["talent"; "character"; "brand_ip"; "music"; "stock_media"].

(** A token of a namespace of others, one of those of AdCP, or one more. *)
Definition Token (adcp more : list string) (s : string) : Prop :=
  s ∈ more ∨ s ∈ adcp ∨ of_pattern namespacedTokenPattern s ∧ HasPrefix s "adcp:" = false.

Definition Domain (s : string) : Prop := len s ≤ 253 ∧ of_pattern domainPattern s.

Section Schema.
Context `{RT : Runtime}.

Definition Uri (s : string) : Prop := ∃ u, ParseURL s = Some u ∧ URLScheme u ≠ "".
Definition HttpsUrl (s : string) : Prop := HasPrefix s "https://" = true ∧ ∃ u, ParseURL s = Some u ∧ URLHost u ≠ "".
Definition DateTime (s : string) : Prop := is_Some (ParseRFC3339Nano s).

(** [profiles]: an object of namespaces, that of AdCP with members of its own. *)
Definition ProfilesSchema (adcp : list (string * schema)) : schema :=
  both (map_of (of_pattern profileKeyPattern) any_object) (open_object [] [("adcp", closed_object [] adcp)]).

(** [core/agent-onboarding-requirement.json]; a reader takes a kind it does not
    know whatever comes with it. *)
Definition RequirementMembers : list (string * schema) :=
  [("role", text (at_most_chars 128)); ("verification_modes", both (items 1 (text (at_most_chars 128))) (at_most 32));
   ("verified_specialisms", both (items 1 (text (at_most_chars 128))) (at_most 32));
   ("adcp_version", text (at_most_chars 32)); ("id", text (at_most_chars 128)); ("ext", any_object)].
Definition RequirementOf (mode : ValidationMode) (kind : string) (m : list (string * json)) : Prop :=
  mode = Reading ∧ kind ∉ RequirementKinds ∨
  kind ∈ RequirementKinds ∧ (kind = "aao_verified" → has m "role") ∧
  (kind = "storyboard" ∨ kind = "experimental_feature" → has m "id") ∧ members RequirementMembers m.
Definition RequirementSchema (mode : ValidationMode) : schema := λ x,
  ∃ m kind, x = JObj m ∧ obj_get "kind" m = Some (JStr kind) ∧ RequirementOf mode kind m.

(** [core/buyer-onboarding-posture.json] *)
Definition PostureSchema (mode : ValidationMode) : schema :=
  open_object ["mode"]
    [("mode", text (one_of_texts ["open"; "application"; "invite_only"]));
     ("requirements", items 0 (RequirementSchema mode)); ("url", text Uri); ("message", text anything);
     ("ext", any_object)].

(** [core/identity-relying-party.json] *)
Definition RelyingPartySchema : schema :=
  closed_object ["issuer"; "relying_party_id"]
    [("issuer", open_object ["domain"] [("domain", text (of_pattern brandRefDomainPattern))]);
     ("scheme", text anything); ("relying_party_id", text anything); ("scope", text (one_of_texts ["entity"; "property"]))].

Definition AgentSchema (mode : ValidationMode) : schema :=
  closed_object ["url"; "roles"]
    [("url", text HttpsUrl); ("roles", both (items 1 (text (Token AdcpRoles []))) distinct);
     ("protocols", both (items 0 (text (one_of_texts ["mcp"; "a2a"]))) distinct);
     ("id", text anything); ("description", text anything); ("countries", items 0 (text (of_pattern countryPattern)));
     ("last_updated", text DateTime);
     ("profiles", ProfilesSchema [("available_uses", items 1 (text (one_of_texts RightUses)));
                                  ("right_types", items 1 (text (one_of_texts RightTypes)));
                                  ("onboarding", PostureSchema mode)])].

Definition GrantSchema : schema :=
  closed_object ["grantee"; "scopes"]
    [("grantee", text Domain); ("agents", items 1 (closed_object ["url"] [("url", text HttpsUrl)]));
     ("scopes", both (items 1 (text (Token AdcpScopes ["*"]))) distinct);
     ("countries", items 0 (text (of_pattern countryPattern))); ("valid_from", text DateTime); ("valid_until", text DateTime);
     ("last_updated", text DateTime); ("profiles", ProfilesSchema [("brands", items 1 (text (of_pattern brandIDPattern)))])].

Definition AcknowledgementSchema : schema :=
  closed_object ["grantor"; "agent_url"; "via"]
    [("grantor", text Domain); ("agent_url", text HttpsUrl); ("via", text (Token ["adcp:adagents"; "adcp:trust"] []));
     ("last_updated", text DateTime);
     ("profiles", ProfilesSchema [("delegation_type", text (one_of_texts ["direct"; "delegated"; "ad_network"]))])].

(** A pointer to a record elsewhere, or a record: something must be said, and
    acknowledgements are inline or elsewhere. *)
Definition PointerForm : schema :=
  closed_object ["authoritative_location"]
    [("$schema", text anything); ("authoritative_location", text HttpsUrl); ("last_updated", text DateTime)].
Definition RecordForm (mode : ValidationMode) : schema :=
  both (λ x, ∃ m, x = JObj m ∧ Exists (has m) ["agents"; "grants"; "acknowledgements"; "acknowledgements_url"; "profiles"] ∧
               ¬ (has m "acknowledgements" ∧ has m "acknowledgements_url"))
    (closed_object []
       [("$schema", text anything); ("version", text anything); ("last_updated", text DateTime);
        ("agents", items 0 (AgentSchema mode)); ("grants", items 0 GrantSchema);
        ("exclusive_grants", λ x, ∃ b, x = JBool b); ("acknowledgements", items 0 AcknowledgementSchema);
        ("acknowledgements_url", text HttpsUrl);
        ("profiles", ProfilesSchema [("identity_relying_parties", items 0 RelyingPartySchema); ("onboarding", PostureSchema mode)]);
        ("ext", map_of anything any_object)]).

(** [oneOf]: the two forms exclude each other, since a record is closed. *)
Definition TrustSchema (mode : ValidationMode) : schema := λ x, PointerForm x ∨ RecordForm mode x.

(** *** The validator is the schema *)

(** A test that decides a schema. *)
Definition decides (t : json → bool) (S : schema) : Prop := ∀ x, t x = true ↔ S x.
(** A test of a member, when it is there. *)
Definition tests (m : list (string * json)) (k : string) (S : schema) (b : bool) : Prop :=
  b = true ↔ ∀ v, obj_get k m = Some v → S v.

Lemma text_decides t (P : string → Prop) : (∀ s, t s = true ↔ P s) → decides (λ x, vstr x t) (text P).
Proof.
  intros H x. unfold text. split; [intros (s & -> & Hs)%vstr_inv|intros (s & -> & Hs); cbn; by apply H].
  exists s. split; [done|]. by apply H.
Qed.

Lemma items_decides n t (S : schema) : decides t S → decides (λ x, varray x n (forallb t)) (items n S).
Proof.
  intros H x. split.
  - intros (l & -> & Hn & Hl)%varray_inv. exists l. split_and!; [done|done|].
    apply forallb_forall_Forall in Hl. apply (Forall_impl _ _ _ Hl). intros e. apply H.
  - intros (l & -> & Hn & Hl). cbn. apply andb_true_iff. split; [by apply Nat.leb_le|].
    apply forallb_forall. intros e He. apply H. rewrite Forall_forall in Hl. by apply Hl, list_elem_of_In.
Qed.

Lemma vopt_tests m k t (S : schema) : decides t S → tests m k S (vopt m k t).
Proof.
  intros H. unfold tests, vopt. destruct (obj_get k m) as [x|]; [|split; [intros _ v; done|done]].
  rewrite (H x). split; [by intros ? ? [= <-]|intros Hx; by apply Hx].
Qed.

Lemma vreq_tests m k t (S : schema) : has m k → decides t S → tests m k S (vreq m k t).
Proof.
  intros [x Hx] H. unfold tests, vreq. rewrite Hx. cbn. rewrite (H x). split; [by intros ? ? [= <-]|intros Hv; by apply Hv].
Qed.

Lemma both_tests m k (S T : schema) b c : tests m k S b → tests m k T c → tests m k (both S T) (b && c).
Proof. unfold tests, both. rewrite andb_true_iff. intros -> ->. naive_solver. Qed.

Lemma tests_iff m k (S T : schema) b : tests m k S b → (∀ x, S x ↔ T x) → tests m k T b.
Proof. unfold tests. intros -> H. split; intros Hv v E; by apply H, Hv. Qed.

Lemma strings_tests m k n t (P : string → Prop) :
  (∀ s, t s = true ↔ P s) → tests m k (items n (text P)) (stringArray m k n false t).
Proof. intros H. by apply vopt_tests, items_decides, text_decides. Qed.

Lemma distinct_strings_tests m k n t (P : string → Prop) :
  (∀ s, t s = true ↔ P s) → tests m k (both (items n (text P)) distinct) (stringArray m k n true t).
Proof.
  intros H. apply vopt_tests. intros x. unfold both, distinct.
  assert (∀ l, forallb (λ e, vstr e t) l = true → ∃ ss, l = map JStr ss) as Hs.
  { clear. induction l as [|e l IH]; cbn; [by exists []|]. intros [(s & -> & _)%vstr_inv [ss ->]%IH]%andb_true_iff. by exists (s :: ss). }
  assert (∀ ss, omap (λ e, match e with JStr s => Some s | _ => None end) (map JStr ss) = ss) as Ho.
  { clear. induction ss as [|s ss IH]; cbn; [done|]. by f_equal. }
  rewrite <- (items_decides n _ _ (text_decides t P H) x). unfold varray. destruct x as [| | | |l|]; try (split; [discriminate|intros [Hx _]; discriminate Hx]).
  rewrite !andb_true_iff, bool_decide_eq_true. split.
  - intros (Hn & Hd & Hl). split; [done|]. intros l' [= <-]. destruct (Hs _ Hl) as [ss ->]. rewrite Ho in Hd. by apply NoDup_fmap_2; [intros ? ? [=]|].
  - intros ((Hn & Hl) & Hd). split_and!; [done| |done]. specialize (Hd _ eq_refl). destruct (Hs _ Hl) as [ss ->]. rewrite Ho. by apply NoDup_fmap_1 in Hd.
Qed.

Lemma maxItems_tests m k n : tests m k (at_most n) (maxItems m k n).
Proof.
  apply vopt_tests. intros x. unfold at_most. destruct x; try (split; [done|]; done).
  rewrite Nat.leb_le. split; [by intros ? ? [= <-]|intros H; by apply H].
Qed.

Lemma members_nil m : true = true ↔ members [] m.
Proof. unfold members. split; [constructor|done]. Qed.
Lemma members_last m k S b : tests m k S b → (b = true ↔ members [(k, S)] m).
Proof. intros H. unfold members. rewrite Forall_singleton. exact H. Qed.
Lemma members_cons m k S b props c :
  tests m k S b → (c = true ↔ members props m) → (b && c = true ↔ members ((k, S) :: props) m).
Proof. intros H Hc. unfold members. rewrite Forall_cons, andb_true_iff, Hc. cbn [fst snd]. unfold tests in H. by rewrite H. Qed.

Lemma required_iff m required :
  forallb (λ k, match obj_get k m with Some _ => true | None => false end) required = true ↔ Forall (has m) required.
Proof.
  unfold has. induction required as [|k l IH]; [split; [constructor|done]|]. cbn [forallb]. rewrite andb_true_iff, IH, Forall_cons.
  destruct (obj_get k m) as [v|]; [by split; intros [? ?]; [split; [eauto|]|]|]. split; [by intros []|by intros [[? ?] _]].
Qed.

Lemma contains_iff l s : containsStr l s = true ↔ one_of_texts l s.
Proof. apply bool_decide_eq_true. Qed.

Definition same_keys (l k : list string) : bool := forallb (containsStr l) k && forallb (containsStr k) l.
Lemma same_keys_elem l k x : same_keys l k = true → x ∈ l ↔ x ∈ k.
Proof.
  intros [H1 H2]%andb_true_iff. rewrite forallb_forall in H1, H2. setoid_rewrite contains_iff in H1. setoid_rewrite contains_iff in H2.
  split; intros H%list_elem_of_In; [by apply H2|by apply H1].
Qed.

Lemma closed_decides names required body props :
  same_keys names (map fst props) = true →
  (∀ m, Forall (has m) required → body m = true ↔ members props m) →
  decides (λ x, vobject x (Some names) required body) (closed_object required props).
Proof.
  intros Hn Hb x. unfold closed_object. destruct x as [| | | | |m]; try (split; [done|by intros (? & ? & _)]).
  cbn [vobject]. rewrite !andb_true_iff, required_iff.
  assert (forallb (λ kv, containsStr names kv.1) m = true ↔ Forall (λ kv, kv.1 ∈ map fst props) m) as ->.
  { rewrite forallb_forall, Forall_forall. split; intros H kv Hkv.
    - apply list_elem_of_In, H, contains_iff in Hkv. by apply (same_keys_elem _ _ _ Hn).
    - apply list_elem_of_In, H in Hkv. by apply contains_iff, (same_keys_elem _ _ _ Hn). }
  split; [intros [[? ?] ?]|intros (? & [= <-] & ? & ? & ?)]; [exists m|]; by split_and!; [..|apply Hb].
Qed.

Lemma open_decides required body props :
  (∀ m, Forall (has m) required → body m = true ↔ members props m) →
  decides (λ x, vobject x None required body) (open_object required props).
Proof.
  intros Hb x. unfold open_object. destruct x as [| | | | |m]; try (split; [done|by intros (? & ? & _)]).
  cbn [vobject]. rewrite andb_true_l, andb_true_iff, required_iff.
  split; [intros [? ?]|intros (? & [= <-] & ? & ?)]; [exists m|]; by split_and!; [..|apply Hb].
Qed.

Lemma object_decides : decides is_object any_object.
Proof. intros x. unfold any_object. destruct x; split; try done; try (by intros [? ?]). eauto. Qed.

(** The texts. *)
Lemma any_iff s : any_string s = true ↔ anything s.
Proof. done. Qed.
Lemma of_pattern_iff r s : MatchString r s = true ↔ of_pattern r s.
Proof. done. Qed.
Lemma maxLength_iff n s : maxLength n s = true ↔ at_most_chars n s.
Proof. apply Nat.leb_le. Qed.
Lemma dns_iff s : dns_name s = true ↔ Domain s.
Proof. unfold dns_name, Domain, of_pattern. by rewrite andb_true_iff, Nat.leb_le. Qed.
Lemma token_iff adcp (star : bool) s :
  namespaced adcp star s = true ↔ Token adcp (if star then ["*"] else []) s.
Proof.
  unfold namespaced, Token, of_pattern, containsStr. rewrite !orb_true_iff, !andb_true_iff, !bool_decide_eq_true, negb_true_iff.
  destruct star; set_solver.
Qed.
Lemma httpsURL_decides : decides httpsURL (text HttpsUrl).
Proof.
  apply text_decides. intros s. unfold HttpsUrl. rewrite andb_true_iff. apply and_iff_compat_l.
  destruct (ParseURL s) as [u|]; [|by split; [|intros (? & ? & _)]].
  rewrite negb_true_iff, bool_decide_eq_false. naive_solver.
Qed.
Lemma vuri_decides : decides vuri (text Uri).
Proof.
  apply text_decides. intros s. unfold Uri. destruct (ParseURL s) as [u|]; [|by split; [|intros (? & ? & _)]].
  rewrite negb_true_iff, bool_decide_eq_false. naive_solver.
Qed.
Lemma dateTime_tests m k : tests m k (text DateTime) (dateTime m k).
Proof. apply vopt_tests, text_decides. intros s. unfold DateTime. destruct (ParseRFC3339Nano s); split; try done; by intros []. Qed.
Lemma optStr_tests m k : tests m k (text anything) (optStr m k).
Proof. by apply vopt_tests, text_decides. Qed.
Lemma boundedStr_tests m k n : tests m k (text (at_most_chars n)) (boundedStr m k n).
Proof. by apply vopt_tests, text_decides, maxLength_iff. Qed.
Lemma bounded_strings_tests m k n c :
  tests m k (both (items n (text (at_most_chars c))) (at_most 32)) (stringArray m k n false (maxLength c) && maxItems m k 32).
Proof. apply both_tests; [apply strings_tests, maxLength_iff|apply maxItems_tests]. Qed.

(** Member by member, in the order of the validator. *)
Ltac next_member :=
  lazymatch goal with
  | |- context [members [_] _] => apply members_last
  | |- context [members (_ :: _) _] => apply members_cons
  end.
Ltac a_member :=
  first [ apply dateTime_tests | apply optStr_tests | apply boundedStr_tests | apply bounded_strings_tests
        | apply distinct_strings_tests; first [apply (token_iff _ false)|apply (token_iff _ true)|apply contains_iff|apply any_iff]
        | apply strings_tests; first [apply of_pattern_iff|apply contains_iff|apply any_iff]
        | (first [apply vreq_tests; [assumption|]|apply vopt_tests]);
          first [ apply httpsURL_decides | apply vuri_decides | apply object_decides
                | apply text_decides; first [apply dns_iff|apply contains_iff|apply of_pattern_iff|apply (token_iff _ false)|apply any_iff]
                | apply items_decides | idtac ] ].
Ltac member_tests :=
  let m := fresh "m" in let H := fresh "H" in
  intros m H; rewrite ?Forall_cons in H; destruct_and?; rewrite <- ?andb_assoc;
  repeat (next_member; [a_member|]); try (next_member; a_member).

Lemma vprofiles_decides names body adcp :
  same_keys names (map fst adcp) = true →
  (∀ m, Forall (has m) [] → body m = true ↔ members adcp m) →
  decides (λ x, vprofiles x (λ a, vobject a (Some names) [] body)) (ProfilesSchema adcp).
Proof.
  intros Hn Hb x. unfold ProfilesSchema, both.
  assert (decides (λ x, vobject x None [] (λ m, vopt m "adcp" (λ a, vobject a (Some names) [] body)))
            (open_object [] [("adcp", closed_object [] adcp)])) as Ho.
  { apply open_decides. intros m _. apply members_last, vopt_tests, closed_decides; done. }
  rewrite <- (Ho x). unfold vprofiles, map_of. destruct x as [| | | | |m]; try (split; [discriminate|intros [(? & ? & _) _]; done]).
  cbn [vobject forallb]. rewrite !andb_true_l, andb_true_iff. split.
  - intros [Hm Ha]. split; [|done]. exists m. split; [done|]. apply forallb_forall_Forall in Hm. apply (Forall_impl _ _ _ Hm).
      intros kv Hkv. apply andb_true_iff in Hkv as [? ?]. split; [done|]. by apply object_decides.
  - intros [(m' & [= <-] & Hm) Ha]. split; [|done]. apply forallb_forall. intros kv Hkv. rewrite Forall_forall in Hm.
      apply list_elem_of_In, Hm in Hkv as [? ?]. apply andb_true_iff. split; [done|]. by apply object_decides.
Qed.

Lemma members_cons2 m k S T b c props d :
  tests m k S b → tests m k T c → (d = true ↔ members props m) →
  (b && (c && d) = true ↔ members ((k, both S T) :: props) m).
Proof. intros Hb Hc Hd. rewrite andb_assoc. apply members_cons; [by apply both_tests|done]. Qed.

Lemma needs_iff m k (c : bool) (P : Prop) :
  (c = true ↔ P) → ((if c then match obj_get k m with Some _ => true | None => false end else true) = true ↔ (P → has m k)).
Proof.
  intros <-. unfold has. destruct c, (obj_get k m) as [v|]; split; try done; intros H; by destruct (H eq_refl).
Qed.

Lemma requirement_members m :
  boundedStr m "role" 128 && (stringArray m "verification_modes" 1 false (maxLength 128) &&
  (maxItems m "verification_modes" 32 && (stringArray m "verified_specialisms" 1 false (maxLength 128) &&
  (maxItems m "verified_specialisms" 32 && (boundedStr m "adcp_version" 32 && (boundedStr m "id" 128 && vopt m "ext" is_object))))))
  = true ↔ members RequirementMembers m.
Proof.
  assert (∀ k, tests m k (items 1 (text (at_most_chars 128))) (stringArray m k 1 false (maxLength 128))) as Hs.
  { intros k. apply strings_tests, maxLength_iff. }
  apply members_cons; [apply boundedStr_tests|]. do 2 (apply members_cons2; [apply Hs|apply maxItems_tests|]).
  do 2 (apply members_cons; [apply boundedStr_tests|]). apply members_last, vopt_tests, object_decides.
Qed.

Lemma requirement_decides mode : decides (requirement mode) (RequirementSchema mode).
Proof.
  intros x. unfold requirement, RequirementSchema. destruct x as [| | | | |m]; try (split; [discriminate|intros (? & ? & ? & _); done]).
  cbn [vobject forallb]. rewrite andb_true_l, andb_true_r, andb_true_iff. unfold vreq.
  destruct (obj_get "kind" m) as [k|] eqn:Ek; [|by split; [intros [? _]|intros (m' & kind & [= <-] & E & _); congruence]].
  destruct k as [| | |kind| |]; try (split; [intros [_ ?]; discriminate|intros (m' & kind & [= <-] & E & _); congruence]).
  unfold default, id. cbn [vstr]. apply (iff_trans (B := RequirementOf mode kind m)).
  2: { split; [intros H; by exists m, kind|]. intros (m' & kind' & [= <-] & E & H). rewrite Ek in E. by injection E as <-. }
  unfold RequirementOf. destruct (KnownRequirementKind kind) eqn:Hk; cbn [negb]; cbv zeta.
  - apply contains_iff in Hk. assert (kind ∈ RequirementKinds) as Hin by exact Hk. rewrite <- !andb_assoc, !andb_true_iff.
    rewrite (needs_iff m "role" _ (kind = "aao_verified")) by apply bool_decide_eq_true.
    rewrite (needs_iff m "id" _ (kind = "storyboard" ∨ kind = "experimental_feature")).
    2: { rewrite contains_iff. unfold one_of_texts. set_solver. }
    rewrite <- requirement_members, !andb_true_iff. tauto.
  - assert (kind ∉ RequirementKinds) as Hnin. { intros Hin. assert (KnownRequirementKind kind = true) by (by apply contains_iff). congruence. }
    destruct mode; intuition (done || congruence).
Qed.

Lemma buyerPosture_decides mode : decides (buyerPosture mode) (PostureSchema mode).
Proof.
  apply open_decides. member_tests. all: try apply requirement_decides.
Qed.

Lemma relyingParty_decides : decides relyingParty RelyingPartySchema.
Proof.
  apply closed_decides; [done|]. member_tests. apply open_decides. member_tests.
Qed.

Lemma vagent_decides mode : decides (vagent mode) (AgentSchema mode).
Proof.
  apply closed_decides; [done|]. member_tests. apply vprofiles_decides; [done|]. member_tests. apply buyerPosture_decides.
Qed.

Lemma vgrant_decides : decides vgrant GrantSchema.
Proof.
  apply closed_decides; [done|]. member_tests.
  - apply closed_decides; [done|]. member_tests.
  - apply vprofiles_decides; [done|]. member_tests.
Qed.

Lemma vacknowledgement_decides : decides vacknowledgement AcknowledgementSchema.
Proof.
  apply closed_decides; [done|]. member_tests. apply vprofiles_decides; [done|]. member_tests.
Qed.

Lemma present_iff m k : present m k = true ↔ has m k.
Proof. unfold present, has. destruct (obj_get k m) as [v|]; [split; [by exists v|done]|]. by split; [|intros []]. Qed.

Lemma pointer_decides :
  decides (λ x, vobject x (Some ["$schema"; "authoritative_location"; "last_updated"]) ["authoritative_location"] pointer_members)
    PointerForm.
Proof. apply closed_decides; [done|]. unfold pointer_members. member_tests. Qed.

Lemma says_iff m :
  says m = true ↔ Exists (has m) ["agents"; "grants"; "acknowledgements"; "acknowledgements_url"; "profiles"] ∧
                  ¬ (has m "acknowledgements" ∧ has m "acknowledgements_url").
Proof.
  unfold says. rewrite andb_true_iff, negb_true_iff, <- !present_iff, <- andb_true_iff, not_true_iff_false.
  apply and_iff_compat_r. rewrite existsb_exists, Exists_exists. setoid_rewrite list_elem_of_In. by setoid_rewrite present_iff.
Qed.

Lemma vobject_and x allowed required b c :
  vobject x allowed required (λ m, b m && c m) = true ↔
  (∃ m, x = JObj m ∧ b m = true) ∧ vobject x allowed required c = true.
Proof.
  destruct x as [| | | | |m]; try (split; [discriminate|by intros [(? & ? & _) _]]). cbn [vobject]. rewrite !andb_true_iff.
  split; [intros (? & ? & ?)|intros ((? & [= <-] & ?) & ? & ?)]; eauto.
Qed.

Lemma bool_decides : decides (λ x, match x with JBool _ => true | _ => false end) (λ x, ∃ b, x = JBool b).
Proof. intros x. destruct x as [|b| | | |]; (split; [intros H|intros [? ?]]); try discriminate; try done. by exists b. Qed.

Lemma ext_decides : decides (λ x, vobject x None [] (λ e, forallb (λ kv, is_object kv.2) e)) (map_of anything any_object).
Proof.
  intros x. unfold map_of. destruct x as [| | | | |m]; try (split; [discriminate|by intros (? & ? & _)]).
  cbn [vobject forallb]. rewrite !andb_true_l, forallb_forall. split.
  - intros H. exists m. split; [done|]. apply Forall_forall. intros kv Hkv%list_elem_of_In. split; [done|]. by apply object_decides, H.
  - intros (m' & [= <-] & Hm) kv Hkv%list_elem_of_In. rewrite Forall_forall in Hm. by apply object_decides, Hm.
Qed.

Lemma record_decides mode :
  decides (λ x, vobject x (Some ["$schema"; "version"; "last_updated"; "agents"; "grants"; "exclusive_grants";
                                 "acknowledgements"; "acknowledgements_url"; "profiles"; "ext"]) []
                  (λ m, says m && record_members mode m))
    (RecordForm mode).
Proof.
  intros x. unfold RecordForm, both. rewrite vobject_and. setoid_rewrite says_iff. apply and_iff_compat_l.
  refine (closed_decides _ _ _ _ _ _ x); [done|]. unfold record_members. member_tests.
  all: first [apply vagent_decides|apply vgrant_decides|apply vacknowledgement_decides|apply bool_decides|apply ext_decides
             |apply vprofiles_decides; [done|]; member_tests; first [apply relyingParty_decides|apply buyerPosture_decides]].
Qed.

Lemma obj_get_In k m v : obj_get k m = Some v → (k, v) ∈ m.
Proof.
  induction m as [|[k' w] m IH]; [done|]. cbn. destruct (obj_get k m) as [u|]; [intros [= ->]; right; by apply IH|].
  case_bool_decide; [|done]. intros [= ->]. subst. by left.
Qed.

(** The validator accepts exactly the documents of the schema. *)
Lemma vrecord_schema mode x : vrecord mode x = true ↔ TrustSchema mode x.
Proof.
  unfold TrustSchema. rewrite <- (pointer_decides x), <- (record_decides mode x). unfold vrecord.
  destruct x as [| | | | |m]; try (split; [discriminate|intros []; discriminate]).
  destruct (present m "authoritative_location") eqn:E; (split; [by eauto|intros [H|H]]); try done.
  - apply record_decides in H as [_ (m' & [= <-] & Hk & _)]. apply present_iff in E as [v Hv%obj_get_In].
    rewrite Forall_forall in Hk. specialize (Hk _ Hv). cbn in Hk. set_solver.
  - apply pointer_decides in H as (m' & [= <-] & _ & Hr & _). apply Forall_singleton, present_iff in Hr. congruence.
Qed.

End Schema.

(** ** The rules *)

(** The agents' URLs carry no user information and their canonical origins are
    distinct; with an owner they are https origins under its registrable domain; an
    acknowledgement is of a listed agent, the agents a grant names have origins,
    and an author grants to registrable domains. *)
Definition wf_rules `{RT : Runtime} `{PSL : PublicSuffixList} (owner : string) (mode : ValidationMode) (r : TrustRecord) : Prop :=
  ∃ origins, NoDup origins ∧
    Forall2 (λ a o, CanonicalOrigin (AgentURL a) = Some o) (Agents r) origins ∧
    Forall (λ a, ∃ u, ParseURL (AgentURL a) = Some u ∧ URLUser u = None) (Agents r) ∧
    Forall (λ a, ∃ o, CanonicalOrigin (AckAgentURL a) = Some o ∧ o ∈ origins) (Acknowledgements r) ∧
    Forall (λ g, Forall (λ u, is_Some (CanonicalOrigin u)) (default [] (GrantAgents g))) (Grants r) ∧
    (owner ≠ "" → ∃ d, RegistrableDomain owner = Some d ∧ (d ≠ "" →
      Forall (λ o, RegistrableDomain o = Some d ∧ HasPrefix o "https://" = true) origins ∧
      (mode = Authoring → Forall (λ g, isRegistrableDomain (Grantee g) = true) (Grants r)))).

Section Rules.
Context `{RT : Runtime} `{PSL : PublicSuffixList}.

Lemma check_each_Ok {A} (test : nat → A → result rule_error unit) i l :
  check_each test i l = Ok tt → Forall (λ x, ∃ j, test j x = Ok tt) l.
Proof.
  revert i. induction l as [|x l IH]; intros i; cbn; [constructor|]. intros H.
  destruct (test i x) as [[]|] eqn:E; [|done]. constructor; [by exists i|]. by eapply IH.
Qed.

Lemma check_agents_Ok operator i agents seen origins :
  check_agents operator i agents seen = Ok origins → NoDup seen →
  Forall (λ a, ∃ u, ParseURL (AgentURL a) = Some u ∧ URLUser u = None) agents ∧
  ∃ os, Forall2 (λ a o, CanonicalOrigin (AgentURL a) = Some o) agents os ∧ NoDup (rev os ++ seen) ∧
    origins = rev os ++ seen ∧
    (operator ≠ "" → Forall (λ o, RegistrableDomain o = Some operator ∧ HasPrefix o "https://" = true) os).
Proof.
  revert i seen. induction agents as [|a agents IH]; intros i seen H Hs; cbn [check_agents] in H.
  - simplify_eq. split; [constructor|]. exists []. by repeat split.
  - destruct (ParseURL (AgentURL a)) as [u|] eqn:Eu; [|done].
    destruct (negb _) eqn:Euser; [done|]. apply negb_false_iff, bool_decide_eq_true in Euser. destruct (CanonicalOrigin (AgentURL a)) as [o|] eqn:Eo; [|done].
    destruct (containsStr seen o) eqn:Ec; [done|]. unfold containsStr in Ec. apply bool_decide_eq_false in Ec.
    destruct (_ && _) eqn:Ef; [done|].
    destruct (IH _ _ H) as (Hus & os & Hos & Hnd & -> & Hop); [by constructor|]. split; [constructor; eauto|].
    exists (o :: os). cbn [rev]. rewrite <- !app_assoc. cbn [app]. split_and!; [by constructor|done|done|].
    intros Hne. constructor; [|by apply Hop]. bool_prop. destruct Ef as [Ef|Ef]; bool_prop; [done|].
    split; [|done]. match goal with H : bool_decide _ = true |- _ => by apply bool_decide_eq_true in H | H : _ = Some _ |- _ => done end.
Qed.

Lemma checkRules_wf r owner mode :
  AuthoritativeLocation r = "" → checkRules r owner mode = Ok tt → wf_rules owner mode r.
Proof.
  intros Hloc H. unfold checkRules in H. rewrite Hloc in H. cbn [negb] in H.
  rewrite bool_decide_eq_true_2 in H by done. cbn [negb] in H.
  destruct (if bool_decide (owner = "") then Ok "" else opt_err OwnerHasNoDomain (RegistrableDomain owner)) as [operator|] eqn:Eop; [|done].
  cbn [mbind result_bind] in H. destruct (check_agents operator 0 (Agents r) []) as [origins|] eqn:Ea; [|done].
  cbn [mbind result_bind] in H. destruct (check_each (check_ack origins) 0 (Acknowledgements r)) as [[]|] eqn:Eack; [|done].
  cbn [mbind result_bind] in H. apply check_each_Ok in H, Eack.
  apply check_agents_Ok in Ea as (Hus & os & Hos & Hnd & -> & Hop); [|constructor]. rewrite app_nil_r in *.
  rewrite <- Permutation_rev in Hnd. exists os. split_and!; [done|done|done| | |].
  - apply (Forall_impl _ _ _ Eack). intros a [j Hj]. unfold check_ack in Hj.
    destruct (CanonicalOrigin (AckAgentURL a)) as [o|]; [|done]. res_inv. exists o. split; [done|].
    unfold containsStr in *. bool_prop. by rewrite (Permutation_rev os).
  - apply (Forall_impl _ _ _ H). intros g [j Hj]. unfold check_grant in Hj. res_inv.
    match goal with H : check_each _ _ _ = Ok _ |- _ => apply check_each_Ok in H; apply (Forall_impl _ _ _ H) end.
    intros u [k Hk]. res_inv. by destruct (CanonicalOrigin u).
  - intros Ho. rewrite bool_decide_eq_false_2 in Eop by done. res_inv. exists operator. split; [done|].
    intros Hd. split; [by apply Hop|]. intros ->. apply (Forall_impl _ _ _ H). intros g [j Hj].
    unfold check_grant in Hj. res_inv. bool_prop. rewrite (bool_decide_eq_false_2 (operator = "")) in * by done.
    match goal with H : _ ∨ _ |- _ => destruct H as [E|E] end; [done|]. by destruct (isRegistrableDomain (Grantee g)).
Qed.

Lemma unique_origin (agents : list TrustAgent) os a o :
  Forall2 (λ a o, CanonicalOrigin (AgentURL a) = Some o) agents os → NoDup os →
  a ∈ agents → CanonicalOrigin (AgentURL a) = Some o →
  List.filter (λ a, bool_decide (CanonicalOrigin (AgentURL a) = Some o)) agents = [a].
Proof.
  intros H. revert a o. induction H as [|b o' agents os Hb H IH]; intros a o Hnd Ha Hao; [by apply elem_of_nil in Ha|].
  apply NoDup_cons in Hnd as [Hno Hnd]. cbn [List.filter]. rewrite Hb.
  assert (∀ c x, c ∈ agents → CanonicalOrigin (AgentURL c) = Some x → x ∈ os) as Hin.
  { intros c x Hc Hx. apply list_elem_of_lookup_1 in Hc as [k Hk]. destruct (Forall2_lookup_l _ _ _ _ _ H Hk) as (y & Hy & Hcy).
    assert (x = y) as -> by congruence. by eapply list_elem_of_lookup_2. }
  apply elem_of_cons in Ha as [->|Ha].
  - assert (o' = o) as -> by congruence. rewrite bool_decide_eq_true_2 by done. f_equal.
    assert (∀ c, c ∈ agents → CanonicalOrigin (AgentURL c) ≠ Some o) as Hne by (intros c Hc E; destruct Hno; by eapply Hin).
    revert Hne. clear. induction agents as [|c l IH]; intros Hne; [done|]. cbn.
    rewrite bool_decide_eq_false_2; [apply IH|]; intros; apply Hne; set_solver.
  - rewrite bool_decide_eq_false_2; [by apply IH|]. intros [= ->]. destruct Hno. by eapply Hin.
Qed.

(** The lookup finds the entry of the origin, if and only if the record lists it
    with the role. *)
Lemma Agent_listed r owner mode origin role a :
  wf_rules owner mode r →
  Agent r origin role = Some a ↔
  a ∈ Agents r ∧ role ∈ Roles a ∧ is_Some (CanonicalOrigin origin) ∧ CanonicalOrigin (AgentURL a) = CanonicalOrigin origin.
Proof.
  intros (os & Hnd & Hos & _). unfold Agent. destruct (CanonicalOrigin origin) as [o|] eqn:Eo.
  - cbn [mbind option_bind]. split.
    + intros H. set (P := λ a, bool_decide (CanonicalOrigin (AgentURL a) = Some o)) in *.
      assert (∀ b, List.filter P (Agents r) = [b] → b ∈ Agents r ∧ CanonicalOrigin (AgentURL b) = Some o) as Hf.
      { intros b Hb. assert (In b (List.filter P (Agents r))) as Hi by (rewrite Hb; by left).
        apply filter_In in Hi as [Hi Hp]. apply bool_decide_eq_true in Hp. split; [by apply list_elem_of_In|done]. }
      destruct (List.filter P (Agents r)) as [|b [|c l]] eqn:Ef; try done.
      unfold containsStr in H. case_bool_decide; [|done]. simplify_eq. destruct (Hf a eq_refl). by split_and!.
    + intros (Ha & Hr & _ & Hc). rewrite (unique_origin _ os a o) by done.
      unfold containsStr. by rewrite bool_decide_eq_true_2.
  - split; [done|]. intros (_ & _ & [? ?] & _). done.
Qed.

Lemma ValidateTrustRecord_inv data mode owner r :
  ValidateTrustRecord data mode owner = Ok r →
  (zlen data ≤ TrustRecordMaxBytes)%Z ∧ is_ok (Validate data 0) = true ∧
  ∃ tree, json_decode data = Some tree ∧ vrecord mode tree = true ∧ vrecord mode (kept mode tree) = true ∧
          r = decode_record (kept mode tree) ∧ checkRules r owner mode = Ok tt.
Proof.
  unfold ValidateTrustRecord. destruct (Z.ltb_spec TrustRecordMaxBytes (zlen data)); [done|].
  destruct (Validate data 0) as [u|] eqn:Ev; [|done]. intros H'. res_inv.
  match goal with H : match checkRules ?r _ _ with _ => _ end = _ |- _ => destruct (checkRules r owner mode) as [[]|] eqn:Ec; [|done] end.
  simplify_eq. split_and!; [done|done|]. eexists. split_and!; [done|done| |done|done].
  destruct mode; [done|]. by apply record_trim.
Qed.

(** C37: every record the reader accepts is strict JSON within the size limit
    that has the form of the pinned schema, members of every kind of entry
    included, and is decoded from it (a reader keeps of a requirement of an unknown
    kind only the kind); the texts the evaluators read have their types (DNS names,
    https URLs, distinct namespaced roles and scopes, country codes, timestamps,
    brand ids); a record that points elsewhere carries no authority of its own; and
    otherwise the owner's rules hold: one agent per origin, no user information in
    their URLs, https origins under the owner's registrable domain,
    acknowledgements of listed agents, and for authors registrable grantees. *)
Theorem ValidateTrustRecord_wf data mode owner r :
  ValidateTrustRecord data mode owner = Ok r →
  (zlen data ≤ 2 * 1024 * 1024)%Z ∧ is_ok (Validate data 0) = true ∧
  (∃ tree, json_decode data = Some tree ∧ TrustSchema mode tree ∧ TrustSchema mode (kept mode tree) ∧
           r = decode_record (kept mode tree)) ∧
  wf_fields r ∧ (AuthoritativeLocation r = "" → wf_rules owner mode r).
Proof.
  intros (Hl & Hs & tree & Ht & Hv & Hk & -> & Hc)%ValidateTrustRecord_inv.
  split_and!; [done|done| |by eapply vrecord_wf|intros Ha; by apply checkRules_wf].
  exists tree. by rewrite <- !vrecord_schema.
Qed.

End Rules.

(** ** An example record *)

(** Text with single quotes for double ones. *)
Definition dq (s : string) : string := smap (λ c, if beq c "'" then quote else c) s.

Definition house_json : string := dq
  ("{'version':'1','agents':[{'url':'https://buy.acme.com','roles':['adcp:buying','adcp:brand']}]," +:+
   "'grants':[{'grantee':'agency.com','scopes':['adcp:media_buying'],'valid_until':'2030-01-01T00:00:00Z'," +:+
   "'profiles':{'adcp':{'brands':['shoes']}}}],'exclusive_grants':true," +:+
   "'profiles':{'adcp':{'onboarding':{'mode':'open','requirements':[{'kind':'new_kind','role':7}]}}}}").

Definition house_record : TrustRecord :=
  MkRecord "" "" "1" "" [MkAgent "https://buy.acme.com" ["adcp:buying"; "adcp:brand"] None "" "" None None ""]
    [MkGrant "agency.com" None ["adcp:media_buying"] None "" "2030-01-01T00:00:00Z"
       (Some (MkProfiles (Some (MkGrantProfile (Some ["shoes"]))) [])) ""]
    (Some true) [] ""
    (Some (MkProfiles (Some (MkRecordProfile None
       (Some (MkPosture "open" (Some [MkRequirement "new_kind" "" None None "" "" JNull]) "" "" JNull)))) []))
    JNull.

Lemma house_valid :
  ValidateTrustRecord (RT := ascii_runtime) (PSL := toy_psl) house_json Reading "acme.com" = Ok house_record.
Proof. by vm_compute. Qed.

Lemma ValidateTrustRecord_wf_witness :
  (∃ tree, json_decode house_json = Some tree ∧ TrustSchema Reading tree ∧
           house_record = decode_record (RT := ascii_runtime) (kept Reading tree)) ∧
  wf_fields house_record ∧ wf_rules (RT := ascii_runtime) (PSL := toy_psl) "acme.com" Reading house_record.
Proof.
  destruct (ValidateTrustRecord_wf (RT := ascii_runtime) (PSL := toy_psl) house_json Reading "acme.com" house_record house_valid)
    as (_ & _ & (tree & Ht & Hs & _ & Hr) & Hf & Hrules).
  split_and!; [by exists tree|exact Hf|by apply Hrules].
Defined.

(** Authors may not use an unknown requirement kind, and a record for another
    owner is refused. *)
Example house_refused :
  ValidateTrustRecord (RT := ascii_runtime) (PSL := toy_psl) house_json Authoring "acme.com" = Err SchemaViolation ∧
  ValidateTrustRecord (RT := ascii_runtime) (PSL := toy_psl) house_json Reading "other.com" =
    Err (RuleViolation (AgentForeignOrigin 0)).
Proof. by vm_compute. Qed.

(** The schema leaves a buyer posture open, but decoding matches members to
    fields up to case: an unknown member that spells a known one in capitals makes
    the reader refuse the whole record. *)
Definition folded_json : string :=
  dq "{'profiles':{'adcp':{'onboarding':{'mode':'open','URL':5}}}}".

Lemma folded_member_refused :
  vrecord Reading (default JNull (json_decode folded_json)) = true ∧
  ValidateTrustRecord (RT := ascii_runtime) (PSL := toy_psl) folded_json Reading "acme.com" = Err UnmarshalFailed.
Proof. by vm_compute. Qed.
