(* ===== verification/Trust.v ===== *)
(** * Trust: the trust record evaluator

    [src/adcp/v3/identity/evaluator.go] and [authority_history.go].  The shared
    state under the evaluator's mutex is [evaluator], and each critical section is a
    function on it.  A refresh goroutine is a [task], a program over its clock
    readings, fetches and history calls; [TrustConc] runs them. *)
From S2P Require Import Prelude GoStrings Unicode Json NetUrl StrictJson SigTypes SigBase SafeFetch Origin Psl Quota TrustJson.
From stdpp Require Import options.

(** ** Records, errors, history *)

Record EvaluatedTrustRecord := MkEvaluated {
  OperatorDomain : string;
  SourceURL : string;
  Rec : TrustRecord;
  ExpiresAt : Time;
  Stale : bool;
}.

Record TrustRecordError := MkTrustError { Absent : bool; Unlisted : bool; Reason : string }.

(** An error of [Evaluate]: its own, or one of the caller's context. *)
Inductive eval_error := TrustErr (e : TrustRecordError) | ContextErr.

Definition trustErr (reason : string) : TrustRecordError := MkTrustError false false reason.

Definition IsTrustRecordAbsent (e : eval_error) : bool := match e with TrustErr t => Absent t | ContextErr => false end.
Definition IsTrustRecordUnavailable (e : eval_error) : bool :=
  match e with TrustErr t => negb (Absent t) && negb (Unlisted t) | ContextErr => true end.

Record AuthorityState := MkAuthority { Served : bool; LastRecord : option EvaluatedTrustRecord }.
Definition no_authority : AuthorityState := MkAuthority false None.

(** The authority history: what it holds for a domain, and a write.  Calls that
    fail are the environment's choice where the history is used. *)
Class AuthorityHistory (H : Type) := {
  LoadAuthority : H → string → AuthorityState;
  StoreAuthority : H → string → AuthorityState → H;
}.

(** What no-downgrade needs of a history: writes to other domains do not matter,
    a write may be refused only for a domain it does not know, and what it knows it
    keeps. *)
Class AuthorityHistorySpec (H : Type) `{AuthorityHistory H} := {
  store_other h d d' s : d ≠ d' → LoadAuthority (StoreAuthority h d s) d' = LoadAuthority h d';
  store_same h d s : LoadAuthority (StoreAuthority h d s) d = s ∨
                     (LoadAuthority (StoreAuthority h d s) d = LoadAuthority h d ∧ LoadAuthority h d = no_authority);
}.

(** ** The in-memory history *)

Definition historyLimit : Z := 65536%Z.
Definition historyPerOperator : Z := 64%Z.

Definition newMemoryAuthorityHistory : Table AuthorityState := Quota.New historyLimit historyPerOperator.

Definition historyGroup `{RT : Runtime} `{PSL : PublicSuffixList} (domain : string) : string :=
  default domain (QuotaKey domain).

#[export] Instance memory_history `{RT : Runtime} `{PSL : PublicSuffixList} :
    AuthorityHistory (Table AuthorityState) := {
  LoadAuthority h d := default no_authority (Quota.Get h d);
  StoreAuthority h d s := (Quota.Put h d (historyGroup d) s).1;
}.

#[export] Instance memory_history_spec `{RT : Runtime} `{PSL : PublicSuffixList} :
  AuthorityHistorySpec (Table AuthorityState).
Proof.
  split; intros h d; intros; cbn; unfold Quota.Put, Quota.Get; destruct (entries h !! d) as [x|] eqn:E; cbn.
  1, 2: try (destruct (_ || _)%bool); cbn; by simplify_map_eq.
  - left. by simplify_map_eq.
  - destruct (_ || _)%bool; cbn; [right; by rewrite E|left; by simplify_map_eq].
Qed.

(** ** Configuration *)

Record TrustRecordEvaluatorOptions := MkEvalOptions {
  oPollingInterval : Duration;
  oMaxRecords : Z;
  oMaxFetchesPerHost : Z;
  oOutageContinuation : Duration;
}.

Record config := MkEvalConfig {
  interval : Duration;
  maxRecords : Z;
  maxPerHost : Z;
  outage : Duration;
}.

Definition trustNegativeTTL : Duration := (60 * Second)%Z.
Definition trustMaxInterval : Duration := (30 * Minute)%Z.
Definition trustDefaultInterval : Duration := (60 * Second)%Z.

Definition NewTrustRecordEvaluator (o : TrustRecordEvaluatorOptions) : option config :=
  let i := if (oPollingInterval o =? 0)%Z then trustDefaultInterval else oPollingInterval o in
  if ((i <? 0) || (trustMaxInterval <? i))%Z then None else
  let m := if (oMaxRecords o <=? 0)%Z then 256%Z else oMaxRecords o in
  let out := if (oOutageContinuation o =? 0)%Z then (4 * i)%Z
             else if (oOutageContinuation o <? 0)%Z then 0%Z else oOutageContinuation o in
  let h := if (oMaxFetchesPerHost o <=? 0)%Z then 4%Z else oMaxFetchesPerHost o in
  Some (MkEvalConfig i m h out).

(** ** The shared state *)

Record TrustResponse := MkTrustResponse { RStatus : Z; RBody : string }.
Record cachedResponse := MkCachedResponse { c_expires : Time; c_resp : TrustResponse }.

(** [cache] and the list [lru] of its domains, most recent first; [failures]
    with the time a retry is allowed; [pending] and [responsePending], the calls in
    flight; the shared [responses]; per-host counters and cooldowns. *)
Record evaluator := MkEvaluator {
  cache : gmap string EvaluatedTrustRecord;
  lru : list string;
  failures : gmap string (TrustRecordError * Time);
  pending : gset string;
  responses : gmap string cachedResponse;
  responsePending : gset string;
  hostsInflight : gmap string Z;
  hostFailures : gmap string Time;
}.

Definition new_evaluator : evaluator := MkEvaluator ∅ [] ∅ ∅ ∅ ∅ ∅ ∅.

Definition MoveToFront (d : string) (l : list string) : list string :=
  d :: List.filter (λ x, negb (bool_decide (x = d))) l.

(** ** [Evaluate]: the critical section *)

Inductive eval_start := Hit (r : EvaluatedTrustRecord) | Failed (e : TrustRecordError) | AtCapacity | Joined | Started.

Definition set_lru (e : evaluator) (l : list string) : evaluator :=
  MkEvaluator (cache e) l (failures e) (pending e) (responses e) (responsePending e) (hostsInflight e) (hostFailures e).
Definition set_pending (e : evaluator) (p : gset string) : evaluator :=
  MkEvaluator (cache e) (lru e) (failures e) p (responses e) (responsePending e) (hostsInflight e) (hostFailures e).

Definition start_refresh (c : config) (now : Time) (domain : string) (e : evaluator) : eval_start * evaluator :=
  let refresh :=
    match failures e !! domain with
    | Some (err, retryAfter) => if (now <? retryAfter)%Z then Some err else None
    | None => None
    end in
  match refresh with
  | Some err => (Failed err, e)
  | None =>
      if bool_decide (domain ∈ pending e) then (Joined, e) else
      if (maxRecords c <=? Z.of_nat (size (pending e)))%Z then (AtCapacity, e) else
      (Started, set_pending e ({[domain]} ∪ pending e))
  end.

Definition begin_evaluate (c : config) (now : Time) (domain : string) (e : evaluator) : eval_start * evaluator :=
  match cache e !! domain with
  | Some r =>
      if (now <? ExpiresAt r)%Z then (Hit r, set_lru e (MoveToFront domain (lru e)))
      else start_refresh c now domain e
  | None => start_refresh c now domain e
  end.

(** ** The end of a refresh *)

(** [boundFailures]: expired entries go, then the oldest until the bound holds.
    [order] is the order in which Go visits the map. *)
Definition oldest (order : list string) (m : gmap string (TrustRecordError * Time)) : option string :=
  fst <$> foldl (λ best d,
    match m !! d with
    | Some (_, t) => match best with
                     | None => Some (d, t)
                     | Some (_, at_) => if (t <? at_)%Z then Some (d, t) else best
                     end
    | None => best
    end) None order.

Fixpoint drop_oldest (fuel : nat) (max : Z) (orders : nat → list string) (m : gmap string (TrustRecordError * Time)) :
    gmap string (TrustRecordError * Time) :=
  match fuel with
  | 0 => m
  | S f =>
      if (Z.of_nat (size m) <=? max)%Z then m else
      match oldest (orders f) m with
      | Some d => drop_oldest f max orders (delete d m)
      | None => m
      end
  end.

Definition boundFailures (c : config) (now : Time) (orders : nat → list string)
    (m : gmap string (TrustRecordError * Time)) : gmap string (TrustRecordError * Time) :=
  if (Z.of_nat (size m) <=? maxRecords c)%Z then m else
  let live := filter (λ kv, (now < kv.2.2)%Z) m in
  drop_oldest (size live) (maxRecords c) orders live.

(** The tail of the list that exceeds the bound leaves the cache. *)
Definition trim_lru (max : Z) (l : list string) (m : gmap string EvaluatedTrustRecord) :
    list string * gmap string EvaluatedTrustRecord :=
  let keep := Z.to_nat max in (take keep l, foldr delete m (drop keep l)).

Definition finish_refresh (c : config) (now : Time) (orders : nat → list string) (domain : string)
    (res : result TrustRecordError EvaluatedTrustRecord) (e : evaluator) : evaluator :=
  let pending := pending e ∖ {[domain]} in
  match res with
  | Err te =>
      let f := boundFailures c now orders (<[domain := (te, Add now trustNegativeTTL)]> (failures e)) in
      MkEvaluator (cache e) (lru e) f pending (responses e) (responsePending e) (hostsInflight e) (hostFailures e)
  | Ok rec =>
      let l := match cache e !! domain with Some _ => MoveToFront domain (lru e) | None => domain :: lru e end in
      let '(l, m) := trim_lru (maxRecords c) l (<[domain := rec]> (cache e)) in
      MkEvaluator m l (delete domain (failures e)) pending (responses e) (responsePending e) (hostsInflight e)
        (hostFailures e)
  end.

(** ** Shared transport responses *)

Inductive fetch_start := FCached (r : cachedResponse) | FCoolingDown | FCapacity | FJoined | FStarted.

Definition inflight (e : evaluator) (host : string) : Z := default 0%Z (hostsInflight e !! host).

(** The critical section of [fetchResponse]. *)
Definition begin_fetch (c : config) (now : Time) (url host : string) (e : evaluator) : fetch_start * evaluator :=
  let start :=
    if match hostFailures e !! host with Some until_ => (now <? until_)%Z | None => false end then (FCoolingDown, e) else
    if bool_decide (url ∈ responsePending e) then (FJoined, e) else
    if ((maxRecords c <=? Z.of_nat (size (responsePending e))) || (maxPerHost c <=? inflight e host))%Z
    then (FCapacity, e) else
    (FStarted,
     MkEvaluator (cache e) (lru e) (failures e) (pending e) (responses e) ({[url]} ∪ responsePending e)
       (<[host := (inflight e host + 1)%Z]> (hostsInflight e)) (hostFailures e)) in
  match responses e !! url with
  | Some r => if (now <? c_expires r)%Z then (FCached r, e) else start
  | None => start
  end.

(** Entries other than [keep] go, in the order Go visits them, until the bound
    holds. *)
Definition evict {A} (max : Z) (order : list string) (keep : string) (m : gmap string A) : gmap string A :=
  foldl (λ m k, if (Z.of_nat (size m) <=? max)%Z then m else if bool_decide (k = keep) then m else delete k m) m order.

(** [coolHost]. *)
Definition coolHost (c : config) (now : Time) (order : list string) (host : string) (m : gmap string Time) :
    gmap string Time :=
  let m := <[host := Add now trustNegativeTTL]> m in
  if (Z.of_nat (size m) <=? maxRecords c)%Z then m else
  evict (maxRecords c) order host (filter (λ kv, (now < kv.2)%Z) m).

Definition bound_responses (c : config) (now : Time) (order : list string) (url : string)
    (m : gmap string cachedResponse) : gmap string cachedResponse :=
  if (Z.of_nat (size m) <=? maxRecords c)%Z then m else
  evict (maxRecords c) order url (filter (λ kv, (now < c_expires kv.2)%Z) m).

(** The critical section of [refreshResponse], after the transport answered. *)
Definition finish_fetch (c : config) (now : Time) (order1 order2 : list string) (url host : string)
    (answer : option TrustResponse) (e : evaluator) : option cachedResponse * evaluator :=
  let answer := r ← answer; if (TrustRecordMaxBytes <? zlen (RBody r))%Z then None else Some r in
  let n := (inflight e host - 1)%Z in
  let hosts := if (n <=? 0)%Z then delete host (hostsInflight e) else <[host := n]> (hostsInflight e) in
  let pendingURLs := responsePending e ∖ {[url]} in
  match answer with
  | None =>
      (None, MkEvaluator (cache e) (lru e) (failures e) (pending e) (responses e) pendingURLs hosts
               (coolHost c now order2 host (hostFailures e)))
  | Some r =>
      let ttl := if (RStatus r =? 200)%Z then interval c else trustNegativeTTL in
      let res := MkCachedResponse (Add now ttl) r in
      let rs := bound_responses c now order1 url (<[url := res]> (responses e)) in
      let hf := if ((500 <=? RStatus r) || (RStatus r =? 429))%Z then coolHost c now order2 host (hostFailures e)
                else hostFailures e in
      (Some res, MkEvaluator (cache e) (lru e) (failures e) (pending e) rs pendingURLs hosts hf)
  end.

(** ** The refresh goroutine *)

(** A program over the effects of a refresh: reading the clock, fetching a URL
    through the shared responses, and the history of its domain, whose calls may
    fail. *)
Inductive task :=
  | Done (r : result TrustRecordError EvaluatedTrustRecord)
  | ReadClock (k : Time → task)
  | FetchResponse (url : string) (k : option cachedResponse → task)
  | Load (k : option AuthorityState → task)
  | Store (s : AuthorityState) (k : bool → task).

Fixpoint then_task (t : task) (f : result TrustRecordError EvaluatedTrustRecord → task) : task :=
  match t with
  | Done r => f r
  | ReadClock k => ReadClock (λ x, then_task (k x) f)
  | FetchResponse u k => FetchResponse u (λ x, then_task (k x) f)
  | Load k => Load (λ x, then_task (k x) f)
  | Store s k => Store s (λ x, then_task (k x) f)
  end.

Section Trust.
Context `{RT : Runtime} `{PSL : PublicSuffixList}.

Definition TrustRecordURL (originOrDomain : string) : result TrustRecordError string :=
  match RegistrableDomain originOrDomain with
  | Some domain => Ok ("https://" +:+ domain +:+ "/.well-known/trust.json")
  | None => Err (MkTrustError false true "identity has no registrable operator domain")
  end.

(** [markSeen200]; [k] continues after success. *)
Definition markSeen200 (k : task) : task :=
  let fail := Done (Err (trustErr "trust record history unavailable")) in
  Load (λ st, match st with
    | None => fail
    | Some st => if Served st then k else
        Store (MkAuthority true (LastRecord st)) (λ ok, if ok then k else fail)
    end).

(** [resolve] from its hop: [hops] counts the rounds left, of two. *)
Fixpoint resolve_hops (hops : nat) (domain source : string) (expires : Time) : task :=
  match hops with
  | 0 => Done (Err (trustErr "trust record resolution failed"))
  | S hops' =>
      match ValidateTarget source with
      | Err _ => Done (Err (trustErr "invalid trust fetch target"))
      | Ok _ =>
          FetchResponse source (λ res,
            match res with
            | None => Done (Err (trustErr "trust record fetch failed"))
            | Some res =>
                let expires := if (c_expires res <? expires)%Z then c_expires res else expires in
                let status := RStatus (c_resp res) in
                let body := RBody (c_resp res) in
                let rest :=
                  if negb (status =? 200)%Z || (TrustRecordMaxBytes <? zlen body)%Z
                  then Done (Err (trustErr "trust record unavailable")) else
                  markSeen200
                    match ValidateTrustRecord body Reading domain with
                    | Err _ => Done (Err (trustErr "trust record is invalid"))
                    | Ok rec =>
                        if bool_decide (AuthoritativeLocation rec = "")
                        then Done (Ok (MkEvaluated domain source rec expires false))
                        else match hops' with
                             | 0 => Done (Err (trustErr "a second authoritative_location hop is forbidden"))
                             | S _ => resolve_hops hops' domain (AuthoritativeLocation rec) expires
                             end
                    end in
                if ((status =? 404) || (status =? 410))%Z then
                  Load (λ st, match st with
                    | None => Done (Err (trustErr "trust record history unavailable"))
                    | Some st =>
                        if Served st
                        then Done (Err (trustErr "trust record not found after the operator published one"))
                        else if bool_decide (hops = 2)
                        then Done (Err (MkTrustError true false "no trust record is published"))
                        else rest
                    end)
                else rest
            end)
      end
  end.

Definition resolve (c : config) (domain recordURL : string) : task :=
  ReadClock (λ now, resolve_hops 2 domain recordURL (Add now (interval c))).

Definition storeLastGood (rec : EvaluatedTrustRecord) : task :=
  let fail := Done (Err (trustErr "trust record history unavailable")) in
  Load (λ st, match st with
    | None => fail
    | Some st => Store (MkAuthority (Served st) (Some rec)) (λ ok, if ok then Done (Ok rec) else fail)
    end).

(** What [refresh] runs before its critical section. *)
Definition refresh_task (c : config) (domain recordURL : string) : task :=
  then_task (resolve c domain recordURL)
    (λ r, match r with Ok rec => storeLastGood rec | Err e => Done (Err e) end).

(** The last steps of [Evaluate] once it holds a record. *)
Definition finish_evaluate (now : Time) (originOrDomain role : string) (rec : EvaluatedTrustRecord) :
    result eval_error EvaluatedTrustRecord :=
  if negb (now <? ExpiresAt rec)%Z then Err (TrustErr (trustErr "trust record expired while being evaluated")) else
  if negb (bool_decide (role = "")) then
    match Agent (Rec rec) originOrDomain role with
    | Some _ => Ok rec
    | None => Err (TrustErr (MkTrustError false true
                     "trust record does not list the origin with the required role"))
    end
  else Ok rec.

(** [staleWithinBound]. *)
Definition staleWithinBound (c : config) (now : Time) (last : EvaluatedTrustRecord) : option EvaluatedTrustRecord :=
  let until_ := Add (ExpiresAt last) (outage c) in
  if (outage c <=? 0)%Z || negb (now <? until_)%Z then None
  else Some (MkEvaluated (OperatorDomain last) (SourceURL last) (Rec last) until_ true).

End Trust.
