(* ===== verification/TrustConc.v ===== *)
(** * TrustConc: the trust record evaluator under concurrency

    Callers of [Evaluate], refresh goroutines and transport fetches of one
    evaluator, interleaved: the critical sections of [Trust] are atomic, everything
    between them is a step of its own, and time, transport answers, failing history
    calls, cancelled callers and the order in which Go visits a map are the
    environment's. *)
From S2P Require Import Prelude GoStrings Unicode Json NetUrl StrictJson SigTypes SigBase SafeFetch Origin Psl Quota TrustJson TrustWf Trust.
From stdpp Require Import options.

(** ** The system *)

Inductive caller_state :=
  | Waiting
  | Holding (r : EvaluatedTrustRecord)
  | Returned (at_ : Time) (r : result eval_error EvaluatedTrustRecord).

(** A call [Evaluate(ctx, originOrDomain, role)]; [ca_domain] is the operator
    domain derived from it. *)
Record caller := MkCaller { ca_origin : string; ca_role : string; ca_domain : string; ca_state : caller_state }.

(** A refresh goroutine runs, or waits for the shared fetch of a URL. *)
Inductive rstate := Running (t : task) | Awaiting (url : string) (k : option cachedResponse → task).

(** [log]: the responses the transport has given, with their times. *)
Record system (H : Type) := MkSystem {
  now : Time;
  ev : evaluator;
  hist : H;
  refreshers : list (string * rstate);
  fetchers : list (string * string);
  callers : list caller;
  log : list (string * Time * TrustResponse);
}.
Arguments MkSystem {H}. Arguments now {H}. Arguments ev {H}. Arguments hist {H}. Arguments refreshers {H}.
Arguments fetchers {H}. Arguments callers {H}. Arguments log {H}.

(** The order in which Go visits a map covers its keys. *)
Definition visits (order : list string) (ks : gset string) : Prop := ∀ k, k ∈ ks → k ∈ order.

Definition wake (url : string) (res : option cachedResponse) (r : string * rstate) : string * rstate :=
  match r.2 with
  | Awaiting u k => if bool_decide (u = url) then (r.1, Running (k res)) else r
  | Running _ => r
  end.

Definition answer_caller (at_ : Time) (domain : string) (res : result TrustRecordError EvaluatedTrustRecord)
    (c : caller) : caller :=
  match ca_state c with
  | Waiting =>
      if bool_decide (ca_domain c = domain)
      then MkCaller (ca_origin c) (ca_role c) (ca_domain c)
             match res with Ok rec => Holding rec | Err e => Returned at_ (Err (TrustErr e)) end
      else c
  | _ => c
  end.

Section Conc.
Context `{RT : Runtime} `{PSL : PublicSuffixList} {H : Type} `{AH : AuthorityHistory H} (c : config).

(** One step of a running refresh of [domain]: the new state, history, evaluator
    and the transport fetch it starts. *)
Inductive refresh_step (domain : string) (t : Time) : task → evaluator → H →
    rstate → evaluator → H → list (string * string) → Prop :=
  | R_Clock k e h : refresh_step domain t (ReadClock k) e h (Running (k t)) e h []
  | R_Load k e h : refresh_step domain t (Load k) e h (Running (k (Some (LoadAuthority h domain)))) e h []
  | R_LoadFails k e h : refresh_step domain t (Load k) e h (Running (k None)) e h []
  | R_Store s k e h :
      refresh_step domain t (Store s k) e h (Running (k true)) e (StoreAuthority h domain s) []
  | R_StoreFails s k e h : refresh_step domain t (Store s k) e h (Running (k false)) e h []
  | R_StoreUnsure s k e h :
      refresh_step domain t (Store s k) e h (Running (k false)) e (StoreAuthority h domain s) []
  | R_FetchDone url u k e h r e' :
      ParseURL url = Some u → begin_fetch c t url (Hostname u) e = (FCached r, e') →
      refresh_step domain t (FetchResponse url k) e h (Running (k (Some r))) e' h []
  | R_FetchRefused url u k e h o e' :
      ParseURL url = Some u → begin_fetch c t url (Hostname u) e = (o, e') → o = FCoolingDown ∨ o = FCapacity →
      refresh_step domain t (FetchResponse url k) e h (Running (k None)) e' h []
  | R_FetchJoined url u k e h e' :
      ParseURL url = Some u → begin_fetch c t url (Hostname u) e = (FJoined, e') →
      refresh_step domain t (FetchResponse url k) e h (Awaiting url k) e' h []
  | R_FetchStarted url u k e h e' :
      ParseURL url = Some u → begin_fetch c t url (Hostname u) e = (FStarted, e') →
      refresh_step domain t (FetchResponse url k) e h (Awaiting url k) e' h [(url, Hostname u)].

(** Where a new caller is after the first critical section. *)
Definition caller_start (t : Time) (o : eval_start) : caller_state :=
  match o with
  | Hit r => Holding r
  | Failed e => Returned t (Err (TrustErr e))
  | AtCapacity => Returned t (Err (TrustErr (trustErr "trust discovery capacity exceeded")))
  | Joined | Started => Waiting
  end.

Inductive step : system H → system H → Prop :=
  | S_Tick t d e h rs fs cs l :
      (0 ≤ d)%Z → step (MkSystem t e h rs fs cs l) (MkSystem (t + d) e h rs fs cs l)
  | S_Call t e h rs fs cs l origin role url u o e' :
      TrustRecordURL origin = Ok url → ParseURL url = Some u →
      begin_evaluate c t (Hostname u) e = (o, e') →
      step (MkSystem t e h rs fs cs l)
        (MkSystem t e' h
           (rs ++ match o with Started => [(Hostname u, Running (refresh_task c (Hostname u) url))] | _ => [] end)
           fs (cs ++ [MkCaller origin role (Hostname u) (caller_start t o)]) l)
  | S_CallNoDomain t e h rs fs cs l origin role err :
      TrustRecordURL origin = Err err →
      step (MkSystem t e h rs fs cs l)
        (MkSystem t e h rs fs (cs ++ [MkCaller origin role "" (Returned t (Err (TrustErr err)))]) l)
  | S_Return t e h rs fs cs1 ca cs2 l rec :
      ca_state ca = Holding rec →
      step (MkSystem t e h rs fs (cs1 ++ ca :: cs2) l)
        (MkSystem t e h rs fs
           (cs1 ++ MkCaller (ca_origin ca) (ca_role ca) (ca_domain ca)
                     (Returned t (finish_evaluate t (ca_origin ca) (ca_role ca) rec)) :: cs2) l)
  | S_Cancel t e h rs fs cs1 ca cs2 l :
      ca_state ca = Waiting →
      step (MkSystem t e h rs fs (cs1 ++ ca :: cs2) l)
        (MkSystem t e h rs fs
           (cs1 ++ MkCaller (ca_origin ca) (ca_role ca) (ca_domain ca) (Returned t (Err ContextErr)) :: cs2) l)
  | S_Refresh t e h rs1 d tk rs2 fs cs l st e' h' fs' :
      refresh_step d t tk e h st e' h' fs' →
      step (MkSystem t e h (rs1 ++ (d, Running tk) :: rs2) fs cs l)
        (MkSystem t e' h' (rs1 ++ (d, st) :: rs2) (fs ++ fs') cs l)
  | S_FetchTimeout t e h rs1 d url k rs2 fs cs l :
      step (MkSystem t e h (rs1 ++ (d, Awaiting url k) :: rs2) fs cs l)
        (MkSystem t e h (rs1 ++ (d, Running (k None)) :: rs2) fs cs l)
  | S_FetchDone t e h rs fs1 url host fs2 cs l answer order1 order2 res e' :
      visits order1 ({[url]} ∪ dom (responses e)) →
      visits order2 ({[host]} ∪ dom (hostFailures e)) →
      finish_fetch c t order1 order2 url host answer e = (res, e') →
      step (MkSystem t e h rs (fs1 ++ (url, host) :: fs2) cs l)
        (MkSystem t e' h (map (wake url res) rs) (fs1 ++ fs2) cs
           (match answer with Some r => (url, t, r) :: l | None => l end))
  | S_RefreshDone t e h rs1 d r rs2 fs cs l orders :
      (∀ n, visits (orders n) ({[d]} ∪ dom (failures e))) →
      step (MkSystem t e h (rs1 ++ (d, Running (Done r)) :: rs2) fs cs l)
        (MkSystem t (finish_refresh c t orders d r e) h (rs1 ++ rs2) fs (map (answer_caller t d r) cs) l).

Definition initial (t : Time) (h : H) : system H := MkSystem t new_evaluator h [] [] [] [].

Definition reachable (t : Time) (h : H) (s : system H) : Prop := rtc step (initial t h) s.

(** ** Running a schedule *)

(** A schedule of the environment's choices, by position: [play] follows it and is
    sound for [step]. *)
Inductive action :=
  | Tick (d : Z)
  | Call (origin role : string)
  | Return (i : nat)
  | Cancel (i : nat)
  | RunRefresh (i : nat) (ok : bool)
  | TimeOut (i : nat)
  | Respond (i : nat) (answer : option TrustResponse)
  | EndRefresh (i : nat).

Definition run_task (domain : string) (t : Time) (tk : task) (ok : bool) (e : evaluator) (h : H) :
    option (rstate * evaluator * H * list (string * string)) :=
  match tk with
  | Done _ => None
  | ReadClock k => Some (Running (k t), e, h, [])
  | Load k => Some (Running (k (if ok then Some (LoadAuthority h domain) else None)), e, h, [])
  | Store s k => Some (Running (k ok), e, if ok then StoreAuthority h domain s else h, [])
  | FetchResponse url k =>
      u ← ParseURL url;
      let '(o, e') := begin_fetch c t url (Hostname u) e in
      Some match o with
        | FCached r => (Running (k (Some r)), e', h, [])
        | FCoolingDown | FCapacity => (Running (k None), e', h, [])
        | FJoined => (Awaiting url k, e', h, [])
        | FStarted => (Awaiting url k, e', h, [(url, Hostname u)])
        end
  end.

(** The element at a position, between what precedes and what follows it. *)
Definition split_at {A} (i : nat) (l : list A) : option (list A * A * list A) :=
  x ← l !! i; Some (take i l, x, drop (S i) l).

Lemma split_at_Some {A} i (l : list A) l1 x l2 : split_at i l = Some (l1, x, l2) → l = l1 ++ x :: l2.
Proof.
  unfold split_at. destruct (l !! i) as [y|] eqn:E; [|done]. intros [= <- <- <-]. by rewrite take_drop_middle.
Qed.

Definition settle (ca : caller) (st : caller_state) : caller := MkCaller (ca_origin ca) (ca_role ca) (ca_domain ca) st.

Definition play1 (s : system H) (a : action) : option (system H) :=
  let '(MkSystem t e h rs fs cs l) := s in
  match a with
  | Tick d => if (0 <=? d)%Z then Some (MkSystem (t + d)%Z e h rs fs cs l) else None
  | Call origin role =>
      match TrustRecordURL origin with
      | Err err => Some (MkSystem t e h rs fs (cs ++ [MkCaller origin role "" (Returned t (Err (TrustErr err)))]) l)
      | Ok url =>
          u ← ParseURL url;
          let '(o, e') := begin_evaluate c t (Hostname u) e in
          Some (MkSystem t e' h
            (rs ++ match o with Started => [(Hostname u, Running (refresh_task c (Hostname u) url))] | _ => [] end)
            fs (cs ++ [MkCaller origin role (Hostname u) (caller_start t o)]) l)
      end
  | Return i =>
      '(cs1, ca, cs2) ← split_at i cs;
      match ca_state ca with
      | Holding rec =>
          Some (MkSystem t e h rs fs
                  (cs1 ++ settle ca (Returned t (finish_evaluate t (ca_origin ca) (ca_role ca) rec)) :: cs2) l)
      | _ => None
      end
  | Cancel i =>
      '(cs1, ca, cs2) ← split_at i cs;
      match ca_state ca with
      | Waiting => Some (MkSystem t e h rs fs (cs1 ++ settle ca (Returned t (Err ContextErr)) :: cs2) l)
      | _ => None
      end
  | RunRefresh i ok =>
      '(rs1, (d, st), rs2) ← split_at i rs;
      match st with
      | Running tk =>
          '(st', e', h', fs') ← run_task d t tk ok e h;
          Some (MkSystem t e' h' (rs1 ++ (d, st') :: rs2) (fs ++ fs') cs l)
      | Awaiting _ _ => None
      end
  | TimeOut i =>
      '(rs1, (d, st), rs2) ← split_at i rs;
      match st with
      | Awaiting _ k => Some (MkSystem t e h (rs1 ++ (d, Running (k None)) :: rs2) fs cs l)
      | Running _ => None
      end
  | Respond i answer =>
      '(fs1, (url, host), fs2) ← split_at i fs;
      let '(res, e') := finish_fetch c t (url :: elements (dom (responses e))) (host :: elements (dom (hostFailures e)))
                          url host answer e in
      Some (MkSystem t e' h (map (wake url res) rs) (fs1 ++ fs2) cs
              (match answer with Some r => (url, t, r) :: l | None => l end))
  | EndRefresh i =>
      '(rs1, (d, st), rs2) ← split_at i rs;
      match st with
      | Running (Done r) =>
          Some (MkSystem t (finish_refresh c t (λ _, d :: elements (dom (failures e))) d r e) h (rs1 ++ rs2) fs
                  (map (answer_caller t d r) cs) l)
      | _ => None
      end
  end.

Fixpoint play (s : system H) (l : list action) : option (system H) :=
  match l with
  | [] => Some s
  | a :: l => s' ← play1 s a; play s' l
  end.

Lemma visits_elements k (ks : gset string) : visits (k :: elements ks) ({[k]} ∪ ks).
Proof. intros x. set_solver. Qed.

Lemma run_task_step domain t tk ok e h st e' h' fs' :
  run_task domain t tk ok e h = Some (st, e', h', fs') → refresh_step domain t tk e h st e' h' fs'.
Proof.
  destruct tk as [r|k|url k|k|s k]; cbn [run_task]; [done|intros [= <- <- <- <-]; constructor| |
    destruct ok; intros [= <- <- <- <-]; constructor..].
  destruct (ParseURL url) as [u|] eqn:Eu; [|done]. cbn [mbind option_bind].
  destruct (begin_fetch c t url (Hostname u) e) as [o e1] eqn:Eb. intros [= E].
  destruct o; simplify_eq; [by eapply R_FetchDone|eapply R_FetchRefused; eauto..|by eapply R_FetchJoined|by eapply R_FetchStarted].
Qed.

Lemma play1_step s a s' : play1 s a = Some s' → step s s'.
Proof.
  destruct s as [t e h rs fs cs l]. destruct a as [d|origin role|i|i|i ok|i|i answer|i]; cbn [play1]; intros E.
  - destruct (Z.leb_spec 0 d); simplify_eq. by constructor.
  - destruct (TrustRecordURL origin) as [url|err] eqn:Eu; [|simplify_eq; by constructor].
    destruct (ParseURL url) as [u|] eqn:Ep; [|done]. cbn [mbind option_bind] in E.
    destruct (begin_evaluate c t (Hostname u) e) as [o e'] eqn:Eb. simplify_eq. by econstructor.
  - destruct (split_at i cs) as [[[cs1 ca] cs2]|] eqn:Ec; [|done]. cbn in E. apply split_at_Some in Ec as ->.
    destruct (ca_state ca) eqn:Es; simplify_eq. by constructor.
  - destruct (split_at i cs) as [[[cs1 ca] cs2]|] eqn:Ec; [|done]. cbn in E. apply split_at_Some in Ec as ->.
    destruct (ca_state ca) eqn:Es; simplify_eq. by constructor.
  - destruct (split_at i rs) as [[[rs1 [d st]] rs2]|] eqn:Ec; [|done]. cbn [mbind option_bind] in E. apply split_at_Some in Ec as ->.
    destruct st as [tk|]; [|done]. destruct (run_task d t tk ok e h) as [[[[st' e'] h'] fs']|] eqn:Er; [|done].
    cbn in E. simplify_eq. constructor. by eapply run_task_step.
  - destruct (split_at i rs) as [[[rs1 [d st]] rs2]|] eqn:Ec; [|done]. cbn in E. apply split_at_Some in Ec as ->.
    destruct st; simplify_eq. by constructor.
  - destruct (split_at i fs) as [[[fs1 [url host]] fs2]|] eqn:Ec; [|done]. cbn [mbind option_bind] in E. apply split_at_Some in Ec as ->.
    destruct (finish_fetch _ _ _ _ _ _ _ _) as [res e'] eqn:Ef. simplify_eq.
    eapply S_FetchDone; [apply visits_elements..|done].
  - destruct (split_at i rs) as [[[rs1 [d st]] rs2]|] eqn:Ec; [|done]. cbn [mbind option_bind] in E. apply split_at_Some in Ec as ->.
    destruct st as [[r|?|? ?|?|? ?]|]; simplify_eq. eapply S_RefreshDone. intros n. apply visits_elements.
Qed.

Lemma play_steps l s s' : play s l = Some s' → rtc step s s'.
Proof.
  revert s. induction l as [|a l IH]; intros s; cbn [play]; [by intros [= ->]|].
  destruct (play1 s a) as [s1|] eqn:E; [|done]. cbn. intros Hl. eapply rtc_l; [by eapply play1_step|by apply IH].
Qed.

(** ** Bounds of the critical sections *)

Lemma evict_size {A} max order keep (m : gmap string A) :
  (1 ≤ max)%Z → visits order (dom m) → (Z.of_nat (size (evict max order keep m)) ≤ max)%Z.
Proof.
  intros Hmax Hv. unfold evict.
  assert (∀ order' (m' : gmap string A), (∀ k, k ∈ dom m' → k = keep ∨ k ∈ order') →
    (Z.of_nat (size (foldl (λ m k, if (Z.of_nat (size m) <=? max)%Z then m
                                   else if bool_decide (k = keep) then m else delete k m) m' order')) ≤ max)%Z) as Haux.
  { induction order' as [|k order' IH]; intros m' Hm; cbn.
    - assert (dom m' ⊆ {[keep]}) as Hs.
      { intros k Hk. destruct (Hm k Hk) as [->|Hn]; [set_solver|by apply elem_of_nil in Hn]. }
      apply subseteq_size in Hs. rewrite size_singleton, size_dom in Hs. lia.
    - destruct (Z.leb_spec (Z.of_nat (size m')) max) as [Hle|Hgt].
      + clear IH Hm. induction order' as [|k' order' IH]; cbn; [done|].
        destruct (Z.leb_spec (Z.of_nat (size m')) max); [done|lia].
      + case_bool_decide as Hk; apply IH; intros x Hx.
        * destruct (Hm x Hx) as [->|[->|?]%elem_of_cons]; auto.
        * rewrite dom_delete in Hx. destruct (Hm x ltac:(set_solver)) as [->|[->|?]%elem_of_cons]; [auto|set_solver|auto]. }
  apply Haux. intros k Hk. right. by apply Hv.
Qed.

Lemma visits_sub order (ks ks' : gset string) : visits order ks → ks' ⊆ ks → visits order ks'.
Proof. intros Hv Hs k Hk. apply Hv. set_solver. Qed.

Lemma dom_filter_sub {A} (P : string * A → Prop) `{∀ x, Decision (P x)} (m : gmap string A) :
  dom (filter P m) ⊆ dom m.
Proof. apply dom_filter_subseteq. Qed.

Lemma coolHost_size t order host m :
  (1 ≤ maxRecords c)%Z → visits order ({[host]} ∪ dom m) →
  (Z.of_nat (size (coolHost c t order host m)) ≤ maxRecords c)%Z.
Proof.
  intros Hm Hv. unfold coolHost. destruct (Z.leb_spec (Z.of_nat (size (<[host:=Add t trustNegativeTTL]> m))) (maxRecords c)); [done|].
  apply evict_size; [done|]. eapply visits_sub; [exact Hv|]. etrans; [apply dom_filter_sub|]. by rewrite dom_insert_L.
Qed.

Lemma bound_responses_size t order url res m :
  (1 ≤ maxRecords c)%Z → visits order ({[url]} ∪ dom m) →
  (Z.of_nat (size (bound_responses c t order url (<[url := res]> m))) ≤ maxRecords c)%Z.
Proof.
  intros Hm Hv. unfold bound_responses. destruct (Z.leb_spec (Z.of_nat (size (<[url:=res]> m))) (maxRecords c)); [done|].
  apply evict_size; [done|]. eapply visits_sub; [exact Hv|]. etrans; [apply dom_filter_sub|]. by rewrite dom_insert_L.
Qed.

(** Some entry is found when the order covers a map that is not empty. *)
Lemma oldest_in order (m : gmap string (TrustRecordError * Time)) :
  visits order (dom m) → m ≠ ∅ → ∃ d, oldest order m = Some d ∧ is_Some (m !! d).
Proof.
  intros Hv Hne. unfold oldest.
  set (f := λ (best : option (string * Time)) d, _).
  assert (∀ order' best, (∀ b, best = Some b → is_Some (m !! b.1)) →
    ((∃ b, best = Some b) ∨ ∃ d, d ∈ order' ∧ is_Some (m !! d)) →
    ∃ b, foldl f best order' = Some b ∧ is_Some (m !! b.1)) as Haux.
  { induction order' as [|d order' IH]; intros best Hb Hex; cbn.
    - destruct Hex as [[b ->]|(d & Hd & _)]; [eauto|by apply elem_of_nil in Hd].
    - apply IH.
      + intros b. unfold f. destruct (m !! d) as [[e t]|] eqn:E; [|apply Hb].
        destruct best as [[d' t']|]; [destruct (t <? t')%Z|]; intros [= <-]; cbn; eauto. apply (Hb (d', t')). done.
      + unfold f. destruct (m !! d) as [[e t]|] eqn:E.
        * left. destruct best as [[d' t']|]; [destruct (t <? t')%Z|]; eauto.
        * destruct Hex as [?|(d' & [->|Hd']%elem_of_cons & Hs)]; [by left|by destruct Hs; congruence|right; eauto]. }
  destruct (map_choose m Hne) as (d & x & Hd).
  destruct (Haux order None) as (b & -> & Hb); [done|right; exists d; split; [apply Hv, elem_of_dom|]; eauto|].
  exists b.1. done.
Qed.

Lemma boundFailures_size t orders m :
  (1 ≤ maxRecords c)%Z → (∀ n, visits (orders n) (dom m)) →
  (Z.of_nat (size (boundFailures c t orders m)) ≤ maxRecords c)%Z.
Proof.
  intros Hm Hv. unfold boundFailures. destruct (Z.leb_spec (Z.of_nat (size m)) (maxRecords c)); [done|].
  set (live := filter _ m). assert (∀ n, visits (orders n) (dom live)) as Hl.
  { intros n. eapply visits_sub; [apply Hv|apply dom_filter_sub]. }
  clearbody live. clear Hv H0. remember (size live) as fuel eqn:Ef. assert (size live ≤ fuel) as Hle by lia. clear Ef.
  revert live Hl Hle. induction fuel as [|f IH]; intros live Hl Hle; cbn [drop_oldest]; [lia|].
  destruct (Z.leb_spec (Z.of_nat (size live)) (maxRecords c)); [done|].
  destruct (oldest_in (orders f) live) as (d & -> & Hd); [apply Hl| |].
  - intros ->. rewrite map_size_empty in *. lia.
  - apply IH.
    + intros n. eapply visits_sub; [apply Hl|]. rewrite dom_delete. set_solver.
    + rewrite map_size_delete_Some by done. lia.
Qed.

(** ** The caches *)

Record caches_ok (e : evaluator) : Prop := {
  c_lru : NoDup (lru e);
  c_lru_cache : ∀ d, d ∈ lru e ↔ is_Some (cache e !! d);
  c_lru_size : (Z.of_nat (length (lru e)) ≤ maxRecords c)%Z;
  c_failures : (Z.of_nat (size (failures e)) ≤ maxRecords c)%Z;
  c_responses : (Z.of_nat (size (responses e)) ≤ maxRecords c)%Z;
  c_hosts : (Z.of_nat (size (hostFailures e)) ≤ maxRecords c)%Z;
}.

Lemma elem_of_MoveToFront d x l : x ∈ MoveToFront d l ↔ x = d ∨ x ∈ l.
Proof.
  unfold MoveToFront. rewrite elem_of_cons, !list_elem_of_In, filter_In.
  destruct (decide (x = d)) as [->|Hne]; [naive_solver|].
  rewrite bool_decide_eq_false_2 by done. naive_solver.
Qed.

Lemma NoDup_list_filter {A} (f : A → bool) l : NoDup l → NoDup (List.filter f l).
Proof. rewrite !NoDup_ListNoDup. apply List.NoDup_filter. Qed.

Lemma NoDup_MoveToFront d l : NoDup l → NoDup (MoveToFront d l).
Proof.
  intros Hl. constructor; [|by apply NoDup_list_filter].
  rewrite list_elem_of_In, filter_In. intros [_ Hd]. by rewrite bool_decide_eq_true_2 in Hd.
Qed.

Lemma length_MoveToFront d l : NoDup l → d ∈ l → length (MoveToFront d l) = length l.
Proof.
  intros Hl Hd. apply Permutation_length. apply NoDup_Permutation; [by apply NoDup_MoveToFront|done|].
  intros x. rewrite elem_of_MoveToFront. naive_solver.
Qed.

Lemma begin_evaluate_caches t d e o e' :
  begin_evaluate c t d e = (o, e') → caches_ok e → caches_ok e'.
Proof.
  assert (∀ o e', start_refresh c t d e = (o, e') → caches_ok e → caches_ok e') as Hs.
  { unfold start_refresh. intros o0 e0 Hs [].
    destruct (match failures e !! d with Some (err, r) => if (t <? r)%Z then Some err else None | None => None end);
      [by simplify_eq|]. split_if; by constructor. }
  unfold begin_evaluate. destruct (cache e !! d) as [r|] eqn:Ec; [|by apply Hs].
  destruct (t <? ExpiresAt r)%Z; [|by apply Hs]. intros [= <- <-] [Hn Hm Hl Hf Hr Hh].
  constructor; cbn [lru cache failures responses hostFailures set_lru]; try done.
  - by apply NoDup_MoveToFront.
  - intros x. rewrite elem_of_MoveToFront, Hm. split; [intros [->|?]; eauto|auto].
  - rewrite length_MoveToFront; [done|done|]. apply Hm. eauto.
Qed.

(** Removing the tail of the list from the cache keeps the two in step. *)
Lemma trim_lru_ok (l : list string) (m : gmap string EvaluatedTrustRecord) l' m' :
  NoDup l → (∀ d, d ∈ l ↔ is_Some (m !! d)) → (1 ≤ maxRecords c)%Z → trim_lru (maxRecords c) l m = (l', m') →
  NoDup l' ∧ (∀ d, d ∈ l' ↔ is_Some (m' !! d)) ∧ (Z.of_nat (length l') ≤ maxRecords c)%Z ∧
  (∀ d, is_Some (m' !! d) → m' !! d = m !! d).
Proof.
  intros Hl Hm Hmax [= <- <-]. set (n := Z.to_nat (maxRecords c)).
  rewrite <- (take_drop n l) in Hl. apply NoDup_app in Hl as (Ht & Hdis & Hd).
  assert (∀ k, foldr delete m (drop n l) !! k = if bool_decide (k ∈ drop n l) then None else m !! k) as Hfold.
  { clear. intros k. induction (drop n l) as [|x xs IH]; [done|]. cbn. rewrite lookup_delete, IH.
    destruct (decide (x = k)) as [->|Hne]; [by rewrite (bool_decide_eq_true_2 (k ∈ k :: xs)) by set_solver|].
    case_bool_decide as H1; case_bool_decide as H2; try done; set_solver. }
  split_and!; [done| |rewrite length_take; lia|].
  - intros k. rewrite Hfold. case_bool_decide as Hk.
    + split; [intros Hkt; by destruct (Hdis k Hkt)|by intros [? ?]].
    + rewrite <- Hm. rewrite <- (take_drop n l) at 2. rewrite elem_of_app. naive_solver.
  - intros k. rewrite Hfold. case_bool_decide; [by intros [? ?]|done].
Qed.

Lemma finish_refresh_caches t orders d r e :
  (1 ≤ maxRecords c)%Z → (∀ n, visits (orders n) ({[d]} ∪ dom (failures e))) →
  caches_ok e → caches_ok (finish_refresh c t orders d r e).
Proof.
  intros Hmax Hv [Hn Hm Hl Hf Hr Hh]. unfold finish_refresh. destruct r as [rec|err].
  - set (l := match cache e !! d with Some _ => _ | None => _ end).
    destruct (trim_lru (maxRecords c) l (<[d:=rec]> (cache e))) as [l' m'] eqn:Et.
    apply trim_lru_ok in Et as (Hn' & Hm' & Hl' & _); [| | |done].
    + constructor; cbn [lru cache failures responses hostFailures]; try done. rewrite map_size_delete. destruct (failures e !! d); cbn; lia.
    + unfold l. destruct (cache e !! d) eqn:E; [by apply NoDup_MoveToFront|]. constructor; [|done].
      rewrite Hm, E. by intros [? ?].
    + intros x. unfold l. rewrite lookup_insert.
      destruct (cache e !! d) eqn:E.
      * rewrite elem_of_MoveToFront, Hm. case_decide; subst; naive_solver.
      * rewrite elem_of_cons, Hm. case_decide; subst; naive_solver.
  - constructor; cbn [lru cache failures responses hostFailures]; try done. apply boundFailures_size; [done|].
    intros n. by rewrite dom_insert_L.
Qed.

Lemma begin_fetch_caches t url host e o e' :
  begin_fetch c t url host e = (o, e') → caches_ok e → caches_ok e'.
Proof.
  unfold begin_fetch. intros Hb [].
  destruct (responses e !! url) as [r|]; [destruct (t <? c_expires r)%Z; [by simplify_eq|]|];
    (destruct (match hostFailures e !! host with Some u => (t <? u)%Z | None => false end); [by simplify_eq|]);
    split_if; by constructor.
Qed.

Lemma finish_fetch_caches t o1 o2 url host answer e res e' :
  (1 ≤ maxRecords c)%Z → visits o1 ({[url]} ∪ dom (responses e)) → visits o2 ({[host]} ∪ dom (hostFailures e)) →
  finish_fetch c t o1 o2 url host answer e = (res, e') → caches_ok e → caches_ok e'.
Proof.
  intros Hmax H1 H2 Hb [Hn Hm Hl Hf Hr Hh]. unfold finish_fetch in Hb.
  destruct (r ← answer; if (TrustRecordMaxBytes <? zlen (RBody r))%Z then None else Some r) as [r|]; simplify_eq.
  - constructor; cbn [lru cache failures responses hostFailures]; try done; [by apply bound_responses_size|]. split_if. by apply coolHost_size.
  - constructor; cbn [lru cache failures responses hostFailures]; try done. by apply coolHost_size.
Qed.

(** ** The calls in flight *)

Definition host_count (h : string) (fs : list (string * string)) : Z :=
  Z.of_nat (length (List.filter (λ f, bool_decide (f.2 = h)) fs)).

Record flights_ok (e : evaluator) (ds : list string) (fs : list (string * string)) : Prop := {
  f_single : NoDup ds;
  f_pending : ∀ d, d ∈ pending e ↔ d ∈ ds;
  f_pending_size : (Z.of_nat (size (pending e)) ≤ maxRecords c)%Z;
  f_urls : NoDup fs.*1;
  f_responses : ∀ u, u ∈ responsePending e ↔ u ∈ fs.*1;
  f_responses_size : (Z.of_nat (size (responsePending e)) ≤ maxRecords c)%Z;
  f_inflight : ∀ h, inflight e h = host_count h fs;
  f_hosts : ∀ h, (host_count h fs ≤ maxPerHost c)%Z;
}.

Lemma host_count_app h fs1 fs2 : host_count h (fs1 ++ fs2) = (host_count h fs1 + host_count h fs2)%Z.
Proof. unfold host_count. rewrite List.filter_app, length_app. lia. Qed.

Lemma host_count_one h u x : host_count h [(u, x)] = if bool_decide (x = h) then 1%Z else 0%Z.
Proof. unfold host_count. cbn. by destruct (bool_decide (x = h)). Qed.

Lemma host_count_cons h u x fs : host_count h ((u, x) :: fs) = ((if bool_decide (x = h) then 1 else 0) + host_count h fs)%Z.
Proof. change ((u, x) :: fs) with ([(u, x)] ++ fs). by rewrite host_count_app, host_count_one. Qed.

Lemma host_count_nonneg h fs : (0 ≤ host_count h fs)%Z.
Proof. unfold host_count. lia. Qed.

Lemma NoDup_middle {A} (l1 : list A) x l2 : NoDup (l1 ++ x :: l2) → NoDup (l1 ++ l2) ∧ x ∉ l1 ++ l2.
Proof. rewrite <- Permutation_middle. rewrite NoDup_cons. tauto. Qed.

Lemma size_add (d : string) (p : gset string) : d ∉ p → size ({[d]} ∪ p) = S (size p).
Proof. intros Hd. rewrite size_union by set_solver. by rewrite size_singleton. Qed.

Lemma begin_evaluate_flights t d e o e' ds fs :
  begin_evaluate c t d e = (o, e') → flights_ok e ds fs →
  flights_ok e' (ds ++ match o with Started => [d] | _ => [] end) fs.
Proof.
  assert (∀ o e', start_refresh c t d e = (o, e') → flights_ok e ds fs →
    flights_ok e' (ds ++ match o with Started => [d] | _ => [] end) fs) as Hs.
  { unfold start_refresh. intros o0 e0 Hs F.
    destruct (match failures e !! d with Some (err, r) => if (t <? r)%Z then Some err else None | None => None end);
      [simplify_eq; by rewrite app_nil_r|]. case_bool_decide as Hd; [simplify_eq; by rewrite app_nil_r|].
    destruct (Z.leb_spec (maxRecords c) (Z.of_nat (size (pending e)))); simplify_eq; [by rewrite app_nil_r|].
    destruct F as [Fs Fp Fz Fu Fr Frz Fi Fh]. constructor; cbn; try done.
    - apply NoDup_snoc. by rewrite <- Fp.
    - intros x. rewrite elem_of_app, <- Fp. set_solver.
    - rewrite size_add by done. lia. }
  unfold begin_evaluate. destruct (cache e !! d) as [r|]; [|by apply Hs].
  destruct (t <? ExpiresAt r)%Z; [|by apply Hs]. intros [= <- <-] []. rewrite app_nil_r. by constructor.
Qed.

Lemma finish_refresh_flights t orders d r e ds1 ds2 fs :
  flights_ok e (ds1 ++ d :: ds2) fs → flights_ok (finish_refresh c t orders d r e) (ds1 ++ ds2) fs.
Proof.
  intros [Fs Fp Fz Fu Fr Frz Fi Fh]. apply NoDup_middle in Fs as [Fs Hd].
  assert (∀ x, x ∈ pending e ∖ {[d]} ↔ x ∈ ds1 ++ ds2) as Hp.
  { intros x. rewrite elem_of_difference, Fp, elem_of_singleton, !elem_of_app, elem_of_cons.
    rewrite elem_of_app in Hd. naive_solver. }
  assert (Z.of_nat (size (pending e ∖ {[d]})) ≤ maxRecords c)%Z as Hz.
  { pose proof (subseteq_size (pending e ∖ {[d]}) (pending e) ltac:(set_solver)). lia. }
  unfold finish_refresh. destruct r as [rec|err]; [destruct (trim_lru _ _ _)|]; by constructor.
Qed.

Lemma begin_fetch_flights t url host e o e' ds fs :
  begin_fetch c t url host e = (o, e') → flights_ok e ds fs →
  flights_ok e' ds (fs ++ match o with FStarted => [(url, host)] | _ => [] end).
Proof.
  unfold begin_fetch. intros Hb F.
  set (start := if match hostFailures e !! host with Some u => (t <? u)%Z | None => false end then _ else _) in Hb.
  assert (start = (o, e') → flights_ok e' ds (fs ++ match o with FStarted => [(url, host)] | _ => [] end)) as Hs.
  { unfold start. clear Hb start. intros Hb.
    destruct (match hostFailures e !! host with Some u => (t <? u)%Z | None => false end);
      [simplify_eq; by rewrite app_nil_r|].
    case_bool_decide as Hu; [simplify_eq; by rewrite app_nil_r|].
    destruct (_ || _)%bool eqn:Ec; [simplify_eq; by rewrite app_nil_r|]. simplify_eq. bool_prop.
    destruct F as [Fs Fp Fz Fu Fr Frz Fi Fh]. constructor; cbn [pending responsePending hostsInflight]; try done.
    - rewrite fmap_app. apply NoDup_snoc. cbn. by rewrite <- Fr.
    - intros x. rewrite fmap_app, elem_of_app, <- Fr. cbn. set_solver.
    - rewrite size_add by done. lia.
    - intros x. rewrite host_count_app, host_count_one. unfold inflight in *. cbn [hostsInflight].
      rewrite lookup_insert. case_decide as Hx; [subst x; rewrite bool_decide_eq_true_2 by done|
        rewrite bool_decide_eq_false_2 by done; by rewrite Fi, Z.add_0_r].
      cbn. by rewrite Fi.
    - intros x. rewrite host_count_app, host_count_one. case_bool_decide as Hx; [subst x|pose proof (Fh x); lia].
      rewrite <- Fi. lia. }
  destruct (responses e !! url) as [r|]; [destruct (t <? c_expires r)%Z; [simplify_eq; by rewrite app_nil_r|]|]; by apply Hs.
Qed.

Lemma finish_fetch_flights t o1 o2 url host answer e res e' ds fs1 fs2 :
  finish_fetch c t o1 o2 url host answer e = (res, e') →
  flights_ok e ds (fs1 ++ (url, host) :: fs2) → flights_ok e' ds (fs1 ++ fs2).
Proof.
  intros Hb [Fs Fp Fz Fu Fr Frz Fi Fh]. unfold finish_fetch in Hb.
  set (hosts := if (inflight e host - 1 <=? 0)%Z then _ else _) in Hb.
  rewrite fmap_app in Fu. cbn in Fu. apply NoDup_middle in Fu as [Fu Hu].
  assert (pending e' = pending e ∧ responsePending e' = responsePending e ∖ {[url]} ∧ hostsInflight e' = hosts) as (Ep & Er & Eh).
  { destruct (r ← answer; _); by simplify_eq. }
  assert (∀ h, host_count h (fs1 ++ (url, host) :: fs2) = (host_count h (fs1 ++ fs2) + if bool_decide (host = h) then 1 else 0)%Z) as Hc.
  { intros h. rewrite !host_count_app, host_count_cons. lia. }
  constructor; rewrite ?Ep, ?Er; try done.
  - by rewrite fmap_app.
  - intros x. rewrite elem_of_difference, Fr, elem_of_singleton, !fmap_app, !elem_of_app. cbn.
    rewrite elem_of_cons. rewrite elem_of_app in Hu. naive_solver.
  - pose proof (subseteq_size (responsePending e ∖ {[url]}) (responsePending e) ltac:(set_solver)). lia.
  - intros h. unfold inflight. rewrite Eh. unfold hosts.
    pose proof (Fi h) as Hh. pose proof (Fi host) as Hhost. rewrite Hc in Hh, Hhost.
    rewrite (bool_decide_eq_true_2 (host = host)) in Hhost by done. cbv iota in Hhost. pose proof (host_count_nonneg host (fs1 ++ fs2)).
    destruct (Z.leb_spec (inflight e host - 1) 0) as [Hle|Hgt]; destruct (decide (host = h)) as [->|Hx].
    + rewrite lookup_delete_eq. transitivity 0%Z; [done|lia].
    + rewrite lookup_delete_ne by done. rewrite bool_decide_eq_false_2 in Hh by done. unfold inflight in Hh. lia.
    + rewrite lookup_insert_eq. transitivity (inflight e h - 1)%Z; [done|lia].
    + rewrite lookup_insert_ne by done. rewrite bool_decide_eq_false_2 in Hh by done. unfold inflight in Hh. lia.
  - intros h. pose proof (Fh h). rewrite Hc in *. destruct (bool_decide (host = h)); lia.
Qed.

(** ** The invariant *)

Definition bounded (s : system H) : Prop :=
  caches_ok (ev s) ∧ flights_ok (ev s) (refreshers s).*1 (fetchers s).

Lemma wake_domains url res rs : (map (wake url res) rs).*1 = rs.*1.
Proof.
  induction rs as [|[d [t|u k]] rs IH]; [done|..]; cbn; rewrite ?IH; [done|].
  unfold wake. cbn. by destruct (bool_decide (u = url)).
Qed.

Lemma refresh_step_bounded d t tk e h st e' h' fs' ds fs :
  refresh_step d t tk e h st e' h' fs' → caches_ok e → flights_ok e ds fs →
  caches_ok e' ∧ flights_ok e' ds (fs ++ fs').
Proof.
  intros Hst Hc Hf. destruct Hst as [| | | | | |? ? ? ? ? ? ? ? Hb|? ? ? ? ? ? ? ? Hb Ho|? ? ? ? ? ? ? Hb|? ? ? ? ? ? ? Hb];
    rewrite ?app_nil_r; try done;
    (split; [by eapply begin_fetch_caches|]);
    pose proof (begin_fetch_flights _ _ _ _ _ _ _ _ Hb Hf) as HF;
    [|destruct Ho as [->| ->]| |]; by rewrite ?app_nil_r in HF.
Qed.

Lemma step_bounded s s' :
  (1 ≤ maxRecords c)%Z → step s s' → bounded s → bounded s'.
Proof.
  intros Hmax Hstep [Hc Hf]. unfold bounded in *. destruct Hstep; cbn [ev refreshers fetchers] in *; try done.
  - split; [by eapply begin_evaluate_caches|]. rewrite fmap_app.
    match goal with H : begin_evaluate _ _ _ _ = _ |- _ => pose proof (begin_evaluate_flights _ _ _ _ _ _ _ H Hf) as HF end.
    by destruct o.
  - rewrite fmap_app in *. cbn in *. by eapply refresh_step_bounded.
  - by rewrite fmap_app in *.
  - rewrite wake_domains. split; [by eapply finish_fetch_caches|by eapply finish_fetch_flights].
  - rewrite fmap_app in Hf. cbn in Hf. split; [by apply finish_refresh_caches|].
    rewrite fmap_app. by apply finish_refresh_flights.
Qed.

Lemma initial_bounded t h : (1 ≤ maxRecords c)%Z → (0 ≤ maxPerHost c)%Z → bounded (initial t h).
Proof.
  intros Hm Hh. unfold bounded, initial. cbn [ev refreshers fetchers].
  split; constructor; cbn [new_evaluator lru cache failures responses hostFailures pending responsePending];
    rewrite ?map_size_empty, ?size_empty; try (by constructor); try (cbn; lia); try (intros; set_solver).
  intros d. rewrite lookup_empty. split; [by intros ?%elem_of_nil|by intros [? ?]].
Qed.

(** in every interleaving of callers, refreshes and fetches the evaluator's
    tables stay within their bounds: at most one refresh per operator and one fetch
    per URL, each in flight exactly while it is marked pending, at most [maxPerHost]
    fetches to one host, counted exactly, and at most [maxRecords] entries in each
    table, the recency list being the cache's domains without duplicates. *)
Theorem evaluator_bounded t h s :
  (1 ≤ maxRecords c)%Z → (0 ≤ maxPerHost c)%Z → reachable t h s → bounded s.
Proof.
  intros Hm Hh Hr. unfold reachable in Hr. pose proof (initial_bounded t h Hm Hh) as Hb.
  induction Hr as [|s1 s2 s3 Hs _ IH]; [done|]. apply IH. by eapply step_bounded.
Qed.

End Conc.

(** ** A run *)

(** Acme publishes its record behind a pointer; a caller asks for its buying agent
    while another waits for the same refresh, and later the record disappears. *)
Definition sample_config : config := MkEvalConfig (60 * Second) 256 4 (240 * Second).

Definition pointer_json : string := dq "{'authoritative_location':'https://cdn.example.com/acme.json'}".

Definition first_read : list action :=
  [Call "https://buy.acme.com" "adcp:buying"; Call "acme.com" ""; RunRefresh 0 true; RunRefresh 0 true;
   Tick Second; Respond 0 (Some (MkTrustResponse 200 pointer_json)); RunRefresh 0 true; RunRefresh 0 true; RunRefresh 0 true;
   Respond 0 (Some (MkTrustResponse 200 house_json)); RunRefresh 0 true; RunRefresh 0 true; RunRefresh 0 true;
   EndRefresh 0; Return 0; Return 1].

Definition then_missing : list action :=
  [Tick (61 * Second); Call "https://buy.acme.com" "adcp:buying"; RunRefresh 0 true; RunRefresh 0 true;
   Respond 0 (Some (MkTrustResponse 404 "")); RunRefresh 0 true; EndRefresh 0].

Definition sample_system : Type := system (Table AuthorityState).

Definition play_toy : sample_system → list action → option sample_system :=
  play (RT := ascii_runtime) (PSL := toy_psl) (AH := memory_history (RT := ascii_runtime) (PSL := toy_psl)) sample_config.

Definition sample_start : sample_system := initial 0%Z newMemoryAuthorityHistory.

Definition sample_record : EvaluatedTrustRecord :=
  MkEvaluated "acme.com" "https://cdn.example.com/acme.json" house_record (60 * Second) false.

Lemma play_app s l l' s' : play_toy s l = Some s' → play_toy s (l ++ l') = play_toy s' l'.
Proof.
  unfold play_toy. revert s. induction l as [|a l IH]; intros s; cbn [play app]; [by intros [= ->]|].
  destruct (play1 _ s a) as [s1|]; [|done]. cbn. apply IH.
Qed.

(** What a schedule leaves, read off the computation. *)
Lemma played {A} (f : sample_system → A) s l s' v :
  play_toy s l = Some s' → f <$> play_toy s l = Some v → f s' = v.
Proof. intros ->. by intros [= ->]. Qed.

Lemma first_read_plays : ∃ s, play_toy sample_start first_read = Some s.
Proof. destruct (play_toy sample_start first_read) eqn:E; [by eexists|]. vm_compute in E. discriminate E. Qed.

Lemma first_read_callers s :
  play_toy sample_start first_read = Some s →
  callers s =
    [MkCaller "https://buy.acme.com" "adcp:buying" "acme.com" (Returned Second (Ok sample_record));
     MkCaller "acme.com" "" "acme.com" (Returned Second (Ok sample_record))].
Proof. intros E. eapply (played callers); [exact E|]. by vm_compute. Qed.

Lemma evaluator_bounded_witness :
  ∃ s, play_toy sample_start first_read = Some s ∧ bounded sample_config s.
Proof.
  destruct first_read_plays as [s Hs]. exists s. split; [exact Hs|].
  apply (evaluator_bounded (RT := ascii_runtime) (PSL := toy_psl)
           (AH := memory_history (RT := ascii_runtime) (PSL := toy_psl)) sample_config 0%Z newMemoryAuthorityHistory s).
  - by vm_compute.
  - by vm_compute.
  - exact (play_steps _ _ _ _ Hs).
Defined.
