(* ===== verification/TrustProps.v ===== *)
(** * TrustProps: what the evaluator's answers mean

    Invariants of [TrustConc]: every record an evaluation returns was read from the
    operator's own location (or the one location that one names), within its
    lifetime; and once an operator has served a record, no evaluation ever again
    answers that it publishes none. *)
From S2P Require Import Prelude GoStrings Unicode Json NetUrl StrictJson SigTypes SigBase SafeFetch Origin Psl Quota TrustJson TrustWf Trust TrustConc.
From stdpp Require Import options.

Section Provenance.
Context `{RT : Runtime} `{PSL : PublicSuffixList} (c : config).

Definition fetch_log : Type := list (string * Time * TrustResponse).

Definition trust_url (d : string) : string := "https://" +:+ d +:+ "/.well-known/trust.json".

(** The transport gave a 200 from [url] whose body is record [rec] of domain
    [d], not earlier than one polling interval before [t]. *)
Definition read_from (L : fetch_log) (d url : string) (t : Time) (rec : TrustRecord) : Prop :=
  ∃ f resp, (url, f, resp) ∈ L ∧ RStatus resp = 200%Z ∧ (t ≤ f + interval c)%Z ∧
            ValidateTrustRecord (RBody resp) Reading d = Ok rec.

(** Record [r] speaks for [d]: it was read from the location derived from [d],
    or from the location that a record read there points to, and does not point on. *)
Definition speaks_for (L : fetch_log) (d : string) (r : EvaluatedTrustRecord) : Prop :=
  OperatorDomain r = d ∧ Stale r = false ∧ AuthoritativeLocation (Rec r) = "" ∧
  read_from L d (SourceURL r) (ExpiresAt r) (Rec r) ∧
  (SourceURL r = trust_url d ∨
   ∃ ptr, read_from L d (trust_url d) (ExpiresAt r) ptr ∧ AuthoritativeLocation ptr = SourceURL r ∧ SourceURL r ≠ "").

Lemma read_from_mono L L' d url t rec : L ⊆ L' → read_from L d url t rec → read_from L' d url t rec.
Proof. intros Hs (f & resp & Hin & H). exists f, resp. split; [by apply Hs|done]. Qed.

Lemma read_from_earlier L d url t t' rec : (t' ≤ t)%Z → read_from L d url t rec → read_from L d url t' rec.
Proof. intros Ht (f & resp & Hin & H1 & H2 & H3). exists f, resp. split_and!; [done|done|lia|done]. Qed.

Lemma speaks_for_mono L L' d r : L ⊆ L' → speaks_for L d r → speaks_for L' d r.
Proof.
  intros Hs (H1 & H2 & H3 & H4 & H5). split_and!; [done|done|done|by eapply read_from_mono|].
  destruct H5 as [?|(ptr & ? & ?)]; [by left|]. right. exists ptr. split; [by eapply read_from_mono|done].
Qed.

(** A cached response comes from the log; a 200 lives one polling interval. *)
Definition response_ok (L : fetch_log) (url : string) (r : cachedResponse) : Prop :=
  ∃ f, (url, f, c_resp r) ∈ L ∧ (RStatus (c_resp r) = 200%Z → (c_expires r ≤ f + interval c)%Z).

Definition last_ok (L : fetch_log) (d : string) (st : AuthorityState) : Prop :=
  ∀ r, LastRecord st = Some r → speaks_for L d r.

(** A refresh of [d] that can only end with a record that speaks for [d] and
    only stores such records, whatever the environment answers. *)
Fixpoint sound (L : fetch_log) (d : string) (t : task) : Prop :=
  match t with
  | Done (Ok r) => speaks_for L d r
  | Done (Err _) => True
  | ReadClock k => ∀ x, sound L d (k x)
  | FetchResponse u k =>
      (∀ L', L ⊆ L' → sound L' d (k None)) ∧
      ∀ L' r, L ⊆ L' → response_ok L' u r → sound L' d (k (Some r))
  | Load k => (∀ L', L ⊆ L' → sound L' d (k None)) ∧
              ∀ L' st, L ⊆ L' → last_ok L' d st → sound L' d (k (Some st))
  | Store st k => last_ok L d st ∧ ∀ b, sound L d (k b)
  end.

Lemma last_ok_mono L L' d st : L ⊆ L' → last_ok L d st → last_ok L' d st.
Proof. intros Hs Hl r Hr. eapply speaks_for_mono; [done|by apply Hl]. Qed.

Lemma sound_mono L L' d t : L ⊆ L' → sound L d t → sound L' d t.
Proof.
  intros Hs. induction t as [[r|e]|k IH|u k IH|k IH|st k IH]; cbn [sound].
  - by apply speaks_for_mono.
  - done.
  - intros H x. by apply IH.
  - intros [H1 H2]. split; intros; [apply H1|apply H2]; by try (etrans; eauto).
  - intros [H1 H2]. split; intros; [apply H1|apply H2]; by try (etrans; eauto).
  - intros [H1 H2]. split; [by eapply last_ok_mono|]. intros b. by apply IH.
Qed.

Lemma sound_then L d t f :
  sound L d t → (∀ L' r, L ⊆ L' → match r with Ok r => speaks_for L' d r | Err _ => True end → sound L' d (f r)) →
  sound L d (then_task t f).
Proof.
  revert L. induction t as [r|k IH|u k IH|k IH|st k IH]; intros L Ht Hf; cbn [then_task sound] in *.
  - apply Hf; [done|]. by destruct r.
  - intros x. by apply IH.
  - destruct Ht as [H1 H2]. split; intros; apply IH; auto; intros; (apply Hf; [by etrans|done]).
  - destruct Ht as [H1 H2]. split; intros; apply IH; auto; intros; (apply Hf; [by etrans|done]).
  - destruct Ht as [H1 H2]. split; [done|]. intros b. by apply IH.
Qed.

Lemma markSeen200_sound L d k : sound L d k → sound L d (markSeen200 k).
Proof.
  intros Hk. unfold markSeen200. cbn [sound]. split; [done|]. intros L' st Hs Hl. cbn [sound].
  destruct (Served st); [by eapply sound_mono|]. cbn [sound]. split; [exact Hl|].
  intros []; [by eapply sound_mono|done].
Qed.

(** Where a resolution is: at the derived location, or at one a record read
    there points to. *)
Definition at_source (L : fetch_log) (d source : string) (t : Time) : Prop :=
  source = trust_url d ∨
  ∃ ptr, read_from L d (trust_url d) t ptr ∧ AuthoritativeLocation ptr = source ∧ source ≠ "".

Lemma at_source_mono L L' d source t : L ⊆ L' → at_source L d source t → at_source L' d source t.
Proof.
  intros Hs [->|(ptr & Hp & H)]; [by left|]. right. exists ptr. split; [by eapply read_from_mono|done].
Qed.

Lemma at_source_earlier L d source t t' : (t' ≤ t)%Z → at_source L d source t → at_source L d source t'.
Proof.
  intros Hs [->|(ptr & Hp & H)]; [by left|]. right. exists ptr. split; [by eapply read_from_earlier|done].
Qed.

(** What a hop does with a 200. *)
Lemma hop_record_sound hops' L d source t resp :
  at_source L d source t → (hops' = 1 → source = trust_url d) →
  (∀ rec, ValidateTrustRecord (RBody resp) Reading d = Ok rec → read_from L d source t rec) →
  (∀ next, hops' = 1 → at_source L d next t → sound L d (resolve_hops hops' d next t)) → hops' ≤ 1 →
  sound L d
    match ValidateTrustRecord (RBody resp) Reading d with
    | Err _ => Done (Err (trustErr "trust record is invalid"))
    | Ok rec =>
        if bool_decide (AuthoritativeLocation rec = "")
        then Done (Ok (MkEvaluated d source rec t false))
        else match hops' with
             | 0 => Done (Err (trustErr "a second authoritative_location hop is forbidden"))
             | S _ => resolve_hops hops' d (AuthoritativeLocation rec) t
             end
    end.
Proof.
  intros Hat Hfirst Hread Hnext Hle. destruct (ValidateTrustRecord (RBody resp) Reading d) as [rec|] eqn:Ev; [|done].
  specialize (Hread rec eq_refl). case_bool_decide as Hp.
  - by split_and!.
  - destruct hops' as [|[|]]; [done| |lia]. apply Hnext; [done|]. right. exists rec.
    rewrite <- (Hfirst eq_refl) at 1. by split_and!.
Qed.

Lemma resolve_hops_sound hops L d source t :
  hops ≤ 2 → at_source L d source t → (hops = 2 → source = trust_url d) → sound L d (resolve_hops hops d source t).
Proof.
  revert L source t. induction hops as [|hops' IH]; intros L source t Hle Hat Hfirst; [done|].
  cbn [resolve_hops]. destruct (ValidateTarget source); [|done]. cbn [sound]. split; [done|].
  intros L1 r Hs (f & Hin & Hexp). set (t' := if (c_expires r <? t)%Z then c_expires r else t).
  assert (t' ≤ t ∧ t' ≤ c_expires r)%Z as [Ht Hr] by (unfold t'; destruct (Z.ltb_spec (c_expires r) t); lia).
  set (rest := if negb (RStatus (c_resp r) =? 200)%Z || _ then _ else _).
  assert (sound L1 d rest) as Hrest.
  { unfold rest. destruct (negb (RStatus (c_resp r) =? 200)%Z || _) eqn:E; [done|]. bool_prop.
    apply markSeen200_sound. apply hop_record_sound.
    - eapply at_source_earlier; [exact Ht|]. by eapply at_source_mono.
    - intros ->. by apply Hfirst.
    - intros rec Hv. exists f, (c_resp r). split_and!; [done|done| |done].
      specialize (Hexp ltac:(done)). lia.
    - intros next -> Hn. apply IH; [lia|done|lia].
    - lia. }
  clearbody rest. destruct (_ || _)%bool; [|exact Hrest]. cbn [sound]. split; [done|]. intros L' st Hs' _.
  destruct (Served st); [done|]. case_bool_decide; [done|]. by eapply sound_mono.
Qed.

Lemma refresh_task_sound L d : sound L d (refresh_task c d (trust_url d)).
Proof.
  unfold refresh_task. apply sound_then.
  - unfold resolve. cbn [sound]. intros t. apply resolve_hops_sound; [done|by left|done].
  - intros L' r Hs Hr. destruct r as [r|e]; [|done]. unfold storeLastGood. cbn [sound]. split; [done|].
    intros L2 st Hs2 Hl. cbn [sound]. split; [intros r' [= <-]; by eapply speaks_for_mono|].
    intros []; [by eapply speaks_for_mono|done].
Qed.

(** ** The invariant of the system *)

Context {H : Type} `{AH : AuthorityHistory H} {PS : PublicSuffixSpec}.
#[local] Set Default Proof Using "Type*".

Definition refresher_ok (L : fetch_log) (r : string * rstate) : Prop :=
  match r.2 with
  | Running t => sound L r.1 t
  | Awaiting u k => (∀ L', L ⊆ L' → sound L' r.1 (k None)) ∧
                    ∀ L' x, L ⊆ L' → response_ok L' u x → sound L' r.1 (k (Some x))
  end.

(** What a caller got: a record that speaks for the operator of its argument,
    that was alive and lists the argument with the role asked for. *)
Definition caller_ok (L : fetch_log) (ca : caller) : Prop :=
  match ca_state ca with
  | Waiting => RegistrableDomain (ca_origin ca) = Some (ca_domain ca)
  | Holding r => RegistrableDomain (ca_origin ca) = Some (ca_domain ca) ∧ speaks_for L (ca_domain ca) r
  | Returned t (Ok r) =>
      RegistrableDomain (ca_origin ca) = Some (ca_domain ca) ∧ speaks_for L (ca_domain ca) r ∧ (t < ExpiresAt r)%Z ∧
      (ca_role ca ≠ "" → is_Some (Agent (Rec r) (ca_origin ca) (ca_role ca)))
  | Returned _ (Err _) => True
  end.

Record sound_system (s : system H) : Prop := {
  s_responses : ∀ u r, responses (ev s) !! u = Some r → response_ok (log s) u r;
  s_cache : ∀ d r, cache (ev s) !! d = Some r → speaks_for (log s) d r;
  s_refreshers : Forall (refresher_ok (log s)) (refreshers s);
  s_hist : ∀ d, last_ok (log s) d (LoadAuthority (hist s) d);
  s_callers : Forall (caller_ok (log s)) (callers s);
}.

Lemma TrustRecordURL_host origin url u :
  TrustRecordURL origin = Ok url → ParseURL url = Some u →
  RegistrableDomain origin = Some (Hostname u) ∧ url = trust_url (Hostname u).
Proof.
  unfold TrustRecordURL. destruct (RegistrableDomain origin) as [d|] eqn:Ed; [|done]. intros [= <-] Hu.
  apply RegistrableDomain_host in Ed as Hv.
  destruct (parse_https_host d "/.well-known/trust.json" Hv) as (u' & Hu' & Hh); try done.
  assert (u = u') as -> by congruence. by rewrite Hh.
Qed.

Lemma refresher_ok_mono L L' r : L ⊆ L' → refresher_ok L r → refresher_ok L' r.
Proof.
  intros Hs. unfold refresher_ok. destruct r.2 as [t|u k]; [by apply sound_mono|].
  intros [H1 H2]. split; intros; [apply H1|apply H2]; by try (etrans; eauto).
Qed.

Lemma caller_ok_mono L L' ca : L ⊆ L' → caller_ok L ca → caller_ok L' ca.
Proof.
  intros Hs. unfold caller_ok. destruct (ca_state ca) as [|r|t [r|e]]; try done.
  - intros [? ?]. split; [done|by eapply speaks_for_mono].
  - intros (? & ? & ? & ?). split_and!; try done. by eapply speaks_for_mono.
Qed.

Lemma response_ok_mono L L' u r : L ⊆ L' → response_ok L u r → response_ok L' u r.
Proof. intros Hs (f & Hin & Hf). exists f. split; [by apply Hs|done]. Qed.

(** ** What the critical sections change *)

Lemma begin_evaluate_keeps t d e o e' :
  begin_evaluate c t d e = (o, e') →
  cache e' = cache e ∧ responses e' = responses e ∧ ∀ r, o = Hit r → cache e !! d = Some r.
Proof.
  assert (∀ o e', start_refresh c t d e = (o, e') → cache e' = cache e ∧ responses e' = responses e ∧ ∀ r, o ≠ Hit r) as Hs.
  { unfold start_refresh. intros o0 e0.
    destruct (match failures e !! d with Some (err, r) => if (t <? r)%Z then Some err else None | None => None end);
      [by intros [= <- <-]|]. intros E. by split_if. }
  unfold begin_evaluate. destruct (cache e !! d) as [r|].
  - destruct (t <? ExpiresAt r)%Z.
    + intros [= <- <-]. split_and!; try done. by intros ? [= <-].
    + intros E. destruct (Hs _ _ E) as (? & ? & Hn). split_and!; try done. intros r' ->. by destruct (Hn r').
  - intros E. destruct (Hs _ _ E) as (? & ? & Hn). split_and!; try done. intros r' ->. by destruct (Hn r').
Qed.

Lemma begin_fetch_keeps t url host e o e' :
  begin_fetch c t url host e = (o, e') →
  cache e' = cache e ∧ responses e' = responses e ∧ ∀ r, o = FCached r → responses e !! url = Some r.
Proof.
  unfold begin_fetch. intros E.
  destruct (responses e !! url) as [r|]; [destruct (t <? c_expires r)%Z|].
  - simplify_eq. split_and!; try done. by intros ? [= <-].
  - destruct (match hostFailures e !! host with Some u => (t <? u)%Z | None => false end); [by simplify_eq|]. by split_if.
  - destruct (match hostFailures e !! host with Some u => (t <? u)%Z | None => false end); [by simplify_eq|]. by split_if.
Qed.

Lemma evict_sub {A} max order keep (m : gmap string A) k x : evict max order keep m !! k = Some x → m !! k = Some x.
Proof.
  unfold evict. revert m. induction order as [|k' order IH]; intros m; cbn; [done|]. intros Hk%IH.
  destruct (_ <=? _)%Z; [done|]. case_bool_decide; [done|]. by apply lookup_delete_Some in Hk as [_ ?].
Qed.

Lemma bound_responses_sub t order url m k x : bound_responses c t order url m !! k = Some x → m !! k = Some x.
Proof.
  unfold bound_responses. destruct (_ <=? _)%Z; [done|]. intros Hk%evict_sub. by apply map_lookup_filter_Some in Hk as [? _].
Qed.

Lemma finish_fetch_keeps t o1 o2 url host answer e res e' :
  finish_fetch c t o1 o2 url host answer e = (res, e') →
  cache e' = cache e ∧
  (∀ r, res = Some r → answer = Some (c_resp r) ∧ (RStatus (c_resp r) = 200%Z → c_expires r = t + interval c)%Z) ∧
  (∀ u r, responses e' !! u = Some r → (u = url ∧ res = Some r) ∨ responses e !! u = Some r).
Proof.
  unfold finish_fetch. intros E.
  destruct answer as [a|]; cbn [mbind option_bind] in E; [destruct (TrustRecordMaxBytes <? zlen (RBody a))%Z|];
    simplify_eq; try (split_and!; [done|done|by right]).
  split_and!; [done| |].
  - intros r [= <-]. split; [done|]. cbn. by intros ->.
  - intros u r Hr%bound_responses_sub. apply lookup_insert_Some in Hr as [[<- <-]|[_ ?]]; [by left|by right].
Qed.

Lemma trim_lru_sub max (l : list string) (m : gmap string EvaluatedTrustRecord) l' m' k x :
  trim_lru max l m = (l', m') → m' !! k = Some x → m !! k = Some x.
Proof.
  intros [= _ <-]. induction (drop _ l) as [|y ys IH]; cbn; [done|]. intros Hk.
  apply IH. by apply lookup_delete_Some in Hk as [_ ?].
Qed.

Lemma finish_refresh_keeps t orders d res e :
  let e' := finish_refresh c t orders d res e in
  responses e' = responses e ∧
  ∀ k r, cache e' !! k = Some r → (k = d ∧ res = Ok r) ∨ cache e !! k = Some r.
Proof.
  unfold finish_refresh. destruct res as [rec|err]; [|split; [done|by right]].
  destruct (trim_lru _ _ _) as [l' m'] eqn:Et. split; [done|]. cbn [cache]. intros k r Hr.
  eapply trim_lru_sub in Hr; [|exact Et]. apply lookup_insert_Some in Hr as [[<- <-]|[_ ?]]; [by left|by right].
Qed.

(** ** Preservation *)

Lemma refresh_step_sound d t tk e h st e' h' fs' L :
  AuthorityHistorySpec H → refresh_step c d t tk e h st e' h' fs' → sound L d tk →
  (∀ u r, responses e !! u = Some r → response_ok L u r) → (∀ d, last_ok L d (LoadAuthority h d)) →
  refresher_ok L (d, st) ∧ cache e' = cache e ∧ responses e' = responses e ∧ (∀ d, last_ok L d (LoadAuthority h' d)).
Proof.
  intros HS Hst Hsound Hr Hh.
  assert (∀ s, last_ok L d s → ∀ d', last_ok L d' (LoadAuthority (StoreAuthority h d s) d')) as Hstore.
  { intros s Hs d'. destruct (decide (d = d')) as [<-|Hne]; [|rewrite store_other by done; apply Hh].
    destruct (store_same h d s) as [->|[-> _]]; [done|apply Hh]. }
  destruct Hst; cbn [sound] in Hsound; unfold refresher_ok; cbn [fst snd];
    try match goal with Hb : begin_fetch _ _ _ _ _ = _ |- _ => apply begin_fetch_keeps in Hb as (Hc & Hrs & Hcached) end;
    split_and!; try done; try (by apply Hsound).
  - by apply Hstore, Hsound.
  - by apply Hstore, Hsound.
  - apply Hsound; [done|]. by apply Hr, Hcached.
Qed.

Lemma begin_evaluate_system t e h rs fs cs l origin role url u o e' :
  TrustRecordURL origin = Ok url → ParseURL url = Some u → begin_evaluate c t (Hostname u) e = (o, e') →
  sound_system (MkSystem t e h rs fs cs l) →
  sound_system (MkSystem t e' h
     (rs ++ match o with Started => [(Hostname u, Running (refresh_task c (Hostname u) url))] | _ => [] end)
     fs (cs ++ [MkCaller origin role (Hostname u) (caller_start t o)]) l).
Proof.
  intros Hurl Hu Hb [Hr Hc Hrf Hh Hca]. cbn [ev log hist refreshers callers] in *.
  destruct (TrustRecordURL_host _ _ _ Hurl Hu) as [Hd ->].
  destruct (begin_evaluate_keeps _ _ _ _ _ Hb) as (Ec & Er & Ehit).
  constructor; cbn [ev log hist refreshers callers]; rewrite ?Ec, ?Er; try done.
  - apply Forall_app. split; [done|]. destruct o; constructor; try constructor. apply refresh_task_sound.
  - apply Forall_app. split; [done|]. constructor; [|constructor]. unfold caller_ok. cbn.
    destruct o; cbn; try done. split; [done|]. by apply Hc, Ehit.
Qed.

Lemma wake_sound L L' url res rs :
  L ⊆ L' → (∀ r, res = Some r → response_ok L' url r) → Forall (refresher_ok L) rs →
  Forall (refresher_ok L') (map (wake url res) rs).
Proof.
  intros Hs Hres Hrs. apply Forall_fmap. apply (Forall_impl _ _ _ Hrs). intros [d [t|u k]] Hr; unfold compose, wake; cbn [snd fst].
  - by eapply refresher_ok_mono.
  - destruct (bool_decide (u = url)) eqn:Eu; [|by eapply refresher_ok_mono].
    apply bool_decide_eq_true in Eu as ->. unfold refresher_ok in *. cbn in *. destruct Hr as [H1 H2].
    destruct res as [r|]; [by apply H2; auto|by apply H1].
Qed.

Lemma answer_sound L t d res cs :
  match res with Ok r => speaks_for L d r | Err _ => True end →
  Forall (caller_ok L) cs → Forall (caller_ok L) (map (answer_caller t d res) cs).
Proof.
  intros Hres Hcs. apply Forall_fmap. apply (Forall_impl _ _ _ Hcs). intros ca Hca. unfold compose, answer_caller.
  destruct (ca_state ca) eqn:Es; [|done..]. case_bool_decide as Hd; [|done]. subst d.
  unfold caller_ok in *. rewrite Es in Hca. cbn. destruct res; by try split.
Qed.

Lemma finish_evaluate_Ok t origin role r r' :
  finish_evaluate t origin role r = Ok r' → r' = r ∧ (t < ExpiresAt r)%Z ∧ (role ≠ "" → is_Some (Agent (Rec r) origin role)).
Proof.
  unfold finish_evaluate. destruct (Z.ltb_spec t (ExpiresAt r)); [|done]. cbn [negb]. case_bool_decide as Hrole; cbn [negb].
  - by intros [= <-].
  - destruct (Agent (Rec r) origin role) eqn:E; [|done]. intros [= <-]. split_and!; by eauto.
Qed.

Lemma step_sound s s' : AuthorityHistorySpec H → step c s s' → sound_system s → sound_system s'.
Proof.
  intros HS Hstep Hinv. destruct Hstep; [| |destruct Hinv as [Hr Hc Hrf Hh Hca]..]; cbn [ev log hist refreshers callers] in *.
  - destruct Hinv. by constructor.
  - by eapply begin_evaluate_system.
  - constructor; cbn; try done. apply Forall_app. by repeat constructor.
  - constructor; cbn; try done. apply Forall_app in Hca as [H1 [H2 H3]%Forall_cons]. apply Forall_app. split; [done|].
    constructor; [|done]. unfold caller_ok in *. cbn.
    match goal with E : ca_state ca = Holding _ |- _ => rewrite E in H2 end. destruct H2 as [Hd Hrec].
    destruct (finish_evaluate t (ca_origin ca) (ca_role ca) rec) as [r'|] eqn:Ef; [|done].
    apply finish_evaluate_Ok in Ef as (-> & ? & ?). done.
  - constructor; cbn; try done. apply Forall_app in Hca as [H1 [H2 H3]%Forall_cons]. apply Forall_app. split; [done|].
    by constructor.
  - apply Forall_app in Hrf as [H1 [H2 H3]%Forall_cons]. 
    match goal with Hst : refresh_step _ _ _ _ _ _ _ _ _ _ |- _ =>
      destruct (refresh_step_sound _ _ _ _ _ _ _ _ _ l HS Hst) as (Hok & Ec & Er & Hh'); [exact H2|done|done|] end.
    constructor; cbn; rewrite ?Ec, ?Er; try done. apply Forall_app. split; [done|]. by constructor.
  - constructor; cbn; try done. apply Forall_app in Hrf as [H1 [H2 H3]%Forall_cons]. apply Forall_app. split; [done|].
    constructor; [|done]. destruct H2 as [H2 _]. by apply H2.
  - match goal with E : finish_fetch _ _ _ _ _ _ _ _ = _ |- _ => apply finish_fetch_keeps in E as (Ec & Hres & Hrs) end.
    set (l' := match answer with Some r => _ | None => _ end).
    assert (l ⊆ l') as Hl by (unfold l'; destruct answer; set_solver).
    assert (∀ r, res = Some r → response_ok l' url r) as Hok.
    { intros r ->. destruct (Hres r eq_refl) as [-> Hexp]. exists t. unfold l'. split; [set_solver|]. intros E. rewrite (Hexp E). done. }
    constructor; cbn; rewrite ?Ec.
    + intros u r Hu. destruct (Hrs u r Hu) as [[-> ?]|?]; [by apply Hok|]. eapply response_ok_mono; [done|by apply Hr].
    + intros d r Hd. eapply speaks_for_mono; [done|by apply Hc].
    + by eapply wake_sound.
    + intros d. eapply last_ok_mono; [done|by apply Hh].
    + apply (Forall_impl _ _ _ Hca). intros ca. by apply caller_ok_mono.
  - apply Forall_app in Hrf as [H1 [H2 H3]%Forall_cons]. cbn in H2.
    pose proof (finish_refresh_keeps t orders d r e) as [Er Hck].
    constructor; cbn [ev log hist refreshers callers]; rewrite ?Er; try done.
    + intros k x Hk. destruct (Hck k x Hk) as [[-> ->]|?]; [done|by apply Hc].
    + by apply Forall_app.
    + apply answer_sound; [by destruct r|done].
Qed.

Lemma returned_speaks_for (HS : AuthorityHistorySpec H) t0 h0 s ca t r :
  (∀ d, LastRecord (LoadAuthority h0 d) = None) → reachable c t0 h0 s →
  ca ∈ callers s → ca_state ca = Returned t (Ok r) →
  RegistrableDomain (ca_origin ca) = Some (ca_domain ca) ∧ speaks_for (log s) (ca_domain ca) r ∧ (t < ExpiresAt r)%Z ∧
  (ca_role ca ≠ "" → is_Some (Agent (Rec r) (ca_origin ca) (ca_role ca))).
Proof.
  intros Hh0 Hr Hin Hst.
  assert (sound_system s) as [_ _ _ _ Hca].
  { unfold reachable in Hr. assert (sound_system (initial t0 h0)) as Hi.
    { constructor; cbn; try (by constructor); try (intros ? ?; by rewrite lookup_empty).
      intros d r' E. by rewrite Hh0 in E. }
    induction Hr as [|s1 s2 s3 Hs _ IH]; [done|]. apply IH; [done..|]. by eapply step_sound. }
  rewrite Forall_forall in Hca. specialize (Hca ca Hin). unfold caller_ok in Hca. by rewrite Hst in Hca.
Qed.

(** whatever the interleaving, a record that [Evaluate] returns speaks for
    the registrable domain of the caller's argument: it was read by the
    transport with status 200, at most one polling interval before it expires,
    from that domain's own location or from the one location a record read there
    names; it is alive when it is returned, and with a role it lists exactly the
    argument's origin with that role. *)
Theorem evaluate_speaks_for (HS : AuthorityHistorySpec H) t0 h0 s ca t r :
  (∀ d, LastRecord (LoadAuthority h0 d) = None) → reachable c t0 h0 s →
  ca ∈ callers s → ca_state ca = Returned t (Ok r) →
  RegistrableDomain (ca_origin ca) = Some (ca_domain ca) ∧ speaks_for (log s) (ca_domain ca) r ∧ (t < ExpiresAt r)%Z ∧
  (ca_role ca ≠ "" → is_Some (Agent (Rec r) (ca_origin ca) (ca_role ca))).
Proof. intros. by eapply (returned_speaks_for HS). Qed.

End Provenance.

Lemma evaluate_speaks_for_witness :
  ∃ s, play_toy sample_start first_read = Some s ∧
       speaks_for (RT := ascii_runtime) (PSL := toy_psl) sample_config (log s) "acme.com" sample_record ∧
       is_Some (Agent (RT := ascii_runtime) house_record "https://buy.acme.com" "adcp:buying").
Proof.
  destruct first_read_plays as [s Hs]. exists s. split; [exact Hs|].
  destruct (evaluate_speaks_for (RT := ascii_runtime) (PSL := toy_psl) sample_config
              (AH := memory_history (RT := ascii_runtime) (PSL := toy_psl)) (PS := toy_psl_spec)
              memory_history_spec 0%Z newMemoryAuthorityHistory s
              (MkCaller "https://buy.acme.com" "adcp:buying" "acme.com" (Returned Second (Ok sample_record)))
              Second sample_record) as (_ & Hspeaks & _ & Hagent).
  - done.
  - exact (play_steps _ _ _ _ Hs).
  - rewrite (first_read_callers _ Hs). by left.
  - done.
  - split; [exact Hspeaks|]. by apply Hagent.
Defined.

(** ** No downgrade *)

Section NoDowngrade.
Context `{RT : Runtime} `{PSL : PublicSuffixList} (c : config).
Context {H : Type} `{AH : AuthorityHistory H} `{HS : !AuthorityHistorySpec H}.
#[local] Set Default Proof Using "Type*".

Definition served (h : H) (d : string) : bool := Served (LoadAuthority h d).

(** A refresh that reports absence only while its domain has never served, and
    never takes back that it has; [sv] is what the history says now. *)
Fixpoint honest (sv : bool) (t : task) : Prop :=
  match t with
  | Done (Ok _) => True
  | Done (Err e) => Absent e = true → sv = false
  | ReadClock k => ∀ x, honest sv (k x)
  | FetchResponse _ k => ∀ x, honest sv (k x)
  | Load k => honest sv (k None) ∧ ∀ st, Served st = sv → honest sv (k (Some st))
  | Store st k => (sv = true → Served st = true) ∧ ∀ b sv', (sv = true → sv' = true) → honest sv' (k b)
  end.

Definition honest_state (sv : bool) (st : rstate) : Prop :=
  match st with Running t => honest sv t | Awaiting _ k => ∀ x, honest sv (k x) end.

Lemma honest_then sv t f :
  honest sv t → (∀ sv' r, (match r with Ok _ => True | Err e => Absent e = true → sv' = false end) → honest sv' (f r)) →
  honest sv (then_task t f).
Proof.
  revert sv. induction t as [r|k IH|u k IH|k IH|st k IH]; intros sv Ht Hf; cbn [then_task honest] in *.
  - apply Hf. by destruct r.
  - intros x. by apply IH.
  - intros x. by apply IH.
  - destruct Ht as [H1 H2]. split; [by apply IH|]. intros st Hst. by apply IH; [apply H2|].
  - destruct Ht as [H1 H2]. split; [done|]. intros b sv' Hsv. by apply IH; [apply H2|].
Qed.

Lemma markSeen200_honest k : (∀ sv, honest sv k) → ∀ sv, honest sv (markSeen200 k).
Proof.
  intros Hk sv. unfold markSeen200. cbn [honest]. split; [done|]. intros st Hst. destruct (Served st); [apply Hk|].
  cbn [honest]. split; [done|]. intros [] sv' _; [apply Hk|done].
Qed.

Lemma resolve_hops_honest hops d source t sv : honest sv (resolve_hops hops d source t).
Proof.
  revert source t sv. induction hops as [|hops' IH]; intros source t sv; [done|].
  cbn [resolve_hops]. destruct (ValidateTarget source); [|done]. cbn [honest]. intros [r|]; [|done].
  set (rest := if negb (RStatus (c_resp r) =? 200)%Z || _ then _ else _).
  assert (∀ sv, honest sv rest) as Hrest.
  { unfold rest. intros sv0. destruct (negb _ || _)%bool; [done|]. apply markSeen200_honest. intros sv1.
    destruct (ValidateTrustRecord _ _ _); [|done]. case_bool_decide; [done|]. destruct hops'; [done|apply IH]. }
  clearbody rest. destruct (_ || _)%bool; [|apply Hrest]. cbn [honest]. split; [done|]. intros st Hst.
  destruct (Served st); [done|]. case_bool_decide; [|apply Hrest]. by intros _.
Qed.

Lemma refresh_task_honest d url sv : honest sv (refresh_task c d url).
Proof.
  unfold refresh_task. apply honest_then.
  - unfold resolve. cbn [honest]. intros x. apply resolve_hops_honest.
  - intros sv' [r|e] Hr; [|done]. unfold storeLastGood. cbn [honest]. split; [done|]. intros st Hst. cbn [honest].
    split; [by intros ->|]. by intros [] ? _.
Qed.

(** Cached failures: while its domain is being refreshed a failure has expired,
    and a report of absence has expired once the domain has served. *)
Record no_downgrade_inv (s : system H) : Prop := {
  n_honest : Forall (λ r, honest_state (served (hist s) r.1) r.2) (refreshers s);
  n_pending : ∀ d e t, d ∈ (refreshers s).*1 → failures (ev s) !! d = Some (e, t) → (t ≤ now s)%Z;
  n_absent : ∀ d e t, failures (ev s) !! d = Some (e, t) → Absent e = true → served (hist s) d = true → (t ≤ now s)%Z;
}.

(** The history a refresh step leaves, seen from every domain. *)
Lemma refresh_step_served d t tk e h st e' h' fs' :
  refresh_step c d t tk e h st e' h' fs' → honest (served h d) tk →
  honest_state (served h' d) st ∧ (served h d = true → served h' d = true) ∧ (∀ d', d' ≠ d → served h' d' = served h d') ∧
  failures e' = failures e.
Proof.
  intros Hst Hh. unfold served in *.
  assert (∀ s, (Served (LoadAuthority h d) = true → Served s = true) →
    (Served (LoadAuthority h d) = true → Served (LoadAuthority (StoreAuthority h d s) d) = true) ∧
    ∀ d', d' ≠ d → Served (LoadAuthority (StoreAuthority h d s) d') = Served (LoadAuthority h d')) as Hstore.
  { intros s Hs. split; [|intros d' Hd; by rewrite store_other]. intros Hsv.
    destruct (store_same h d s) as [->|[-> _]]; auto. }
  assert (∀ url host o e', begin_fetch c t url host e = (o, e') → failures e' = failures e) as Hf.
  { clear. unfold begin_fetch. intros url host o e' E.
    destruct (responses e !! url) as [r|]; [destruct (t <? c_expires r)%Z; [by simplify_eq|]|];
      (destruct (match hostFailures e !! host with Some u => (t <? u)%Z | None => false end); [by simplify_eq|]); by split_if. }
  destruct Hst; cbn [honest honest_state] in *; split_and!; try done; try (by apply Hh); try (by eapply Hf).
  all: try (by apply Hstore, Hh).
  - apply Hh. by apply Hstore, Hh.
  - apply Hh. by apply Hstore, Hh.
Qed.

Lemma boundFailures_sub t orders m d x : boundFailures c t orders m !! d = Some x → m !! d = Some x.
Proof.
  unfold boundFailures. destruct (_ <=? _)%Z; [done|].
  assert (∀ fuel m, drop_oldest fuel (maxRecords c) orders m !! d = Some x → m !! d = Some x) as Hdrop.
  { induction fuel as [|f IH]; intros m'; cbn; [done|]. destruct (_ <=? _)%Z; [done|].
    destruct (oldest (orders f) m') as [k|]; [|done]. intros Hd%IH. by apply lookup_delete_Some in Hd as [_ ?]. }
  intros Hd%Hdrop. by apply map_lookup_filter_Some in Hd as [? _].
Qed.

Lemma finish_refresh_failures t orders d r e d' er t' :
  failures (finish_refresh c t orders d r e) !! d' = Some (er, t') →
  (d' = d ∧ r = Err er) ∨ failures e !! d' = Some (er, t').
Proof.
  unfold finish_refresh. destruct r as [rec|err].
  - destruct (trim_lru _ _ _). cbn [failures]. intros Hd%lookup_delete_Some. right. tauto.
  - cbn [failures]. intros Hd%boundFailures_sub. apply lookup_insert_Some in Hd as [[<- [= <- _]]|[_ ?]]; [by left|by right].
Qed.

Lemma begin_evaluate_failures t d e o e' :
  begin_evaluate c t d e = (o, e') →
  failures e' = failures e ∧
  (∀ er t', o = Started ∨ o = Joined → failures e !! d = Some (er, t') → (t' ≤ t)%Z) ∧
  (∀ er, o = Failed er → ∃ t', failures e !! d = Some (er, t') ∧ (t < t')%Z).
Proof.
  assert (∀ o e', start_refresh c t d e = (o, e') → failures e' = failures e ∧
    (∀ er t', o = Started ∨ o = Joined → failures e !! d = Some (er, t') → (t' ≤ t)%Z) ∧
    (∀ er, o = Failed er → ∃ t', failures e !! d = Some (er, t') ∧ (t < t')%Z)) as Hs.
  { unfold start_refresh. intros o0 e0. destruct (failures e !! d) as [[er t']|] eqn:Ef.
    - destruct (Z.ltb_spec t t').
      + intros [= <- <-]. split_and!; [done| |].
        * intros ? ? [?|?]; done.
        * intros ? [= <-]. by exists t'.
      + intros E. split_if; split_and!; try done; intros ? ? ? [= <- <-]; done.
    - intros E. split_if; split_and!; done. }
  unfold begin_evaluate. destruct (cache e !! d) as [r|]; [destruct (t <? ExpiresAt r)%Z|]; [|apply Hs..].
  intros [= <- <-]. split_and!; [done| |done]. intros ? ? [?|?]; done.
Qed.

Lemma finish_fetch_failures t o1 o2 url host answer e res e' :
  finish_fetch c t o1 o2 url host answer e = (res, e') → failures e' = failures e.
Proof. unfold finish_fetch. intros E. destruct (r ← answer; _); by simplify_eq. Qed.

Lemma step_no_downgrade s s' : step c s s' → bounded c s → no_downgrade_inv s → no_downgrade_inv s'.
Proof.
  intros Hstep [_ Hf] [Hh Hp Ha]. destruct Hstep; cbn [ev hist refreshers fetchers now] in *; try (by constructor).
  - constructor; cbn; try done; intros;
      [specialize (Hp _ _ _ ltac:(done) ltac:(done))|specialize (Ha _ _ _ ltac:(done) ltac:(done) ltac:(done))]; lia.
  - match goal with E : begin_evaluate _ _ _ _ = _ |- _ => apply begin_evaluate_failures in E as (Ef & Est & _) end.
    constructor; cbn; rewrite ?Ef; try done.
    + apply Forall_app. split; [done|]. destruct o; constructor; try constructor. apply refresh_task_honest.
    + intros d er t' Hd Hfd. rewrite fmap_app, elem_of_app in Hd. destruct Hd as [Hd|Hd]; [by eapply Hp|].
      destruct o; cbn in Hd; try (by apply elem_of_nil in Hd). apply list_elem_of_singleton in Hd as ->.
      eapply Est; [by left|done].
  - match goal with Hst : refresh_step _ _ _ _ _ _ _ _ _ _ |- _ =>
      apply Forall_app in Hh as [H1 [H2 H3]%Forall_cons];
      destruct (refresh_step_served _ _ _ _ _ _ _ _ _ Hst H2) as (Hok & Hmono & Hother & Ef) end.
    pose proof (f_single _ _ _ _ Hf) as Hnd. rewrite fmap_app in Hnd. cbn in Hnd. apply NoDup_middle in Hnd as [_ Hnd].
    rewrite <- fmap_app in Hnd.
    assert (∀ r, r ∈ rs1 ++ rs2 → served h' r.1 = served h r.1) as Hsame.
    { intros r Hr. apply Hother. intros E. apply Hnd. rewrite <- E. by apply list_elem_of_fmap_2. }
    constructor; cbn; rewrite ?Ef; try done.
    + apply Forall_app. rewrite Forall_cons. rewrite Forall_forall in H1, H3. split_and!; [|done|];
        apply Forall_forall; intros r Hr; (rewrite Hsame by set_solver); by auto.
    + intros d' er t' Hd Hfd. eapply Hp; [|exact Hfd]. rewrite fmap_app in *. by cbn in *.
    + intros d' er t' Hfd Habs Hsv. destruct (decide (d' = d)) as [->|Hne].
      * eapply Hp; [|exact Hfd]. rewrite fmap_app. cbn. set_solver.
      * rewrite Hother in Hsv by done. by eapply Ha.
  - apply Forall_app in Hh as [H1 [H2 H3]%Forall_cons]. constructor; cbn; try done.
    + apply Forall_app. rewrite Forall_cons. split_and!; try done. apply H2.
    + intros d' er t' Hd. rewrite fmap_app in *. by apply Hp.
  - match goal with E : finish_fetch _ _ _ _ _ _ _ _ = _ |- _ => apply finish_fetch_failures in E as Ef end.
    constructor; cbn; rewrite ?Ef; try done.
    + apply Forall_fmap. apply (Forall_impl _ _ _ Hh). intros [d [tk|u k]] Hr; unfold compose, wake; cbn [fst snd]; [done|].
      destruct (bool_decide (u = url)); [|done]. apply Hr.
    + intros d er t'. rewrite wake_domains. apply Hp.
  - pose proof (f_single _ _ _ _ Hf) as Hnd. rewrite fmap_app in Hnd. cbn in Hnd. apply NoDup_middle in Hnd as [_ Hnd].
    rewrite <- fmap_app in Hnd. apply Forall_app in Hh as [H1 [H2 H3]%Forall_cons].
    constructor; cbn [ev hist refreshers now].
    + by apply Forall_app.
    + intros d' er t' Hd [[-> _]|Hfd]%finish_refresh_failures; [done|]. eapply Hp; [|exact Hfd].
      rewrite fmap_app in *. cbn. set_solver.
    + intros d' er t' [[-> ->]|Hfd]%finish_refresh_failures Habs Hsv; [|by eapply Ha].
      cbn in H2. rewrite (H2 Habs) in Hsv. done.
Qed.

(** *** A record that was read is remembered *)

(** A history that keeps what is written to it, as the options ask of public deployments. *)
Definition durable : Prop := ∀ h d st, LoadAuthority (StoreAuthority h d st) d = st.

(** A refresh that ends with a record only when the history says that the operator served one. *)
Fixpoint earns (sv : bool) (t : task) : Prop :=
  match t with
  | Done (Ok _) => sv = true
  | Done (Err _) => True
  | ReadClock k => ∀ x, earns sv (k x)
  | FetchResponse _ k => ∀ x, earns sv (k x)
  | Load k => earns sv (k None) ∧ ∀ st, Served st = sv → earns sv (k (Some st))
  | Store st k => earns (Served st) (k true) ∧ ∀ sv', earns sv' (k false)
  end.

Definition earns_state (sv : bool) (st : rstate) : Prop :=
  match st with Running t => earns sv t | Awaiting _ k => ∀ x, earns sv (k x) end.

Lemma earns_then sv t f :
  earns sv t → (∀ sv' r, (is_ok r = true → sv' = true) → earns sv' (f r)) → earns sv (then_task t f).
Proof.
  revert sv. induction t as [r|k IH|u k IH|k IH|st k IH]; intros sv Ht Hf; cbn [then_task earns] in *.
  - apply Hf. by destruct r.
  - intros x. by apply IH.
  - intros x. by apply IH.
  - destruct Ht as [H1 H2]. split; [by apply IH|]. intros st Hst. by apply IH; [apply H2|].
  - destruct Ht as [H1 H2]. split; [by apply IH|]. intros sv'. by apply IH; [apply H2|].
Qed.

Lemma resolve_hops_earns hops d source t sv : earns sv (resolve_hops hops d source t).
Proof.
  revert source t sv. induction hops as [|hops' IH]; intros source t sv; [done|].
  cbn [resolve_hops]. destruct (ValidateTarget source); [|done]. cbn [earns]. intros [r|]; [|done].
  set (rest := if negb (RStatus (c_resp r) =? 200)%Z || _ then _ else _).
  assert (∀ sv, earns sv rest) as Hrest.
  { unfold rest. intros sv0. destruct (negb _ || _)%bool; [done|]. unfold markSeen200.
    set (k := match ValidateTrustRecord _ _ _ with Ok _ => _ | Err _ => _ end).
    assert (earns true k) as Hk.
    { unfold k. destruct (ValidateTrustRecord _ _ _); [|done]. case_bool_decide; [done|]. destruct hops'; [done|apply IH]. }
    clearbody k. cbn [earns]. split; [done|]. intros st Hst. destruct (Served st) eqn:E; [by subst sv0|]. by cbn [earns]. }
  clearbody rest. destruct (_ || _)%bool; [|apply Hrest]. cbn [earns]. split; [done|]. intros st Hst.
  destruct (Served st); [done|]. by case_bool_decide.
Qed.

Lemma refresh_task_earns d url sv : earns sv (refresh_task c d url).
Proof.
  unfold refresh_task. apply earns_then.
  - unfold resolve. cbn [earns]. intros x. apply resolve_hops_earns.
  - intros sv' [r|e] Hr; [|done]. unfold storeLastGood. cbn [earns]. split; [done|]. intros st Hst. cbn [earns is_ok] in *.
    split; [by rewrite Hst, Hr|done].
Qed.

(** A caller holds, or was given, a record of the domain. *)
Definition has_record (d : string) (ca : caller) : Prop :=
  ca_domain ca = d ∧ ∃ rec, ca_state ca = Holding rec ∨ ∃ t, ca_state ca = Returned t (Ok rec).

Record earned (s : system H) : Prop := {
  e_tasks : Forall (λ r, earns_state (served (hist s) r.1) r.2) (refreshers s);
  e_cache : ∀ d r, cache (ev s) !! d = Some r → served (hist s) d = true;
  e_callers : Forall (λ ca, ∀ d, has_record d ca → served (hist s) d = true) (callers s);
}.

Lemma refresh_step_earned d t tk e h st e' h' fs' :
  durable → refresh_step c d t tk e h st e' h' fs' → earns (served h d) tk →
  earns_state (served h' d) st ∧ cache e' = cache e.
Proof.
  intros Hdur Hst He. destruct Hst; cbn [earns earns_state] in *; unfold served in *; rewrite ?Hdur; (split; [|done || by eapply begin_fetch_keeps]).
  all: try apply He; done.
Qed.

(** The history of no other domain changes, and no domain forgets, when one is refreshed. *)
Lemma refreshed_served d t tk e h st e' h' fs' rs1 rs2 :
  refresh_step c d t tk e h st e' h' fs' → honest (served h d) tk → d ∉ (rs1 ++ rs2).*1 →
  (∀ d', served h d' = true → served h' d' = true) ∧ (∀ r : string * rstate, r ∈ rs1 ++ rs2 → served h' r.1 = served h r.1).
Proof.
  intros Hst Hh Hnd. destruct (refresh_step_served _ _ _ _ _ _ _ _ _ Hst Hh) as (_ & Hmono & Hother & _). split.
  - intros d' Hd'. destruct (decide (d' = d)) as [->|]; [by apply Hmono|by rewrite Hother].
  - intros r Hr. apply Hother. intros E. apply Hnd. rewrite <- E. by apply list_elem_of_fmap_2.
Qed.

Lemma step_earned s s' : durable → step c s s' → bounded c s → no_downgrade_inv s → earned s → earned s'.
Proof.
  intros Hdur Hstep [_ Hf] [Hh _ _] [Ht Hc Hca]. destruct Hstep; cbn [ev hist refreshers callers] in *; try (by constructor).
  - match goal with E : begin_evaluate _ _ _ _ = _ |- _ => apply begin_evaluate_keeps in E as (Ec & _ & Ehit) end.
    constructor; cbn; rewrite ?Ec; try done; apply Forall_app; (split; [done|]).
    + destruct o; constructor; try constructor. apply refresh_task_earns.
    + constructor; [|constructor]. intros d [<- (rec & E)]. cbn in E |- *. destruct o; cbn in E; try (by destruct E as [|[? ?]]).
      by eapply Hc, Ehit.
  - constructor; cbn; try done. apply Forall_app. split; [done|]. constructor; [|constructor]. by intros d [_ (? & [|[? ?]])].
  - constructor; cbn; try done. apply Forall_app in Hca as [H1 [H2 H3]%Forall_cons]. apply Forall_app. split; [done|].
    constructor; [|done]. intros d [E _]. apply H2. split; [done|]. eauto.
  - constructor; cbn; try done. apply Forall_app in Hca as [H1 [H2 H3]%Forall_cons]. apply Forall_app. split; [done|].
    constructor; [|done]. by intros d [_ (? & [|[? ?]])].
  - apply Forall_app in Hh as [_ [Hh2 _]%Forall_cons]. apply Forall_app in Ht as [H1 [H2 H3]%Forall_cons].
    pose proof (f_single _ _ _ _ Hf) as Hnd. rewrite fmap_app in Hnd. cbn in Hnd. apply NoDup_middle in Hnd as [_ Hnd].
    rewrite <- fmap_app in Hnd.
    match goal with Hst : refresh_step _ _ _ _ _ _ _ _ _ _ |- _ =>
      destruct (refresh_step_earned _ _ _ _ _ _ _ _ _ Hdur Hst H2) as [Hok Ec];
      destruct (refreshed_served _ _ _ _ _ _ _ _ _ _ _ Hst Hh2 Hnd) as [Hmono Hsame] end.
    constructor; cbn; rewrite ?Ec.
    + apply Forall_app. rewrite Forall_cons. rewrite Forall_forall in H1, H3. split_and!; [|done|];
        apply Forall_forall; intros r Hr; (rewrite Hsame by set_solver); by auto.
    + intros d' r Hd. by eapply Hmono, Hc.
    + apply (Forall_impl _ _ _ Hca). cbn. intros ca Hx d' Hd. by apply Hmono, Hx.
  - apply Forall_app in Ht as [H1 [H2 H3]%Forall_cons]. constructor; cbn; try done.
    apply Forall_app. rewrite Forall_cons. split_and!; try done. apply H2.
  - match goal with E : finish_fetch _ _ _ _ _ _ _ _ = _ |- _ => apply finish_fetch_keeps in E as (Ec & _) end.
    constructor; cbn; rewrite ?Ec; try done. apply Forall_fmap. apply (Forall_impl _ _ _ Ht).
    intros [d [tk|u k]] Hr; unfold compose, wake; cbn [fst snd]; [done|]. destruct (bool_decide (u = url)); [|done]. apply Hr.
  - apply Forall_app in Ht as [H1 [H2 H3]%Forall_cons]. cbn in H2. pose proof (finish_refresh_keeps c t orders d r e) as [_ Hck].
    constructor; cbn [ev hist refreshers callers].
    + by apply Forall_app.
    + intros k x Hk. destruct (Hck k x Hk) as [[-> ->]|?]; [done|by eapply Hc].
    + apply Forall_fmap. apply (Forall_impl _ _ _ Hca). cbn. intros ca Hx d' [Hd Hrec]. unfold compose, answer_caller in *.
      destruct (ca_state ca) eqn:Es; [|apply Hx; by rewrite <- Hd|apply Hx; by rewrite <- Hd].
      case_bool_decide as Hdd; [|apply Hx; by rewrite <- Hd]. cbn in Hd, Hrec. subst d d'.
      destruct r; [done|]. by destruct Hrec as (? & [|[? ?]]).
Qed.

Lemma reachable_no_downgrade t0 h0 s :
  (1 ≤ maxRecords c)%Z → (0 ≤ maxPerHost c)%Z → reachable c t0 h0 s →
  bounded c s ∧ no_downgrade_inv s ∧ (durable → earned s).
Proof.
  intros Hm Hh Hr. unfold reachable in Hr.
  assert (bounded c (initial t0 h0) ∧ no_downgrade_inv (initial t0 h0) ∧ (durable → earned (initial t0 h0))) as Hi.
  { split; [by apply initial_bounded|]. split; constructor; cbn; try (by constructor).
    - intros d' e t Hd. by apply elem_of_nil in Hd.
    - intros d' e t Hd. by rewrite lookup_empty in Hd.
    - intros d' r Hd. by rewrite lookup_empty in Hd. }
  induction Hr as [|s1 s2 s3 Hs _ IH]; [done|]. destruct Hi as (Hb & Hn & He). apply IH.
  split; [by eapply step_bounded|]. split; [by eapply step_no_downgrade|]. intros Hd. eapply step_earned; eauto.
Qed.

(** C31: once the history knows that an operator has served a trust record (in a history that keeps
    what is written to it, from the moment a caller holds a record of the operator), in that state
    and every later one the history still knows it, and no evaluation can answer that the operator
    publishes none: no cached failure of the operator that a caller would be given, and no refresh
    about to end, reports absence.  So an outage or a later 404 never restores what only an operator
    without a record gets.  A history that refuses operators, as the default one does over its
    quota, knows nothing of those, and of them a later 404 is absence. *)
Theorem no_downgrade t0 h0 s s' d :
  (1 ≤ maxRecords c)%Z → (0 ≤ maxPerHost c)%Z →
  reachable c t0 h0 s →
  (served (hist s) d = true ∨ durable ∧ ∃ ca, ca ∈ callers s ∧ has_record d ca) → rtc (step c) s s' →
  served (hist s') d = true ∧
  (∀ e ev', begin_evaluate c (now s') d (ev s') = (Failed e, ev') → Absent e = false) ∧
  (∀ e, (d, Running (Done (Err e))) ∈ refreshers s' → Absent e = false).
Proof.
  intros Hm Hh Hr Hsv Hrtc. pose proof (λ s, reachable_no_downgrade t0 h0 s Hm Hh) as Hinv.
  assert (reachable c t0 h0 s') as Hr' by (unfold reachable in *; by etrans).
  assert (served (hist s) d = true) as Hsv0.
  { destruct Hsv as [|[Hdur (ca & Hca & Hrec)]]; [done|]. destruct (Hinv _ Hr) as (_ & _ & He).
    destruct (He Hdur) as [_ _ Hc]. rewrite Forall_forall in Hc. by eapply Hc. }
  assert (served (hist s') d = true) as Hsv'.
  { clear Hr' Hsv. revert Hr Hsv0. induction Hrtc as [|s1 s2 s3 Hs _ IH]; intros Hr Hsv; [done|]. apply IH.
    - unfold reachable in *. by eapply rtc_r.
    - destruct (Hinv _ Hr) as (_ & [Hho _ _] & _). destruct Hs; cbn [hist refreshers] in *; try done.
      apply Forall_app in Hho as [_ [H2 _]%Forall_cons]. cbn in H2.
      match goal with Hst : refresh_step _ _ _ _ _ _ _ _ _ _ |- _ =>
        destruct (refresh_step_served _ _ _ _ _ _ _ _ _ Hst H2) as (_ & Hmono & Hother & _) end.
      destruct (decide (d = d0)) as [->|Hne]; [by apply Hmono|by rewrite Hother]. }
  destruct (Hinv _ Hr') as (_ & [Hho Hp Ha] & _). split_and!; [done| |].
  - intros e ev' Hb. apply begin_evaluate_failures in Hb as (_ & _ & Hfail).
    destruct (Hfail e eq_refl) as (t' & Hf & Ht). destruct (Absent e) eqn:Ee; [|done].
    specialize (Ha _ _ _ Hf Ee Hsv'). lia.
  - intros e He. rewrite Forall_forall in Hho. specialize (Hho _ He). cbn in Hho.
    destruct (Absent e) eqn:Ee; [|done]. rewrite (Hho eq_refl) in Hsv'. done.
Qed.

End NoDowngrade.

(** The record is read and then disappears: the caller that asks again is refused,
    but never with absence. *)
Lemma no_downgrade_witness :
  ∃ s s', play_toy sample_start first_read = Some s ∧ play_toy s then_missing = Some s' ∧
    ca_state <$> callers s' !! 2 =
      Some (Returned (62 * Second)
              (Err (TrustErr (trustErr "trust record not found after the operator published one")))) ∧
    served (AH := memory_history (RT := ascii_runtime) (PSL := toy_psl)) (hist s') "acme.com" = true.
Proof.
  destruct first_read_plays as [s Hs]. exists s.
  assert (∀ l, play_toy sample_start (first_read ++ l) = play_toy s l) as Happ by (intros l; by apply play_app).
  destruct (play_toy s then_missing) as [s'|] eqn:Hs'; [|rewrite <- Happ in Hs'; vm_compute in Hs'; discriminate Hs'].
  exists s'. rewrite <- Happ in Hs'. split_and!; [exact Hs|done| |].
  - apply (played (λ s, ca_state <$> callers s !! 2) _ _ _ _ Hs'). by vm_compute.
  - apply (no_downgrade (RT := ascii_runtime) (PSL := toy_psl) sample_config
             (AH := memory_history (RT := ascii_runtime) (PSL := toy_psl)) (HS := memory_history_spec)
             0%Z newMemoryAuthorityHistory s s' "acme.com").
    + by vm_compute.
    + by vm_compute.
    + exact (play_steps _ _ _ _ Hs).
    + left. apply (played (λ s, served (hist s) "acme.com") _ _ _ _ Hs). by vm_compute.
    + rewrite Happ in Hs'. exact (play_steps _ _ _ _ Hs').
Defined.

(** A history that keeps every write. *)
#[local] Instance kept_history : AuthorityHistory (gmap string AuthorityState) := {
  LoadAuthority h d := default no_authority (h !! d);
  StoreAuthority h d s := <[d := s]> h;
}.

#[local] Instance kept_history_spec : AuthorityHistorySpec (gmap string AuthorityState).
Proof. split; intros h d; intros; cbn; [by rewrite lookup_insert_ne|left; by rewrite lookup_insert_eq]. Qed.

Lemma kept_durable : durable (H := gmap string AuthorityState).
Proof. intros h d st. cbn. by rewrite lookup_insert_eq. Qed.

(** In it, the caller that was given the record is all that has to be known. *)
Lemma kept_record_remembered :
  ∃ s ca, reachable (RT := ascii_runtime) (PSL := toy_psl) sample_config 0%Z (∅ : gmap string AuthorityState) s ∧
    ca ∈ callers s ∧ has_record "acme.com" ca ∧ served (hist s) "acme.com" = true.
Proof.
  set (run := play (RT := ascii_runtime) (PSL := toy_psl) (AH := kept_history) sample_config).
  destruct (run (initial 0%Z ∅) first_read) as [s|] eqn:Hs; [|vm_compute in Hs; discriminate Hs].
  set (ca := MkCaller "acme.com" "" "acme.com" (Returned Second (Ok sample_record))).
  assert (callers s !! 1 = Some ca) as Hca.
  { assert ((λ s, callers s !! 1) <$> run (initial 0%Z ∅) first_read = Some (Some ca)) as E by (vm_compute; reflexivity).
    rewrite Hs in E. by injection E. }
  apply list_elem_of_lookup_2 in Hca. assert (has_record "acme.com" ca) as Hrec by (split; [done|eauto]).
  pose proof (play_steps _ _ _ _ Hs) as Hr. exists s, ca. split; [exact Hr|]. split; [done|]. split; [done|].
  destruct (reachable_no_downgrade (RT := ascii_runtime) (PSL := toy_psl) sample_config 0%Z ∅ s) as (_ & _ & He);
    [by vm_compute|by vm_compute|exact Hr|].
  destruct (He kept_durable) as [_ _ Hc]. rewrite Forall_forall in Hc. by apply (Hc ca).
Qed.
