(* ===== verification/GrantEff.v ===== *)
(** * GrantEff: requests, records of a decision, and what a decision does

    The data of [src/adcp/v3/identity/grants.go] and [bindings.go], and the programs
    in which [Grants] and [Bindings] write their functions: a function of the
    package evaluates trust records, reads histories and clocks, and asks the
    seller's hooks; each is an [effect].  A program runs against the list of [event]s
    that the environment answered, so a theorem about every such list is a theorem
    about every environment, and a given list can be computed with. *)
From S2P Require Import Prelude GoStrings Unicode SigTypes Psl TrustJson Trust.
From stdpp Require Import options.

(** ** Data *)

Definition ProfileTagWebBotAuth : string := "web-bot-auth".
Definition ProfileTagRequestSigning : string := "adcp/request-signing/v1".

Record GrantRequest := MkRequest {
  AgentOrigin : string;
  BrandDomain : string;
  AccountOperator : string;
  Scope : string;
  BrandID : string;
  ReqCountries : list string;
  SigningProfile : string;
  NonSpend : bool;
}.

Record BrandHouse := MkHouse { HouseDomain : string; HouseBrandID : string }.

Record GrantClaim := MkClaim {
  cl_BrandDomain : string;
  cl_AccountOperator : string;
  cl_BrandID : string;
  cl_Countries : list string;
  cl_Scope : string;
  cl_NonSpend : bool;
}.

(** [RevocationState]: what the origin's revocation list says of the key. *)
Inductive RevocationState :=
  | RevocationUnchecked | RevocationCurrent | RevocationRevoked | RevocationNoList | RevocationStale | RevocationUnavailable.

(** The fields of [signing.VerifiedSigner] that the middleware sets after the
    signature: the bound principal and the key's revocation state. *)
Record WBASigner := MkWBASigner {
  base :> VerifiedSigner;
  PrincipalID : string;
  Revocation : RevocationState;
}.

Record BindOptions := MkBindOptions {
  ExistingRFC9421Principal : bool;
  MigrationApproved : bool;
  BindRole : string;
}.

Inductive bind_error := BindingNeedsOrigin | ErrMigrationNotApproved | ErrRebind.

#[export] Instance GrantRequest_eq_dec : EqDecision GrantRequest.
Proof. solve_decision. Defined.
#[export] Instance BindOptions_eq_dec : EqDecision BindOptions.
Proof. solve_decision. Defined.

(** ** Effects *)

(** What a function asks, with the type of the answer; the inner [option] of a hook
    is its error. *)
Inductive effect : Type → Type :=
  | Evaluate (originOrDomain role : string) : effect (result eval_error EvaluatedTrustRecord)
  | LoadHistory (domain : string) : effect (option AuthorityState)
  | Now (own : bool) : effect Time
  | ResolveHouse (brandDomain brandID : string) : effect (option (option BrandHouse))
  | AskSeller (req : GrantRequest) : effect (option bool)
  | AskLegacy (req : GrantRequest) : effect (option bool)
  | VisitOrder (keys : list string) : effect (list string)
  | LookupPrincipal (origin : string) : effect (option (option string))
  | StoreBinding (origin principal : string) (opts : BindOptions) : effect (option bind_error)
  | AccountClaim (account : string) (operation : option string) : effect (option GrantClaim).

(** An event: a question with its answer.  [own] tells the [GrantEvaluator]'s own
    clock from the trust record evaluator's; a [Visited] answer is an order in which
    Go may visit the keys of a map. *)
Inductive event :=
  | Evaluated (originOrDomain role : string) (r : result eval_error EvaluatedTrustRecord)
  | Loaded (domain : string) (st : option AuthorityState)
  | Clocked (own : bool) (t : Time)
  | Resolved (brandDomain brandID : string) (h : option (option BrandHouse))
  | SellerSaid (req : GrantRequest) (r : option bool)
  | LegacySaid (req : GrantRequest) (r : option bool)
  | Visited (keys order : list string)
  | LookedUp (origin : string) (r : option (option string))
  | Stored (origin principal : string) (opts : BindOptions) (r : option bind_error)
  | Claimed (account : string) (operation : option string) (r : option GrantClaim).

Definition when {A} (b : bool) (a : A) : option A := if b then Some a else None.

(** The answer an event gives to a question, if it is about that question. *)
Definition answer {X} (q : effect X) (ev : event) : option X :=
  match q in effect X return option X with
  | Evaluate o r => match ev with Evaluated o' r' a => when (bool_decide (o = o' ∧ r = r')) a | _ => None end
  | LoadHistory d => match ev with Loaded d' a => when (bool_decide (d = d')) a | _ => None end
  | Now b => match ev with Clocked b' a => when (bool_decide (b = b')) a | _ => None end
  | ResolveHouse b i => match ev with Resolved b' i' a => when (bool_decide (b = b' ∧ i = i')) a | _ => None end
  | AskSeller r => match ev with SellerSaid r' a => when (bool_decide (r = r')) a | _ => None end
  | AskLegacy r => match ev with LegacySaid r' a => when (bool_decide (r = r')) a | _ => None end
  | VisitOrder ks => match ev with Visited ks' a => when (bool_decide (ks = ks' ∧ ks ≡ₚ a)) a | _ => None end
  | LookupPrincipal o => match ev with LookedUp o' a => when (bool_decide (o = o')) a | _ => None end
  | StoreBinding o p b => match ev with Stored o' p' b' a => when (bool_decide (o = o' ∧ p = p' ∧ b = b')) a | _ => None end
  | AccountClaim a o => match ev with Claimed a' o' c => when (bool_decide (a = a' ∧ o = o')) c | _ => None end
  end.

(** ** Programs *)

Inductive prog (A : Type) : Type :=
  | Ret (a : A)
  | Do (X : Type) (q : effect X) (k : X → prog A).
Arguments Ret {A}. Arguments Do {A X}.

#[export] Instance prog_ret : MRet prog := λ A a, Ret a.
#[export] Instance prog_bind : MBind prog :=
  λ A B f, fix go (p : prog A) : prog B := match p with Ret a => f a | Do q k => Do q (λ x, go (k x)) end.

Definition ask {X} (q : effect X) : prog X := Do q Ret.

(** The result of a program that the events answer completely. *)
Fixpoint play {A} (p : prog A) (tr : list event) : option A :=
  match p, tr with
  | Ret a, [] => Some a
  | Do q k, ev :: tr => x ← answer q ev; play (k x) tr
  | _, _ => None
  end.

Lemma play_Ret {A} (a b : A) tr : play (Ret a) tr = Some b → tr = [] ∧ a = b.
Proof. destruct tr; [by intros [= ->]|done]. Qed.

Lemma play_ask {X} (q : effect X) tr x : play (ask q) tr = Some x → ∃ ev, tr = [ev] ∧ answer q ev = Some x.
Proof.
  destruct tr as [|ev tr]; cbn; [done|]. destruct (answer q ev) as [y|] eqn:E; cbn; [|done].
  destruct tr; [|done]. intros [= ->]. eauto.
Qed.

Lemma play_bind {A B} (p : prog A) (f : A → prog B) tr b :
  play (p ≫= f) tr = Some b → ∃ tr1 tr2 a, tr = tr1 ++ tr2 ∧ play p tr1 = Some a ∧ play (f a) tr2 = Some b.
Proof.
  revert tr. induction p as [a|X q k IH]; intros tr.
  - intros H. by exists [], tr, a.
  - destruct tr as [|ev tr]; cbn; [done|]. destruct (answer q ev) as [x|] eqn:E; cbn; [|done].
    intros (tr1 & tr2 & a & -> & H1 & H2)%IH. exists (ev :: tr1), tr2, a. cbn. by rewrite E.
Qed.

(** The one event that answers a question. *)
Lemma answer_Evaluated o r ev a : answer (Evaluate o r) ev = Some a → ev = Evaluated o r a.
Proof. destruct ev; cbn; unfold when; try done. case_bool_decide; [|done]. intros [= ->]. by destruct_and!; subst. Qed.
Lemma answer_Loaded d ev a : answer (LoadHistory d) ev = Some a → ev = Loaded d a.
Proof. destruct ev; cbn; unfold when; try done. case_bool_decide; [|done]. intros [= ->]. by subst. Qed.
Lemma answer_Clocked b ev a : answer (Now b) ev = Some a → ev = Clocked b a.
Proof. destruct ev; cbn; unfold when; try done. case_bool_decide; [|done]. intros [= ->]. by subst. Qed.
Lemma answer_Resolved b i ev a : answer (ResolveHouse b i) ev = Some a → ev = Resolved b i a.
Proof. destruct ev; cbn; unfold when; try done. case_bool_decide; [|done]. intros [= ->]. by destruct_and!; subst. Qed.
Lemma answer_SellerSaid r ev a : answer (AskSeller r) ev = Some a → ev = SellerSaid r a.
Proof. destruct ev; cbn; unfold when; try done. case_bool_decide; [|done]. intros [= ->]. by subst. Qed.
Lemma answer_LegacySaid r ev a : answer (AskLegacy r) ev = Some a → ev = LegacySaid r a.
Proof. destruct ev; cbn; unfold when; try done. case_bool_decide; [|done]. intros [= ->]. by subst. Qed.
Lemma answer_Visited ks ev a : answer (VisitOrder ks) ev = Some a → ev = Visited ks a ∧ ks ≡ₚ a.
Proof. destruct ev; cbn; unfold when; try done. case_bool_decide; [|done]. intros [= ->]. by destruct_and!; subst. Qed.
Lemma answer_LookedUp o ev a : answer (LookupPrincipal o) ev = Some a → ev = LookedUp o a.
Proof. destruct ev; cbn; unfold when; try done. case_bool_decide; [|done]. intros [= ->]. by subst. Qed.
Lemma answer_Stored o p b ev a : answer (StoreBinding o p b) ev = Some a → ev = Stored o p b a.
Proof. destruct ev; cbn; unfold when; try done. case_bool_decide; [|done]. intros [= ->]. by destruct_and!; subst. Qed.
Lemma answer_Claimed x o ev a : answer (AccountClaim x o) ev = Some a → ev = Claimed x o a.
Proof. destruct ev; cbn; unfold when; try done. case_bool_decide; [|done]. intros [= ->]. by destruct_and!; subst. Qed.

(** [run_step] opens the first question of a program that ran. *)
Ltac run_step :=
  match goal with
  | H : play (Ret _) _ = Some _ |- _ => apply play_Ret in H as [? ?]; subst
  | H : play (ask _ ≫= _) _ = Some _ |- _ =>
      let t1 := fresh "tr" in let t2 := fresh "tr" in let a := fresh "a" in let Ha := fresh "Ha" in let ev := fresh "ev" in
      apply play_bind in H as (t1 & t2 & a & -> & Ha & H); apply play_ask in Ha as (ev & -> & Ha);
      first [apply answer_Evaluated in Ha|apply answer_Loaded in Ha|apply answer_Clocked in Ha|apply answer_Resolved in Ha|
             apply answer_SellerSaid in Ha|apply answer_LegacySaid in Ha|apply answer_LookedUp in Ha|
             apply answer_Stored in Ha|apply answer_Claimed in Ha|apply answer_Visited in Ha as [Ha ?]];
      subst ev
  | H : play (mbind _ _) _ = Some _ |- _ =>
      let t1 := fresh "tr" in let t2 := fresh "tr" in let a := fresh "a" in let Ha := fresh "Ha" in
      apply play_bind in H as (t1 & t2 & a & -> & Ha & H)
  end.
