(* ===== verification/Grants.v ===== *)
(** * Grants: who may act for a brand

    [src/adcp/v3/identity/grants.go] with [CheckListing] and [evaluateForGrant] of
    [evaluator.go]: demand-side grants in the house's trust record, and the gate in
    front of account operations. *)
From S2P Require Import Prelude GoStrings Unicode GoTime Json NetUrl SigTypes SigBase Origin Psl TrustJson Trust GrantEff.
From stdpp Require Import options.

(** ** Outcomes *)

Definition GrantReasonAbsent : string := "grant_absent".
Definition GrantReasonSignerRecordUnavailable : string := "signer_trust_record_unavailable".
Definition GrantReasonTrustRecordAbsent : string := "trust_record_absent".
Definition GrantReasonTrustRecordUnavailable : string := "trust_record_unavailable".
Definition GrantReasonAuthorizationHookFailure : string := "authorization_hook_failed".
Definition GrantReasonSignerUnlisted : string := "signer_not_listed".
Definition GrantReasonHouseUnavailable : string := "brand_house_unavailable".

Definition GrantSourceImplicit : string := "implicit".
Definition GrantSourceGrant : string := "grant".
Definition GrantSourceSeller : string := "seller".
Definition GrantSourceLegacy : string := "legacy".

Record GrantAuthorization := MkAuthorization {
  Authorized : bool;
  Source : string;
  ga_Reason : string;
  LegacyFallbackAllowed : bool;
  ga_Unavailable : bool;
  ga_ExpiresAt : Time;
}.

(** The error codes with the details that distinguish the denials. *)
Inductive denial := trustUnavailableError | grantAbsentError | unestablishedDenial | unboundDenial.

Definition GrantErr (a : GrantAuthorization) : option denial :=
  if Authorized a then None else
  if ga_Unavailable a then Some trustUnavailableError else
  if bool_decide (ga_Reason a = GrantReasonSignerUnlisted) then Some unestablishedDenial else Some grantAbsentError.

Definition denied (reason : string) (legacyFallbackAllowed : bool) : GrantAuthorization :=
  MkAuthorization false "" reason legacyFallbackAllowed false 0%Z.
Definition unavailable (reason : string) : GrantAuthorization := MkAuthorization false "" reason false true 0%Z.
Definition authorized (source : string) (expires : Time) : GrantAuthorization :=
  MkAuthorization true source "" false false expires.

Inductive grantError := errUnsupportedProfile | errNoRecords.

(** Which fields of the [GrantEvaluator] are set; the hooks themselves are effects. *)
Record GrantEvaluator := MkGrantEvaluator {
  Records : option config;
  SellerAuthorization : bool;
  LegacyAuthorization : bool;
  HasResolveHouse : bool;
  OwnClock : bool;
}.

Inductive ListingStatus := Listed | Unlisted_ | Unavailable.

Record Listing := MkListing {
  ListStatus : ListingStatus;
  ListRecord : option EvaluatedTrustRecord;
  WithinGrace : bool;
}.

Section Grants.
Context `{RT : Runtime} `{PSL : PublicSuffixList}.

(** ** What a grant covers *)

Definition scopeCovers (scopes : list string) (scope : string) : bool :=
  existsb (λ s, bool_decide (s = scope) || bool_decide (s = ScopeAny) ||
                (bool_decide (s = ScopeAll) && HasPrefix scope "adcp:")) scopes.

Definition grantCovers (g : TrustGrant) (req : GrantRequest) (countries : list string) (now : Time) : bool :=
  scopeCovers (Scopes g) (Scope req) &&
  match GrantAgents g with
  | None => true
  | Some agents => existsb (λ url, bool_decide (CanonicalOrigin url = Some (AgentOrigin req))) agents
  end &&
  match Countries g with
  | None => true
  | Some allowed =>
      negb (bool_decide (countries = [])) && forallb (λ c, bool_decide (c ∈ allowed)) countries
  end &&
  (let brands := default ["*"] (Brands g) in
   containsStr brands "*" || (negb (bool_decide (BrandID req = "")) && containsStr brands (BrandID req))) &&
  (bool_decide (ValidFrom g = "") ||
   match ParseRFC3339Nano (ValidFrom g) with Some t => negb (now <? t)%Z | None => false end) &&
  (bool_decide (ValidUntil g = "") ||
   match ParseRFC3339Nano (ValidUntil g) with Some t => (now <? t)%Z | None => false end).

(** ** Expiry *)

(** [time.Unix(math.MaxInt32, 0)]; times count from the year 1. *)
Definition noExpiry : Time := ((62135596800 + 2147483647) * Second)%Z.

Fixpoint link_expiry (best : Time) (grants : list TrustGrant) : Time :=
  match grants with
  | [] => best
  | gr :: rest =>
      if bool_decide (ValidUntil gr = "") then noExpiry else
      link_expiry match ParseRFC3339Nano (ValidUntil gr) with
                  | Some t => if (best <? t)%Z then t else best
                  | None => best
                  end rest
  end.

Definition linkExpiry (grants : list TrustGrant) : Time := link_expiry 0%Z grants.

Definition earliest (times : list Time) : Time := foldl (λ out t, if (t <? out)%Z then t else out) noExpiry times.

(** ** Reading records *)

Definition stale_record (c : config) (last : EvaluatedTrustRecord) : prog (option EvaluatedTrustRecord) :=
  if (outage c <=? 0)%Z then Ret None else t ← ask (Now false); Ret (staleWithinBound c t last).

Definition checkListing (c : config) (origin : string) (lists : TrustRecord → bool) (role : string) : prog Listing :=
  r ← ask (Evaluate origin role);
  match r with
  | Ok rec => Ret (if lists (Rec rec) then MkListing Listed (Some rec) false else MkListing Unlisted_ None false)
  | Err e =>
      if negb (IsTrustRecordUnavailable e) then Ret (MkListing Unlisted_ None false) else
      match RegistrableDomain origin with
      | None => Ret (MkListing Unlisted_ None false)
      | Some domain =>
          st ← ask (LoadHistory domain);
          match st ≫= LastRecord with
          | None => Ret (MkListing Unavailable None false)
          | Some last =>
              if negb (lists (Rec last)) then Ret (MkListing Unlisted_ None false) else
              stale ← stale_record c last;
              Ret match stale with
                  | Some r => MkListing Unavailable (Some r) true
                  | None => MkListing Unavailable None false
                  end
          end
      end
  end.

Definition lists_agent (origin role : string) (r : TrustRecord) : bool :=
  match Agent r origin role with Some _ => true | None => false end.

Definition CheckListing (c : config) (origin role : string) : prog Listing :=
  checkListing c origin (lists_agent origin role) role.

Definition evaluateForGrant (c : config) (domain : string) (spend : bool) : prog (result eval_error EvaluatedTrustRecord) :=
  r ← ask (Evaluate domain "");
  match r with
  | Ok rec => Ret (Ok rec)
  | Err e =>
      if spend || negb (IsTrustRecordUnavailable e) then Ret (Err e) else
      match RegistrableDomain domain with
      | None => Ret (Err e)
      | Some operator =>
          st ← ask (LoadHistory operator);
          match st ≫= LastRecord with
          | None => Ret (Err e)
          | Some last =>
              stale ← stale_record c last;
              Ret match stale with Some r => Ok r | None => Err e end
          end
      end
  end.

(** [signerListing]: the record that lists the signer, or the denial. *)
Definition signerListing (c : config) (origin : string) (spend : bool) : prog (EvaluatedTrustRecord + GrantAuthorization) :=
  l ← CheckListing c origin RoleBuying;
  Ret match ListStatus l, ListRecord l with
      | Listed, Some r => inl r
      | Listed, None => inr (unavailable GrantReasonSignerRecordUnavailable)
      | Unlisted_, _ => inr (denied GrantReasonSignerUnlisted false)
      | Unavailable, Some r =>
          if WithinGrace l && negb spend then inl r else inr (unavailable GrantReasonSignerRecordUnavailable)
      | Unavailable, None => inr (unavailable GrantReasonSignerRecordUnavailable)
      end.

(** The goroutines share only the map they fill under its lock; they are run one
    after another in the order in which Go visits [via]. *)
Fixpoint fetch_each (c : config) (order : list string) (spend : bool)
    (out : gmap string (result eval_error EvaluatedTrustRecord)) : prog (gmap string (result eval_error EvaluatedTrustRecord)) :=
  match order with
  | [] => Ret out
  | d :: order => r ← evaluateForGrant c d spend; fetch_each c order spend (<[d := r]> out)
  end.

Definition map_keys {A} (m : gmap string A) : list string := (map_to_list m).*1.

Definition fetchIntermediaries (c : config) (via : gmap string (list TrustGrant)) (spend : bool) :
    prog (gmap string (result eval_error EvaluatedTrustRecord)) :=
  order ← ask (VisitOrder (map_keys via)); fetch_each c order spend ∅.

(** ** Chains *)

(** A claim being decided: [cx_req] with the house's brand id, the registrable
    domains of the signer and the account operator, and the brand's own names. *)
Record claim_context := MkContext {
  cx_req : GrantRequest;
  cx_signer : string;
  cx_account : string;
  cx_brand : string;
  cx_house : string;
}.

Definition self (x : claim_context) (op : string) : bool :=
  bool_decide (op = cx_brand x) || bool_decide (op = cx_house x).

Definition add_via (d : string) (gr : TrustGrant) (via : gmap string (list TrustGrant)) : gmap string (list TrustGrant) :=
  <[d := default [] (via !! d) ++ [gr]]> via.

Definition firsts (x : claim_context) (grants : list TrustGrant) (at_ : Time) :
    list TrustGrant * gmap string (list TrustGrant) :=
  foldl (λ '(direct, via) gr,
    if negb (isRegistrableDomain (Grantee gr)) || negb (grantCovers gr (cx_req x) (ReqCountries (cx_req x)) at_)
    then (direct, via) else
    if negb (self x (cx_account x)) && negb (bool_decide (Grantee gr = cx_account x)) then (direct, via) else
    if bool_decide (Grantee gr = cx_signer x) then (direct ++ [gr], via) else (direct, add_via (Grantee gr) gr via))
  ([], ∅) grants.

Definition seconds (x : claim_context) (grants : list TrustGrant) (now : Time) : list TrustGrant :=
  List.filter (λ gr, isRegistrableDomain (Grantee gr) && bool_decide (Grantee gr = cx_signer x) &&
                     grantCovers gr (cx_req x) (ReqCountries (cx_req x)) now) grants.

(** One round of the loop over [via]: the latest expiry so far, and whether a link
    could not be read. *)
Definition via_step (x : claim_context) (now limit : Time) (via : gmap string (list TrustGrant))
    (intermediaries : gmap string (result eval_error EvaluatedTrustRecord)) (acc : Time * bool) (grantee : string) :
    Time * bool :=
  let '(expiry, outage) := acc in
  match intermediaries !! grantee with
  | None => acc
  | Some (Err e) => if IsTrustRecordUnavailable e then (expiry, true) else acc
  | Some (Ok rec) =>
      if negb (now <? ExpiresAt rec)%Z then (expiry, true) else
      match seconds x (Grants (Rec rec)) now with
      | [] => acc
      | second =>
          let first := default [] (via !! grantee) in
          let e := earliest [limit; ExpiresAt rec; linkExpiry first; linkExpiry second] in
          if (expiry <? e)%Z then (e, outage) else acc
      end
  end.

Definition ask_seller (g : GrantEvaluator) (req : GrantRequest) (houseRec : EvaluatedTrustRecord) : prog GrantAuthorization :=
  if bool_decide (ExclusiveGrants (Rec houseRec) = Some true) || negb (SellerAuthorization g)
  then Ret (denied GrantReasonAbsent false) else
  r ← ask (AskSeller req);
  Ret match r with
      | None => denied GrantReasonAuthorizationHookFailure false
      | Some true => authorized GrantSourceSeller (ExpiresAt houseRec)
      | Some false => denied GrantReasonAbsent false
      end.

(** The decision once every record is read. *)
Definition decide_chains (x : claim_context) (now : Time) (order : list string)
    (intermediaries : gmap string (result eval_error EvaluatedTrustRecord)) (signerRec houseRec : EvaluatedTrustRecord) :
    Time * bool :=
  let '(direct, via) := firsts x (Grants (Rec houseRec)) now in
  let limit := earliest [ExpiresAt signerRec; ExpiresAt houseRec] in
  let expiry := if bool_decide (direct = []) then 0%Z else earliest [limit; linkExpiry direct] in
  foldl (via_step x now limit via intermediaries) (expiry, false) order.

Definition check_chains (g : GrantEvaluator) (c : config) (req : GrantRequest) (x : claim_context)
    (signerRec houseRec : EvaluatedTrustRecord) : prog GrantAuthorization :=
  now ← ask (Now (OwnClock g));
  let '(direct, via) := firsts x (Grants (Rec houseRec)) now in
  intermediaries ← (if bool_decide (direct = []) && negb (bool_decide (via = ∅))
                    then fetchIntermediaries c via (negb (NonSpend req)) else Ret ∅);
  now ← ask (Now (OwnClock g));
  if negb (now <? ExpiresAt signerRec)%Z || negb (now <? ExpiresAt houseRec)%Z
  then Ret (unavailable GrantReasonTrustRecordUnavailable) else
  order ← ask (VisitOrder (map_keys (firsts x (Grants (Rec houseRec)) now).2));
  let '(expiry, outage) := decide_chains x now order intermediaries signerRec houseRec in
  if (now <? expiry)%Z then Ret (authorized GrantSourceGrant expiry) else
  if outage then Ret (unavailable GrantReasonTrustRecordUnavailable) else
  ask_seller g req houseRec.

(** ** [Check] *)

Definition legacy_path (g : GrantEvaluator) (c : config) (req : GrantRequest) : prog GrantAuthorization :=
  if LegacyAuthorization g then
    r ← ask (AskLegacy req);
    match r with
    | None => Ret (denied GrantReasonAuthorizationHookFailure true)
    | Some false => Ret (denied GrantReasonAbsent true)
    | Some true =>
        t ← ask (Now (OwnClock g));
        Ret (MkAuthorization true GrantSourceLegacy "" true false (Add t (interval c)))
    end
  else Ret (denied GrantReasonTrustRecordAbsent true).

(** The house's record and what follows; [signerRec] is read already under Web Bot
    Auth. *)
Definition check_house (g : GrantEvaluator) (c : config) (req : GrantRequest) (x : claim_context) (house : string)
    (signerRec : option EvaluatedTrustRecord) : prog GrantAuthorization :=
  let spend := negb (NonSpend req) in
  let implicit := self x (cx_account x) && self x (cx_signer x) in
  match signerRec with
  | Some sr =>
      if implicit then Ret (authorized GrantSourceImplicit (ExpiresAt sr)) else
      hr ← evaluateForGrant c house spend;
      match hr with
      | Err e => if IsTrustRecordAbsent e then legacy_path g c req else Ret (unavailable GrantReasonTrustRecordUnavailable)
      | Ok hr => check_chains g c req x sr hr
      end
  | None =>
      hr ← evaluateForGrant c house spend;
      match hr with
      | Err e => if IsTrustRecordAbsent e then legacy_path g c req else Ret (unavailable GrantReasonTrustRecordUnavailable)
      | Ok hr =>
          l ← signerListing c (AgentOrigin req) spend;
          match l with
          | inr deny => Ret deny
          | inl sr =>
              if implicit then Ret (authorized GrantSourceImplicit (ExpiresAt sr)) else check_chains g c req x sr hr
          end
      end
  end.

Definition set_BrandID (id : string) (r : GrantRequest) : GrantRequest :=
  MkRequest (AgentOrigin r) (BrandDomain r) (AccountOperator r) (Scope r) id (ReqCountries r) (SigningProfile r) (NonSpend r).

(** The house whose record authorizes the brand: the context of the claim and the
    house's domain, or none in an outage. *)
Definition resolve_house (g : GrantEvaluator) (req : GrantRequest) (signerOp brandOp accountOp : string) :
    prog (option (claim_context * string)) :=
  let own := (MkContext req signerOp accountOp brandOp brandOp, BrandDomain req) in
  if negb (HasResolveHouse g) || bool_decide (signerOp = brandOp ∧ brandOp = accountOp) then Ret (Some own) else
  h ← ask (ResolveHouse (BrandDomain req) (BrandID req));
  Ret match h with
      | None => None
      | Some None => Some own
      | Some (Some h) =>
          op ← RegistrableDomain (HouseDomain h);
          let matchReq := if bool_decide (HouseBrandID h = "") then req else set_BrandID (HouseBrandID h) req in
          Some (MkContext matchReq signerOp accountOp brandOp op, HouseDomain h)
      end.

Definition check_resolved (g : GrantEvaluator) (c : config) (req : GrantRequest) (signerOp brandOp accountOp : string)
    (signerRec : option EvaluatedTrustRecord) : prog GrantAuthorization :=
  h ← resolve_house g req signerOp brandOp accountOp;
  match h with
  | None => Ret (unavailable GrantReasonHouseUnavailable)
  | Some (x, house) => check_house g c req x house signerRec
  end.

(** The defaults of a request. *)
Definition normalize (req : GrantRequest) : GrantRequest :=
  MkRequest (AgentOrigin req) (BrandDomain req) (AccountOperator req)
    (if bool_decide (Scope req = "") then ScopeMediaBuying else Scope req) (BrandID req) (ReqCountries req)
    (if bool_decide (SigningProfile req = "") then ProfileTagWebBotAuth else SigningProfile req) (NonSpend req).

Definition set_AgentOrigin (o : string) (r : GrantRequest) : GrantRequest :=
  MkRequest o (BrandDomain r) (AccountOperator r) (Scope r) (BrandID r) (ReqCountries r) (SigningProfile r) (NonSpend r).

Definition check_origin (g : GrantEvaluator) (c : config) (req : GrantRequest) (signerOp brandOp accountOp : string) :
    prog GrantAuthorization :=
  if bool_decide (SigningProfile req = ProfileTagWebBotAuth) then
    l ← signerListing c (AgentOrigin req) (negb (NonSpend req));
    match l with
    | inr deny => Ret deny
    | inl sr =>
        if bool_decide (signerOp = brandOp ∧ brandOp = accountOp)
        then Ret (authorized GrantSourceImplicit (ExpiresAt sr))
        else check_resolved g c req signerOp brandOp accountOp (Some sr)
    end
  else check_resolved g c req signerOp brandOp accountOp None.

Definition Check (g : GrantEvaluator) (req : GrantRequest) : prog (result grantError GrantAuthorization) :=
  match Records g with
  | None => Ret (Err errNoRecords)
  | Some c =>
      let req := normalize req in
      if negb (bool_decide (SigningProfile req = ProfileTagWebBotAuth)) &&
         negb (bool_decide (SigningProfile req = ProfileTagRequestSigning))
      then Ret (Err errUnsupportedProfile) else
      match CanonicalOrigin (AgentOrigin req) with
      | None => Ret (Ok (denied GrantReasonAbsent false))
      | Some origin =>
          let req := set_AgentOrigin origin req in
          match RegistrableDomain origin, RegistrableDomain (BrandDomain req), RegistrableDomain (AccountOperator req) with
          | Some signerOp, Some brandOp, Some accountOp => a ← check_origin g c req signerOp brandOp accountOp; Ret (Ok a)
          | _, _, _ => Ret (Ok (denied GrantReasonAbsent false))
          end
      end
  end.
(** ** The gate *)

(** [SpendCommitting] overrides the classification of operations; the two claim
    hooks are effects. *)
Record GrantGate := MkGate {
  Evaluator : GrantEvaluator;
  HasAccountClaim : bool;
  HasOperationClaim : bool;
  SpendCommitting : option (string → bool);
}.

Definition spendCommittingOperations : list string :=
  ["create_media_buy"; "update_media_buy"; "buy_products"; "accept_proposal"; "activate_signal"].

Definition IsSpendCommittingOperation (op : string) : bool :=
  bool_decide (op ∈ spendCommittingOperations) || HasPrefix op "acquire_".

Definition nonSpend (g : GrantGate) (operation : string) : bool :=
  if bool_decide (operation = "") then false else
  match SpendCommitting g with
  | Some f => negb (f operation)
  | None => negb (IsSpendCommittingOperation operation)
  end.

Definition GrantRequest_of (claim : GrantClaim) (agent profile : string) : GrantRequest :=
  MkRequest agent (cl_BrandDomain claim) (cl_AccountOperator claim) (cl_Scope claim) (cl_BrandID claim)
    (cl_Countries claim) profile (cl_NonSpend claim).

(** What refuses a Web Bot Auth signer before any grant is read. *)
Definition wba_refusal (signer : WBASigner) (claim : GrantClaim) : option denial :=
  if bool_decide (PrincipalID signer = "") then Some unboundDenial else
  match Revocation signer with
  | RevocationCurrent => None
  | RevocationStale => if cl_NonSpend claim then None else Some trustUnavailableError
  | RevocationUnavailable => Some trustUnavailableError
  | RevocationUnchecked | RevocationRevoked | RevocationNoList => Some unboundDenial
  end.

Definition check_claim (g : GrantGate) (claim : GrantClaim) (signer : WBASigner) (profile : string) : prog (option denial) :=
  r ← Check (Evaluator g) (GrantRequest_of claim (SigTypes.AgentURL signer) profile);
  Ret match r with Err _ => Some grantAbsentError | Ok a => GrantErr a end.

(** [RequireClaim]: none is success. *)
Definition RequireClaim (g : GrantGate) (claim : GrantClaim) (signer : option WBASigner) : prog (option denial) :=
  match signer with
  | None => Ret (Some unestablishedDenial)
  | Some signer =>
      if bool_decide (SigTypes.AgentURL signer = "") then Ret (Some unestablishedDenial) else
      if bool_decide (SignerProfile signer = ProfileTagWebBotAuth) then
        match wba_refusal signer claim with
        | Some e => Ret (Some e)
        | None => check_claim g claim signer ProfileTagWebBotAuth
        end
      else check_claim g claim signer ProfileTagRequestSigning
  end.

Definition mediaBuyingOperations : list string :=
  ["sync_accounts"; "get_products"; "list_products"; "request_proposals"; "refine_proposals"; "decline_proposals";
   "buy_products"; "accept_proposal"; "create_media_buy"; "update_media_buy"; "control_media_buy"; "get_media_buys";
   "get_media_buy_delivery"; "get_reporting_status"; "sync_reporting_receipts"; "provide_performance_feedback";
   "sync_creatives"; "list_creatives"; "list_creative_formats"].

Definition set_NonSpend (b : bool) (c : GrantClaim) : GrantClaim :=
  MkClaim (cl_BrandDomain c) (cl_AccountOperator c) (cl_BrandID c) (cl_Countries c) (cl_Scope c) b.

Definition RequireAccountForOperation (g : GrantGate) (account operation : string) (signer : option WBASigner) :
    prog (option denial) :=
  match signer with
  | None => Ret (Some unestablishedDenial)
  | Some s =>
      if bool_decide (SigTypes.AgentURL s = "") then Ret (Some unestablishedDenial) else
      let op := if HasOperationClaim g && negb (bool_decide (operation = "")) then Some operation else None in
      if negb (bool_decide (is_Some op)) && negb (HasAccountClaim g) then Ret (Some grantAbsentError) else
      claim ← ask (AccountClaim account op);
      match claim with
      | None => Ret (Some grantAbsentError)
      | Some claim =>
          if negb (bool_decide (operation = "")) &&
             (bool_decide (cl_Scope claim = "") || bool_decide (cl_Scope claim = ScopeMediaBuying)) &&
             negb (bool_decide (operation ∈ mediaBuyingOperations))
          then Ret (Some grantAbsentError)
          else RequireClaim g (set_NonSpend (nonSpend g operation) claim) signer
      end
  end.

Definition RequireAccount (g : GrantGate) (account : string) (signer : option WBASigner) : prog (option denial) :=
  RequireAccountForOperation g account "" signer.

(** An entry of [sync_accounts]: the fields the gate reads. *)
Record AccountInput := MkAccountInput {
  ai_Brand : option (string * string);
  ai_Operator : string;
  ai_AccountID : string;
}.

Definition declared_claim (g : GrantGate) (a : AccountInput) : option GrantClaim :=
  match ai_Brand a with
  | Some (domain, id) =>
      if negb (bool_decide (domain = "")) && negb (bool_decide (ai_Operator a = ""))
      then Some (MkClaim domain (ai_Operator a) id [] "" (nonSpend g "sync_accounts")) else None
  | None => None
  end.

Definition RequireDeclaration (g : GrantGate) (a : AccountInput) (signer : option WBASigner) : prog (option denial) :=
  match signer with
  | None => Ret (Some unestablishedDenial)
  | Some s =>
      if bool_decide (SigTypes.AgentURL s = "") then Ret (Some unestablishedDenial) else
      match declared_claim g a with
      | Some claim => RequireClaim g claim signer
      | None =>
          if negb (bool_decide (ai_AccountID a = "")) then RequireAccountForOperation g (ai_AccountID a) "sync_accounts" signer
          else Ret (Some grantAbsentError)
      end
  end.

Fixpoint SyncAccountsAuthorizer (g : GrantGate) (signer : option WBASigner) (accounts : list AccountInput) :
    prog (option denial) :=
  match accounts with
  | [] => Ret None
  | a :: rest => r ← RequireDeclaration g a signer; match r with Some e => Ret (Some e) | None => SyncAccountsAuthorizer g signer rest end
  end.

End Grants.
