(* ===== verification/Bindings.v ===== *)
(** * Bindings: origins and principals

    [src/adcp/v3/identity/bindings.go] with [TrustRecordEvaluator.Bind] of
    [evaluator.go]: the table that maps a verified origin to a seller's principal,
    and the gate that lets a bound origin act. *)
From S2P Require Import Prelude GoStrings Unicode NetUrl SigTypes SigBase Origin Psl TrustJson Trust GrantEff Grants.
From stdpp Require Import options.

(** ** The in-memory store *)

Abbreviation OriginBindings := (gmap string string).
Definition NewOriginBindings : OriginBindings := ∅.

(** [signing.CodeServiceUnavailable], the only code the gate answers with. *)
Inductive authorization_error := ServiceUnavailable (reason : string).

Inductive bind_outcome := NotWebBotAuth | ErrRevocationListRequired | EvaluationFailed (e : eval_error) | StoreFailed (e : bind_error).

Record BindingGate := MkBindingGate {
  HasBindings : bool;
  GateRecords : option config;
  GateRole : string;
  GateSpend : option (string → bool);
}.

Section Bindings.
Context `{RT : Runtime} `{PSL : PublicSuffixList}.

Definition Bind (b : OriginBindings) (origin principalID : string) (opts : BindOptions) : OriginBindings * option bind_error :=
  match CanonicalOrigin origin with
  | Some canonical =>
      if negb (HasPrefix canonical "https://") || bool_decide (principalID = "") then (b, Some BindingNeedsOrigin) else
      if ExistingRFC9421Principal opts && negb (MigrationApproved opts) then (b, Some ErrMigrationNotApproved) else
      if match b !! canonical with Some existing => negb (bool_decide (existing = principalID)) | None => false end
      then (b, Some ErrRebind) else
      (<[canonical := principalID]> b, None)
  | None => (b, Some BindingNeedsOrigin)
  end.

Definition PrincipalForOrigin (b : OriginBindings) (origin : string) : option string :=
  canonical ← CanonicalOrigin origin; b !! canonical.

(** ** The gate *)

(** What the key's revocation state decides before the trust record is read. *)
Definition revocation_gate (state : RevocationState) (spend : bool) : result (option authorization_error) unit :=
  match state with
  | RevocationCurrent => Ok tt
  | RevocationStale => if spend then Err (Some (ServiceUnavailable "origin revocation list is stale")) else Ok tt
  | RevocationUnavailable => Err (Some (ServiceUnavailable "revocation store unavailable"))
  | RevocationUnchecked | RevocationRevoked | RevocationNoList => Err None
  end.

Definition gate_spend (g : BindingGate) (operation : string) : bool :=
  match GateSpend g with Some f => f operation | None => IsSpendCommittingOperation operation end.

Definition AuthorizeWBA (g : BindingGate) (signer : WBASigner) (operation : string) :
    prog (result authorization_error string) :=
  if negb (HasBindings g) then Ret (Ok "") else
  bound ← ask (LookupPrincipal (SigTypes.AgentURL signer));
  match bound with
  | None => Ret (Err (ServiceUnavailable "binding lookup failed"))
  | Some None => Ret (Ok "")
  | Some (Some principal) =>
      let spend := gate_spend g operation in
      match revocation_gate (Revocation signer) spend with
      | Err (Some e) => Ret (Err e)
      | Err None => Ret (Ok "")
      | Ok _ =>
          match GateRecords g with
          | None => Ret (Err (ServiceUnavailable "binding evaluation unavailable"))
          | Some c =>
              let role := if bool_decide (GateRole g = "") then RoleBuying else GateRole g in
              l ← CheckListing c (SigTypes.AgentURL signer) role;
              Ret match ListStatus l with
                  | Listed => Ok principal
                  | Unlisted_ => Ok ""
                  | Unavailable =>
                      if spend || negb (WithinGrace l)
                      then Err (ServiceUnavailable "operator trust record unavailable") else Ok principal
                  end
          end
      end
  end.

(** ** [TrustRecordEvaluator.Bind] *)

Definition BindSigner (signer : option WBASigner) (principalID : string) (opts : BindOptions) :
    prog (result bind_outcome EvaluatedTrustRecord) :=
  match signer with
  | None => Ret (Err NotWebBotAuth)
  | Some s =>
      if negb (bool_decide (SignerProfile s = ProfileTagWebBotAuth)) || bool_decide (SigTypes.AgentURL s = "")
      then Ret (Err NotWebBotAuth) else
      match Revocation s with
      | RevocationCurrent =>
          let role := if bool_decide (BindRole opts = "") then RoleBuying else BindRole opts in
          r ← ask (Evaluate (SigTypes.AgentURL s) role);
          match r with
          | Err e => Ret (Err (EvaluationFailed e))
          | Ok rec =>
              e ← ask (StoreBinding (SigTypes.AgentURL s) principalID opts);
              Ret match e with Some e => Err (StoreFailed e) | None => Ok rec end
          end
      | _ => Ret (Err ErrRevocationListRequired)
      end
  end.

End Bindings.
