(* ===== verification/GrantProps.v ===== *)
(** * GrantProps: what a grant decision means

    The specification of a delegation chain, that the loops of [Grants] compute the
    latest expiry of one, and what [Check] and the gates answer for every behaviour
    of the environment. *)
From S2P Require Import Prelude GoStrings Unicode GoTime Json NetUrl SigTypes SigBase Origin Psl TrustJson Trust GrantEff Grants Bindings.
From stdpp Require Import options.

Abbreviation records := (gmap string (result eval_error EvaluatedTrustRecord)).

Section Chains.
Context `{RT : Runtime} `{PSL : PublicSuffixList}.

(** ** Specification: delegation chains *)

(** A grant that covers the claim, to a registrable domain. *)
Definition covers (x : claim_context) (now : Time) (gr : TrustGrant) : Prop :=
  isRegistrableDomain (Grantee gr) = true ∧ grantCovers gr (cx_req x) (ReqCountries (cx_req x)) now = true.

(** The account operator is the brand, its house, or the first grantee. *)
Definition first_ok (x : claim_context) (gr : TrustGrant) : Prop :=
  self x (cx_account x) = true ∨ Grantee gr = cx_account x.

(** A chain of one or two covering grants from the house's record to the signer's
    operator; [read] gives the records of intermediaries. *)
Inductive chain (x : claim_context) (now : Time) (hr : EvaluatedTrustRecord) (read : string → EvaluatedTrustRecord → Prop) :
    list (EvaluatedTrustRecord * TrustGrant) → Prop :=
  | chain_direct gr :
      gr ∈ Grants (Rec hr) → covers x now gr → first_ok x gr → Grantee gr = cx_signer x →
      chain x now hr read [(hr, gr)]
  | chain_via gr rec gr' :
      gr ∈ Grants (Rec hr) → covers x now gr → first_ok x gr → Grantee gr ≠ cx_signer x →
      read (Grantee gr) rec → (now < ExpiresAt rec)%Z →
      gr' ∈ Grants (Rec rec) → covers x now gr' → Grantee gr' = cx_signer x →
      chain x now hr read [(hr, gr); (rec, gr')].

(** When a grant ends; none stands for 2038. *)
Definition valid_until (gr : TrustGrant) : Time :=
  if bool_decide (ValidUntil gr = "") then noExpiry else default 0%Z (ParseRFC3339Nano (ValidUntil gr)).

(** [t] is within the life of the signer's record and of every link. *)
Definition lives (t : Time) (sr : EvaluatedTrustRecord) (ch : list (EvaluatedTrustRecord * TrustGrant)) : Prop :=
  (t ≤ noExpiry)%Z ∧ (t ≤ ExpiresAt sr)%Z ∧ Forall (λ l, t ≤ ExpiresAt l.1 ∧ t ≤ valid_until l.2)%Z ch.

(** ** Expiry *)

Lemma earliest_le t ts : (t ≤ earliest ts ↔ t ≤ noExpiry ∧ Forall (λ u, t ≤ u) ts)%Z.
Proof.
  unfold earliest. generalize noExpiry as m. induction ts as [|u ts IH]; intros m; cbn [foldl]; [rewrite Forall_nil; tauto|].
  rewrite IH, Forall_cons. destruct (Z.ltb_spec u m); intuition lia.
Qed.

Lemma link_expiry_le t best grants :
  (t ≤ noExpiry)%Z → (∀ gr, gr ∈ grants → ValidUntil gr ≠ "" → is_Some (ParseRFC3339Nano (ValidUntil gr))) →
  (t ≤ link_expiry best grants ↔ t ≤ best ∨ ∃ gr, gr ∈ grants ∧ t ≤ valid_until gr)%Z.
Proof.
  intros Ht. revert best. induction grants as [|gr rest IH]; intros best Hp; cbn [link_expiry].
  - split; [by left|]. by intros [?|(? & ?%elem_of_nil & _)].
  - unfold valid_until in *. case_bool_decide as Hu.
    + split; [|done]. intros _. right. exists gr. rewrite bool_decide_eq_true_2 by done. split; [by left|done].
    + destruct (Hp gr ltac:(by left) Hu) as [u Eu]. rewrite IH by (intros; apply Hp; [by right|done]). rewrite Eu.
      split.
      * intros [Hb|(g' & Hg & Hl)]; [|right; exists g'; split; [by right|done]].
        destruct (Z.ltb_spec best u); [|by left]. right. exists gr. rewrite bool_decide_eq_false_2, Eu by done. split; [by left|done].
      * intros [Hb|(g' & [->|Hg]%elem_of_cons & Hl)].
        -- left. destruct (Z.ltb_spec best u); lia.
        -- rewrite bool_decide_eq_false_2, Eu in Hl by done. cbn in Hl. left. destruct (Z.ltb_spec best u); lia.
        -- right. eauto.
Qed.

Lemma covers_parses x now gr : covers x now gr → ValidUntil gr ≠ "" → is_Some (ParseRFC3339Nano (ValidUntil gr)).
Proof.
  intros [_ Hc] Hu. unfold grantCovers in Hc. apply andb_true_iff in Hc as [_ Hc].
  rewrite bool_decide_eq_false_2 in Hc by done. destruct (ParseRFC3339Nano (ValidUntil gr)); [eauto|done].
Qed.

Lemma linkExpiry_le x now t grants :
  (0 < t)%Z → (t ≤ noExpiry)%Z → Forall (covers x now) grants →
  (t ≤ linkExpiry grants ↔ ∃ gr, gr ∈ grants ∧ t ≤ valid_until gr)%Z.
Proof.
  intros Ht Hn Hg. unfold linkExpiry. rewrite link_expiry_le; [intuition lia|done|].
  rewrite Forall_forall in Hg. intros gr Hin. by eapply covers_parses, Hg.
Qed.

(** ** The lists of first and second grants *)

Definition first_grant (x : claim_context) (now : Time) (grants : list TrustGrant) (gr : TrustGrant) : Prop :=
  gr ∈ grants ∧ covers x now gr ∧ first_ok x gr.

Lemma firsts_spec x grants now direct via :
  firsts x grants now = (direct, via) →
  (∀ gr, gr ∈ direct ↔ first_grant x now grants gr ∧ Grantee gr = cx_signer x) ∧
  (∀ d gr, gr ∈ default [] (via !! d) ↔ first_grant x now grants gr ∧ Grantee gr = d ∧ d ≠ cx_signer x) ∧
  (∀ d, is_Some (via !! d) → default [] (via !! d) ≠ []).
Proof.
  unfold firsts. revert direct via. induction grants as [|gr grants IH] using rev_ind; intros direct via E.
  - cbn in E. simplify_eq. split_and!.
    + intros gr. split; [by intros ?%elem_of_nil|]. by intros [[?%elem_of_nil _] _].
    + intros d gr. rewrite lookup_empty. split; [by intros ?%elem_of_nil|]. by intros [[?%elem_of_nil _] _].
    + intros d. rewrite lookup_empty. by intros [? ?].
  - rewrite foldl_app in E. cbn [foldl] in E. destruct (foldl _ ([], ∅) grants) as [d0 v0] eqn:E0.
    destruct (IH _ _ eq_refl) as (Hd & Hv & Hne). clear IH.
    assert (Hsnoc : ∀ g, first_grant x now (grants ++ [gr]) g ↔
              first_grant x now grants g ∨ (g = gr ∧ covers x now gr ∧ first_ok x gr)).
    { intros g. unfold first_grant. rewrite elem_of_app, list_elem_of_singleton. naive_solver. }
    assert (Hskip : ¬ (covers x now gr ∧ first_ok x gr) → (direct, via) = (d0, v0) →
      (∀ gr0, gr0 ∈ direct ↔ first_grant x now (grants ++ [gr]) gr0 ∧ Grantee gr0 = cx_signer x) ∧
      (∀ d gr0, gr0 ∈ default [] (via !! d) ↔ first_grant x now (grants ++ [gr]) gr0 ∧ Grantee gr0 = d ∧ d ≠ cx_signer x) ∧
      (∀ d, is_Some (via !! d) → default [] (via !! d) ≠ [])).
    { intros Hn [= -> ->]. split_and!; [intros g|intros d g|done]; rewrite ?Hd, ?Hv, Hsnoc; naive_solver. }
    destruct (negb (isRegistrableDomain (Grantee gr)) || _)%bool eqn:Ec.
    { apply Hskip; [|done]. unfold covers. bool_prop. destruct Ec as [E1|E1]; bool_prop; intros [[? ?] _]; congruence. }
    destruct (negb (self x (cx_account x)) && _)%bool eqn:Ef.
    { apply Hskip; [|done]. unfold first_ok. bool_prop. intros [_ [?|?]]; congruence. }
    assert (covers x now gr ∧ first_ok x gr) as Hok.
    { bool_prop. split; [done|]. unfold first_ok. destruct Ef; bool_prop; auto. }
    clear Hskip Ec Ef. case_bool_decide as Hs; simplify_eq.
    + split_and!; [intros g|intros d g|done]; rewrite ?elem_of_app, ?list_elem_of_singleton, ?Hd, ?Hv, Hsnoc; naive_solver.
    + split_and!.
      * intros g. rewrite Hd, Hsnoc. naive_solver.
      * intros d g. unfold add_via. rewrite lookup_insert. case_decide as Hgd.
        -- subst d. cbn. rewrite elem_of_app, list_elem_of_singleton, Hv, Hsnoc. naive_solver.
        -- rewrite Hv, Hsnoc. naive_solver.
      * intros d. unfold add_via. rewrite lookup_insert. case_decide; [|apply Hne]. intros _. cbn. by destruct (default [] _).
Qed.

Lemma seconds_spec x grants now gr :
  gr ∈ seconds x grants now ↔ gr ∈ grants ∧ covers x now gr ∧ Grantee gr = cx_signer x.
Proof.
  unfold seconds, covers. rewrite !list_elem_of_In, filter_In, !andb_true_iff, bool_decide_eq_true. tauto.
Qed.

(** ** The loop over the intermediaries *)

(** What was read of an intermediary, and that it could not be read. *)
Definition read_of (m : records) (d : string) (rec : EvaluatedTrustRecord) : Prop := m !! d = Some (Ok rec).

Definition unreadable (m : records) (now : Time) (d : string) : Prop :=
  (∃ e, m !! d = Some (Err e) ∧ IsTrustRecordUnavailable e = true) ∨
  (∃ rec, m !! d = Some (Ok rec) ∧ (ExpiresAt rec ≤ now)%Z).

Definition pair_lives (x : claim_context) (now limit : Time) (via : gmap string (list TrustGrant)) (m : records)
    (t : Time) (d : string) : Prop :=
  ∃ rec, read_of m d rec ∧ (now < ExpiresAt rec)%Z ∧ seconds x (Grants (Rec rec)) now ≠ [] ∧
    (t ≤ earliest [limit; ExpiresAt rec; linkExpiry (default [] (via !! d)); linkExpiry (seconds x (Grants (Rec rec)) now)])%Z.

Lemma via_step_spec x now limit via m expiry out d t expiry' out' :
  via_step x now limit via m (expiry, out) d = (expiry', out') → (now < t)%Z →
  (t ≤ expiry' ↔ t ≤ expiry ∨ pair_lives x now limit via m t d)%Z ∧
  (out' = true ↔ out = true ∨ unreadable m now d).
Proof.
  intros E Ht. unfold via_step in E. unfold pair_lives, unreadable, read_of.
  destruct (m !! d) as [[rec|e]|] eqn:Em.
  - destruct (Z.ltb_spec now (ExpiresAt rec)); cbn [negb] in E.
    + destruct (seconds x (Grants (Rec rec)) now) as [|g gs] eqn:Es.
      * simplify_eq. split; [|split; [by left|]; intros [?|[(? & ? & ?)|(? & ? & ?)]]; [done|congruence|simplify_eq; lia]]. split; [by left|]. intros [?|(r & [= <-] & _ & Hs & _)]; [done|]. by rewrite Es in Hs.
      * set (e := earliest _) in E.
        assert (expiry' = Z.max expiry e ∧ out' = out) as [-> ->] by (destruct (Z.ltb_spec expiry e); simplify_eq; split; [lia|done|lia|done]).
        split; [|split; [by left|]; intros [?|[(? & ? & ?)|(? & ? & ?)]]; [done|congruence|simplify_eq; lia]]. rewrite Z.max_le_iff. split.
        -- intros [?|?]; [by left|]. right. exists rec. by rewrite Es.
        -- intros [?|(r & [= <-] & _ & _ & Hl)]; [by left|]. right. by rewrite Es in Hl.
    + simplify_eq. split.
      * split; [by left|]. intros [?|(r & [= <-] & ? & _)]; [done|lia].
      * split; [|done]. intros _. right. right. exists rec. split; [done|lia].
  - destruct (IsTrustRecordUnavailable e) eqn:Ee; simplify_eq; (split; [split; [by left|by intros [?|(r & ? & _)]]|]).
    + split; [|done]. intros _. right. left. by exists e.
    + split; [by left|]. intros [?|[(e' & [= <-] & ?)|(r & ? & _)]]; congruence.
  - simplify_eq. split; [split; [by left|by intros [?|(r & ? & _)]]|]. split; [by left|]. by intros [?|[(? & ? & _)|(? & ? & _)]].
Qed.

Lemma via_loop_spec x now limit via m order expiry out t expiry' out' :
  foldl (via_step x now limit via m) (expiry, out) order = (expiry', out') → (now < t)%Z →
  (t ≤ expiry' ↔ t ≤ expiry ∨ ∃ d, d ∈ order ∧ pair_lives x now limit via m t d)%Z ∧
  (out' = true ↔ out = true ∨ ∃ d, d ∈ order ∧ unreadable m now d).
Proof.
  revert expiry out. induction order as [|d order IH]; intros expiry out; cbn [foldl].
  - intros [= <- <-] _. split; (split; [by left|by intros [?|(? & ?%elem_of_nil & _)]]).
  - destruct (via_step x now limit via m (expiry, out) d) as [e1 o1] eqn:E1. intros E Ht.
    destruct (IH _ _ E Ht) as [IHe IHo]. destruct (via_step_spec _ _ _ _ _ _ _ _ t _ _ E1 Ht) as [He Ho].
    rewrite IHe, He, IHo, Ho. setoid_rewrite elem_of_cons. split; (split; [|naive_solver]).
    + intros [[?|?]|(d' & ? & ?)]; eauto.
    + intros [[?|?]|(d' & ? & ?)]; eauto.
Qed.

(** The decision: its expiry is the latest end of a chain whose intermediary was
    read, in whatever order the map is visited. *)
Lemma decide_chains_spec x now order m sr hr expiry outage t :
  decide_chains x now order m sr hr = (expiry, outage) →
  map_keys (firsts x (Grants (Rec hr)) now).2 ≡ₚ order → (0 ≤ now < t)%Z →
  (t ≤ expiry ↔ ∃ ch, chain x now hr (read_of m) ch ∧ t ≤ ExpiresAt hr ∧ lives t sr ch)%Z ∧
  (outage = true ↔ ∃ gr, first_grant x now (Grants (Rec hr)) gr ∧ Grantee gr ≠ cx_signer x ∧ unreadable m now (Grantee gr)).
Proof.
  unfold decide_chains. destruct (firsts x (Grants (Rec hr)) now) as [direct via] eqn:Ef. cbn [snd].
  intros E Hord [Hnow Ht]. destruct (firsts_spec _ _ _ _ _ Ef) as (Hd & Hv & Hne).
  destruct (via_loop_spec _ _ _ _ _ _ _ _ _ _ _ E Ht) as [He Ho].
  assert (∀ d, d ∈ order ↔ ∃ gr, gr ∈ default [] (via !! d)) as Hin.
  { intros d. rewrite <- Hord. unfold map_keys. rewrite list_elem_of_fmap. split.
    - intros ([k l] & -> & Hk%elem_of_map_to_list). cbn. specialize (Hne k ltac:(eauto)). rewrite Hk in *. cbn in *.
      destruct l as [|gr l]; [done|]. exists gr. by left.
    - intros (gr & Hg). destruct (via !! d) as [l|] eqn:El; [|by apply elem_of_nil in Hg].
      exists (d, l). split; [done|]. by apply elem_of_map_to_list. }
  split.
  - rewrite He. split.
    + intros [Hdir|(d & [gr Hg]%Hin & rec & Hrec & Hlive & Hs & Hl)].
      * case_bool_decide as Hnil; [lia|]. apply earliest_le in Hdir as (Hno & [Hlim [Hlk _]%Forall_cons]%Forall_cons).
        apply earliest_le in Hlim as (_ & [Hsr [Hhr _]%Forall_cons]%Forall_cons).
        rewrite (linkExpiry_le x now) in Hlk; [|lia|done|].
        -- destruct Hlk as (gr & [[(? & ? & ?) ?]%Hd ?]). exists [(hr, gr)]. split; [by constructor|]. split; [done|].
           split_and!; try done. by repeat constructor.
        -- apply Forall_forall. by intros gr [(? & ? & ?) ?]%Hd.
      * apply earliest_le in Hl as (Hno & [Hlim [Hrx [Hl1 [Hl2 _]%Forall_cons]%Forall_cons]%Forall_cons]%Forall_cons).
        apply earliest_le in Hlim as (_ & [Hsr [Hhr _]%Forall_cons]%Forall_cons).
        rewrite (linkExpiry_le x now) in Hl1, Hl2; [|lia|done| |lia|done|].
        -- destruct Hl1 as (g1 & [(? & ? & ?) [Hd1 ?]]%Hv & ?). destruct Hl2 as (g2 & (? & ? & ?)%seconds_spec & ?).
           exists [(hr, g1); (rec, g2)]. split; [|split_and!; [done|]].
           ++ eapply chain_via; try done; by rewrite Hd1.
           ++ split_and!; try done. by repeat constructor.
        -- apply Forall_forall. by intros g (? & ? & ?)%seconds_spec.
        -- apply Forall_forall. by intros g [(? & ? & ?) ?]%Hv.
    + intros (ch & Hch & Hhr & Hno & Hsr & Hall).
      assert (t ≤ earliest [ExpiresAt sr; ExpiresAt hr])%Z as Hlim by (apply earliest_le; split; [done|by repeat constructor]).
      destruct Hch as [gr Hg Hc Hf Hs|gr rec g' Hg Hc Hf Hs Hread Hlive Hg' Hc' Hs'].
      * left. apply Forall_cons in Hall as [[_ Hu] _].
        assert (gr ∈ direct) as Hgd by by apply Hd.
        rewrite bool_decide_eq_false_2 by (intros ->; by apply elem_of_nil in Hgd).
        apply earliest_le. split; [done|]. repeat constructor; [done|].
        apply (linkExpiry_le x now); [lia|done| |eauto]. apply Forall_forall. by intros g [(? & ? & ?) ?]%Hd.
      * right. apply Forall_cons in Hall as [[_ Hu] [[Hrx Hu'] _]%Forall_cons]. cbn [fst snd] in *.
        assert (gr ∈ default [] (via !! Grantee gr)) as Hgv by by apply Hv.
        assert (g' ∈ seconds x (Grants (Rec rec)) now) as Hgs by by apply seconds_spec.
        exists (Grantee gr). split; [apply Hin; eauto|]. exists rec. split_and!; [done|done| |].
        -- intros Hnil. rewrite Hnil in Hgs. by apply elem_of_nil in Hgs.
        -- apply earliest_le. split; [done|]. repeat constructor; [done|done| |].
           ++ apply (linkExpiry_le x now); [lia|done| |eauto]. apply Forall_forall. by intros g [(? & ? & ?) ?]%Hv.
           ++ apply (linkExpiry_le x now); [lia|done| |eauto]. apply Forall_forall. by intros g (? & ? & ?)%seconds_spec.
  - rewrite Ho. split.
    + intros [?|(d & [gr Hg]%Hin & Hu)]; [done|]. apply Hv in Hg as (Hg & <- & ?). eauto.
    + intros (gr & Hg & Hs & Hu). right. exists (Grantee gr). split; [|done]. apply Hin. exists gr. by apply Hv.
Qed.
End Chains.

(** ** Records as the events give them *)

Section Reads.
Context `{RT : Runtime} `{PSL : PublicSuffixList} (c : config).

(** The operator's last record, continued in an outage. *)
Definition continued (tr : list event) (origin : string) (last r : EvaluatedTrustRecord) : Prop :=
  ∃ op st t, RegistrableDomain origin = Some op ∧ Loaded op (Some st) ∈ tr ∧ LastRecord st = Some last ∧
             Clocked false t ∈ tr ∧ staleWithinBound c t last = Some r.

(** [r] is the record of [domain]: evaluated now, or, when the claim commits no
    spend and the record cannot be read, the last one read, within the bound. *)
Definition record_read (tr : list event) (spend : bool) (domain : string) (r : EvaluatedTrustRecord) : Prop :=
  Evaluated domain "" (Ok r) ∈ tr ∨
  spend = false ∧ ∃ e last, Evaluated domain "" (Err e) ∈ tr ∧ IsTrustRecordUnavailable e = true ∧ continued tr domain last r.

(** [r] lists the signer with the role. *)
Definition lists_signer (tr : list event) (spend : bool) (origin role : string) (r : EvaluatedTrustRecord) : Prop :=
  lists_agent origin role (Rec r) = true ∧
  (Evaluated origin role (Ok r) ∈ tr ∨
   spend = false ∧ ∃ e last, Evaluated origin role (Err e) ∈ tr ∧ IsTrustRecordUnavailable e = true ∧ continued tr origin last r).

(** The signer's operator does not list it: it says so, publishes nothing, or its
    last record did not list the signer. *)
Definition not_listed (tr : list event) (origin role : string) : Prop :=
  (∃ r, Evaluated origin role (Ok r) ∈ tr ∧ lists_agent origin role (Rec r) = false) ∨
  ∃ e, Evaluated origin role (Err e) ∈ tr ∧
       (IsTrustRecordUnavailable e = false ∨ RegistrableDomain origin = None ∨
        ∃ op st last, RegistrableDomain origin = Some op ∧ Loaded op (Some st) ∈ tr ∧ LastRecord st = Some last ∧
                      lists_agent origin role (Rec last) = false).

(** The record cannot be read. *)
Definition outage_of (tr : list event) (origin role : string) : Prop :=
  ∃ e, Evaluated origin role (Err e) ∈ tr ∧ IsTrustRecordUnavailable e = true.

Lemma continued_mono tr tr' o l r : tr ⊆ tr' → continued tr o l r → continued tr' o l r.
Proof. intros Hs (op & st & t & ? & ? & ? & ? & ?). exists op, st, t. auto 10. Qed.

Lemma record_read_mono tr tr' s d r : tr ⊆ tr' → record_read tr s d r → record_read tr' s d r.
Proof.
  intros Hs [H|(? & e & l & H & ? & ?)]; [left; by apply Hs|]. right. split; [done|]. exists e, l.
  split_and!; [by apply Hs|done|by eapply continued_mono].
Qed.

Lemma lists_signer_mono tr tr' s o role r : tr ⊆ tr' → lists_signer tr s o role r → lists_signer tr' s o role r.
Proof.
  intros Hs [? [H|(? & e & l & H & ? & ?)]]; split; try done; [left; by apply Hs|]. right. split; [done|]. exists e, l.
  split_and!; [by apply Hs|done|by eapply continued_mono].
Qed.

Lemma not_listed_mono tr tr' o role : tr ⊆ tr' → not_listed tr o role → not_listed tr' o role.
Proof.
  intros Hs [(r & ? & ?)|(e & ? & H)]; [left; exists r; auto|]. right. exists e. split; [auto|].
  destruct H as [?|[?|(op & st & l & ? & ? & ? & ?)]]; [auto..|]. right. right. exists op, st, l. auto.
Qed.

Lemma outage_of_mono tr tr' o role : tr ⊆ tr' → outage_of tr o role → outage_of tr' o role.
Proof. intros Hs (e & ? & ?). exists e. auto. Qed.

Lemma staleWithinBound_Rec t last r : staleWithinBound c t last = Some r → Rec r = Rec last.
Proof. unfold staleWithinBound. destruct (_ || _)%bool; [done|]. by intros [= <-]. Qed.

Lemma stale_record_played last tr o :
  play (stale_record c last) tr = Some o → ∀ r, o = Some r → ∃ t, Clocked false t ∈ tr ∧ staleWithinBound c t last = Some r.
Proof.
  unfold stale_record. intros H r ->. destruct (outage c <=? 0)%Z; run_step; [done|]. run_step. eexists. split; [by left|done].
Qed.

(** ** The functions that read *)

Lemma evaluateForGrant_played domain spend tr res :
  play (evaluateForGrant c domain spend) tr = Some res →
  match res with
  | Ok r => record_read tr spend domain r
  | Err e => Evaluated domain "" (Err e) ∈ tr
  end.
Proof.
  unfold evaluateForGrant. intros H. run_step. destruct a as [rec|e]; [run_step; left; by left|].
  destruct (spend || negb (IsTrustRecordUnavailable e))%bool eqn:Eb; [run_step; by left|]. bool_prop.
  destruct (RegistrableDomain domain) as [op|] eqn:Ed; [|run_step; by left]. run_step.
  destruct (a ≫= LastRecord) as [last|] eqn:El; [|run_step; by left].
  apply bind_Some in El as (st & -> & El). run_step. run_step. destruct a as [r|]; [|by left].
  destruct (stale_record_played _ _ _ Ha _ eq_refl) as (t & Ht & Hs).
  right. split; [done|]. exists e, last. split_and!; [by left|done|]. exists op, st, t. split_and!; try done; set_solver.
Qed.

Inductive listing_spec (tr : list event) (origin role : string) (spend : bool) : Listing → Prop :=
  | L_Listed r : lists_agent origin role (Rec r) = true → Evaluated origin role (Ok r) ∈ tr →
      listing_spec tr origin role spend (MkListing Listed (Some r) false)
  | L_Unlisted : not_listed tr origin role → listing_spec tr origin role spend (MkListing Unlisted_ None false)
  | L_Stale r e last : lists_agent origin role (Rec r) = true → Evaluated origin role (Err e) ∈ tr →
      IsTrustRecordUnavailable e = true → continued tr origin last r →
      listing_spec tr origin role spend (MkListing Unavailable (Some r) true)
  | L_Outage : outage_of tr origin role → listing_spec tr origin role spend (MkListing Unavailable None false).

Lemma CheckListing_played origin role spend tr l :
  play (CheckListing c origin role) tr = Some l → listing_spec tr origin role spend l.
Proof.
  unfold CheckListing, checkListing. intros H. run_step. destruct a as [rec|e].
  { run_step. destruct (lists_agent origin role (Rec rec)) eqn:El; constructor; [done|by left|].
    left. exists rec. split; [by left|done]. }
  destruct (negb (IsTrustRecordUnavailable e)) eqn:Eb; bool_prop.
  { run_step. constructor. right. exists e. split; [by left|by left]. }
  destruct (RegistrableDomain origin) as [op|] eqn:Ed.
  2: { run_step. constructor. right. exists e. split; [by left|auto]. }
  run_step. destruct (a ≫= LastRecord) as [last|] eqn:El.
  2: { run_step. constructor. exists e. split; [by left|done]. }
  apply bind_Some in El as (st & -> & El).
  destruct (lists_agent origin role (Rec last)) eqn:Ela; cbn [negb] in H.
  2: { run_step. constructor. right. exists e. split; [by left|]. right. right. exists op, st, last. split_and!; try done. set_solver. }
  run_step. run_step. destruct a as [r|].
  - destruct (stale_record_played _ _ _ Ha _ eq_refl) as (t & Ht & Hs).
    apply (L_Stale _ _ _ _ r e last); [by rewrite (staleWithinBound_Rec _ _ _ Hs)|by left|done|].
    exists op, st, t. split_and!; try done; set_solver.
  - constructor. exists e. split; [by left|done].
Qed.

Lemma signerListing_played origin spend tr res :
  play (signerListing c origin spend) tr = Some res →
  (∃ r, res = inl r ∧ lists_signer tr spend origin RoleBuying r) ∨
  (res = inr (denied GrantReasonSignerUnlisted false) ∧ not_listed tr origin RoleBuying) ∨
  (res = inr (unavailable GrantReasonSignerRecordUnavailable) ∧ outage_of tr origin RoleBuying).
Proof.
  unfold signerListing. intros H. run_step. apply (CheckListing_played _ _ spend) in Ha. run_step. rewrite app_nil_r.
  destruct Ha as [r Hl He|Hn|r e last Hl He Hu Hc|Ho]; cbn.
  - left. exists r. split; [done|]. split; [done|by left].
  - right. left. done.
  - destruct spend; cbn.
    + right. right. split; [done|]. by exists e.
    + left. exists r. split; [done|]. split; [done|]. right. split; [done|]. by exists e, last.
  - right. right. done.
Qed.

Lemma fetch_each_played order spend out tr m :
  play (fetch_each c order spend out) tr = Some m → ∀ d res, m !! d = Some res →
  out !! d = Some res ∨ match res with Ok r => record_read tr spend d r | Err e => Evaluated d "" (Err e) ∈ tr end.
Proof.
  revert out tr. induction order as [|k order IH]; intros out tr H d res Hd; cbn [fetch_each] in H.
  - run_step. by left.
  - run_step. apply evaluateForGrant_played in Ha. destruct (IH _ _ H d res Hd) as [Hin|Hr].
    + apply lookup_insert_Some in Hin as [[-> ->]|[_ ?]]; [|by left]. right.
      destruct res; [eapply record_read_mono; [|done]|]; set_solver.
    + right. destruct res; [eapply record_read_mono; [|done]|]; set_solver.
Qed.

Lemma fetchIntermediaries_played via spend tr m :
  play (fetchIntermediaries c via spend) tr = Some m → ∀ d res, m !! d = Some res →
  match res with Ok r => record_read tr spend d r | Err e => Evaluated d "" (Err e) ∈ tr end.
Proof.
  unfold fetchIntermediaries. intros H d res Hd. run_step. destruct (fetch_each_played _ _ _ _ _ H d res Hd) as [Hn|Hr].
  - by rewrite lookup_empty in Hn.
  - destruct res; [eapply record_read_mono; [|done]|]; set_solver.
Qed.

End Reads.
