(* ===== verification/GrantSpec.v ===== *)
(** * GrantSpec: the outcomes of [Check] and their causes

    One relation that gives, for every outcome of [Check], the records, hooks and
    clock readings among the events that caused it, and that [Check] answers nothing
    else; the properties of grants follow from it. *)
From S2P Require Import Prelude GoStrings Unicode GoTime Json NetUrl SigTypes SigBase Origin Psl TrustJson Trust GrantEff Grants Bindings GrantProps.
From stdpp Require Import options.

(** The clocks read no time before the year 1. *)
Definition clocks_ok (tr : list event) : Prop := ∀ own t, Clocked own t ∈ tr → (0 ≤ t)%Z.

Section Verdict.
Context `{RT : Runtime} `{PSL : PublicSuffixList} (g : GrantEvaluator) (c : config).

(** The house whose record authorizes the claim, with the claim's context. *)
Inductive house_of (tr : list event) (req : GrantRequest) (so bo ao : string) : claim_context → string → Prop :=
  | H_own :
      HasResolveHouse g = false ∨ (so = bo ∧ bo = ao) ∨ Resolved (BrandDomain req) (BrandID req) (Some None) ∈ tr →
      house_of tr req so bo ao (MkContext req so ao bo bo) (BrandDomain req)
  | H_resolved h op :
      Resolved (BrandDomain req) (BrandID req) (Some (Some h)) ∈ tr → RegistrableDomain (HouseDomain h) = Some op →
      house_of tr req so bo ao
        (MkContext (if bool_decide (HouseBrandID h = "") then req else set_BrandID (HouseBrandID h) req) so ao bo op)
        (HouseDomain h).

(** The intermediaries' records that were read. *)
Definition intermediaries_ok (tr : list event) (spend : bool) (m : records) : Prop :=
  ∀ d res, m !! d = Some res →
    match res with Ok r => record_read c tr spend d r | Err e => Evaluated d "" (Err e) ∈ tr end.

Definition implicit (x : claim_context) : Prop := self x (cx_account x) = true ∧ self x (cx_signer x) = true.

(** The decision at [now] on the signer's and the house's records. *)
Inductive chains_outcome (tr : list event) (req : GrantRequest) (x : claim_context) (sr hr : EvaluatedTrustRecord)
    (now : Time) (m : records) : GrantAuthorization → Prop :=
  | C_grant ch e :
      chain x now hr (read_of m) ch → (now < e ≤ ExpiresAt hr)%Z → lives e sr ch →
      (∀ t ch', chain x now hr (read_of m) ch' → (t ≤ ExpiresAt hr)%Z → lives t sr ch' → (t ≤ e)%Z) →
      chains_outcome tr req x sr hr now m (authorized GrantSourceGrant e)
  | C_outage gr :
      first_grant x now (Grants (Rec hr)) gr → Grantee gr ≠ cx_signer x → unreadable m now (Grantee gr) →
      chains_outcome tr req x sr hr now m (unavailable GrantReasonTrustRecordUnavailable)
  | C_seller :
      ((now < noExpiry)%Z → ∀ ch, ¬ chain x now hr (read_of m) ch) → ExclusiveGrants (Rec hr) ≠ Some true →
      SellerSaid req (Some true) ∈ tr →
      chains_outcome tr req x sr hr now m (authorized GrantSourceSeller (ExpiresAt hr))
  | C_refused reason :
      ((now < noExpiry)%Z → ∀ ch, ¬ chain x now hr (read_of m) ch) →
      (∀ gr, first_grant x now (Grants (Rec hr)) gr → Grantee gr ≠ cx_signer x → ¬ unreadable m now (Grantee gr)) →
      (reason = GrantReasonAbsent ∧
         (ExclusiveGrants (Rec hr) = Some true ∨ SellerAuthorization g = false ∨ SellerSaid req (Some false) ∈ tr)) ∨
      (reason = GrantReasonAuthorizationHookFailure ∧ ExclusiveGrants (Rec hr) ≠ Some true ∧ SellerSaid req None ∈ tr) →
      chains_outcome tr req x sr hr now m (denied reason false).

Inductive verdict (tr : list event) (req : GrantRequest) (so bo ao : string) : GrantAuthorization → Prop :=
  | V_unlisted :
      not_listed tr (AgentOrigin req) RoleBuying → verdict tr req so bo ao (denied GrantReasonSignerUnlisted false)
  | V_signer_outage :
      outage_of tr (AgentOrigin req) RoleBuying → verdict tr req so bo ao (unavailable GrantReasonSignerRecordUnavailable)
  | V_house_outage :
      Resolved (BrandDomain req) (BrandID req) None ∈ tr ∨
      (∃ h, Resolved (BrandDomain req) (BrandID req) (Some (Some h)) ∈ tr ∧ RegistrableDomain (HouseDomain h) = None) →
      verdict tr req so bo ao (unavailable GrantReasonHouseUnavailable)
  | V_implicit x house sr :
      house_of tr req so bo ao x house → lists_signer c tr (negb (NonSpend req)) (AgentOrigin req) RoleBuying sr →
      implicit x → verdict tr req so bo ao (authorized GrantSourceImplicit (ExpiresAt sr))
  | V_record_outage x house e :
      house_of tr req so bo ao x house → Evaluated house "" (Err e) ∈ tr → IsTrustRecordAbsent e = false →
      verdict tr req so bo ao (unavailable GrantReasonTrustRecordUnavailable)
  | V_legacy x house e t :
      house_of tr req so bo ao x house → Evaluated house "" (Err e) ∈ tr → IsTrustRecordAbsent e = true →
      LegacySaid req (Some true) ∈ tr → Clocked (OwnClock g) t ∈ tr →
      verdict tr req so bo ao (MkAuthorization true GrantSourceLegacy "" true false (Add t (interval c)))
  | V_legacy_denied x house e reason :
      house_of tr req so bo ao x house → Evaluated house "" (Err e) ∈ tr → IsTrustRecordAbsent e = true →
      (reason = GrantReasonAuthorizationHookFailure ∧ LegacySaid req None ∈ tr) ∨
      (reason = GrantReasonAbsent ∧ LegacySaid req (Some false) ∈ tr) ∨
      (reason = GrantReasonTrustRecordAbsent ∧ LegacyAuthorization g = false) →
      verdict tr req so bo ao (denied reason true)
  | V_expired x house sr hr now :
      house_of tr req so bo ao x house → lists_signer c tr (negb (NonSpend req)) (AgentOrigin req) RoleBuying sr →
      record_read c tr (negb (NonSpend req)) house hr → (ExpiresAt sr ≤ now ∨ ExpiresAt hr ≤ now)%Z →
      Clocked (OwnClock g) now ∈ tr →
      verdict tr req so bo ao (unavailable GrantReasonTrustRecordUnavailable)
  | V_chains x house sr hr now m a :
      house_of tr req so bo ao x house → lists_signer c tr (negb (NonSpend req)) (AgentOrigin req) RoleBuying sr →
      record_read c tr (negb (NonSpend req)) house hr → ¬ implicit x →
      Clocked (OwnClock g) now ∈ tr → (now < ExpiresAt sr)%Z → (now < ExpiresAt hr)%Z →
      intermediaries_ok tr (negb (NonSpend req)) m → chains_outcome tr req x sr hr now m a →
      verdict tr req so bo ao a.

(** ** Chains at the moment of decision *)

Lemma covers_alive x now gr : covers x now gr → (now < noExpiry)%Z → (now < valid_until gr)%Z.
Proof.
  intros [_ Hc] Hn. unfold grantCovers in Hc. apply andb_true_iff in Hc as [_ Hc]. unfold valid_until.
  case_bool_decide; [done|]. cbn in Hc. destruct (ParseRFC3339Nano (ValidUntil gr)); [|done]. cbn. lia.
Qed.

(** A chain lives past [now] when its records do. *)
Lemma chain_lives x now sr hr read ch :
  chain x now hr read ch → (now < noExpiry)%Z → (now < ExpiresAt sr)%Z → (now < ExpiresAt hr)%Z → lives (now + 1) sr ch.
Proof.
  intros Hch Hn Hs Hh. split_and!; [lia|lia|]. destruct Hch; repeat constructor; cbn [fst snd]; try lia;
    match goal with |- (_ ≤ valid_until ?gr)%Z => assert (now < valid_until gr)%Z by (by eapply covers_alive); lia end.
Qed.

Lemma check_chains_played req x sr hr tr a :
  play (check_chains g c req x sr hr) tr = Some a → clocks_ok tr →
  ∃ now m, Clocked (OwnClock g) now ∈ tr ∧
    ((a = unavailable GrantReasonTrustRecordUnavailable ∧ (ExpiresAt sr ≤ now ∨ ExpiresAt hr ≤ now)%Z) ∨
     ((now < ExpiresAt sr)%Z ∧ (now < ExpiresAt hr)%Z ∧ intermediaries_ok tr (negb (NonSpend req)) m ∧
      chains_outcome tr req x sr hr now m a)).
Proof.
  unfold check_chains. intros H Hck. run_step. rename a0 into now0.
  destruct (firsts x (Grants (Rec hr)) now0) as [direct0 via0].
  apply play_bind in H as (ta & tb & m & -> & Hm & H). run_step. rename a0 into now.
  exists now, m. split; [set_solver|].
  assert (intermediaries_ok ta (negb (NonSpend req)) m) as Hmok.
  { intros d res Hd. destruct (_ && _)%bool in Hm; [by eapply fetchIntermediaries_played|]. run_step. by rewrite lookup_empty in Hd. }
  destruct (negb (now <? ExpiresAt sr)%Z || negb (now <? ExpiresAt hr)%Z)%bool eqn:Ee.
  { run_step. left. split; [done|]. bool_prop. destruct Ee; bool_prop; lia. }
  bool_prop. right. run_step. rename a0 into order.
  destruct (decide_chains x now order m sr hr) as [expiry outage] eqn:Ed.
  assert (0 ≤ now)%Z as Hnow by (eapply (Hck (OwnClock g)); set_solver).
  assert (∀ t, (now < t)%Z → _) as Hspec by (intros t Ht; exact (decide_chains_spec x now order m sr hr expiry outage t Ed ltac:(done) ltac:(lia))).
  split_and!; [lia|lia| |].
  { intros d res Hd. specialize (Hmok d res Hd). destruct res; [eapply record_read_mono; [|done]|]; set_solver. }
  destruct (Z.ltb_spec now expiry) as [Hlt|Hge].
  { run_step. destruct (proj1 (proj1 (Hspec expiry Hlt)) ltac:(lia)) as (ch & Hch & Hhr & Hl).
    eapply C_grant; [done|lia|done|]. intros t ch' Hch' Ht Hl'. destruct (Z.lt_ge_cases now t); [|lia].
    apply (Hspec t); [lia|]. by exists ch'. }
  destruct outage.
  { run_step. destruct (proj1 (proj2 (Hspec (now + 1)%Z ltac:(lia))) eq_refl) as (gr & ? & ? & ?). by eapply C_outage. }
  assert ((now < noExpiry)%Z → ∀ ch, ¬ chain x now hr (read_of m) ch) as Hno.
  { intros Hn ch Hch. assert (now + 1 ≤ expiry)%Z; [|lia]. apply (Hspec (now + 1)%Z ltac:(lia)).
    exists ch. split_and!; [done|lia|]. by eapply chain_lives; try lia. }
  assert (∀ gr, first_grant x now (Grants (Rec hr)) gr → Grantee gr ≠ cx_signer x → ¬ unreadable m now (Grantee gr)) as Hread.
  { intros gr Hg Hs Hu. assert (false = true); [|done]. apply (Hspec (now + 1)%Z ltac:(lia)). by exists gr. }
  unfold ask_seller in H. destruct (_ || _)%bool eqn:Es.
  { run_step. bool_prop. apply C_refused; [done|done|]. left. split; [done|]. destruct Es; bool_prop; auto. }
  assert (∀ e l, e ∈ [Clocked (OwnClock g) now0] ++ ta ++ [Clocked (OwnClock g) now] ++ l ++ [e] ++ []) as Hlast.
  { intros e l. do 4 (apply elem_of_app; right). apply elem_of_app. left. by apply list_elem_of_singleton. }
  bool_prop. run_step. destruct a0 as [[]|]; run_step; [apply C_seller|apply C_refused|apply C_refused]; try done.
  - left. split; [done|]. right. right. apply Hlast.
  - right. split_and!; [done|done|apply Hlast].
Qed.

(** ** [Check] *)

Lemma house_of_mono tr tr' req so bo ao x house :
  tr ⊆ tr' → house_of tr req so bo ao x house → house_of tr' req so bo ao x house.
Proof.
  intros Hs [[?|[?|?]]|h op ? ?]; [by apply H_own; auto|by apply H_own; auto|apply H_own; right; right; by apply Hs|].
  eapply H_resolved; [by apply Hs|done].
Qed.

Lemma resolve_house_played req so bo ao tr res :
  play (resolve_house g req so bo ao) tr = Some res →
  match res with
  | Some (x, house) => house_of tr req so bo ao x house
  | None => Resolved (BrandDomain req) (BrandID req) None ∈ tr ∨
            (∃ h, Resolved (BrandDomain req) (BrandID req) (Some (Some h)) ∈ tr ∧ RegistrableDomain (HouseDomain h) = None)
  end.
Proof.
  unfold resolve_house. intros H. destruct (_ || _)%bool eqn:Eb.
  { run_step. apply H_own. bool_prop. destruct Eb; bool_prop; auto. }
  run_step. destruct a as [[h|]|]; run_step; [|by apply H_own; right; right; left|left; by left].
  destruct (RegistrableDomain (HouseDomain h)) as [op|] eqn:Er; cbn; [|right; exists h; split; [by left|done]].
  eapply H_resolved; [by left|done].
Qed.

Lemma legacy_path_played req tr a :
  play (legacy_path g c req) tr = Some a →
  (∃ t, a = MkAuthorization true GrantSourceLegacy "" true false (Add t (interval c)) ∧
        LegacySaid req (Some true) ∈ tr ∧ Clocked (OwnClock g) t ∈ tr) ∨
  ∃ reason, a = denied reason true ∧
    ((reason = GrantReasonAuthorizationHookFailure ∧ LegacySaid req None ∈ tr) ∨
     (reason = GrantReasonAbsent ∧ LegacySaid req (Some false) ∈ tr) ∨
     (reason = GrantReasonTrustRecordAbsent ∧ LegacyAuthorization g = false)).
Proof.
  unfold legacy_path. intros H. destruct (LegacyAuthorization g); [|run_step; right; eexists; split; [done|auto]].
  run_step. destruct a0 as [[]|].
  - run_step. run_step. left. eexists. split_and!; [done|set_solver|set_solver].
  - run_step. right. eexists. split; [done|]. right. left. split; [done|by left].
  - run_step. right. eexists. split; [done|]. left. split; [done|by left].
Qed.

(** From the house's record on: the decision of the chains, or the house's answer. *)
Lemma house_chains req so bo ao x house sr hr tr tr' a :
  play (check_chains g c req x sr hr) tr = Some a → tr ⊆ tr' → clocks_ok tr' →
  house_of tr' req so bo ao x house → lists_signer c tr' (negb (NonSpend req)) (AgentOrigin req) RoleBuying sr →
  record_read c tr' (negb (NonSpend req)) house hr → ¬ implicit x → verdict tr' req so bo ao a.
Proof.
  intros H Hs Hck Hh Hl Hr Hi. destruct (check_chains_played _ _ _ _ _ _ H) as (now & m & Hnow & Hout).
  { intros own t Ht. by eapply Hck, Hs. }
  destruct Hout as [[-> Hexp]|(Hsr & Hhr & Hm & Hout)]; [by eapply V_expired; eauto|].
  eapply V_chains; eauto.
  - intros d res Hd. specialize (Hm d res Hd). destruct res; [by eapply record_read_mono|by apply Hs].
  - destruct Hout; [by eapply C_grant|by eapply C_outage|apply C_seller|apply C_refused]; eauto.
    match goal with HH : _ ∨ _ |- _ => destruct HH as [[? [?|[?|?]]]|(? & ? & ?)]; auto 10 end.
Qed.

Lemma house_error req so bo ao x house e tr tr' a :
  play (if IsTrustRecordAbsent e then legacy_path g c req else Ret (unavailable GrantReasonTrustRecordUnavailable)) tr = Some a →
  tr ⊆ tr' → house_of tr' req so bo ao x house → Evaluated house "" (Err e) ∈ tr' → verdict tr' req so bo ao a.
Proof.
  intros H Hs Hh He. destruct (IsTrustRecordAbsent e) eqn:Ea; [|run_step; by eapply V_record_outage].
  apply legacy_path_played in H as [(t & -> & ? & ?)|(reason & -> & Hr)]; [eapply V_legacy; eauto|].
  eapply V_legacy_denied; eauto. destruct Hr as [[? ?]|[[? ?]|[? ?]]]; auto.
Qed.

Lemma implicit_bool x : (self x (cx_account x) && self x (cx_signer x) = true)%bool ↔ implicit x.
Proof. by rewrite andb_true_iff. Qed.

Lemma check_house_played req so bo ao x house srec tr tr' a :
  play (check_house g c req x house srec) tr = Some a → tr ⊆ tr' → clocks_ok tr' → house_of tr' req so bo ao x house →
  (∀ sr, srec = Some sr → lists_signer c tr' (negb (NonSpend req)) (AgentOrigin req) RoleBuying sr) →
  verdict tr' req so bo ao a.
Proof.
  intros H Hs Hck Hh Hsr. unfold check_house in H. pose proof (implicit_bool x) as Himp.
  destruct srec as [sr|].
  - specialize (Hsr sr eq_refl). destruct (self x (cx_account x) && self x (cx_signer x))%bool.
    { run_step. eapply V_implicit; [done|done|]. by apply Himp. }
    run_step. apply evaluateForGrant_played in Ha. destruct a0 as [hr|e].
    + eapply house_chains; [done|set_solver|done..| |]; [|by intros ?%Himp].
      eapply record_read_mono; [|done]. set_solver.
    + eapply house_error; [done|set_solver|done|]. set_solver.
  - run_step. apply evaluateForGrant_played in Ha. destruct a0 as [hr|e].
    2: { eapply house_error; [done|set_solver|done|]. set_solver. }
    apply play_bind in H as (ta & tb & l & -> & Hl & H). apply signerListing_played in Hl.
    destruct Hl as [(sr & -> & Hl)|[[-> Hl]|[-> Hl]]].
    + eapply (lists_signer_mono _ _ tr') in Hl; [|set_solver].
      destruct (self x (cx_account x) && self x (cx_signer x))%bool.
      { run_step. eapply V_implicit; [done|done|]. by apply Himp. }
      eapply house_chains; [done|set_solver|done..| |]; [|by intros ?%Himp].
      eapply record_read_mono; [|done]. set_solver.
    + run_step. apply V_unlisted. eapply not_listed_mono; [|done]. set_solver.
    + run_step. apply V_signer_outage. eapply outage_of_mono; [|done]. set_solver.
Qed.

Lemma check_resolved_played req so bo ao srec tr tr' a :
  play (check_resolved g c req so bo ao srec) tr = Some a → tr ⊆ tr' → clocks_ok tr' →
  (∀ sr, srec = Some sr → lists_signer c tr' (negb (NonSpend req)) (AgentOrigin req) RoleBuying sr) →
  verdict tr' req so bo ao a.
Proof.
  intros H Hs Hck Hsr. unfold check_resolved in H.
  apply play_bind in H as (ta & tb & h & -> & Hh & H). apply resolve_house_played in Hh. destruct h as [[x house]|].
  - eapply check_house_played; [done|set_solver|done| |done]. eapply house_of_mono; [|done]. set_solver.
  - run_step. apply V_house_outage. destruct Hh as [?|(h & ? & ?)]; [left; set_solver|right; exists h; split; [set_solver|done]].
Qed.

Lemma check_origin_played req so bo ao tr a :
  play (check_origin g c req so bo ao) tr = Some a → clocks_ok tr → verdict tr req so bo ao a.
Proof.
  unfold check_origin. intros H Hck. case_bool_decide as Hp; [|by eapply check_resolved_played].
  apply play_bind in H as (ta & tb & l & -> & Hl & H). apply signerListing_played in Hl.
  destruct Hl as [(sr & -> & Hl)|[[-> Hl]|[-> Hl]]].
  - eapply (lists_signer_mono _ _ (ta ++ tb)) in Hl; [|set_solver]. case_bool_decide as Himp.
    + run_step. eapply V_implicit; [apply H_own; auto|done|]. destruct Himp as [-> ->].
      unfold implicit, self. cbn. by rewrite bool_decide_eq_true_2.
    + eapply check_resolved_played; [done|set_solver|done|]. by intros ? [= <-].
  - run_step. apply V_unlisted. eapply not_listed_mono; [|done]. set_solver.
  - run_step. apply V_signer_outage. eapply outage_of_mono; [|done]. set_solver.
Qed.

(** The request that [Check] decides, and the registrable domains it compares. *)
Definition claim_of (req : GrantRequest) (req' : GrantRequest) (so bo ao : string) : Prop :=
  ∃ origin, CanonicalOrigin (AgentOrigin req) = Some origin ∧ req' = set_AgentOrigin origin (normalize req) ∧
    RegistrableDomain origin = Some so ∧ RegistrableDomain (BrandDomain req) = Some bo ∧
    RegistrableDomain (AccountOperator req) = Some ao.

Lemma Check_played req tr a :
  Records g = Some c → play (Check g req) tr = Some (Ok a) → clocks_ok tr →
  (∃ req' so bo ao, claim_of req req' so bo ao ∧ verdict tr req' so bo ao a) ∨
  (a = denied GrantReasonAbsent false ∧ ¬ ∃ req' so bo ao, claim_of req req' so bo ao).
Proof.
  intros Hc H Hck. unfold Check in H. rewrite Hc in H. unfold claim_of.
  destruct (_ && _)%bool; [by run_step|].
  change (AgentOrigin (normalize req)) with (AgentOrigin req) in H.
  destruct (CanonicalOrigin (AgentOrigin req)) as [origin|] eqn:Eo.
  2: { run_step. simplify_eq. right. split; [done|]. by intros (? & ? & ? & ? & ? & ? & _). }
  change (BrandDomain (set_AgentOrigin _ _)) with (BrandDomain req) in H.
  change (AccountOperator (set_AgentOrigin _ _)) with (AccountOperator req) in H.
  destruct (RegistrableDomain origin) as [so|] eqn:Es; [destruct (RegistrableDomain (BrandDomain req)) as [bo|] eqn:Eb;
    [destruct (RegistrableDomain (AccountOperator req)) as [ao|] eqn:Ea|]|].
  2-4: run_step; simplify_eq; right; (split; [done|]); intros (? & ? & ? & ? & ? & ? & ? & ? & ? & ?); congruence.
  apply play_bind in H as (ta & tb & a' & -> & Ha' & H). run_step. simplify_eq. rewrite app_nil_r in *.
  apply check_origin_played in Ha'; [|done]. left. do 4 eexists. split; [by exists origin|done].
Qed.
End Verdict.
