(* ===== verification/GrantThm.v ===== *)
(** * GrantThm: properties of grants, bindings and gates *)
From S2P Require Import Prelude GoStrings Unicode GoTime Json NetUrl StrictJson SigTypes SigBase Origin Psl Quota TrustJson TrustWf Trust TrustConc TrustProps GrantEff Grants Bindings GrantProps GrantSpec.
From stdpp Require Import options.

Section Check.
Context `{RT : Runtime} `{PSL : PublicSuffixList}.

(** C9: [Check] authorizes a claim only for one of four reasons.  Legacy: the
    house's evaluation answered that it publishes no record, and the seller's hook
    approved.  Otherwise the signer's operator lists the signer with [adcp:buying] in
    a record read now (or, for a claim that commits no spend, in the last one read,
    within the outage bound), and: the account operator and the signer's operator are
    each the brand or its house; or a chain of at most two grants that cover the claim
    leads from the house's record to the signer's operator, every record on it read
    likewise, and the authorization ends no later than any record or grant of it; or
    the house's grants are not exclusive and the seller approved. *)
Theorem Check_authorized_only g c req tr a :
  Records g = Some c → clocks_ok tr → play (Check g req) tr = Some (Ok a) → Authorized a = true →
  ∃ req' so bo ao x house, claim_of req req' so bo ao ∧ house_of g tr req' so bo ao x house ∧
    let spend := negb (NonSpend req) in
    ((Source a = GrantSourceLegacy ∧ LegacySaid req' (Some true) ∈ tr ∧
      ∃ e, Evaluated house "" (Err e) ∈ tr ∧ IsTrustRecordAbsent e = true) ∨
     ∃ sr, lists_signer c tr spend (AgentOrigin req') RoleBuying sr ∧
      ((Source a = GrantSourceImplicit ∧ implicit x ∧ ga_ExpiresAt a = ExpiresAt sr) ∨
       ∃ hr now, record_read c tr spend house hr ∧ Clocked (OwnClock g) now ∈ tr ∧
         (now < ExpiresAt sr ∧ now < ExpiresAt hr ∧ ga_ExpiresAt a ≤ ExpiresAt hr)%Z ∧
         ((Source a = GrantSourceGrant ∧ ∃ read ch, (∀ d r, read d r → record_read c tr spend d r) ∧
             chain x now hr read ch ∧ (now < ga_ExpiresAt a)%Z ∧ lives (ga_ExpiresAt a) sr ch) ∨
          (Source a = GrantSourceSeller ∧ ExclusiveGrants (Rec hr) ≠ Some true ∧ SellerSaid req' (Some true) ∈ tr)))).
Proof.
  intros Hc Hck H Ha. destruct (Check_played g c _ _ _ Hc H Hck) as [(req' & so & bo & ao & Hcl & Hv)|[-> _]]; [|done].
  assert (NonSpend req' = NonSpend req) as Hns by by destruct Hcl as (o & _ & -> & _).
  destruct Hv as [| | |x house sr Hh Hl Hi| |x house e t Hh He Habs Hs Ht| | |x house sr hr now m a Hh Hl Hr Hni Hn Hsr Hhr Hm Hout];
    try done; rewrite ?Hns in *; exists req', so, bo, ao, x, house; (split; [done|split; [done|]]).
  - right. exists sr. split; [done|]. by left.
  - left. split_and!; [done|done|by exists e].
  - right. exists sr. split; [done|]. right. exists hr, now.
    destruct Hout as [ch e Hch He Hlv _|gr|Hno Hex Hsaid|]; try done; cbn.
    + split_and!; [done|done|done|done|lia|]. left. split; [done|]. exists (read_of m), ch. split_and!; [|done|lia|done].
      intros d r Hd. exact (Hm d _ Hd).
    + split_and!; [done|done|done|done|lia|]. by right.
Qed.

(** C10: a refusal that is neither an outage nor a signer its operator does not list
    is never caused by something that could not be read.  Either the house's
    evaluation answered that it publishes no record, and only then is the legacy
    fallback allowed; or the signer's and the house's records were read, authority is
    not implicit, no chain of covering grants exists in the records read (at any time
    before 2038), no covering first grant leads to an unreadable record, and the
    seller was not to be asked, refused or failed. *)
Theorem Check_refusal_complete g c req tr a :
  Records g = Some c → clocks_ok tr → play (Check g req) tr = Some (Ok a) →
  Authorized a = false → ga_Unavailable a = false → ga_Reason a ≠ GrantReasonSignerUnlisted →
  (∃ req' so bo ao, claim_of req req' so bo ao) →
  ∃ req' so bo ao x house, claim_of req req' so bo ao ∧ house_of g tr req' so bo ao x house ∧
    let spend := negb (NonSpend req) in
    if LegacyFallbackAllowed a
    then ∃ e, Evaluated house "" (Err e) ∈ tr ∧ IsTrustRecordAbsent e = true
    else ∃ sr hr now m, lists_signer c tr spend (AgentOrigin req') RoleBuying sr ∧ record_read c tr spend house hr ∧
      Clocked (OwnClock g) now ∈ tr ∧ (now < ExpiresAt sr)%Z ∧ (now < ExpiresAt hr)%Z ∧ ¬ implicit x ∧
      intermediaries_ok c tr spend m ∧
      ((now < noExpiry)%Z → ∀ ch, ¬ chain x now hr (read_of m) ch) ∧
      (∀ gr, first_grant x now (Grants (Rec hr)) gr → Grantee gr ≠ cx_signer x → ¬ unreadable m now (Grantee gr)) ∧
      (ExclusiveGrants (Rec hr) = Some true ∨ SellerAuthorization g = false ∨
       SellerSaid req' (Some false) ∈ tr ∨ SellerSaid req' None ∈ tr).
Proof.
  intros Hc Hck H Ha Hu Hun Hex. destruct (Check_played g c _ _ _ Hc H Hck) as [(req' & so & bo & ao & Hcl & Hv)|[-> Hno]];
    [|by destruct Hno].
  assert (NonSpend req' = NonSpend req) as Hns by by destruct Hcl as (o & _ & -> & _).
  destruct Hv as [| | |x house sr Hh Hl Hi| | |x house e reason Hh He Habs _| |x house sr hr now m a Hh Hl Hr Hni Hn Hsr Hhr Hm Hout];
    try done; rewrite ?Hns in *; exists req', so, bo, ao, x, house; (split; [done|split; [done|]]).
  - by exists e.
  - destruct Hout as [| | |reason Hno Hread Hwhy]; try done. exists sr, hr, now, m. split_and!; try done.
    destruct Hwhy as [[_ [?|[?|?]]]|(_ & _ & ?)]; auto.
Qed.

(** an authorization by grants never outlives 2038-01-19, the time that stands for
    a grant without an end: from then on no clock reading lets a grant authorize
    anything. *)
Theorem no_grant_after_2038 g c req tr a :
  Records g = Some c → clocks_ok tr → play (Check g req) tr = Some (Ok a) →
  (∀ t, Clocked (OwnClock g) t ∈ tr → (noExpiry ≤ t)%Z) → ¬ (Authorized a = true ∧ Source a = GrantSourceGrant).
Proof.
  intros Hc Hck H Ht [Ha Hs]. destruct (Check_played g c _ _ _ Hc H Hck) as [(req' & so & bo & ao & _ & Hv)|[-> _]]; [|done].
  destruct Hv as [| | | | | | | |x house sr hr now m a _ _ _ _ Hn _ _ _ Hout]; try done.
  destruct Hout as [ch e _ He [Hlv _] _| | |]; try done. specialize (Ht now Hn). lia.
Qed.

(** ** Gates *)

(** A signer that may use its grants for [claim]: identified, and under Web Bot Auth
    bound to a principal with a key whose revocation state allows the claim. *)
Definition may_claim (claim : GrantClaim) (signer : option WBASigner) : Prop :=
  ∃ s, signer = Some s ∧ SigTypes.AgentURL s ≠ "" ∧
    (SignerProfile s = ProfileTagWebBotAuth →
     PrincipalID s ≠ "" ∧ (Revocation s = RevocationCurrent ∨ (Revocation s = RevocationStale ∧ cl_NonSpend claim = true))).

(** The claim was checked and authorized, under the profile of the signature. *)
Definition checked (g : GrantGate) (claim : GrantClaim) (signer : option WBASigner) (tr : list event) : Prop :=
  ∃ s a, signer = Some s ∧ Authorized a = true ∧
    play (Check (Evaluator g) (GrantRequest_of claim (SigTypes.AgentURL s)
            (if bool_decide (SignerProfile s = ProfileTagWebBotAuth) then ProfileTagWebBotAuth else ProfileTagRequestSigning)))
      tr = Some (Ok a).

Lemma check_claim_played g claim s profile tr :
  play (check_claim g claim s profile) tr = Some None →
  ∃ a, Authorized a = true ∧ play (Check (Evaluator g) (GrantRequest_of claim (SigTypes.AgentURL s) profile)) tr = Some (Ok a).
Proof.
  unfold check_claim. intros H. apply play_bind in H as (ta & tb & r & -> & Hr & H). run_step. rewrite app_nil_r.
  destruct r as [a|]; [|done]. exists a. split; [|done]. unfold GrantErr in *. by destruct (Authorized a); split_if.
Qed.

Lemma RequireClaim_played g claim signer tr :
  play (RequireClaim g claim signer) tr = Some None → may_claim claim signer ∧ checked g claim signer tr.
Proof.
  unfold RequireClaim, may_claim, checked. intros H. destruct signer as [s|]; [|by run_step].
  case_bool_decide as Hurl; [by run_step|]. case_bool_decide as Hp.
  - destruct (wba_refusal s claim) as [e|] eqn:Ew; [by run_step|]. apply check_claim_played in H as (a & ? & ?).
    split; [|exists s, a; by rewrite bool_decide_eq_true_2]. exists s. split_and!; [done|done|]. intros _. unfold wba_refusal in Ew.
    case_bool_decide; [done|]. split; [done|]. destruct (Revocation s); try done; [by left|]. right.
    by destruct (cl_NonSpend claim).
  - apply check_claim_played in H as (a & ? & ?). split; [|exists s, a; by rewrite bool_decide_eq_false_2].
    exists s. by split_and!.
Qed.

(** The claim an entry makes: its own declaration, or the seller's claim for the
    account it names, whose scope must be chosen for an operation outside media
    buying. *)
Definition claim_for (g : GrantGate) (tr : list event) (a : AccountInput) (claim : GrantClaim) : Prop :=
  match declared_claim g a with
  | Some claim' => claim = claim'
  | None => ai_AccountID a ≠ "" ∧
      ∃ op claim', Claimed (ai_AccountID a) op (Some claim') ∈ tr ∧ claim = set_NonSpend (nonSpend g "sync_accounts") claim'
  end.

Lemma RequireDeclaration_played g a signer tr :
  play (RequireDeclaration g a signer) tr = Some None →
  ∃ claim, claim_for g tr a claim ∧ may_claim claim signer ∧ ∃ tr', tr' ⊆ tr ∧ checked g claim signer tr'.
Proof.
  unfold RequireDeclaration, claim_for. intros H. destruct signer as [s|] eqn:Es; [|by run_step].
  case_bool_decide as Hurl; [by run_step|]. destruct (declared_claim g a) as [claim|].
  - apply RequireClaim_played in H as [? ?]. exists claim. split_and!; [done|done|]. by exists tr.
  - case_bool_decide as Hid; cbn [negb] in H; [by run_step|]. unfold RequireAccountForOperation in H.
    rewrite bool_decide_eq_false_2 in H by done. split_if_step; [by run_step|]. run_step.
    destruct a0 as [claim|]; [|by run_step]. split_if_step; [by run_step|]. apply RequireClaim_played in H as [Hm Hch].
    eexists. split; [split; [done|do 2 eexists; split; [by left|done]]|]. split; [done|]. eexists. split; [|done]. set_solver.
Qed.

(** when the hook of [sync_accounts] lets a request pass, every entry in it is
    authorized: the signer is identified (and, under Web Bot Auth, bound, with a key
    that is not revoked and not stale for a claim that commits spend), and [Check]
    authorized exactly the claim of the entry, or the claim the seller holds for the
    account the entry names. *)
Theorem SyncAccounts_authorized g signer accounts tr :
  play (SyncAccountsAuthorizer g signer accounts) tr = Some None →
  ∀ a, a ∈ accounts →
    ∃ claim, claim_for g tr a claim ∧ may_claim claim signer ∧ ∃ tr', tr' ⊆ tr ∧ checked g claim signer tr'.
Proof.
  revert tr. induction accounts as [|a0 rest IH]; intros tr H a Ha; [by apply elem_of_nil in Ha|].
  cbn [SyncAccountsAuthorizer] in H. apply play_bind in H as (ta & tb & r & -> & Hr & H). destruct r as [e|]; [by run_step|].
  assert (∀ t, t ⊆ ta ++ tb → ∀ claim, claim_for g t a claim → claim_for g (ta ++ tb) a claim) as Hmono.
  { intros t Ht claim. unfold claim_for. destruct (declared_claim g a); [done|]. intros (? & op & cl & ? & ?).
    split; [done|]. exists op, cl. split; [by apply Ht|done]. }
  assert (∃ t, t ⊆ ta ++ tb ∧ ∃ claim, claim_for g t a claim ∧ may_claim claim signer ∧ ∃ tr', tr' ⊆ t ∧ checked g claim signer tr')
    as (t & Ht & claim & Hcl & Hm & tr' & Htr' & Hch).
  { apply elem_of_cons in Ha as [->|Ha].
    - exists ta. split; [set_solver|]. by apply RequireDeclaration_played.
    - exists tb. split; [set_solver|]. by apply IH. }
  exists claim. split_and!; [by eapply Hmono|done|]. exists tr'. split; [set_solver|done].
Qed.
End Check.

(** ** Bindings *)

Section Bindings.
Context `{RT : Runtime} `{PSL : PublicSuffixList}.

(** Why the gate leaves a request without a principal. *)
Definition no_principal (g : BindingGate) (s : WBASigner) (tr : list event) (role : string) : Prop :=
  HasBindings g = false ∨ LookedUp (SigTypes.AgentURL s) (Some None) ∈ tr ∨
  Revocation s = RevocationUnchecked ∨ Revocation s = RevocationRevoked ∨ Revocation s = RevocationNoList ∨
  not_listed tr (SigTypes.AgentURL s) role ∨ LookedUp (SigTypes.AgentURL s) (Some (Some "")) ∈ tr.

Lemma AuthorizeWBA_played g s op tr res :
  play (AuthorizeWBA g s op) tr = Some res →
  (res = Ok "" ∧ no_principal g s tr (if bool_decide (GateRole g = "") then RoleBuying else GateRole g)) ∨
  (∃ e, res = Err e ∧
    (LookedUp (SigTypes.AgentURL s) None ∈ tr ∨
     ∃ p, LookedUp (SigTypes.AgentURL s) (Some (Some p)) ∈ tr ∧
      (Revocation s = RevocationUnavailable ∨ (Revocation s = RevocationStale ∧ gate_spend g op = true) ∨
       GateRecords g = None ∨
       outage_of tr (SigTypes.AgentURL s) (if bool_decide (GateRole g = "") then RoleBuying else GateRole g)))) ∨
  ∃ p c r, res = Ok p ∧ LookedUp (SigTypes.AgentURL s) (Some (Some p)) ∈ tr ∧
    (Revocation s = RevocationCurrent ∨ (Revocation s = RevocationStale ∧ gate_spend g op = false)) ∧
    GateRecords g = Some c ∧
    lists_signer c tr (gate_spend g op) (SigTypes.AgentURL s) (if bool_decide (GateRole g = "") then RoleBuying else GateRole g) r.
Proof.
  unfold AuthorizeWBA, no_principal. intros H. destruct (HasBindings g) eqn:Eh; cbn [negb] in H; [|run_step; by auto].
  run_step. destruct a as [[p|]|];
    [|run_step; left; split; [done|right; left; by left]|run_step; right; left; eexists; split; [done|left; by left]].
  set (role := if bool_decide (GateRole g = "") then RoleBuying else GateRole g) in *.
  destruct (revocation_gate (Revocation s) (gate_spend g op)) as [u|[e|]] eqn:Er.
  3: { run_step. left. split; [done|]. destruct (Revocation s); try done; auto 6. by destruct (gate_spend g op). }
  2: { run_step. right. left. eexists. split; [done|]. right. exists p. split; [by left|].
       destruct (Revocation s); try done; [|by left]. right. left. by destruct (gate_spend g op). }
  assert (Revocation s = RevocationCurrent ∨ (Revocation s = RevocationStale ∧ gate_spend g op = false)) as Hrev.
  { destruct (Revocation s); try done; [by left|]. right. by destruct (gate_spend g op). }
  destruct (GateRecords g) as [c|] eqn:Ec.
  2: { run_step. right. left. eexists. split; [done|]. right. exists p. split; [by left|]. auto. }
  apply play_bind in H as (ta & tb & l & -> & Hl & H). run_step. rewrite app_nil_r.
  apply (CheckListing_played c _ _ (gate_spend g op)) in Hl.
  assert (∀ t, t ⊆ [LookedUp (SigTypes.AgentURL s) (Some (Some p))] ++ t) as Hsub by set_solver.
  destruct Hl as [r Hl He|Hn|r e last Hl He Hu Hc|Ho]; cbn.
  - right. right. exists p, c, r. split_and!; [done|by left|done|done|]. split; [done|]. left. by right.
  - left. split; [done|]. do 5 right. left. eapply not_listed_mono; [|done]. apply Hsub.
  - destruct (gate_spend g op) eqn:Es; cbn.
    + right. left. eexists. split; [done|]. right. exists p. split; [by left|]. right. right. right. exists e. split; [by right|done].
    + right. right. exists p, c, r. split_and!; [done|by left|done|done|]. split; [done|]. right. split; [done|].
      exists e, last. split_and!; [by right|done|]. eapply continued_mono; [|done]. apply Hsub.
  - right. left. rewrite orb_true_r. eexists. split; [done|]. right. exists p. split; [by left|]. right. right. right.
    eapply outage_of_mono; [|done]. apply Hsub.
Qed.

(** the gate gives a request a principal only when the lookup answered that the
    verified origin is bound to that very principal, the key is not revoked and its
    revocation list is current (or stale, for an operation that commits no spend), and
    the origin's operator lists it with the gate's role in a record read now (or, for
    an operation that commits no spend, in the last one read, within the outage
    bound).  It answers that the service is unavailable only for a failed lookup, a
    revocation list or store that cannot be trusted, or a record that cannot be read;
    and a request goes without a principal only when the origin is not bound, its key
    was not checked against a revocation list, or its operator does not list it. *)
Theorem AuthorizeWBA_principal g s op tr res :
  play (AuthorizeWBA g s op) tr = Some res →
  let role := if bool_decide (GateRole g = "") then RoleBuying else GateRole g in
  match res with
  | Ok "" => no_principal g s tr role
  | Ok p =>
      LookedUp (SigTypes.AgentURL s) (Some (Some p)) ∈ tr ∧
      (Revocation s = RevocationCurrent ∨ (Revocation s = RevocationStale ∧ gate_spend g op = false)) ∧
      ∃ c r, GateRecords g = Some c ∧ lists_signer c tr (gate_spend g op) (SigTypes.AgentURL s) role r
  | Err _ =>
      LookedUp (SigTypes.AgentURL s) None ∈ tr ∨
      ∃ p, LookedUp (SigTypes.AgentURL s) (Some (Some p)) ∈ tr ∧
        (Revocation s = RevocationUnavailable ∨ (Revocation s = RevocationStale ∧ gate_spend g op = true) ∨
         GateRecords g = None ∨ outage_of tr (SigTypes.AgentURL s) role)
  end.
Proof.
  intros H role. apply AuthorizeWBA_played in H as [[-> ?]|[(e & -> & H)|(p & c & r & -> & ? & ? & ? & ?)]]; [done|done|].
  destruct p; [unfold no_principal; auto 10|]. split_and!; [done|done|]. by exists c, r.
Qed.

(** ** The table of bindings *)

Definition bind_call : Type := string * string * BindOptions.

Definition run_binds (b : OriginBindings) (calls : list bind_call) : OriginBindings :=
  foldl (λ b '(o, p, opts), (Bind b o p opts).1) b calls.

Lemma Bind_spec b o p opts b' e :
  Bind b o p opts = (b', e) →
  match e with
  | Some _ => b' = b
  | None => ∃ canonical, CanonicalOrigin o = Some canonical ∧ HasPrefix canonical "https://" = true ∧ p ≠ "" ∧
      (ExistingRFC9421Principal opts = true → MigrationApproved opts = true) ∧
      (b !! canonical = None ∨ b !! canonical = Some p) ∧ b' = <[canonical := p]> b
  end.
Proof.
  unfold Bind. destruct (CanonicalOrigin o) as [k|] eqn:Eo; [|by intros [= <- <-]].
  destruct (_ || _)%bool eqn:E1; [by intros [= <- <-]|]. destruct (_ && _)%bool eqn:E2; [by intros [= <- <-]|].
  destruct (match b !! k with Some _ => _ | None => _ end) eqn:E3; intros [= <- <-]; [done|]. bool_prop.
  exists k. split_and!; [done|done|done| | |done].
  - intros Hx. rewrite Hx in E2. by destruct (MigrationApproved opts), E2.
  - destruct (b !! k) as [q|]; [|by left]. right. bool_prop. by subst.
Qed.

Lemma Bind_keeps b o p opts k q : b !! k = Some q → (Bind b o p opts).1 !! k = Some q.
Proof.
  destruct (Bind b o p opts) as [b' e] eqn:E. cbn. apply Bind_spec in E. destruct e as [e|]; [by subst|].
  destruct E as (k' & _ & _ & _ & _ & Hk & ->). intros Hb. rewrite lookup_insert. case_decide; [subst|done].
  destruct Hk; congruence.
Qed.

(** an origin belongs to one principal for good.  After any calls from an empty
    table every entry is an HTTPS origin with a principal; and once a lookup
    of an origin, however it is spelled, finds a principal, it finds the same one after
    any further calls, also for every other spelling of that origin. *)
Theorem bindings_permanent calls calls' o o' p :
  CanonicalOrigin o' = CanonicalOrigin o →
  PrincipalForOrigin (run_binds NewOriginBindings calls) o = Some p →
  PrincipalForOrigin (run_binds NewOriginBindings (calls ++ calls')) o' = Some p ∧
  ∀ k q, run_binds NewOriginBindings (calls ++ calls') !! k = Some q → HasPrefix k "https://" = true ∧ q ≠ "".
Proof.
  intros Hsame Hp. split.
  - unfold PrincipalForOrigin in *. rewrite Hsame. destruct (CanonicalOrigin o) as [k|]; [|done]. cbn in *.
    unfold run_binds in *. rewrite foldl_app. generalize dependent (foldl (λ b '(o, p, opts), (Bind b o p opts).1) NewOriginBindings calls).
    clear. induction calls' as [|[[o1 p1] opts] calls' IH]; intros b Hb; [done|]. apply IH. by apply Bind_keeps.
  - assert (∀ cs b, (∀ k q, b !! k = Some q → HasPrefix k "https://" = true ∧ q ≠ "") →
      ∀ k q, run_binds b cs !! k = Some q → HasPrefix k "https://" = true ∧ q ≠ "") as Hinv.
    { induction cs as [|[[o1 p1] opts] cs IH]; intros b Hb; [done|]. apply IH. intros k q.
      destruct (Bind b o1 p1 opts) as [b' e] eqn:E. apply Bind_spec in E. destruct e; [subst; apply Hb|].
      destruct E as (k' & _ & ? & ? & _ & _ & ->). cbn. intros [[<- <-]|[_ ?]]%lookup_insert_Some; [done|by apply Hb]. }
    apply Hinv. intros k q. unfold NewOriginBindings. by rewrite lookup_empty.
Qed.
End Bindings.

(** ** Grants and the evaluator together *)

Section Published.
Context `{RT : Runtime} `{PSL : PublicSuffixList} (c : config).
Context {H : Type} `{AH : AuthorityHistory H} {PS : PublicSuffixSpec}.
#[local] Set Default Proof Using "Type*".

(** The records a decision was given are answers of the running evaluator [s]. *)
Definition answered_by (s : system H) (tr : list event) : Prop :=
  ∀ o role r, Evaluated o role (Ok r) ∈ tr →
    ∃ ca t, ca ∈ callers s ∧ ca_origin ca = o ∧ ca_role ca = role ∧ ca_state ca = Returned t (Ok r).

Lemma answered_nil s : answered_by s [].
Proof using Type. by intros o role r ?%elem_of_nil. Qed.

Lemma answered_cons s ev tr :
  match ev with
  | Evaluated o role (Ok r) => ∃ ca t, ca ∈ callers s ∧ ca_origin ca = o ∧ ca_role ca = role ∧ ca_state ca = Returned t (Ok r)
  | _ => True
  end → answered_by s tr → answered_by s (ev :: tr).
Proof using Type. intros Hev Htr o role r [<-|Hin]%elem_of_cons; [exact Hev|by apply Htr]. Qed.

Lemma chain_read_mono x now hr (P Q : string → EvaluatedTrustRecord → Prop) ch :
  (∀ d r, isRegistrableDomain d = true → P d r → Q d r) → chain x now hr P ch → chain x now hr Q ch.
Proof.
  intros HPQ [gr ? ? ? ?|gr rec gr' ? Hc ? ? HP ? ? ? ?]; [by apply chain_direct|].
  eapply chain_via; try done. apply HPQ; [apply Hc|done].
Qed.

Lemma house_of_domain g tr req so bo ao x house :
  RegistrableDomain (BrandDomain req) = Some bo → house_of g tr req so bo ao x house →
  RegistrableDomain house = Some (cx_house x).
Proof using Type. by intros Hb [?|h op ? ?]. Qed.

(** C30: when a running evaluator answers the evaluations of a claim that commits
    spend and grants authorize it, every record on the way was published: the signer's
    record, the house's, and the intermediary's, if there is one, were each read by the
    transport at the location derived from the registrable domain of the signer, the
    house and the first grantee (or at the one location named there), within the
    polling interval of its expiry, and the signer's lists the signer. *)
Theorem spend_grant_published (HS : AuthorityHistorySpec H) t0 h0 s g req tr a :
  (∀ d, LastRecord (LoadAuthority h0 d) = None) → reachable c t0 h0 s → answered_by s tr →
  Records g = Some c → clocks_ok tr → play (Check g req) tr = Some (Ok a) →
  NonSpend req = false → Authorized a = true → Source a = GrantSourceGrant →
  ∃ req' so bo ao x house sr hr now ch, claim_of req req' so bo ao ∧ house_of g tr req' so bo ao x house ∧
    speaks_for c (log s) so sr ∧ lists_agent (AgentOrigin req') RoleBuying (Rec sr) = true ∧
    speaks_for c (log s) (cx_house x) hr ∧ chain x now hr (speaks_for c (log s)) ch ∧
    (now < ga_ExpiresAt a)%Z ∧ lives (ga_ExpiresAt a) sr ch.
Proof.
  intros Hh0 Hr Hans Hc Hck Hp Hns Ha Hs.
  assert (∀ o role r, Evaluated o role (Ok r) ∈ tr → ∃ d, RegistrableDomain o = Some d ∧ speaks_for c (log s) d r) as Hpub.
  { intros o role r Hev. destruct (Hans o role r Hev) as (ca & t & Hin & <- & <- & Hst).
    destruct (returned_speaks_for c HS t0 h0 s ca t r Hh0 Hr Hin Hst) as (Hd & Hsp & _). by exists (ca_domain ca). }
  destruct (Check_played g c _ _ _ Hc Hp Hck) as [(req' & so & bo & ao & Hcl & Hv)|[-> _]]; [|done].
  pose proof Hcl as (o & _ & Ereq & Hso & Hbo & _).
  destruct Hv as [| | | | | | | |x house sr hr now m a Hh [Hls Hl] Hrd _ Hn _ _ Hm Hout]; try done.
  assert (NonSpend req' = false) as Hns' by by rewrite Ereq. rewrite Hns' in *. cbn [negb] in *.
  destruct Hl as [Hl|[? _]]; [|done]. destruct Hrd as [Hrd|[? _]]; [|done].
  destruct Hout as [ch e Hch He Hlv _| | |]; try done.
  destruct (Hpub _ _ _ Hl) as (d1 & Hd1 & Hsr). destruct (Hpub _ _ _ Hrd) as (d2 & Hd2 & Hhr).
  assert (AgentOrigin req' = o) as Eo by by rewrite Ereq. rewrite Eo in Hd1. assert (d1 = so) as -> by congruence.
  assert (RegistrableDomain (BrandDomain req') = Some bo) as Hbo' by by rewrite Ereq.
  pose proof (house_of_domain _ _ _ _ _ _ _ _ Hbo' Hh) as Hdx. assert (d2 = cx_house x) as -> by congruence.
  exists req', so, bo, ao, x, house, sr, hr, now, ch. split_and!; try done; [|cbn; lia].
  eapply chain_read_mono; [|exact Hch]. intros d r Hreg Hread. specialize (Hm d _ Hread). cbn in Hm.
  destruct Hm as [Hm|[? _]]; [|done]. destruct (Hpub _ _ _ Hm) as (d3 & Hd3 & Hsp).
  unfold isRegistrableDomain in Hreg. apply bool_decide_eq_true in Hreg. by assert (d3 = d) as -> by congruence.
Qed.
End Published.

(** ** A claim *)

(** Acme grants its agency, the agency grants its technology operator, and that
    operator's agent buys for Acme under the agency's account. *)
Definition sample_now : Time := (63900000000 * Second)%Z.

Definition sample_grant (grantee until_ : string) : TrustGrant :=
  MkGrant grantee None ["adcp:media_buying"] None "" until_ None "".

Definition sample_evaluated (d : string) (agents : list TrustAgent) (grants : list TrustGrant) (now : Time) : EvaluatedTrustRecord :=
  MkEvaluated d ("https://" +:+ d +:+ "/.well-known/trust.json") (MkRecord "" "" "1" "" agents grants None [] "" None JNull)
    (now + 60 * Second)%Z false.

Definition tech_record : Time → EvaluatedTrustRecord :=
  sample_evaluated "tech.com" [MkAgent "https://bot.tech.com" ["adcp:buying"] None "" "" None None ""] [].
Definition acme_record : Time → EvaluatedTrustRecord := sample_evaluated "acme.com" [] [sample_grant "agency.com" "2030-01-01T00:00:00Z"].
Definition forever_record : Time → EvaluatedTrustRecord := sample_evaluated "acme.com" [] [sample_grant "agency.com" ""].
Definition agency_record : Time → EvaluatedTrustRecord := sample_evaluated "agency.com" [] [sample_grant "tech.com" ""].

Definition sample_evaluator : GrantEvaluator := MkGrantEvaluator (Some sample_config) false false false false.
Definition sample_claim (operator : string) : GrantRequest :=
  MkRequest "https://Bot.Tech.com/mcp" "acme.com" operator "" "" [] "" true.

(** What the environment answers when the house's record is [house]. *)
Definition sample_events (house : EvaluatedTrustRecord) (now : Time) : list event :=
  [Evaluated "https://bot.tech.com" "adcp:buying" (Ok (tech_record now)); Evaluated "acme.com" "" (Ok house);
   Clocked false now; Visited ["agency.com"] ["agency.com"]; Evaluated "agency.com" "" (Ok (agency_record now));
   Clocked false (now + Second)%Z; Visited ["agency.com"] ["agency.com"]].

Definition play_check (req : GrantRequest) (tr : list event) : option (result grantError GrantAuthorization) :=
  play (Check (RT := ascii_runtime) (PSL := toy_psl) sample_evaluator req) tr.

Example sample_outcomes :
  play_check (sample_claim "agency.com") (sample_events (acme_record sample_now) sample_now) =
    Some (Ok (authorized GrantSourceGrant (sample_now + 60 * Second)%Z)) ∧
  play_check (sample_claim "other.com")
    [Evaluated "https://bot.tech.com" "adcp:buying" (Ok (tech_record sample_now));
     Evaluated "acme.com" "" (Ok (acme_record sample_now)); Clocked false sample_now; Clocked false sample_now; Visited [] []] =
    Some (Ok (denied GrantReasonAbsent false)) ∧
  play_check (sample_claim "agency.com") (sample_events (forever_record noExpiry) noExpiry) =
    Some (Ok (denied GrantReasonAbsent false)).
Proof. by vm_compute. Qed.

Lemma clocks_ok_cons ev tr : match ev with Clocked _ t => (0 <= t)%Z | _ => True end → clocks_ok tr → clocks_ok (ev :: tr).
Proof. intros H Htr own t [<-|Ht]%elem_of_cons; [exact H|by eapply Htr]. Qed.

Lemma clocks_ok_nil : clocks_ok [].
Proof. by intros own t ?%elem_of_nil. Qed.

Ltac clocks := repeat (apply clocks_ok_cons; [first [exact I|by vm_compute]|]); apply clocks_ok_nil.

Lemma Check_authorized_only_witness :
  ∃ req' so bo ao x house, claim_of (RT := ascii_runtime) (PSL := toy_psl) (sample_claim "agency.com") req' so bo ao ∧
    house_of (RT := ascii_runtime) (PSL := toy_psl) sample_evaluator (sample_events (acme_record sample_now) sample_now)
      req' so bo ao x house.
Proof.
  destruct (Check_authorized_only (RT := ascii_runtime) (PSL := toy_psl) sample_evaluator sample_config
              (sample_claim "agency.com") (sample_events (acme_record sample_now) sample_now)
              (authorized GrantSourceGrant (sample_now + 60 * Second)%Z)) as (req' & so & bo & ao & x & house & H1 & H2 & _).
  - reflexivity.
  - clocks.
  - exact (proj1 sample_outcomes).
  - reflexivity.
  - exists req', so, bo, ao, x, house. split; assumption.
Defined.

Definition refused_events : list event :=
  [Evaluated "https://bot.tech.com" "adcp:buying" (Ok (tech_record sample_now));
   Evaluated "acme.com" "" (Ok (acme_record sample_now)); Clocked false sample_now; Clocked false sample_now; Visited [] []].

Lemma sample_claim_of operator ao :
  RegistrableDomain (RT := ascii_runtime) (PSL := toy_psl) operator = Some ao →
  ∃ req' so bo ao, claim_of (RT := ascii_runtime) (PSL := toy_psl) (sample_claim operator) req' so bo ao.
Proof.
  intros Ha. exists (set_AgentOrigin "https://bot.tech.com" (normalize (sample_claim operator))), "tech.com", "acme.com", ao.
  exists "https://bot.tech.com". by split_and!; [vm_compute|vm_compute|vm_compute|vm_compute|].
Qed.

Lemma Check_refusal_complete_witness :
  ∃ req' so bo ao x house, claim_of (RT := ascii_runtime) (PSL := toy_psl) (sample_claim "other.com") req' so bo ao ∧
    house_of (RT := ascii_runtime) (PSL := toy_psl) sample_evaluator refused_events req' so bo ao x house.
Proof.
  destruct (Check_refusal_complete (RT := ascii_runtime) (PSL := toy_psl) sample_evaluator sample_config
              (sample_claim "other.com") refused_events (denied GrantReasonAbsent false))
    as (req' & so & bo & ao & x & house & H1 & H2 & _).
  - reflexivity.
  - clocks.
  - exact (proj1 (proj2 sample_outcomes)).
  - reflexivity.
  - reflexivity.
  - discriminate.
  - apply (sample_claim_of "other.com" "other.com"). by vm_compute.
  - exists req', so, bo, ao, x, house. split; assumption.
Defined.

(** After January 2038 the same claim, with grants that never end, is refused. *)
Lemma no_grant_after_2038_witness :
  ¬ (Authorized (denied GrantReasonAbsent false) = true ∧ Source (denied GrantReasonAbsent false) = GrantSourceGrant).
Proof.
  apply (no_grant_after_2038 (RT := ascii_runtime) (PSL := toy_psl) sample_evaluator sample_config
           (sample_claim "agency.com") (sample_events (forever_record noExpiry) noExpiry)).
  - reflexivity.
  - clocks.
  - exact (proj2 (proj2 sample_outcomes)).
  - intros t Ht. unfold sample_events in Ht. set_unfold in Ht. destruct_or!; simplify_eq; unfold Second; lia.
Defined.

Definition sample_signer : WBASigner :=
  MkWBASigner (MkSigner "key" "https://bot.tech.com" 0 "ed25519" "sig1" [] "web-bot-auth") "buyer-7" RevocationCurrent.
Definition sample_gate : GrantGate := MkGate sample_evaluator false false None.

Lemma SyncAccounts_authorized_witness :
  ∃ claim, claim_for sample_gate (sample_events (acme_record sample_now) sample_now)
             (MkAccountInput (Some ("acme.com", "")) "agency.com" "") claim ∧ may_claim claim (Some sample_signer).
Proof.
  destruct (SyncAccounts_authorized (RT := ascii_runtime) (PSL := toy_psl) sample_gate (Some sample_signer)
              [MkAccountInput (Some ("acme.com", "")) "agency.com" ""] (sample_events (acme_record sample_now) sample_now)
              ltac:(by vm_compute) (MkAccountInput (Some ("acme.com", "")) "agency.com" "") ltac:(by left))
    as (claim & Hc & Hm & _).
  exists claim. split; [exact Hc|exact Hm].
Defined.

Lemma AuthorizeWBA_principal_witness :
  LookedUp "https://bot.tech.com" (Some (Some "buyer-7")) ∈
    [LookedUp "https://bot.tech.com" (Some (Some "buyer-7")); Evaluated "https://bot.tech.com" "adcp:buying" (Ok (tech_record sample_now))].
Proof.
  destruct (AuthorizeWBA_principal (RT := ascii_runtime) (PSL := toy_psl) (MkBindingGate true (Some sample_config) "" None)
              sample_signer "create_media_buy"
              [LookedUp "https://bot.tech.com" (Some (Some "buyer-7")); Evaluated "https://bot.tech.com" "adcp:buying" (Ok (tech_record sample_now))]
              (Ok "buyer-7") ltac:(by vm_compute)) as [H _].
  exact H.
Defined.

Definition sample_binds : list bind_call :=
  [("https://Bot.Tech.com/mcp", "buyer-7", MkBindOptions false false ""); ("http://plain.com", "buyer-8", MkBindOptions false false "")].

Lemma bindings_permanent_witness :
  PrincipalForOrigin (RT := ascii_runtime)
    (run_binds (RT := ascii_runtime) NewOriginBindings
       (sample_binds ++ [("https://bot.tech.com", "thief", MkBindOptions false false "")])) "https://bot.tech.com" = Some "buyer-7".
Proof.
  apply (bindings_permanent (RT := ascii_runtime) sample_binds
           [("https://bot.tech.com", "thief", MkBindOptions false false "")] "https://BOT.tech.com:443" "https://bot.tech.com").
  - by vm_compute.
  - by vm_compute.
Defined.

(** ** The same claim, from the transport on *)

Definition read_call (i : nat) (origin role body : string) : list action :=
  [Call origin role; RunRefresh 0 true; RunRefresh 0 true; Respond 0 (Some (MkTrustResponse 200 body)); RunRefresh 0 true;
   RunRefresh 0 true; RunRefresh 0 true; RunRefresh 0 true; EndRefresh 0; Return i].

Definition three_reads : list action :=
  read_call 0 "https://bot.tech.com" "adcp:buying"
    (dq "{'version':'1','agents':[{'url':'https://bot.tech.com','roles':['adcp:buying']}]}") ++
  read_call 1 "acme.com" ""
    (dq "{'version':'1','agents':[],'grants':[{'grantee':'agency.com','scopes':['adcp:media_buying'],'valid_until':'2030-01-01T00:00:00Z'}]}") ++
  read_call 2 "agency.com" "" (dq "{'version':'1','agents':[],'grants':[{'grantee':'tech.com','scopes':['adcp:media_buying']}]}").

Definition three_callers : list caller :=
  [MkCaller "https://bot.tech.com" "adcp:buying" "tech.com" (Returned 0%Z (Ok (tech_record 0)));
   MkCaller "acme.com" "" "acme.com" (Returned 0%Z (Ok (acme_record 0)));
   MkCaller "agency.com" "" "agency.com" (Returned 0%Z (Ok (agency_record 0)))].

Definition spend_claim : GrantRequest := MkRequest "https://Bot.Tech.com/mcp" "acme.com" "agency.com" "" "" [] "" false.

Lemma three_reads_callers : callers <$> play_toy sample_start three_reads = Some three_callers.
Proof. by vm_compute. Qed.

Lemma spend_grant_published_witness :
  ∃ s, play_toy sample_start three_reads = Some s ∧
    ∃ hr, speaks_for (RT := ascii_runtime) (PSL := toy_psl) sample_config (log s) "acme.com" hr.
Proof.
  destruct (play_toy sample_start three_reads) as [s|] eqn:Hs.
  2: { pose proof three_reads_callers as Hc. rewrite Hs in Hc. discriminate Hc. }
  exists s. split; [reflexivity|]. assert (callers s = three_callers) as Hcs.
  { pose proof three_reads_callers as Hc. rewrite Hs in Hc. by injection Hc. }
  destruct (spend_grant_published (RT := ascii_runtime) (PSL := toy_psl) sample_config
              (AH := memory_history (RT := ascii_runtime) (PSL := toy_psl)) (PS := toy_psl_spec)
              memory_history_spec 0%Z newMemoryAuthorityHistory s sample_evaluator spend_claim
              (sample_events (acme_record 0) 0) (authorized GrantSourceGrant (60 * Second)%Z))
    as (req' & so & bo & ao & x & house & sr & hr & now & ch & (o & Ho & -> & Hso & Hbo & _) & Hh & _ & _ & Hsp & _).
  - done.
  - exact (play_steps _ _ _ _ Hs).
  - unfold sample_events. apply answered_cons; [rewrite Hcs; eexists (MkCaller _ _ _ _), 0%Z; split_and!; [by left|reflexivity..]|].
    apply answered_cons; [rewrite Hcs; eexists (MkCaller _ _ _ _), 0%Z; split_and!; [by right; left|reflexivity..]|].
    do 2 (apply answered_cons; [exact I|]).
    apply answered_cons; [rewrite Hcs; eexists (MkCaller _ _ _ _), 0%Z; split_and!; [by right; right; left|reflexivity..]|].
    do 2 (apply answered_cons; [exact I|]). apply answered_nil.
  - reflexivity.
  - clocks.
  - by vm_compute.
  - reflexivity.
  - reflexivity.
  - reflexivity.
  - exists hr. apply house_of_domain in Hh as Hd; [|exact Hbo].
    assert (house = "acme.com") as -> by (destruct Hh as [?|h op Hin _]; [done|]; unfold sample_events in Hin; set_unfold in Hin; destruct_or!; discriminate).
    assert (cx_house x = "acme.com") as <- by (assert (Some (cx_house x) = Some "acme.com") as E by (rewrite <- Hd; by vm_compute); by injection E).
    exact Hsp.
Defined.
