(* ===== verification/TmpTypes.v ===== *)
(** * TmpTypes: the messages of the Trusted Match protocol

    The structs of [tmproto] that the router reads, forwards and merges, and how the
    two provider responses decode.  An [any] is a [json] value; a nil map or slice and
    an empty one are the same value, a nil pointer is [None].  Fields that the modelled
    code only carries along (display text, provenance, versions) are left out. *)
From stdpp Require Import gmap strings.
From S2P Require Import Prelude GoStrings Unicode Json Float StrictJson JsonTypes.
From stdpp Require Import options.

(** A [map[string]any]. *)
Abbreviation anymap := (gmap string json).

(** ** Content: artifact references, classifier outputs, artifacts *)

Record ArtifactRef := MkArtifactRef { RefType : string; RefValue : string }.

Record ContextSignals := MkContextSignals {
  Topics : list string;
  TaxonomySource : string;
  TaxonomyID : Z;
  Sentiment : string;
  Keywords : list string;
  Language : string;
  ContentPolicies : list string;
  Summary : string;
  Embedding : string;
  EmbeddingModel : string;
  EmbeddingDims : Z;
}.

Record AssetAccess := MkAccess { Method : string; Token : string; AccessProvider : string; Credentials : anymap }.

Record TextAsset := MkText { TextContent : string; HeadingLevel : Z }.
Record ImageAsset := MkImage { ImageURL : string; ImageAccess : option AssetAccess; AltText : string }.
Record VideoAsset := MkVideo {
  VideoURL : string; VideoAccess : option AssetAccess; VideoTranscript : string; ThumbnailURL : string }.
Record AudioAsset := MkAudio { AudioURL : string; AudioAccess : option AssetAccess; AudioTranscript : string }.

(** An asset of a type this SDK does not know keeps its members. *)
Inductive Asset :=
  | Text (a : TextAsset)
  | Image (a : ImageAsset)
  | Video (a : VideoAsset)
  | Audio (a : AudioAsset)
  | Unknown (t : string) (raw : anymap).

Record Artifact := MkArtifact {
  ArtPropertyRID : string;
  ArtifactID : string;
  ArtURL : string;
  Assets : list Asset;
}.

(** ** Identities and sealed credentials *)

Record Attestation := MkAttestation {
  Issuer : anymap;
  Scheme : string;
  RelyingPartyID : string;
  Action : string;
  Claims : list string;
  VerificationLevel : string;
  SignalBinding : string;
  Proof : anymap;
  ExpiresAt : string;
}.

Record IdentityToken := MkToken { UserToken : string; UIDType : string; IdAttestation : option Attestation }.
Record SealedCredential := MkSealed { AudienceKID : string; Payload : string }.

(** ** Requests *)

Record ContextMatchRequest := MkContextRequest {
  cmType : string;
  cmProtocolVersion : string;
  cmRequestID : string;
  cmPropertyRID : string;
  cmPropertyID : string;
  cmPropertyType : string;
  cmPlacementID : string;
  cmSellerAgentURL : string;
  cmArtifact : option Artifact;
  cmArtifactRefs : list ArtifactRef;
  cmGeo : anymap;
  cmContextSignals : option ContextSignals;
  cmPackageIDs : list string;
}.

Record IdentityMatchRequest := MkIdentityRequest {
  imType : string;
  imProtocolVersion : string;
  imRequestID : string;
  imSellerAgentURL : string;
  imIdentities : list IdentityToken;
  imConsent : anymap;
  imPackageIDs : list string;
  imCountry : string;
  imSealedCredentials : list SealedCredential;
}.

(** ** Responses *)

Record OfferPrice := MkPrice { Amount : option float; Currency : string; Model : string }.

Record Offer := MkOffer {
  PackageID : string;
  SellerAgent : json;
  Brand : json;
  Price : option OfferPrice;
  OfferSummary : string;
  CreativeManifest : json;
  CreativeData : gmap string string;
}.

Record TmpxChunk := MkChunk { SlotID : string; ChunkValue : string }.

Record ProviderContextMatchResponse := MkProviderContext {
  pcType : string;
  pcRequestID : string;
  pcOffers : list Offer;
  pcCacheTTL : option Z;
  pcSignals : anymap;
}.

Record ProviderIdentityMatchResponse := MkProviderIdentity {
  piType : string;
  piRequestID : string;
  piEligiblePackageIDs : list string;
  piServeWindowSec : Z;
  piTmpxChunks : list TmpxChunk;
}.

Record ContextMatchResponse := MkContextResponse {
  crType : string;
  crRequestID : string;
  crOffers : list Offer;
  crSignals : anymap;
  crSignalsByProvider : gmap string anymap;
}.

Record IdentityMatchResponse := MkIdentityResponse {
  irType : string;
  irRequestID : string;
  irEligiblePackageIDs : list string;
  irServeWindowSec : Z;
  irTmpx : string;
  irTmpxProviders : gmap string (list TmpxChunk);
}.

Definition TypeContextMatchRequest : string := "context_match_request".
Definition TypeContextMatchResponse : string := "context_match_response".
Definition TypeIdentityMatchRequest : string := "identity_match_request".
Definition TypeIdentityMatchResponse : string := "identity_match_response".
Definition TypeError : string := "error".

#[export] Instance TmpxChunk_eq_dec : EqDecision TmpxChunk.
Proof. solve_decision. Defined.
#[export] Instance SealedCredential_eq_dec : EqDecision SealedCredential.
Proof. solve_decision. Defined.

(** ** Decoding the two provider responses *)

Definition PriceType : gtype := TStruct [("amount", TFloat); ("currency", TString); ("model", TString)].
Definition OfferType : gtype :=
  TStruct [("package_id", TString); ("seller_agent", TRaw); ("brand", TRaw); ("price", PriceType);
           ("summary", TString); ("creative_manifest", TRaw); ("creative_data", TMap TString)].
Definition ContextResponseType : gtype :=
  TStruct [("adcp_version", TString); ("adcp_major_version", TInt); ("type", TString); ("request_id", TString);
           ("offers", TSlice OfferType); ("cache_ttl", TInt); ("signals", TMap TAny)].
Definition ChunkType : gtype := TStruct [("slot_id", TString); ("value", TString)].
Definition IdentityResponseType : gtype :=
  TStruct [("adcp_version", TString); ("adcp_major_version", TInt); ("type", TString); ("request_id", TString);
           ("eligible_package_ids", TSlice TString); ("serve_window_sec", TInt); ("tmpx_chunks", TSlice ChunkType)].
Definition ErrorType : gtype :=
  TStruct [("type", TString); ("request_id", TString); ("code", TString); ("message", TString)].

Section Decode.
Context `{RT : Runtime}.

Definition tmp_field (t : gtype) (name : string) (x : json) : json :=
  match t with TStruct fs => field name (map fst fs) (get_members x) | _ => JNull end.

(** Members of a decoded map: the last of several with one name stays. *)
Definition get_map {A} (f : json → A) (x : json) : gmap string A :=
  foldl (λ m kv, <[kv.1 := f kv.2]> m) ∅ (get_members x).

(** A pointer: nil for [null] and for a missing member. *)
Definition get_ptr {A} (f : json → A) (x : json) : option A := match x with JNull => None | _ => Some (f x) end.

Definition decode_price (x : json) : OfferPrice :=
  let g name := tmp_field PriceType name x in
  MkPrice (get_float (g "amount")) (get_string (g "currency")) (get_string (g "model")).

Definition decode_offer (x : json) : Offer :=
  let g name := tmp_field OfferType name x in
  MkOffer (get_string (g "package_id")) (g "seller_agent") (g "brand") (get_ptr decode_price (g "price"))
    (get_string (g "summary")) (g "creative_manifest") (get_map get_string (g "creative_data")).

Definition decode_context_response (x : json) : ProviderContextMatchResponse :=
  let g name := tmp_field ContextResponseType name x in
  MkProviderContext (get_string (g "type")) (get_string (g "request_id"))
    (map decode_offer (default [] (get_list (g "offers")))) (get_ptr get_int (g "cache_ttl"))
    (get_map id (g "signals")).

Definition decode_chunk (x : json) : TmpxChunk :=
  MkChunk (get_string (tmp_field ChunkType "slot_id" x)) (get_string (tmp_field ChunkType "value" x)).

Definition decode_identity_response (x : json) : ProviderIdentityMatchResponse :=
  let g name := tmp_field IdentityResponseType name x in
  MkProviderIdentity (get_string (g "type")) (get_string (g "request_id"))
    (map get_string (default [] (get_list (g "eligible_package_ids")))) (get_int (g "serve_window_sec"))
    (map decode_chunk (default [] (get_list (g "tmpx_chunks")))).

(** [json.Unmarshal] into a message of type [t]. *)
Definition unmarshal (t : gtype) (body : string) : option json :=
  v ← json_decode body; if fits v t then Some v else None.

End Decode.
