(* ===== verification/TmpUrl.v ===== *)
(** * TmpUrl: which URLs may be fetched

    [tmproto/urlsecurity.go]: the check of publisher-supplied URLs before any fetch.
    A [net.IP] is its sixteen bytes as a number below [2^128]; an IPv4 address is
    the mapped one. *)
From S2P Require Import Prelude GoStrings Unicode StrictJson NetUrl Netip SafeFetch.
From stdpp Require Import options.

Definition MaxContentURLLength : Z := 2048%Z.

Inductive url_error :=
  | UrlMalformed (why : string)
  | ErrUnsafeURL (why : string).

#[export] Instance url_error_eq_dec : EqDecision url_error.
Proof. solve_decision. Defined.

(** ** [net.IP] *)

Definition IP := Z.
Definition v4_prefix : Z := (65535 * 2 ^ 32)%Z.

(** [net.IPv4]. *)
Definition IPv4 (a b c d : Z) : IP := (v4_prefix + octets a b c d)%Z.

(** Byte [i] of the sixteen. *)
Definition ip_byte (ip : IP) (i : Z) : Z := (Z.shiftr ip (8 * (15 - i)) mod 256)%Z.

(** [net.ParseIP]: no zones. *)
Definition ParseIP (s : string) : option IP :=
  match ParseAddr s with
  | Some (V4 a) => Some (v4_prefix + a)%Z
  | Some (V6 a z) => if bool_decide (z = "") then Some a else None
  | None => None
  end.

(** [IP.To4]: the low four bytes of a mapped address. *)
Definition To4 (ip : IP) : option Z :=
  if (Z.shiftr ip 32 =? 65535)%Z then Some (ip mod 2 ^ 32)%Z else None.

Definition byte4 (a : Z) (i : Z) : Z := (Z.shiftr a (8 * (3 - i)) mod 256)%Z.

Definition IsLoopback (ip : IP) : bool :=
  match To4 ip with Some a => (byte4 a 0 =? 127)%Z | None => (ip =? 1)%Z end.
Definition IsLinkLocalUnicast (ip : IP) : bool :=
  match To4 ip with
  | Some a => (byte4 a 0 =? 169)%Z && (byte4 a 1 =? 254)%Z
  | None => (ip_byte ip 0 =? 254)%Z && (Z.land (ip_byte ip 1) 192 =? 128)%Z
  end.
Definition IsLinkLocalMulticast (ip : IP) : bool :=
  match To4 ip with
  | Some a => (byte4 a 0 =? 224)%Z && (byte4 a 1 =? 0)%Z && (byte4 a 2 =? 0)%Z
  | None => (ip_byte ip 0 =? 255)%Z && (Z.land (ip_byte ip 1) 15 =? 2)%Z
  end.
Definition IsInterfaceLocalMulticast (ip : IP) : bool :=
  match To4 ip with
  | Some _ => false
  | None => (ip_byte ip 0 =? 255)%Z && (Z.land (ip_byte ip 1) 15 =? 1)%Z
  end.
Definition IsMulticast (ip : IP) : bool :=
  match To4 ip with Some a => (Z.land (byte4 a 0) 240 =? 224)%Z | None => (ip_byte ip 0 =? 255)%Z end.
Definition IsUnspecified (ip : IP) : bool := (ip =? v4_prefix)%Z || (ip =? 0)%Z.
Definition IsPrivate (ip : IP) : bool :=
  match To4 ip with
  | Some a => (byte4 a 0 =? 10)%Z || ((byte4 a 0 =? 172)%Z && (Z.land (byte4 a 1) 240 =? 16)%Z) ||
              ((byte4 a 0 =? 192)%Z && (byte4 a 1 =? 168)%Z)
  | None => (Z.land (ip_byte ip 0) 254 =? 252)%Z
  end.

(** ** [isDisallowedIP] *)

Definition special_flags (ip : IP) : bool :=
  IsLoopback ip || IsLinkLocalUnicast ip || IsLinkLocalMulticast ip || IsInterfaceLocalMulticast ip ||
  IsMulticast ip || IsUnspecified ip.

Definition disallowed_v4 (a : Z) : bool :=
  (byte4 a 0 =? 0)%Z || (byte4 a 0 =? 10)%Z || ((byte4 a 0 =? 172)%Z && (Z.land (byte4 a 1) 240 =? 16)%Z) ||
  ((byte4 a 0 =? 192)%Z && (byte4 a 1 =? 168)%Z) || ((byte4 a 0 =? 169)%Z && (byte4 a 1 =? 254)%Z) ||
  ((byte4 a 0 =? 100)%Z && (Z.land (byte4 a 1) 192 =? 64)%Z) ||
  ((byte4 a 0 =? 198)%Z && (Z.land (byte4 a 1) 254 =? 18)%Z).

(** The call on an embedded address, which is an IPv4 address: no further recursion. *)
Definition isDisallowedIPv4 (ip : IP) : bool :=
  special_flags ip || match To4 ip with Some a => disallowed_v4 a | None => false end.

Definition nat64_zeros (ip : IP) : bool := forallb (λ i, (ip_byte ip i =? 0)%Z) [4; 5; 6; 7; 8; 9; 10; 11]%Z.

Definition isDisallowedIP (ip : IP) : bool :=
  if special_flags ip then true else
  match To4 ip with
  | Some a => disallowed_v4 a
  | None =>
      (Z.land (ip_byte ip 0) 254 =? 252)%Z ||
      ((ip_byte ip 0 =? 254)%Z && (Z.land (ip_byte ip 1) 192 =? 192)%Z) ||
      ((ip_byte ip 0 =? 32)%Z && (ip_byte ip 1 =? 2)%Z &&
       isDisallowedIPv4 (IPv4 (ip_byte ip 2) (ip_byte ip 3) (ip_byte ip 4) (ip_byte ip 5))) ||
      ((ip_byte ip 0 =? 0)%Z && (ip_byte ip 1 =? 100)%Z && (ip_byte ip 2 =? 255)%Z && (ip_byte ip 3 =? 155)%Z &&
       nat64_zeros ip && isDisallowedIPv4 (IPv4 (ip_byte ip 12) (ip_byte ip 13) (ip_byte ip 14) (ip_byte ip 15)))
  end.

Section TmpUrl.
Context `{RT : Runtime}.

Definition TrimSuffix (s p : string) : string := if HasSuffix s p then stake (len s - len p) s else s.

Definition checkHostnameNotInternal (host : string) : option string :=
  let low := TrimSuffix (ToLower host) "." in
  if bool_decide (low = "") then Some "empty host" else
  if existsb (λ l, bool_decide (l = "")) (Split low ".") then Some "host contains an empty label" else
  if bool_decide (low = "localhost") || HasSuffix low ".localhost" then Some "host is localhost" else
  if HasSuffix low ".local" || HasSuffix low ".internal" then Some "host uses a reserved internal-only TLD" else
  match ParseIP low with
  | Some ip => if isDisallowedIP ip then Some "host resolves to a disallowed private/reserved address" else None
  | None => None
  end.

Definition ValidateFetchableURL (raw : string) : result url_error unit :=
  if bool_decide (raw = "") then Err (UrlMalformed "empty") else
  if (MaxContentURLLength <? Z.of_nat (len raw))%Z then Err (UrlMalformed "exceeds maximum length") else
  u ← opt_err (UrlMalformed "does not parse") (ParseURL raw);
  if negb (IsAbs u) then Err (UrlMalformed "must be absolute") else
  let scheme := ToLower (URLScheme u) in
  if negb (bool_decide (scheme = "http")) && negb (bool_decide (scheme = "https"))
  then Err (ErrUnsafeURL "scheme must be http or https") else
  if negb (bool_decide (URLUser u = None)) then Err (ErrUnsafeURL "must not contain userinfo") else
  let host := Hostname u in
  if bool_decide (host = "") then Err (ErrUnsafeURL "missing host") else
  match checkHostnameNotInternal host with
  | Some why => Err (ErrUnsafeURL why)
  | None => Ok tt
  end.

Definition validateArtifactRefURL (raw : string) : result url_error unit :=
  if (MaxContentURLLength <? Z.of_nat (len raw))%Z then Err (UrlMalformed "exceeds maximum length") else
  u ← opt_err (UrlMalformed "does not parse") (ParseURL raw);
  if negb (bool_decide (RawQuery u = "")) then Err (UrlMalformed "must not contain a query string") else
  if negb (bool_decide (Fragment u = "")) then Err (UrlMalformed "must not contain a fragment") else
  ValidateFetchableURL raw.

End TmpUrl.

(** ** What is refused *)

(** The IPv4 addresses no fetch may reach, by octets: this network, private, loopback,
    shared, link-local, benchmarking and multicast ranges. *)
Definition internal4 (a b : Z) : Prop :=
  (a = 0 ∨ a = 10 ∨ a = 127 ∨ 224 ≤ a < 240 ∨ (a = 100 ∧ 64 ≤ b < 128) ∨ (a = 169 ∧ b = 254) ∨
   (a = 172 ∧ 16 ≤ b < 32) ∨ (a = 192 ∧ b = 168) ∨ (a = 198 ∧ 18 ≤ b < 20))%Z.

(** An address that stands for the IPv4 address [x]: mapped, behind 6to4, behind NAT64. *)
Definition stands_for (ip : IP) (x : Z) : Prop :=
  ip = (v4_prefix + x)%Z ∨ (∃ rest, (0 ≤ rest < 2 ^ 80)%Z ∧ ip = (8194 * 2 ^ 112 + x * 2 ^ 80 + rest)%Z) ∨
  ip = (6619035 * 2 ^ 96 + x)%Z.

(** A check over the 256 values of a byte. *)
Lemma every_byte (P : Z → bool) b : octet b → forallb P (seqZ 0 256) = true → P b = true.
Proof.
  intros Hb HP. apply forallb_forall_Forall in HP. rewrite Forall_forall in HP.
  apply (HP b), elem_of_seqZ. unfold octet in Hb. lia.
Qed.

Ltac by_byte b := match goal with
  | |- ?l = ?r => apply Bool.eqb_prop;
      let P := eval pattern b in (Bool.eqb l r) in
      match P with ?F b => apply (every_byte F); [done|vm_compute; reflexivity] end
  end.

Lemma land240_16 b : octet b → (Z.land b 240 =? 16)%Z = ((16 <=? b) && (b <? 32))%Z.
Proof. intros Hb. by_byte b. Qed.
Lemma land192_64 b : octet b → (Z.land b 192 =? 64)%Z = ((64 <=? b) && (b <? 128))%Z.
Proof. intros Hb. by_byte b. Qed.
Lemma land254_18 b : octet b → (Z.land b 254 =? 18)%Z = ((18 <=? b) && (b <? 20))%Z.
Proof. intros Hb. by_byte b. Qed.
Lemma land240_224 b : octet b → (Z.land b 240 =? 224)%Z = ((224 <=? b) && (b <? 240))%Z.
Proof. intros Hb. by_byte b. Qed.

Lemma byte4_octets a b c d : octet a → octet b → octet c → octet d →
  byte4 (octets a b c d) 0 = a ∧ byte4 (octets a b c d) 1 = b ∧ byte4 (octets a b c d) 2 = c.
Proof.
  unfold byte4, octets, octet. intros. rewrite !Z.shiftr_div_pow2 by lia.
  change (2 ^ (8 * (3 - 0)))%Z with 16777216%Z. change (2 ^ (8 * (3 - 1)))%Z with 65536%Z.
  change (2 ^ (8 * (3 - 2)))%Z with 256%Z.
  split_and!; Z.to_euclidean_division_equations; lia.
Qed.

Lemma octets_range a b c d : octet a → octet b → octet c → octet d → (0 ≤ octets a b c d < 2 ^ 32)%Z.
Proof. unfold octets, octet. lia. Qed.

Lemma To4_mapped x : (0 ≤ x < 2 ^ 32)%Z → To4 (v4_prefix + x)%Z = Some x.
Proof.
  intros Hx. unfold To4, v4_prefix. rewrite Z.shiftr_div_pow2 by lia.
  rewrite Z.div_add_l, Z.div_small by lia. cbn.
  f_equal. rewrite Z.add_comm, Z_mod_plus_full. by apply Z.mod_small.
Qed.

Ltac tree := lazymatch goal with |- _ ∨ _ => first [left; tree | right; tree] | |- _ => lia end.

Lemma disallowed_mapped a b c d : octet a → octet b → octet c → octet d →
  (special_flags (IPv4 a b c d) || disallowed_v4 (octets a b c d) = true) ↔ internal4 a b.
Proof.
  intros Ha Hb Hc Hd. destruct (byte4_octets a b c d) as (E0 & E1 & E2); try done.
  unfold special_flags, IsLoopback, IsLinkLocalUnicast, IsLinkLocalMulticast, IsInterfaceLocalMulticast,
    IsMulticast, IsUnspecified, disallowed_v4, IPv4.
  rewrite To4_mapped by by apply octets_range.
  rewrite E0, E1, E2, !land240_16, land192_64, land254_18, land240_224 by done.
  unfold internal4, v4_prefix, octets, octet in *.
  rewrite !orb_true_iff, !andb_true_iff, !Z.eqb_eq, !Z.leb_le, !Z.ltb_lt.
  split; intros H; repeat destruct H as [H|H]; try done; tree.
Qed.

Lemma isDisallowedIP_v4 a b c d : octet a → octet b → octet c → octet d →
  isDisallowedIP (IPv4 a b c d) = true ↔ internal4 a b.
Proof.
  intros Ha Hb Hc Hd. rewrite <- (disallowed_mapped a b c d) by done.
  unfold isDisallowedIP, IPv4. rewrite To4_mapped by by apply octets_range.
  by destruct (special_flags _).
Qed.

Lemma isDisallowedIPv4_v4 a b c d : octet a → octet b → octet c → octet d →
  isDisallowedIPv4 (IPv4 a b c d) = true ↔ internal4 a b.
Proof.
  intros Ha Hb Hc Hd. rewrite <- (disallowed_mapped a b c d) by done.
  unfold isDisallowedIPv4, IPv4. by rewrite To4_mapped by by apply octets_range.
Qed.

Lemma ip_byte_div ip i : (0 ≤ i ≤ 15)%Z → ip_byte ip i = (ip / 2 ^ (8 * (15 - i)) mod 256)%Z.
Proof. intros Hi. unfold ip_byte. by rewrite Z.shiftr_div_pow2 by lia. Qed.

Lemma octets_byte4 x : (0 ≤ x < 2 ^ 32)%Z →
  x = octets (byte4 x 0) (byte4 x 1) (byte4 x 2) (byte4 x 3) ∧
  octet (byte4 x 0) ∧ octet (byte4 x 1) ∧ octet (byte4 x 2) ∧ octet (byte4 x 3).
Proof.
  intros Hx. unfold byte4, octets, octet. rewrite !Z.shiftr_div_pow2 by lia.
  change (2 ^ (8 * (3 - 0)))%Z with 16777216%Z. change (2 ^ (8 * (3 - 1)))%Z with 65536%Z.
  change (2 ^ (8 * (3 - 2)))%Z with 256%Z. change (2 ^ (8 * (3 - 3)))%Z with 1%Z.
  split_and!; Z.to_euclidean_division_equations; lia.
Qed.

Ltac bytes := rewrite ?ip_byte_div by lia; cbn [Z.mul Z.sub Z.add Z.opp Pos.mul Pos.sub Pos.add Z.pos_sub Pos.pred_double Pos.succ Pos.add_carry Pos.sub_mask Pos.double_mask Pos.succ_double_mask Pos.double_pred_mask Pos.sub_mask_carry];
  repeat match goal with |- context [(2 ^ ?n)%Z] => let v := eval vm_compute in (2 ^ n)%Z in change (2 ^ n)%Z with v end;
  Z.to_euclidean_division_equations; lia.

Section Tunnels.
Variables (a b c d : Z).
Hypotheses (Ha : octet a) (Hb : octet b) (Hc : octet c) (Hd : octet d).

Lemma sixtofour_bytes ip rest : (0 ≤ rest < 2 ^ 80)%Z → ip = (8194 * 2 ^ 112 + octets a b c d * 2 ^ 80 + rest)%Z →
  Z.shiftr ip 32 ≠ 65535%Z ∧ ip_byte ip 0 = 32%Z ∧ ip_byte ip 1 = 2%Z ∧
  ip_byte ip 2 = a ∧ ip_byte ip 3 = b ∧ ip_byte ip 4 = c ∧ ip_byte ip 5 = d.
Proof using Type*.
  unfold octets, octet in *. intros Hr ->. rewrite Z.shiftr_div_pow2 by lia.
  change (2 ^ 80)%Z with 1208925819614629174706176%Z in *. split_and!.
  all: bytes.
Qed.

Lemma nat64_bytes ip : ip = (6619035 * 2 ^ 96 + octets a b c d)%Z →
  Z.shiftr ip 32 ≠ 65535%Z ∧ ip_byte ip 0 = 0%Z ∧ ip_byte ip 1 = 100%Z ∧ ip_byte ip 2 = 255%Z ∧
  ip_byte ip 3 = 155%Z ∧ nat64_zeros ip = true ∧
  ip_byte ip 12 = a ∧ ip_byte ip 13 = b ∧ ip_byte ip 14 = c ∧ ip_byte ip 15 = d.
Proof using Type*.
  unfold octets, octet in *. intros ->. rewrite Z.shiftr_div_pow2 by lia.
  split_and!; try bytes. unfold nat64_zeros. cbn [forallb]. rewrite !andb_true_iff, !Z.eqb_eq.
  split_and!; try done; bytes.
Qed.

(** A tunnelled address is refused exactly when the address behind it is. *)
Lemma isDisallowedIP_stands ip : stands_for ip (octets a b c d) → isDisallowedIP ip = true ↔ internal4 a b.
Proof using Type*.
  intros [->|[(rest & Hr & Hip)|Hip]]; [by apply isDisallowedIP_v4|..].
  - destruct (sixtofour_bytes ip rest Hr Hip) as (H4 & B0 & B1 & B2 & B3 & B4 & B5).
    assert (HT : To4 ip = None) by (unfold To4; by rewrite (proj2 (Z.eqb_neq _ _) H4)).
    rewrite <- (isDisallowedIPv4_v4 a b c d) by done.
    unfold isDisallowedIP, special_flags, IsLoopback, IsLinkLocalUnicast, IsLinkLocalMulticast,
      IsInterfaceLocalMulticast, IsMulticast, IsUnspecified.
    rewrite HT, B0, B1, B2, B3, B4, B5. cbn [Z.eqb Pos.eqb andb orb Z.land].
    replace (ip =? 1)%Z with false by (symmetry; apply Z.eqb_neq; unfold octets, octet in *; lia).
    replace (ip =? v4_prefix)%Z with false
      by (symmetry; apply Z.eqb_neq; unfold v4_prefix, octets, octet in *; lia).
    replace (ip =? 0)%Z with false by (symmetry; apply Z.eqb_neq; unfold octets, octet in *; lia).
    cbn. by rewrite orb_false_r.
  - destruct (nat64_bytes ip Hip) as (H4 & B0 & B1 & B2 & B3 & Bz & B12 & B13 & B14 & B15).
    assert (HT : To4 ip = None) by (unfold To4; by rewrite (proj2 (Z.eqb_neq _ _) H4)).
    rewrite <- (isDisallowedIPv4_v4 a b c d) by done.
    unfold isDisallowedIP, special_flags, IsLoopback, IsLinkLocalUnicast, IsLinkLocalMulticast,
      IsInterfaceLocalMulticast, IsMulticast, IsUnspecified.
    rewrite HT, B0, B1, B2, B3, Bz, B12, B13, B14, B15.
    replace (ip =? 1)%Z with false by (symmetry; apply Z.eqb_neq; unfold octets, octet in *; lia).
    replace (ip =? v4_prefix)%Z with false
      by (symmetry; apply Z.eqb_neq; unfold v4_prefix, octets, octet in *; lia).
    replace (ip =? 0)%Z with false by (symmetry; apply Z.eqb_neq; unfold octets, octet in *; lia).
    done.
Qed.
End Tunnels.

Section Props.
Context `{RT : Runtime}.

(** a URL that passes the check before a fetch is absolute, http or https, without
    credentials, and names a host that is neither localhost nor an address that is, or
    stands for through IPv4 mapping, 6to4 or NAT64, an internal IPv4 address. *)
Theorem fetchable_not_internal raw : ValidateFetchableURL raw = Ok tt →
  ∃ u, ParseURL raw = Some u ∧ (ToLower (URLScheme u) = "http" ∨ ToLower (URLScheme u) = "https") ∧
    URLUser u = None ∧
    let host := TrimSuffix (ToLower (Hostname u)) "." in
    host ≠ "" ∧ host ≠ "localhost" ∧ HasSuffix host ".localhost" = false ∧
    HasSuffix host ".local" = false ∧ HasSuffix host ".internal" = false ∧
    ∀ ip a b c d, ParseIP host = Some ip → octet a → octet b → octet c → octet d →
      stands_for ip (octets a b c d) → ¬ internal4 a b.
Proof.
  unfold ValidateFetchableURL. case_bool_decide; [done|]. destruct (_ <? _)%Z; [done|].
  destruct (ParseURL raw) as [u|]; cbn; [|done]. destruct (negb (IsAbs u)); cbn; [done|].
  destruct (negb _ && negb _) eqn:Es; [done|].
  destruct (negb (bool_decide (URLUser u = None))) eqn:Hu; [done|]. apply negb_false_iff, bool_decide_eq_true in Hu.
  destruct (bool_decide (Hostname u = "")); [done|]. destruct (checkHostnameNotInternal _) eqn:Eh; [done|]. intros _.
  exists u. split; [done|]. split.
  { apply andb_false_iff in Es as [Es|Es]; apply negb_false_iff, bool_decide_eq_true in Es; auto. }
  split; [done|]. unfold checkHostnameNotInternal in Eh. cbn zeta in *.
  set (host := TrimSuffix (ToLower (Hostname u)) ".") in *.
  case_bool_decide; [done|]. destruct (existsb _ _); [done|].
  destruct (bool_decide (host = "localhost") || HasSuffix host ".localhost") eqn:El; [done|].
  destruct (HasSuffix host ".local" || HasSuffix host ".internal") eqn:Ei; [done|].
  apply orb_false_iff in El as [El ?], Ei as [? ?]. apply bool_decide_eq_false in El.
  split_and!; [done..|]. intros ip a b c d Hip Ha Hb Hc Hd Hs Hint. rewrite Hip in Eh.
  apply (isDisallowedIP_stands a b c d Ha Hb Hc Hd ip Hs) in Hint. by rewrite Hint in Eh.
Qed.

End Props.

(** A public URL passes; the same host behind 6to4, mapped or as metadata address does not. *)
Lemma fetchable_not_internal_witness :
  let _ := StrictJson.ascii_runtime in
  ValidateFetchableURL "https://news.example/a" = Ok tt ∧
  ValidateFetchableURL "http://[2002:7f00:1::]/" ≠ Ok tt ∧ ValidateFetchableURL "http://[::ffff:10.0.0.1]/" ≠ Ok tt ∧
  ValidateFetchableURL "http://169.254.169.254/" ≠ Ok tt ∧
  ∃ u, ParseURL "https://news.example/a" = Some u ∧ URLUser u = None.
Proof.
  intros RT. split; [by vm_compute|]. split; [by vm_compute|]. split; [by vm_compute|]. split; [by vm_compute|].
  destruct (fetchable_not_internal "https://news.example/a") as (u & ? & _ & ? & _); [by vm_compute|]. eauto.
Defined.
