(* ===== verification/TmpValidate.v ===== *)
(** * TmpValidate: which messages are accepted

    [tmproto/validate.go] and [validate_ladder.go]: the checks at the entry of every
    TMP endpoint, and [Artifact.StripAccess] of [artifact.go], which the router runs
    before it replicates a request. *)
From stdpp Require Import gmap strings.
From S2P Require Import Prelude GoStrings Unicode Json StrictJson Regex TmpTypes TmpUrl.
From stdpp Require Import options.

Definition MaxPackagesPerRequest : nat := 500.
Definition MaxArtifactRefsPerRequest : nat := 20.
Definition MaxIdentitiesPerRequest : nat := 3.
Definition MaxSealedCredentials : nat := 8.
Definition MaxSealedCredentialPayload : Z := 8192%Z.
Definition MaxAudienceKIDLength : nat := 128.
Definition MaxAttestationClaims : nat := 16.
Definition MaxIDLength : nat := 256.
Definition MaxSellerAgentURLLength : Z := 2048%Z.
Definition MaxAssets : nat := 200.

Definition validUIDTypes : list string :=
  ["rampid"; "rampid_derived"; "id5"; "uid2"; "euid"; "pairid"; "maid"; "hashed_email"; "publisher_first_party";
   "world_id_nullifier"; "other"].

(** ** Identifiers *)

Definition control_rune (r : Z) : bool := (r <? 32)%Z || (r =? 127)%Z.

Definition longer (s : string) (n : Z) : bool := (n <? Z.of_nat (len s))%Z.

Definition validateSafeID (field value : string) : result string unit :=
  if longer value (Z.of_nat MaxIDLength) then Err (field +:+ " exceeds maximum length") else
  if contains_byte value ":" || contains_byte value "/" || contains_byte value backslash
  then Err (field +:+ " contains invalid characters") else
  if existsb control_rune (runes value) then Err (field +:+ " contains invalid characters") else Ok tt.

Definition validateEchoID (field value : string) : result string unit :=
  if longer value (Z.of_nat MaxIDLength) then Err (field +:+ " exceeds maximum length") else
  if existsb control_rune (runes value) then Err (field +:+ " contains invalid characters") else Ok tt.

Definition validateSellerAgentURL (value : string) : result string unit :=
  if longer value MaxSellerAgentURLLength then Err "seller_agent_url exceeds maximum length" else
  if existsb control_rune (runes value) then Err "seller_agent_url contains invalid characters" else Ok tt.

Definition SafeRequestIDForEcho (requestID : string) : string :=
  if bool_decide (requestID = "") then "" else
  match validateEchoID "request_id" requestID with Ok _ => requestID | Err _ => "" end.

Definition validateProtocolVersion (v : string) : result string unit :=
  guard_err (bool_decide (v = "") || bool_decide (v = "1.0")) "unsupported protocol_version".

(** ** Geo *)

Definition upper_class : re := RClass (between 65 90).
Definition geoCountryPattern : re := RTimes 2 upper_class.
Definition geoRegionPattern : re :=
  let alnum := RClass (λ c, between 65 90 c || is_digit c) in
  RSeq (RTimes 2 upper_class) (RSeq (RChar "-") (RSeq alnum (RUpTo 2 alnum))).

Definition validate_pattern (field : string) (p : re) (v : json) : result string unit :=
  match v with
  | JStr s => guard_err (MatchString p s) (field +:+ ": does not match pattern")
  | _ => Err (field +:+ ": must be string")
  end.

Definition validateMetro (v : json) : result string unit :=
  match v with
  | JObj l =>
      _ ← guard_err (bool_decide (is_Some (obj_get "system" l))) "geo.metro.system: required";
      guard_err (bool_decide (is_Some (obj_get "value" l))) "geo.metro.value: required"
  | _ => Err "geo.metro: must be object"
  end.

(** A field that is absent is legal. *)
Definition when_present (geo : anymap) (k : string) (f : json → result string unit) : result string unit :=
  match geo !! k with Some v => f v | None => Ok tt end.

Definition validateGeo (geo : anymap) : result string unit :=
  _ ← when_present geo "country" (validate_pattern "geo.country" geoCountryPattern);
  _ ← when_present geo "region" (validate_pattern "geo.region" geoRegionPattern);
  when_present geo "metro" validateMetro.

(** [for _, x := range l { if err := f(x) ... }]. *)
Fixpoint check_all {A} (f : A → result string unit) (l : list A) : result string unit :=
  match l with [] => Ok tt | x :: l' => _ ← f x; check_all f l' end.

(** ** Content *)

Definition bcp47TwoLetter : re := RTimes 2 (RClass (between 97 122)).
Definition validSentiment : list string := ["positive"; "negative"; "neutral"; "mixed"].
Definition validArtifactRefType : list string :=
  ["url"; "url_hash"; "eidr"; "gracenote"; "isrc"; "gtin"; "rss_guid"; "isbn"; "custom"].
Definition validAssetAccessMethod : list string := ["bearer_token"; "service_account"; "signed_url"].

Definition fail_when (b : bool) (e : string) : result string unit := if b then Err e else Ok tt.

Definition embedding_ok (c : ContextSignals) : result string unit :=
  let set_ := [negb (bool_decide (Embedding c = "")); negb (bool_decide (EmbeddingModel c = ""));
               negb (EmbeddingDims c =? 0)%Z] in
  if existsb id set_ then
    _ ← guard_err (forallb id set_) "embedding fields must all be set together";
    guard_err ((64 <=? EmbeddingDims c) && (EmbeddingDims c <=? 2048))%Z "embedding_dims outside range"
  else Ok tt.

Definition Validate_signals (c : option ContextSignals) : result string unit :=
  match c with
  | None => Ok tt
  | Some c =>
      _ ← fail_when (50 <? length (Topics c))%nat "topics";
      _ ← fail_when (50 <? length (Keywords c))%nat "keywords";
      _ ← check_all (λ k, fail_when (longer k 100) "keywords") (Keywords c);
      _ ← fail_when (20 <? length (ContentPolicies c))%nat "content_policies";
      _ ← fail_when (longer (Summary c) 500) "summary";
      _ ← fail_when (negb (bool_decide (Language c = "")) && negb (MatchString bcp47TwoLetter (Language c))) "language";
      _ ← fail_when (negb (bool_decide (Sentiment c = "")) && negb (bool_decide (Sentiment c ∈ validSentiment))) "sentiment";
      embedding_ok c
  end.

Definition Validate_access (a : option AssetAccess) : result string unit :=
  match a with
  | None => Ok tt
  | Some a =>
      _ ← fail_when (bool_decide (Method a = "")) "asset_access.method: required";
      _ ← guard_err (bool_decide (Method a ∈ validAssetAccessMethod)) "asset_access.method: unknown";
      if bool_decide (Method a = "bearer_token")
      then fail_when (bool_decide (Token a = "")) "token required for method=bearer_token" else
      if bool_decide (Method a = "service_account") then
        _ ← fail_when (bool_decide (AccessProvider a = "")) "provider required for method=service_account";
        guard_err (bool_decide (AccessProvider a = "gcp") || bool_decide (AccessProvider a = "aws")) "asset_access.provider"
      else Ok tt
  end.

Definition Validate_text (a : TextAsset) : result string unit :=
  _ ← fail_when (bool_decide (TextContent a = "")) "text_asset.content: required";
  _ ← fail_when (longer (TextContent a) 100000) "text_asset.content: too long";
  fail_when (negb (HeadingLevel a =? 0)%Z && ((HeadingLevel a <? 1) || (6 <? HeadingLevel a))%Z) "text_asset.heading_level".

Section Messages.
Context `{RT : Runtime}.

Definition fetchable (field url : string) : result string unit :=
  match ValidateFetchableURL url with Ok _ => Ok tt | Err _ => Err field end.

Definition Validate_ref (r : ArtifactRef) : result string unit :=
  _ ← guard_err (bool_decide (RefType r ∈ validArtifactRefType)) "artifact_ref.type";
  _ ← fail_when (bool_decide (RefValue r = "")) "artifact_ref.value: required";
  if bool_decide (RefType r = "url") then
    match validateArtifactRefURL (RefValue r) with Ok _ => Ok tt | Err _ => Err "artifact_ref.value" end
  else Ok tt.

Definition Validate_image (a : ImageAsset) : result string unit :=
  _ ← fail_when (bool_decide (ImageURL a = "")) "image_asset.url: required";
  _ ← fetchable "image_asset.url" (ImageURL a);
  Validate_access (ImageAccess a).

Definition Validate_video (a : VideoAsset) : result string unit :=
  _ ← fail_when (bool_decide (VideoURL a = "")) "video_asset.url: required";
  _ ← fetchable "video_asset.url" (VideoURL a);
  _ ← (if bool_decide (ThumbnailURL a = "") then Ok tt else fetchable "video_asset.thumbnail_url" (ThumbnailURL a));
  _ ← fail_when (longer (VideoTranscript a) 200000) "video_asset.transcript";
  Validate_access (VideoAccess a).

Definition Validate_audio (a : AudioAsset) : result string unit :=
  _ ← fail_when (bool_decide (AudioURL a = "")) "audio_asset.url: required";
  _ ← fetchable "audio_asset.url" (AudioURL a);
  _ ← fail_when (longer (AudioTranscript a) 200000) "audio_asset.transcript";
  Validate_access (AudioAccess a).

Definition Validate_asset (a : Asset) : result string unit :=
  match a with
  | Text a => Validate_text a
  | Image a => Validate_image a
  | Video a => Validate_video a
  | Audio a => Validate_audio a
  | Unknown _ _ => Ok tt
  end.

Definition Validate_artifact (a : option Artifact) : result string unit :=
  match a with
  | None => Ok tt
  | Some a =>
      _ ← fail_when (bool_decide (ArtPropertyRID a = "")) "artifact.property_rid: required";
      _ ← fail_when (bool_decide (ArtifactID a = "")) "artifact.artifact_id: required";
      _ ← (if bool_decide (ArtURL a = "") then Ok tt else fetchable "artifact.url" (ArtURL a));
      _ ← fail_when (MaxAssets <? length (Assets a))%nat "artifact.assets";
      check_all Validate_asset (Assets a)
  end.

(** ** Requests *)

Definition ValidateContextRequest (req : ContextMatchRequest) : result string unit :=
  _ ← guard_err (bool_decide (cmType req = TypeContextMatchRequest)) "type";
  _ ← validateProtocolVersion (cmProtocolVersion req);
  _ ← validateEchoID "request_id" (cmRequestID req);
  _ ← fail_when (bool_decide (cmRequestID req = "")) "request_id is required";
  _ ← fail_when (bool_decide (cmPropertyRID req = "")) "property_rid is required";
  _ ← validateSafeID "property_rid" (cmPropertyRID req);
  _ ← validateEchoID "property_id" (cmPropertyID req);
  _ ← fail_when (bool_decide (cmPropertyType req = "")) "property_type is required";
  _ ← fail_when (bool_decide (cmPlacementID req = "")) "placement_id is required";
  _ ← validateEchoID "placement_id" (cmPlacementID req);
  _ ← fail_when (bool_decide (cmSellerAgentURL req = "")) "seller_agent_url is required";
  _ ← validateSellerAgentURL (cmSellerAgentURL req);
  _ ← fail_when (MaxPackagesPerRequest <? length (cmPackageIDs req))%nat "package_ids exceeds maximum";
  _ ← fail_when (MaxArtifactRefsPerRequest <? length (cmArtifactRefs req))%nat "artifact_refs exceeds maximum";
  _ ← check_all (validateEchoID "package_id") (cmPackageIDs req);
  _ ← Validate_signals (cmContextSignals req);
  _ ← check_all Validate_ref (cmArtifactRefs req);
  _ ← Validate_artifact (cmArtifact req);
  validateGeo (cmGeo req).

Definition hasNonEmptyString (m : anymap) (key : string) : bool :=
  match m !! key with Some (JStr s) => negb (bool_decide (s = "")) | _ => false end.

Definition validateConsent (consent : anymap) : result string unit :=
  match consent !! "gdpr" with
  | None => Ok tt
  | Some (JBool false) => Ok tt
  | Some (JBool true) =>
      guard_err (hasNonEmptyString consent "tcf_consent" || hasNonEmptyString consent "gpp") "refusing without consent"
  | Some _ => Err "consent.gdpr: must be boolean"
  end.

Fixpoint has_dup (seen l : list string) : bool :=
  match l with [] => false | c :: l' => bool_decide (c ∈ seen) || has_dup (c :: seen) l' end.

Definition validateAttestation (a : Attestation) : result string unit :=
  _ ← fail_when (bool_decide (Issuer a = ∅)) "attestation.issuer is required";
  _ ← fail_when (bool_decide (Scheme a = "")) "attestation.scheme is required";
  _ ← fail_when (bool_decide (Proof a = ∅)) "attestation.proof is required";
  _ ← fail_when (bool_decide (Claims a = [])) "attestation.claims must not be empty";
  _ ← fail_when (MaxAttestationClaims <? length (Claims a))%nat "attestation.claims exceeds maximum";
  fail_when (has_dup [] (Claims a)) "attestation.claims contains duplicate".

(** The loop over identities with the set of pairs seen. *)
Fixpoint check_identities (seen : list (string * string)) (l : list IdentityToken) : result string unit :=
  match l with
  | [] => Ok tt
  | i :: l' =>
      _ ← fail_when (bool_decide (UserToken i = "")) "user_token is required";
      _ ← fail_when (longer (UserToken i) (Z.of_nat MaxIDLength)) "user_token exceeds";
      _ ← fail_when (bool_decide (UIDType i = "")) "uid_type is required";
      _ ← guard_err (bool_decide (UIDType i ∈ validUIDTypes)) "uid_type is not recognized";
      _ ← fail_when (bool_decide ((UIDType i, UserToken i) ∈ seen)) "duplicates an earlier pair";
      _ ← match IdAttestation i with Some a => validateAttestation a | None => Ok tt end;
      check_identities ((UIDType i, UserToken i) :: seen) l'
  end.

Definition two_capitals (s : string) : bool :=
  match s with String a (String b "") => between 65 90 a && between 65 90 b | _ => false end.

Definition check_sealed (sc : SealedCredential) : result string unit :=
  _ ← fail_when (bool_decide (AudienceKID sc = "")) "audience_kid is required";
  _ ← fail_when (longer (AudienceKID sc) (Z.of_nat MaxAudienceKIDLength)) "audience_kid exceeds";
  _ ← fail_when (bool_decide (Payload sc = "")) "payload is required";
  fail_when (longer (Payload sc) MaxSealedCredentialPayload) "payload exceeds".

Definition with_country (req : IdentityMatchRequest) (c : string) : IdentityMatchRequest :=
  MkIdentityRequest (imType req) (imProtocolVersion req) (imRequestID req) (imSellerAgentURL req) (imIdentities req)
    (imConsent req) (imPackageIDs req) c (imSealedCredentials req).

(** It upper-cases the country in place: the request as the caller sees it afterwards. *)
Definition ValidateIdentityRequest (req : IdentityMatchRequest) : result string IdentityMatchRequest :=
  _ ← guard_err (bool_decide (imType req = TypeIdentityMatchRequest)) "type";
  _ ← validateProtocolVersion (imProtocolVersion req);
  _ ← fail_when (bool_decide (imRequestID req = "")) "request_id is required";
  _ ← validateEchoID "request_id" (imRequestID req);
  _ ← fail_when (bool_decide (imSellerAgentURL req = "")) "seller_agent_url is required";
  _ ← validateSellerAgentURL (imSellerAgentURL req);
  _ ← fail_when (bool_decide (imIdentities req = [])) "identities must not be empty";
  _ ← fail_when (MaxIdentitiesPerRequest <? length (imIdentities req))%nat "identities exceeds maximum";
  _ ← check_identities [] (imIdentities req);
  let country := if bool_decide (imCountry req = "") then "" else ToUpper (imCountry req) in
  _ ← fail_when (negb (bool_decide (imCountry req = "")) && negb (two_capitals country)) "country";
  _ ← fail_when (MaxPackagesPerRequest <? length (imPackageIDs req))%nat "package_ids exceeds maximum";
  _ ← check_all (validateEchoID "package_id") (imPackageIDs req);
  _ ← validateConsent (imConsent req);
  _ ← fail_when (MaxSealedCredentials <? length (imSealedCredentials req))%nat "sealed_credentials exceeds maximum";
  _ ← check_all check_sealed (imSealedCredentials req);
  Ok (with_country req country).

End Messages.

(** ** Removing credentials *)

Definition is_signed (a : option AssetAccess) : bool :=
  match a with Some a => bool_decide (Method a = "signed_url") | None => false end.

Definition rawAssetAccessIsSignedURL (v : option json) : bool :=
  match v with
  | Some (JObj l) => match obj_get "method" l with Some (JStr s) => bool_decide (s = "signed_url") | _ => false end
  | _ => false
  end.

Definition stripAccessFromRawAsset (raw : anymap) : anymap :=
  let signed := rawAssetAccessIsSignedURL (raw !! "access") in
  let m := delete "access" raw in if signed then delete "url" m else m.

Definition strip_asset (a : Asset) : Asset :=
  match a with
  | Text _ => a
  | Image i => Image (MkImage (if is_signed (ImageAccess i) then "" else ImageURL i) None (AltText i))
  | Video v => Video (MkVideo (if is_signed (VideoAccess v) then "" else VideoURL v) None
                        (VideoTranscript v) (ThumbnailURL v))
  | Audio u => Audio (MkAudio (if is_signed (AudioAccess u) then "" else AudioURL u) None (AudioTranscript u))
  | Unknown t raw => Unknown t (stripAccessFromRawAsset raw)
  end.

Definition StripAccess (a : option Artifact) : option Artifact :=
  (λ a, MkArtifact (ArtPropertyRID a) (ArtifactID a) (ArtURL a) (map strip_asset (Assets a))) <$> a.

(** ** What validation promises *)

Definition no_control (s : string) : bool := all_bytes (λ c, negb ((code c <? 32)%Z || (code c =? 127)%Z)) s.

Lemma utf8_len_tail a l n : utf8_len (a :: l) = S n →
  (128 ≤ code a)%Z → Forall (λ c, 128 ≤ code c)%Z (take n l).
Proof.
  intros H Ha. cbn [utf8_len] in H. destruct (Z.ltb_spec (code a) 128); [lia|].
  destruct l as [|b l]; [done|].
  assert (Hc : ∀ c, cont c = true → (128 ≤ code c)%Z).
  { intros c. unfold cont, between. rewrite andb_true_iff, !Z.leb_le. lia. }
  destruct (((194 <=? code a) && (code a <=? 223))%Z && cont b) eqn:E2.
  { apply andb_true_iff in E2 as [_ E2]. injection H as <-. cbn. auto. }
  destruct l as [|c l]; [done|].
  match type of H with (if ?x then _ else _) = _ => destruct x eqn:E3 end.
  { injection H as <-. rewrite !andb_true_iff, !Z.leb_le in E3. destruct E3 as (((_ & Hb) & _) & ?).
    cbn. repeat constructor; auto. repeat case_match; lia. }
  destruct l as [|d l]; [done|].
  match type of H with (if ?x then _ else _) = _ => destruct x eqn:E4 end; [|done].
  injection H as <-. rewrite !andb_true_iff, !Z.leb_le in E4. destruct E4 as ((((_ & Hb) & _) & ?) & ?).
  cbn. repeat constructor; auto. repeat case_match; lia.
Qed.

(** Every ASCII byte is a rune of the string. *)
Lemma ascii_rune c n : ∀ l, (length l ≤ n)%nat → c ∈ l → (code c < 128)%Z → code c ∈ runes_from 0 l.
Proof.
  induction n as [|n IH]; intros l Hl Hc Hlt; [destruct l; [by apply not_elem_of_nil in Hc|cbn in Hl; lia]|].
  destruct l as [|a l]; [by apply not_elem_of_nil in Hc|]. cbn [length] in Hl.
  cbn [runes_from]. unfold decode_rune. destruct (utf8_len (a :: l)) as [|m] eqn:E.
  - apply elem_of_cons in Hc as [<-|Hc].
    + cbn [utf8_len] in E. destruct (Z.ltb_spec (code c) 128); [done|lia].
    + right. cbn. apply IH; [lia|done..].
  - destruct (decide (code a < 128)%Z) as [Ha|Ha].
    + assert (m = 0) as ->.
      { cbn [utf8_len] in E. destruct (Z.ltb_spec (code a) 128); [congruence|lia]. }
      apply elem_of_cons in Hc as [->|Hc]; [by left|]. right. cbn. apply IH; [lia|done..].
    + right. pose proof (utf8_len_tail a l m E ltac:(lia)) as Ht. cbn. rewrite Nat.sub_0_r.
      apply elem_of_cons in Hc as [->|Hc]; [lia|]. rewrite <- (take_drop m l) in Hc.
      apply elem_of_app in Hc as [Hc|Hc]; [rewrite Forall_forall in Ht; specialize (Ht _ Hc); lia|].
      assert (Hm : runes_from m l = runes_from 0 (drop m l)).
      { clear. revert m. induction l as [|x l IH]; intros [|m]; try done. cbn. apply IH. }
      rewrite Hm. apply IH; [rewrite length_drop; lia|done..].
Qed.

Lemma no_control_runes s : existsb control_rune (runes s) = false → no_control s = true.
Proof.
  intros H. unfold no_control. apply Bool.not_false_iff_true. intros Hf.
  assert (∃ c, c ∈ explode s ∧ control_rune (code c) = true) as (c & Hc & Hr).
  { clear H. induction s as [|c s IH]; [done|]. cbn in Hf. apply andb_false_iff in Hf as [Hf|Hf].
    - exists c. split; [by left|]. by apply negb_false_iff in Hf.
    - destruct (IH Hf) as (d & ? & ?). exists d. split; [by right|done]. }
  assert (existsb control_rune (runes s) = true); [|congruence].
  apply existsb_exists. exists (code c). split; [|done]. apply list_elem_of_In.
  apply (ascii_rune c (length (explode s))); [done..|]. unfold control_rune in Hr.
  rewrite orb_true_iff, Z.ltb_lt, Z.eqb_eq in Hr. lia.
Qed.

Lemma no_control_nul s c : no_control s = true → (code c < 32)%Z → contains_byte s c = false.
Proof.
  intros H Hc. refine (all_bytes_no _ s c _ H). cbn. by rewrite (proj2 (Z.ltb_lt _ _) Hc).
Qed.

Lemma fail_when_Ok b e u : fail_when b e = Ok u ↔ b = false.
Proof. destruct b, u; cbn; naive_solver. Qed.

Lemma check_all_Ok {A} (f : A → result string unit) l : check_all f l = Ok tt ↔ Forall (λ x, f x = Ok tt) l.
Proof.
  induction l as [|x l IH]; cbn [check_all]; [by rewrite Forall_nil|]. rewrite Forall_cons, <- IH. split.
  - intros ([] & ? & ?)%bind_Ok. done.
  - intros [E ?]. apply bind_Ok. by exists tt.
Qed.

Lemma echo_no_control f v : validateEchoID f v = Ok tt → no_control v = true.
Proof. unfold validateEchoID. destruct (longer _ _); [done|]. destruct (existsb _ _) eqn:E; [done|]. intros _. by apply no_control_runes. Qed.

Lemma safe_no_control f v : validateSafeID f v = Ok tt → no_control v = true.
Proof.
  unfold validateSafeID. destruct (longer _ _); [done|]. destruct (_ || _ || _); [done|].
  destruct (existsb _ _) eqn:E; [done|]. intros _. by apply no_control_runes.
Qed.

Lemma seller_no_control v : validateSellerAgentURL v = Ok tt → no_control v = true.
Proof. unfold validateSellerAgentURL. destruct (longer _ _); [done|]. destruct (existsb _ _) eqn:E; [done|]. intros _. by apply no_control_runes. Qed.

Ltac steps H :=
  repeat lazymatch type of H with
  | mbind _ _ = Ok _ => let u := fresh in let K := fresh in apply bind_Ok in H as (u & K & H); try destruct u
  end.

Section Accepted.
Context `{RT : Runtime}.

(** The identifiers of an accepted context request hold no control byte. *)
Lemma context_request_clean req : ValidateContextRequest req = Ok tt →
  no_control (cmPropertyRID req) = true ∧ no_control (cmPlacementID req) = true ∧
  no_control (cmSellerAgentURL req) = true ∧ Forall (λ p, no_control p = true) (cmPackageIDs req).
Proof.
  unfold ValidateContextRequest. intros H. steps H.
  split_and!; [by eapply safe_no_control|by eapply echo_no_control|by eapply seller_no_control|].
  match goal with K : check_all (validateEchoID _) _ = _ |- _ => apply check_all_Ok in K; apply (Forall_impl _ _ _ K) end.
  intros p. apply echo_no_control.
Qed.

(** Its country, when it has one, is two capitals. *)
Lemma context_country_clean req : ValidateContextRequest req = Ok tt →
  ∀ v, cmGeo req !! "country" = Some v → ∃ a b, v = JStr (String a (String b "")) ∧
    between 65 90 a = true ∧ between 65 90 b = true.
Proof.
  unfold ValidateContextRequest. intros H v Hv. steps H. unfold validateGeo in H. steps H.
  match goal with K : when_present _ "country" _ = _ |- _ => unfold when_present in K; rewrite Hv in K end.
  unfold validate_pattern in *. destruct v as [| | |s| |]; try done.
  match goal with K : guard_err _ _ = _ |- _ => apply guard_err_Ok, MatchString_matches in K; rename K into M end.
  repeat match goal with
  | M : matches (geoCountryPattern) _ |- _ => unfold geoCountryPattern in M; cbn in M
  | M : matches (RSeq _ _) _ |- _ => inversion M; clear M; subst
  | M : matches (RClass _) _ |- _ => inversion M; clear M; subst
  | M : matches upper_class _ |- _ => unfold upper_class in M
  | M : matches REps _ |- _ => inversion M; clear M; subst
  end. cbn. eauto 8.
Qed.

(** ** Stripping and validation *)

Definition with_artifact (req : ContextMatchRequest) (a : option Artifact) : ContextMatchRequest :=
  MkContextRequest (cmType req) (cmProtocolVersion req) (cmRequestID req) (cmPropertyRID req) (cmPropertyID req)
    (cmPropertyType req) (cmPlacementID req) (cmSellerAgentURL req) a (cmArtifactRefs req) (cmGeo req)
    (cmContextSignals req) (cmPackageIDs req).

(** An asset of a known type that is fetched under a signed URL. *)
Definition signed_asset (a : Asset) : bool :=
  match a with
  | Image i => is_signed (ImageAccess i)
  | Video v => is_signed (VideoAccess v)
  | Audio u => is_signed (AudioAccess u)
  | Text _ | Unknown _ _ => false
  end.

Definition signed_assets (a : option Artifact) : bool :=
  match a with Some a => existsb signed_asset (Assets a) | None => false end.

Lemma strip_asset_valid x : Validate_asset x = Ok tt →
  Validate_asset (strip_asset x) = Ok tt ↔ signed_asset x = false.
Proof.
  destruct x as [a|i|v|u|t raw]; cbn [Validate_asset strip_asset signed_asset]; try done.
  - unfold Validate_image. cbn [ImageURL ImageAccess]. intros H. steps H.
    destruct (is_signed (ImageAccess i)); [by split|]. split; [done|intros _].
    rewrite (proj2 (bind_Ok _ _ tt)); [done|]. eexists; split; [eassumption|].
    apply bind_Ok. eexists; split; [eassumption|done].
  - unfold Validate_video. cbn [VideoURL VideoAccess ThumbnailURL VideoTranscript]. intros H. steps H.
    destruct (is_signed (VideoAccess v)); [by split|]. split; [done|intros _].
    do 4 (apply bind_Ok; eexists; split; [eassumption|]). done.
  - unfold Validate_audio. cbn [AudioURL AudioAccess AudioTranscript]. intros H. steps H.
    destruct (is_signed (AudioAccess u)); [by split|]. split; [done|intros _].
    do 3 (apply bind_Ok; eexists; split; [eassumption|]). done.
Qed.

Lemma strip_all_valid l : Forall (λ x, Validate_asset x = Ok tt) l →
  check_all Validate_asset (map strip_asset l) = Ok tt ↔ existsb signed_asset l = false.
Proof.
  intros H. rewrite check_all_Ok, Forall_map. induction H as [|x l Hx Hl IH]; cbn; [by rewrite Forall_nil|].
  rewrite Forall_cons, IH, orb_false_iff. pose proof (strip_asset_valid x Hx). tauto.
Qed.

Lemma strip_artifact_valid a : Validate_artifact a = Ok tt →
  Validate_artifact (StripAccess a) = Ok tt ↔ signed_assets a = false.
Proof.
  destruct a as [a|]; [|done]. cbn [Validate_artifact StripAccess fmap option_fmap option_map signed_assets].
  cbn [ArtPropertyRID ArtifactID ArtURL Assets]. intros H. steps H. rewrite length_map. apply check_all_Ok in H.
  trans (check_all Validate_asset (map strip_asset (Assets a)) = Ok tt).
  - split; [intros K; by steps K|]. intros K. do 4 (apply bind_Ok; eexists; split; [eassumption|]). done.
  - by apply strip_all_valid.
Qed.

(** the router accepts a request, strips its artifact and forwards it; the entry check of
    the receiving provider, which is the same, accepts it exactly when no asset of a known type
    was fetched under a signed URL: otherwise the emptied [url] is refused as missing. *)
Theorem stripped_request_valid req : ValidateContextRequest req = Ok tt →
  ValidateContextRequest (with_artifact req (StripAccess (cmArtifact req))) = Ok tt ↔
  signed_assets (cmArtifact req) = false.
Proof.
  intros H. unfold ValidateContextRequest in *. cbn [with_artifact cmType cmProtocolVersion cmRequestID cmPropertyRID
    cmPropertyID cmPropertyType cmPlacementID cmSellerAgentURL cmArtifact cmArtifactRefs cmGeo cmContextSignals cmPackageIDs].
  steps H. rewrite <- strip_artifact_valid by done.
  split; [intros K; by steps K|]. intros K.
  do 18 (apply bind_Ok; eexists; split; [eassumption|]). done.
Qed.

(** ** Identity requests *)

Definition token_ok (i : IdentityToken) : Prop :=
  UserToken i ≠ "" ∧ (len (UserToken i) ≤ MaxIDLength)%nat ∧ UIDType i ∈ validUIDTypes.

Lemma check_identities_Ok l : ∀ seen, check_identities seen l = Ok tt →
  Forall token_ok l ∧ NoDup (map (λ i, (UIDType i, UserToken i)) l) ∧
  Forall (λ i, (UIDType i, UserToken i) ∉ seen) l.
Proof.
  induction l as [|i l IH]; intros seen; cbn [check_identities]; [intros _; repeat constructor|].
  intros H. steps H. apply IH in H as (Ht & Hn & Hs).
  repeat match goal with
  | K : fail_when _ _ = Ok tt |- _ => apply fail_when_Ok in K
  | K : guard_err _ _ = Ok tt |- _ => apply guard_err_Ok in K
  | K : bool_decide _ = false |- _ => apply bool_decide_eq_false in K
  | K : bool_decide _ = true |- _ => apply bool_decide_eq_true in K
  end.
  rewrite Forall_forall in Hs. split_and!.
  - constructor; [|done]. split_and!; [done| |done].
    unfold longer in *. match goal with K : (_ <? _)%Z = false |- _ => apply Z.ltb_ge in K; lia end.
  - cbn. constructor; [|done]. intros (j & Ej & Hj)%list_elem_of_fmap. apply (Hs j Hj). rewrite <- Ej. by left.
  - constructor; [done|]. rewrite Forall_forall. intros j Hj ?. apply (Hs j Hj). by right.
Qed.

(** an accepted identity request carries one to three tokens of recognized types, no pair of
    type and token twice, at most eight sealed credentials, a country of two capitals or none,
    and, when it declares the GDPR to apply, a consent string; the token values are unchanged. *)
Theorem identity_request_bounds req req' : ValidateIdentityRequest req = Ok req' →
  imIdentities req' = imIdentities req ∧ (1 ≤ length (imIdentities req') ≤ 3)%nat ∧ Forall token_ok (imIdentities req') ∧
  NoDup (map (λ i, (UIDType i, UserToken i)) (imIdentities req')) ∧
  (length (imSealedCredentials req') ≤ 8)%nat ∧
  (imCountry req' = "" ∨ two_capitals (imCountry req') = true) ∧
  (imConsent req' !! "gdpr" = Some (JBool true) →
   hasNonEmptyString (imConsent req') "tcf_consent" = true ∨ hasNonEmptyString (imConsent req') "gpp" = true).
Proof.
  unfold ValidateIdentityRequest. intros H. steps H. injection H as <-.
  cbn [with_country imIdentities imSealedCredentials imConsent imCountry].
  repeat match goal with K : fail_when _ _ = Ok tt |- _ => apply fail_when_Ok in K end.
  match goal with K : check_identities _ _ = _ |- _ => apply check_identities_Ok in K as (Ht & Hn & _) end.
  repeat match goal with K : (_ <? _)%nat = false |- _ => apply Nat.ltb_ge in K end.
  unfold MaxIdentitiesPerRequest, MaxSealedCredentials in *.
  split_and!; try done.
  - match goal with K : bool_decide (imIdentities req = []) = false |- _ => apply bool_decide_eq_false in K end.
    by destruct (imIdentities req); [|cbn; lia].
  - case_bool_decide; [by left|]. right.
    match goal with K : negb _ && negb (two_capitals _) = false |- _ => cbn in K; by apply negb_false_iff in K end.
  - intros Hg. match goal with K : validateConsent _ = _ |- _ => unfold validateConsent in K; rewrite Hg in K;
      by apply guard_err_Ok, orb_true_iff in K end.
Qed.

End Accepted.

(** ** Concrete requests *)

Definition sample_image (a : option AssetAccess) : Asset := Image (MkImage "https://cdn.example/i.png" a "").

Definition sample_context (seller : string) (assets : list Asset) : ContextMatchRequest :=
  MkContextRequest TypeContextMatchRequest "1.0" "r-1" "rid-1" "" "website" "home/top" seller
    (Some (MkArtifact "rid-1" "art-1" "" assets)) [] {[ "country" := JStr "US" ]} None ["p1"; "p2"].

Definition sample_identity (ids : list IdentityToken) : IdentityMatchRequest :=
  MkIdentityRequest TypeIdentityMatchRequest "1.0" "r-2" "https://seller.example" ids
    {[ "gdpr" := JBool true; "gpp" := JStr "DBA" ]} ["p1"; "p2"] "us"
    [MkSealed "k1" "c1"; MkSealed "k2" "c2"].

(** With a signed image the forwarded request is refused, with a bearer token it is not. *)
Lemma stripped_request_valid_witness :
  let _ := ascii_runtime in
  let signed := sample_context "https://seller.example" [sample_image (Some (MkAccess "signed_url" "" "" ∅))] in
  let bearer := sample_context "https://seller.example" [sample_image (Some (MkAccess "bearer_token" "t" "" ∅))] in
  ValidateContextRequest (with_artifact signed (StripAccess (cmArtifact signed))) ≠ Ok tt ∧
  ValidateContextRequest (with_artifact bearer (StripAccess (cmArtifact bearer))) = Ok tt.
Proof.
  intros RT signed bearer. split.
  - rewrite (stripped_request_valid signed) by (by vm_compute). by vm_compute.
  - apply (stripped_request_valid bearer); by vm_compute.
Defined.

Lemma identity_request_bounds_witness :
  let _ := ascii_runtime in
  ∃ req', ValidateIdentityRequest (sample_identity [MkToken "t1" "uid2" None; MkToken "t2" "id5" None]) = Ok req' ∧
    imCountry req' = "US" ∧ length (imIdentities req') = 2 ∧ (length (imSealedCredentials req') ≤ 8)%nat.
Proof.
  intros RT. eexists. split; [by vm_compute|]. split; [done|]. split; [done|].
  refine (proj1 (proj2 (proj2 (proj2 (proj2 (identity_request_bounds
    (sample_identity [MkToken "t1" "uid2" None; MkToken "t2" "id5" None]) _ _)))))). by vm_compute.
Defined.
