(* ===== verification/Provider.v ===== *)
(** * Provider: registered providers and who is asked

    [router/config.go], [providerset.go], [discovery.go], [drain.go] and the address check
    of [safedial.go]: what a registration must
    look like, which endpoints are dialed, the set of providers and how polls and drains
    change it. *)
From stdpp Require Import gmap strings.
From S2P Require Import Prelude GoStrings Unicode Regex StrictJson NetUrl Netip SafeFetch TmpTypes TmpUrl.
From stdpp Require Import options.

(** ** Registrations *)

Record ProviderConfig := MkProvider {
  ID : string;
  Endpoint : string;
  Status : string;
  ContextMatch : bool;
  IdentityMatch : bool;
  PropertyIDs : list string;
  PropertyRIDs : list string;
  ExcludePropertyIDs : list string;
  PropertyTypes : list string;
  PackageIDs : list string;
  Countries : list string;
  UIDTypes : list string;
  TmpxSlots : list string;
  AudienceKIDs : list string;
  Timeout : Duration;
  Priority : Z;
}.

Definition ProviderStatusActive : string := "active".
Definition ProviderStatusInactive : string := "inactive".
Definition ProviderStatusDraining : string := "draining".

Definition EffectiveStatus (p : ProviderConfig) : string :=
  if bool_decide (Status p = "") then ProviderStatusActive else Status p.

Definition with_status (p : ProviderConfig) (s : string) : ProviderConfig :=
  MkProvider (ID p) (Endpoint p) s (ContextMatch p) (IdentityMatch p) (PropertyIDs p) (PropertyRIDs p)
    (ExcludePropertyIDs p) (PropertyTypes p) (PackageIDs p) (Countries p) (UIDTypes p) (TmpxSlots p)
    (AudienceKIDs p) (Timeout p) (Priority p).

Definition word_class : re := RClass (λ c, is_alnum c || beq c "_").
Definition providerIDPattern : re := RPlus word_class.
Definition tmpxSlotIDPattern : re :=
  RSeq (RClass (λ c, between 97 122 c || between 65 90 c)) (RStar word_class).

Definition providerIDMaxLen : nat := 64.
Definition providerTimeoutMinMs : Z := 5%Z.
Definition providerTimeoutMaxMs : Z := 5000%Z.
Definition tmpxSlotsMaxItems : nat := 2.
Definition Millisecond : Duration := 1000000%Z.

(** The loop over the slots with the set of those seen. *)
Fixpoint check_slots (seen slots : list string) : result string unit :=
  match slots with
  | [] => Ok tt
  | s :: slots' =>
      if negb (MatchString tmpxSlotIDPattern s) then Err "tmpx_slots entry must match" else
      if bool_decide (s ∈ seen) then Err "tmpx_slots entry duplicated" else check_slots (s :: seen) slots'
  end.

Definition validateTmpxSlots (slots : list string) : result string unit :=
  if (tmpxSlotsMaxItems <? length slots)%nat then Err "tmpx_slots: too many" else check_slots [] slots.

Definition ValidateProviderConfig (p : ProviderConfig) (latencyBudget : Duration) : result string unit :=
  if bool_decide (ID p = "") then Err "provider ID must not be empty" else
  if (providerIDMaxLen <? len (ID p))%nat then Err "ID exceeds maximum length" else
  if negb (MatchString providerIDPattern (ID p)) then Err "ID must match" else
  if negb (ContextMatch p) && negb (IdentityMatch p) then Err "at least one of context_match or identity_match" else
  if IdentityMatch p && bool_decide (Countries p = []) then Err "countries must be non-empty" else
  if IdentityMatch p && bool_decide (UIDTypes p = []) then Err "uid_types must be non-empty" else
  if (Priority p <? 0)%Z then Err "priority must be >= 0" else
  let ms := Z.quot (Timeout p) Millisecond in
  if negb (Timeout p =? 0)%Z && ((ms <? providerTimeoutMinMs) || (providerTimeoutMaxMs <? ms))%Z
  then Err "timeout_ms outside schema range" else
  if ((0 <? latencyBudget) && (0 <? Timeout p) && (latencyBudget <? Timeout p))%Z
  then Err "timeout exceeds latency budget" else
  validateTmpxSlots (TmpxSlots p).

(** The wire form that discovery reads. *)
Record ProviderRegistration := MkRegistration {
  regProviderID : string;
  regEndpoint : string;
  regContextMatch : bool;
  regIdentityMatch : bool;
  regCountries : list string;
  regUIDTypes : list string;
  regProperties : list string;
  regTimeoutMs : Z;
  regPriority : Z;
  regTmpxSlots : list string;
  regStatus : string;
}.

Definition ProviderConfigFromRegistration (r : ProviderRegistration) : ProviderConfig :=
  MkProvider (regProviderID r) (regEndpoint r) (regStatus r) (regContextMatch r) (regIdentityMatch r) []
    (regProperties r) [] [] [] (regCountries r) (regUIDTypes r) (regTmpxSlots r) []
    (wrap64 (regTimeoutMs r * Millisecond)) 0.

(** ** Endpoints *)

(** What both the check of a registered endpoint and the dialer refuse. *)
Definition local_or_private (ip : IP) : bool :=
  IsLoopback ip || IsPrivate ip || IsLinkLocalUnicast ip || IsLinkLocalMulticast ip.

Section Endpoint.
Context `{RT : Runtime}.

Definition ValidateProviderEndpoint (endpoint : string) : result string unit :=
  u ← opt_err "invalid endpoint URL" (ParseURL endpoint);
  if negb (bool_decide (URLScheme u = "http")) && negb (bool_decide (URLScheme u = "https"))
  then Err "endpoint must use http or https scheme" else
  if bool_decide (URLHost u = "") then Err "endpoint must be an absolute URL with scheme and host" else
  let host := ToLower (Hostname u) in
  if bool_decide (host = "localhost") then Err "endpoint must not target localhost" else
  match ParseIP host with
  | None => Ok tt
  | Some ip => if local_or_private ip then Err "endpoint must not target local/private address" else Ok tt
  end.

End Endpoint.

(** [safeDialContext]: the address dialed, from the answers of the resolver. *)
Definition safeDialContext (ips : list IP) : result string IP :=
  match ips with
  | [] => Err "no addresses found"
  | ip :: _ => if existsb local_or_private ips then Err "resolved address is not allowed" else Ok ip
  end.

(** ** The provider set *)

Record ProviderSet := MkSet { All : list ProviderConfig; Active : list ProviderConfig }.

Definition is_active (p : ProviderConfig) : bool := bool_decide (EffectiveStatus p = ProviderStatusActive).

Definition buildSnapshot (all : list ProviderConfig) : ProviderSet := MkSet all (filter (λ p, is_active p = true) all).

Definition NewProviderSet (initial : list ProviderConfig) : ProviderSet := buildSnapshot initial.

Definition Swap (ps : ProviderSet) (next : list ProviderConfig) : ProviderSet := buildSnapshot next.

(** The first provider of that name gets the status. *)
Fixpoint set_first (id status : string) (l : list ProviderConfig) : option (list ProviderConfig) :=
  match l with
  | [] => None
  | p :: l' => if bool_decide (ID p = id) then Some (with_status p status :: l')
               else cons p <$> set_first id status l'
  end.

Definition SetStatus (ps : ProviderSet) (id status : string) : bool * ProviderSet :=
  match set_first id status (All ps) with
  | Some next => (true, buildSnapshot next)
  | None => (false, ps)
  end.

Definition GetProvider (ps : ProviderSet) (id : string) : option ProviderConfig :=
  snd <$> list_find (λ p, ID p = id) (All ps).

(** ** Discovery *)

Definition maxDiscoveredProviders : nat := 500.

Section Discovery.
Context `{RT : Runtime}.
Variable inflight : string → Z.
Variable latencyBudget : Duration.

Definition status_or (p : ProviderConfig) (s : string) : ProviderConfig :=
  if bool_decide (Status p = "") then with_status p s else p.

(** The last provider of that name: a Go map filled in order. *)
Definition by_id (l : list ProviderConfig) (id : string) : option ProviderConfig :=
  snd <$> list_find (λ p, ID p = id) (reverse l).

Definition reconcile_incoming (current : list ProviderConfig) (inc : ProviderConfig) : ProviderConfig :=
  match by_id current (ID inc) with
  | Some cur => status_or inc (Status cur)
  | None => status_or inc ProviderStatusActive
  end.

Definition reconcile_removed (incoming : list ProviderConfig) (cur : ProviderConfig) : option ProviderConfig :=
  if bool_decide (ID cur ∈ map ID incoming) then None else
  if (0 <? inflight (ID cur))%Z then Some (with_status cur ProviderStatusDraining) else None.

Definition reconcile (current incoming : list ProviderConfig) : list ProviderConfig :=
  map (reconcile_incoming current) incoming ++ omap (reconcile_removed incoming) current.

Definition valid_registration (p : ProviderConfig) : bool :=
  is_ok (ValidateProviderEndpoint (Endpoint p)) && is_ok (ValidateProviderConfig p latencyBudget).

(** A poll from its decoded answer on: [None] when the set is left as it is. *)
Definition poll (ps : ProviderSet) (wire : list ProviderRegistration) : ProviderSet :=
  let valid := filter (λ p, valid_registration p = true) (map ProviderConfigFromRegistration wire) in
  let valid := take maxDiscoveredProviders valid in
  if bool_decide (valid = []) && negb (bool_decide (All ps = [])) then ps
  else Swap ps (reconcile (All ps) valid).

End Discovery.

(** ** Draining *)

Inductive drain_result := Drained | DrainNotFound | DrainCancelled | DrainWaiting.

(** The loop on what it observes each round: the in-flight count, and whether the context is
    done afterwards.  It waits on when the observations end. *)
Fixpoint drain_loop (ps : ProviderSet) (id : string) (rounds : list (Z * bool)) : drain_result * ProviderSet :=
  match rounds with
  | [] => (DrainWaiting, ps)
  | (n, cancelled) :: rounds' =>
      if (n =? 0)%Z then (Drained, (SetStatus ps id ProviderStatusInactive).2) else
      if cancelled : bool then (DrainCancelled, (SetStatus ps id ProviderStatusInactive).2)
      else drain_loop ps id rounds'
  end.

Definition DrainProvider (ps : ProviderSet) (health : bool) (id : string) (rounds : list (Z * bool)) :
    drain_result * ProviderSet :=
  let '(found, ps) := SetStatus ps id ProviderStatusDraining in
  if negb found then (DrainNotFound, ps) else
  if negb health then (Drained, (SetStatus ps id ProviderStatusInactive).2) else drain_loop ps id rounds.

(** ** Registrations that pass *)

Lemma plus_class_bytes (P : ascii → bool) s : matches (RStar (RClass P)) s → all_bytes P s = true.
Proof.
  intros H. remember (RStar (RClass P)) as r. induction H; try done; simplify_eq.
  rewrite all_bytes_app. apply andb_true_iff. split; [|by apply IHmatches2].
  inversion H; subst. cbn. by rewrite H2.
Qed.

(** A valid identifier is between 1 and 64 letters, digits and underscores. *)
Lemma valid_provider_id p budget : ValidateProviderConfig p budget = Ok tt →
  ID p ≠ "" ∧ (len (ID p) ≤ 64)%nat ∧ all_bytes (λ c, is_alnum c || beq c "_") (ID p) = true.
Proof.
  unfold ValidateProviderConfig. case_bool_decide; [done|]. destruct (Nat.ltb_spec providerIDMaxLen (len (ID p))); [done|].
  destruct (negb (MatchString _ _)) eqn:E; [done|]. intros _. split_and!; [done|by unfold providerIDMaxLen in *|].
  apply negb_false_iff, MatchString_matches in E. inversion E as [| |a b s t Ha Hb| | | |]; subst.
  rewrite all_bytes_app, (plus_class_bytes _ t Hb), andb_true_r.
  unfold word_class in Ha. inversion Ha as [|Q c Hc E1 E2| | | | |]; subst. cbn. by rewrite Hc.
Qed.

(** ** The set under polls and drains *)

Definition set_wf (ps : ProviderSet) : Prop := ps = buildSnapshot (All ps).

Lemma NewProviderSet_wf l : set_wf (NewProviderSet l).
Proof. done. Qed.
Lemma SetStatus_wf ps id s : set_wf ps → set_wf (SetStatus ps id s).2.
Proof. unfold SetStatus. by destruct (set_first _ _ _). Qed.
Lemma drain_loop_wf rounds ps id : set_wf ps → set_wf (drain_loop ps id rounds).2.
Proof.
  induction rounds as [|[n b] rounds IH]; cbn; [done|]. intros. destruct (n =? 0)%Z; [by apply SetStatus_wf|].
  destruct b; [by apply SetStatus_wf|auto].
Qed.
Create HintDb router.
#[export] Hint Resolve NewProviderSet_wf SetStatus_wf drain_loop_wf : router.

Lemma active_spec ps p : set_wf ps → p ∈ Active ps ↔ p ∈ All ps ∧ EffectiveStatus p = ProviderStatusActive.
Proof.
  intros ->. cbn. rewrite list_elem_of_filter. unfold is_active. rewrite bool_decide_eq_true. tauto.
Qed.

Lemma set_first_Some id s l l' : set_first id s l = Some l' →
  ∃ l1 p l2, l = l1 ++ p :: l2 ∧ l' = l1 ++ with_status p s :: l2 ∧ ID p = id ∧ Forall (λ q, ID q ≠ id) l1.
Proof.
  revert l'. induction l as [|p l IH]; intros l'; cbn; [done|]. case_bool_decide as E.
  - intros [= <-]. by exists [], p, l.
  - intros (k & Hk & ->)%fmap_Some. destruct (IH k Hk) as (l1 & q & l2 & -> & -> & ? & ?).
    exists (p :: l1), q, l2. split_and!; [done..|by constructor].
Qed.

Section PollProps.
Context `{RT : Runtime}.
Variable inflight : string → Z.
Variable latencyBudget : Duration.

Lemma status_or_ID p s : ID (status_or p s) = ID p.
Proof. unfold status_or. by case_bool_decide. Qed.

Lemma poll_wf ps wire : set_wf ps → set_wf (poll inflight latencyBudget ps wire).
Proof. unfold poll. by destruct (_ && _). Qed.

(** Where a provider [p] of the set [ps'] that a poll makes of [ps] comes from: a registration of the answer
    that passed both checks, with its own status or, when it names none, the one held before; or
    the old set, draining because calls to it are in flight. *)
Definition poll_origin (ps ps' : ProviderSet) (wire : list ProviderRegistration) (p : ProviderConfig) : Prop :=
  (∃ r q, r ∈ wire ∧ q = ProviderConfigFromRegistration r ∧ valid_registration latencyBudget q = true ∧
     (p = q ∨ (Status q = "" ∧ ∃ s, p = with_status q s ∧
        (s = ProviderStatusActive ∨ ∃ cur, cur ∈ All ps ∧ ID cur = ID q ∧ s = Status cur)))) ∨
  (∃ cur, cur ∈ All ps ∧ (0 < inflight (ID cur))%Z ∧ p = with_status cur ProviderStatusDraining ∧ p ∉ Active ps').

(** A poll either leaves the set as it was or installs one in which every provider is a
    registration of the answer that passed both checks, with its own status or, when it names
    none, the one held before, or a provider of the old set that is draining because calls to
    it are in flight; so only providers of the answer can be asked afterwards. *)
Theorem poll_sound ps wire p : set_wf ps →
  let ps' := poll inflight latencyBudget ps wire in
  p ∈ All ps' → ps' = ps ∨ poll_origin ps ps' wire p.
Proof.
  intros Hwf ps' Hp. subst ps'. unfold poll_origin, poll in *.
  set (valid := take _ _) in *. destruct (_ && _); [by left|]. right. cbn in Hp.
  unfold reconcile in Hp. apply elem_of_app in Hp as [Hp|Hp].
  - left. apply list_elem_of_fmap in Hp as (q & -> & Hq).
    assert (Hv : q ∈ filter (λ p, valid_registration latencyBudget p = true) (map ProviderConfigFromRegistration wire)).
    { unfold valid in Hq. rewrite <- (take_drop maxDiscoveredProviders). apply elem_of_app. by left. }
    apply list_elem_of_filter in Hv as [Hv Hw]. apply list_elem_of_fmap in Hw as (r & Hr & Hw).
    exists r, q. split_and!; [done..|]. unfold reconcile_incoming, status_or.
    destruct (decide (Status q = "")) as [E|E].
    + right. split; [done|]. rewrite !(bool_decide_eq_true_2 (Status q = "")) by done.
      destruct (by_id (All ps) (ID q)) as [cur|] eqn:Eb; [|eauto].
      exists (Status cur). split; [done|]. right. exists cur. unfold by_id in Eb.
      apply fmap_Some in Eb as ([i x] & Hf & ->). apply list_find_Some in Hf as (Hi & Hid & _).
      split_and!; [|done..]. apply list_elem_of_lookup_2 in Hi. rewrite elem_of_reverse in Hi. exact Hi.
    + left. rewrite !(bool_decide_eq_false_2 (Status q = "")) by done. by destruct (by_id _ _).
  - right. apply list_elem_of_omap in Hp as (cur & Hc & Hr). unfold reconcile_removed in Hr.
    case_bool_decide; [done|]. destruct (Z.ltb_spec 0 (inflight (ID cur))); [|done]. injection Hr as <-.
    exists cur. split_and!; [done..|]. cbn. rewrite list_elem_of_filter. by intros [? _].
Qed.

End PollProps.

(** A registration polled twice: first new, then updated under the status it was given. *)
Definition sample_registration (status : string) : ProviderRegistration :=
  MkRegistration "buyer_1" "https://buyer.example" true false [] [] [] 50 0 [] status.

Lemma poll_sound_witness :
  let _ := ascii_runtime in
  let old := NewProviderSet [with_status (ProviderConfigFromRegistration (sample_registration "")) "draining"] in
  let p := with_status (ProviderConfigFromRegistration (sample_registration "active")) "draining" in
  p ∈ All (poll (λ _, 0%Z) 0 old [sample_registration ""]) ∧
  (poll (λ _, 0%Z) 0 old [sample_registration ""] = old ∨
   poll_origin (λ _, 0%Z) 0 old (poll (λ _, 0%Z) 0 old [sample_registration ""]) [sample_registration ""] p).
Proof.
  intros RT old p. assert (Hp : p ∈ All (poll (λ _, 0%Z) 0 old [sample_registration ""])) by (vm_compute; left).
  split; [exact Hp|]. apply (poll_sound (λ _, 0%Z) 0 old [sample_registration ""] p (NewProviderSet_wf _) Hp).
Defined.

(** ** What the code does and its comments deny *)

(** The configured exclusions of a provider (never send these) are gone once discovery lists it:
    an update takes over every routing field of the registration, which has none. *)
Theorem poll_drops_exclusions :
  let _ := ascii_runtime in
  let cfg := MkProvider "buyer_1" "https://buyer.example" "" true false [] [] ["kids-site"] [] [] [] [] [] ["k1"] 0 0 in
  ExcludePropertyIDs <$> GetProvider (NewProviderSet [cfg]) "buyer_1" = Some ["kids-site"] ∧
  ExcludePropertyIDs <$> GetProvider (poll (λ _, 0%Z) 0 (NewProviderSet [cfg]) [sample_registration ""]) "buyer_1" = Some [].
Proof. by vm_compute. Qed.

(** The unspecified address, which reaches the local host on Linux, is a valid endpoint and is
    dialed; the check that [tmproto] applies to publisher URLs refuses it. *)
Theorem endpoint_unspecified_accepted :
  let _ := ascii_runtime in
  ValidateProviderEndpoint "http://0.0.0.0:8080" = Ok tt ∧ safeDialContext [IPv4 0 0 0 0] = Ok (IPv4 0 0 0 0) ∧
  is_ok (ValidateFetchableURL "http://0.0.0.0:8080") = false.
Proof. by vm_compute. Qed.
