(* ===== verification/Filter.v ===== *)
(** * Filter: which provider is asked what

    [router/filter.go] and [slot_contract.go]: glob patterns over property slugs, the
    match of a request against a registration, the part of a request a provider is
    sent, and the contract on the chunks it returns. *)
From stdpp Require Import gmap strings.
From S2P Require Import Prelude GoStrings TmpTypes Provider.
From stdpp Require Import options.

(** ** Globs

    [matchGlob] keeps two positions and those to fall back to: here the rest of the
    pattern and of the text, and for the last star what follows it in the pattern and
    the text from where it stopped. *)

Definition only_stars (p : list ascii) : bool := forallb (λ c, beq c "*") p.

Fixpoint glob_loop (fuel : nat) (p s : list ascii) (star : option (list ascii * list ascii)) : bool :=
  match fuel with
  | 0 => false
  | S n =>
      let back :=
        match star with
        | Some (p1, _ :: s1) => glob_loop n p1 s1 (Some (p1, s1))
        | _ => false
        end in
      match s, p with
      | [], _ => only_stars p
      | c :: s', d :: p' =>
          if beq d "?" || beq d c then glob_loop n p' s' star else
          if beq d "*" then glob_loop n p' s (Some (p', s)) else back
      | _ :: _, [] => back
      end
  end.

Definition glob_fuel (p s : list ascii) : nat := S (length s) * (2 + length p).

Definition matchGlob (pattern s : string) : bool :=
  glob_loop (glob_fuel (explode pattern) (explode s)) (explode pattern) (explode s) None.

(** ** Requests and providers *)

Definition matchesProperty (propertyID propertyRID propertyType : string) (p : ProviderConfig) : bool :=
  if existsb (λ pattern, matchGlob pattern propertyID) (ExcludePropertyIDs p) then false else
  if negb (bool_decide (PropertyIDs p = [])) && negb (existsb (λ pattern, matchGlob pattern propertyID) (PropertyIDs p))
  then false else
  if negb (bool_decide (PropertyRIDs p = [])) &&
     (bool_decide (propertyRID = "") || negb (bool_decide (propertyRID ∈ PropertyRIDs p))) then false else
  if negb (bool_decide (PropertyTypes p = [])) && negb (bool_decide (propertyType ∈ PropertyTypes p)) then false
  else true.

Definition MatchesContextProvider (req : ContextMatchRequest) (p : ProviderConfig) : bool :=
  ContextMatch p && matchesProperty (cmPropertyID req) (cmPropertyRID req) (cmPropertyType req) p.

Definition MatchesIdentityProvider (req : IdentityMatchRequest) (p : ProviderConfig) : bool :=
  if negb (IdentityMatch p) then false else
  if negb (bool_decide (Countries p = [])) &&
     (bool_decide (imCountry req = "") || negb (bool_decide (imCountry req ∈ Countries p))) then false else
  if negb (bool_decide (UIDTypes p = [])) && negb (bool_decide (imIdentities req = [])) &&
     negb (existsb (λ i, bool_decide (UIDType i ∈ UIDTypes p)) (imIdentities req)) then false
  else true.

Definition filterIdentitiesForProvider (ids : list IdentityToken) (p : ProviderConfig) : list IdentityToken :=
  if bool_decide (UIDTypes p = []) then ids else filter (λ i, UIDType i ∈ UIDTypes p) ids.

Definition filterSealedCredentialsForProvider (creds : list SealedCredential) (p : ProviderConfig) : list SealedCredential :=
  if bool_decide (creds = []) || bool_decide (AudienceKIDs p = []) then []
  else filter (λ c, AudienceKID c ∈ AudienceKIDs p) creds.

Definition filterPackageIDsForProvider (pkgIDs : list string) (p : ProviderConfig) : list string :=
  if bool_decide (PackageIDs p = []) then pkgIDs else filter (λ i, i ∈ PackageIDs p) pkgIDs.

(** ** The slot contract *)

(** The pointwise comparison; the length was checked. *)
Fixpoint slots_follow (registered : list string) (chunks : list TmpxChunk) : bool :=
  match chunks, registered with
  | [], _ => true
  | c :: chunks', r :: registered' => bool_decide (r = SlotID c) && slots_follow registered' chunks'
  | _ :: _, [] => false
  end.

Definition enforceProviderSlotContract (registered : list string) (chunks : list TmpxChunk) : bool :=
  if bool_decide (chunks = []) || (length registered <? length chunks)%nat then false
  else slots_follow registered chunks.

(** ** The glob language *)

Inductive glob : list ascii → list ascii → Prop :=
  | glob_nil : glob [] []
  | glob_star p s t : glob p t → glob ("*"%char :: p) (s ++ t)
  | glob_any p c s : glob p s → glob ("?"%char :: p) (c :: s)
  | glob_char p c s : c ≠ "*"%char → glob p s → glob (c :: p) (c :: s).

Definition fits_char (d c : ascii) : Prop := d ≠ "*"%char ∧ (d = "?"%char ∨ d = c).

Lemma glob_step p s d c : fits_char d c → glob (d :: p) (c :: s) ↔ glob p s.
Proof.
  intros [Hd Hc]. split.
  - inversion 1; subst; done.
  - intros H. destruct (decide (d = "?"%char)) as [->|]; [by constructor|].
    destruct Hc as [?| ->]; [done|]. by constructor.
Qed.

Lemma glob_prefix w u p s : Forall2 fits_char w u → glob (w ++ p) (u ++ s) ↔ glob p s.
Proof. induction 1; [done|]. cbn. by rewrite glob_step. Qed.

Lemma glob_prefix_inv w p : ∀ t, Forall (λ d, d ≠ "*"%char) w → glob (w ++ p) t →
  ∃ u s, t = u ++ s ∧ length u = length w ∧ glob p s.
Proof.
  induction w as [|d w IH]; intros t Hw H; [by exists [], t|].
  apply Forall_cons in Hw as [Hd Hw]. cbn in H.
  inversion H as [|p' s' t' H'|p' c s' H'|p' c s' Hc H']; subst; try done;
    (destruct (IH _ Hw H') as (u & s & -> & Hu & Hg); eexists (_ :: u), s; cbn; auto).
Qed.

Lemma glob_star_inv p s : glob ("*"%char :: p) s ↔ ∃ t, t `suffix_of` s ∧ glob p t.
Proof.
  split.
  - intros H. inversion H as [|p' s' t' H'| |p' c s' Hc]; subst; [|done]. exists t'. split; [by exists s'|done].
  - intros (t & [s' ->] & H). by constructor.
Qed.

Lemma glob_nil_stars p : glob p [] ↔ only_stars p = true.
Proof.
  induction p as [|d p IH]; [split; [done|constructor]|]. cbn. rewrite andb_true_iff, beq_eq, <- IH. split.
  - intros H. inversion H as [|p' s t H' E1 E2| |]; subst. by apply app_eq_nil in E2 as [-> ->].
  - intros [-> H]. by apply (glob_star _ []).
Qed.

Lemma suffix_of_length {A} (s t u : list A) : s `suffix_of` u → t `suffix_of` u → (length s ≤ length t)%nat → s `suffix_of` t.
Proof.
  intros Hs Ht Hl. destruct (suffix_weak_total s t u) as [H|H]; try done.
  destruct H as [k ->]. rewrite length_app in Hl. destruct k as [|x k]; [done|cbn in Hl; lia].
Qed.

(** ** [matchGlob] decides it on texts without a star *)

Definition matched (p s : list ascii) (star : option (list ascii * list ascii)) : Prop :=
  match star with
  | None => True
  | Some (p1, s1) => ∃ w u, p1 = w ++ p ∧ s1 = u ++ s ∧ Forall2 fits_char w u
  end.

Definition glob_result (p s : list ascii) (star : option (list ascii * list ascii)) : Prop :=
  match star with
  | None => glob p s
  | Some (p1, s1) => ∃ t, t `suffix_of` s1 ∧ glob p1 t
  end.

Definition glob_measure (P : nat) (p s : list ascii) (star : option (list ascii * list ascii)) : nat :=
  length (default s (snd <$> star)) * S P + length p.

Definition bounded (P : nat) (p : list ascii) (star : option (list ascii * list ascii)) : Prop :=
  (length p ≤ P)%nat ∧ match star with Some (p1, _) => (length p1 ≤ P)%nat | None => True end.

Definition starless (s : list ascii) (star : option (list ascii * list ascii)) : Prop :=
  ("*"%char ∉ s) ∧ match star with Some (_, s1) => "*"%char ∉ s1 | None => True end.

Lemma fits_starless w u : Forall2 fits_char w u → Forall (λ d, d ≠ "*"%char) w.
Proof. induction 1 as [|d c w u [? _]]; by constructor. Qed.

(** A fallback is possible while the text is not used up, and is the only chance left. *)
Lemma fall_back p c s p1 s1 : matched p (c :: s) (Some (p1, s1)) → ¬ glob p (c :: s) →
  ∃ d s1', s1 = d :: s1' ∧ (glob_result p (c :: s) (Some (p1, s1)) ↔ glob_result p1 s1' (Some (p1, s1'))).
Proof.
  intros (w & u & -> & -> & Hf) Hn.
  assert (∃ d s1', u ++ c :: s = d :: s1') as (d & s1' & E) by (destruct u; cbn; eauto).
  exists d, s1'. split; [done|]. cbn. split.
  - intros (t & Ht & Hg). exists t. split; [|done]. rewrite E in Ht.
    destruct t as [|x t]; [exists s1'; by rewrite app_nil_r|].
    apply suffix_cons_inv in Ht as [Ht|?]; [|done].
    destruct Hn. rewrite Ht, <- E in Hg. by apply (glob_prefix w u _ _ Hf).
  - intros (t & Ht & Hg). exists t. split; [|done]. rewrite E. by apply suffix_cons_r.
Qed.

(** A new star replaces the old one: what the old could still do, the new can. *)
Lemma newer_star p s p1 s1 : matched ("*"%char :: p) s (Some (p1, s1)) →
  glob_result p s (Some (p, s)) ↔ glob_result ("*"%char :: p) s (Some (p1, s1)).
Proof.
  intros (w & u & -> & -> & Hf). cbn. rewrite <- glob_star_inv. split.
  - intros Hg. exists (u ++ s). split; [done|]. by apply glob_prefix.
  - intros (t & Ht & Hg). apply glob_prefix_inv in Hg as (u' & s' & -> & Hu & Hg); [|by eapply fits_starless].
    apply glob_star_inv in Hg as (t' & Ht' & Hg). apply glob_star_inv. exists t'. split; [|done].
    trans s'; [done|]. apply (suffix_of_length _ _ (u ++ s)).
    + trans (u' ++ s'); [by exists u'|done].
    + by exists u.
    + apply suffix_length in Ht. rewrite !length_app in Ht. apply Forall2_length in Hf. lia.
Qed.

Lemma glob_loop_correct P n : ∀ p s star, (glob_measure P p s star < n)%nat → bounded P p star → starless s star →
  matched p s star → glob_loop n p s star = true ↔ glob_result p s star.
Proof.
  induction n as [|n IH]; intros p s star Hn Hb Hs Hm; [lia|].
  assert (Hback : ∀ c s', s = c :: s' → ¬ glob p s →
    (match star with Some (p1, _ :: s1) => glob_loop n p1 s1 (Some (p1, s1)) | _ => false end = true ↔
     glob_result p s star)).
  { intros c s' -> Hng. destruct star as [[p1 s1]|]; [|by split].
    destruct (fall_back p c s' p1 s1 Hm Hng) as (d & s1' & -> & ->).
    unfold glob_measure, bounded, starless in *. cbn in *. apply IH; cbn; [lia|lia| |by exists [], []].
    destruct Hs as [_ Hs]. apply not_elem_of_cons in Hs as [_ ?]. done. }
  cbn [glob_loop]. destruct s as [|c s'].
  { rewrite <- glob_nil_stars. destruct star as [[p1 s1]|]; [|done]. destruct Hm as (w & u & -> & -> & Hf).
    cbn. split.
    - intros Hg. exists (u ++ []). split; [done|]. by apply glob_prefix.
    - intros (t & Ht & Hg). apply glob_prefix_inv in Hg as (u' & t' & -> & Hu & Hg); [|by eapply fits_starless].
      apply suffix_length in Ht. rewrite !length_app in Ht. apply Forall2_length in Hf. cbn in Ht.
      destruct t'; [done|cbn in Ht; lia]. }
  destruct p as [|d p'].
  { apply (Hback c s'); [done|]. by inversion 1. }
  destruct Hs as [Hs1 Hs2]. apply not_elem_of_cons in Hs1 as [Hc Hs1].
  destruct (beq d "?" || beq d c) eqn:Ed.
  - assert (Hf : fits_char d c).
    { apply orb_true_iff in Ed. rewrite !beq_eq in Ed. split; [|naive_solver]. intros ->. destruct Ed; congruence. }
    rewrite IH.
    + destruct star as [[p1 s1]|]; [done|]. cbn. by rewrite glob_step.
    + unfold glob_measure in *. destruct star as [[p1 s1]|]; cbn in *; lia.
    + unfold bounded in *. cbn in Hb. destruct star as [[p1 s1]|]; cbn in *; lia.
    + by split.
    + destruct star as [[p1 s1]|]; [|done]. destruct Hm as (w & u & -> & -> & Hw).
      exists (w ++ [d]), (u ++ [c]). rewrite <- !app_assoc. split_and!; [done..|].
      apply Forall2_app; [done|]. constructor; [done|constructor].
  - apply orb_false_iff in Ed. rewrite !beq_neq in Ed. destruct Ed as [Ed1 Ed2].
    destruct (beq d "*") eqn:Es.
    + apply beq_eq in Es as ->. rewrite IH.
      * destruct star as [[p1 s1]|]; [by apply newer_star|]. cbn. by rewrite glob_star_inv.
      * unfold glob_measure in *. cbn in *. destruct star as [[p1 s1]|]; cbn in *; [|lia].
        destruct Hm as (w & u & -> & -> & _). rewrite length_app in Hn. cbn in Hn. nia.
      * unfold bounded in *. cbn in *. lia.
      * split; [by apply not_elem_of_cons|]. cbn. by apply not_elem_of_cons.
      * by exists [], [].
    + apply beq_neq in Es. apply (Hback c s'); [done|]. inversion 1; subst; done.
Qed.

(** on a text without a star [matchGlob] accepts exactly the
    texts of the pattern's language: a star stands for any text, a question mark for any
    byte, anything else for itself; the loop ends within its bound of steps. *)
Theorem matchGlob_decides pattern s : contains_byte s "*" = false →
  matchGlob pattern s = true ↔ glob (explode pattern) (explode s).
Proof.
  intros Hs. unfold matchGlob. rewrite (glob_loop_correct (len pattern)); [done|..].
  - unfold glob_measure, glob_fuel. cbn. rewrite !len_explode. nia.
  - split; [by rewrite len_explode|done].
  - split; [|done]. intros Hin. induction s as [|c s IH]; [by apply not_elem_of_nil in Hin|].
    rewrite contains_byte_cons in Hs. cbn in Hin. apply orb_false_iff in Hs as [Hc Hs].
    apply elem_of_cons in Hin as [<-|?]; [by rewrite beq_refl in Hc|auto].
  - done.
Qed.

Lemma matchGlob_decides_witness :
  matchGlob "news-*-e?" "news-us-en-eu" = true ∧ glob (explode "news-*-e?") (explode "news-us-en-eu").
Proof. split; [by vm_compute|]. apply (matchGlob_decides "news-*-e?" "news-us-en-eu"); by vm_compute. Defined.

(** A star of the text is taken for the pattern's star and pins it: an exclusion of [*-adult] does
    not exclude [*x-adult], though it is of that form. *)
Theorem matchGlob_misses_star : matchGlob "*-adult" "*x-adult" = false ∧ glob (explode "*-adult") (explode "*x-adult").
Proof.
  split; [by vm_compute|]. cbn. apply (glob_star _ ["*"; "x"]%char). repeat (apply glob_char; [done|]). constructor.
Qed.

(** ** The contract on slots *)

Lemma slots_follow_prefix chunks : ∀ registered,
  slots_follow registered chunks = true ↔ map SlotID chunks `prefix_of` registered.
Proof.
  induction chunks as [|c chunks IH]; intros [|r registered]; cbn.
  - split; [intros _; by exists []|done].
  - split; [intros _; by exists (r :: registered)|done].
  - split; [done|]. by intros [k [=]].
  - rewrite andb_true_iff, bool_decide_eq_true, IH. split.
    + intros [-> ?]. by apply prefix_cons.
    + intros H. split; [by apply prefix_cons_inv_1 in H|by apply prefix_cons_inv_2 in H].
Qed.

(** The chunks kept are exactly the non-empty ordered prefixes of the registered slots. *)
Lemma enforceProviderSlotContract_prefix registered chunks :
  enforceProviderSlotContract registered chunks = true ↔ chunks ≠ [] ∧ map SlotID chunks `prefix_of` registered.
Proof.
  unfold enforceProviderSlotContract. rewrite <- slots_follow_prefix. case_bool_decide as E; cbn [orb].
  { split; [done|]. by intros [? _]. }
  destruct (Nat.ltb_spec (length registered) (length chunks)) as [Hl|Hl]; [|tauto].
  split; [done|]. intros [_ H]. apply slots_follow_prefix, prefix_length in H. rewrite length_map in H. lia.
Qed.

(** ** What a provider is sent *)

Lemma filterIdentities_spec ids p i : i ∈ filterIdentitiesForProvider ids p ↔
  i ∈ ids ∧ (UIDTypes p = [] ∨ UIDType i ∈ UIDTypes p).
Proof.
  unfold filterIdentitiesForProvider. case_bool_decide as E; [naive_solver|]. rewrite list_elem_of_filter. naive_solver.
Qed.

Lemma filterIdentities_sublist ids p : filterIdentitiesForProvider ids p `sublist_of` ids.
Proof. unfold filterIdentitiesForProvider. case_bool_decide; [done|apply sublist_filter]. Qed.

Lemma filterSealed_spec creds p c : c ∈ filterSealedCredentialsForProvider creds p ↔
  c ∈ creds ∧ AudienceKID c ∈ AudienceKIDs p.
Proof.
  unfold filterSealedCredentialsForProvider. case_bool_decide as E; cbn.
  { subst. rewrite elem_of_nil. split; [done|]. by intros [? _]. }
  case_bool_decide as E2.
  { rewrite E2. split; [by intros ?%elem_of_nil|by intros [_ ?%elem_of_nil]]. }
  rewrite list_elem_of_filter. tauto.
Qed.

Lemma filterPackages_spec ids p i : i ∈ filterPackageIDsForProvider ids p ↔
  i ∈ ids ∧ (PackageIDs p = [] ∨ i ∈ PackageIDs p).
Proof.
  unfold filterPackageIDsForProvider. case_bool_decide as E; [naive_solver|]. rewrite list_elem_of_filter. naive_solver.
Qed.

Lemma matches_identity_country req p : MatchesIdentityProvider req p = true →
  IdentityMatch p = true ∧ (Countries p = [] ∨ imCountry req ∈ Countries p).
Proof.
  unfold MatchesIdentityProvider. destruct (IdentityMatch p); cbn; [|done]. intros H. split; [done|].
  destruct (decide (Countries p = [])) as [|E]; [by left|right].
  rewrite (bool_decide_eq_false_2 (Countries p = [])) in H by done. cbn in H.
  case_bool_decide; cbn in H; [done|]. by destruct (decide (imCountry req ∈ Countries p)) as [|n];
    [|rewrite (bool_decide_eq_false_2 _ n) in H].
Qed.
