(* ===== verification/Health.v ===== *)
(** * Health: the circuit breaker of the router

    [router/health.go].  The counters of a provider are atomics that fan-out legs, health
    checks and drains touch concurrently: a method is a program over atomic operations,
    calls are threads, and a schedule interleaves their operations one by one.  Times
    are Unix nanoseconds. *)
From stdpp Require Import gmap strings.
From S2P Require Import Prelude.
From stdpp Require Import options.

(** ** State *)

Record providerStats := MkStats {
  successes : Z;
  failures : Z;
  timeouts : Z;
  consecutiveFailures : Z;
  circuitOpenUntil : Z;
  inflight : Z;
}.

Inductive counter := CSuccesses | CFailures | CTimeouts | CConsecutive | COpenUntil | CInflight.

Definition get (c : counter) (s : providerStats) : Z :=
  match c with
  | CSuccesses => successes s
  | CFailures => failures s
  | CTimeouts => timeouts s
  | CConsecutive => consecutiveFailures s
  | COpenUntil => circuitOpenUntil s
  | CInflight => inflight s
  end.

Definition put (c : counter) (v : Z) (s : providerStats) : providerStats :=
  match c with
  | CSuccesses => MkStats v (failures s) (timeouts s) (consecutiveFailures s) (circuitOpenUntil s) (inflight s)
  | CFailures => MkStats (successes s) v (timeouts s) (consecutiveFailures s) (circuitOpenUntil s) (inflight s)
  | CTimeouts => MkStats (successes s) (failures s) v (consecutiveFailures s) (circuitOpenUntil s) (inflight s)
  | CConsecutive => MkStats (successes s) (failures s) (timeouts s) v (circuitOpenUntil s) (inflight s)
  | COpenUntil => MkStats (successes s) (failures s) (timeouts s) (consecutiveFailures s) v (inflight s)
  | CInflight => MkStats (successes s) (failures s) (timeouts s) (consecutiveFailures s) (circuitOpenUntil s) v
  end.

#[export] Instance counter_eq_dec : EqDecision counter.
Proof. solve_decision. Defined.

Definition zero_stats : providerStats := MkStats 0 0 0 0 0 0.

Record ProviderHealth := MkHealth {
  stats : gmap string providerStats;
  failureThreshold : Z;
  cooldownDuration : Duration;
}.

Definition NewProviderHealth (threshold : Z) (cooldown : Duration) : ProviderHealth := MkHealth ∅ threshold cooldown.

(** [getOrCreate]: the entry of a provider, which every method creates. *)
Definition getOrCreate (h : ProviderHealth) (id : string) : providerStats := default zero_stats (stats h !! id).
Definition update (h : ProviderHealth) (id : string) (s : providerStats) : ProviderHealth :=
  MkHealth (<[id := s]> (stats h)) (failureThreshold h) (cooldownDuration h).

(** ** Methods as programs *)

Inductive hprog :=
  | HRet (r : Z)
  | HAdd (c : counter) (d : Z) (k : Z → hprog)
  | HStore (c : counter) (v : Z) (k : hprog)
  | HLoad (c : counter) (k : Z → hprog)
  | HNow (k : Z → hprog)
  | HCas (c : counter) (old new : Z) (k : bool → hprog).

Definition b2z (b : bool) : Z := if b then 1%Z else 0%Z.

Section Methods.
Variable h : ProviderHealth.

Definition RecordSuccess : hprog := HAdd CSuccesses 1 (λ _, HStore CConsecutive 0 (HRet 0)).

(** The tail that failures and timeouts share. *)
Definition count_failure : hprog :=
  HAdd CFailures 1 (λ _, HAdd CConsecutive 1 (λ consec,
    if (failureThreshold h <=? consec)%Z
    then HNow (λ now, HStore COpenUntil (wrap64 (now + cooldownDuration h)) (HRet 0)) else HRet 0)).

Definition RecordFailure : hprog := count_failure.
Definition RecordTimeout : hprog := HAdd CTimeouts 1 (λ _, count_failure).

Definition IsCircuitOpen : hprog :=
  HLoad COpenUntil (λ openUntil,
    if (openUntil =? 0)%Z then HRet (b2z false) else
    HNow (λ now, if (now <? openUntil)%Z then HRet (b2z true) else
      HCas COpenUntil openUntil 0 (λ won, if won : bool then HStore CConsecutive 0 (HRet (b2z false)) else HRet (b2z true)))).

Definition IncrInflight : hprog := HAdd CInflight 1 (λ _, HRet 0).
Definition DecrInflight : hprog := HAdd CInflight (-1) (λ _, HRet 0).
Definition Inflight : hprog := HLoad CInflight HRet.

(** The reading of one entry by [Snapshot], at the instant [now]. *)
Definition snapshot_entry (now : Z) (s : providerStats) : Z * Z * Z * Z * bool * Z :=
  (successes s, failures s, timeouts s, consecutiveFailures s,
   negb (circuitOpenUntil s =? 0)%Z && (now <? circuitOpenUntil s)%Z, inflight s).
End Methods.

Inductive method := MSuccess | MFailure | MTimeout | MOpen | MIncr | MDecr | MInflight.

Definition program (h : ProviderHealth) (m : method) : hprog :=
  match m with
  | MSuccess => RecordSuccess
  | MFailure => RecordFailure h
  | MTimeout => RecordTimeout h
  | MOpen => IsCircuitOpen
  | MIncr => IncrInflight
  | MDecr => DecrInflight
  | MInflight => Inflight
  end.

(** ** Schedules *)

Definition atom (now : Z) (s : providerStats) (p : hprog) : providerStats * hprog :=
  match p with
  | HRet _ => (s, p)
  | HAdd c d k => let v := wrap64 (get c s + d) in (put c v s, k v)
  | HStore c v k => (put c v s, k)
  | HLoad c k => (s, k (get c s))
  | HNow k => (s, k now)
  | HCas c old new k => if (get c s =? old)%Z then (put c new s, k true) else (s, k false)
  end.

(** A call: its provider, its method, what is left of it, and whether it has read that the circuit
    of its provider was opened. *)
Record thread := MkThread { tProvider : string; tMethod : method; tSaw : bool; tProg : hprog }.

Record world := MkWorld { clock : Z; table : ProviderHealth; threads : list thread }.

Definition reads_open (s : providerStats) (p : hprog) : bool :=
  match p with HLoad COpenUntil _ => negb (circuitOpenUntil s =? 0)%Z | _ => false end.

Inductive action := Tick (d : Z) | Call (id : string) (m : method) | Run (i : nat).

(** What a step does to a provider, for the statements below. *)
Inductive event := EFail | EReset | EOpened | EProbe | EInflight (d : Z).

Definition atom_event (s : providerStats) (p : hprog) : option event :=
  match p with
  | HAdd CConsecutive _ _ => Some EFail
  | HStore CConsecutive _ _ => Some EReset
  | HStore COpenUntil _ _ => Some EOpened
  | HCas COpenUntil old _ _ => if (circuitOpenUntil s =? old)%Z then Some EProbe else None
  | HAdd CInflight d _ => Some (EInflight d)
  | _ => None
  end.

Definition step (w : world) (a : action) : world * option (string * event) :=
  match a with
  | Tick d => (MkWorld (clock w + Z.max 0 d) (table w) (threads w), None)
  | Call id m => (MkWorld (clock w) (table w) (threads w ++ [MkThread id m false (program (table w) m)]), None)
  | Run i =>
      match threads w !! i with
      | Some (MkThread id m saw p) =>
          let s := getOrCreate (table w) id in
          let '(s', p') := atom (clock w) s p in
          (MkWorld (clock w) (update (table w) id s') (<[i := MkThread id m (saw || reads_open s p) p']> (threads w)),
           pair id <$> atom_event s p)
      | None => (w, None)
      end
  end.

Fixpoint play (w : world) (l : list action) : world * list (string * event) :=
  match l with
  | [] => (w, [])
  | a :: l' =>
      let '(w1, e) := step w a in
      let '(w2, es) := play w1 l' in
      (w2, match e with Some e => e :: es | None => es end)
  end.

Definition start (threshold : Z) (cooldown : Duration) (t : Z) : world :=
  MkWorld t (NewProviderHealth threshold cooldown) [].

(** A caller that found the circuit opened and is told that it is closed. *)
Definition let_through (t : thread) : bool :=
  match tMethod t, tProg t with MOpen, HRet 0%Z => tSaw t | _, _ => false end.

Definition probes (w : world) (id : string) : nat :=
  length (filter (λ t, tProvider t = id ∧ let_through t = true) (threads w)).

(** The events of one provider. *)
Definition of_provider (id : string) (es : list (string * event)) : list event :=
  map snd (filter (λ e, e.1 = id) es).

Definition is_opened (e : event) : bool := match e with EOpened => true | _ => false end.
Definition is_probe (e : event) : bool := match e with EProbe => true | _ => false end.
Definition is_fail (e : event) : bool := match e with EFail => true | _ => false end.
Definition is_reset (e : event) : bool := match e with EReset => true | _ => false end.
Definition count (f : event → bool) (es : list event) : nat := length (filter (λ e, f e = true) es).

(** Failures since the last reset. *)
Definition streak (es : list event) : nat :=
  foldl (λ n e, if is_fail e then S n else if is_reset e then 0 else n) 0 es.

Definition in_flight (es : list event) : Z :=
  foldl (λ n e, match e with EInflight d => (n + d)%Z | _ => n end) 0%Z es.

Inductive reach (w0 : world) : world → list (string * event) → Prop :=
  | reach_start : reach w0 w0 []
  | reach_step w es a w' e : reach w0 w es → step w a = (w', e) → reach w0 w' (es ++ option_list e).

Lemma reach_play w0 l : ∀ w es, reach w0 w es → ∀ w' es', play w l = (w', es') → reach w0 w' (es ++ es').
Proof.
  induction l as [|a l IH]; intros w es Hr w' es' Hp; cbn in Hp; [injection Hp as <- <-; by rewrite app_nil_r|].
  destruct (step w a) as [w1 e] eqn:Es. destruct (play w1 l) as [w2 es2] eqn:E2. injection Hp as <- <-.
  pose proof (reach_step w0 w es a w1 e Hr Es) as H1. specialize (IH _ _ H1 _ _ E2).
  destruct e; cbn in *; by rewrite <- app_assoc in IH || rewrite app_nil_r in IH.
Qed.

(** ** Invariants *)

Lemma wrap64_add a b : wrap64 (wrap64 a + b) = wrap64 (a + b).
Proof.
  unfold wrap64. f_equal. replace ((a + 2 ^ 63) mod 2 ^ 64 - 2 ^ 63 + b + 2 ^ 63)%Z with
    ((a + 2 ^ 63) mod 2 ^ 64 + b)%Z by lia. rewrite Zplus_mod_idemp_l. f_equal. lia.
Qed.

Lemma wrap64_le z : (0 ≤ z)%Z → (wrap64 z ≤ z)%Z.
Proof. intros Hz. unfold wrap64. pose proof (Z.mod_le (z + 2 ^ 63) (2 ^ 64)). lia. Qed.

Lemma get_put c c' v s : get c (put c' v s) = if decide (c = c') then v else get c s.
Proof. by destruct c, c', s. Qed.

Lemma of_provider_app id es es' : of_provider id (es ++ es') = of_provider id es ++ of_provider id es'.
Proof. unfold of_provider. by rewrite filter_app, map_app. Qed.

Lemma of_provider_one id id' e : of_provider id (option_list (pair id' <$> e)) = if decide (id' = id) then option_list e else [].
Proof. unfold of_provider. destruct e as [e|]; cbn; [|by case_decide]. by case_decide. Qed.

Lemma count_app f E E' : count f (E ++ E') = count f E + count f E'.
Proof. unfold count. by rewrite filter_app, length_app. Qed.

Lemma count_one f e : count f [e] = if f e then 1 else 0.
Proof. unfold count. cbn. by destruct (f e). Qed.

Lemma streak_snoc E e : streak (E ++ [e]) = if is_fail e then S (streak E) else if is_reset e then 0 else streak E.
Proof. unfold streak. by rewrite foldl_app. Qed.

Lemma in_flight_snoc E e : in_flight (E ++ [e]) = match e with EInflight d => (in_flight E + d)%Z | _ => in_flight E end.
Proof. unfold in_flight. by rewrite foldl_app. Qed.

Section Invariant.
Variable th : Z.

(** Some moment saw [th] failures in a row. *)
Definition peaked (E : list event) : Prop := ∃ pre, pre `prefix_of` E ∧ (th ≤ Z.of_nat (streak pre))%Z.

Lemma peaked_app E E' : peaked E → peaked (E ++ E').
Proof. intros (pre & Hp & ?). exists pre. split; [by apply prefix_app_r|done]. Qed.

(** What a program may still do, once [P] says whether the threshold was reached. *)
Fixpoint safe (P : Prop) (p : hprog) : Prop :=
  match p with
  | HRet _ => True
  | HAdd c d k => c ≠ COpenUntil ∧ (c = CConsecutive → d = 1%Z) ∧ ∀ n, safe (P ∨ (c = CConsecutive ∧ (th ≤ n)%Z)) (k n)
  | HStore c v k => c ≠ CInflight ∧ (c = CConsecutive → v = 0%Z) ∧ (c = COpenUntil → P) ∧ safe P k
  | HLoad c k => ∀ v, safe P (k v)
  | HNow k => ∀ t, safe P (k t)
  | HCas c old new k => c = COpenUntil ∧ old ≠ 0%Z ∧ new = 0%Z ∧ ∀ b, safe P (k b)
  end.

Lemma safe_mono p : ∀ P Q : Prop, (P → Q) → safe P p → safe Q p.
Proof.
  induction p as [r|c d k IH|c v k IH|c k IH|k IH|c old new k IH]; intros P Q HPQ; cbn; [done|..].
  - intros (? & ? & H). split_and!; [done..|]. intros n. eapply IH; [|apply H]. tauto.
  - intros (? & ? & ? & H). split_and!; [tauto..|]. by eapply IH.
  - intros H v. by eapply IH.
  - intros H t. by eapply IH.
  - intros (? & ? & ? & H). split_and!; [done..|]. intros b. by eapply IH.
Qed.

Lemma count_failure_safe h P : failureThreshold h = th → safe P (count_failure h).
Proof.
  intros Hth. cbn. rewrite Hth. split_and!; [done..|]. intros n0. split_and!; [done..|]. intros n.
  destruct (Z.leb_spec th n); cbn; [|done]. intros t. split_and!; [done..|by auto|done].
Qed.

Lemma IsCircuitOpen_safe P : safe P IsCircuitOpen.
Proof.
  cbn. intros v. destruct (Z.eqb_spec v 0); cbn; [done|]. intros t. destruct (t <? v)%Z; cbn; [done|].
  split_and!; [done..|]. by intros [].
Qed.

Lemma program_safe h m : failureThreshold h = th → safe False (program h m).
Proof.
  intros Hth. destruct m; cbn [program].
  - cbn. split_and!; [done..|]. intros ?. by split_and!.
  - by apply count_failure_safe.
  - split_and!; [done..|]. intros ?. by apply count_failure_safe.
  - apply IsCircuitOpen_safe.
  - by split_and!.
  - by split_and!.
  - by intros v.
Qed.

(** ** What every schedule preserves *)

Definition entry_ok (s : providerStats) (E : list event) : Prop :=
  (count is_probe E + (if decide (circuitOpenUntil s = 0%Z) then 0 else 1) ≤ count is_opened E)%nat ∧
  consecutiveFailures s = wrap64 (Z.of_nat (streak E)) ∧
  inflight s = wrap64 (in_flight E) ∧
  (circuitOpenUntil s ≠ 0%Z → peaked E).

Definition world_ok (w : world) (es : list (string * event)) : Prop :=
  failureThreshold (table w) = th ∧
  (∀ id, entry_ok (getOrCreate (table w) id) (of_provider id es)) ∧
  (∀ i t, threads w !! i = Some t → safe (peaked (of_provider (tProvider t) es)) (tProg t)).

(** One atomic operation of a safe program. *)
Lemma atom_ok now s p E s' p' : entry_ok s E → safe (peaked E) p → atom now s p = (s', p') →
  let E' := E ++ option_list (atom_event s p) in entry_ok s' E' ∧ safe (peaked E') p'.
Proof.
  intros (Hc & Hf & Hi & Ho) Hs Ha. destruct p as [r|c d k|c v k|c k|k|c old new k]; cbn in Ha, Hs;
    [injection Ha as <- <-; cbn; by rewrite app_nil_r| | |injection Ha as <- <-; cbn; rewrite app_nil_r; split; [done|apply Hs]..|].
  - destruct Hs as (Hno & Hd & Hs). injection Ha as <- <-.
    assert (Hk : ∀ n : Z, (c = CConsecutive → n = wrap64 (Z.of_nat (streak E) + 1)) →
      safe (peaked (E ++ option_list (atom_event s (HAdd c d k)))) (k n)).
    { intros n Hn. eapply safe_mono, Hs. intros [?|[-> Hle]]; [by apply peaked_app|].
      exists (E ++ [EFail]). split; [done|]. rewrite streak_snoc. cbn. specialize (Hn eq_refl).
      pose proof (wrap64_le (Z.of_nat (streak E) + 1)). lia. }
    split; [|apply Hk; intros ->; cbn; rewrite (Hd eq_refl), Hf; by rewrite wrap64_add].
    destruct c; cbn in *; rewrite ?app_nil_r; try done;
      unfold entry_ok; cbn; rewrite !count_app, ?count_one, ?streak_snoc, ?in_flight_snoc; cbn; rewrite ?Nat.add_0_r;
      (split_and!; [done|try done..|by intros; apply peaked_app, Ho]).
    + rewrite (Hd eq_refl), Hf, wrap64_add. f_equal. lia.
    + by rewrite Hi, wrap64_add.
  - destruct Hs as (Hni & Hz & Hop & Hs). injection Ha as <- <-.
    split; [|eapply safe_mono, Hs; apply peaked_app].
    destruct c; cbn in *; rewrite ?app_nil_r; try done;
      unfold entry_ok; cbn; rewrite !count_app, ?count_one, ?streak_snoc, ?in_flight_snoc; cbn; rewrite ?Nat.add_0_r.
    + split_and!; [done|by rewrite (Hz eq_refl)|done|by intros; apply peaked_app, Ho].
    + split_and!; [destruct (decide (v = 0%Z)), (decide (circuitOpenUntil s = 0%Z)); lia|done..|].
      intros _. by apply peaked_app, Hop.
  - destruct Hs as (-> & Hold & -> & Hs). cbn in Ha. destruct (Z.eqb_spec (circuitOpenUntil s) old) as [Eo|Eo];
      injection Ha as <- <-; cbn; rewrite ?(proj2 (Z.eqb_eq _ _) Eo), ?(proj2 (Z.eqb_neq _ _) Eo); cbn.
    + split; [|eapply safe_mono, Hs; apply peaked_app].
      unfold entry_ok; cbn. rewrite !count_app, !count_one, streak_snoc, in_flight_snoc; cbn.
      split_and!; [|done..]. rewrite decide_False in Hc by congruence. destruct (decide (0 = 0)%Z); [lia|done].
    + rewrite app_nil_r. by split.
Qed.

Lemma getOrCreate_update h id id' s : getOrCreate (update h id s) id' = if decide (id = id') then s else getOrCreate h id'.
Proof.
  unfold getOrCreate, update. cbn. case_decide as E; [subst; by rewrite lookup_insert_eq|by rewrite lookup_insert_ne].
Qed.

Lemma health_step_ok w es a w' e : world_ok w es → step w a = (w', e) → world_ok w' (es ++ option_list e).
Proof.
  intros (Hth & Hs & Ht) Hstep. destruct a as [d|id m|i]; cbn in Hstep.
  - injection Hstep as <- <-. cbn. by rewrite app_nil_r.
  - injection Hstep as <- <-. cbn. rewrite app_nil_r. split_and!; [done..|]. intros i t Hi. cbn in Hi.
    apply lookup_app_Some in Hi as [Hi|[_ Hi]]; [by eapply Ht|].
    apply list_lookup_singleton_Some in Hi as [_ <-]. eapply safe_mono, program_safe, Hth. done.
  - destruct (threads w !! i) as [[id m saw p]|] eqn:Ei; [|injection Hstep as <- <-; cbn; by rewrite app_nil_r].
    destruct (atom (clock w) (getOrCreate (table w) id) p) as [s' p'] eqn:Ea. injection Hstep as <- <-.
    destruct (atom_ok _ _ _ _ _ _ (Hs id) (Ht _ _ Ei) Ea) as [Hs' Hp'].
    split; [done|]. split.
    + intros id'. cbn. rewrite getOrCreate_update, of_provider_app, of_provider_one.
      case_decide as E; [subst; exact Hs'|]. rewrite app_nil_r. apply Hs.
    + intros j t Hj. cbn in Hj. rewrite of_provider_app, of_provider_one.
      apply list_lookup_insert_Some in Hj as [(<- & <- & _)|(Hne & Hj)].
      * by rewrite decide_True.
      * eapply safe_mono, (Ht _ _ Hj). apply peaked_app.
Qed.

Lemma reach_ok cooldown t w es : reach (start th cooldown t) w es → world_ok w es.
Proof.
  induction 1 as [|w es a w' e Hr IH Hstep]; [|by eapply health_step_ok]. split_and!; [done| |by intros i p].
  intros id. unfold getOrCreate. cbn. rewrite lookup_empty. by repeat split.
Qed.

Lemma play_ok cooldown t l w es : play (start th cooldown t) l = (w, es) → world_ok w es.
Proof. intros Hp. apply (reach_ok cooldown t). refine (reach_play _ l _ [] _ _ _ Hp). constructor. Qed.
End Invariant.

(** ** The breaker under every interleaving *)

(** Left to a caller that has won the swap. *)
Definition won (t : thread) : bool :=
  tSaw t && match tProg t with HRet 0%Z | HStore CConsecutive 0%Z (HRet 0%Z) => true | _ => false end.

Definition ended_open (won : bool) : hprog := if won then HStore CConsecutive 0 (HRet (b2z false)) else HRet (b2z true).

(** What is left to a caller that has found the circuit opened. *)
Definition after_read (p : hprog) : Prop :=
  (∃ v, p = HNow (λ now, if (now <? v)%Z then HRet (b2z true) else HCas COpenUntil v 0 ended_open)) ∨
  (∃ v, p = HCas COpenUntil v 0 ended_open) ∨ p = ended_open true ∨ p = HRet 0 ∨ p = HRet 1.

(** Neither reads when the circuit is open until nor swaps it. *)
Fixpoint swapless (p : hprog) : Prop :=
  match p with
  | HRet _ => True
  | HAdd _ _ k => ∀ v, swapless (k v)
  | HStore _ _ k => swapless k
  | HLoad c k => c ≠ COpenUntil ∧ ∀ v, swapless (k v)
  | HNow k => ∀ t, swapless (k t)
  | HCas _ _ _ _ => False
  end.

Definition thread_ok (t : thread) : Prop :=
  if tSaw t then after_read (tProg t) else tProg t = IsCircuitOpen ∨ swapless (tProg t).

Lemma program_thread_ok h id m : thread_ok (MkThread id m false (program h m)).
Proof.
  unfold thread_ok; cbn. destruct m; cbn [program]; [right|right|right|by left|right|right|right]; cbn; try done.
  all: by repeat (intros ?); destruct (failureThreshold h <=? _)%Z.
Qed.

Definition swaps (s : providerStats) (p : hprog) : nat := count is_probe (option_list (atom_event s p)).

(** A step is a probe of its provider exactly when it makes its caller a winner. *)
Lemma thread_step now s id m saw p s' p' : thread_ok (MkThread id m saw p) → atom now s p = (s', p') →
  let t' := MkThread id m (saw || reads_open s p) p' in
  thread_ok t' ∧ (if won t' then 1 else 0) = (if won (MkThread id m saw p) then 1 else 0) + swaps s p.
Proof.
  unfold thread_ok, won, swaps; cbn [tSaw tProg]. intros Ht Ha. destruct saw; cbn [orb andb].
  - destruct Ht as [[v ->]|[[v ->]|[->|[->| ->]]]]; cbn in Ha.
    + injection Ha as <- <-. cbn. destruct (now <? v)%Z; cbn; split; try done; unfold after_read; eauto 10.
    + cbn. destruct (circuitOpenUntil s =? v)%Z; injection Ha as <- <-; cbn; split; try done; unfold after_read; eauto 10.
    + injection Ha as <- <-. cbn. split; [unfold after_read; eauto 10|done].
    + injection Ha as <- <-. cbn. split; [unfold after_read; eauto 10|done].
    + injection Ha as <- <-. cbn. split; [unfold after_read; eauto 10|done].
  - destruct Ht as [->|Hc].
    + cbn in Ha. injection Ha as <- <-. cbn. destruct (circuitOpenUntil s =? 0)%Z; cbn; split; try done; [by right|].
      left. by exists (circuitOpenUntil s).
    + destruct p as [r|c d k|c v k|c k|k|c old new k]; cbn in Hc, Ha; [| | | | |done]; injection Ha as <- <-; cbn.
      * by split; [right|].
      * split; [right; apply Hc|by destruct c].
      * split; [by right|by destruct c].
      * destruct Hc as [Hc Hk]. by destruct c; cbn; split; try done; right.
      * split; [right; apply Hc|done].
Qed.

Definition sum_won (id : string) (l : list thread) : nat := length (filter (λ t, tProvider t = id ∧ won t = true) l).

Lemma sum_won_cons id t l : sum_won id (t :: l) = (if decide (tProvider t = id) then if won t then 1 else 0 else 0) + sum_won id l.
Proof.
  unfold sum_won. rewrite filter_cons. destruct (won t) eqn:E; repeat case_decide; cbn; try done; naive_solver.
Qed.

Lemma sum_won_app id l l' : sum_won id (l ++ l') = sum_won id l + sum_won id l'.
Proof. unfold sum_won. by rewrite filter_app, length_app. Qed.

Lemma sum_won_insert id l i t t' : l !! i = Some t →
  sum_won id (<[i := t']> l) + (if decide (tProvider t = id) then if won t then 1 else 0 else 0) =
  sum_won id l + (if decide (tProvider t' = id) then if won t' then 1 else 0 else 0).
Proof.
  revert i. induction l as [|x l IH]; intros [|i] Hi; [done|done|..].
  - injection Hi as ->. change (<[0:=t']> (t :: l)) with (t' :: l). rewrite !sum_won_cons. lia.
  - change (<[S i:=t']> (x :: l)) with (x :: <[i:=t']> l). rewrite !sum_won_cons. specialize (IH i Hi). lia.
Qed.

Definition probes_ok (w : world) (es : list (string * event)) : Prop :=
  Forall thread_ok (threads w) ∧ ∀ id, sum_won id (threads w) = count is_probe (of_provider id es).

Lemma probes_step w es a w' e : probes_ok w es → step w a = (w', e) → probes_ok w' (es ++ option_list e).
Proof.
  intros (Hf & Hc) Hstep. destruct a as [d|id m|i]; cbn in Hstep.
  - injection Hstep as <- <-. cbn. by rewrite app_nil_r.
  - injection Hstep as <- <-. rewrite app_nil_r. split; cbn [threads].
    + apply Forall_app. split; [done|]. constructor; [apply program_thread_ok|done].
    + intros id'. rewrite sum_won_app, Hc, sum_won_cons. cbn. by case_decide; rewrite Nat.add_0_r.
  - destruct (threads w !! i) as [[id m saw p]|] eqn:Ei; [|injection Hstep as <- <-; cbn; by rewrite app_nil_r].
    destruct (atom (clock w) (getOrCreate (table w) id) p) as [s' p'] eqn:Ea. injection Hstep as <- <-.
    destruct (thread_step _ _ id m saw p s' p' (proj1 (Forall_lookup _ _) Hf _ _ Ei) Ea) as [Hok Hn]. split; cbn [threads].
    + by apply Forall_insert.
    + intros id'. pose proof (sum_won_insert id' (threads w) i _ (MkThread id m (saw || reads_open (getOrCreate (table w) id) p) p') Ei) as Hi.
      cbn [tProvider] in Hi. rewrite Hc in Hi. rewrite of_provider_app, of_provider_one, count_app. unfold swaps in Hn.
      case_decide; cbn [count filter length]; [lia|]. unfold count in *. cbn. lia.
Qed.

Lemma probes_reach th cooldown t w es : reach (start th cooldown t) w es → probes_ok w es.
Proof. induction 1 as [|w es a w' e Hr IH Hstep]; [by split|by eapply probes_step]. Qed.

Lemma probes_won w id : (probes w id ≤ sum_won id (threads w))%nat.
Proof.
  unfold probes, sum_won. induction (threads w) as [|t l IH]; [done|]. rewrite !filter_cons.
  assert (Hw : let_through t = true → won t = true).
  { unfold let_through, won. destruct (tMethod t), (tProg t) as [[]| | | | |], (tSaw t); done. }
  repeat case_decide; cbn; [lia|naive_solver|lia|lia].
Qed.

(** in every interleaving of the atomic operations of any calls, of the callers that find the circuit
    of a provider opened no more are let through than there were openings, and fewer while an
    opening is pending: each opening has at most one probe. *)
Theorem one_probe_per_opening th cooldown t l w es id : play (start th cooldown t) l = (w, es) →
  let E := of_provider id es in
  (probes w id ≤ count is_opened E)%nat ∧
  (circuitOpenUntil (getOrCreate (table w) id) ≠ 0%Z → (probes w id < count is_opened E)%nat).
Proof.
  intros Hp. destruct (play_ok th cooldown t l w es Hp) as (_ & Hs & _). destruct (Hs id) as (Hc & _).
  assert (Hr : reach (start th cooldown t) w es) by (refine (reach_play _ l _ [] _ _ _ Hp); constructor).
  destruct (probes_reach _ _ _ _ _ Hr) as [_ Hn]. specialize (Hn id). pose proof (probes_won w id).
  cbn. case_decide; split; try done; lia.
Qed.

(** in every interleaving a circuit is open only after its provider has failed as often in a
    row as the threshold says, and the count of calls in flight is exact. *)
Theorem opens_only_after_threshold th cooldown t l w es id : play (start th cooldown t) l = (w, es) →
  let s := getOrCreate (table w) id in
  let E := of_provider id es in
  (circuitOpenUntil s ≠ 0%Z → ∃ pre, pre `prefix_of` E ∧ (th ≤ Z.of_nat (streak pre))%Z) ∧
  inflight s = wrap64 (in_flight E).
Proof.
  intros Hp. destruct (play_ok th cooldown t l w es Hp) as (_ & Hs & _). destruct (Hs id) as (_ & _ & Hi & Ho).
  by split.
Qed.

(** One call run to its end: enough steps of the thread at position [i]. *)
Definition whole (i : nat) : list action := repeat (Run i) 6.

(** Three failures, the cooldown, then three callers. *)
Definition sample_schedule : list action :=
  [Call "p" MFailure; Call "p" MFailure; Call "p" MOpen; Call "p" MIncr] ++ whole 0 ++ whole 1 ++ whole 3 ++
  [Tick 200; Call "p" MOpen; Call "p" MOpen] ++ [Run 4; Run 5; Run 4; Run 5] ++ whole 4 ++ whole 5.

Lemma one_probe_per_opening_witness :
  let r := play (start 2 100 0) sample_schedule in
  count is_opened (of_provider "p" r.2) = 1 ∧ (probes r.1 "p" ≤ 1)%nat ∧
  map tProg (drop 4 (threads r.1)) = [HRet 0; HRet 1].
Proof.
  intros r. split; [by vm_compute|]. split; [|by vm_compute].
  destruct (one_probe_per_opening 2 100 0 sample_schedule r.1 r.2 "p") as [H _]; [apply surjective_pairing|].
  vm_compute (count is_opened _) in H. exact H.
Defined.

Lemma opens_only_after_threshold_witness :
  let r := play (start 2 100 0) ([Call "p" MFailure; Call "p" MFailure] ++ whole 0 ++ whole 1) in
  circuitOpenUntil (getOrCreate (table r.1) "p") = 100%Z ∧
  ∃ pre, pre `prefix_of` of_provider "p" r.2 ∧ (2 ≤ Z.of_nat (streak pre))%Z.
Proof.
  intros r. split; [by vm_compute|].
  destruct (opens_only_after_threshold 2 100 0 ([Call "p" MFailure; Call "p" MFailure] ++ whole 0 ++ whole 1)
    r.1 r.2 "p") as [H _]; [apply surjective_pairing|]. apply H. by vm_compute.
Defined.

(** ** What the code does and its comment denies *)

(** The probe is not alone: once it has reset the circuit, callers that arrive before its outcome
    are let through as well, and a probe that fails does not open the circuit again before
    the threshold is reached anew. *)
Theorem probe_not_alone :
  let l := [Call "p" MFailure; Call "p" MFailure] ++ whole 0 ++ whole 1 ++ [Tick 200; Call "p" MOpen] ++ whole 2 ++
           [Call "p" MOpen] ++ whole 3 ++ [Call "p" MFailure] ++ whole 4 ++ [Call "p" MOpen] ++ whole 5 in
  map tProg (threads (play (start 2 100 0) l).1) = [HRet 0; HRet 0; HRet 0; HRet 0; HRet 0; HRet 0] ∧
  circuitOpenUntil (getOrCreate (table (play (start 2 100 0) l).1) "p") = 0%Z.
Proof. by vm_compute. Qed.
