(* ===== verification/CtxCache.v ===== *)
(** * CtxCache: the router's cache of provider responses

    [router/context_cache.go]: a map from a composed key to the response with its
    lifetime, bounded in size.  Responses are values here, so the copies the code makes on
    both sides are invisible.  A loop over the map sees it in an order the runtime picks:
    a parameter. *)
From stdpp Require Import gmap strings.
From S2P Require Import Prelude GoStrings TmpTypes.
From stdpp Require Import options.

Definition DefaultContextCacheTTL : Duration := (5 * Minute)%Z.
Definition MaxContextCacheTTL : Duration := (24 * Hour)%Z.

(** The five components of a key: property, placement, provider, seller, country. *)
Record ckey := MkKey { kPropertyRID : string; kPlacementID : string; kProviderID : string;
                       kSellerAgentURL : string; kCountry : string }.

#[export] Instance ckey_eq_dec : EqDecision ckey.
Proof. solve_decision. Defined.

Definition NUL : ascii := byte 0.

Definition contextCacheKey (k : ckey) : string :=
  kPropertyRID k +:+ String NUL (kPlacementID k +:+ String NUL (kProviderID k +:+ String NUL
    (kSellerAgentURL k +:+ String NUL (kCountry k)))).

Record contextCacheEntry := MkCacheEntry {
  response : ProviderContextMatchResponse;
  expiresAt : Time;
  insertedAt : Time;
}.

Record ContextCache := MkCache {
  entries : gmap string contextCacheEntry;
  defaultTTL : Duration;
  maxEntries : Z;
}.

(** [NewContextCache] with [WithContextCacheMaxEntries n]. *)
Definition NewContextCache (ttl : Duration) (n : Z) : ContextCache :=
  MkCache ∅ (if (ttl <=? 0)%Z then DefaultContextCacheTTL else ttl) (Z.max 0 n).

Definition set_entries (c : ContextCache) (m : gmap string contextCacheEntry) : ContextCache :=
  MkCache m (defaultTTL c) (maxEntries c).

Definition cache_Get (c : ContextCache) (now : Time) (k : ckey) : option ProviderContextMatchResponse * ContextCache :=
  let key := contextCacheKey k in
  match entries c !! key with
  | None => (None, c)
  | Some e => if After now (expiresAt e) then (None, set_entries c (delete key (entries c))) else (Some (response e), c)
  end.

(** The lifetime [Put] gives a response; none when it is not to be stored. *)
Definition ttl_of (c : ContextCache) (resp : ProviderContextMatchResponse) : option Duration :=
  match pcCacheTTL resp with
  | None => Some (defaultTTL c)
  | Some secs =>
      if (secs =? 0)%Z then None else
      if (secs <? 0)%Z then Some (defaultTTL c) else
      let maxSecs := Z.quot MaxContextCacheTTL Second in
      Some ((if maxSecs <? secs then maxSecs else secs) * Second)%Z
  end.

Definition sweepExpiredLocked (now : Time) (m : gmap string contextCacheEntry) : gmap string contextCacheEntry :=
  filter (λ kv, After now (expiresAt kv.2) = false) m.

(** The first of the oldest entries that the loop meets. *)
Fixpoint oldest (best : option (string * Time)) (l : list (string * contextCacheEntry)) : option string :=
  match l with
  | [] => fst <$> best
  | (k, e) :: l' =>
      let better := match best with None => true | Some (_, t) => (insertedAt e <? t)%Z end in
      oldest (if better then Some (k, insertedAt e) else best) l'
  end.

Section Cache.
(** The order of a loop over the map, which may differ from call to call. *)
Variable order : nat → gmap string contextCacheEntry → list (string * contextCacheEntry).
Hypothesis order_perm : ∀ n m, order n m ≡ₚ map_to_list m.

Definition evictOldestLocked (n : nat) (m : gmap string contextCacheEntry) : gmap string contextCacheEntry :=
  match oldest None (order n m) with Some k => delete k m | None => m end.

Definition make_room (c : ContextCache) (n : nat) (now : Time) (key : string) : gmap string contextCacheEntry :=
  let m := entries c in
  if (0 <? maxEntries c)%Z && bool_decide (m !! key = None) && (maxEntries c <=? Z.of_nat (size m))%Z then
    let m := sweepExpiredLocked now m in
    if (maxEntries c <=? Z.of_nat (size m))%Z then evictOldestLocked n m else m
  else m.

Definition cache_Put (c : ContextCache) (n : nat) (now : Time) (k : ckey) (resp : ProviderContextMatchResponse) : ContextCache :=
  match ttl_of c resp with
  | None => c
  | Some ttl =>
      let key := contextCacheKey k in
      set_entries c (<[key := MkCacheEntry resp (Add now ttl) now]> (make_room c n now key))
  end.

Definition cache_Size (c : ContextCache) : nat := size (entries c).

(** ** Runs *)

Inductive cache_op :=
  | OpGet (now : Time) (k : ckey)
  | OpPut (n : nat) (now : Time) (k : ckey) (resp : ProviderContextMatchResponse).

Definition run_op (c : ContextCache) (o : cache_op) : ContextCache :=
  match o with OpGet now k => (cache_Get c now k).2 | OpPut n now k resp => cache_Put c n now k resp end.

Definition run_ops (c : ContextCache) (l : list cache_op) : ContextCache := foldl run_op c l.

(** ** Keys *)

Definition key_clean (k : ckey) : Prop :=
  contains_byte (kPropertyRID k) NUL = false ∧ contains_byte (kPlacementID k) NUL = false ∧
  contains_byte (kProviderID k) NUL = false ∧ contains_byte (kCountry k) NUL = false.

Lemma split_last a b s t c : contains_byte s c = false → contains_byte t c = false →
  a +:+ String c s = b +:+ String c t → a = b ∧ s = t.
Proof using Type.
  intros Hs Ht E. pose proof (LastIndexByte_app a s c Hs) as H1. pose proof (LastIndexByte_app b t c Ht) as H2.
  rewrite E, H2 in H1. injection H1 as Hl. apply sapp_inj_len in E as [-> E]; [|done]. by simplify_eq.
Qed.

(** A key determines its components; the seller may be any text. *)
Lemma contextCacheKey_inj k1 k2 : key_clean k1 → key_clean k2 → contextCacheKey k1 = contextCacheKey k2 → k1 = k2.
Proof using Type.
  intros (A1 & B1 & C1 & D1) (A2 & B2 & C2 & D2) E. unfold contextCacheKey in E.
  apply split_first in E as [Ea E]; [|done..]. apply split_first in E as [Eb E]; [|done..].
  apply split_first in E as [Ec E]; [|done..]. apply split_last in E as [Ed Ee]; [|done..].
  destruct k1, k2. cbn in *. by subst.
Qed.

(** ** Making room *)

Lemma cache_oldest_in l : ∀ best k, oldest best l = Some k → k ∈ l.*1 ∨ k ∈ option_list (fst <$> best).
Proof using Type.
  induction l as [|[k e] l IH]; intros best k'; cbn [oldest].
  - intros ->. right. by left.
  - intros H. apply IH in H as [H|H]; [left; by right|]. destruct best as [[k0 t]|]; cbn in *.
    + destruct (insertedAt e <? t)%Z; cbn in H; [left; apply list_elem_of_singleton in H as ->; by left|by right].
    + left. apply list_elem_of_singleton in H as ->. by left.
Qed.

Lemma oldest_some l best : is_Some best ∨ l ≠ [] → is_Some (oldest best l).
Proof using Type.
  revert best. induction l as [|[k e] l IH]; intros best; cbn [oldest].
  - intros [[x ->]|?]; [by eexists|done].
  - intros _. apply IH. left. destruct best as [[k0 t]|]; [destruct (_ <? _)%Z|]; by eexists.
Qed.

Lemma evict_subseteq n m : evictOldestLocked n m ⊆ m.
Proof using Type. unfold evictOldestLocked. destruct (oldest _ _); [apply delete_subseteq|done]. Qed.

Lemma make_room_subseteq c n now key : make_room c n now key ⊆ entries c.
Proof using Type.
  unfold make_room. destruct (_ && _ && _); [|done].
  destruct (maxEntries c <=? _)%Z; [etrans; [apply evict_subseteq|]|]; apply map_filter_subseteq.
Qed.

Lemma cache_evict_size n m : m ≠ ∅ → S (size (evictOldestLocked n m)) = size m.
Proof using Type*.
  intros Hm. unfold evictOldestLocked. destruct (oldest_some (order n m) None) as [k Hk].
  { right. intros E. pose proof (order_perm n m) as Hp. rewrite E in Hp. symmetry in Hp. apply Permutation_nil_r in Hp.
    by apply map_to_list_empty_iff in Hp. }
  rewrite Hk. apply cache_oldest_in in Hk as [Hk|Hk]; [|by apply elem_of_nil in Hk].
  rewrite (order_perm n m) in Hk. apply list_elem_of_fmap in Hk as ([k' e] & -> & Hk). apply elem_of_map_to_list in Hk.
  assert (size m ≠ 0)%nat by (by intros ?%map_size_empty_inv).
  cbn. rewrite map_size_delete_Some by (by eexists). lia.
Qed.

Lemma make_room_size c n now key : (0 < maxEntries c)%Z → (Z.of_nat (size (entries c)) ≤ maxEntries c)%Z →
  entries c !! key = None → (Z.of_nat (size (make_room c n now key)) < maxEntries c)%Z.
Proof using Type*.
  intros Hpos Hle Hk. unfold make_room. rewrite (proj2 (Z.ltb_lt _ _) Hpos), bool_decide_eq_true_2 by done. cbn [andb].
  destruct (Z.leb_spec (maxEntries c) (Z.of_nat (size (entries c)))); [|lia].
  set (m := sweepExpiredLocked now (entries c)).
  assert (size m ≤ size (entries c))%nat by (apply map_subseteq_size, map_filter_subseteq).
  destruct (Z.leb_spec (maxEntries c) (Z.of_nat (size m))); [|lia].
  assert (m ≠ ∅) by (intros E; rewrite E, map_size_empty in *; lia).
  pose proof (cache_evict_size n m ltac:(done)). lia.
Qed.

(** ** What the cache holds *)

(** The last response that was stored under a key of the map, and when. *)
Definition last_put (c : ContextCache) (l : list cache_op) (key : string) : option (Time * ProviderContextMatchResponse) :=
  foldl (λ a o, match o with
                | OpPut _ now k resp =>
                    if bool_decide (contextCacheKey k = key ∧ is_Some (ttl_of c resp)) then Some (now, resp) else a
                | OpGet _ _ => a
                end) None l.

Definition entry_from (c0 c : ContextCache) (l : list cache_op) : Prop :=
  defaultTTL c = defaultTTL c0 ∧ maxEntries c = maxEntries c0 ∧
  ∀ key e, entries c !! key = Some e →
    last_put c0 l key = Some (insertedAt e, response e) ∧
    ∃ ttl, ttl_of c0 (response e) = Some ttl ∧ expiresAt e = Add (insertedAt e) ttl.

Lemma last_put_snoc c l o key : last_put c (l ++ [o]) key =
  match o with
  | OpPut _ now k resp =>
      if bool_decide (contextCacheKey k = key ∧ is_Some (ttl_of c resp)) then Some (now, resp) else last_put c l key
  | OpGet _ _ => last_put c l key
  end.
Proof using Type. unfold last_put. by rewrite foldl_app. Qed.

Lemma ttl_of_default c c0 resp : defaultTTL c = defaultTTL c0 → ttl_of c resp = ttl_of c0 resp.
Proof using Type. intros E. unfold ttl_of. by rewrite E. Qed.

Lemma run_op_from c0 c l o : entry_from c0 c l → entry_from c0 (run_op c o) (l ++ [o]).
Proof using Type.
  intros (Hd & Hm & He). destruct o as [now k|n now k resp]; cbn [run_op].
  - assert (E : ∀ key e, entries (cache_Get c now k).2 !! key = Some e → entries c !! key = Some e).
    { intros key e. unfold cache_Get. destruct (entries c !! contextCacheKey k) as [e0|]; [|done].
      destruct (After _ _); [|done]. cbn. intros [_ ?]%lookup_delete_Some. done. }
    split_and!; [unfold cache_Get; repeat case_match; done..|].
    intros key e Hk. rewrite last_put_snoc. by apply He, E.
  - unfold cache_Put. rewrite (ttl_of_default c c0) by done. destruct (ttl_of c0 resp) as [ttl|] eqn:Et.
    + split_and!; [done..|]. intros key e. cbn. rewrite last_put_snoc. intros [[<- <-]|[Hne Hk]]%lookup_insert_Some.
      * rewrite bool_decide_eq_true_2 by (split; [done|by rewrite Et; eexists]). cbn. split; [done|by exists ttl].
      * rewrite bool_decide_eq_false_2 by (by intros [? _]). apply He.
        by eapply lookup_weaken; [|apply (make_room_subseteq c n now)].
    + split_and!; [done..|]. intros key e Hk. rewrite last_put_snoc, bool_decide_eq_false_2; [by apply He|].
      rewrite Et. by intros [_ []%is_Some_None].
Qed.

Lemma run_ops_from c l : entries c = ∅ → entry_from c (run_ops c l) l.
Proof using Type.
  intros H0. induction l as [|o l IH] using rev_ind; unfold run_ops.
  - split_and!; [done..|]. intros key e. cbn. by rewrite H0, lookup_empty.
  - rewrite foldl_app. by apply run_op_from.
Qed.

Lemma last_put_Some c l key t r : last_put c l key = Some (t, r) →
  ∃ l1 n k l2, l = l1 ++ OpPut n t k r :: l2 ∧ contextCacheKey k = key ∧
    ∀ n' t' k' r', OpPut n' t' k' r' ∈ l2 → contextCacheKey k' = key → ttl_of c r' = None.
Proof using Type.
  induction l as [|o l IH] using rev_ind; [done|]. rewrite last_put_snoc. intros H.
  assert (Hrec : (∀ n' t' k' r', o = OpPut n' t' k' r' → contextCacheKey k' = key → ttl_of c r' = None) →
    last_put c l key = Some (t, r) → ∃ l1 n k l2, l ++ [o] = l1 ++ OpPut n t k r :: l2 ∧ contextCacheKey k = key ∧
    ∀ n' t' k' r', OpPut n' t' k' r' ∈ l2 → contextCacheKey k' = key → ttl_of c r' = None).
  { intros Ho Hl. destruct (IH Hl) as (l1 & n & k & l2 & -> & Hk & Hlater).
    exists l1, n, k, (l2 ++ [o]). split; [by rewrite <- app_assoc|]. split; [done|].
    intros n' t' k' r' [Hin|Hin%list_elem_of_singleton]%elem_of_app; [by eapply Hlater|by eapply Ho]. }
  destruct o as [now k|n now k resp]; [apply Hrec; [done|exact H]|].
  case_bool_decide as Hd.
  - injection H as -> ->. exists l, n, k, []. split; [done|]. split; [tauto|]. by intros ? ? ? ? ?%elem_of_nil.
  - apply Hrec; [|done]. intros n' t' k' r' [= -> -> -> ->] Hk. destruct (ttl_of c r') eqn:E; [|done].
    destruct Hd. split; [done|by eexists].
Qed.

(** C29: whatever was put and got before, a hit returns the response of the last [Put] under the same
    property, placement, provider, seller and country that was stored at all, and not
    longer after it than the lifetime that response was given. *)
Theorem cache_hit_sound ttl0 n0 l now k r c' :
  let c := NewContextCache ttl0 n0 in
  Forall (λ o, match o with OpPut _ _ k _ => key_clean k | _ => True end) l → key_clean k →
  cache_Get (run_ops c l) now k = (Some r, c') →
  ∃ l1 n t l2 ttl, l = l1 ++ OpPut n t k r :: l2 ∧ ttl_of c r = Some ttl ∧ (now ≤ t + ttl)%Z ∧
    ∀ n' t' r', OpPut n' t' k r' ∈ l2 → ttl_of c r' = None.
Proof using Type.
  intros c Hl Hk. unfold cache_Get. destruct (entries (run_ops c l) !! contextCacheKey k) as [e|] eqn:E; [|done].
  destruct (After now (expiresAt e)) eqn:Ea; [done|]. intros [= <- <-].
  destruct (run_ops_from c l ltac:(done)) as (_ & _ & He). destruct (He _ _ E) as (Hp & ttl & Ht & Hx).
  apply last_put_Some in Hp as (l1 & n & k' & l2 & -> & Hkey & Hlater).
  apply Forall_app in Hl as [_ Hl]. apply Forall_cons in Hl as [Hk' _].
  apply contextCacheKey_inj in Hkey as ->; [|done..].
  exists l1, n, (insertedAt e), l2, ttl. split_and!; [done..| |].
  - unfold After in Ea. rewrite Hx in Ea. unfold Add in Ea. by apply Z.ltb_ge in Ea.
  - intros n' t' r' Hin. by eapply Hlater.
Qed.

(** with a bound on its entries the cache never holds more. *)
Theorem cache_size_bounded ttl0 n0 l : (0 < n0)%Z →
  (Z.of_nat (cache_Size (run_ops (NewContextCache ttl0 n0) l)) ≤ n0)%Z.
Proof using Type*.
  intros Hn. enough (H : maxEntries (run_ops (NewContextCache ttl0 n0) l) = n0 ∧
    (Z.of_nat (cache_Size (run_ops (NewContextCache ttl0 n0) l)) ≤ n0)%Z) by apply H.
  induction l as [|o l IH] using rev_ind; unfold run_ops.
  { cbn. unfold cache_Size. cbn. rewrite map_size_empty. lia. }
  rewrite foldl_app. fold (run_ops (NewContextCache ttl0 n0) l). set (c := run_ops _ l) in *. destruct IH as [IHm IHs].
  unfold cache_Size in *. destruct o as [now k|n now k resp]; cbn [foldl run_op].
  - unfold cache_Get. destruct (entries c !! _) eqn:E; [|done]. destruct (After _ _); [|done]. split; [done|]. cbn.
    pose proof (map_subseteq_size _ _ (delete_subseteq (entries c) (contextCacheKey k))). lia.
  - unfold cache_Put. destruct (ttl_of c resp); [|done]. split; [done|]. cbn [entries set_entries].
    destruct (entries c !! contextCacheKey k) as [e|] eqn:E.
    + assert (Hr : make_room c n now (contextCacheKey k) = entries c).
      { unfold make_room. by rewrite (bool_decide_eq_false_2 (_ = None)), andb_false_r by (by rewrite E). }
      rewrite Hr, map_size_insert_Some by (by rewrite E; eexists). lia.
    + pose proof (make_room_size c n now (contextCacheKey k) ltac:(lia) ltac:(lia) E).
      rewrite map_size_insert_None; [lia|]. destruct (make_room _ _ _ _ !! _) eqn:Em; [|done].
      pose proof (lookup_weaken _ _ _ _ Em (make_room_subseteq c n now _)) as Hw. congruence.
Qed.
End Cache.

(** ** A cache of one provider *)

Definition in_map_order (n : nat) (m : gmap string contextCacheEntry) : list (string * contextCacheEntry) := map_to_list m.

Definition sample_key (seller : string) : ckey := MkKey "rid-1" "home/top" "buyer_1" seller "US".
Definition sample_response (ttl : option Z) (id : string) : ProviderContextMatchResponse :=
  MkProviderContext TypeContextMatchResponse id [] ttl ∅.
Definition sample_ops : list cache_op :=
  [OpPut 0 0 (sample_key "https://a.example/") (sample_response (Some 60%Z) "first");
   OpPut 0 Second (sample_key "https://b.example/") (sample_response None "second")].

Lemma cache_hit_sound_witness :
  let c := run_ops in_map_order (NewContextCache 0 2) sample_ops in
  fst (cache_Get c (60 * Second) (sample_key "https://a.example/")) = Some (sample_response (Some 60%Z) "first") ∧
  fst (cache_Get c (60 * Second + 1) (sample_key "https://a.example/")) = None ∧
  fst (cache_Get c 0 (sample_key "https://c.example/")) = None ∧
  ∃ ttl, ttl_of c (sample_response (Some 60%Z) "first") = Some ttl ∧ (60 * Second ≤ 0 + ttl)%Z.
Proof.
  intros c. split; [by vm_compute|]. split; [by vm_compute|]. split; [by vm_compute|].
  destruct (cache_hit_sound in_map_order 0 2 sample_ops (60 * Second) (sample_key "https://a.example/")
    (sample_response (Some 60%Z) "first") c) as (l1 & n & t & l2 & ttl & E & Ht & Hle & _).
  - repeat constructor.
  - by repeat split.
  - by vm_compute.
  - exists (60 * Second)%Z. split; [by vm_compute|]. by vm_compute.
Defined.

Lemma cache_size_bounded_witness :
  let l := map (λ i : nat, OpPut 0 (Z.of_nat i) (sample_key (Join (repeat "s" i) "")) (sample_response None "r")) (seq 0 5) in
  cache_Size (run_ops in_map_order (NewContextCache 0 2) l) = 2 ∧
  (Z.of_nat (cache_Size (run_ops in_map_order (NewContextCache 0 2) l)) ≤ 2)%Z.
Proof.
  intros l. split; [by vm_compute|]. apply (cache_size_bounded in_map_order); [|done]. intros n m. reflexivity.
Defined.

(** ** What the code does and its comments deny *)

(** A response with [cache_ttl] 0, which a provider sends to stop caching after a change, does not
    displace what another leg cached: that entry is served until it ages out. *)
Theorem disable_keeps_entry :
  let k := sample_key "https://a.example/" in
  let c := run_ops in_map_order (NewContextCache 0 0)
    [OpPut 0 0 k (sample_response (Some 300%Z) "stale"); OpPut 0 Second k (sample_response (Some 0%Z) "changed")] in
  fst (cache_Get c (2 * Second) k) = Some (sample_response (Some 300%Z) "stale").
Proof. by vm_compute. Qed.

(** A [cache_ttl] that is present but negative is stored for the default time. *)
Lemma ttl_negative c resp secs : pcCacheTTL resp = Some secs → (secs < 0)%Z → ttl_of c resp = Some (defaultTTL c).
Proof.
  intros E Hs. unfold ttl_of. rewrite E. rewrite (proj2 (Z.eqb_neq _ _)) by lia. by rewrite (proj2 (Z.ltb_lt _ _)).
Qed.

(** No lifetime exceeds the ceiling of a day or the configured default. *)
Lemma ttl_of_max c resp ttl : ttl_of c resp = Some ttl → (ttl ≤ Z.max (defaultTTL c) MaxContextCacheTTL)%Z.
Proof.
  unfold ttl_of. destruct (pcCacheTTL resp) as [secs|]; [|intros [= <-]; lia].
  destruct (secs =? 0)%Z; [done|]. destruct (secs <? 0)%Z; [intros [= <-]; lia|].
  destruct (Z.ltb_spec (MaxContextCacheTTL ÷ Second) secs); intros [= <-];
    change (MaxContextCacheTTL ÷ Second)%Z with 86400%Z in *; unfold MaxContextCacheTTL, Hour, Minute, Second in *; lia.
Qed.
