(* ===== verification/Merge.v ===== *)
(** * Merge: one answer from many providers

    [router/signals.go] and the merges of [router.go]: how the responses of a fan-out, in
    the order they arrived, become the answer to the publisher.  Warnings to the log and the
    bookkeeping they need are left out. *)
From stdpp Require Import gmap strings sorting.
From S2P Require Import Prelude GoStrings Json TmpTypes Filter.
From stdpp Require Import options.

(** ** Signals *)

Definition signalSegmentsKey : string := "segments".
Definition signalTargetingKVsKey : string := "targeting_kvs".

(** The inner map of a provider's bucket holds [targeting_kvs] only: here the list itself. *)
Record signalsMerger := MkMerger {
  segments : list json;
  extra : anymap;
  byProvider : gmap string (list json);
}.

Definition newSignalsMerger : signalsMerger := MkMerger [] ∅ ∅.

(** Decoded values: an array is a [[]any], nothing is a [[]string]. *)
Definition appendSignalList (dst : list json) (value : json) : list json :=
  match value with JArr v => dst ++ v | _ => dst end.

Definition add_member (providerID : string) (m : signalsMerger) (kv : string * json) : signalsMerger :=
  let '(key, value) := kv in
  if bool_decide (key = signalSegmentsKey) then MkMerger (appendSignalList (segments m) value) (extra m) (byProvider m) else
  if bool_decide (key = signalTargetingKVsKey) then
    if bool_decide (providerID = "") then m else
    let kvs := appendSignalList [] value in
    if bool_decide (kvs = []) then m else
    MkMerger (segments m) (extra m)
      (<[providerID := appendSignalList (default [] (byProvider m !! providerID)) value]> (byProvider m))
  else MkMerger (segments m) (<[key := value]> (extra m)) (byProvider m).

(** The loop over the signals map, in the order [it] it is met. *)
Definition add_list (providerID : string) (m : signalsMerger) (it : list (string * json)) : signalsMerger :=
  foldl (add_member providerID) m it.

Definition add (m : signalsMerger) (providerID : string) (signals : anymap) : signalsMerger :=
  add_list providerID m (map_to_list signals).

Definition signals_result (m : signalsMerger) : anymap :=
  if bool_decide (segments m = []) then extra m else <[signalSegmentsKey := JArr (segments m)]> (extra m).

Definition byProviderResult (m : signalsMerger) : gmap string anymap :=
  (λ l, {[ signalTargetingKVsKey := JArr l ]} : anymap) <$> byProvider m.

(** ** Context responses *)

Record contextResult := MkContextResult { crProviderID : string; crResponse : option ProviderContextMatchResponse }.

(** Offers kept so far, with the provider that first named each package. *)
Definition merge_offer (providerID : string) (acc : gmap string string * list Offer) (o : Offer) :
    gmap string string * list Offer :=
  let '(seenPkg, offers) := acc in
  match seenPkg !! PackageID o with
  | Some _ => acc
  | None => (<[PackageID o := providerID]> seenPkg, offers ++ [o])
  end.

Definition merge_context_step (acc : gmap string string * list Offer * signalsMerger) (res : contextResult) :
    gmap string string * list Offer * signalsMerger :=
  let '(seen, signals) := acc in
  match crResponse res with
  | None => acc
  | Some r => (foldl (merge_offer (crProviderID res)) seen (pcOffers r), add signals (crProviderID res) (pcSignals r))
  end.

Definition mergeContextResponses (requestID : string) (responses : list contextResult) : ContextMatchResponse :=
  let '(_, offers, signals) := foldl merge_context_step (∅, [], newSignalsMerger) responses in
  MkContextResponse TypeContextMatchResponse requestID offers (signals_result signals) (byProviderResult signals).

(** ** Identity responses *)

Definition MinServeWindowSec : Z := 1%Z.
Definition MaxServeWindowSec : Z := 300%Z.

Definition clampServeWindowSec (n : Z) : Z :=
  if (n <? MinServeWindowSec)%Z then MinServeWindowSec else
  if (MaxServeWindowSec <? n)%Z then MaxServeWindowSec else n.

Record identityResult := MkIdentityResult {
  irProviderID : string;
  registeredSlots : list string;
  irResponse : option ProviderIdentityMatchResponse;
}.

Record identity_merge := MkIdentityMerge {
  eligibleSet : gset string;
  minServeWindowSec : Z;
  legacyTmpx : string;
  tmpxProviders : gmap string (list TmpxChunk);
}.

Definition fold_chunks (res : identityResult) (chunks : list TmpxChunk) (m : identity_merge) : identity_merge :=
  if bool_decide (chunks = []) || bool_decide (irProviderID res = "") then m else
  if negb (enforceProviderSlotContract (registeredSlots res) chunks) then m else
  MkIdentityMerge (eligibleSet m) (minServeWindowSec m)
    (match chunks with
     | [c] => if bool_decide (legacyTmpx m = "") then ChunkValue c else legacyTmpx m
     | _ => legacyTmpx m
     end)
    (<[irProviderID res := chunks]> (tmpxProviders m)).

Definition merge_identity_step (m : identity_merge) (res : identityResult) : identity_merge :=
  match irResponse res with
  | None => m
  | Some r =>
      let w := if (minServeWindowSec m <? 0)%Z || (piServeWindowSec r <? minServeWindowSec m)%Z
               then piServeWindowSec r else minServeWindowSec m in
      let m := fold_chunks res (piTmpxChunks r)
                 (MkIdentityMerge (eligibleSet m) w (legacyTmpx m) (tmpxProviders m)) in
      MkIdentityMerge (eligibleSet m ∪ list_to_set (piEligiblePackageIDs r)) (minServeWindowSec m) (legacyTmpx m)
        (tmpxProviders m)
  end.

(** [sort.Strings]. *)
Definition sort_Strings (l : list string) : list string := merge_sort String.le l.

Definition mergeIdentityResponses (requestID : string) (results : list identityResult) : IdentityMatchResponse :=
  let m := foldl merge_identity_step (MkIdentityMerge ∅ (-1) "" ∅) results in
  MkIdentityResponse TypeIdentityMatchResponse requestID (sort_Strings (elements (eligibleSet m)))
    (clampServeWindowSec (minServeWindowSec m)) (legacyTmpx m) (tmpxProviders m).

(** ** Signals, by key *)

Definition list_of (v : option json) : list json := match v with Some (JArr l) => l | _ => [] end.

Definition plain (kv : string * json) : Prop := kv.1 ≠ signalSegmentsKey ∧ kv.1 ≠ signalTargetingKVsKey.
#[export] Instance plain_dec kv : Decision (plain kv).
Proof. unfold plain. apply _. Defined.

Lemma append_list_of dst v : appendSignalList dst v = dst ++ list_of (Some v).
Proof. destruct v; cbn; by rewrite ?app_nil_r. Qed.

(** What the bucket of [q] becomes when [p] sends [kvs]. *)
Definition bucket (p q : string) (kvs : list json) (old : option (list json)) : option (list json) :=
  if decide (p = q ∧ p ≠ "" ∧ kvs ≠ []) then Some (default [] old ++ kvs) else old.

Lemma bucket_nil p q old : bucket p q [] old = old.
Proof. unfold bucket. by rewrite decide_False by (by intros (_ & _ & ?)). Qed.

Lemma add_list_spec p it : NoDup it.*1 → ∀ m, let sig : anymap := list_to_map it in
  segments (add_list p m it) = segments m ++ list_of (sig !! signalSegmentsKey) ∧
  extra (add_list p m it) = filter plain sig ∪ extra m ∧
  ∀ q, byProvider (add_list p m it) !! q = bucket p q (list_of (sig !! signalTargetingKVsKey)) (byProvider m !! q).
Proof.
  induction it as [|[k v] it IH]; intros Hn m.
  { cbn. rewrite app_nil_r, map_filter_empty, (left_id_L ∅ (∪)). split_and!; [done..|]. intros q. by rewrite bucket_nil. }
  cbn [fmap list_fmap] in Hn. apply NoDup_cons in Hn as [Hk Hn]. intros sig'.
  destruct (IH Hn (add_member p m (k, v))) as (H1 & H2 & H3). unfold sig', add_list in *. cbn [foldl].
  change (list_to_map ((k, v) :: it) : anymap) with (<[k := v]> (list_to_map it) : anymap).
  assert (Hnone : (list_to_map it : anymap) !! k = None) by (by apply not_elem_of_list_to_map).
  set (sig := list_to_map it : anymap) in *. rewrite H1, H2. setoid_rewrite H3. clear H1 H2 H3 IH sig'.
  unfold add_member. destruct (decide (k = signalSegmentsKey)) as [->|Hs].
  { rewrite bool_decide_eq_true_2 by done. cbn [segments extra byProvider].
    rewrite Hnone, lookup_insert_eq, append_list_of, app_nil_r.
    split_and!; [done| |].
    - rewrite map_filter_insert_False by (by intros [? _]). by rewrite delete_id.
    - intros q. by rewrite lookup_insert_ne. }
  rewrite (bool_decide_eq_false_2 (k = signalSegmentsKey)) by done.
  destruct (decide (k = signalTargetingKVsKey)) as [->|Ht].
  { rewrite bool_decide_eq_true_2 by done. rewrite Hnone. setoid_rewrite bucket_nil.
    rewrite lookup_insert_ne, lookup_insert_eq by done.
    rewrite map_filter_insert_False by (by intros [_ ?]). rewrite delete_id by done.
    change (list_of (Some v)) with (appendSignalList [] v).
    split_and!; [by repeat case_bool_decide..|]. intros q. unfold bucket.
    case_bool_decide as Ep; [by rewrite decide_False by (by intros (_ & ? & _))|].
    case_bool_decide as Ev; [by rewrite decide_False by (by intros (_ & _ & ?))|]. cbn.
    destruct (decide (p = q)) as [->|Hpq].
    - rewrite lookup_insert_eq, decide_True by done. f_equal. by destruct v.
    - by rewrite lookup_insert_ne, decide_False by (done || by intros (? & _)). }
  rewrite (bool_decide_eq_false_2 (k = signalTargetingKVsKey)) by done. cbn [segments extra byProvider].
  rewrite !(lookup_insert_ne _ k) by done. split_and!; [done| |done].
  rewrite map_filter_insert_True by done. rewrite <- insert_union_l, insert_union_r; [done|].
  by apply map_lookup_filter_None; left.
Qed.

Lemma add_spec m p sig :
  segments (add m p sig) = segments m ++ list_of (sig !! signalSegmentsKey) ∧
  extra (add m p sig) = filter plain sig ∪ extra m ∧
  ∀ q, byProvider (add m p sig) !! q = bucket p q (list_of (sig !! signalTargetingKVsKey)) (byProvider m !! q).
Proof.
  pose proof (add_list_spec p (map_to_list sig) (NoDup_fst_map_to_list sig) m) as H. cbn in H.
  by rewrite list_to_map_to_list in H.
Qed.

(** The order in which the loop meets the members of a signals map does not matter. *)
Lemma add_order m p sig it : it ≡ₚ map_to_list sig → add_list p m it = add m p sig.
Proof.
  intros Hp. assert (Hn : NoDup it.*1) by (rewrite Hp; apply NoDup_fst_map_to_list).
  destruct (add_list_spec p it Hn m) as (H1 & H2 & H3). destruct (add_spec m p sig) as (G1 & G2 & G3).
  assert (E : (list_to_map it : anymap) = sig) by (rewrite (list_to_map_proper it (map_to_list sig)) by done; apply list_to_map_to_list).
  rewrite E in *. destruct (add_list p m it) as [s e b], (add m p sig) as [s' e' b']. cbn in *.
  f_equal; [congruence..|]. apply map_eq. intros q. by rewrite H3, G3.
Qed.

(** ** The context answer *)

Definition answered (rs : list contextResult) : list (string * ProviderContextMatchResponse) :=
  omap (λ r, pair (crProviderID r) <$> crResponse r) rs.

(** All offers in the order they arrived, all segments, all pairs of one provider. *)
Definition all_offers (rs : list contextResult) : list Offer := concat (map (λ a, pcOffers a.2) (answered rs)).
Definition all_segments (rs : list contextResult) : list json :=
  concat (map (λ a, list_of (pcSignals a.2 !! signalSegmentsKey)) (answered rs)).
Definition all_kvs (p : string) (rs : list contextResult) : list json :=
  concat (map (λ a, if decide (a.1 = p) then list_of (pcSignals a.2 !! signalTargetingKVsKey) else []) (answered rs)).

(** The offers kept of a sequence, and the packages seen in it. *)
Definition kept (seen : gmap string string) (offers all : list Offer) : Prop :=
  (∀ k, is_Some (seen !! k) ↔ k ∈ map PackageID all) ∧ NoDup (map PackageID offers) ∧
  ∀ o, o ∈ offers ↔ ∃ l1 l2, all = l1 ++ o :: l2 ∧ PackageID o ∉ map PackageID l1.

Lemma kept_offer p seen offers all o : kept seen offers all →
  kept (merge_offer p (seen, offers) o).1 (merge_offer p (seen, offers) o).2 (all ++ [o]).
Proof.
  intros (Hs & Hn & Ho). cbn. assert (Hin : ∀ x, x ∈ offers → PackageID x ∈ map PackageID all).
  { intros x (l1 & l2 & -> & _)%Ho. rewrite map_app. apply elem_of_app. right. by left. }
  assert (Hold : ∀ x l1 l2, all ++ [o] = l1 ++ x :: l2 → PackageID x ∉ map PackageID l1 →
    x ∈ offers ∨ (x = o ∧ l1 = all)).
  { intros x l1 l2 E Hx. destruct l2 as [|y l2 _] using rev_ind.
    - apply app_inj_tail in E as [-> ->]. by right.
    - left. apply Ho. rewrite app_comm_cons, app_assoc in E. apply app_inj_tail in E as [-> _]. by exists l1, l2. }
  destruct (seen !! PackageID o) as [q|] eqn:E; cbn.
  - assert (Hp : PackageID o ∈ map PackageID all) by (apply Hs; by eexists).
    split_and!; [|done|].
    + intros k. rewrite Hs, map_app, elem_of_app. split; [by left|]. intros [?|Hk]; [done|].
      cbn in Hk. apply list_elem_of_singleton in Hk as ->. done.
    + intros x. split.
      * intros (l1 & l2 & -> & Hx)%Ho. exists l1, (l2 ++ [o]). by rewrite <- app_assoc.
      * intros (l1 & l2 & E' & Hx). destruct (Hold _ _ _ E' Hx) as [?|[-> ->]]; done.
  - assert (Hp : PackageID o ∉ map PackageID all) by (intros [? Hc]%Hs; by rewrite E in Hc).
    split_and!.
    + intros k. rewrite map_app, elem_of_app. cbn. rewrite list_elem_of_singleton.
      destruct (decide (k = PackageID o)) as [->|Hne].
      * rewrite lookup_insert_eq. split; [by right|by eexists].
      * rewrite lookup_insert_ne, Hs by done. naive_solver.
    + rewrite map_app. cbn. apply NoDup_snoc. split; [done|]. intros (x & Hx & Hin')%list_elem_of_fmap.
      apply Hp. rewrite Hx. by apply Hin.
    + intros x. rewrite elem_of_app, list_elem_of_singleton. split.
      * intros [(l1 & l2 & -> & Hx)%Ho| ->]; [exists l1, (l2 ++ [o]); by rewrite <- app_assoc|by exists all, []].
      * intros (l1 & l2 & E' & Hx). destruct (Hold _ _ _ E' Hx) as [?|[-> ->]]; auto.
Qed.

Lemma kept_offers p l : ∀ acc all, kept acc.1 acc.2 all →
  kept (foldl (merge_offer p) acc l).1 (foldl (merge_offer p) acc l).2 (all ++ l).
Proof.
  induction l as [|o l IH]; intros [seen offers] all H; cbn [foldl]; [by rewrite app_nil_r|].
  replace (all ++ o :: l) with ((all ++ [o]) ++ l) by by rewrite <- app_assoc. by apply IH, kept_offer.
Qed.

Definition merged_signals (m : signalsMerger) (rs : list contextResult) : Prop :=
  segments m = all_segments rs ∧ map_Forall (λ k v, plain (k, v)) (extra m) ∧
  ∀ p, byProvider m !! p = if decide (p ≠ "" ∧ all_kvs p rs ≠ []) then Some (all_kvs p rs) else None.

Lemma answered_snoc rs r : answered (rs ++ [r]) = answered rs ++ option_list (pair (crProviderID r) <$> crResponse r).
Proof. unfold answered. rewrite omap_app. cbn. by destruct (crResponse r). Qed.

Lemma all_snoc rs r :
  all_offers (rs ++ [r]) = all_offers rs ++ from_option pcOffers [] (crResponse r) ∧
  all_segments (rs ++ [r]) = all_segments rs ++
    from_option (λ x, list_of (pcSignals x !! signalSegmentsKey)) [] (crResponse r) ∧
  ∀ p, all_kvs p (rs ++ [r]) = all_kvs p rs ++
    from_option (λ x, if decide (crProviderID r = p) then list_of (pcSignals x !! signalTargetingKVsKey) else []) [] (crResponse r).
Proof.
  unfold all_offers, all_segments, all_kvs. rewrite answered_snoc, !map_app, !concat_app.
  destruct (crResponse r) as [x|]; cbn; rewrite !app_nil_r; (split_and!; [done..|]); intros p;
    rewrite ?map_app, ?concat_app; cbn; by rewrite !app_nil_r.
Qed.

Lemma merge_context_fold rs :
  let '(seen, offers, signals) := foldl merge_context_step (∅, [], newSignalsMerger) rs in
  kept seen offers (all_offers rs) ∧ merged_signals signals rs.
Proof.
  induction rs as [|r rs IH] using rev_ind.
  { cbn. split; [split_and!; [|constructor|]|split_and!; [done|apply map_Forall_empty|]].
    - intros k. split; [by intros [? [=]]|by intros ?%elem_of_nil].
    - intros o. split; [by intros ?%elem_of_nil|]. by intros ([] & l2 & [=] & _).
    - intros p. by rewrite decide_False by (by intros [_ ?]). }
  rewrite foldl_app. cbn [foldl]. destruct (foldl merge_context_step _ rs) as [[seen offers] signals].
  destruct IH as [Hk (Hs & He & Hb)]. destruct (all_snoc rs r) as (Eo & Es & Ek). rewrite Eo.
  unfold merge_context_step, merged_signals. rewrite Es.
  destruct (crResponse r) as [resp|]; cbn [from_option].
  2:{ rewrite !app_nil_r. split_and!; [done..|]. intros p. rewrite Ek. cbn. rewrite app_nil_r. apply Hb. }
  pose proof (kept_offers (crProviderID r) (pcOffers resp) (seen, offers) _ Hk) as Hk'.
  destruct (foldl (merge_offer _) (seen, offers) (pcOffers resp)) as [seen' offers']. split; [done|].
  destruct (add_spec signals (crProviderID r) (pcSignals resp)) as (H1 & H2 & H3).
  rewrite H1, H2, Hs. split_and!; [done| |].
  - apply map_Forall_union_2; [|done]. intros k v [_ ?]%map_lookup_filter_Some. done.
  - intros p. rewrite H3, Hb, Ek. cbn [from_option]. unfold bucket. set (old := all_kvs p rs). set (new := list_of _).
    destruct (decide (crProviderID r = p)) as [->|Hp].
    2:{ rewrite app_nil_r. rewrite (decide_False (P := _ ∧ _ ∧ _)); [done|]. by intros [? _]. }
    destruct (decide (p = "")) as [->|Hne].
    { rewrite !(decide_False (P := _ ∧ _)); [done|by intros [? _]|by intros [? _]|by intros (_ & ? & _)]. }
    destruct (decide (new = [])) as [En|En].
    { destruct (decide (p = p ∧ p ≠ "" ∧ new ≠ [])) as [(_ & _ & ?)|_]; [done|]. by rewrite En, app_nil_r. }
    rewrite (decide_True (P := p = p ∧ _)) by done. rewrite (decide_True (P := p ≠ "" ∧ old ++ new ≠ [])).
    2:{ split; [done|]. by intros [_ ?]%app_eq_nil. }
    f_equal. f_equal. destruct (decide (old = [])) as [E0|E0].
    + rewrite decide_False by (by intros [_ ?]). by rewrite E0.
    + by rewrite decide_True.
Qed.

(** C27: the answer to a context request offers every package that some provider offered exactly
    once, by the offer that arrived first; segments are concatenated in order; a provider's
    targeting pairs go unchanged, all of them, under its own registered identifier
    and never among the flat signals. *)
Theorem context_merge_spec id rs :
  let m := mergeContextResponses id rs in
  crRequestID m = id ∧ NoDup (map PackageID (crOffers m)) ∧
  (∀ o, o ∈ crOffers m ↔ ∃ l1 l2, all_offers rs = l1 ++ o :: l2 ∧ PackageID o ∉ map PackageID l1) ∧
  crSignals m !! signalTargetingKVsKey = None ∧
  list_of (crSignals m !! signalSegmentsKey) = all_segments rs ∧
  ∀ p, crSignalsByProvider m !! p =
    if decide (p ≠ "" ∧ all_kvs p rs ≠ []) then Some {[ signalTargetingKVsKey := JArr (all_kvs p rs) ]} else None.
Proof.
  cbn. unfold mergeContextResponses. pose proof (merge_context_fold rs) as H.
  destruct (foldl merge_context_step _ rs) as [[seen offers] signals]. destruct H as [(_ & Hn & Ho) (Hs & He & Hb)].
  cbn. split_and!; [done|done|done| | |].
  - unfold signals_result. assert (extra signals !! signalTargetingKVsKey = None).
    { destruct (extra signals !! _) as [v|] eqn:E; [|done]. apply He in E as [_ ?]. done. }
    case_bool_decide; [done|]. by rewrite lookup_insert_ne.
  - unfold signals_result. case_bool_decide as Hseg; [|by rewrite lookup_insert_eq, <- Hs].
    rewrite <- Hs, Hseg. destruct (extra signals !! signalSegmentsKey) as [v|] eqn:E; [|done].
    apply He in E as [? _]. done.
  - intros p. unfold byProviderResult. rewrite lookup_fmap, Hb. by case_decide.
Qed.

(** ** The identity answer *)

(** Some provider that responded lists the package. *)
Definition listed (rs : list identityResult) (pkg : string) : Prop :=
  ∃ res resp, res ∈ rs ∧ irResponse res = Some resp ∧ pkg ∈ piEligiblePackageIDs resp.

Definition windows (rs : list identityResult) : list Z := omap (λ r, piServeWindowSec <$> irResponse r) rs.

(** The chunks of a result that may be forwarded. *)
Definition forwardable (res : identityResult) (chunks : list TmpxChunk) : Prop :=
  irProviderID res ≠ "" ∧ (∃ resp, irResponse res = Some resp ∧ piTmpxChunks resp = chunks) ∧
  chunks ≠ [] ∧ map SlotID chunks `prefix_of` registeredSlots res.

Definition is_min (w : Z) (ws : list Z) : Prop := w ∈ ws ∧ Forall (λ v, w ≤ v)%Z ws.

Definition identity_inv (m : identity_merge) (rs : list identityResult) : Prop :=
  (∀ p, p ∈ eligibleSet m ↔ listed rs p) ∧
  (windows rs = [] → minServeWindowSec m = (-1)%Z) ∧
  (Forall (λ v, 0 ≤ v)%Z (windows rs) → windows rs ≠ [] → is_min (minServeWindowSec m) (windows rs)) ∧
  (∀ p cs, tmpxProviders m !! p = Some cs → ∃ res, res ∈ rs ∧ irProviderID res = p ∧ forwardable res cs) ∧
  (∀ res cs, res ∈ rs → forwardable res cs → is_Some (tmpxProviders m !! irProviderID res)) ∧
  (legacyTmpx m = "" ∨ ∃ res c, res ∈ rs ∧ forwardable res [c] ∧ legacyTmpx m = ChunkValue c).

Lemma fold_chunks_spec res resp m : irResponse res = Some resp →
  let m' := fold_chunks res (piTmpxChunks resp) m in
  eligibleSet m' = eligibleSet m ∧ minServeWindowSec m' = minServeWindowSec m ∧
  ((¬ forwardable res (piTmpxChunks resp) ∧ tmpxProviders m' = tmpxProviders m ∧ legacyTmpx m' = legacyTmpx m) ∨
   (forwardable res (piTmpxChunks resp) ∧
    tmpxProviders m' = <[irProviderID res := piTmpxChunks resp]> (tmpxProviders m) ∧
    (legacyTmpx m' = legacyTmpx m ∨ ∃ c, piTmpxChunks resp = [c] ∧ legacyTmpx m' = ChunkValue c))).
Proof.
  intros Hr. cbn. unfold fold_chunks. set (chunks := piTmpxChunks resp).
  destruct (decide (chunks = [])) as [E|E].
  { rewrite bool_decide_eq_true_2 by done. cbn. split_and!; [done..|]. left. split; [|done].
    by intros (_ & _ & ? & _). }
  rewrite (bool_decide_eq_false_2 (chunks = [])) by done. cbn.
  case_bool_decide as Ep; [split_and!; [done..|]; left; split; [by intros [? _]|done]|].
  destruct (enforceProviderSlotContract _ _) eqn:Ec; cbn.
  - split_and!; [done..|]. right. apply enforceProviderSlotContract_prefix in Ec as [_ Hp].
    split; [split_and!; [done|by exists resp|done|done]|]. split; [done|]. destruct chunks as [|c [|]]; [done| |by left].
    case_bool_decide; [right; by exists c|by left].
  - split_and!; [done..|]. left. split; [|done]. intros (_ & _ & ? & Hp).
    assert (enforceProviderSlotContract (registeredSlots res) chunks = true); [|congruence].
    by apply enforceProviderSlotContract_prefix.
Qed.

Lemma is_min_snoc a ws w : (0 ≤ w)%Z → (0 ≤ a)%Z → is_min a ws → is_min (if (w <? a)%Z then w else a) (ws ++ [w]).
Proof.
  intros Hw Ha [Hin Hall]. unfold is_min. rewrite elem_of_app, list_elem_of_singleton, Forall_app, Forall_singleton.
  destruct (Z.ltb_spec w a); split_and!; auto; try lia. eapply Forall_impl; [exact Hall|]. cbn. lia.
Qed.

Lemma identity_inv_step m rs res : identity_inv m rs → identity_inv (merge_identity_step m res) (rs ++ [res]).
Proof.
  intros (He & Hw0 & Hw & Ht1 & Ht2 & Hl).
  assert (Hin : ∀ r, r ∈ rs ++ [res] ↔ r ∈ rs ∨ r = res) by (intros r; by rewrite elem_of_app, list_elem_of_singleton).
  assert (Hwin : windows (rs ++ [res]) = windows rs ++ option_list (piServeWindowSec <$> irResponse res)).
  { unfold windows. rewrite omap_app. cbn. by destruct (irResponse res). }
  assert (Hlist : ∀ p, listed (rs ++ [res]) p ↔ listed rs p ∨ ∃ resp, irResponse res = Some resp ∧ p ∈ piEligiblePackageIDs resp).
  { intros p. unfold listed. setoid_rewrite Hin. split.
    - intros (r & x & [?| ->] & ? & ?); [left; by exists r, x|right; by exists x].
    - intros [(r & x & ? & ? & ?)|(x & ? & ?)]; [exists r, x; auto|exists res, x; auto]. }
  unfold merge_identity_step. destruct (irResponse res) as [resp|] eqn:Er.
  2:{ unfold identity_inv. rewrite Hwin. cbn. rewrite app_nil_r. split_and!; [|done|done| | |].
      - intros p. rewrite Hlist, He. split; [by left|]. by intros [?|(? & ? & _)].
      - intros p cs (r & ? & ? & ?)%Ht1. exists r. split_and!; [apply Hin; by left|done..].
      - intros r cs [?| ->]%Hin Hf; [by eapply Ht2|]. destruct Hf as (_ & (x & Hx & _) & _). congruence.
      - destruct Hl as [?|(r & c & ? & ? & ?)]; [by left|right]. exists r, c. split_and!; [apply Hin; by left|done..]. }
  set (w := if _ || _ then _ else _).
  destruct (fold_chunks_spec res resp (MkIdentityMerge (eligibleSet m) w (legacyTmpx m) (tmpxProviders m)) Er) as (Ee & Ew & Hc).
  set (m' := fold_chunks _ _ _) in *. unfold identity_inv. cbn [eligibleSet minServeWindowSec legacyTmpx tmpxProviders] in *.
  rewrite Hwin, Ew, Ee. cbn [fmap option_fmap option_map option_list].
  assert (Hold : ∀ p cs, tmpxProviders m !! p = Some cs → ∃ r, r ∈ rs ++ [res] ∧ irProviderID r = p ∧ forwardable r cs).
  { intros p cs (r & ? & ? & ?)%Ht1. exists r. split_and!; [apply Hin; by left|done..]. }
  assert (Hll : legacyTmpx m = "" ∨ ∃ r c, r ∈ rs ++ [res] ∧ forwardable r [c] ∧ legacyTmpx m = ChunkValue c).
  { destruct Hl as [?|(r & c & ? & ? & ?)]; [by left|right]. exists r, c. split_and!; [apply Hin; by left|done..]. }
  split_and!.
  - intros p. rewrite Hlist, elem_of_union, elem_of_list_to_set, He. split; [intros [?|?]; [by left|right; by exists resp]|].
    intros [?|(x & [= <-] & ?)]; auto.
  - by intros [_ [=]]%app_eq_nil.
  - intros [Hn Hr]%Forall_app _. cbn in Hr. apply Forall_cons in Hr as [Hr _]. destruct (decide (windows rs = [])) as [E|E].
    + unfold w. rewrite (Hw0 E), E. cbn. split; [by left|]. by repeat constructor.
    + specialize (Hw Hn E). assert (Hpos : (0 ≤ minServeWindowSec m)%Z).
      { destruct Hw as [Hm _]. rewrite Forall_forall in Hn. by apply Hn. }
      unfold w. rewrite (proj2 (Z.ltb_ge (minServeWindowSec m) 0)) by done. cbn. apply is_min_snoc; [exact Hr|exact Hpos|exact Hw].
  - destruct Hc as [(_ & -> & _)|(Hf & -> & _)]; [done|]. intros p cs [[<- <-]|[_ ?]]%lookup_insert_Some; [|by apply Hold].
    exists res. split_and!; [apply Hin; by right|done..].
  - intros r cs Hr Hf. apply Hin in Hr as [Hr| ->].
    + specialize (Ht2 r cs Hr Hf). destruct Hc as [(_ & -> & _)|(_ & -> & _)]; [done|]. apply lookup_insert_is_Some'. auto.
    + destruct Hc as [(Hnf & _ & _)|(_ & -> & _)]; [|rewrite lookup_insert_eq; by eexists].
      destruct Hnf. destruct Hf as (? & (x & Hx & <-) & ?). rewrite Er in Hx. injection Hx as <-. split; [done|]. split; [by exists resp|done].
  - destruct Hc as [(_ & _ & ->)|(Hf & _ & [->|(c & Hc & ->)])]; [done..|]. right. rewrite Hc in Hf. exists res, c.
    split_and!; [apply Hin; by right|done..].
Qed.

Lemma identity_fold rs : identity_inv (foldl merge_identity_step (MkIdentityMerge ∅ (-1) "" ∅) rs) rs.
Proof.
  induction rs as [|r rs IH] using rev_ind; [|rewrite foldl_app; by apply identity_inv_step].
  cbn. split_and!; [|done|done| |by intros ? ? ?%elem_of_nil|by left].
  - intros p. split; [by intros ?%elem_of_empty|]. by intros (? & ? & ?%elem_of_nil & _).
  - by intros p cs.
Qed.

Lemma clamp_range n : (1 ≤ clampServeWindowSec n ≤ 300)%Z.
Proof.
  unfold clampServeWindowSec, MinServeWindowSec, MaxServeWindowSec.
  destruct (Z.ltb_spec n 1); [lia|]. destruct (Z.ltb_spec 300 n); lia.
Qed.

(** What was reported after the last negative window: all, if none is negative. *)
Definition since_negative (ws recent : list Z) : Prop :=
  Forall (λ v, 0 ≤ v)%Z recent ∧ (ws = recent ∨ ∃ before n, ws = before ++ n :: recent ∧ (n < 0)%Z).

(** The serve window of the answer, from the windows that were reported, in order of arrival. *)
Definition window_spec (ws : list Z) (w : Z) : Prop :=
  ∃ recent, since_negative ws recent ∧ (recent = [] → w = 1%Z) ∧ (∀ v, is_min v recent → w = clampServeWindowSec v).

Lemma is_min_unique v w ws : is_min v ws → is_min w ws → v = w.
Proof.
  intros [Hv Hv'] [Hw Hw']. rewrite Forall_forall in Hv', Hw'. specialize (Hv' _ Hw). specialize (Hw' _ Hv). cbn in *. lia.
Qed.

Lemma is_min_ex ws : ws ≠ [] → ∃ v, is_min v ws.
Proof.
  induction ws as [|w ws IH]; [done|]. intros _. destruct (decide (ws = [])) as [->|Hws].
  - exists w. split; [by left|]. by repeat constructor.
  - destruct (IH Hws) as (v & Hin & Hall). destruct (Z.le_gt_cases w v).
    + exists w. split; [by left|]. constructor; [lia|]. eapply Forall_impl; [exact Hall|]. cbn. lia.
    + exists v. split; [by right|]. constructor; [lia|done].
Qed.

(** One report. *)
Definition window_step (w v : Z) : Z := if ((w <? 0) || (v <? w))%Z then v else w.

Lemma window_fold rs m : minServeWindowSec (foldl merge_identity_step m rs) = foldl window_step (minServeWindowSec m) (windows rs).
Proof.
  revert m. induction rs as [|r rs IH]; intros m; [done|]. cbn [foldl]. rewrite IH. unfold windows at 2. cbn [omap list_omap].
  unfold merge_identity_step. destruct (irResponse r) as [resp|] eqn:Er; [|done]. cbn [fmap option_fmap option_map foldl]. f_equal.
  cbn [minServeWindowSec]. match goal with |- minServeWindowSec (fold_chunks _ _ ?m') = _ => by destruct (fold_chunks_spec r resp m' Er) as (_ & -> & _) end.
Qed.

Lemma window_steps ws : ∃ recent, since_negative ws recent ∧
  (recent = [] → (foldl window_step (-1)%Z ws < 0)%Z) ∧ (recent ≠ [] → is_min (foldl window_step (-1)%Z ws) recent).
Proof.
  induction ws as [|v ws (recent & [Hr Hs] & H0 & H1)] using rev_ind.
  { exists []. split; [split; [done|by left]|]. by split. }
  rewrite foldl_app. cbn [foldl]. set (w := foldl _ _ ws) in *. destruct (Z.lt_ge_cases v 0) as [Hv|Hv].
  - exists []. split; [split; [done|right; by exists ws, v]|]. split; [|done]. intros _. unfold window_step.
    destruct (Z.ltb_spec w 0), (Z.ltb_spec v w); cbn; lia.
  - exists (recent ++ [v]). split.
    { split; [apply Forall_app; split; [done|by repeat constructor]|].
      destruct Hs as [->|(b & n & -> & Hn)]; [by left|right; exists b, n; by rewrite <- app_assoc]. }
    split; [by intros [_ [=]]%app_eq_nil|]. intros _. unfold window_step.
    destruct (decide (recent = [])) as [->|Hne]; [rewrite (proj2 (Z.ltb_lt w 0)) by auto; split; [by left|by repeat constructor]|].
    specialize (H1 Hne). assert (0 ≤ w)%Z as Hw by (destruct H1 as [Hi _]; rewrite Forall_forall in Hr; by apply Hr).
    rewrite (proj2 (Z.ltb_ge w 0)) by done. cbn. by apply is_min_snoc.
Qed.

(** C28: the answer to an identity request lists, sorted and once, exactly the packages that some
    provider lists; its window is, within the schema's bounds, the least one reported after the
    last negative one in order of arrival, so the least of all when none is negative, and the
    least the schema allows when there is none; and chunks are forwarded for a provider only
    if they are a non-empty ordered prefix of the slots it registered, whatever the others sent. *)
Theorem identity_merge_spec id rs :
  let m := mergeIdentityResponses id rs in
  Sorted String.le (irEligiblePackageIDs m) ∧ NoDup (irEligiblePackageIDs m) ∧
  (∀ p, p ∈ irEligiblePackageIDs m ↔ listed rs p) ∧
  (1 ≤ irServeWindowSec m ≤ 300)%Z ∧ window_spec (windows rs) (irServeWindowSec m) ∧
  (∀ p cs, irTmpxProviders m !! p = Some cs → ∃ res, res ∈ rs ∧ irProviderID res = p ∧ forwardable res cs) ∧
  (∀ res cs, res ∈ rs → forwardable res cs → is_Some (irTmpxProviders m !! irProviderID res)) ∧
  (irTmpx m = "" ∨ ∃ res c, res ∈ rs ∧ forwardable res [c] ∧ irTmpx m = ChunkValue c).
Proof.
  cbn. destruct (identity_fold rs) as (He & Hw0 & Hw & Ht1 & Ht2 & Hl). unfold sort_Strings. split_and!; try done.
  - apply Sorted_merge_sort, _.
  - rewrite merge_sort_Permutation. apply NoDup_elements.
  - intros p. rewrite merge_sort_Permutation, elem_of_elements. apply He.
  - apply clamp_range.
  - apply clamp_range.
  - rewrite window_fold. cbn [minServeWindowSec]. destruct (window_steps (windows rs)) as (recent & Hr & H0 & H1). exists recent.
    split; [done|]. split.
    + intros E. specialize (H0 E). unfold clampServeWindowSec, MinServeWindowSec. by rewrite (proj2 (Z.ltb_lt _ 1)) by lia.
    + intros v Hv. f_equal. apply (is_min_unique _ _ recent); [apply H1|done]. intros ->. by destruct Hv as [?%elem_of_nil _].
Qed.

(** when providers are distinct and report no negative window, the order in which their
    responses arrived changes neither the packages, nor the window, nor any provider's chunks. *)
Theorem identity_merge_order id rs rs' : rs ≡ₚ rs' → NoDup (map irProviderID rs) → Forall (λ v, 0 ≤ v)%Z (windows rs) →
  let m := mergeIdentityResponses id rs in
  let m' := mergeIdentityResponses id rs' in
  irEligiblePackageIDs m = irEligiblePackageIDs m' ∧ irServeWindowSec m = irServeWindowSec m' ∧
  irTmpxProviders m = irTmpxProviders m'.
Proof.
  intros Hp Hnd Hpos. cbn.
  destruct (identity_fold rs) as (He & Hw0 & Hw & Ht1 & Ht2 & _), (identity_fold rs') as (He' & Hw0' & Hw' & Ht1' & Ht2' & _).
  set (m := foldl _ _ rs) in *. set (m' := foldl _ _ rs') in *.
  assert (Hwin : windows rs ≡ₚ windows rs') by (unfold windows; by rewrite Hp).
  split_and!.
  - f_equal. assert (Hset : eligibleSet m = eligibleSet m'); [|by rewrite Hset].
    apply set_eq. intros p. rewrite He, He'. unfold listed. by setoid_rewrite Hp.
  - f_equal. destruct (decide (windows rs = [])) as [E|E].
    + assert (E' : windows rs' = []) by (rewrite E in Hwin; by apply Permutation_nil_l in Hwin). by rewrite (Hw0 E), (Hw0' E').
    + assert (E' : windows rs' ≠ []) by (intros E'; apply E; rewrite E' in Hwin; by apply Permutation_nil_r in Hwin).
      apply (is_min_unique _ _ (windows rs)); [by apply Hw|]. destruct (Hw' ltac:(by rewrite <- Hwin) E') as [H1 H2].
      split; [by rewrite Hwin|by rewrite Hwin].
  - assert (Huniq : ∀ r1 r2 c1 c2, r1 ∈ rs → r2 ∈ rs → irProviderID r1 = irProviderID r2 →
      forwardable r1 c1 → forwardable r2 c2 → c1 = c2).
    { intros r1 r2 c1 c2 H1 H2 E F1 F2. assert (r1 = r2) as ->.
      { apply list_elem_of_lookup_1 in H1 as [i Hi], H2 as [j Hj].
        assert (i = j) as ->; [|congruence]. apply (NoDup_lookup _ i j (irProviderID r1) Hnd).
        - by rewrite list_lookup_fmap, Hi.
        - by rewrite list_lookup_fmap, Hj, E. }
      destruct F1 as (_ & (x1 & X1 & <-) & _), F2 as (_ & (x2 & X2 & <-) & _). congruence. }
    apply map_eq. intros p. destruct (tmpxProviders m !! p) as [cs|] eqn:E.
    + destruct (Ht1 _ _ E) as (r & Hr & <- & Hf). rewrite Hp in Hr. destruct (Ht2' _ _ Hr Hf) as [cs' E'].
      rewrite E'. f_equal. destruct (Ht1' _ _ E') as (r' & Hr' & Ep & Hf'). rewrite <- Hp in Hr, Hr'.
      by apply (Huniq r r').
    + destruct (tmpxProviders m' !! p) as [cs|] eqn:E'; [|done].
      destruct (Ht1' _ _ E') as (r & Hr & <- & Hf). rewrite <- Hp in Hr. destruct (Ht2 _ _ Hr Hf). congruence.
Qed.

(** Two providers: one with a broken slot sequence, one in order. *)
Definition sample_identity_result (p : string) (slots pkgs : list string) (w : Z) (emitted : list string) : identityResult :=
  MkIdentityResult p slots (Some (MkProviderIdentity TypeIdentityMatchResponse "r" pkgs w
    (map (λ s, MkChunk s (p +:+ "-" +:+ s)) emitted))).

Definition sample_identity_results : list identityResult :=
  [sample_identity_result "a" ["s1"; "s2"] ["p2"; "p1"] 60 ["s2"]; sample_identity_result "b" ["s1"; "s2"] ["p3"; "p2"] 900 ["s1"; "s2"]].

Lemma identity_merge_order_witness :
  let m := mergeIdentityResponses "r" sample_identity_results in
  irEligiblePackageIDs m = ["p1"; "p2"; "p3"] ∧ irServeWindowSec m = 60%Z ∧ irTmpx m = "" ∧
  irTmpxProviders m = {[ "b" := [MkChunk "s1" "b-s1"; MkChunk "s2" "b-s2"] ]} ∧
  irTmpxProviders m = irTmpxProviders (mergeIdentityResponses "r" (reverse sample_identity_results)).
Proof.
  intros m. split; [by vm_compute|]. split; [by vm_compute|]. split; [by vm_compute|]. split; [by vm_compute|].
  apply (identity_merge_order "r" sample_identity_results (reverse sample_identity_results)).
  - symmetry. apply reverse_Permutation.
  - apply (bool_decide_unpack _). by vm_compute.
  - apply (bool_decide_unpack _). by vm_compute.
Defined.

(** ** What the code does and its comment denies *)

(** The minimum is lost after a negative window: it doubles as the mark of an unset minimum, so
    the answer depends on which of two responses arrived last. *)
Theorem window_order_dependent :
  let r p w := sample_identity_result p [] [] w [] in
  irServeWindowSec (mergeIdentityResponses "r" [r "a" (-5)%Z; r "b" 300%Z]) = 300%Z ∧
  irServeWindowSec (mergeIdentityResponses "r" [r "b" 300%Z; r "a" (-5)%Z]) = 1%Z.
Proof. by vm_compute. Qed.
