(* ===== verification/RouterReg.v ===== *)
(** * RouterReg: the router's property registry

    [router/registry.go]: properties by slug, by catalog identifier and by domain, and the
    signing keys of all of them by key id.  The two property indexes point to shared
    records, which attaching a key changes in place: an index holds addresses into [heap]. *)
From stdpp Require Import gmap strings.
From S2P Require Import Prelude GoStrings TmpTypes.
From stdpp Require Import options.

Record SigningKey := MkSigningKey {
  Kid : string;
  Kty : string;
  Alg : string;
  Crv : string;
  X : string;
  Use : string;
  AdcpUse : string;
  IssuedAt : Z;
  RevokedAt : option Time;
}.

#[export] Instance SigningKey_eq_dec : EqDecision SigningKey.
Proof. solve_decision. Defined.

Record RegistryProperty := MkProperty {
  PropertyID : string;
  PropertyRID : string;
  PropertyType : string;
  Domain : string;
  SigningKeys : list SigningKey;
}.

Record RouterRegistry := MkRegistry {
  heap : list RegistryProperty;
  byID : gmap string nat;
  byRID : gmap string nat;
  byDomain : gmap string string;
  byKid : gmap string SigningKey;
  sequence : Z;
}.

Definition NewRegistry : RouterRegistry := MkRegistry [] ∅ ∅ ∅ ∅ 0.

(** ** Lookups *)

Definition LookupKey (r : RouterRegistry) (kid : string) : option SigningKey := byKid r !! kid.
Definition LookupByID (r : RouterRegistry) (id : string) : option RegistryProperty := a ← byID r !! id; heap r !! a.
Definition LookupByRID (r : RouterRegistry) (rid : string) : option RegistryProperty := a ← byRID r !! rid; heap r !! a.
Definition LookupByDomain (r : RouterRegistry) (domain : string) : option string := byDomain r !! domain.
Definition PropertyRID_of (r : RouterRegistry) (id : string) : string := from_option PropertyRID "" (LookupByID r id).
Definition registry_Count (r : RouterRegistry) : nat := size (byID r).

(** ** Attaching a key *)

Fixpoint replace_key (key : SigningKey) (l : list SigningKey) : option (list SigningKey) :=
  match l with
  | [] => None
  | k :: l' => if bool_decide (Kid k = Kid key) then Some (key :: l') else cons k <$> replace_key key l'
  end.

Definition with_keys (p : RegistryProperty) (l : list SigningKey) : RegistryProperty :=
  MkProperty (PropertyID p) (PropertyRID p) (PropertyType p) (Domain p) l.

Definition AttachSigningKey (r : RouterRegistry) (rid : string) (key : SigningKey) : bool * RouterRegistry :=
  match (a ← byRID r !! rid; pair a <$> heap r !! a) with
  | None => (false, r)
  | Some (a, p) =>
      let keys := default (SigningKeys p ++ [key]) (replace_key key (SigningKeys p)) in
      (true, MkRegistry (<[a := with_keys p keys]> (heap r)) (byID r) (byRID r) (byDomain r)
               (<[Kid key := key]> (byKid r)) (sequence r))
  end.

(** ** Snapshots *)

(** One key of the property of that identifier: its kid is taken unless another owns it. *)
Definition snapshot_key (rid : string) (acc : gmap string SigningKey * gmap string string) (k : SigningKey) :
    gmap string SigningKey * gmap string string :=
  let '(kids, owner) := acc in
  if bool_decide (Kid k = "") then acc else
  match owner !! Kid k with
  | Some o => if bool_decide (o = rid) then (<[Kid k := k]> kids, <[Kid k := rid]> owner) else acc
  | None => (<[Kid k := k]> kids, <[Kid k := rid]> owner)
  end.

(** The indexes under construction, with the owners of kids and the next address. *)
Record snapshot_acc := MkAcc {
  accID : gmap string nat;
  accRID : gmap string nat;
  accDomain : gmap string string;
  accKid : gmap string SigningKey * gmap string string;
  accNext : nat;
}.

Definition snapshot_property (s : snapshot_acc) (p : RegistryProperty) : snapshot_acc :=
  MkAcc (<[PropertyID p := accNext s]> (accID s)) (<[PropertyRID p := accNext s]> (accRID s))
    (if bool_decide (Domain p = "") then accDomain s else <[Domain p := PropertyID p]> (accDomain s))
    (foldl (snapshot_key (PropertyRID p)) (accKid s) (SigningKeys p)) (S (accNext s)).

Definition applySnapshot (r : RouterRegistry) (properties : list RegistryProperty) (seq : Z) : RouterRegistry :=
  let s := foldl snapshot_property (MkAcc ∅ ∅ ∅ (∅, ∅) 0) properties in
  MkRegistry properties (accID s) (accRID s) (accDomain s) (accKid s).1 seq.

Definition LoadFromData (r : RouterRegistry) (properties : list RegistryProperty) (seq : Z) : RouterRegistry :=
  applySnapshot r properties seq.

(** ** Updates *)

Definition delete_kids (keys : list SigningKey) (m : gmap string SigningKey) : gmap string SigningKey :=
  foldl (λ m k, delete (Kid k) m) m keys.

Definition update_key (kids : gmap string SigningKey) (k : SigningKey) : gmap string SigningKey :=
  if bool_decide (Kid k = "") then kids else
  match kids !! Kid k with Some _ => kids | None => <[Kid k := k]> kids end.

Definition ApplyUpdate (r : RouterRegistry) (seq : Z) (action : string) (p : RegistryProperty) : RouterRegistry :=
  if bool_decide (action = "add") || bool_decide (action = "update") then
    let kids := match LookupByID r (PropertyID p) with
                | Some existing => delete_kids (SigningKeys existing) (byKid r)
                | None => byKid r
                end in
    let a := length (heap r) in
    MkRegistry (heap r ++ [p]) (<[PropertyID p := a]> (byID r)) (<[PropertyRID p := a]> (byRID r))
      (if bool_decide (Domain p = "") then byDomain r else <[Domain p := PropertyID p]> (byDomain r))
      (foldl update_key kids (SigningKeys p)) seq
  else if bool_decide (action = "remove") then
    match LookupByID r (PropertyID p) with
    | Some existing =>
        MkRegistry (heap r) (delete (PropertyID existing) (byID r))
          (if bool_decide (PropertyRID existing = "") then byRID r else delete (PropertyRID existing) (byRID r))
          (if bool_decide (Domain existing = "") then byDomain r else delete (Domain existing) (byDomain r))
          (delete_kids (SigningKeys existing) (byKid r)) seq
    | None => MkRegistry (heap r) (byID r) (byRID r) (byDomain r) (byKid r) seq
    end
  else MkRegistry (heap r) (byID r) (byRID r) (byDomain r) (byKid r) seq.

(** ** A snapshot replaces everything *)

(** The keys of a snapshot in order, each with the identifier of its property, and the first
    property that lists a kid: its owner. *)
Definition all_keys (ps : list RegistryProperty) : list (string * SigningKey) :=
  concat (map (λ p, pair (PropertyRID p) <$> SigningKeys p) ps).
Definition owner (kid : string) (l : list (string * SigningKey)) : option string :=
  (λ x, x.2.1) <$> list_find (λ x, Kid x.2 = kid) l.

Definition key_step (acc : gmap string SigningKey * gmap string string) (x : string * SigningKey) :
    gmap string SigningKey * gmap string string := snapshot_key x.1 acc x.2.

Definition keys_ok (acc : gmap string SigningKey * gmap string string) (l : list (string * SigningKey)) : Prop :=
  (∀ kid, acc.2 !! kid = if decide (kid = "") then None else owner kid l) ∧
  (∀ kid, is_Some (acc.1 !! kid) ↔ is_Some (acc.2 !! kid)) ∧
  (∀ kid k, acc.1 !! kid = Some k → Kid k = kid ∧ ∃ o, acc.2 !! kid = Some o ∧ (o, k) ∈ l).

Lemma owner_snoc kid l x : owner kid (l ++ [x]) =
  match owner kid l with Some o => Some o | None => if decide (Kid x.2 = kid) then Some x.1 else None end.
Proof.
  unfold owner. induction l as [|y l IH]; cbn; [by case_decide|].
  destruct (decide (Kid y.2 = kid)); cbn; [done|]. destruct (list_find _ (l ++ [x])) as [[]|], (list_find _ l) as [[]|]; done.
Qed.

Lemma keys_ok_step acc l x : keys_ok acc l → keys_ok (key_step acc x) (l ++ [x]).
Proof.
  destruct acc as [kids own], x as [rid k]. intros (Ho & Hs & Hk). unfold key_step, snapshot_key. cbn in *.
  case_bool_decide as E0.
  { split_and!; [|done|].
    - intros kid. rewrite Ho, owner_snoc. case_decide; [done|]. destruct (owner kid l); [done|].
      cbn. rewrite decide_False by congruence. done.
    - intros kid k' H. destruct (Hk _ _ H) as (? & o & ? & ?). split; [done|]. exists o. split; [done|].
      apply elem_of_app. by left. }
  assert (Hnew : keys_ok (<[Kid k:=k]> kids, <[Kid k:=rid]> own) (l ++ [(rid, k)]) ↔
    (owner (Kid k) l = None ∨ owner (Kid k) l = Some rid)).
  { split.
    - intros (H & _). specialize (H (Kid k)). cbn in H. rewrite lookup_insert_eq, decide_False, owner_snoc in H by done.
      destruct (owner (Kid k) l); [right; congruence|by left].
    - intros Hown. split_and!; cbn.
      + intros kid. rewrite owner_snoc. destruct (decide (kid = Kid k)) as [->|Hne].
        * rewrite lookup_insert_eq, decide_False by done. cbn. rewrite decide_True by done. by destruct Hown as [-> | ->].
        * rewrite lookup_insert_ne, Ho by done. case_decide; [done|]. cbn. rewrite decide_False by done. by destruct (owner kid l).
      + intros kid. destruct (decide (kid = Kid k)) as [->|Hne]; [by rewrite !lookup_insert_eq|by rewrite !lookup_insert_ne].
      + intros kid k'. intros [[<- <-]|[Hne H]]%lookup_insert_Some.
        * split; [done|]. exists rid. rewrite lookup_insert_eq. split; [done|]. apply elem_of_app. right. by left.
        * destruct (Hk _ _ H) as (? & o & ? & ?). split; [done|]. exists o. rewrite lookup_insert_ne by done.
          split; [done|]. apply elem_of_app. by left. }
  assert (Eo : own !! Kid k = owner (Kid k) l) by (by rewrite Ho, decide_False).
  rewrite Eo. destruct (owner (Kid k) l) as [o|] eqn:E; [|apply Hnew; by left].
  case_bool_decide as Er; [subst; apply Hnew; by right|]. split_and!; cbn; [|done|].
  - intros kid. rewrite Ho, owner_snoc. case_decide; [done|]. cbn. destruct (decide (Kid k = kid)) as [<-|]; [by rewrite E|by destruct (owner kid l)].
  - intros kid k' H. destruct (Hk _ _ H) as (? & o' & ? & ?). split; [done|]. exists o'. split; [done|]. apply elem_of_app. by left.
Qed.

Lemma keys_ok_fold l : keys_ok (foldl key_step (∅, ∅) l) l.
Proof.
  induction l as [|x l IH] using rev_ind; [|rewrite foldl_app; by apply keys_ok_step].
  split_and!; cbn.
  - intros kid. rewrite lookup_empty. by case_decide.
  - intros kid. by rewrite !lookup_empty.
  - intros kid k. by rewrite lookup_empty.
Qed.

Lemma snapshot_kids ps : ∀ s, accKid (foldl snapshot_property s ps) = foldl key_step (accKid s) (all_keys ps).
Proof.
  induction ps as [|p ps IH]; intros s; [done|]. cbn [foldl]. rewrite IH. unfold all_keys. cbn [map concat].
  rewrite foldl_app. f_equal. cbn. generalize (accKid s) as acc. induction (SigningKeys p) as [|k l IHl]; intros acc; [done|].
  cbn. by rewrite IHl.
Qed.

(** Where an index points to: the last property of that name. *)
Lemma snapshot_index (f : RegistryProperty → string) (g : snapshot_acc → gmap string nat) ps :
  (∀ s p, g (snapshot_property s p) = <[f p := accNext s]> (g s)) → g (MkAcc ∅ ∅ ∅ (∅, ∅) 0) = ∅ →
  ∀ id, (a ← g (foldl snapshot_property (MkAcc ∅ ∅ ∅ (∅, ∅) 0) ps) !! id; ps !! a) =
    snd <$> list_find (λ p, f p = id) (reverse ps).
Proof.
  intros Hg H0 id.
  assert (Hn : ∀ l s, accNext (foldl snapshot_property s l) = accNext s + length l).
  { induction l as [|p l IH]; intros s; cbn; [lia|]. rewrite IH. cbn. lia. }
  induction ps as [|p ps IH] using rev_ind; [cbn [foldl]; by rewrite H0, lookup_empty|].
  rewrite foldl_app, reverse_app. cbn [foldl]. rewrite Hg, Hn. cbn [accNext Nat.add].
  cbn. destruct (decide (f p = id)) as [<-|Hne].
  - rewrite lookup_insert_eq. cbn. by rewrite lookup_app_r, Nat.sub_diag by lia.
  - rewrite lookup_insert_ne by done. destruct (g (foldl _ _ ps) !! id) as [b|] eqn:E; cbn in *.
    + assert (Hb : b < length ps).
      { clear -Hg H0 Hn E. revert b E. induction ps as [|q ps IHp] using rev_ind; intros b; [cbn [foldl]; by rewrite H0, lookup_empty|].
        rewrite foldl_app, length_app. cbn [foldl]. rewrite Hg, Hn. cbn. intros [[_ <-]|[_ H]]%lookup_insert_Some; [lia|].
        apply IHp in H. lia. }
      rewrite lookup_app_l, IH by done. by destruct (list_find _ (reverse ps)) as [[]|].
    + by destruct (list_find _ (reverse ps)) as [[]|].
Qed.

(** after a snapshot a lookup by slug or by catalog identifier finds the last property of that
    name, and a key id resolves to a key of the property that lists it first, whatever
    other properties list it, and to nothing exactly when it is empty or listed by none. *)
Theorem snapshot_lookups r ps seq :
  let r' := applySnapshot r ps seq in
  (∀ id, LookupByID r' id = snd <$> list_find (λ p, PropertyID p = id) (reverse ps)) ∧
  (∀ rid, LookupByRID r' rid = snd <$> list_find (λ p, PropertyRID p = rid) (reverse ps)) ∧
  (∀ kid k, LookupKey r' kid = Some k → Kid k = kid ∧
     ∃ p, p ∈ ps ∧ k ∈ SigningKeys p ∧ owner kid (all_keys ps) = Some (PropertyRID p)) ∧
  (∀ kid, LookupKey r' kid = None ↔ kid = "" ∨ owner kid (all_keys ps) = None).
Proof.
  cbn. split_and!.
  - intros id. by apply (snapshot_index PropertyID accID ps).
  - intros rid. by apply (snapshot_index PropertyRID accRID ps).
  - unfold LookupKey. cbn. rewrite snapshot_kids. cbn. destruct (keys_ok_fold (all_keys ps)) as (Ho & _ & Hk).
    intros kid k H. destruct (Hk _ _ H) as (? & o & Eo & Hin). split; [done|]. rewrite Ho in Eo. case_decide; [done|].
    unfold all_keys in Hin. apply list_elem_of_In, in_concat in Hin as (l & Hl & Hin). apply in_map_iff in Hl as (p & <- & Hp).
    apply list_elem_of_In, list_elem_of_fmap in Hin as (k' & [= -> ->] & Hk'). exists p. split_and!; [by apply list_elem_of_In|done|done].
  - unfold LookupKey. cbn. rewrite snapshot_kids. cbn. destruct (keys_ok_fold (all_keys ps)) as (Ho & Hs & _).
    intros kid. specialize (Hs kid). rewrite Ho in Hs. rewrite eq_None_not_Some, Hs. case_decide; [split; [by left|by intros _ []%is_Some_None]|].
    rewrite <- eq_None_not_Some. split; [by right|by intros [?|?]].
Qed.

(** ** What updates do and their comments deny *)

Definition key_of (kid x : string) : SigningKey := MkSigningKey kid "OKP" "EdDSA" "Ed25519" x "sig" "" 0 None.
Definition property_a : RegistryProperty := MkProperty "a" "rid-a" "website" "a.example" [key_of "k1" "AAAA"].
Definition property_b : RegistryProperty := MkProperty "b" "rid-b" "website" "b.example" [key_of "k1" "BBBB"].

(** A second property that lists a kid of the first is refused it, but when it is updated once more
    the entry of the first is deleted as if it were its own, and its key takes the kid. *)
Theorem kid_taken_over :
  let r0 := applySnapshot NewRegistry [property_a] 1 in
  let r1 := ApplyUpdate r0 2 "add" property_b in
  let r2 := ApplyUpdate r1 3 "update" property_b in
  LookupKey r1 "k1" = Some (key_of "k1" "AAAA") ∧ LookupKey r2 "k1" = Some (key_of "k1" "BBBB") ∧
  LookupKey (ApplyUpdate r1 3 "remove" property_b) "k1" = None ∧
  LookupKey (applySnapshot NewRegistry [property_a; property_b] 3) "k1" = Some (key_of "k1" "AAAA").
Proof. by vm_compute. Qed.

(** An update that changes a catalog identifier or a domain leaves the old one resolvable. *)
Theorem update_keeps_old_names :
  let r0 := applySnapshot NewRegistry [property_a] 1 in
  let r1 := ApplyUpdate r0 2 "update" (MkProperty "a" "rid-new" "website" "new.example" []) in
  PropertyRID <$> LookupByRID r1 "rid-a" = Some "rid-a" ∧ LookupByDomain r1 "a.example" = Some "a".
Proof. by vm_compute. Qed.
