(* ===== verification/Router.v ===== *)
(** * Router: fan-out

    [router/router.go]: what happens to a request between its decoding and the answer.
    [prepareContext] and [prepareIdentity] are the handlers up to the fan-out.  Legs of a
    context fan-out share the response cache: they are threads of a world that also
    holds what was sent and what came back, and a schedule interleaves the legs of all
    requests.  Legs of an identity fan-out share nothing but the health counters, whose
    answers are given. *)
From stdpp Require Import gmap strings.
From S2P Require Import Prelude GoStrings Unicode Json StrictJson UrlCanon SigBase TmpTypes TmpUrl TmpValidate JsonTypes Provider Filter Health CtxCache Merge RouterReg.
From stdpp Require Import options.

(** ** Small pieces *)

Inductive ctx_err := CtxOk | CtxDeadlineExceeded | CtxCanceled.

(** Timed out, and cancelled by the caller. *)
Definition classifyCallFailure (e : ctx_err) : bool * bool :=
  match e with CtxDeadlineExceeded => (true, false) | CtxCanceled => (false, true) | CtxOk => (false, false) end.

Definition effectiveTimeout (latencyBudget providerTimeout : Duration) : Duration :=
  let t := if (providerTimeout =? 0)%Z then (30 * Millisecond)%Z else providerTimeout in
  if ((0 <? latencyBudget) && (latencyBudget <? t))%Z then latencyBudget else t.

Definition contextCountry (geo : anymap) : string :=
  match geo !! "country" with Some (JStr s) => s | _ => "" end.

Inductive ErrorCode := InvalidRequest | UnknownPackage | RateLimited | TimedOut | InternalError | ProviderUnavailable | SellerNotAuthorized.

(** The status of [writeError]. *)
Definition error_status (code : ErrorCode) : Z :=
  match code with
  | RateLimited => 429
  | TimedOut => 504
  | InternalError => 500
  | ProviderUnavailable => 503
  | _ => 400
  end%Z.

(** ** The call of a provider *)

Inductive call_error :=
  | Transport (why : string)
  | BadStatus (code : Z)
  | BadBody
  | ForbiddenKey (key : string)
  | ProviderAppError (code message : string)
  | WrongType (got : string).

Definition providerHopForbiddenFields : list string :=
  ["tmpx_providers"; "tmpx"; "tmpx_values"; "tmpx_macros"; "context"; "ext"].

Definition MaxResponseBytes : Z := (1024 * 1024)%Z.

Section Call.
Context `{RT : Runtime}.

Definition canonicalizeSellerForCache (raw : string) : string :=
  if bool_decide (raw = "") then "" else
  match Canonicalize raw with Ok c => c | Err _ => raw end.

(** [checkResponseType] on the decoded [type] and the type the hop expects. *)
Definition checkResponseType (got expected body : string) : result call_error unit :=
  if bool_decide (got = "") || bool_decide (got = expected) then Ok tt else
  if bool_decide (got = TypeError) then
    match unmarshal ErrorType body with
    | Some v => Err (ProviderAppError (get_string (tmp_field ErrorType "code" v)) (get_string (tmp_field ErrorType "message" v)))
    | None => Err (ProviderAppError "" "")
    end
  else Err (WrongType got).

(** What the client returned: an error, or a status and a body. *)
Definition http_result := result string (Z * string).

Definition callProviderStrict {A} (t : gtype) (decode : json → A) (type_of : A → string) (expected : string)
    (forbidden : list string) (http : http_result) : result call_error A :=
  match http with
  | Err e => Err (Transport e)
  | Ok (status, body) =>
      if negb (status =? 200)%Z then Err (BadStatus status) else
      let body := stake (Z.to_nat MaxResponseBytes) body in
      _ ← (if bool_decide (forbidden = []) then Ok tt else
           probe ← opt_err BadBody (unmarshal_raw_map body);
           match filter (λ k, k ∈ probe.*1) forbidden with k :: _ => Err (ForbiddenKey k) | [] => Ok tt end);
      v ← opt_err BadBody (unmarshal t body);
      let r := decode v in
      _ ← checkResponseType (type_of r) expected body;
      Ok r
  end.

Definition callContext : http_result → result call_error ProviderContextMatchResponse :=
  callProviderStrict ContextResponseType decode_context_response pcType TypeContextMatchResponse [].
Definition callIdentity : http_result → result call_error ProviderIdentityMatchResponse :=
  callProviderStrict IdentityResponseType decode_identity_response piType TypeIdentityMatchResponse providerHopForbiddenFields.

(** What a leg that called a provider does to its health entry, in order. *)
Definition leg_methods (failed : bool) (e : ctx_err) : list method :=
  let '(timeout, cancelled) := classifyCallFailure e in
  [MOpen; MIncr] ++
  (if failed then if timeout : bool then [MTimeout] else if cancelled : bool then [] else [MFailure] else [MSuccess]) ++ [MDecr].

(** ** From a decoded request to its legs *)

Definition with_property (req : ContextMatchRequest) (id rid : string) : ContextMatchRequest :=
  MkContextRequest (cmType req) (cmProtocolVersion req) (cmRequestID req) rid id (cmPropertyType req) (cmPlacementID req)
    (cmSellerAgentURL req) (cmArtifact req) (cmArtifactRefs req) (cmGeo req) (cmContextSignals req) (cmPackageIDs req).

(** Either identifier is completed from the registry. *)
Definition enrich (reg : option RouterRegistry) (req : ContextMatchRequest) : ContextMatchRequest :=
  match reg with
  | None => req
  | Some r =>
      if negb (bool_decide (cmPropertyID req = "")) then
        match LookupByID r (cmPropertyID req) with
        | Some p => with_property req (cmPropertyID req) (PropertyRID p)
        | None => req
        end
      else if negb (bool_decide (cmPropertyRID req = "")) then
        match LookupByRID r (cmPropertyRID req) with
        | Some p => with_property req (PropertyID p) (cmPropertyRID req)
        | None => req
        end
      else req
  end.

Definition prepareContext (reg : option RouterRegistry) (ps : ProviderSet) (req : ContextMatchRequest) :
    result string (ContextMatchRequest * list ProviderConfig) :=
  let req := enrich reg req in
  _ ← ValidateContextRequest req;
  let req := with_artifact req (StripAccess (cmArtifact req)) in
  Ok (req, filter (λ p, MatchesContextProvider req p = true) (Active ps)).

Definition with_packages (req : ContextMatchRequest) (l : list string) : ContextMatchRequest :=
  MkContextRequest (cmType req) (cmProtocolVersion req) (cmRequestID req) (cmPropertyRID req) (cmPropertyID req)
    (cmPropertyType req) (cmPlacementID req) (cmSellerAgentURL req) (cmArtifact req) (cmArtifactRefs req) (cmGeo req)
    (cmContextSignals req) l.

(** The request a leg sends. *)
Definition context_forward (req : ContextMatchRequest) (p : ProviderConfig) : ContextMatchRequest :=
  if bool_decide (PackageIDs p = []) then req else with_packages req (filterPackageIDsForProvider (cmPackageIDs req) p).

Definition cache_key (req : ContextMatchRequest) (p : ProviderConfig) : ckey :=
  MkKey (cmPropertyRID req) (cmPlacementID req) (ID p) (canonicalizeSellerForCache (cmSellerAgentURL req))
    (contextCountry (cmGeo req)).

Definition prepareIdentity (ps : ProviderSet) (req : IdentityMatchRequest) :
    result string (IdentityMatchRequest * list ProviderConfig) :=
  req ← ValidateIdentityRequest req;
  let matching := filter (λ p, MatchesIdentityProvider req p = true) (Active ps) in
  Ok (with_country req "", matching).

Definition with_subset (req : IdentityMatchRequest) (ids : list IdentityToken) (creds : list SealedCredential) : IdentityMatchRequest :=
  MkIdentityRequest (imType req) (imProtocolVersion req) (imRequestID req) (imSellerAgentURL req) ids (imConsent req)
    (imPackageIDs req) (imCountry req) creds.

(** The request a leg signs and sends; none when the provider can resolve no token of it. *)
Definition identity_forward (req : IdentityMatchRequest) (p : ProviderConfig) : option IdentityMatchRequest :=
  let ids := filterIdentitiesForProvider (imIdentities req) p in
  if bool_decide (ids = []) then None else
  Some (with_subset req ids (filterSealedCredentialsForProvider (imSealedCredentials req) p)).

(** What the client is handed: the provider it is for, where it goes, its header, and the request its body holds. *)
Record outbound := MkOutbound { oProvider : ProviderConfig; oURL : string; oHeader : Header; oRequest : IdentityMatchRequest }.

(** The header of a call: the content type, then each of the signer's. *)
Definition call_header (headers : list (string * string)) : Header :=
  foldl (λ h kv, HeaderSet h kv.1 kv.2) (HeaderSet [] "Content-Type" "application/json") headers.

(** A leg up to its call: the circuit, the subset, and the signer, who is given that subset and the
    endpoint of the provider. *)
Definition identity_call (circuit_open : string → bool)
    (sign : IdentityMatchRequest → string → result string (list (string * string)))
    (req : IdentityMatchRequest) (p : ProviderConfig) : option outbound :=
  if circuit_open (ID p) then None else
  forward ← identity_forward req p;
  match sign forward (Endpoint p) with
  | Err _ => None
  | Ok sigHeaders => Some (MkOutbound p (Endpoint p +:+ "/identity") (call_header sigHeaders) forward)
  end.

(** One leg: what it sends, and what it makes of the response. *)
Definition identity_leg (circuit_open : string → bool)
    (sign : IdentityMatchRequest → string → result string (list (string * string)))
    (http : outbound → http_result) (req : IdentityMatchRequest) (p : ProviderConfig) : option identityResult :=
  out ← identity_call circuit_open sign req p;
  match callIdentity (http out) with
  | Ok r => Some (MkIdentityResult (ID p) (TmpxSlots p) (Some r))
  | Err _ => None
  end.

(** What the fan-out sends. *)
Definition identity_sent (circuit_open : string → bool)
    (sign : IdentityMatchRequest → string → result string (list (string * string)))
    (req : IdentityMatchRequest) (legs : list ProviderConfig) : list outbound :=
  omap (identity_call circuit_open sign req) legs.

(** The answer, and what was sent for it; the legs arrive in the order [arrival]. *)
Definition HandleIdentityMatch (ps : ProviderSet) (circuit_open : string → bool)
    (sign : IdentityMatchRequest → string → result string (list (string * string)))
    (http : outbound → http_result) (arrival : list ProviderConfig → list ProviderConfig)
    (req : IdentityMatchRequest) : result string (IdentityMatchResponse * list outbound) :=
  '(req, matching) ← prepareIdentity ps req;
  Ok (mergeIdentityResponses (imRequestID req) (omap (identity_leg circuit_open sign http req) (arrival matching)),
      identity_sent circuit_open sign req matching).

(** ** The context fan-out as threads *)

(** A leg: before the lookup; missed; let through by the circuit; with a fresh response; ended at
    an instant with or without a response. *)
Inductive stage :=
  | Looking
  | Missed
  | Calling
  | Fetched (r : ProviderContextMatchResponse)
  | Ended (t : Time) (r : option ProviderContextMatchResponse).

Record leg := MkLeg { lRequest : nat; lProvider : ProviderConfig; lStage : stage }.

(** A response a provider gave to a request of the router, and when it was stored. *)
Record reply := MkReply { rProvider : ProviderConfig; rRequest : ContextMatchRequest; rResponse : ProviderContextMatchResponse; rTime : Time }.

Record world := MkWorld {
  fCache : option ContextCache;
  requests : list ContextMatchRequest;
  legs : list leg;
  sent : list (ProviderConfig * ContextMatchRequest);
  replies : list reply;
  arrivals : list (nat * contextResult);
}.

Definition new_world (cache : option ContextCache) : world := MkWorld cache [] [] [] [] [].

Inductive action :=
  | Receive (reg : option RouterRegistry) (ps : ProviderSet) (req : ContextMatchRequest)
  | Look (i : nat) (now : Time)
  | Circuit (i : nat) (is_open : bool)
  | CallProvider (i : nat) (now : Time) (http : http_result)
  | StoreReply (i n : nat) (now : Time).

Variable order : nat → gmap string contextCacheEntry → list (string * contextCacheEntry).

Definition set_leg (w : world) (i : nat) (l : leg) (s : stage) : list leg :=
  <[i := MkLeg (lRequest l) (lProvider l) s]> (legs w).

Definition end_leg (w : world) (i : nat) (l : leg) (now : Time) (r : option ProviderContextMatchResponse) : world :=
  MkWorld (fCache w) (requests w) (set_leg w i l (Ended now r)) (sent w) (replies w)
    (match r with
     | Some r => arrivals w ++ [(lRequest l, MkContextResult (ID (lProvider l)) (Some r))]
     | None => arrivals w
     end).

Definition set_cache (w : world) (c : option ContextCache) : world :=
  MkWorld c (requests w) (legs w) (sent w) (replies w) (arrivals w).

Definition leg_step (w : world) (a : action) (i : nat) (l : leg) (req : ContextMatchRequest) : world :=
  match lStage l, a with
  | Looking, Look _ now =>
      match fCache w with
      | None => MkWorld (fCache w) (requests w) (set_leg w i l Missed) (sent w) (replies w) (arrivals w)
      | Some c =>
          let '(hit, c) := cache_Get c now (cache_key req (lProvider l)) in
          let w := set_cache w (Some c) in
          match hit with
          | Some r => end_leg w i l now (Some r)
          | None => MkWorld (fCache w) (requests w) (set_leg w i l Missed) (sent w) (replies w) (arrivals w)
          end
      end
  | Missed, Circuit _ is_open =>
      if is_open then end_leg w i l 0 None
      else MkWorld (fCache w) (requests w) (set_leg w i l Calling) (sent w) (replies w) (arrivals w)
  | Calling, CallProvider _ now http =>
      let w := MkWorld (fCache w) (requests w) (legs w) (sent w ++ [(lProvider l, context_forward req (lProvider l))])
                 (replies w) (arrivals w) in
      match callContext http with
      | Err _ => end_leg w i l now None
      | Ok r => MkWorld (fCache w) (requests w) (set_leg w i l (Fetched r)) (sent w) (replies w) (arrivals w)
      end
  | Fetched r, StoreReply _ n now =>
      let w := MkWorld ((λ c, cache_Put order c n now (cache_key req (lProvider l)) r) <$> fCache w) (requests w) (legs w)
                 (sent w) (replies w ++ [MkReply (lProvider l) req r now]) (arrivals w) in
      end_leg w i l now (Some r)
  | _, _ => w
  end.

Definition leg_of (a : action) : option nat :=
  match a with
  | Receive _ _ _ => None
  | Look i _ | Circuit i _ | CallProvider i _ _ | StoreReply i _ _ => Some i
  end.

Definition step (w : world) (a : action) : world :=
  match a with
  | Receive reg ps raw =>
      match prepareContext reg ps raw with
      | Err _ => w
      | Ok (req, matching) =>
          MkWorld (fCache w) (requests w ++ [req])
            (legs w ++ map (λ p, MkLeg (length (requests w)) p Looking) matching) (sent w) (replies w) (arrivals w)
      end
  | _ =>
      match (i ← leg_of a; l ← legs w !! i; req ← requests w !! lRequest l; Some (i, l, req)) with
      | Some (i, l, req) => leg_step w a i l req
      | None => w
      end
  end.

Definition run (w : world) (l : list action) : world := foldl step w l.

(** The answer to request [k] from the results that have arrived. *)
Definition answer (w : world) (k : nat) (req : ContextMatchRequest) : ContextMatchResponse :=
  mergeContextResponses (cmRequestID req) (map snd (filter (λ a, a.1 = k) (arrivals w))).

End Call.
