(* ===== verification/RouterThm.v ===== *)
(** * RouterThm: what the router may say and to whom

    Invariants of the world of [Router] under every schedule, and the theorems on the two
    fan-outs. *)
From stdpp Require Import gmap strings.
From S2P Require Import Prelude GoStrings Unicode Json NetUrl StrictJson UrlCanon SigBase TmpTypes TmpUrl TmpValidate JsonTypes Provider Filter Health CtxCache Merge RouterReg Router.
From stdpp Require Import options.

Section RouterThm.
Context `{RT : Runtime}.
Variable order : nat → gmap string contextCacheEntry → list (string * contextCacheEntry).

(** ** Keys of validated requests *)

Lemma word_no_nul s : all_bytes (λ c, is_alnum c || beq c "_") s = true → contains_byte s NUL = false.
Proof. by apply all_bytes_no. Qed.

Definition same_tenant (r1 r2 : ContextMatchRequest) : Prop :=
  cmPropertyRID r1 = cmPropertyRID r2 ∧ cmPlacementID r1 = cmPlacementID r2 ∧
  canonicalizeSellerForCache (cmSellerAgentURL r1) = canonicalizeSellerForCache (cmSellerAgentURL r2) ∧
  contextCountry (cmGeo r1) = contextCountry (cmGeo r2).

Definition request_clean (req : ContextMatchRequest) : Prop :=
  no_control (cmPropertyRID req) = true ∧ no_control (cmPlacementID req) = true ∧
  contains_byte (contextCountry (cmGeo req)) NUL = false.

Definition provider_clean (p : ProviderConfig) : Prop := contains_byte (ID p) NUL = false.

Lemma valid_request_clean req : ValidateContextRequest req = Ok tt → request_clean req.
Proof.
  intros H. destruct (context_request_clean req H) as (? & ? & _ & _). split_and!; [done..|].
  unfold contextCountry. destruct (cmGeo req !! "country") as [v|] eqn:E; [|done].
  destruct (context_country_clean req H v E) as (a & b & -> & Ha & Hb).
  assert (Hab : ∀ c, between 65 90 c = true → beq c NUL = false).
  { intros c Hc. apply beq_neq. intros ->. by vm_compute in Hc. }
  rewrite !contains_byte_cons, (Hab a Ha), (Hab b Hb). done.
Qed.

Lemma cache_key_clean req p : request_clean req → provider_clean p → key_clean (cache_key req p).
Proof.
  intros (Hr & Hp & Hc) Hi. split_and!; cbn; [by apply no_control_nul|by apply no_control_nul|done|done].
Qed.

Lemma cache_key_same r1 p1 r2 p2 : request_clean r1 → provider_clean p1 → request_clean r2 → provider_clean p2 →
  contextCacheKey (cache_key r1 p1) = contextCacheKey (cache_key r2 p2) → same_tenant r1 r2 ∧ ID p1 = ID p2.
Proof.
  intros C1 P1 C2 P2 E. apply contextCacheKey_inj in E; [|by apply cache_key_clean..].
  unfold cache_key in E. by injection E as ? ? ? ? ?.
Qed.

(** ** The cache holds replies *)

Definition reply_key (r : reply) : string := contextCacheKey (cache_key (rRequest r) (rProvider r)).

Definition cache_inv (D : Duration) (c : ContextCache) (rs : list reply) : Prop :=
  defaultTTL c = D ∧
  ∀ key e, entries c !! key = Some e → ∃ r, r ∈ rs ∧ reply_key r = key ∧ rResponse r = response e ∧
    (expiresAt e ≤ rTime r + Z.max D MaxContextCacheTTL)%Z.

Lemma cache_inv_more D c rs rs' : (∀ r, r ∈ rs → r ∈ rs') → cache_inv D c rs → cache_inv D c rs'.
Proof. intros Hs [Hd H]. split; [done|]. intros key e He. destruct (H key e He) as (r & ? & ?). exists r. split; [auto|done]. Qed.

Lemma cache_inv_get D c now k hit c' rs : cache_inv D c rs → cache_Get c now k = (hit, c') →
  cache_inv D c' rs ∧ ∀ r, hit = Some r → ∃ rep, rep ∈ rs ∧ reply_key rep = contextCacheKey k ∧ rResponse rep = r ∧
    (now ≤ rTime rep + Z.max D MaxContextCacheTTL)%Z.
Proof.
  intros [Hd H]. unfold cache_Get. destruct (entries c !! contextCacheKey k) as [e|] eqn:E; [|by intros [= <- <-]].
  destruct (After now (expiresAt e)) eqn:Ea; intros [= <- <-].
  - split; [|done]. split; [done|]. intros key e' He. cbn in He. apply lookup_delete_Some in He as [_ ?]. by apply H.
  - split; [done|]. intros r [= <-]. destruct (H _ _ E) as (rep & ? & ? & ? & ?). exists rep. split_and!; [done..|].
    unfold After in Ea. apply Z.ltb_ge in Ea. lia.
Qed.

Lemma cache_inv_put D c n p req r now rs : cache_inv D c rs →
  cache_inv D (cache_Put order c n now (cache_key req p) r) (rs ++ [MkReply p req r now]).
Proof.
  intros [Hd H]. assert (Hm : cache_inv D c (rs ++ [MkReply p req r now])).
  { eapply cache_inv_more; [|by split]. intros. apply elem_of_app. by left. }
  unfold cache_Put. destruct (ttl_of c r) as [ttl|] eqn:Et; [|done]. split; [done|].
  intros key e He. cbn in He. apply lookup_insert_Some in He as [[<- <-]|[Hne He]].
  - exists (MkReply p req r now). split_and!; [apply elem_of_app; right; by left|done|done|].
    pose proof (ttl_of_max c r ttl Et). rewrite Hd in *. unfold Add. cbn. lia.
  - destruct Hm as [_ Hm]. apply Hm. by eapply lookup_weaken; [|apply (make_room_subseteq order c n now)].
Qed.

(** ** The invariant *)

Definition no_access (a : Asset) : Prop :=
  match a with
  | Text _ => True
  | Image i => ImageAccess i = None
  | Video v => VideoAccess v = None
  | Audio u => AudioAccess u = None
  | Unknown _ raw => raw !! "access" = None
  end.

Lemma strip_no_access a : no_access (strip_asset a).
Proof.
  destruct a as [| | | |t raw]; cbn; try done. unfold stripAccessFromRawAsset.
  destruct (rawAssetAccessIsSignedURL _); [rewrite lookup_delete_ne by done|]; apply lookup_delete_eq.
Qed.

(** A request as the router works on it. *)
Definition request_ok (req : ContextMatchRequest) : Prop :=
  request_clean req ∧ ∀ a, cmArtifact req = Some a → Forall no_access (Assets a).

(** A provider asked about a request. *)
Definition asked (p : ProviderConfig) (req : ContextMatchRequest) : Prop :=
  provider_clean p ∧ EffectiveStatus p = ProviderStatusActive ∧ MatchesContextProvider req p = true.

(** [r], given at [t] for [req] by the provider of [p], comes from a reply to the same tenant. *)
Definition backed (D : Duration) (rs : list reply) (req : ContextMatchRequest) (p : ProviderConfig) (t : Time)
    (r : ProviderContextMatchResponse) : Prop :=
  ∃ rep, rep ∈ rs ∧ rResponse rep = r ∧ ID (rProvider rep) = ID p ∧ same_tenant (rRequest rep) req ∧
    (rTime rep = t ∨ (t ≤ rTime rep + Z.max D MaxContextCacheTTL)%Z).

Definition leg_ok (D : Duration) (w : world) (l : leg) : Prop :=
  ∃ req, requests w !! lRequest l = Some req ∧ asked (lProvider l) req ∧
    ∀ t r, lStage l = Ended t (Some r) → backed D (replies w) req (lProvider l) t r.

Definition world_ok (D : Duration) (w : world) : Prop :=
  Forall request_ok (requests w) ∧
  (∀ l, l ∈ legs w → leg_ok D w l) ∧
  (∀ c, fCache w = Some c → cache_inv D c (replies w)) ∧
  (∀ rep, rep ∈ replies w → rRequest rep ∈ requests w ∧ asked (rProvider rep) (rRequest rep)) ∧
  (∀ p f, (p, f) ∈ sent w → ∃ req, req ∈ requests w ∧ asked p req ∧ f = context_forward req p) ∧
  (∀ k res, (k, res) ∈ arrivals w → ∃ l t r, l ∈ legs w ∧ lRequest l = k ∧ lStage l = Ended t (Some r) ∧
     res = MkContextResult (ID (lProvider l)) (Some r)).

(** Provider sets are well-formed and their identifiers valid. *)
Definition set_ok (ps : ProviderSet) : Prop :=
  set_wf ps ∧ Forall (λ p, ∃ budget, ValidateProviderConfig p budget = Ok tt) (All ps).

Definition action_ok (a : action) : Prop := match a with Receive _ ps _ => set_ok ps | _ => True end.

Lemma prepare_ok reg ps raw req matching : set_ok ps → prepareContext reg ps raw = Ok (req, matching) →
  request_ok req ∧ Forall (λ p, asked p req) matching.
Proof.
  intros [Hwf Hv] H. unfold prepareContext in H. apply bind_Ok in H as ([] & Hval & [= <- <-]).
  set (r0 := enrich reg raw) in *. split; [split|].
  - by apply (valid_request_clean r0).
  - intros a Ha. cbn in Ha. apply fmap_Some in Ha as (a0 & _ & ->). cbn. apply Forall_map, Forall_forall. intros x _. apply strip_no_access.
  - apply Forall_forall. intros p Hp. apply list_elem_of_filter in Hp as [Hm Hp].
    apply (active_spec ps p Hwf) in Hp as [Hin Hact]. split_and!; [|done|done].
    rewrite Forall_forall in Hv. destruct (Hv p Hin) as [b Hb]. apply valid_provider_id in Hb as (_ & _ & Hb).
    by apply word_no_nul.
Qed.

(** ** The invariant is kept *)

Lemma backed_more D rs rs' req p t r : (∀ x, x ∈ rs → x ∈ rs') → backed D rs req p t r → backed D rs' req p t r.
Proof. intros Hs (rep & ? & ?). exists rep. split; [auto|done]. Qed.

Lemma lookup_prefix {A} (l l' : list A) i x : l !! i = Some x → (l ++ l') !! i = Some x.
Proof. intros H. by apply lookup_app_l_Some. Qed.

(** A leg stays as it was when requests and replies are added. *)
Lemma leg_ok_more D w w' l more : requests w' = requests w ++ more → (∀ x, x ∈ replies w → x ∈ replies w') →
  leg_ok D w l → leg_ok D w' l.
Proof.
  intros Hr Hs (req & ? & ? & Hb). exists req. rewrite Hr. split_and!; [by apply lookup_prefix|done|].
  intros t r Ht. by eapply backed_more; [|apply Hb].
Qed.

Definition running (l : leg) : Prop := ∀ t r, lStage l ≠ Ended t r.

Lemma set_leg_elem (w : world) i l s x : legs w !! i = Some l →
  x ∈ set_leg w i l s → x = MkLeg (lRequest l) (lProvider l) s ∨ x ∈ legs w.
Proof.
  intros Hl Hx. unfold set_leg in Hx. apply list_elem_of_lookup in Hx as [j Hj].
  apply list_lookup_insert_Some in Hj as [(_ & <- & _)|[_ Hj]]; [by left|right]. by eapply list_elem_of_lookup_2.
Qed.

Lemma set_leg_keeps (w : world) i l s x t r : legs w !! i = Some l → running l → x ∈ legs w → lStage x = Ended t r →
  x ∈ set_leg w i l s.
Proof.
  intros Hl Hrun Hx Ht. unfold set_leg. apply list_elem_of_lookup in Hx as [j Hj].
  apply (list_elem_of_lookup_2 _ j). rewrite list_lookup_insert_ne; [done|]. intros ->. simplify_eq. by eapply Hrun.
Qed.

Lemma set_leg_new (w : world) i l s : legs w !! i = Some l → MkLeg (lRequest l) (lProvider l) s ∈ set_leg w i l s.
Proof.
  intros Hl. apply (list_elem_of_lookup_2 _ i). unfold set_leg. apply list_lookup_insert_eq. by eapply lookup_lt_Some.
Qed.

(** The steps of a leg: only the leg changes its stage, and the rest of the invariant is kept. *)
Section LegStep.
Context (D : Duration) (w : world) (i : nat) (l : leg) (req : ContextMatchRequest).
Context (Hw : world_ok D w) (Hl : legs w !! i = Some l) (Hreq : requests w !! lRequest l = Some req) (Hrun : running l).

Lemma leg_asked : asked (lProvider l) req.
Proof using All.
  destruct Hw as (_ & H & _). destruct (H l) as (req' & ? & ? & _); [by eapply list_elem_of_lookup_2|]. by simplify_eq.
Qed.

Lemma leg_request_ok : request_ok req.
Proof using All. destruct Hw as (H & _). rewrite Forall_lookup in H. by eapply H. Qed.

(** Going on. *)
Lemma stage_ok s : (∀ t r, s ≠ Ended t r) →
  world_ok D (MkWorld (fCache w) (requests w) (set_leg w i l s) (sent w) (replies w) (arrivals w)).
Proof using All.
  intros Hs. destruct Hw as (H1 & H2 & H3 & H4 & H5 & H6). split_and!; [done| |done|done|done|].
  - intros x Hx. apply (leg_ok_more D w _ x []); [by rewrite app_nil_r|done|].
    apply (set_leg_elem w i l s x Hl) in Hx as [->|Hx]; [|auto]. exists req. split_and!; [done|apply leg_asked|].
    intros t r Ht. by destruct (Hs t (Some r)).
  - intros k res Hk. destruct (H6 k res Hk) as (x & t & r & Hx & ? & Ht & ?). exists x, t, r.
    split_and!; [by eapply set_leg_keeps|done..].
Qed.

(** Ending. *)
Lemma end_ok now r : (∀ resp, r = Some resp → backed D (replies w) req (lProvider l) now resp) →
  world_ok D (end_leg w i l now r).
Proof using All.
  intros Hb. destruct Hw as (H1 & H2 & H3 & H4 & H5 & H6). unfold end_leg. split_and!; [done| |done|done|done|].
  - intros x Hx. apply (leg_ok_more D w _ x []); [by rewrite app_nil_r|done|].
    apply (set_leg_elem w i l _ x Hl) in Hx as [->|Hx]; [|auto]. exists req. split_and!; [done|apply leg_asked|].
    intros t resp [= <- ->]. by apply Hb.
  - intros k res Hk. assert (Hold : (k, res) ∈ arrivals w → ∃ x t r', x ∈ set_leg w i l (Ended now r) ∧ lRequest x = k ∧
      lStage x = Ended t (Some r') ∧ res = MkContextResult (ID (lProvider x)) (Some r')).
    { intros Hk'. destruct (H6 k res Hk') as (x & t & r' & Hx & ? & Ht & ?). exists x, t, r'.
      split_and!; [by eapply set_leg_keeps|done..]. }
    destruct r as [resp|]; [|by apply Hold]. cbn in Hk. apply elem_of_app in Hk as [Hk|Hk]; [by apply Hold|].
    apply list_elem_of_singleton in Hk as [= -> ->].
    exists (MkLeg (lRequest l) (lProvider l) (Ended now (Some resp))), now, resp. split_and!; [by apply set_leg_new|done..].
Qed.
End LegStep.

Lemma set_cache_ok D w c : world_ok D w → (∀ c', c = Some c' → cache_inv D c' (replies w)) → world_ok D (set_cache w c).
Proof. intros (H1 & H2 & H3 & H4 & H5 & H6) Hc. by split_and!. Qed.

Lemma sent_ok D w p req : world_ok D w → req ∈ requests w → asked p req →
  world_ok D (MkWorld (fCache w) (requests w) (legs w) (sent w ++ [(p, context_forward req p)]) (replies w) (arrivals w)).
Proof.
  intros (H1 & H2 & H3 & H4 & H5 & H6) Hr Hp. split_and!; [done|done|done|done| |done]. intros q f Hq. cbn in Hq.
  apply elem_of_app in Hq as [Hq|Hq]; [by apply H5|]. apply list_elem_of_singleton in Hq as [= -> ->]. by exists req.
Qed.

Lemma replied_ok D w p req r n now : world_ok D w → req ∈ requests w → asked p req →
  world_ok D (MkWorld ((λ c, cache_Put order c n now (cache_key req p) r) <$> fCache w) (requests w) (legs w)
    (sent w) (replies w ++ [MkReply p req r now]) (arrivals w)).
Proof.
  intros (H1 & H2 & H3 & H4 & H5 & H6) Hr Hp. split_and!; [done| | | |done|done].
  - intros x Hx. apply (leg_ok_more D w _ x []); [by rewrite app_nil_r| |auto]. intros y Hy. apply elem_of_app. by left.
  - intros c Hc. cbn in Hc. apply fmap_Some in Hc as (c0 & Hc0 & ->). by apply cache_inv_put, H3.
  - intros rep Hrep. cbn in Hrep. apply elem_of_app in Hrep as [Hrep|Hrep]; [by apply H4|].
    apply list_elem_of_singleton in Hrep as ->. done.
Qed.

Lemma leg_step_ok D w a i l req : world_ok D w → legs w !! i = Some l → requests w !! lRequest l = Some req →
  world_ok D (leg_step order w a i l req).
Proof.
  intros Hw Hl Hr. assert (Hreq : req ∈ requests w) by by eapply list_elem_of_lookup_2.
  unfold leg_step. destruct (lStage l) as [| | |r|] eqn:Es, a; try done.
  all: assert (Hrun : running l) by (intros ? ?; by rewrite Es).
  all: pose proof (leg_asked D w i l req Hw Hl Hr Hrun) as Hask.
  - destruct (fCache w) as [c|] eqn:Ec; [|rewrite <- Ec; by eapply stage_ok].
    destruct (cache_Get _ _ _) as [hit c'] eqn:Eg. pose proof Hw as (_ & _ & Hc & Hrep & _).
    assert (Hrep' : ∀ rep, rep ∈ replies w → rRequest rep ∈ requests w ∧ asked (rProvider rep) (rRequest rep)) by apply Hw.
    destruct (cache_inv_get D c now _ hit c' _ (Hc c Ec) Eg) as [Hc' Hhit].
    assert (Hw' : world_ok D (set_cache w (Some c'))) by (apply set_cache_ok; [done|by intros ? [= <-]]).
    destruct hit as [r|]; [|by eapply (stage_ok D (set_cache w (Some c')))].
    eapply (end_ok D (set_cache w (Some c'))); [done..|]. intros resp [= <-].
    destruct (Hhit r eq_refl) as (rep & Hin & Hkey & Hresp & Ht). exists rep.
    assert (Hclean : ∀ q, q ∈ requests w → request_clean q).
    { intros q Hq. pose proof Hw as (Hok & _). rewrite Forall_forall in Hok. by destruct (Hok q Hq). }
    destruct (Hrep' rep Hin) as [Hin' [Hpc _]].
    destruct (cache_key_same _ _ _ _ (Hclean _ Hin') Hpc (Hclean _ Hreq) (proj1 Hask) Hkey) as [Hten Hid].
    split_and!; [done..|by right].
  - destruct is_open; [by eapply end_ok|by eapply stage_ok].
  - destruct (callContext http) as [r|e].
    + eapply (stage_ok D (MkWorld _ _ _ _ _ _)); [by eapply sent_ok|done..].
    + eapply (end_ok D (MkWorld _ _ _ _ _ _)); [by eapply sent_ok|done..].
  - eapply (end_ok D (MkWorld _ _ _ _ _ _)); [by eapply replied_ok|done..|]. intros resp [= <-].
    exists (MkReply (lProvider l) req r now). split_and!; [apply elem_of_app; right; by left|done..|by left].
Qed.

Lemma step_leg_ok D w a : world_ok D w →
  world_ok D match (j ← leg_of a; l ← legs w !! j; req ← requests w !! lRequest l; Some (j, l, req)) with
    | Some (i, l, req) => leg_step order w a i l req
    | None => w
    end.
Proof.
  intros Hw. destruct (leg_of a) as [j|]; [cbn|done]. destruct (legs w !! j) as [l|] eqn:El; [cbn|done].
  destruct (requests w !! lRequest l) as [req|] eqn:Er; [cbn|done]. by apply leg_step_ok.
Qed.

Lemma step_ok D w a : world_ok D w → action_ok a → world_ok D (step order w a).
Proof.
  intros Hw Ha. destruct a as [reg ps raw|i now|i is_open|i now http|i n now]; cbn [step].
  2-5: exact (step_leg_ok D w _ Hw).
  cbn in Ha. destruct (prepareContext reg ps raw) as [[req matching]|e] eqn:Ep; [|done].
  destruct (prepare_ok _ _ _ _ _ Ha Ep) as [Hreq Hm]. destruct Hw as (H1 & H2 & H3 & H4 & H5 & H6). split_and!.
  - apply Forall_app. by split; [|constructor].
  - intros l Hl. cbn in Hl. apply elem_of_app in Hl as [Hl|Hl]; [by apply (leg_ok_more D w _ l [req]); auto|].
    apply list_elem_of_fmap in Hl as (p & -> & Hp). exists req. rewrite Forall_forall in Hm. split_and!; [|by apply Hm|done].
    cbn. rewrite lookup_app_r, Nat.sub_diag; [done|lia].
  - done.
  - intros rep Hrep. destruct (H4 rep Hrep) as [? ?]. split; [apply elem_of_app; by left|done].
  - intros p f Hf. destruct (H5 p f Hf) as (q & ? & ? & ?). exists q. split_and!; [apply elem_of_app; by left|done..].
  - intros k res Hk. destruct (H6 k res Hk) as (x & t & r & Hx & ? & ? & ?). exists x, t, r.
    split_and!; [apply elem_of_app; by left|done..].
Qed.

(** Histories of a router whose cache, if any, starts with no entries. *)
Definition start (cache : option (Duration * Z)) : world := new_world ((λ c, NewContextCache c.1 c.2) <$> cache).
Definition default_of (cache : option (Duration * Z)) : Duration :=
  match cache with Some (ttl, n) => defaultTTL (NewContextCache ttl n) | None => 0%Z end.

Lemma start_ok cache : world_ok (default_of cache) (start cache).
Proof.
  split_and!; cbn; [constructor|by intros ? ?%elem_of_nil| |by intros ? ?%elem_of_nil|by intros ? ? ?%elem_of_nil|by intros ? ? ?%elem_of_nil].
  intros c Hc. unfold start in Hc. destruct cache as [[ttl n]|]; [|done]. injection Hc as <-. split; [done|].
  intros key e He. cbn in He. by apply lookup_empty_Some in He.
Qed.

Lemma run_ok D w h : world_ok D w → Forall action_ok h → world_ok D (run order w h).
Proof.
  revert w. induction h as [|a h IH]; intros w Hw Ha; [done|]. inversion_clear Ha. cbn [run foldl]. apply IH; [|done].
  by apply step_ok.
Qed.

(** ** Answers *)

(** The leg the response of an offer came through. *)
Definition offered (w : world) (k : nat) (o : Offer) (p : ProviderConfig) (t : Time) (r : ProviderContextMatchResponse) : Prop :=
  (∃ l, l ∈ legs w ∧ lRequest l = k ∧ lProvider l = p ∧ lStage l = Ended t (Some r)) ∧ o ∈ pcOffers r.

Lemma all_offers_elem rs o : o ∈ all_offers rs → ∃ res r, res ∈ rs ∧ crResponse res = Some r ∧ o ∈ pcOffers r.
Proof.
  unfold all_offers, answered. intros H. apply list_elem_of_In, in_concat in H as (x & Hx & Ho).
  apply list_elem_of_In in Hx, Ho. apply list_elem_of_fmap in Hx as ([q r] & -> & Hq).
  apply list_elem_of_omap in Hq as (res & Hres & Hq). apply fmap_Some in Hq as (r' & Hr' & [= -> ->]). by exists res, r'.
Qed.

Lemma answer_offer D w k req o : world_ok D w → o ∈ crOffers (answer w k req) → ∃ p t r, offered w k o p t r.
Proof.
  intros (_ & _ & _ & _ & _ & Harr). unfold answer, mergeContextResponses. set (rs := map snd _).
  pose proof (merge_context_fold rs) as H.
  destruct (foldl merge_context_step _ rs) as [[seen offers] signals]. destruct H as [(_ & _ & Ho) _]. cbn. intros Hin.
  apply Ho in Hin as (l1 & l2 & E & _). assert (Hall : o ∈ all_offers rs) by (rewrite E; apply elem_of_app; right; by left).
  apply all_offers_elem in Hall as (res & r & Hres & Hr & Hor). apply list_elem_of_fmap in Hres as ([k' res'] & -> & Hres).
  apply list_elem_of_filter in Hres as [Hk Hres]. cbn in Hk, Hr. subst k'.
  destruct (Harr k res' Hres) as (l & t & r' & Hl & Hk & Hs & ->). cbn in Hr. injection Hr as ->.
  exists (lProvider l), t, r. split; [|done]. by exists l.
Qed.

(** C11: Under every interleaving of the legs of any number of requests, over any cache setting and any
    provider sets that are well-formed and validated: an offer in the answer to a request was
    given by an active provider that matches the request, through a response that provider gave
    to a request for the same property, placement, canonical seller and country, in this leg's own call
    or at most the longer of the default lifetime and 24 hours before. *)
Theorem no_cross_tenant_offers cache h k req o : Forall action_ok h →
  let w := run order (start cache) h in
  requests w !! k = Some req → o ∈ crOffers (answer w k req) →
  ∃ p t r, offered w k o p t r ∧ asked p req ∧ backed (default_of cache) (replies w) req p t r.
Proof.
  intros Hh w Hk Ho. assert (Hw : world_ok (default_of cache) w) by by apply run_ok, Hh; apply start_ok.
  destruct (answer_offer _ w k req o Hw Ho) as (p & t & r & Hof). pose proof Hof as [(l & Hl & Hlk & <- & Hs) _].
  destruct Hw as (_ & Hlegs & _). destruct (Hlegs l Hl) as (req' & Hreq & Hask & Hb). rewrite Hlk in Hreq. simplify_eq.
  exists (lProvider l), t, r. split_and!; [done..|]. by apply Hb.
Qed.

(** What may be sent for [req] to the provider of [p]. *)
Definition may_send (req f : ContextMatchRequest) (p : ProviderConfig) : Prop :=
  (∃ l, f = with_packages req l ∧ l `sublist_of` cmPackageIDs req ∧
     (PackageIDs p ≠ [] → ∀ i, i ∈ l → i ∈ PackageIDs p)) ∧
  ∀ a, cmArtifact f = Some a → Forall no_access (Assets a).

Lemma with_packages_same req : with_packages req (cmPackageIDs req) = req.
Proof. by destruct req. Qed.

Lemma filterPackages_sublist ids p : filterPackageIDsForProvider ids p `sublist_of` ids.
Proof. unfold filterPackageIDsForProvider. case_bool_decide; [done|apply sublist_filter]. Qed.

Lemma forward_may_send req p : request_ok req → may_send req (context_forward req p) p.
Proof.
  intros [_ Ha]. unfold context_forward, may_send. case_bool_decide as Hp.
  - split; [|done]. exists (cmPackageIDs req). split_and!; [by rewrite with_packages_same|done|by intros ?].
  - split; [|done]. eexists. split_and!; [done| |].
    + apply filterPackages_sublist.
    + intros _ i Hi. by apply filterPackages_spec in Hi as [_ [?|?]].
Qed.

(** C26: Whatever is sent to a provider for a context request is that request, as the handler holds it,
    except that packages may be missing and those sent are the provider's own when it declares
    any; no asset of it carries an access object; and the provider is active and matches the request. *)
Theorem context_sent_only cache h p f : Forall action_ok h →
  let w := run order (start cache) h in
  (p, f) ∈ sent w → ∃ req, req ∈ requests w ∧ asked p req ∧ may_send req f p.
Proof.
  intros Hh w Hf. assert (Hw : world_ok (default_of cache) w) by by apply run_ok, Hh; apply start_ok.
  destruct Hw as (Hok & _ & _ & _ & Hsent & _). destruct (Hsent p f Hf) as (req & Hin & Hask & ->).
  exists req. split_and!; [done..|]. apply forward_may_send. rewrite Forall_forall in Hok. by apply Hok.
Qed.

(** ** The identity hop *)

(** The least of [req] that the provider of [p] needs. *)
Definition minimum_necessary (req f : IdentityMatchRequest) (p : ProviderConfig) : Prop :=
  ∃ ids creds, f = with_subset (with_country req "") ids creds ∧
    ids ≠ [] ∧ ids `sublist_of` imIdentities req ∧ (∀ i, i ∈ ids → UIDTypes p = [] ∨ UIDType i ∈ UIDTypes p) ∧
    creds `sublist_of` imSealedCredentials req ∧ (∀ c, c ∈ creds → AudienceKID c ∈ AudienceKIDs p).

Lemma identity_forward_minimum req p f : identity_forward (with_country req "") p = Some f → minimum_necessary req f p.
Proof.
  unfold identity_forward. case_bool_decide as Hn; intros [= <-]. do 2 eexists. split; [done|].
  split_and!; [done|apply filterIdentities_sublist| | |].
  - intros i Hi. by apply filterIdentities_spec in Hi as [_ ?].
  - unfold filterSealedCredentialsForProvider. case_match; [apply sublist_nil_l|apply sublist_filter].
  - intros c Hc. by apply filterSealed_spec in Hc as [_ ?].
Qed.

Lemma identity_call_Some circuit_open sign req p o : identity_call circuit_open sign req p = Some o ↔
  ∃ f hs, circuit_open (ID p) = false ∧ identity_forward req p = Some f ∧ sign f (Endpoint p) = Ok hs ∧
    o = MkOutbound p (Endpoint p +:+ "/identity") (call_header hs) f.
Proof.
  unfold identity_call. destruct (circuit_open (ID p)); [split; [done|intros (? & ? & ? & _); done]|].
  destruct (identity_forward req p) as [f|]; [|split; [done|intros (? & ? & _ & ? & _); done]]. cbn [mbind option_bind].
  destruct (sign f (Endpoint p)) as [hs|] eqn:Es; split; [|intros (? & ? & _ & [= <-] & E & ->); congruence|done|
    intros (? & ? & _ & [= <-] & E & _); congruence].
  intros [= <-]. by exists f, hs.
Qed.

(** C12: What an identity request makes the router send: to an active provider that answers identity
    requests, serves the country if it lists any, and whose circuit is closed, at its own identity
    URL, the validated request without its country, with only identities of types the provider
    declares, at least one, and only sealed credentials addressed to its own keys, in their order;
    the header is what the signer made of exactly that request and the provider's endpoint. *)
Theorem identity_minimum_necessary ps circuit_open sign http arrival raw resp out o : set_wf ps →
  HandleIdentityMatch ps circuit_open sign http arrival raw = Ok (resp, out) → o ∈ out →
  ∃ req hs, let p := oProvider o in
    ValidateIdentityRequest raw = Ok req ∧ minimum_necessary req (oRequest o) p ∧
    p ∈ All ps ∧ EffectiveStatus p = ProviderStatusActive ∧ IdentityMatch p = true ∧
    (Countries p = [] ∨ imCountry req ∈ Countries p) ∧ circuit_open (ID p) = false ∧
    oURL o = Endpoint p +:+ "/identity" ∧ sign (oRequest o) (Endpoint p) = Ok hs ∧ oHeader o = call_header hs.
Proof.
  intros Hwf H Ho. unfold HandleIdentityMatch, prepareIdentity in H. apply bind_Ok in H as ([req' m] & H & [= <- <-]).
  apply bind_Ok in H as (req & Hval & [= <- <-]). apply list_elem_of_omap in Ho as (q & Hq & Ho).
  apply identity_call_Some in Ho as (f & hs & Hc & Hf & Hs & ->). exists req, hs. cbn.
  apply list_elem_of_filter in Hq as [Hm Hq]. apply (active_spec ps q Hwf) in Hq as [? ?].
  destruct (matches_identity_country req q Hm). split_and!; [done|by apply identity_forward_minimum|done..].
Qed.

(** ** The health entry of a leg *)

(** A method run without interference. *)
Fixpoint exec (now : Z) (s : providerStats) (p : hprog) : providerStats :=
  match p with
  | HRet _ => s
  | HAdd c d k => let v := wrap64 (get c s + d) in exec now (put c v s) (k v)
  | HStore c v k => exec now (put c v s) k
  | HLoad c k => exec now s (k (get c s))
  | HNow k => exec now s (k now)
  | HCas c old new k => if (get c s =? old)%Z then exec now (put c new s) (k true) else exec now s (k false)
  end.

Definition exec_leg (h : ProviderHealth) (now : Z) (s : providerStats) (failed : bool) (e : ctx_err) : providerStats :=
  foldl (λ s m, exec now s (program h m)) s (leg_methods failed e).

Definition tally (s : providerStats) : Z * Z * Z := (successes s, failures s, timeouts s).

(** A leg counts its outcome once, a call its caller cancelled is not counted, and the in-flight
    count is left as it was found. *)
Lemma leg_accounting h now s failed e : inflight (exec_leg h now s failed e) = wrap64 (wrap64 (inflight s + 1) - 1) ∧
  tally (exec_leg h now s failed e) =
    match failed, e with
    | false, _ => (wrap64 (successes s + 1), failures s, timeouts s)
    | true, CtxDeadlineExceeded => (successes s, wrap64 (failures s + 1), wrap64 (timeouts s + 1))
    | true, CtxOk => (successes s, wrap64 (failures s + 1), timeouts s)
    | true, CtxCanceled => tally s
    end.
Proof.
  unfold exec_leg, leg_methods, tally.
  destruct failed, e; cbn; destruct (circuitOpenUntil s =? 0)%Z eqn:E0; cbn; rewrite ?E0; cbn;
    repeat (match goal with |- context [if ?b then _ else _] => destruct b end; cbn); done.
Qed.
End RouterThm.

(** ** A concrete history *)

Definition sample_set : ProviderSet :=
  NewProviderSet [ProviderConfigFromRegistration (sample_registration "")].

Lemma sample_set_ok : set_ok sample_set.
Proof.
  split; [apply NewProviderSet_wf|]. constructor; [|constructor]. exists 0%Z. by vm_compute.
Defined.

Definition reply_body : string :=
  dq "{'type':'context_match_response','request_id':'r-1','offers':[{'package_id':'p1'}],'cache_ttl':600}".

(** A request answered by the provider, and the same request a minute later from the cache. *)
Definition sample_history : list action :=
  [Receive None sample_set (sample_context "https://seller.example" []); Look 0 0; Circuit 0 false;
   CallProvider 0 5 (Ok (200%Z, reply_body)); StoreReply 0 0 5;
   Receive None sample_set (sample_context "https://SELLER.example" []); Look 1 (60 * Second)%Z].

Lemma sample_history_ok : Forall (action_ok) sample_history.
Proof. repeat (apply Forall_cons; split; [first [exact I|exact sample_set_ok]|]). constructor. Defined.

Definition sample_world : world := run (RT := ascii_runtime) in_map_order (start (Some (0%Z, 2%Z))) sample_history.

Definition sample_offer : Offer := MkOffer "p1" JNull JNull None "" JNull ∅.

Lemma no_cross_tenant_offers_witness :
  let _ := ascii_runtime in
  let req := sample_context "https://SELLER.example" [] in
  requests sample_world !! 1 = Some req ∧ sample_offer ∈ crOffers (answer sample_world 1 req) ∧
    length (sent sample_world) = 1 ∧ ∃ p t r, offered sample_world 1 sample_offer p t r.
Proof.
  intros RT req. split; [by vm_compute|]. split; [vm_compute; left|]. split; [by vm_compute|].
  destruct (no_cross_tenant_offers in_map_order (Some (0%Z, 2%Z)) sample_history 1 req
    sample_offer sample_history_ok) as (p & t & r & Ho & _);
    [by vm_compute|vm_compute; left|]. by exists p, t, r.
Defined.

(** A provider with packages, a country, a token type and a key of its own. *)
Definition own_provider : ProviderConfig :=
  MkProvider "buyer_1" "https://buyer.example" "" true true [] [] [] [] ["p2"] ["US"] ["uid2"] [] ["k2"] 0 0.

Definition bearer_image : Asset := sample_image (Some (MkAccess "bearer_token" "t" "" ∅)).

Definition own_history : list action :=
  [Receive None (NewProviderSet [own_provider]) (sample_context "https://seller.example" [bearer_image]);
   Look 0 0; Circuit 0 false; CallProvider 0 5 (Ok (200%Z, reply_body))].

Definition own_sent : ContextMatchRequest :=
  with_packages (sample_context "https://seller.example" [sample_image None]) ["p2"].

Lemma context_sent_only_witness :
  let _ := ascii_runtime in
  let w := run in_map_order (start None) own_history in
  sent w = [(own_provider, own_sent)] ∧ ∃ req, req ∈ requests w ∧ may_send req own_sent own_provider.
Proof.
  intros RT w. assert (E : sent w = [(own_provider, own_sent)]) by by vm_compute. split; [exact E|].
  assert (Hset : set_ok (NewProviderSet [own_provider])).
  { split; [apply NewProviderSet_wf|]. constructor; [|constructor]. exists 0%Z. by vm_compute. }
  assert (Hh : Forall action_ok own_history).
  { repeat (apply Forall_cons; split; [first [exact I|exact Hset]|]). constructor. }
  destruct (context_sent_only in_map_order None own_history own_provider own_sent Hh) as (req & Hr & _ & Hs).
  { fold w. rewrite E. left. }
  exists req. split; [exact Hr|exact Hs].
Defined.

(** Of two tokens and two credentials the provider is sent its own. *)
Definition own_identity : IdentityMatchRequest :=
  with_subset (with_country (sample_identity []) "") [MkToken "t1" "uid2" None] [MkSealed "k2" "c2"].

Lemma identity_minimum_necessary_witness :
  let _ := ascii_runtime in
  let raw := sample_identity [MkToken "t1" "uid2" None; MkToken "t2" "id5" None] in
  let o := MkOutbound own_provider (Endpoint own_provider +:+ "/identity")
    [("Content-Type", ["application/json"]); ("X-Adcp-Signature", ["sig"])] own_identity in
  ∃ resp, HandleIdentityMatch (NewProviderSet [own_provider]) (λ _, false) (λ _ _, Ok [("X-AdCP-Signature", "sig")])
      (λ _, Err "refused") id raw = Ok (resp, [o]) ∧
    ∃ req, ValidateIdentityRequest raw = Ok req ∧ minimum_necessary req own_identity own_provider.
Proof.
  intros RT raw o. eexists. assert (E : HandleIdentityMatch (NewProviderSet [own_provider]) (λ _, false)
    (λ _ _, Ok [("X-AdCP-Signature", "sig")]) (λ _, Err "refused") id raw = Ok (_, [o])) by (vm_compute; reflexivity).
  split; [exact E|].
  destruct (identity_minimum_necessary (NewProviderSet [own_provider]) (λ _, false) (λ _ _, Ok [("X-AdCP-Signature", "sig")])
    (λ _, Err "refused") id raw _ _ o (NewProviderSet_wf _) E) as (req & hs & Hv & Hm & _); [left|]. by exists req.
Defined.
