(* ===== verification/TmpJcs.v ===== *)
(** * TmpJcs: the canonical JSON of signing inputs

    [tmproto/jcs.go].  A second RFC 8785 encoder, for integers only: Go values as
    [jcsEncode] takes them, the encoder, and what [jcsValue] makes of decoded members. *)
From stdpp Require Import gmap strings.
From S2P Require Import Prelude GoStrings Unicode Float Json JcsText Jcs Idempotency TmpTypes.
From stdpp Require Import options.

(** ** Go values *)

(** Integers of every width are one case; a [json.Number] is its text. *)
Inductive goval : Type :=
  | GNil
  | GBool (b : bool)
  | GString (s : string)
  | GInt (z : Z)
  | GFloat (f : float)
  | GNumber (n : string)
  | GSlice (l : list goval)
  | GMap (l : list (string * goval)).

Section goval_ind.
Variable P : goval → Prop.
Hypothesis HNil : P GNil.
Hypothesis HBool : ∀ b, P (GBool b).
Hypothesis HString : ∀ s, P (GString s).
Hypothesis HInt : ∀ z, P (GInt z).
Hypothesis HFloat : ∀ f, P (GFloat f).
Hypothesis HNumber : ∀ n, P (GNumber n).
Hypothesis HSlice : ∀ l, Forall P l → P (GSlice l).
Hypothesis HMap : ∀ l, Forall (λ kv, P kv.2) l → P (GMap l).

Fixpoint goval_ind' (v : goval) : P v :=
  match v with
  | GNil => HNil
  | GBool b => HBool b
  | GString s => HString s
  | GInt z => HInt z
  | GFloat f => HFloat f
  | GNumber n => HNumber n
  | GSlice l => HSlice l ((fix go l : Forall P l :=
      match l with [] => Forall_nil_2 _ | x :: l => Forall_cons_2 _ _ _ (goval_ind' x) (go l) end) l)
  | GMap l => HMap l ((fix go l : Forall (λ kv, P kv.2) l :=
      match l with [] => Forall_nil_2 _ | x :: l => Forall_cons_2 _ _ _ (goval_ind' x.2) (go l) end) l)
  end.
End goval_ind.

(** ** Strings and keys *)

Fixpoint jcs_escape (s : string) : string :=
  match s with
  | "" => ""
  | String c s' =>
      (if beq c quote then escape quote else
       if beq c backslash then escape backslash else
       if (code c =? 8)%Z then escape "b" else
       if (code c =? 12)%Z then escape "f" else
       if (code c =? 10)%Z then escape "n" else
       if (code c =? 13)%Z then escape "r" else
       if (code c =? 9)%Z then escape "t" else
       if (code c <? 32)%Z then escape "u" +:+ "00" +:+ hex_encode [code c] else String c "") +:+ jcs_escape s'
  end.

Definition jcsEncodeString (s : string) : string := q1 +:+ jcs_escape s +:+ q1.

Definition jcsIsASCII (s : string) : bool := all_bytes (λ c, (code c <? 128)%Z) s.

Definition utf16 (s : string) : list Z := utf16_encode (runes s).

(** The first difference of two sequences of units; then the lengths. *)
Fixpoint units_compare (a b : list Z) : Z :=
  match a, b with
  | x :: a', y :: b' => if (x =? y)%Z then units_compare a' b' else if (x <? y)%Z then -1 else 1
  | [], _ :: _ => -1
  | _ :: _, [] => 1
  | [], [] => 0
  end%Z.

Definition jcsCompareKeys (a b : string) : Z :=
  if bool_decide (a = b) then 0%Z
  else if jcsIsASCII a && jcsIsASCII b then if String.ltb a b then (-1)%Z else 1%Z
  else units_compare (utf16 a) (utf16 b).

(** [sort.Slice] of the keys of a map, which are distinct. *)
Fixpoint insert_by {A} (lt : string → string → bool) (kv : string * A) (l : list (string * A)) : list (string * A) :=
  match l with
  | [] => [kv]
  | x :: l' => if lt kv.1 x.1 then kv :: l else x :: insert_by lt kv l'
  end.

Definition sort_keys {A} (l : list (string * A)) : list (string * A) :=
  foldr (insert_by (λ a b, (jcsCompareKeys a b <? 0)%Z)) [] l.

(** ** Numbers *)

Definition max_safe : Z := (2 ^ 53)%Z.

(** The value of a float that is its own [math.Trunc]. *)
Definition float_int (f : float) : option Z :=
  let m := if fneg f then (- fman f)%Z else fman f in
  if (0 <=? fexp f)%Z then Some (m * 2 ^ fexp f)%Z
  else if (fman f mod 2 ^ (- fexp f) =? 0)%Z then Some (m / 2 ^ (- fexp f))%Z else None.

Definition safe_int (z : Z) : bool := ((- max_safe <=? z) && (z <=? max_safe))%Z.

(** A [float] of the model is finite. *)
Definition jcsEncodeNumber (f : float) : result string string :=
  if fzero f then Ok "0" else
  match float_int f with
  | Some z => if safe_int z then Ok (Itoa z) else Err "non-integer floats are unsupported"
  | None => Err "non-integer floats are unsupported"
  end.

Definition jcsEncodeJSONNumber (n : string) : result string string :=
  match ParseInt n with
  | Some i => if safe_int i then Ok (Itoa i) else Err "integer exceeds JS safe-integer range"
  | None => match ParseFloat n with Some f => jcsEncodeNumber f | None => Err "cannot parse json.Number" end
  end.

(** ** The encoder *)

Definition pair_text (kv : string * result string string) : result string string :=
  t ← kv.2; Ok (jcsEncodeString kv.1 +:+ ":" +:+ t).

Fixpoint jcsEncode (v : goval) : result string string :=
  match v with
  | GNil => Ok "null"
  | GBool b => Ok (if b then "true" else "false")
  | GString s => Ok (jcsEncodeString s)
  | GInt z => Ok (Itoa z)
  | GFloat f => jcsEncodeNumber f
  | GNumber n => jcsEncodeJSONNumber n
  | GSlice l => ts ← all_ok (map jcsEncode l); Ok ("[" +:+ sep_by ts +:+ "]")
  | GMap l =>
      ts ← all_ok (map pair_text (sort_keys (map (λ kv, (kv.1, jcsEncode kv.2)) l)));
      Ok ("{" +:+ sep_by ts +:+ "}")
  end.

Definition jcsMarshal : goval → result string string := jcsEncode.

(** ** Decoded members as Go values *)

Definition any_float (n : string) : float := default (MkFloat false 0 0) (ParseFloat n).

(** The [any] of a JSON value decoded with floats for numbers. *)
Fixpoint any_value (v : json) : goval :=
  match v with
  | JNull => GNil
  | JBool b => GBool b
  | JNum n => GFloat (any_float n)
  | JStr s => GString s
  | JArr l => GSlice (map any_value l)
  | JObj l => GMap (last_members (map (λ kv, (kv.1, any_value kv.2)) l))
  end.

(** What [encoding/json] writes for a float. *)
Definition marshal_float (f : float) : string :=
  if fzero f then (if fneg f then "-0" else "0") else formatES6 f.

(** A string after [json.Marshal] and decoding: invalid bytes are replaced. *)
Definition wire_string (s : string) : string := write_runes (runes s).

(** [jcsValue] of such an [any]: encoded, and decoded again with numbers as text. *)
Fixpoint wire_value (v : goval) : goval :=
  match v with
  | GString s => GString (wire_string s)
  | GFloat f => GNumber (marshal_float f)
  | GInt z => GNumber (Itoa z)
  | GSlice l => GSlice (map wire_value l)
  | GMap l => GMap (last_members (map (λ kv, (wire_string kv.1, wire_value kv.2)) l))
  | _ => v
  end.

Definition map_value (m : anymap) : goval := GMap (map (λ kv, (kv.1, any_value kv.2)) (map_to_list m)).

(** A member with [omitempty]. *)
Definition omitempty (name s : string) : list (string * goval) := if bool_decide (s = "") then [] else [(name, GString s)].

(** [jcsValue] of the typed values that are signed. *)
Definition attestation_value (a : Attestation) : goval :=
  GMap ([("issuer", map_value (Issuer a)); ("scheme", GString (Scheme a))] ++
    omitempty "relying_party_id" (RelyingPartyID a) ++ omitempty "action" (Action a) ++
    [("claims", GSlice (map GString (Claims a)))] ++
    omitempty "verification_level" (VerificationLevel a) ++ omitempty "signal_binding" (SignalBinding a) ++
    [("proof", map_value (Proof a))] ++ omitempty "expires_at" (ExpiresAt a)).

Definition token_value (i : IdentityToken) : goval :=
  GMap ([("user_token", GString (UserToken i)); ("uid_type", GString (UIDType i))] ++
    match IdAttestation i with Some a => [("attestation", attestation_value a)] | None => [] end).

Definition credential_value (c : SealedCredential) : goval :=
  GMap [("audience_kid", GString (AudienceKID c)); ("payload", GString (Payload c))].

Definition jcsValue : goval → goval := wire_value.
