(* ===== verification/TmpSign.v ===== *)
(** * TmpSign: the signature envelope of the Trusted Match protocol

    [tmproto/signing.go] and the signature cache and headers of [router/signing.go].
    Ed25519 is a parameter; a key store is a record of its lookups.  An attestation or
    a consent that is decoded and validated has members, so nil and empty maps need not
    be told apart. *)
From stdpp Require Import gmap strings.
From S2P Require Import Prelude GoStrings Unicode Float Json Base64 Idempotency SigBase Jcs TmpTypes Merge RouterReg TmpJcs.
From stdpp Require Import options.

(** [crypto/ed25519]: the public half of a private key, signing, verification. *)
Class Ed25519 := {
  EdPublic : string → string;
  EdSign : string → string → string;
  EdVerify : string → string → string → bool;
}.

Definition PublicKeySize : nat := 32.
Definition PrivateKeySize : nat := 64.
Definition SignatureSize : nat := 64.

Definition HeaderTMPSignature : string := "X-AdCP-Signature".
Definition HeaderTMPKeyID : string := "X-AdCP-Key-Id".
Definition signedTypeContext : string := "context_match_request".
Definition signedTypeIdentity : string := "identity_match_request".
Definition secondsPerDay : Z := 86400.

Inductive sig_error :=
  | ErrSignatureMissing
  | ErrSignatureMalformed
  | ErrSignatureKeyUnknown
  | ErrSignatureKeyRevoked
  | ErrSignatureInvalid
  | ErrInput (why : string).

Definition EpochAt (t : Time) : Z := Z.quot (Unix t) secondsPerDay.

Definition NormalizeProviderEndpointURL (s : string) : string := TrimRight (λ c, beq c "/") s.

(** ** Keys *)

Definition PublicKey (k : SigningKey) : option string :=
  if negb (bool_decide (Kty k = "OKP")) then None else
  if negb (bool_decide (Crv k = "Ed25519")) then None else
  raw ← RawURLDecode (X k);
  if (len raw =? PublicKeySize)%nat then Some raw else None.

Definition PublicSigningKey (kid pub : string) : SigningKey :=
  MkSigningKey kid "OKP" "EdDSA" "Ed25519" (RawURLEncode pub) "sig" "" 0 None.

(** [KeyStore], and its extension [AgentAwareKeyStore] where a store has it. *)
Record KeyStore := MkKeyStore {
  ksLookupKey : string → option SigningKey;
  ksLookupKeyForAgent : option (string → string → option SigningKey);
}.

Definition NewStaticKeyStore (keys : list SigningKey) : KeyStore :=
  let idx : gmap string SigningKey := foldl (λ m k, if bool_decide (Kid k = "") then m else <[Kid k := k]> m) ∅ keys in
  MkKeyStore (λ kid, idx !! kid) None.

(** The router's registry as a store. *)
Definition registry_store (r : RouterRegistry) : KeyStore := MkKeyStore (LookupKey r) None.

Definition lookupKey (ks : KeyStore) (kid sellerAgentURL : string) : option SigningKey :=
  if negb (bool_decide (sellerAgentURL = "")) then
    match ksLookupKeyForAgent ks with
    | Some f => f kid sellerAgentURL
    | None => ksLookupKey ks kid
    end
  else ksLookupKey ks kid.

Definition resolveSigningKey (kid sellerAgentURL : string) (ks : option KeyStore) : result sig_error (string * SigningKey) :=
  match ks with
  | None => Err ErrSignatureKeyUnknown
  | Some ks =>
      key ← opt_err ErrSignatureKeyUnknown (lookupKey ks kid sellerAgentURL);
      pub ← opt_err ErrSignatureKeyUnknown (PublicKey key);
      Ok (pub, key)
  end.

Definition decodeSignature (s : string) : result sig_error string :=
  if bool_decide (s = "") then Err ErrSignatureMissing else
  raw ← opt_err ErrSignatureMalformed (RawURLDecode s);
  if (len raw =? SignatureSize)%nat then Ok raw else Err ErrSignatureMalformed.

Definition keyRevokedForEpoch (key : SigningKey) (e : Z) : bool :=
  match RevokedAt key with Some t => (EpochAt t <=? e)%Z | None => false end.

(** ** Signing inputs *)

Definition newline : ascii := byte 10.

Definition package_text (ids : list string) : string :=
  if bool_decide (ids = []) then "" else Join (sort_Strings ids) ",".

Definition BuildContextMatchSigningInput (req : ContextMatchRequest) (providerEndpointURL : string) (epoch : Z) : string :=
  Join
    [signedTypeContext; cmSellerAgentURL req; cmPropertyRID req; cmPlacementID req; package_text (cmPackageIDs req);
     providerEndpointURL; Itoa epoch] (String newline "").

Definition token_key (i : IdentityToken) : string * string := (UIDType i, UserToken i).

(** The first entry of each pair of type and token. *)
Fixpoint dedup_tokens (seen : list (string * string)) (ids : list IdentityToken) : list IdentityToken :=
  match ids with
  | [] => []
  | i :: ids' =>
      if bool_decide (token_key i ∈ seen) then dedup_tokens seen ids' else i :: dedup_tokens (token_key i :: seen) ids'
  end.

Definition token_lt (i j : IdentityToken) : bool :=
  if negb (bool_decide (UIDType i = UIDType j)) then String.ltb (UIDType i) (UIDType j)
  else String.ltb (UserToken i) (UserToken j).

(** [sort.Slice] of tokens, whose keys are distinct. *)
Fixpoint insert_token (i : IdentityToken) (l : list IdentityToken) : list IdentityToken :=
  match l with
  | [] => [i]
  | j :: l' => if token_lt i j then i :: l else j :: insert_token i l'
  end.
Definition sort_tokens (l : list IdentityToken) : list IdentityToken := foldr insert_token [] l.

Section Sign.
Context `{RT : Runtime}.
Context `{ED : Ed25519}.
(** [sort.Slice] by audience: it need not keep the order of equal audiences. *)
Variable sort_credentials : list SealedCredential → list SealedCredential.

Definition hex_sum (s : string) : string := hex_encode (map code (explode (Sha256 s))).

Definition canonicalIdentitiesHash (ids : list IdentityToken) : result string string :=
  jcs ← jcsMarshal (jcsValue (GSlice (map token_value (sort_tokens (dedup_tokens [] ids)))));
  Ok (hex_sum jcs).

Definition canonicalSealedCredentialsHash (creds : list SealedCredential) : result string string :=
  jcs ← jcsMarshal (jcsValue (GSlice (map credential_value (sort_credentials creds))));
  Ok (hex_sum jcs).

Definition sealed_value (creds : list SealedCredential) : result string goval :=
  if bool_decide (creds = []) then Ok GNil else h ← canonicalSealedCredentialsHash creds; Ok (GString h).

Definition consent_value (m : anymap) : goval := if bool_decide (m = ∅) then GNil else map_value m.

Definition canonical_object (req : IdentityMatchRequest) (idsHash : string) (sealedHash : goval)
    (providerEndpointURL : string) (epoch : Z) : goval :=
  GMap [("type", GString signedTypeIdentity); ("request_id", GString (imRequestID req));
        ("seller_agent_url", GString (imSellerAgentURL req)); ("identities_hash", GString idsHash);
        ("consent", consent_value (imConsent req)); ("package_ids", GSlice (map GString (sort_Strings (imPackageIDs req))));
        ("sealed_credentials_hash", sealedHash); ("provider_endpoint_url", GString providerEndpointURL);
        ("daily_epoch", GInt epoch)].

Definition BuildIdentityMatchSigningInput (req : IdentityMatchRequest) (providerEndpointURL : string) (epoch : Z) :
    result string string :=
  idsHash ← canonicalIdentitiesHash (imIdentities req);
  sealedHash ← sealed_value (imSealedCredentials req);
  jcs ← jcsMarshal (canonical_object req idsHash sealedHash providerEndpointURL epoch);
  Ok (hex_sum jcs).

(** ** Signing *)

Record Signer := MkSigner { KeyID : string; privateKey : string }.

Definition NewSigner (keyID priv : string) : result string Signer :=
  if bool_decide (keyID = "") then Err "signer key ID must not be empty" else
  if negb (len priv =? PrivateKeySize)%nat then Err "signer private key length" else Ok (MkSigner keyID priv).

Definition PublicJWK (s : Signer) : SigningKey := PublicSigningKey (KeyID s) (EdPublic (privateKey s)).

Definition SignContextMatch (s : Signer) (req : ContextMatchRequest) (providerEndpointURL : string) (epoch : Z) : string :=
  RawURLEncode (EdSign (privateKey s)
    (BuildContextMatchSigningInput req (NormalizeProviderEndpointURL providerEndpointURL) epoch)).

Definition SignIdentityMatch (s : Signer) (req : IdentityMatchRequest) (providerEndpointURL : string) (epoch : Z) :
    result string string :=
  input ← BuildIdentityMatchSigningInput req (NormalizeProviderEndpointURL providerEndpointURL) epoch;
  Ok (RawURLEncode (EdSign (privateKey s) input)).

(** ** Verification *)

(** One epoch: passed, failed, or an input that cannot be built. *)
Definition verify_epoch (input : Z → result string string) (pub raw : string) (key : SigningKey) (e : Z) :
    result sig_error bool :=
  if keyRevokedForEpoch key e then Ok false else
  match input e with
  | Err why => Err (ErrInput why)
  | Ok m => Ok (EdVerify pub m raw)
  end.

(** The loop over the two epochs, and the error after it. *)
Definition verify_epochs (input : Z → result string string) (pub raw : string) (key : SigningKey) (cur : Z) :
    result sig_error unit :=
  ok ← verify_epoch input pub raw key cur;
  if ok : bool then Ok tt else
  ok ← verify_epoch input pub raw key (cur - 1);
  if ok : bool then Ok tt else
  if keyRevokedForEpoch key cur && keyRevokedForEpoch key (cur - 1) then Err ErrSignatureKeyRevoked
  else Err ErrSignatureInvalid.

Definition VerifyContextMatch (req : ContextMatchRequest) (ownEndpointURL sig kid : string) (ks : option KeyStore) (now : Time) :
    result sig_error unit :=
  '(pub, key) ← resolveSigningKey kid (cmSellerAgentURL req) ks;
  raw ← decodeSignature sig;
  let endpoint := NormalizeProviderEndpointURL ownEndpointURL in
  verify_epochs (λ e, Ok (BuildContextMatchSigningInput req endpoint e)) pub raw key (EpochAt now).

Definition VerifyIdentityMatch (req : IdentityMatchRequest) (ownEndpointURL sig kid : string) (ks : option KeyStore) (now : Time) :
    result sig_error unit :=
  '(pub, key) ← resolveSigningKey kid (imSellerAgentURL req) ks;
  raw ← decodeSignature sig;
  let endpoint := NormalizeProviderEndpointURL ownEndpointURL in
  verify_epochs (BuildIdentityMatchSigningInput req endpoint) pub raw key (EpochAt now).

Definition ExtractSignatureHeaders (h : Header) : result sig_error (string * string) :=
  let sig := HeaderGet h HeaderTMPSignature in
  let kid := HeaderGet h HeaderTMPKeyID in
  if bool_decide (sig = "") || bool_decide (kid = "") then Err ErrSignatureMissing else Ok (sig, kid).

(** ** The router's signatures *)

Record contextSignatureCacheKey := MkSigKey {
  skSellerAgentURL : string;
  skPropertyRID : string;
  skPlacementID : string;
  skEndpointURL : string;
  skPackageIDs : string;
  skEpoch : Z;
}.

#[export] Instance contextSignatureCacheKey_eq_dec : EqDecision contextSignatureCacheKey.
Proof. solve_decision. Defined.
#[export] Instance contextSignatureCacheKey_countable : Countable contextSignatureCacheKey.
Proof.
  refine (inj_countable' (λ k, (skSellerAgentURL k, skPropertyRID k, skPlacementID k, skEndpointURL k, skPackageIDs k, skEpoch k))
    (λ '(a, b, c, d, e, f), MkSigKey a b c d e f) _). by intros [].
Defined.

Record contextSignatureCache := MkSigCache { scEntries : gmap contextSignatureCacheKey string; scMaxEntries : Z }.

Definition newContextSignatureCache (maxEntries : Z) : contextSignatureCache :=
  MkSigCache ∅ (if (maxEntries <=? 0)%Z then 10000 else maxEntries)%Z.

Definition sig_key (req : ContextMatchRequest) (endpointURL : string) (epoch : Z) : contextSignatureCacheKey :=
  MkSigKey (cmSellerAgentURL req) (cmPropertyRID req) (cmPlacementID req) endpointURL (package_text (cmPackageIDs req)) epoch.

Definition evictOldEpochsLocked (c : contextSignatureCache) (currentEpoch : Z) : contextSignatureCache :=
  let m := filter (λ kv, (currentEpoch - 1 ≤ skEpoch kv.1)%Z) (scEntries c) in
  MkSigCache (if (Z.of_nat (size m) <? scMaxEntries c)%Z then m else ∅) (scMaxEntries c).

(** The two critical sections of [signatureFor]; the signature is made between them. *)
Definition sig_lookup (c : contextSignatureCache) (k : contextSignatureCacheKey) : option string := scEntries c !! k.

Definition sig_store (c : contextSignatureCache) (k : contextSignatureCacheKey) (epoch : Z) (sig : string) : contextSignatureCache :=
  let c := if (scMaxEntries c <=? Z.of_nat (size (scEntries c)))%Z then evictOldEpochsLocked c epoch else c in
  MkSigCache (<[k := sig]> (scEntries c)) (scMaxEntries c).

Definition signatureFor (c : contextSignatureCache) (s : Signer) (req : ContextMatchRequest) (endpointURL : string) (epoch : Z) :
    string * contextSignatureCache :=
  let k := sig_key req endpointURL epoch in
  match sig_lookup c k with
  | Some sig => (sig, c)
  | None => let sig := SignContextMatch s req endpointURL epoch in (sig, sig_store c k epoch sig)
  end.

Definition signContextHeaders (c : contextSignatureCache) (s : option Signer) (req : ContextMatchRequest) (providerEndpoint : string)
    (now : Time) : list (string * string) * contextSignatureCache :=
  match s with
  | None => ([], c)
  | Some s =>
      let '(sig, c) := signatureFor c s req (NormalizeProviderEndpointURL providerEndpoint) (EpochAt now) in
      ([(HeaderTMPSignature, sig); (HeaderTMPKeyID, KeyID s)], c)
  end.

Definition signIdentityHeaders (s : option Signer) (req : IdentityMatchRequest) (providerEndpoint : string) (now : Time) :
    result string (list (string * string)) :=
  match s with
  | None => Ok []
  | Some s =>
      sig ← SignIdentityMatch s req (NormalizeProviderEndpointURL providerEndpoint) (EpochAt now);
      Ok [(HeaderTMPSignature, sig); (HeaderTMPKeyID, KeyID s)]
  end.
End Sign.
