(* ===== verification/TmpJcsThm.v ===== *)
(** * TmpJcsThm: what a canonical text of [TmpJcs] determines

    The encoder prints a JSON value, [canonical_json], and equal texts are texts of
    equal values; the order of keys is the one of their UTF-16 units. *)
From stdpp Require Import gmap strings.
From S2P Require Import Prelude GoStrings Unicode Float Json JcsText Jcs JcsProps Idempotency TmpTypes TmpJcs.
From stdpp Require Import options.

#[local] Arguments byte : simpl never.

(** ** Strings *)

Lemma jcs_escape_high c s : (128 ≤ code c)%Z → jcs_escape (String c s) = String c (jcs_escape s).
Proof.
  intros Hc. assert (Hq : code quote = 34%Z) by done. assert (Hb : code backslash = 92%Z) by done.
  assert (H34 : beq c quote = false) by (apply beq_neq; intros ->; lia).
  assert (H92 : beq c backslash = false) by (apply beq_neq; intros ->; lia).
  cbn [jcs_escape]. rewrite H34, H92. repeat (case_match; [lia|]). done.
Qed.

Lemma jcs_escape_rune r s : valid_rune r = true → jcs_escape (write_rune r +:+ s) = rune_text r +:+ jcs_escape s.
Proof.
  intros Hr. pose proof (valid_rune_cases r Hr) as Hc. unfold write_rune at 1. rewrite Hr.
  assert (Hb : ∀ n, (0 ≤ n < 256)%Z → code (byte n) = n) by (intros; by apply code_byte).
  destruct (Z.ltb_spec r 128) as [Hlt|Hge].
  - unfold utf8_encode. replace (r <? 128)%Z with true by lia. rewrite sapp_cons, sapp_nil_l. cbn [jcs_escape].
    f_equal. unfold rune_text, write_rune. rewrite Hr. unfold utf8_encode. replace (r <? 128)%Z with true by lia.
    rewrite !Hb by lia.
    assert (Hq : beq (byte r) quote = (r =? 34)%Z).
    { destruct (Z.eqb_spec r 34) as [->|]; [done|]. apply beq_neq. intros E. apply (f_equal code) in E. rewrite Hb in E by lia. done. }
    assert (Hs : beq (byte r) backslash = (r =? 92)%Z).
    { destruct (Z.eqb_spec r 92) as [->|]; [done|]. apply beq_neq. intros E. apply (f_equal code) in E. rewrite Hb in E by lia. done. }
    by rewrite Hq, Hs.
  - assert (Ht : rune_text r = write_rune r).
    { unfold rune_text. repeat (case_match; [lia|]). done. }
    rewrite Ht. unfold write_rune. rewrite Hr. unfold utf8_encode. replace (r <? 128)%Z with false by lia.
    pose proof (Z.mod_pos_bound r 64 ltac:(lia)). pose proof (Z.mod_pos_bound (r / 64) 64 ltac:(lia)).
    pose proof (Z.mod_pos_bound (r / 4096) 64 ltac:(lia)).
    assert (0 ≤ r / 64)%Z by (apply Z.div_pos; lia). assert (0 ≤ r / 4096)%Z by (apply Z.div_pos; lia).
    assert (0 ≤ r / 262144)%Z by (apply Z.div_pos; lia).
    destruct (Z.ltb_spec r 2048).
    + assert (r / 64 < 32)%Z by (apply Z.div_lt_upper_bound; lia).
      rewrite !sapp_cons, !sapp_nil_l, !jcs_escape_high by (rewrite Hb; lia). done.
    + destruct (Z.ltb_spec r 65536).
      * assert (r / 4096 < 16)%Z by (apply Z.div_lt_upper_bound; lia).
        rewrite !sapp_cons, !sapp_nil_l, !jcs_escape_high by (rewrite Hb; lia). done.
      * assert (r / 262144 < 8)%Z by (apply Z.div_lt_upper_bound; lia).
        rewrite !sapp_cons, !sapp_nil_l, !jcs_escape_high by (rewrite Hb; lia). done.
Qed.

Lemma jcs_escape_runes l : Forall (λ r, valid_rune r = true) l → jcs_escape (write_runes l) = string_text l.
Proof.
  induction 1 as [|r l Hr Hl IH]; [done|]. cbn [write_runes string_text foldr].
  rewrite jcs_escape_rune by done. by rewrite IH.
Qed.

Lemma jcsEncodeString_quoted s : ValidString s = true → jcsEncodeString s = quoted s.
Proof.
  intros Hs. unfold jcsEncodeString, quoted. rewrite <- (write_runes_valid s Hs) at 1.
  by rewrite jcs_escape_runes by apply runes_valid.
Qed.

Lemma wire_string_valid s : ValidString s = true → wire_string s = s.
Proof. apply write_runes_valid. Qed.

(** ** The order of keys *)

Lemma ascii_utf16 s : jcsIsASCII s = true → utf16 s = map code (explode s).
Proof.
  unfold utf16, utf16_encode, runes. induction s as [|c s IH]; [done|]. cbn [jcsIsASCII all_bytes]. intros [Hc Hs]%andb_true_iff.
  pose proof (code_range c) as Hr. specialize (IH Hs). cbn [explode runes_from]. unfold decode_rune, utf8_len.
  rewrite Hc. cbn [rune_value Nat.sub map concat]. rewrite IH. unfold utf16_units.
  replace ((0 <=? code c) && (code c <? 55296) || (57344 <=? code c) && (code c <? 65536))%Z with true by lia. done.
Qed.

Lemma ltb_units a : ∀ b, String.ltb a b = units_lt (map code (explode a)) (map code (explode b)).
Proof.
  unfold String.ltb. induction a as [|c a IH]; intros [|d b]; try done. cbn [String.compare explode map units_lt].
  rewrite <- IH. unfold Ascii.compare, code.
  destruct (N.compare_spec (N_of_ascii c) (N_of_ascii d)) as [E|E|E].
  - rewrite E. by rewrite Z.eqb_refl.
  - by replace (Z.of_N (N_of_ascii c) =? Z.of_N (N_of_ascii d))%Z with false by lia; replace (Z.of_N (N_of_ascii c) <? Z.of_N (N_of_ascii d))%Z with true by lia.
  - by replace (Z.of_N (N_of_ascii c) =? Z.of_N (N_of_ascii d))%Z with false by lia; replace (Z.of_N (N_of_ascii c) <? Z.of_N (N_of_ascii d))%Z with false by lia.
Qed.

Lemma units_compare_lt a : ∀ b, (units_compare a b <? 0)%Z = units_lt a b.
Proof.
  induction a as [|x a IH]; intros [|y b]; cbn [units_compare units_lt]; try done.
  destruct (Z.eqb_spec x y); [apply IH|]. by destruct (x <? y)%Z.
Qed.

(** The comparison of keys, with its fast path for ASCII, is the lexicographic order of UTF-16 code
    units on all strings, as RFC 8785 demands. *)
Theorem jcsCompareKeys_utf16 a b : (jcsCompareKeys a b <? 0)%Z = units_lt (utf16 a) (utf16 b).
Proof.
  unfold jcsCompareKeys. case_bool_decide as E; [subst; by rewrite units_lt_irrefl|].
  destruct (jcsIsASCII a && jcsIsASCII b) eqn:Ha; [|apply units_compare_lt].
  apply andb_true_iff in Ha as [Ha Hb]. rewrite !ascii_utf16, <- ltb_units by done. by destruct (String.ltb a b).
Qed.

Lemma key_order a b : (jcsCompareKeys a b <? 0)%Z = key_lt a b.
Proof.
  unfold jcsCompareKeys. case_bool_decide as E; [subst; by rewrite key_lt_irrefl|].
  destruct (jcsIsASCII a && jcsIsASCII b) eqn:Ha; [|apply units_compare_lt].
  apply andb_true_iff in Ha as [Ha Hb]. unfold key_lt. fold (utf16 a) (utf16 b).
  rewrite !ascii_utf16, <- ltb_units by done. by destruct (String.ltb a b).
Qed.

Lemma sort_keys_members {A} (l : list (string * A)) : sort_keys l = sort_members l.
Proof.
  unfold sort_keys, sort_members. induction l as [|x l IH]; [done|]. cbn [foldr]. rewrite IH.
  generalize (foldr insert_member [] l). clear. intros k. induction k as [|y k IH]; [done|].
  cbn [insert_by insert_member]. rewrite key_order. by rewrite IH.
Qed.

(** ** The value a text spells *)

Fixpoint canonical_json (v : goval) : result string json :=
  match v with
  | GNil => Ok JNull
  | GBool b => Ok (JBool b)
  | GString s => Ok (JStr s)
  | GInt z => Ok (JNum (Itoa z))
  | GFloat f => JNum <$> jcsEncodeNumber f
  | GNumber n => JNum <$> jcsEncodeJSONNumber n
  | GSlice l => JArr <$> all_ok (map canonical_json l)
  | GMap l => JObj <$> all_ok (map (λ kv, pair kv.1 <$> kv.2) (sort_keys (map (λ kv, (kv.1, canonical_json kv.2)) l)))
  end.

(** All strings are valid, and no map has a key twice. *)
Inductive well_formed : goval → Prop :=
  | wf_nil : well_formed GNil
  | wf_bool b : well_formed (GBool b)
  | wf_string s : ValidString s = true → well_formed (GString s)
  | wf_int z : well_formed (GInt z)
  | wf_float f : well_formed (GFloat f)
  | wf_number n : well_formed (GNumber n)
  | wf_slice l : Forall well_formed l → well_formed (GSlice l)
  | wf_map l : NoDup l.*1 → Forall (λ kv, ValidString kv.1 = true ∧ well_formed kv.2) l → well_formed (GMap l).

Lemma all_ok_fmap {A B C E} (f : A → result E B) (g : A → result E C) (h : C → B) l :
  Forall (λ x, f x = h <$> g x) l → all_ok (map f l) = map h <$> all_ok (map g l).
Proof.
  induction 1 as [|x l Hx Hl IH]; [done|]. cbn [map all_ok]. rewrite Hx, IH.
  destruct (g x); [|done]. cbn. by destruct (all_ok (map g l)).
Qed.

Lemma sort_keys_map {A B} (f : A → B) (l : list (string * A)) :
  sort_keys (map (λ kv, (kv.1, f kv.2)) l) = map (λ kv, (kv.1, f kv.2)) (sort_keys l).
Proof. rewrite !sort_keys_members. apply sort_members_map. Qed.

Lemma jcsEncode_prints v : well_formed v → jcsEncode v = print <$> canonical_json v.
Proof.
  induction v as [|b|s|z|f|n|l IH|l IH] using goval_ind'; intros Hv; inversion Hv; subst; cbn [jcsEncode canonical_json]; try done.
  - cbn. f_equal. by apply jcsEncodeString_quoted.
  - by destruct (jcsEncodeNumber f).
  - by destruct (jcsEncodeJSONNumber n).
  - rewrite (all_ok_fmap _ canonical_json print); [by destruct (all_ok _)|]. rewrite Forall_forall in *. auto.
  - rewrite !sort_keys_map, !map_map. cbn [fst snd].
    rewrite (all_ok_fmap _ (λ kv, pair kv.1 <$> canonical_json kv.2) (λ kv, quoted kv.1 +:+ ":" +:+ print kv.2)).
    + by destruct (all_ok _).
    + rewrite Forall_forall in *. intros kv Hkv. rewrite sort_keys_members, sort_members_perm in Hkv.
      match goal with H : ∀ x, x ∈ l → ValidString x.1 = true ∧ _ |- _ => destruct (H kv Hkv) as [Hk Hw] end.
      unfold pair_text. cbn [fst snd]. rewrite (IH kv Hkv Hw). destruct (canonical_json kv.2); [|done]. cbn.
      by rewrite jcsEncodeString_quoted.
Qed.

Lemma Itoa_literal z : literal (Itoa z).
Proof.
  assert (Hl : ∀ n, (0 ≤ n)%Z → leading_digit (Utoa n)).
  { intros n Hn. destruct (Z.eq_dec n 0%Z) as [->|]; [by left|]. right.
    destruct (Utoa_head n) as (c & s & -> & Hc & _); [lia|]. by exists c, s. }
  assert (Ht : ∃ neg n, (0 ≤ n)%Z ∧ Itoa z = number_text neg (Utoa n) "" None).
  { unfold Itoa, number_text. destruct (Z.ltb_spec z 0).
    - exists true, (- z)%Z. split; [lia|]. cbn. by rewrite sapp_nil_r.
    - exists false, z. split; [done|]. cbn. by rewrite sapp_nil_r. }
  destruct Ht as (neg & n & Hn & ->). split.
  - unfold number_text. destruct neg; cbn [sign_text]; [eexists _, _; split; [done|by right]|].
    destruct (Hl n Hn) as [->|(c & s & -> & Hc)]; [eexists _, _; split; [done|by left]|].
    exists c, (s +:+ dotted "" +:+ exponent None). split; [done|]. left. by destruct (digit_code c Hc).
  - intros rest Hr. apply parse_num_text; [by apply Hl|by apply Utoa_digits|done|done].
Qed.

Lemma Itoa_inj a b : Itoa a = Itoa b → a = b.
Proof.
  assert (Hd : ∀ n m, (0 ≤ n)%Z → Utoa n ≠ String "-" (Utoa m)).
  { intros n m Hn E. pose proof (Utoa_no_byte n "-" Hn eq_refl) as H. rewrite E in H. by cbn in H. }
  unfold Itoa. destruct (Z.ltb_spec a 0), (Z.ltb_spec b 0); intros E.
  - injection E as E. apply Utoa_inj in E; lia.
  - by apply symmetry, Hd in E.
  - by apply Hd in E.
  - apply Utoa_inj in E; lia.
Qed.

Lemma jcsEncodeNumber_Itoa f t : jcsEncodeNumber f = Ok t → ∃ z, safe_int z = true ∧ t = Itoa z.
Proof.
  unfold jcsEncodeNumber. destruct (fzero f); [intros [= <-]; by exists 0%Z|].
  destruct (float_int f) as [z|]; [|done]. destruct (safe_int z) eqn:Hz; [|done]. intros [= <-]. by exists z.
Qed.

Lemma jcsEncodeJSONNumber_Itoa n t : jcsEncodeJSONNumber n = Ok t → ∃ z, safe_int z = true ∧ t = Itoa z.
Proof.
  unfold jcsEncodeJSONNumber. destruct (ParseInt n) as [i|].
  - destruct (safe_int i) eqn:Hi; [|done]. intros [= <-]. by exists i.
  - destruct (ParseFloat n); [apply jcsEncodeNumber_Itoa|done].
Qed.

Lemma all_ok_Forall2 {A B E} (f : A → result E B) l : ∀ ys, all_ok (map f l) = Ok ys → Forall2 (λ x y, f x = Ok y) l ys.
Proof.
  induction l as [|x l IH]; intros ys; cbn [map all_ok]; [intros [= <-]; constructor|].
  intros (y & Hy & (ys' & Hys & [= <-])%bind_Ok)%bind_Ok. constructor; auto.
Qed.

Lemma fmap_Ok {A B E} (f : A → B) (r : result E A) y : f <$> r = Ok y → ∃ x, r = Ok x ∧ y = f x.
Proof. destruct r as [x|]; [|done]. intros [= <-]. by exists x. Qed.

(** The members of an object in the order of its text. *)
Lemma canonical_map_ok l w :
  canonical_json (GMap l) = Ok w →
  ∃ ms, w = JObj ms ∧ Forall2 (λ kv m, m.1 = kv.1 ∧ canonical_json kv.2 = Ok m.2) (sort_keys l) ms.
Proof.
  cbn [canonical_json]. rewrite sort_keys_map, map_map. cbn [fst snd]. intros (ms & Hms & ->)%fmap_Ok.
  exists ms. split; [done|]. apply all_ok_Forall2 in Hms. eapply Forall2_impl; [exact Hms|].
  intros [k v] m Hm. cbn [fst snd] in *. apply fmap_Ok in Hm as (x & Hx & ->). done.
Qed.

Lemma canonical_slice_ok l w :
  canonical_json (GSlice l) = Ok w → ∃ ws, w = JArr ws ∧ Forall2 (λ v x, canonical_json v = Ok x) l ws.
Proof. cbn [canonical_json]. intros (ws & Hws & ->)%fmap_Ok. exists ws. split; [done|by apply all_ok_Forall2]. Qed.

Lemma Forall2_both {A B} (R : A → B → Prop) (P : A → Prop) (Q : B → Prop) l k :
  Forall P l → Forall2 R l k → (∀ x y, P x → R x y → Q y) → Forall Q k.
Proof. intros HP HR H. induction HR; inversion HP; subst; constructor; eauto. Qed.

Lemma sort_keys_perm {A} (l : list (string * A)) : sort_keys l ≡ₚ l.
Proof. rewrite sort_keys_members. apply sort_members_perm. Qed.

Lemma canonical_spelled v : ∀ w, well_formed v → canonical_json v = Ok w → spelled w.
Proof.
  induction v as [|b|s|z|f|n|l IH|l IH] using goval_ind'; intros w Hv Hw; inversion Hv; subst.
  - injection Hw as <-. constructor.
  - injection Hw as <-. constructor.
  - injection Hw as <-. by constructor.
  - injection Hw as <-. constructor. apply Itoa_literal.
  - apply fmap_Ok in Hw as (t & (z & _ & ->)%jcsEncodeNumber_Itoa & ->). constructor. apply Itoa_literal.
  - apply fmap_Ok in Hw as (t & (z & _ & ->)%jcsEncodeJSONNumber_Itoa & ->). constructor. apply Itoa_literal.
  - apply canonical_slice_ok in Hw as (ws & -> & Hws). constructor.
    eapply (Forall2_both _ (λ v, well_formed v ∧ ∀ w, well_formed v → canonical_json v = Ok w → spelled w)); [|done|naive_solver].
    by apply Forall_and.
  - apply canonical_map_ok in Hw as (ms & -> & Hms). constructor.
    eapply (Forall2_both _ (λ kv : string * goval, (ValidString kv.1 = true ∧ well_formed kv.2) ∧
      ∀ w, well_formed kv.2 → canonical_json kv.2 = Ok w → spelled w)); [|done|].
    { rewrite sort_keys_perm. by apply Forall_and. }
    intros kv m [[Hk Hw] Hi] [-> Hm]. split; [done|]. by apply Hi.
Qed.

(** The containers a value opens inside each other. *)
Fixpoint gheight (v : goval) : Z :=
  match v with
  | GSlice l => 1 + foldr (λ x, Z.max (gheight x)) 0 l
  | GMap l => 1 + foldr (λ kv, Z.max (gheight kv.2)) 0 l
  | _ => 0
  end%Z.

Lemma gheight_le {A} (h : A → Z) l n : (1 + foldr (λ x, Z.max (h x)) 0 l ≤ n)%Z ↔ (1 ≤ n)%Z ∧ Forall (λ x, (h x ≤ n - 1)%Z) l.
Proof.
  assert (Hf : (0 ≤ foldr (λ x, Z.max (h x)) 0 l)%Z) by (induction l; cbn [foldr]; lia).
  split; [intros H; split; [lia|]|intros [H1 H]].
  - clear Hf. assert (Hm : (foldr (λ x, Z.max (h x)) 0 l ≤ n - 1)%Z) by lia. revert Hm. clear H. generalize (n - 1)%Z.
    induction l as [|x l IH]; intros m Hm; [constructor|]. cbn [foldr] in Hm. constructor; [|apply IH]; lia.
  - induction H as [|x l Hx Hl IH]; cbn [foldr] in *; lia.
Qed.

Lemma canonical_height v : ∀ w n, canonical_json v = Ok w → (gheight v ≤ n)%Z → (height w ≤ n)%Z.
Proof.
  induction v as [|b|s|z|f|n|l IH|l IH] using goval_ind'; intros w k Hw Hk.
  - injection Hw as <-. done.
  - injection Hw as <-. done.
  - injection Hw as <-. done.
  - injection Hw as <-. done.
  - apply fmap_Ok in Hw as (t & _ & ->). done.
  - apply fmap_Ok in Hw as (t & _ & ->). done.
  - apply canonical_slice_ok in Hw as (ws & -> & Hws). cbn [gheight] in Hk. apply gheight_le in Hk as [H1 Hl].
    apply height_arr. split; [done|].
    eapply (Forall2_both _ (λ v, (gheight v ≤ k - 1)%Z ∧ ∀ w n, canonical_json v = Ok w → (gheight v ≤ n)%Z → (height w ≤ n)%Z));
      [by apply Forall_and|done|naive_solver].
  - apply canonical_map_ok in Hw as (ms & -> & Hms). cbn [gheight] in Hk.
    apply (gheight_le (λ kv : string * goval, gheight kv.2)) in Hk as [H1 Hl]. apply height_obj. split; [done|].
    eapply (Forall2_both _ (λ kv : string * goval, (gheight kv.2 ≤ k - 1)%Z ∧ ∀ w n, canonical_json kv.2 = Ok w → (gheight kv.2 ≤ n)%Z → (height w ≤ n)%Z));
      [|done|naive_solver].
    rewrite sort_keys_perm. by apply Forall_and.
Qed.

(** Equal texts are texts of one value. *)
Lemma jcsEncode_inj v v' t :
  well_formed v → well_formed v' → (gheight v ≤ maxNestingDepth)%Z → (gheight v' ≤ maxNestingDepth)%Z →
  jcsEncode v = Ok t → jcsEncode v' = Ok t → ∃ w, canonical_json v = Ok w ∧ canonical_json v' = Ok w.
Proof.
  intros Hv Hv' Hh Hh'. rewrite !jcsEncode_prints by done.
  intros (w & Hw & ->)%fmap_Ok (w' & Hw' & E)%fmap_Ok. exists w. split; [done|]. rewrite Hw'. f_equal.
  symmetry. apply print_inj; eauto using canonical_spelled, canonical_height.
Qed.

(** ** Values of one canonical text *)

Definition same_canonical (v v' : goval) : Prop := ∃ w, canonical_json v = Ok w ∧ canonical_json v' = Ok w.

#[export] Instance same_canonical_symmetric : Symmetric same_canonical.
Proof. intros v v' (w & ? & ?). by exists w. Qed.

Lemma same_string s s' : same_canonical (GString s) (GString s') → s = s'.
Proof. intros (w & [= <-] & [= ->]). done. Qed.

Lemma same_int z z' : same_canonical (GInt z) (GInt z') → z = z'.
Proof. intros (w & [= <-] & [= E]). by apply Itoa_inj in E. Qed.

Lemma same_slice l l' : same_canonical (GSlice l) (GSlice l') → Forall2 same_canonical l l'.
Proof.
  intros (w & (ws & -> & H)%canonical_slice_ok & (ws' & [= <-] & H')%canonical_slice_ok).
  clear -H H'. revert l' H'. induction H as [|v x l ws Hv Hl IH]; intros l' H'; inversion H'; subst; constructor; [by exists x|auto].
Qed.

Lemma same_strings l l' : same_canonical (GSlice (map GString l)) (GSlice (map GString l')) → l = l'.
Proof.
  intros H%same_slice. revert l' H. induction l as [|s l IH]; intros [|s' l'] H; inversion H; subst; [done|].
  f_equal; [by apply same_string|auto].
Qed.

Lemma same_sorted l l' :
  same_canonical (GMap l) (GMap l') →
  Forall2 (λ kv kv', kv.1 = kv'.1 ∧ same_canonical kv.2 kv'.2) (sort_keys l) (sort_keys l').
Proof.
  intros (w & (ms & -> & H)%canonical_map_ok & (ms' & [= <-] & H')%canonical_map_ok).
  revert H'. generalize (sort_keys l'). induction H as [|kv m k ms [Hk Hv] Hl IH]; intros k' H'; inversion H' as [|? ? ? ? [? ?]]; subst;
    constructor; [split; [congruence|by exists m.2]|auto].
Qed.

(** Every member of one object is a member of the other. *)
Lemma same_map l l' :
  same_canonical (GMap l) (GMap l') → ∀ k v, (k, v) ∈ l → ∃ v', (k, v') ∈ l' ∧ same_canonical v v'.
Proof.
  intros H%same_sorted k v Hin. rewrite <- (sort_keys_perm l) in Hin. apply list_elem_of_lookup_1 in Hin as [i Hi].
  destruct (Forall2_lookup_l _ _ _ _ _ H Hi) as ([k' v'] & Hi' & Hk & Hv). cbn [fst snd] in *. subst.
  exists v'. split; [|done]. rewrite <- (sort_keys_perm l'). by apply list_elem_of_lookup_2 in Hi'.
Qed.

(** ** Values that are JSON-encoded and decoded first *)

Lemma wire_map l :
  well_formed (GMap l) → wire_value (GMap l) = GMap (map (λ kv, (kv.1, wire_value kv.2)) l).
Proof.
  intros H. inversion H as [| | | | | | |l' Hn Hl E]; subst. cbn [wire_value]. f_equal.
  assert (E : map (λ kv, (wire_string kv.1, wire_value kv.2)) l = map (λ kv, (kv.1, wire_value kv.2)) l).
  { apply map_ext_Forall, (Forall_impl _ _ _ Hl). intros kv [Hk _]. by rewrite wire_string_valid. }
  rewrite E. apply last_members_id. by rewrite <- list_fmap_compose.
Qed.

Lemma wire_well_formed v : well_formed v → well_formed (wire_value v).
Proof.
  induction v as [|b|s|z|f|n|l IH|l IH] using goval_ind'; intros Hv; try (rewrite wire_map by done); inversion Hv; subst;
    cbn [wire_value]; try by constructor.
  - rewrite wire_string_valid by done. by constructor.
  - constructor. apply Forall_map. rewrite !Forall_forall in *. auto.
  - constructor; [by rewrite <- list_fmap_compose|]. apply Forall_map. rewrite !Forall_forall in *. cbn. naive_solver.
Qed.

Lemma wire_height v : well_formed v → gheight (wire_value v) = gheight v.
Proof.
  induction v as [|b|s|z|f|n|l IH|l IH] using goval_ind'; intros Hv; try (rewrite wire_map by done); inversion Hv; subst;
    cbn [wire_value gheight]; try done; f_equal; clear Hv.
  - induction l as [|x l IHl]; [done|]. repeat match goal with H : Forall _ (_ :: _) |- _ => apply Forall_cons in H as [? ?] end.
    cbn [map foldr]. rewrite IHl by done. f_equal; auto.
  - match goal with H : Forall _ l, H' : Forall (λ kv, _ ∧ _) l |- _ => revert H H' end. clear.
    induction l as [|x l IHl]; [done|]. intros [? ?]%Forall_cons [[? ?] ?]%Forall_cons.
    cbn [map foldr snd]. rewrite IHl by done. f_equal; auto.
Qed.

(** All strings of a JSON value are valid UTF-8, as decoding leaves them. *)
Fixpoint utf8 (v : json) : bool :=
  match v with
  | JStr s => ValidString s
  | JArr l => forallb utf8 l
  | JObj l => forallb (λ kv, ValidString kv.1 && utf8 kv.2) l
  | _ => true
  end.

Lemma any_well_formed v : utf8 v = true → well_formed (any_value v).
Proof.
  induction v as [|b|n|t|l IH|l IH] using json_ind'; cbn [utf8 any_value]; intros H; try by constructor.
  - constructor. apply Forall_map. by eapply forallb_impl_Forall in H.
  - constructor; [apply last_members_NoDup|]. apply last_members_sub, Forall_map. apply forallb_iff in H.
    rewrite !Forall_forall in *. intros kv Hin. specialize (H kv Hin). apply andb_true_iff in H as [? ?]. cbn. auto.
Qed.

Lemma any_height v : ∀ n, (height v ≤ n)%Z → (gheight (any_value v) ≤ n)%Z.
Proof.
  induction v as [|b|x|t|l IH|l IH] using json_ind'; intros n; cbn [any_value gheight]; try done.
  - rewrite height_arr, gheight_le, Forall_map. intros [? H]. split; [done|]. rewrite !Forall_forall in *. auto.
  - rewrite height_obj, (gheight_le (λ kv : string * goval, gheight kv.2)). intros [? H]. split; [done|].
    apply last_members_sub, Forall_map. rewrite !Forall_forall in *. cbn. auto.
Qed.

(** A decoded map, nested at most [n] deep. *)
Definition map_ok (n : Z) (m : anymap) : Prop := map_Forall (λ k v, ValidString k = true ∧ utf8 v = true ∧ (height v < n)%Z) m.

Lemma map_value_ok n m : (1 ≤ n)%Z → map_ok n m → well_formed (map_value m) ∧ (gheight (map_value m) ≤ n)%Z.
Proof.
  intros Hn Hm. unfold map_value.
  assert (Hl : Forall (λ kv, ValidString kv.1 = true ∧ utf8 kv.2 = true ∧ (height kv.2 < n)%Z) (map_to_list m)).
  { apply Forall_forall. intros [k v] H%elem_of_map_to_list. by apply (Hm k v). }
  split.
  - constructor; [rewrite <- list_fmap_compose; apply NoDup_fst_map_to_list|]. apply Forall_map, (Forall_impl _ _ _ Hl).
    intros kv (? & ? & _). split; [done|by apply any_well_formed].
  - cbn [gheight]. apply (gheight_le (λ kv : string * goval, gheight kv.2)). split; [done|]. apply Forall_map, (Forall_impl _ _ _ Hl).
    intros kv (_ & _ & ?). apply any_height. lia.
Qed.
