(* ===== verification/TmpSignThm.v ===== *)
(** * TmpSignThm: what a TMP signature binds

    What is signed determines the request, the provider and the day; so a verifier
    that accepts a request accepts what the holder of the key signed for it. *)
From stdpp Require Import gmap strings sorting.
From S2P Require Import Prelude GoStrings Unicode Float Json Base64 JsonTypes StrictJson Jcs JcsProps Idempotency SigBase TmpTypes TmpUrl TmpValidate Merge RouterReg TmpJcs TmpJcsThm TmpSign.
From stdpp Require Import options.

#[local] Arguments byte : simpl never.

(** ** Texts of joined parts *)

Definition line (s : string) : Prop := contains_byte s newline = false.

Lemma Split_Join_concat l sep :
  l ≠ [] → Split (Join l (String sep "")) sep = concat (map (λ s, Split s sep) l).
Proof.
  assert (Hs : ∀ s t, Split (s +:+ String sep t) sep = Split s sep ++ Split t sep).
  { intros s t. induction s as [|d s IH]; [rewrite sapp_nil_l; cbn [Split]; by rewrite beq_refl|].
    rewrite sapp_cons. cbn [Split].
    rewrite IH. destruct (beq d sep); [done|]. pose proof (Split_nonempty s sep). by destruct (Split s sep). }
  induction l as [|x l IH]; [done|]. intros _. destruct l as [|y l].
  - cbn. by rewrite app_nil_r.
  - change (Join (x :: y :: l) (String sep "")) with (x +:+ String sep (Join (y :: l) (String sep ""))).
    rewrite Hs, IH by done. done.
Qed.

Lemma Split_one s sep x : Split s sep = [x] → s = x.
Proof.
  revert x. induction s as [|d s IH]; intros x; [by intros [= <-]|]. cbn [Split].
  pose proof (Split_nonempty s sep). destruct (beq d sep); [by intros [= _ ?]|].
  destruct (Split s sep) as [|p ps]; [done|]. intros [= <- ->]. by rewrite (IH p eq_refl).
Qed.

(** As many parts as clean ones: they are the clean ones. *)
Lemma Join_clean_inj l k sep :
  length l = length k → Forall (λ s, contains_byte s sep = false) l →
  Join l (String sep "") = Join k (String sep "") → l = k.
Proof.
  intros Hlen Hl E. destruct l as [|x l]; [by destruct k|]. destruct k as [|y k]; [done|].
  apply (f_equal (λ s, Split s sep)) in E. rewrite Split_Join, Split_Join_concat in E by done.
  assert (H : ∀ k, length (concat (map (λ s, Split s sep) k)) = length k → concat (map (λ s, Split s sep) k) = k).
  { clear. assert (Hge : ∀ k, (length k ≤ length (concat (map (λ s, Split s sep) k)))%nat).
    { induction k as [|s k IH]; [done|]. cbn [map concat]. rewrite length_app. cbn [length].
      pose proof (Split_nonempty s sep). destruct (Split s sep); [done|]. cbn. lia. }
    induction k as [|s k IH]; [done|]. cbn [map concat]. rewrite length_app. cbn [length]. specialize (Hge k).
    destruct (Split s sep) as [|p [|q r]] eqn:E; [by apply Split_nonempty in E| |cbn; lia].
    intros Hk. cbn [length app] in *. f_equal; [symmetry; by apply (Split_one s sep)|apply IH; lia]. }
  rewrite H in E; [done|]. by rewrite <- E.
Qed.

Lemma sort_Strings_perm l : sort_Strings l ≡ₚ l.
Proof. apply merge_sort_Permutation. Qed.

Lemma sort_Strings_eq l k : sort_Strings l = sort_Strings k ↔ l ≡ₚ k.
Proof.
  split.
  - intros E. by rewrite <- (sort_Strings_perm l), E, sort_Strings_perm.
  - intros H. apply (Sorted_unique String.le); [apply Sorted_merge_sort, _..|].
    by rewrite !sort_Strings_perm.
Qed.

(** Package identifiers that a comma-separated list keeps apart. *)
Definition packages_clean (ids : list string) : Prop := Forall (λ s, s ≠ "" ∧ contains_byte s "," = false) ids.

Lemma package_text_inj ids ids' :
  packages_clean ids → packages_clean ids' → package_text ids = package_text ids' ↔ ids ≡ₚ ids'.
Proof.
  assert (Hne : ∀ l, packages_clean l → l ≠ [] → Join (sort_Strings l) "," ≠ "").
  { intros l Hl Hn. assert (Hs : packages_clean (sort_Strings l)) by (unfold packages_clean; by rewrite sort_Strings_perm).
    assert (sort_Strings l ≠ []) by (intros E; pose proof (sort_Strings_perm l) as P; rewrite E in P; by apply Permutation_nil_l in P).
    destruct (sort_Strings l) as [|x [|y k]]; [done|..]; apply Forall_cons in Hs as [[Hx _] _]; [done|].
    change (Join (x :: y :: k) ",") with (x +:+ String "," (Join (y :: k) ",")). by destruct x. }
  intros Hi Hi'. split.
  - unfold package_text. repeat case_bool_decide; subst; try done.
    + intros E. symmetry in E. by apply Hne in E.
    + intros E. by apply Hne in E.
    + intros E. apply sort_Strings_eq.
      assert (Hc : ∀ l, packages_clean l → Forall (λ s, contains_byte s "," = false) (sort_Strings l)).
      { intros l Hl. rewrite sort_Strings_perm. apply (Forall_impl _ _ _ Hl). by intros ? []. }
      assert (Hn : ∀ l, l ≠ [] → sort_Strings l ≠ []).
      { intros l Hn E0. pose proof (sort_Strings_perm l) as P. rewrite E0 in P. by apply Permutation_nil_l in P. }
      by apply (Join_inj _ _ ","); auto.
  - intros P. unfold package_text. apply sort_Strings_eq in P as E. rewrite E.
    repeat case_bool_decide; subst; try done. by apply Permutation_nil_l in P.
Qed.

(** ** The signing input of a context request *)

Lemma Itoa_line z : line (Itoa z).
Proof. unfold Itoa, line. case_match; [rewrite sapp_cons, contains_byte_cons; cbn|]; by apply Utoa_no_byte; [lia|]. Qed.

Section Context.
Context `{RT : Runtime}.

Lemma control_line s : no_control s = true → line s.
Proof. intros H. by apply no_control_nul. Qed.

Lemma context_fields_lines req ep :
  ValidateContextRequest req = Ok tt → line ep →
  ∀ e, Forall line [signedTypeContext; cmSellerAgentURL req; cmPropertyRID req; cmPlacementID req;
                    package_text (cmPackageIDs req); ep; Itoa e].
Proof.
  intros (Hr & Hp & Hs & Hk)%context_request_clean Hep e.
  repeat constructor; try (by apply control_line); [|done|apply Itoa_line].
  unfold package_text. case_bool_decide; [done|]. apply Join_no_byte; [by intros E; apply (f_equal code) in E|].
  rewrite sort_Strings_perm. apply (Forall_impl _ _ _ Hk). apply control_line.
Qed.

(** The same text is the same fields: only the signed request need be valid. *)
Lemma context_input_inj req req' ep ep' e e' :
  ValidateContextRequest req = Ok tt → line ep →
  BuildContextMatchSigningInput req ep e = BuildContextMatchSigningInput req' ep' e' →
  cmSellerAgentURL req = cmSellerAgentURL req' ∧ cmPropertyRID req = cmPropertyRID req' ∧
  cmPlacementID req = cmPlacementID req' ∧ package_text (cmPackageIDs req) = package_text (cmPackageIDs req') ∧
  ep = ep' ∧ e = e'.
Proof.
  intros Hv Hep E. apply Join_clean_inj in E; [|done|by apply context_fields_lines].
  injection E as ? ? ? ? ? E. by apply Itoa_inj in E.
Qed.
End Context.

(** ** Verifying *)

(** What is relied on of [crypto/ed25519]. *)
Class Ed25519Laws `{ED : Ed25519} := {
  ed_verifies : ∀ priv m, len priv = PrivateKeySize → EdVerify (EdPublic priv) m (EdSign priv m) = true;
  ed_sign_size : ∀ priv m, len (EdSign priv m) = SignatureSize;
  ed_public_size : ∀ priv, len priv = PrivateKeySize → len (EdPublic priv) = PublicKeySize;
}.

Lemma resolve_Ok kid url ks pub key :
  resolveSigningKey kid url (Some ks) = Ok (pub, key) ↔ lookupKey ks kid url = Some key ∧ PublicKey key = Some pub.
Proof.
  unfold resolveSigningKey. destruct (lookupKey ks kid url) as [k|]; cbn; [|naive_solver].
  destruct (PublicKey k) eqn:E; cbn; naive_solver.
Qed.

Lemma decodeSignature_encode raw : len raw = SignatureSize → decodeSignature (RawURLEncode raw) = Ok raw.
Proof.
  intros Hl. pose proof (DecodeString_Encode true false raw) as Hd. fold (RawURLEncode raw) in Hd.
  unfold decodeSignature. case_bool_decide as E; [rewrite E in Hd; by injection Hd as <-|].
  unfold RawURLDecode. rewrite Hd. cbn [opt_err mbind result_bind]. by rewrite Hl.
Qed.

Lemma PublicKey_of_raw k pub : len pub = PublicKeySize → PublicKey (PublicSigningKey k pub) = Some pub.
Proof.
  intros Hl. unfold PublicKey. cbn [Kty Crv X PublicSigningKey]. unfold RawURLDecode, RawURLEncode.
  rewrite DecodeString_Encode. cbn [mbind option_bind]. by rewrite Hl.
Qed.

Section Verify.
Context `{ED : Ed25519}.

(** Acceptance names an epoch, today's or yesterday's, at which the key still stands. *)
Lemma verify_epochs_sound input pub raw key cur :
  verify_epochs input pub raw key cur = Ok tt →
  ∃ e m, (e = cur ∨ e = cur - 1)%Z ∧ keyRevokedForEpoch key e = false ∧ input e = Ok m ∧ EdVerify pub m raw = true.
Proof using Type.
  assert (He : ∀ e, verify_epoch input pub raw key e = Ok true →
    ∃ m, keyRevokedForEpoch key e = false ∧ input e = Ok m ∧ EdVerify pub m raw = true).
  { intros e. unfold verify_epoch. destruct (keyRevokedForEpoch key e); [done|]. destruct (input e) as [m|]; [|done].
    intros [= H]. by exists m. }
  unfold verify_epochs. destruct (verify_epoch input pub raw key cur) as [[|]|] eqn:E; cbn [mbind result_bind]; [|..|done].
  - intros _. apply He in E as (m & ?). exists cur, m. naive_solver.
  - destruct (verify_epoch input pub raw key (cur - 1)) as [[|]|] eqn:E1; cbn [mbind result_bind]; [|by destruct (_ && _)|done].
    intros _. apply He in E1 as (m & ?). exists (cur - 1)%Z, m. naive_solver.
Qed.

Lemma verify_epochs_complete input pub raw key cur e m :
  (∀ e, is_ok (input e) = true) → (e = cur ∨ e = cur - 1)%Z → keyRevokedForEpoch key e = false → input e = Ok m →
  EdVerify pub m raw = true → verify_epochs input pub raw key cur = Ok tt.
Proof using Type.
  intros Hi He Hr Hm Hv.
  assert (Hok : verify_epoch input pub raw key e = Ok true) by (unfold verify_epoch; by rewrite Hr, Hm, Hv).
  unfold verify_epochs. destruct He as [->| ->]; [by rewrite Hok|].
  assert (∃ b, verify_epoch input pub raw key cur = Ok b) as [b ->].
  { unfold verify_epoch. destruct (keyRevokedForEpoch key cur); [by exists false|]. specialize (Hi cur).
    destruct (input cur); [eauto|done]. }
  cbn [mbind result_bind]. destruct b; [done|]. by rewrite Hok.
Qed.
End Verify.

(** ** Attestations, tokens and credentials of one text *)

(** Each member of [l] has a counterpart in [l']. *)
Definition members_in (l l' : list (string * goval)) : Prop :=
  ∀ k v, (k, v) ∈ l → ∃ v', (k, v') ∈ l' ∧ same_canonical (wire_value v) (wire_value v').

Lemma wire_members l l' :
  well_formed (GMap l) → well_formed (GMap l') → same_canonical (wire_value (GMap l)) (wire_value (GMap l')) →
  members_in l l' ∧ members_in l' l.
Proof.
  intros Hl Hl'. rewrite !wire_map by done. intros H. pose proof (symmetry H) as H'.
  assert (Hm : ∀ l l' : list (string * goval), same_canonical (GMap (map (λ kv, (kv.1, wire_value kv.2)) l)) (GMap (map (λ kv, (kv.1, wire_value kv.2)) l')) →
    members_in l l'); [|by split; apply Hm].
  clear. intros l l' H k v Hin.
  destruct (same_map _ _ H k (wire_value v)) as (v' & Hv' & Hs); [apply list_elem_of_fmap; by exists (k, v)|].
  apply list_elem_of_fmap in Hv' as ([k' u] & [= -> ->] & Hu). by exists u.
Qed.

Lemma elem_of_omitempty k v name s : (k, v) ∈ omitempty name s ↔ k = name ∧ v = GString s ∧ s ≠ "".
Proof.
  unfold omitempty. case_bool_decide; [rewrite elem_of_nil; naive_solver|].
  rewrite list_elem_of_singleton. naive_solver.
Qed.

Definition attestation_members (a : Attestation) : list (string * goval) :=
  [("issuer", map_value (Issuer a)); ("scheme", GString (Scheme a))] ++
    omitempty "relying_party_id" (RelyingPartyID a) ++ omitempty "action" (Action a) ++
    [("claims", GSlice (map GString (Claims a)))] ++
    omitempty "verification_level" (VerificationLevel a) ++ omitempty "signal_binding" (SignalBinding a) ++
    [("proof", map_value (Proof a))] ++ omitempty "expires_at" (ExpiresAt a).

Lemma elem_of_attestation k v a :
  (k, v) ∈ attestation_members a ↔
    k = "issuer" ∧ v = map_value (Issuer a) ∨ k = "scheme" ∧ v = GString (Scheme a) ∨
    k = "relying_party_id" ∧ v = GString (RelyingPartyID a) ∧ RelyingPartyID a ≠ "" ∨
    k = "action" ∧ v = GString (Action a) ∧ Action a ≠ "" ∨
    k = "claims" ∧ v = GSlice (map GString (Claims a)) ∨
    k = "verification_level" ∧ v = GString (VerificationLevel a) ∧ VerificationLevel a ≠ "" ∨
    k = "signal_binding" ∧ v = GString (SignalBinding a) ∧ SignalBinding a ≠ "" ∨
    k = "proof" ∧ v = map_value (Proof a) ∨ k = "expires_at" ∧ v = GString (ExpiresAt a) ∧ ExpiresAt a ≠ "".
Proof.
  unfold attestation_members. rewrite !elem_of_app, !elem_of_cons, !elem_of_nil, !elem_of_omitempty. naive_solver.
Qed.

(** Decoded values: valid strings, maps nested at most [depth] deep. *)
Definition depth : Z := (maxNestingDepth - 4)%Z.

Definition attestation_ok (a : Attestation) : Prop :=
  map_ok depth (Issuer a) ∧ map_ok depth (Proof a) ∧
  Forall (λ s, ValidString s = true)
    (Scheme a :: RelyingPartyID a :: Action a :: VerificationLevel a :: SignalBinding a :: ExpiresAt a :: Claims a).

Definition token_ok (i : IdentityToken) : Prop :=
  ValidString (UserToken i) = true ∧ ValidString (UIDType i) = true ∧
  match IdAttestation i with Some a => attestation_ok a | None => True end.

Definition credential_ok (c : SealedCredential) : Prop :=
  ValidString (AudienceKID c) = true ∧ ValidString (Payload c) = true.

(** The same attestation, its two maps up to the spelling of numbers. *)
Record same_attestation (a b : Attestation) : Prop := {
  same_issuer : same_canonical (wire_value (map_value (Issuer a))) (wire_value (map_value (Issuer b)));
  same_scheme : Scheme a = Scheme b;
  same_relying : RelyingPartyID a = RelyingPartyID b;
  same_action : Action a = Action b;
  same_claims : Claims a = Claims b;
  same_level : VerificationLevel a = VerificationLevel b;
  same_binding : SignalBinding a = SignalBinding b;
  same_proof : same_canonical (wire_value (map_value (Proof a))) (wire_value (map_value (Proof b)));
  same_expiry : ExpiresAt a = ExpiresAt b;
}.

Record same_token (i j : IdentityToken) : Prop := {
  same_user : UserToken i = UserToken j;
  same_uid : UIDType i = UIDType j;
  same_att : option_Forall2 same_attestation (IdAttestation i) (IdAttestation j);
}.

Lemma wf_map_intro n l :
  (1 ≤ n)%Z → NoDup l.*1 → Forall (λ kv, ValidString kv.1 = true ∧ well_formed kv.2 ∧ (gheight kv.2 < n)%Z) l →
  well_formed (GMap l) ∧ (gheight (GMap l) ≤ n)%Z.
Proof.
  intros Hn Hd Hl. split.
  - constructor; [done|]. apply (Forall_impl _ _ _ Hl). naive_solver.
  - cbn [gheight]. apply (gheight_le (λ kv : string * goval, gheight kv.2)). split; [done|].
    apply (Forall_impl _ _ _ Hl). naive_solver lia.
Qed.

Lemma wf_slice_intro {A} n (f : A → goval) l :
  (1 ≤ n)%Z → Forall (λ x, well_formed (f x) ∧ (gheight (f x) < n)%Z) l →
  well_formed (GSlice (map f l)) ∧ (gheight (GSlice (map f l)) ≤ n)%Z.
Proof.
  intros Hn Hl. split.
  - constructor. apply Forall_map, (Forall_impl _ _ _ Hl). naive_solver.
  - cbn [gheight]. apply gheight_le. split; [done|]. apply Forall_map, (Forall_impl _ _ _ Hl). naive_solver lia.
Qed.

Lemma wf_strings l : Forall (λ s, ValidString s = true) l →
  well_formed (GSlice (map GString l)) ∧ (gheight (GSlice (map GString l)) ≤ 1)%Z.
Proof. intros H. apply wf_slice_intro; [done|]. apply (Forall_impl _ _ _ H). intros s Hs. split; [by constructor|done]. Qed.

Lemma attestation_well_formed a :
  attestation_ok a → well_formed (attestation_value a) ∧ (gheight (attestation_value a) ≤ depth + 1)%Z.
Proof.
  intros (Hi & Hp & Hs). change (attestation_value a) with (GMap (attestation_members a)).
  apply wf_map_intro; [done|..].
  - unfold attestation_members, omitempty. repeat case_bool_decide; apply (bool_decide_unpack _); by vm_compute.
  - apply Forall_forall. intros [k v]. rewrite elem_of_attestation. cbn [fst snd].
    repeat (apply Forall_cons in Hs as [? Hs]).
    pose proof (map_value_ok depth _ ltac:(done) Hi). pose proof (map_value_ok depth _ ltac:(done) Hp).
    pose proof (wf_strings _ Hs). assert (depth = 9996%Z) by done.
    naive_solver (first [by constructor|lia]).
Qed.

Lemma wire_text s s' :
  ValidString s = true → ValidString s' = true → same_canonical (wire_value (GString s)) (wire_value (GString s')) → s = s'.
Proof. intros Hs Hs' H%same_string. by rewrite !wire_string_valid in H. Qed.

Lemma wire_texts l l' :
  Forall (λ s, ValidString s = true) l → Forall (λ s, ValidString s = true) l' →
  same_canonical (wire_value (GSlice (map GString l))) (wire_value (GSlice (map GString l'))) → l = l'.
Proof.
  assert (Hw : ∀ l, Forall (λ s, ValidString s = true) l → wire_value (GSlice (map GString l)) = GSlice (map GString l)).
  { intros k Hk. cbn [wire_value]. f_equal. rewrite map_map. apply map_ext_Forall, (Forall_impl _ _ _ Hk).
    intros s Hs. cbn [wire_value]. by rewrite wire_string_valid. }
  intros Hl Hl'. rewrite !Hw by done. apply same_strings.
Qed.

(** An optional member has the same text on both sides, absent for the empty one. *)
Lemma optional_member l l' k s s' :
  (∀ v, (k, v) ∈ l ↔ v = GString s ∧ s ≠ "") → (∀ v, (k, v) ∈ l' ↔ v = GString s' ∧ s' ≠ "") →
  members_in l l' → members_in l' l → ValidString s = true → ValidString s' = true → s = s'.
Proof.
  intros Hl Hl' Hm Hm' Hs Hs'. destruct (decide (s = "")) as [->|Hn].
  - destruct (decide (s' = "")) as [->|Hn']; [done|].
    destruct (Hm' k (GString s')) as (v & Hv & _); [by apply Hl'|]. by apply Hl in Hv as [_ ?].
  - destruct (Hm k (GString s)) as (v & Hv & E); [by apply Hl|]. apply Hl' in Hv as [-> _]. by apply wire_text.
Qed.

Local Ltac opt k :=
  eapply (optional_member (attestation_members _) (attestation_members _) k);
    [intros v; rewrite elem_of_attestation; naive_solver..|eassumption|eassumption|done|done].

Lemma attestation_inj a b :
  attestation_ok a → attestation_ok b →
  same_canonical (wire_value (attestation_value a)) (wire_value (attestation_value b)) → same_attestation a b.
Proof.
  intros Ha Hb H. apply wire_members in H as [Hab Hba]; [|by apply attestation_well_formed..].
  fold (attestation_members a) (attestation_members b) in Hab, Hba.
  destruct Ha as (_ & _ & Ha), Hb as (_ & _ & Hb). repeat (apply Forall_cons in Ha as [? Ha]; apply Forall_cons in Hb as [? Hb]).
  split.
  - destruct (Hab "issuer" (map_value (Issuer a))) as (v & Hv & E); rewrite elem_of_attestation in *; naive_solver.
  - destruct (Hab "scheme" (GString (Scheme a))) as (v & Hv & E); rewrite elem_of_attestation in *; [naive_solver|].
    apply wire_text; naive_solver.
  - opt "relying_party_id".
  - opt "action".
  - destruct (Hab "claims" (GSlice (map GString (Claims a)))) as (v & Hv & E); rewrite elem_of_attestation in *; [naive_solver|].
    apply wire_texts; naive_solver.
  - opt "verification_level".
  - opt "signal_binding".
  - destruct (Hab "proof" (map_value (Proof a))) as (v & Hv & E); rewrite elem_of_attestation in *; naive_solver.
  - opt "expires_at".
Qed.

Lemma token_well_formed i : token_ok i → well_formed (token_value i) ∧ (gheight (token_value i) ≤ depth + 2)%Z.
Proof.
  intros (Hu & Ht & Ha). unfold token_value. apply wf_map_intro; [done|..].
  - destruct (IdAttestation i); apply (bool_decide_unpack _); by vm_compute.
  - apply Forall_app. split; [repeat constructor; done|]. destruct (IdAttestation i) as [a|]; [|done].
    apply attestation_well_formed in Ha as [? ?]. constructor; [|done]. cbn [fst snd]. split_and!; [done|done|lia].
Qed.

Lemma token_inj i j :
  token_ok i → token_ok j → same_canonical (wire_value (token_value i)) (wire_value (token_value j)) → same_token i j.
Proof.
  intros Hi Hj H. apply wire_members in H as [Hij Hji]; [|by apply token_well_formed..].
  destruct Hi as (Hu & Ht & Ha), Hj as (Hu' & Ht' & Ha'). split.
  - destruct (Hij "user_token" (GString (UserToken i))) as (v & Hv & E); [by left|].
    apply wire_text; [done..|]. destruct (IdAttestation j); set_solver.
  - destruct (Hij "uid_type" (GString (UIDType i))) as (v & Hv & E); [by right; left|].
    apply wire_text; [done..|]. destruct (IdAttestation j); set_solver.
  - destruct (IdAttestation i) as [a|], (IdAttestation j) as [b|]; [| | |constructor].
    + constructor. destruct (Hij "attestation" (attestation_value a)) as (v & Hv & E); [set_solver|].
      apply attestation_inj; [done..|]. set_solver.
    + destruct (Hij "attestation" (attestation_value a)) as (v & Hv & E); [set_solver|]. set_solver.
    + destruct (Hji "attestation" (attestation_value b)) as (v & Hv & E); [set_solver|]. set_solver.
Qed.

Lemma credential_well_formed c : credential_ok c → well_formed (credential_value c) ∧ (gheight (credential_value c) ≤ 1)%Z.
Proof.
  intros [Hk Hp]. unfold credential_value. apply wf_map_intro; [done|apply (bool_decide_unpack _); by vm_compute|].
  repeat constructor; done.
Qed.

Lemma credential_inj c d :
  credential_ok c → credential_ok d → same_canonical (wire_value (credential_value c)) (wire_value (credential_value d)) → c = d.
Proof.
  intros Hc Hd H. apply wire_members in H as [H _]; [|by apply credential_well_formed..].
  destruct c as [k p], d as [k' p'], Hc, Hd. cbn [AudienceKID Payload] in *. f_equal.
  - destruct (H "audience_kid" (GString k)) as (v & Hv & E); [by left|]. apply wire_text; [done..|]. set_solver.
  - destruct (H "payload" (GString p)) as (v & Hv & E); [by right; left|]. apply wire_text; [done..|]. set_solver.
Qed.

(** Lists that one text spells are alike element by element. *)
Lemma wire_list_inj {A} n (f : A → goval) (P : A → Prop) (R : A → A → Prop) l l' t :
  (∀ x, P x → well_formed (f x) ∧ (gheight (f x) < n)%Z) → (n ≤ maxNestingDepth)%Z → (1 ≤ n)%Z →
  (∀ x y, P x → P y → same_canonical (wire_value (f x)) (wire_value (f y)) → R x y) →
  Forall P l → Forall P l' →
  jcsMarshal (jcsValue (GSlice (map f l))) = Ok t → jcsMarshal (jcsValue (GSlice (map f l'))) = Ok t → Forall2 R l l'.
Proof.
  intros Hf Hn H1 HR Hl Hl' Ht Ht'.
  assert (Hw : ∀ l, Forall P l → well_formed (GSlice (map f l)) ∧ (gheight (GSlice (map f l)) ≤ n)%Z).
  { intros k Hk. apply wf_slice_intro; [done|]. apply (Forall_impl _ _ _ Hk). auto. }
  assert (Hs : same_canonical (wire_value (GSlice (map f l))) (wire_value (GSlice (map f l')))).
  { destruct (Hw l Hl), (Hw l' Hl'). apply (jcsEncode_inj _ _ t); auto using wire_well_formed; rewrite wire_height by done; lia. }
  cbn [wire_value] in Hs. rewrite !map_map in Hs. apply same_slice in Hs. clear Ht Ht' Hw.
  revert l' Hl' Hs. induction Hl as [|x l Hx Hl IH]; intros [|y l'] Hl' Hs; inversion Hs; subst; constructor; inversion Hl'; subst; auto.
Qed.

(** ** Deduplication and order of tokens *)

Lemma dedup_sub seen ids : Forall (λ i, i ∈ ids) (dedup_tokens seen ids).
Proof.
  revert seen. induction ids as [|i ids IH]; intros seen; cbn [dedup_tokens]; [constructor|].
  case_bool_decide; [|constructor; [by left|]]; eapply Forall_impl; try apply IH; intros j Hj; by right.
Qed.

Lemma sort_tokens_perm l : sort_tokens l ≡ₚ l.
Proof.
  unfold sort_tokens. induction l as [|i l IH]; [done|]. cbn [foldr]. rewrite <- IH at 2. clear IH.
  generalize (foldr insert_token [] l). clear l. intros l. induction l as [|j l IH]; [done|]. cbn [insert_token].
  destruct (token_lt i j); [done|]. rewrite IH. apply Permutation_swap.
Qed.

Definition signed_tokens (ids : list IdentityToken) : list IdentityToken := sort_tokens (dedup_tokens [] ids).

Lemma signed_tokens_ok ids : Forall token_ok ids → Forall token_ok (signed_tokens ids).
Proof.
  intros H. unfold signed_tokens. rewrite sort_tokens_perm. rewrite Forall_forall in *.
  pose proof (dedup_sub [] ids) as Hd. rewrite Forall_forall in Hd. auto.
Qed.

(** ** The signing input of an identity request *)

Section Identity.
Context `{RT : Runtime}.
Variable sort_credentials : list SealedCredential → list SealedCredential.

Lemma object_keys {A} (a b c d e f g h i : A) :
  sort_keys [("type", a); ("request_id", b); ("seller_agent_url", c); ("identities_hash", d); ("consent", e);
             ("package_ids", f); ("sealed_credentials_hash", g); ("provider_endpoint_url", h); ("daily_epoch", i)] =
  [("consent", e); ("daily_epoch", i); ("identities_hash", d); ("package_ids", f); ("provider_endpoint_url", h);
   ("request_id", b); ("sealed_credentials_hash", g); ("seller_agent_url", c); ("type", a)].
Proof using Type. by vm_compute. Qed.

(** Whether there is an input depends on neither the provider nor the day. *)
Lemma identity_input_ok req ep e ep' e' :
  is_ok (BuildIdentityMatchSigningInput sort_credentials req ep e) =
  is_ok (BuildIdentityMatchSigningInput sort_credentials req ep' e').
Proof using Type.
  unfold BuildIdentityMatchSigningInput. destruct (canonicalIdentitiesHash _) as [h|]; [|done].
  destruct (sealed_value _ _) as [s|]; [|done]. cbn [mbind result_bind].
  unfold jcsMarshal, canonical_object. cbn [jcsEncode map]. rewrite !object_keys. cbn [map all_ok]. unfold pair_text. cbn [snd fst].
  destruct (jcsEncode (consent_value (imConsent req))); [|done].
  destruct (jcsEncode (GSlice _)); [|done]. by destruct (jcsEncode s).
Qed.

(** A request whose strings were decoded, and whose consent a decoder accepts. *)
Record decoded_request (req : IdentityMatchRequest) : Prop := {
  decoded_texts : Forall (λ s, ValidString s = true) (imRequestID req :: imSellerAgentURL req :: imPackageIDs req);
  decoded_consent : map_ok depth (imConsent req);
  decoded_tokens : Forall token_ok (imIdentities req);
  decoded_credentials : Forall credential_ok (imSealedCredentials req);
}.

(** What an identity signature covers. *)
Record same_content (req req' : IdentityMatchRequest) : Prop := {
  content_request : imRequestID req = imRequestID req';
  content_seller : imSellerAgentURL req = imSellerAgentURL req';
  content_packages : imPackageIDs req ≡ₚ imPackageIDs req';
  content_consent : same_canonical (consent_value (imConsent req)) (consent_value (imConsent req'));
  content_tokens : Forall2 same_token (signed_tokens (imIdentities req)) (signed_tokens (imIdentities req'));
  content_credentials : imSealedCredentials req ≡ₚ imSealedCredentials req';
}.

(** The texts whose digests make up an input. *)
Inductive hashed (req : IdentityMatchRequest) (ep : string) (e : Z) (t : string) : Prop :=
  | hashed_tokens : jcsMarshal (jcsValue (GSlice (map token_value (signed_tokens (imIdentities req))))) = Ok t → hashed req ep e t
  | hashed_credentials :
      jcsMarshal (jcsValue (GSlice (map credential_value (sort_credentials (imSealedCredentials req))))) = Ok t → hashed req ep e t
  | hashed_object h s :
      canonicalIdentitiesHash (imIdentities req) = Ok h → sealed_value sort_credentials (imSealedCredentials req) = Ok s →
      jcsMarshal (canonical_object req h s ep e) = Ok t → hashed req ep e t.

(** SHA-256 tells the texts of the two inputs apart. *)
Definition no_clash (req req' : IdentityMatchRequest) (ep ep' : string) (e e' : Z) : Prop :=
  ∀ s t, hashed req ep e s → hashed req' ep' e' t → Sha256 s = Sha256 t → s = t.

Hypothesis sort_credentials_perm : ∀ l, sort_credentials l ≡ₚ l.

Lemma hex_sum_inj s t : hex_sum s = hex_sum t → Sha256 s = Sha256 t.
Proof using Type. apply hex_text_inj. Qed.

Lemma hex_sum_valid s : ValidString (hex_sum s) = true.
Proof using Type.
  assert (H : all_bytes hex_char (hex_sum s) = true).
  { apply hex_encode_chars, Forall_map, Forall_forall. intros x _. apply code_range. }
  revert H. generalize (hex_sum s). clear s. induction s as [|c s IH]; [done|]. cbn [all_bytes]. intros [Hc Hs]%andb_true_iff.
  rewrite valid_ascii; [auto|]. unfold hex_char, is_digit, between in Hc. lia.
Qed.

Definition sealed_ok (s : goval) : Prop := s = GNil ∨ ∃ h, s = GString h ∧ ValidString h = true.

Lemma sealed_value_ok creds s : sealed_value sort_credentials creds = Ok s → sealed_ok s.
Proof using Type.
  unfold sealed_value. case_bool_decide; [intros [= <-]; by left|]. intros (h & Hh & [= <-])%bind_Ok. right.
  unfold canonicalSealedCredentialsHash in Hh. apply bind_Ok in Hh as (t & _ & [= <-]). eexists. split; [done|apply hex_sum_valid].
Qed.

Lemma object_ok req h s ep e :
  decoded_request req → ValidString ep = true → ValidString h = true → sealed_ok s →
  well_formed (canonical_object req h s ep e) ∧ (gheight (canonical_object req h s ep e) ≤ maxNestingDepth)%Z.
Proof using Type.
  intros [Ht Hc _ _] Hep Hh Hs. apply Forall_cons in Ht as [Hr Ht]. apply Forall_cons in Ht as [Hu Hp].
  assert (Hcv : well_formed (consent_value (imConsent req)) ∧ (gheight (consent_value (imConsent req)) ≤ depth)%Z).
  { unfold consent_value. case_bool_decide; [split; [constructor|done]|by apply map_value_ok]. }
  assert (Hps : Forall (λ s, ValidString s = true) (sort_Strings (imPackageIDs req))) by (by rewrite sort_Strings_perm).
  apply wf_strings in Hps. assert (depth = 9996%Z ∧ maxNestingDepth = 10000%Z) as [? ?] by done.
  apply wf_map_intro; [done|apply (bool_decide_unpack _); by vm_compute|].
  repeat (apply Forall_cons; split); [..|done]; (split; [done|]); cbn [snd]; try (split; [by constructor|done]).
  - destruct Hcv. split; [done|lia].
  - destruct Hps. split; [done|lia].
  - destruct Hs as [->|(t & -> & ?)]; (split; [by constructor|done]).
Qed.

Lemma same_sealed creds creds' s s' :
  Forall credential_ok creds → Forall credential_ok creds' →
  sealed_value sort_credentials creds = Ok s → sealed_value sort_credentials creds' = Ok s' → same_canonical s s' →
  (∀ t t', jcsMarshal (jcsValue (GSlice (map credential_value (sort_credentials creds)))) = Ok t →
    jcsMarshal (jcsValue (GSlice (map credential_value (sort_credentials creds')))) = Ok t' → Sha256 t = Sha256 t' → t = t') →
  creds ≡ₚ creds'.
Proof using sort_credentials_perm.
  intros Hc Hc' Hs Hs' E Hn. revert Hs Hs'. unfold sealed_value. repeat case_bool_decide; subst; try done.
  - intros [= <-] (h & _ & [= <-])%bind_Ok. by destruct E as (w & [= <-] & ?).
  - intros (h & _ & [= <-])%bind_Ok [= <-]. by destruct E as (w & [= <-] & ?).
  - intros (h & (t & Ht & [= <-])%bind_Ok & [= <-])%bind_Ok (h' & (t' & Ht' & [= <-])%bind_Ok & [= <-])%bind_Ok.
    apply same_string, hex_sum_inj, Hn in E; [|done..]. subst t'.
    assert (E : Forall2 eq (sort_credentials creds) (sort_credentials creds')).
    { eapply (wire_list_inj 2 credential_value credential_ok eq); [|done|done|apply credential_inj| | |exact Ht|exact Ht'].
      - intros c [? ?]%credential_well_formed. split; [done|lia].
      - by rewrite sort_credentials_perm.
      - by rewrite sort_credentials_perm. }
    apply list_eq_Forall2 in E. by rewrite <- (sort_credentials_perm creds), E, sort_credentials_perm.
Qed.

Lemma same_tokens ids ids' h :
  Forall token_ok ids → Forall token_ok ids' →
  canonicalIdentitiesHash ids = Ok h → canonicalIdentitiesHash ids' = Ok h →
  (∀ t t', jcsMarshal (jcsValue (GSlice (map token_value (signed_tokens ids)))) = Ok t →
    jcsMarshal (jcsValue (GSlice (map token_value (signed_tokens ids')))) = Ok t' → Sha256 t = Sha256 t' → t = t') →
  Forall2 same_token (signed_tokens ids) (signed_tokens ids').
Proof using Type.
  intros Hi Hi' (t & Ht & [= <-])%bind_Ok (t' & Ht' & [= E])%bind_Ok Hn.
  apply hex_sum_inj, symmetry, Hn in E; [|done..]. subst t'.
  eapply (wire_list_inj (depth + 3) token_value token_ok same_token);
    [|done|done|apply token_inj|by apply signed_tokens_ok|by apply signed_tokens_ok|exact Ht|exact Ht'].
  intros i [? ?]%token_well_formed. split; [done|lia].
Qed.

Lemma identity_input_inj req req' ep ep' e e' m :
  decoded_request req → decoded_request req' → ValidString ep = true → ValidString ep' = true →
  no_clash req req' ep ep' e e' →
  BuildIdentityMatchSigningInput sort_credentials req ep e = Ok m →
  BuildIdentityMatchSigningInput sort_credentials req' ep' e' = Ok m →
  same_content req req' ∧ ep = ep' ∧ e = e'.
Proof using sort_credentials_perm.
  intros Hr Hr' Hep Hep' Hn (h & Hh & (s & Hs & (t & Ht & [= <-])%bind_Ok)%bind_Ok)%bind_Ok
    (h' & Hh' & (s' & Hs' & (t' & Ht' & E)%bind_Ok)%bind_Ok)%bind_Ok. injection E as E.
  apply hex_sum_inj, symmetry, Hn in E; [|by eapply hashed_object..]. subst t'.
  assert (Hv : ∀ ids h, canonicalIdentitiesHash ids = Ok h → ValidString h = true).
  { intros ids x. unfold canonicalIdentitiesHash. intros (u & _ & [= <-])%bind_Ok. apply hex_sum_valid. }
  assert (Ho : same_canonical (canonical_object req h s ep e) (canonical_object req' h' s' ep' e')).
  { apply (jcsEncode_inj _ _ t); try done; apply object_ok; eauto using sealed_value_ok. }
  apply same_sorted in Ho. rewrite !object_keys in Ho.
  repeat (apply Forall2_cons in Ho as [[_ ?] Ho]). cbn [snd] in *.
  repeat match goal with
  | H : same_canonical (GString _) (GString _) |- _ => apply same_string in H
  | H : same_canonical (GInt _) (GInt _) |- _ => apply same_int in H
  end. subst h'.
  split; [|done]. destruct Hr as [_ _ Htok Hcred], Hr' as [_ _ Htok' Hcred']. split; try done.
  - apply sort_Strings_eq, same_strings. done.
  - eapply same_tokens; [done|done|exact Hh|exact Hh'|]. intros u u' Hu Hu'. by apply Hn; apply hashed_tokens.
  - eapply same_sealed; [done..|]. intros u u' Hu Hu'. by apply Hn; apply hashed_credentials.
Qed.
End Identity.
