(* ===== verification/TmpAuth.v ===== *)
(** * TmpAuth: signers and verifiers of the Trusted Match protocol together

    A history of what the holder of a key signed; what a verifier accepts is in it, and
    what is in it is accepted.  The router's signature cache changes neither. *)
From stdpp Require Import gmap strings sorting.
From S2P Require Import Prelude GoStrings Unicode Float Json NetUrl Base64 JsonTypes StrictJson Jcs JcsProps Idempotency SigBase TmpTypes TmpUrl TmpValidate Provider Filter Merge RouterReg Router RouterThm Sign TmpJcs TmpJcsThm TmpSign TmpSignThm.
From stdpp Require Import options.

#[local] Arguments byte : simpl never.

(** ** Endpoints *)

Lemma ltrim_idemp P l : ltrim P (ltrim P l) = ltrim P l.
Proof. induction l as [|c l IH]; [done|]. cbn [ltrim]. destruct (P c) eqn:E; [done|]. cbn [ltrim]. by rewrite E. Qed.

Lemma Normalize_idemp s : NormalizeProviderEndpointURL (NormalizeProviderEndpointURL s) = NormalizeProviderEndpointURL s.
Proof.
  unfold NormalizeProviderEndpointURL, TrimRight, rtrim. by rewrite explode_implode, reverse_involutive, ltrim_idemp.
Qed.

Section Auth.
Context `{RT : Runtime}.
Context `{ED : Ed25519}.
Variable sort_credentials : list SealedCredential → list SealedCredential.

(** ** What is signed is accepted *)

(** The verifier knows [pub] under [kid], not revoked on the day [e]. *)
Definition knows (ks : KeyStore) (kid seller pub : string) (e : Z) : Prop :=
  ∃ key, lookupKey ks kid seller = Some key ∧ PublicKey key = Some pub ∧ keyRevokedForEpoch key e = false.

(** A signature made for a provider on a day verifies at that provider on that day and the day after,
    whatever slashes end the endpoint on either side, when the provider knows the signer's public key
    under the key identifier and it is not revoked for that day. *)
Lemma context_signature_verifies {L : Ed25519Laws} s req ep own e ks now :
  len (privateKey s) = PrivateKeySize →
  knows ks (KeyID s) (cmSellerAgentURL req) (EdPublic (privateKey s)) e →
  NormalizeProviderEndpointURL ep = NormalizeProviderEndpointURL own →
  (EpochAt now = e ∨ EpochAt now = e + 1)%Z →
  VerifyContextMatch req own (SignContextMatch s req ep e) (KeyID s) (Some ks) now = Ok tt.
Proof using Type.
  intros Hs (key & Hk & Hp & Hr) Hep He. unfold VerifyContextMatch, SignContextMatch.
  rewrite (proj2 (resolve_Ok _ _ _ _ _) (conj Hk Hp)). cbn [mbind result_bind].
  rewrite decodeSignature_encode by apply ed_sign_size. cbn [mbind result_bind]. rewrite Hep.
  eapply (verify_epochs_complete _ _ _ _ _ e); [done|lia|done|done|by apply ed_verifies].
Qed.

(** The same for an identity request, for which signing may fail. *)
Lemma identity_signature_verifies {L : Ed25519Laws} s req ep own e ks now sig :
  len (privateKey s) = PrivateKeySize →
  knows ks (KeyID s) (imSellerAgentURL req) (EdPublic (privateKey s)) e →
  NormalizeProviderEndpointURL ep = NormalizeProviderEndpointURL own →
  (EpochAt now = e ∨ EpochAt now = e + 1)%Z →
  SignIdentityMatch sort_credentials s req ep e = Ok sig →
  VerifyIdentityMatch sort_credentials req own sig (KeyID s) (Some ks) now = Ok tt.
Proof using Type.
  intros Hs (key & Hk & Hp & Hr) Hep He (m & Hm & [= <-])%bind_Ok. unfold VerifyIdentityMatch.
  rewrite (proj2 (resolve_Ok _ _ _ _ _) (conj Hk Hp)). cbn [mbind result_bind].
  rewrite decodeSignature_encode by apply ed_sign_size. cbn [mbind result_bind]. rewrite Hep in Hm.
  eapply (verify_epochs_complete _ _ _ _ _ e); [|lia|done|done|by apply ed_verifies].
  intros e'. by rewrite (identity_input_ok sort_credentials req _ e' (NormalizeProviderEndpointURL own) e), Hm.
Qed.

(** ** What is accepted was signed *)

Inductive signing :=
  | SignedContext (req : ContextMatchRequest) (ep : string) (e : Z)
  | SignedIdentity (req : IdentityMatchRequest) (ep : string) (e : Z).

Definition signing_input (s : signing) : result string string :=
  match s with
  | SignedContext req ep e => Ok (BuildContextMatchSigningInput req (NormalizeProviderEndpointURL ep) e)
  | SignedIdentity req ep e => BuildIdentityMatchSigningInput sort_credentials req (NormalizeProviderEndpointURL ep) e
  end.

(** The key [pub] signs nothing but what [log] lists: Ed25519 signatures cannot be forged. *)
Definition unforged (pub : string) (log : list signing) : Prop :=
  ∀ m raw, EdVerify pub m raw = true → ∃ s, s ∈ log ∧ signing_input s = Ok m.

(** Every key the verifier may resolve is the key of that log. *)
Definition trusted (ks : KeyStore) (kid seller : string) (log : list signing) : Prop :=
  ∀ key pub, lookupKey ks kid seller = Some key → PublicKey key = Some pub → unforged pub log.

(** What a router signs: context requests it has validated, identity requests it has decoded. *)
Definition honest (s : signing) : Prop :=
  match s with
  | SignedContext req ep e => ValidateContextRequest req = Ok tt ∧ line (NormalizeProviderEndpointURL ep)
  | SignedIdentity req ep e => decoded_request req ∧ ValidString (NormalizeProviderEndpointURL ep) = true
  end.

(** The day of a signing that a verifier accepts at [now]. *)
Definition current (ks : KeyStore) (kid seller : string) (now : Time) (e : Z) : Prop :=
  (e = EpochAt now ∨ e = EpochAt now - 1)%Z ∧
  ∃ key, lookupKey ks kid seller = Some key ∧ keyRevokedForEpoch key e = false.

Lemma context_input_lines req ep e : contains_byte (BuildContextMatchSigningInput req ep e) newline = true.
Proof using Type.
  unfold BuildContextMatchSigningInput. cbn [Join]. rewrite !contains_byte_app, contains_byte_cons, beq_refl.
  cbn [orb]. by rewrite orb_true_r.
Qed.

Lemma identity_input_line req ep e m : BuildIdentityMatchSigningInput sort_credentials req ep e = Ok m → line m.
Proof using Type.
  intros (h & _ & (s & _ & (t & _ & [= <-])%bind_Ok)%bind_Ok)%bind_Ok.
  eapply all_bytes_no, hex_encode_chars; [done|]. apply Forall_map, Forall_forall. intros x _. apply code_range.
Qed.

Lemma Ok_text {E} (a b : string) : Ok (E := E) a = Ok b → a = b.
Proof using Type. congruence. Qed.

(** Acceptance in terms of the log. *)
Lemma accepted_logged input kid seller sig ks now log pub key raw :
  trusted ks kid seller log → resolveSigningKey kid seller (Some ks) = Ok (pub, key) → decodeSignature sig = Ok raw →
  verify_epochs input pub raw key (EpochAt now) = Ok tt →
  ∃ e m s, current ks kid seller now e ∧ input e = Ok m ∧ s ∈ log ∧ signing_input s = Ok m.
Proof using Type.
  intros Ht [Hk Hp]%resolve_Ok _ (e & m & He & Hr & Hm & Hv)%verify_epochs_sound.
  destruct (Ht key pub Hk Hp m raw Hv) as (s & ? & ?). exists e, m, s. split_and!; [split; [done|by exists key]|done..].
Qed.

(** C14: A context request is accepted only if the holder of the key signed, for this provider and on this
    day or the day before, a request of the same seller, property and placement, whose package
    identifiers, sorted and joined with commas, are the same text; when no identifier of either
    request is empty or holds a comma, the packages are the same up to their order.  The signed
    request was valid, the accepted one may be any. *)
Theorem context_acceptance_authentic req own sig kid ks now log :
  trusted ks kid (cmSellerAgentURL req) log → Forall honest log →
  VerifyContextMatch req own sig kid (Some ks) now = Ok tt →
  ∃ req' ep e, SignedContext req' ep e ∈ log ∧ current ks kid (cmSellerAgentURL req) now e ∧
    NormalizeProviderEndpointURL ep = NormalizeProviderEndpointURL own ∧
    cmSellerAgentURL req' = cmSellerAgentURL req ∧ cmPropertyRID req' = cmPropertyRID req ∧
    cmPlacementID req' = cmPlacementID req ∧ package_text (cmPackageIDs req') = package_text (cmPackageIDs req) ∧
    (packages_clean (cmPackageIDs req') → packages_clean (cmPackageIDs req) → cmPackageIDs req' ≡ₚ cmPackageIDs req).
Proof using Type.
  intros Ht Hh ([pub key] & Hk & (raw & Hraw & Hv)%bind_Ok)%bind_Ok.
  destruct (accepted_logged _ _ _ _ _ _ _ _ _ _ Ht Hk Hraw Hv) as (e & m & s & He & [= <-] & Hs & Hm).
  rewrite Forall_forall in Hh. specialize (Hh s Hs). destruct s as [req' ep e'|req' ep e'].
  - destruct Hh as [Hval Hline]. apply Ok_text in Hm.
    apply context_input_inj in Hm as (? & ? & ? & Hp & ? & ->); [|done..]. exists req', ep, e.
    split_and!; [done..|]. intros Hc' Hc. by apply (package_text_inj _ _ Hc' Hc).
  - apply identity_input_line in Hm. unfold line in Hm. by rewrite context_input_lines in Hm.
Qed.

Lemma Forall2_member {A B} (P : A → B → Prop) l k : Forall2 P l k →
  (∀ y, y ∈ k → ∃ x, x ∈ l ∧ P x y) ∧ (∀ x, x ∈ l → ∃ y, y ∈ k ∧ P x y).
Proof using Type.
  induction 1 as [|x y l k Hp H [IHr IHl]]; [by split; intros ? ?%elem_of_nil|].
  split; intros z [->|Hz]%elem_of_cons; [by exists x; split; [left|]| |by exists y; split; [left|]|].
  - destruct (IHr z Hz) as (x' & ? & ?). exists x'. by split; [right|].
  - destruct (IHl z Hz) as (y' & ? & ?). exists y'. by split; [right|].
Qed.

(** The first identity of its type and token. *)
Definition first_of (ids : list IdentityToken) (i : IdentityToken) : Prop :=
  ∃ l k, ids = l ++ i :: k ∧ token_key i ∉ token_key <$> l.

Lemma dedup_tokens_spec ids seen i : i ∈ dedup_tokens seen ids ↔ first_of ids i ∧ token_key i ∉ seen.
Proof using Type.
  revert seen. induction ids as [|j ids IH]; intros seen; cbn [dedup_tokens].
  { split; [by intros ?%elem_of_nil|intros [([|] & ? & ? & _) _]; done]. }
  assert (Hf : first_of (j :: ids) i ↔ i = j ∨ first_of ids i ∧ token_key i ≠ token_key j).
  { split.
    - intros ([|x l] & k & [= -> ->] & Hn); [by left|right]. rewrite fmap_cons, not_elem_of_cons in Hn.
      destruct Hn. split; [by exists l, k|done].
    - intros [->|[(l & k & -> & Hn) Hne]]; [exists [], ids; split; [done|by apply not_elem_of_nil]|].
      exists (j :: l), k. split; [done|]. rewrite fmap_cons, not_elem_of_cons. done. }
  rewrite Hf. case_bool_decide as Hj.
  - rewrite IH. split; [intros [? ?]; split; [right; split; [done|by intros E; rewrite E in *]|done]|].
    intros [[->|[? ?]] ?]; done.
  - rewrite elem_of_cons, IH, not_elem_of_cons. split; [intros [->|(? & ? & ?)]; auto|].
    intros [[->|[? ?]] ?]; auto.
Qed.

Lemma signed_tokens_first ids i : i ∈ signed_tokens ids ↔ first_of ids i.
Proof using Type.
  unfold signed_tokens. rewrite sort_tokens_perm, dedup_tokens_spec. split; [by intros []|intros; split; [done|by apply not_elem_of_nil]].
Qed.

(** C13: An identity request is accepted only if the holder of the key signed, for this provider and on
    this day or the day before, a request of the same content: request identifier, seller, consent,
    packages, credentials, and identities with their attestations, where of the identities that
    repeat a type and a token only the first counts: it is the first of its type and token in what
    was signed, with the same attestation, and the other way round.  A later copy is not signed and
    may carry any attestation.  SHA-256 is assumed to tell the texts of the two apart, and both
    requests to have been decoded. *)
Theorem identity_acceptance_authentic req own sig kid ks now log :
  (∀ l, sort_credentials l ≡ₚ l) →
  trusted ks kid (imSellerAgentURL req) log → Forall honest log →
  decoded_request req → ValidString (NormalizeProviderEndpointURL own) = true →
  (∀ req' ep e e', SignedIdentity req' ep e ∈ log →
     no_clash sort_credentials req' req (NormalizeProviderEndpointURL ep) (NormalizeProviderEndpointURL own) e e') →
  VerifyIdentityMatch sort_credentials req own sig kid (Some ks) now = Ok tt →
  ∃ req' ep e, SignedIdentity req' ep e ∈ log ∧ current ks kid (imSellerAgentURL req) now e ∧
    NormalizeProviderEndpointURL ep = NormalizeProviderEndpointURL own ∧ same_content req' req ∧
    (∀ i, first_of (imIdentities req) i → ∃ i', first_of (imIdentities req') i' ∧ same_token i' i) ∧
    (∀ i', first_of (imIdentities req') i' → ∃ i, first_of (imIdentities req) i ∧ same_token i' i).
Proof using Type.
  intros Hsort Ht Hh Hr Ho Hn ([pub key] & Hk & (raw & Hraw & Hv)%bind_Ok)%bind_Ok.
  destruct (accepted_logged _ _ _ _ _ _ _ _ _ _ Ht Hk Hraw Hv) as (e & m & s & He & Hi & Hs & Hm).
  rewrite Forall_forall in Hh. specialize (Hh s Hs). destruct s as [req' ep e'|req' ep e'].
  - apply identity_input_line in Hi. injection Hm as <-. unfold line in Hi. by rewrite context_input_lines in Hi.
  - destruct Hh as [Hr' Hep]. destruct (identity_input_inj sort_credentials Hsort req' req _ _ e' e m Hr' Hr Hep Ho
      (Hn req' ep e' e Hs) Hm Hi) as (Hc & ? & ->). exists req', ep, e. destruct (Forall2_member _ _ _ (content_tokens _ _ Hc)) as [Hr2 Hl2].
    split_and!; [done..| |]; intros i Hi0%signed_tokens_first; setoid_rewrite <- signed_tokens_first.
    + by apply Hr2.
    + by apply Hl2.
Qed.

(** ** The signature cache *)

(** The critical sections of concurrent calls of [signatureFor], one signer for all. *)
Inductive sig_action :=
  | SigLookup (req : ContextMatchRequest) (ep : string) (e : Z)
  | SigStore (req : ContextMatchRequest) (ep : string) (e : Z).

Definition sig_step (s : Signer) (c : contextSignatureCache) (a : sig_action) : contextSignatureCache :=
  match a with
  | SigLookup _ _ _ => c
  | SigStore req ep e => sig_store c (sig_key req ep e) e (SignContextMatch s req ep e)
  end.

Definition sig_run (s : Signer) (n : Z) (h : list sig_action) : contextSignatureCache :=
  foldl (sig_step s) (newContextSignatureCache n) h.

Definition sig_sound (s : Signer) (c : contextSignatureCache) : Prop :=
  (∀ req ep e sig, scEntries c !! sig_key req ep e = Some sig → sig = SignContextMatch s req ep e) ∧
  (1 ≤ scMaxEntries c)%Z ∧ (Z.of_nat (size (scEntries c)) ≤ scMaxEntries c)%Z.

(** The key of a request has all that its signature depends on. *)
Lemma sig_key_signature s req ep e req' ep' e' :
  sig_key req ep e = sig_key req' ep' e' → SignContextMatch s req ep e = SignContextMatch s req' ep' e'.
Proof using Type.
  intros [= Hu Hr Hp Hep Hids ->]. unfold SignContextMatch, BuildContextMatchSigningInput. by rewrite Hu, Hr, Hp, Hep, Hids.
Qed.

Lemma sig_step_sound s c a : sig_sound s c → sig_sound s (sig_step s c a).
Proof using Type.
  intros (He & H1 & Hsz). destruct a as [req ep e|req ep e]; [done|]. cbn [sig_step]. unfold sig_store.
  set (c' := if (scMaxEntries c <=? _)%Z then _ else c).
  assert (Hc' : scEntries c' ⊆ scEntries c ∧ scMaxEntries c' = scMaxEntries c ∧ (Z.of_nat (size (scEntries c')) < scMaxEntries c)%Z).
  { subst c'. destruct (Z.leb_spec (scMaxEntries c) (Z.of_nat (size (scEntries c)))); [|split_and!; [done|done|lia]].
    unfold evictOldEpochsLocked. cbn [scEntries scMaxEntries].
    match goal with |- context [(?a <? ?b)%Z] => destruct (Z.ltb_spec a b) end.
    - split_and!; [apply map_filter_subseteq|done|done].
    - split_and!; [apply map_empty_subseteq|done|rewrite map_size_empty; lia]. }
  destruct Hc' as (Hsub & Hm & Hlt). split_and!; cbn [scEntries scMaxEntries].
  - intros req' ep' e' sig. rewrite lookup_insert_Some. intros [[Hk <-]|[_ Hl]]; [by apply sig_key_signature|].
    apply He. by eapply lookup_weaken.
  - lia.
  - rewrite map_size_insert. case_match; cbn; lia.
Qed.

Lemma sig_run_sound s n h : sig_sound s (sig_run s n h).
Proof using Type.
  unfold sig_run. assert (Hn : sig_sound s (newContextSignatureCache n)).
  { unfold newContextSignatureCache. split_and!; cbn [scEntries scMaxEntries].
    - intros req ep e sig. by rewrite lookup_empty.
    - destruct (Z.leb_spec n 0); lia.
    - rewrite map_size_empty. destruct (Z.leb_spec n 0); lia. }
  revert Hn. generalize (newContextSignatureCache n). induction h as [|a h IH]; intros c Hc; [done|].
  cbn [foldl]. apply IH, sig_step_sound, Hc.
Qed.

Lemma signatureFor_fst s c req ep e : sig_sound s c → (signatureFor c s req ep e).1 = SignContextMatch s req ep e.
Proof using Type.
  intros (He & _). unfold signatureFor, sig_lookup. destruct (scEntries c !! sig_key req ep e) as [sig|] eqn:E; [|done].
  by apply He.
Qed.

(** Under every interleaving of the critical sections of concurrent calls, the signature a call
    returns is the one the signer makes for that very request, endpoint and day, cached or not, and
    the cache never holds more than its maximum of entries. *)
Theorem signature_cache_transparent s n h req ep e :
  let c := sig_run s n h in
  (signatureFor c s req ep e).1 = SignContextMatch s req ep e ∧
  (Z.of_nat (size (scEntries c)) ≤ scMaxEntries c)%Z.
Proof using Type.
  intros c. pose proof (sig_run_sound s n h) as Hs. split; [by apply signatureFor_fst|apply Hs].
Qed.

(** ** The router signs what it sends *)

(** The headers a context leg sends with a request, taken from the cache or signed afresh after any
    history of the cache, are accepted by the provider they go to, knowing the router's key, on the
    day they are made and the day after. *)
Theorem router_context_authenticated {L : Ed25519Laws} s n h req p own ks now now' :
  len (privateKey s) = PrivateKeySize →
  knows ks (KeyID s) (cmSellerAgentURL req) (EdPublic (privateKey s)) (EpochAt now) →
  NormalizeProviderEndpointURL (Endpoint p) = NormalizeProviderEndpointURL own →
  (EpochAt now' = EpochAt now ∨ EpochAt now' = EpochAt now + 1)%Z →
  ∃ sig, (signContextHeaders (sig_run s n h) (Some s) req (Endpoint p) now).1 =
      [(HeaderTMPSignature, sig); (HeaderTMPKeyID, KeyID s)] ∧
    VerifyContextMatch req own sig (KeyID s) (Some ks) now' = Ok tt.
Proof using Type.
  intros Hs Hk Hep Hnow. unfold signContextHeaders.
  pose proof (signatureFor_fst s (sig_run s n h) req (NormalizeProviderEndpointURL (Endpoint p)) (EpochAt now) (sig_run_sound s n h)) as E.
  destruct (signatureFor _ _ _ _ _) as [sig c]. cbn [fst] in *. subst sig. eexists. split; [done|].
  apply (context_signature_verifies s req _ own (EpochAt now)); [done..| |done]. by rewrite Normalize_idemp.
Qed.

(** The two headers of a signature are read back by the provider. *)
Lemma extract_call_header sig kid : sig ≠ "" → kid ≠ "" →
  ExtractSignatureHeaders (call_header [(HeaderTMPSignature, sig); (HeaderTMPKeyID, kid)]) = Ok (sig, kid).
Proof using Type.
  intros Hs Hk. unfold call_header, ExtractSignatureHeaders. cbn [foldl fst snd].
  rewrite HeaderGet_set_eq, HeaderGet_set_ne, HeaderGet_set_eq by (vm_compute; discriminate).
  by rewrite !bool_decide_false by done.
Qed.

Lemma decoded_nonempty sig raw : len raw = SignatureSize → decodeSignature sig = Ok raw → sig ≠ "".
Proof using Type. intros Hr H ->. vm_compute in H. done. Qed.

(** C15: Every request an identity fan-out sends goes to the identity URL of its provider with a header
    from which that provider, knowing the router's key, reads a signature it accepts for the very
    request in the body, on the day it is sent and the day after. *)
Theorem router_identity_authenticated {L : Ed25519Laws} s now ps circuit_open http arrival raw resp out o own ks now' :
  len (privateKey s) = PrivateKeySize → KeyID s ≠ "" →
  HandleIdentityMatch ps circuit_open (λ f ep, signIdentityHeaders sort_credentials (Some s) f ep now) http arrival raw =
    Ok (resp, out) →
  o ∈ out →
  knows ks (KeyID s) (imSellerAgentURL (oRequest o)) (EdPublic (privateKey s)) (EpochAt now) →
  NormalizeProviderEndpointURL (Endpoint (oProvider o)) = NormalizeProviderEndpointURL own →
  (EpochAt now' = EpochAt now ∨ EpochAt now' = EpochAt now + 1)%Z →
  oURL o = Endpoint (oProvider o) +:+ "/identity" ∧
  ∃ sig kid, ExtractSignatureHeaders (oHeader o) = Ok (sig, kid) ∧
    VerifyIdentityMatch sort_credentials (oRequest o) own sig kid (Some ks) now' = Ok tt.
Proof using Type.
  intros Hs Hkid H Ho Hk Hep Hnow. unfold HandleIdentityMatch in H. apply bind_Ok in H as ([req m] & _ & [= <- <-]).
  apply list_elem_of_omap in Ho as (p & _ & Ho). apply identity_call_Some in Ho as (f & hs & _ & _ & Hsig & ->).
  cbn [oProvider oURL oHeader oRequest] in *. split; [done|]. unfold signIdentityHeaders in Hsig.
  apply bind_Ok in Hsig as (sig & Hsig & [= <-]). exists sig, (KeyID s). split.
  - apply extract_call_header; [|done]. pose proof Hsig as (input & _ & [= <-])%bind_Ok.
    eapply decoded_nonempty; [|apply decodeSignature_encode, ed_sign_size]. apply ed_sign_size.
  - apply (identity_signature_verifies s f (NormalizeProviderEndpointURL (Endpoint p)) own (EpochAt now)); [done..| |done|done].
    by rewrite Normalize_idemp.
Qed.
End Auth.

(** ** Concrete signers and verifiers *)

Definition fill (n : nat) (s : string) : string := stake n (s +:+ implode (replicate n "0"%char)).

Definition ending (m : string) : string := fill 32 (implode (reverse (explode m))).

(** A scheme that signs with the public half of the key and the end of the message. *)
#[local] Instance toy_ed : Ed25519 := {|
  EdPublic := fill 32;
  EdSign priv m := fill 32 priv +:+ ending m;
  EdVerify pub m raw := bool_decide (raw = pub +:+ ending m);
|}.

Lemma fill_len n s : len (fill n s) = n.
Proof.
  unfold fill. rewrite len_stake, len_app, <- (len_explode (implode _)), explode_implode, length_replicate. lia.
Qed.

#[local] Instance toy_laws : Ed25519Laws.
Proof.
  split.
  - intros priv m _. by apply bool_decide_eq_true.
  - intros priv m. change (len (fill 32 priv +:+ ending m) = 64). unfold ending. by rewrite len_app, !fill_len.
  - intros priv _. apply fill_len.
Defined.

Definition sample_signer : Signer := MkSigner "router-1" (fill 64 "secret").
Definition sample_store : KeyStore := NewStaticKeyStore [PublicJWK sample_signer].
Definition day (n : Z) : Time := ((unixToInternal + n * secondsPerDay) * Second)%Z.

Definition sample_provider_at (ep : string) : ProviderConfig :=
  MkProvider "buyer_1" ep "" true true [] [] [] [] [] [] ["uid2"; "id5"] [] ["k2"] 0 0.

(** Signed on day 20000, from the cache, for an endpoint with a slash; verified on the two days after. *)
Lemma router_context_authenticated_witness :
  let _ := ascii_runtime in
  let req := sample_context "https://seller.example" [] in
  let p := sample_provider_at "https://buyer.example/tmp/" in
  let own := "https://buyer.example/tmp" in
  let h := [SigStore req own 20000; SigStore (sample_context "https://other.example" []) own 20000] in
  let hs := (signContextHeaders (sig_run sample_signer 10 h) (Some sample_signer) req (Endpoint p) (day 20000)).1 in
  let sig := default "" (snd <$> head hs) in
  sig_lookup (sig_run sample_signer 10 h) (sig_key req own 20000) = Some sig ∧
  VerifyContextMatch req own sig "router-1" (Some sample_store) (day 20001) = Ok tt ∧
  VerifyContextMatch req own sig "router-1" (Some sample_store) (day 20002) = Err ErrSignatureInvalid.
Proof.
  intros RT req p own h hs sig. split; [by vm_compute|]. split; [|by vm_compute].
  destruct (router_context_authenticated sample_signer 10 h req p own sample_store (day 20000) (day 20001)) as (sig' & Hs & Hv).
  - by vm_compute.
  - exists (PublicJWK sample_signer). by vm_compute.
  - by vm_compute.
  - right. by vm_compute.
  - assert (E : sig = sig') by (unfold sig, hs; rewrite Hs; reflexivity). rewrite E. exact Hv.
Defined.

Definition attested_identity : IdentityMatchRequest :=
  with_subset (sample_identity [])
    [MkToken "t2" "uid2" None;
     MkToken "t1" "id5" (Some (MkAttestation {[ "domain" := JStr "issuer.example" ]} "world_id" "" "" ["age_over_18"] "" ""
       {[ "nullifier" := JStr "0xabc" ]} ""))] [MkSealed "k2" "k2.c"; MkSealed "k1" "k1.c"].

(** One of the two credentials is for the provider; the other is not sent, and the rest is signed. *)
Lemma router_identity_authenticated_witness :
  let _ := ascii_runtime in
  let p := sample_provider_at "https://buyer.example/tmp/" in
  ∃ resp o, HandleIdentityMatch (NewProviderSet [p]) (λ _, false)
      (λ f ep, signIdentityHeaders id (Some sample_signer) f ep (day 20000)) (λ _, Err "refused") id attested_identity = Ok (resp, [o]) ∧
    imSealedCredentials (oRequest o) = [MkSealed "k2" "k2.c"] ∧ oURL o = "https://buyer.example/tmp//identity" ∧
    ∃ sig kid, ExtractSignatureHeaders (oHeader o) = Ok (sig, kid) ∧
      VerifyIdentityMatch id (oRequest o) "https://buyer.example/tmp" sig kid (Some sample_store) (day 20001) = Ok tt.
Proof.
  intros RT p. eexists _, _. split; [vm_compute; reflexivity|]. split; [reflexivity|].
  eapply (router_identity_authenticated id sample_signer (day 20000) (NewProviderSet [p]) (λ _, false) (λ _, Err "refused") id
    attested_identity); [by vm_compute|done|vm_compute; reflexivity|by left| |by vm_compute|right; by vm_compute].
  exists (PublicJWK sample_signer). by vm_compute.
Defined.

Definition by_audience : list SealedCredential → list SealedCredential :=
  merge_sort (λ c d, String.le (AudienceKID c) (AudienceKID d)).

(** A key that verifies exactly what the sample log lists. *)
Definition sample_log : list signing :=
  [SignedContext (sample_context "https://seller.example" []) "https://buyer.example/tmp" 20000;
   SignedIdentity attested_identity "https://buyer.example/tmp/" 20000].

Definition logged : list string :=
  omap (λ s, match signing_input (RT := ascii_runtime) by_audience s with Ok m => Some m | Err _ => None end) sample_log.

Definition logged_ed : Ed25519 := {|
  EdPublic := fill 32;
  EdSign _ _ := fill 64 "";
  EdVerify _ m _ := bool_decide (m ∈ logged);
|}.

Lemma logged_unforged pub : @unforged ascii_runtime logged_ed by_audience pub sample_log.
Proof.
  intros m raw H. apply bool_decide_eq_true in H. unfold logged in H. apply list_elem_of_omap in H as (s & Hs & Hm).
  exists s. split; [done|]. by destruct (signing_input by_audience s); simplify_eq.
Defined.

Lemma attested_decoded : decoded_request attested_identity.
Proof.
  split.
  - repeat constructor.
  - unfold map_ok. apply (bool_decide_unpack _). by vm_compute.
  - repeat (apply Forall_cons; split; [|first [exact (Forall_nil_2 _)|idtac]]); (split; [done|split; [done|]]); [done|].
    split_and!; [unfold map_ok; apply (bool_decide_unpack _); by vm_compute..|]. repeat constructor.
  - repeat constructor.
Defined.

Lemma sample_honest : Forall (honest (RT := ascii_runtime)) sample_log.
Proof.
  repeat (apply Forall_cons; split); [|split; [exact attested_decoded|by vm_compute]|done]. split; by vm_compute.
Defined.

(** The accepted request has its packages in another order, and says nothing else of the signed one. *)
Lemma context_acceptance_authentic_witness :
  let _ := ascii_runtime in let _ := logged_ed in
  let req := MkContextRequest "" "" "other" "rid-1" "" "" "home/top" "https://seller.example" None [] ∅ None ["p2"; "p1"] in
  let sig := RawURLEncode (fill 64 "") in
  VerifyContextMatch req "https://buyer.example/tmp/" sig "router-1" (Some sample_store) (day 20001) = Ok tt ∧
  ∃ req' ep e, SignedContext req' ep e ∈ sample_log ∧ cmSellerAgentURL req' = cmSellerAgentURL req ∧
    package_text (cmPackageIDs req') = package_text (cmPackageIDs req).
Proof.
  intros RT ED req sig.
  assert (E : VerifyContextMatch req "https://buyer.example/tmp/" sig "router-1" (Some sample_store) (day 20001) = Ok tt) by by vm_compute.
  split; [exact E|].
  destruct (context_acceptance_authentic by_audience req "https://buyer.example/tmp/" sig "router-1" sample_store (day 20001) sample_log)
    as (req' & ep & e & Hin & _ & _ & Hs & _ & _ & Hp & _).
  - intros key pub _ _. exact (logged_unforged pub).
  - exact sample_honest.
  - exact E.
  - exists req', ep, e. exact (conj Hin (conj Hs Hp)).
Defined.

(** The accepted request has its identities, credentials and packages in another order. *)
Lemma identity_acceptance_authentic_witness :
  let _ := ascii_runtime in let _ := logged_ed in
  let req := MkIdentityRequest "" "" "r-2" "https://seller.example" (reverse (imIdentities attested_identity))
    (imConsent attested_identity) ["p2"; "p1"] "" [MkSealed "k1" "k1.c"; MkSealed "k2" "k2.c"] in
  let sig := RawURLEncode (fill 64 "") in
  VerifyIdentityMatch by_audience req "https://buyer.example/tmp" sig "router-1" (Some sample_store) (day 20001) = Ok tt ∧
  ∃ req' ep e, SignedIdentity req' ep e ∈ sample_log ∧ same_content req' req.
Proof.
  intros RT ED req sig.
  assert (E : VerifyIdentityMatch by_audience req "https://buyer.example/tmp" sig "router-1" (Some sample_store) (day 20001) = Ok tt) by by vm_compute.
  split; [exact E|].
  destruct (identity_acceptance_authentic by_audience req "https://buyer.example/tmp" sig "router-1" sample_store (day 20001) sample_log)
    as (req' & ep & e & Hin & _ & _ & Hs & _).
  - intros l. apply merge_sort_Permutation.
  - intros key pub _ _. exact (logged_unforged pub).
  - exact sample_honest.
  - destruct attested_decoded as [Ht Hc Hi Hk]. split; [repeat constructor|exact Hc| |repeat constructor].
    unfold req. cbn [imIdentities]. rewrite reverse_Permutation. exact Hi.
  - by vm_compute.
  - intros req' ep e e' _ s t _ _ H. exact H.
  - exact E.
  - exists req', ep, e. exact (conj Hin Hs).
Defined.

(** ** What the input does not tell apart *)

(** A comma in a package identifier is the separator of two. *)
Theorem package_comma_ambiguous ep e :
  let req l := with_packages (sample_context "https://seller.example" []) l in
  BuildContextMatchSigningInput (req ["a,b"]) ep e = BuildContextMatchSigningInput (req ["a"; "b"]) ep e.
Proof. done. Qed.

Definition proof_with (n : string) : list IdentityToken :=
  [MkToken "t" "other" (Some (MkAttestation {[ "domain" := JStr "i" ]} "s" "" "" ["c"] "" "" {[ "n" := JNum n ]} ""))].

(** A number just beyond the safe range is rounded when the request is decoded, and signed as rounded;
    further beyond, signing fails. *)
Theorem beyond_safe_is_signed :
  let _ := ascii_runtime in
  is_ok (canonicalIdentitiesHash (proof_with "9007199254740993")) = true ∧
  canonicalIdentitiesHash (proof_with "9007199254740993") = canonicalIdentitiesHash (proof_with "9007199254740992") ∧
  is_ok (canonicalIdentitiesHash (proof_with "9007199254740994")) = false.
Proof. by vm_compute. Qed.

(** A copy of a token with any attestation, after the token itself, leaves the input as it is. *)
Theorem injected_duplicate_signed `{RT : Runtime} ids i a :
  i ∈ ids → canonicalIdentitiesHash (ids ++ [MkToken (UserToken i) (UIDType i) a]) = canonicalIdentitiesHash ids.
Proof.
  intros Hi. unfold canonicalIdentitiesHash.
  assert (H : ∀ seen, (i ∈ ids ∨ token_key i ∈ seen) →
    dedup_tokens seen (ids ++ [MkToken (UserToken i) (UIDType i) a]) = dedup_tokens seen ids).
  { clear Hi. induction ids as [|j ids IH]; intros seen H; cbn [app dedup_tokens].
    - destruct H as [H|H]; [by apply elem_of_nil in H|]. by rewrite bool_decide_true.
    - case_bool_decide as Hj; [|f_equal]; apply IH.
      + destruct H as [[->|H]%elem_of_cons|H]; [by right|by left|by right].
      + destruct H as [[->|H]%elem_of_cons|H]; [right; by left|by left|right; by right]. }
  rewrite H; [done|by left].
Qed.
