(* ===== verification/Tmpx.v ===== *)
(** * Tmpx: exposure tokens

    [tmproto/tmpx.go] and [tmpx_open.go]: the binary plaintext, HPKE in mode base as the
    package implements it, the wire form, and opening.  HMAC and HKDF of the standard library
    are defined over the SHA-256 parameter; X25519 and ChaCha20-Poly1305 are parameters. *)
From stdpp Require Import strings.
From S2P Require Import Prelude GoStrings Unicode Bytes NetUrl Base64.
From stdpp Require Import options.

Definition TmpxFormatVersion : Z := 1.
Definition TmpxMaxKidLen : nat := 8.
Definition TmpxHeaderBytes : nat := 16.
Definition TmpxHPKEOverheadBytes : nat := 48.
Definition TmpxMaxWireBytes : nat := 255.
Definition TmpxMaxSlots : nat := 2.
Definition TmpxMaxReassembledWireBytes : nat := TmpxMaxSlots * TmpxMaxWireBytes.
(** [chacha20poly1305.Overhead], [KeySize], [NonceSize]. *)
Definition Overhead : nat := 16.
Definition hpkeNh : nat := 32.
Definition hpkeNk : nat := 32.
Definition hpkeNn : nat := 12.
Definition tmpxMaxPayloadBytes : nat := 32 + TmpxHeaderBytes + 255 * (1 + 48) + Overhead.
Definition TmpxSealedMaxWireBytes : nat := TmpxMaxKidLen + 1 + Z.to_nat 8192.

(** ** Plaintext *)

Inductive TmpxTypeID :=
  | TmpxTypeUID2 | TmpxTypeEUID | TmpxTypeID5 | TmpxTypeRampID | TmpxTypeRampIDDerived | TmpxTypeMAID
  | TmpxTypePairID | TmpxTypeHashedEmail | TmpxTypePublisherFirstParty | TmpxTypeWorldIDNullifier
  | TmpxTypeOther (n : Z).

#[export] Instance TmpxTypeID_eq_dec : EqDecision TmpxTypeID.
Proof. solve_decision. Defined.

(** The byte of a type; an unregistered one is any other [uint8]. *)
Definition type_byte (t : TmpxTypeID) : Z :=
  match t with
  | TmpxTypeUID2 => 1 | TmpxTypeEUID => 2 | TmpxTypeID5 => 3 | TmpxTypeRampID => 4 | TmpxTypeRampIDDerived => 5
  | TmpxTypeMAID => 6 | TmpxTypePairID => 7 | TmpxTypeHashedEmail => 8 | TmpxTypePublisherFirstParty => 9
  | TmpxTypeWorldIDNullifier => 10 | TmpxTypeOther n => n
  end%Z.

Definition TmpxTokenSize (t : TmpxTypeID) : option nat :=
  match t with
  | TmpxTypeUID2 | TmpxTypeEUID | TmpxTypeID5 | TmpxTypeRampID | TmpxTypePairID | TmpxTypeHashedEmail
  | TmpxTypePublisherFirstParty => Some 32
  | TmpxTypeRampIDDerived | TmpxTypeWorldIDNullifier => Some 48
  | TmpxTypeMAID => Some 16
  | TmpxTypeOther _ => None
  end.

Record TmpxEntry := MkEntry { TypeID : TmpxTypeID; EntryToken : string }.

Definition isASCIIUpper (c : ascii) : bool := between 65 90 c.

Definition entry_bytes (e : TmpxEntry) : string := String (byte (type_byte (TypeID e))) (EntryToken e).

Definition country_ok (country : string) : bool :=
  match country with String a (String b "") => isASCIIUpper a && isASCIIUpper b | _ => false end.

Definition entry_ok (e : TmpxEntry) : bool :=
  match TmpxTokenSize (TypeID e) with Some n => (len (EntryToken e) =? n)%nat | None => false end.

(** The nonce that the random source gave, or its failure. *)
Definition encodeTmpxPlaintextWith (country : string) (entries : list TmpxEntry) (ts : Time) (nonce : result string string) :
    result string string :=
  _ ← guard_err (country_ok country) "tmpx country invalid";
  _ ← guard_err (length entries <=? 255)%nat "tmpx entries exceed maximum";
  _ ← guard_err (forallb entry_ok entries) "tmpx entry invalid";
  nonce ← nonce;
  Ok (String (byte TmpxFormatVersion) (be_bytes 4 (Unix ts)) +:+ country +:+ nonce +:+
      String (byte (Z.of_nat (length entries))) (sconcat (map entry_bytes entries))).

Definition entriesByteLen (entries : list TmpxEntry) : nat := foldr (λ e n, 1 + len (EntryToken e) + n) 0 entries.

(** [base64.RawURLEncoding.EncodedLen] and [DecodedLen]. *)
Definition EncodedLen (n : nat) : nat := n / 3 * 4 + (n mod 3 * 8 + 5) / 6.
Definition DecodedLen (n : nat) : nat := n / 4 * 3 + n mod 4 * 6 / 8.

Definition TmpxWireSize (kidLen entriesBytes : nat) : nat :=
  kidLen + 1 + EncodedLen (TmpxHeaderBytes + TmpxHPKEOverheadBytes + entriesBytes).

Definition isTmpxKidChar (c : ascii) : bool := is_alnum c || beq c "-" || beq c "_".

Definition validateTmpxKid (kid : string) : bool :=
  negb (len kid =? 0)%nat && (len kid <=? TmpxMaxKidLen)%nat && all_bytes isTmpxKidChar kid.

(** ** The libraries *)

(** [crypto/ecdh] on X25519: keys are their bytes; [ECDH] fails on a point of low order. *)
Class X25519 := {
  XPublic : string → string;
  ECDH : string → string → result string string;
}.

(** [golang.org/x/crypto/chacha20poly1305]: key, nonce, text and associated data. *)
Class ChaCha20Poly1305 := {
  AeadSeal : string → string → string → string → string;
  AeadOpen : string → string → string → string → result string string;
}.

(** A key of [crypto/ecdh], of X25519 or of another curve. *)
Record ecdh_key := MkEcdh { is_x25519 : bool; key_bytes : string }.

Record TmpxRecipient := MkRecipient { Kid : string; RecipientPublicKey : option ecdh_key }.

Section Hpke.
Context `{RT : Runtime}.

(** [crypto/hmac] with SHA-256. *)
Definition xor_byte (n : Z) (c : ascii) : ascii := byte (Z.lxor (code c) n).
Definition zeros (n : nat) : string := implode (replicate n (byte 0)).
Definition block_key (key : string) : string :=
  let k := if (64 <? len key)%nat then Sha256 key else key in k +:+ zeros (64 - len k).
Definition hmac (key msg : string) : string :=
  let k := block_key key in
  let pad n := implode (map (xor_byte n) (explode k)) in
  Sha256 (pad 92%Z +:+ Sha256 (pad 54%Z +:+ msg)).

(** [crypto/hkdf]. *)
Definition hkdf_Extract (secret salt : string) : string := hmac salt secret.
Fixpoint hkdf_blocks (n : nat) (prk info prev : string) (i : Z) : string :=
  match n with
  | 0 => ""
  | S n => let t := hmac prk (prev +:+ info +:+ String (byte i) "") in t +:+ hkdf_blocks n prk info t (i + 1)
  end.
Definition hkdf_Expand (prk info : string) (length : nat) : result string string :=
  if (255 * 32 <? length)%nat then Err "hkdf: requested key length too large"
  else Ok (stake length (hkdf_blocks ((length + 31) / 32) prk info "" 1)).

Definition buildHPKESuiteID (kem kdf aead : Z) : string := "HPKE" +:+ be_bytes 2 kem +:+ be_bytes 2 kdf +:+ be_bytes 2 aead.
Definition buildHPKEKEMSuiteID (kem : Z) : string := "KEM" +:+ be_bytes 2 kem.
Definition suiteID : string := buildHPKESuiteID 32 1 3.
Definition kemSuiteID : string := buildHPKEKEMSuiteID 32.

Definition labeledExtract (salt label ikm suite : string) : string :=
  hkdf_Extract ("HPKE-v1" +:+ suite +:+ label +:+ ikm) salt.

Definition labeledExpand (prk label info : string) (length : nat) (suite : string) : result string string :=
  if (65535 <? Z.of_nat length)%Z then Err "hpke labeled_expand length outside uint16 range"
  else hkdf_Expand prk (be_bytes 2 (Z.of_nat length) +:+ "HPKE-v1" +:+ suite +:+ label +:+ info) length.

Definition dhkemExtractAndExpand (dh kemContext suite : string) (length : nat) : result string string :=
  labeledExpand (labeledExtract "" "eae_prk" dh suite) "shared_secret" kemContext length suite.

(** The key schedule, which [hpkeSealBase] and [hpkeOpenBase] both write out. *)
Definition key_schedule (dh enc pkR info : string) : result string (string * string) :=
  sharedSecret ← dhkemExtractAndExpand dh (enc +:+ pkR) kemSuiteID hpkeNh;
  let pskIDHash := labeledExtract "" "psk_id_hash" "" suiteID in
  let infoHash := labeledExtract "" "info_hash" info suiteID in
  let context := String (byte 0) (pskIDHash +:+ infoHash) in
  let secret := labeledExtract sharedSecret "secret" "" suiteID in
  key ← labeledExpand secret "key" context hpkeNk suiteID;
  baseNonce ← labeledExpand secret "base_nonce" context hpkeNn suiteID;
  _ ← guard_err (len key =? 32)%nat "chacha20poly1305: bad key length";
  _ ← guard_err (len baseNonce =? 12)%nat "chacha20poly1305: bad nonce length";
  Ok (key, baseNonce).

Context `{XC : X25519}.
Context `{AEAD : ChaCha20Poly1305}.

Definition hpkeSealBase (pkR skE info aad plaintext : string) : result string (string * string) :=
  dh ← ECDH skE pkR;
  let enc := XPublic skE in
  '(key, baseNonce) ← key_schedule dh enc pkR info;
  Ok (enc, AeadSeal key baseNonce plaintext aad).

Definition hpkeOpenBase (skR enc info aad ct : string) : result string string :=
  _ ← guard_err (len enc =? 32)%nat "hpke open: parse enc";
  dh ← ECDH skR enc;
  '(key, baseNonce) ← key_schedule dh enc (XPublic skR) info;
  AeadOpen key baseNonce ct aad.

(** ** Sealing and opening *)

(** [skE]: the ephemeral key that was generated, or the failure to. *)
Definition SealTmpx (recipient : TmpxRecipient) (info plaintext : string) (skE : result string string) : result string string :=
  _ ← guard_err (validateTmpxKid (Kid recipient)) "tmpx kid must be 1..8 URL-safe chars";
  pk ← opt_err "tmpx recipient public key required" (RecipientPublicKey recipient);
  _ ← guard_err (is_x25519 pk) "tmpx recipient public key must be X25519";
  skE ← skE;
  '(enc, ct) ← hpkeSealBase (key_bytes pk) skE info "" plaintext;
  Ok (Kid recipient +:+ "." +:+ RawURLEncode (enc +:+ ct)).

Definition splitTmpxWire (wire : string) (maxWire : nat) : result string (string * string) :=
  if (maxWire <? len wire)%nat then Err "tmpx wire string exceeds maximum" else
  match IndexByte wire "." with
  | Some dot =>
      if (dot =? 0)%nat || (TmpxMaxKidLen <? dot)%nat then Err "tmpx wire string missing valid kid prefix" else
      let kid := stake dot wire in
      if validateTmpxKid kid then Ok (kid, sdrop (S dot) wire) else Err "tmpx wire string missing valid kid prefix"
  | None => Err "tmpx wire string missing valid kid prefix"
  end.

Definition TmpxKid (wire : string) : result string string :=
  '(kid, _) ← splitTmpxWire wire TmpxMaxReassembledWireBytes; Ok kid.

(** [RawURLEncoding.Strict().DecodeString]: the unused bits of the last character are zero. *)
Definition StrictDecode (s : string) : option string :=
  raw ← RawURLDecode s;
  if bool_decide (RawURLEncode raw = implode (filter (λ c, is_newline c = false) (explode s))) then Some raw else None.

Definition openTmpxWire (skR : option ecdh_key) (info wire : string) (maxWire : nat) : result string (string * string) :=
  skR ← opt_err "tmpx recipient private key required" skR;
  _ ← guard_err (is_x25519 skR) "tmpx recipient private key must be X25519";
  '(kid, payloadText) ← splitTmpxWire wire maxWire;
  if (tmpxMaxPayloadBytes <? DecodedLen (len payloadText))%nat then Err "tmpx payload too large" else
  payload ← opt_err "tmpx base64url decode" (StrictDecode payloadText);
  if (len payload <? 32 + Overhead)%nat then Err "tmpx payload too short" else
  pt ← hpkeOpenBase (key_bytes skR) (stake 32 payload) info "" (sdrop 32 payload);
  Ok (pt, kid).

Definition OpenTmpx (skR : option ecdh_key) (info wire : string) : result string (string * string) :=
  openTmpxWire skR info wire TmpxMaxReassembledWireBytes.

Definition OpenSealedCredential (skR : option ecdh_key) (info wire : string) : result string (string * string) :=
  openTmpxWire skR info wire TmpxSealedMaxWireBytes.
End Hpke.
