(* ===== verification/TmpxThm.v ===== *)
(** * TmpxThm: what a sealed exposure token carries

    The receiver opens what the sealer sealed; the plaintext names its entries; the wire
    has the size that was predicted. *)
From stdpp Require Import strings.
From S2P Require Import Prelude GoStrings Unicode Bytes NetUrl Base64 StrictJson Tmpx.
From stdpp Require Import options.

(** ** The libraries' documented behaviour *)

(** Both sides of an exchange compute the same secret; a public key has 32 bytes. *)
Class X25519Laws `{XC : X25519} : Prop := {
  ECDH_comm a b d : ECDH a (XPublic b) = Ok d → ECDH b (XPublic a) = Ok d;
  XPublic_len a : len (XPublic a) = 32;
}.

(** With a key and a nonce of the cipher's sizes, what was sealed opens; the tag has 16 bytes. *)
Class AeadLaws `{AEAD : ChaCha20Poly1305} : Prop := {
  AeadOpen_Seal k n pt ad : len k = hpkeNk → len n = hpkeNn → AeadOpen k n (AeadSeal k n pt ad) ad = Ok pt;
  AeadSeal_len k n pt ad : len (AeadSeal k n pt ad) = len pt + Overhead;
}.

(** ** Encodings *)

Lemma b64_enc_raw_len url l : length (b64_enc url false l) = EncodedLen (length l).
Proof.
  unfold EncodedLen. induction l as [|a|a b|a b c l IH] using list_ind3; cbn [b64_enc length app b64_pad repeat]; try done.
  rewrite IH. replace (S (S (S (length l)))) with (length l + 1 * 3) by lia.
  rewrite Nat.div_add, Nat.Div0.mod_add by done. lia.
Qed.

Lemma len_RawURLEncode s : len (RawURLEncode s) = EncodedLen (len s).
Proof. unfold RawURLEncode, EncodeToString. by rewrite <- len_explode, explode_implode, b64_enc_raw_len, len_explode. Qed.

Lemma StrictDecode_Encode s : StrictDecode (RawURLEncode s) = Some s.
Proof.
  unfold StrictDecode. unfold RawURLDecode, RawURLEncode at 1. rewrite DecodeString_Encode. cbn.
  rewrite bool_decide_eq_true_2; [done|]. unfold RawURLEncode, EncodeToString. rewrite explode_implode. f_equal.
  pose proof (b64_enc_chars true false (explode s)) as H.
  induction H as [|c l Hc Hl IH]; [done|].
  rewrite filter_cons_True by (by eapply b64_char_newline). by rewrite <- IH.
Qed.

Lemma EncodedLen_mono n m : n ≤ m → EncodedLen n ≤ EncodedLen m.
Proof.
  unfold EncodedLen. intros H.
  pose proof (Nat.div_mod_eq n 3). pose proof (Nat.mod_upper_bound n 3 ltac:(lia)).
  pose proof (Nat.div_mod_eq m 3). pose proof (Nat.mod_upper_bound m 3 ltac:(lia)).
  set (q := n / 3) in *. set (r := n mod 3) in *. set (q' := m / 3) in *. set (r' := m mod 3) in *.
  assert (r * 8 + 5 < 24) by lia.
  assert ((r * 8 + 5) / 6 ≤ 3) by (apply Nat.lt_succ_r, Nat.Div0.div_lt_upper_bound; lia).
  destruct (decide (q = q')) as [->|]; [|lia].
  assert ((r * 8 + 5) / 6 ≤ (r' * 8 + 5) / 6) by (apply Nat.Div0.div_le_mono; lia). lia.
Qed.

(** ** The plaintext *)

(** What a receiver reads, as the format says: it stops at an entry of an unknown type. *)
Definition type_of_byte (c : ascii) : TmpxTypeID :=
  match code c with
  | 1 => TmpxTypeUID2 | 2 => TmpxTypeEUID | 3 => TmpxTypeID5 | 4 => TmpxTypeRampID | 5 => TmpxTypeRampIDDerived
  | 6 => TmpxTypeMAID | 7 => TmpxTypePairID | 8 => TmpxTypeHashedEmail | 9 => TmpxTypePublisherFirstParty
  | 10 => TmpxTypeWorldIDNullifier | n => TmpxTypeOther n
  end%Z.

Fixpoint parse_entries (n : nat) (s : string) : option (list TmpxEntry) :=
  match n with
  | 0 => if bool_decide (s = "") then Some [] else None
  | S n =>
      match s with
      | "" => None
      | String c s' =>
          let t := type_of_byte c in
          size ← TmpxTokenSize t;
          if (len s' <? size)%nat then None else
          rest ← parse_entries n (sdrop size s'); Some (MkEntry t (stake size s') :: rest)
      end
  end.

Record Plaintext := MkPlaintext { ptTime : Z; ptCountry : string; ptNonce : string; ptEntries : list TmpxEntry }.

Definition parse_plaintext (s : string) : option Plaintext :=
  match s with
  | String v s' =>
      if negb (code v =? TmpxFormatVersion)%Z || (len s' <? 15)%nat then None else
      match explode (stake 1 (sdrop 14 s')) with
      | [c] =>
          es ← parse_entries (Z.to_nat (code c)) (sdrop 15 s');
          Some (MkPlaintext (big_endian 0 (stake 4 s')) (stake 2 (sdrop 4 s')) (stake 8 (sdrop 6 s')) es)
      | _ => None
      end
  | "" => None
  end.

Lemma type_byte_of t n : TmpxTokenSize t = Some n → type_of_byte (byte (type_byte t)) = t.
Proof. by destruct t. Qed.

Lemma parse_entries_bytes es : forallb entry_ok es = true → parse_entries (length es) (sconcat (map entry_bytes es)) = Some es.
Proof.
  induction es as [|[t tok] es IH]; [done|]. cbn [forallb]. intros [He Hes]%andb_true_iff.
  unfold entry_ok in He. cbn [TypeID EntryToken] in He. destruct (TmpxTokenSize t) as [n|] eqn:Et; [|done].
  apply Nat.eqb_eq in He. cbn [map sconcat length parse_entries].
  unfold entry_bytes at 1. cbn [TypeID EntryToken]. rewrite sapp_cons. rewrite (type_byte_of t n), Et by done. cbn [mbind option_bind].
  rewrite len_app. destruct (Nat.ltb_spec (len tok + len (sconcat (map entry_bytes es))) n); [lia|].
  subst n. rewrite sdrop_app, stake_app. by rewrite IH by done.
Qed.

Lemma len_entries es : len (sconcat (map entry_bytes es)) = entriesByteLen es.
Proof.
  induction es as [|e es IH]; [done|]. cbn [map sconcat entriesByteLen foldr]. rewrite len_app, IH. done.
Qed.

Lemma encode_inv country es ts nonce pt :
  encodeTmpxPlaintextWith country es ts nonce = Ok pt →
  country_ok country = true ∧ length es ≤ 255 ∧ forallb entry_ok es = true ∧
  ∃ r, nonce = Ok r ∧ pt = String (byte TmpxFormatVersion) (be_bytes 4 (Unix ts)) +:+ country +:+ r +:+
      String (byte (Z.of_nat (length es))) (sconcat (map entry_bytes es)).
Proof. unfold encodeTmpxPlaintextWith. intros H. res_inv. bool_prop. eauto 8. Qed.

Lemma country_len c : country_ok c = true → len c = 2.
Proof. destruct c as [|a [|b [|]]]; done. Qed.

Lemma plaintext_len country es ts r pt :
  encodeTmpxPlaintextWith country es ts (Ok r) = Ok pt → len r = 8 → len pt = TmpxHeaderBytes + entriesByteLen es.
Proof.
  intros (Hc & _ & _ & r' & [= <-] & ->)%encode_inv Hr. apply country_len in Hc.
  rewrite len_app, len_cons, len_be_bytes, !len_app, len_cons, len_entries. unfold TmpxHeaderBytes. lia.
Qed.

(** [uint32]. *)
Lemma big_endian_wrap n z : big_endian 0 (be_bytes n z) = (z mod 256 ^ Z.of_nat n)%Z.
Proof.
  revert z. induction n as [|n IH]; intros z; [by rewrite Z.mod_1_r|].
  cbn [be_bytes]. rewrite big_endian_app, code_byte by (apply Z.mod_pos_bound; lia).
  rewrite IH, Nat2Z.inj_succ, Z.pow_succ_r, Z.rem_mul_r by lia. lia.
Qed.

(** A receiver that reads the format gets back what was encoded: the country, the
    entries in order with their types, the nonce, and the time modulo 2^32 seconds. *)
Lemma plaintext_roundtrip country es ts r pt :
  encodeTmpxPlaintextWith country es ts (Ok r) = Ok pt → len r = 8 →
  parse_plaintext pt = Some (MkPlaintext (Unix ts mod 2 ^ 32) country r es).
Proof.
  intros (Hc & Hn & He & r' & [= <-] & ->)%encode_inv Hr. apply country_len in Hc.
  rewrite sapp_cons. unfold parse_plaintext. change (code (byte TmpxFormatVersion) =? TmpxFormatVersion)%Z with true.
  set (tail := sconcat _). cbn [negb orb].
  assert (len (be_bytes 4 (Unix ts)) = 4) as H4 by apply len_be_bytes.
  destruct (Nat.ltb_spec (len (be_bytes 4 (Unix ts) +:+ country +:+ r +:+ String (byte (Z.of_nat (length es))) tail)) 15) as [Hl|_].
  { rewrite !len_app, len_cons in Hl. lia. }
  change 15 with (4 + (2 + (8 + 1))). change 14 with (4 + (2 + 8)). change 6 with (4 + 2).
  rewrite !sdrop_add, !(sdrop_app_len 4), !(sdrop_app_len 2), !(sdrop_app_len 8) by done.
  rewrite !(stake_app_len 4), !(stake_app_len 2), !(stake_app_len 8) by done.
  cbn [stake sdrop explode]. rewrite code_byte by lia. rewrite Nat2Z.id.
  unfold tail. rewrite parse_entries_bytes by done. cbn [mbind option_bind]. by rewrite big_endian_wrap.
Qed.

(** ** HPKE *)

Section Hpke.
Context `{RT : Runtime} `{XC : X25519} `{AEAD : ChaCha20Poly1305}.
Context `{XL : !X25519Laws} `{AL : !AeadLaws}.
Hypothesis Sha256_len : ∀ s, len (Sha256 s) = 32.

Lemma len_hmac k m : len (hmac k m) = hpkeNh.
Proof using Sha256_len. apply Sha256_len. Qed.

Lemma len_hkdf_blocks n prk info prev i : len (hkdf_blocks n prk info prev i) = n * hpkeNh.
Proof using Sha256_len.
  revert prev i. induction n as [|n IH]; intros prev i; [done|]. cbn [hkdf_blocks].
  by rewrite len_app, len_hmac, IH.
Qed.

Lemma labeledExpand_total prk label info n suite :
  n ≤ 255 * 32 → ∃ k, labeledExpand prk label info n suite = Ok k ∧ len k = n.
Proof using Sha256_len.
  intros Hn. unfold labeledExpand, hkdf_Expand.
  destruct (Z.ltb_spec 65535 (Z.of_nat n)); [lia|]. destruct (Nat.ltb_spec (255 * 32) n); [lia|].
  eexists. split; [done|]. rewrite len_stake, len_hkdf_blocks. unfold hpkeNh.
  pose proof (Nat.div_mod_eq (n + 31) 32). pose proof (Nat.mod_upper_bound (n + 31) 32 ltac:(lia)). lia.
Qed.

Lemma key_schedule_total dh enc pkR info :
  ∃ k n, key_schedule dh enc pkR info = Ok (k, n) ∧ len k = hpkeNk ∧ len n = hpkeNn.
Proof using Sha256_len.
  unfold key_schedule, dhkemExtractAndExpand.
  edestruct (labeledExpand_total (labeledExtract "" "eae_prk" dh kemSuiteID) "shared_secret" (enc +:+ pkR) hpkeNh kemSuiteID)
    as (s & -> & _); [unfold hpkeNh; lia|]. cbn [mbind result_bind].
  match goal with |- context [labeledExpand ?a ?b ?c hpkeNk ?d] =>
    destruct (labeledExpand_total a b c hpkeNk d) as (k & -> & Hk); [unfold hpkeNk; lia|] end.
  match goal with |- context [labeledExpand ?a ?b ?c hpkeNn ?d] =>
    destruct (labeledExpand_total a b c hpkeNn d) as (n & -> & Hn); [unfold hpkeNn; lia|] end.
  cbn [mbind result_bind]. rewrite Hk, Hn. cbn. eauto.
Qed.

Lemma hpke_seal_shape pkR skE info ad pt :
  hpkeSealBase pkR skE info ad pt =
    (dh ← ECDH skE pkR; '(k, n) ← key_schedule dh (XPublic skE) pkR info; Ok (XPublic skE, AeadSeal k n pt ad)).
Proof. done. Qed.

Lemma hpke_open_seal skR skE info ad pt enc ct :
  hpkeSealBase (XPublic skR) skE info ad pt = Ok (enc, ct) →
  hpkeOpenBase skR enc info ad ct = Ok pt ∧ len enc = 32 ∧ len ct = len pt + Overhead.
Proof using Sha256_len XL AL.
  rewrite hpke_seal_shape. intros (dh & Hdh & H)%bind_Ok.
  destruct (key_schedule_total dh (XPublic skE) (XPublic skR) info) as (k & n & Hks & Hk & Hn).
  rewrite Hks in H. cbn [mbind result_bind] in H. injection H as <- <-.
  unfold hpkeOpenBase. rewrite XPublic_len. cbn [Nat.eqb guard_err mbind result_bind].
  rewrite (ECDH_comm _ _ _ Hdh). cbn [mbind result_bind]. rewrite Hks. cbn [mbind result_bind].
  by rewrite AeadOpen_Seal, AeadSeal_len.
Qed.

(** Nothing but the exchange itself can fail. *)
Lemma hpke_seal_total pkR skE info ad pt :
  is_ok (ECDH skE pkR) = true → is_ok (hpkeSealBase pkR skE info ad pt) = true.
Proof using Sha256_len.
  rewrite hpke_seal_shape. destruct (ECDH skE pkR) as [dh|]; [|done]. intros _. cbn [mbind result_bind].
  by destruct (key_schedule_total dh (XPublic skE) pkR info) as (k & n & -> & _).
Qed.

(** ** Wire *)

Lemma kid_no_dot kid : validateTmpxKid kid = true → contains_byte kid "." = false ∧ 0 < len kid ≤ TmpxMaxKidLen.
Proof.
  unfold validateTmpxKid. intros H. bool_prop. split; [|lia].
  by apply (all_bytes_no isTmpxKidChar).
Qed.

Lemma splitTmpxWire_join kid x maxWire :
  validateTmpxKid kid = true → len (kid +:+ "." +:+ x) ≤ maxWire →
  splitTmpxWire (kid +:+ "." +:+ x) maxWire = Ok (kid, x).
Proof.
  intros Hk Hl. destruct (kid_no_dot _ Hk) as [Hd [H0 H8]]. unfold splitTmpxWire.
  destruct (Nat.ltb_spec maxWire (len (kid +:+ "." +:+ x))); [lia|].
  change ("." +:+ x) with (String "." x). rewrite IndexByte_app by done.
  destruct (Nat.eqb_spec (len kid) 0); [lia|]. destruct (Nat.ltb_spec TmpxMaxKidLen (len kid)); [lia|]. cbn [orb].
  rewrite stake_app, Hk. by rewrite sdrop_S_app.
Qed.

Lemma SealTmpx_inv r info pt skE wire :
  SealTmpx r info pt skE = Ok wire →
  validateTmpxKid (Kid r) = true ∧ ∃ pk sk enc ct, RecipientPublicKey r = Some pk ∧ is_x25519 pk = true ∧ skE = Ok sk ∧
    hpkeSealBase (key_bytes pk) sk info "" pt = Ok (enc, ct) ∧ wire = Kid r +:+ "." +:+ RawURLEncode (enc +:+ ct).
Proof.
  unfold SealTmpx. intros (_u & Hk%guard_err_Ok & H)%bind_Ok. split; [done|].
  apply bind_Ok in H as (pk & Hpk%opt_err_Ok & H). apply bind_Ok in H as (_u' & Hx%guard_err_Ok & H).
  apply bind_Ok in H as (sk & Hsk & H). apply bind_Ok in H as ([enc ct] & Hs & H). injection H as <-.
  by exists pk, sk, enc, ct.
Qed.

Lemma hpke_seal_len pkR skE info ad pt enc ct :
  hpkeSealBase pkR skE info ad pt = Ok (enc, ct) → len (enc +:+ ct) = TmpxHPKEOverheadBytes + len pt.
Proof using XL AL.
  rewrite hpke_seal_shape. intros (dh & _ & H)%bind_Ok. apply bind_Ok in H as ([k n] & _ & H). injection H as <- <-.
  rewrite len_app, XPublic_len, AeadSeal_len. unfold TmpxHPKEOverheadBytes, Overhead. lia.
Qed.

Lemma sealed_wire_len r info pt skE wire :
  SealTmpx r info pt skE = Ok wire → len wire = len (Kid r) + 1 + EncodedLen (TmpxHPKEOverheadBytes + len pt).
Proof using XL AL.
  intros (_ & pk & sk & enc & ct & _ & _ & _ & Hs & ->)%SealTmpx_inv.
  rewrite !len_app, len_RawURLEncode, (hpke_seal_len _ _ _ _ _ _ _ Hs). change (len ".") with 1. lia.
Qed.

(** The size that is checked before sealing is the size of what is sealed. *)
Lemma TmpxWireSize_exact r info country es ts nonce pt skE wire :
  encodeTmpxPlaintextWith country es ts (Ok nonce) = Ok pt → len nonce = 8 →
  SealTmpx r info pt skE = Ok wire → len wire = TmpxWireSize (len (Kid r)) (entriesByteLen es).
Proof using XL AL.
  intros Hpt Hn Hw. apply sealed_wire_len in Hw. rewrite Hw, (plaintext_len _ _ _ _ _ Hpt Hn).
  unfold TmpxWireSize. by do 2 f_equal.
Qed.

Lemma DecodedLen_le n : DecodedLen n ≤ n.
Proof.
  unfold DecodedLen. pose proof (Nat.div_mod_eq n 4). pose proof (Nat.mod_upper_bound n 4 ltac:(lia)).
  assert (n mod 4 * 6 / 8 ≤ n mod 4) by (apply Nat.Div0.div_le_upper_bound; lia). lia.
Qed.

Lemma sealed_max_payload : TmpxSealedMaxWireBytes ≤ tmpxMaxPayloadBytes.
Proof. apply leb_complete. vm_compute. reflexivity. Qed.

Lemma open_sealed_wire r skR info pt skE wire maxWire :
  RecipientPublicKey r = Some (MkEcdh true (XPublic skR)) →
  SealTmpx r info pt skE = Ok wire → len wire ≤ maxWire → maxWire ≤ TmpxSealedMaxWireBytes →
  openTmpxWire (Some (MkEcdh true skR)) info wire maxWire = Ok (pt, Kid r).
Proof using Sha256_len XL AL.
  intros Hr Hw Hlen Hmax. pose proof Hw as Hsz. apply sealed_wire_len in Hsz.
  apply SealTmpx_inv in Hw as (Hk & pk & sk & enc & ct & Hpk & _ & _ & Hs & ->). simplify_eq.
  cbn [key_bytes] in Hs. pose proof (hpke_seal_len _ _ _ _ _ _ _ Hs) as Hec.
  apply hpke_open_seal in Hs as (Ho & He & Hct).
  unfold openTmpxWire. cbn [opt_err is_x25519 guard_err mbind result_bind].
  rewrite splitTmpxWire_join by done. cbn [mbind result_bind].
  pose proof (DecodedLen_le (len (RawURLEncode (enc +:+ ct)))) as Hd.
  pose proof sealed_max_payload. rewrite !len_app in Hlen.
  destruct (Nat.ltb_spec tmpxMaxPayloadBytes (DecodedLen (len (RawURLEncode (enc +:+ ct))))); [lia|].
  rewrite StrictDecode_Encode. cbn [opt_err mbind result_bind].
  destruct (Nat.ltb_spec (len (enc +:+ ct)) (32 + Overhead)) as [Hlt|_].
  { exfalso. revert Hlt. rewrite Hec. unfold TmpxHPKEOverheadBytes, Overhead. lia. }
  rewrite stake_app_len, sdrop_app_len by done. cbn [key_bytes]. rewrite Ho. done.
Qed.

(** whatever is sealed to a recipient's key, the holder of the private key opens to the
    same plaintext and key id, by the receiver of the carrier whose size it keeps. *)
Theorem open_seals_back r skR info pt skE wire :
  RecipientPublicKey r = Some (MkEcdh true (XPublic skR)) →
  SealTmpx r info pt skE = Ok wire →
  TmpxKid wire = (if (len wire <=? TmpxMaxReassembledWireBytes)%nat then Ok (Kid r) else Err "tmpx wire string exceeds maximum") ∧
  (len wire ≤ TmpxMaxReassembledWireBytes → OpenTmpx (Some (MkEcdh true skR)) info wire = Ok (pt, Kid r)) ∧
  (len wire ≤ TmpxSealedMaxWireBytes → OpenSealedCredential (Some (MkEcdh true skR)) info wire = Ok (pt, Kid r)).
Proof using Sha256_len XL AL.
  intros Hr Hw. assert (TmpxMaxReassembledWireBytes ≤ TmpxSealedMaxWireBytes) by (apply leb_complete; vm_compute; reflexivity).
  split_and!; intros; try by eapply open_sealed_wire.
  apply SealTmpx_inv in Hw as (Hk & pk & sk & enc & ct & _ & _ & _ & _ & ->). unfold TmpxKid.
  destruct (Nat.leb_spec (len (Kid r +:+ "." +:+ RawURLEncode (enc +:+ ct))) TmpxMaxReassembledWireBytes).
  - by rewrite splitTmpxWire_join.
  - unfold splitTmpxWire. by destruct (Nat.ltb_spec TmpxMaxReassembledWireBytes (len (Kid r +:+ "." +:+ RawURLEncode (enc +:+ ct)))); [|lia].
Qed.
End Hpke.

(** ** A concrete instance *)

(** Keys are 32 bytes; the shared secret combines both, byte by byte. *)
Definition pad32 (s : string) : string := be_bytes 32 (big_endian 0 s).
Definition toy_dh (a p : string) : string := be_bytes 32 (Z.lxor (big_endian 0 (pad32 a)) (big_endian 0 (pad32 p))).
#[export] Instance toy_x25519 : X25519 := { XPublic := pad32; ECDH a p := Ok (toy_dh a p) }.
(** The tag repeats the end of the key and of the associated data; no byte is hidden. *)
Definition toy_tag (k ad : string) : string := be_bytes Overhead (big_endian 0 (k +:+ ad)).
#[export] Instance toy_aead : ChaCha20Poly1305 := {
  AeadSeal k n pt ad := pt +:+ toy_tag k ad;
  AeadOpen k n ct ad :=
    let m := len ct - Overhead in
    if bool_decide (sdrop m ct = toy_tag k ad) then Ok (stake m ct) else Err "message authentication failed";
}.

Lemma pad32_idem s : pad32 (pad32 s) = pad32 s.
Proof.
  unfold pad32. rewrite big_endian_wrap. set (z := big_endian 0 s). clearbody z.
  assert (∀ n x, be_bytes n (x mod 256 ^ Z.of_nat n) = be_bytes n x) as A; [|apply A].
  induction n as [|n IH]; intros x; [done|]. cbn [be_bytes].
  rewrite Nat2Z.inj_succ, Z.pow_succ_r by lia.
  assert (0 < 256 ^ Z.of_nat n)%Z by (apply Z.pow_pos_nonneg; lia).
  set (k := ((x / 256) mod 256 ^ Z.of_nat n)%Z).
  assert (x mod (256 * 256 ^ Z.of_nat n) = x mod 256 + k * 256)%Z as -> by (unfold k; rewrite Z.rem_mul_r by lia; lia).
  rewrite Z.mod_add, Z.mod_mod, Z.div_add, (Z.div_small (x mod 256)) by (try apply Z.mod_pos_bound; lia).
  rewrite Z.add_0_l. unfold k. by rewrite IH.
Qed.

#[export] Instance toy_x25519_laws : X25519Laws.
Proof.
  split; [|intros; apply len_be_bytes]. intros a b d. change (Ok (E := string) (toy_dh a (pad32 b)) = Ok d → Ok (E := string) (toy_dh b (pad32 a)) = Ok d).
  intros Hd. rewrite <- Hd. f_equal. unfold toy_dh. rewrite !pad32_idem. f_equal. apply Z.lxor_comm.
Qed.

#[export] Instance toy_aead_laws : AeadLaws.
Proof.
  split; cbn [AeadSeal AeadOpen toy_aead]; intros k n pt ad.
  - intros _ _. assert (len (toy_tag k ad) = Overhead) as Ht by apply len_be_bytes. rewrite len_app, Ht.
    replace (len pt + Overhead - Overhead) with (len pt) by lia.
    rewrite sdrop_app, stake_app. by rewrite bool_decide_eq_true_2.
  - rewrite len_app. by f_equal.
Qed.

(** A hash of 32 bytes. *)
Definition hash32_runtime : Runtime := {|
  SimpleFold := SimpleFold (Runtime := ascii_runtime);
  LowerRune := LowerRune (Runtime := ascii_runtime);
  UpperRune := UpperRune (Runtime := ascii_runtime);
  Sha256 := pad32;
|}.

Lemma hash32_len s : len (Sha256 (Runtime := hash32_runtime) s) = 32.
Proof. apply len_be_bytes. Qed.

Definition sample_entries : list TmpxEntry :=
  [MkEntry TmpxTypeMAID (be_bytes 16 1234567); MkEntry TmpxTypeID5 (be_bytes 32 99)].
Definition sample_skR : string := pad32 "receiver".
Definition sample_recipient : TmpxRecipient := MkRecipient "k1" (Some (MkEcdh true (XPublic sample_skR))).
Definition sample_plaintext : string :=
  match encodeTmpxPlaintextWith "DE" sample_entries ((unixToInternal + 1800000000) * Second) (Ok "nonce-08") with
  | Ok pt => pt | Err _ => "" end.
Definition sample_wire : string :=
  match SealTmpx (RT := hash32_runtime) sample_recipient "" sample_plaintext (Ok "ephemeral") with Ok w => w | Err _ => "" end.

Example open_seals_back_witness :
  sample_wire ≠ "" ∧
  OpenTmpx (RT := hash32_runtime) (Some (MkEcdh true sample_skR)) "" sample_wire = Ok (sample_plaintext, "k1").
Proof.
  assert (SealTmpx (RT := hash32_runtime) sample_recipient "" sample_plaintext (Ok "ephemeral") = Ok sample_wire) as Hw
    by (vm_compute; reflexivity).
  pose proof (open_seals_back (RT := hash32_runtime) hash32_len sample_recipient sample_skR "" sample_plaintext
    (Ok "ephemeral") sample_wire eq_refl Hw) as (_ & H & _).
  split; [vm_compute; discriminate|]. apply H. apply leb_complete. vm_compute. reflexivity.
Defined.
