(* ===== verification/TmpxSeal.v ===== *)
(** * TmpxSeal: identity decoders and the sealer of exposure tokens

    [targeting/tmpxdecoders], [targeting/identityagent/canonicalizer.go] and [tmpx.go]:
    how user tokens become bytes, which of them go into a token, and how it is cut into
    slots; and that the receiver reads from the slots the entries the sealer selected.  The
    sidecars that resolve RampID, UID2 and EUID are functions. *)
From stdpp Require Import strings.
From S2P Require Import Prelude GoStrings Unicode Bytes NetUrl Base64 Json TmpTypes Tmpx TmpxThm.
From stdpp Require Import options.

(** ** Decoders *)

(** [ErrDropFromSeal], or any other error. *)
Inductive decode_error := ErrDropIdentity | DecodeFailed (why : string).

Definition Decoder := string → result decode_error string.

Definition Canonical : string → string := hex_string.

Definition hashed_email_Decode : Decoder := λ tok,
  if negb (len tok =? 64)%nat then Err (DecodeFailed "hashed_email: expected 64 hex chars") else
  match hex_decode tok with
  | None => Err (DecodeFailed "hashed_email: invalid hex")
  | Some out => if (len out =? 32)%nat then Ok out else Err (DecodeFailed "hashed_email: decoded length")
  end.

Definition id5_Decode : Decoder := λ tok, Ok tok.

Definition decodeMAIDHex : Decoder := λ s,
  match hex_decode s with
  | None => Err (DecodeFailed "maid: invalid hex")
  | Some out => if (len out =? 16)%nat then Ok out else Err (DecodeFailed "maid: decoded length")
  end.

Definition dash_at (s : string) (i : nat) : bool := match explode s !! i with Some c => beq c "-" | None => false end.
Definition without_dashes (s : string) : string := implode (filter (λ c, beq c "-" = false) (explode s)).

Definition maid_Decode : Decoder := λ tok,
  if (len tok =? 36)%nat then
    if negb (dash_at tok 8 && dash_at tok 13 && dash_at tok 18 && dash_at tok 23)
    then Err (DecodeFailed "maid: dashed UUID has misplaced separators") else decodeMAIDHex (without_dashes tok)
  else if (len tok =? 32)%nat then decodeMAIDHex tok
  else Err (DecodeFailed "maid: expected 32 or 36 chars").

(** A sidecar: [ErrNoMapping] and the errors that say the token is unusable are [None]. *)
Definition client := string → result string (option string).

(** [rampIDLookup] and [uid2Lookup]. *)
Definition client_Decode (c : client) : Decoder := λ tok,
  match c tok with
  | Err e => Err (DecodeFailed e)
  | Ok None => Err ErrDropIdentity
  | Ok (Some mapped) => if bool_decide (mapped = "") then Err ErrDropIdentity else Ok mapped
  end.

Record RegistryOptions := MkOptions { LiveRampClient : option client; UID2Client : option client; EUIDClient : option client }.

Definition NewDefaultRegistry (o : RegistryOptions) (uid : string) : option Decoder :=
  if bool_decide (uid = "maid") then Some maid_Decode else
  if bool_decide (uid = "hashed_email") then Some hashed_email_Decode else
  if bool_decide (uid = "id5") then Some id5_Decode else
  if bool_decide (uid = "rampid") || bool_decide (uid = "rampid_derived") then client_Decode <$> LiveRampClient o else
  if bool_decide (uid = "uid2") then client_Decode <$> UID2Client o else
  if bool_decide (uid = "euid") then client_Decode <$> EUIDClient o else None.

Definition UIDTypeWorldIDNullifier : string := "world_id_nullifier".

Definition DecodeHex (registry : string → option Decoder) (uidType userToken : string) : result decode_error string :=
  match registry uidType with
  | None => Ok ""
  | Some dec => Canonical <$> dec userToken
  end.

Definition uidToTmpxTypeID (uid : string) : option TmpxTypeID :=
  if bool_decide (uid = "uid2") then Some TmpxTypeUID2 else
  if bool_decide (uid = "euid") then Some TmpxTypeEUID else
  if bool_decide (uid = "id5") then Some TmpxTypeID5 else
  if bool_decide (uid = "rampid") then Some TmpxTypeRampID else
  if bool_decide (uid = "rampid_derived") then Some TmpxTypeRampIDDerived else
  if bool_decide (uid = "maid") then Some TmpxTypeMAID else
  if bool_decide (uid = "pairid") then Some TmpxTypePairID else
  if bool_decide (uid = "hashed_email") then Some TmpxTypeHashedEmail else
  if bool_decide (uid = "publisher_first_party") then Some TmpxTypePublisherFirstParty else
  if bool_decide (uid = UIDTypeWorldIDNullifier) then Some TmpxTypeWorldIDNullifier else None.

(** ** World ID nullifiers *)

(** [big.Int.SetString] in base 16, as [Bytes] shows it: the sign is read and lost. *)
Fixpoint hex_digits (acc : Z) (s : string) : option Z :=
  match s with "" => Some acc | String c s' => x ← hex_val c; hex_digits (acc * 16 + x) s' end.
Definition big_hex (s : string) : option Z :=
  let s := match s with String c s' => if beq c "+" || beq c "-" then s' else s | "" => s end in
  if bool_decide (s = "") then None else hex_digits 0 s.

Definition nullifier_Decode (nullifier : string) : result string string :=
  let hexDigits := TrimPrefix (TrimPrefix (TrimSpace nullifier) "0x") "0X" in
  if bool_decide (hexDigits = "") then Err "world_id_nullifier: empty nullifier" else
  n ← opt_err "world_id_nullifier: nullifier is not valid hex" (big_hex hexDigits);
  if (2 ^ 256 <=? n)%Z then Err "world_id_nullifier: nullifier exceeds 32 bytes" else Ok (be_bytes 32 n).

Section Token.
Context `{RT : Runtime}.

Definition nullifier_Token (relyingPartyID nullifier : string) : result string string :=
  if bool_decide (relyingPartyID = "") then Err "world_id_nullifier: empty relying_party_id" else
  b ← nullifier_Decode nullifier;
  Ok (stake 16 (Sha256 relyingPartyID) +:+ b).
End Token.

(** ** The decode pass *)

(** Dropped entries have no bytes. *)
Record DecodedIdentity := MkDecoded { dUIDType : string; dBytes : string }.

Definition decode_one (decoders : string → option Decoder) (i : IdentityToken) : DecodedIdentity :=
  MkDecoded (UIDType i)
    (match typeID ← uidToTmpxTypeID (UIDType i); d ← decoders (UIDType i); size ← TmpxTokenSize typeID; Some (d, size) with
     | Some (d, size) =>
         match d (UserToken i) with Ok bin => if (len bin =? size)%nat then bin else "" | Err _ => "" end
     | None => ""
     end).

Definition decodeIdentities (decoders : string → option Decoder) (ids : list IdentityToken) : list DecodedIdentity :=
  map (decode_one decoders) ids.

Definition audienceEligibleIdentities (l : list DecodedIdentity) : list IdentityToken :=
  omap (λ d, if bool_decide (dBytes d = "") then None else Some (MkToken (Canonical (dBytes d)) (dUIDType d) None)) l.

(** ** The sealer *)

Record TMPXSealer := MkSealer { slotIDs : list string; priority : list string }.

Definition parse_priority_step (acc : result string (list string)) (part : string) : result string (list string) :=
  out ← acc;
  let name := TrimSpace part in
  if bool_decide (name = "") then Ok out else
  match uidToTmpxTypeID name with
  | None => Err "TMPX_PRIORITY entry is not a TMPX-encodable uid_type"
  | Some _ => if bool_decide (name ∈ out) then Err "TMPX_PRIORITY entry appears more than once" else Ok (out ++ [name])
  end.

Definition parseTmpxPriority (s : string) : result string (list string) :=
  let s := TrimSpace s in
  if bool_decide (s = "") then Ok [] else foldl parse_priority_step (Ok []) (Split s ",").

Definition wireBudget (s : TMPXSealer) : nat := Nat.max (length (slotIDs s)) 1 * TmpxMaxWireBytes.

Definition indexOfUIDType (l : list string) (uid : string) : option nat := fst <$> list_find (λ u, u = uid) l.

(** A survivor with its type and rank; without priorities the rank is not used. *)
Record candidate := MkCandidate { cEntry : TmpxEntry; cRank : nat }.

Definition survivor (s : TMPXSealer) (d : DecodedIdentity) : option candidate :=
  if bool_decide (dBytes d = "") then None else
  let entry := MkEntry (default (TmpxTypeOther 0) (uidToTmpxTypeID (dUIDType d))) (dBytes d) in
  if bool_decide (priority s = []) then Some (MkCandidate entry 0) else
  MkCandidate entry <$> indexOfUIDType (priority s) (dUIDType d).

(** [sort.SliceStable] by rank. *)
Fixpoint insert_candidate (c : candidate) (l : list candidate) : list candidate :=
  match l with
  | [] => [c]
  | x :: l' => if (cRank c <=? cRank x)%nat then c :: l else x :: insert_candidate c l'
  end.
Definition sort_candidates (l : list candidate) : list candidate := foldr insert_candidate [] l.

(** The packing loop: the entries that fit, and whether one did not. *)
Fixpoint pack (budget used : nat) (l : list candidate) : list TmpxEntry * bool :=
  match l with
  | [] => ([], false)
  | c :: l' =>
      let need := 1 + len (EntryToken (cEntry c)) in
      if (budget <? TmpxWireSize TmpxMaxKidLen (used + need))%nat then ([], true)
      else let '(es, over) := pack budget (used + need) l' in (cEntry c :: es, over)
  end.

(** The survivors in the order in which they are packed. *)
Definition candidates (s : TMPXSealer) (decoded : list DecodedIdentity) : list candidate :=
  let survivors := omap (survivor s) decoded in
  if bool_decide (priority s = []) then survivors else sort_candidates survivors.

Definition selectEntries (s : TMPXSealer) (decoded : list DecodedIdentity) : result string (list TmpxEntry) :=
  let '(entries, over) := pack (wireBudget s) 0 (candidates s decoded) in
  if over && bool_decide (priority s = []) then Err "no TMPX_PRIORITY configured: spec forbids arbitrary truncation" else
  if over && bool_decide (entries = []) then Err "tmpx wire budget cannot fit even the highest-priority entry" else
  Ok entries.

Fixpoint chunks_from (slots : list string) (token : string) : list TmpxChunk :=
  match slots with
  | [] => []
  | slot :: slots' =>
      if bool_decide (token = "") then []
      else MkChunk slot (stake TmpxMaxWireBytes token) :: chunks_from slots' (sdrop TmpxMaxWireBytes token)
  end.

Definition ChunkEntries (s : TMPXSealer) (token : string) : list TmpxChunk :=
  if bool_decide (token = "") || bool_decide (slotIDs s = []) then [] else
  if (length (slotIDs s) * TmpxMaxWireBytes <? len token)%nat then [] else chunks_from (slotIDs s) token.

Section Seal.
Context `{RT : Runtime}.
Context `{XC : X25519}.
Context `{AEAD : ChaCha20Poly1305}.

(** [expired]: the deadline has passed; [recipient]: what the key set publishes at the moment. *)
Definition SealDecoded (s : TMPXSealer) (country : string) (expired : bool) (recipient : option TmpxRecipient)
    (decoded : list DecodedIdentity) (now : Time) (nonce skE : result string string) : result string string :=
  if expired then Err "context deadline exceeded" else
  recipient ← opt_err "no TMPX encryption recipient currently published" recipient;
  entries ← selectEntries s decoded;
  if bool_decide (entries = []) then Ok "" else
  plaintext ← encodeTmpxPlaintextWith country entries now nonce;
  SealTmpx recipient "" plaintext skE.
End Seal.

(** * Which identities a token carries, and that it arrives *)

(** ** Decoding *)

(** Dropped, or of the size of its type. *)
Definition decoded_ok (d : DecodedIdentity) : Prop :=
  dBytes d = "" ∨ ∃ t, uidToTmpxTypeID (dUIDType d) = Some t ∧ TmpxTokenSize t = Some (len (dBytes d)).

Lemma decode_one_ok decoders i : decoded_ok (decode_one decoders i).
Proof.
  unfold decoded_ok, decode_one. cbn [dBytes dUIDType].
  destruct (uidToTmpxTypeID (UIDType i)) as [t|]; cbn [mbind option_bind]; [|by left].
  destruct (decoders (UIDType i)) as [d|]; cbn [mbind option_bind]; [|by left].
  destruct (TmpxTokenSize t) as [n|] eqn:Hn; cbn [mbind option_bind]; [|by left].
  destruct (d (UserToken i)) as [bin|]; [|by left].
  destruct (Nat.eqb_spec (len bin) n) as [<-|]; [|by left]. right. by exists t.
Qed.

Lemma decodeIdentities_ok decoders ids : Forall decoded_ok (decodeIdentities decoders ids).
Proof. apply Forall_map, Forall_true. intros i. apply decode_one_ok. Qed.

(** the decode pass of the default registry leaves an identity only with the bytes its
    type has, and never one of a World ID nullifier, whatever a sender asserts and the
    sidecars answer; what the audience and cap lookups see are the others, under the
    hexadecimal form of those bytes, which tells distinct bytes apart. *)
Theorem inbound_decode_sound o ids :
  let decoded := decodeIdentities (NewDefaultRegistry o) ids in
  length decoded = length ids ∧
  Forall decoded_ok decoded ∧
  Forall (λ d, dUIDType d = UIDTypeWorldIDNullifier → dBytes d = "") decoded ∧
  ∀ t, t ∈ audienceEligibleIdentities decoded ↔
    ∃ d, d ∈ decoded ∧ dBytes d ≠ "" ∧ t = MkToken (hex_string (dBytes d)) (dUIDType d) None.
Proof.
  cbn zeta. split_and!.
  - apply length_map.
  - apply decodeIdentities_ok.
  - apply Forall_map, Forall_true. intros i Hi. unfold decode_one in *. cbn [dBytes dUIDType] in *. by rewrite Hi.
  - intros t. unfold audienceEligibleIdentities. rewrite list_elem_of_omap. split.
    + intros (d & Hd & H). case_bool_decide; [done|]. injection H as <-. eauto.
    + intros (d & Hd & Hne & ->). exists d. split; [done|]. by rewrite bool_decide_eq_false_2.
Qed.

(** ** Ranks *)

Definition rank_le (c d : candidate) : Prop := cRank c ≤ cRank d.

Lemma insert_candidate_perm c l : insert_candidate c l ≡ₚ c :: l.
Proof.
  induction l as [|x l IH]; [done|]. cbn [insert_candidate]. destruct (cRank c <=? cRank x)%nat; [done|].
  rewrite IH. apply Permutation_swap.
Qed.

Lemma sort_candidates_perm l : sort_candidates l ≡ₚ l.
Proof. induction l as [|c l IH]; [done|]. cbn [sort_candidates foldr]. rewrite insert_candidate_perm. by f_equiv. Qed.

Lemma insert_candidate_sorted c l : StronglySorted rank_le l → StronglySorted rank_le (insert_candidate c l).
Proof.
  induction 1 as [|x l Hl IH Hx]; cbn [insert_candidate]; [by repeat constructor|].
  destruct (Nat.leb_spec (cRank c) (cRank x)).
  - constructor; [by constructor|]. constructor; [done|]. eapply Forall_impl; [done|]. unfold rank_le. cbn. lia.
  - constructor; [done|]. rewrite insert_candidate_perm. constructor; [unfold rank_le; lia|done].
Qed.

Lemma sort_candidates_sorted l : StronglySorted rank_le (sort_candidates l).
Proof. induction l as [|c l IH]; [constructor|]. by apply insert_candidate_sorted. Qed.

Lemma insert_candidate_stable k c l :
  filter (λ d, cRank d = k) (insert_candidate c l) = filter (λ d, cRank d = k) (c :: l).
Proof.
  induction l as [|x l IH]; [done|]. cbn [insert_candidate]. destruct (Nat.leb_spec (cRank c) (cRank x)); [done|].
  rewrite !filter_cons in *. rewrite IH. repeat case_decide; try done; lia.
Qed.

Lemma sort_candidates_stable k l : filter (λ d, cRank d = k) (sort_candidates l) = filter (λ d, cRank d = k) l.
Proof.
  induction l as [|c l IH]; [done|]. cbn [sort_candidates foldr]. rewrite insert_candidate_stable.
  rewrite !filter_cons. unfold sort_candidates in IH. by rewrite IH.
Qed.

Lemma candidates_ranked s decoded :
  candidates s decoded ≡ₚ omap (survivor s) decoded ∧ StronglySorted rank_le (candidates s decoded) ∧
  ∀ k, filter (λ d, cRank d = k) (candidates s decoded) = filter (λ d, cRank d = k) (omap (survivor s) decoded).
Proof.
  unfold candidates. case_bool_decide as Hp.
  - split_and!; [done| |done]. induction decoded as [|d l IH]; [constructor|]. cbn [omap list_omap].
    destruct (survivor s d) as [c|] eqn:Ed; [|done]. constructor; [done|].
    assert (∀ d' c', survivor s d' = Some c' → cRank c' = 0) as Hz.
    { intros d' c'. unfold survivor. case_bool_decide; [done|]. rewrite bool_decide_eq_true_2 by done. by intros [= <-]. }
    apply Forall_forall. intros c' Hc'. apply list_elem_of_omap in Hc' as (d' & _ & Hd'). unfold rank_le.
    rewrite (Hz _ _ Ed), (Hz _ _ Hd'). lia.
  - split_and!; [apply sort_candidates_perm|apply sort_candidates_sorted|intros k; apply sort_candidates_stable].
Qed.

(** ** Packing *)

Definition fits (s : TMPXSealer) (es : list TmpxEntry) : Prop :=
  TmpxWireSize TmpxMaxKidLen (entriesByteLen es) ≤ wireBudget s.

Lemma pack_spec budget used l es over :
  pack budget used l = (es, over) →
  ∃ k, es = take k (map cEntry l) ∧ k ≤ length l ∧
    (es = [] ∨ TmpxWireSize TmpxMaxKidLen (used + entriesByteLen es) ≤ budget) ∧
    if over then k < length l ∧ budget < TmpxWireSize TmpxMaxKidLen (used + entriesByteLen (take (S k) (map cEntry l)))
    else k = length l.
Proof.
  revert used es over. induction l as [|c l IH]; intros used es over; cbn [pack].
  { intros [= <- <-]. exists 0. split_and!; auto. }
  destruct (Nat.ltb_spec budget (TmpxWireSize TmpxMaxKidLen (used + (1 + len (EntryToken (cEntry c)))))) as [Hlt|Hle].
  - intros [= <- <-]. exists 0. split_and!; [done|cbn; lia|by left|cbn; lia|]. cbn [map take].
    unfold entriesByteLen. cbn [foldr]. by rewrite Nat.add_0_r.
  - destruct (pack budget (used + (1 + len (EntryToken (cEntry c)))) l) as [es' over'] eqn:Ep. intros [= <- <-].
    apply IH in Ep as (k & -> & Hk & Hf & Ho). exists (S k).
    assert (∀ es, used + entriesByteLen (cEntry c :: es) = used + (1 + len (EntryToken (cEntry c))) + entriesByteLen es) as E
      by (intros es; unfold entriesByteLen; cbn [foldr]; lia).
    split_and!; [done|cbn; lia| |].
    + right. rewrite E. destruct Hf as [->|Hf]; [|done]. unfold entriesByteLen. cbn [foldr]. by rewrite Nat.add_0_r.
    + cbn [map]. rewrite !firstn_cons, E. destruct over'; [|cbn; lia]. split; [cbn; lia|]. apply Ho.
Qed.

Lemma fits_nil s : fits s [].
Proof.
  unfold fits, wireBudget. transitivity (1 * TmpxMaxWireBytes); [apply leb_complete; vm_compute; reflexivity|].
  apply Nat.mul_le_mono_r. lia.
Qed.

Lemma entriesByteLen_take k es : entriesByteLen (take k es) ≤ entriesByteLen es.
Proof.
  revert k. induction es as [|e es IH]; intros [|k]; rewrite ?take_nil, ?take_0, ?firstn_cons; [cbn; lia..|].
  specialize (IH k). unfold entriesByteLen in *. cbn [foldr]. lia.
Qed.

Lemma fits_take s k es : fits s es → fits s (take k es).
Proof.
  unfold fits, TmpxWireSize. intros H. etransitivity; [|exact H]. apply Nat.add_le_mono_l, EncodedLen_mono.
  pose proof (entriesByteLen_take k es). lia.
Qed.

Lemma selectEntries_Ok s decoded out :
  selectEntries s decoded = Ok out →
  fits s out ∧ ∃ k, out = take k (map cEntry (candidates s decoded)).
Proof.
  unfold selectEntries. destruct (pack _ _ _) as [es over] eqn:Ep. apply pack_spec in Ep as (k & Hes & _ & Hf & _).
  intros H. split_if. split; [|eauto]. destruct Hf as [->|Hf]; [apply fits_nil|exact Hf].
Qed.

(** C39: the candidates are the surviving identities in the order of their priorities, those
    of one type in the order of the request; what is packed is the longest prefix that
    fits the slots, all of them where no priorities are set; nothing is cut arbitrarily: without
    priorities an overflow is an error, and so is a first candidate that does not fit. *)
Theorem selectEntries_spec s decoded :
  let cs := candidates s decoded in
  let es := map cEntry cs in
  (cs ≡ₚ omap (survivor s) decoded ∧ StronglySorted rank_le cs ∧
   ∀ k, filter (λ c, cRank c = k) cs = filter (λ c, cRank c = k) (omap (survivor s) decoded)) ∧
  match selectEntries s decoded with
  | Ok out => ∃ k, out = take k es ∧ fits s out ∧ (priority s = [] → out = es) ∧
      (k < length es → ¬ fits s (take (S k) es)) ∧ (out = [] → es = [])
  | Err _ => (priority s = [] ∧ ¬ fits s es) ∨ (priority s ≠ [] ∧ ∃ e rest, es = e :: rest ∧ ¬ fits s [e])
  end.
Proof.
  cbn zeta. split; [apply candidates_ranked|]. unfold selectEntries.
  destruct (pack _ _ _) as [out over] eqn:Ep. apply pack_spec in Ep as (k & -> & Hk & Hf & Ho).
  set (cs := candidates s decoded) in *.
  destruct over; cbn [andb].
  - destruct Ho as [Hlt Hb].
    assert (¬ fits s (take (S k) (map cEntry cs))) as Hn by exact (proj1 (Nat.lt_nge _ _) Hb).
    destruct (bool_decide_reflect (priority s = [])) as [Hp|Hp].
    { left. split; [done|]. intros Hall. apply Hn. by apply fits_take. }
    destruct (bool_decide_reflect (take k (map cEntry cs) = [])) as [He|He].
    + right. split; [done|]. destruct k as [|k].
      * destruct (map cEntry cs) as [|e rest] eqn:Ec; [|eauto].
        apply (f_equal length) in Ec. rewrite length_map in Ec. cbn in Ec. lia.
      * destruct (map cEntry cs) eqn:Ec; [|done]. apply (f_equal length) in Ec. rewrite length_map in Ec. cbn in Ec. lia.
    + exists k. split_and!; [done| |done|done|done]. by destruct Hf.
  - exists k. subst k. rewrite take_ge by (rewrite length_map; lia). rewrite take_ge in Hf by (rewrite length_map; lia).
    split_and!; [done| |done| |done].
    + destruct Hf as [->|Hf]; [apply fits_nil|exact Hf].
    + rewrite length_map. lia.
Qed.

(** ** Slots *)

Lemma chunks_from_spec slots token :
  len token ≤ length slots * TmpxMaxWireBytes →
  sconcat (map ChunkValue (chunks_from slots token)) = token ∧
  Forall (λ c, 0 < len (ChunkValue c) ≤ TmpxMaxWireBytes) (chunks_from slots token) ∧
  map SlotID (chunks_from slots token) `prefix_of` slots.
Proof.
  revert token. induction slots as [|slot slots IH]; intros token Hlen; cbn [chunks_from].
  { cbn in Hlen. destruct token; [|rewrite len_cons in Hlen; lia]. split_and!; [done|done|done]. }
  case_bool_decide as Ht.
  { subst. split_and!; [done|done|apply prefix_nil]. }
  destruct (IH (sdrop TmpxMaxWireBytes token)) as (Hc & Hf & Hp).
  { rewrite len_sdrop. cbn [length] in Hlen. lia. }
  cbn [map sconcat ChunkValue SlotID]. rewrite Hc. split_and!.
  - apply stake_sdrop.
  - constructor; [|done]. cbn [ChunkValue]. rewrite len_stake. destruct token; [done|]. rewrite len_cons.
    unfold TmpxMaxWireBytes. lia.
  - by apply prefix_cons.
Qed.

Section Delivery.
Context `{RT : Runtime} `{XC : X25519} `{AEAD : ChaCha20Poly1305}.
Context `{XL : !X25519Laws} `{AL : !AeadLaws}.
Hypothesis Sha256_len : ∀ s, len (Sha256 s) = 32.

Lemma SealDecoded_inv s country expired recipient decoded now nonce skE token :
  SealDecoded s country expired recipient decoded now nonce skE = Ok token → token ≠ "" →
  ∃ r es pt, recipient = Some r ∧ selectEntries s decoded = Ok es ∧
    encodeTmpxPlaintextWith country es now nonce = Ok pt ∧ SealTmpx r "" pt skE = Ok token.
Proof.
  unfold SealDecoded. destruct expired; [done|]. intros (r & Hr%opt_err_Ok & H)%bind_Ok Hne.
  apply bind_Ok in H as (es & Hes & H). case_bool_decide; [congruence|].
  apply bind_Ok in H as (pt & Hpt & H). eauto 8.
Qed.

(** The key id may be as long as the size check assumes. *)
Lemma sealed_within_budget s country r decoded now nonce skE token :
  SealDecoded s country false (Some r) decoded now (Ok nonce) skE = Ok token → len nonce = 8 →
  len token ≤ wireBudget s.
Proof using XL AL.
  intros H Hn. destruct (decide (token = "")) as [->|Hne]; [apply Nat.le_0_l|].
  apply SealDecoded_inv in H as (r' & es & pt & Hr' & Hes & Hpt & Hw); [|done]. injection Hr' as <-.
  apply selectEntries_Ok in Hes as [Hf _]. unfold fits in Hf.
  rewrite (TmpxWireSize_exact _ _ _ _ _ _ _ _ _ Hpt Hn Hw). etransitivity; [|exact Hf].
  apply SealTmpx_inv in Hw as (Hk & _). apply kid_no_dot in Hk as [_ Hk]. unfold TmpxWireSize. lia.
Qed.

(** C20: a token that the sealer produces for the slots of a provider fills them in their
    order with pieces of at most 255 bytes; put together again they are the token, which the
    holder of the private key opens, reading the country, the selected entries and the time. *)
Theorem sealed_token_delivered s country r skR decoded now nonce skE token :
  slotIDs s ≠ [] → length (slotIDs s) ≤ TmpxMaxSlots →
  RecipientPublicKey r = Some (MkEcdh true (XPublic skR)) → len nonce = 8 →
  SealDecoded s country false (Some r) decoded now (Ok nonce) skE = Ok token → token ≠ "" →
  let chunks := ChunkEntries s token in
  sconcat (map ChunkValue chunks) = token ∧
  Forall (λ c, 0 < len (ChunkValue c) ≤ TmpxMaxWireBytes) chunks ∧
  map SlotID chunks `prefix_of` slotIDs s ∧
  ∃ pt es, selectEntries s decoded = Ok es ∧
    OpenTmpx (Some (MkEcdh true skR)) "" (sconcat (map ChunkValue chunks)) = Ok (pt, Kid r) ∧
    parse_plaintext pt = Some (MkPlaintext (Unix now mod 2 ^ 32) country nonce es).
Proof using Sha256_len XL AL.
  intros Hs Hslots Hr Hn H Hne. cbn zeta. pose proof (sealed_within_budget _ _ _ _ _ _ _ _ H Hn) as Hb.
  apply SealDecoded_inv in H as (r' & es & pt & Hr' & Hes & Hpt & Hw); [|done]. injection Hr' as <-.
  assert (wireBudget s = length (slotIDs s) * TmpxMaxWireBytes) as Hwb.
  { unfold wireBudget. f_equal. destruct (slotIDs s); [done|]. cbn [length]. lia. }
  assert (ChunkEntries s token = chunks_from (slotIDs s) token) as ->.
  { unfold ChunkEntries. rewrite !bool_decide_eq_false_2 by done. cbn [orb].
    by destruct (Nat.ltb_spec (length (slotIDs s) * TmpxMaxWireBytes) (len token)); [lia|]. }
  destruct (chunks_from_spec (slotIDs s) token) as (Hc & Hf & Hp); [lia|]. split_and!; [done..|].
  rewrite Hc. exists pt, es. split_and!; [done| |].
  - apply open_sealed_wire with (pt := pt) (skE := skE); try done; [|apply leb_complete; vm_compute; reflexivity].
    rewrite Hwb in Hb. unfold TmpxMaxReassembledWireBytes. etransitivity; [exact Hb|]. by apply Nat.mul_le_mono_r.
  - by eapply plaintext_roundtrip.
Qed.
End Delivery.

(** ** A concrete run *)

(** Two slots; the cap of two hundred bytes and more is exceeded by the last of the identities. *)
Definition sample_sealer : TMPXSealer := MkSealer ["slot-a"; "slot-b"] ["id5"; "maid"].
Definition sample_uuid : string := "00112233-4455-6677-8899-aabbccddeeff".
Definition sample_ids : list IdentityToken :=
  [MkToken sample_uuid "maid" None; MkToken "id5-token-of-thirty-two-bytes-01" "id5" None;
   MkToken "aa" "hashed_email" None; MkToken "0x01" "world_id_nullifier" None] ++
  repeat (MkToken "id5-token-of-thirty-two-bytes-02" "id5" None) 8.
Definition sample_decoded : list DecodedIdentity :=
  decodeIdentities (NewDefaultRegistry (MkOptions None None None)) sample_ids.
Definition sample_now : Time := ((unixToInternal + 1800000000) * Second)%Z.
Definition sample_token : string :=
  match SealDecoded (RT := hash32_runtime) sample_sealer "DE" false (Some sample_recipient) sample_decoded sample_now
    (Ok "nonce-08") (Ok "ephemeral") with Ok t => t | Err _ => "" end.

Example sealed_sample : length (ChunkEntries sample_sealer sample_token) = 2 ∧
  (length <$> selectEntries sample_sealer sample_decoded) = Ok 9.
Proof. vm_compute. done. Qed.

Example sealed_token_delivered_witness :
  sample_token ≠ "" ∧ sconcat (map ChunkValue (ChunkEntries sample_sealer sample_token)) = sample_token ∧
  ∃ pt es, selectEntries sample_sealer sample_decoded = Ok es ∧
    OpenTmpx (RT := hash32_runtime) (Some (MkEcdh true sample_skR)) "" sample_token = Ok (pt, "k1") ∧
    parse_plaintext pt = Some (MkPlaintext 1800000000 "DE" "nonce-08" es).
Proof.
  assert (SealDecoded (RT := hash32_runtime) sample_sealer "DE" false (Some sample_recipient) sample_decoded sample_now
    (Ok "nonce-08") (Ok "ephemeral") = Ok sample_token) as Hs by (vm_compute; reflexivity).
  assert (sample_token ≠ "") as Hne by (vm_compute; discriminate).
  pose proof (sealed_token_delivered (RT := hash32_runtime) hash32_len sample_sealer "DE" sample_recipient sample_skR
    sample_decoded sample_now "nonce-08" (Ok "ephemeral") sample_token ltac:(discriminate)
    (le_n 2) eq_refl eq_refl Hs Hne) as (Hc & _ & _ & pt & es & Hes & Ho & Hp).
  rewrite Hc in Ho. exact (conj Hne (conj Hc (ex_intro _ pt (ex_intro _ es (conj Hes (conj Ho Hp)))))).
Defined.
