(* ===== verification/IdentityConfig.v ===== *)
(** * IdentityConfig: audience rules of packages, and the snapshot they are served from

    [targeting/identity_config.go] and [targeting/identityconfig]: the rule of a package, the
    snapshot and its deltas, the start modes, the lookups, and the packages a request is
    evaluated for.  Rules are values: [Clone] is the identity.  A Go map is walked in an
    order that the caller of the model chooses ([walk]). *)
From stdpp Require Import gmap strings.
From S2P Require Import Prelude GoStrings Unicode NetUrl StrictJson UrlCanon.
From stdpp Require Import options.

(** ** Segment rules *)

Record SegmentRule := MkRule { AllOf : list string; AnyOf : list string; NoneOf : list string }.

#[export] Instance SegmentRule_eq_dec : EqDecision SegmentRule.
Proof. solve_decision. Defined.

Definition IsEmpty (r : option SegmentRule) : bool :=
  match r with
  | None => true
  | Some r => bool_decide (AllOf r = []) && bool_decide (AnyOf r = []) && bool_decide (NoneOf r = [])
  end.

(** [append] of what was not seen. *)
Definition add_unseen (out : list string) (s : string) : list string := if bool_decide (s ∈ out) then out else out ++ [s].

Definition Segments (r : option SegmentRule) : list string :=
  match r with None => [] | Some r => foldl add_unseen [] (AllOf r ++ AnyOf r ++ NoneOf r) end.

Definition Matches (r : option SegmentRule) (userSegments : gset string) : bool :=
  match r with
  | None => true
  | Some r =>
      forallb (λ s, bool_decide (s ∈ userSegments)) (AllOf r) &&
      (bool_decide (AnyOf r = []) || existsb (λ s, bool_decide (s ∈ userSegments)) (AnyOf r)) &&
      forallb (λ s, negb (bool_decide (s ∈ userSegments))) (NoneOf r)
  end.

Record PackageIdentityConfig := MkConfig { TargetSegments : option SegmentRule; RequiresVerifiedIdentity : bool }.

(** ** Snapshots *)

(** The seller's URL and the package's id. *)
Abbreviation Key := (string * string)%type (only parsing).

Record Entry := MkCfgEntry { EntryKey : Key; EntryRule : option SegmentRule }.

Record Snapshot := MkSnapshot { Configs : list Entry; SnapUpdatedAt : Time }.
Record Delta := MkDelta { Upserted : list Entry; Removed : list Key; DeltaUpdatedAt : Time }.

(** The rules by key. *)
Abbreviation rules := (gmap (string * string) (option SegmentRule)).

Record snapshotData := MkData { byKey : rules; bySeller : gmap string (list Entry); lastUpdatedAt : Time }.

Definition emptySnapshot : snapshotData := MkData ∅ ∅ 0.

Definition append_entry (m : gmap string (list Entry)) (e : Entry) : gmap string (list Entry) :=
  <[(EntryKey e).1 := default [] (m !! (EntryKey e).1) ++ [e]]> m.

Section Snapshots.
Context `{RT : Runtime}.

Definition canonicalSellerKey (raw : string) : string :=
  if bool_decide (raw = "") then "" else match Canonicalize raw with Ok canon => canon | Err _ => raw end.

Definition canonicalizeEntry (k : Key) : Key := (canonicalSellerKey k.1, k.2).

Definition add_config (d : snapshotData) (e : Entry) : snapshotData :=
  let key := canonicalizeEntry (EntryKey e) in
  MkData (<[key := EntryRule e]> (byKey d)) (append_entry (bySeller d) (MkCfgEntry key (EntryRule e))) (lastUpdatedAt d).

Definition buildSnapshot (s : Snapshot) : snapshotData := foldl add_config (MkData ∅ ∅ (SnapUpdatedAt s)) (Configs s).

Definition upsert (m : rules) (e : Entry) : rules := <[canonicalizeEntry (EntryKey e) := EntryRule e]> m.
Definition remove_key (m : rules) (k : Key) : rules := delete (canonicalizeEntry k) m.

Definition apply_rules (d : Delta) (m : rules) : rules := foldl remove_key (foldl upsert m (Upserted d)) (Removed d).

(** [walk m]: the bindings of [m] in the order of one [range] over it. *)
Definition index_rules (walk : rules → list (Key * option SegmentRule)) (m : rules) : gmap string (list Entry) :=
  foldl append_entry ∅ (map (λ kr, MkCfgEntry kr.1 kr.2) (walk m)).

Definition applyDelta (walk : rules → list (Key * option SegmentRule)) (current : snapshotData) (d : Delta) : snapshotData :=
  let m := apply_rules d (byKey current) in
  MkData m (index_rules walk m)
    (if (DeltaUpdatedAt d <? lastUpdatedAt current)%Z then lastUpdatedAt current else DeltaUpdatedAt d).

(** [answer]: what [LoadUpdatedAfter] of the snapshot's watermark returned; the boolean is
    the outcome the observer is told. *)
Definition refreshDelta (walk : rules → list (Key * option SegmentRule)) (answer : result string Delta) (current : snapshotData) :
    snapshotData * bool :=
  match answer with
  | Err _ => (current, false)
  | Ok d =>
      if bool_decide (Upserted d = []) && bool_decide (Removed d = []) then
        (if After (DeltaUpdatedAt d) (lastUpdatedAt current)
         then MkData (byKey current) (bySeller current) (DeltaUpdatedAt d) else current, true)
      else (applyDelta walk current d, true)
  end.

(** ** Start *)

Inductive BackoffStrategy := BackoffConstant | BackoffExponential.
Record RetryConfig := MkRetry { Initial : Duration; MaxWait : Duration; Backoff : BackoffStrategy; MaxAttempts : Z }.
Inductive StartMode := StartModeFailFast | StartModeRetry (cfg : RetryConfig) | StartModeBestEffort.

Definition nextBackoff (current : Duration) (cfg : RetryConfig) : Duration :=
  match Backoff cfg with
  | BackoffExponential => Z.min (wrap64 (current * 2)) (MaxWait cfg)
  | BackoffConstant => Initial cfg
  end.

Definition retry_defaults (cfg : RetryConfig) : RetryConfig :=
  let i := if (Initial cfg <=? 0)%Z then Second else Initial cfg in
  MkRetry i (if (MaxWait cfg <? i)%Z then i else MaxWait cfg) (Backoff cfg) (MaxAttempts cfg).

(** The attempts in their order: what [LoadAll] returned, and whether the context ended
    during the wait that follows.  The waits that were begun are listed; [None] while the
    attempts go on. *)
Fixpoint retry_loop (cfg : RetryConfig) (wait : Duration) (attempt : Z) (answers : list (result string Snapshot * bool)) :
    option (result string snapshotData) * list Duration :=
  match answers with
  | [] => (None, [])
  | (Ok s, _) :: _ => (Some (Ok (buildSnapshot s)), [])
  | (Err e, aborted) :: answers' =>
      if ((0 <? MaxAttempts cfg) && (MaxAttempts cfg <=? attempt))%Z
      then (Some (Err "identityconfig: initial load failed"), [])
      else if (aborted : bool) then (Some (Err "identityconfig: initial load aborted"), [wait])
      else let '(r, waits) := retry_loop cfg (nextBackoff wait cfg) (attempt + 1) answers' in (r, wait :: waits)
  end.

Definition loadAllOnce (answer : result string Snapshot) : result string snapshotData := buildSnapshot <$> answer.

(** [Start], on a service that holds [current]: its outcome and the snapshot held after it.  A load
    that fails leaves the snapshot as it is: the empty one at first, the last one after a stop. *)
Definition installed (current : snapshotData) (r : result string snapshotData) : result string unit * snapshotData :=
  match r with Ok d => (Ok tt, d) | Err e => (Err e, current) end.

Definition initialLoad (mode : StartMode) (current : snapshotData) (answers : list (result string Snapshot * bool)) :
    option (result string unit * snapshotData) :=
  match mode, answers with
  | StartModeRetry cfg, _ => let cfg := retry_defaults cfg in installed current <$> fst (retry_loop cfg (Initial cfg) 1 answers)
  | _, [] => None
  | StartModeFailFast, (a, _) :: _ => Some (installed current (loadAllOnce a))
  | StartModeBestEffort, (a, _) :: _ => Some (Ok tt, snd (installed current (loadAllOnce a)))
  end.

(** ** Reads *)

Definition Lookup (d : snapshotData) (sellerAgentURL packageID : string) : option (option SegmentRule) :=
  byKey d !! (canonicalSellerKey sellerAgentURL, packageID).

Definition Get (d : snapshotData) (sellerAgentURL packageID : string) : option SegmentRule :=
  default None (Lookup d sellerAgentURL packageID).

Definition GetBySeller (d : snapshotData) (sellerAgentURL : string) : list Entry :=
  default [] (bySeller d !! canonicalSellerKey sellerAgentURL).

Definition no_gate (r : option SegmentRule) : PackageIdentityConfig := MkConfig r false.

Definition add_found (m : gmap string PackageIdentityConfig) (f : string * option SegmentRule) : gmap string PackageIdentityConfig :=
  <[f.1 := no_gate f.2]> m.

Definition ResolveRequest (d : snapshotData) (sellerAgentURL : string) (requestedPackageIDs : list string) :
    list string * gmap string PackageIdentityConfig :=
  if bool_decide (requestedPackageIDs = []) then
    let entries := GetBySeller d sellerAgentURL in
    (map (λ e, (EntryKey e).2) entries,
     foldl (λ m e, add_found m ((EntryKey e).2, EntryRule e)) ∅ entries)
  else
    let found := omap (λ id, (λ r, (id, r)) <$> Lookup d sellerAgentURL id) requestedPackageIDs in
    (map fst found, foldl add_found ∅ found).

End Snapshots.

(** ** Both indexes agree *)

Definition seller_rules (es : list Entry) : gmap string (option SegmentRule) :=
  foldl (λ m e, <[(EntryKey e).2 := EntryRule e]> m) ∅ es.

(** What a seller's list says of a package, the last entry deciding, is what the key index
    says; the entries of a list are the seller's. *)
Definition coherent (d : snapshotData) : Prop :=
  ∀ s, (∀ p, seller_rules (default [] (bySeller d !! s)) !! p = byKey d !! (s, p)) ∧
       Forall (λ e, (EntryKey e).1 = s) (default [] (bySeller d !! s)).

Lemma seller_rules_snoc es e : seller_rules (es ++ [e]) = <[(EntryKey e).2 := EntryRule e]> (seller_rules es).
Proof. unfold seller_rules. by rewrite foldl_app. Qed.

Lemma seller_rules_elem es p : is_Some (seller_rules es !! p) ↔ p ∈ map (λ e, (EntryKey e).2) es.
Proof.
  induction es as [|e es IH] using rev_ind; [split; [by intros [? H]|by intros H%elem_of_nil]|].
  rewrite seller_rules_snoc, map_app, elem_of_app, <- IH. cbn [map]. rewrite list_elem_of_singleton.
  destruct (decide (p = (EntryKey e).2)) as [->|Hne]; [rewrite lookup_insert_eq; naive_solver|].
  rewrite lookup_insert_ne by done. naive_solver.
Qed.

(** One entry in both indexes, under its own key. *)
Lemma coherent_add m l t e :
  coherent (MkData m l t) → coherent (MkData (<[EntryKey e := EntryRule e]> m) (append_entry l e) t).
Proof.
  intros H s. destruct (H s) as [Hr Hf]. cbn [byKey bySeller] in *. unfold append_entry.
  destruct (EntryKey e) as [s' p'] eqn:Ek. cbn [fst].
  destruct (decide (s = s')) as [->|Hne].
  - rewrite lookup_insert_eq. cbn [default from_option id]. split.
    + intros p. rewrite seller_rules_snoc, Ek. cbn [snd].
      destruct (decide (p = p')) as [->|Hp]; [by rewrite !lookup_insert_eq|].
      rewrite !lookup_insert_ne by congruence. apply Hr.
    + apply Forall_app. split; [done|]. constructor; [by rewrite Ek|constructor].
  - rewrite lookup_insert_ne by congruence. split; [|done]. intros p. rewrite lookup_insert_ne by congruence. apply Hr.
Qed.

Definition of_entries (es : list Entry) (m : rules) : rules := foldl (λ m e, <[EntryKey e := EntryRule e]> m) m es.

Lemma coherent_index es m l t :
  coherent (MkData m l t) → coherent (MkData (of_entries es m) (foldl append_entry l es) t).
Proof.
  revert m l. induction es as [|e es IH]; intros m l H; [done|]. cbn [of_entries foldl]. apply IH. by apply coherent_add.
Qed.

Lemma coherent_nil t : coherent (MkData ∅ ∅ t).
Proof. intros s. cbn [byKey bySeller]. rewrite lookup_empty. split; [|done]. intros p. by rewrite !lookup_empty. Qed.

(** A walk visits every binding once. *)
Definition walks (walk : rules → list (Key * option SegmentRule)) : Prop := ∀ m, walk m ≡ₚ map_to_list m.

Lemma of_entries_to_map l : NoDup l.*1 →
  of_entries (map (λ kr, MkCfgEntry kr.1 kr.2) l) ∅ = list_to_map l.
Proof.
  intros Hl. enough (∀ m, of_entries (map (λ kr, MkCfgEntry kr.1 kr.2) l) m = list_to_map l ∪ m) as H.
  { rewrite H. apply (right_id_L ∅ (∪)). }
  induction l as [|[k r] l IH]; intros m; [cbn; by rewrite (left_id_L ∅ (∪))|].
  apply NoDup_cons in Hl as [Hk Hl]. cbn [map of_entries foldl]. unfold of_entries in *. rewrite IH by done. cbn [fst snd EntryKey EntryRule].
  rewrite list_to_map_cons, <- insert_union_l. symmetry. apply insert_union_r.
  by apply not_elem_of_list_to_map_1.
Qed.

Lemma index_rules_coherent walk m t : walks walk → coherent (MkData m (index_rules walk m) t).
Proof.
  intros Hw. assert (of_entries (map (λ kr, MkCfgEntry kr.1 kr.2) (walk m)) ∅ = m) as Hm.
  { rewrite of_entries_to_map; [|rewrite (Hw m); apply NoDup_fst_map_to_list].
    transitivity (list_to_map (map_to_list m) : rules); [|apply list_to_map_to_list].
    apply list_to_map_proper; [|apply Hw]. rewrite (Hw m). apply NoDup_fst_map_to_list. }
  rewrite <- Hm at 1. unfold index_rules. apply coherent_index, coherent_nil.
Qed.

Section Served.
Context `{RT : Runtime}.

Lemma buildSnapshot_spec s :
  coherent (buildSnapshot s) ∧ byKey (buildSnapshot s) = foldl upsert ∅ (Configs s) ∧ lastUpdatedAt (buildSnapshot s) = SnapUpdatedAt s.
Proof.
  unfold buildSnapshot. enough (∀ d, coherent d →
    coherent (foldl add_config d (Configs s)) ∧ byKey (foldl add_config d (Configs s)) = foldl upsert (byKey d) (Configs s) ∧
    lastUpdatedAt (foldl add_config d (Configs s)) = lastUpdatedAt d) as H by apply (H (MkData ∅ ∅ (SnapUpdatedAt s)) (coherent_nil _)).
  induction (Configs s) as [|e es IH]; intros d Hd; [done|]. cbn [foldl].
  destruct (IH (add_config d e)) as (Hc & Hb & Ht).
  - destruct d as [m l t]. exact (coherent_add m l t (MkCfgEntry (canonicalizeEntry (EntryKey e)) (EntryRule e)) Hd).
  - rewrite Hb, Ht. done.
Qed.

Lemma refreshDelta_coherent walk answer d : walks walk → coherent d → coherent (refreshDelta walk answer d).1.
Proof.
  intros Hw Hd. unfold refreshDelta. destruct answer as [δ|e]; [|done].
  destruct (bool_decide (Upserted δ = []) && bool_decide (Removed δ = [])); cbn [fst].
  - by destruct (After _ _).
  - by apply index_rules_coherent.
Qed.

(** Refreshes never turn the watermark back. *)
Lemma refreshDelta_watermark walk answer d : (lastUpdatedAt d ≤ lastUpdatedAt (refreshDelta walk answer d).1)%Z.
Proof.
  unfold refreshDelta. destruct answer as [δ|e]; [|cbn; lia].
  destruct (bool_decide (Upserted δ = []) && bool_decide (Removed δ = [])); cbn [fst].
  - unfold After. destruct (Z.ltb_spec (lastUpdatedAt d) (DeltaUpdatedAt δ)); cbn; lia.
  - cbn. destruct (Z.ltb_spec (DeltaUpdatedAt δ) (lastUpdatedAt d)); lia.
Qed.

Lemma elem_of_found d seller ids p :
  p ∈ map fst (omap (λ id, (λ r, (id, r)) <$> Lookup d seller id) ids) ↔ p ∈ ids ∧ is_Some (Lookup d seller p).
Proof.
  induction ids as [|q ids IH]; [set_solver|]. cbn [omap list_omap].
  destruct (Lookup d seller q) as [r|] eqn:Eq; cbn [fmap option_fmap option_map].
  - cbn [map fst]. rewrite !elem_of_cons, IH. split; [|tauto].
    intros [->|?]; [split; [by left|by rewrite Eq]|tauto].
  - rewrite elem_of_cons, IH. split; [tauto|]. intros [[->|?] [r Hr]]; [congruence|]. split; [done|by exists r].
Qed.

Lemma found_configs d seller ids p :
  foldl add_found ∅ (omap (λ id, (λ r, (id, r)) <$> Lookup d seller id) ids) !! p =
  if bool_decide (p ∈ ids) then no_gate <$> Lookup d seller p else None.
Proof.
  induction ids as [|q ids IH] using rev_ind; [done|]. rewrite omap_app, foldl_app. cbn [omap list_omap].
  destruct (Lookup d seller q) as [r|] eqn:Eq; cbn [fmap option_fmap option_map foldl fst snd].
  - unfold add_found at 1. cbn [fst snd]. destruct (decide (q = p)) as [->|Hne].
    + rewrite lookup_insert_eq, bool_decide_eq_true_2 by set_solver. by rewrite Eq.
    + rewrite lookup_insert_ne, IH by done. by rewrite (bool_decide_ext (p ∈ ids ++ [q]) (p ∈ ids)) by set_solver.
  - rewrite IH. destruct (decide (q = p)) as [->|Hne].
    + rewrite (bool_decide_eq_true_2 (p ∈ ids ++ [p])) by set_solver. rewrite Eq. by case_bool_decide.
    + by rewrite (bool_decide_ext (p ∈ ids ++ [q]) (p ∈ ids)) by set_solver.
Qed.

(** The packages a request is evaluated for: those asked for, or all where none is named,
    that are registered for the seller, each with its rule. *)
Lemma ResolveRequest_spec d seller req :
  coherent d →
  (∀ p, p ∈ (ResolveRequest d seller req).1 ↔ (req = [] ∨ p ∈ req) ∧ is_Some (Lookup d seller p)) ∧
  (∀ p, (ResolveRequest d seller req).2 !! p =
     if bool_decide (p ∈ (ResolveRequest d seller req).1) then no_gate <$> Lookup d seller p else None).
Proof.
  intros Hd. unfold ResolveRequest. case_bool_decide as Hr; cbn [fst snd].
  - subst req. destruct (Hd (canonicalSellerKey seller)) as [Hs Hf].
    assert (∀ p, p ∈ map (λ e, (EntryKey e).2) (GetBySeller d seller) ↔ is_Some (Lookup d seller p)) as Hin.
    { intros p. rewrite <- seller_rules_elem. unfold GetBySeller, Lookup. by rewrite Hs. }
    split; [intros p; rewrite Hin; naive_solver|]. intros p.
    transitivity (no_gate <$> seller_rules (GetBySeller d seller) !! p).
    + unfold seller_rules. generalize (GetBySeller d seller). intros es.
      induction es as [|e es IH] using rev_ind; [done|]. rewrite !foldl_app. cbn [foldl]. unfold add_found at 1. cbn [fst snd].
      destruct (decide ((EntryKey e).2 = p)) as [<-|]; [by rewrite !lookup_insert_eq|]. by rewrite !lookup_insert_ne.
    + assert (seller_rules (GetBySeller d seller) !! p = Lookup d seller p) as -> by (unfold GetBySeller, Lookup; by rewrite Hs).
      case_bool_decide as Hp; [done|]. rewrite Hin, <- eq_None_not_Some in Hp. by rewrite Hp.
  - split.
    + intros p. rewrite elem_of_found. naive_solver.
    + intros p. rewrite found_configs. destruct (decide (p ∈ req)) as [Hp|Hp].
      * rewrite (bool_decide_eq_true_2 (p ∈ req)) by done. case_bool_decide as Hf; [done|].
        rewrite elem_of_found in Hf. destruct (Lookup d seller p); [|done]. exfalso. eauto.
      * rewrite (bool_decide_eq_false_2 (p ∈ req)) by done. by rewrite bool_decide_eq_false_2 by (rewrite elem_of_found; naive_solver).
Qed.

(** ** The service and its source *)

(** What is configured at a time: the rules by canonical seller and package. *)
Variable world : Time → rules.

(** A load tells the truth of its time: every entry it lists has the rule configured for its
    seller, however spelled, and package; and everything that is configured is listed. *)
Record faithful_load (s : Snapshot) : Prop := {
  load_true e : e ∈ Configs s → world (SnapUpdatedAt s) !! canonicalizeEntry (EntryKey e) = Some (EntryRule e);
  load_complete k : is_Some (world (SnapUpdatedAt s) !! k) → ∃ e, e ∈ Configs s ∧ canonicalizeEntry (EntryKey e) = k;
}.

(** A delta tells the truth of its time about what changed: an upserted entry has the rule now
    configured, a removed one is no longer configured, and what differs between the two times is
    among the one or the other. *)
Record faithful_delta (after : Time) (δ : Delta) : Prop := {
  delta_later : (after ≤ DeltaUpdatedAt δ)%Z;
  delta_upserted e : e ∈ Upserted δ → world (DeltaUpdatedAt δ) !! canonicalizeEntry (EntryKey e) = Some (EntryRule e);
  delta_removed k : k ∈ Removed δ → world (DeltaUpdatedAt δ) !! canonicalizeEntry k = None;
  delta_complete k : world (DeltaUpdatedAt δ) !! k ≠ world after !! k →
    (∃ e, e ∈ Upserted δ ∧ canonicalizeEntry (EntryKey e) = k) ∨ (∃ r, r ∈ Removed δ ∧ canonicalizeEntry r = k);
}.

(** The snapshots that a service can hold: as created, after a start or a restart, successful or
    not, and after a refresh. *)
Inductive served : snapshotData → Prop :=
  | served_new : served emptySnapshot
  | served_start mode answers d o d' :
      served d → (∀ s b, (Ok s, b) ∈ answers → faithful_load s) →
      initialLoad mode d answers = Some (o, d') → served d'
  | served_refresh d walk answer :
      served d → walks walk → (∀ δ, answer = Ok δ → faithful_delta (lastUpdatedAt d) δ) →
      served (refreshDelta walk answer d).1.

Lemma upserts_lookup es m k :
  (∃ e, e ∈ es ∧ canonicalizeEntry (EntryKey e) = k ∧ foldl upsert m es !! k = Some (EntryRule e)) ∨
  ((∀ e, e ∈ es → canonicalizeEntry (EntryKey e) ≠ k) ∧ foldl upsert m es !! k = m !! k).
Proof.
  induction es as [|e es IH] using rev_ind; [right; split; [by intros e H%elem_of_nil|done]|].
  rewrite foldl_app. cbn [foldl]. unfold upsert at 1 3.
  destruct (decide (canonicalizeEntry (EntryKey e) = k)) as [<-|Hne].
  - left. exists e. rewrite lookup_insert_eq. split; [set_solver|done].
  - rewrite lookup_insert_ne by done. destruct IH as [(e' & ? & ?)|[Hn ->]]; [left; exists e'; set_solver|].
    right. split; [set_solver|done].
Qed.

Lemma removes_lookup ks m k :
  (∃ r, r ∈ ks ∧ canonicalizeEntry r = k ∧ foldl remove_key m ks !! k = None) ∨
  ((∀ r, r ∈ ks → canonicalizeEntry r ≠ k) ∧ foldl remove_key m ks !! k = m !! k).
Proof.
  induction ks as [|r ks IH] using rev_ind; [right; split; [by intros e H%elem_of_nil|done]|].
  rewrite foldl_app. cbn [foldl]. unfold remove_key at 1 3.
  destruct (decide (canonicalizeEntry r = k)) as [<-|Hne].
  - left. exists r. rewrite lookup_delete_eq. split; [set_solver|done].
  - rewrite lookup_delete_ne by done. destruct IH as [(r' & ? & ?)|[Hn ->]]; [left; exists r'; set_solver|].
    right. split; [set_solver|done].
Qed.

Lemma load_rules s : faithful_load s → foldl upsert ∅ (Configs s) = world (SnapUpdatedAt s).
Proof.
  intros [Ht Hc]. apply map_eq. intros k. destruct (upserts_lookup (Configs s) ∅ k) as [(e & He & <- & ->)|[Hn ->]]; [by rewrite Ht|].
  rewrite lookup_empty. destruct (world (SnapUpdatedAt s) !! k) eqn:E; [|done].
  destruct (Hc k) as (e & He & Hk); [by rewrite E|]. by destruct (Hn e He).
Qed.

Lemma delta_rules after δ : faithful_delta after δ → apply_rules δ (world after) = world (DeltaUpdatedAt δ).
Proof.
  intros [_ Hu Hr Hc]. apply map_eq. intros k. unfold apply_rules.
  destruct (removes_lookup (Removed δ) (foldl upsert (world after) (Upserted δ)) k) as [(r & Hin & <- & ->)|[Hnr ->]]; [by rewrite Hr|].
  destruct (upserts_lookup (Upserted δ) (world after) k) as [(e & He & <- & ->)|[Hnu ->]]; [by rewrite Hu|].
  destruct (decide (world (DeltaUpdatedAt δ) !! k = world after !! k)) as [|Hne]; [done|].
  destruct (Hc k Hne) as [(e & He & Hk)|(r & Hin & Hk)]; [by destruct (Hnu e He)|by destruct (Hnr r Hin)].
Qed.

Definition mirrors (d : snapshotData) : Prop := coherent d ∧ byKey d = world (lastUpdatedAt d).

Lemma mirrors_load s : faithful_load s → mirrors (buildSnapshot s).
Proof.
  intros H. destruct (buildSnapshot_spec s) as (Hc & Hb & Ht). split; [done|]. rewrite Hb, Ht. by apply load_rules.
Qed.

Lemma mirrors_retry cfg wait n answers d :
  (∀ s b, (Ok s, b) ∈ answers → faithful_load s) → fst (retry_loop cfg wait n answers) = Some (Ok d) → mirrors d.
Proof.
  revert wait n. induction answers as [|[a b] answers IH]; intros wait n Hf; cbn [retry_loop]; [done|].
  destruct a as [s|e].
  - intros [= <-]. eapply mirrors_load, Hf. by left.
  - destruct ((0 <? MaxAttempts cfg) && (MaxAttempts cfg <=? n))%Z; [done|]. destruct b; [done|].
    destruct (retry_loop _ _ _ answers) as [r waits] eqn:Er. cbn [fst]. intros ->. eapply IH.
    + intros s b Hs. apply (Hf s b). by right.
    + by rewrite Er.
Qed.

Lemma mirrors_start mode answers d o d' : mirrors d →
  (∀ s b, (Ok s, b) ∈ answers → faithful_load s) → initialLoad mode d answers = Some (o, d') → mirrors d'.
Proof.
  intros Hd Hf. destruct mode as [|cfg|]; cbn [initialLoad].
  - destruct answers as [|[[s|e] b] answers]; [done| |]; intros [= <- <-]; [|done]. eapply mirrors_load, Hf. by left.
  - destruct (fst _) as [[d1|e]|] eqn:Er; cbn; intros [= <- <-]; [|done].
    by eapply mirrors_retry.
  - destruct answers as [|[[s|e] b] answers]; [done| |]; intros [= <- <-]; [|done]. eapply mirrors_load, Hf. by left.
Qed.

Lemma mirrors_refresh walk answer d :
  walks walk → (∀ δ, answer = Ok δ → faithful_delta (lastUpdatedAt d) δ) → mirrors d → mirrors (refreshDelta walk answer d).1.
Proof.
  intros Hw Hf [Hc Hb]. split; [by apply refreshDelta_coherent|]. unfold refreshDelta.
  destruct answer as [δ|e]; [|done]. pose proof (delta_later _ _ (Hf δ eq_refl)) as Hle. pose proof (delta_rules _ _ (Hf δ eq_refl)) as Ha.
  destruct (bool_decide_reflect (Upserted δ = [])) as [Hu|]; [destruct (bool_decide_reflect (Removed δ = [])) as [Hr|]|];
    cbn [andb fst].
  - unfold After. destruct (Z.ltb_spec (lastUpdatedAt d) (DeltaUpdatedAt δ)); cbn [byKey lastUpdatedAt]; [|done].
    rewrite <- Ha. unfold apply_rules. by rewrite Hu, Hr.
  - cbn [byKey lastUpdatedAt applyDelta]. rewrite Hb, Ha. by destruct (Z.ltb_spec (DeltaUpdatedAt δ) (lastUpdatedAt d)); [lia|].
  - cbn [byKey lastUpdatedAt applyDelta]. rewrite Hb, Ha. by destruct (Z.ltb_spec (DeltaUpdatedAt δ) (lastUpdatedAt d)); [lia|].
Qed.

(** C34: after any starts, restarts and refreshes, failed ones included, against a source whose
    answers are true of their time - a load lists what is configured, a delta what changed - a request
    is evaluated for the packages that were configured for its seller at the time of the snapshot's
    watermark: those it names, or all where it names none, each with the rule of that time; sellers
    are the same when their canonical URLs are, in the request and in the source.  No refresh turns
    the watermark back.  Before the first load nothing is configured. *)
Theorem config_mirror d :
  world 0 = ∅ → served d →
  let rule seller p := world (lastUpdatedAt d) !! (canonicalSellerKey seller, p) in
  (∀ seller req, let '(ids, cfgs) := ResolveRequest d seller req in
    (∀ p, p ∈ ids ↔ (req = [] ∨ p ∈ req) ∧ is_Some (rule seller p)) ∧
    ∀ p, cfgs !! p = if bool_decide (p ∈ ids) then no_gate <$> rule seller p else None) ∧
  ∀ walk answer, (lastUpdatedAt d ≤ lastUpdatedAt (refreshDelta walk answer d).1)%Z.
Proof.
  intros H0 Hd. cbn zeta. split; [|intros; apply refreshDelta_watermark].
  assert (mirrors d) as [Hc Hb].
  { induction Hd as [|mode answers d o d' Hd IH Hf Hi|d walk answer Hd IH Hw Hf]; [|by eapply mirrors_start|by apply mirrors_refresh].
    split; [apply coherent_nil|exact (eq_sym H0)]. }
  intros seller req. pose proof (ResolveRequest_spec d seller req Hc) as H. unfold Lookup in H. rewrite Hb in H.
  by destruct (ResolveRequest d seller req).
Qed.
End Served.

(** ** Retries *)

Lemma nextBackoff_bounds cfg wait : (0 < Initial cfg ≤ MaxWait cfg)%Z → (MaxWait cfg < 2 ^ 62)%Z →
  (Initial cfg ≤ wait ≤ MaxWait cfg)%Z → (Initial cfg ≤ nextBackoff wait cfg ≤ MaxWait cfg)%Z.
Proof.
  intros Hi Hm Hw. unfold nextBackoff. destruct (Backoff cfg); [lia|].
  rewrite wrap64_id by (unfold in_int64, int64_min, int64_max; lia). lia.
Qed.

(** The waits of a start that retries stay between the configured bounds, and a bound on the
    attempts is kept: with it, the start ends. *)
Lemma retry_loop_bounds `{RT : Runtime} cfg wait n answers r waits :
  (0 < Initial cfg ≤ MaxWait cfg)%Z → (MaxWait cfg < 2 ^ 62)%Z → (Initial cfg ≤ wait ≤ MaxWait cfg)%Z →
  retry_loop cfg wait n answers = (r, waits) →
  Forall (λ w, Initial cfg ≤ w ≤ MaxWait cfg)%Z waits ∧
  ((0 < n ≤ MaxAttempts cfg)%Z → (Z.of_nat (length waits) ≤ MaxAttempts cfg - n)%Z ∧
    ((MaxAttempts cfg - n < Z.of_nat (length answers))%Z → is_Some r)).
Proof.
  intros Hi Hm. revert wait n r waits. induction answers as [|[a b] answers IH]; intros wait n r waits Hw; cbn [retry_loop].
  { intros [= <- <-]. split; [constructor|]. intros Hn. cbn [length]. split; lia. }
  destruct a as [s|e].
  { intros [= <- <-]. split; [constructor|]. intros Hn. cbn [length]. split; [lia|eauto]. }
  destruct (Z.ltb_spec 0 (MaxAttempts cfg)) as [H0|H0]; cbn [andb];
    [destruct (Z.leb_spec (MaxAttempts cfg) n) as [H1|H1]|].
  - intros [= <- <-]. split; [constructor|]. intros Hn. cbn [length]. split; [lia|eauto].
  - destruct b.
    + intros [= <- <-]. split; [by constructor|]. intros Hn. cbn [length]. split; [lia|eauto].
    + destruct (retry_loop cfg (nextBackoff wait cfg) (n + 1) answers) as [r' waits'] eqn:Er. intros [= <- <-].
      apply IH in Er as [Hf Hb]; [|by apply nextBackoff_bounds]. split; [by constructor|].
      intros Hn. destruct Hb as [Hl Hs]; [lia|]. cbn [length]. split; [lia|]. intros. apply Hs. lia.
  - destruct b.
    + intros [= <- <-]. split; [by constructor|]. intros Hn. exfalso. lia.
    + destruct (retry_loop cfg (nextBackoff wait cfg) (n + 1) answers) as [r' waits'] eqn:Er. intros [= <- <-].
      apply IH in Er as [Hf Hb]; [|by apply nextBackoff_bounds]. split; [by constructor|]. intros Hn. exfalso. lia.
Qed.

Lemma retry_defaults_bounds cfg : (0 < Initial (retry_defaults cfg) ≤ MaxWait (retry_defaults cfg))%Z.
Proof.
  unfold retry_defaults. cbn [Initial MaxWait]. set (i := if (Initial cfg <=? 0)%Z then Second else Initial cfg).
  assert (0 < i)%Z by (unfold i, Second; destruct (Z.leb_spec (Initial cfg) 0); lia).
  destruct (Z.ltb_spec (MaxWait cfg) i); lia.
Qed.

(** ** A concrete history *)

Definition sample_rule : SegmentRule := MkRule ["adults"] [] ["opted-out"].
Definition sample_seller : string := "https://seller.example/agent".
Definition sample_world (t : Time) : rules :=
  if (t <? 100)%Z then ∅ else if (t <? 200)%Z then {[ (sample_seller, "p1") := Some sample_rule ]}
  else {[ (sample_seller, "p2") := None ]}.
(** The source spells the seller in its own way. *)
Definition sample_load : Snapshot := MkSnapshot [MkCfgEntry ("HTTPS://Seller.Example:443/agent", "p1") (Some sample_rule)] 100.
Definition sample_delta : Delta := MkDelta [MkCfgEntry (sample_seller, "p2") None] [("https://SELLER.example/agent", "p1")] 200.
Definition sample_answers : list (result string Snapshot * bool) := [(Err "down", false); (Ok sample_load, false)].
Definition sample_mode : StartMode := StartModeRetry (MkRetry 0 0 BackoffExponential 5).
Definition sample_data : snapshotData :=
  (refreshDelta (RT := ascii_runtime) map_to_list (Ok sample_delta) (buildSnapshot (RT := ascii_runtime) sample_load)).1.

(** The first start fails, and the service runs empty; it is stopped, started again, and refreshed. *)
Lemma sample_served : served (RT := ascii_runtime) sample_world sample_data.
Proof.
  assert (faithful_load (RT := ascii_runtime) sample_world sample_load) as Hload.
  { split.
    - intros e He%list_elem_of_singleton. subst e. vm_compute. reflexivity.
    - intros k [r Hr]. change (sample_world (SnapUpdatedAt sample_load)) with ({[ (sample_seller, "p1") := Some sample_rule ]} : rules) in Hr.
      apply lookup_singleton_Some in Hr as [<- _]. eexists. split; [by left|]. vm_compute. reflexivity. }
  apply served_refresh; [|by intros m|].
  - apply (served_start _ sample_mode sample_answers emptySnapshot (Ok tt)).
    + apply (served_start _ StartModeBestEffort [(Err "down", false)] emptySnapshot (Ok tt)); [apply served_new| |by vm_compute].
      intros s b Hs. set_solver.
    + intros s b Hs. assert (s = sample_load) as -> by (unfold sample_answers in Hs; set_solver). exact Hload.
    + vm_compute. reflexivity.
  - intros δ [= <-]. change (lastUpdatedAt _) with 100%Z. split.
    + vm_compute. discriminate.
    + intros e He%list_elem_of_singleton. subst e. vm_compute. reflexivity.
    + intros k Hk%list_elem_of_singleton. subst k. vm_compute. reflexivity.
    + intros k. change (sample_world (DeltaUpdatedAt sample_delta)) with ({[ (sample_seller, "p2") := None ]} : rules).
      change (sample_world 100) with ({[ (sample_seller, "p1") := Some sample_rule ]} : rules). intros Hk.
      destruct (decide (k = (sample_seller, "p2"))) as [->|H2]; [left; eexists; split; [by left|vm_compute; reflexivity]|].
      destruct (decide (k = (sample_seller, "p1"))) as [->|H1]; [right; eexists; split; [by left|vm_compute; reflexivity]|].
      rewrite !lookup_singleton_ne in Hk by done. done.
Qed.

Example config_mirror_witness :
  let ids := (ResolveRequest (RT := ascii_runtime) sample_data sample_seller []).1 in "p2" ∈ ids ∧ ∀ p, p ∈ ids → p = "p2".
Proof.
  cbv zeta.
  destruct (config_mirror (RT := ascii_runtime) sample_world sample_data eq_refl sample_served) as [H _].
  specialize (H sample_seller []). cbv beta zeta in H.
  destruct (ResolveRequest (RT := ascii_runtime) sample_data sample_seller []) as [ids cfgs] eqn:E. destruct H as [H _]. clear E.
  cbn [fst]. cut (∀ p, p ∈ ids ↔ p = "p2"); [intros Hp; split; [apply Hp; reflexivity|apply Hp]|].
  intros p. rewrite H.
  assert (lastUpdatedAt sample_data = 200%Z) as -> by (vm_compute; reflexivity).
  change (sample_world 200) with ({[ (sample_seller, "p2") := None ]} : rules).
  assert (canonicalSellerKey (RT := ascii_runtime) sample_seller = sample_seller) as -> by (vm_compute; reflexivity).
  destruct (decide (p = "p2")) as [->|Hp].
  - rewrite lookup_singleton_eq. split; [reflexivity|]. intros _. split; [left; reflexivity|eexists; reflexivity].
  - rewrite lookup_singleton_ne by congruence. split; [intros [_ [r Hr]]; discriminate Hr|intros He; destruct (Hp He)].
Defined.
