(* ===== verification/Membership.v ===== *)
(** * Membership: frequency caps and audience membership over a hash store

    [targeting/identityhash], [targeting/fcap], [targeting/audience] and
    [targeting/identityagent/unionstore.go].  A store is known by its interface: a state,
    the operations the services use and the laws that they rely on.  The in-memory stores
    and the union of two stores implement it. *)
From stdpp Require Import gmap strings.
From S2P Require Import Prelude GoStrings Unicode Bytes Float StrictJson.
From stdpp Require Import options.

(** ** Frequency caps *)

Record Field := MkField { SellerAgentURL : string; FieldPackageID : string }.
Record CapBatch := MkCapBatch { UserIdentity : string; CapFields : list Field; CapExpireAt : Time }.
Record FieldsBatch := MkFieldsBatch { BatchKey : string; BatchFields : list string; BatchExpireAt : Time }.
(** Key and field. *)
Abbreviation FieldLookup := (string * string)%type (only parsing).

(** [fcap.Store]; the clock is read by the call. *)
Class FcapStore (S : Type) := {
  SetFieldsBatch : S → list FieldsBatch → result string S;
  FieldExistsBatch : S → Time → list FieldLookup → result string (list bool);
}.

(** One millisecond: stores may drop what an expiry has below it, as the one on Valkey does, whose
    expiries are in milliseconds. *)
Definition granularity : Duration := 1000000%Z.

(** What the service relies on.  [holds]: the field is set and has not expired.  A field that was
    set holds up to the last millisecond before its expiry, unless a later batch of the same write
    sets it again; what a write does not set stays as it is. *)
Class FcapStoreSpec (S : Type) `{FcapStore S} := {
  holds : S → Time → string → string → bool;
  exists_holds s now ls bs : FieldExistsBatch s now ls = Ok bs → bs = map (λ l, holds s now l.1 l.2) ls;
  set_holds s pre b post s' now f : SetFieldsBatch s (pre ++ b :: post) = Ok s' → f ∈ BatchFields b →
    (∀ b', b' ∈ post → BatchKey b' = BatchKey b → f ∉ BatchFields b') →
    (now + granularity ≤ BatchExpireAt b)%Z → holds s' now (BatchKey b) f = true;
  set_frame s bs s' now k f : SetFieldsBatch s bs = Ok s' →
    (∀ b, b ∈ bs → BatchKey b = k → f ∉ BatchFields b) → holds s' now k f = holds s now k f;
}.

Definition fieldValue : string := "1".

Section Fcap.
Context `{RT : Runtime}.

(** [identityhash.Hash]. *)
Definition identity_hash (token : string) : string := hex_string (stake 16 (Sha256 token)).

Definition identityKey (userIdentity : string) : string := "fcap:" +:+ identity_hash userIdentity.
Definition fieldString (f : Field) : string := SellerAgentURL f +:+ ":" +:+ FieldPackageID f.

Context {S : Type} `{ST : FcapStore S}.

Definition cap_batch (b : CapBatch) : FieldsBatch :=
  MkFieldsBatch (identityKey (UserIdentity b)) (map fieldString (CapFields b)) (CapExpireAt b).

Definition RecordCap (s : S) (userIdentity : string) (fields : list Field) (expireAt : Time) : result string S :=
  if bool_decide (fields = []) then Ok s
  else SetFieldsBatch s [cap_batch (MkCapBatch userIdentity fields expireAt)].

Definition RecordCapBatch (s : S) (batches : list CapBatch) : result string S :=
  let storeBatches := map cap_batch (filter (λ b, CapFields b ≠ []) batches) in
  if bool_decide (storeBatches = []) then Ok s else SetFieldsBatch s storeBatches.

Definition IsCappedBatch (s : S) (now : Time) (lookups : list (string * Field)) : result string (list bool) :=
  if bool_decide (lookups = []) then Ok []
  else FieldExistsBatch s now (map (λ l, (identityKey l.1, fieldString l.2)) lookups).

(** The cross product, identity by identity. *)
Definition cross (identities : list string) (fields : list Field) : list FieldLookup :=
  id ← identities; f ← fields; [(identityKey id, fieldString f)].

(** [out[j] = true] when some row has it; a result that is too short is a panic. *)
Fixpoint or_rows (rows m : nat) (results out : list bool) : option (list bool) :=
  match rows with
  | 0 => Some out
  | Datatypes.S rows =>
      if (length results <? m)%nat then None
      else or_rows rows m (drop m results) (zip_with orb out (take m results))
  end.

Definition IsCappedAny (s : S) (now : Time) (identities : list string) (fields : list Field) : result string (list bool) :=
  if bool_decide (fields = []) then Ok [] else
  if bool_decide (identities = []) then Ok (replicate (length fields) false) else
  if (int64_max / Z.of_nat (length fields) <? Z.of_nat (length identities))%Z
  then Err "fcap: identity-field cross-product overflows" else
  results ← FieldExistsBatch s now (cross identities fields);
  opt_err "index out of range" (or_rows (length identities) (length fields) results (replicate (length fields) false)).
End Fcap.

(** ** The in-memory store *)

(** [MockStore]: the expiry of every field; the zero time is no expiry. *)
Record MockFcap := MkMock { mockFields : gmap (string * string) Time }.

Definition mock_SetFields (m : MockFcap) (b : FieldsBatch) : MockFcap :=
  MkMock (foldl (λ m f, <[(BatchKey b, f) := BatchExpireAt b]> m) (mockFields m) (BatchFields b)).

Definition mock_exists (m : MockFcap) (now : Time) (key field : string) : bool :=
  match mockFields m !! (key, field) with
  | Some e => IsZero e || negb (After now e)
  | None => false
  end.

#[export] Instance mock_fcap : FcapStore MockFcap := {
  SetFieldsBatch m bs := Ok (foldl mock_SetFields m bs);
  FieldExistsBatch m now ls := Ok (map (λ l, mock_exists m now l.1 l.2) ls);
}.

(** ** Two stores while data moves between them *)

Record unionFcapStore (S : Type) := MkUnion { primary : S; fallback : S }.
Arguments MkUnion {S}. Arguments primary {S}. Arguments fallback {S}.

(** Both sides' answers, or an error. *)
Definition union_answers (prim fall : result string (list bool)) (n : nat) : result string (list bool) :=
  match prim, fall with
  | Ok p, Ok f =>
      if negb (length p =? n)%nat || negb (length f =? n)%nat then Err "union store: backing result length mismatch"
      else Ok (zip_with orb p f)
  | _, _ => Err "union store: a side failed"
  end.

#[export] Instance union_fcap {S} `{FcapStore S} : FcapStore (unionFcapStore S) := {
  SetFieldsBatch u bs := (λ p, MkUnion p (fallback u)) <$> SetFieldsBatch (primary u) bs;
  FieldExistsBatch u now ls :=
    if bool_decide (ls = []) then Ok []
    else union_answers (FieldExistsBatch (primary u) now ls) (FieldExistsBatch (fallback u) now ls) (length ls);
}.

(** ** Audiences *)

(** A score is a finite number, or not finite. *)
Record Member := MkMember { MemberToken : string; Score : option float }.
Record AudienceUpsert := MkUpsert { AudienceID : string; AddMembers : list Member; RemoveTokens : list string }.
Record HSetItem := MkHSet { SetKey : string; SetField : string; SetValue : string }.
Record HDelItem := MkHDel { DelKey : string; DelFields : list string }.

(** [audience.Store]. *)
Class AudienceStore (S : Type) := {
  HSetBatch : S → list HSetItem → result string S;
  HDelBatch : S → list HDelItem → result string S;
  HExistsBatch : S → list (string * string) → result string (list bool);
}.

Class AudienceStoreSpec (S : Type) `{AudienceStore S} := {
  member : S → string → string → bool;
  hexists_member s ls bs : HExistsBatch s ls = Ok bs → bs = map (λ l, member s l.1 l.2) ls;
  hset_member s items s' k f : HSetBatch s items = Ok s' →
    member s' k f = bool_decide (Exists (λ i, SetKey i = k ∧ SetField i = f) items) || member s k f;
  hdel_member s items s' k f : HDelBatch s items = Ok s' →
    member s' k f = member s k f && negb (bool_decide (Exists (λ i, DelKey i = k ∧ f ∈ DelFields i) items));
}.

(** [strconv.FormatFloat (f, 'g', -1, 64)]. *)
Definition FormatFloat_g (f : float) : string :=
  let '(d, k) := shortest (fman f) (fexp f) in
  let digits := TrimRight (λ c, beq c "0") (Utoa d) in
  let x := (k + Z.of_nat (len (Utoa d)) - 1)%Z in
  let dp := Z.to_nat (x + 1) in
  if fzero f then (if fneg f then "-" else "") +:+ "0" else
  if ((x <? -4) || (6 <=? x))%Z then FormatFloat_e f else
  (if fneg f then "-" else "") +:+
  (if (dp =? 0)%nat then "0" else stake dp digits +:+ Repeat "0" (dp - len digits)) +:+
  (if (len digits <=? dp)%nat && (0 <=? x)%Z then ""
   else "." +:+ Repeat "0" (Z.to_nat (- (x + 1))) +:+ sdrop dp digits).

Example scores : map (λ s, FormatFloat_g <$> ParseFloat s) ["0"; "1"; "0.25"; "-12.5"; "1000000"; "0.00001"; "120"; "0.001"] =
  map Some ["0"; "1"; "0.25"; "-12.5"; "1e+06"; "1e-05"; "120"; "0.001"].
Proof. vm_compute. reflexivity. Qed.

Definition encodeScore : float → string := FormatFloat_g.

Section Audience.
Context `{RT : Runtime}.

Definition userKey (token : string) : string := "audience:user:" +:+ identity_hash token.

Definition set_items (u : AudienceUpsert) : list HSetItem :=
  map (λ m, MkHSet (userKey (MemberToken m)) (AudienceID u) (default "" (encodeScore <$> Score m))) (AddMembers u).

(** [hdelByUserKey]: the fields to delete of every key, in the order of the upserts. *)
Definition del_pairs (upserts : list AudienceUpsert) : list (string * string) :=
  u ← upserts; map (λ t, (userKey t, AudienceID u)) (RemoveTokens u).
Definition hdelByUserKey (upserts : list AudienceUpsert) : gmap string (list string) :=
  foldl (λ m p, <[p.1 := default [] (m !! p.1) ++ [p.2]]> m) ∅ (del_pairs upserts).

Context {S : Type} `{ST : AudienceStore S}.

(** [walk]: the order of one [range] over the map of deletions. *)
Definition UpsertBatch (walk : gmap string (list string) → list (string * list string)) (s : S) (upserts : list AudienceUpsert) :
    result string S :=
  if bool_decide (upserts = []) then Ok s else
  _ ← guard_err (forallb (λ u, forallb (λ m, bool_decide (is_Some (Score m))) (AddMembers u)) upserts) "audience: non-finite score";
  let sets := upserts ≫= set_items in
  let dels := hdelByUserKey upserts in
  s ← (if bool_decide (dels = ∅) then Ok s else HDelBatch s (map (λ kf, MkHDel kf.1 kf.2) (walk dels)));
  if bool_decide (sets = []) then Ok s else HSetBatch s sets.

Definition Upsert (walk : gmap string (list string) → list (string * list string)) (s : S) (u : AudienceUpsert) : result string S :=
  if bool_decide (AddMembers u = []) && bool_decide (RemoveTokens u = []) then Ok s else UpsertBatch walk s [u].

(** Token and audience. *)
Definition IsMemberBatch (s : S) (lookups : list (string * string)) : result string (list bool) :=
  if bool_decide (lookups = []) then Ok [] else HExistsBatch s (map (λ l, (userKey l.1, l.2)) lookups).
End Audience.

(** [audience.MockStore]. *)
Record MockAudience := MkMockAudience { hashes : gmap (string * string) string }.

Definition hset (m : MockAudience) (i : HSetItem) : MockAudience := MkMockAudience (<[(SetKey i, SetField i) := SetValue i]> (hashes m)).
Definition hdel (m : MockAudience) (i : HDelItem) : MockAudience :=
  MkMockAudience (foldl (λ m f, delete (DelKey i, f) m) (hashes m) (DelFields i)).

#[export] Instance mock_audience : AudienceStore MockAudience := {
  HSetBatch m items := Ok (foldl hset m items);
  HDelBatch m items := Ok (foldl hdel m items);
  HExistsBatch m ls := Ok (map (λ l, bool_decide (is_Some (hashes m !! l))) ls);
}.

#[export] Instance union_audience {S} `{AudienceStore S} : AudienceStore (unionFcapStore S) := {
  HSetBatch u items := (λ p, MkUnion p (fallback u)) <$> HSetBatch (primary u) items;
  HDelBatch u items := (λ p, MkUnion p (fallback u)) <$> HDelBatch (primary u) items;
  HExistsBatch u ls :=
    if bool_decide (ls = []) then Ok []
    else union_answers (HExistsBatch (primary u) ls) (HExistsBatch (fallback u) ls) (length ls);
}.

(** ** Caps: what is read is what was recorded *)

Section FcapThm.
Context `{RT : Runtime} {S : Type} {ST : FcapStore S} {SP : FcapStoreSpec S}.

Lemma or_rows_cross (h : FieldLookup → bool) ids fields (g : Field → bool) :
  or_rows (length ids) (length fields) (map h (cross ids fields)) (map g fields) =
    Some (map (λ f, g f || existsb (λ id, h (identityKey id, fieldString f)) ids) fields).
Proof.
  revert g. induction ids as [|id ids IH]; intros g; cbn [length or_rows existsb].
  { f_equal. apply map_ext. intros f. by rewrite orb_false_r. }
  assert (cross (id :: ids) fields = map (λ f, (identityKey id, fieldString f)) fields ++ cross ids fields) as ->.
  { unfold cross. cbn [mbind list_bind]. done. }
  rewrite map_app, length_app, !length_map.
  destruct (Nat.ltb_spec (length fields + length (cross ids fields)) (length fields)); [lia|].
  rewrite drop_app_length', take_app_length' by (by rewrite !length_map). rewrite map_map.
  assert (zip_with orb (map g fields) (map (λ f, h (identityKey id, fieldString f)) fields) =
          map (λ f, g f || h (identityKey id, fieldString f)) fields) as ->.
  { clear. induction fields as [|f fields IHf]; [done|]. cbn [map zip_with]. f_equal. exact IHf. }
  rewrite IH. f_equal. apply map_ext. intros f. by rewrite orb_assoc.
Qed.

(** What [IsCappedAny] answers: of every field, whether the store holds it for one of the identities. *)
Lemma IsCappedAny_exact s now ids fields out :
  IsCappedAny s now ids fields = Ok out →
  out = map (λ f, existsb (λ id, holds s now (identityKey id) (fieldString f)) ids) fields.
Proof using SP.
  unfold IsCappedAny. case_bool_decide as Hf; [subst; by intros [= <-]|].
  case_bool_decide as Hi.
  { subst ids. intros [= <-]. clear Hf. induction fields as [|f fields IH]; [done|]. cbn. f_equal. exact IH. }
  destruct (_ <? _)%Z; [done|]. intros (rs & Hrs & Hor)%bind_Ok. apply opt_err_Ok in Hor. apply exists_holds in Hrs as ->.
  assert (replicate (length fields) false = map (λ _, false) fields) as E
    by (clear; induction fields as [|f fields IH]; [done|]; cbn; by f_equal).
  rewrite E, or_rows_cross in Hor. injection Hor as <-. by apply map_ext.
Qed.

(** A read that answers is not lost. *)
Lemma IsCappedAny_total s now ids fields :
  (Z.of_nat (length ids) ≤ int64_max / Z.max 1 (Z.of_nat (length fields)))%Z →
  is_ok (FieldExistsBatch s now (cross ids fields)) = true → is_ok (IsCappedAny s now ids fields) = true.
Proof using SP.
  intros Hn Hr. unfold IsCappedAny. case_bool_decide as Hf; [done|]. case_bool_decide as Hi; [done|].
  assert (0 < length fields) by (destruct fields; [done|cbn; lia]).
  rewrite Z.max_r in Hn by lia. destruct (Z.ltb_spec (int64_max / Z.of_nat (length fields)) (Z.of_nat (length ids))); [lia|].
  destruct (FieldExistsBatch s now (cross ids fields)) as [rs|] eqn:E; [|done]. cbn [mbind result_bind].
  apply exists_holds in E as ->.
  assert (replicate (length fields) false = map (λ _, false) fields) as ->
    by (clear; induction fields as [|f fields IH]; [done|]; cbn; by f_equal).
  by rewrite or_rows_cross.
Qed.

(** A history of calls that succeeded: of [RecordCapBatch], and of [RecordCap] with one batch. *)
Fixpoint record_all (s : S) (calls : list (list CapBatch)) : result string S :=
  match calls with
  | [] => Ok s
  | bs :: calls => s ← RecordCapBatch s bs; record_all s calls
  end.

Lemma RecordCap_batch s u fields e : RecordCap s u fields e = RecordCapBatch s [MkCapBatch u fields e].
Proof using Type.
  unfold RecordCap, RecordCapBatch. rewrite filter_cons, filter_nil. cbn [CapFields].
  destruct (bool_decide_reflect (fields = [])) as [->|Hf]; [done|]. by rewrite decide_True.
Qed.

(** The batch records the field for the identity: in the store's names. *)
Definition records (id : string) (f : Field) (b : CapBatch) : Prop :=
  identityKey (UserIdentity b) = identityKey id ∧ fieldString f ∈ map fieldString (CapFields b).
#[local] Instance records_dec id f b : Decision (records id f b).
Proof. unfold records. apply _. Defined.

(** The expiry recorded last. *)
Definition last_expiry (id : string) (f : Field) (history : list CapBatch) : option Time :=
  CapExpireAt <$> last (filter (records id f) history).

Lemma last_filter_split {A} (P : A → Prop) `{∀ x, Decision (P x)} l x : last (filter P l) = Some x →
  P x ∧ ∃ pre post, l = pre ++ x :: post ∧ ∀ y, y ∈ post → ¬ P y.
Proof using Type.
  induction l as [|y l IH]; [done|]. rewrite filter_cons. destruct (decide (P y)) as [Hy|Hy].
  - destruct (filter P l) as [|z k] eqn:E.
    + intros [= <-]. split; [done|]. exists [], l. split; [done|]. intros z Hz HP.
      assert (z ∈ filter P l) as Hin by (by apply list_elem_of_filter). rewrite E in Hin. by apply elem_of_nil in Hin.
    + rewrite last_cons_cons. intros (HP & pre & post & -> & Hn)%IH. split; [done|]. by exists (y :: pre), post.
  - intros (HP & pre & post & -> & Hn)%IH. split; [done|]. by exists (y :: pre), post.
Qed.

Lemma cap_batches_frame (id : string) (f : Field) bs :
  (∀ b, b ∈ bs → ¬ records id f b) → ∀ c, c ∈ map cap_batch (filter (λ b, CapFields b ≠ []) bs) →
  BatchKey c = identityKey id → fieldString f ∉ BatchFields c.
Proof using Type.
  intros Hn c (b & -> & [_ Hb]%list_elem_of_filter)%list_elem_of_fmap Hk Hf. by apply (Hn b Hb).
Qed.

(** One call. *)
Lemma RecordCapBatch_holds s bs s' now id f : RecordCapBatch s bs = Ok s' →
  match last_expiry id f bs with
  | Some e => (now + granularity ≤ e)%Z → holds s' now (identityKey id) (fieldString f) = true
  | None => holds s' now (identityKey id) (fieldString f) = holds s now (identityKey id) (fieldString f)
  end.
Proof using SP.
  unfold RecordCapBatch, last_expiry. intros Hr. destruct (last (filter (records id f) bs)) as [b|] eqn:El; cbn [fmap option_fmap option_map].
  - apply last_filter_split in El as ([Hk Hf] & pre & post & -> & Hn). intros Hnow.
    rewrite filter_app, filter_cons_True in Hr by (intros E; rewrite E in Hf; by apply elem_of_nil in Hf).
    rewrite map_app in Hr. cbn [map] in Hr. rewrite bool_decide_eq_false_2 in Hr by (intros E; by apply app_eq_nil in E as [_ ?]).
    rewrite <- Hk. apply (set_holds _ _ (cap_batch b) _ _ now (fieldString f) Hr); [done| |done].
    intros c Hc Ek. eapply cap_batches_frame; [exact Hn|exact Hc|]. by rewrite Ek.
  - case_bool_decide; [by injection Hr as <-|]. apply (set_frame _ _ _ now _ _ Hr). apply cap_batches_frame.
    intros b Hb Hrec. apply last_None in El. assert (b ∈ filter (records id f) bs) as Hin by (by apply list_elem_of_filter).
    rewrite El in Hin. by apply elem_of_nil in Hin.
Qed.

Lemma record_all_holds calls s s' now id f : record_all s calls = Ok s' →
  match last_expiry id f (concat calls) with
  | Some e => (now + granularity ≤ e)%Z → holds s' now (identityKey id) (fieldString f) = true
  | None => holds s' now (identityKey id) (fieldString f) = holds s now (identityKey id) (fieldString f)
  end.
Proof using SP.
  revert s. induction calls as [|bs calls IH]; intros s; cbn [record_all concat]; [by intros [= <-]|].
  intros (s1 & Hr & Ha)%bind_Ok. specialize (IH s1 Ha). pose proof (RecordCapBatch_holds s bs s1 now id f Hr) as H1.
  unfold last_expiry in *. rewrite filter_app, last_app.
  destruct (last (filter (records id f) (concat calls))) as [b|]; cbn [fmap option_fmap option_map] in *; [done|].
  destruct (last (filter (records id f) bs)) as [b|]; cbn [fmap option_fmap option_map] in *; [intros Hnow; rewrite IH|rewrite IH]; auto.
Qed.

(** C33: after any history of recording calls a field is capped for an identity up to the last
    millisecond before the expiry that was recorded last for the two, whatever was recorded before
    it and for others, and whatever other identities a check names; a later call with an earlier
    expiry shortens the cap.  A field that was recorded for none of the identities of a check is
    as it was before the history.  Identities and fields are the same when their names in the store
    are. *)
Theorem recorded_cap_enforced s calls s' now ids fields f out j :
  record_all s calls = Ok s' → fields !! j = Some f → IsCappedAny s' now ids fields = Ok out →
  (∀ id e, id ∈ ids → last_expiry id f (concat calls) = Some e → (now + granularity ≤ e)%Z → out !! j = Some true) ∧
  (∀ out0, (∀ id, id ∈ ids → last_expiry id f (concat calls) = None) → IsCappedAny s now ids fields = Ok out0 →
     out !! j = out0 !! j).
Proof using SP.
  intros Hr Hj Ho. apply IsCappedAny_exact in Ho as ->. rewrite list_lookup_fmap, Hj. cbn [fmap option_fmap option_map].
  pose proof (λ id, record_all_holds calls s s' now id f Hr) as Hh. split.
  - intros id e Hid He Hnow. f_equal. apply existsb_exists. exists id. split; [by apply list_elem_of_In|].
    specialize (Hh id). rewrite He in Hh. by apply Hh.
  - intros out0 Hn Ho%IsCappedAny_exact. subst out0. rewrite list_lookup_fmap, Hj. cbn [fmap option_fmap option_map]. f_equal.
    clear -Hn Hh. induction ids as [|id ids IH]; [done|]. cbn [existsb]. f_equal.
    + specialize (Hh id). by rewrite Hn in Hh by (by left).
    + apply IH. intros id' Hid. apply Hn. by right.
Qed.
End FcapThm.

(** ** The stores keep the laws *)

Lemma mock_fields_spec b m kf :
  mockFields (mock_SetFields m b) !! kf =
    if bool_decide (kf.1 = BatchKey b ∧ kf.2 ∈ BatchFields b) then Some (BatchExpireAt b) else mockFields m !! kf.
Proof.
  unfold mock_SetFields. cbn [mockFields]. generalize (mockFields m). intros m0. revert m0.
  induction (BatchFields b) as [|f l IH]; intros m0; cbn [foldl].
  { rewrite bool_decide_eq_false_2; [done|]. intros [_ H]. by apply elem_of_nil in H. }
  rewrite IH. destruct kf as [k g]. cbn [fst snd].
  destruct (decide (k = BatchKey b ∧ g ∈ l)) as [H|H].
  - rewrite !bool_decide_eq_true_2; [done| |done]. destruct H. split; [done|by right].
  - rewrite (bool_decide_eq_false_2 _ H). destruct (decide ((k, g) = (BatchKey b, f))) as [[= -> ->]|Hne].
    + rewrite lookup_insert_eq, bool_decide_eq_true_2; [done|]. split; [done|by left].
    + rewrite lookup_insert_ne by congruence. rewrite bool_decide_eq_false_2; [done|].
      intros [-> [->|Hl]%elem_of_cons]; [by apply Hne|by apply H].
Qed.

Lemma mock_fields_frame bs m k f :
  (∀ b, b ∈ bs → BatchKey b = k → f ∉ BatchFields b) → mockFields (foldl mock_SetFields m bs) !! (k, f) = mockFields m !! (k, f).
Proof.
  revert m. induction bs as [|b bs IH]; intros m H; [done|]. cbn [foldl]. rewrite IH by (intros b' Hb'; apply H; by right).
  rewrite mock_fields_spec, bool_decide_eq_false_2; [done|]. cbn. intros [-> Hf]. exact (H b ltac:(by left) eq_refl Hf).
Qed.

#[export] Instance mock_fcap_spec : FcapStoreSpec MockFcap.
Proof.
  refine (Build_FcapStoreSpec _ _ mock_exists _ _ _).
  - intros s now ls bs [= <-]. done.
  - intros s pre b post s' now f [= <-] Hf Hpost Hnow. unfold mock_exists. rewrite foldl_app. cbn [foldl].
    rewrite mock_fields_frame by (intros b' Hb' Hk; eauto).
    rewrite mock_fields_spec, bool_decide_eq_true_2 by done. unfold After. apply orb_true_iff. right.
    unfold granularity in Hnow. by destruct (Z.ltb_spec (BatchExpireAt b) now); [lia|].
  - intros s bs s' now k f [= <-] Hn. unfold mock_exists. by rewrite mock_fields_frame.
Defined.

Lemma zip_or_map {A} (f g : A → bool) l : zip_with orb (map f l) (map g l) = map (λ x, f x || g x) l.
Proof. induction l as [|x l IH]; [done|]. cbn. f_equal. exact IH. Qed.

(** Neither side's answer is dropped: what one of them holds, the union holds. *)
Lemma union_answers_Ok prim fall n out :
  union_answers prim fall n = Ok out →
  ∃ p f, prim = Ok p ∧ fall = Ok f ∧ length p = n ∧ length f = n ∧ out = zip_with orb p f.
Proof.
  unfold union_answers. destruct prim as [p|], fall as [f|]; try done. intros H.
  destruct (Nat.eqb_spec (length p) n), (Nat.eqb_spec (length f) n); cbn in H; try done. injection H as <-. eauto 10.
Qed.

#[export] Instance union_fcap_spec {S} `{FcapStoreSpec S} : FcapStoreSpec (unionFcapStore S).
Proof.
  refine (Build_FcapStoreSpec _ _ (λ u now k f, holds (primary u) now k f || holds (fallback u) now k f) _ _ _).
  - intros u now ls bs. cbn [FieldExistsBatch union_fcap]. case_bool_decide as El; [subst; by intros [= <-]|].
    intros (p & f & Hp & Hf & _ & _ & ->)%union_answers_Ok. apply exists_holds in Hp as ->, Hf as ->. apply zip_or_map.
  - intros u pre b post u' now f Hs Hf Hpost Hnow. cbn [SetFieldsBatch union_fcap] in Hs.
    destruct (SetFieldsBatch (primary u) (pre ++ b :: post)) as [p|] eqn:Ep; [|done]. injection Hs as <-. cbn [primary fallback].
    apply orb_true_iff. left. by eapply set_holds.
  - intros u bs u' now k f Hs Hn. cbn [SetFieldsBatch union_fcap] in Hs.
    destruct (SetFieldsBatch (primary u) bs) as [p|] eqn:Ep; [|done]. injection Hs as <-. cbn [primary fallback].
    f_equal. by eapply set_frame.
Defined.

Lemma hset_spec items m kf :
  is_Some (hashes (foldl hset m items) !! kf) ↔ Exists (λ i, SetKey i = kf.1 ∧ SetField i = kf.2) items ∨ is_Some (hashes m !! kf).
Proof.
  revert m. induction items as [|i items IH]; intros m; cbn [foldl]; [by rewrite Exists_nil; tauto|].
  rewrite IH, Exists_cons. unfold hset at 1. cbn [hashes]. destruct kf as [k f]. cbn [fst snd].
  destruct (decide ((SetKey i, SetField i) = (k, f))) as [E|Hne].
  - rewrite E, lookup_insert_eq. injection E as Ek Ef. split; [intros _; by left; left|intros _; right; eauto].
  - rewrite lookup_insert_ne by done. assert (¬ (SetKey i = k ∧ SetField i = f)) by (intros [E1 E2]; congruence). tauto.
Qed.

Lemma hdel_spec items m kf :
  is_Some (hashes (foldl hdel m items) !! kf) ↔ is_Some (hashes m !! kf) ∧ ¬ Exists (λ i, DelKey i = kf.1 ∧ kf.2 ∈ DelFields i) items.
Proof.
  revert m. induction items as [|i items IH]; intros m; cbn [foldl]; [rewrite Exists_nil; tauto|].
  rewrite IH, Exists_cons. destruct kf as [k f]. cbn [fst snd].
  assert (is_Some (hashes (hdel m i) !! (k, f)) ↔ is_Some (hashes m !! (k, f)) ∧ ¬ (DelKey i = k ∧ f ∈ DelFields i)) as E; [|rewrite E; tauto].
  unfold hdel. cbn [hashes]. generalize (hashes m). clear. induction (DelFields i) as [|g l IHl]; intros m; cbn [foldl].
  { split; [intros H; split; [done|]; intros [_ H']; by apply elem_of_nil in H'|tauto]. }
  rewrite IHl, elem_of_cons. destruct (decide ((DelKey i, g) = (k, f))) as [[= <- ->]|Hne].
  - rewrite lookup_delete_eq. split; [intros [[? ?] _]; done|]. intros [_ Hn]. exfalso. apply Hn. by split; [|left].
  - rewrite lookup_delete_ne by done. split; [|naive_solver]. intros [? Hn]. split; [done|].
    intros [Ek [->|?]]; [apply Hne; congruence|by apply Hn].
Qed.

#[export] Instance mock_audience_spec : AudienceStoreSpec MockAudience.
Proof.
  refine (Build_AudienceStoreSpec _ _ (λ m k f, bool_decide (is_Some (hashes m !! (k, f)))) _ _ _).
  - intros s ls bs [= <-]. apply map_ext. by intros [k f].
  - intros s items s' k f [= <-]. apply Bool.eq_iff_eq_true. rewrite orb_true_iff, !bool_decide_eq_true. apply (hset_spec items s (k, f)).
  - intros s items s' k f [= <-]. apply Bool.eq_iff_eq_true. rewrite andb_true_iff, negb_true_iff, bool_decide_eq_false, !bool_decide_eq_true.
    apply (hdel_spec items s (k, f)).
Defined.

(** ** Audiences: what is read is what was upserted *)

Section AudienceThm.
Context `{RT : Runtime} {S : Type} {ST : AudienceStore S} {SP : AudienceStoreSpec S}.

Lemma hdel_by_user upserts k f :
  f ∈ default [] (hdelByUserKey upserts !! k) ↔ ∃ u t, u ∈ upserts ∧ t ∈ RemoveTokens u ∧ userKey t = k ∧ AudienceID u = f.
Proof.
  assert ((k, f) ∈ del_pairs upserts ↔ ∃ u t, u ∈ upserts ∧ t ∈ RemoveTokens u ∧ userKey t = k ∧ AudienceID u = f) as <-.
  { unfold del_pairs. rewrite list_elem_of_bind. split.
    - intros (u & Hp & Hu). apply list_elem_of_fmap in Hp as (t & [= -> ->] & Ht). by exists u, t.
    - intros (u & t & Hu & Ht & <- & <-). exists u. split; [|done]. apply list_elem_of_fmap. by exists t. }
  unfold hdelByUserKey. induction (del_pairs upserts) as [|[k' f'] l IH] using rev_ind; [cbn; set_solver|].
  rewrite foldl_app, elem_of_app, list_elem_of_singleton, <- IH. cbn [foldl fst snd].
  destruct (decide (k = k')) as [->|Hne].
  - rewrite lookup_insert_eq. cbn [default from_option id]. rewrite elem_of_app, list_elem_of_singleton. naive_solver.
  - rewrite lookup_insert_ne by done. naive_solver.
Qed.

Lemma set_items_elem upserts k f :
  Exists (λ i, SetKey i = k ∧ SetField i = f) (upserts ≫= set_items) ↔
  ∃ u m, u ∈ upserts ∧ m ∈ AddMembers u ∧ userKey (MemberToken m) = k ∧ AudienceID u = f.
Proof.
  rewrite Exists_exists. split.
  - intros (i & Hi & Hk & Hf). apply list_elem_of_bind in Hi as (u & Hi & Hu).
    apply list_elem_of_fmap in Hi as (m & -> & Hm). by exists u, m.
  - intros (u & m & Hu & Hm & <- & <-). eexists. split; [apply list_elem_of_bind; exists u; split; [|done]; apply list_elem_of_fmap; by exists m|done].
Qed.

Lemma del_items_elem walk upserts k f : (∀ m, walk m ≡ₚ map_to_list m) →
  Exists (λ i, DelKey i = k ∧ f ∈ DelFields i) (map (λ kf, MkHDel kf.1 kf.2) (walk (hdelByUserKey upserts))) ↔
  ∃ u t, u ∈ upserts ∧ t ∈ RemoveTokens u ∧ userKey t = k ∧ AudienceID u = f.
Proof.
  intros Hw. rewrite <- hdel_by_user, Exists_exists. split.
  - intros (i & Hi & Hk & Hf). apply list_elem_of_fmap in Hi as ([k' fs] & -> & Hi). rewrite (Hw _) in Hi.
    apply elem_of_map_to_list in Hi. cbn in Hk, Hf. subst k'. by rewrite Hi.
  - destruct (hdelByUserKey upserts !! k) as [fs|] eqn:E; cbn [default from_option id]; [|by intros Hn%elem_of_nil].
    intros Hf. exists (MkHDel k fs). split; [|done]. apply list_elem_of_fmap. exists (k, fs). split; [done|].
    rewrite (Hw _). by apply elem_of_map_to_list.
Qed.

(** after a batch of upserts a user is a member of an audience exactly when the batch
    adds it, or it was a member before and the batch does not remove it: an addition wins
    over a removal in one batch, and other audiences and users are as they were. *)
Theorem upsert_exact walk s upserts s' token audience lookups out j :
  (∀ m, walk m ≡ₚ map_to_list m) → UpsertBatch walk s upserts = Ok s' →
  IsMemberBatch s' lookups = Ok out → lookups !! j = Some (token, audience) →
  out !! j = Some true ↔
    (∃ u m, u ∈ upserts ∧ m ∈ AddMembers u ∧ userKey (MemberToken m) = userKey token ∧ AudienceID u = audience) ∨
    (member s (userKey token) audience = true ∧
     ¬ ∃ u t, u ∈ upserts ∧ t ∈ RemoveTokens u ∧ userKey t = userKey token ∧ AudienceID u = audience).
Proof using SP.
  intros Hw Hu Ho Hj.
  assert (out = map (λ l, member s' (userKey l.1) l.2) lookups) as ->.
  { unfold IsMemberBatch in Ho. case_bool_decide as El; [subst; by injection Ho as <-|].
    apply hexists_member in Ho as ->. by rewrite map_map. }
  rewrite list_lookup_fmap, Hj. cbn [fmap option_fmap option_map fst snd].
  rewrite (inj_iff Some). unfold UpsertBatch in Hu. case_bool_decide as Eu.
  { subst. injection Hu as <-. split; [|by intros [(? & ? & H%elem_of_nil & _)|[? _]]]. intros Hm. right. split; [done|].
    by intros (? & ? & H%elem_of_nil & _). }
  apply bind_Ok in Hu as (_u & _ & Hu). apply bind_Ok in Hu as (s1 & Hd & Hs).
  rewrite <- (set_items_elem upserts), <- (del_items_elem walk upserts) by done.
  assert (member s1 (userKey token) audience = member s (userKey token) audience &&
    negb (bool_decide (Exists (λ i, DelKey i = userKey token ∧ audience ∈ DelFields i)
      (map (λ kf, MkHDel kf.1 kf.2) (walk (hdelByUserKey upserts)))))) as E1.
  { destruct (bool_decide_reflect (hdelByUserKey upserts = ∅)) as [E|E].
    - injection Hd as <-. rewrite E, bool_decide_eq_false_2, andb_true_r; [done|].
      rewrite (Hw ∅), map_to_list_empty. intros H. by apply Exists_nil in H.
    - by apply hdel_member. }
  assert (member s' (userKey token) audience =
    bool_decide (Exists (λ i, SetKey i = userKey token ∧ SetField i = audience) (upserts ≫= set_items)) || member s1 (userKey token) audience) as E2.
  { destruct (bool_decide_reflect (upserts ≫= set_items = [])) as [E|E]; [|by apply hset_member]. injection Hs as <-. rewrite E, bool_decide_eq_false_2; [done|].
    intros H. by apply Exists_nil in H. }
  rewrite E2, E1, orb_true_iff, andb_true_iff, negb_true_iff, bool_decide_eq_false, bool_decide_eq_true. done.
Qed.
End AudienceThm.

(** ** Concrete runs *)

Definition sample_field : Field := MkField "https://seller.example" "p1".
Definition sample_caps : list CapBatch := [MkCapBatch "user-1" [sample_field] 1000; MkCapBatch "user-2" [] 500].
(** A cap is recorded, for another identity too, then recorded again with an earlier expiry. *)
Definition cap_calls : list (list CapBatch) :=
  [[MkCapBatch "user-1" [sample_field] 9000000000]; sample_caps; [MkCapBatch "user-1" [sample_field] 3000000]].
Definition capped_store : unionFcapStore MockFcap :=
  MkUnion (MkMock {[ (identityKey (RT := ascii_runtime) "user-1", fieldString sample_field) := 3000000%Z ]}) (MkMock ∅).

Example recorded_cap_enforced_witness :
  [false; true] !! 1 = Some true ∧
  record_all (RT := ascii_runtime) (MkUnion (MkMock ∅) (MkMock ∅)) cap_calls = Ok capped_store ∧
  IsCappedAny (RT := ascii_runtime) capped_store 2000000 ["user-2"; "user-1"] [MkField "https://seller.example" "p2"; sample_field] = Ok [false; true] ∧
  IsCappedAny (RT := ascii_runtime) capped_store 3000001 ["user-2"; "user-1"] [MkField "https://seller.example" "p2"; sample_field] = Ok [false; false].
Proof.
  assert (record_all (RT := ascii_runtime) (MkUnion (MkMock ∅) (MkMock ∅)) cap_calls = Ok capped_store) as Ha by (vm_compute; reflexivity).
  assert (IsCappedAny (RT := ascii_runtime) capped_store 2000000 ["user-2"; "user-1"] [MkField "https://seller.example" "p2"; sample_field]
    = Ok [false; true]) as Hr by (vm_compute; reflexivity).
  split; [|split; [exact Ha|split; [exact Hr|vm_compute; reflexivity]]].
  apply (proj1 (recorded_cap_enforced (RT := ascii_runtime) (MkUnion (MkMock ∅) (MkMock ∅)) cap_calls capped_store 2000000 ["user-2"; "user-1"]
    [MkField "https://seller.example" "p2"; sample_field] sample_field [false; true] 1 Ha eq_refl Hr) "user-1" 3000000%Z).
  - right. by left.
  - vm_compute. reflexivity.
  - vm_compute. discriminate.
Defined.

Definition sample_upserts : list AudienceUpsert :=
  [MkUpsert "cars" [MkMember "user-1" (Some (MkFloat false 0 0))] ["user-1"; "user-2"]].

Example upsert_exact_witness :
  ∃ s', UpsertBatch (RT := ascii_runtime) map_to_list (MkMockAudience ∅) sample_upserts = Ok s' ∧
  IsMemberBatch (RT := ascii_runtime) s' [("user-1", "cars")] = Ok [true] ∧
  ((∃ u m, u ∈ sample_upserts ∧ m ∈ AddMembers u ∧ userKey (RT := ascii_runtime) (MemberToken m) = userKey (RT := ascii_runtime) "user-1" ∧ AudienceID u = "cars") ∨
   (member (MkMockAudience ∅) (userKey (RT := ascii_runtime) "user-1") "cars" = true ∧
    ¬ ∃ u t, u ∈ sample_upserts ∧ t ∈ RemoveTokens u ∧ userKey (RT := ascii_runtime) t = userKey (RT := ascii_runtime) "user-1" ∧ AudienceID u = "cars")).
Proof.
  set (r := UpsertBatch (RT := ascii_runtime) map_to_list (MkMockAudience ∅) sample_upserts).
  assert (is_ok (s ← r; IsMemberBatch (RT := ascii_runtime) s [("user-1", "cars")]) = true ∧
          (s ← r; IsMemberBatch (RT := ascii_runtime) s [("user-1", "cars")]) = Ok [true]) as [_ Hm]
    by (split; vm_compute; reflexivity).
  destruct r as [s'|e] eqn:Hr; [|discriminate Hm]. exists s'. split; [reflexivity|]. split; [exact Hm|].
  apply (proj1 (upsert_exact (RT := ascii_runtime) map_to_list (MkMockAudience ∅) sample_upserts s' "user-1" "cars"
    [("user-1", "cars")] [true] 0 (λ m, reflexivity _) Hr Hm eq_refl)). reflexivity.
Defined.

(** Two fields of one name: a colon in a path and one in a package id. *)
Lemma field_names_collide :
  fieldString (MkField "https://seller.example/a" "b:c") = fieldString (MkField "https://seller.example/a:b" "c").
Proof. reflexivity. Qed.
