(* ===== verification/VerifiedId.v ===== *)
(** * VerifiedId: attestations are verified before they are trusted

    [targeting/verified_identity.go], [verified_identity_receiver.go] and
    [identityagent/verified_identity_stage.go]: local checks, the receiver's loop over sealed
    credentials and in-band attestations, the gate on packages, and the stage.  The verifier
    and the age policy are functions that the deployment supplies. *)
From stdpp Require Import gmap strings.
From S2P Require Import Prelude GoStrings Unicode GoTime Json StrictJson JsonTypes TmpTypes Tmpx IdentityConfig.
From stdpp Require Import options.

(** ** Claims *)

Record VerifiedIdentity := MkVerified { Nullifier : string; viRelyingPartyID : string; viClaims : gset string }.

Definition CapKey (vi : VerifiedIdentity) : string := "vid:" +:+ viRelyingPartyID vi +:+ ":" +:+ Nullifier vi.

Record VerifyContext := MkVerifyContext {
  vcRequestID : string; vcCountry : string; ExpectedRelyingPartyID : string; vcNow : Time }.

(** [AttestationVerifier.Verify], at one request. *)
Abbreviation verifier := (Attestation → VerifyContext → result string VerifiedIdentity).
(** [AgeResolver.ResolveRequiredAge] of a package and a country. *)
Abbreviation age_resolver := (string → string → option string).

Inductive precheck := PreCheckOK | PreCheckMalformed | PreCheckNoBinding | PreCheckExpired | PreCheckRPMismatch.

#[export] Instance precheck_eq_dec : EqDecision precheck.
Proof. solve_decision. Defined.

(** [time.Parse(time.RFC3339, s)] reads a fraction of the second too. *)
Definition ParseRFC3339 : string → option Time := ParseRFC3339Nano.

Definition LocalPreCheck (att : option Attestation) (vctx : VerifyContext) : precheck :=
  match att with
  | None => PreCheckMalformed
  | Some att =>
      if bool_decide (SignalBinding att = "") then PreCheckNoBinding else
      if negb (bool_decide (ExpiresAt att = "")) &&
         match ParseRFC3339 (ExpiresAt att) with Some exp => negb (After exp (vcNow vctx)) | None => true end
      then PreCheckExpired else
      if bool_decide (ExpectedRelyingPartyID vctx = "") || negb (bool_decide (RelyingPartyID att = ExpectedRelyingPartyID vctx))
      then PreCheckRPMismatch else PreCheckOK
  end.

Definition AttestationClaimUniqueHuman : string := "unique_human".
Definition closed_claims : list string :=
  [AttestationClaimUniqueHuman; "age_over_13"; "age_over_16"; "age_over_18"; "age_over_21"].

Definition IsClosedClaim (c : string) : bool := bool_decide (c ∈ closed_claims).

Definition NormalizeClaims (claims : list string) : gset string := list_to_set (filter (λ c, IsClosedClaim c = true) claims).
Definition normalizeClaimSet (s : gset string) : gset string := NormalizeClaims (elements s).

(** [strconv.Atoi]: an optional sign. *)
Definition parseAgeOver (c : string) : option Z := rest ← CutPrefix c "age_over_"; ParseInt rest.

Definition ClaimsSatisfy (vi : VerifiedIdentity) (required : string) : bool :=
  bool_decide (required ∈ viClaims vi) ||
  match parseAgeOver required with
  | None => false
  | Some want => existsb (λ c, match parseAgeOver c with Some got => (want <=? got)%Z | None => false end) (elements (viClaims vi))
  end.

(** ** The receiver *)

Definition MaxSealedCredentials : nat := 8.
Definition MaxSealedPayloadBytes : Z := 8192.

Record RecipientKey := MkRecipientKey { PrivateKey : option ecdh_key; rkRelyingPartyID : string }.

Inductive drop_reason := DropPreCheck (r : precheck) | DropMalformedSeal | DropOpenFailed | DropRPMismatchPostVerify.
(** What the observer is told. *)
Inductive observation := Dropped (r : drop_reason) | VerifierFailed.

Definition with_rp (vctx : VerifyContext) (rp : string) : VerifyContext :=
  MkVerifyContext (vcRequestID vctx) (vcCountry vctx) rp (vcNow vctx).

(** An identity, or what is observed of an absent one. *)
Abbreviation verdict := (option VerifiedIdentity * list observation)%type.

Definition verifyOne (att : Attestation) (verify : verifier) (vctx : VerifyContext) : verdict :=
  match LocalPreCheck (Some att) vctx with
  | PreCheckOK =>
      match verify att vctx with
      | Err _ => (None, [VerifierFailed])
      | Ok vi =>
          if negb (bool_decide (viRelyingPartyID vi = ExpectedRelyingPartyID vctx)) then (None, [Dropped DropRPMismatchPostVerify])
          else (Some (MkVerified (Nullifier vi) (viRelyingPartyID vi) (normalizeClaimSet (viClaims vi))), [])
      end
  | reason => (None, [Dropped (DropPreCheck reason)])
  end.

Definition collect (vs : list verdict) : list VerifiedIdentity * list observation := (omap fst vs, vs ≫= snd).

Definition AttestationType : gtype :=
  TStruct [("issuer", TMap TAny); ("scheme", TString); ("relying_party_id", TString); ("action", TString);
           ("claims", TSlice TString); ("verification_level", TString); ("signal_binding", TString);
           ("proof", TMap TAny); ("expires_at", TString)].

Section Receiver.
Context `{RT : Runtime} `{XC : X25519} `{AEAD : ChaCha20Poly1305}.

Definition decode_attestation (x : json) : Attestation :=
  let g name := tmp_field AttestationType name x in
  MkAttestation (get_map id (g "issuer")) (get_string (g "scheme")) (get_string (g "relying_party_id"))
    (get_string (g "action")) (map get_string (default [] (get_list (g "claims")))) (get_string (g "verification_level"))
    (get_string (g "signal_binding")) (get_map id (g "proof")) (get_string (g "expires_at")).

Definition open_one (c : SealedCredential) (keys : gmap string RecipientKey) (verify : verifier) (vctx : VerifyContext) : verdict :=
  if bool_decide (AudienceKID c = "") || bool_decide (Payload c = "") then (None, [Dropped DropMalformedSeal]) else
  match keys !! AudienceKID c with
  | None => (None, [])
  | Some rk =>
      if (MaxSealedPayloadBytes <? Z.of_nat (len (Payload c)))%Z then (None, [Dropped DropOpenFailed]) else
      match OpenSealedCredential (PrivateKey rk) "" (Payload c) with
      | Err _ => (None, [Dropped DropOpenFailed])
      | Ok (pt, _) =>
          match unmarshal AttestationType pt with
          | None => (None, [Dropped DropOpenFailed])
          | Some x => verifyOne (decode_attestation x) verify (with_rp vctx (rkRelyingPartyID rk))
          end
      end
  end.

Definition OpenAndVerify (creds : list SealedCredential) (keys : gmap string RecipientKey) (verify : option verifier)
    (vctx : VerifyContext) : list VerifiedIdentity * list observation :=
  match verify with
  | None => ([], [])
  | Some verify =>
      if bool_decide (keys = ∅) then ([], [])
      else collect (map (λ c, open_one c keys verify vctx) (take MaxSealedCredentials creds))
  end.

Definition VerifyAttestations (identities : list IdentityToken) (verify : option verifier) (vctx : VerifyContext) :
    list VerifiedIdentity * list observation :=
  match verify with
  | None => ([], [])
  | Some verify =>
      if bool_decide (ExpectedRelyingPartyID vctx = "") then ([], [])
      else collect (omap (λ i, (λ att, verifyOne att verify vctx) <$> IdAttestation i) identities)
  end.

(** ** The gate *)

Record Requirement := MkRequirement { RequiresVerifiedHuman : bool; RequiredAge : option string }.

Definition anyVerifiedSatisfies (verified : list VerifiedIdentity) (required : string) : bool :=
  existsb (λ vi, ClaimsSatisfy vi required) verified.

Definition rejects (r : Requirement) (verified : list VerifiedIdentity) : bool :=
  if negb (RequiresVerifiedHuman r) && bool_decide (RequiredAge r = None) then false else
  if bool_decide (verified = []) then true else
  match RequiredAge r with Some age => negb (anyVerifiedSatisfies verified age) | None => false end.

Definition RejectByVerifiedIdentity (reqs : gmap string Requirement) (verified : list VerifiedIdentity) : gset string :=
  dom (filter (λ kr, rejects kr.2 verified = true) reqs).

(** ** The stage of the agent *)

Record VerifiedDeps := MkDeps {
  dVerifier : option verifier;
  dRecipientKeys : gmap string RecipientKey;
  dAgeResolver : option age_resolver;
  dRelyingPartyID : string;
}.

(** [OutcomeUnset]: the empty string of a stage that did not run. *)
Inductive Outcome := OutcomePass | OutcomeFail | OutcomeTimeout | OutcomeError | OutcomeCanceled | OutcomeFailClosedUndecodable | OutcomeUnset.

#[export] Instance Outcome_eq_dec : EqDecision Outcome.
Proof. solve_decision. Defined.

Definition verifier_errored (obs : list observation) : bool :=
  existsb (λ o, match o with VerifierFailed => true | _ => false end) obs.

Definition runVerifiedIdentityStage (d : VerifiedDeps) (req : IdentityMatchRequest) (start : Time) : list VerifiedIdentity * Outcome :=
  if bool_decide (is_Some (dVerifier d)) then
    let sealedAvailable := negb (bool_decide (dRecipientKeys d = ∅)) && negb (bool_decide (imSealedCredentials req = [])) in
    let inbandAvailable := negb (bool_decide (dRelyingPartyID d = "")) && negb (bool_decide (imIdentities req = [])) in
    let vctx := MkVerifyContext (imRequestID req) (imCountry req) "" start in
    let '(v1, o1) := if sealedAvailable then OpenAndVerify (imSealedCredentials req) (dRecipientKeys d) (dVerifier d) vctx else ([], []) in
    let '(v2, o2) := if inbandAvailable then VerifyAttestations (imIdentities req) (dVerifier d) (with_rp vctx (dRelyingPartyID d))
                     else ([], []) in
    (v1 ++ v2, if verifier_errored (o1 ++ o2) then OutcomeError else OutcomePass)
  else ([], OutcomePass).

Definition requirement (d : VerifiedDeps) (country : string) (configs : gmap string PackageIdentityConfig) (id : string) : Requirement :=
  MkRequirement (match configs !! id with Some cfg => RequiresVerifiedIdentity cfg | None => false end)
    (r ← dAgeResolver d; r id country).

Definition computeVerifiedIdentityGate (d : VerifiedDeps) (country : string) (configs : gmap string PackageIdentityConfig)
    (pkgIDs : list string) (verified : list VerifiedIdentity) : gset string :=
  RejectByVerifiedIdentity (list_to_map (map (λ id, (id, requirement d country configs id)) pkgIDs)) verified.
End Receiver.

(** ** Trust follows verification *)

(** The attestation passed every local check and the verifier vouched for what is kept of it. *)
Definition vouched (verify : verifier) (vctx : VerifyContext) (att : Attestation) (vi : VerifiedIdentity) : Prop :=
  SignalBinding att ≠ "" ∧
  (ExpiresAt att = "" ∨ ∃ exp, ParseRFC3339 (ExpiresAt att) = Some exp ∧ (vcNow vctx < exp)%Z) ∧
  ExpectedRelyingPartyID vctx ≠ "" ∧ RelyingPartyID att = ExpectedRelyingPartyID vctx ∧
  ∃ vi0, verify att vctx = Ok vi0 ∧ viRelyingPartyID vi0 = ExpectedRelyingPartyID vctx ∧
    viRelyingPartyID vi = viRelyingPartyID vi0 ∧ Nullifier vi = Nullifier vi0 ∧
    ∀ c, c ∈ viClaims vi ↔ c ∈ viClaims vi0 ∧ c ∈ closed_claims.

Lemma elem_of_normalize s c : c ∈ normalizeClaimSet s ↔ c ∈ s ∧ c ∈ closed_claims.
Proof.
  unfold normalizeClaimSet, NormalizeClaims, IsClosedClaim. rewrite elem_of_list_to_set, list_elem_of_filter, elem_of_elements, bool_decide_eq_true. tauto.
Qed.

Lemma LocalPreCheck_OK att vctx :
  LocalPreCheck (Some att) vctx = PreCheckOK ↔
  SignalBinding att ≠ "" ∧
  (ExpiresAt att = "" ∨ ∃ exp, ParseRFC3339 (ExpiresAt att) = Some exp ∧ (vcNow vctx < exp)%Z) ∧
  ExpectedRelyingPartyID vctx ≠ "" ∧ RelyingPartyID att = ExpectedRelyingPartyID vctx.
Proof.
  unfold LocalPreCheck. case_bool_decide as Hb; [split; [done|naive_solver]|].
  assert (negb (bool_decide (ExpiresAt att = "")) &&
    match ParseRFC3339 (ExpiresAt att) with Some exp => negb (After exp (vcNow vctx)) | None => true end = false ↔
    (ExpiresAt att = "" ∨ ∃ exp, ParseRFC3339 (ExpiresAt att) = Some exp ∧ (vcNow vctx < exp)%Z)) as E.
  { rewrite andb_false_iff, negb_false_iff, bool_decide_eq_true. unfold After.
    destruct (ParseRFC3339 (ExpiresAt att)) as [exp|]; [rewrite negb_false_iff, Z.ltb_lt|]; naive_solver. }
  destruct (_ && _) eqn:Ee.
  - split; [done|]. intros (_ & H & _). apply E in H. done.
  - destruct (bool_decide_reflect (ExpectedRelyingPartyID vctx = "")), (bool_decide_reflect (RelyingPartyID att = ExpectedRelyingPartyID vctx)); cbn; naive_solver.
Qed.

Lemma verifyOne_vouched att verify vctx vi :
  fst (verifyOne att verify vctx) = Some vi ↔ vouched verify vctx att vi.
Proof.
  unfold verifyOne, vouched. pose proof (LocalPreCheck_OK att vctx) as Hp. destruct (LocalPreCheck (Some att) vctx); cycle 1;
    [by (split; [done|]; intros (H1 & H2 & H3 & H4 & _); assert (Hno : _ = PreCheckOK) by (apply Hp; tauto); discriminate Hno)..|].
  destruct (proj1 Hp eq_refl) as (H1 & H2 & H3 & H4). destruct (verify att vctx) as [vi0|e].
  - destruct (bool_decide_reflect (viRelyingPartyID vi0 = ExpectedRelyingPartyID vctx)) as [Hr|Hr]; cbn [negb fst].
    + split.
      * intros [= <-]. do 4 (split; [done|]). exists vi0. cbn. split_and!; try done. intros c. apply elem_of_normalize.
      * intros (_ & _ & _ & _ & vi0' & [= <-] & _ & Hrp & Hn & Hc). f_equal. destruct vi as [n rp cl]. cbn in *. subst n rp.
        f_equal. apply leibniz_equiv. intros c. by rewrite Hc, elem_of_normalize.
    + split; [done|]. intros (_ & _ & _ & _ & vi0' & [= <-] & Hr' & _). done.
  - split; [done|]. by intros (_ & _ & _ & _ & vi0' & [=] & _).
Qed.

Section Thm.
Context `{RT : Runtime} `{XC : X25519} `{AEAD : ChaCha20Poly1305}.

(** The attestations that the two carriers of a request present, each with the relying party
    it must be bound to. *)
Inductive presented (d : VerifiedDeps) (req : IdentityMatchRequest) : string → Attestation → Prop :=
  | presented_sealed c rk pt kid x :
      c ∈ take MaxSealedCredentials (imSealedCredentials req) → AudienceKID c ≠ "" → Payload c ≠ "" →
      dRecipientKeys d !! AudienceKID c = Some rk → (Z.of_nat (len (Payload c)) ≤ MaxSealedPayloadBytes)%Z →
      OpenSealedCredential (PrivateKey rk) "" (Payload c) = Ok (pt, kid) →
      unmarshal AttestationType pt = Some x →
      presented d req (rkRelyingPartyID rk) (decode_attestation x)
  | presented_inband i att :
      i ∈ imIdentities req → IdAttestation i = Some att → presented d req (dRelyingPartyID d) att.

(** The credential yields nothing. *)
Ltac absent := split; [intros E; discriminate E|intros E; decompose [ex and] E; try congruence].

Lemma open_one_vouched c keys verify vctx vi :
  fst (open_one c keys verify vctx) = Some vi ↔
  ∃ rk pt kid x, AudienceKID c ≠ "" ∧ Payload c ≠ "" ∧ keys !! AudienceKID c = Some rk ∧ (Z.of_nat (len (Payload c)) ≤ MaxSealedPayloadBytes)%Z ∧
    OpenSealedCredential (PrivateKey rk) "" (Payload c) = Ok (pt, kid) ∧ unmarshal AttestationType pt = Some x ∧
    vouched verify (with_rp vctx (rkRelyingPartyID rk)) (decode_attestation x) vi.
Proof.
  unfold open_one. destruct (bool_decide_reflect (AudienceKID c = "")) as [|Ha]; [absent|].
  destruct (bool_decide_reflect (Payload c = "")) as [|Hp]; [absent|]. cbn [orb].
  destruct (keys !! AudienceKID c) as [rk|]; [|absent].
  destruct (Z.ltb_spec MaxSealedPayloadBytes (Z.of_nat (len (Payload c)))) as [Hl|Hl]; [absent; lia|].
  destruct (OpenSealedCredential (PrivateKey rk) "" (Payload c)) as [[pt kid]|] eqn:Eo; [|absent].
  destruct (unmarshal AttestationType pt) as [x|] eqn:Ex; [|absent].
  rewrite verifyOne_vouched. split; [eauto 12|]. intros (rk' & pt' & kid' & x' & _ & _ & [= <-] & _ & Eo' & Ex' & Hv).
  rewrite Eo in Eo'. injection Eo' as <- <-. rewrite Ex in Ex'. by injection Ex' as <-.
Qed.

Lemma stage_sound_complete d req start vi :
  vi ∈ fst (runVerifiedIdentityStage d req start) ↔
  ∃ verify rp att, dVerifier d = Some verify ∧ presented d req rp att ∧
    vouched verify (MkVerifyContext (imRequestID req) (imCountry req) rp start) att vi.
Proof.
  unfold runVerifiedIdentityStage. destruct (dVerifier d) as [verify|]; cycle 1.
  { rewrite bool_decide_eq_false_2 by (by intros [? ?]). cbn. split; [by intros H%elem_of_nil|by intros (? & ? & ? & ? & _)]. }
  rewrite bool_decide_eq_true_2 by eauto. set (vctx := MkVerifyContext _ _ "" start).
  assert (vi ∈ fst (if negb (bool_decide (dRecipientKeys d = ∅)) && negb (bool_decide (imSealedCredentials req = []))
      then OpenAndVerify (imSealedCredentials req) (dRecipientKeys d) (Some verify) vctx else ([], [])) ↔
    ∃ c, c ∈ take MaxSealedCredentials (imSealedCredentials req) ∧ fst (open_one c (dRecipientKeys d) verify vctx) = Some vi) as H1.
  { unfold OpenAndVerify. destruct (bool_decide_reflect (dRecipientKeys d = ∅)) as [Hk|Hk]; cbn [negb andb fst].
    - split; [by intros H%elem_of_nil|]. intros (c & _ & H). apply open_one_vouched in H as (rk & ? & ? & ? & ? & ? & Hl & _).
      rewrite Hk in Hl. done.
    - destruct (bool_decide_reflect (imSealedCredentials req = [])) as [Hc|Hc]; cbn [negb fst].
      + split; [by intros H%elem_of_nil|]. intros (c & H & _). rewrite Hc in H. by apply elem_of_nil in H.
      + cbn [collect fst]. rewrite list_elem_of_omap. split.
        * intros (v & Hv & Hf). apply list_elem_of_fmap in Hv as (c & -> & Hin). eauto.
        * intros (c & Hin & Hf). eexists. split; [apply list_elem_of_fmap; by exists c|done]. }
  assert (vi ∈ fst (if negb (bool_decide (dRelyingPartyID d = "")) && negb (bool_decide (imIdentities req = []))
      then VerifyAttestations (imIdentities req) (Some verify) (with_rp vctx (dRelyingPartyID d)) else ([], [])) ↔
    ∃ i att, i ∈ imIdentities req ∧ IdAttestation i = Some att ∧ fst (verifyOne att verify (with_rp vctx (dRelyingPartyID d))) = Some vi) as H2.
  { unfold VerifyAttestations. cbn [with_rp ExpectedRelyingPartyID].
    destruct (bool_decide_reflect (dRelyingPartyID d = "")) as [Hr|Hr]; cbn [negb andb fst].
    - split; [by intros H%elem_of_nil|]. intros (i & att & _ & _ & H). apply verifyOne_vouched in H as (_ & _ & H & _). done.
    - destruct (bool_decide_reflect (imIdentities req = [])) as [Hc|Hc]; cbn [negb fst].
      + split; [by intros H%elem_of_nil|]. intros (i & att & H & _). rewrite Hc in H. by apply elem_of_nil in H.
      + cbn [collect fst]. rewrite list_elem_of_omap. split.
        * intros (v & Hv & Hf). apply list_elem_of_omap in Hv as (i & Hin & Hi). destruct (IdAttestation i) as [att|] eqn:Ea; [|done].
          injection Hi as <-. eauto 8.
        * intros (i & att & Hin & Hi & Hf). eexists. split; [apply list_elem_of_omap; exists i; rewrite Hi; eauto|done]. }
  destruct (if _ : bool then OpenAndVerify _ _ _ _ else _) as [v1 o1], (if _ : bool then VerifyAttestations _ _ _ else _) as [v2 o2].
  cbn [fst] in *. rewrite elem_of_app, H1, H2. clear H1 H2. split.
  - intros [(c & Hc & H)|(i & att & Hi & Ha & H)].
    + apply open_one_vouched in H as (rk & pt & kid & x & ? & ? & ? & ? & ? & ? & Hv).
      exists verify, (rkRelyingPartyID rk), (decode_attestation x). split_and!; [done| |exact Hv]. by eapply presented_sealed.
    + apply verifyOne_vouched in H. exists verify, (dRelyingPartyID d), att. split_and!; [done| |exact H]. by eapply presented_inband.
  - intros (verify' & rp & att & [= <-] & Hp & Hv). destruct Hp as [c rk pt kid x Hc ? ? ? ? ? ?|i att Hi Ha].
    + left. exists c. split; [done|]. apply open_one_vouched. eauto 12.
    + right. exists i, att. split_and!; [done..|]. by apply verifyOne_vouched.
Qed.

(** C18: an identity is trusted exactly when a carrier of the request presents an attestation
    for which every local check passes (bound to a request, not expired, of the relying party
    that this receiver acts as) and the verifier vouches for the identity, for that relying
    party; of its claims those of the closed vocabulary are kept.  Opening a
    credential, or an asserted claim, proves nothing. *)
Theorem stage_trusts_exactly_vouched d req start vi :
  vi ∈ fst (runVerifiedIdentityStage d req start) ↔
  ∃ verify rp att, dVerifier d = Some verify ∧ presented d req rp att ∧
    vouched verify (MkVerifyContext (imRequestID req) (imCountry req) rp start) att vi.
Proof. apply stage_sound_complete. Qed.

(** ** The gate *)

Lemma rejects_spec r verified :
  rejects r verified = true ↔
  (RequiresVerifiedHuman r = true ∧ verified = []) ∨
  (∃ age, RequiredAge r = Some age ∧ ∀ vi, vi ∈ verified → ClaimsSatisfy vi age = false).
Proof.
  unfold rejects. destruct (RequiredAge r) as [age|].
  - rewrite (bool_decide_eq_false_2 (Some age = None)), andb_false_r by done.
    destruct (bool_decide_reflect (verified = [])) as [->|Hv].
    + split; [|done]. intros _. right. exists age. split; [done|]. by intros vi H%elem_of_nil.
    + unfold anyVerifiedSatisfies. rewrite negb_true_iff, <- not_true_iff_false, existsb_exists. split.
      * intros H. right. exists age. split; [done|]. intros vi Hvi. apply not_true_iff_false. intros Hs.
        apply H. exists vi. split; [by apply list_elem_of_In|done].
      * intros [[_ ?]|(? & [= <-] & H)]; [done|]. intros (vi & Hvi & Hs). apply list_elem_of_In in Hvi.
        by rewrite (H vi Hvi) in Hs.
  - rewrite bool_decide_eq_true_2, andb_true_r by done. destruct (RequiresVerifiedHuman r); cbn [negb].
    + case_bool_decide; [by split; [left|]|]. split; [done|]. by intros [[_ ?]|(? & ? & _)].
    + split; [done|]. by intros [[? _]|(? & ? & _)].
Qed.

Lemma ClaimsSatisfy_spec vi required :
  ClaimsSatisfy vi required = true ↔
  required ∈ viClaims vi ∨
  ∃ want c got, parseAgeOver required = Some want ∧ c ∈ viClaims vi ∧ parseAgeOver c = Some got ∧ (want ≤ got)%Z.
Proof.
  unfold ClaimsSatisfy. rewrite orb_true_iff, bool_decide_eq_true. apply or_iff_compat_l.
  destruct (parseAgeOver required) as [want|]; [|split; [done|intros (? & ? & ? & H & _); discriminate H]].
  rewrite existsb_exists. split.
  - intros (c & Hc & Hg). apply list_elem_of_In, elem_of_elements in Hc. destruct (parseAgeOver c) as [got|] eqn:E; [|done].
    exists want, c, got. apply Z.leb_le in Hg. done.
  - intros (? & c & got & [= <-] & Hc & E & Hg). exists c. split; [by apply list_elem_of_In, elem_of_elements|].
    rewrite E. by apply Z.leb_le.
Qed.

(** the gate rejects exactly the packages that require a verified human while no
    identity is verified, and those whose required age no verified identity claims, by that
    claim or by one of a higher age; another verified identity never makes it reject more. *)
Theorem gate_exact d country configs pkgIDs verified :
  (∀ id, id ∈ computeVerifiedIdentityGate d country configs pkgIDs verified ↔
    id ∈ pkgIDs ∧
    ((verified = [] ∧ ∃ cfg, configs !! id = Some cfg ∧ RequiresVerifiedIdentity cfg = true) ∨
     ∃ resolve age, dAgeResolver d = Some resolve ∧ resolve id country = Some age ∧
       ¬ ∃ vi, vi ∈ verified ∧ (age ∈ viClaims vi ∨
         ∃ want c got, parseAgeOver age = Some want ∧ c ∈ viClaims vi ∧ parseAgeOver c = Some got ∧ (want ≤ got)%Z))) ∧
  (∀ verified', verified ⊆ verified' →
    computeVerifiedIdentityGate d country configs pkgIDs verified' ⊆ computeVerifiedIdentityGate d country configs pkgIDs verified).
Proof.
  assert (∀ v id, id ∈ computeVerifiedIdentityGate d country configs pkgIDs v ↔
    id ∈ pkgIDs ∧ rejects (requirement d country configs id) v = true) as Hin.
  { intros v id. unfold computeVerifiedIdentityGate, RejectByVerifiedIdentity. rewrite elem_of_dom. unfold is_Some.
    setoid_rewrite map_lookup_filter_Some. cbn [snd].
    assert (∀ r, (list_to_map (map (λ id, (id, requirement d country configs id)) pkgIDs) : gmap string Requirement) !! id = Some r ↔
      id ∈ pkgIDs ∧ r = requirement d country configs id) as E; [|setoid_rewrite E; naive_solver].
    intros r. induction pkgIDs as [|q l IH]; [split; [done|intros [H%elem_of_nil _]; done]|].
    cbn [map]. rewrite list_to_map_cons, elem_of_cons. destruct (decide (q = id)) as [->|Hne].
    - rewrite lookup_insert_eq. split; [intros [= <-]; split; [by left|done]|by intros [_ ->]].
    - rewrite lookup_insert_ne, IH by done. split; [intros [? ?]; split; [by right|done]|]. intros [[->|?] ?]; [done|done]. }
  split.
  - intros id. rewrite Hin, rejects_spec. unfold requirement. cbn [RequiresVerifiedHuman RequiredAge]. apply and_iff_compat_l. f_equiv.
    + destruct (configs !! id) as [cfg|]; [|split; [intros [? ?]; done|intros (_ & ? & ? & _); done]].
      split; [intros [? ->]; eauto|]. intros (-> & ? & [= <-] & ?). done.
    + split.
      * intros (age & Ha & Hn). destruct (dAgeResolver d) as [resolve|]; [|done]. exists resolve, age. split_and!; [done..|].
        intros (vi & Hvi & Hs). apply ClaimsSatisfy_spec in Hs. by rewrite (Hn vi Hvi) in Hs.
      * intros (resolve & age & -> & Ha & Hn). exists age. split; [done|]. intros vi Hvi. apply not_true_iff_false. intros Hs.
        apply Hn. exists vi. split; [done|]. by apply ClaimsSatisfy_spec.
  - intros v' Hsub id. rewrite !Hin, !rejects_spec. intros [Hp H]. split; [done|].
    destruct H as [[Hr Hv]|(age & Ha & Hn)].
    + left. split; [done|]. destruct verified as [|vi l]; [done|]. exfalso. rewrite Hv in Hsub. specialize (Hsub vi ltac:(by left)). by apply elem_of_nil in Hsub.
    + right. exists age. split; [done|]. intros vi Hvi. apply Hn. by apply Hsub.
Qed.
End Thm.

(** ** Cap keys *)

(** Under one nullifier the relying party tells keys apart, and so do nullifiers without a colon. *)
Lemma CapKey_inj v w :
  (Nullifier v = Nullifier w ∨ (contains_byte (Nullifier v) ":" = false ∧ contains_byte (Nullifier w) ":" = false)) →
  CapKey v = CapKey w → viRelyingPartyID v = viRelyingPartyID w ∧ Nullifier v = Nullifier w.
Proof.
  unfold CapKey. intros Hn E. apply sapp_inj_l in E. destruct Hn as [Hn|[Hv Hw]].
  - rewrite Hn in E. split; [|done]. apply (f_equal explode) in E. rewrite !explode_app in E.
    apply explode_inj. by apply app_inv_tail in E.
  - assert (∀ s t c, contains_byte t c = false → LastIndexByte (s +:+ String c t) c = Some (len s)) as L
      by (intros; by apply LastIndexByte_app).
    pose proof (L (viRelyingPartyID v) _ _ Hv) as L1. pose proof (L (viRelyingPartyID w) _ _ Hw) as L2.
    change (":" +:+ Nullifier v) with (String ":" (Nullifier v)) in E. change (":" +:+ Nullifier w) with (String ":" (Nullifier w)) in E.
    rewrite E, L2 in L1. injection L1 as L1. apply sapp_inj_len in E as [? [= ?]]; [done|lia].
Qed.

(** Without that two relying parties can share a key. *)
Lemma CapKey_collision : CapKey (MkVerified "b:c" "a" ∅) = CapKey (MkVerified "c" "a:b" ∅).
Proof. reflexivity. Qed.

(** An identity without any claim passes the gate of a package that requires a verified human. *)
Lemma human_gate_ignores_claims vi : rejects (MkRequirement true None) [vi] = false.
Proof. reflexivity. Qed.
