(* ===== verification/IdentityService.v ===== *)
(** * IdentityService: eligibility under caps, audiences and verified identity

    [targeting/identity_engine.go] and [targeting/identityagent/service.go].  The cap stage and
    the audience stage run side by side under one context; each asks its store once, and
    cancels the other when its own answer decides the request.  A run is a sequence of their
    steps, in which a store may answer, fail, time out or be canceled. *)
From stdpp Require Import gmap strings.
From S2P Require Import Prelude GoStrings Unicode UrlCanon TmpTypes Tmpx IdentityConfig Membership VerifiedId.
From stdpp Require Import options.

(** ** Results *)

Record PackageEligibility := MkEligibility { PkgID : string; Eligible : bool }.

#[export] Instance PackageEligibility_eq_dec : EqDecision PackageEligibility.
Proof. solve_decision. Defined.

Inductive Status := StatusOK | StatusTimeout | StatusProviderUnavailable.

Record IdentityResult := MkIdResult {
  ResultRequestID : string; Eligibility : list PackageEligibility; Verified : list VerifiedIdentity; ResultStatus : Status }.

Record fcapResult := MkFcap { cappedByPkg : gset string; fcapOutcome : Outcome }.
Record audienceResult := MkAud { rejected : gset string; audOutcome : Outcome }.

(** How a call to a store under a context ends. *)
Inductive call_outcome (A : Type) := Answered (r : result string A) | DeadlineExceeded | Canceled.
Arguments Answered {A}. Arguments DeadlineExceeded {A}. Arguments Canceled {A}.

Definition stageErrorOutcome {A} (c : call_outcome A) : Outcome :=
  match c with DeadlineExceeded => OutcomeTimeout | Canceled => OutcomeCanceled | Answered _ => OutcomeError end.

(** ** The engine *)

(** The segments that rules of the packages mention. *)
Definition collectTargetSegments (configs : gmap string PackageIdentityConfig) (pkgIDs : list string) : gset string :=
  list_to_set (id ← pkgIDs; match configs !! id with Some cfg => Segments (TargetSegments cfg) | None => [] end).

Definition membership_lookups (identities : list IdentityToken) (segments : list string) : list (string * string) :=
  i ← identities; seg ← segments; [(UserToken i, seg)].

(** The segments that some lookup found; a short answer is a panic. *)
Definition matched_segments (lookups : list (string * string)) (results : list bool) : result string (gset string) :=
  if (length results <? length lookups)%nat then Err "index out of range"
  else Ok (list_to_set (omap (λ lb, if (lb.2 : bool) then Some lb.1.2 else None) (zip lookups results))).

Definition rule_of (configs : gmap string PackageIdentityConfig) (id : string) : option SegmentRule :=
  cfg ← configs !! id; TargetSegments cfg.

Definition evaluate_package (audience : bool) (configs : gmap string PackageIdentityConfig) (userSegments : gset string) (id : string) :
    PackageEligibility :=
  let r := rule_of configs id in
  MkEligibility id (IsEmpty r || (audience && Matches r userSegments)).

(** ** The service *)

Record DecodeSummary := MkSummary { WireCount : nat; SuccessCount : nat }.

Record Service := MkService {
  engineAudience : bool;
  audienceSvc : bool;
  configSvc : snapshotData;
  strictOnUndecodable : bool;
  deps : VerifiedDeps;
}.

Definition allCapped (r : fcapResult) (pkgIDs : list string) : bool :=
  negb (bool_decide (pkgIDs = [])) && forallb (λ id, bool_decide (id ∈ cappedByPkg r)) pkgIDs.

Definition allRejected (r : audienceResult) (pkgsWithSegments : gset string) : bool :=
  negb (bool_decide (pkgsWithSegments = ∅)) && bool_decide (pkgsWithSegments ⊆ rejected r).

Definition packagesWithSegmentRules (configs : gmap string PackageIdentityConfig) (pkgIDs : list string) : gset string :=
  list_to_set (filter (λ id, IsEmpty (rule_of configs id) = false) pkgIDs).

(** The identities whose caps are read. *)
Definition cap_identities (req : IdentityMatchRequest) (verified : list VerifiedIdentity) : list string :=
  if bool_decide (verified = []) then map UserToken (imIdentities req) else map CapKey verified.

Definition undecodable (svc : Service) (verified : list VerifiedIdentity) (summary : DecodeSummary) : bool :=
  bool_decide (verified = []) && negb (WireCount summary =? 0)%nat &&
  ((SuccessCount summary =? 0)%nat || (strictOnUndecodable svc && (SuccessCount summary <? WireCount summary)%nat)).

Definition fcap_of_answer (pkgIDs : list string) (c : call_outcome (list bool)) : fcapResult :=
  match c with
  | Answered (Ok cappedByField) =>
      if negb (length cappedByField =? length pkgIDs)%nat then MkFcap (list_to_set pkgIDs) OutcomeError else
      let capped : gset string := list_to_set (omap (λ ib, if (ib.2 : bool) then Some ib.1 else None) (zip pkgIDs cappedByField)) in
      MkFcap capped (if forallb id cappedByField && negb (bool_decide (pkgIDs = [])) then OutcomeFail else OutcomePass)
  | _ => MkFcap (list_to_set pkgIDs) (stageErrorOutcome c)
  end.

Definition fcap_fields (seller : string) (pkgIDs : list string) : list Field := map (MkField seller) pkgIDs.

Definition aud_of_answer (pkgsWithSegments : gset string) (c : call_outcome (list PackageEligibility)) : audienceResult :=
  match c with
  | Answered (Ok eligibility) =>
      let rej : gset string := list_to_set (omap (λ e,
        if bool_decide (PkgID e ∈ pkgsWithSegments) && negb (Eligible e) then Some (PkgID e) else None) eligibility) in
      MkAud rej (if negb (bool_decide (pkgsWithSegments = ∅)) && bool_decide (size rej = size pkgsWithSegments) then OutcomeFail else OutcomePass)
  | _ => MkAud pkgsWithSegments (stageErrorOutcome c)
  end.

Definition join_one (pkgsWithSegments : gset string) (fc : fcapResult) (aud : audienceResult) (vidRejected : gset string) (id : string) :
    PackageEligibility :=
  MkEligibility id
    (negb (bool_decide (id ∈ cappedByPkg fc)) &&
     negb (bool_decide (id ∈ pkgsWithSegments) && bool_decide (id ∈ rejected aud)) &&
     negb (bool_decide (id ∈ vidRejected))).

Definition joinResults (pkgIDs : list string) (pkgsWithSegments : gset string) (fc : fcapResult) (aud : audienceResult)
    (vidRejected : gset string) : list PackageEligibility := map (join_one pkgsWithSegments fc aud vidRejected) pkgIDs.

Definition terminalStatus (fcapOutcome audOutcome vidOutcome : Outcome) : Status :=
  let os := [fcapOutcome; audOutcome; vidOutcome] in
  if bool_decide (OutcomeTimeout ∈ os) then StatusTimeout
  else if bool_decide (OutcomeError ∈ os) then StatusProviderUnavailable else StatusOK.

(** ** Stages that run side by side *)

Inductive thread (A : Type) := Calling | Returned (r : A) | Finished (r : A).
Arguments Calling {A}. Arguments Returned {A}. Arguments Finished {A}.

Record run_state := MkRun { fcThread : thread fcapResult; auThread : thread audienceResult; ctxCanceled : bool }.

Section Service.
Context `{RT : Runtime} `{XC : X25519} `{AEAD : ChaCha20Poly1305}.
Context {S1 : Type} `{FS : FcapStore S1} {S2 : Type} `{AS : AudienceStore S2}.

(** [walk_set]: the order of one [range] over a set. *)
Definition EvaluateIdentityResolved (walk_set : gset string → list string) (audience : bool) (s : S2)
    (configs : gmap string PackageIdentityConfig) (pkgIDs : list string) (identities : list IdentityToken) :
    result string (list PackageEligibility) :=
  let segments := walk_set (collectTargetSegments configs pkgIDs) in
  userSegments ←
    (if negb audience || bool_decide (identities = []) || bool_decide (segments = []) then Ok ∅ else
     let lookups := membership_lookups identities segments in
     results ← IsMemberBatch s lookups; matched_segments lookups results);
  Ok (map (evaluate_package audience configs userSegments) pkgIDs).

(** What [Evaluate] computes before the stages start. *)
Record plan := MkPlan {
  pSeller : string;
  pIDs : list string;
  pConfigs : gmap string PackageIdentityConfig;
  pVerified : list VerifiedIdentity;
  pVidOutcome : Outcome;
  pVidRejected : gset string;
  pWithSegments : gset string;
  pAudienceNeeded : bool;
}.

Definition make_plan (svc : Service) (req : IdentityMatchRequest) (start : Time) : plan :=
  let seller := canonicalSellerKey (imSellerAgentURL req) in
  let '(ids, configs) := ResolveRequest (configSvc svc) seller (imPackageIDs req) in
  let '(verified, outcome) := runVerifiedIdentityStage (deps svc) req start in
  let with_segments := packagesWithSegmentRules configs ids in
  MkPlan seller ids configs verified outcome
    (computeVerifiedIdentityGate (deps svc) (imCountry req) configs ids verified)
    with_segments (audienceSvc svc && negb (bool_decide (with_segments = ∅))).

(** What every run of one request shares. *)
Record env := MkEnv {
  eSvc : Service; eReq : IdentityMatchRequest; eSummary : DecodeSummary; eStart : Time;
  eCaps : S1; eCapsNow : Time; eAudiences : S2; eWalk : gset string → list string }.

Definition plan_of (e : env) : plan := make_plan (eSvc e) (eReq e) (eStart e).

Definition fcap_read (e : env) : result string (list bool) :=
  let p := plan_of e in
  IsCappedAny (eCaps e) (eCapsNow e) (cap_identities (eReq e) (pVerified p)) (fcap_fields (pSeller p) (pIDs p)).

Definition audience_read (e : env) : result string (list PackageEligibility) :=
  let p := plan_of e in
  EvaluateIdentityResolved (eWalk e) (engineAudience (eSvc e)) (eAudiences e) (pConfigs p) (pIDs p) (imIdentities (eReq e)).

(** A call ends with the store's answer, an error, the deadline, or, when the context is
    canceled, with that.  [faults]: whether calls may fail and clients leave. *)
Inductive admits {A} (faults : bool) (read : result string A) (canceled : bool) : call_outcome A → Prop :=
  | admits_read : admits faults read canceled (Answered read)
  | admits_error e : faults = true → admits faults read canceled (Answered (Err e))
  | admits_deadline : faults = true → admits faults read canceled DeadlineExceeded
  | admits_canceled : canceled = true → admits faults read canceled Canceled.

Definition start_run (e : env) : run_state :=
  let p := plan_of e in
  MkRun Calling
    (if pAudienceNeeded p then Calling
     else Finished (if bool_decide (pWithSegments p = ∅) then MkAud ∅ OutcomeUnset else MkAud (pWithSegments p) OutcomeFail))
    false.

Definition fcap_undecodable (e : env) : bool := undecodable (eSvc e) (pVerified (plan_of e)) (eSummary e).

Inductive step (faults : bool) (e : env) : run_state → run_state → Prop :=
  | step_undecodable au c :
      fcap_undecodable e = true →
      step faults e (MkRun Calling au c) (MkRun (Returned (MkFcap (list_to_set (pIDs (plan_of e))) OutcomeFailClosedUndecodable)) au c)
  | step_fcap au c a :
      fcap_undecodable e = false → admits faults (fcap_read e) c a →
      step faults e (MkRun Calling au c) (MkRun (Returned (fcap_of_answer (pIDs (plan_of e)) a)) au c)
  | step_fcap_end r au c :
      step faults e (MkRun (Returned r) au c) (MkRun (Finished r) au (c || allCapped r (pIDs (plan_of e))))
  | step_audience fc c a :
      admits faults (audience_read e) c a →
      step faults e (MkRun fc Calling c) (MkRun fc (Returned (aud_of_answer (pWithSegments (plan_of e)) a)) c)
  | step_audience_end fc r c :
      step faults e (MkRun fc (Returned r) c) (MkRun fc (Finished r) (c || allRejected r (pWithSegments (plan_of e))))
  | step_gone fc au c :
      faults = true →
      step faults e (MkRun fc au c) (MkRun fc au true).

(** The result that is returned when both stages have finished; a request for no registered
    package is answered before they start. *)
Definition result_of (e : env) (fc : fcapResult) (au : audienceResult) : IdentityResult :=
  let p := plan_of e in
  MkIdResult (imRequestID (eReq e)) (joinResults (pIDs p) (pWithSegments p) fc au (pVidRejected p)) (pVerified p)
    (terminalStatus (fcapOutcome fc) (audOutcome au) (pVidOutcome p)).

Inductive Evaluate (faults : bool) (e : env) : IdentityResult → Prop :=
  | evaluate_nothing : pIDs (plan_of e) = [] → Evaluate faults e (MkIdResult (imRequestID (eReq e)) [] [] StatusOK)
  | evaluate_run fc au c : pIDs (plan_of e) ≠ [] → rtc (step faults e) (start_run e) (MkRun (Finished fc) (Finished au) c) →
      Evaluate faults e (result_of e fc au).
End Service.
