(* ===== verification/IdentityThm.v ===== *)
(** * IdentityThm: eligibility is fail-closed, in every interleaving

    What a package needs to be eligible, as a specification over the stores' states; every
    run refines it, whatever fails or is canceled, and without failures runs meet it. *)
From stdpp Require Import gmap strings.
From S2P Require Import Prelude GoStrings Unicode NetUrl UrlCanon StrictJson TmpTypes Tmpx TmpxThm IdentityConfig Membership VerifiedId IdentityService.
From stdpp Require Import options.

(** ** Rules *)

Lemma forallb_elem {A} (f : A → bool) l : forallb f l = true ↔ ∀ x, x ∈ l → f x = true.
Proof. rewrite forallb_forall. by setoid_rewrite <- list_elem_of_In. Qed.

Lemma existsb_elem {A} (f : A → bool) l : existsb f l = true ↔ ∃ x, x ∈ l ∧ f x = true.
Proof. rewrite existsb_exists. by setoid_rewrite <- list_elem_of_In. Qed.

(** A user, as the segments of which it is a member, and a rule. *)
Definition satisfies (r : SegmentRule) (seg : string → Prop) : Prop :=
  (∀ s, s ∈ AllOf r → seg s) ∧ (AnyOf r = [] ∨ ∃ s, s ∈ AnyOf r ∧ seg s) ∧ (∀ s, s ∈ NoneOf r → ¬ seg s).

Lemma Matches_spec r U : Matches (Some r) U = true ↔ satisfies r (λ s, s ∈ U).
Proof.
  unfold Matches, satisfies. rewrite !andb_true_iff, orb_true_iff, !forallb_elem, existsb_elem, bool_decide_eq_true.
  setoid_rewrite negb_true_iff. setoid_rewrite bool_decide_eq_true. setoid_rewrite bool_decide_eq_false. tauto.
Qed.

Lemma satisfies_ext r P Q : (∀ s, s ∈ AllOf r ++ AnyOf r ++ NoneOf r → P s ↔ Q s) → satisfies r P ↔ satisfies r Q.
Proof.
  unfold satisfies. intros H. assert (∀ s, s ∈ AllOf r → P s ↔ Q s) by (intros; apply H; set_solver).
  assert (∀ s, s ∈ AnyOf r → P s ↔ Q s) by (intros; apply H; set_solver).
  assert (∀ s, s ∈ NoneOf r → P s ↔ Q s) by (intros; apply H; set_solver). naive_solver.
Qed.

Lemma elem_of_Segments r s : s ∈ Segments (Some r) ↔ s ∈ AllOf r ++ AnyOf r ++ NoneOf r.
Proof.
  unfold Segments. enough (∀ l out, s ∈ foldl add_unseen out l ↔ s ∈ out ∨ s ∈ l) as H.
  { rewrite H. split; [|by right]. intros [E|E]; [by apply elem_of_nil in E|exact E]. }
  induction l as [|x l IH]; intros out; cbn [foldl]; [set_solver|]. rewrite IH. unfold add_unseen.
  case_bool_decide; [|rewrite elem_of_app]; set_solver.
Qed.

Lemma elem_of_omap_zip {A} (l : list A) (f : A → bool) x :
  x ∈ omap (λ ib : A * bool, if ib.2 then Some ib.1 else None) (zip l (map f l)) ↔ x ∈ l ∧ f x = true.
Proof.
  induction l as [|y l IH]; [set_solver|]. cbn [map zip zip_with omap list_omap].
  change (omap ?g (zip_with pair l (map f l))) with (omap g (zip l (map f l))).
  cbn [fst snd]. destruct (f y) eqn:E; [rewrite !elem_of_cons, IH|rewrite elem_of_cons, IH]; naive_solver congruence.
Qed.

(** ** The specification *)

Section Spec.
Context `{RT : Runtime} `{XC : X25519} `{AEAD : ChaCha20Poly1305}.
Context {S1 : Type} {FS : FcapStore S1} {FSP : FcapStoreSpec S1} {S2 : Type} {AS : AudienceStore S2} {ASP : AudienceStoreSpec S2}.
Variable e : env (S1 := S1) (S2 := S2).
Let p : plan := plan_of e.

(** A cap of one of the identities stands, or none of them could be read. *)
Definition is_capped (id : string) : Prop :=
  fcap_undecodable e = true ∨
  ∃ k, k ∈ cap_identities (eReq e) (pVerified p) ∧
    holds (eCaps e) (eCapsNow e) (identityKey k) (fieldString (MkField (pSeller p) id)) = true.

Definition in_segment (seg : string) : Prop :=
  ∃ i, i ∈ imIdentities (eReq e) ∧ member (eAudiences e) (userKey (UserToken i)) seg = true.

Definition audience_allows (id : string) : Prop :=
  match rule_of (pConfigs p) id with
  | Some r => IsEmpty (Some r) = true ∨ (audienceSvc (eSvc e) = true ∧ engineAudience (eSvc e) = true ∧ satisfies r in_segment)
  | None => True
  end.

(** What makes a package eligible. *)
Definition eligible_spec (id : string) : Prop :=
  id ∈ pIDs p ∧ ¬ is_capped id ∧ audience_allows id ∧ id ∉ pVidRejected p.

Hypothesis walk_ok : ∀ s, eWalk e s ≡ₚ elements s.

(** *** Reads *)

Lemma fcap_read_exact bs : fcap_read e = Ok bs →
  bs = map (λ id, existsb (λ k, holds (eCaps e) (eCapsNow e) (identityKey k) (fieldString (MkField (pSeller p) id)))
                   (cap_identities (eReq e) (pVerified p))) (pIDs p).
Proof using FSP. unfold fcap_read. intros H. apply IsCappedAny_exact in H as ->. unfold fcap_fields. by rewrite map_map. Qed.

Lemma fcap_answer_exact bs id : fcap_undecodable e = false → fcap_read e = Ok bs → id ∈ pIDs p →
  id ∈ cappedByPkg (fcap_of_answer (pIDs p) (Answered (Ok bs))) ↔ is_capped id.
Proof using FSP.
  intros Hu H Hid. apply fcap_read_exact in H as ->. unfold fcap_of_answer. rewrite length_map, Nat.eqb_refl. cbn [negb cappedByPkg].
  rewrite elem_of_list_to_set, elem_of_omap_zip. unfold is_capped. rewrite Hu, existsb_elem. naive_solver.
Qed.

Lemma elem_of_collect configs ids seg :
  seg ∈ collectTargetSegments configs ids ↔
  ∃ id r, id ∈ ids ∧ rule_of configs id = Some r ∧ seg ∈ AllOf r ++ AnyOf r ++ NoneOf r.
Proof.
  unfold collectTargetSegments, rule_of. rewrite elem_of_list_to_set, list_elem_of_bind. split.
  - intros (id & Hs & Hid). destruct (configs !! id) as [[[r|] b]|] eqn:E; cbn [TargetSegments] in Hs; [|by apply elem_of_nil in Hs..].
    exists id, r. split_and!; [done|by rewrite E|]. by apply elem_of_Segments.
  - intros (id & r & Hid & Hr & Hs). exists id. split; [|done]. destruct (configs !! id) as [[r' b]|]; [|done]. cbn in Hr.
    subst r'. cbn [TargetSegments]. by apply elem_of_Segments.
Qed.

Lemma matched_exact (h : string → string → bool) ids segs out :
  matched_segments (membership_lookups ids segs) (map (λ l, h l.1 l.2) (membership_lookups ids segs)) = Ok out →
  ∀ seg, seg ∈ out ↔ seg ∈ segs ∧ ∃ i, i ∈ ids ∧ h (UserToken i) seg = true.
Proof.
  unfold matched_segments. rewrite length_map. destruct (Nat.ltb_spec (length (membership_lookups ids segs)) (length (membership_lookups ids segs))); [lia|].
  intros [= <-] seg. rewrite elem_of_list_to_set.
  assert (∀ l : list (string * string), seg ∈ omap (λ lb : string * string * bool, if lb.2 then Some lb.1.2 else None) (zip l (map (λ l, h l.1 l.2) l)) ↔
    ∃ t, (t, seg) ∈ l ∧ h t seg = true) as ->.
  { induction l as [|[t g] l IH]; [split; [by intros E%elem_of_nil|by intros (t & E%elem_of_nil & _)]|].
    cbn [map zip zip_with omap list_omap fst snd].
    change (omap ?g (zip_with pair l ?m)) with (omap g (zip l m)).
    destruct (h t g) eqn:E; [rewrite elem_of_cons, IH|rewrite IH]; setoid_rewrite elem_of_cons.
    - split; [intros [->|(t' & ? & ?)]; eauto|]. intros (t' & [[= -> ->]|?] & ?); eauto.
    - split; [intros (t' & ? & ?); eauto|]. intros (t' & [[= -> ->]|?] & ?); [congruence|eauto]. }
  unfold membership_lookups. setoid_rewrite list_elem_of_bind. setoid_rewrite list_elem_of_bind. setoid_rewrite list_elem_of_singleton. split.
  - intros (t & (i & (g & [= -> ->] & Hg) & Hi) & Hh). eauto.
  - intros (Hs & i & Hi & Hh). exists (UserToken i). split; [|done]. exists i. split; [|done]. by exists seg.
Qed.

Lemma audience_read_exact els : audience_read e = Ok els →
  ∃ U, els = map (evaluate_package (engineAudience (eSvc e)) (pConfigs p) U) (pIDs p) ∧
    (engineAudience (eSvc e) = true → ∀ id r, id ∈ pIDs p → rule_of (pConfigs p) id = Some r →
       Matches (Some r) U = true ↔ satisfies r in_segment).
Proof using ASP walk_ok.
  unfold audience_read, EvaluateIdentityResolved. fold p. set (segs := eWalk e (collectTargetSegments (pConfigs p) (pIDs p))).
  intros (U & HU & H)%bind_Ok. injection H as <-. exists U. split; [done|]. intros Ha id r Hid Hr. rewrite Matches_spec. apply satisfies_ext.
  intros seg Hseg.
  assert (seg ∈ segs) as Hin.
  { unfold segs. rewrite (walk_ok _), elem_of_elements, elem_of_collect. eauto. }
  rewrite Ha in HU. cbn [negb orb] in HU. destruct (bool_decide_reflect (imIdentities (eReq e) = [])) as [Hi|Hi]; cbn [orb] in HU.
  { injection HU as <-. unfold in_segment. rewrite Hi. split; [set_solver|]. by intros (i & E%elem_of_nil & _). }
  destruct (bool_decide_reflect (segs = [])) as [Hs|Hs]; [rewrite Hs in Hin; by apply elem_of_nil in Hin|].
  apply bind_Ok in HU as (rs & Hrs & HU).
  assert (rs = map (λ l, member (eAudiences e) (userKey l.1) l.2) (membership_lookups (imIdentities (eReq e)) segs)) as ->.
  { unfold IsMemberBatch in Hrs. case_bool_decide as El; [rewrite El; by injection Hrs as <-|].
    apply hexists_member in Hrs as ->. by rewrite map_map. }
  apply (matched_exact (λ t, member (eAudiences e) (userKey t))) with (seg := seg) in HU. rewrite HU. unfold in_segment. tauto.
Qed.

Lemma with_segments_spec id :
  id ∈ pWithSegments p ↔ id ∈ pIDs p ∧ ∃ r, rule_of (pConfigs p) id = Some r ∧ IsEmpty (Some r) = false.
Proof.
  assert (pWithSegments p = packagesWithSegmentRules (pConfigs p) (pIDs p)) as ->.
  { unfold p, plan_of, make_plan. by destruct (ResolveRequest _ _ _), (runVerifiedIdentityStage _ _ _). }
  unfold packagesWithSegmentRules. rewrite elem_of_list_to_set, list_elem_of_filter.
  destruct (rule_of (pConfigs p) id) as [r|]; [|split; [intros [E _]; discriminate E|intros (_ & ? & ? & _); done]].
  split; [intros [? ?]; eauto|]. intros (? & r' & [= <-] & ?). done.
Qed.

Lemma audience_answer_exact els id : pAudienceNeeded p = true → audience_read e = Ok els → id ∈ pWithSegments p →
  id ∈ rejected (aud_of_answer (pWithSegments p) (Answered (Ok els))) ↔ ¬ audience_allows id.
Proof using ASP walk_ok.
  intros Hn H Hid. apply audience_read_exact in H as (U & -> & HU).
  assert (audienceSvc (eSvc e) = true) as Ha.
  { revert Hn. unfold p, plan_of, make_plan. destruct (ResolveRequest _ _ _), (runVerifiedIdentityStage _ _ _). cbn.
    by intros [? _]%andb_true_iff. }
  pose proof Hid as (Hp & r & Hr & He)%with_segments_spec. unfold audience_allows. rewrite Hr, He, Ha.
  assert (Eligible (evaluate_package (engineAudience (eSvc e)) (pConfigs p) U id) = true ↔ engineAudience (eSvc e) = true ∧ satisfies r in_segment) as E.
  { unfold evaluate_package. cbn [Eligible]. rewrite Hr, He. cbn [orb]. rewrite andb_true_iff.
    destruct (engineAudience (eSvc e)) eqn:Ee; [|split; [intros [? _]; done|intros [? _]; done]]. by rewrite (HU eq_refl id r Hp Hr). }
  unfold aud_of_answer. cbn [rejected]. rewrite elem_of_list_to_set, list_elem_of_omap.
  transitivity (Eligible (evaluate_package (engineAudience (eSvc e)) (pConfigs p) U id) = false).
  - split.
    + intros (el & Hel & Hf). apply list_elem_of_fmap in Hel as (id' & -> & _).
      change (PkgID (evaluate_package _ _ U id')) with id' in Hf.
      destruct (bool_decide (id' ∈ pWithSegments p)); [|done]. cbn [andb] in Hf.
      destruct (Eligible (evaluate_package _ _ U id')) eqn:Eel; [done|]. injection Hf as <-. exact Eel.
    + intros Hel. eexists. split; [apply list_elem_of_fmap; exists id; split; [reflexivity|done]|].
      change (PkgID (evaluate_package _ _ U id)) with id. rewrite bool_decide_eq_true_2, Hel by done. done.
  - rewrite <- not_true_iff_false, E. split; [intros Hno [?|(_ & ? & ?)]; [done|tauto]|]. intros Hno [? ?]. apply Hno. right. tauto.
Qed.

(** *** Safety of every run *)

Definition result_in {A} (t : thread A) (r : A) : Prop := t = Returned r ∨ t = Finished r.

Lemma result_in_Calling {A} (r : A) : ¬ result_in Calling r.
Proof. by intros [?|?]. Qed.
Lemma result_in_Returned {A} (r r' : A) : result_in (Returned r) r' ↔ r' = r.
Proof. unfold result_in. naive_solver. Qed.
Lemma result_in_Finished {A} (r r' : A) : result_in (Finished r) r' ↔ r' = r.
Proof. unfold result_in. naive_solver. Qed.

Definition fc_safe (r : fcapResult) : Prop := ∀ id, id ∈ pIDs p → id ∉ cappedByPkg r → ¬ is_capped id.
Definition au_safe (r : audienceResult) : Prop := ∀ id, id ∈ pWithSegments p → id ∉ rejected r → audience_allows id.

Record safe (st : run_state) : Prop := {
  safe_fc r : result_in (fcThread st) r → fc_safe r;
  safe_au r : result_in (auThread st) r → au_safe r;
  safe_needed : auThread st = Calling → pAudienceNeeded p = true;
}.

Lemma audience_allows_dec els id : pAudienceNeeded p = true → audience_read e = Ok els → id ∈ pWithSegments p →
  id ∉ rejected (aud_of_answer (pWithSegments p) (Answered (Ok els))) → audience_allows id.
Proof using ASP walk_ok.
  intros Hn H Hid Hr. pose proof H as (U & HU & HM)%audience_read_exact. pose proof Hid as (Hp & r & Hrule & He)%with_segments_spec.
  assert (audienceSvc (eSvc e) = true) as Ha.
  { revert Hn. unfold p, plan_of, make_plan. destruct (ResolveRequest _ _ _), (runVerifiedIdentityStage _ _ _). cbn.
    by intros [? _]%andb_true_iff. }
  unfold audience_allows. rewrite Hrule, Ha. right.
  destruct (Eligible (evaluate_package (engineAudience (eSvc e)) (pConfigs p) U id)) eqn:Eel.
  - unfold evaluate_package in Eel. cbn [Eligible] in Eel. rewrite Hrule, He in Eel. cbn [orb] in Eel.
    apply andb_true_iff in Eel as [Ee Em]. split_and!; [done|done|]. by apply (HM Ee id r).
  - exfalso. apply Hr. unfold aud_of_answer. cbn [rejected]. rewrite elem_of_list_to_set, list_elem_of_omap.
    eexists. split; [rewrite HU; apply list_elem_of_fmap; exists id; split; [reflexivity|done]|].
    change (PkgID (evaluate_package _ _ U id)) with id. by rewrite bool_decide_eq_true_2, Eel.
Qed.

Lemma fc_safe_answer faults c a : fcap_undecodable e = false → admits faults (fcap_read e) c a → fc_safe (fcap_of_answer (pIDs p) a).
Proof using FSP.
  assert (∀ o, fc_safe (MkFcap (list_to_set (pIDs p)) o)) as Hall.
  { intros o id Hid Hn. exfalso. apply Hn. cbn. by apply elem_of_list_to_set. }
  intros Hu Ha. destruct Ha as [|err|?|?]; cbn [fcap_of_answer]; try apply Hall.
  destruct (fcap_read e) as [bs|err] eqn:Er; [|apply Hall]. intros id Hid Hn. rewrite <- (fcap_answer_exact bs) by done. exact Hn.
Qed.

Lemma au_safe_answer faults c a : pAudienceNeeded p = true → admits faults (audience_read e) c a → au_safe (aud_of_answer (pWithSegments p) a).
Proof using ASP walk_ok.
  intros Hn Ha id Hid. destruct Ha as [|err|?|?]; cbn [aud_of_answer rejected]; try done.
  destruct (audience_read e) as [els|err] eqn:Er; [|done]. by apply audience_allows_dec.
Qed.

Lemma safe_start : safe (start_run e).
Proof.
  unfold start_run. fold p. split; cbn [fcThread auThread].
  - intros r H. by apply result_in_Calling in H.
  - intros r. destruct (pAudienceNeeded p); [intros H; by apply result_in_Calling in H|]. rewrite result_in_Finished. intros ->.
    case_bool_decide as Ew; intros id Hid; [rewrite Ew in Hid; by apply not_elem_of_empty in Hid|]. cbn [rejected]. done.
  - by destruct (pAudienceNeeded p).
Qed.

Lemma safe_step faults st st' : safe st → step faults e st st' → safe st'.
Proof using FSP ASP walk_ok.
  intros [Hf Ha Hn] Hs. destruct Hs; split; cbn [fcThread auThread] in *; try done;
    try (intros r' Hr'; first [apply result_in_Returned in Hr' as ->|apply result_in_Finished in Hr' as ->]).
  - intros id Hid Hno. exfalso. apply Hno. cbn. by apply elem_of_list_to_set.
  - by eapply fc_safe_answer.
  - apply Hf. by left.
  - eapply au_safe_answer; [by apply Hn|done].
  - apply Ha. by left.
Qed.

Lemma safe_run faults st : rtc (step faults e) (start_run e) st → safe st.
Proof using FSP ASP walk_ok.
  intros H. assert (∀ s t, rtc (step faults e) s t → safe s → safe t) as R; [|exact (R _ _ H safe_start)].
  clear H. induction 1; eauto using safe_step.
Qed.

Lemma eligible_sound faults res el :
  Evaluate faults e res → el ∈ Eligibility res → Eligible el = true → eligible_spec (PkgID el).
Proof using FSP ASP walk_ok.
  intros HE Hel Helig. destruct HE as [_|fc au c _ Hrun]; [by apply elem_of_nil in Hel|].
  apply safe_run in Hrun as [Hf Ha _]. cbn [fcThread auThread] in *.
  unfold result_of in Hel. cbn [Eligibility] in Hel. fold p in Hel. unfold joinResults in Hel. apply list_elem_of_fmap in Hel as (id & -> & Hid).
  unfold join_one in Helig. cbn [Eligible] in Helig. change (PkgID (join_one _ _ _ _ id)) with id.
  apply andb_true_iff in Helig as [Helig Hv]. apply andb_true_iff in Helig as [Hc Hr].
  rewrite negb_true_iff, bool_decide_eq_false in Hc, Hv. split_and!; [done| | |done].
  - apply (Hf fc); [by right|done|done].
  - apply negb_true_iff, andb_false_iff in Hr.
    destruct (decide (id ∈ pWithSegments p)) as [Hw|Hw].
    + apply (Ha au); [by right|done|]. destruct Hr as [Hr|Hr]; apply bool_decide_eq_false in Hr; done.
    + unfold audience_allows. destruct (rule_of (pConfigs p) id) as [r|] eqn:Er; [|done]. left. apply not_false_iff_true. intros He.
      apply Hw. apply with_segments_spec. eauto.
Qed.

(** whatever calls fail, time out or are canceled, and in every order of the stages'
    steps, a package comes out eligible only if it is asked for and registered, no cap of the
    request's identities stands, its audience rule is met, and the verified-identity
    gate passes it; where identities could not be decoded none does. *)
Theorem eligible_fail_closed faults res el :
  Evaluate faults e res → el ∈ Eligibility res → Eligible el = true → eligible_spec (PkgID el).
Proof using FSP ASP walk_ok. apply eligible_sound. Qed.

(** Without identities a user is in no segment: exclusions pass. *)
Lemma exclusions_pass_without_identities id r :
  imIdentities (eReq e) = [] → rule_of (pConfigs p) id = Some r → AllOf r = [] → AnyOf r = [] →
  audienceSvc (eSvc e) = true → engineAudience (eSvc e) = true → audience_allows id.
Proof.
  clear walk_ok. intros Hi Hr Ha Ho Hs He. unfold audience_allows. rewrite Hr. right. split; [done|]. split; [done|].
  unfold satisfies, in_segment. rewrite Hi, Ha, Ho. split_and!.
  - by intros s H%elem_of_nil.
  - by left.
  - by intros s _ (i & H%elem_of_nil & _).
Qed.

(** *** Exactness of runs in which no call fails *)

(** One stage's answer settles the request, as far as that stage can tell. *)
Definition decided : Prop :=
  (pIDs p ≠ [] ∧ ∀ id, id ∈ pIDs p → is_capped id) ∨ (pWithSegments p ≠ ∅ ∧ ∀ id, id ∈ pWithSegments p → ¬ audience_allows id).

Definition fc_exact (r : fcapResult) : Prop :=
  (∀ id, id ∈ pIDs p → id ∈ cappedByPkg r ↔ is_capped id) ∨ (decided ∧ ∀ id, id ∈ pIDs p → id ∈ cappedByPkg r).
Definition au_exact (r : audienceResult) : Prop :=
  (∀ id, id ∈ pWithSegments p → id ∈ rejected r ↔ ¬ audience_allows id) ∨ (decided ∧ ∀ id, id ∈ pWithSegments p → id ∈ rejected r).

Record exact (st : run_state) : Prop := {
  exact_fc r : result_in (fcThread st) r → fc_exact r;
  exact_au r : result_in (auThread st) r → au_exact r;
  exact_needed : auThread st = Calling → pAudienceNeeded p = true;
  exact_canceled : ctxCanceled st = true → decided;
}.

Hypothesis fcap_ok : is_ok (fcap_read e) = true.
Hypothesis audience_ok : is_ok (audience_read e) = true.

Lemma unconfigured_rejects id : pAudienceNeeded p = false → id ∈ pWithSegments p → ¬ audience_allows id.
Proof.
  clear walk_ok fcap_ok audience_ok.
  intros Hn Hid. pose proof Hid as (_ & r & Hr & He)%with_segments_spec. unfold audience_allows. rewrite Hr, He.
  assert (audienceSvc (eSvc e) = false) as ->; [|by intros [?|(? & _)]].
  assert (pWithSegments p ≠ ∅) as Hw by (intros E; rewrite E in Hid; by apply not_elem_of_empty in Hid).
  revert Hn Hw. unfold p, plan_of, make_plan. destruct (ResolveRequest _ _ _), (runVerifiedIdentityStage _ _ _).
  cbn [pAudienceNeeded pWithSegments]. intros [?|Hn]%andb_false_iff Hw; [done|]. apply negb_false_iff, bool_decide_eq_true in Hn. done.
Qed.

Lemma exact_start : exact (start_run e).
Proof.
  clear walk_ok fcap_ok audience_ok.
  unfold start_run. fold p. split; cbn [fcThread auThread ctxCanceled]; [| | |done].
  - intros r H. by apply result_in_Calling in H.
  - intros r. destruct (pAudienceNeeded p) eqn:Hn; [intros H; by apply result_in_Calling in H|]. rewrite result_in_Finished. intros ->.
    left. intros id Hid. case_bool_decide as Ew; [rewrite Ew in Hid; by apply not_elem_of_empty in Hid|]. cbn [rejected].
    split; [|done]. intros _. by apply unconfigured_rejects.
  - by destruct (pAudienceNeeded p).
Qed.

Lemma allCapped_decided r : fc_exact r → allCapped r (pIDs p) = true → decided.
Proof.
  clear walk_ok fcap_ok audience_ok.
  intros [He|[Hd _]] Hc; [|done]. apply andb_true_iff in Hc as [Hn Hc]. left. split.
  - intros E. by rewrite E in Hn.
  - intros id Hid. apply He; [done|]. rewrite forallb_elem in Hc. by apply Hc, bool_decide_eq_true in Hid.
Qed.

Lemma allRejected_decided r : au_exact r → allRejected r (pWithSegments p) = true → decided.
Proof.
  clear walk_ok fcap_ok audience_ok.
  intros [He|[Hd _]] Hc; [|done]. apply andb_true_iff in Hc as [Hn Hc]. apply bool_decide_eq_true in Hc. right. split.
  - intros E. by rewrite E in Hn.
  - intros id Hid. apply He; [done|]. by apply Hc.
Qed.

Lemma exact_step st st' : exact st → step false e st st' → exact st'.
Proof using FSP ASP walk_ok fcap_ok audience_ok.
  intros [Hf Ha Hn Hc] Hs. destruct Hs as [au c Hu|au c a Hu Had|r au c|fc c a Had|fc r c|fc au c Hno]; [..|done]; split;
    cbn [fcThread auThread ctxCanceled] in *; try done;
    try (intros r' Hr'; first [apply result_in_Returned in Hr' as ->|apply result_in_Finished in Hr' as ->]).
  - left. intros id Hid. cbn [cappedByPkg]. rewrite elem_of_list_to_set. split; [|done]. intros _. left. exact Hu.
  - destruct Had as [|?|?|Hcan]; [|done|done|].
    + left. destruct (fcap_read e) as [bs|] eqn:Er; [|done]. intros id Hid. by apply fcap_answer_exact.
    + right. split; [by apply Hc|]. intros id Hid. cbn. by apply elem_of_list_to_set.
  - apply Hf. by left.
  - intros [H|H]%orb_true_iff; [by apply Hc|]. eapply allCapped_decided; [|exact H]. apply Hf. by left.
  - destruct Had as [|?|?|Hcan]; [|done|done|].
    + left. destruct (audience_read e) as [els|] eqn:Er; [|done]. intros id Hid. apply audience_answer_exact; [by apply Hn|done|done].
    + right. split; [by apply Hc|]. done.
  - apply Ha. by left.
  - intros [H|H]%orb_true_iff; [by apply Hc|]. eapply allRejected_decided; [|exact H]. apply Ha. by left.
Qed.

Lemma exact_run st : rtc (step false e) (start_run e) st → exact st.
Proof using FSP ASP walk_ok fcap_ok audience_ok.
  intros H. assert (∀ s t, rtc (step false e) s t → exact s → exact t) as R; [|exact (R _ _ H exact_start)].
  clear H. induction 1; eauto using exact_step.
Qed.

(** C19: where the stores answer, and unless every package with an audience rule is ruled out while
    others have none, the answer lists the packages in their order and is exact: each is
    eligible if and only if its specification holds, in whatever order the stages run and
    whichever of them cancels the other. *)
Theorem eligible_exact res el :
  Evaluate false e res →
  (∀ id, id ∈ pIDs p → id ∈ pWithSegments p) ∨ (∃ id, id ∈ pWithSegments p ∧ audience_allows id) ∨ pWithSegments p = ∅ →
  map PkgID (Eligibility res) = pIDs p ∧
  (el ∈ Eligibility res → Eligible el = true ↔ eligible_spec (PkgID el)).
Proof using FSP ASP walk_ok fcap_ok audience_ok.
  intros HE Hcond. split.
  { destruct HE as [Hn|fc au c _ _]; [fold p in Hn; by rewrite Hn|]. unfold result_of. fold p. cbn [Eligibility].
    unfold joinResults. rewrite map_map. apply map_id. }
  intros Hel. split; [by eapply eligible_sound|]. intros (Hid & Hc & Ha & Hv).
  destruct HE as [Hn|fc au c _ Hrun]; [by apply elem_of_nil in Hel|]. apply exact_run in Hrun as [Hf Hau _ _].
  cbn [fcThread auThread] in *. unfold result_of in Hel. cbn [Eligibility] in Hel. fold p in Hel. unfold joinResults in Hel.
  apply list_elem_of_fmap in Hel as (id & -> & _). change (PkgID (join_one _ _ _ _ id)) with id in *.
  unfold join_one. cbn [Eligible].
  assert (¬ decided) as Hnd.
  { intros [[_ Hall]|[Hne Hall]]; [by apply Hc, Hall|]. destruct Hcond as [H|[(id' & Hid' & H)|H]].
    - by apply (Hall id (H id Hid)).
    - by apply (Hall id' Hid').
    - done. }
  rewrite !andb_true_iff, !negb_true_iff, !bool_decide_eq_false. split_and!; [| |done].
  - destruct (Hf fc (or_intror eq_refl)) as [He|[? _]]; [|done]. by rewrite He.
  - apply andb_false_iff. destruct (decide (id ∈ pWithSegments p)) as [Hw|Hw]; [right|left; by apply bool_decide_eq_false].
    apply bool_decide_eq_false. destruct (Hau au (or_intror eq_refl)) as [He|[? _]]; [|done]. rewrite He by done. tauto.
Qed.
End Spec.

(** ** Concrete runs *)

Definition sample_snapshot : snapshotData :=
  buildSnapshot (RT := ascii_runtime) (MkSnapshot
    [MkCfgEntry (sample_seller, "adults-only") (Some sample_rule); MkCfgEntry (sample_seller, "for-all") None] 100).
Definition sample_service : Service := MkService true true sample_snapshot false (MkDeps None ∅ None "").
Definition sample_request (ids : list IdentityToken) : IdentityMatchRequest :=
  MkIdentityRequest TypeIdentityMatchRequest "" "r-1" sample_seller ids ∅ ["adults-only"; "for-all"; "unknown"] "" [].
Definition sample_user : IdentityToken := MkToken "user-1" "id5" None.
Definition member_of (seg : string) : MockAudience :=
  foldl hset (MkMockAudience ∅) [MkHSet (userKey (RT := ascii_runtime) "user-1") seg "0"].
Definition sample_env (a : MockAudience) : env :=
  MkEnv sample_service (sample_request [sample_user]) (MkSummary 1 1) 0 (MkMock ∅) 0 a elements.

#[local] Existing Instance ascii_runtime.

(** The cap stage ends first, then the audience stage, both with what their stores say. *)
Definition fcaps (a : MockAudience) : fcapResult :=
  fcap_of_answer (pIDs (plan_of (sample_env a))) (Answered (fcap_read (sample_env a))).
Definition audiences (a : MockAudience) : audienceResult :=
  aud_of_answer (pWithSegments (plan_of (sample_env a))) (Answered (audience_read (sample_env a))).

Lemma start_sample a : start_run (sample_env a) = MkRun Calling Calling false.
Proof. vm_compute. reflexivity. Qed.

Lemma sample_pIDs a : pIDs (plan_of (sample_env a)) = ["adults-only"; "for-all"].
Proof. vm_compute. reflexivity. Qed.

Lemma caps_first a : Evaluate false (sample_env a) (result_of (sample_env a) (fcaps a) (audiences a)).
Proof.
  eapply evaluate_run; [by rewrite sample_pIDs|]. rewrite start_sample.
  eapply rtc_l; [eapply step_fcap; [reflexivity|apply admits_read]|].
  eapply rtc_l; [apply step_fcap_end|].
  eapply rtc_l; [eapply step_audience, admits_read|].
  eapply rtc_l; [apply step_audience_end|]. apply rtc_refl.
Qed.

(** The audience stage ends first: it has ruled out the only package with a rule and cancels
    the cap stage. *)
Lemma audience_first : Evaluate false (sample_env (MkMockAudience ∅))
  (result_of (sample_env (MkMockAudience ∅)) (fcap_of_answer (pIDs (plan_of (sample_env (MkMockAudience ∅)))) Canceled) (audiences (MkMockAudience ∅))).
Proof.
  eapply evaluate_run; [by rewrite sample_pIDs|]. rewrite start_sample.
  eapply rtc_l; [eapply step_audience, admits_read|].
  eapply rtc_l; [apply step_audience_end|].
  eapply rtc_l; [eapply step_fcap; [reflexivity|apply admits_canceled; vm_compute; reflexivity]|].
  eapply rtc_l; [apply step_fcap_end|]. apply rtc_refl.
Qed.

(** The package without a rule is eligible or not, depending on the race, with no failure and
    the same status. *)
Lemma sibling_cancel_drops_package :
  ∃ r1 r2, Evaluate false (sample_env (MkMockAudience ∅)) r1 ∧ Evaluate false (sample_env (MkMockAudience ∅)) r2 ∧
    MkEligibility "for-all" true ∈ Eligibility r1 ∧ MkEligibility "for-all" false ∈ Eligibility r2 ∧
    ResultStatus r1 = StatusOK ∧ ResultStatus r2 = StatusOK.
Proof.
  eexists _, _. split; [apply caps_first|]. split; [apply audience_first|].
  split; [apply (bool_decide_eq_true_1 _); vm_compute; reflexivity|].
  split; [apply (bool_decide_eq_true_1 _); vm_compute; reflexivity|].
  split; vm_compute; reflexivity.
Qed.

Example eligible_fail_closed_witness :
  MkEligibility "adults-only" true ∈ Eligibility (result_of (sample_env (member_of "adults")) (fcaps (member_of "adults")) (audiences (member_of "adults"))) ∧
  eligible_spec (sample_env (member_of "adults")) "adults-only".
Proof.
  assert (MkEligibility "adults-only" true ∈ Eligibility (result_of (sample_env (member_of "adults")) (fcaps (member_of "adults")) (audiences (member_of "adults")))) as H
    by (apply (bool_decide_eq_true_1 _); vm_compute; reflexivity).
  split; [exact H|].
  exact (eligible_fail_closed (sample_env (member_of "adults")) (λ s, reflexivity _) false _ _ (caps_first (member_of "adults")) H eq_refl).
Defined.

Lemma adults_allowed : audience_allows (sample_env (member_of "adults")) "adults-only".
Proof.
  unfold audience_allows.
  assert (rule_of (pConfigs (plan_of (sample_env (member_of "adults")))) "adults-only" = Some sample_rule) as -> by (vm_compute; reflexivity).
  right. split; [reflexivity|]. split; [reflexivity|]. split_and!.
  - intros s Hs. apply list_elem_of_singleton in Hs as ->. exists sample_user. split; [by left|]. vm_compute. reflexivity.
  - by left.
  - intros s Hs. apply list_elem_of_singleton in Hs as ->. intros (i & Hi & Hm). apply list_elem_of_singleton in Hi as ->.
    revert Hm. vm_compute. discriminate.
Qed.

Example eligible_exact_witness :
  map PkgID (Eligibility (result_of (sample_env (member_of "adults")) (fcaps (member_of "adults")) (audiences (member_of "adults")))) =
    ["adults-only"; "for-all"] ∧
  eligible_spec (sample_env (member_of "adults")) "for-all".
Proof.
  assert ("adults-only" ∈ pWithSegments (plan_of (sample_env (member_of "adults")))) as Hw
    by (apply (bool_decide_eq_true_1 _); vm_compute; reflexivity).
  assert (MkEligibility "for-all" true ∈ Eligibility (result_of (sample_env (member_of "adults")) (fcaps (member_of "adults")) (audiences (member_of "adults")))) as H
    by (apply (bool_decide_eq_true_1 _); vm_compute; reflexivity).
  assert (is_ok (fcap_read (sample_env (member_of "adults"))) = true) as Hf by (vm_compute; reflexivity).
  assert (is_ok (audience_read (sample_env (member_of "adults"))) = true) as Hr by (vm_compute; reflexivity).
  destruct (eligible_exact (sample_env (member_of "adults")) (λ s, reflexivity _) Hf Hr _ (MkEligibility "for-all" true)
    (caps_first (member_of "adults")) (or_intror (or_introl (ex_intro _ "adults-only" (conj Hw adults_allowed))))) as [Hm He].
  split; [rewrite Hm; apply sample_pIDs|]. exact (proj1 (He H) eq_refl).
Defined.
