(* ===== verification/IdentityHandler.v ===== *)
(** * IdentityHandler: the endpoint of the identity agent

    [targeting/identityagent/handler.go] and the part of [tmpx.go] that seals verified
    identities: admission of a request, the identities it is evaluated with, the answer and
    its exposure token; and what such an answer guarantees.  The body enters decoded; its version members are arguments. *)
From stdpp Require Import gmap strings.
From S2P Require Import Prelude GoStrings Unicode Bytes NetUrl UrlCanon StrictJson TmpTypes TmpValidate Tmpx TmpxThm TmpxSeal.
From S2P Require Import IdentityConfig Membership VerifiedId IdentityService IdentityThm.
From stdpp Require Import options.

Definition minServeWindowSec : Z := 1.
Definition maxServeWindowSec : Z := 300.

(** [int(ttl.Seconds())]: the whole seconds, towards zero. *)
Definition serveWindowSeconds (ttl : Duration) : Z :=
  let seconds := Z.quot ttl Second in
  if (maxServeWindowSec <? seconds)%Z then maxServeWindowSec
  else if (seconds <? minServeWindowSec)%Z then minServeWindowSec else seconds.

Inductive answer :=
  | Rejected (echo : string)
  | Failed (echo : string) (code : string)
  | Matched (resp : ProviderIdentityMatchResponse).

Definition errorCodeForStatus (s : Status) : string :=
  match s with StatusTimeout => "timeout" | StatusProviderUnavailable => "provider_unavailable" | StatusOK => "internal_error" end.

Definition decodedSuccessCount (decoded : list DecodedIdentity) : nat :=
  length (filter (λ d, dBytes d ≠ "") decoded).

(** The attestation carriers that did not decode. *)
Definition undecoded_carriers (inbound : list IdentityToken) (decoded : list DecodedIdentity) : list IdentityToken :=
  omap (λ id, match IdAttestation id.1 with
              | None => None
              | Some _ => if bool_decide (dBytes id.2 = "") then Some id.1 else None
              end) (zip inbound decoded).

Definition serviceIdentities (inbound : list IdentityToken) (decoded : list DecodedIdentity) : list IdentityToken :=
  audienceEligibleIdentities decoded ++ undecoded_carriers inbound decoded.

Definition with_identities (req : IdentityMatchRequest) (ids : list IdentityToken) : IdentityMatchRequest :=
  MkIdentityRequest (imType req) (imProtocolVersion req) (imRequestID req) (imSellerAgentURL req) ids (imConsent req)
    (imPackageIDs req) (imCountry req) (imSealedCredentials req).

Record IdentityHandlerConfig := MkHandler {
  hService : Service;
  hSealer : option (TMPXSealer * string * (string → option Decoder));
  hCanonicalizer : option (string → option Decoder);
  hResponseTTL : Duration;
  hMajorVersions : list Z;
  hVersions : list string;
  hRequireConsent : bool;
}.

(** [adcp_version] where it is given and releases are configured, else the deprecated major. *)
Definition version_ok (h : IdentityHandlerConfig) (adcpVersion : string) (major : Z) : bool :=
  if negb (bool_decide (adcpVersion = "")) && negb (bool_decide (hVersions h = [])) then bool_decide (adcpVersion ∈ hVersions h)
  else (major =? 0)%Z || bool_decide (major ∈ hMajorVersions h).

(** The request the service sees, what was decoded, and the summary; without a canonicalizer
    there is none. *)
Definition buildServiceRequest (h : IdentityHandlerConfig) (req : IdentityMatchRequest) :
    IdentityMatchRequest * option (list DecodedIdentity) * DecodeSummary :=
  match hCanonicalizer h with
  | None => (req, None, MkSummary 0 0)
  | Some decoders =>
      let decoded := decodeIdentities decoders (imIdentities req) in
      (with_identities req (serviceIdentities (imIdentities req) decoded), Some decoded,
       MkSummary (length (imIdentities req)) (decodedSuccessCount decoded))
  end.

(** What sealing reads of the world: whether the deadline has passed, the published key, the
    clock, the nonce and the ephemeral key. *)
Record seal_env := MkSealEnv {
  seExpired : bool; seRecipient : option TmpxRecipient; seNow : Time; seNonce : result string string; seKey : result string string }.

Section Handler.
Context `{RT : Runtime} `{XC : X25519} `{AEAD : ChaCha20Poly1305}.

Definition admission (h : IdentityHandlerConfig) (req : IdentityMatchRequest) (adcpVersion : string) (major : Z) :
    result string IdentityMatchRequest :=
  req ← ValidateIdentityRequest req;
  _ ← guard_err (version_ok h adcpVersion major) "version is not supported";
  _ ← guard_err (negb (hRequireConsent h && bool_decide (imConsent req = ∅))) "consent object is required in this jurisdiction";
  Ok req.

Definition verifiedIdentityEntries (verified : list VerifiedIdentity) : list DecodedIdentity :=
  omap (λ vi, if bool_decide (Nullifier vi = "") then None else
              match nullifier_Token (viRelyingPartyID vi) (Nullifier vi) with
              | Ok b => Some (MkDecoded UIDTypeWorldIDNullifier b)
              | Err _ => None
              end) verified.

Definition seal_input (decoders : string → option Decoder) (req : IdentityMatchRequest) (decoded : option (list DecodedIdentity))
    (verified : list VerifiedIdentity) : list DecodedIdentity :=
  match decoded with Some d => d | None => decodeIdentities decoders (imIdentities req) end ++ verifiedIdentityEntries verified.

Definition tmpx_chunks (h : IdentityHandlerConfig) (req : IdentityMatchRequest) (decoded : option (list DecodedIdentity))
    (res : IdentityResult) (eligible : list string) (s : seal_env) : list TmpxChunk :=
  match hSealer h with
  | Some (sealer, country, decoders) =>
      if bool_decide (eligible = []) then [] else
      match SealDecoded sealer country (seExpired s) (seRecipient s) (seal_input decoders req decoded (Verified res)) (seNow s) (seNonce s) (seKey s) with
      | Ok token => if bool_decide (token = "") then [] else ChunkEntries sealer token
      | Err _ => []
      end
  | None => []
  end.

Definition eligible_ids (res : IdentityResult) : list string := map PkgID (filter (λ el, Eligible el = true) (Eligibility res)).

(** [expired]: the request's budget has run out when the service returns. *)
Definition respond (h : IdentityHandlerConfig) (req : IdentityMatchRequest) (decoded : option (list DecodedIdentity)) (expired : bool)
    (res : IdentityResult) (s : seal_env) : answer :=
  let echo := SafeRequestIDForEcho (imRequestID req) in
  if expired then Failed echo "timeout" else
  match ResultStatus res with
  | StatusOK =>
      let eligible := eligible_ids res in
      Matched (MkProviderIdentity TypeIdentityMatchResponse (ResultRequestID res) eligible
        (serveWindowSeconds (hResponseTTL h)) (tmpx_chunks h req decoded res eligible s))
  | st => Failed echo (errorCodeForStatus st)
  end.

Context {S1 : Type} `{FS : FcapStore S1} {S2 : Type} `{AS : AudienceStore S2}.

(** The stores and clocks of one request. *)
Record world := MkWorld { wStart : Time; wCaps : S1; wCapsNow : Time; wAudiences : S2; wWalk : gset string → list string }.

Definition service_env (h : IdentityHandlerConfig) (w : world) (req : IdentityMatchRequest) : env :=
  let '(sreq, _, summary) := buildServiceRequest h req in
  MkEnv (hService h) sreq summary (wStart w) (wCaps w) (wCapsNow w) (wAudiences w) (wWalk w).

Inductive ServeHTTP (h : IdentityHandlerConfig) (w : world) (req : IdentityMatchRequest) (adcpVersion : string) (major : Z) : answer → Prop :=
  | serve_rejected e : admission h req adcpVersion major = Err e →
      ServeHTTP h w req adcpVersion major (Rejected (SafeRequestIDForEcho (imRequestID req)))
  | serve_evaluated req' res expired s :
      admission h req adcpVersion major = Ok req' →
      Evaluate true (service_env h w req') res →
      ServeHTTP h w req adcpVersion major (respond h req' (buildServiceRequest h req').1.2 expired res s).
End Handler.

(** * What the identity agent answers *)

Lemma serveWindow_bounds ttl : (minServeWindowSec ≤ serveWindowSeconds ttl ≤ maxServeWindowSec)%Z.
Proof.
  unfold serveWindowSeconds, minServeWindowSec, maxServeWindowSec.
  destruct (Z.ltb_spec 300 (Z.quot ttl Second)); [lia|]. destruct (Z.ltb_spec (Z.quot ttl Second) 1); lia.
Qed.

Section Thm.
Context `{RT : Runtime} `{XC : X25519} `{AEAD : ChaCha20Poly1305}.

Lemma validated_request req req' : ValidateIdentityRequest req = Ok req' → req' = with_country req (imCountry req').
Proof.
  unfold ValidateIdentityRequest. intros H. repeat (apply bind_Ok in H as (? & _ & H)). by injection H as <-.
Qed.

Lemma admission_Ok h req v m req' : admission h req v m = Ok req' →
  ValidateIdentityRequest req = Ok req' ∧ version_ok h v m = true ∧ (hRequireConsent h = true → imConsent req ≠ ∅).
Proof.
  unfold admission. intros (r & Hr & H)%bind_Ok. apply bind_Ok in H as (_u & Hv%guard_err_Ok & H).
  apply bind_Ok in H as (_u' & Hc%guard_err_Ok & H). injection H as <-. split_and!; [done..|].
  intros Hreq Hempty. rewrite Hreq in Hc. apply validated_request in Hr. rewrite Hr in Hc. cbn in Hc. by rewrite bool_decide_eq_true_2 in Hc.
Qed.

Context {S1 : Type} {FS : FcapStore S1} {FSP : FcapStoreSpec S1} {S2 : Type} {AS : AudienceStore S2} {ASP : AudienceStoreSpec S2}.

Lemma evaluate_request_id faults (e : env (S1 := S1) (S2 := S2)) res : Evaluate faults e res → ResultRequestID res = imRequestID (eReq e).
Proof. by destruct 1. Qed.

Lemma evaluate_verified faults (e : env (S1 := S1) (S2 := S2)) res vi :
  Evaluate faults e res → vi ∈ Verified res → vi ∈ fst (runVerifiedIdentityStage (deps (eSvc e)) (eReq e) (eStart e)).
Proof.
  destruct 1 as [_|fc au c _ _]; [by intros H%elem_of_nil|]. cbn [Verified result_of]. unfold plan_of, make_plan.
  destruct (ResolveRequest _ _ _), (runVerifiedIdentityStage _ _ _). done.
Qed.

Lemma service_env_req h (w : world (S1 := S1) (S2 := S2)) req :
  imRequestID (eReq (service_env h w req)) = imRequestID req ∧ imPackageIDs (eReq (service_env h w req)) = imPackageIDs req.
Proof. unfold service_env, buildServiceRequest. by destruct (hCanonicalizer h). Qed.

Lemma eligible_ids_elem res id : id ∈ eligible_ids res → MkEligibility id true ∈ Eligibility res.
Proof.
  unfold eligible_ids. intros (el & -> & [He Hel]%list_elem_of_filter)%list_elem_of_fmap. by destruct el as [i []].
Qed.

Lemma plan_ids_registered (e : env (S1 := S1) (S2 := S2)) id :
  coherent (configSvc (eSvc e)) → id ∈ pIDs (plan_of e) →
  (imPackageIDs (eReq e) = [] ∨ id ∈ imPackageIDs (eReq e)) ∧ is_Some (Lookup (configSvc (eSvc e)) (canonicalSellerKey (imSellerAgentURL (eReq e))) id).
Proof.
  intros Hc Hid. pose proof (ResolveRequest_spec (configSvc (eSvc e)) (canonicalSellerKey (imSellerAgentURL (eReq e))) (imPackageIDs (eReq e)) Hc) as [H _].
  apply H. revert Hid. unfold plan_of, make_plan. by destruct (ResolveRequest _ _ _), (runVerifiedIdentityStage _ _ _).
Qed.

(** C16: an answer that names eligible packages is given only for a request that is valid, of a
    supported version, and with consent where the deployment requires it; it echoes the
    request's id and a window within the schema's bounds; each package it names was asked for
    (or none was named) and registered for the seller, and meets its specification: no cap
    stands for a key the service looks up, its audience rule is met, its verified-identity
    requirements are met.  The keys looked up are the nullifier keys of the verified identities
    when the stage verified any, and a cap of another token of the request is then not looked at;
    otherwise the tokens of the request, in their canonical form where decoders are configured,
    of which identities that do not decode are left out unless none decodes or the service is
    strict, when every package is refused. *)
Theorem identity_answer_sound h (w : world (S1 := S1) (S2 := S2)) req v m resp :
  (∀ s, wWalk w s ≡ₚ elements s) → coherent (configSvc (hService h)) →
  ServeHTTP h w req v m (Matched resp) →
  ∃ req', ValidateIdentityRequest req = Ok req' ∧ version_ok h v m = true ∧ (hRequireConsent h = true → imConsent req ≠ ∅) ∧
    piRequestID resp = imRequestID req ∧ (1 ≤ piServeWindowSec resp ≤ 300)%Z ∧
    ∀ id, id ∈ piEligiblePackageIDs resp →
      (imPackageIDs req = [] ∨ id ∈ imPackageIDs req) ∧
      eligible_spec (service_env h w req') id.
Proof using FSP ASP.
  intros Hw Hcoh HS. inversion HS as [|req' res expired s Hadm HE Hans]. clear HS. exists req'.
  pose proof (admission_Ok _ _ _ _ _ Hadm) as (Hv & Hver & Hcons). split; [done|]. split; [done|]. split; [done|].
  unfold respond in Hans. destruct expired; [done|]. destruct (ResultStatus res); [|done..]. injection Hans as <-. cbn [piRequestID piServeWindowSec piEligiblePackageIDs].
  pose proof (validated_request _ _ Hv) as Hreq. destruct (service_env_req h w req') as [Hid Hpk].
  split; [|split].
  - rewrite (evaluate_request_id _ _ _ HE), Hid, Hreq. done.
  - apply serveWindow_bounds.
  - intros id Hel. apply eligible_ids_elem in Hel.
    assert (eligible_spec (service_env h w req') id) as Hspec.
    { apply (eligible_sound (service_env h w req')) with (faults := true) (res := res) (el := MkEligibility id true); [|done|done|done].
      unfold service_env. destruct (buildServiceRequest h req') as [[? ?] ?]. exact Hw. }
    split; [|exact Hspec]. destruct Hspec as (Hin & _). apply plan_ids_registered in Hin.
    + rewrite Hpk in Hin. assert (imPackageIDs req' = imPackageIDs req) as E by (rewrite Hreq; done). rewrite E in Hin. tauto.
    + unfold service_env. destruct (buildServiceRequest h req') as [[? ?] ?]. exact Hcoh.
Qed.

(** ** World ID nullifiers on the wire *)

Lemma inbound_nullifier_dropped o ids d : d ∈ decodeIdentities (NewDefaultRegistry o) ids → dUIDType d = UIDTypeWorldIDNullifier → dBytes d = "".
Proof.
  intros (i & -> & _)%list_elem_of_fmap Hi. unfold decode_one in *. cbn [dBytes dUIDType] in *. by rewrite Hi.
Qed.

Lemma uidToTmpxTypeID_nullifier u : uidToTmpxTypeID u = Some TmpxTypeWorldIDNullifier → u = UIDTypeWorldIDNullifier.
Proof.
  unfold uidToTmpxTypeID. intros Hu. repeat match type of Hu with context [bool_decide ?P] => destruct (bool_decide_reflect P); [first [discriminate Hu|assumption]|] end. discriminate Hu.
Qed.

Lemma selected_entry s decoded es en : selectEntries s decoded = Ok es → en ∈ es →
  ∃ d, d ∈ decoded ∧ dBytes d ≠ "" ∧ EntryToken en = dBytes d ∧ TypeID en = default (TmpxTypeOther 0) (uidToTmpxTypeID (dUIDType d)).
Proof.
  intros (_ & k & ->)%selectEntries_Ok Hen. apply subseteq_take in Hen.
  apply list_elem_of_fmap in Hen as (c & -> & Hc). destruct (candidates_ranked s decoded) as [Hp _]. rewrite Hp in Hc.
  apply list_elem_of_omap in Hc as (d & Hd & Hs). exists d. split; [done|]. unfold survivor in Hs. case_bool_decide as Hb; [done|].
  split; [done|]. case_bool_decide; [by injection Hs as <-|]. destruct (indexOfUIDType _ _); [|done]. by injection Hs as <-.
Qed.

(** C17: whatever a sender asserts, a World ID nullifier is put into an exposure token only
    as the token of an identity that the verifier vouched for on an attestation this request
    presented, under the relying party it was bound to. *)
Theorem nullifiers_on_wire_vouched h (w : world (S1 := S1) (S2 := S2)) req' faults res sealer o decoded es en :
  (decoded = None ∨ ∃ o', decoded = Some (decodeIdentities (NewDefaultRegistry o') (imIdentities req'))) →
  Evaluate faults (service_env h w req') res →
  selectEntries sealer (seal_input (NewDefaultRegistry o) req' decoded (Verified res)) = Ok es →
  en ∈ es → TypeID en = TmpxTypeWorldIDNullifier →
  let e := service_env h w req' in
  ∃ vi verify rp att, vi ∈ Verified res ∧ nullifier_Token rp (Nullifier vi) = Ok (EntryToken en) ∧
    dVerifier (deps (hService h)) = Some verify ∧ presented (deps (hService h)) (eReq e) rp att ∧
    vouched verify (MkVerifyContext (imRequestID (eReq e)) (imCountry (eReq e)) rp (wStart w)) att vi.
Proof.
  intros Hdec HE Hsel Hen Ht. cbn zeta. pose proof (selected_entry _ _ _ _ Hsel Hen) as (d & Hd & Hne & Htok & Hty).
  assert (dUIDType d = UIDTypeWorldIDNullifier) as Hu.
  { rewrite Hty in Ht. destruct (uidToTmpxTypeID (dUIDType d)) as [t|] eqn:Eu; cbn in Ht; [|done]. subst t. by apply uidToTmpxTypeID_nullifier. }
  unfold seal_input in Hd. apply elem_of_app in Hd as [Hd|Hd].
  { exfalso. apply Hne. destruct Hdec as [->|[o' ->]]; by eapply inbound_nullifier_dropped. }
  unfold verifiedIdentityEntries in Hd. apply list_elem_of_omap in Hd as (vi & Hvi & Hd). case_bool_decide; [done|].
  destruct (nullifier_Token (viRelyingPartyID vi) (Nullifier vi)) as [b|] eqn:Eb; [|done]. injection Hd as <-. cbn [dBytes] in Htok.
  pose proof (evaluate_verified _ _ _ _ HE Hvi) as Hst. apply stage_sound_complete in Hst as (verify & rp & att & Hver & Hpres & Hvouch).
  assert (viRelyingPartyID vi = rp) as Hrp.
  { destruct Hvouch as (_ & _ & _ & _ & vi0 & _ & H1 & H2 & _). by rewrite H2, H1. }
  assert (deps (eSvc (service_env h w req')) = deps (hService h)) as Hdeps
    by (unfold service_env; destruct (buildServiceRequest h req') as [[? ?] ?]; done).
  assert (eStart (service_env h w req') = wStart w) as Hst'
    by (unfold service_env; destruct (buildServiceRequest h req') as [[? ?] ?]; done).
  rewrite Hdeps in *. rewrite Hst' in Hvouch. exists vi, verify, rp, att. rewrite Htok, <- Hrp. rewrite Hrp at 2 3. done.
Qed.
End Thm.

(** ** At concrete requests *)

#[local] Existing Instance ascii_runtime.
#[local] Existing Instance toy_x25519.
#[local] Existing Instance toy_aead.

(** The cap stage ends first, then the audience stage, both with what their stores say. *)
Definition caps_then_audiences {S1 S2} `{FcapStore S1} `{AudienceStore S2} (e : env (S1 := S1) (S2 := S2)) : IdentityResult :=
  result_of e (fcap_of_answer (pIDs (plan_of e)) (Answered (fcap_read e))) (aud_of_answer (pWithSegments (plan_of e)) (Answered (audience_read e))).

Lemma caps_then_audiences_runs {S1 S2} `{FcapStore S1} `{AudienceStore S2} faults (e : env (S1 := S1) (S2 := S2)) :
  pIDs (plan_of e) ≠ [] → pAudienceNeeded (plan_of e) = true → fcap_undecodable e = false →
  Evaluate faults e (caps_then_audiences e).
Proof.
  intros Hp Ha Hu. eapply evaluate_run; [done|]. unfold start_run. rewrite Ha.
  eapply rtc_l; [eapply step_fcap; [done|apply admits_read]|].
  eapply rtc_l; [apply step_fcap_end|].
  eapply rtc_l; [eapply step_audience, admits_read|].
  eapply rtc_l; [apply step_audience_end|]. apply rtc_refl.
Qed.

Definition sample_handler (d : VerifiedDeps) : IdentityHandlerConfig :=
  MkHandler (MkService true true sample_snapshot false d) None None (60 * Second)%Z [3%Z] [] false.
Definition sample_world : world := MkWorld 0%Z (MkMock ∅) 0%Z (member_of "adults") elements.
Definition no_deps : VerifiedDeps := MkDeps None ∅ None "".
Definition sample_seal_env : seal_env := MkSealEnv false None 0%Z (Err "unused") (Err "unused").

Example identity_answer_sound_witness :
  ∃ resp, ServeHTTP (sample_handler no_deps) sample_world (sample_request [sample_user]) "" 3 (Matched resp) ∧
    piEligiblePackageIDs resp = ["adults-only"; "for-all"] ∧
    eligible_spec (service_env (sample_handler no_deps) sample_world (sample_request [sample_user])) "adults-only".
Proof.
  assert (admission (sample_handler no_deps) (sample_request [sample_user]) "" 3 = Ok (sample_request [sample_user])) as Ha by (vm_compute; reflexivity).
  pose proof (caps_then_audiences_runs true (service_env (sample_handler no_deps) sample_world (sample_request [sample_user]))
    ltac:(vm_compute; discriminate) ltac:(vm_compute; reflexivity) ltac:(vm_compute; reflexivity)) as HE.
  assert (respond (sample_handler no_deps) (sample_request [sample_user]) None false
    (caps_then_audiences (service_env (sample_handler no_deps) sample_world (sample_request [sample_user]))) sample_seal_env =
    Matched (MkProviderIdentity TypeIdentityMatchResponse "r-1" ["adults-only"; "for-all"] 60 [])) as Hr by (vm_compute; reflexivity).
  pose proof (serve_evaluated _ _ _ _ _ _ _ false sample_seal_env Ha HE) as HS.
  change ((buildServiceRequest (sample_handler no_deps) (sample_request [sample_user])).1.2) with (@None (list DecodedIdentity)) in HS. rewrite Hr in HS.
  assert (coherent (configSvc (hService (sample_handler no_deps)))) as Hcoh by exact (proj1 (buildSnapshot_spec _)).
  destruct (identity_answer_sound _ _ _ _ _ _ (λ s, reflexivity _) Hcoh HS) as (req' & Hv & _ & _ & _ & _ & Hall).
  eexists. split; [exact HS|]. split; [reflexivity|].
  assert (Ok (A := IdentityMatchRequest) (E := string) req' = Ok (sample_request [sample_user])) as [= ->] by (rewrite <- Hv; vm_compute; reflexivity).
  exact (proj2 (Hall "adults-only" ltac:(left; reflexivity))).
Defined.

(** A relying party whose verifier vouches for one person's proof of personhood. *)
Definition sample_attestation : Attestation :=
  MkAttestation ∅ "world_id" "rp_example" "proof" ["unique_human"] "orb" "binding-1" ∅ "".
Definition sample_deps : VerifiedDeps :=
  MkDeps (Some (λ att vctx, if bool_decide (Scheme att = "world_id") then Ok (MkVerified "0x0a" (ExpectedRelyingPartyID vctx) {[ "unique_human" ]})
                            else Err "unknown scheme")) ∅ None "rp_example".
Definition sample_attested : IdentityToken := MkToken "user-1" "world_id_nullifier" (Some sample_attestation).
Definition nullifier_sealer : TMPXSealer := MkSealer ["slot-a"] ["world_id_nullifier"; "id5"].
Definition no_decoders : string → option Decoder := NewDefaultRegistry (MkOptions None None None).

Example nullifiers_on_wire_vouched_witness :
  ∃ en vi, selectEntries nullifier_sealer (seal_input no_decoders (sample_request [sample_attested]) None
      (Verified (caps_then_audiences (service_env (sample_handler sample_deps) sample_world (sample_request [sample_attested]))))) = Ok [en] ∧
    nullifier_Token "rp_example" (Nullifier vi) = Ok (EntryToken en).
Proof.
  pose proof (caps_then_audiences_runs true (service_env (sample_handler sample_deps) sample_world (sample_request [sample_attested]))
    ltac:(vm_compute; discriminate) ltac:(vm_compute; reflexivity) ltac:(vm_compute; reflexivity)) as HE.
  destruct (selectEntries nullifier_sealer (seal_input no_decoders (sample_request [sample_attested]) None
      (Verified (caps_then_audiences (service_env (sample_handler sample_deps) sample_world (sample_request [sample_attested])))))) as [es|] eqn:Es.
  2: { exfalso. revert Es. vm_compute. discriminate. }
  assert (map TypeID es = [TmpxTypeWorldIDNullifier]) as Hes.
  { assert (∀ r : result string (list TmpxEntry), r = Ok es → map TypeID es = match r with Ok l => map TypeID l | Err _ => [] end) as H
      by (intros r ->; reflexivity).
    rewrite (H _ Es). vm_compute. reflexivity. }
  destruct es as [|en [|? ?]]; [discriminate Hes| |discriminate Hes]. injection Hes as Hen.
  destruct (nullifiers_on_wire_vouched _ _ _ true _ _ _ _ _ en (or_introl eq_refl) HE Es ltac:(left; reflexivity) Hen) as (vi & verify & rp & att & _ & Hn & _ & Hp & _).
  exists en, vi. split; [reflexivity|].
  assert (rp = "rp_example") as E; [clear Hn|rewrite E in Hn; exact Hn].
  inversion Hp as [c rk pt kid x Hc|i ? Hi Hat]; [|reflexivity]. apply elem_of_nil in Hc. destruct Hc.
Defined.
