(* ===== verification/Sfv.v ===== *)
(** * Sfv: structured fields

    [src/adcp/v3/signing/sfv.go]: the strict RFC 8941 parser and serializer of the fields that
    the Web Bot Auth profile reads.  A position in the input is the text that is left; every
    failure is the one error of the parser, [None]. *)
From stdpp Require Import strings.
From S2P Require Import Prelude GoStrings Bytes Base64.
From stdpp Require Import options.

Definition maxStructuredFieldLen : Z := 65536.

(** ** Data *)

(** A decimal is held in thousandths. *)
Inductive sfBare :=
  | sfInteger (i : Z)
  | sfDecimal (i : Z)
  | sfString (s : string)
  | sfToken (s : string)
  | sfBinary (b : string)
  | sfBoolean (bo : bool).

#[export] Instance sfBare_eq_dec : EqDecision sfBare.
Proof. solve_decision. Defined.

Definition sfTrue : sfBare := sfBoolean true.

Record sfParam := MkParam { pKey : string; pValue : sfBare }.
Record sfItem := MkItem { iValue : sfBare; iParams : list sfParam }.
(** An item, or an inner list with its parameters. *)
Inductive sfMember := MItem (it : sfItem) | MInner (l : list sfItem) (params : list sfParam).

#[export] Instance sfParam_eq_dec : EqDecision sfParam.
Proof. solve_decision. Defined.
#[export] Instance sfItem_eq_dec : EqDecision sfItem.
Proof. solve_decision. Defined.
#[export] Instance sfMember_eq_dec : EqDecision sfMember.
Proof. solve_decision. Defined.

Definition sfDict := list (string * sfMember).

Definition dict_get (d : sfDict) (key : string) : option sfMember := snd <$> List.find (λ e, bool_decide (e.1 = key)) d.
Definition dict_keys (d : sfDict) : list string := map fst d.

Definition sfParamValue (params : list sfParam) (key : string) : option sfBare :=
  pValue <$> List.find (λ p, bool_decide (pKey p = key)) params.

Definition stringParam (params : list sfParam) (key : string) : option string :=
  match sfParamValue params key with Some (sfString s) => Some s | _ => None end.
Definition intParam (params : list sfParam) (key : string) : option Z :=
  match sfParamValue params key with Some (sfInteger i) => Some i | _ => None end.

(** [sfMember.params], [sfMember.list]: nil of an item. *)
Definition member_params (m : sfMember) : list sfParam := match m with MItem _ => [] | MInner _ ps => ps end.
Definition member_list (m : sfMember) : list sfItem := match m with MItem _ => [] | MInner l _ => l end.
Definition inner (m : sfMember) : bool := match m with MItem _ => false | MInner _ _ => true end.

(** ** The parser *)

Definition isLCAlpha (c : ascii) : bool := between 97 122 c.
Definition isAlpha (c : ascii) : bool := isLCAlpha c || between 65 90 c.
Definition isTChar (c : ascii) : bool :=
  isAlpha c || is_digit c || existsb (beq c) ["!"; "#"; "$"; "%"; "&"; "'"; "*"; "+"; "-"; "."; "^"; "_"; "`"; "|"; "~"]%char.

(** The next byte, if there is one, has the property. *)
Definition starts (P : ascii → bool) (s : string) : bool := match s with String c _ => P c | "" => false end.

Fixpoint span (P : ascii → bool) (s : string) : string * string :=
  match s with
  | String c s' => if P c then let '(a, b) := span P s' in (String c a, b) else ("", s)
  | "" => ("", "")
  end.

Definition ows (s : string) : string := (span (λ c, beq c " " || beq c (byte 9)) s).2.
Definition sp (s : string) : string := (span (beq " ") s).2.

Definition key_start (c : ascii) : bool := isLCAlpha c || beq c "*".
Definition key_char (c : ascii) : bool := isLCAlpha c || is_digit c || existsb (beq c) ["_"; "-"; "."; "*"]%char.

Definition key (s : string) : option (string * string) := if starts key_start s then Some (span key_char s) else None.

(** The scan of a number: the text, the position of its dot, and what is left; [n] bytes of
    it are read. *)
Fixpoint scan_number (n : nat) (dot : option nat) (s : string) : option (string * option nat * string) :=
  match s with
  | "" => Some ("", dot, "")
  | String c s' =>
      let within (d : option nat) :=
        if match d with None => 15 <? S n | Some _ => 16 <? S n end then None else
        '(t, d', r) ← scan_number (S n) d s'; Some (String c t, d', r) in
      if is_digit c then within dot
      else if beq c "." && bool_decide (dot = None) then (if 12 <? n then None else within (Some n))
      else Some ("", dot, s)
  end.

Definition number (s : string) : option (sfBare * string) :=
  let '(neg, s) := match s with String c s' => if beq c "-" then (true, s') else (false, s) | "" => (false, s) end in
  let signed (n : Z) : Z := if neg : bool then (- n)%Z else n in
  if negb (starts is_digit s) then None else
  '(num, dot, rest) ← scan_number 0 None s;
  match dot with
  | None => n ← ParseInt num; Some (sfInteger (signed n), rest)
  | Some d =>
      let frac := sdrop (S d) num in
      if bool_decide (frac = "") || (3 <? len frac)%nat then None else
      n ← ParseInt (stake d num +:+ frac +:+ Repeat "0" (3 - len frac));
      Some (sfDecimal (signed n), rest)
  end.

(** After the opening quote. *)
Fixpoint str_body (s : string) : option (string * string) :=
  match s with
  | "" => None
  | String c s' =>
      if beq c backslash then
        match s' with
        | String d s'' => if beq d quote || beq d backslash then '(t, r) ← str_body s''; Some (String d t, r) else None
        | "" => None
        end
      else if beq c quote then Some ("", s')
      else if (code c <? 32)%Z || (126 <? code c)%Z then None
      else '(t, r) ← str_body s'; Some (String c t, r)
  end.

Definition token_more (c : ascii) : bool := isTChar c || beq c ":" || beq c "/".

Definition token (s : string) : option (sfBare * string) :=
  match s with
  | String c s' => let '(t, r) := span token_more s' in Some (sfToken (String c t), r)
  | "" => None
  end.

Definition b64_text (c : ascii) : bool := isAlpha c || is_digit c || beq c "+" || beq c "/" || beq c "=".

(** Absent padding is put back. *)
Definition padded (enc : string) : string :=
  let rem := len (TrimRight (beq "=") enc) mod 4 in
  if negb (rem =? 0)%nat && negb (contains_byte enc "=") then enc +:+ Repeat "=" (4 - rem) else enc.

(** After the opening colon. *)
Definition binary (s : string) : option (sfBare * string) :=
  e ← IndexByte s ":";
  let enc := stake e s in
  if negb (all_bytes b64_text enc) then None else
  b ← StdDecode (padded enc);
  Some (sfBinary b, sdrop (S e) s).

(** After the question mark. *)
Definition boolean (s : string) : option (sfBare * string) :=
  match s with
  | String c s' => if beq c "1" then Some (sfTrue, s') else if beq c "0" then Some (sfBoolean false, s') else None
  | "" => None
  end.

Definition bareItem (s : string) : option (sfBare * string) :=
  match s with
  | "" => None
  | String c s' =>
      if beq c "-" || is_digit c then number s
      else if beq c quote then '(t, r) ← str_body s'; Some (sfString t, r)
      else if beq c ":" then binary s'
      else if beq c "*" || isAlpha c then token s
      else if beq c "?" then boolean s'
      else None
  end.

(** Each round of a loop reads a byte at least, so fuel above the length of the text is enough. *)
Fixpoint parameters (fuel : nat) (out : list sfParam) (s : string) : option (list sfParam * string) :=
  match fuel with
  | O => None
  | S fuel =>
      if starts (beq ";") s then
        '(k, s) ← key (sp (sdrop 1 s));
        if existsb (λ p, bool_decide (pKey p = k)) out then None else
        '(v, s) ← (if starts (beq "=") s then bareItem (sdrop 1 s) else Some (sfTrue, s));
        parameters fuel (out ++ [MkParam k v]) s
      else Some (out, s)
  end.

Definition params_of (s : string) : option (list sfParam * string) := parameters (S (len s)) [] s.

Definition item (s : string) : option (sfItem * string) :=
  '(v, s) ← bareItem s; '(ps, s) ← params_of s; Some (MkItem v ps, s).

(** After the opening parenthesis. *)
Fixpoint inner_list (fuel : nat) (items : list sfItem) (s : string) : option (sfMember * string) :=
  match fuel with
  | O => None
  | S fuel =>
      if bool_decide (s = "") then None else
      let s := sp s in
      if starts (beq ")") s then '(ps, s) ← params_of (sdrop 1 s); Some (MInner items ps, s) else
      '(it, s) ← item s;
      if starts (λ c, beq c " " || beq c ")") s then inner_list fuel (items ++ [it]) s else None
  end.

Definition itemOrInnerList (s : string) : option (sfMember * string) :=
  if starts (beq "(") s then inner_list (S (len s)) [] (sdrop 1 s)
  else '(it, s) ← item s; Some (MItem it, s).

Fixpoint dict_members (fuel : nat) (out : sfDict) (s : string) : option sfDict :=
  match fuel with
  | O => None
  | S fuel =>
      '(k, s) ← key s;
      if bool_decide (k ∈ dict_keys out) then None else
      '(m, s) ← (if starts (beq "=") s then itemOrInnerList (sdrop 1 s)
                 else '(ps, s) ← params_of s; Some (MItem (MkItem sfTrue ps), s));
      let out := out ++ [(k, m)] in
      let s := ows s in
      if bool_decide (s = "") then Some out else
      if negb (starts (beq ",") s) then None else
      let s := ows (sdrop 1 s) in
      if bool_decide (s = "") then None else dict_members fuel out s
  end.

Definition field_byte (c : ascii) : bool := negb ((126 <? code c)%Z || ((code c <? 32)%Z && negb (beq c (byte 9)))).

Definition parseSFDictionary (input : string) : option sfDict :=
  if bool_decide (input = "") || (maxStructuredFieldLen <? Z.of_nat (len input))%Z then None else
  if negb (all_bytes field_byte input) then None else
  let s := Trim is_sp input in
  if bool_decide (s = "") then None else dict_members (S (len s)) [] s.

(** ** The serializer *)

(** Quotation marks and backslashes are escaped. *)
Fixpoint escape_string (s : string) : string :=
  match s with
  | "" => ""
  | String c s' => if beq c quote || beq c backslash then String backslash (String c (escape_string s')) else String c (escape_string s')
  end.

Definition serialize_bare (v : sfBare) : string :=
  match v with
  | sfInteger i => Itoa i
  | sfDecimal i =>
      let n := Z.abs i in
      let frac := TrimRight (beq "0") (sdrop 1 (Itoa (Z.rem n 1000 + 1000))) in
      (if (i <? 0)%Z then "-" else "") +:+ Itoa (Z.quot n 1000) +:+ "." +:+ (if bool_decide (frac = "") then "0" else frac)
  | sfString s => String quote (escape_string s +:+ String quote "")
  | sfToken s => s
  | sfBinary b => ":" +:+ StdEncode b +:+ ":"
  | sfBoolean bo => if bo then "?1" else "?0"
  end.

Fixpoint serializeParams (params : list sfParam) : string :=
  match params with
  | [] => ""
  | p :: ps =>
      ";" +:+ pKey p +:+ (if bool_decide (pValue p = sfTrue) then "" else "=" +:+ serialize_bare (pValue p)) +:+ serializeParams ps
  end.

Definition serialize_item (it : sfItem) : string := serialize_bare (iValue it) +:+ serializeParams (iParams it).

Definition serialize_member (m : sfMember) : string :=
  match m with
  | MItem it => serialize_item it
  | MInner l ps => "(" +:+ Join (map serialize_item l) " " +:+ ")" +:+ serializeParams ps
  end.

Definition serialize_entry (e : string * sfMember) : string :=
  match e.2 with
  | MItem it => if bool_decide (iValue it = sfTrue) then e.1 +:+ serializeParams (iParams it) else e.1 +:+ "=" +:+ serialize_item it
  | m => e.1 +:+ "=" +:+ serialize_member m
  end.

Definition serialize_dict (d : sfDict) : string := Join (map serialize_entry d) ", ".

(** ** Reading a prefix *)

Lemma span_app P a b : all_bytes P a = true → starts P b = false → span P (a +:+ b) = (a, b).
Proof.
  intros Ha Hb. induction a as [|c a IH].
  - rewrite sapp_nil_l. destruct b as [|c b]; [done|]. cbn in *. by rewrite Hb.
  - cbn in Ha. apply andb_true_iff in Ha as [Hc Ha]. rewrite sapp_cons. cbn. rewrite Hc, (IH Ha). done.
Qed.

Lemma span_spec P s : let '(a, b) := span P s in s = a +:+ b ∧ all_bytes P a = true ∧ starts P b = false.
Proof.
  induction s as [|c s IH]; [done|]. cbn. destruct (P c) eqn:E.
  - destruct (span P s) as [a b]. destruct IH as (-> & Ha & Hb). cbn. by rewrite E, Ha.
  - by cbn.
Qed.

Lemma starts_app P a b : a ≠ "" → starts P (a +:+ b) = starts P a.
Proof. by destruct a. Qed.

(** What [P] rejects cannot start with what [Q] finds. *)
Lemma starts_impl (P Q : ascii → bool) s : (∀ c, P c = true → Q c = true) → starts Q s = false → starts P s = false.
Proof.
  intros H. destruct s as [|c s]; [done|]. cbn. intros Hq. apply not_true_iff_false. intros Hp. apply H in Hp. congruence.
Qed.

(** ** Numbers *)

Lemma sf_digits_val_app acc s t : digits_val acc (s +:+ t) = a ← digits_val acc s; digits_val a t.
Proof.
  revert acc. induction s as [|c s IH]; intros acc; [done|]. rewrite sapp_cons. cbn. destruct (is_digit c); [apply IH|done].
Qed.

Lemma sf_digit_code c : is_digit c = true → (0 ≤ code c - 48 < 10)%Z.
Proof. unfold is_digit, between. lia. Qed.

(** The value of a run of digits after [acc]. *)
Lemma digits_val_spec s : all_bytes is_digit s = true →
  ∃ v, (0 ≤ v < 10 ^ Z.of_nat (len s))%Z ∧ ∀ acc, digits_val acc s = Some (acc * 10 ^ Z.of_nat (len s) + v)%Z.
Proof.
  induction s as [|c s IH]; intros Hs.
  - exists 0%Z. split; [done|]. intros acc. change (digits_val acc "") with (Some acc). f_equal. change (10 ^ Z.of_nat (len ""))%Z with 1%Z. lia.
  - cbn in Hs. apply andb_true_iff in Hs as [Hc Hs]. destruct (IH Hs) as (v & Hv & Hval). pose proof (sf_digit_code c Hc).
    exists ((code c - 48) * 10 ^ Z.of_nat (len s) + v)%Z. rewrite len_cons, Nat2Z.inj_succ, Z.pow_succ_r by lia. split; [nia|].
    intros acc. cbn [digits_val]. rewrite Hc, Hval. f_equal. ring.
Qed.

Lemma ParseUint_digits s : all_bytes is_digit s = true → s ≠ "" →
  ∃ v, ParseUint s = Some v ∧ (0 ≤ v < 10 ^ Z.of_nat (len s))%Z ∧ ∀ acc, digits_val acc s = Some (acc * 10 ^ Z.of_nat (len s) + v)%Z.
Proof.
  intros Hs Hne. destruct (digits_val_spec s Hs) as (v & Hv & Hval). exists v. split; [|by split].
  unfold ParseUint. destruct s; [by destruct Hne|]. by rewrite Hval.
Qed.

Lemma udigits_len k : ∀ fuel n acc, (0 ≤ n < 10 ^ Z.of_nat (S k))%Z → len (udigits fuel n acc) ≤ S k + len acc.
Proof.
  induction k as [|k IH]; intros fuel n acc Hn; (destruct fuel as [|fuel]; [cbn; lia|]); cbn [udigits].
  - destruct (Z.ltb_spec n 10); [by rewrite len_cons|cbn in Hn; lia].
  - destruct (Z.ltb_spec n 10); [rewrite len_cons; lia|].
    assert (0 ≤ n / 10 < 10 ^ Z.of_nat (S k))%Z as Hd.
    { split; [apply Z.div_pos; lia|]. apply Z.div_lt_upper_bound; [lia|]. rewrite <- Z.pow_succ_r, <- Nat2Z.inj_succ by lia. lia. }
    specialize (IH fuel _ (String (byte (48 + n mod 10)) acc) Hd). rewrite len_cons in IH. lia.
Qed.

Lemma Utoa_len k n : (0 ≤ n < 10 ^ Z.of_nat (S k))%Z → len (Utoa n) ≤ S k.
Proof. intros Hn. pose proof (udigits_len k (S (Z.to_nat (Z.log2 n))) n "" Hn) as H. cbn [len] in H. unfold Utoa. change (len "") with 0 in H. lia. Qed.

Lemma Utoa_ne n : Utoa n ≠ "".
Proof. by apply udigits_nonempty. Qed.

Lemma Utoa_starts n rest : (0 ≤ n)%Z → starts is_digit (Utoa n +:+ rest) = true.
Proof.
  intros Hn. rewrite starts_app by apply Utoa_ne. pose proof (Utoa_digits n Hn) as H. pose proof (Utoa_ne n).
  destruct (Utoa n) as [|c s]; [done|]. cbn in *. by apply andb_true_iff in H as [-> _].
Qed.

(** Three digits of [m] below 1000. *)
Lemma last_digits m : (0 ≤ m < 1000)%Z →
  ∃ t, Itoa (m + 1000) = String "1" t ∧ len t = 3 ∧ all_bytes is_digit t = true ∧ ∀ acc, digits_val acc t = Some (acc * 1000 + m)%Z.
Proof.
  intros Hm. unfold Itoa. destruct (Z.ltb_spec (m + 1000) 0); [lia|].
  pose proof (Utoa_digits (m + 1000) ltac:(lia)) as Hd. pose proof (Utoa_len 3 (m + 1000) ltac:(cbn; lia)) as Hl.
  pose proof (ParseUint_Utoa (m + 1000) ltac:(lia)) as Hv. pose proof (Utoa_ne (m + 1000)) as Hne.
  destruct (ParseUint_digits _ Hd Hne) as (v & Hpv & Hb & _). rewrite Hv in Hpv. injection Hpv as <-.
  destruct (Utoa (m + 1000)) as [|c t]; [done|]. rewrite len_cons in *.
  assert (len t = 3) as Ht.
  { destruct (decide (len t < 3)) as [Hlt|]; [|lia]. exfalso.
    assert (10 ^ Z.of_nat (S (len t)) ≤ 10 ^ 3)%Z by (apply Z.pow_le_mono_r; lia). cbn in *. lia. }
  cbn in Hd. apply andb_true_iff in Hd as [Hc Hdt]. destruct (digits_val_spec t Hdt) as (w & Hw & Hval). rewrite Ht in *.
  unfold ParseUint in Hv. cbn [digits_val] in Hv. rewrite Hc, Hval in Hv. injection Hv as Hv.
  pose proof (sf_digit_code c Hc). change (10 ^ Z.of_nat 3)%Z with 1000%Z in *.
  assert (code c = 49 ∧ w = m)%Z as [Hcc ->] by lia. exists t.
  assert (c = "1"%char) as -> by (apply code_inj; rewrite Hcc; reflexivity). done.
Qed.

Lemma ltrim_split P l : ∃ a, l = a ++ ltrim P l ∧ Forall (λ c, P c = true) a.
Proof.
  induction l as [|c l IH]; [by exists []|]. cbn. destruct (P c) eqn:E; [|by exists []].
  destruct IH as (a & H & Ha). exists (c :: a). split; [cbn; by f_equal|by constructor].
Qed.

Lemma TrimRight_split P s : ∃ a, s = TrimRight P s +:+ a ∧ all_bytes P a = true.
Proof.
  destruct (ltrim_split P (reverse (explode s))) as (a & H & Ha). exists (implode (reverse a)). split.
  - apply explode_inj. unfold TrimRight, rtrim. rewrite explode_app, !explode_implode, <- reverse_app, <- H. by rewrite reverse_involutive.
  - assert (∀ l, Forall (λ c, P c = true) l → all_bytes P (implode l) = true) as Hall.
    { induction 1 as [|c l Hc _ IH]; [done|]. cbn. by rewrite Hc, IH. }
    apply Hall. by apply Forall_reverse.
Qed.

Lemma repeat_byte c s : all_bytes (beq c) s = true → s = Repeat (String c "") (len s).
Proof.
  induction s as [|d s IH]; [done|]. cbn. intros [Hd Hs]%andb_true_iff. apply beq_eq in Hd as <-. exact (f_equal (String c) (IH Hs)).
Qed.

Lemma trim_zeros s : len s = 3 → TrimRight (beq "0") s +:+ Repeat "0" (3 - len (TrimRight (beq "0") s)) = s.
Proof.
  intros Hs. destruct (TrimRight_split (beq "0") s) as (a & H & Ha). apply repeat_byte in Ha.
  assert (len s = len (TrimRight (beq "0") s) + len a) as Hl by (rewrite H at 1; apply len_app).
  replace (3 - len (TrimRight (beq "0") s)) with (len a) by lia. by rewrite <- Ha, <- H.
Qed.

(** ** What the serializer writes, the parser reads back *)

Definition key_ok (k : string) : bool := starts key_start k && all_bytes key_char k.
Definition sf_char (c : ascii) : bool := negb ((code c <? 32)%Z || (126 <? code c)%Z).
Definition sfIntMax : Z := 999999999999999.

Definition bare_ok (v : sfBare) : bool :=
  match v with
  | sfInteger i | sfDecimal i => (Z.abs i <=? sfIntMax)%Z
  | sfString s => all_bytes sf_char s
  | sfToken s => starts (λ c, beq c "*" || isAlpha c) s && all_bytes token_more (sdrop 1 s)
  | sfBinary _ | sfBoolean _ => true
  end.

Definition params_ok (ps : list sfParam) : Prop :=
  NoDup (map pKey ps) ∧ Forall (λ p, key_ok (pKey p) = true ∧ bare_ok (pValue p) = true) ps.
Definition item_ok (it : sfItem) : Prop := bare_ok (iValue it) = true ∧ params_ok (iParams it).
Definition member_ok (m : sfMember) : Prop :=
  match m with MItem it => item_ok it | MInner l ps => Forall item_ok l ∧ params_ok ps end.
Definition dict_ok (d : sfDict) : Prop :=
  NoDup (dict_keys d) ∧ Forall (λ e, key_ok e.1 = true ∧ member_ok e.2) d.

(** What must not follow the text of a value. *)
Definition num_more (c : ascii) : bool := is_digit c || beq c ".".
Definition ends (v : sfBare) (rest : string) : bool :=
  match v with
  | sfInteger _ | sfDecimal _ => negb (starts num_more rest)
  | sfToken _ => negb (starts token_more rest)
  | _ => true
  end.
Definition value_ends (v : sfBare) (rest : string) : bool :=
  if bool_decide (v = sfTrue) then negb (starts (λ c, key_char c || beq c "=") rest) else ends v rest.
Definition params_end (v : sfBare) (ps : list sfParam) (rest : string) : bool :=
  negb (starts (beq ";") rest) && match last ps with Some p => value_ends (pValue p) rest | None => ends v rest end.

(** The delimiters of the grammar end everything. *)
Definition delimited (rest : string) : Prop := rest = "" ∨ starts (λ c, beq c " " || beq c "," || beq c ")") rest = true.

Lemma scan_digits t : ∀ n dot rest, all_bytes is_digit t = true →
  n + len t ≤ (match dot with None => 15 | Some _ => 16 end) →
  starts num_more rest = false → scan_number n dot (t +:+ rest) = Some (t, dot, rest).
Proof.
  induction t as [|c t IH]; intros n dot rest Ht Hl Hr.
  - rewrite sapp_nil_l. destruct rest as [|c rest]; [done|]. cbn in Hr. apply orb_false_iff in Hr as [Hd Hp]. cbn. by rewrite Hd, Hp.
  - cbn in Ht. apply andb_true_iff in Ht as [Hc Ht]. rewrite sapp_cons. cbn [scan_number]. rewrite Hc, len_cons in *.
    assert (match dot with None => 15 <? S n | Some _ => 16 <? S n end = false) as ->
      by (destruct dot; apply Nat.ltb_ge; lia).
    rewrite IH by (try done; destruct dot; lia). done.
Qed.

Lemma scan_decimal i f : ∀ n rest, all_bytes is_digit i = true → all_bytes is_digit f = true →
  n + len i ≤ 12 → len f ≤ 3 → starts num_more rest = false →
  scan_number n None (i +:+ String "." (f +:+ rest)) = Some (i +:+ String "." f, Some (n + len i), rest).
Proof.
  induction i as [|c i IH]; intros n rest Hi Hf Hn Hfl Hr.
  - rewrite !sapp_nil_l. cbn [scan_number]. change (is_digit ".") with false. change (beq "." ".") with true. cbn [andb].
    rewrite bool_decide_eq_true_2 by done. change (len "") with 0 in *. rewrite Nat.add_0_r in *.
    destruct (Nat.ltb_spec 12 n); [lia|]. destruct (Nat.ltb_spec 16 (S n)); [lia|]. rewrite scan_digits; [done|done|lia|done].
  - cbn in Hi. apply andb_true_iff in Hi as [Hc Hi]. rewrite !sapp_cons. cbn [scan_number]. rewrite Hc, len_cons in *.
    destruct (Nat.ltb_spec 15 (S n)); [lia|]. rewrite IH by (try done; lia). cbn. do 4 f_equal. lia.
Qed.

Lemma ParseInt_small s v : all_bytes is_digit s = true → ParseUint s = Some v → (0 ≤ v < 10 ^ 18)%Z → ParseInt s = Some v.
Proof.
  intros Hs Hv Hb. rewrite ParseInt_digits, Hv by done. cbn. by rewrite bool_decide_eq_true_2 by (unfold in_int64, int64_min, int64_max; lia).
Qed.

Lemma starts_digit_not_minus s : starts is_digit s = true → match s with String c s' => if beq c "-" then (true, s') else (false, s) | "" => (false, s) end = (false, s).
Proof. destruct s as [|c s]; [done|]. cbn. intros H. by destruct (digit_not_sign c H) as [-> _]. Qed.

Lemma number_integer i rest : (Z.abs i ≤ sfIntMax)%Z → starts num_more rest = false → number (Itoa i +:+ rest) = Some (sfInteger i, rest).
Proof.
  intros Hi Hr. unfold sfIntMax in Hi. assert (∀ n, (0 ≤ n ≤ 999999999999999)%Z →
    negb (starts is_digit (Utoa n +:+ rest)) = false ∧ scan_number 0 None (Utoa n +:+ rest) = Some (Utoa n, None, rest) ∧ ParseInt (Utoa n) = Some n) as H.
  { intros n Hn. pose proof (Utoa_digits n ltac:(lia)). split_and!.
    - by rewrite Utoa_starts by lia.
    - apply scan_digits; [done| |done]. pose proof (Utoa_len 14 n ltac:(cbn; lia)). lia.
    - apply ParseInt_small; [done|apply ParseUint_Utoa; lia|lia]. }
  unfold Itoa, number. destruct (Z.ltb_spec i 0).
  - change (("-" +:+ Utoa (- i)) +:+ rest) with (String "-" (Utoa (- i) +:+ rest)). cbv beta iota. change (beq "-" "-") with true. cbv beta iota zeta.
    destruct (H (- i)%Z ltac:(lia)) as (-> & -> & Hp). cbn [mbind option_bind]. rewrite Hp. cbn [mbind option_bind]. by rewrite Z.opp_involutive.
  - destruct (H i ltac:(lia)) as (Hs & Hsc & Hp). rewrite starts_digit_not_minus by (by apply negb_false_iff). rewrite Hs, Hsc. cbn [mbind option_bind]. by rewrite Hp.
Qed.

(** The text of a decimal after its sign. *)
Definition decimal_text (n : Z) : string :=
  let frac := TrimRight (beq "0") (sdrop 1 (Itoa (Z.rem n 1000 + 1000))) in
  Utoa (Z.quot n 1000) +:+ String "." (if bool_decide (frac = "") then "0" else frac).

Lemma serialize_decimal i : serialize_bare (sfDecimal i) = (if (i <? 0)%Z then "-" else "") +:+ decimal_text (Z.abs i).
Proof.
  unfold serialize_bare, decimal_text. cbv zeta. f_equal.
  assert (Itoa (Z.quot (Z.abs i) 1000) = Utoa (Z.quot (Z.abs i) 1000)) as ->; [|done].
  unfold Itoa. pose proof (Z.quot_pos (Z.abs i) 1000). by destruct (Z.ltb_spec (Z.quot (Z.abs i) 1000) 0); [lia|].
Qed.

Lemma all_bytes_prefix P s t : all_bytes P (s +:+ t) = true → all_bytes P s = true.
Proof. rewrite all_bytes_app. by intros [??]%andb_true_iff. Qed.

(** The fraction written is padded back to three digits. *)
Lemma fraction_text m : (0 ≤ m < 1000)%Z →
  let frac := TrimRight (beq "0") (sdrop 1 (Itoa (m + 1000))) in
  let f := if bool_decide (frac = "") then "0" else frac in
  f ≠ "" ∧ len f ≤ 3 ∧ all_bytes is_digit f = true ∧ ∀ acc, digits_val acc (f +:+ Repeat "0" (3 - len f)) = Some (acc * 1000 + m)%Z.
Proof.
  intros Hm. destruct (last_digits m Hm) as (t & -> & Ht & Hd & Hv). change (sdrop 1 (String "1" t)) with (sdrop 0 t).
  assert (sdrop 0 t = t) as -> by (by destruct t). pose proof (trim_zeros t Ht) as Hz. cbv zeta.
  destruct (bool_decide_reflect (TrimRight (beq "0") t = "")) as [E|E].
  - rewrite E in Hz. change (len "") with 0 in Hz. split_and!; [done|change (1 ≤ 3); lia|done|]. intros acc. rewrite <- Hv, <- Hz. done.
  - split_and!; [done| | |intros acc; by rewrite Hz].
    + destruct (TrimRight_split (beq "0") t) as (a & H & _). pose proof (f_equal len H) as Hl. rewrite len_app in Hl. lia.
    + destruct (TrimRight_split (beq "0") t) as (a & H & _). rewrite H in Hd. by eapply all_bytes_prefix.
Qed.

Lemma all_zeros n : all_bytes is_digit (Repeat "0" n) = true.
Proof. by induction n. Qed.

Lemma ParseUint_val s : s ≠ "" → ParseUint s = digits_val 0 s.
Proof. by destruct s. Qed.

Lemma ParseUint_ne s t : s ≠ "" → ParseUint (s +:+ t) = digits_val 0 (s +:+ t).
Proof. by destruct s. Qed.

Lemma number_decimal_text n rest : (0 ≤ n ≤ sfIntMax)%Z → starts num_more rest = false →
  ∃ f d, negb (starts is_digit (decimal_text n +:+ rest)) = false ∧
    scan_number 0 None (decimal_text n +:+ rest) = Some (decimal_text n, Some d, rest) ∧
    sdrop (S d) (decimal_text n) = f ∧ bool_decide (f = "") || (3 <? len f)%nat = false ∧
    ParseInt (stake d (decimal_text n) +:+ f +:+ Repeat "0" (3 - len f)) = Some n.
Proof.
  intros Hn Hr. unfold sfIntMax in Hn. unfold decimal_text. set (q := Z.quot n 1000). set (m := Z.rem n 1000).
  assert (n = q * 1000 + m ∧ 0 ≤ m < 1000 ∧ 0 ≤ q < 10 ^ 12)%Z as (Hqm & Hm & Hq).
  { subst q m. rewrite Z.quot_div_nonneg, Z.rem_mod_nonneg by lia. pose proof (Z.div_mod n 1000 ltac:(lia)). pose proof (Z.mod_pos_bound n 1000 ltac:(lia)).
    split_and!; [lia..|]. assert (0 ≤ n / 1000)%Z by (apply Z.div_pos; lia). lia. }
  destruct (fraction_text m Hm) as (Hfne & Hfl & Hfd & Hfv). cbv zeta. set (f := if bool_decide _ then "0" else _) in *.
  pose proof (Utoa_digits q ltac:(lia)) as Hud. pose proof (Utoa_len 11 q ltac:(cbn; lia)) as Hul.
  exists f, (len (Utoa q)). split_and!.
  - rewrite sapp_assoc, Utoa_starts by lia. done.
  - rewrite sapp_assoc, sapp_cons, scan_decimal by (done || lia). done.
  - apply sdrop_S_app.
  - rewrite bool_decide_eq_false_2 by done. cbn [orb]. apply Nat.ltb_ge. lia.
  - rewrite stake_app_len by done. apply ParseInt_small; [| |lia].
    + rewrite !all_bytes_app, Hud, Hfd. apply all_zeros.
    + rewrite ParseUint_ne by apply Utoa_ne. rewrite sf_digits_val_app. pose proof (ParseUint_Utoa q ltac:(lia)) as Hu.
      rewrite ParseUint_val in Hu by apply Utoa_ne. rewrite Hu. cbn [mbind option_bind]. rewrite Hfv, Hqm. done.
Qed.

Lemma number_decimal i rest : (Z.abs i ≤ sfIntMax)%Z → starts num_more rest = false →
  number (serialize_bare (sfDecimal i) +:+ rest) = Some (sfDecimal i, rest).
Proof.
  intros Hi Hr. destruct (number_decimal_text (Z.abs i) rest ltac:(lia) Hr) as (f & d & Hs & Hsc & Hf & Hb & Hp).
  rewrite serialize_decimal. unfold number. destruct (Z.ltb_spec i 0).
  - rewrite sapp_assoc. change ("-" +:+ decimal_text (Z.abs i) +:+ rest) with (String "-" (decimal_text (Z.abs i) +:+ rest)).
    cbv beta iota. change (beq "-" "-") with true. cbv beta iota zeta. rewrite Hs, Hsc. cbn [mbind option_bind]. rewrite Hf, Hb, Hp.
    cbn [mbind option_bind]. do 3 f_equal. lia.
  - rewrite sapp_nil_l, starts_digit_not_minus by (by apply negb_false_iff). cbv beta iota zeta. rewrite Hs, Hsc.
    cbn [mbind option_bind]. rewrite Hf, Hb, Hp. cbn [mbind option_bind]. do 3 f_equal. lia.
Qed.

(** ** Values *)

Lemma str_body_escape s rest : all_bytes sf_char s = true → str_body (escape_string s +:+ String quote rest) = Some (s, rest).
Proof.
  induction s as [|c s IH]; intros Hs.
  - done.
  - cbn in Hs. apply andb_true_iff in Hs as [Hc Hs]. unfold sf_char in Hc. apply negb_true_iff in Hc. cbn [escape_string].
    destruct (beq c quote || beq c backslash) eqn:E.
    + rewrite !sapp_cons. cbn [str_body]. change (beq backslash backslash) with true. cbv iota. rewrite E, (IH Hs). done.
    + rewrite sapp_cons. cbn [str_body]. apply orb_false_iff in E as [-> ->]. rewrite Hc, (IH Hs). done.
Qed.

Lemma b64_std_digit n : (0 ≤ n < 64)%Z → b64_text (b64_digit false n) = true.
Proof. apply (b64_all (λ n, b64_text (b64_digit false n))). vm_compute. reflexivity. Qed.

Lemma b64_std_spec l : Forall (λ c, b64_text c = true) (b64_enc false true l) ∧ length (b64_enc false true l) mod 4 = 0.
Proof.
  induction l as [|a|a b|a b c l IH] using list_ind3; cbn [b64_enc b64_pad replicate app length]; [done|..].
  1-2: split; [repeat (apply Forall_cons; split; [first [apply b64_std_digit; b64_arith|reflexivity]|]); done|done].
  destruct IH as [Hf Hl]. split; [repeat (apply Forall_cons; split; [apply b64_std_digit; b64_arith|]); done|].
  change (S (S (S (S (length (b64_enc false true l)))))) with (1 * 4 + length (b64_enc false true l)). by rewrite Nat.add_comm, Nat.Div0.mod_add.
Qed.

Lemma all_bytes_Forall P s : all_bytes P s = true ↔ Forall (λ c, P c = true) (explode s).
Proof. induction s as [|c s IH]; cbn; [done|]. by rewrite andb_true_iff, Forall_cons, IH. Qed.

Lemma padded_Encode b : padded (StdEncode b) = StdEncode b.
Proof.
  unfold padded. destruct (contains_byte (StdEncode b) "=") eqn:E; [by rewrite andb_false_r|].
  assert (TrimRight (beq "=") (StdEncode b) = StdEncode b) as ->.
  { destruct (TrimRight_split (beq "=") (StdEncode b)) as (a & H & Ha). destruct a as [|c a]; [by rewrite sapp_nil_r in H|]. exfalso.
    cbn [all_bytes] in Ha. apply andb_true_iff in Ha as [Hc _]. apply beq_eq in Hc as <-. rewrite H, contains_byte_app, contains_byte_cons, beq_refl in E.
    by rewrite orb_true_r in E. }
  assert (len (StdEncode b) mod 4 = 0) as ->; [|done].
  unfold StdEncode, EncodeToString. rewrite <- len_explode, explode_implode. apply b64_std_spec.
Qed.

Lemma binary_Encode b rest : binary (StdEncode b +:+ String ":" rest) = Some (sfBinary b, rest).
Proof.
  pose proof (proj1 (b64_std_spec (explode b))) as Ht.
  assert (all_bytes b64_text (StdEncode b) = true) as Hb by (apply all_bytes_Forall; unfold StdEncode, EncodeToString; by rewrite explode_implode).
  unfold binary. rewrite IndexByte_app by (by apply (all_bytes_no b64_text)). cbn [mbind option_bind].
  rewrite stake_app_len, sdrop_S_app, Hb, padded_Encode by done. cbn [negb]. unfold StdDecode, StdEncode. by rewrite DecodeString_Encode.
Qed.

Lemma token_start_only c : beq c "*" || isAlpha c = true → beq c "-" || is_digit c = false ∧ beq c quote = false ∧ beq c ":" = false.
Proof. destruct c as [[] [] [] [] [] [] [] []]; vm_compute; intros H; by repeat split. Qed.

Lemma bareItem_number s : HasPrefix s "-" = true ∨ starts is_digit s = true → bareItem s = number s.
Proof.
  destruct s as [|c s]; intros [H|H]; [discriminate H..| |]; cbn [bareItem].
  - apply HasPrefix_true in H as [t [= -> ->]]. reflexivity.
  - cbn [starts] in H. by rewrite H, orb_true_r.
Qed.

(** Reading back the text of a value. *)
Lemma bareItem_serialize v rest : bare_ok v = true → ends v rest = true → bareItem (serialize_bare v +:+ rest) = Some (v, rest).
Proof.
  intros Hok He. destruct v as [i|i|s|s|b|bo]; cbn [bare_ok ends] in *.
  - apply Z.leb_le in Hok. apply negb_true_iff in He. rewrite <- (number_integer i rest Hok He). apply bareItem_number.
    unfold serialize_bare, Itoa. destruct (i <? 0)%Z eqn:E; [left; rewrite sapp_assoc; apply HasPrefix_app|]. right. apply Z.ltb_ge in E. by apply Utoa_starts.
  - apply Z.leb_le in Hok. apply negb_true_iff in He. rewrite <- (number_decimal i rest Hok He). apply bareItem_number.
    rewrite serialize_decimal. destruct (i <? 0)%Z; [left; rewrite sapp_assoc; apply HasPrefix_app|]. right. unfold decimal_text. cbv zeta. rewrite sapp_nil_l, sapp_assoc.
    apply Utoa_starts, Z.quot_pos; lia.
  - cbn [serialize_bare]. rewrite sapp_cons, sapp_assoc. cbn [bareItem]. change (beq quote "-" || is_digit quote) with false. cbv iota.
    rewrite beq_refl, sapp_cons, sapp_nil_l, str_body_escape by done. done.
  - apply andb_true_iff in Hok as [Hs Ht]. apply negb_true_iff in He. destruct s as [|c s]; [done|].
    assert (all_bytes token_more s = true) as Hm by (by destruct s). cbn [serialize_bare starts] in *. rewrite sapp_cons. cbn [bareItem].
    assert (beq c "-" || is_digit c = false ∧ beq c quote = false ∧ beq c ":" = false) as (-> & -> & ->)
      by exact (token_start_only c Hs).
    rewrite Hs. cbn [token]. by rewrite span_app.
  - cbn [serialize_bare]. change (":" +:+ StdEncode b +:+ ":") with (String ":" (StdEncode b +:+ ":")). rewrite sapp_cons, sapp_assoc.
    cbn [bareItem]. change (beq ":" "-" || is_digit ":") with false. change (beq ":" quote) with false. change (beq ":" ":") with true.
    cbv iota. apply binary_Encode.
  - destruct bo; reflexivity.
Qed.

Lemma starts_delim P c r : P c = false → starts P (String c r) = false.
Proof. done. Qed.

(** ** Parameters and items *)

Lemma sp_id s : starts (beq " ") s = false → sp s = s.
Proof. unfold sp. destruct s as [|c s]; [done|]. cbn [starts span]. by intros ->. Qed.

Lemma ows_id s : starts (λ c, beq c " " || beq c (byte 9)) s = false → ows s = s.
Proof. unfold ows. destruct s as [|c s]; [done|]. cbn [starts span]. by intros ->. Qed.

Lemma key_char_facts c : key_char c = true → beq " " c = false ∧ (beq c " " || beq c (byte 9)) = false ∧ sf_char c = true.
Proof. destruct c as [[] [] [] [] [] [] [] []]; vm_compute; intros H; by repeat split. Qed.

Lemma key_ok_starts k t P : key_ok k = true → (∀ c, key_char c = true → P c = false) → starts P (k +:+ t) = false.
Proof.
  intros [Hs Hk]%andb_true_iff HP. destruct k as [|c k]; [done|]. rewrite sapp_cons. cbn in *. apply andb_true_iff in Hk as [Hk _]. by apply HP.
Qed.

Lemma key_read k t : key_ok k = true → starts key_char t = false → key (k +:+ t) = Some (k, t).
Proof.
  intros [Hs Hk]%andb_true_iff Ht. unfold key. assert (k ≠ "") by (by destruct k).
  by rewrite starts_app, Hs, span_app by done.
Qed.

Lemma value_ends_semi v t : value_ends v (String ";" t) = true.
Proof. unfold value_ends. case_bool_decide; [reflexivity|]. by destruct v. Qed.

Lemma ends_semi v t : ends v (String ";" t) = true.
Proof. by destruct v. Qed.

Lemma delimited_ends rest : delimited rest →
  starts (beq ";") rest = false ∧ starts key_char rest = false ∧ starts (beq "=") rest = false ∧
  (∀ v, ends v rest = true) ∧ (∀ v, value_ends v rest = true) ∧ ∀ v ps, params_end v ps rest = true.
Proof.
  assert (∀ rest, delimited rest → starts (beq ";") rest = false ∧ starts key_char rest = false ∧ starts (beq "=") rest = false ∧
    (∀ v, ends v rest = true) ∧ ∀ v, value_ends v rest = true) as H.
  { intros r [->|Hr]; [split_and!; try done; intros v; unfold value_ends; try case_bool_decide; by destruct v|].
    destruct r as [|c r]; [done|]. cbn in Hr. rewrite !orb_true_iff, !beq_eq in Hr.
    destruct Hr as [[->| ->]| ->]; (split_and!; try done; intros v; unfold value_ends; try case_bool_decide; by destruct v). }
  intros Hr. destruct (H rest Hr) as (H1 & H2 & H3 & H4 & H5). split_and!; [done..|]. intros v ps. unfold params_end. rewrite H1. cbn [negb andb]. destruct (last ps); auto.
Qed.

Lemma sdrop_0 s : sdrop 0 s = s.
Proof. by destruct s. Qed.

Lemma sapp_cons_semi s t u r : (";" +:+ s +:+ t +:+ u) +:+ r = String ";" (s +:+ t +:+ u +:+ r).
Proof. by rewrite !sapp_assoc. Qed.

(** The text after the value of one parameter. *)
Lemma params_tail ps rest v : params_end v ps rest = true →
  ends v (serializeParams ps +:+ rest) = true ∧ (ps ≠ [] → value_ends v (serializeParams ps +:+ rest) = true).
Proof.
  unfold params_end. destruct ps as [|p ps].
  - cbn [last serializeParams]. rewrite sapp_nil_l. intros [_ H]%andb_true_iff. by split.
  - intros _. cbn [serializeParams]. change (";" +:+ pKey p +:+ ?x) with (String ";" (pKey p +:+ x)). rewrite sapp_cons.
    split; [apply ends_semi|intros _; apply value_ends_semi].
Qed.

Lemma param_read p t : key_ok (pKey p) = true → bare_ok (pValue p) = true → value_ends (pValue p) t = true →
  let s := pKey p +:+ (if bool_decide (pValue p = sfTrue) then "" else "=" +:+ serialize_bare (pValue p)) +:+ t in
  sp s = s ∧ ∃ s1, key s = Some (pKey p, s1) ∧
    (if starts (beq "=") s1 then bareItem (sdrop 1 s1) else Some (sfTrue, s1)) = Some (pValue p, t).
Proof.
  intros Hk Hb He. cbv zeta. split; [apply sp_id, key_ok_starts; [done|intros c Hc; by apply key_char_facts in Hc as (? & _)]|].
  unfold value_ends in He. destruct (bool_decide_reflect (pValue p = sfTrue)) as [E|E].
  - rewrite sapp_nil_l. exists t. apply negb_true_iff in He. split.
    + apply key_read; [done|]. eapply starts_impl, He. intros c Hc. cbv beta. by rewrite Hc.
    + assert (starts (beq "=") t = false) as ->; [|by rewrite E].
      eapply starts_impl, He. intros c Hc. apply beq_eq in Hc as <-. reflexivity.
  - exists ("=" +:+ serialize_bare (pValue p) +:+ t). rewrite sapp_assoc. split; [by apply key_read|].
    change ("=" +:+ serialize_bare (pValue p) +:+ t) with (String "=" (serialize_bare (pValue p) +:+ t)). cbn [starts]. rewrite beq_refl.
    change (sdrop 1 (String "=" ?x)) with (sdrop 0 x). rewrite sdrop_0. by apply bareItem_serialize.
Qed.

Lemma parameters_serialize ps : ∀ fuel out rest,
  NoDup (map pKey (out ++ ps)) → Forall (λ p, key_ok (pKey p) = true ∧ bare_ok (pValue p) = true) ps → length ps < fuel →
  starts (beq ";") rest = false → match last ps with Some p => value_ends (pValue p) rest | None => true end = true →
  parameters fuel out (serializeParams ps +:+ rest) = Some (out ++ ps, rest).
Proof.
  induction ps as [|p ps IH]; intros fuel out rest Hnd Hok Hf Hr He; (destruct fuel as [|fuel]; [cbn in Hf; lia|]).
  - cbn [serializeParams parameters]. by rewrite sapp_nil_l, Hr, app_nil_r.
  - apply Forall_cons in Hok as [[Hk Hb] Hok]. cbn [serializeParams]. rewrite sapp_cons_semi. cbn [parameters starts]. rewrite beq_refl.
    change (sdrop 1 (String ";" ?x)) with (sdrop 0 x). rewrite sdrop_0.
    assert (value_ends (pValue p) (serializeParams ps +:+ rest) = true) as Hve.
    { destruct ps as [|p' ps]; [by rewrite sapp_nil_l|]. cbn [serializeParams]. rewrite sapp_cons_semi. apply value_ends_semi. }
    destruct (param_read p _ Hk Hb Hve) as (-> & s1 & -> & Hv). cbn [mbind option_bind].
    assert (existsb (λ q, bool_decide (pKey q = pKey p)) out = false) as ->.
    { apply not_true_iff_false. intros (q & Hq & Hqp)%existsb_exists. apply bool_decide_eq_true in Hqp. rewrite map_app in Hnd.
      apply NoDup_app in Hnd as (_ & Hd & _). apply (Hd (pKey p)); [rewrite <- Hqp; apply list_elem_of_fmap; exists q; split; [done|by apply list_elem_of_In]|left]. }
    rewrite Hv. cbn [mbind option_bind]. replace (MkParam (pKey p) (pValue p)) with p by (by destruct p).
    rewrite IH; [by rewrite <- app_assoc|by rewrite <- app_assoc|done|cbn in Hf; lia|done|].
    destruct ps as [|p' ps]; [done|]. exact He.
Qed.

Lemma serializeParams_len ps : length ps ≤ len (serializeParams ps).
Proof. induction ps as [|p ps IH]; [done|]. cbn [serializeParams length]. rewrite !len_app. change (len ";") with 1. lia. Qed.

Lemma params_of_serialize v ps rest : params_ok ps → params_end v ps rest = true →
  params_of (serializeParams ps +:+ rest) = Some (ps, rest).
Proof.
  intros [Hnd Hok] [Hr He]%andb_true_iff. apply negb_true_iff in Hr. unfold params_of.
  rewrite parameters_serialize; [done|done|done| |done|by destruct (last ps)].
  rewrite len_app. pose proof (serializeParams_len ps). lia.
Qed.

Lemma item_serialize it rest : item_ok it → params_end (iValue it) (iParams it) rest = true →
  item (serialize_item it +:+ rest) = Some (it, rest).
Proof.
  intros [Hv Hp] He. unfold item, serialize_item. rewrite sapp_assoc, bareItem_serialize by (done || by apply params_tail).
  cbn [mbind option_bind]. rewrite (params_of_serialize (iValue it)) by done. by destruct it.
Qed.

(** Text that reads as an item starts neither with a space nor with a parenthesis. *)
Lemma item_starts s x : item s = Some x → s ≠ "" ∧ starts (beq " ") s = false ∧ starts (beq ")") s = false ∧ starts (beq "(") s = false.
Proof.
  intros H. destruct s as [|c s]; [discriminate H|]. split; [done|]. cbn [starts].
  repeat split; apply not_true_iff_false; intros E; apply beq_eq in E as <-; discriminate H.
Qed.

Lemma Join_cons x l sep : l ≠ [] → Join (x :: l) sep = x +:+ sep +:+ Join l sep.
Proof. by destruct l. Qed.

Lemma inner_list_serialize l : ∀ fuel items ps rest lead,
  Forall item_ok l → params_ok ps → params_end sfTrue ps rest = true → length l < fuel → lead = "" ∨ lead = " " →
  inner_list fuel items (lead +:+ Join (map serialize_item l) " " +:+ ")" +:+ serializeParams ps +:+ rest) = Some (MInner (items ++ l) ps, rest).
Proof.
  induction l as [|it l IH]; intros fuel items ps rest lead Hl Hps He Hf Hlead; (destruct fuel as [|fuel]; [cbn in Hf; lia|]).
  - cbn [map Join]. rewrite sapp_nil_l. cbn [inner_list]. change (")" +:+ ?t) with (String ")" t).
    assert (∀ t, bool_decide (lead +:+ String ")" t = "") = false ∧ sp (lead +:+ String ")" t) = String ")" t) as Hs.
    { intros t. destruct Hlead as [->| ->]; (split; [by apply bool_decide_eq_false_2|]).
      - by rewrite sapp_nil_l, sp_id.
      - change (" " +:+ String ")" t) with (String " " (String ")" t)). unfold sp. cbn [span]. by rewrite beq_refl. }
    destruct (Hs (serializeParams ps +:+ rest)) as [-> ->]. cbn [starts]. rewrite beq_refl.
    change (sdrop 1 (String ")" ?x)) with (sdrop 0 x). rewrite sdrop_0, (params_of_serialize sfTrue) by done. cbn. by rewrite app_nil_r.
  - apply Forall_cons in Hl as [Hit Hl]. cbn [map].
    set (tail := ")" +:+ serializeParams ps +:+ rest) in *.
    assert (∃ lead' , (lead' = "" ∨ lead' = " ") ∧ Join (serialize_item it :: map serialize_item l) " " +:+ tail = serialize_item it +:+ lead' +:+ Join (map serialize_item l) " " +:+ tail ∧
      delimited (lead' +:+ Join (map serialize_item l) " " +:+ tail) ∧
      starts (λ c, beq c " " || beq c ")") (lead' +:+ Join (map serialize_item l) " " +:+ tail) = true) as (lead' & Hl' & Heq & Hdel & Hst).
    { destruct (decide (map serialize_item l = [])) as [E|E].
      - exists "". rewrite E. cbn [Join]. rewrite !sapp_nil_l. split_and!; [by left|done|by right|done].
      - exists " ". rewrite Join_cons, !sapp_assoc by done. split_and!; [by right|done|by right|done]. }
    pose proof (item_serialize it _ Hit (proj2 (proj2 (proj2 (proj2 (proj2 (delimited_ends _ Hdel))))) _ _)) as Hread.
    pose proof (item_starts _ _ Hread) as (Hne & Hsp & Hcl & _). rewrite Heq. cbn [inner_list].
    assert (bool_decide (lead +:+ serialize_item it +:+ lead' +:+ Join (map serialize_item l) " " +:+ tail = "") = false ∧
      sp (lead +:+ serialize_item it +:+ lead' +:+ Join (map serialize_item l) " " +:+ tail) = serialize_item it +:+ lead' +:+ Join (map serialize_item l) " " +:+ tail) as [-> ->].
    { destruct Hlead as [->| ->]; [rewrite sapp_nil_l; split; [by apply bool_decide_eq_false_2|by apply sp_id]|].
      split; [by apply bool_decide_eq_false_2|]. change (" " +:+ ?t) with (String " " t). unfold sp. cbn [span]. rewrite beq_refl.
      pose proof (sp_id _ Hsp) as Hid. unfold sp in Hid. destruct (span (beq " ") _) as [a b]. exact Hid. }
    rewrite Hcl, Hread. cbn [mbind option_bind]. rewrite Hst. unfold tail.
    rewrite IH by (done || (cbn in Hf; lia)). by rewrite <- app_assoc.
Qed.

Lemma member_serialize m rest : member_ok m →
  match m with MItem it => params_end (iValue it) (iParams it) rest = true | MInner _ ps => params_end sfTrue ps rest = true end →
  itemOrInnerList (serialize_member m +:+ rest) = Some (m, rest).
Proof.
  destruct m as [it|l ps]; cbn [member_ok serialize_member]; unfold itemOrInnerList.
  - intros Hit He. pose proof (item_serialize it rest Hit He) as Hread. pose proof (item_starts _ _ Hread) as (_ & _ & _ & ->). by rewrite Hread.
  - intros [Hl Hps] He. rewrite !sapp_assoc. change ("(" +:+ ?t) with (String "(" t). cbn [starts]. rewrite beq_refl.
    change (sdrop 1 (String "(" ?x)) with (sdrop 0 x). rewrite sdrop_0.
    pose proof (inner_list_serialize l (S (len (String "(" (Join (map serialize_item l) " " +:+ ")" +:+ serializeParams ps +:+ rest)))) [] ps rest "" Hl Hps He) as H.
    rewrite sapp_nil_l in H. apply H; [|by left]. rewrite len_cons, len_app.
    assert (∀ k : list sfItem, length k ≤ S (len (Join (map serialize_item k) " "))) as Hlen.
    { intros k. induction k as [|x k IHk]; [cbn; lia|]. cbn [map length]. destruct k as [|y k]; [cbn; lia|].
      rewrite Join_cons by done. rewrite !len_app. change (len " ") with 1. cbn [length map] in *. lia. }
    specialize (Hlen l). lia.
Qed.

(** ** Dictionaries *)

Lemma entry_read e rest : key_ok e.1 = true → member_ok e.2 → delimited rest →
  ∃ s, key (serialize_entry e +:+ rest) = Some (e.1, s) ∧
    (if starts (beq "=") s then itemOrInnerList (sdrop 1 s)
     else '(ps, s) ← params_of s; Some (MItem (MkItem sfTrue ps), s)) = Some (e.2, rest).
Proof.
  intros Hk Hm Hd. pose proof (delimited_ends _ Hd) as (Hsemi & Hkc & Heq & _ & _ & Hpe).
  assert (∀ t, itemOrInnerList (serialize_member e.2 +:+ rest) = Some (e.2, rest) →
    serialize_entry e = e.1 +:+ "=" +:+ serialize_member e.2 → ∃ s, key (serialize_entry e +:+ rest) = Some (e.1, s) ∧
    (if starts (beq "=") s then itemOrInnerList (sdrop 1 s) else t s) = Some (e.2, rest)) as Hmem.
  { intros t Hr ->. exists ("=" +:+ serialize_member e.2 +:+ rest). rewrite !sapp_assoc. split; [by apply key_read|].
    change ("=" +:+ ?x) with (String "=" x). cbn [starts]. rewrite beq_refl. change (sdrop 1 (String "=" ?x)) with (sdrop 0 x). by rewrite sdrop_0. }
  assert (itemOrInnerList (serialize_member e.2 +:+ rest) = Some (e.2, rest)) as Hr by (apply member_serialize; [done|by destruct e.2]).
  unfold serialize_entry in *. destruct e as [k [it|l ps]]; cbn [fst snd] in *; [|by apply (Hmem (λ s, '(ps, s) ← params_of s; Some (MItem (MkItem sfTrue ps), s)))].
  destruct (bool_decide_reflect (iValue it = sfTrue)) as [E|E]; [|by apply (Hmem (λ s, '(ps, s) ← params_of s; Some (MItem (MkItem sfTrue ps), s)))].
  clear Hmem. exists (serializeParams (iParams it) +:+ rest). rewrite sapp_assoc.
  assert (starts key_char (serializeParams (iParams it) +:+ rest) = false ∧ starts (beq "=") (serializeParams (iParams it) +:+ rest) = false) as [Hk1 Hk2].
  { destruct (iParams it) as [|p ps]; [by rewrite sapp_nil_l|]. cbn [serializeParams]. by rewrite sapp_cons_semi. }
  split; [by apply key_read|]. rewrite Hk2. destruct Hm as [_ Hps].
  rewrite (params_of_serialize sfTrue) by done. cbn [mbind option_bind]. rewrite <- E. by destruct it.
Qed.

Lemma entry_starts P e t : key_ok e.1 = true → (∀ c, key_char c = true → P c = false) → starts P (serialize_entry e +:+ t) = false ∧ serialize_entry e +:+ t ≠ "".
Proof.
  intros Hk HP. assert (∃ u, serialize_entry e +:+ t = e.1 +:+ u) as [u ->].
  { unfold serialize_entry. destruct e.2; [case_bool_decide|]; rewrite sapp_assoc; by eexists. }
  split; [by apply key_ok_starts|]. apply andb_true_iff in Hk as [Hk _]. by destruct e.1.
Qed.

Lemma dict_members_serialize d : ∀ fuel out,
  d ≠ [] → NoDup (dict_keys (out ++ d)) → Forall (λ e, key_ok e.1 = true ∧ member_ok e.2) d → length d ≤ fuel →
  dict_members fuel out (serialize_dict d) = Some (out ++ d).
Proof.
  induction d as [|e d IH]; intros fuel out Hne Hnd Hok Hf; [done|]. destruct fuel as [|fuel]; [cbn in Hf; lia|].
  apply Forall_cons in Hok as [[Hk Hm] Hok].
  assert (∃ rest, serialize_dict (e :: d) = serialize_entry e +:+ rest ∧
    (d = [] ∧ rest = "" ∨ d ≠ [] ∧ rest = ", " +:+ serialize_dict d)) as (rest & -> & Hrest).
  { unfold serialize_dict. cbn [map]. destruct d as [|e' d]; [exists ""; rewrite sapp_nil_r; eauto|].
    exists (", " +:+ Join (map serialize_entry (e' :: d)) ", "). split; [by apply Join_cons|by right]. }
  assert (delimited rest) as Hdel by (destruct Hrest as [[_ ->]|[_ ->]]; [by left|by right]).
  destruct (entry_read e rest Hk Hm Hdel) as (s & Hkey & Hval). cbn [dict_members]. rewrite Hkey. cbn [mbind option_bind].
  rewrite bool_decide_eq_false_2.
  2: { unfold dict_keys in *. rewrite map_app in Hnd. apply NoDup_app in Hnd as (_ & Hd & _). intros Hin. apply (Hd _ Hin). left. }
  rewrite Hval. cbn [mbind option_bind]. assert ((e.1, e.2) = e) as -> by (by destruct e).
  destruct Hrest as [[-> ->]|[Hdn ->]]; [done|]. rewrite ows_id by done. rewrite bool_decide_eq_false_2 by done.
  change (", " +:+ serialize_dict d) with (String "," (String " " (serialize_dict d))). cbn [starts]. rewrite beq_refl. cbn [negb].
  change (sdrop 1 (String "," ?x)) with (sdrop 0 x). rewrite sdrop_0.
  destruct d as [|e' d]; [done|]. pose proof (Forall_inv Hok) as [Hk' _].
  assert (∃ u, serialize_dict (e' :: d) = serialize_entry e' +:+ u) as [u Hu].
  { unfold serialize_dict. cbn [map]. destruct (map serialize_entry d); [exists ""; by rewrite sapp_nil_r|eexists; by apply Join_cons]. }
  destruct (entry_starts (λ c, beq c " " || beq c (byte 9)) e' u Hk' (λ c Hc, proj1 (proj2 (key_char_facts c Hc)))) as [Hst Hnil].
  rewrite <- Hu in Hst, Hnil. assert (ows (String " " (serialize_dict (e' :: d))) = serialize_dict (e' :: d)) as ->.
  { unfold ows. cbn [span]. rewrite beq_refl. cbn [orb]. pose proof (ows_id _ Hst) as Hid. unfold ows in Hid. by destruct (span _ (serialize_dict _)). }
  rewrite bool_decide_eq_false_2 by done. rewrite IH; [by rewrite <- app_assoc|done|by rewrite <- app_assoc|done|cbn in *; lia].
Qed.

(** ** The bytes of a serialized field *)

Lemma sf_digit c : is_digit c = true → sf_char c = true.
Proof. destruct c as [[] [] [] [] [] [] [] []]; vm_compute; intros H; by repeat split. Qed.
Lemma sf_token c : token_more c = true → sf_char c = true.
Proof. destruct c as [[] [] [] [] [] [] [] []]; vm_compute; intros H; by repeat split. Qed.
Lemma sf_b64 c : b64_text c = true → sf_char c = true.
Proof. destruct c as [[] [] [] [] [] [] [] []]; vm_compute; intros H; by repeat split. Qed.
Lemma token_start_more c : beq c "*" || isAlpha c = true → token_more c = true.
Proof. destruct c as [[] [] [] [] [] [] [] []]; vm_compute; intros H; by repeat split. Qed.

Lemma sf_Utoa n : (0 ≤ n)%Z → all_bytes sf_char (Utoa n) = true.
Proof. intros Hn. eapply all_bytes_impl; [apply sf_digit|by apply Utoa_digits]. Qed.

Lemma sf_escape s : all_bytes sf_char s = true → all_bytes sf_char (escape_string s) = true.
Proof.
  induction s as [|c s IH]; [done|]. cbn [all_bytes escape_string]. intros [Hc Hs]%andb_true_iff.
  destruct (beq c quote || beq c backslash); cbn [all_bytes]; by rewrite Hc, (IH Hs).
Qed.

Lemma sf_bare v : bare_ok v = true → all_bytes sf_char (serialize_bare v) = true.
Proof.
  intros Hv. destruct v as [i|i|s|s|b|bo]; cbn [bare_ok] in Hv.
  - cbn [serialize_bare]. unfold Itoa. destruct (Z.ltb_spec i 0); [|by apply sf_Utoa]. rewrite all_bytes_app. by rewrite sf_Utoa by lia.
  - apply Z.leb_le in Hv. rewrite serialize_decimal. rewrite all_bytes_app. assert (all_bytes sf_char (decimal_text (Z.abs i)) = true) as ->.
    + unfold decimal_text. cbv zeta. rewrite all_bytes_app. cbn [all_bytes]. rewrite sf_Utoa by (apply Z.quot_pos; lia).
      destruct (fraction_text (Z.rem (Z.abs i) 1000)) as (_ & _ & Hd & _); [rewrite Z.rem_mod_nonneg by lia; apply Z.mod_pos_bound; lia|].
      cbv zeta in Hd. rewrite (all_bytes_impl _ _ _ sf_digit Hd). done.
    + by destruct (i <? 0)%Z.
  - cbn [serialize_bare all_bytes]. rewrite all_bytes_app, sf_escape by done. done.
  - apply andb_true_iff in Hv as [Hs Ht]. destruct s as [|c s]; [done|]. cbn [starts] in Hs. cbn [serialize_bare all_bytes].
    assert (all_bytes token_more s = true) as Hm by (by destruct s). rewrite (sf_token _ (token_start_more _ Hs)). by apply (all_bytes_impl _ _ _ sf_token).
  - cbn [serialize_bare]. rewrite !all_bytes_app. assert (all_bytes sf_char (StdEncode b) = true) as ->; [|done].
    apply (all_bytes_impl _ _ _ sf_b64). apply all_bytes_Forall. unfold StdEncode, EncodeToString. rewrite explode_implode. apply b64_std_spec.
  - by destruct bo.
Qed.

Lemma sf_key k : key_ok k = true → all_bytes sf_char k = true.
Proof. intros [_ H]%andb_true_iff. eapply all_bytes_impl; [|exact H]. intros c Hc. by apply key_char_facts. Qed.

Lemma sf_params ps : Forall (λ p, key_ok (pKey p) = true ∧ bare_ok (pValue p) = true) ps → all_bytes sf_char (serializeParams ps) = true.
Proof.
  induction 1 as [|p ps [Hk Hv] _ IH]; [done|]. cbn [serializeParams].
  assert (all_bytes sf_char (if bool_decide (pValue p = sfTrue) then "" else "=" +:+ serialize_bare (pValue p)) = true) as Hval
    by (case_bool_decide; [done|]; by rewrite all_bytes_app, sf_bare).
  by rewrite !all_bytes_app, (sf_key _ Hk), Hval, IH.
Qed.

Lemma sf_item it : item_ok it → all_bytes sf_char (serialize_item it) = true.
Proof. intros [Hv [_ Hp]]. unfold serialize_item. by rewrite all_bytes_app, sf_bare, sf_params. Qed.

Lemma sf_Join l sep : all_bytes sf_char sep = true → Forall (λ s, all_bytes sf_char s = true) l → all_bytes sf_char (Join l sep) = true.
Proof.
  intros Hs. induction 1 as [|x l Hx Hl IH]; [done|]. destruct l; [done|]. rewrite Join_cons by done. by rewrite !all_bytes_app, Hx, Hs, IH.
Qed.

Lemma sf_member m : member_ok m → all_bytes sf_char (serialize_member m) = true.
Proof.
  destruct m as [it|l ps]; [apply sf_item|]. intros [Hl [_ Hp]]. cbn [serialize_member]. rewrite !all_bytes_app, sf_params by done.
  rewrite sf_Join; [done|done|]. apply Forall_map. eapply Forall_impl; [exact Hl|apply sf_item].
Qed.

Lemma sf_dict d : Forall (λ e, key_ok e.1 = true ∧ member_ok e.2) d → all_bytes sf_char (serialize_dict d) = true.
Proof.
  intros H. apply sf_Join; [done|]. apply Forall_map. eapply Forall_impl; [exact H|]. intros [k m] [Hk Hm]. cbn [fst snd] in *.
  assert (all_bytes sf_char (k +:+ "=" +:+ serialize_member m) = true) as Hfull by (rewrite !all_bytes_app, sf_key, sf_member by done; done).
  unfold serialize_entry. cbn [fst snd]. destruct m as [it|l ps]; [|done]. case_bool_decide; [|done].
  destruct Hm as [_ [_ Hp]]. by rewrite all_bytes_app, sf_key, sf_params.
Qed.

(** The text ends in a byte that trimming keeps. *)
Definition closed (s : string) : Prop := ∃ a c, s = a +:+ String c "" ∧ is_sp c = false.

Lemma closed_app s t : closed t → closed (s +:+ t).
Proof. intros (a & c & -> & Hc). exists (s +:+ a), c. by rewrite sapp_assoc. Qed.

Lemma closed_app_or s t : closed s → t = "" ∨ closed t → closed (s +:+ t).
Proof. intros Hs [->|Ht]; [by rewrite sapp_nil_r|by apply closed_app]. Qed.

Lemma closed_bytes (P : ascii → bool) s : (∀ c, P c = true → is_sp c = false) → all_bytes P s = true → s ≠ "" → closed s.
Proof.
  intros HP. induction s as [|c s IH]; [done|]. cbn [all_bytes]. intros [Hc Hs]%andb_true_iff _. destruct s as [|d s].
  - exists "", c. split; [done|by apply HP].
  - change (String c (String d s)) with (String c "" +:+ String d s). apply closed_app. by apply IH.
Qed.

Lemma digit_not_sp c : is_digit c = true → is_sp c = false.
Proof. destruct c as [[] [] [] [] [] [] [] []]; vm_compute; intros H; by repeat split. Qed.
Lemma token_not_sp c : token_more c = true → is_sp c = false.
Proof. destruct c as [[] [] [] [] [] [] [] []]; vm_compute; intros H; by repeat split. Qed.
Lemma key_not_sp c : key_char c = true → is_sp c = false.
Proof. destruct c as [[] [] [] [] [] [] [] []]; vm_compute; intros H; by repeat split. Qed.

Lemma closed_Utoa n : (0 ≤ n)%Z → closed (Utoa n).
Proof. intros Hn. eapply closed_bytes; [apply digit_not_sp|by apply Utoa_digits|apply Utoa_ne]. Qed.

Lemma closed_bare v : bare_ok v = true → closed (serialize_bare v).
Proof.
  intros Hv. destruct v as [i|i|s|s|b|bo]; cbn [bare_ok] in Hv.
  - cbn [serialize_bare]. unfold Itoa. destruct (Z.ltb_spec i 0); [apply closed_app|]; apply closed_Utoa; lia.
  - rewrite serialize_decimal. apply closed_app. unfold decimal_text. cbv zeta. apply closed_app.
    destruct (fraction_text (Z.rem (Z.abs i) 1000)) as (Hne & _ & Hd & _); [rewrite Z.rem_mod_nonneg by lia; apply Z.mod_pos_bound; lia|].
    cbv zeta in Hne, Hd. change (String "." ?x) with (String "." "" +:+ x). apply closed_app. by eapply closed_bytes; [apply digit_not_sp|..].
  - cbn [serialize_bare]. change (String quote ?x) with (String quote "" +:+ x). apply closed_app, closed_app. by exists "", quote.
  - apply andb_true_iff in Hv as [Hs Ht]. destruct s as [|c s]; [done|]. cbn [starts] in Hs. cbn [serialize_bare].
    eapply closed_bytes; [apply token_not_sp| |done]. cbn [all_bytes]. rewrite (token_start_more _ Hs). by destruct s.
  - cbn [serialize_bare]. apply closed_app, closed_app. by exists "", ":"%char.
  - destruct bo; by eexists "?", _.
Qed.

Lemma closed_key k : key_ok k = true → closed k.
Proof. intros [Hs Hk]%andb_true_iff. eapply closed_bytes; [apply key_not_sp|done|]. by destruct k. Qed.

Lemma closed_params ps : Forall (λ p, key_ok (pKey p) = true ∧ bare_ok (pValue p) = true) ps → serializeParams ps = "" ∨ closed (serializeParams ps).
Proof.
  induction 1 as [|p ps [Hk Hv] _ IH]; [by left|]. right. cbn [serializeParams]. apply closed_app. rewrite <- sapp_assoc. apply closed_app_or; [|done].
  apply closed_app_or; [by apply closed_key|]. case_bool_decide; [by left|]. right. apply closed_app. by apply closed_bare.
Qed.

Lemma closed_member m : member_ok m → closed (serialize_member m).
Proof.
  destruct m as [it|l ps]; cbn [serialize_member].
  - intros [Hv [_ Hp]]. apply closed_app_or; [by apply closed_bare|by apply closed_params].
  - intros [_ [_ Hp]]. apply closed_app, closed_app, closed_app_or; [by exists "", ")"%char|by apply closed_params].
Qed.

Lemma closed_entry e : key_ok e.1 = true → member_ok e.2 → closed (serialize_entry e).
Proof.
  intros Hk Hm. assert (closed (e.1 +:+ "=" +:+ serialize_member e.2)) by by apply closed_app, closed_app, closed_member.
  unfold serialize_entry. destruct e as [k [it|l ps]]; cbn [fst snd] in *; [|done]. case_bool_decide; [|done].
  destruct Hm as [_ [_ Hp]]. apply closed_app_or; [by apply closed_key|by apply closed_params].
Qed.

Lemma closed_Join l sep : Forall closed l → l ≠ [] → closed (Join l sep).
Proof.
  induction 1 as [|x l Hx Hl IH]; [done|]. intros _. destruct l; [done|]. rewrite Join_cons by done. apply closed_app, closed_app. by apply IH.
Qed.

Lemma Trim_closed s : starts is_sp s = false → closed s → Trim is_sp s = s.
Proof.
  intros Hs (a & c & -> & Hc). unfold Trim. assert (ltrim is_sp (explode (a +:+ String c "")) = explode (a +:+ String c "")) as ->.
  { destruct a as [|d a]; [change (ltrim is_sp [c] = [c]); cbn [ltrim]; by rewrite Hc|].
    change (ltrim is_sp (d :: explode (a +:+ String c "")) = d :: explode (a +:+ String c "")). rewrite sapp_cons in Hs. cbn [starts] in Hs. cbn [ltrim]. by rewrite Hs. }
  unfold rtrim. rewrite explode_app, reverse_app. change (reverse (explode (String c ""))) with [c]. cbn [app ltrim]. rewrite Hc.
  rewrite reverse_cons, reverse_involutive. change [c] with (explode (String c "")). by rewrite <- explode_app, implode_explode.
Qed.

Lemma serialize_dict_parse d : dict_ok d → d ≠ [] → (Z.of_nat (len (serialize_dict d)) ≤ maxStructuredFieldLen)%Z →
  parseSFDictionary (serialize_dict d) = Some d.
Proof.
  intros [Hnd Hok] Hne Hl. destruct d as [|e d]; [done|]. pose proof (Forall_inv Hok) as [Hk _].
  assert (∃ u, serialize_dict (e :: d) = serialize_entry e +:+ u) as [u Hu].
  { unfold serialize_dict. cbn [map]. destruct (map serialize_entry d); [exists ""; by rewrite sapp_nil_r|eexists; by apply Join_cons]. }
  destruct (entry_starts is_sp e u Hk key_not_sp) as [Hst Hnil]. rewrite <- Hu in Hst, Hnil.
  unfold parseSFDictionary. rewrite bool_decide_eq_false_2 by done. destruct (Z.ltb_spec maxStructuredFieldLen (Z.of_nat (len (serialize_dict (e :: d))))); [lia|].
  cbn [orb]. rewrite (all_bytes_impl sf_char field_byte), Trim_closed.
  - cbn [negb]. rewrite bool_decide_eq_false_2 by done. rewrite dict_members_serialize; [done..|].
    assert (∀ l : list string, (∀ x, x ∈ l → x ≠ "") → length l ≤ len (Join l ", ")) as Hlen.
    { induction l as [|x l IH]; intros Hx; [cbn; lia|]. pose proof (Hx x ltac:(left)) as Hxne. assert (0 < len x) by (destruct x; [done|rewrite len_cons; lia]).
      destruct l as [|y l]; [cbn; lia|]. rewrite Join_cons by done. rewrite !len_app. change (len ", ") with 2.
      assert (length (y :: l) ≤ len (Join (y :: l) ", ")) by (apply IH; intros z Hz; apply Hx; by right). cbn [length] in *. lia. }
    specialize (Hlen (map serialize_entry (e :: d))). rewrite length_map in Hlen. unfold serialize_dict.
    assert (length (e :: d) ≤ len (Join (map serialize_entry (e :: d)) ", ")); [|lia]. apply Hlen.
    intros x (y & -> & Hy)%list_elem_of_fmap. pose proof (proj1 (Forall_forall _ _) Hok y Hy) as [Hky _].
    destruct (entry_starts is_sp y "" Hky key_not_sp) as [_ Hyn]. by rewrite sapp_nil_r in Hyn.
  - done.
  - apply closed_Join; [|done]. apply Forall_map. eapply Forall_impl; [exact Hok|]. intros x [??]. by apply closed_entry.
  - intros c Hc. unfold sf_char in Hc. unfold field_byte. apply negb_true_iff, orb_false_iff in Hc as [H1 H2]. by rewrite H1, H2.
  - by apply sf_dict.
Qed.

(** ** What the parser returns is well-formed *)

Lemma scan_number_spec s : ∀ n dot t d r, scan_number n dot s = Some (t, d, r) →
  match dot with
  | Some _ => d = dot ∧ all_bytes is_digit t = true ∧ (t = "" ∨ n + len t ≤ 16)
  | None =>
      d = None ∧ all_bytes is_digit t = true ∧ (t = "" ∨ n + len t ≤ 15) ∨
      ∃ i f, t = i +:+ String "." f ∧ all_bytes is_digit i = true ∧ all_bytes is_digit f = true ∧ d = Some (n + len i) ∧ n + len i ≤ 12
  end.
Proof.
  induction s as [|c s IH]; intros n dot t d r H; cbn [scan_number] in H.
  - injection H as <- <- <-. destruct dot; [by split_and!; [..|left]|left; by split_and!; [..|left]].
  - destruct (is_digit c) eqn:Ec.
    + destruct dot as [k|].
      * destruct (Nat.ltb_spec 16 (S n)); [done|]. destruct (scan_number (S n) (Some k) s) as [[[t' d'] r']|] eqn:E; [|done].
        injection H as <- <- <-. apply IH in E as (-> & Ht & Hl). cbn [all_bytes]. rewrite Ec, Ht, len_cons. split_and!; [done..|].
        right. destruct Hl as [->|]; [change (len "") with 0|]; lia.
      * destruct (Nat.ltb_spec 15 (S n)); [done|]. destruct (scan_number (S n) None s) as [[[t' d'] r']|] eqn:E; [|done].
        injection H as <- <- <-. apply IH in E as [(-> & Ht & Hl)|(i & f & -> & Hi & Hf & -> & Hn)].
        -- left. cbn [all_bytes]. rewrite Ec, Ht, len_cons. split_and!; [done..|]. right. destruct Hl as [->|]; [change (len "") with 0|]; lia.
        -- right. exists (String c i), f. cbn [all_bytes]. rewrite Ec, Hi, len_cons. split_and!; [done..|f_equal; lia|lia].
    + destruct (beq c "." && bool_decide (dot = None)) eqn:Ed.
      * apply andb_true_iff in Ed as [Edc Ed]. apply beq_eq in Edc as ->. apply bool_decide_eq_true in Ed as ->.
        destruct (Nat.ltb_spec 12 n); [done|]. destruct (Nat.ltb_spec 16 (S n)); [done|].
        destruct (scan_number (S n) (Some n) s) as [[[t' d'] r']|] eqn:E; [|done]. injection H as <- <- <-. apply IH in E as (-> & Ht & _).
        right. exists "", t'. split_and!; try done; change (len "") with 0; [f_equal|]; lia.
      * injection H as <- <- <-. destruct dot; [by split_and!; [..|left]|left; by split_and!; [..|left]].
Qed.

Lemma ParseInt_bound s v k : all_bytes is_digit s = true → len s ≤ k → ParseInt s = Some v → (0 ≤ v < 10 ^ Z.of_nat k)%Z.
Proof.
  intros Hs Hl H. rewrite ParseInt_digits in H by done. destruct (decide (s = "")) as [->|Hne]; [done|].
  destruct (ParseUint_digits s Hs Hne) as (w & Hw & Hb & _). rewrite Hw in H. cbn [mbind option_bind] in H. case_bool_decide; [|done]. injection H as <-.
  assert (10 ^ Z.of_nat (len s) ≤ 10 ^ Z.of_nat k)%Z by (apply Z.pow_le_mono_r; lia). lia.
Qed.

Lemma number_ok s v r : number s = Some (v, r) → bare_ok v = true.
Proof.
  unfold number. destruct (match s with "" => _ | String c s' => _ end) as [neg s']. destruct (negb (starts is_digit s')); [done|].
  destruct (scan_number 0 None s') as [[[num dot] rest]|] eqn:E; [|done]. cbn [mbind option_bind].
  apply scan_number_spec in E as [(-> & Ht & Hl)|(i & f & -> & Hi & Hf & -> & Hn)].
  - destruct (ParseInt num) as [n|] eqn:Ep; [|done]. cbn [mbind option_bind]. intros [= <- <-]. cbn [bare_ok].
    apply (ParseInt_bound _ _ 15) in Ep; [|done|destruct Hl as [->|]; [change (len "") with 0|]; lia].
    change (10 ^ Z.of_nat 15)%Z with 1000000000000000%Z in Ep. unfold sfIntMax. destruct neg; lia.
  - cbn [Nat.add]. rewrite sdrop_S_app, stake_app_len by done. destruct (bool_decide (f = "") || (3 <? len f)) eqn:Ef; [done|].
    apply orb_false_iff in Ef as [_ Hfl]. apply Nat.ltb_ge in Hfl.
    destruct (ParseInt (i +:+ f +:+ Repeat "0" (3 - len f))) as [n|] eqn:Ep; [|done]. cbn [mbind option_bind]. intros [= <- <-]. cbn [bare_ok].
    assert (∀ k, len (Repeat "0" k) = k) as Hrep by (induction k; [done|]; cbn [Repeat]; by rewrite len_app, IHk).
    apply (ParseInt_bound _ _ 15) in Ep; [|by rewrite !all_bytes_app, Hi, Hf, all_zeros|rewrite !len_app, Hrep; cbn [Nat.add] in Hn; lia].
    change (10 ^ Z.of_nat 15)%Z with 1000000000000000%Z in Ep. unfold sfIntMax. destruct neg; lia.
Qed.

Lemma str_body_ok n : ∀ s t r, len s ≤ n → str_body s = Some (t, r) → all_bytes sf_char t = true.
Proof.
  induction n as [|n IH]; intros s t r Hn H; (destruct s as [|c s]; [done|]); rewrite len_cons in Hn; [lia|]. cbn [str_body] in H.
  destruct (beq c backslash).
  - destruct s as [|d s]; [done|]. rewrite len_cons in Hn. destruct (beq d quote || beq d backslash) eqn:Ed; [|done].
    destruct (str_body s) as [[t' r']|] eqn:E; [|done]. injection H as <- <-. apply IH in E; [|lia]. cbn [all_bytes]. rewrite E, andb_true_r.
    apply orb_true_iff in Ed as [Ed|Ed]; apply beq_eq in Ed as ->; reflexivity.
  - destruct (beq c quote); [by injection H as <- <-|]. destruct ((code c <? 32)%Z || (126 <? code c)%Z) eqn:Ec; [done|].
    destruct (str_body s) as [[t' r']|] eqn:E; [|done]. injection H as <- <-. apply IH in E; [|lia]. cbn [all_bytes]. unfold sf_char at 1. by rewrite Ec, E.
Qed.

Lemma bareItem_ok s v r : bareItem s = Some (v, r) → bare_ok v = true.
Proof.
  destruct s as [|c s]; [done|]. cbn [bareItem]. destruct (beq c "-" || is_digit c); [apply number_ok|].
  destruct (beq c quote).
  { destruct (str_body s) as [[t r']|] eqn:E; [|done]. cbn. intros [= <- <-]. by apply (str_body_ok (len s)) in E. }
  destruct (beq c ":").
  { unfold binary. destruct (IndexByte s ":"); [|done]. cbn [mbind option_bind]. case_match; [done|]. destruct (StdDecode _); [|done]. by intros [= <- <-]. }
  destruct (beq c "*" || isAlpha c) eqn:Ec.
  { cbn [token]. pose proof (span_spec token_more s) as Hs. destruct (span token_more s) as [t r']. destruct Hs as (_ & Ht & _). intros [= <- <-].
    cbn [bare_ok starts]. rewrite Ec. change (sdrop 1 (String c t)) with (sdrop 0 t). by rewrite sdrop_0, Ht. }
  destruct (beq c "?"); [|done]. destruct s as [|d s]; [done|]. cbn [boolean]. destruct (beq d "1"); [by intros [= <- <-]|].
  destruct (beq d "0"); [by intros [= <- <-]|done].
Qed.

Lemma key_spec s k r : key s = Some (k, r) → key_ok k = true.
Proof.
  unfold key, key_ok. destruct (starts key_start s) eqn:E; [|done]. pose proof (span_spec key_char s) as Hs. destruct (span key_char s) as [a b].
  destruct Hs as (-> & Ha & Hb). intros [= <- <-]. rewrite Ha, andb_true_r. destruct a as [|c a]; [|done]. rewrite sapp_nil_l in E. exfalso.
  assert (starts key_start b = false) as Hf; [|congruence]. eapply starts_impl, Hb. intros c. unfold key_start, key_char. cbn [existsb].
  rewrite !orb_true_iff. tauto.
Qed.

Definition param_ok (p : sfParam) : Prop := key_ok (pKey p) = true ∧ bare_ok (pValue p) = true.

Lemma parameters_ok fuel : ∀ out s ps r, params_ok out → parameters fuel out s = Some (ps, r) → params_ok ps.
Proof.
  induction fuel as [|fuel IH]; intros out s ps r Ho H; [done|]. cbn [parameters] in H. destruct (starts (beq ";") s); [|by injection H as <- <-].
  destruct (key _) as [[k s1]|] eqn:Ek; [|done]. cbn [mbind option_bind] in H. apply key_spec in Ek.
  destruct (existsb _ out) eqn:Ex; [done|].
  destruct (if starts (beq "=") s1 then bareItem (sdrop 1 s1) else Some (sfTrue, s1)) as [[v s2]|] eqn:Ev; [|done]. cbn [mbind option_bind] in H.
  assert (bare_ok v = true) as Hv by (destruct (starts (beq "=") s1); [by eapply bareItem_ok|by injection Ev as <- <-]).
  apply IH in H; [done|]. destruct Ho as [Hnd Hf]. split.
  - rewrite map_app. apply NoDup_app. split; [done|]. split; [|apply NoDup_singleton].
    intros x Hx Hin. apply list_elem_of_singleton in Hin. apply list_elem_of_fmap in Hx as (p & Hpk & Hp).
    apply not_true_iff_false in Ex. apply Ex, existsb_exists. exists p. split; [by apply list_elem_of_In|apply bool_decide_eq_true]. by rewrite <- Hpk, Hin.
  - apply Forall_app. split; [done|]. by apply Forall_singleton.
Qed.

Lemma params_ok_nil : params_ok [].
Proof. split; [apply NoDup_nil_2|apply Forall_nil_2]. Qed.

Lemma params_of_ok s ps r : params_of s = Some (ps, r) → params_ok ps.
Proof. apply parameters_ok, params_ok_nil. Qed.

Lemma item_read_ok s it r : item s = Some (it, r) → item_ok it.
Proof.
  unfold item. destruct (bareItem s) as [[v s1]|] eqn:Ev; [|done]. cbn [mbind option_bind].
  destruct (params_of s1) as [[ps s2]|] eqn:Ep; [|done]. cbn [mbind option_bind]. intros [= <- <-].
  split; [by eapply bareItem_ok|by eapply params_of_ok].
Qed.

Lemma inner_list_ok fuel : ∀ items s m r, Forall item_ok items → inner_list fuel items s = Some (m, r) → member_ok m.
Proof.
  induction fuel as [|fuel IH]; intros items s m r Hi H; [done|]. cbn [inner_list] in H. case_bool_decide; [done|].
  destruct (starts (beq ")") (sp s)).
  - destruct (params_of _) as [[ps s2]|] eqn:Ep; [|done]. injection H as <- <-. split; [done|by eapply params_of_ok].
  - destruct (item (sp s)) as [[it s2]|] eqn:Ei; [|done]. cbn [mbind option_bind] in H. case_match; [|done].
    apply IH in H; [done|]. apply Forall_app. split; [done|]. apply Forall_singleton. by eapply item_read_ok.
Qed.

Lemma member_read_ok s m r : itemOrInnerList s = Some (m, r) → member_ok m.
Proof.
  unfold itemOrInnerList. destruct (starts (beq "(") s); [by apply inner_list_ok|].
  destruct (item s) as [[it s2]|] eqn:Ei; [|done]. intros [= <- <-]. by eapply item_read_ok.
Qed.

Lemma dict_members_ok fuel : ∀ out s d, dict_ok out → dict_members fuel out s = Some d → dict_ok d ∧ d ≠ [].
Proof.
  induction fuel as [|fuel IH]; intros out s d Ho H; [done|]. cbn [dict_members] in H.
  destruct (key s) as [[k s1]|] eqn:Ek; [|done]. cbn [mbind option_bind] in H. apply key_spec in Ek.
  case_bool_decide as Hk; [done|]. set (reads := if starts (beq "=") s1 then _ else _) in H. destruct reads as [[m s2]|] eqn:Em; [|done].
  assert (member_ok m) as Hm.
  { subst reads. destruct (starts (beq "=") s1); [by eapply member_read_ok|]. destruct (params_of s1) as [[ps s3]|] eqn:Ep; [|done].
    injection Em as <- <-. split; [done|by eapply params_of_ok]. }
  clearbody reads. cbn [mbind option_bind] in H.
  assert (dict_ok (out ++ [(k, m)])) as Ho'.
  { destruct Ho as [Hnd Hf]. split; [|apply Forall_app; split; [done|by apply Forall_singleton]].
    unfold dict_keys. rewrite map_app. apply NoDup_app. split; [done|]. split; [|apply NoDup_singleton].
    intros x Hx Hin. by apply list_elem_of_singleton in Hin as ->. }
  case_bool_decide; [injection H as <-; split; [done|by destruct out]|]. case_match; [done|]. case_bool_decide; [done|]. by eapply IH.
Qed.

Lemma parse_ok s d : parseSFDictionary s = Some d → dict_ok d ∧ d ≠ [].
Proof.
  unfold parseSFDictionary. destruct (bool_decide (s = "") || _); [done|]. destruct (negb _); [done|].
  destruct (bool_decide (Trim is_sp s = "")); [done|]. apply dict_members_ok.
  split; [apply NoDup_nil_2|apply Forall_nil_2].
Qed.

(** C8: the parser and the serializer are inverse to each other on well-formed dictionaries:
    every dictionary the parser returns is well-formed, and one that is well-formed and within
    the length limit is read back from what the serializer writes. *)
Theorem structured_field_roundtrip d :
  (∀ s, parseSFDictionary s = Some d → dict_ok d ∧ d ≠ []) ∧
  (dict_ok d → d ≠ [] → (Z.of_nat (len (serialize_dict d)) ≤ maxStructuredFieldLen)%Z →
   parseSFDictionary (serialize_dict d) = Some d).
Proof. split; [intros s; apply parse_ok|apply serialize_dict_parse]. Qed.
