(* ===== verification/Wba.v ===== *)
(** * Wba: the Web Bot Auth profile

    [src/adcp/v3/signing/wba.go], [wba_sign.go] and the parts of [thumbprint.go] they use:
    selection of the profile, the verifier with its replay state, the errors it answers, and
    the signer.  The key directory, go-jose and the signature primitives are parameters. *)
From stdpp Require Import gmap strings.
From S2P Require Import Prelude GoStrings Bytes Unicode NetUrl Base64 SigTypes SigInput SigBase Replay StrictJson SafeFetch Verify Sign Psl Origin Sfv.
From stdpp Require Import options.

Definition ProfileTagWebBotAuth : string := "web-bot-auth".
Definition signatureAgentHeader : string := "Signature-Agent".
Definition acceptSignatureHeader : string := "Accept-Signature".
Definition wbaMaxWindowSeconds : Z := 300.
Definition wbaNonceBytes : nat := 64.
Definition wbaThumbprintLen : nat := 43.

(** Unpadded base64url, or padded standard base64, of exactly 64 bytes, canonically. *)
Definition validWBANonce (nonce : string) : bool :=
  existsb (λ enc, match enc.1 nonce with
                  | Some b => (len b =? wbaNonceBytes)%nat && bool_decide (enc.2 b = nonce)
                  | None => false
                  end) [(RawURLDecode, RawURLEncode); (StdDecode, StdEncode)].

(** ** Errors and what is answered *)

Record WBAError := MkWBAError {
  eStatus : Z;
  eReason : string;
  eLabel : string;
  eAuthorization : bool;
  eCode : string;
  eDiscoveryFailure : bool;
  eRevoked : bool;
  eReplayed : bool;
  noBody : bool;
}.

Definition wbaFail (status : Z) (label reason : string) : WBAError := MkWBAError status reason label false "" false false false false.
Definition wbaReplayed (label : string) : WBAError := MkWBAError 429 "replayed nonce" label false "" false false true false.
Definition CodePermissionDenied : string := "PERMISSION_DENIED".
Definition CodeServiceUnavailable : string := "SERVICE_UNAVAILABLE".
Definition wbaDeny (reason : string) : WBAError := MkWBAError 403 reason "" true CodePermissionDenied false false false false.
Definition discoveryFailure (reason : string) : WBAError := MkWBAError 403 reason "" false "" true false false false.
Definition NewAuthorizationError (code reason : string) : WBAError :=
  MkWBAError (if bool_decide (code = CodeServiceUnavailable) then 503 else 403)%Z reason "" true code false false false false.

Definition with_label (e : WBAError) (label : string) : WBAError :=
  MkWBAError (eStatus e) (eReason e) label (eAuthorization e) (eCode e) (eDiscoveryFailure e) (eRevoked e) (eReplayed e) (noBody e).
Definition withLabel (e : WBAError) (label : string) : WBAError := if bool_decide (eLabel e = "") then with_label e label else e.
Definition with_no_body (e : WBAError) (b : bool) : WBAError :=
  MkWBAError (eStatus e) (eReason e) (eLabel e) (eAuthorization e) (eCode e) (eDiscoveryFailure e) (eRevoked e) (eReplayed e) b.

Definition spendCommittingOperations : list string :=
  ["create_media_buy"; "update_media_buy"; "buy_products"; "accept_proposal"; "activate_signal"].
Definition IsSpendCommittingOperation (op : string) : bool :=
  bool_decide (op ∈ spendCommittingOperations) || HasPrefix op "acquire_".

Definition acceptLabel (e : WBAError) : string :=
  if bool_decide (eLabel e = "") || negb (isValidLabel (eLabel e)) then "sig1" else eLabel e.

Definition plain (name : string) : sfItem := MkItem (sfString name) [].
Definition agent_component (label : string) : sfItem := MkItem (sfString "signature-agent") [MkParam "key" (sfString label)].

(** The components of every signature, and of one over a body. *)
Definition wba_components (label : string) (body : bool) : list sfItem :=
  [plain componentMethod; plain componentTargetURI; plain componentAuthority] ++
  (if body then [plain componentContentType; plain componentContentDigst] else []) ++ [agent_component label].

Definition acceptSignatureValue (label : string) (body : bool) (nonce : string) : string :=
  serialize_dict [(label, MInner (wba_components label body)
    [MkParam "created" sfTrue; MkParam "expires" sfTrue;
     MkParam "nonce" (if bool_decide (nonce = "") then sfTrue else sfString nonce);
     MkParam "keyid" sfTrue; MkParam "alg" sfTrue; MkParam "tag" (sfString ProfileTagWebBotAuth)])].

Definition AcceptSignature (body : bool) : string := acceptSignatureValue "sig1" body "".

(** From the 64 bytes the random source delivers, if it does. *)
Definition newWBANonce (rand : option string) : string := match rand with Some b => RawURLEncode b | None => "" end.

Definition ResponseHeader (e : WBAError) (rand : option string) : Header :=
  if eAuthorization e || eRevoked e then [] else
  if (eStatus e =? 403)%Z then HeaderSet [] acceptSignatureHeader (acceptSignatureValue (acceptLabel e) (negb (noBody e)) "")
  else if (eStatus e =? 429)%Z && eReplayed e then
    HeaderSet [] acceptSignatureHeader (acceptSignatureValue (acceptLabel e) (negb (noBody e)) (newWBANonce rand))
  else if (eStatus e =? 429)%Z then HeaderSet [] "Retry-After" "60"
  else [].

(** ** Selection of the profile *)

Definition tagged (m : sfMember) : bool := bool_decide (stringParam (member_params m) "tag" = Some ProfileTagWebBotAuth).

Definition UsesWebBotAuth (h : Header) : bool :=
  if negb (bool_decide (HeaderValues h signatureAgentHeader = [])) then true else
  let raw := Join (HeaderValues h signatureInputHeader) ", " in
  if bool_decide (raw = "") then false else
  match parseSFDictionary raw with
  | None => bool_decide (is_Some (sindex ProfileTagWebBotAuth raw))
  | Some d => existsb (λ e, tagged e.2) d
  end.

(** ** Revocation of a verified key *)

Inductive RevocationState :=
  RevocationUnchecked | RevocationCurrent | RevocationRevoked | RevocationNoList | RevocationStale | RevocationUnavailable.

Definition RevocationState_String (s : RevocationState) : string :=
  match s with
  | RevocationUnchecked => "unchecked" | RevocationCurrent => "current" | RevocationRevoked => "revoked"
  | RevocationNoList => "no_list" | RevocationStale => "stale" | RevocationUnavailable => "unavailable"
  end.

(** The state recorded for the signer, and the refusal. *)
Definition CheckWBARevocation (check : string → string → RevocationState) (s : VerifiedSigner) : RevocationState * option WBAError :=
  let state := check (AgentURL s) (KeyID s) in
  (state, match state with
          | RevocationRevoked => Some (MkWBAError 403 "signing key revoked" (Label s) false "" false true false false)
          | _ => None
          end).

(** ** The request *)

(** [URL.RequestURI]. *)
Definition URL_RequestURI (u : URL) : string :=
  let result :=
    if bool_decide (URLOpaque u = "") then
      let p := escaped encodePath (URLPath u) (RawPath u) in if bool_decide (p = "") then "/" else p
    else if HasPrefix (URLOpaque u) "//" then URLScheme u +:+ ":" +:+ URLOpaque u else URLOpaque u in
  if ForceQuery u || negb (bool_decide (RawQuery u = "")) then result +:+ "?" +:+ RawQuery u else result.

Definition sameKeys (a b : list string) : bool := (length a =? length b)%nat && forallb (λ k, bool_decide (k ∈ a)) b.

Definition wbaFieldsWellFormed (inputs signatures : sfDict) : bool :=
  forallb (λ e, inner e.2) inputs &&
  forallb (λ e, match e.2 with MItem (MkItem (sfBinary _) []) => true | _ => false end) signatures.

Definition single_line_headers : list string :=
  [signatureHeader; signatureInputHeader; signatureAgentHeader; contentTypeHeader; contentDigestHeader].

Definition wbaHeaderPrecheck (h : Header) : result WBAError unit :=
  match List.find (λ name, (1 <? length (HeaderValues h name))%nat) single_line_headers with
  | Some name => Err (wbaFail 400 "" (name +:+ " arrived on more than one header line"))
  | None =>
      _ ← guard_err (negb (containsTopLevelComma (HeaderGet h contentTypeHeader))) (wbaFail 400 "" "Content-Type carries more than one value");
      guard_err (negb (bool_decide (HeaderGet h signatureInputHeader = "")) && negb (bool_decide (HeaderGet h signatureHeader = "")))
        (wbaFail 400 "" "Signature and Signature-Input are required")
  end.

(** Structured-field integers have at most fifteen digits, so their difference is an [int64]. *)
Definition wbaWindow (member : sfMember) (now : Z) (directory : bool) (label : string) : result WBAError unit :=
  _ ← opt_err (wbaFail 403 label "signature tag must be an sf-string") (stringParam (member_params member) "tag");
  match intParam (member_params member) "created", intParam (member_params member) "expires" with
  | Some created, Some expires =>
      _ ← guard_err (negb ((expires <=? created)%Z || (negb directory && (wbaMaxWindowSeconds <? expires - created)%Z)))
            (wbaFail 403 label "invalid signature lifetime");
      let skew := if directory then 0%Z else skewSeconds in
      _ ← guard_err (negb ((wrap64 (now + skew) <? created)%Z || (expires <? wrap64 (now - skew))%Z)) (wbaFail 403 label "signature outside its validity window");
      guard_err (match stringParam (member_params member) "keyid" with Some k => (len k =? wbaThumbprintLen)%nat | None => false end)
        (wbaFail 403 label "missing thumbprint keyid")
  | _, _ => Err (wbaFail 403 label "missing integer time parameter")
  end.

(** ** Keys *)

(** A key as go-jose represents it. *)
Inductive thumb_key := ThumbPub (p : PubKey) | ThumbRSA (n e : Z).

(** [JSONWebKey.Thumbprint], [JSONWebKey.MarshalJSON] read into a [JWK], and
    [ed25519.PrivateKey.Public]. *)
Class Jose := {
  JoseThumbprint : thumb_key → option string;
  JoseMarshal : PubKey → option JWK;
  Ed25519Public : string → string;
}.

Definition canonicalB64URL (s : string) : bool :=
  match RawURLDecode s with Some b => bool_decide (RawURLEncode b = s) | None => false end.

(** [big.Int.SetBytes] of a base64url member. *)
Definition b64_int (s : string) : option Z := big_endian 0 <$> b64UrlDecode s.

Section Wba.
Context `{RT : Runtime, CR : Crypto, SC : SignCrypto, JO : Jose}.

Definition JWKThumbprint (k : JWK) : option string :=
  key ← (if bool_decide (Kty k = "OKP") || bool_decide (Kty k = "EC") then
           if bool_decide (Crv k = "") || bool_decide (KeyX k = "") || (bool_decide (Kty k = "EC") && bool_decide (KeyY k = ""))
           then None else ThumbPub <$> joseKey k ""
         else if bool_decide (Kty k = "RSA") then
           if bool_decide (KeyN k = "") || bool_decide (KeyE k = "") then None else
           n ← b64_int (KeyN k); e ← b64_int (KeyE k);
           if (n <=? 0)%Z || (e <=? 0)%Z || (int64_max <? e)%Z then None else Some (ThumbRSA n e)
         else None);
  RawURLEncode <$> JoseThumbprint key.

Definition wbaKeyAlgorithm (k : JWK) : result WBAError string :=
  let fail := wbaFail 403 "" in
  _ ← guard_err (bool_decide (Kty k = "OKP") && bool_decide (Crv k = "Ed25519")) (fail "unsupported directory key");
  _ ← guard_err ((bool_decide (Use k = "") || bool_decide (Use k = "sig")) && bool_decide (PrivateD k = "") && bool_decide (TestOnlyPrivateD k = ""))
        (fail "directory key is not a public signing key");
  _ ← guard_err (forallb (λ m, bool_decide (m = "") || canonicalB64URL m) [KeyX k; KeyY k; KeyN k; KeyE k])
        (fail "directory key member is not canonical base64url");
  _ ← guard_err (bool_decide (Alg k = "") || bool_decide (Alg k = jwkAlgEdDSA)) (fail "directory key algorithm mismatch");
  _ ← guard_err (match KeyOps k with None => true | Some ops => bool_decide ("verify" ∈ ops) end) (fail "directory key cannot verify");
  Ok AlgEd25519.

Definition verifyWithJWK (alg : string) (k : JWK) (base sig : string) : bool :=
  match PublicKey k with Some pub => verifySignature alg pub base sig | None => false end.

Definition wbaVerifyCrypto (member signature : sfMember) (k : JWK) (base : string) : result WBAError string :=
  alg ← wbaKeyAlgorithm k;
  _ ← guard_err (match sfParamValue (member_params member) "alg" with
                 | None => true
                 | Some v => bool_decide (v = sfString alg)
                 end) (wbaFail 403 "" "signature algorithm does not match key");
  match signature with
  | MItem (MkItem (sfBinary sig) _) =>
      _ ← guard_err (verifyWithJWK alg k base sig) (wbaFail 403 "" "signature did not verify"); Ok alg
  | _ => Err (wbaFail 400 "" "signature must be sf-binary")
  end.

Definition wbaDigestMatches (header body : string) : bool :=
  match (d ← parseSFDictionary header; dict_get d "sha-256") with
  | Some (MItem (MkItem (sfBinary b) _)) => bool_decide (b = Sha256 body)
  | _ => false
  end.

(** ** The signature base *)

Definition authority_req (params : list sfParam) : bool :=
  match params with [p] => bool_decide (pKey p = "req") && bool_decide (pValue p = sfTrue) | _ => false end.

Definition derived_value (method rawURL : string) (u : URL) (directoryResponse : bool) (name : string) (params : list sfParam) :
    result WBAError string :=
  _ ← guard_err (bool_decide (params = []) || (directoryResponse && bool_decide (name = componentAuthority) && authority_req params))
        (wbaFail 403 "" "unsupported derived component parameters");
  if bool_decide (name = componentMethod) then Ok (ToUpper method)
  else if bool_decide (name = componentTargetURI) then Ok rawURL
  else if bool_decide (name = componentAuthority) then Ok (canonicalAuthority (URLHost u) (ToLower (URLScheme u)))
  else Err (wbaFail 403 "" "unsupported derived component").

Definition field_value (h : Header) (name : string) (params : list sfParam) : result WBAError string :=
  let lines := HeaderValues h name in
  _ ← guard_err (negb (bool_decide (lines = [])) && isLowercaseFieldName name) (wbaFail 403 "" "missing covered field");
  let raw := Join lines ", " in
  _ ← guard_err (all_bytes (λ c, negb (forging c)) raw) (wbaFail 400 "" "covered field carries a control character");
  match params with
  | [] => Ok (Trim is_ows raw)
  | [MkParam k (sfString key)] =>
      if negb (bool_decide (k = "key")) then Err (wbaFail 403 "" "unsupported field component parameters") else
      d ← opt_err (wbaFail 400 "" "covered dictionary field does not parse") (parseSFDictionary raw);
      m ← opt_err (wbaFail 403 "" "missing covered dictionary member") (dict_get d key);
      Ok (serialize_member m)
  | _ => Err (wbaFail 403 "" "unsupported field component parameters")
  end.

Definition component_value (method rawURL : string) (u : URL) (h : Header) (directoryResponse : bool) (c : sfItem) : result WBAError string :=
  match iValue c with
  | sfString name =>
      if HasPrefix name "@" then derived_value method rawURL u directoryResponse name (iParams c)
      else field_value h name (iParams c)
  | _ => Err (wbaFail 400 "" "component identifier must be an sf-string")
  end.

Fixpoint component_lines (value : sfItem → result WBAError string) (l : list sfItem) : result WBAError string :=
  match l with
  | [] => Ok ""
  | c :: l => v ← value c; rest ← component_lines value l; Ok (serialize_item c +:+ ": " +:+ v +:+ newline +:+ rest)
  end.

Definition wbaSignatureBase (method rawURL : string) (h : Header) (member : sfMember) (directoryResponse : bool) : result WBAError string :=
  u ← opt_err (wbaFail 403 "" "request URL does not parse") (ParseURL rawURL);
  lines ← component_lines (component_value method rawURL u h directoryResponse) (member_list member);
  Ok (lines +:+ quoted sigParamsComponent +:+ ": " +:+ serialize_member member).

(** ** The verifier *)

(** What a key resolver answers: an error that is a [WBAError], or another; a key, or none. *)
Inductive resolve_error := ResolveWBA (e : WBAError) | ResolveOther (why : string).
Definition WBAKeyResolver := string → string → result resolve_error (option JWK).

Record WBAVerifyOptions := MkWBAOptions {
  Keys : option WBAKeyResolver;
  wScheme : string;
  wMaxBodyBytes : Z;
  Authorities : list string;
}.

Definition wba_limit (o : WBAVerifyOptions) : Z := if (wMaxBodyBytes o <=? 0)%Z then defaultMaxBodyBytes else wMaxBodyBytes o.
Definition wba_scheme (o : WBAVerifyOptions) : string := if bool_decide (wScheme o = "") then "https" else wScheme o.

(** The loop over the Signature-Input members: the first tagged one, and how many are. *)
Fixpoint wba_select (found : option (string * sfMember)) (count : nat) (d : sfDict) :
    result WBAError (option (string * sfMember) * nat) :=
  match d with
  | [] => Ok (found, count)
  | e :: d =>
      if negb (inner e.2) then Err (wbaFail 400 "" "Signature-Input member is malformed")
      else if tagged e.2 then wba_select (if (count =? 0)%nat then Some e else found) (S count) d
      else wba_select found count d
  end.

Record WBAFields := MkFields { f_label : string; f_member : sfMember; f_signatures : sfDict; f_agents : sfDict }.

Definition wba_fields (h : Header) : result WBAError WBAFields :=
  _ ← wbaHeaderPrecheck h;
  inputs ← opt_err (wbaFail 400 "" "Signature-Input does not parse") (parseSFDictionary (HeaderGet h signatureInputHeader));
  '(found, count) ← wba_select None 0 inputs;
  match found with
  | None => Err (wbaFail 403 "" "no web-bot-auth signature")
  | Some (label, member) =>
      signatures ← opt_err (wbaFail 400 "" "Signature does not parse") (parseSFDictionary (HeaderGet h signatureHeader));
      agents ← (let raw := HeaderGet h signatureAgentHeader in
                if bool_decide (raw = "") then Ok []
                else opt_err (wbaFail 400 "" "Signature-Agent does not parse") (parseSFDictionary raw));
      _ ← guard_err (sameKeys (dict_keys inputs) (dict_keys signatures)) (wbaFail 400 "" "Signature and Signature-Input labels differ");
      _ ← guard_err (wbaFieldsWellFormed inputs signatures) (wbaFail 400 "" "Signature or Signature-Input member is malformed");
      _ ← guard_err (count <=? 1)%nat (wbaFail 403 label "more than one web-bot-auth signature");
      _ ← guard_err (length agents <=? 1)%nat (wbaFail 403 label "more than one Signature-Agent member");
      Ok (MkFields label member signatures agents)
  end.

(** [receivedTargetURI]; [raw] is the request-target as it arrived. *)
Definition receivedTargetURI (r : Request) (raw scheme : string) : option string :=
  if HasPrefix raw "/" then Some (scheme +:+ "://" +:+ Host r +:+ raw)
  else if negb (bool_decide (raw = "")) && negb (bool_decide (raw = "*")) then
    u ← ParseURL raw;
    if negb (IsAbs u) then None else
    if negb (EqualFold (URLScheme u) scheme) || negb (bool_decide (canonicalAuthority (URLHost u) scheme = canonicalAuthority (Host r) scheme))
    then None else Some raw
  else Some ((if IsAbs (ReqURL r) then URLScheme (ReqURL r) else scheme) +:+ "://" +:+ authorityOf r +:+ URL_RequestURI (ReqURL r)).

Definition sentTargetURI (r : Request) : string := URLScheme (ReqURL r) +:+ "://" +:+ authorityOf r +:+ URL_RequestURI (ReqURL r).

Definition authorityAllowed (authority scheme : string) (allowed : list string) : bool :=
  existsb (λ a, bool_decide (canonicalAuthority a scheme = authority)) allowed.

(** The target URI, when this verifier serves its authority. *)
Definition wba_target (o : WBAVerifyOptions) (r : Request) (raw label : string) : result WBAError string :=
  requestURL ← opt_err (wbaFail 403 label "absolute-form request-target does not match the connection's scheme and Host")
                 (receivedTargetURI r raw (wba_scheme o));
  _ ← guard_err (bool_decide (Authorities o = []) ||
                 match ParseURL requestURL with
                 | Some u => let scheme := ToLower (URLScheme u) in authorityAllowed (canonicalAuthority (URLHost u) scheme) scheme (Authorities o)
                 | None => false
                 end) (wbaFail 403 label "request authority is not served by this verifier");
  Ok requestURL.

Definition directory_typed (params : list sfParam) : bool :=
  match sfParamValue params "type" with
  | None => true
  | Some (sfToken s) | Some (sfString s) => bool_decide (s = "directory")
  | Some _ => false
  end.

(** The window, the nonce, the algorithm and the identity that the fields name. *)
Definition wba_identity (f : WBAFields) (now : Z) : result WBAError (string * string) :=
  let label := f_label f in
  let params := member_params (f_member f) in
  _ ← wbaWindow (f_member f) now false label;
  let bad := wbaFail 403 label "missing nonce, or not 64 bytes in canonical base64" in
  nonce ← opt_err bad (stringParam params "nonce");
  _ ← guard_err (validWBANonce nonce) bad;
  _ ← guard_err (bool_decide (stringParam params "alg" = Some AlgEd25519)) (wbaFail 403 label "alg must be ed25519");
  match dict_get (f_agents f) label with
  | Some (MItem (MkItem (sfString agent) ps)) =>
      _ ← guard_err (directory_typed ps) (wbaFail 403 label "unsupported Signature-Agent member type");
      origin ← opt_err (wbaFail 403 label "invalid signer origin") (signatureAgentOrigin agent);
      Ok (nonce, origin)
  | _ => Err (wbaFail 403 label "missing supported Signature-Agent member")
  end.

Definition required_components (label : string) (body : string) : list string :=
  map quoted [componentMethod; componentTargetURI; componentAuthority] ++
  [quoted "signature-agent" +:+ ";key=" +:+ serialize_bare (sfString label)] ++
  (if bool_decide (body = "") then [] else map quoted [componentContentType; componentContentDigst]).

(** The identifiers that are covered: no one twice, the required ones among them. *)
Definition wba_covered (label body : string) (member : sfMember) : result WBAError (list string) :=
  let names := map serialize_item (member_list member) in
  _ ← guard_err (bool_decide (NoDup names)) (wbaFail 403 label "repeated covered component");
  _ ← guard_err (forallb (λ id, bool_decide (id ∈ names)) (required_components label body)) (wbaFail 403 label "missing covered component");
  Ok names.

(** The key of the origin, which has the thumbprint it is asked for by. *)
Definition wba_key (keys : WBAKeyResolver) (origin keyID label : string) : result WBAError JWK :=
  match keys origin keyID with
  | Err (ResolveWBA e) => Err (withLabel e label)
  | Err (ResolveOther _) => Err (wbaFail 403 label "signer key resolution failed")
  | Ok None => Err (wbaFail 403 label "key absent from the named origin's directory")
  | Ok (Some k) =>
      _ ← guard_err (bool_decide (JWKThumbprint k = Some keyID)) (wbaFail 403 label "directory key thumbprint does not match keyid");
      Ok k
  end.

Definition labelled {A} (label : string) (m : result WBAError A) : result WBAError A :=
  match m with Ok a => Ok a | Err e => Err (withLabel e label) end.

(** What the checks before the replay store establish. *)
Record WBAChecked := MkWBAChecked {
  k_origin : string; k_keyID : string; k_nonce : string; k_expires : Z; k_alg : string; k_label : string; k_names : list string;
}.

Definition wba_check (o : WBAVerifyOptions) (keys : WBAKeyResolver) (now : Z) (raw : string) (r : Request) (f : WBAFields) (body : string) :
    result WBAError WBAChecked :=
  let label := f_label f in
  let params := member_params (f_member f) in
  requestURL ← wba_target o r raw label;
  '(nonce, origin) ← wba_identity f now;
  names ← wba_covered label body (f_member f);
  let keyID := default "" (stringParam params "keyid") in
  k ← wba_key keys origin keyID label;
  base ← labelled label (wbaSignatureBase (Method r) requestURL (ReqHeader r) (f_member f) false);
  alg ← labelled label (wbaVerifyCrypto (f_member f) (default (MItem (MkItem (sfInteger 0) [])) (dict_get (f_signatures f) label)) k base);
  _ ← guard_err (bool_decide (body = "") || wbaDigestMatches (HeaderGet (ReqHeader r) contentDigestHeader) body)
        (wbaFail 403 label "request digest mismatch");
  Ok (MkWBAChecked origin keyID nonce (default 0%Z (intParam params "expires")) alg label names).

(** Byte 31 is no byte of a header value. *)
Definition wbaReplayIdentity (origin : string) : string := "web-bot-auth" +:+ String (byte 31) origin.

Definition wba_ttl (expires now : Z) : Duration :=
  Z.max (wrap64 (wrap64 (expires - now + skewSeconds + 1) * Second)) Second.

Definition over_capacity (label : string) : WBAError := wbaFail 429 label "replay store capacity exceeded".

Definition wba_signer (now : Z) (c : WBAChecked) : VerifiedSigner :=
  MkSigner (k_keyID c) (k_origin c) now (k_alg c) (k_label c) (k_names c) ProfileTagWebBotAuth.

End Wba.

(** ** Replay *)

(** The store's [Claim], when it is a [ReplayClaimer]. *)
Class ReplayClaimer (S : Type) := try_claim : option (S → Time → string → string → Duration → ReplayClaim * S).

(** What the verifier relies on: a claimed pair is live for its lifetime, and a claim forgets
    nothing alive. *)
Class ReplayClaimerSpec (S : Type) `{ReplayStoreSpec S, ReplayClaimer S} : Prop := {
  claim_records claim s now k n ttl :
    try_claim = Some claim → (claim s now k n ttl).1 = ReplayClaimed → live_until (claim s now k n ttl).2 k n = Some (Add now ttl);
  claim_keeps claim s now k n ttl k' n' x :
    try_claim = Some claim → live_until s k' n' = Some x → (now ≤ x)%Z → live_until (claim s now k n ttl).2 k' n' = Some x;
}.

#[export] Instance memory_claimer : ReplayClaimer MemoryReplayStore := Some Claim.

#[export] Instance memory_claimer_spec : ReplayClaimerSpec MemoryReplayStore.
Proof.
  split.
  - intros claim m now k n ttl [= <-]. unfold Claim. destruct (entries (sweepLocked now m) !! (k, n)); [done|].
    destruct (memory_HitCap _ k); [done|]. intros _. cbn. apply lookup_insert_eq.
  - intros claim m now k n ttl k' n' x [= <-] Hl Hx. by apply (run_rop_alive m (RClaim now k n ttl)).
Qed.

Section Verifier.
Context `{RT : Runtime, CR : Crypto, JO : Jose}.
Context {St : Type} `{RS : ReplayStore St, RC : ReplayClaimer St}.

(** The store reads its clock at [seenAt], and again at [claimAt]. *)
Definition wba_record (st : St) (seenAt claimAt : Time) (now : Z) (c : WBAChecked) : result WBAError unit * St :=
  let id := wbaReplayIdentity (k_origin c) in
  let ttl := wba_ttl (k_expires c) now in
  let label := k_label c in
  let '(seen, st) := Seen st seenAt id (k_nonce c) in
  if seen then (Err (wbaReplayed label), st) else
  if HitCap st id then (Err (over_capacity label), st) else
  match try_claim with
  | Some claim =>
      let '(answer, st) := claim st claimAt id (k_nonce c) ttl in
      (match answer with
       | ReplayReplayed => Err (wbaReplayed label)
       | ReplayCapacity => Err (over_capacity label)
       | ReplayClaimed => Ok ()
       end, st)
  | None =>
      let '(ok, st) := Insert st claimAt id (k_nonce c) ttl in
      (if ok : bool then Ok () else Err (over_capacity label), st)
  end.

(** A body that is not blank is strict JSON. *)
Definition wba_json (body : string) : result WBAError unit :=
  guard_err (bool_decide (TrimSpace body = "") || is_ok (Validate body 0)) (wbaFail 400 "" "malformed signed JSON body").

(** Beside the answer, the body the request is left with and the store.  [left] is the body
    as a failed read leaves it. *)
Definition verify_configured (o : WBAVerifyOptions) (keys : WBAKeyResolver) (st : St) (now : Z) (seenAt claimAt : Time)
    (raw : string) (r : Request) (left : body) : result WBAError VerifiedSigner * body * St :=
  match wba_fields (ReqHeader r) with
  | Err e => (Err e, Body r, st)
  | Ok f =>
      match readAndReplaceBody (Body r) (wba_limit o) with
      | Err _ => (Err (wbaFail 403 (f_label f) "request body unreadable or too large"), left, st)
      | Ok (body, kept) =>
          match wba_check o keys now raw r f body with
          | Err e => (Err e, kept, st)
          | Ok c =>
              let '(claimed, st) := wba_record st seenAt claimAt now c in
              (_ ← claimed; _ ← wba_json body; Ok (wba_signer now c), kept, st)
          end
      end
  end.

Definition requestHasBody (b : body) (limit : Z) : bool :=
  match b with
  | BodyNil | BodyNone => false
  | BodyData _ _ =>
      match readAndReplaceBody b (if (limit <=? 0)%Z then defaultMaxBodyBytes else limit) with
      | Ok (content, _) => negb (bool_decide (content = ""))
      | Err _ => true
      end
  end.

Inductive WBAFailure := WBANotConfigured | WBAFailed (e : WBAError).

(** [VerifyWebBotAuthRequest] with the verifier it wraps, and the store as it is left. *)
Definition VerifyWebBotAuthRequest (o : WBAVerifyOptions) (store : option St) (now seenAt claimAt : Time) (raw : string)
    (r : Request) (left : body) : result WBAFailure VerifiedSigner * option St :=
  match Keys o, store with
  | Some keys, Some st =>
      let '(res, kept, st') := verify_configured o keys st (Unix now) seenAt claimAt raw r left in
      (match res with
       | Ok signer => Ok signer
       | Err e => Err (WBAFailed (if eAuthorization e then e else with_no_body e (negb (requestHasBody kept (wMaxBodyBytes o)))))
       end, Some st')
  | _, _ => (Err WBANotConfigured, store)
  end.

End Verifier.

(** ** The signer *)

Record WBASignOptions := MkWBASign {
  AgentOrigin : string;
  wLabel : string;
  wValidityWindow : Duration;
  wCreatedOverride : Z;
  wNonceOverride : string;
}.

Section Signer.
Context `{RT : Runtime, CR : Crypto, SC : SignCrypto, JO : Jose}.

Definition jwkFromPublicKey (p : PubKey) : option JWK := JoseMarshal p.

Definition with_kid (k : JWK) (kid use : string) : JWK :=
  MkJWK kid (Kty k) (Crv k) (Alg k) use (KeyOps k) (JwkAdcpUse k) (KeyX k) (KeyY k) (KeyN k) (KeyE k) (PrivateD k) (TestOnlyPrivateD k).

Definition PublicDirectoryKey (priv : PrivKey) : result error JWK :=
  match priv with
  | EdPriv k =>
      let pub := Ed25519Public k in
      if negb (len pub =? 32)%nat then Err (signing_error "invalid Ed25519 key") else
      jwk ← opt_err (signing_error "cannot encode the public key") (jwkFromPublicKey (EdKey pub));
      kid ← opt_err (signing_error "unsupported JWK") (JWKThumbprint jwk);
      Ok (with_kid jwk kid "sig")
  | _ => Err (signing_error "Web Bot Auth keys are Ed25519")
  end.

Definition signWithKey (priv : PrivKey) (base : string) : result error string :=
  match priv with EdPriv k => Ok (Ed25519Sign k base) | _ => Err (signing_error "unsupported private key type") end.

Definition effective_label (o : WBASignOptions) : string := if bool_decide (wLabel o = "") then "sig1" else wLabel o.
Definition effective_window (o : WBASignOptions) : Duration :=
  if (wValidityWindow o =? 0)%Z then (wbaMaxWindowSeconds * Second)%Z else wValidityWindow o.

(** The checks before the body is read: the key to publish, and its algorithm. *)
Definition wba_sign_key (priv : PrivKey) (o : WBASignOptions) (r : Request) : result error (JWK * string) :=
  _ ← guard_err (forallb (λ name, bool_decide (HeaderValues (ReqHeader r) name = [])) [signatureHeader; signatureInputHeader; signatureAgentHeader])
        (signing_error "request is already signed; a Web Bot Auth request carries exactly one signature");
  _ ← guard_err (isValidLabel (effective_label o)) (signing_error "invalid signature label");
  _ ← guard_err ((0 <? effective_window o)%Z && (effective_window o <=? wbaMaxWindowSeconds * Second)%Z)
        (signing_error "Web Bot Auth validity window must be in (0, 300s]");
  _ ← guard_err (IsAbs (ReqURL r)) (signing_error "request URL must be absolute");
  k ← PublicDirectoryKey priv;
  match wbaKeyAlgorithm k with
  | Ok alg => Ok (k, alg)
  | Err _ => Err (signing_error "unsupported Web Bot Auth key")
  end.

(** The member that is signed. *)
Definition wba_member (o : WBASignOptions) (created : Z) (nonce kid alg : string) (body : bool) : sfMember :=
  MInner (wba_components (effective_label o) body)
    [MkParam "created" (sfInteger created);
     MkParam "expires" (sfInteger (wrap64 (created + Z.quot (effective_window o) Second)));
     MkParam "nonce" (sfString nonce);
     MkParam "keyid" (sfString kid);
     MkParam "alg" (sfString alg);
     MkParam "tag" (sfString ProfileTagWebBotAuth)].

(** The headers a signature covers, beside those of the request. *)
Definition wba_staged (o : WBASignOptions) (origin content : string) (h : Header) : Header :=
  let h := HeaderSet h signatureAgentHeader (serialize_dict [(effective_label o, MItem (plain origin))]) in
  if bool_decide (content = "") then h
  else HeaderSet h contentDigestHeader (computeSHA256DigestHeaderForEncoding content BinaryEncodingRFC8941).

(** The member and the signature; [rand] is what the nonce reader delivers. *)
Definition wba_sign_content (priv : PrivKey) (o : WBASignOptions) (k : JWK) (alg : string) (now : Time) (rand : option string) (r : Request)
    (origin content : string) : result error (sfMember * string) :=
  let created := if (wCreatedOverride o =? 0)%Z then Unix now else wCreatedOverride o in
  nonce ← (if bool_decide (wNonceOverride o = "")
           then RawURLEncode <$> opt_err (signing_error "generate nonce") rand else Ok (wNonceOverride o));
  _ ← guard_err (validWBANonce nonce) (signing_error "a Web Bot Auth nonce is 64 bytes, as unpadded base64url or padded standard base64");
  let staged := wba_staged o origin content (ReqHeader r) in
  let body := negb (bool_decide (content = "")) in
  _ ← guard_err (negb body || negb (bool_decide (HeaderGet staged contentTypeHeader = "")))
        (signing_error "a Web Bot Auth request with a body requires Content-Type");
  let member := wba_member o created nonce (Kid k) alg body in
  match wbaSignatureBase (Method r) (sentTargetURI r) staged member false with
  | Err _ => Err (signing_error "build Web Bot Auth signature base")
  | Ok base => sig ← signWithKey priv base; Ok (member, sig)
  end.

Definition wba_signed_headers (o : WBASignOptions) (origin content : string) (member : sfMember) (sig : string) (h : Header) : Header :=
  let label := effective_label o in
  HeaderSet (HeaderSet (wba_staged o origin content h)
    signatureInputHeader (serialize_dict [(label, member)]))
    signatureHeader (serialize_dict [(label, MItem (MkItem (sfBinary sig) []))]).

(** The request with its body buffered. *)
Definition buffered (r : Request) (content : option string) : Request :=
  match content with
  | Some d => MkRequest (Method r) (ReqURL r) (Host r) (ReqHeader r) (zlen d) (BodyData d None)
  | None => r
  end.

(** The body as the signer reads it: nil and [http.NoBody] are left alone. *)
Definition wba_body (b : body) : result error (option string) :=
  match b with
  | BodyNil | BodyNone => Ok None
  | _ => read_all b
  end.

Definition signWebBotAuthRequest (priv : PrivKey) (o : WBASignOptions) (now : Time) (rand : option string) (r : Request) (origin : string) :
    result error unit * Request :=
  match wba_sign_key priv o r with
  | Err e => (Err e, r)
  | Ok (k, alg) =>
      match wba_body (Body r) with
      | Err e =>
          (Err e, MkRequest (Method r) (ReqURL r) (Host r) (ReqHeader r) (ContentLength r)
                    (match Body r with BodyData _ f => BodyData "" f | b => b end))
      | Ok content =>
          let r := buffered r content in
          match wba_sign_content priv o k alg now rand r origin (default "" content) with
          | Err e => (Err e, r)
          | Ok (member, sig) =>
              (Ok (), MkRequest (Method r) (ReqURL r) (Host r) (wba_signed_headers o origin (default "" content) member sig (ReqHeader r))
                        (ContentLength r) (Body r))
          end
      end
  end.

Definition SignWebBotAuthRequest (priv : PrivKey) (o : WBASignOptions) (now : Time) (rand : option string) (r : Request) :
    result error unit * Request :=
  match webBotAuthOrigin (AgentOrigin o) with
  | None => (Err (signing_error "agent origin"), r)
  | Some origin => signWebBotAuthRequest priv o now rand r origin
  end.

End Signer.
