(* ===== verification/WbaThm.v ===== *)
(** * WbaThm: what a verified Web Bot Auth request is

    The theorems on [Wba]: the meaning of an accepted request, that one signature is accepted
    once while its nonce is remembered, that the signature base tells requests apart, what the
    refusals carry, and that what the signer signs is accepted. *)
From stdpp Require Import gmap strings.
From S2P Require Import Prelude GoStrings Bytes Unicode NetUrl Base64 SigTypes SigInput SigBase Replay StrictJson SafeFetch Verify Sign Psl Origin Sfv Wba SigProps.
From stdpp Require Import options.

(** ** The checks, one by one *)

Lemma HeaderGet_nil h n : HeaderGet h n ≠ "" → HeaderValues h n ≠ [].
Proof. unfold HeaderGet. by destruct (HeaderValues h n). Qed.

Lemma validWBANonce_spec nonce :
  validWBANonce nonce = true ↔ ∃ b, len b = wbaNonceBytes ∧ (nonce = RawURLEncode b ∨ nonce = StdEncode b).
Proof.
  unfold validWBANonce. cbn [existsb fst snd]. rewrite orb_false_r, orb_true_iff. split.
  - intros [H|H]; (case_match; [|done]); apply andb_true_iff in H as [Hl%Nat.eqb_eq He%bool_decide_eq_true]; eexists; (split; [exact Hl|]); [left|right]; done.
  - intros (b & Hl & [->| ->]); [left|right]; unfold RawURLDecode, RawURLEncode, StdDecode, StdEncode; rewrite DecodeString_Encode, Hl; cbn [andb Nat.eqb];
      rewrite Nat.eqb_refl; by rewrite bool_decide_true.
Qed.

Lemma wba_select_spec d : ∀ found count found' count',
  wba_select found count d = Ok (found', count') →
  Forall (λ e, inner e.2 = true) d ∧ count' = count + length (List.filter (λ e, tagged e.2) d) ∧
  found' = (if (count =? 0)%nat then match List.filter (λ e, tagged e.2) d with e :: _ => Some e | [] => found end else found).
Proof.
  induction d as [|e d IH]; intros found count found' count' H; cbn [wba_select] in H.
  - injection H as <- <-. cbn. split_and!; [done|lia|by case_match].
  - destruct (inner e.2) eqn:Ei; [|done]. cbn [negb List.filter] in *. destruct (tagged e.2) eqn:Et;
      apply IH in H as (Hf & -> & ->); (split_and!; [by constructor|cbn [length]; lia|]); by destruct count.
Qed.

Lemma wba_fields_Ok h f :
  wba_fields h = Ok f →
  HeaderValues h signatureInputHeader ≠ [] ∧
  (∃ inputs, parseSFDictionary (HeaderGet h signatureInputHeader) = Some inputs ∧ Forall (λ e, inner e.2 = true) inputs ∧
    List.filter (λ e, tagged e.2) inputs = [(f_label f, f_member f)] ∧
    sameKeys (dict_keys inputs) (dict_keys (f_signatures f)) = true ∧ wbaFieldsWellFormed inputs (f_signatures f) = true) ∧
  parseSFDictionary (HeaderGet h signatureHeader) = Some (f_signatures f) ∧
  (HeaderGet h signatureAgentHeader = "" ∧ f_agents f = [] ∨ parseSFDictionary (HeaderGet h signatureAgentHeader) = Some (f_agents f)) ∧
  length (f_agents f) ≤ 1 ∧ wbaHeaderPrecheck h = Ok ().
Proof.
  unfold wba_fields. intros H. apply bind_Ok in H as ([] & Hpre & H). apply bind_Ok in H as (inputs & Hin%opt_err_Ok & H).
  apply bind_Ok in H as ([found count] & Hsel & H). apply wba_select_spec in Hsel as (Hinner & -> & ->). cbn [Nat.eqb Nat.add] in H.
  destruct (List.filter (λ e, tagged e.2) inputs) as [|[label member] rest] eqn:Ef; [done|].
  apply bind_Ok in H as (sigs & Hs%opt_err_Ok & H). apply bind_Ok in H as (agents & Ha & H).
  apply bind_Ok in H as (u1 & Hk%guard_err_Ok & H). apply bind_Ok in H as (u2 & Hw%guard_err_Ok & H).
  apply bind_Ok in H as (u3 & Hc%guard_err_Ok & H). apply bind_Ok in H as (u4 & Hn%guard_err_Ok & H). injection H as <-.
  apply Nat.leb_le in Hc, Hn. split_and!; cbn [f_label f_member f_signatures f_agents]; try done.
  - unfold wbaHeaderPrecheck in Hpre. destruct (List.find _ _); [discriminate|]. apply bind_Ok in Hpre as (u & _ & Hg%guard_err_Ok).
    apply andb_true_iff in Hg as [Hg _]. apply negb_true_iff, bool_decide_eq_false in Hg. by apply HeaderGet_nil.
  - exists inputs. split_and!; try done. destruct rest; [done|]. cbn in Hc. lia.
  - case_bool_decide; [left|right]; [by injection Ha as <-|by apply opt_err_Ok in Ha].
Qed.

Lemma wbaWindow_Ok member now label :
  in_int64 (now - skewSeconds) → in_int64 (now + skewSeconds) →
  wbaWindow member now false label = Ok () → ∃ created expires keyID,
  intParam (member_params member) "created" = Some created ∧ intParam (member_params member) "expires" = Some expires ∧
  stringParam (member_params member) "keyid" = Some keyID ∧ len keyID = wbaThumbprintLen ∧
  (created < expires ∧ expires - created ≤ wbaMaxWindowSeconds ∧ created ≤ now + skewSeconds ∧ now - skewSeconds ≤ expires)%Z.
Proof.
  intros Hlo Hhi H. unfold wbaWindow in H. apply bind_Ok in H as (t & _ & H).
  destruct (intParam _ "created") as [created|]; [|done]. destruct (intParam _ "expires") as [expires|]; [|done].
  apply bind_Ok in H as (u1 & H1%guard_err_Ok & H). apply bind_Ok in H as (u2 & H2%guard_err_Ok & H3%guard_err_Ok).
  rewrite !wrap64_id in H2 by done. apply negb_true_iff, orb_false_iff in H1 as [H11 H12], H2 as [H21 H22]. cbn [negb andb] in H12.
  destruct (stringParam _ "keyid") as [k|]; [|done]. apply Nat.eqb_eq in H3. exists created, expires, k. split_and!; try done; lia.
Qed.

Section Checks.
Context `{RT : Runtime, CR : Crypto, JO : Jose}.

Lemma wba_target_Ok o r raw label url :
  wba_target o r raw label = Ok url →
  receivedTargetURI r raw (wba_scheme o) = Some url ∧
  (Authorities o ≠ [] → ∃ u, ParseURL url = Some u ∧
    authorityAllowed (canonicalAuthority (URLHost u) (ToLower (URLScheme u))) (ToLower (URLScheme u)) (Authorities o) = true).
Proof.
  unfold wba_target. intros H. apply bind_Ok in H as (v & Hv%opt_err_Ok & H). apply bind_Ok in H as (u & Hu%guard_err_Ok & H).
  injection H as <-. split; [done|]. intros Hne. rewrite bool_decide_false in Hu by done. cbn [orb] in Hu.
  destruct (ParseURL v) as [w|]; [|done]. by exists w.
Qed.

Lemma signatureAgentOrigin_id v o : signatureAgentOrigin v = Some o → v = o.
Proof.
  unfold signatureAgentOrigin. destruct (webBotAuthOrigin v); [|done]. cbn [mbind option_bind]. case_bool_decide; [|done]. congruence.
Qed.

Lemma wba_identity_Ok f now nonce origin :
  wba_identity f now = Ok (nonce, origin) →
  wbaWindow (f_member f) now false (f_label f) = Ok () ∧
  stringParam (member_params (f_member f)) "nonce" = Some nonce ∧ validWBANonce nonce = true ∧
  stringParam (member_params (f_member f)) "alg" = Some AlgEd25519 ∧
  (∃ ps, dict_get (f_agents f) (f_label f) = Some (MItem (MkItem (sfString origin) ps)) ∧ directory_typed ps = true) ∧
  signatureAgentOrigin origin = Some origin.
Proof.
  unfold wba_identity. cbv zeta. intros H. apply bind_Ok in H as ([] & Hw & H). apply bind_Ok in H as (n & Hn%opt_err_Ok & H).
  apply bind_Ok in H as (u1 & Hv%guard_err_Ok & H). apply bind_Ok in H as (u2 & Ha%guard_err_Ok & H). apply bool_decide_eq_true in Ha.
  destruct (dict_get _ _) as [[[[| |agent| | |] ps]|]|] eqn:Eg; try done.
  apply bind_Ok in H as (u3 & Ht%guard_err_Ok & H). apply bind_Ok in H as (w & Hw'%opt_err_Ok & H). injection H as <- <-.
  pose proof (signatureAgentOrigin_id _ _ Hw') as <-. split_and!; try done. by exists ps.
Qed.

Lemma wba_covered_Ok label body member names :
  wba_covered label body member = Ok names →
  names = map serialize_item (member_list member) ∧ NoDup names ∧ (∀ id, id ∈ required_components label body → id ∈ names).
Proof.
  unfold wba_covered. cbv zeta. intros H. apply bind_Ok in H as (u1 & Hn%guard_err_Ok & H). apply bind_Ok in H as (u2 & Hr%guard_err_Ok & H).
  injection H as <-. apply bool_decide_eq_true in Hn. split_and!; [done|done|]. intros id Hid.
  rewrite forallb_forall in Hr. by apply list_elem_of_In, Hr, bool_decide_eq_true in Hid.
Qed.

Lemma wba_key_Ok keys origin keyID label k :
  wba_key keys origin keyID label = Ok k → keys origin keyID = Ok (Some k) ∧ JWKThumbprint k = Some keyID.
Proof.
  unfold wba_key. destruct (keys origin keyID) as [[k'|]|[]]; try done. intros H. apply bind_Ok in H as (u & Ht%guard_err_Ok & H).
  injection H as ->. by apply bool_decide_eq_true in Ht.
Qed.

Lemma labelled_Ok {A} label (m : result WBAError A) a : labelled label m = Ok a → m = Ok a.
Proof. by destruct m; cbn; intros [= ->]. Qed.

(** A key that may sign: an Ed25519 key published for signatures, without a private part. *)
Record signing_key (k : JWK) : Prop := {
  sk_ed25519 : Kty k = "OKP" ∧ Crv k = "Ed25519";
  sk_public : PrivateD k = "" ∧ TestOnlyPrivateD k = "" ∧ (Use k = "" ∨ Use k = "sig");
  sk_ops : ∀ ops, KeyOps k = Some ops → "verify" ∈ ops;
  sk_canonical : ∀ m, m ∈ [KeyX k; KeyY k; KeyN k; KeyE k] → m ≠ "" → ∃ b, m = RawURLEncode b;
}.

Lemma wbaKeyAlgorithm_Ok k alg : wbaKeyAlgorithm k = Ok alg → signing_key k ∧ alg = AlgEd25519.
Proof.
  unfold wbaKeyAlgorithm. cbv zeta. intros H. apply bind_Ok in H as (u1 & H1%guard_err_Ok & H). apply bind_Ok in H as (u2 & H2%guard_err_Ok & H).
  apply bind_Ok in H as (u3 & H3%guard_err_Ok & H). apply bind_Ok in H as (u4 & H4%guard_err_Ok & H). apply bind_Ok in H as (u5 & H5%guard_err_Ok & H).
  injection H as <-. split; [|done]. apply andb_true_iff in H1 as [H11 H12], H2 as [H2 H23]. apply andb_true_iff in H2 as [H21 H22].
  apply bool_decide_eq_true in H11, H12, H22, H23. constructor; [done| | |].
  - split_and!; [done..|]. apply orb_true_iff in H21 as [E|E]; apply bool_decide_eq_true in E; [by left|by right].
  - intros ops E. rewrite E in H5. by apply bool_decide_eq_true in H5.
  - intros m Hm Hne. rewrite forallb_forall in H3. apply list_elem_of_In, H3, orb_true_iff in Hm as [E|E]; [by apply bool_decide_eq_true in E|].
    unfold canonicalB64URL in E. destruct (RawURLDecode m) as [b|]; [|done]. apply bool_decide_eq_true in E. by exists b.
Qed.

Lemma wbaVerifyCrypto_Ok member signature k base alg :
  wbaVerifyCrypto member signature k base = Ok alg →
  signing_key k ∧ alg = AlgEd25519 ∧ ∃ pub sig ps, PublicKey k = Some (EdKey pub) ∧ signature = MItem (MkItem (sfBinary sig) ps) ∧
    len sig = 64 ∧ Ed25519Verify pub base sig = true.
Proof.
  unfold wbaVerifyCrypto. intros H. apply bind_Ok in H as (a & Ha%wbaKeyAlgorithm_Ok & H). destruct Ha as [Hk ->].
  apply bind_Ok in H as (u & _ & H). destruct signature as [[[| | | |sig|] ps]|]; try done. apply bind_Ok in H as (u' & Hv%guard_err_Ok & H).
  injection H as <-. split_and!; [done..|]. unfold verifyWithJWK in Hv. destruct (PublicKey k) as [pub|]; [|done].
  unfold verifySignature in Hv. rewrite bool_decide_true in Hv by done. destruct pub as [pub| | |]; try done.
  apply andb_true_iff in Hv as [Hl%Nat.eqb_eq Hv]. by exists pub, sig, ps.
Qed.

Lemma wbaDigestMatches_Ok header body :
  wbaDigestMatches header body = true → ∃ d ps, parseSFDictionary header = Some d ∧ dict_get d "sha-256" = Some (MItem (MkItem (sfBinary (Sha256 body)) ps)).
Proof.
  unfold wbaDigestMatches. destruct (parseSFDictionary header) as [d|]; [|done]. cbn [mbind option_bind].
  destruct (dict_get d "sha-256") as [[[[| | | |b|] ps]|]|] eqn:E; try done. intros ->%bool_decide_eq_true. by exists d, ps.
Qed.

End Checks.

(** ** What an accepted request is *)

Section Accepted.
Context `{RT : Runtime, CR : Crypto, JO : Jose}.

(** The request [r] carries the signature fields [f] and the content [body]; its target is
    [url], its key [k], and its nonce and lifetime are those given. *)
Record wba_authentic (o : WBAVerifyOptions) (keys : WBAKeyResolver) (now : Z) (raw : string) (r : Request) (signer : VerifiedSigner)
    (f : WBAFields) (body url : string) (k : JWK) (nonce : string) (created expires : Z) : Prop := {
  wa_one_signature : ∃ inputs, parseSFDictionary (HeaderGet (ReqHeader r) signatureInputHeader) = Some inputs ∧
    List.filter (λ e, tagged e.2) inputs = [(f_label f, f_member f)];
  wa_one_agent : ∃ ps, parseSFDictionary (HeaderGet (ReqHeader r) signatureAgentHeader) =
      Some [(f_label f, MItem (MkItem (sfString (AgentURL signer)) ps))] ∧ directory_typed ps = true ∧
    signatureAgentOrigin (AgentURL signer) = Some (AgentURL signer);
  wa_body : ∃ kept, readAndReplaceBody (Body r) (wba_limit o) = Ok (body, kept);
  wa_target : receivedTargetURI r raw (wba_scheme o) = Some url ∧
    (Authorities o ≠ [] → ∃ u, ParseURL url = Some u ∧
      authorityAllowed (canonicalAuthority (URLHost u) (ToLower (URLScheme u))) (ToLower (URLScheme u)) (Authorities o) = true);
  wa_window : intParam (member_params (f_member f)) "created" = Some created ∧ intParam (member_params (f_member f)) "expires" = Some expires ∧
    (created < expires ∧ expires - created ≤ wbaMaxWindowSeconds ∧ created ≤ now + skewSeconds ∧ now - skewSeconds ≤ expires)%Z;
  wa_nonce : stringParam (member_params (f_member f)) "nonce" = Some nonce ∧
    ∃ b, len b = wbaNonceBytes ∧ (nonce = RawURLEncode b ∨ nonce = StdEncode b);
  wa_covered : CoveredComponents signer = map serialize_item (member_list (f_member f)) ∧ NoDup (CoveredComponents signer) ∧
    ∀ id, id ∈ required_components (f_label f) body → id ∈ CoveredComponents signer;
  wa_key : stringParam (member_params (f_member f)) "keyid" = Some (KeyID signer) ∧
    keys (AgentURL signer) (KeyID signer) = Ok (Some k) ∧ JWKThumbprint k = Some (KeyID signer) ∧ signing_key k;
  wa_signature : ∃ pub base sig ps, PublicKey k = Some (EdKey pub) ∧
    wbaSignatureBase (Method r) url (ReqHeader r) (f_member f) false = Ok base ∧
    dict_get (f_signatures f) (f_label f) = Some (MItem (MkItem (sfBinary sig) ps)) ∧ len sig = 64 ∧ Ed25519Verify pub base sig = true;
  wa_digest : body ≠ "" → ∃ d ps, parseSFDictionary (HeaderGet (ReqHeader r) contentDigestHeader) = Some d ∧
    dict_get d "sha-256" = Some (MItem (MkItem (sfBinary (Sha256 body)) ps));
  wa_json : TrimSpace body = "" ∨ is_ok (Validate body 0) = true;
  wa_signer : SignerAlgorithm signer = AlgEd25519 ∧ Label signer = f_label f ∧ SignerProfile signer = ProfileTagWebBotAuth ∧ VerifiedAt signer = now;
}.

Lemma wba_check_authentic o keys now raw r f body kept c :
  in_int64 (now - skewSeconds) → in_int64 (now + skewSeconds) →
  wba_fields (ReqHeader r) = Ok f → readAndReplaceBody (Body r) (wba_limit o) = Ok (body, kept) →
  wba_check o keys now raw r f body = Ok c → wba_json body = Ok () →
  ∃ url k created, wba_authentic o keys now raw r (wba_signer now c) f body url k (k_nonce c) created (k_expires c).
Proof.
  intros Hlo Hhi Hf Hb H Hj. unfold wba_check in H. cbv zeta in H. apply bind_Ok in H as (url & Ht%wba_target_Ok & H).
  apply bind_Ok in H as ([nonce origin] & Hi & H). apply bind_Ok in H as (names & Hc%wba_covered_Ok & H).
  apply bind_Ok in H as (k & Hk%wba_key_Ok & H). apply bind_Ok in H as (base & Hbase%labelled_Ok & H).
  apply bind_Ok in H as (alg & Hv%labelled_Ok & H). apply bind_Ok in H as (u & Hd%guard_err_Ok & H). injection H as <-.
  apply wba_identity_Ok in Hi as (Hw & Hn & Hnv & Halg & (ps & Ha & Hty) & Horg).
  apply wbaWindow_Ok in Hw as (created & expires & keyID & Hcr & Hex & Hkid & Hlen & Hwin); [|done|done].
  apply wba_fields_Ok in Hf as (_ & (inputs & Hin & _ & Hone & _) & _ & Hag & Hone' & _).
  apply wbaVerifyCrypto_Ok in Hv as (Hsk & -> & pub & sig & sps & Hpub & Hsig & Hl & Hver).
  rewrite Hkid in Hk. cbn [default] in Hk. exists url, k, created.
  assert (f_agents f = [(f_label f, MItem (MkItem (sfString origin) ps))]) as Hags.
  { destruct (f_agents f) as [|[l m] [|]]; cbn in Hone', Ha; [done| |lia]. unfold dict_get in Ha. cbn [List.find fst] in Ha.
    destruct (bool_decide_reflect (l = f_label f)) as [->|]; [|done]. cbn in Ha. by injection Ha as ->. }
  constructor; cbn [wba_signer AgentURL KeyID CoveredComponents SignerAlgorithm Label SignerProfile VerifiedAt k_origin k_keyID k_nonce k_expires k_alg k_label k_names].
  - by exists inputs.
  - exists ps. rewrite <- Hags. split_and!; [|done..]. destruct Hag as [[_ E]|E]; [by rewrite E in Hags|done].
  - by exists kept.
  - done.
  - rewrite Hex. done.
  - split; [done|]. by apply validWBANonce_spec.
  - split_and!; [apply Hc..].
  - rewrite Hkid. split_and!; [done|apply Hk..|done].
  - exists pub, base, sig, sps. split_and!; [done|done| |done|done]. destruct (dict_get (f_signatures f) _); cbn in Hsig; congruence.
  - intros Hne. rewrite bool_decide_false in Hd by done. by apply wbaDigestMatches_Ok.
  - unfold wba_json in Hj. apply guard_err_Ok, orb_true_iff in Hj as [E|E]; [left; by apply bool_decide_eq_true in E|by right].
  - done.
Qed.

Context {St : Type} `{RS : ReplayStore St, RSS : !ReplayStoreSpec St, RC : !ReplayClaimer St, RCS : !ReplayClaimerSpec St}.

Lemma wba_record_Ok st seenAt claimAt now c st' :
  wba_record st seenAt claimAt now c = (Ok (), st') →
  (Seen st seenAt (wbaReplayIdentity (k_origin c)) (k_nonce c)).1 = false ∧
  live_until st' (wbaReplayIdentity (k_origin c)) (k_nonce c) = Some (Add claimAt (wba_ttl (k_expires c) now)).
Proof using RCS.
  unfold wba_record. cbv zeta. destruct (Seen _ _ _ _) as [seen st1]. destruct seen; [done|]. destruct (HitCap _ _); [done|].
  destruct try_claim as [claim|] eqn:Ec.
  - pose proof (claim_records claim st1 claimAt (wbaReplayIdentity (k_origin c)) (k_nonce c) (wba_ttl (k_expires c) now) Ec) as H.
    destruct (claim _ _ _ _ _) as [answer st2]. destruct answer; intros [= <-]. split; [done|]. by apply H.
  - pose proof (Insert_records st1 claimAt (wbaReplayIdentity (k_origin c)) (k_nonce c) (wba_ttl (k_expires c) now)) as H.
    destruct (Insert _ _ _ _ _) as [ok st2]. destruct ok; intros [= <-]. split; [done|]. by apply H.
Qed.

(** An accepted request, step by step. *)
Lemma wba_accepted_inv o store now seenAt claimAt raw r left signer store' :
  VerifyWebBotAuthRequest o store now seenAt claimAt raw r left = (Ok signer, store') →
  ∃ keys st st' f body kept c,
    Keys o = Some keys ∧ store = Some st ∧ store' = Some st' ∧ wba_fields (ReqHeader r) = Ok f ∧
    readAndReplaceBody (Body r) (wba_limit o) = Ok (body, kept) ∧ wba_check o keys (Unix now) raw r f body = Ok c ∧
    wba_record st seenAt claimAt (Unix now) c = (Ok (), st') ∧ wba_json body = Ok () ∧ signer = wba_signer (Unix now) c.
Proof.
  unfold VerifyWebBotAuthRequest, verify_configured. destruct (Keys o) as [keys|]; [|done]. destruct store as [st|]; [|done].
  destruct (wba_fields _) as [f|] eqn:Ef; [|done]. destruct (readAndReplaceBody _ _) as [[body kept]|] eqn:Eb; [|done].
  destruct (wba_check _ _ _ _ _ _ _) as [c|] eqn:Ec; [|done]. destruct (wba_record _ _ _ _ _) as [claimed st'] eqn:Er.
  destruct claimed as [[]|]; [|done]. cbn [mbind result_bind]. destruct (wba_json body) as [[]|] eqn:Ej; [|done].
  cbn [mbind result_bind]. intros [= <- <-]. by exists keys, st, st', f, body, kept, c.
Qed.

(** C3: a request is accepted only when it selects the profile and carries one web-bot-auth signature and one
    Signature-Agent, whose origin's directory holds, under the thumbprint the signature names, an
    Ed25519 key that verifies the signature base of this very request; the signature covers the
    method, the target, the authority and the agent, and the type and digest of a body, which is
    strict JSON with that digest; its lifetime is at most 300 seconds and includes the present
    up to the skew; its nonce is 64 canonical bytes, was not seen before and is remembered
    from now on. *)
Theorem wba_accepts_only_authentic o store now seenAt claimAt raw r left signer store' :
  in_int64 (Unix now - skewSeconds) → in_int64 (Unix now + skewSeconds) →
  VerifyWebBotAuthRequest o store now seenAt claimAt raw r left = (Ok signer, store') →
  UsesWebBotAuth (ReqHeader r) = true ∧ ∃ keys st st' f body url k nonce created expires,
    Keys o = Some keys ∧ store = Some st ∧ store' = Some st' ∧
    wba_authentic o keys (Unix now) raw r signer f body url k nonce created expires ∧
    (Seen st seenAt (wbaReplayIdentity (AgentURL signer)) nonce).1 = false ∧
    live_until st' (wbaReplayIdentity (AgentURL signer)) nonce = Some (Add claimAt (wba_ttl expires (Unix now))).
Proof using RCS.
  intros Hlo Hhi (keys & st & st' & f & body & kept & c & Hk & -> & -> & Hf & Hb & Hc & Hr & Hj & ->)%wba_accepted_inv.
  destruct (wba_check_authentic _ _ _ _ _ _ _ _ _ Hlo Hhi Hf Hb Hc Hj) as (url & k & created & Ha).
  split; [|apply wba_record_Ok in Hr as [Hs Hl]; by exists keys, st, st', f, body, url, k, (k_nonce c), created, (k_expires c)].
  destruct (wa_one_agent _ _ _ _ _ _ _ _ _ _ _ _ _ Ha) as (ps & Hp & _). unfold UsesWebBotAuth.
  destruct (bool_decide_reflect (HeaderValues (ReqHeader r) signatureAgentHeader = [])) as [E|]; [|done].
  unfold HeaderGet in Hp. by rewrite E in Hp.
Qed.

End Accepted.

(** ** One acceptance *)

(** The lifetime of the entry reaches the last second in which the signature is valid. *)
Lemma wba_ttl_covers now claimAt expires t :
  (Unix now - skewSeconds ≤ expires)%Z → (expires - Unix now ≤ wbaMaxWindowSeconds + skewSeconds)%Z →
  (now ≤ claimAt)%Z → (Unix t ≤ expires + skewSeconds)%Z → (t ≤ Add claimAt (wba_ttl expires (Unix now)))%Z.
Proof.
  intros H1 H2 Hn Ht. unfold wba_ttl, skewSeconds, wbaMaxWindowSeconds in *.
  rewrite (wrap64_id (expires - Unix now + 60 + 1)) by (unfold in_int64, int64_min, int64_max; lia).
  rewrite wrap64_id by (unfold in_int64, int64_min, int64_max, Second; lia). unfold Unix, Add, Second in *.
  assert (now = 1000000000 * (now / 1000000000) + now mod 1000000000)%Z as En by (apply Z.div_mod; lia).
  assert (t = 1000000000 * (t / 1000000000) + t mod 1000000000)%Z as Et by (apply Z.div_mod; lia).
  pose proof (Z.mod_pos_bound now 1000000000 ltac:(lia)). pose proof (Z.mod_pos_bound t 1000000000 ltac:(lia)). lia.
Qed.

(** A request handled between two others. *)
Record attempt := MkAttempt {
  a_opts : WBAVerifyOptions; a_now : Time; a_seen : Time; a_claim : Time; a_raw : string; a_req : Request; a_left : body;
}.

(** The nonce a request is signed with, and the second its signature expires in. *)
Definition request_param {A} (get : list sfParam → string → option A) (name : string) (r : Request) : option A :=
  match wba_fields (ReqHeader r) with Ok f => get (member_params (f_member f)) name | Err _ => None end.
Definition request_nonce : Request → option string := request_param stringParam "nonce".
Definition request_expires : Request → option Z := request_param intParam "expires".

Section Once.
Context `{RT : Runtime, CR : Crypto, JO : Jose}.
Context {St : Type} `{RS : ReplayStore St, RSS : !ReplayStoreSpec St, RC : !ReplayClaimer St, RCS : !ReplayClaimerSpec St}.

Definition handle (store : option St) (a : attempt) : option St :=
  (VerifyWebBotAuthRequest (a_opts a) store (a_now a) (a_seen a) (a_claim a) (a_raw a) (a_req a) (a_left a)).2.

Lemma wba_record_keeps st seenAt claimAt now c k n x :
  live_until st k n = Some x → (seenAt ≤ x)%Z → (claimAt ≤ x)%Z → live_until (wba_record st seenAt claimAt now c).2 k n = Some x.
Proof using RCS.
  intros Hl Hs Hc. unfold wba_record. cbv zeta. set (id := wbaReplayIdentity _). set (m := k_nonce c). set (ttl := wba_ttl _ _).
  pose proof (Seen_keeps st seenAt id m k n x Hl Hs) as H1. pose proof (Seen_reports st seenAt id m) as H0.
  destruct (Seen st seenAt id m) as [seen st1]. cbn [fst snd] in *. destruct seen; [done|]. destruct (HitCap st1 id); [done|].
  destruct try_claim as [claim|] eqn:Ec.
  - pose proof (claim_keeps claim st1 claimAt id m ttl k n x Ec H1 Hc) as H2. by destruct (claim _ _ _ _ _).
  - assert ((id, m) ≠ (k, n)) as Hne.
    { intros [= E1 E2]. rewrite E1, E2, Hl in H0. symmetry in H0. by apply Z.leb_gt in H0; lia. }
    pose proof (Insert_keeps st1 claimAt id m ttl k n x H1 Hc Hne) as H2. by destruct (Insert _ _ _ _ _).
Qed.

Lemma handle_keeps st a k n x :
  live_until st k n = Some x → (a_seen a ≤ x)%Z → (a_claim a ≤ x)%Z →
  ∃ st', handle (Some st) a = Some st' ∧ live_until st' k n = Some x.
Proof using RCS.
  intros Hl Hs Hc. unfold handle, VerifyWebBotAuthRequest, verify_configured. destruct (Keys (a_opts a)) as [keys|]; [|by exists st].
  destruct (wba_fields _) as [f|]; [|by exists st]. destruct (readAndReplaceBody _ _) as [[body kept]|]; [|by exists st].
  destruct (wba_check _ _ _ _ _ _ _) as [c|]; [|by exists st].
  pose proof (wba_record_keeps st (a_seen a) (a_claim a) (Unix (a_now a)) c k n x Hl Hs Hc) as H.
  destruct (wba_record _ _ _ _ _) as [claimed st']. by exists st'.
Qed.

Lemma handle_all_keeps attempts k n x : ∀ st,
  live_until st k n = Some x → Forall (λ a, (a_seen a ≤ x)%Z ∧ (a_claim a ≤ x)%Z) attempts →
  ∃ st', foldl handle (Some st) attempts = Some st' ∧ live_until st' k n = Some x.
Proof using RCS.
  induction attempts as [|a l IH]; intros st Hl Hf; [by exists st|]. apply Forall_cons in Hf as [[Hs Hc] Hf].
  destruct (handle_keeps st a k n x Hl Hs Hc) as (st1 & E & Hl1). cbn [foldl]. rewrite E. by apply IH.
Qed.

Lemma checked_params o keys now raw r f body c :
  wba_fields (ReqHeader r) = Ok f → wba_check o keys now raw r f body = Ok c → request_nonce r = Some (k_nonce c) ∧
  request_expires r = intParam (member_params (f_member f)) "expires" ∧ k_expires c = default 0%Z (intParam (member_params (f_member f)) "expires").
Proof.
  intros Hf H. unfold wba_check in H. cbv zeta in H. apply bind_Ok in H as (url & _ & H).
  apply bind_Ok in H as ([nonce origin] & Hi%wba_identity_Ok & H). apply bind_Ok in H as (names & _ & H).
  apply bind_Ok in H as (k & _ & H). apply bind_Ok in H as (base & _ & H). apply bind_Ok in H as (alg & _ & H).
  apply bind_Ok in H as (u & _ & H). injection H as <-. unfold request_nonce, request_expires, request_param. rewrite Hf. by destruct Hi as (_ & Hi & _).
Qed.

(** C4: a nonce that an origin signed with is accepted once: after an accepted request, and
    whatever is handled in between, no request of that origin with that nonce is accepted as long
    as the store reads its clock in a second the first signature is valid in, up to the
    skew.  (A request whose body arrives so slowly that the store is asked later is not covered:
    the verifier has read its own clock before.) *)
Theorem wba_nonce_accepted_once o store now seenAt claimAt raw r left signer store1 nonce expires attempts
    o2 now2 seenAt2 claimAt2 raw2 r2 left2 signer2 store2 :
  in_int64 (Unix now - skewSeconds) → in_int64 (Unix now + skewSeconds) → (now ≤ claimAt)%Z →
  VerifyWebBotAuthRequest o store now seenAt claimAt raw r left = (Ok signer, store1) →
  request_nonce r = Some nonce → request_expires r = Some expires →
  Forall (λ a, (Unix (a_seen a) ≤ expires + skewSeconds)%Z ∧ (Unix (a_claim a) ≤ expires + skewSeconds)%Z) attempts →
  request_nonce r2 = Some nonce → AgentURL signer2 = AgentURL signer → (Unix seenAt2 ≤ expires + skewSeconds)%Z →
  VerifyWebBotAuthRequest o2 (foldl handle store1 attempts) now2 seenAt2 claimAt2 raw2 r2 left2 ≠ (Ok signer2, store2).
Proof using RCS.
  intros Hlo Hhi Hclaim (keys & st & st' & f & body & kept & c & Hk & -> & -> & Hf & Hb & Hc & Hr & Hj & ->)%wba_accepted_inv Hn He Hall Hn2 Hag Hs2
    (keys2 & st2 & st2' & f2 & body2 & kept2 & c2 & Hk2 & Hst & -> & Hf2 & Hb2 & Hc2 & Hr2 & Hj2 & ->)%wba_accepted_inv.
  destruct (wba_check_authentic _ _ _ _ _ _ _ _ _ Hlo Hhi Hf Hb Hc Hj) as (url & k & created & Ha).
  pose proof (wa_window _ _ _ _ _ _ _ _ _ _ _ _ _ Ha) as (_ & Hex & Hw1 & Hw2 & Hw3 & Hw4).
  destruct (checked_params _ _ _ _ _ _ _ _ Hf Hc) as (Hn1 & He1 & _). destruct (checked_params _ _ _ _ _ _ _ _ Hf2 Hc2) as (Hn2' & _ & _).
  rewrite Hn in Hn1. rewrite Hn2 in Hn2'. injection Hn1 as ->. injection Hn2' as Hnn. rewrite He, Hex in He1. injection He1 as ->.
  apply wba_record_Ok in Hr as [_ Hlive].
  assert (∀ t, Unix t ≤ k_expires c + skewSeconds → t ≤ Add claimAt (wba_ttl (k_expires c) (Unix now)))%Z as Ht.
  { intros t Ht. apply wba_ttl_covers; [done| |done|done]. lia. }
  destruct (handle_all_keeps attempts _ _ _ _ Hlive) as (st3 & E & Hlive3).
  { eapply Forall_impl; [exact Hall|]. intros a [H1 H2]. by split; apply Ht. }
  rewrite Hst in E. injection E as <-. apply wba_record_Ok in Hr2 as [Hseen _]. rewrite Seen_reports in Hseen.
  cbn [wba_signer AgentURL] in Hag. rewrite Hag, <- Hnn, Hlive3 in Hseen. apply Z.leb_gt in Hseen. specialize (Ht _ Hs2). lia.
Qed.

End Once.

(** ** The signature base *)

Lemma serialize_item_inj a b : item_ok a → item_ok b → serialize_item a = serialize_item b → a = b.
Proof.
  intros Ha Hb E. assert (∀ it, item_ok it → item (serialize_item it) = Some (it, "")) as H.
  { intros it Hit. pose proof (item_serialize it "" Hit) as H. rewrite sapp_nil_r in H. apply H. apply delimited_ends. by left. }
  pose proof (H a Ha) as H1. rewrite E, (H b Hb) in H1. by injection H1.
Qed.

Lemma serialize_member_inj a b : member_ok a → member_ok b → serialize_member a = serialize_member b → a = b.
Proof.
  intros Ha Hb E. assert (∀ m, member_ok m → itemOrInnerList (serialize_member m) = Some (m, "")) as H.
  { intros m Hm. pose proof (member_serialize m "" Hm) as H. rewrite sapp_nil_r in H. apply H. destruct m; apply delimited_ends; by left. }
  pose proof (H a Ha) as H1. rewrite E, (H b Hb) in H1. by injection H1.
Qed.

Definition one_line (s : string) : bool := all_bytes (λ c, negb (beq c (byte 10))) s.

Lemma line_inj v1 r1 v2 r2 :
  one_line v1 = true → one_line v2 = true → v1 +:+ newline +:+ r1 = v2 +:+ newline +:+ r2 → v1 = v2 ∧ r1 = r2.
Proof.
  intros H1 H2 H. unfold newline in H. rewrite !sapp_cons, !sapp_nil_l in H. unfold one_line in *.
  apply (all_bytes_no _ _ (byte 10)) in H1, H2; [|done..].
  pose proof (f_equal (λ x, IndexByte x (byte 10)) H) as Hi. cbv beta in Hi. rewrite !IndexByte_app in Hi by done. injection Hi as Hi.
  apply sapp_inj_len in H as [-> H]; [|done]. by injection H.
Qed.

Lemma one_line_sf s : all_bytes sf_char s = true → one_line s = true.
Proof. apply all_bytes_impl. intros c Hc. by destruct c as [[] [] [] [] [] [] [] []]. Qed.

Lemma one_line_Trim P s : one_line s = true → one_line (Trim P s) = true.
Proof.
  unfold one_line, Trim, rtrim. rewrite !all_bytes_Forall, explode_implode. intros H. apply Forall_reverse.
  destruct (ltrim_split P (explode s)) as (a & E & _). rewrite E in H. apply Forall_app in H as [_ H].
  destruct (ltrim_split P (reverse (ltrim P (explode s)))) as (b & Eb & _). apply Forall_reverse in H. rewrite Eb in H. by apply Forall_app in H as [_ H].
Qed.

Lemma dict_get_member d k m : dict_ok d → dict_get d k = Some m → member_ok m.
Proof.
  intros [_ Hf] H. unfold dict_get in H. apply fmap_Some in H as (e & He & ->). apply find_some in He as [Hin _].
  eapply Forall_forall in Hf; [|by apply list_elem_of_In]. apply Hf.
Qed.

Section Base.
Context `{RT : Runtime}.

(** The method and the authority of a request, as [net/http] lets them be. *)
Definition tame (method url : string) : Prop :=
  one_line (ToUpper method) = true ∧ one_line url = true ∧
  ∀ u, ParseURL url = Some u → one_line (canonicalAuthority (URLHost u) (ToLower (URLScheme u))) = true.

Lemma component_value_form method url u h c v :
  tame method url → ParseURL url = Some u → component_value method url u h false c = Ok v →
  one_line v = true ∧ ∃ name, iValue c = sfString name ∧ name ≠ sigParamsComponent ∧
    (iParams c = [] ∨ ∃ k, iParams c = [MkParam "key" (sfString k)]).
Proof.
  intros (Hm & Hu & Ha) Hp H. unfold component_value in H. destruct c as [[| |name| | |] ps]; try done. cbn [iValue iParams] in *.
  destruct (HasPrefix name "@") eqn:Hat.
  - unfold derived_value in H. apply bind_Ok in H as (x & Hps%guard_err_Ok & H). rewrite andb_false_l, orb_false_r in Hps. apply bool_decide_eq_true in Hps as ->.
    destruct (bool_decide_reflect (name = componentMethod)) as [->|_]; [injection H as <-; split; [done|]; exists componentMethod; auto|].
    destruct (bool_decide_reflect (name = componentTargetURI)) as [->|_]; [injection H as <-; split; [done|]; exists componentTargetURI; auto|].
    destruct (bool_decide_reflect (name = componentAuthority)) as [->|_]; [injection H as <-; split; [by apply Ha|]; exists componentAuthority; auto|done].
  - assert (name ≠ sigParamsComponent) as Hne by (intros ->; done). unfold field_value in H. cbv zeta in H.
    apply bind_Ok in H as (x & _ & H). apply bind_Ok in H as (y & Hf%guard_err_Ok & H).
    assert (one_line (Join (HeaderValues h name) ", ") = true) as Hraw.
    { eapply all_bytes_impl; [|exact Hf]. intros c Hc. apply negb_true_iff in Hc. apply negb_true_iff. unfold forging in Hc.
      apply orb_false_iff in Hc as [[_ Hc]%orb_false_iff _]. done. }
    destruct ps as [|[k [| |key| | |]] [|]]; try done; [injection H as <-; split; [by apply one_line_Trim|exists name; auto]|].
    destruct (bool_decide_reflect (k = "key")) as [->|]; [|done]. cbn [negb] in H. apply bind_Ok in H as (d & Hd%opt_err_Ok & H).
    apply bind_Ok in H as (m & Hg%opt_err_Ok & H). injection H as <-. split; [|exists name; split_and!; eauto].
    apply parse_ok in Hd as [Hd _]. by eapply one_line_sf, sf_member, dict_get_member.
Qed.

(** The text that follows a component's identifier does not continue it. *)
Lemma component_read c rest name :
  item_ok c → iValue c = sfString name → (iParams c = [] ∨ ∃ k, iParams c = [MkParam "key" (sfString k)]) →
  item (serialize_item c +:+ ": " +:+ rest) = Some (c, ": " +:+ rest).
Proof.
  intros Hc Hv Hp. apply item_serialize; [done|]. rewrite Hv. by destruct Hp as [-> | [k ->]].
Qed.

Lemma params_line_read rest : item (quoted sigParamsComponent +:+ ": " +:+ rest) = Some (plain sigParamsComponent, ": " +:+ rest).
Proof.
  apply (component_read (plain sigParamsComponent) rest sigParamsComponent); [|done|by left].
  split; [done|]. apply params_ok_nil.
Qed.

Lemma component_lines_inj m1 url1 u1 h1 t1 m2 url2 u2 h2 t2 l1 : ∀ l2 s1 s2,
  tame m1 url1 → tame m2 url2 → ParseURL url1 = Some u1 → ParseURL url2 = Some u2 → Forall item_ok l1 → Forall item_ok l2 →
  component_lines (component_value m1 url1 u1 h1 false) l1 = Ok s1 → component_lines (component_value m2 url2 u2 h2 false) l2 = Ok s2 →
  s1 +:+ quoted sigParamsComponent +:+ ": " +:+ t1 = s2 +:+ quoted sigParamsComponent +:+ ": " +:+ t2 →
  l1 = l2 ∧ t1 = t2 ∧ Forall (λ c, component_value m1 url1 u1 h1 false c = component_value m2 url2 u2 h2 false c) l1.
Proof.
  induction l1 as [|c1 l1 IH]; intros [|c2 l2] s1 s2 Ht1 Ht2 Hu1 Hu2 Hl1 Hl2 H1 H2 E; cbn [component_lines] in H1, H2.
  - injection H1 as <-. injection H2 as <-. rewrite !sapp_nil_l in E. apply sapp_inj_l, sapp_inj_l in E. by subst.
  - injection H1 as <-. apply bind_Ok in H2 as (v2 & Hv2 & H2). apply bind_Ok in H2 as (r2 & _ & H2). injection H2 as <-.
    destruct (component_value_form _ _ _ _ _ _ Ht2 Hu2 Hv2) as (_ & name & Hn & Hne & Hps). apply Forall_cons in Hl2 as [Hc2 _].
    rewrite sapp_nil_l, !sapp_assoc in E. pose proof (params_line_read t1) as Hr. rewrite E, (component_read _ _ name) in Hr by done.
    injection Hr as -> _. injection Hn as <-. done.
  - injection H2 as <-. apply bind_Ok in H1 as (v1 & Hv1 & H1). apply bind_Ok in H1 as (r1 & _ & H1). injection H1 as <-.
    destruct (component_value_form _ _ _ _ _ _ Ht1 Hu1 Hv1) as (_ & name & Hn & Hne & Hps). apply Forall_cons in Hl1 as [Hc1 _].
    rewrite sapp_nil_l, !sapp_assoc in E. pose proof (params_line_read t2) as Hr. rewrite <- E, (component_read _ _ name) in Hr by done.
    injection Hr as -> _. injection Hn as <-. done.
  - apply bind_Ok in H1 as (v1 & Hv1 & H1). apply bind_Ok in H1 as (r1 & Hr1 & H1). injection H1 as <-.
    apply bind_Ok in H2 as (v2 & Hv2 & H2). apply bind_Ok in H2 as (r2 & Hr2 & H2). injection H2 as <-.
    destruct (component_value_form _ _ _ _ _ _ Ht1 Hu1 Hv1) as (Ho1 & n1 & Hn1 & _ & Hp1).
    destruct (component_value_form _ _ _ _ _ _ Ht2 Hu2 Hv2) as (Ho2 & n2 & Hn2 & _ & Hp2).
    apply Forall_cons in Hl1 as [Hc1 Hl1]. apply Forall_cons in Hl2 as [Hc2 Hl2]. rewrite !sapp_assoc in E.
    pose proof (component_read c1 (v1 +:+ newline +:+ r1 +:+ quoted sigParamsComponent +:+ ": " +:+ t1) n1 Hc1 Hn1 Hp1) as Hr.
    rewrite E, (component_read _ _ n2) in Hr by done. injection Hr as -> Hr. apply line_inj in Hr as [-> Hr]; [|done..].
    destruct (IH l2 r1 r2) as (-> & -> & Hf); try done. split_and!; [done|done|]. constructor; [congruence|done].
Qed.

(** C7: two requests with one signature base were signed in every covered part alike: the
    members are the same, and with the components the profile requires so are the method, the
    target, the named agent, and the type and digest of a body. *)
Theorem wba_base_binds m1 url1 h1 member1 m2 url2 h2 member2 base label body :
  tame m1 url1 → tame m2 url2 → member_ok member1 → member_ok member2 →
  wbaSignatureBase m1 url1 h1 member1 false = Ok base → wbaSignatureBase m2 url2 h2 member2 false = Ok base →
  key_ok label = true → (∀ id, id ∈ required_components label body → id ∈ map serialize_item (member_list member1)) →
  member1 = member2 ∧ ToUpper m1 = ToUpper m2 ∧ url1 = url2 ∧
  field_value h1 "signature-agent" [MkParam "key" (sfString label)] = field_value h2 "signature-agent" [MkParam "key" (sfString label)] ∧
  (body ≠ "" → field_value h1 componentContentType [] = field_value h2 componentContentType [] ∧
    field_value h1 componentContentDigst [] = field_value h2 componentContentDigst []).
Proof.
  intros Ht1 Ht2 Hm1 Hm2 H1 H2 Hlab Hreq. unfold wbaSignatureBase in H1, H2.
  apply bind_Ok in H1 as (u1 & Hu1%opt_err_Ok & H1). apply bind_Ok in H1 as (s1 & Hs1 & H1). injection H1 as <-.
  apply bind_Ok in H2 as (u2 & Hu2%opt_err_Ok & H2). apply bind_Ok in H2 as (s2 & Hs2 & H2). injection H2 as E.
  assert (∀ m, member_ok m → Forall item_ok (member_list m)) as Hl by (intros [it|l ps]; [constructor|by intros []]).
  apply symmetry in E. destruct (component_lines_inj _ _ _ _ _ _ _ _ _ _ _ _ _ _ Ht1 Ht2 Hu1 Hu2 (Hl _ Hm1) (Hl _ Hm2) Hs1 Hs2 E) as (_ & Hmem & Hall).
  split; [by apply serialize_member_inj|].
  assert (∀ c, item_ok c → serialize_item c ∈ required_components label body →
    component_value m1 url1 u1 h1 false c = component_value m2 url2 u2 h2 false c) as Hc.
  { intros c Hc Hin. apply Hreq, list_elem_of_fmap in Hin as (c' & Hs & Hin).
    assert (c = c') as <-.
    { apply serialize_item_inj; [done| |done]. eapply Forall_forall; [by apply (Hl member1)|exact Hin]. }
    eapply Forall_forall in Hall; [exact Hall|done]. }
  assert (∀ name, all_bytes sf_char name = true → item_ok (plain name)) as Hpl by (intros name Hn; split; [done|apply params_ok_nil]).
  assert (∀ name, escape_string name = name → serialize_item (plain name) = quoted name) as Hpq.
  { intros name Hn. unfold serialize_item, plain. cbn [iValue iParams serialize_bare serializeParams]. by rewrite Hn, sapp_nil_r. }
  pose proof (Hc (plain componentMethod) ltac:(by apply Hpl) ltac:(rewrite Hpq by done; by left)) as [= Hmeth].
  pose proof (Hc (plain componentTargetURI) ltac:(by apply Hpl) ltac:(rewrite Hpq by done; by right; left)) as [= Hurl].
  split_and!; [done|done| |].
  - apply (Hc (agent_component label)).
    + split; [done|]. split; [apply NoDup_singleton|]. apply Forall_singleton. split; [done|]. by apply sf_key.
    + unfold required_components. apply elem_of_app. right. apply elem_of_app. left. apply list_elem_of_singleton.
      unfold serialize_item, agent_component. cbn [iValue iParams serializeParams pKey pValue]. by rewrite sapp_nil_r.
  - intros Hne. unfold required_components in Hc. rewrite bool_decide_false in Hc by done.
    split; [apply (Hc (plain componentContentType))|apply (Hc (plain componentContentDigst))];
      try (by apply Hpl); rewrite Hpq by done; apply elem_of_app; right; apply elem_of_app; right; [by left|by right; left].
Qed.

End Base.

(** ** Refusals *)

(** Every failure of [m] has the property. *)
Definition fails {A} (P : WBAError → Prop) (m : result WBAError A) : Prop := ∀ e, m = Err e → P e.

Lemma fails_bind {A B} P (m : result WBAError A) (f : A → result WBAError B) :
  fails P m → (∀ a, m = Ok a → fails P (f a)) → fails P (m ≫= f).
Proof. intros Hm Hf e [He|(a & Ha & He)]%bind_Err; [by apply Hm|by eapply Hf]. Qed.
Lemma fails_Ok {A} P (a : A) : fails P (Ok a).
Proof. by intros e [=]. Qed.
Lemma fails_Err {A} (P : WBAError → Prop) e : P e → fails P (Err e : result WBAError A).
Proof. by intros He e' [= <-]. Qed.
Lemma fails_guard (P : WBAError → Prop) b e : (b = false → P e) → fails P (guard_err b e).
Proof. destruct b; intros H; [apply fails_Ok|by apply fails_Err, H]. Qed.
Lemma fails_opt {A} (P : WBAError → Prop) (o : option A) e : (o = None → P e) → fails P (opt_err e o).
Proof. destruct o; intros H; [apply fails_Ok|by apply fails_Err, H]. Qed.
Lemma fails_impl {A} (P Q : WBAError → Prop) (m : result WBAError A) : fails P m → (∀ e, P e → Q e) → fails Q m.
Proof. intros H HPQ e He. by apply HPQ, H. Qed.

(** A failure of the signature, to be answered with a status. *)
Definition refused_with (status : Z) (e : WBAError) : Prop :=
  eAuthorization e = false ∧ eRevoked e = false ∧ eReplayed e = false ∧ eStatus e = status.

Ltac fails_step :=
  lazymatch goal with
  | |- fails _ (Ok _) => apply fails_Ok
  | |- fails _ (Err _) => apply fails_Err
  | |- fails _ (guard_err _ _) => apply fails_guard; intros _
  | |- fails _ (opt_err _ _) => apply fails_opt; intros _
  | |- fails _ (@mbind _ result_bind _ _ _ _) => apply fails_bind; [|intros ? _]
  | |- fails _ (let '(_, _) := ?x in _) => destruct x
  | |- fails _ (match ?x with _ => _ end) => destruct x
  | |- fails _ (let x := _ in _) => cbv zeta
  | |- refused_with _ (wbaFail _ _ _) => by split_and!
  end.
Ltac fails := repeat fails_step.

Lemma with_label_required s e label : refused_with s e → refused_with s (withLabel e label).
Proof. unfold withLabel. by case_bool_decide. Qed.
Lemma fails_labelled {A} s label (m : result WBAError A) : fails (refused_with s) m → fails (refused_with s) (labelled label m).
Proof. destruct m as [a|e]; intros H; [apply fails_Ok|]. apply fails_Err, with_label_required. by apply H. Qed.

(** *** Malformed fields *)

Definition bare_bytes (m : sfMember) : bool := match m with MItem (MkItem (sfBinary _) []) => true | _ => false end.

(** A signed field on two lines, two media types, a missing field, one that is no dictionary,
    an input that is no list, and, when a signature of the profile is offered, labels that
    differ and a signature that is not plain bytes. *)
Definition malformed_fields (h : Header) : Prop :=
  Exists (λ name, 1 < length (HeaderValues h name)) single_line_headers ∨
  containsTopLevelComma (HeaderGet h contentTypeHeader) = true ∨
  HeaderGet h signatureInputHeader = "" ∨ HeaderGet h signatureHeader = "" ∨
  parseSFDictionary (HeaderGet h signatureInputHeader) = None ∨
  ∃ inputs, parseSFDictionary (HeaderGet h signatureInputHeader) = Some inputs ∧
    (Exists (λ e, inner e.2 = false) inputs ∨
     Exists (λ e, tagged e.2 = true) inputs ∧
       (parseSFDictionary (HeaderGet h signatureHeader) = None ∨
        (HeaderGet h signatureAgentHeader ≠ "" ∧ parseSFDictionary (HeaderGet h signatureAgentHeader) = None) ∨
        ∃ sigs, parseSFDictionary (HeaderGet h signatureHeader) = Some sigs ∧
          (¬ dict_keys inputs ≡ₚ dict_keys sigs ∨ Exists (λ e, bare_bytes e.2 = false) sigs))).

Lemma sameKeys_iff a b : NoDup a → NoDup b → sameKeys a b = true ↔ a ≡ₚ b.
Proof.
  intros Ha Hb. unfold sameKeys. rewrite andb_true_iff, Nat.eqb_eq, forallb_forall. setoid_rewrite bool_decide_eq_true. split.
  - intros [Hl Hin]. symmetry. apply submseteq_length_Permutation; [|lia]. apply NoDup_submseteq; [done|].
    intros x Hx. by apply Hin, list_elem_of_In.
  - intros Hp. split; [by rewrite Hp|]. intros x Hx. rewrite Hp. by apply list_elem_of_In.
Qed.

(** Whether the header fields are malformed, when they are refused. *)
Definition by_fields (h : Header) (e : WBAError) : Prop :=
  refused_with 400 e ∧ malformed_fields h ∨ refused_with 403 e ∧ ¬ malformed_fields h.

Lemma wba_precheck_fails h : fails (λ e, refused_with 400 e ∧ malformed_fields h) (wbaHeaderPrecheck h).
Proof.
  unfold wbaHeaderPrecheck, malformed_fields. destruct (List.find _ _) as [name|] eqn:E.
  - apply fails_Err. split; [by split_and!|]. left. apply find_some in E as [Hin Hl%Nat.ltb_lt]. apply Exists_exists. exists name.
    split; [by apply list_elem_of_In|done].
  - apply fails_bind; [apply fails_guard|intros _ _; apply fails_guard]; intros Hb; (split; [by split_and!|]).
    + right; left. by apply negb_false_iff in Hb.
    + apply andb_false_iff in Hb as [Hb|Hb]; apply negb_false_iff, bool_decide_eq_true in Hb; tauto.
Qed.

Lemma wba_precheck_Ok h : wbaHeaderPrecheck h = Ok () →
  ¬ Exists (λ name, 1 < length (HeaderValues h name)) single_line_headers ∧
  containsTopLevelComma (HeaderGet h contentTypeHeader) = false ∧
  HeaderGet h signatureInputHeader ≠ "" ∧ HeaderGet h signatureHeader ≠ "".
Proof.
  unfold wbaHeaderPrecheck. destruct (List.find _ _) as [name|] eqn:E; [done|]. intros H.
  apply bind_Ok in H as ([] & Hc%guard_err_Ok%negb_true_iff & [H1 H2]%guard_err_Ok%andb_true_iff).
  apply negb_true_iff, bool_decide_eq_false in H1, H2. split_and!; try done. rewrite Exists_exists. intros (name & Hin & Hl).
  pose proof (find_none _ _ E name (proj1 (list_elem_of_In _ _) Hin)) as Hn. cbn beta in Hn. apply Nat.ltb_ge in Hn. lia.
Qed.

Lemma wba_select_fails d : ∀ found count,
  fails (λ e, refused_with 400 e ∧ Exists (λ e, inner e.2 = false) d) (wba_select found count d).
Proof.
  induction d as [|x d IH]; intros found count; cbn [wba_select]; [apply fails_Ok|].
  destruct (inner x.2) eqn:Ei; cbn [negb]; [|apply fails_Err; split; [by split_and!|by left]].
  destruct (tagged x.2); (eapply fails_impl; [apply IH|]); intros e [He Hx]; (split; [done|by right]).
Qed.

(** What is read when the fields are refused as not malformed, and when they are accepted. *)
Lemma not_malformed h inputs sigs :
  wbaHeaderPrecheck h = Ok () → parseSFDictionary (HeaderGet h signatureInputHeader) = Some inputs →
  Forall (λ e, inner e.2 = true) inputs →
  (Exists (λ e, tagged e.2 = true) inputs →
    parseSFDictionary (HeaderGet h signatureHeader) = Some sigs ∧
    (HeaderGet h signatureAgentHeader = "" ∨ is_Some (parseSFDictionary (HeaderGet h signatureAgentHeader))) ∧
    sameKeys (dict_keys inputs) (dict_keys sigs) = true ∧ wbaFieldsWellFormed inputs sigs = true) →
  ¬ malformed_fields h.
Proof.
  intros (H1 & H2 & H3 & H4)%wba_precheck_Ok Hin Hinner Ht [H|[H|[H|[H|[H|(inputs' & Hin' & H)]]]]]; try congruence.
  assert (inputs' = inputs) as -> by congruence. destruct H as [H|[Htag H]].
  { apply Exists_exists in H as (x & Hx & Hf). rewrite Forall_forall in Hinner. specialize (Hinner x Hx). congruence. }
  destruct (Ht Htag) as (Hs & Hag & Hk & Hw). destruct H as [H|[[Hne H]|(sigs' & Hs' & [H|H])]].
  - congruence.
  - destruct Hag as [?|[? ?]]; congruence.
  - assert (sigs' = sigs) as -> by congruence. apply H. apply sameKeys_iff; [| |done]; by (eapply parse_ok; eassumption).
  - assert (sigs' = sigs) as -> by congruence. apply andb_true_iff in Hw as [_ Hw]. apply Exists_exists in H as (x & Hx%list_elem_of_In & Hf).
    rewrite forallb_forall in Hw. specialize (Hw x Hx). unfold bare_bytes in Hf. congruence.
Qed.

Lemma forallb_false_Exists {A} (f : A → bool) l : forallb f l = false → Exists (λ x, f x = false) l.
Proof.
  induction l as [|x l IH]; [done|]. cbn [forallb]. intros [H|H]%andb_false_iff; [by left|]. right. by apply IH.
Qed.

Lemma wba_fields_refused h : fails (by_fields h) (wba_fields h).
Proof.
  unfold wba_fields.
  apply fails_bind; [eapply fails_impl; [apply wba_precheck_fails|by left]|]. intros [] Hpre.
  apply fails_bind; [apply fails_opt; intros Hn; left; split; [by split_and!|]; unfold malformed_fields; tauto|]. intros inputs Hin%opt_err_Ok.
  apply fails_bind.
  { eapply fails_impl; [apply wba_select_fails|]. intros e [He Hx]. left. split; [done|]. unfold malformed_fields. naive_solver. }
  intros [found count] Hsel. apply wba_select_spec in Hsel as (Hinner & -> & ->). cbn [Nat.eqb Nat.add].
  destruct (List.filter (λ e, tagged e.2) inputs) as [|[label member] rest] eqn:Ef.
  { apply fails_Err. right. split; [by split_and!|]. eapply (not_malformed _ inputs []); try done. intros Htag. exfalso.
    apply Exists_exists in Htag as (x & Hx%list_elem_of_In & Ht). assert (In x (List.filter (λ e, tagged e.2) inputs)) as Hf by (by apply filter_In).
    by rewrite Ef in Hf. }
  assert (Exists (λ e, tagged e.2 = true) inputs) as Htag.
  { assert (In (label, member) (List.filter (λ e, tagged e.2) inputs)) as Hf by (rewrite Ef; by left). apply filter_In in Hf as [Hf ?].
    apply Exists_exists. exists (label, member). split; [by apply list_elem_of_In|done]. }
  apply fails_bind; [apply fails_opt; intros Hn; left; split; [by split_and!|]; unfold malformed_fields; naive_solver|]. intros sigs Hs%opt_err_Ok.
  apply fails_bind.
  { case_bool_decide; [apply fails_Ok|]. apply fails_opt. intros Hn. left. split; [by split_and!|]. unfold malformed_fields. naive_solver. }
  intros agents Ha. assert (HeaderGet h signatureAgentHeader = "" ∨ is_Some (parseSFDictionary (HeaderGet h signatureAgentHeader))) as Hag.
  { case_bool_decide; [by left|]. apply opt_err_Ok in Ha. right. by exists agents. }
  apply fails_bind; [apply fails_guard; intros Hn; left; split; [by split_and!|]|].
  { do 5 right. exists inputs. split; [done|]. right. split; [done|]. do 2 right. exists sigs. split; [done|]. left.
    rewrite <- sameKeys_iff; [by rewrite Hn| |]; by (eapply parse_ok; eassumption). }
  intros u Hk%guard_err_Ok. apply fails_bind; [apply fails_guard; intros Hn; left; split; [by split_and!|]|].
  { do 5 right. exists inputs. split; [done|]. right. split; [done|]. do 2 right. exists sigs. split; [done|]. right.
    apply andb_false_iff in Hn as [Hn%forallb_false_Exists|Hn%forallb_false_Exists]; [|exact Hn]. exfalso.
    apply Exists_exists in Hn as (x & Hx & Hf). rewrite Forall_forall in Hinner. specialize (Hinner x Hx). congruence. }
  intros u2 Hw%guard_err_Ok. assert (¬ malformed_fields h) as Hnm by (eapply (not_malformed _ inputs sigs); try done).
  apply fails_bind; [apply fails_guard; intros _; right; split; [by split_and!|done]|]. intros _ _.
  apply fails_bind; [apply fails_guard; intros _; right; split; [by split_and!|done]|]. intros _ _. apply fails_Ok.
Qed.

(** Fields that are accepted are not malformed, and hold the bytes of the signature. *)
Lemma wba_fields_read h f :
  wba_fields h = Ok f →
  ¬ malformed_fields h ∧ ∃ sig, dict_get (f_signatures f) (f_label f) = Some (MItem (MkItem (sfBinary sig) [])).
Proof.
  intros H. pose proof (wba_fields_Ok h f H) as (_ & (inputs & Hin & Hinner & Htag & Hk & Hw) & Hs & Hag & _ & Hpre). split.
  - eapply (not_malformed _ inputs (f_signatures f)); try done. intros _. split_and!; try done.
    destruct Hag as [[? _]|Ha]; [by left|right; by eexists].
  - assert (In (f_label f, f_member f) inputs) as Hl.
    { assert (In (f_label f, f_member f) (List.filter (λ e, tagged e.2) inputs)) as Hf by (rewrite Htag; by left). by apply filter_In in Hf as [? _]. }
    assert (f_label f ∈ dict_keys (f_signatures f)) as Hlab.
    { apply sameKeys_iff in Hk; [|by (eapply parse_ok; eassumption)..]. rewrite <- Hk. apply list_elem_of_In, in_map_iff. by exists (f_label f, f_member f). }
    unfold dict_get. destruct (List.find _ _) as [[l m]|] eqn:E.
    + apply find_some in E as [Hm _]. apply andb_true_iff in Hw as [_ Hw]. rewrite forallb_forall in Hw. specialize (Hw _ Hm).
      cbn in Hw. destruct m as [[[] []]|]; try done. by eexists.
    + apply list_elem_of_In, in_map_iff in Hlab as ([l m] & El & Hm). pose proof (find_none _ _ E _ Hm) as Hn. cbn in *.
      by apply bool_decide_eq_false in Hn.
Qed.

(** *** Malformed components *)

(** A covered component that is no string, or names a field that is there but carries a control
    character or, when a member of it is meant, is no dictionary. *)
Definition malformed_component (h : Header) (c : sfItem) : Prop :=
  match iValue c with
  | sfString name =>
      HasPrefix name "@" = false ∧ HeaderValues h name ≠ [] ∧ isLowercaseFieldName name = true ∧
      (all_bytes (λ b, negb (forging b)) (Join (HeaderValues h name) ", ") = false ∨
       parseSFDictionary (Join (HeaderValues h name) ", ") = None ∧ ∃ key, iParams c = [MkParam "key" (sfString key)])
  | _ => True
  end.

Section Refusals.
Context `{RT : Runtime, CR : Crypto, JO : Jose}.

Lemma component_refused method url u h c :
  fails (λ e, refused_with 400 e ∧ malformed_component h c ∨ refused_with 403 e ∧ ¬ malformed_component h c)
    (component_value method url u h false c).
Proof.
  unfold component_value, malformed_component. destruct (iValue c) as [| |name| | |]; try (apply fails_Err; left; by split; [split_and!|]).
  destruct (HasPrefix name "@") eqn:Ep.
  { eapply (fails_impl (refused_with 403)); [unfold derived_value; fails|]. intros e He. right. split; [done|]. by intros [? _]. }
  unfold field_value. cbv zeta. set (raw := Join _ _).
  apply fails_bind; [apply fails_guard; intros Hb; right; split; [by split_and!|]; intros (_ & Hl & Hn & _)|].
  { by rewrite bool_decide_false, Hn in Hb. }
  intros _ [Hl Hn]%guard_err_Ok%andb_true_iff. apply negb_true_iff, bool_decide_eq_false in Hl.
  apply fails_bind; [apply fails_guard; intros Hb; left; split; [by split_and!|tauto]|]. intros _ Hb%guard_err_Ok.
  assert (∀ ps, iParams c = ps → (∀ key, ps ≠ [MkParam "key" (sfString key)]) → ∀ w, refused_with 403 (wbaFail 403 "" w) ∧
    ¬ (false = false ∧ HeaderValues h name ≠ [] ∧ isLowercaseFieldName name = true ∧ (all_bytes (λ b, negb (forging b)) raw = false ∨
        parseSFDictionary raw = None ∧ ∃ key, iParams c = [MkParam "key" (sfString key)]))) as Hother.
  { intros ps -> Hps w. split; [by split_and!|]. intros (_ & _ & _ & [E|[_ [key E]]]); [congruence|by apply (Hps key)]. }
  destruct (iParams c) as [|[k v] ps] eqn:Eps; [apply fails_Ok|].
  destruct v as [| |key| | |]; try (apply fails_Err; right; apply (Hother _ eq_refl); by intros ? [=]).
  destruct ps; [|apply fails_Err; right; apply (Hother _ eq_refl); by intros ? [=]].
  destruct (bool_decide_reflect (k = "key")) as [->|Hk]; cbn [negb]; [|apply fails_Err; right; apply (Hother _ eq_refl); by intros ? [=]].
  apply fails_bind; [apply fails_opt; intros Hd; left; split; [by split_and!|]; split_and!; try done; right; by eauto|]. intros d Hd%opt_err_Ok.
  apply fails_bind; [apply fails_opt; intros _; right; split; [by split_and!|]|intros m _; apply fails_Ok].
  intros (_ & _ & _ & [E|[E _]]); congruence.
Qed.

Lemma malformed_fails method url u h c : malformed_component h c → is_ok (component_value method url u h false c) = false.
Proof.
  unfold malformed_component, component_value. destruct (iValue c) as [| |name| | |]; try done. intros (-> & Hl & Hn & H).
  unfold field_value. rewrite bool_decide_false, Hn by done. cbn [negb andb guard_err mbind result_bind].
  destruct H as [->|[Hd [key ->]]]; [done|]. rewrite Hd. by destruct (all_bytes _ _).
Qed.

Lemma component_lines_Err value l e :
  component_lines value l = Err e →
  ∃ before c after, l = before ++ c :: after ∧ Forall (λ c, is_ok (value c) = true) before ∧ value c = Err e.
Proof.
  induction l as [|c l IH]; [done|]. cbn [component_lines]. intros [H|(v & Hv & [H|(rest & _ & H)]%bind_Err)]%bind_Err; [by exists [], c, l| |done].
  destruct (IH H) as (before & c' & after & -> & Hb & Hc). exists (c :: before), c', after. split_and!; [done| |done]. constructor; [by rewrite Hv|done].
Qed.

Lemma component_lines_Ok value before c after lines :
  component_lines value (before ++ c :: after) = Ok lines → is_ok (value c) = true.
Proof.
  revert lines. induction before as [|b before IH]; intros lines; cbn [app component_lines]; intros (v & Hv & (rest & Hr & _)%bind_Ok)%bind_Ok.
  - by rewrite Hv.
  - by eapply IH.
Qed.

Lemma first_failure {A} (ok : A → bool) before c after before' c' after' :
  before ++ c :: after = before' ++ c' :: after' → Forall (λ x, ok x = true) before → Forall (λ x, ok x = true) before' →
  ok c = false → ok c' = false → c = c'.
Proof.
  intros E Hb. revert before' E. induction Hb as [|x l Hx Hl IH]; intros [|y before'] E Hb' Hc Hc'; cbn in E; injection E as E1 E2; subst.
  - done.
  - apply Forall_cons in Hb' as [? _]. congruence.
  - congruence.
  - apply Forall_cons in Hb' as [_ Hb']. by eapply IH.
Qed.

(** The first component that cannot be read is malformed. *)
Definition malformed_base (method url : string) (h : Header) (member : sfMember) : Prop :=
  ∃ u before c after, ParseURL url = Some u ∧ member_list member = before ++ c :: after ∧
    Forall (λ c, is_ok (component_value method url u h false c) = true) before ∧ malformed_component h c.

Lemma base_refused method url h member :
  fails (λ e, refused_with 400 e ∧ malformed_base method url h member ∨ refused_with 403 e ∧ ¬ malformed_base method url h member)
    (wbaSignatureBase method url h member false).
Proof.
  unfold wbaSignatureBase, malformed_base. apply fails_bind.
  { apply fails_opt. intros Hn. right. split; [by split_and!|]. intros (u & _ & _ & _ & Hu & _). congruence. }
  intros u Hu%opt_err_Ok. apply fails_bind; [|intros; apply fails_Ok]. intros e (before & c & after & Hl & Hb & Hc)%component_lines_Err.
  destruct (component_refused method url u h c e Hc) as [[He Hm]|[He Hm]]; [left|right]; (split; [done|]); [by exists u, before, c, after|].
  intros (u' & before' & c' & after' & Hu' & Hl' & Hb' & Hm'). assert (u' = u) as -> by congruence. rewrite Hl in Hl'.
  destruct Hm. assert (c = c') as ->; [|done]. eapply first_failure; [exact Hl'|exact Hb|exact Hb'| |]; cbn beta; [by rewrite Hc|by apply malformed_fails].
Qed.

(** What a resolver may answer of its own: that discovery failed. *)
Definition resolver_ok (keys : WBAKeyResolver) : Prop :=
  ∀ origin kid e, keys origin kid = Err (ResolveWBA e) → ∃ reason, e = discoveryFailure reason.

(** The request passes the checks that come before the signature base, which cannot be built
    from what it covers. *)
Definition malformed_cover (o : WBAVerifyOptions) (keys : WBAKeyResolver) (now : Z) (raw : string) (r : Request) (f : WBAFields) (body : string) : Prop :=
  ∃ url nonce origin names k, wba_target o r raw (f_label f) = Ok url ∧ wba_identity f now = Ok (nonce, origin) ∧
    wba_covered (f_label f) body (f_member f) = Ok names ∧
    wba_key keys origin (default "" (stringParam (member_params (f_member f)) "keyid")) (f_label f) = Ok k ∧
    malformed_base (Method r) url (ReqHeader r) (f_member f).

Lemma wba_steps_refused o keys r raw f now body origin keyID :
  resolver_ok keys →
  fails (refused_with 403) (wba_target o r raw (f_label f)) ∧ fails (refused_with 403) (wba_identity f now) ∧
  fails (refused_with 403) (wba_covered (f_label f) body (f_member f)) ∧ fails (refused_with 403) (wba_key keys origin keyID (f_label f)).
Proof.
  intros Hk. split_and!; [unfold wba_target; fails|unfold wba_identity, wbaWindow; fails|unfold wba_covered; fails|].
  unfold wba_key. destruct (keys origin keyID) as [[k|]|[e|why]] eqn:E; [fails..| |fails].
  apply fails_Err, with_label_required. apply Hk in E as [reason ->]. by split_and!.
Qed.

Lemma crypto_refused member sig k base :
  fails (refused_with 403) (wbaVerifyCrypto member (MItem (MkItem (sfBinary sig) [])) k base).
Proof. unfold wbaVerifyCrypto, wbaKeyAlgorithm. cbv zeta. fails. Qed.

(** A check before the base fails. *)
Lemma early {A} (m : result WBAError A) (Q : Prop) :
  fails (refused_with 403) m → (∀ e, m = Err e → ¬ Q) → fails (λ e, refused_with 400 e ∧ Q ∨ refused_with 403 e ∧ ¬ Q) m.
Proof. intros H Hn e He. right. split; [by apply H|by eapply Hn]. Qed.

Lemma wba_check_refused o keys now raw r f body :
  wba_fields (ReqHeader r) = Ok f → resolver_ok keys →
  fails (λ e, refused_with 400 e ∧ malformed_cover o keys now raw r f body ∨ refused_with 403 e ∧ ¬ malformed_cover o keys now raw r f body)
    (wba_check o keys now raw r f body).
Proof.
  intros (_ & sig & Hsig)%wba_fields_read Hk. unfold wba_check. cbv zeta. rewrite Hsig.
  set (keyID := default "" (stringParam (member_params (f_member f)) "keyid")).
  pose proof (λ origin, wba_steps_refused o keys r raw f now body origin keyID Hk) as Hs.
  apply fails_bind; [apply early; [apply (Hs "")|]; intros e He (url & ? & ? & ? & ? & ? & _); congruence|]. intros url Ht.
  apply fails_bind; [apply early; [apply (Hs "")|]; intros e He (? & ? & ? & ? & ? & _ & ? & _); congruence|]. intros [nonce origin] Hi.
  apply fails_bind; [apply early; [apply (Hs "")|]; intros e He (? & ? & ? & ? & ? & _ & _ & ? & _); congruence|]. intros names Hc.
  apply fails_bind; [apply early; [apply (Hs origin)|]; intros e He (? & ? & ? & ? & ? & _ & Hi' & _ & Hk' & _)|].
  { rewrite Hi in Hi'. injection Hi' as <- <-. fold keyID in Hk'. congruence. }
  intros k Hkey.
  assert (malformed_cover o keys now raw r f body ↔ malformed_base (Method r) url (ReqHeader r) (f_member f)) as Hiff.
  { unfold malformed_cover. split; [|intros H; by exists url, nonce, origin, names, k].
    intros (url' & ? & ? & ? & ? & Ht' & _ & _ & _ & H). by assert (url' = url) as -> by congruence. }
  apply fails_bind; [|intros base Hb].
  { pose proof (base_refused (Method r) url (ReqHeader r) (f_member f)) as H. destruct (wbaSignatureBase _ _ _ _ _) as [base|e]; [apply fails_Ok|].
    apply fails_Err. rewrite Hiff. destruct (H e eq_refl) as [[? ?]|[? ?]]; [left|right]; (split; [by apply with_label_required|done]). }
  assert (¬ malformed_cover o keys now raw r f body) as Hn.
  { rewrite Hiff. intros (u & before & c & after & Hu & Hl & _ & Hm). apply labelled_Ok in Hb. unfold wbaSignatureBase in Hb. rewrite Hu in Hb. cbn [opt_err mbind result_bind] in Hb.
    apply bind_Ok in Hb as (lines & Hb & _). rewrite Hl in Hb. apply component_lines_Ok in Hb. by rewrite malformed_fails in Hb. }
  apply (fails_impl (refused_with 403)); [|by right]. apply fails_bind; [apply fails_labelled, crypto_refused|]. intros alg _. fails.
Qed.

(** The header asks for a signature under the error's label that covers what the verifier
    requires of a body that is there or not as the error says, with the nonce to use if one is
    given. *)
Definition invites (e : WBAError) (nonce : string) (h : Header) : Prop :=
  ∃ m, h = [(acceptSignatureHeader, [serialize_dict [(acceptLabel e, m)]])] ∧ dict_ok [(acceptLabel e, m)] ∧ tagged m = true ∧
    (nonce ≠ "" → stringParam (member_params m) "nonce" = Some nonce) ∧
    ∀ body, (body = "" ↔ noBody e = true) → is_ok (wba_covered (acceptLabel e) body m) = true.

Lemma isValidLabel_key l : isValidLabel l = true → key_ok l = true.
Proof.
  unfold isValidLabel, key_ok. destruct l as [|c l]; [done|]. intros [Hc Hl]%andb_true_iff. cbn [starts all_bytes].
  apply (all_bytes_impl SigInput.label_char key_char) in Hl; [|intros d; by destruct d as [[] [] [] [] [] [] [] []]].
  rewrite Hl, andb_true_r. revert Hc. by destruct c as [[] [] [] [] [] [] [] []].
Qed.

Lemma acceptLabel_key e : key_ok (acceptLabel e) = true.
Proof. unfold acceptLabel. destruct (bool_decide _); [done|]. destruct (isValidLabel _) eqn:E; [by apply isValidLabel_key|done]. Qed.

Lemma plain_ok name : all_bytes sf_char name = true → item_ok (plain name).
Proof. intros H. split; [done|apply params_ok_nil]. Qed.
Lemma agent_component_ok label : key_ok label = true → item_ok (agent_component label).
Proof. intros H. split; [done|]. split; [apply NoDup_singleton|]. apply Forall_singleton. split; [done|]. by apply sf_key. Qed.

Lemma wba_components_ok label body : key_ok label = true → Forall item_ok (wba_components label body).
Proof.
  intros H. apply Forall_app. split; [repeat constructor; by apply plain_ok|]. apply Forall_app.
  split; [destruct body; repeat constructor; by apply plain_ok|]. apply Forall_singleton. by apply agent_component_ok.
Qed.

Lemma serialize_plain name : escape_string name = name → serialize_item (plain name) = quoted name.
Proof. intros H. unfold serialize_item, plain. cbn [iValue iParams serialize_bare serializeParams]. by rewrite H, sapp_nil_r. Qed.

Lemma serialize_agent label : serialize_item (agent_component label) = quoted "signature-agent" +:+ ";key=" +:+ serialize_bare (sfString label).
Proof. unfold serialize_item, agent_component. cbn [iValue iParams serializeParams pKey pValue]. by rewrite sapp_nil_r. Qed.

(** The components of a signature cover what is required of its content. *)
Lemma wba_components_cover label content ps :
  key_ok label = true →
  wba_covered label content (MInner (wba_components label (negb (bool_decide (content = "")))) ps) =
    Ok (map serialize_item (wba_components label (negb (bool_decide (content = ""))))).
Proof.
  intros Hk. unfold wba_covered. cbv zeta. cbn [member_list]. set (l := wba_components _ _). 
  assert (NoDup (map serialize_item l)) as Hnd.
  { apply NoDup_fmap_2_strong; [|unfold l, wba_components; case_bool_decide; cbn; repeat (constructor; [rewrite ?elem_of_cons, elem_of_nil; naive_solver|]); constructor].
    pose proof (wba_components_ok label (negb (bool_decide (content = ""))) Hk) as Hok. rewrite Forall_forall in Hok.
    intros x y Hx Hy E. apply serialize_item_inj; auto. }
  rewrite bool_decide_true by done. cbn [guard_err mbind result_bind].
  assert (forallb (λ id, bool_decide (id ∈ map serialize_item l)) (required_components label content) = true) as ->; [|done].
  rewrite forallb_forall. intros id Hid%list_elem_of_In. apply bool_decide_eq_true. unfold l, wba_components, required_components in *.
  rewrite !map_app. cbn [map]. rewrite serialize_agent, !serialize_plain by done.
  case_bool_decide; cbn [negb map]; rewrite ?serialize_plain by done; rewrite !elem_of_app in *; tauto.
Qed.

Lemma accept_invites e nonce :
  nonce = "" ∨ validWBANonce nonce = true →
  invites e nonce (HeaderSet [] acceptSignatureHeader (acceptSignatureValue (acceptLabel e) (negb (noBody e)) nonce)).
Proof.
  intros Hn. pose proof (acceptLabel_key e) as Hk. unfold acceptSignatureValue. set (nv := if bool_decide (nonce = "") then sfTrue else sfString nonce).
  set (ps := [MkParam "created" sfTrue; _; _; _; _; _]). exists (MInner (wba_components (acceptLabel e) (negb (noBody e))) ps). split_and!.
  - done.
  - split; [apply NoDup_singleton|]. apply Forall_singleton. split; [done|]. cbn [snd member_ok]. split; [by apply wba_components_ok|].
    split; [by vm_compute; repeat (constructor; [rewrite ?elem_of_cons, elem_of_nil; naive_solver|]); constructor|].
    repeat constructor; try done. cbn [pValue]. unfold nv. destruct (bool_decide_reflect (nonce = "")) as [|Hne]; [done|].
    destruct Hn as [|(b & _ & Hb)%validWBANonce_spec]; [done|]. unfold RawURLEncode, StdEncode in Hb.
    destruct Hb as [-> | ->]; (eapply all_bytes_impl; [|apply EncodeToString_chars]); intros c Hc; destruct c as [[] [] [] [] [] [] [] []]; done.
  - done.
  - intros Hne. unfold stringParam. assert (sfParamValue ps "nonce" = Some nv) as E by done. cbn [member_params]. rewrite E. unfold nv. by rewrite bool_decide_false.
  - intros body Hb. assert (negb (noBody e) = negb (bool_decide (body = ""))) as ->.
    { f_equal. case_bool_decide as E; [by apply Hb|]. destruct (noBody e); [|done]. by destruct E; apply Hb. }
    by rewrite wba_components_cover.
Qed.

Context {St : Type} `{RS : ReplayStore St, RSS : !ReplayStoreSpec St, RC : !ReplayClaimer St}.

(** *** What the store answers *)

(** The nonce is live when it is looked up, or another request claims it in between. *)
Definition nonce_replayed (st : St) (seenAt claimAt : Time) (now : Z) (c : WBAChecked) : Prop :=
  let id := wbaReplayIdentity (k_origin c) in
  let st1 := (Seen st seenAt id (k_nonce c)).2 in
  (∃ x, live_until st id (k_nonce c) = Some x ∧ (seenAt ≤ x)%Z) ∨
  HitCap st1 id = false ∧ ∃ claim, try_claim = Some claim ∧ (claim st1 claimAt id (k_nonce c) (wba_ttl (k_expires c) now)).1 = ReplayReplayed.

(** The nonce is not live, and the identity has no room for it. *)
Definition store_full (st : St) (seenAt claimAt : Time) (now : Z) (c : WBAChecked) : Prop :=
  let id := wbaReplayIdentity (k_origin c) in
  let st1 := (Seen st seenAt id (k_nonce c)).2 in
  (∀ x, live_until st id (k_nonce c) = Some x → (x < seenAt)%Z) ∧
  (HitCap st1 id = true ∨
   (∃ claim, try_claim = Some claim ∧ (claim st1 claimAt id (k_nonce c) (wba_ttl (k_expires c) now)).1 = ReplayCapacity) ∨
   try_claim = None ∧ (Insert st1 claimAt id (k_nonce c) (wba_ttl (k_expires c) now)).1 = false).

Lemma wba_record_answer st seenAt claimAt now c :
  (wba_record st seenAt claimAt now c).1 = Err (wbaReplayed (k_label c)) ∧ nonce_replayed st seenAt claimAt now c ∨
  (wba_record st seenAt claimAt now c).1 = Err (over_capacity (k_label c)) ∧ store_full st seenAt claimAt now c ∨
  (wba_record st seenAt claimAt now c).1 = Ok () ∧ ¬ nonce_replayed st seenAt claimAt now c ∧ ¬ store_full st seenAt claimAt now c.
Proof using RSS.
  unfold wba_record, nonce_replayed, store_full. cbv zeta. set (id := wbaReplayIdentity _). set (ttl := wba_ttl _ _).
  pose proof (Seen_reports st seenAt id (k_nonce c)) as Hseen. destruct (Seen st seenAt id (k_nonce c)) as [seen st1]. cbn [fst snd] in *.
  destruct (live_until st id (k_nonce c)) as [x|] eqn:El; [destruct (seenAt <=? x)%Z eqn:Ex|]; subst seen.
  { left. apply Z.leb_le in Ex. split; [done|]. left. by exists x. }
  all: (assert (∀ x, live_until st id (k_nonce c) = Some x → (x < seenAt)%Z) as Hdead by (intros y Hy; rewrite El in Hy; try done; injection Hy as <-; by apply Z.leb_gt)).
  all: rewrite <- El; clear El; destruct (HitCap st1 id) eqn:Eh; [right; left; split; [done|]; split; [done|by left]|].
  all: destruct try_claim as [claim|] eqn:Ec; [destruct (claim _ _ _ _ _) as [[] st2] eqn:Ea|destruct (Insert _ _ _ _ _) as [[] st2] eqn:Ea]; cbn [fst].
  all: try (left; split; [done|]; right; split; [done|]; exists claim; by rewrite Ea).
  all: try (right; left; split; [done|]; split; [done|]; right; first [left; exists claim; by rewrite Ea|right; by rewrite ?Ea]).
  all: right; right; (split; [done|]); (split; [intros [(y & Hy & Hle)|(_ & claim' & [= <-] & Hc)]|intros (_ & [H|[(claim' & [= <-] & Hc)|[H Hc]]])]);
    try (specialize (Hdead _ Hy); lia); try done; rewrite ?Ea in Hc; done.
Qed.

(** *** Causes and answers *)

Inductive refusal := Malformed | Unauthentic | Replayed | NoRoom.

(** The request passes every check before the store's. *)
Definition passes (o : WBAVerifyOptions) (keys : WBAKeyResolver) (now : Z) (raw : string) (r : Request) (f : WBAFields) (body : string) (c : WBAChecked) : Prop :=
  wba_fields (ReqHeader r) = Ok f ∧ (∃ kept, readAndReplaceBody (Body r) (wba_limit o) = Ok (body, kept)) ∧
  wba_check o keys now raw r f body = Ok c.

(** Malformed: the header fields, what the signature covers, or the body of a request that is
    otherwise accepted.  Unauthentic: not malformed, and it fails a check before the store's. *)
Definition caused (o : WBAVerifyOptions) (keys : WBAKeyResolver) (st : St) (now : Z) (seenAt claimAt : Time) (raw : string) (r : Request)
    (why : refusal) : Prop :=
  match why with
  | Malformed =>
      malformed_fields (ReqHeader r) ∨
      (∃ f body kept, wba_fields (ReqHeader r) = Ok f ∧ readAndReplaceBody (Body r) (wba_limit o) = Ok (body, kept) ∧
         malformed_cover o keys now raw r f body) ∨
      (∃ f body c, passes o keys now raw r f body c ∧ ¬ nonce_replayed st seenAt claimAt now c ∧ ¬ store_full st seenAt claimAt now c ∧
         TrimSpace body ≠ "" ∧ is_ok (Validate body 0) = false)
  | Unauthentic =>
      ¬ malformed_fields (ReqHeader r) ∧
      ∀ f, wba_fields (ReqHeader r) = Ok f → ∀ body kept, readAndReplaceBody (Body r) (wba_limit o) = Ok (body, kept) →
        is_ok (wba_check o keys now raw r f body) = false ∧ ¬ malformed_cover o keys now raw r f body
  | Replayed => ∃ f body c, passes o keys now raw r f body c ∧ nonce_replayed st seenAt claimAt now c
  | NoRoom => ∃ f body c, passes o keys now raw r f body c ∧ store_full st seenAt claimAt now c
  end.

Definition answered (why : refusal) (e : WBAError) (rand : option string) : Prop :=
  match why with
  | Malformed => eStatus e = 400%Z ∧ ResponseHeader e rand = []
  | Unauthentic => eStatus e = 403%Z ∧ invites e "" (ResponseHeader e rand)
  | Replayed => eStatus e = 429%Z ∧ invites e (newWBANonce rand) (ResponseHeader e rand)
  | NoRoom => eStatus e = 429%Z ∧ ResponseHeader e rand = [("Retry-After", ["60"])]
  end.

(** The error of each cause, before the verifier notes whether there is a body. *)
Definition error_of (why : refusal) (e : WBAError) : Prop :=
  match why with
  | Malformed => refused_with 400 e
  | Unauthentic => refused_with 403 e
  | Replayed => ∃ label, e = wbaReplayed label
  | NoRoom => ∃ label, e = over_capacity label
  end.

Lemma configured_refused o keys st now seenAt claimAt raw r left e kept st' :
  resolver_ok keys → verify_configured o keys st now seenAt claimAt raw r left = (Err e, kept, st') →
  (∃ why, caused o keys st now seenAt claimAt raw r why ∧ error_of why e) ∧
  (kept = Body r ∨ ∀ body kept', readAndReplaceBody (Body r) (wba_limit o) = Ok (body, kept') → kept = kept').
Proof using RSS.
  intros Hk. unfold verify_configured. destruct (wba_fields (ReqHeader r)) as [f|ef] eqn:Ef.
  2: { intros [= -> <- _]. split; [|by left].
       destruct (wba_fields_refused _ _ Ef) as [[He Hm]|[He Hm]]; [exists Malformed|exists Unauthentic]; (split; [|done]); [by left|].
       split; [done|]. intros f. by rewrite Ef. }
  pose proof (wba_fields_read _ _ Ef) as [Hm _].
  destruct (readAndReplaceBody (Body r) (wba_limit o)) as [[body kept']|] eqn:Eb.
  2: { intros [= <- <- _]. split; [|right; by intros]. exists Unauthentic. split; [|by split_and!]. split; [done|]. intros f' _ body kept'. by rewrite Eb. }
  pose proof (wba_check_refused o keys now raw r f body Ef Hk) as Hc. destruct (wba_check o keys now raw r f body) as [c|ec] eqn:Ec.
  2: { intros [= -> <- _]. split; [|right; by intros b k [= _ ->]].
       destruct (Hc _ eq_refl) as [[He Hx]|[He Hx]]; [exists Malformed|exists Unauthentic]; (split; [|done]).
       - right; left. by exists f, body, kept'.
       - split; [done|]. intros f' Hf' b k Hb. rewrite Ef in Hf'. rewrite Eb in Hb. injection Hf' as <-. injection Hb as <- <-. by rewrite Ec. }
  assert (passes o keys now raw r f body c) as Hp by (split_and!; [done|by exists kept'|done]).
  pose proof (wba_record_answer st seenAt claimAt now c) as Hr. destruct (wba_record st seenAt claimAt now c) as [claimed st2]. cbn [fst] in Hr.
  intros H. split; [|right; injection H as _ -> _; by intros b k [= _ ->]].
  destruct Hr as [[-> Hr]|[[-> Hr]|[-> [Hr Hf]]]]; cbn [mbind result_bind] in H.
  - injection H as <- _ _. exists Replayed. split; [by exists f, body, c|by eexists].
  - injection H as <- _ _. exists NoRoom. split; [by exists f, body, c|by eexists].
  - injection H as H _ _. unfold wba_json in H. destruct (bool_decide_reflect (TrimSpace body = "")) as [|Hne]; [done|].
    cbn [orb] in H. destruct (is_ok (Validate body 0)) eqn:Ev; [done|]. injection H as <-. exists Malformed. split; [|by split_and!].
    right; right. exists f, body, c. by split_and!.
Qed.

Lemma stake_stake n s : stake n (stake n s) = stake n s.
Proof. revert s. induction n as [|n IH]; intros [|c s]; cbn; [done..|]. by rewrite IH. Qed.

(** Reading again what a read leaves. *)
Lemma read_again b limit content kept :
  (0 < limit)%Z → readAndReplaceBody b limit = Ok (content, kept) →
  ∃ kept', readAndReplaceBody kept limit = Ok (content, kept').
Proof.
  intros Hl. assert (∀ got, (limit <? zlen got)%Z = false → (wrap64 (limit + 1) <= 0)%Z ∧ got = "" ∨ (zlen got <? wrap64 (limit + 1))%Z = true ∨
      got = stake (Z.to_nat (wrap64 (limit + 1))) got → ∃ kept', readAndReplaceBody (BodyData got None) limit = Ok (got, kept')) as Hagain.
  { intros got Hg H. unfold readAndReplaceBody. cbv zeta. destruct (wrap64 (limit + 1) <=? 0)%Z eqn:En.
    - destruct H as [[_ ->]|[H|H]]; [eexists; by rewrite Hg| |].
      + apply Z.ltb_lt in H. apply Z.leb_le in En. unfold zlen in H. lia.
      + apply Z.leb_le in En. replace (Z.to_nat (wrap64 (limit + 1))) with 0 in H by lia. cbn in H. subst got. eexists. by rewrite Hg.
    - destruct (zlen got <? _)%Z eqn:E; [rewrite Hg; by eexists|]. apply Z.leb_gt in En. destruct H as [[? _]|[H|H]]; [lia|done|].
      rewrite <- H, Hg. by eexists. }
  unfold readAndReplaceBody at 1. destruct b as [| |data failure].
  - intros [= <- <-]. by eexists.
  - intros [= <- <-]. apply Hagain; [apply Z.ltb_ge; change (0 <= limit)%Z; lia|]. destruct (Z.le_gt_cases (wrap64 (limit + 1)) 0); [by left|].
    right; left. apply Z.ltb_lt. change (0 < wrap64 (limit + 1))%Z. lia.
  - cbv zeta. destruct (wrap64 (limit + 1) <=? 0)%Z eqn:En; [|destruct (zlen data <? wrap64 (limit + 1))%Z eqn:Ed].
    + destruct (limit <? zlen "")%Z eqn:E; [done|]. intros [= <- <-]. apply Hagain; [done|]. apply Z.leb_le in En. by left.
    + destruct failure; [done|]. destruct (limit <? zlen data)%Z eqn:E; [done|]. intros [= <- <-]. apply Hagain; [done|]. by right; left.
    + destruct (limit <? _)%Z eqn:E; [done|]. intros [= <- <-]. apply Hagain; [done|]. right; right.
      by rewrite stake_stake.
Qed.

Lemma requestHasBody_reads b limit content kept :
  (0 < limit)%Z → readAndReplaceBody b limit = Ok (content, kept) → requestHasBody b limit = negb (bool_decide (content = "")).
Proof.
  intros Hl H. unfold requestHasBody. rewrite (proj2 (Z.leb_gt limit 0)), H by lia. destruct b; [by injection H as <- _..|done].
Qed.

Lemma requestHasBody_limit o b : requestHasBody b (wMaxBodyBytes o) = requestHasBody b (wba_limit o).
Proof. unfold requestHasBody, wba_limit. destruct b; try done. by destruct (wMaxBodyBytes o <=? 0)%Z eqn:E; rewrite ?E. Qed.

(** The answer to an error, whatever is noted of the body. *)
Lemma error_answered why e b rand :
  error_of why e → (∀ bs, rand = Some bs → len bs = wbaNonceBytes) →
  eAuthorization e = false ∧ answered why (with_no_body e b) rand.
Proof.
  intros He Hrand. assert (newWBANonce rand = "" ∨ validWBANonce (newWBANonce rand) = true) as Hfresh.
  { destruct rand as [bs|]; [right|by left]. apply validWBANonce_spec. exists bs. split; [by apply Hrand|by left]. }
  assert (eStatus (with_no_body e b) = eStatus e ∧ eAuthorization (with_no_body e b) = eAuthorization e ∧
    eRevoked (with_no_body e b) = eRevoked e ∧ eReplayed (with_no_body e b) = eReplayed e) as (Es & Ea & Er & Ep) by done.
  pose proof (accept_invites (with_no_body e b)) as Hi. set (e1 := with_no_body e b) in *.
  destruct why; cbn [error_of answered] in *; unfold ResponseHeader; rewrite Es, Ea, Er, Ep.
  - destruct He as (-> & -> & -> & ->). by split_and!.
  - destruct He as (-> & -> & -> & ->). split_and!; [done..|]. apply Hi. by left.
  - destruct He as [label ->]. split_and!; [done..|]. by apply Hi.
  - destruct He as [label ->]. by split_and!.
Qed.

(** C6: every refused request is answered for its cause.  400 without a hint when its header
    fields are malformed, when its signature covers a component that cannot be read, or when a
    request that is otherwise accepted has a body that is not strict JSON.  429, with an
    Accept-Signature that offers a fresh nonce, when it passes every check and its nonce is live
    in the store or claimed by another first; 429 with Retry-After when it passes every check and
    the store has no room for its nonce.  403 when it fails a check otherwise.  The
    Accept-Signature asks, under a usable label, for a signature of exactly the form this
    verifier accepts, body included. *)
Theorem wba_refusal_answers o store now seenAt claimAt raw r left e store' rand :
  (∀ keys, Keys o = Some keys → resolver_ok keys) → (∀ b, rand = Some b → len b = wbaNonceBytes) →
  VerifyWebBotAuthRequest o store now seenAt claimAt raw r left = (Err (WBAFailed e), store') →
  (∃ keys st why, Keys o = Some keys ∧ store = Some st ∧
     caused o keys st (Unix now) seenAt claimAt raw r why ∧ answered why e rand) ∧
  ∀ content kept, readAndReplaceBody (Body r) (wba_limit o) = Ok (content, kept) → (content = "" ↔ noBody e = true).
Proof using RSS.
  intros Hkeys Hrand H. unfold VerifyWebBotAuthRequest in H. destruct (Keys o) as [keys|]; [|done]. destruct store as [st|]; [|done].
  destruct (verify_configured _ _ _ _ _ _ _ _ _) as [[res kept] st'] eqn:Ev. destruct res as [|e0]; [done|]. injection H as He _.
  destruct (configured_refused _ _ _ _ _ _ _ _ _ _ _ _ (Hkeys _ eq_refl) Ev) as [(why & Hc & Herr) Hk].
  pose proof (λ b, error_answered why e0 b rand Herr Hrand) as Ha. rewrite (proj1 (Ha true)) in He. subst e.
  split; [exists keys, st, why; split_and!; [done..|apply Ha]|]. intros content kept' Hb.
  assert (0 < wba_limit o)%Z as Hl by (unfold wba_limit; destruct (wMaxBodyBytes o <=? 0)%Z eqn:E; [done|by apply Z.leb_gt in E]).
  assert (requestHasBody kept (wMaxBodyBytes o) = negb (bool_decide (content = ""))) as ->.
  { rewrite requestHasBody_limit. destruct Hk as [->|Hk]; [by eapply requestHasBody_reads|]. rewrite (Hk _ _ Hb).
    destruct (read_again _ _ _ _ Hl Hb) as [k2 H2]. by eapply requestHasBody_reads. }
  cbn. rewrite negb_involutive. by rewrite bool_decide_eq_true.
Qed.

End Refusals.

(** ** What the signer signs is accepted *)

Section Signed.
Context `{RT : Runtime, CR : Crypto, SC : SignCrypto, JO : Jose}.

Lemma JWKThumbprint_with_kid k kid use : JWKThumbprint (with_kid k kid use) = JWKThumbprint k.
Proof. done. Qed.

Lemma PublicDirectoryKey_Ok priv k :
  PublicDirectoryKey priv = Ok k → JWKThumbprint k = Some (Kid k) ∧ ∃ sk, priv = EdPriv sk.
Proof.
  destruct priv as [sk|c sk|]; cbn [PublicDirectoryKey]; try done. cbv zeta. destruct (negb _); [done|]. intros H.
  apply bind_Ok in H as (jwk & _ & H). apply bind_Ok in H as (kid & Hk%opt_err_Ok & H). injection H as <-.
  rewrite JWKThumbprint_with_kid. by split; [|exists sk].
Qed.

(** A signed request, opened up. *)
Lemma SignWebBotAuthRequest_Ok priv o now rand r r' :
  SignWebBotAuthRequest priv o now rand r = (Ok (), r') → ∃ origin k content nonce base sig,
  let body := default "" content in
  let created := if (wCreatedOverride o =? 0)%Z then Unix now else wCreatedOverride o in
  let member := wba_member o created nonce (Kid k) AlgEd25519 (negb (bool_decide (body = ""))) in
  webBotAuthOrigin (AgentOrigin o) = Some origin ∧ wba_sign_key priv o r = Ok (k, AlgEd25519) ∧ wba_body (Body r) = Ok content ∧
  (if bool_decide (wNonceOverride o = "") then RawURLEncode <$> rand = Some nonce else nonce = wNonceOverride o) ∧ validWBANonce nonce = true ∧
  wbaSignatureBase (Method r) (sentTargetURI r) (wba_staged o origin body (ReqHeader r)) member false = Ok base ∧ signWithKey priv base = Ok sig ∧
  r' = MkRequest (Method r) (ReqURL r) (Host r) (wba_signed_headers o origin body member sig (ReqHeader r))
         (ContentLength (buffered r content)) (Body (buffered r content)).
Proof.
  unfold SignWebBotAuthRequest, signWebBotAuthRequest. destruct (webBotAuthOrigin _) as [origin|]; [|done].
  destruct (wba_sign_key priv o r) as [[k alg]|] eqn:Ek; [|done]. destruct (wba_body _) as [content|]; [|done].
  assert (alg = AlgEd25519) as ->.
  { unfold wba_sign_key in Ek. do 4 (apply bind_Ok in Ek as (? & _ & Ek)). apply bind_Ok in Ek as (k' & _ & Ek).
    destruct (wbaKeyAlgorithm k') as [a|] eqn:Ea; [|done]. apply wbaKeyAlgorithm_Ok in Ea as [_ ->]. by injection Ek as _ <-. }
  destruct (wba_sign_content _ _ _ _ _ _ _ _ _) as [[member sig]|] eqn:Es; [|done]. intros [= <-].
  unfold wba_sign_content in Es. cbv zeta in Es. apply bind_Ok in Es as (nonce & Hn & Es). apply bind_Ok in Es as (u1 & Hv%guard_err_Ok & Es).
  apply bind_Ok in Es as (u2 & _ & Es). assert (ReqHeader (buffered r content) = ReqHeader r ∧ Method (buffered r content) = Method r ∧
    sentTargetURI (buffered r content) = sentTargetURI r ∧ ReqURL (buffered r content) = ReqURL r ∧ Host (buffered r content) = Host r) as (E1 & E2 & E3 & E4 & E5) by (by destruct content).
  rewrite E1, E2, E3 in Es. destruct (wbaSignatureBase _ _ _ _ _) as [base|] eqn:Eb; [|done]. apply bind_Ok in Es as (sg & Hsg & Es). injection Es as <- <-.
  exists origin, k, content, nonce, base, sg. cbv zeta. rewrite E1, E2, E4, E5. split_and!; try done.
  destruct (bool_decide (wNonceOverride o = "")); [|congruence]. by destruct rand; [injection Hn as <-|discriminate Hn].
Qed.

Lemma component_lines_ext v1 v2 l : Forall (λ c, v1 c = v2 c) l → component_lines v1 l = component_lines v2 l.
Proof. induction 1 as [|c l Hc Hl IH]; [done|]. cbn [component_lines]. by rewrite Hc, IH. Qed.

(** The base reads no header but the covered ones. *)
Lemma wbaSignatureBase_ext m url h1 h2 label body ps :
  (∀ name, name ∈ [componentContentType; componentContentDigst; "signature-agent"] → HeaderValues h1 name = HeaderValues h2 name) →
  wbaSignatureBase m url h1 (MInner (wba_components label body) ps) false = wbaSignatureBase m url h2 (MInner (wba_components label body) ps) false.
Proof.
  intros H. unfold wbaSignatureBase. destruct (ParseURL url) as [u|]; [|done]. cbn [opt_err mbind result_bind member_list].
  rewrite (component_lines_ext _ (component_value m url u h2 false)); [done|]. unfold wba_components.
  assert (∀ name ps, name ∈ [componentContentType; componentContentDigst; "signature-agent"] → field_value h1 name ps = field_value h2 name ps) as Hf
    by (intros name qs Hn; unfold field_value; by rewrite (H name Hn)).
  apply Forall_app. split; [by repeat constructor|]. apply Forall_app. split.
  - destruct body; [|constructor]. repeat constructor; [apply (Hf componentContentType)|apply (Hf componentContentDigst)]; [by left|by right; left].
  - apply Forall_singleton. apply (Hf "signature-agent"). by right; right; left.
Qed.

Lemma digest_header_dict body : computeSHA256DigestHeaderForEncoding body BinaryEncodingRFC8941 = serialize_dict [("sha-256", MItem (MkItem (sfBinary (Sha256 body)) []))].
Proof.
  unfold serialize_dict, serialize_entry, serialize_item. cbn [map Join fst snd iValue iParams serialize_bare serializeParams].
  rewrite sapp_nil_r. unfold computeSHA256DigestHeaderForEncoding, encodeBinary. by rewrite !sapp_assoc.
Qed.

Lemma digest_header_matches body :
  (Z.of_nat (len (computeSHA256DigestHeaderForEncoding body BinaryEncodingRFC8941)) ≤ maxStructuredFieldLen)%Z →
  wbaDigestMatches (computeSHA256DigestHeaderForEncoding body BinaryEncodingRFC8941) body = true.
Proof.
  rewrite digest_header_dict. intros Hl. unfold wbaDigestMatches. rewrite serialize_dict_parse; [|split; [apply NoDup_singleton|by repeat constructor]|done|done].
  cbn [mbind option_bind]. unfold dict_get. cbn [List.find fst]. rewrite bool_decide_true by done. cbn [fmap option_fmap option_map snd]. by apply bool_decide_true.
Qed.

(** The headers of a signed request. *)
Lemma signed_header_values o origin body member sig h :
  let h' := wba_signed_headers o origin body member sig h in let label := effective_label o in
  HeaderValues h' signatureHeader = [serialize_dict [(label, MItem (MkItem (sfBinary sig) []))]] ∧
  HeaderValues h' signatureInputHeader = [serialize_dict [(label, member)]] ∧
  HeaderValues h' signatureAgentHeader = [serialize_dict [(label, MItem (plain origin))]] ∧
  HeaderValues h' contentTypeHeader = HeaderValues h contentTypeHeader ∧
  HeaderValues h' contentDigestHeader =
    (if bool_decide (body = "") then HeaderValues h contentDigestHeader else [computeSHA256DigestHeaderForEncoding body BinaryEncodingRFC8941]) ∧
  ∀ name, name ∈ [componentContentType; componentContentDigst; "signature-agent"] → HeaderValues h' name = HeaderValues (wba_staged o origin body h) name.
Proof.
  cbv zeta. unfold wba_signed_headers, wba_staged. split_and!.
  1-5: case_bool_decide; rewrite !HeaderValues_set;
    repeat match goal with |- context [bool_decide (CanonicalHeaderKey ?a = CanonicalHeaderKey ?b)] =>
      let v := eval vm_compute in (bool_decide (CanonicalHeaderKey a = CanonicalHeaderKey b)) in
      replace (bool_decide (CanonicalHeaderKey a = CanonicalHeaderKey b)) with v by (vm_compute; reflexivity) end; reflexivity.
  intros name Hn. rewrite !elem_of_cons, elem_of_nil in Hn.
  destruct Hn as [->|[->|[->|[]]]]; by rewrite !HeaderValues_set_ne by (vm_compute; discriminate).
Qed.

Lemma sf_encoded url pad s : all_bytes sf_char (EncodeToString url pad s) = true.
Proof. eapply all_bytes_impl; [|apply EncodeToString_chars]. intros c Hc. by destruct c as [[] [] [] [] [] [] [] []]. Qed.

Lemma sf_nonce nonce : validWBANonce nonce = true → all_bytes sf_char nonce = true.
Proof. intros (b & _ & [-> | ->])%validWBANonce_spec; apply sf_encoded. Qed.

Lemma sf_thumbprint k kid : JWKThumbprint k = Some kid → all_bytes sf_char kid = true.
Proof.
  unfold JWKThumbprint. match goal with |- context [mbind _ ?m] => destruct m as [t|]; [|done] end. cbn [mbind option_bind].
  destruct (JoseThumbprint t); [|done]. intros [= <-]. apply sf_encoded.
Qed.

Lemma wba_member_ok o created nonce kid alg body :
  key_ok (effective_label o) = true → (Z.abs created <= sfIntMax)%Z →
  (Z.abs (wrap64 (created + Z.quot (effective_window o) Second)) <= sfIntMax)%Z →
  all_bytes sf_char nonce = true → all_bytes sf_char kid = true → all_bytes sf_char alg = true →
  member_ok (wba_member o created nonce kid alg body).
Proof.
  intros Hk Hc He Hn Hkid Ha. split; [by apply wba_components_ok|]. split.
  - cbn. repeat (constructor; [rewrite ?elem_of_cons, elem_of_nil; naive_solver|]). constructor.
  - repeat (constructor; [split; [done|]|]); cbn [pValue bare_ok]; first [done|by apply Z.leb_le].
Qed.

(** The verifier reads the fields back. *)
Lemma signed_fields o origin body member sig h :
  let h' := wba_signed_headers o origin body member sig h in let label := effective_label o in
  key_ok label = true → member_ok member → inner member = true → tagged member = true → all_bytes sf_char origin = true →
  (length (HeaderValues h contentTypeHeader) ≤ 1)%nat → containsTopLevelComma (HeaderGet h contentTypeHeader) = false →
  (body = "" → length (HeaderValues h contentDigestHeader) ≤ 1)%nat →
  (∀ name, name ∈ [signatureHeader; signatureInputHeader; signatureAgentHeader] → Z.of_nat (len (HeaderGet h' name)) ≤ maxStructuredFieldLen)%Z →
  wba_fields h' = Ok (MkFields label member [(label, MItem (MkItem (sfBinary sig) []))] [(label, MItem (plain origin))]).
Proof.
  cbv zeta. intros Hk Hm Hin Htag Ho Hct Hcomma Hcd Hlen. set (h' := wba_signed_headers _ _ _ _ _ _) in *. set (label := effective_label o) in *.
  destruct (signed_header_values o origin body member sig h) as (V1 & V2 & V3 & V4 & V5 & _). fold h' label in V1, V2, V3, V4, V5.
  assert (∀ m, member_ok m → dict_ok [(label, m)]) as Hdict by (intros m Hm'; split; [apply NoDup_singleton|by apply Forall_singleton]).
  assert (∀ name m, HeaderValues h' name = [serialize_dict [(label, m)]] → member_ok m → name ∈ [signatureHeader; signatureInputHeader; signatureAgentHeader] →
    parseSFDictionary (HeaderGet h' name) = Some [(label, m)] ∧ HeaderGet h' name ≠ "") as Hparse.
  { intros name m Hv Hm' Hn. assert (HeaderGet h' name = serialize_dict [(label, m)]) as E by (unfold HeaderGet; by rewrite Hv).
    specialize (Hlen name Hn). rewrite E in *. assert (parseSFDictionary (serialize_dict [(label, m)]) = Some [(label, m)]) as Ep.
    { apply serialize_dict_parse; [by apply Hdict|done|done]. }
    split; [done|]. intros E0. by rewrite E0 in Ep. }
  destruct (Hparse signatureHeader _ V1) as [P1 N1]; [split; [done|apply params_ok_nil]|by left|].
  destruct (Hparse signatureInputHeader _ V2) as [P2 N2]; [done|by right; left|].
  destruct (Hparse signatureAgentHeader _ V3) as [P3 N3]; [by apply plain_ok|by right; right; left|].
  unfold wba_fields. assert (wbaHeaderPrecheck h' = Ok ()) as ->.
  { unfold wbaHeaderPrecheck, single_line_headers. cbn [List.find]. rewrite V1, V2, V3, V4, V5. change (1 <? length [?x])%nat with false. cbv iota.
    assert ((1 <? length (HeaderValues h contentTypeHeader))%nat = false) as -> by (by apply Nat.ltb_ge).
    assert ((1 <? length (if bool_decide (body = "") then HeaderValues h contentDigestHeader else [computeSHA256DigestHeaderForEncoding body BinaryEncodingRFC8941]))%nat = false) as ->
      by (apply Nat.ltb_ge; case_bool_decide; [by apply Hcd|done]).
    assert (HeaderGet h' contentTypeHeader = HeaderGet h contentTypeHeader) as -> by (unfold HeaderGet; by rewrite V4).
    rewrite Hcomma. cbn [negb guard_err mbind result_bind]. by rewrite !bool_decide_false by done. }
  cbn [mbind result_bind]. rewrite P2. cbn [opt_err mbind result_bind wba_select snd]. rewrite Hin, Htag. cbn [negb Nat.eqb mbind result_bind].
  rewrite P1. cbn [opt_err mbind result_bind]. rewrite bool_decide_false by done. rewrite P3. cbn [opt_err mbind result_bind].
  assert (sameKeys (dict_keys [(label, member)]) (dict_keys [(label, MItem (MkItem (sfBinary sig) []))]) = true) as ->.
  { unfold sameKeys, dict_keys. cbn [map fst length forallb Nat.eqb andb]. rewrite andb_true_r. apply bool_decide_eq_true. by left. }
  unfold wbaFieldsWellFormed. cbn [forallb snd]. by rewrite Hin.
Qed.

Lemma wbaWindow_inside o created nonce kid alg body now label :
  let expires := (created + Z.quot (effective_window o) Second)%Z in
  in_int64 (now - skewSeconds) → in_int64 (now + skewSeconds) → (Z.abs created <= sfIntMax)%Z →
  (Second <= effective_window o <= wbaMaxWindowSeconds * Second)%Z → len kid = wbaThumbprintLen →
  (created <= now + skewSeconds)%Z → (now - skewSeconds <= expires)%Z →
  wrap64 expires = expires ∧ (Z.abs expires <= sfIntMax + 300)%Z ∧
  wbaWindow (wba_member o created nonce kid alg body) now false label = Ok ().
Proof.
  cbv zeta. intros Hlo Hhi Hc Hw Hkid H1 H2. assert (1 <= Z.quot (effective_window o) Second <= 300)%Z as Hq.
  { rewrite Z.quot_div_nonneg by (unfold Second in *; lia). unfold Second, wbaMaxWindowSeconds in *.
    split; [apply Z.div_le_lower_bound; lia|apply Z.div_le_upper_bound; lia]. }
  assert (wrap64 (created + Z.quot (effective_window o) Second) = created + Z.quot (effective_window o) Second)%Z as Hwrap.
  { apply wrap64_id. unfold in_int64, int64_min, int64_max, sfIntMax in *. lia. }
  split_and!; [done|unfold sfIntMax in *; lia|]. unfold wbaWindow, wba_member. rewrite Hwrap. cbv zeta.
  change (stringParam (member_params (MInner ?l ?ps)) "tag") with (Some ProfileTagWebBotAuth).
  set (expires := (created + _)%Z) in *. change (intParam (member_params (MInner ?l (MkParam "created" (sfInteger ?c) :: ?ps))) "created") with (Some c).
  change (intParam (member_params (MInner ?l (?p :: MkParam "expires" (sfInteger ?c) :: ?ps))) "expires") with (Some c).
  change (stringParam (member_params (MInner ?l (?p :: ?q :: ?n :: MkParam "keyid" (sfString ?c) :: ?ps))) "keyid") with (Some c).
  cbn [opt_err mbind result_bind negb]. rewrite !wrap64_id, Hkid by done.
  assert ((expires <=? created)%Z || (true && (wbaMaxWindowSeconds <? expires - created)%Z) = false) as -> by (unfold expires, wbaMaxWindowSeconds; lia).
  assert ((now + skewSeconds <? created)%Z || (expires <? now - skewSeconds)%Z = false) as -> by lia. by rewrite Nat.eqb_refl.
Qed.

Context {St : Type} `{RS : ReplayStore St, RC : ReplayClaimer St}.

(** A request [r], signed by [o] with the directory key [k] of [origin] at [now], and the
    verifier it is sent to. *)
Record wba_deliverable (priv : PrivKey) (o : WBASignOptions) (now : Time) (r : Request) (origin : string) (k : JWK) (content : option string)
    (created : Z) (nonce : string) (opts : WBAVerifyOptions) (keys : WBAKeyResolver) (st : St) (now2 seenAt claimAt : Time) (raw : string) : Prop := {
  dl_origin : webBotAuthOrigin (AgentOrigin o) = Some origin ∧ signatureAgentOrigin origin = Some origin ∧ all_bytes sf_char origin = true;
  dl_key : PublicDirectoryKey priv = Ok k ∧ len (Kid k) = wbaThumbprintLen ∧ keys origin (Kid k) = Ok (Some k) ∧
    ∃ pub, PublicKey k = Some (EdKey pub) ∧ key_pair priv (EdKey pub);
  dl_window : created = (if (wCreatedOverride o =? 0)%Z then Unix now else wCreatedOverride o) ∧
    (Z.abs created <= sfIntMax - 300)%Z ∧ (Second <= effective_window o)%Z ∧
    in_int64 (Unix now2 - skewSeconds) ∧ in_int64 (Unix now2 + skewSeconds) ∧
    (created <= Unix now2 + skewSeconds)%Z ∧ (Unix now2 - skewSeconds <= created + Z.quot (effective_window o) Second)%Z;
  dl_headers : (length (HeaderValues (ReqHeader r) contentTypeHeader) ≤ 1)%nat ∧
    containsTopLevelComma (HeaderGet (ReqHeader r) contentTypeHeader) = false ∧
    (default "" content = "" → (length (HeaderValues (ReqHeader r) contentDigestHeader) ≤ 1)%nat);
  dl_body : wba_body (Body r) = Ok content ∧ (zlen (default "" content) ≤ wba_limit opts < int64_max)%Z ∧ wba_json (default "" content) = Ok ();
  dl_target : wba_target opts r raw (effective_label o) = Ok (sentTargetURI r);
  dl_store : ∀ c, k_origin c = origin → k_nonce c = nonce → (wba_record st seenAt claimAt (Unix now2) c).1 = Ok ();
}.

Lemma readAndReplaceBody_buffered r content limit :
  wba_body (Body r) = Ok content → (zlen (default "" content) ≤ limit < int64_max)%Z →
  ∃ kept, readAndReplaceBody (Body (buffered r content)) limit = Ok (default "" content, kept).
Proof.
  intros Hb [Hl Hm]. assert (∀ d, (zlen d ≤ limit)%Z → ∃ kept, readAndReplaceBody (BodyData d None) limit = Ok (d, kept)) as H.
  { intros d Hd. assert (0 <= zlen d)%Z by (unfold zlen; lia). unfold readAndReplaceBody. cbv zeta. rewrite wrap64_id by (unfold in_int64, int64_min, int64_max in *; lia).
    rewrite (proj2 (Z.leb_gt _ _)), (proj2 (Z.ltb_lt _ _)), (proj2 (Z.ltb_ge _ _)) by lia. by exists (BodyData d None). }
  destruct content as [d|]; [by apply H|]. unfold buffered. destruct (Body r) as [| |d [f|]]; cbn in Hb; try done; eexists; reflexivity.
Qed.

(** The verifier's checks on the request as the signer left it. *)
Lemma signed_check o origin k body created nonce sig method url host h base now opts keys pub raw n b :
  let label := effective_label o in
  let member := wba_member o created nonce (Kid k) AlgEd25519 (negb (bool_decide (body = ""))) in
  let h' := wba_signed_headers o origin body member sig h in
  let f := MkFields label member [(label, MItem (MkItem (sfBinary sig) []))] [(label, MItem (plain origin))] in
  let r := MkRequest method url host h' n b in
  key_ok label = true → validWBANonce nonce = true → signatureAgentOrigin origin = Some origin →
  wbaWindow member now false label = Ok () → wbaKeyAlgorithm k = Ok AlgEd25519 → JWKThumbprint k = Some (Kid k) →
  keys origin (Kid k) = Ok (Some k) → PublicKey k = Some (EdKey pub) →
  wba_target opts r raw label = Ok (sentTargetURI r) →
  wbaSignatureBase method (sentTargetURI r) (wba_staged o origin body h) member false = Ok base →
  (body ≠ "" → Z.of_nat (len (computeSHA256DigestHeaderForEncoding body BinaryEncodingRFC8941)) ≤ maxStructuredFieldLen)%Z →
  len sig = 64 ∧ Ed25519Verify pub base sig = true →
  ∃ c, wba_check opts keys now raw r f body = Ok c ∧ k_origin c = origin ∧ k_nonce c = nonce ∧ k_keyID c = Kid k ∧
    k_label c = label ∧ k_alg c = AlgEd25519.
Proof.
  cbv zeta. set (label := effective_label o). set (member := wba_member o _ _ _ _ _). set (h' := wba_signed_headers _ _ _ _ _ _). set (f := MkFields _ _ _ _). set (r := MkRequest _ _ _ _ _ _).
  intros Hlab Hval Ho2 Hwindow Ealg Hthumb Hk3 Hpub Ht Hbase Hdig [Hsig1 Hsig2].
  pose proof (signed_header_values o origin body member sig h) as (_ & _ & _ & _ & V5 & Vext). cbv zeta in V5, Vext. fold h' in V5, Vext.
  unfold wba_check. change (f_label f) with label. change (f_member f) with member. cbv zeta.
    rewrite Ht. cbn [mbind result_bind].
    assert (wba_identity f now = Ok (nonce, origin)) as ->.
    { unfold wba_identity. cbv zeta. change (f_label f) with label. change (f_member f) with member. rewrite Hwindow. cbn [mbind result_bind].
      change (stringParam (member_params member) "nonce") with (Some nonce). cbn [opt_err mbind result_bind]. rewrite Hval. cbn [guard_err mbind result_bind].
      change (stringParam (member_params member) "alg") with (Some AlgEd25519). rewrite bool_decide_true by done. cbn [guard_err mbind result_bind].
      unfold dict_get. cbn [f_agents f List.find fst]. rewrite bool_decide_true by done. cbn [fmap option_fmap option_map snd plain]. cbn [guard_err mbind result_bind directory_typed sfParamValue List.find fmap option_fmap option_map].
      rewrite Ho2. done. }
    cbn [mbind result_bind]. assert (wba_covered label body member = Ok (map serialize_item (wba_components label (negb (bool_decide (body = "")))))) as -> by (by apply wba_components_cover).
    cbn [mbind result_bind].
    change (stringParam (member_params member) "keyid") with (Some (Kid k)). change (default "" (Some (Kid k))) with (Kid k). unfold wba_key. rewrite Hk3, Hthumb, (bool_decide_true (Some (Kid k) = Some (Kid k))) by done. cbn [guard_err mbind result_bind].
    change (Method r) with method. change (ReqHeader r) with h'.
    assert (wbaSignatureBase method (sentTargetURI r) h' member false = Ok base) as ->.
    { rewrite <- Hbase. unfold member, wba_member. by apply wbaSignatureBase_ext. }
    assert (dict_get (f_signatures f) label = Some (MItem (MkItem (sfBinary sig) []))) as ->.
    { unfold dict_get. cbn [f_signatures f List.find fst]. by rewrite bool_decide_true. }
    cbn [labelled mbind result_bind]. change (default ?d (Some ?m)) with m.
    assert (wbaVerifyCrypto member (MItem (MkItem (sfBinary sig) [])) k base = Ok AlgEd25519) as ->.
    { unfold wbaVerifyCrypto. rewrite Ealg. cbn [mbind result_bind]. assert (sfParamValue (member_params member) "alg" = Some (sfString AlgEd25519)) as -> by done.
      cbv beta iota. rewrite (bool_decide_true (sfString AlgEd25519 = sfString AlgEd25519)) by done. cbn [guard_err mbind result_bind]. unfold verifyWithJWK. rewrite Hpub. unfold verifySignature. rewrite bool_decide_true by done.
      by rewrite Hsig1, Hsig2. }
    cbn [labelled mbind result_bind].
    assert (bool_decide (body = "") || wbaDigestMatches (HeaderGet h' contentDigestHeader) body = true) as ->.
    { destruct (bool_decide_reflect (body = "")) as [|Hne]; [done|]. cbn [orb]. rewrite ?bool_decide_false in V5 by done.
      assert (HeaderGet h' contentDigestHeader = computeSHA256DigestHeaderForEncoding body BinaryEncodingRFC8941) as E by (unfold HeaderGet; by rewrite V5).
      rewrite E. by apply digest_header_matches, Hdig. }
    cbn [guard_err mbind result_bind]. eexists. split; [reflexivity|done].
Qed.

(** C5: what the signer signs, a verifier accepts as the origin's, when it receives the request
    as it was sent, finds the signer's key in that origin's directory, serves the target, has its
    clock in the window, and its store takes the nonce: whatever the label, nonce, method and
    target, for a body that is absent, blank or strict JSON within the verifier's limit, a window
    of a second at least, header fields of one value and structured fields within 64 KiB. *)
Theorem wba_signed_accepted priv o now rand r r' origin k content created nonce opts keys st now2 seenAt claimAt raw left :
  SignWebBotAuthRequest priv o now rand r = (Ok (), r') → request_nonce r' = Some nonce → Keys opts = Some keys →
  wba_deliverable priv o now r origin k content created nonce opts keys st now2 seenAt claimAt raw →
  (∀ name, name ∈ [signatureHeader; signatureInputHeader; signatureAgentHeader; contentDigestHeader] →
    Z.of_nat (len (HeaderGet (ReqHeader r') name)) ≤ maxStructuredFieldLen)%Z →
  ∃ signer, (VerifyWebBotAuthRequest opts (Some st) now2 seenAt claimAt raw r' left).1 = Ok signer ∧
    AgentURL signer = origin ∧ KeyID signer = Kid k ∧ Label signer = effective_label o ∧ SignerAlgorithm signer = AlgEd25519.
Proof.
  intros Hs Hnon Hkeys [(Ho1 & Ho2 & Ho3) (Hk1 & Hk2 & Hk3 & pub & Hpub & Hpair) (-> & Hcr & Hw & Hlo & Hhi & Hc1 & Hc2) (Hct & Hcomma & Hcd) (Hb1 & Hb2 & Hj) Ht Hst] Hlen.
  destruct (SignWebBotAuthRequest_Ok _ _ _ _ _ _ Hs) as (origin' & k' & content' & nonce' & base & sig & Horig & Hsk & Hbody & _ & Hval & Hbase & Hsig & Hr').
  cbv zeta in Hbase, Hr'. rewrite Ho1 in Horig. injection Horig as <-. rewrite Hb1 in Hbody. injection Hbody as <-.
  unfold wba_sign_key in Hsk. apply bind_Ok in Hsk as (u1 & _ & Hsk). apply bind_Ok in Hsk as (u2 & Hlab%guard_err_Ok & Hsk).
  apply bind_Ok in Hsk as (u3 & Hwin%guard_err_Ok & Hsk). apply bind_Ok in Hsk as (u4 & _ & Hsk). apply bind_Ok in Hsk as (k2 & Hk2' & Hsk).
  rewrite Hk1 in Hk2'. injection Hk2' as <-. destruct (wbaKeyAlgorithm k) as [alg|] eqn:Ealg; [|done]. injection Hsk as <- ->.
  apply andb_true_iff in Hwin as [_ Hwin%Z.leb_le]. apply isValidLabel_key in Hlab.
  set (body := default "" content) in *. set (cr := if (_ =? 0)%Z then _ else _) in *. set (label := effective_label o) in *.
  set (member := wba_member o cr nonce' (Kid k) AlgEd25519 _) in *. destruct (PublicDirectoryKey_Ok _ _ Hk1) as [Hthumb (sk & ->)].
  destruct (wbaWindow_inside o cr nonce' (Kid k) AlgEd25519 (negb (bool_decide (body = ""))) (Unix now2) label) as (Hwrap & Hex & Hwindow); [done|done|lia|lia|done|done|done|].
  fold member in Hwindow.
  assert (member_ok member) as Hmem.
  { apply wba_member_ok; [done|lia| |by apply sf_nonce|by eapply sf_thumbprint|done]. rewrite Hwrap. unfold sfIntMax, wbaMaxWindowSeconds, Second in *.
    assert (1 <= Z.quot (effective_window o) 1000000000 <= 300)%Z; [|lia]. rewrite Z.quot_div_nonneg by lia.
    split; [apply Z.div_le_lower_bound; lia|apply Z.div_le_upper_bound; lia]. }
  subst r'. cbn [ReqHeader] in Hlen. pose proof (signed_header_values o origin body member sig (ReqHeader r)) as (_ & _ & _ & _ & V5 & Vext). cbv zeta in V5, Vext.
  pose proof (signed_fields o origin body member sig (ReqHeader r)) as Hf. cbv zeta in Hf. fold label in Hf.
  specialize (Hf Hlab Hmem eq_refl eq_refl Ho3 Hct Hcomma Hcd). set (h' := wba_signed_headers _ _ _ _ _ _) in *.
  assert (wba_fields h' = Ok (MkFields label member [(label, MItem (MkItem (sfBinary sig) []))] [(label, MItem (plain origin))])) as Hfields.
  { apply Hf. intros name Hn. apply Hlen. set_solver. }
  set (f := MkFields _ _ _ _) in *. unfold request_nonce, request_param in Hnon. cbn [ReqHeader] in Hnon. rewrite Hfields in Hnon.
  change (Some nonce' = Some nonce) in Hnon. injection Hnon as ->.
  unfold VerifyWebBotAuthRequest, verify_configured. rewrite Hkeys. cbn [ReqHeader Body]. rewrite Hfields.
  destruct (readAndReplaceBody_buffered r content (wba_limit opts) Hb1 Hb2) as [kept ->]. fold body.
  set (r' := MkRequest _ _ _ _ _ _).
  destruct (signed_check o origin k body cr nonce sig (Method r) (ReqURL r) (Host r) (ReqHeader r) base (Unix now2) opts keys pub raw (ContentLength (buffered r content)) (Body (buffered r content)))
    as (c & Hc & E1 & E2 & E3 & E4 & E5); try done.
  { intros Hne. assert (HeaderGet h' contentDigestHeader = computeSHA256DigestHeaderForEncoding body BinaryEncodingRFC8941) as <-
      by (unfold HeaderGet; rewrite V5; by rewrite bool_decide_false). apply Hlen. by do 3 right; left. }
  { cbn in Hsig. injection Hsig as <-. apply Hpair. }
  change (wba_check opts keys (Unix now2) raw r' f body = Ok c) in Hc. rewrite Hc. pose proof (Hst c E1 E2) as Hrec. destruct (wba_record _ _ _ _ _) as [claimed st2]. cbn [fst] in Hrec. rewrite Hrec.
  cbn [mbind result_bind]. rewrite Hj. cbn [mbind result_bind fst]. by exists (wba_signer (Unix now2) c).
Qed.

End Signed.

(** ** A concrete signer and verifier *)

Module WbaToy.
Import SigProps.Toy.

#[export] Instance jo : Jose := {
  JoseThumbprint := λ k, match k with ThumbPub (EdKey p) => Some (stake 32 (p +:+ xs 32)) | _ => None end;
  JoseMarshal := λ p, match p with EdKey p => Some (MkJWK "" "OKP" "Ed25519" "" "" None "" (RawURLEncode p) "" "" "" "" "") | _ => None end;
  Ed25519Public := λ k, k;
}.

Definition agent : string := "https://agent.example".
Definition key : PrivKey := EdPriv (xs 32).
Definition jwk : JWK := match PublicDirectoryKey key with Ok k => k | Err _ => SigProps.Toy.jwk end.
Definition directory : WBAKeyResolver := λ origin kid,
  if bool_decide (origin = agent) then Ok (if bool_decide (Kid jwk = kid) then Some jwk else None) else Err (ResolveOther "no directory").
Definition verifier : WBAVerifyOptions := MkWBAOptions (Some directory) "" 0 ["seller.example"].
Definition sign_opts : WBASignOptions := MkWBASign agent "" 0 0 "".
Definition toy_nonce : string := RawURLEncode (xs 64).
Definition wba_req : Request := (SignWebBotAuthRequest key sign_opts (sec 1000) (Some (xs 64)) req).2.
Definition toy_store : MemoryReplayStore := NewMemoryReplayStore 10.
Definition toy_member : sfMember := wba_member sign_opts 1000 toy_nonce (Kid jwk) AlgEd25519 true.

(** The request is verified in second 1100, or later. *)
Abbreviation verify_at st now seen :=
  (VerifyWebBotAuthRequest verifier (st : option MemoryReplayStore) (Toy.sec now) (Toy.sec seen) (Toy.sec seen) "/mcp" wba_req BodyNil).
Definition toy_signer : VerifiedSigner :=
  MkSigner (Kid jwk) agent 1100 AlgEd25519 "sig1" (map serialize_item (wba_components "sig1" true)) ProfileTagWebBotAuth.

Lemma toy_accepted : verify_at (Some toy_store) 1100 1100 = (Ok toy_signer, (verify_at (Some toy_store) 1100 1100).2).
Proof. rewrite (surjective_pairing (verify_at (Some toy_store) 1100 1100)) at 1. assert ((verify_at (Some toy_store) 1100 1100).1 = Ok toy_signer) as -> by (vm_compute; reflexivity). reflexivity. Qed.

(** The verifier read its clock in the last second of the signature's window, before the rest
    of the body arrived: by then the store had forgotten the nonce. *)
Lemma slow_body_accepted_twice : (verify_at (verify_at (Some toy_store) 1100 1100).2 1360 1362).1 =
  Ok (MkSigner (Kid jwk) agent 1360 AlgEd25519 "sig1" (map serialize_item (wba_components "sig1" true)) ProfileTagWebBotAuth).
Proof. vm_compute. reflexivity. Qed.

(** A window below a second signs a request that expires when it is created. *)
Lemma short_window_expired :
  let o := MkWBASign agent "" 500000000 0 "" in let r' := (SignWebBotAuthRequest key o (sec 1000) (Some (xs 64)) req).2 in
  (SignWebBotAuthRequest key o (sec 1000) (Some (xs 64)) req).1 = Ok () ∧
  (VerifyWebBotAuthRequest verifier (Some toy_store) (sec 1000) (sec 1000) (sec 1000) "/mcp" r' BodyNil).1 =
    Err (WBAFailed (wbaFail 403 "sig1" "invalid signature lifetime")).
Proof. cbv zeta. split; vm_compute; reflexivity. Qed.

End WbaToy.
Import Toy WbaToy.

Lemma wba_accepts_only_authentic_witness :
  ∃ f body url k nonce created expires,
    wba_authentic (JO := jo) verifier directory 1100 "/mcp" wba_req toy_signer f body url k nonce created expires.
Proof.
  assert (in_int64 (Unix (Toy.sec 1100) - skewSeconds) ∧ in_int64 (Unix (Toy.sec 1100) + skewSeconds)) as [H1 H2] by (split; vm_compute; split; discriminate).
  destruct (wba_accepts_only_authentic verifier (Some toy_store) (Toy.sec 1100) (Toy.sec 1100) (Toy.sec 1100) "/mcp" wba_req BodyNil toy_signer
    (verify_at (Some toy_store) 1100 1100).2 H1 H2 toy_accepted) as (_ & keys & st & st' & f & body & url & k & nonce & created & expires & Hk & _ & _ & Ha & _).
  injection Hk as <-. exists f, body, url, k, nonce, created, expires. exact Ha.
Defined.

Lemma wba_nonce_accepted_once_witness :
  request_nonce wba_req = Some toy_nonce ∧
  ¬ (∃ signer st, AgentURL signer = agent ∧ verify_at (verify_at (Some toy_store) 1100 1100).2 1200 1360 = (Ok signer, st)).
Proof.
  assert (in_int64 (Unix (Toy.sec 1100) - skewSeconds) ∧ in_int64 (Unix (Toy.sec 1100) + skewSeconds)) as [H1 H2] by (split; vm_compute; split; discriminate).
  assert (request_nonce wba_req = Some toy_nonce) as Hn by (vm_compute; reflexivity).
  assert (request_expires wba_req = Some 1300%Z) as He by (vm_compute; reflexivity).
  assert (Unix (Toy.sec 1360) ≤ 1300 + skewSeconds)%Z as Hs by (vm_compute; discriminate).
  split; [exact Hn|]. intros (signer & st & Ha & E). revert E.
  exact (wba_nonce_accepted_once verifier (Some toy_store) (Toy.sec 1100) (Toy.sec 1100) (Toy.sec 1100) "/mcp" wba_req BodyNil toy_signer
    (verify_at (Some toy_store) 1100 1100).2 toy_nonce 1300 [] verifier (Toy.sec 1200) (Toy.sec 1360) (Toy.sec 1360) "/mcp" wba_req BodyNil signer st
    H1 H2 (Z.le_refl _) toy_accepted Hn He (Forall_nil_2 _) Hn Ha Hs).
Defined.

Lemma wba_signed_accepted_witness :
  ∃ signer, (verify_at (Some toy_store) 1100 1100).1 = Ok signer ∧ AgentURL signer = agent ∧ KeyID signer = Kid jwk ∧
    Label signer = "sig1" ∧ SignerAlgorithm signer = AlgEd25519.
Proof.
  assert (SignWebBotAuthRequest key sign_opts (Toy.sec 1000) (Some (Toy.xs 64)) Toy.req = (Ok (), wba_req)) as Hs.
  { unfold wba_req. rewrite (surjective_pairing (SignWebBotAuthRequest _ _ _ _ _)) at 1.
    assert ((SignWebBotAuthRequest key sign_opts (Toy.sec 1000) (Some (Toy.xs 64)) Toy.req).1 = Ok ()) as -> by (vm_compute; reflexivity). reflexivity. }
  apply (wba_signed_accepted key sign_opts (Toy.sec 1000) (Some (Toy.xs 64)) Toy.req wba_req agent jwk (Some "{}") 1000 toy_nonce verifier directory toy_store
    (Toy.sec 1100) (Toy.sec 1100) (Toy.sec 1100) "/mcp" BodyNil Hs).
  - vm_compute. reflexivity.
  - reflexivity.
  - constructor.
    + split_and!; vm_compute; reflexivity.
    + split_and!; [vm_compute; reflexivity..|]. exists (Toy.xs 32). split; [vm_compute; reflexivity|]. intros base. split.
      * cbn [Ed25519Sign Toy.sc]. unfold Toy.toy_sign. rewrite len_stake, !len_app. change (len (Toy.xs 64)) with 64. lia.
      * cbn [Ed25519Verify Toy.cr Ed25519Sign Toy.sc]. by apply bool_decide_true.
    + split; [vm_compute; reflexivity|]. split; [vm_compute; discriminate|]. split; [vm_compute; discriminate|].
      split; [vm_compute; split; discriminate|]. split; [vm_compute; split; discriminate|]. split; vm_compute; discriminate.
    + split_and!; [vm_compute; repeat constructor|vm_compute; reflexivity|vm_compute; discriminate].
    + split_and!; [vm_compute; reflexivity|vm_compute; discriminate|vm_compute; reflexivity|vm_compute; reflexivity].
    + vm_compute. reflexivity.
    + intros c E1 E2. unfold wba_record. rewrite E1, E2. vm_compute. reflexivity.
  - intros name Hn. rewrite !elem_of_cons, elem_of_nil in Hn. destruct Hn as [->|[->|[->|[->|[]]]]]; vm_compute; discriminate.
Defined.

(** A signature base does not tell the spellings of a method apart, nor uncovered headers. *)
Lemma wba_base_binds_witness :
  ToUpper "post" = ToUpper "POST" ∧
  field_value (ReqHeader wba_req) componentContentDigst [] = field_value (HeaderSet (ReqHeader wba_req) "X-Trace" "1") componentContentDigst [] ∧
  wbaSignatureBase "post" "https://seller.example/mcp" (ReqHeader wba_req) toy_member false =
    wbaSignatureBase "POST" "https://seller.example/mcp" (HeaderSet (ReqHeader wba_req) "X-Trace" "1") toy_member false.
Proof.
  set (m := toy_member). set (url := "https://seller.example/mcp").
  assert (∀ method, one_line (ToUpper method) = true → tame method url) as Ht.
  { intros method Hm. split; [done|]. split; [by vm_compute|]. intros u Hu. assert (ParseURL url = Some Toy.toy_url) as E by (vm_compute; reflexivity).
    rewrite E in Hu. injection Hu as <-. vm_compute. reflexivity. }
  assert (member_ok m) as Hm.
  { apply wba_member_ok; [reflexivity|vm_compute; discriminate|vm_compute; discriminate|apply sf_encoded|vm_compute; reflexivity|reflexivity]. }
  assert (wbaSignatureBase "post" url (ReqHeader wba_req) m false = wbaSignatureBase "POST" url (HeaderSet (ReqHeader wba_req) "X-Trace" "1") m false) as E
    by (vm_compute; reflexivity).
  assert (is_ok (wbaSignatureBase "post" url (ReqHeader wba_req) m false) = true) as Hok by (vm_compute; reflexivity).
  destruct (wbaSignatureBase "post" url (ReqHeader wba_req) m false) as [base|] eqn:E1; [|discriminate Hok]. clear Hok.
  destruct (wba_base_binds "post" url (ReqHeader wba_req) m "POST" url (HeaderSet (ReqHeader wba_req) "X-Trace" "1") m base "sig1" "{}")
    as (_ & H1 & _ & _ & H2); [apply Ht; by vm_compute|apply Ht; by vm_compute|exact Hm|exact Hm|exact E1|symmetry; exact E|reflexivity| |].
  - assert (forallb (λ id, bool_decide (id ∈ map serialize_item (member_list m))) (required_components "sig1" "{}") = true) as Hf by (vm_compute; reflexivity).
    rewrite forallb_forall in Hf. intros id Hid. by apply list_elem_of_In, Hf, bool_decide_eq_true in Hid.
  - split; [exact H1|]. split; [by apply H2|]. exact E.
Defined.

(** A replay is told the nonce to sign with. *)
Lemma wba_refusal_answers_witness :
  ∃ e, (verify_at (verify_at (Some toy_store) 1100 1100).2 1200 1200).1 = Err (WBAFailed e) ∧ answered Replayed e (Some (Toy.xs 64)) ∧
    noBody e = false.
Proof.
  destruct (verify_at (verify_at (Some toy_store) 1100 1100).2 1200 1200) as [res store'] eqn:E.
  assert (res = Err (WBAFailed (wbaReplayed "sig1"))) as ->.
  { change res with (res, store').1. rewrite <- E. vm_compute. reflexivity. }
  exists (wbaReplayed "sig1"). split; [done|].
  assert (∀ keys, Keys verifier = Some keys → resolver_ok keys) as Hkeys.
  { intros keys [= <-] origin kid e. unfold directory. by case_bool_decide. }
  assert (∀ b, Some (Toy.xs 64) = Some b → len b = wbaNonceBytes) as Hn by (intros b [= <-]; reflexivity).
  destruct (wba_refusal_answers _ _ _ _ _ _ _ _ _ _ (Some (Toy.xs 64)) Hkeys Hn E) as ((keys & st & why & _ & _ & _ & Ha) & _).
  split; [|reflexivity]. destruct why; [destruct Ha as [Ha _]; discriminate Ha..|exact Ha|destruct Ha as [_ Ha]; discriminate Ha].
Defined.
